(* ===== verification/_CoqProject ===== *)
-Q . S2P
Prelude.v
Wire.v
NnList.v
NnQueue.v
Hash.v
Priolist.v
Pipe.v
LbFq.v
Chunk.v
Msg.v
Dist.v
Protocol.v
Core.v
Attach.v
Toy.v
Pair.v
Pipeline.v
Bus.v
Trie.v
Pubsub.v
Rep.v
Fsm.v
Xreq.v
Req.v
Survey.v
Base64.v
Msgqueue.v
Timerset.v
Utf8.v
Cmsg.v
Usock.v
UsockSafe.v
Stream.v
StreamSafe.v
Iovec.v
Frames.v
SockState.v
Sock.v
SockOpt.v
SockSys.v
SockInv.v
SockSafe.v
Global.v
GlobalSafe.v
Device.v
WsState.v
Sws.v
SwsSafe.v
SwsFrames.v
SwsSession.v
Sinproc.v
InprocLink.v
InprocSafe.v
Inproc.v
