(* ===== verification/Prelude.v ===== *)
(** * Verification of the nanomsg core

    This library models the C library nanomsg under [src/nanomsg/src] and proves
    what makes its parts correct.  This file is the root: the header describes the
    whole, the rest holds what all components share.

    ** The program

    A socket of nanomsg consists of a protocol ([protocols/]), the core
    ([core/]) and transports ([transports/]).  A transport turns a connection into
    a pipe; the core attaches the pipe to the protocol of its socket; the protocol
    decides which pipe a message goes to or comes from.  State machines ([aio/])
    drive everything that waits: timers, connections, sockets.  Containers,
    messages and wire formats are in [utils/].

    ** Conventions

    A C function is a function on explicit state with results in [outcome]:
    [Ret] for a return, [Fail Abort] for a violated assertion, [Fail Crash] for an
    access outside a live object, [Fail Diverge] for a loop that exceeds its
    fuel.  A theorem "the call returns" hence excludes all three.  Integers are in
    [Z] with their wrap-around written out ([u8], [u32], [u64], [s32]); bytes are
    integers in [0..255]; the host has 64 bits and is little-endian.  [while] is
    the loop of the code; its fuel is a bound that the theorems show sufficient
    (the length of the data looped over, or a measure such as the number of items
    in a list plus one).  Definitions carry the names of the functions, blocks of
    a long function have names of their own.

    ** Files

    Containers and data.  [Wire]: utils/wire.c.  [NnList]: utils/list.c at the
    level of pointers; the class [ListStore] is what the other components use of
    it, [ListStoreOk] what it promises.  [NnQueue]: utils/queue.c.  [Hash]:
    utils/hash.c.  [Chunk]: utils/chunk.c with the memory of a chunk byte by byte.
    [Msg]: utils/chunkref.c and utils/msg.c over that heap; the protocols work on
    the values of messages ([vmsg]).  [Base64]: transports/utils/base64.c.

    Pipes.  [Priolist]: protocols/utils/priolist.c.  [Pipe]: core/pipe.c; the
    class [PipeOps] is what a protocol may call, [PipeOpsOk] what it can rely on,
    and the file discharges it for pipe.c over any transport that behaves as
    transport.h documents.  [LbFq], [Dist]: load balancing, fair queuing and
    distribution (protocols/utils/lb.c, fq.c, dist.c).  [Attach]: the pipes of a
    socket in these structures, with the lemmas all protocols share.

    Protocols.  [Protocol]: nn_sockbase_vfptr of protocol.h as the class [Proto]
    and [ProtoOk], the contract between the core and a protocol; [allowed] says
    when the core makes each call, and a session is any sequence of allowed calls.
    [Toy]: a concrete world of pipes for the examples.  [Pair] (pair/xpair.c,
    utils/excl.c), [Pipeline] (xpush.c, xpull.c), [Bus] (xbus.c, bus.c), [Trie]
    and [Pubsub] (trie.c, xpub.c, xsub.c), [Rep] (xrep.c, rep.c), [Xreq] and
    [Req] (xreq.c, req.c, task.c), [Survey] (xsurveyor.c, surveyor.c,
    xrespondent.c, respondent.c).

    State machines.  [Fsm]: aio/fsm.c and aio/timer.c with the worker thread's
    part in a timer and nn_ctx_leave; [Req] and [Survey] are machines built on it.
    [Timerset]: aio/timerset.c.

    Sockets.  [SockState], [Sock], [SockOpt]: core/sock.c and core/ep.c, the state
    of a socket, its machine and its endpoints, its options.  [SockSys]: the steps
    of user threads, transports and events, over any protocol of the class
    [SockProto]; [SockInv] the invariant, [SockSafe] its preservation and what
    follows.  [Frames]: the protocols touch their pipes by sending and receiving
    only.  [Global]: the table of sockets, reference counts and entry points of
    core/global.c as steps of threads; [GlobalSafe] their theorems.  [Iovec]: the
    data of nn_sendmsg and nn_recvmsg.  [Device]: devices/device.c.

    Transports.  [Msgqueue]: transports/inproc/msgqueue.c.  [Usock]:
    aio/usock_posix.inc over an explicit operating system, with the worker and its
    poller; [UsockSafe] what its owner can rely on.  [Stream]: the connections of
    TCP and IPC (utils/streamhdr.c, tcp/stcp.c, ipc/sipc.c) on such a socket, with
    their timer and their pipe; [StreamSafe] their invariant and theorems.
    [Sinproc]: an in-process connection (inproc/sinproc.c, binproc.c, cinproc.c):
    two sessions in two contexts and the events that threads carry from one to the
    other (aio/ctx.c); [InprocLink] what is under way in each direction,
    [InprocSafe] the invariant of both sides, [Inproc] the theorems.  [Utf8],
    [Cmsg], [WsState], [Sws]: transports/ws/sws.c, with nn_cmsg_nxthdr_ of core/global.c; [SwsSafe],
    [SwsFrames] and [SwsSession] hold its theorems.

    ** Theorems

    Containers refine their abstract counterparts for all sequences of
    operations: finite sequences (list.c), FIFO queues (queue.c, msgqueue.c),
    finite maps (hash.c), sixteen rotating lists (priolist.c), sorted timeouts
    (timerset.c), reference-counted byte strings (chunk.c).

    Pipes: the assertions of pipe.c never fire, and no wake-up is lost or doubled,
    by rule induction over the steps of pipes, transport, event queue and protocol.

    Messages: a send goes to the best pipe, round robin among equals; a
    distribution reaches every writable pipe once; receiving is fair; the reference
    count of a message in bulk copies balances.

    Protocols: every session of allowed calls returns, and the protocol keeps its
    contract: exclusiveness (pair), filtering (pub/sub), routing of replies to the
    asking pipe (rep), matching of replies to requests and retransmission (req),
    deadlines and matching of responses (survey), no echo (bus).

    Sockets: no step of a socket's machine fails an assertion, under every
    interleaving but for named races of closing a socket; a socket that is being closed is never stuck; NN_RCVFD and
    NN_SNDFD are readable exactly when they should be; endpoints and options.  No
    socket is used after it is freed, reference counts are exact, descriptors are
    given out and taken back exactly.  Devices choose and forward as documented.

    Operating system sockets: bytes go in and out in order, without loss, and each
    request is answered once.  TCP and IPC connections: the only ways a step can fail
    are named; what is on the wire; two ends deliver the messages that were sent.
    In-process connections: if events arrive in the order in which they matter, no
    step fails, the threads come to an end, closing completes, and the messages that
    were sent are delivered.

    WebSocket: whatever bytes a peer sends, a connection stays well formed and
    aborts in two named cases only; a sequence of well-formed frames whose texts are
    cut between code points is delivered as its messages; what one end sends the
    other end receives.

    Where the code fails, the theorem has the exception as a case or a hypothesis,
    which its comment names, and a lemma next to it shows the failure on an example
    ([StreamSafe.stream_faults], [Inproc.inproc_faults],
    [Trie.trie_convert_loses],
    [Req.req_stale_reply], [Chunk.chunk_realloc_grow_aborts],
    [Cmsg.cmsg_zero_len_loops] and others).

    ** Parameters

    The transport below a pipe and the socket below a WebSocket connection (events
    that the theorems quantify over), the pipes below a protocol (any instance of
    [PipeOps] with its laws), the protocol below a socket ([SockProto] with its
    laws), what the operating system delivers and takes on a connected socket, the
    states of a socket that is being accepted, malloc (a predicate on sizes, and
    arbitrary contents of new memory), the random numbers, the clock, and the
    peer's bytes.

    ** Not modelled

    The operating system glue (mutexes, threads, pollers, eventfd: calls of the
    system with little logic of their own; the code runs under the lock of one
    context, and the steps of the models are the critical sections).  Opening,
    binding and accepting sockets, and the machines of the TCP, IPC and WebSocket
    endpoints that do so: the theorems about sockets, pipes and
    connections quantify over what they report and when.  The registry of in-process names
    (inproc/ins.c), and in-process endpoints with more than one connection.  The
    opening handshake of WebSocket: its outcome is an event of [Sws].  core/symbol.c and core/poll.c (a
    table of names, a wrapper of poll).  The tools, the tests and the C# wrapper. *)
From Stdlib Require Export ZArith Lia.
From stdpp Require Export base tactics option list numbers gmap.

#[global] Open Scope Z_scope.

(** ** Outcomes *)

(** The ways a C call can fail to return. *)
Inductive fault : Set :=
| Abort      (* nn_assert, errnum_assert, nn_fsm_bad_* call abort() *)
| Crash      (* an access outside a live object: NULL, dangling, out of bounds *)
| Diverge.   (* the model ran out of fuel *)

Inductive outcome (A : Type) : Type :=
| Ret (a : A)
| Fail (f : fault).
Arguments Ret {A} a.
Arguments Fail {A} f.

#[export] Instance outcome_ret : MRet outcome := @Ret.
#[export] Instance outcome_bind : MBind outcome := λ A B k m,
  match m with Ret a => k a | Fail f => Fail f end.

(** [nn_assert (x)] of utils/err.h: aborts the process when [x] is false. *)
Definition nn_assert (b : bool) : outcome unit :=
  if b then Ret tt else Fail Abort.

(** A load through a pointer that must be valid. *)
Definition deref {A} (o : option A) : outcome A :=
  match o with Some a => Ret a | None => Fail Crash end.

(** ** Machine integers *)

Definition u8 (z : Z) : Z := z mod 2 ^ 8.
Definition u16 (z : Z) : Z := z mod 2 ^ 16.
Definition u32 (z : Z) : Z := z mod 2 ^ 32.
Definition u64 (z : Z) : Z := z mod 2 ^ 64.
(** A 32-bit signed [int] with two's complement wrap-around. *)
Definition s32 (z : Z) : Z := (z + 2 ^ 31) mod 2 ^ 32 - 2 ^ 31.

Definition is_byte (z : Z) : Prop := 0 ≤ z < 256.
Definition bytes (l : list Z) : Prop := Forall is_byte l.

(** ** Buffers: [buf\[i\]] and [buf\[i\] = v] with C's bounds *)

Definition rd (buf : list Z) (i : nat) : outcome Z := deref (buf !! i).

Definition wr (buf : list Z) (i : nat) (v : Z) : outcome (list Z) :=
  if decide (i < length buf)%nat then Ret (<[i := v]> buf) else Fail Crash.

Lemma is_byte_u8 v : is_byte (u8 v).
Proof. apply Z.mod_pos_bound. lia. Qed.

Lemma bytes_nil : bytes [].
Proof. constructor. Qed.

Lemma bytes_cons b l : is_byte b → bytes l → bytes (b :: l).
Proof. by constructor. Qed.

Lemma bytes_app l1 l2 : bytes l1 → bytes l2 → bytes (l1 ++ l2).
Proof. intros. by apply Forall_app. Qed.

Lemma bytes_take n l : bytes l → bytes (take n l).
Proof. apply Forall_take. Qed.

Lemma bytes_drop n l : bytes l → bytes (drop n l).
Proof. apply Forall_drop. Qed.

(** [auto with nano] shows that a buffer built by the code holds bytes. *)
Create HintDb nano.
#[export] Hint Resolve is_byte_u8 bytes_nil bytes_cons bytes_app bytes_take bytes_drop : nano.

(** ** Error numbers (the values of a Linux host; EFSM is nn.h's own) *)

Definition EINTR : Z := 4.
Definition EBADF : Z := 9.
Definition EAGAIN : Z := 11.
Definition ENOMEM : Z := 12.
Definition ENODEV : Z := 19.
Definition EINVAL : Z := 22.
Definition ENOPROTOOPT : Z := 92.
Definition ENOTSUP : Z := 95.
Definition EADDRINUSE : Z := 98.
Definition ECONNRESET : Z := 104.
Definition ENOBUFS : Z := 105.
Definition EISCONN : Z := 106.
Definition ETIMEDOUT : Z := 110.
Definition NN_HAUSNUMERO : Z := 156384712.
Definition EFSM : Z := NN_HAUSNUMERO + 54.

(** ** Tactics and lemmas on outcomes *)

Lemma bind_Ret {A B} (m : outcome A) (k : A → outcome B) b :
  m ≫= k = Ret b ↔ ∃ a, m = Ret a ∧ k a = Ret b.
Proof.
  destruct m as [a|f]; cbn; split; [eauto | by intros (? & [= <-] & ?) |done|].
  by intros (? & ? & ?).
Qed.

Lemma bind_assoc {A B C} (m : outcome A) (k : A → outcome B) (h : B → outcome C) :
  (m ≫= k) ≫= h = m ≫= (λ a, k a ≫= h).
Proof. by destruct m. Qed.

Lemma nn_assert_Ret b u : nn_assert b = Ret u ↔ b = true.
Proof. destruct b, u; cbn; naive_solver. Qed.

Lemma deref_Ret {A} (o : option A) a : deref o = Ret a ↔ o = Some a.
Proof. destruct o; cbn; naive_solver. Qed.

(** Evaluating a call on concrete data: it returns a value that satisfies [f]. *)
Definition ret_check {A} (f : A → bool) (m : outcome A) : bool :=
  match m with Ret a => f a | Fail _ => false end.

Lemma ret_check_ok {A} (f : A → bool) m : ret_check f m = true → ∃ a, m = Ret a ∧ f a = true.
Proof. destruct m as [a|]; cbn; [by exists a|done]. Qed.

(** One step of a call that is known to return. *)
Ltac step := cbn [mbind outcome_bind deref nn_assert].

(** [inv_ret] turns hypotheses "a sequence of calls returned" into one
    hypothesis per call. *)
Ltac inv_ret :=
  repeat match goal with
  | H : mbind _ _ = Ret _ |- _ => apply bind_Ret in H as (? & ? & ?)
  | H : Ret _ = Ret _ |- _ => injection H as H; simplify_eq
  | H : mret _ = Ret _ |- _ => change (Ret _ = Ret _) in H
  | H : nn_assert _ = Ret _ |- _ => apply nn_assert_Ret in H
  | H : deref _ = Ret _ |- _ => apply deref_Ret in H
  | H : Fail _ = Ret _ |- _ => discriminate H
  | H : Ret _ = Fail _ |- _ => discriminate H
  | x : _ * _ |- _ => destruct x
  end.

(** ** Loops

    [while (1) { body }]: the body says whether the loop ends ([Some]). *)
Fixpoint while {S R : Type} (fuel : nat) (body : S → outcome (S * option R)) (s : S) :
    outcome (S * R) :=
  match fuel with
  | O => Fail Diverge
  | S fuel =>
      '(s, r) ← body s;
      match r with Some r => Ret (s, r) | None => while fuel body s end
  end.

(** A loop with an invariant [I] and a decreasing measure [μ] ends in [Post]. *)
Lemma while_ok {S R : Type} (I : S → Prop) (μ : S → nat) (Post : S → R → Prop) body :
  (∀ s, I s → ∃ s' r, body s = Ret (s', r) ∧
     match r with Some r => Post s' r | None => I s' ∧ (μ s' < μ s)%nat end) →
  ∀ fuel s, I s → (μ s < fuel)%nat →
    ∃ s' r, while fuel body s = Ret (s', r) ∧ Post s' r.
Proof.
  intros Hb. induction fuel as [|fuel IH]; intros s Hi Hf; [lia|]. cbn.
  destruct (Hb s Hi) as (s' & [r|] & -> & Hr); step; [by exists s', r|].
  destruct Hr as [Hi' Hlt]. apply IH; [done|lia].
Qed.

(** ** Refinement of operation sequences

    [run step s os] executes the operations [os] one after the other and
    collects their results; [spec_run spec σ os] is the same for a
    specification, [None] when an operation is used outside its contract. *)

Section refinement.
Context {S Σ O R : Type}.

Fixpoint run (step : S → O → outcome (S * R)) (s : S) (os : list O) : outcome (S * list R) :=
  match os with
  | [] => Ret (s, [])
  | o :: os => '(s, r) ← step s o; '(s, rs) ← run step s os; Ret (s, r :: rs)
  end.

Fixpoint spec_run (spec : Σ → O → option (Σ * R)) (σ : Σ) (os : list O) :
    option (Σ * list R) :=
  match os with
  | [] => Some (σ, [])
  | o :: os => '(σ, r) ← spec σ o; '(σ, rs) ← spec_run spec σ os; Some (σ, r :: rs)
  end.

(** Forward simulation: if every operation implements its specification, so
    does every sequence of operations. *)
Lemma run_refines (I : S → Σ → Prop) step spec :
  (∀ s σ o σ' r, I s σ → spec σ o = Some (σ', r) →
     ∃ s', step s o = Ret (s', r) ∧ I s' σ') →
  ∀ os s σ σ' rs, I s σ → spec_run spec σ os = Some (σ', rs) →
    ∃ s', run step s os = Ret (s', rs) ∧ I s' σ'.
Proof.
  intros Hstep. induction os as [|o os IH]; intros s σ σ' rs HI; cbn.
  - intros [= <- <-]. by exists s.
  - destruct (spec σ o) as [[σ1 r]|] eqn:Eo; [cbn|done].
    destruct (spec_run spec σ1 os) as [[σ2 rs']|] eqn:Eos; [cbn|done]. intros [= <- <-].
    destruct (Hstep _ _ _ _ _ HI Eo) as (s1 & -> & HI1).
    destruct (IH _ _ _ _ HI1 Eos) as (s2 & E & ?). cbn. rewrite E. by exists s2.
Qed.

End refinement.

(** ** Lists without duplicates *)

Lemma NoDup_middle {A} (pre post : list A) x :
  NoDup (pre ++ x :: post) → x ∉ pre ∧ x ∉ post ∧ NoDup (pre ++ post).
Proof.
  rewrite !NoDup_app, NoDup_cons. intros (Hp & Hd & Hx & Hq).
  split_and!; [|done|done| |done].
  - intros Hin. apply (Hd x Hin). set_solver.
  - intros y Hy Hy'. apply (Hd y Hy). set_solver.
Qed.

Lemma NoDup_middle_2 {A} (pre post : list A) x :
  NoDup (pre ++ post) → x ∉ pre → x ∉ post → NoDup (pre ++ x :: post).
Proof.
  rewrite !NoDup_app, NoDup_cons. intros (Hp & Hd & Hq) ??.
  split_and!; [done| |done|done]. intros y Hy Hin.
  apply elem_of_cons in Hin as [->|]; [done|by apply (Hd y)].
Qed.

Lemma filter_ne_notin `{EqDecision A} (x : A) (l : list A) : x ∉ l → filter (λ y, y ≠ x) l = l.
Proof.
  induction l as [|y l IH]; [done|]. intros [??]%not_elem_of_cons.
  by rewrite filter_cons_True, IH by done.
Qed.

Lemma filter_ne_middle `{EqDecision A} (x : A) (pre post : list A) :
  x ∉ pre → x ∉ post → filter (λ y, y ≠ x) (pre ++ x :: post) = pre ++ post.
Proof.
  intros H1 H2. rewrite filter_app, filter_cons_False by naive_solver.
  by rewrite !filter_ne_notin.
Qed.

Lemma alter_insert_lookup {A} (f : A → A) (l : list A) i a :
  l !! i = Some a → alter f i l = <[i := f a]> l.
Proof.
  intros Hi. apply list_eq. intros j. destruct (decide (i = j)) as [<-|].
  - rewrite list_lookup_alter_eq, Hi, list_lookup_insert_eq; [done|]. by eapply lookup_lt_Some.
  - by rewrite list_lookup_alter_ne, list_lookup_insert_ne by done.
Qed.

Lemma list_lookup_insert_cases {A} (l : list A) i j a b :
  <[i := a]> l !! j = Some b → (j = i ∧ b = a) ∨ (j ≠ i ∧ l !! j = Some b).
Proof.
  intros Hj. apply list_lookup_insert_Some in Hj as [(-> & -> & _)|[? ?]]; auto.
Qed.

Lemma split_unique {A} (x : A) pre post pre' post' :
  pre ++ x :: post = pre' ++ x :: post' → x ∉ pre → x ∉ pre' → pre = pre' ∧ post = post'.
Proof.
  revert pre'. induction pre as [|y pre IH]; intros [|y' pre']; cbn;
    rewrite ?not_elem_of_cons; intros He ??; simplify_eq; naive_solver.
Qed.

Lemma filter_ext_in {A} (P Q : A → Prop) `{!∀ x, Decision (P x), !∀ x, Decision (Q x)}
    (l : list A) :
  (∀ x, x ∈ l → P x ↔ Q x) → filter P l = filter Q l.
Proof.
  induction l as [|x l IH]; intros He; [done|]. rewrite !filter_cons.
  rewrite IH by (intros; apply He; set_solver).
  destruct (decide (P x)) as [Hp|Hp]; destruct (decide (Q x)) as [Hq|Hq]; try done;
    exfalso; [apply Hq|apply Hp]; apply (He x); set_solver.
Qed.

(** ** Counting the entries of a map *)
Section mcount.
Context {A : Type} (P : A → Prop) `{!∀ a, Decision (P a)}.

Definition mcount (m : gmap positive A) : nat := size (filter (λ x, P x.2) m).
Definition bcount (a : A) : nat := if decide (P a) then 1%nat else 0%nat.

Lemma mcount_new m i a : m !! i = None → mcount (<[i := a]> m) = (mcount m + bcount a)%nat.
Proof.
  intros Hi. unfold mcount, bcount. rewrite map_filter_insert. cbn. case_decide as Hd.
  - rewrite map_size_insert_None; [lia|]. apply map_lookup_filter_None. auto.
  - rewrite map_filter_delete, delete_id; [lia|]. apply map_lookup_filter_None. auto.
Qed.

Lemma mcount_delete m i a : m !! i = Some a → mcount m = (mcount (delete i m) + bcount a)%nat.
Proof. intros Hi. rewrite <- (insert_delete_id m i a Hi) at 1. apply mcount_new, lookup_delete_eq. Qed.

Lemma mcount_update m i a a' : m !! i = Some a → (mcount (<[i := a']> m) + bcount a = mcount m + bcount a')%nat.
Proof.
  intros Hi. rewrite (mcount_delete m i a Hi), <- insert_delete_eq.
  rewrite mcount_new by apply lookup_delete_eq. lia.
Qed.

Lemma mcount_le m : (mcount m ≤ size m)%nat.
Proof. apply map_subseteq_size, map_filter_subseteq. Qed.

Lemma mcount_pos m i a : m !! i = Some a → P a → (1 ≤ mcount m)%nat.
Proof.
  intros Hi Ha. pose proof (mcount_delete m i a Hi) as Hd. unfold bcount in Hd.
  rewrite decide_True in Hd by done. lia.
Qed.

Lemma mcount_none m : (∀ i a, m !! i = Some a → ¬ P a) → mcount m = 0%nat.
Proof.
  intros Hn. unfold mcount. rewrite map_size_empty_iff. apply map_empty. intros i.
  apply map_lookup_filter_None. right. intros a Ha. cbn. by apply (Hn i).
Qed.

(** The entry at [i] becomes [o]. *)
Definition ocount (o : option A) : nat := from_option bcount 0%nat o.
Lemma mcount_alter m i o :
  (mcount (partial_alter (λ _, o) i m) + ocount (m !! i) = mcount m + ocount o)%nat.
Proof.
  destruct o as [a|]; cbn.
  - change (partial_alter (λ _, Some a) i m) with (<[i := a]> m). destruct (m !! i) as [a'|] eqn:Hi; cbn.
    + by apply mcount_update.
    + rewrite mcount_new by done. lia.
  - change (partial_alter (λ _, None) i m) with (delete i m). destruct (m !! i) as [a'|] eqn:Hi; cbn.
    + rewrite (mcount_delete m i a') by done. lia.
    + rewrite delete_id by done. lia.
Qed.

Lemma bcount_true a : P a → bcount a = 1%nat.
Proof. intros. unfold bcount. by rewrite decide_True. Qed.
Lemma bcount_false a : ¬ P a → bcount a = 0%nat.
Proof. intros. unfold bcount. by rewrite decide_False. Qed.
End mcount.

Lemma mcount_mono {A} (P Q : A → Prop) `{!∀ a, Decision (P a), !∀ a, Decision (Q a)} (m : gmap positive A) :
  (∀ a, P a → Q a) → (mcount P m ≤ mcount Q m)%nat.
Proof. intros HPQ. apply map_subseteq_size, map_filter_subseteq_ext. intros i a _. apply HPQ. Qed.
