(* ===== verification/Wire.v ===== *)
(** * utils/wire.c: network byte order

    The six accessors of utils/wire.c on a buffer of bytes, and their relation
    to the big-endian reference functions [be_combine] and [be_split]. *)
From S2P Require Import Prelude.

(** ** The code *)

Definition nn_gets (buf : list Z) : outcome Z :=
  b0 ← rd buf 0; b1 ← rd buf 1;
  Ret (u16 (Z.lor (Z.shiftl b0 8) b1)).

Definition nn_puts (buf : list Z) (val : Z) : outcome (list Z) :=
  buf ← wr buf 0 (u8 (Z.land (Z.shiftr val 8) 0xff));
  wr buf 1 (u8 (Z.land val 0xff)).

Definition nn_getl (buf : list Z) : outcome Z :=
  b0 ← rd buf 0; b1 ← rd buf 1; b2 ← rd buf 2; b3 ← rd buf 3;
  Ret (Z.lor (Z.lor (Z.lor (u32 (Z.shiftl b0 24)) (u32 (Z.shiftl b1 16)))
                    (u32 (Z.shiftl b2 8))) b3).

Definition nn_putl (buf : list Z) (val : Z) : outcome (list Z) :=
  buf ← wr buf 0 (u8 (Z.land (Z.shiftr val 24) 0xff));
  buf ← wr buf 1 (u8 (Z.land (Z.shiftr val 16) 0xff));
  buf ← wr buf 2 (u8 (Z.land (Z.shiftr val 8) 0xff));
  wr buf 3 (u8 (Z.land val 0xff)).

Definition nn_getll (buf : list Z) : outcome Z :=
  b0 ← rd buf 0; b1 ← rd buf 1; b2 ← rd buf 2; b3 ← rd buf 3;
  b4 ← rd buf 4; b5 ← rd buf 5; b6 ← rd buf 6; b7 ← rd buf 7;
  Ret (Z.lor (Z.lor (Z.lor (Z.lor (Z.lor (Z.lor (Z.lor
        (u64 (Z.shiftl b0 56)) (u64 (Z.shiftl b1 48))) (u64 (Z.shiftl b2 40)))
        (u64 (Z.shiftl b3 32))) (u64 (Z.shiftl b4 24))) (u64 (Z.shiftl b5 16)))
        (u64 (Z.shiftl b6 8))) b7).

Definition nn_putll (buf : list Z) (val : Z) : outcome (list Z) :=
  buf ← wr buf 0 (u8 (Z.land (Z.shiftr val 56) 0xff));
  buf ← wr buf 1 (u8 (Z.land (Z.shiftr val 48) 0xff));
  buf ← wr buf 2 (u8 (Z.land (Z.shiftr val 40) 0xff));
  buf ← wr buf 3 (u8 (Z.land (Z.shiftr val 32) 0xff));
  buf ← wr buf 4 (u8 (Z.land (Z.shiftr val 24) 0xff));
  buf ← wr buf 5 (u8 (Z.land (Z.shiftr val 16) 0xff));
  buf ← wr buf 6 (u8 (Z.land (Z.shiftr val 8) 0xff));
  wr buf 7 (u8 (Z.land val 0xff)).

(** [nn_puts] and [nn_putll] at an offset of a buffer. *)
Definition puts_at (m : list Z) (o : nat) (v : Z) : outcome (list Z) :=
  t ← nn_puts (drop o m) v; Ret (take o m ++ t).
Definition putll_at (m : list Z) (o : nat) (v : Z) : outcome (list Z) :=
  t ← nn_putll (drop o m) v; Ret (take o m ++ t).

(** ** Reference: big-endian numbers *)

Definition be_combine (l : list Z) : Z :=
  foldl (λ acc b, Z.lor (Z.shiftl acc 8) b) 0 l.

Fixpoint be_split (n : nat) (v : Z) : list Z :=
  match n with
  | O => []
  | S n => be_split n (Z.shiftr v 8) ++ [Z.land v 0xff]
  end.

(** ** Lemmas *)

Lemma land_ff v : Z.land v 0xff = v mod 256.
Proof. change 0xff with (Z.ones 8). by rewrite Z.land_ones by lia. Qed.

Lemma is_byte_land v : is_byte (Z.land v 0xff).
Proof. rewrite land_ff. unfold is_byte. apply Z.mod_pos_bound. lia. Qed.

Lemma u8_byte b : is_byte b → u8 b = b.
Proof. intros. apply Z.mod_small. done. Qed.

Lemma u8_land v : u8 (Z.land v 0xff) = Z.land v 0xff.
Proof. apply u8_byte, is_byte_land. Qed.

Lemma shiftl_lor_add a b n :
  0 ≤ n → 0 ≤ b < 2 ^ n → Z.lor (Z.shiftl a n) b = a * 2 ^ n + b.
Proof.
  intros Hn Hb. rewrite <- Z.add_lor_land, Z.shiftl_mul_pow2 by done.
  enough (Z.land (a * 2 ^ n) b = 0) by lia.
  rewrite <- Z.shiftl_mul_pow2 by done. apply Z.bits_inj'. intros i Hi.
  rewrite Z.land_spec, Z.bits_0, Z.shiftl_spec by done.
  destruct (decide (i < n)).
  - by rewrite Z.testbit_neg_r by lia.
  - destruct (decide (b = 0)) as [->|]; [by rewrite Z.bits_0, andb_false_r|].
    rewrite (Z.bits_above_log2 b); [by rewrite andb_false_r|lia|].
    apply Z.log2_lt_pow2; [lia|]. apply Z.lt_le_trans with (2 ^ n); [lia|].
    apply Z.pow_le_mono_r; lia.
Qed.

Lemma shiftl8_lor a b : is_byte b → Z.lor (Z.shiftl a 8) b = a * 256 + b.
Proof. intros. by rewrite shiftl_lor_add. Qed.

Lemma length_be_split n v : length (be_split n v) = n.
Proof. revert v. induction n; intros; cbn; [done|]. rewrite length_app, IHn. cbn. lia. Qed.

Lemma be_split_bytes n v : bytes (be_split n v).
Proof.
  revert v. unfold bytes. induction n; intros; cbn; [constructor|].
  rewrite Forall_app. split; [done|]. repeat constructor; apply is_byte_land.
Qed.

#[export] Hint Resolve is_byte_land be_split_bytes : nano.

Lemma be_combine_snoc l b : be_combine (l ++ [b]) = Z.lor (Z.shiftl (be_combine l) 8) b.
Proof. unfold be_combine. by rewrite foldl_app. Qed.

Lemma be_combine_split n v :
  0 ≤ v < 2 ^ (8 * Z.of_nat n) → be_combine (be_split n v) = v.
Proof.
  revert v. induction n as [|n IH]; intros v Hv.
  - cbn in *. lia.
  - cbn [be_split]. rewrite be_combine_snoc, IH.
    + rewrite shiftl8_lor by apply is_byte_land. rewrite land_ff, Z.shiftr_div_pow2 by lia.
      change (2 ^ 8) with 256. pose proof (Z.div_mod v 256). lia.
    + rewrite Z.shiftr_div_pow2 by lia. split; [apply Z.div_pos; lia|].
      apply Z.div_lt_upper_bound; [lia|]. rewrite <- Z.pow_add_r by lia.
      replace (8 + 8 * Z.of_nat n) with (8 * Z.of_nat (S n)) by lia. lia.
Qed.

Lemma be_split_combine l : bytes l → be_split (length l) (be_combine l) = l.
Proof.
  unfold bytes. induction l as [|b l IH] using rev_ind; intros Hl; [done|].
  apply Forall_app in Hl as [Hl Hb]. apply Forall_cons_1 in Hb as [Hb _].
  rewrite length_app, Nat.add_comm. cbn [length Nat.add be_split].
  rewrite be_combine_snoc, shiftl8_lor by done. f_equal.
  - rewrite <- (IH Hl) at 3. f_equal. rewrite Z.shiftr_div_pow2 by lia.
    change (2 ^ 8) with 256. rewrite Z.div_add_l by lia.
    rewrite Z.div_small by exact Hb. lia.
  - rewrite land_ff. rewrite Z.add_comm, Z.mod_add by lia. by rewrite Z.mod_small by exact Hb.
Qed.

Lemma be_combine_range l : bytes l → 0 ≤ be_combine l < 2 ^ (8 * Z.of_nat (length l)).
Proof.
  unfold bytes. induction l as [|b l IH] using rev_ind; intros Hl; [done|].
  apply Forall_app in Hl as [Hl Hb]. apply Forall_cons_1 in Hb as [Hb _]. unfold is_byte in Hb.
  rewrite be_combine_snoc, shiftl8_lor by done. specialize (IH Hl).
  rewrite length_app. cbn [length].
  replace (8 * Z.of_nat (length l + 1)) with (8 * Z.of_nat (length l) + 8) by lia.
  rewrite Z.pow_add_r by lia. change (2 ^ 8) with 256. lia.
Qed.

Lemma shiftr_shiftr8 v n : 0 ≤ n → Z.shiftr (Z.shiftr v n) 8 = Z.shiftr v (n + 8).
Proof. intros. by rewrite Z.shiftr_shiftr by lia. Qed.

(** Unfolds reads and writes at literal indices of a buffer whose first cells
    are known. *)
Ltac buf_simpl := cbn [rd wr deref lookup list_lookup insert list_insert length
  outcome_bind mbind decide decide_rel].

Lemma nn_putl_be a b c d rest v :
  nn_putl (a :: b :: c :: d :: rest) v = Ret (be_split 4 v ++ rest).
Proof.
  unfold nn_putl, wr. cbn. rewrite !u8_land, !Z.shiftr_shiftr by lia. done.
Qed.

Lemma nn_puts_be a b rest v :
  nn_puts (a :: b :: rest) v = Ret (be_split 2 v ++ rest).
Proof. unfold nn_puts, wr. cbn. rewrite !u8_land. done. Qed.

Lemma nn_putll_be a b c d e f g h rest v :
  nn_putll (a :: b :: c :: d :: e :: f :: g :: h :: rest) v = Ret (be_split 8 v ++ rest).
Proof. unfold nn_putll, wr. cbn. rewrite !u8_land, !Z.shiftr_shiftr by lia. done. Qed.

Lemma byte_shiftl_bound b n : is_byte b → 0 ≤ n → 0 ≤ Z.shiftl b n < 2 ^ (8 + n).
Proof.
  unfold is_byte. intros. rewrite Z.shiftl_mul_pow2, Z.pow_add_r by lia.
  pose proof (Z.pow_pos_nonneg 2 n). change (2 ^ 8) with 256. nia.
Qed.

Lemma shiftl_small w b n :
  is_byte b → 0 ≤ n → 8 + n ≤ w → Z.shiftl b n mod 2 ^ w = Z.shiftl b n.
Proof.
  intros Hb Hn Hw. pose proof (byte_shiftl_bound b n Hb Hn).
  pose proof (Z.pow_le_mono_r 2 (8 + n) w). apply Z.mod_small. lia.
Qed.

Ltac be_norm :=
  unfold be_combine; cbn [foldl];
  rewrite ?Z.shiftl_0_l, ?Z.lor_0_l;
  rewrite ?Z.shiftl_lor, ?Z.shiftl_shiftl by lia; done.

Lemma nn_gets_be a b rest :
  bytes [a; b] → nn_gets (a :: b :: rest) = Ret (be_combine [a; b]).
Proof.
  intros H. repeat (apply Forall_cons in H as [? H]).
  unfold nn_gets, u16. cbn -[Z.modulo]. rewrite Z.mod_small; [by be_norm|].
  rewrite shiftl8_lor by done. unfold is_byte in *. lia.
Qed.

Lemma nn_getl_be a b c d rest :
  bytes [a; b; c; d] → nn_getl (a :: b :: c :: d :: rest) = Ret (be_combine [a; b; c; d]).
Proof.
  intros H. repeat (apply Forall_cons in H as [? H]).
  unfold nn_getl, u32. cbn -[Z.modulo]. rewrite !shiftl_small by (done || lia). by be_norm.
Qed.

Lemma nn_getll_be a b c d e f g h rest :
  bytes [a; b; c; d; e; f; g; h] →
  nn_getll (a :: b :: c :: d :: e :: f :: g :: h :: rest) =
    Ret (be_combine [a; b; c; d; e; f; g; h]).
Proof.
  intros H. repeat (apply Forall_cons in H as [? H]).
  unfold nn_getll, u64. cbn -[Z.modulo]. rewrite !shiftl_small by (done || lia). by be_norm.
Qed.

(** The form clients use: reading back the four bytes of a header. *)
Lemma nn_getl_split v rest :
  0 ≤ v < 2 ^ 32 → nn_getl (be_split 4 v ++ rest) = Ret v.
Proof.
  intros Hv. pose proof (be_split_bytes 4 v) as Hb.
  rewrite <- (be_combine_split 4 v) at 2 by done.
  by apply nn_getl_be.
Qed.

Lemma nn_gets_split v rest :
  0 ≤ v < 2 ^ 16 → nn_gets (be_split 2 v ++ rest) = Ret v.
Proof.
  intros Hv. rewrite <- (be_combine_split 2 v) at 2 by done.
  apply nn_gets_be, (be_split_bytes 2 v).
Qed.

Lemma nn_getl_range buf v : bytes buf → nn_getl buf = Ret v → 0 ≤ v < 2 ^ 32.
Proof.
  intros Hb Hv. destruct buf as [|a [|b [|c [|d buf]]]]; try done.
  pose proof (bytes_take 4 _ Hb) as Hb'.
  rewrite nn_getl_be in Hv by done. injection Hv as <-. by apply (be_combine_range [a; b; c; d]).
Qed.

(** The accessors of all three widths are mutually inverse with their
    writers: what was put is read back, and rewriting what was read leaves the
    buffer unchanged. *)
Theorem wire_roundtrip buf v :
  (8 ≤ length buf)%nat → bytes buf → 0 ≤ v →
  (v < 2 ^ 16 → (nn_puts buf v ≫= nn_gets) = Ret v) ∧
  (v < 2 ^ 32 → (nn_putl buf v ≫= nn_getl) = Ret v) ∧
  (v < 2 ^ 64 → (nn_putll buf v ≫= nn_getll) = Ret v) ∧
  (nn_gets buf ≫= nn_puts buf) = Ret buf ∧
  (nn_getl buf ≫= nn_putl buf) = Ret buf ∧
  (nn_getll buf ≫= nn_putll buf) = Ret buf.
Proof.
  intros Hl Hb Hv.
  destruct buf as [|a [|b [|c [|d [|e [|f [|g [|h r]]]]]]]]; cbn in Hl; try lia.
  pose proof (bytes_take 8 _ Hb) as H8. pose proof (bytes_take 4 _ Hb) as H4.
  pose proof (bytes_take 2 _ Hb) as H2. cbv [firstn] in H8, H4, H2.
  pose proof (be_split_combine _ H8) as E8. pose proof (be_split_combine _ H4) as E4.
  pose proof (be_split_combine _ H2) as E2. cbn [length] in E8, E4, E2.
  rewrite nn_puts_be, nn_putl_be, nn_putll_be, nn_gets_be, nn_getl_be, nn_getll_be by done.
  cbn [mbind outcome_bind]. rewrite nn_puts_be, nn_putl_be, nn_putll_be, E2, E4, E8.
  split_and!; try done; intros Hlt.
  - by apply nn_gets_split.
  - by apply nn_getl_split.
  - rewrite <- (be_combine_split 8 v) at 2 by done.
    apply nn_getll_be, (be_split_bytes 8 v).
Qed.

Lemma wire_roundtrip_witness :
  (nn_putl [0; 0; 0; 0; 9; 9; 9; 9] 0x80000007 ≫= nn_getl) = Ret 0x80000007.
Proof.
  apply (wire_roundtrip [0; 0; 0; 0; 9; 9; 9; 9] 0x80000007);
    [cbn; lia | repeat constructor; done | lia | lia].
Defined.
