(* ===== verification/NnList.v ===== *)
(** * utils/list.c: intrusive doubly linked lists

    [Module Ptr] is the C code: a store of list items (the [nn_list_item]
    structures embedded in pipes, timers, hash items, ...) and of list headers,
    updated pointer by pointer.  [ListStore] is the interface the rest of the
    library programs against and [ListStoreOk] what it promises: the store
    represents one finite sequence of items per list, plus a set of items that
    are in no list.  The last section discharges the promise for [Ptr]. *)
From S2P Require Import Prelude.

(** Address of an [nn_list_item] (never NULL), and of an [nn_list]: the object
    that embeds it and its index there. *)
Notation addr := positive (only parsing).
Notation lid := (Z * Z)%type (only parsing).

(** ** The sequences a store represents *)

Record lspec := LSpec { lseq : gmap lid (list addr); lfree : gset addr }.

Definition lspec_set (σ : lspec) (l : lid) (xs : list addr) : lspec :=
  LSpec (<[l := xs]> (lseq σ)) (lfree σ).
Definition lspec_ins (σ : lspec) (l : lid) (xs : list addr) (x : addr) : lspec :=
  LSpec (<[l := xs]> (lseq σ)) (lfree σ ∖ {[x]}).
Definition lspec_del (σ : lspec) (l : lid) (xs : list addr) (x : addr) : lspec :=
  LSpec (<[l := xs]> (lseq σ)) ({[x]} ∪ lfree σ).
Definition lspec_new (σ : lspec) (x : addr) : lspec :=
  LSpec (lseq σ) ({[x]} ∪ lfree σ).

(** ** Interface *)

Class ListStore (T : Type) := {
  l_item_init : T → addr → T;
  l_item_term : T → addr → outcome unit;
  l_isinlist : T → addr → outcome bool;
  l_init : T → lid → T;
  l_term : T → lid → outcome unit;
  l_empty : T → lid → outcome bool;
  l_begin : T → lid → outcome (option addr);
  l_next : T → lid → addr → outcome (option addr);
  l_insert : T → lid → addr → option addr → outcome T;
  l_erase : T → lid → addr → outcome (T * option addr);
  l_fuel : T → nat;
}.

Class ListStoreOk (T : Type) `{ListStore T} := {
  l_rep : T → lspec → Prop;
  l_rep_nodup s σ l xs : l_rep s σ → lseq σ !! l = Some xs → NoDup xs;
  l_rep_disj s σ l1 l2 xs1 xs2 x :
    l_rep s σ → lseq σ !! l1 = Some xs1 → lseq σ !! l2 = Some xs2 →
    x ∈ xs1 → x ∈ xs2 → l1 = l2;
  l_rep_free s σ l xs x :
    l_rep s σ → lseq σ !! l = Some xs → x ∈ lfree σ → x ∉ xs;
  l_rep_fuel s σ l xs :
    l_rep s σ → lseq σ !! l = Some xs → (length xs ≤ l_fuel s)%nat;
  l_item_init_ok s σ x :
    l_rep s σ → (∀ l xs, lseq σ !! l = Some xs → x ∉ xs) →
    l_rep (l_item_init s x) (lspec_new σ x);
  l_item_term_ok s σ x : l_rep s σ → x ∈ lfree σ → l_item_term s x = Ret tt;
  l_isinlist_free s σ x : l_rep s σ → x ∈ lfree σ → l_isinlist s x = Ret false;
  l_isinlist_in s σ l xs x :
    l_rep s σ → lseq σ !! l = Some xs → x ∈ xs → l_isinlist s x = Ret true;
  l_init_ok s σ l :
    l_rep s σ → default [] (lseq σ !! l) = [] → l_rep (l_init s l) (lspec_set σ l []);
  l_term_ok s σ l xs :
    l_rep s σ → lseq σ !! l = Some xs → l_term s l = nn_assert (bool_decide (xs = []));
  l_empty_ok s σ l xs :
    l_rep s σ → lseq σ !! l = Some xs → l_empty s l = Ret (bool_decide (xs = []));
  l_begin_ok s σ l xs :
    l_rep s σ → lseq σ !! l = Some xs → l_begin s l = Ret (head xs);
  l_next_ok s σ l pre x post :
    l_rep s σ → lseq σ !! l = Some (pre ++ x :: post) → l_next s l x = Ret (head post);
  l_insert_ok s σ l pre post x :
    l_rep s σ → lseq σ !! l = Some (pre ++ post) → x ∈ lfree σ →
    ∃ s', l_insert s l x (head post) = Ret s' ∧
          l_rep s' (lspec_ins σ l (pre ++ x :: post) x);
  l_erase_ok s σ l pre post x :
    l_rep s σ → lseq σ !! l = Some (pre ++ x :: post) →
    ∃ s', l_erase s l x = Ret (s', head post) ∧
          l_rep s' (lspec_del σ l (pre ++ post) x);
}.

(** [for (it = nn_list_begin (l); it != nn_list_end (l); it = nn_list_next (l, it))]
    with a body that leaves the loop at the first item satisfying [p]. *)
Fixpoint l_find `{ListStore T} (fuel : nat) (s : T) (l : lid) (it : option addr)
    (p : addr → outcome bool) : outcome (option addr) :=
  match it with
  | None => Ret None
  | Some x =>
      match fuel with
      | O => Fail Diverge
      | S fuel =>
          b ← p x;
          if b : bool then Ret (Some x)
          else n ← l_next s l x; l_find fuel s l n p
      end
  end.

(** ** The C code *)

Module Ptr.

Inductive link : Set := NOTINLIST | NULL | At (p : addr).

Record nn_list_item := Item { next : link; prev : link }.
Record nn_list := NnList { first : option addr; last : option addr }.
Record store := Store { items : gmap addr nn_list_item; lists : gmap lid nn_list }.

#[global] Instance link_eq_dec : EqDecision link.
Proof. solve_decision. Defined.

Definition link_of (p : option addr) : link :=
  match p with None => NULL | Some p => At p end.

(** A link used as a pointer value: -1 is no valid pointer. *)
Definition ptr_of (k : link) : outcome (option addr) :=
  match k with NOTINLIST => Fail Crash | NULL => Ret None | At p => Ret (Some p) end.

Definition get_item (s : store) (x : addr) : outcome nn_list_item := deref (items s !! x).
Definition get_list (s : store) (l : lid) : outcome nn_list := deref (lists s !! l).

Definition set_item (s : store) (x : addr) (i : nn_list_item) : store :=
  Store (<[x := i]> (items s)) (lists s).
Definition set_list (s : store) (l : lid) (h : nn_list) : store :=
  Store (items s) (<[l := h]> (lists s)).
(** [x->next = k] and [x->prev = k]. *)
Definition set_next (s : store) (x : addr) (k : link) : outcome store :=
  i ← get_item s x; Ret (set_item s x (Item k (prev i))).
Definition set_prev (s : store) (x : addr) (k : link) : outcome store :=
  i ← get_item s x; Ret (set_item s x (Item (next i) k)).

Definition nn_list_init (s : store) (l : lid) : store := set_list s l (NnList None None).

Definition nn_list_term (s : store) (l : lid) : outcome unit :=
  h ← get_list s l;
  nn_assert (bool_decide (first h = None));;
  nn_assert (bool_decide (last h = None)).

Definition nn_list_empty (s : store) (l : lid) : outcome bool :=
  h ← get_list s l;
  Ret (match first h with Some _ => false | None => true end).

Definition nn_list_begin (s : store) (l : lid) : outcome (option addr) :=
  h ← get_list s l; Ret (first h).

Definition nn_list_end : option addr := None.

Definition nn_list_prev (s : store) (l : lid) (it : option addr) : outcome (option addr) :=
  match it with
  | None => h ← get_list s l; Ret (last h)
  | Some x =>
      i ← get_item s x;
      nn_assert (bool_decide (prev i ≠ NOTINLIST));;
      ptr_of (prev i)
  end.

Definition nn_list_next (s : store) (_ : lid) (it : addr) : outcome (option addr) :=
  i ← get_item s it;
  nn_assert (bool_decide (next i ≠ NOTINLIST));;
  ptr_of (next i).

Definition nn_list_item_init (s : store) (x : addr) : store :=
  set_item s x (Item NOTINLIST NOTINLIST).

Definition nn_list_item_isinlist (s : store) (x : addr) : outcome bool :=
  i ← get_item s x;
  Ret (if decide (prev i = NOTINLIST) then false else true).

Definition nn_list_item_term (s : store) (x : addr) : outcome unit :=
  b ← nn_list_item_isinlist s x; nn_assert (negb b).

Definition nn_list_insert (s : store) (l : lid) (item : addr) (it : option addr) :
    outcome store :=
  b ← nn_list_item_isinlist s item;
  nn_assert (negb b);;
  h ← get_list s l;
  (* item->prev = it ? it->prev : self->last;  item->next = it; *)
  p ← match it with
      | Some i => it' ← get_item s i; Ret (prev it')
      | None => Ret (link_of (last h))
      end;
  let s := set_item s item (Item (link_of it) p) in
  (* if (item->prev) item->prev->next = item; *)
  pp ← ptr_of p;
  s ← match pp with Some q => set_next s q (At item) | None => Ret s end;
  (* if (item->next) item->next->prev = item; *)
  s ← match it with Some n => set_prev s n (At item) | None => Ret s end;
  (* if (!self->first || self->first == it) self->first = item; *)
  let s := if bool_decide (first h = None) || bool_decide (first h = it)
           then set_list s l (NnList (Some item) (last h)) else s in
  (* if (!it) self->last = item; *)
  match it with
  | None => h ← get_list s l; Ret (set_list s l (NnList (first h) (Some item)))
  | Some _ => Ret s
  end.

Definition nn_list_erase (s : store) (l : lid) (item : addr) :
    outcome (store * option addr) :=
  b ← nn_list_item_isinlist s item;
  nn_assert b;;
  h ← get_list s l;
  i ← get_item s item;
  p ← ptr_of (prev i);
  n ← ptr_of (next i);
  (* if (item->prev) item->prev->next = item->next; else self->first = item->next; *)
  s ← match p with
      | Some q => set_next s q (next i)
      | None => Ret (set_list s l (NnList n (last h)))
      end;
  (* if (item->next) item->next->prev = item->prev; else self->last = item->prev; *)
  s ← match n with
      | Some q => set_prev s q (prev i)
      | None => h ← get_list s l; Ret (set_list s l (NnList (first h) p))
      end;
  Ret (set_item s item (Item NOTINLIST NOTINLIST), n).

#[global] Instance ptr_store : ListStore store := {
  l_item_init := nn_list_item_init;
  l_item_term := nn_list_item_term;
  l_isinlist := nn_list_item_isinlist;
  l_init := nn_list_init;
  l_term := nn_list_term;
  l_empty := nn_list_empty;
  l_begin := nn_list_begin;
  l_next := nn_list_next;
  l_insert := nn_list_insert;
  l_erase := nn_list_erase;
  l_fuel s := size (items s);
}.

Definition empty_store : store := Store ∅ ∅.

(** ** Representation *)

Definition lk_head (xs : list addr) (n : link) : link :=
  match xs with [] => n | y :: _ => At y end.

(** [dseg m p xs n]: the items [xs] are linked in this order, the first one
    pointing back to [p] and the last one forward to [n]. *)
Fixpoint dseg (m : gmap addr nn_list_item) (p : link) (xs : list addr) (n : link) : Prop :=
  match xs with
  | [] => True
  | x :: xs => m !! x = Some (Item (lk_head xs n) p) ∧ dseg m (At x) xs n
  end.

Definition list_ok (s : store) (l : lid) (xs : list addr) : Prop :=
  lists s !! l = Some (NnList (head xs) (list.last xs)) ∧
  dseg (items s) NULL xs NULL ∧ NoDup xs.

Record rep (s : store) (σ : lspec) : Prop := {
  rep_list l xs : lseq σ !! l = Some xs → list_ok s l xs;
  rep_disj l1 l2 xs1 xs2 x :
    lseq σ !! l1 = Some xs1 → lseq σ !! l2 = Some xs2 → x ∈ xs1 → x ∈ xs2 → l1 = l2;
  rep_free x : x ∈ lfree σ → items s !! x = Some (Item NOTINLIST NOTINLIST);
}.

Definition lk_last (p : link) (xs : list addr) : link :=
  match list.last xs with None => p | Some y => At y end.

Lemma dseg_app m p xs ys n :
  dseg m p (xs ++ ys) n ↔ dseg m p xs (lk_head ys n) ∧ dseg m (lk_last p xs) ys n.
Proof.
  revert p. induction xs as [|x xs IH]; intros p; cbn; [naive_solver|].
  rewrite IH. unfold lk_last. rewrite last_cons.
  assert (lk_head (xs ++ ys) n = lk_head xs (lk_head ys n)) as -> by by destruct xs.
  destruct (list.last xs); naive_solver.
Qed.

Lemma dseg_frame m p xs n x i : x ∉ xs → dseg (<[x := i]> m) p xs n ↔ dseg m p xs n.
Proof.
  revert p. induction xs as [|y xs IH]; intros p Hx; cbn; [done|].
  apply not_elem_of_cons in Hx as [??]. rewrite IH by done.
  by rewrite lookup_insert_ne by done.
Qed.

Lemma dseg_ext m m' p xs n :
  (∀ y, y ∈ xs → m' !! y = m !! y) → dseg m p xs n → dseg m' p xs n.
Proof.
  revert p. induction xs as [|y xs IH]; intros p He; cbn; [done|].
  intros [Hy ?]. split; [rewrite He by set_solver; done|]. apply IH; [set_solver|done].
Qed.

Lemma dseg_lookup m p xs n x :
  p ≠ NOTINLIST → n ≠ NOTINLIST → x ∈ xs → dseg m p xs n →
  ∃ i, m !! x = Some i ∧ next i ≠ NOTINLIST ∧ prev i ≠ NOTINLIST.
Proof.
  revert p. induction xs as [|y xs IH]; intros p Hp Hn Hx; cbn; [by apply not_elem_of_nil in Hx|].
  intros [Hy ?]. apply elem_of_cons in Hx as [->|Hx]; [|by eapply (IH (At y))].
  eexists. split; [done|]. cbn. split; [|done]. by destruct xs.
Qed.

Lemma ptr_of_link p : ptr_of (link_of p) = Ret p.
Proof. by destruct p. Qed.

Lemma lk_last_link xs : lk_last NULL xs = link_of (list.last xs).
Proof. unfold lk_last. by destruct (list.last xs). Qed.

Lemma lk_last_snoc p xs a : lk_last p (xs ++ [a]) = At a.
Proof. unfold lk_last. by rewrite last_snoc. Qed.

Lemma lk_head_link xs : lk_head xs NULL = link_of (head xs).
Proof. by destruct xs. Qed.

Section rep.
Context (s : store) (σ : lspec) (Hrep : rep s σ).

Lemma rep_in l xs x : lseq σ !! l = Some xs → x ∈ xs →
  ∃ i, items s !! x = Some i ∧ next i ≠ NOTINLIST ∧ prev i ≠ NOTINLIST.
Proof. intros Hl ?. destruct (rep_list _ _ Hrep l xs Hl) as (_ & ? & _). by apply (dseg_lookup _ NULL xs NULL). Qed.

Lemma rep_free_notin l xs x : lseq σ !! l = Some xs → x ∈ lfree σ → x ∉ xs.
Proof.
  intros Hl Hx Hin. destruct (rep_in l xs x Hl Hin) as (i & Hi & Hn & _).
  rewrite (rep_free _ _ Hrep) in Hi by done. injection Hi as <-. by apply Hn.
Qed.

Lemma rep_isinlist_free x : x ∈ lfree σ → nn_list_item_isinlist s x = Ret false.
Proof. intros. unfold nn_list_item_isinlist, get_item. by rewrite (rep_free _ _ Hrep). Qed.

Lemma rep_isinlist_in l xs x :
  lseq σ !! l = Some xs → x ∈ xs → nn_list_item_isinlist s x = Ret true.
Proof.
  intros Hl Hx. destruct (rep_in l xs x Hl Hx) as (i & Hi & _ & Hp).
  unfold nn_list_item_isinlist, get_item. rewrite Hi. cbn. by rewrite decide_False.
Qed.

Lemma rep_length l xs : lseq σ !! l = Some xs → (length xs ≤ size (items s))%nat.
Proof.
  intros Hl. destruct (rep_list _ _ Hrep l xs Hl) as (_ & _ & Hnd).
  rewrite <- (size_list_to_set (C := gset addr)) by done. rewrite <- size_dom.
  apply subseteq_size. intros x Hx. apply elem_of_list_to_set in Hx.
  destruct (rep_in l xs x Hl Hx) as (i & Hi & _). by apply elem_of_dom.
Qed.
End rep.

(** Changing one list and items that belong to it (or to no other list) keeps
    every other list. *)
Lemma rep_update s σ s' l xs' F :
  rep s σ → list_ok s' l xs' →
  (∀ l', l' ≠ l → lists s' !! l' = lists s !! l') →
  (∀ l' ys y, l' ≠ l → lseq σ !! l' = Some ys → y ∈ ys →
     y ∉ xs' ∧ items s' !! y = items s !! y) →
  (∀ x, x ∈ F → items s' !! x = Some (Item NOTINLIST NOTINLIST)) →
  rep s' (LSpec (<[l := xs']> (lseq σ)) F).
Proof.
  intros Hrep Hl Hlists Hother HF.
  split; cbn.
  - intros l' ys. rewrite lookup_insert_Some. intros [[-> ->]|[Hne Hys]]; [done|].
    destruct (rep_list _ _ Hrep l' ys Hys) as (H1 & H2 & H3).
    split_and!; [by rewrite Hlists by congruence|eapply dseg_ext, H2|done].
    intros y Hy. eapply Hother; [|done..]. congruence.
  - intros l1 l2 xs1 xs2 x. rewrite !lookup_insert_Some.
    intros [[-> ->]|[Hne1 H1]] [[-> ->]|[Hne2 H2]] Hx1 Hx2; [done| | |].
    + destruct (Hother l2 xs2 x) as [Hn _]; [congruence|done..].
    + destruct (Hother l1 xs1 x) as [Hn _]; [congruence|done..].
    + by eapply (rep_disj _ _ Hrep).
  - done.
Qed.

(** *** Insertion *)

Definition link_in (m : gmap addr nn_list_item) (pre : list addr) (x : addr)
    (post : list addr) : gmap addr nn_list_item :=
  let m := <[x := Item (lk_head post NULL) (lk_last NULL pre)]> m in
  let m := match list.last pre with
           | Some a => alter (λ i, Item (At x) (prev i)) a m | None => m end in
  match head post with
  | Some b => alter (λ i, Item (next i) (At x)) b m | None => m end.

Lemma lookup_link_in_ne m pre x post y :
  y ≠ x → y ∉ pre → y ∉ post → link_in m pre x post !! y = m !! y.
Proof.
  intros Hx Hpre Hpost. unfold link_in.
  assert (∀ b, head post = Some b → b ≠ y) as Hb by (destruct post; set_solver).
  assert (∀ a, list.last pre = Some a → a ≠ y) as Ha.
  { intros a Ha%last_Some_elem_of. set_solver. }
  destruct (head post) as [b|]; [rewrite lookup_alter_ne by by apply Hb|];
    (destruct (list.last pre) as [a|]; [rewrite lookup_alter_ne by by apply Ha|]);
    by rewrite lookup_insert_ne.
Qed.

(** Lookups in maps updated at known keys. *)
Ltac map_ne := intros; rewrite ?lookup_alter_ne, ?lookup_insert_ne by set_solver; done.

Lemma dseg_link_in m pre x post :
  NoDup (pre ++ x :: post) → dseg m NULL (pre ++ post) NULL →
  dseg (link_in m pre x post) NULL (pre ++ x :: post) NULL.
Proof.
  intros Hnd Hseg. unfold link_in.
  destruct pre as [|a pre _] using rev_ind; destruct post as [|b post]; cbn in *.
  - by simplify_map_eq.
  - destruct Hseg as [Hb Hseg]. apply NoDup_cons in Hnd as [Hx [Hb' Hnd]%NoDup_cons].
    assert (x ≠ b) by set_solver. rewrite lookup_alter_ne by done. simplify_map_eq.
    split_and!; [done..|]. eapply dseg_ext; [|exact Hseg]. map_ne.
  - rewrite app_nil_r in Hseg. rewrite <- app_assoc in *. cbn in *.
    rewrite dseg_app in Hseg |- *. cbn in *. rewrite last_snoc, lk_last_snoc in *.
    apply NoDup_middle in Hnd as (?&?&Hnd). apply NoDup_middle in Hnd as (?&_&_).
    assert (x ≠ a) as ? by set_solver.
    destruct Hseg as (Hpre & Ha & _). split_and!; [| |by rewrite lookup_alter_ne, lookup_insert_eq by done|done].
    + eapply dseg_ext; [|exact Hpre]. map_ne.
    + rewrite lookup_alter_eq, lookup_insert_ne, Ha by done. done.
  - rewrite <- !app_assoc in *. cbn in *.
    rewrite dseg_app in Hseg |- *. cbn in *. rewrite last_snoc, lk_last_snoc in *.
    apply NoDup_middle in Hnd as (Ha1&Ha2&Hnd). apply NoDup_middle in Hnd as (Hx1&Hx2&Hnd).
    apply NoDup_middle in Hnd as (Hb1&Hb2&Hnd).
    assert (x ≠ a ∧ a ≠ b ∧ x ≠ b) as (?&?&?) by set_solver.
    destruct Hseg as (Hpre & Ha & Hb & Hpost). split_and!.
    + eapply dseg_ext; [|exact Hpre]. map_ne.
    + by rewrite lookup_alter_ne, lookup_alter_eq, lookup_insert_ne, Ha by done.
    + by rewrite !lookup_alter_ne, lookup_insert_eq by done.
    + by rewrite lookup_alter_eq, lookup_alter_ne, lookup_insert_ne, Hb by done.
    + eapply dseg_ext; [|exact Hpost]. map_ne.
Qed.

(** *** Removal *)

Definition link_out (m : gmap addr nn_list_item) (pre : list addr) (x : addr)
    (post : list addr) : gmap addr nn_list_item :=
  let m := match list.last pre with
           | Some a => alter (λ i, Item (lk_head post NULL) (prev i)) a m | None => m end in
  let m := match head post with
           | Some b => alter (λ i, Item (next i) (lk_last NULL pre)) b m | None => m end in
  <[x := Item NOTINLIST NOTINLIST]> m.

Lemma lookup_link_out_ne m pre x post y :
  y ≠ x → y ∉ pre → y ∉ post → link_out m pre x post !! y = m !! y.
Proof.
  intros Hx Hpre Hpost. unfold link_out.
  assert (∀ b, head post = Some b → b ≠ y) as Hb by (destruct post; set_solver).
  assert (∀ a, list.last pre = Some a → a ≠ y) as Ha.
  { intros a Ha%last_Some_elem_of. set_solver. }
  rewrite lookup_insert_ne by done.
  destruct (head post) as [b|]; [rewrite lookup_alter_ne by by apply Hb|];
    (destruct (list.last pre) as [a|]; [rewrite lookup_alter_ne by by apply Ha|]); done.
Qed.

Lemma dseg_link_out m pre x post :
  NoDup (pre ++ x :: post) → dseg m NULL (pre ++ x :: post) NULL →
  dseg (link_out m pre x post) NULL (pre ++ post) NULL.
Proof.
  intros Hnd Hseg. unfold link_out. apply NoDup_middle in Hnd as (Hx1&Hx2&Hnd).
  rewrite dseg_app in Hseg. cbn in Hseg. destruct Hseg as (Hpre & Hx & Hpost).
  apply dseg_frame; [set_solver|].
  destruct pre as [|a pre _] using rev_ind; destruct post as [|b post]; cbn in *; [done| | |].
  - destruct Hpost as [Hb Hpost]. apply NoDup_cons in Hnd as [??]. split.
    + by rewrite lookup_alter_eq, Hb.
    + eapply dseg_ext; [|exact Hpost]. map_ne.
  - rewrite app_nil_r in *. rewrite dseg_app in Hpre |- *. cbn in *. rewrite last_snoc in *.
    apply NoDup_middle in Hnd as (?&_&_). destruct Hpre as (Hpre & Ha & _).
    split_and!; [|by rewrite lookup_alter_eq, Ha|done].
    eapply dseg_ext; [|exact Hpre]. map_ne.
  - rewrite <- !app_assoc in *. cbn in *. rewrite dseg_app in Hpre |- *. cbn in *.
    rewrite last_snoc, lk_last_snoc in *.
    apply NoDup_middle in Hnd as (Ha1&Ha2&Hnd). apply NoDup_middle in Hnd as (Hb1&Hb2&Hnd).
    assert (a ≠ b) by set_solver. destruct Hpre as (Hpre & Ha & _), Hpost as [Hb Hpost].
    split_and!.
    + eapply dseg_ext; [|exact Hpre]. map_ne.
    + by rewrite lookup_alter_ne, lookup_alter_eq, Ha by done.
    + by rewrite lookup_alter_eq, lookup_alter_ne, Hb by done.
    + eapply dseg_ext; [|exact Hpost]. map_ne.
Qed.

(** *** The two updating operations *)

Lemma insert_as_alter {A} (f : A → A) (m : gmap addr A) y i :
  m !! y = Some i → <[y := f i]> m = alter f y m.
Proof.
  intros Hy. apply map_eq. intros j. destruct (decide (y = j)) as [<-|].
  - by rewrite lookup_insert_eq, lookup_alter_eq, Hy.
  - by rewrite lookup_insert_ne, lookup_alter_ne by done.
Qed.

Lemma set_next_alter s y k : is_Some (items s !! y) →
  set_next s y k = Ret (Store (alter (λ i, Item k (prev i)) y (items s)) (lists s)).
Proof.
  intros [i Hi]. unfold set_next, get_item. rewrite Hi. cbn. unfold set_item.
  by rewrite <- (insert_as_alter (λ i, Item k (prev i)) _ _ i Hi).
Qed.

Lemma set_prev_alter s y k : is_Some (items s !! y) →
  set_prev s y k = Ret (Store (alter (λ i, Item (next i) k) y (items s)) (lists s)).
Proof.
  intros [i Hi]. unfold set_prev, get_item. rewrite Hi. cbn. unfold set_item.
  by rewrite <- (insert_as_alter (λ i, Item (next i) k) _ _ i Hi).
Qed.

Lemma head_app_l {A} (xs ys : list A) c : head xs = Some c → head (xs ++ ys) = Some c.
Proof. by destruct xs. Qed.

(** [it->prev], or [self->last] at the end of the list. *)
Lemma insert_prev s pre post :
  dseg (items s) NULL (pre ++ post) NULL →
  match head post with
  | Some i => it' ← get_item s i; Ret (prev it')
  | None => Ret (link_of (list.last (pre ++ post)))
  end = Ret (lk_last NULL pre).
Proof.
  intros Hd. destruct post as [|b post]; cbn.
  - by rewrite app_nil_r, lk_last_link.
  - apply dseg_app in Hd as [_ [Hb _]]. unfold get_item. by rewrite Hb.
Qed.

(** The header after an insertion: [first] changes when the item has no
    predecessor, [last] when it has no successor. *)
Definition insert_header (s : store) (l : lid) (h : nn_list) (x : addr) (it : option addr) :
    outcome store :=
  let s := if bool_decide (first h = None) || bool_decide (first h = it)
           then set_list s l (NnList (Some x) (last h)) else s in
  match it with
  | None => h ← get_list s l; Ret (set_list s l (NnList (first h) (Some x)))
  | Some _ => Ret s
  end.

Lemma insert_header_ok s l pre x post :
  lists s !! l = Some (NnList (head (pre ++ post)) (list.last (pre ++ post))) →
  NoDup (pre ++ post) →
  ∃ s', insert_header s l (NnList (head (pre ++ post)) (list.last (pre ++ post))) x (head post)
          = Ret s' ∧ items s' = items s ∧
    lists s' !! l = Some (NnList (head (pre ++ x :: post)) (list.last (pre ++ x :: post))) ∧
    ∀ l', l' ≠ l → lists s' !! l' = lists s !! l'.
Proof.
  intros Hh Hnd. unfold insert_header, get_list. cbn.
  destruct pre as [|c pre]; cbn in *.
  - rewrite (bool_decide_eq_true_2 (head post = head post)), orb_true_r by done.
    destruct post as [|b post]; cbn; rewrite ?lookup_insert_eq; cbn; eexists;
      (split_and!; [done|done|by cbn; rewrite lookup_insert_eq|
        by cbn; intros l' ?; rewrite ?lookup_insert_ne by done]).
  - apply NoDup_cons in Hnd as [Hc Hnd]. rewrite bool_decide_eq_false_2; cbn;
      [|by destruct post; intros [= ->]; destruct Hc; set_solver].
    destruct post as [|b post]; cbn; rewrite ?Hh; cbn; eexists; (split_and!; [done..| |]); cbn.
    + rewrite lookup_insert_eq. change (c :: pre ++ [x]) with ((c :: pre) ++ [x]).
      by rewrite last_snoc.
    + intros l' ?. by rewrite lookup_insert_ne.
    + rewrite Hh. do 2 f_equal.
      change (c :: pre ++ b :: post) with ((c :: pre) ++ b :: post).
      change (c :: pre ++ x :: b :: post) with ((c :: pre) ++ x :: b :: post).
      rewrite !last_app, !last_cons. by destruct (list.last post).
    + done.
Qed.

(** The neighbours' pointers. *)
Lemma insert_links s pre x post p n :
  let s1 := set_item s x (Item n p) in
  (∀ a, list.last pre = Some a → is_Some (items s !! a)) →
  (∀ b, head post = Some b → is_Some (items s !! b)) →
  ∃ s2 s3,
    match list.last pre with Some q => set_next s1 q (At x) | None => Ret s1 end = Ret s2 ∧
    match head post with Some q => set_prev s2 q (At x) | None => Ret s2 end = Ret s3 ∧
    lists s3 = lists s ∧
    (n = lk_head post NULL → p = lk_last NULL pre → items s3 = link_in (items s) pre x post).
Proof.
  intros s1 Ha Hb. unfold link_in.
  destruct (list.last pre) as [a|] eqn:Ela; [destruct (Ha a) as [ia Hia]; [done|]|];
  (destruct (head post) as [b|] eqn:Ehb; [destruct (Hb b) as [ib Hib]; [done|]|]);
  rewrite ?set_next_alter, ?set_prev_alter by
    (cbn; rewrite ?lookup_insert_is_Some', ?lookup_alter_is_Some; eauto);
  do 2 eexists; (split_and!; [done|rewrite ?set_prev_alter by
    (cbn; rewrite ?lookup_alter_is_Some, ?lookup_insert_is_Some'; eauto); done|done|]);
  by intros -> ->.
Qed.

Lemma nn_list_insert_ok s σ l pre post x :
  rep s σ → lseq σ !! l = Some (pre ++ post) → x ∈ lfree σ →
  ∃ s', nn_list_insert s l x (head post) = Ret s' ∧
    items s' = link_in (items s) pre x post ∧
    list_ok s' l (pre ++ x :: post) ∧
    ∀ l', l' ≠ l → lists s' !! l' = lists s !! l'.
Proof.
  intros Hrep Hl Hx. destruct (rep_list _ _ Hrep _ _ Hl) as (Hh & Hd & Hnd).
  pose proof (rep_free_notin _ _ Hrep _ _ _ Hl Hx) as Hnotin.
  assert (NoDup (pre ++ x :: post)) as Hnd' by (apply NoDup_middle_2; set_solver).
  destruct (insert_links s pre x post (lk_last NULL pre) (lk_head post NULL))
    as (s2 & s3 & E2 & E3 & El & Ei).
  { intros a Ha%last_Some_elem_of.
    destruct (rep_in _ _ Hrep l _ a Hl) as (i & ? & _); [set_solver|eauto]. }
  { intros b Hb%head_Some_elem_of.
    destruct (rep_in _ _ Hrep l _ b Hl) as (i & ? & _); [set_solver|eauto]. }
  unfold nn_list_insert. rewrite (rep_isinlist_free _ _ Hrep) by done. cbn.
  unfold get_list. rewrite Hh. cbn. rewrite insert_prev by done. cbn.
  rewrite <- lk_head_link, lk_last_link, ptr_of_link. cbn.
  rewrite lk_last_link in E2. rewrite E2. cbn. rewrite E3. cbn.
  rewrite <- El in Hh. destruct (insert_header_ok s3 l pre x post Hh) as (s' & Eh & Ei' & Hl' & Hne); [done|].
  unfold insert_header, get_list in Eh. cbn in Eh. rewrite Eh.
  exists s'. split_and!; [done|by rewrite Ei', Ei| |by rewrite <- El].
  split_and!; [done| |done]. rewrite Ei', Ei by done. by apply dseg_link_in.
Qed.

Lemma nn_list_erase_ok s σ l pre post x :
  rep s σ → lseq σ !! l = Some (pre ++ x :: post) →
  ∃ s', nn_list_erase s l x = Ret (s', head post) ∧
    items s' = link_out (items s) pre x post ∧
    list_ok s' l (pre ++ post) ∧
    ∀ l', l' ≠ l → lists s' !! l' = lists s !! l'.
Proof.
  intros Hrep Hl. destruct (rep_list _ _ Hrep _ _ Hl) as (Hh & Hd & Hnd).
  assert (items s !! x = Some (Item (lk_head post NULL) (lk_last NULL pre))) as Hx.
  { apply dseg_app in Hd as [_ [Hx _]]. done. }
  pose proof (dseg_link_out _ _ _ _ Hnd Hd) as Hd'.
  assert (NoDup (pre ++ post)) as Hnd' by by apply NoDup_middle in Hnd as (_&_&?).
  assert (∀ a, list.last pre = Some a → is_Some (items s !! a)) as Ha.
  { intros a Ha%last_Some_elem_of.
    destruct (rep_in _ _ Hrep l _ a Hl) as (i & ? & _); [set_solver|eauto]. }
  assert (∀ b, head post = Some b → is_Some (items s !! b)) as Hb.
  { intros b Hb%head_Some_elem_of.
    destruct (rep_in _ _ Hrep l _ b Hl) as (i & ? & _); [set_solver|eauto]. }
  unfold nn_list_erase. rewrite (rep_isinlist_in _ _ Hrep l _ _ Hl) by set_solver. cbn.
  unfold get_list, get_item. rewrite Hh, Hx. cbn.
  rewrite lk_last_link, lk_head_link, !ptr_of_link. cbn. unfold link_out, list_ok in *.
  destruct pre as [|a pre _] using rev_ind; destruct post as [|b post]; cbn in *;
    rewrite ?last_snoc, ?app_nil_r in *; cbn in *;
    rewrite ?set_next_alter by eauto; cbn; rewrite ?Hh, ?lookup_insert_eq; cbn;
    rewrite ?set_prev_alter by (cbn; rewrite ?lookup_alter_is_Some; eauto); cbn;
    (eexists; split; [done|]); cbn; rewrite ?lk_last_link, ?last_snoc, ?lookup_insert_eq;
    refine (conj _ (conj (conj _ (conj _ _)) _)); try done;
    try (intros; by rewrite ?lookup_insert_ne by done).
  - by destruct pre.
  - rewrite Hh. do 2 f_equal; [by destruct pre|].
    repeat rewrite last_app. repeat rewrite last_cons. by destruct (list.last post).
  - rewrite lk_last_snoc in Hd'. exact Hd'.
Qed.

(** *** The interface is implemented *)

Lemma rep_insert s σ l pre post x :
  rep s σ → lseq σ !! l = Some (pre ++ post) → x ∈ lfree σ →
  ∃ s', nn_list_insert s l x (head post) = Ret s' ∧
        rep s' (lspec_ins σ l (pre ++ x :: post) x).
Proof.
  intros Hrep Hl Hx. destruct (nn_list_insert_ok _ _ _ _ _ _ Hrep Hl Hx) as (s' & E & Ei & Hok & Hne).
  exists s'. split; [done|]. apply rep_update with s; [done..| |].
  - intros l' ys y Hl' Hys Hy.
    assert (y ∉ pre ++ post) by (intros Hin; by eapply Hl', (rep_disj _ _ Hrep l' l ys _ y)).
    assert (y ≠ x) by (intros ->; by eapply (rep_free_notin _ _ Hrep l' ys x)).
    split; [set_solver|]. rewrite Ei. apply lookup_link_in_ne; set_solver.
  - intros z Hz. pose proof (rep_free_notin _ _ Hrep l _ z Hl).
    rewrite Ei, lookup_link_in_ne by set_solver. apply (rep_free _ _ Hrep). set_solver.
Qed.

Lemma rep_erase s σ l pre post x :
  rep s σ → lseq σ !! l = Some (pre ++ x :: post) →
  ∃ s', nn_list_erase s l x = Ret (s', head post) ∧
        rep s' (lspec_del σ l (pre ++ post) x).
Proof.
  intros Hrep Hl. destruct (nn_list_erase_ok _ _ _ _ _ _ Hrep Hl) as (s' & E & Ei & Hok & Hne).
  exists s'. split; [done|]. apply rep_update with s; [done..| |].
  - intros l' ys y Hl' Hys Hy.
    assert (y ∉ pre ++ x :: post) by (intros Hin; by eapply Hl', (rep_disj _ _ Hrep l' l ys _ y)).
    split; [set_solver|]. rewrite Ei. apply lookup_link_out_ne; set_solver.
  - intros z Hz. rewrite Ei. destruct (decide (z = x)) as [->|].
    + unfold link_out. by rewrite lookup_insert_eq.
    + assert (z ∈ lfree σ) by set_solver. pose proof (rep_free_notin _ _ Hrep l _ z Hl).
      rewrite lookup_link_out_ne by set_solver. by apply (rep_free _ _ Hrep).
Qed.

Lemma rep_item_init s σ x :
  rep s σ → (∀ l xs, lseq σ !! l = Some xs → x ∉ xs) →
  rep (nn_list_item_init s x) (lspec_new σ x).
Proof.
  intros Hrep Hx. split; cbn.
  - intros l xs Hl. destruct (rep_list _ _ Hrep _ _ Hl) as (?&?&?).
    split_and!; [done| |done]. cbn. by apply dseg_frame; [eapply Hx|].
  - apply (rep_disj _ _ Hrep).
  - intros y Hy. destruct (decide (x = y)) as [->|]; [by rewrite lookup_insert_eq|].
    rewrite lookup_insert_ne by done. apply (rep_free _ _ Hrep). set_solver.
Qed.

Lemma rep_init s σ l :
  rep s σ → default [] (lseq σ !! l) = [] → rep (nn_list_init s l) (lspec_set σ l []).
Proof.
  intros Hrep Hl. apply rep_update with s; cbn; [done| | | |].
  - split_and!; [by cbn; rewrite lookup_insert_eq|done|constructor].
  - intros. by rewrite lookup_insert_ne.
  - intros. split; [apply not_elem_of_nil|done].
  - apply (rep_free _ _ Hrep).
Qed.

#[global] Program Instance ptr_store_ok : ListStoreOk store := {| l_rep := rep |}.
Next Obligation. intros s σ l xs Hrep Hl. by destruct (rep_list _ _ Hrep _ _ Hl) as (_ & _ & ?). Qed.
Next Obligation. intros s σ l1 l2 xs1 xs2 x Hrep. apply (rep_disj _ _ Hrep). Qed.
Next Obligation. intros. by eapply rep_free_notin. Qed.
Next Obligation. intros. by eapply rep_length. Qed.
Next Obligation. intros. by apply rep_item_init. Qed.
Next Obligation.
  intros s σ x Hrep Hx. cbn. unfold nn_list_item_term.
  by rewrite (rep_isinlist_free _ _ Hrep).
Qed.
Next Obligation. intros. by eapply rep_isinlist_free. Qed.
Next Obligation. intros. by eapply rep_isinlist_in. Qed.
Next Obligation. intros. by apply rep_init. Qed.
Next Obligation.
  intros s σ l xs Hrep Hl. destruct (rep_list _ _ Hrep _ _ Hl) as (Hh & _ & _). cbn.
  unfold nn_list_term, get_list. rewrite Hh. cbn.
  destruct xs as [|x xs]; repeat case_bool_decide; done.
Qed.
Next Obligation.
  intros s σ l xs Hrep Hl. destruct (rep_list _ _ Hrep _ _ Hl) as (Hh & _ & _). cbn.
  unfold nn_list_empty, get_list. rewrite Hh. by destruct xs.
Qed.
Next Obligation.
  intros s σ l xs Hrep Hl. destruct (rep_list _ _ Hrep _ _ Hl) as (Hh & _ & _). cbn.
  unfold nn_list_begin, get_list. by rewrite Hh.
Qed.
Next Obligation.
  intros s σ l pre x post Hrep Hl. destruct (rep_list _ _ Hrep _ _ Hl) as (_ & Hd & _).
  apply dseg_app in Hd as [_ [Hx _]]. cbn. unfold nn_list_next, get_item. rewrite Hx. cbn.
  rewrite lk_head_link. rewrite bool_decide_eq_true_2 by by destruct (head post).
  apply ptr_of_link.
Qed.
Next Obligation. intros. by apply rep_insert. Qed.
Next Obligation. intros. by apply rep_erase. Qed.

Lemma rep_empty : rep empty_store (LSpec ∅ ∅).
Proof. split; cbn; [done|done|set_solver]. Qed.

End Ptr.

(** ** Clients' lemmas *)

Section client.
Context `{ListStoreOk T}.

(** The first item satisfying [q]. *)
Lemma l_find_ok s σ l p (q : addr → bool) pre post fuel :
  l_rep s σ → lseq σ !! l = Some (pre ++ post) →
  (∀ x, x ∈ post → p x = Ret (q x)) → (length post ≤ fuel)%nat →
  l_find fuel s l (head post) p = Ret (head (filter (λ x, q x = true) post)).
Proof.
  intros Hrep. revert pre fuel. induction post as [|x post IH]; intros pre fuel Hl Hp Hf.
  - by destruct fuel.
  - destruct fuel as [|fuel]; cbn in Hf; [lia|].
    rewrite filter_cons. cbn [l_find head hd_error]. rewrite Hp by set_solver. cbn. destruct (q x) eqn:Eq.
    + by rewrite decide_True by done.
    + rewrite decide_False by congruence. rewrite (l_next_ok _ σ _ pre x post) by done. cbn.
      apply (IH (pre ++ [x])); [by rewrite <- app_assoc|set_solver|lia].
Qed.

Lemma l_find_begin_ok s σ l p (q : addr → bool) xs :
  l_rep s σ → lseq σ !! l = Some xs → (∀ x, x ∈ xs → p x = Ret (q x)) →
  (it ← l_begin s l; l_find (l_fuel s) s l it p) = Ret (head (filter (λ x, q x = true) xs)).
Proof.
  intros Hrep Hl Hp. rewrite (l_begin_ok _ _ _ _ Hrep Hl). cbn.
  apply l_find_ok with σ []; [done..|]. by eapply l_rep_fuel.
Qed.

(** Appending with [nn_list_insert (l, x, nn_list_end (l))]. *)
Lemma l_insert_end_ok s σ l xs x :
  l_rep s σ → lseq σ !! l = Some xs → x ∈ lfree σ →
  ∃ s', l_insert s l x None = Ret s' ∧ l_rep s' (lspec_ins σ l (xs ++ [x]) x).
Proof.
  intros Hrep Hl Hx. apply (l_insert_ok _ _ l xs [] x Hrep); [by rewrite app_nil_r|done].
Qed.

Lemma l_rep_nodup_split s σ l pre x post :
  l_rep s σ → lseq σ !! l = Some (pre ++ x :: post) → x ∉ pre ∧ x ∉ post ∧ NoDup (pre ++ post).
Proof. intros. eapply NoDup_middle, l_rep_nodup; eauto. Qed.

End client.

(** ** Refinement: any sequence of list operations

    [spec_op] is the contract of list.h on sequences; [None] when the caller
    breaks it.  [exec_op] runs the C functions. *)

Section refinement.

Inductive list_op :=
| Op_item_init (x : addr)
| Op_list_init (l : lid)
| Op_insert (l : lid) (x : addr) (it : option addr)
| Op_erase (l : lid) (x : addr)
| Op_begin (l : lid)
| Op_next (l : lid) (x : addr)
| Op_empty (l : lid)
| Op_isinlist (x : addr)
| Op_term (l : lid).

Inductive list_res := RUnit | RPtr (p : option addr) | RBool (b : bool).

#[local] Instance list_res_eq_dec : EqDecision list_res.
Proof. solve_decision. Defined.

Fixpoint split_at (x : addr) (xs : list addr) : option (list addr * list addr) :=
  match xs with
  | [] => None
  | y :: ys =>
      if decide (x = y) then Some ([], ys)
      else match split_at x ys with Some (pre, post) => Some (y :: pre, post) | None => None end
  end.

(** Where [nn_list_insert] puts an item: before [it], or at the end. *)
Definition split_before (it : option addr) (xs : list addr) : option (list addr * list addr) :=
  match it with
  | None => Some (xs, [])
  | Some y => '(pre, post) ← split_at y xs; Some (pre, y :: post)
  end.

Definition in_some_list (σ : lspec) (x : addr) : bool :=
  bool_decide (map_Exists (λ _ xs, x ∈ xs) (lseq σ)).

Definition spec_op (σ : lspec) (o : list_op) : option (lspec * list_res) :=
  match o with
  | Op_item_init x => if in_some_list σ x then None else Some (lspec_new σ x, RUnit)
  | Op_list_init l =>
      match default [] (lseq σ !! l) with
      | [] => Some (lspec_set σ l [], RUnit) | _ => None end
  | Op_insert l x it =>
      xs ← lseq σ !! l;
      if decide (x ∈ lfree σ) then
        '(pre, post) ← split_before it xs;
        Some (lspec_ins σ l (pre ++ x :: post) x, RUnit)
      else None
  | Op_erase l x =>
      xs ← lseq σ !! l;
      '(pre, post) ← split_at x xs;
      Some (lspec_del σ l (pre ++ post) x, RPtr (head post))
  | Op_begin l => xs ← lseq σ !! l; Some (σ, RPtr (head xs))
  | Op_next l x =>
      xs ← lseq σ !! l; '(pre, post) ← split_at x xs; Some (σ, RPtr (head post))
  | Op_empty l => xs ← lseq σ !! l; Some (σ, RBool (bool_decide (xs = [])))
  | Op_isinlist x =>
      if in_some_list σ x then Some (σ, RBool true)
      else if decide (x ∈ lfree σ) then Some (σ, RBool false) else None
  | Op_term l => xs ← lseq σ !! l; match xs with [] => Some (σ, RUnit) | _ => None end
  end.

Definition exec_op `{ListStore T} (s : T) (o : list_op) : outcome (T * list_res) :=
  match o with
  | Op_item_init x => Ret (l_item_init s x, RUnit)
  | Op_list_init l => Ret (l_init s l, RUnit)
  | Op_insert l x it => s ← l_insert s l x it; Ret (s, RUnit)
  | Op_erase l x => '(s, p) ← l_erase s l x; Ret (s, RPtr p)
  | Op_begin l => p ← l_begin s l; Ret (s, RPtr p)
  | Op_next l x => p ← l_next s l x; Ret (s, RPtr p)
  | Op_empty l => b ← l_empty s l; Ret (s, RBool b)
  | Op_isinlist x => b ← l_isinlist s x; Ret (s, RBool b)
  | Op_term l => l_term s l;; Ret (s, RUnit)
  end.

Lemma split_at_Some x xs pre post : split_at x xs = Some (pre, post) → xs = pre ++ x :: post.
Proof.
  revert pre post. induction xs as [|y ys IH]; intros pre post; cbn; [done|].
  case_decide; [by intros [= <- <-]; subst|].
  destruct (split_at x ys) as [[pre' post']|]; [|done].
  intros [= <- <-]. cbn. f_equal. by apply IH.
Qed.

Lemma split_before_Some it xs pre post :
  split_before it xs = Some (pre, post) → xs = pre ++ post ∧ it = head post.
Proof.
  destruct it as [y|]; cbn; [|by intros [= <- <-]; rewrite app_nil_r].
  destruct (split_at y xs) as [[pre' post']|] eqn:E; [|done]. cbn.
  intros [= <- <-]. by apply split_at_Some in E.
Qed.

Lemma in_some_list_true σ x :
  in_some_list σ x = true → ∃ l xs, lseq σ !! l = Some xs ∧ x ∈ xs.
Proof. unfold in_some_list. by intros ?%bool_decide_eq_true_1. Qed.

Lemma in_some_list_false σ x l xs :
  in_some_list σ x = false → lseq σ !! l = Some xs → x ∉ xs.
Proof. unfold in_some_list. intros Hf%bool_decide_eq_false_1 ? Hx. apply Hf. by exists l, xs. Qed.

Lemma exec_op_ok `{ListStoreOk T} s σ o σ' r :
  l_rep s σ → spec_op σ o = Some (σ', r) →
  ∃ s', exec_op s o = Ret (s', r) ∧ l_rep s' σ'.
Proof.
  intros Hrep.
  destruct o as [x|l|l x it|l x|l|l x|l|x|l]; cbn;
    try (destruct (lseq σ !! l) as [xs|] eqn:Hl; [cbn|done]).
  - destruct (in_some_list σ x) eqn:Ex; [done|]. intros [= <- <-]. eexists; split; [done|].
    apply l_item_init_ok; [done|]. intros. by eapply in_some_list_false.
  - destruct (default [] (lseq σ !! l)) eqn:Hl; [|done]. intros [= <- <-].
    eexists; split; [done|]. by apply l_init_ok.
  - case_decide as Hx; [|done]. destruct (split_before it xs) as [[pre post]|] eqn:E; [|done].
    apply split_before_Some in E as [-> ->]. intros [= <- <-].
    destruct (l_insert_ok _ _ _ _ _ _ Hrep Hl Hx) as (s' & -> & ?). by exists s'.
  - destruct (split_at x xs) as [[pre post]|] eqn:E; [|done].
    apply split_at_Some in E as ->. intros [= <- <-].
    destruct (l_erase_ok _ _ _ _ _ _ Hrep Hl) as (s' & -> & ?). by exists s'.
  - intros [= <- <-]. rewrite (l_begin_ok _ _ _ _ Hrep Hl). by exists s.
  - destruct (split_at x xs) as [[pre post]|] eqn:E; [|done].
    apply split_at_Some in E as ->. intros [= <- <-].
    rewrite (l_next_ok _ _ _ _ _ _ Hrep Hl). by exists s.
  - intros [= <- <-]. rewrite (l_empty_ok _ _ _ _ Hrep Hl). by exists s.
  - destruct (in_some_list σ x) eqn:Ex.
    + apply in_some_list_true in Ex as (l & xs & Hl & Hx). intros [= <- <-].
      rewrite (l_isinlist_in _ _ _ _ _ Hrep Hl Hx). by exists s.
    + case_decide; [|done]. intros [= <- <-]. rewrite (l_isinlist_free _ _ _ Hrep) by done.
      by exists s.
  - destruct xs as [|]; [|done]. intros [= <- <-].
    rewrite (l_term_ok _ _ _ _ Hrep Hl). cbn. by exists s.
Qed.

(** The pointer code of list.c refines finite sequences.  From the empty
    store, any sequence of nn_list_* calls that respects the contract (items
    inserted are in no list, positions and erased items are in the list, lists
    are empty when terminated) returns, without an abort or an invalid access,
    every result the sequences predict, and the final pointers represent the
    final sequences. *)
Theorem list_refinement os σ rs :
  spec_run spec_op (LSpec ∅ ∅) os = Some (σ, rs) →
  ∃ s, run exec_op Ptr.empty_store os = Ret (s, rs) ∧ Ptr.rep s σ.
Proof. apply (run_refines Ptr.rep), Ptr.rep_empty. apply (exec_op_ok (H0 := Ptr.ptr_store_ok)). Qed.

Lemma list_refinement_witness :
  let l := (1, 0) in
  let os := [Op_list_init l; Op_item_init 1; Op_item_init 2; Op_item_init 3;
             Op_insert l 1 None; Op_insert l 2 None; Op_insert l 3 (Some 2); Op_next l 1;
             Op_erase l 1; Op_begin l; Op_isinlist 1; Op_erase l 3; Op_erase l 2;
             Op_empty l; Op_term l]%positive in
  ∃ s, run exec_op Ptr.empty_store os =
         Ret (s, [RUnit; RUnit; RUnit; RUnit; RUnit; RUnit; RUnit; RPtr (Some 3);
                  RPtr (Some 3); RPtr (Some 3); RBool false; RPtr (Some 2); RPtr None;
                  RBool true; RUnit]%positive).
Proof.
  intros l os. destruct (spec_run spec_op (LSpec ∅ ∅) os) as [[σ rs]|] eqn:E; [|discriminate E].
  destruct (list_refinement os σ rs E) as (s & Es & _). exists s. rewrite Es.
  vm_compute in E. injection E as _ <-. reflexivity.
Defined.

End refinement.

(** Misuse of a list is detected by the assertions of list.c: inserting an
    item that is already in a list, erasing one that is in none, terminating an
    item that is still linked or a list that is not empty all abort, whatever
    the other arguments. *)
Theorem list_misuse_aborts s σ l xs x y it :
  Ptr.rep s σ → lseq σ !! l = Some xs → x ∈ xs → y ∈ lfree σ →
  Ptr.nn_list_insert s l x it = Fail Abort ∧
  Ptr.nn_list_item_term s x = Fail Abort ∧
  Ptr.nn_list_term s l = Fail Abort ∧
  Ptr.nn_list_erase s l y = Fail Abort.
Proof.
  intros Hrep Hl Hx Hy.
  unfold Ptr.nn_list_insert, Ptr.nn_list_item_term, Ptr.nn_list_erase.
  rewrite (Ptr.rep_isinlist_in _ _ Hrep _ _ _ Hl Hx), (Ptr.rep_isinlist_free _ _ Hrep _ Hy).
  split_and!; [done..| |done].
  change (l_term s l = Fail Abort). rewrite (l_term_ok (ListStoreOk := Ptr.ptr_store_ok) _ _ _ _ Hrep Hl).
  destruct xs; [by apply not_elem_of_nil in Hx|]. by rewrite bool_decide_eq_false_2.
Qed.

Lemma list_misuse_aborts_witness :
  ∃ s, Ptr.nn_list_insert s (1, 0) 5%positive None = Fail Abort ∧
       Ptr.nn_list_erase s (1, 0) 6%positive = Fail Abort.
Proof.
  set (os := [Op_list_init (1, 0)%Z; Op_item_init 5; Op_item_init 6;
              Op_insert (1, 0)%Z 5 None]%positive).
  destruct (spec_run spec_op (LSpec ∅ ∅) os) as [[σ rs]|] eqn:E; [|discriminate E].
  destruct (run_refines Ptr.rep _ _ (exec_op_ok (H0 := Ptr.ptr_store_ok)) _ _ _ _ _ Ptr.rep_empty E) as (s & _ & Hrep).
  vm_compute in E. injection E as <- <-.
  exists s. destruct (list_misuse_aborts s _ (1, 0) [5%positive] 5%positive 6%positive None Hrep)
    as (? & _ & _ & ?); [reflexivity|by vm_compute; left|by vm_compute|by split].
Defined.
