(* ===== verification/NnQueue.v ===== *)
(** * utils/queue.c: intrusive singly linked FIFO queues

    A queue item holds its [next] pointer, -1 when it is in no queue.  The items
    live in a shared memory [qmem]; a queue is the pair of its head and tail
    pointers.  Worker task queues, the event queues of aio/ctx.c and the
    outgoing event queue of a state machine are such queues. *)
From S2P Require Import Prelude NnList.

(** ** The C code *)

Inductive qlink : Set := NOTINQUEUE | Next (p : option addr).

#[global] Instance qlink_eq_dec : EqDecision qlink.
Proof. solve_decision. Defined.

Notation qmem := (gmap addr qlink).

Record nn_queue := NnQueue { qhead : option addr; qtail : option addr }.

Definition nn_queue_init : nn_queue := NnQueue None None.
Definition nn_queue_term (_ : nn_queue) : nn_queue := NnQueue None None.

Definition nn_queue_empty (q : nn_queue) : bool :=
  match qhead q with Some _ => false | None => true end.

Definition get_qitem (m : qmem) (x : addr) : outcome qlink := deref (m !! x).
(** [x->next = k] for a live item [x]. *)
Definition set_qnext (m : qmem) (x : addr) (k : qlink) : outcome qmem :=
  get_qitem m x;; Ret (<[x := k]> m).

Definition nn_queue_push (m : qmem) (q : nn_queue) (item : addr) :
    outcome (qmem * nn_queue) :=
  n ← get_qitem m item;
  nn_assert (bool_decide (n = NOTINQUEUE));;
  let m := <[item := Next None]> m in
  let head := match qhead q with None => Some item | h => h end in
  m ← match qtail q with Some t => set_qnext m t (Next (Some item)) | None => Ret m end;
  Ret (m, NnQueue head (Some item)).

(** A [next] pointer followed by the loop: -1 is no valid pointer. *)
Definition qptr (k : qlink) : outcome (option addr) :=
  match k with NOTINQUEUE => Fail Crash | Next p => Ret p end.

Fixpoint nn_queue_remove_loop (fuel : nat) (m : qmem) (q : nn_queue) (item : addr)
    (it prev : option addr) : outcome (qmem * nn_queue) :=
  match it with
  | None => Ret (m, q)
  | Some x =>
      match fuel with
      | O => Fail Diverge
      | S fuel =>
          k ← get_qitem m x;
          if decide (x = item) then
            n ← qptr k;
            let q := if decide (qhead q = Some x) then NnQueue n (qtail q) else q in
            let q := if decide (qtail q = Some x) then NnQueue (qhead q) prev else q in
            m ← match prev with Some p => set_qnext m p k | None => Ret m end;
            Ret (<[item := NOTINQUEUE]> m, q)
          else
            n ← qptr k; nn_queue_remove_loop fuel m q item n (Some x)
      end
  end.

Definition nn_queue_remove (m : qmem) (q : nn_queue) (item : addr) :
    outcome (qmem * nn_queue) :=
  k ← get_qitem m item;
  if decide (k = NOTINQUEUE) then Ret (m, q)
  else nn_queue_remove_loop (S (size m)) m q item (qhead q) None.

Definition nn_queue_pop (m : qmem) (q : nn_queue) :
    outcome (qmem * nn_queue * option addr) :=
  match qhead q with
  | None => Ret (m, q, None)
  | Some r =>
      k ← get_qitem m r;
      h ← qptr k;
      let q := NnQueue h (match h with None => None | _ => qtail q end) in
      Ret (<[r := NOTINQUEUE]> m, q, Some r)
  end.

Definition nn_queue_item_init (m : qmem) (x : addr) : qmem := <[x := NOTINQUEUE]> m.

Definition nn_queue_item_term (m : qmem) (x : addr) : outcome unit :=
  k ← get_qitem m x; nn_assert (bool_decide (k = NOTINQUEUE)).

Definition nn_queue_item_isinqueue (m : qmem) (x : addr) : outcome bool :=
  k ← get_qitem m x; Ret (if decide (k = NOTINQUEUE) then false else true).

(** ** Representation *)

Fixpoint qseg (m : qmem) (xs : list addr) : Prop :=
  match xs with
  | [] => True
  | x :: xs => m !! x = Some (Next (head xs)) ∧ qseg m xs
  end.

Record qrep (m : qmem) (q : nn_queue) (xs : list addr) : Prop := {
  qrep_head : qhead q = head xs;
  qrep_tail : qtail q = list.last xs;
  qrep_seg : qseg m xs;
  qrep_nodup : NoDup xs;
}.

Lemma qseg_lookup m xs x : qseg m xs → x ∈ xs → ∃ p, m !! x = Some (Next p).
Proof.
  induction xs as [|y xs IH]; cbn; [set_solver|].
  intros [Hy Hs] [->|?]%elem_of_cons; eauto.
Qed.

Lemma qseg_frame m xs x k : x ∉ xs → qseg m xs → qseg (<[x := k]> m) xs.
Proof.
  induction xs as [|y xs IH]; cbn; [done|]. rewrite not_elem_of_cons.
  intros [??] [??]. split; [by rewrite lookup_insert_ne|by apply IH].
Qed.

Lemma qseg_ext m m' xs : (∀ y, y ∈ xs → m' !! y = m !! y) → qseg m xs → qseg m' xs.
Proof.
  induction xs as [|y xs IH]; cbn; [done|]. intros He [??].
  split; [rewrite He by set_solver; done|apply IH; [set_solver|done]].
Qed.

Lemma qseg_app_inv m xs ys : qseg m (xs ++ ys) → qseg m ys.
Proof. induction xs; cbn; naive_solver. Qed.

(** Redirecting the last link of a prefix. *)
Lemma qseg_snoc m xs p ys zs :
  NoDup (xs ++ [p]) → qseg m (xs ++ p :: ys) → p ∉ zs → qseg m zs →
  (∀ x, x ∈ zs → x ∉ xs) →
  qseg (<[p := Next (head zs)]> m) (xs ++ p :: zs).
Proof.
  induction xs as [|x xs IH]; cbn; intros Hnd Hs Hp Hz Hd.
  - split; [by rewrite lookup_insert_eq|by apply qseg_frame].
  - apply NoDup_cons in Hnd as [Hx Hnd]. destruct Hs as [Hxm Hs]. split.
    + rewrite lookup_insert_ne by set_solver. rewrite Hxm. by destruct xs.
    + apply IH; [done..|]. set_solver.
Qed.

Lemma qrep_in m q xs x : qrep m q xs → x ∈ xs → ∃ p, m !! x = Some (Next p).
Proof. intros Hr. apply qseg_lookup, Hr. Qed.

Lemma qrep_size m q xs : qrep m q xs → (length xs ≤ size m)%nat.
Proof.
  intros Hr. rewrite <- (size_list_to_set (C := gset addr)) by apply Hr.
  rewrite <- size_dom. apply subseteq_size. intros x Hx%elem_of_list_to_set.
  destruct (qrep_in _ _ _ _ Hr Hx). by apply elem_of_dom.
Qed.

Lemma nn_queue_push_ok m q xs x :
  qrep m q xs → m !! x = Some NOTINQUEUE →
  ∃ m' q', nn_queue_push m q x = Ret (m', q') ∧ qrep m' q' (xs ++ [x]) ∧
    m' !! x = Some (Next None) ∧ ∀ y, y ≠ x → y ∉ xs → m' !! y = m !! y.
Proof.
  intros Hr Hx. assert (x ∉ xs) as Hn.
  { intros Hin. destruct (qrep_in _ _ _ _ Hr Hin). congruence. }
  destruct Hr as [Hh Ht Hs Hnd]. unfold nn_queue_push, get_qitem, set_qnext, get_qitem.
  rewrite Hx, Hh, Ht. cbn.
  destruct xs as [|p xs _] using rev_ind; cbn.
  - do 2 eexists. split_and!; [done| |by rewrite lookup_insert_eq|].
    + split; cbn; [done|done|by rewrite lookup_insert_eq|apply NoDup_singleton].
    + intros. by rewrite lookup_insert_ne.
  - rewrite last_snoc. assert (x ≠ p ∧ p ≠ x) as [Hne ?] by set_solver.
    destruct (qseg_lookup m _ p Hs) as [k Hk]; [set_solver|].
    rewrite lookup_insert_ne, Hk by done. cbn. do 2 eexists.
    split_and!; [done| |by rewrite lookup_insert_ne, lookup_insert_eq|].
    + split; cbn.
      * by destruct xs.
      * by rewrite last_snoc.
      * rewrite <- app_assoc. cbn.
        apply (qseg_snoc _ xs p [] [x]); [done|by apply qseg_frame|set_solver|
          by cbn; rewrite lookup_insert_eq|set_solver].
      * apply NoDup_app. split_and!; [done| |apply NoDup_singleton]. set_solver.
    + intros y ??. rewrite !lookup_insert_ne by set_solver. done.
Qed.

Lemma nn_queue_pop_ok m q x xs :
  qrep m q (x :: xs) →
  ∃ q', nn_queue_pop m q = Ret (<[x := NOTINQUEUE]> m, q', Some x) ∧
        qrep (<[x := NOTINQUEUE]> m) q' xs.
Proof.
  intros [Hh Ht [Hx Hs] [Hn Hnd]%NoDup_cons]. unfold nn_queue_pop, get_qitem.
  rewrite Hh. cbn. rewrite Hx. cbn. eexists. split; [done|]. split; cbn; [done| | |done].
  - rewrite Ht. destruct xs; [done|by rewrite last_cons_cons].
  - by apply qseg_frame.
Qed.

Lemma nn_queue_pop_empty m q : qrep m q [] → nn_queue_pop m q = Ret (m, q, None).
Proof. intros [Hh _ _ _]. unfold nn_queue_pop. by rewrite Hh. Qed.

Lemma remove_loop_ok m q pre x post fuel :
  qrep m q (pre ++ x :: post) → ∀ pre1 pre2, pre = pre1 ++ pre2 →
  (length (pre2 ++ [x]) ≤ fuel)%nat →
  nn_queue_remove_loop fuel m q x (head (pre2 ++ x :: post)) (list.last pre1) =
  nn_queue_remove_loop 1 m q x (Some x) (list.last pre).
Proof.
  intros Hr pre1 pre2. revert pre1 fuel. induction pre2 as [|y pre2 IH];
    intros pre1 fuel -> Hf; (destruct fuel as [|fuel]; [cbn in Hf; lia|]).
  - rewrite app_nil_r. cbn. unfold get_qitem.
    destruct (m !! x); cbn; [|done]. by rewrite !decide_True.
  - assert (y ≠ x) as Hne.
    { destruct Hr as [_ _ _ Hnd]. rewrite <- app_assoc in Hnd.
      apply NoDup_app in Hnd as (_ & _ & Hnd). apply NoDup_cons in Hnd. set_solver. }
    assert (m !! y = Some (Next (head (pre2 ++ x :: post)))) as Hy.
    { destruct Hr as [_ _ Hs _]. rewrite <- app_assoc in Hs. apply qseg_app_inv in Hs.
      by destruct Hs. }
    cbn [nn_queue_remove_loop app head hd_error]. unfold get_qitem. rewrite Hy. cbn [deref mbind outcome_bind].
    rewrite decide_False by done. cbn [qptr mbind outcome_bind].
    assert (Some y = list.last (pre1 ++ [y])) as -> by by rewrite last_snoc.
    apply (IH (pre1 ++ [y]) fuel); [by rewrite <- app_assoc|cbn in Hf; lia].
Qed.

Lemma nn_queue_remove_ok m q pre x post :
  qrep m q (pre ++ x :: post) →
  ∃ m' q', nn_queue_remove m q x = Ret (m', q') ∧ qrep m' q' (pre ++ post) ∧
    m' !! x = Some NOTINQUEUE ∧ ∀ y, y ≠ x → y ∉ pre → m' !! y = m !! y.
Proof.
  intros Hr. pose proof (qrep_size _ _ _ Hr) as Hsz.
  assert (m !! x = Some (Next (head post))) as Hx.
  { destruct Hr as [_ _ Hs _]. apply qseg_app_inv in Hs. by destruct Hs. }
  unfold nn_queue_remove, get_qitem. rewrite Hx. cbn -[nn_queue_remove_loop].
  rewrite (qrep_head _ _ _ Hr). change None with (list.last (@nil addr)).
  rewrite (remove_loop_ok _ _ pre x post _ Hr [] pre)
    by (rewrite ?length_app in *; cbn in *; done || lia).
  cbn. unfold get_qitem. rewrite Hx. cbn. rewrite (decide_True (P := x = x)) by done.
  destruct Hr as [Hh Ht Hs Hnd]. pose proof (NoDup_middle _ _ _ Hnd) as (Hn1 & Hn2 & Hnd').
  rewrite Hh, Ht.
  destruct pre as [|p pre _] using rev_ind.
  - cbn in *. destruct Hs as [_ Hs]. do 2 eexists. split_and!; [done| |by rewrite lookup_insert_eq|].
    + destruct (decide (Some x = Some x)) as [_|[]]; [cbn|done].
      destruct post as [|b post].
      * cbn. destruct (decide (Some x = Some x)) as [_|[]]; done.
      * rewrite last_cons_cons. rewrite decide_False;
          [split; [done|done|apply (qseg_frame m (b :: post)); done|done]|].
        intros E%last_Some_elem_of. set_solver.
    + intros. by rewrite lookup_insert_ne.
  - rewrite last_snoc. unfold set_qnext, get_qitem.
    rewrite <- app_assoc in Hs |- *. cbn in Hs |- *.
    destruct (qseg_lookup _ _ p Hs) as [k Hp]; [set_solver|]. rewrite Hp. cbn.
    assert (head (pre ++ p :: x :: post) ≠ Some x) as Hhd.
    { intros E. destruct pre; cbn in *; set_solver. }
    destruct (decide (head (pre ++ p :: x :: post) = Some x)) as [|_]; [done|].
    do 2 eexists. split_and!; [done| |by rewrite lookup_insert_eq|].
    + rewrite <- app_assoc. rewrite <- app_assoc in Hh, Ht, Hnd'. cbn in Hh, Ht, Hnd' |- *.
      split; [| | |done].
      * by case_decide; cbn; rewrite ?Hh; destruct pre.
      * destruct post as [|b post].
        -- rewrite last_app in Ht. cbn in Ht. rewrite decide_True by done. by rewrite last_snoc.
        -- rewrite last_app, !last_cons_cons in Ht. rewrite last_app, last_cons_cons.
           rewrite decide_False; [done|]. rewrite Ht, last_cons.
           intros E. assert (list.last (b :: post) = Some x) as E'%last_Some_elem_of; [|done].
           by rewrite last_cons; destruct (list.last post).
      * apply qseg_frame; [set_solver|].
        change (p :: post) with ([p] ++ post) in Hnd'. rewrite app_assoc in Hnd'.
        apply NoDup_app in Hnd' as (? & Hd & _).
        apply (qseg_snoc _ _ _ (x :: post)); [done..|set_solver| |set_solver].
        apply (qseg_app_inv m (pre ++ [p; x])). by rewrite <- app_assoc.
    + intros y ??. rewrite !lookup_insert_ne by set_solver. done.
Qed.

(** ** Refinement: a queue is a FIFO *)

Section refinement.

Inductive q_op :=
| Q_item_init (x : addr) | Q_push (x : addr) | Q_pop | Q_remove (x : addr)
| Q_empty | Q_isinqueue (x : addr) | Q_item_term (x : addr).

Inductive q_res := QUnit | QPtr (p : option addr) | QBool (b : bool).

(** The specification's state: the items of the queue, oldest first, and the
    initialised items that are in no queue. *)
Record qspec := QSpec { qitems : list addr; qfree : gset addr }.

Definition q_spec (σ : qspec) (o : q_op) : option (qspec * q_res) :=
  let '(QSpec xs F) := σ in
  match o with
  | Q_item_init x => if decide (x ∈ xs) then None else Some (QSpec xs ({[x]} ∪ F), QUnit)
  | Q_push x => if decide (x ∈ F) then Some (QSpec (xs ++ [x]) (F ∖ {[x]}), QUnit) else None
  | Q_pop => match xs with
             | [] => Some (σ, QPtr None)
             | x :: xs => Some (QSpec xs ({[x]} ∪ F), QPtr (Some x)) end
  | Q_remove x =>
      if decide (x ∈ xs) then Some (QSpec (filter (λ y, y ≠ x) xs) ({[x]} ∪ F), QUnit)
      else if decide (x ∈ F) then Some (σ, QUnit) else None
  | Q_empty => Some (σ, QBool (bool_decide (xs = [])))
  | Q_isinqueue x =>
      if decide (x ∈ xs) then Some (σ, QBool true)
      else if decide (x ∈ F) then Some (σ, QBool false) else None
  | Q_item_term x => if decide (x ∈ F) then Some (σ, QUnit) else None
  end.

Definition q_exec (mq : qmem * nn_queue) (o : q_op) : outcome (qmem * nn_queue * q_res) :=
  let '(m, q) := mq in
  match o with
  | Q_item_init x => Ret (nn_queue_item_init m x, q, QUnit)
  | Q_push x => mq ← nn_queue_push m q x; Ret (mq, QUnit)
  | Q_pop => '(mq, p) ← nn_queue_pop m q; Ret (mq, QPtr p)
  | Q_remove x => mq ← nn_queue_remove m q x; Ret (mq, QUnit)
  | Q_empty => Ret (m, q, QBool (nn_queue_empty q))
  | Q_isinqueue x => b ← nn_queue_item_isinqueue m x; Ret (m, q, QBool b)
  | Q_item_term x => nn_queue_item_term m x;; Ret (m, q, QUnit)
  end.

Definition q_inv (mq : qmem * nn_queue) (σ : qspec) : Prop :=
  qrep mq.1 mq.2 (qitems σ) ∧ ∀ x, x ∈ qfree σ → mq.1 !! x = Some NOTINQUEUE.

Lemma q_inv_free mq σ x : q_inv mq σ → x ∈ qfree σ → x ∉ qitems σ.
Proof.
  intros [Hr Hf] Hx Hin. destruct (qrep_in _ _ _ _ Hr Hin) as [p Hp].
  rewrite Hf in Hp by done. done.
Qed.

Lemma q_inv_isinqueue m q σ x :
  q_inv (m, q) σ → x ∈ qitems σ → nn_queue_item_isinqueue m x = Ret true.
Proof.
  intros [Hr _] Hx. destruct (qrep_in _ _ _ _ Hr Hx) as [p Hp].
  unfold nn_queue_item_isinqueue, get_qitem. cbn in Hp. by rewrite Hp.
Qed.

Lemma q_exec_ok mq σ o σ' r :
  q_inv mq σ → q_spec σ o = Some (σ', r) → ∃ mq', q_exec mq o = Ret (mq', r) ∧ q_inv mq' σ'.
Proof.
  destruct mq as [m q], σ as [xs F]. intros Hinv. pose proof Hinv as [Hr Hf]. cbn in Hr, Hf.
  destruct o as [x|x| |x| |x|x]; cbn [q_spec q_exec].
  - case_decide; [done|]. intros [= <- <-]. eexists; split; [done|]. split; cbn.
    + destruct Hr. split; [done..|by apply qseg_frame|done].
    + intros y Hy. unfold nn_queue_item_init. destruct (decide (x = y)) as [->|].
      * by rewrite lookup_insert_eq.
      * rewrite lookup_insert_ne by done. apply Hf. set_solver.
  - case_decide as Hx; [|done]. intros [= <- <-].
    destruct (nn_queue_push_ok _ _ _ x Hr) as (m' & q' & -> & ? & ? & Hne); [by apply Hf|].
    eexists; split; [done|]. split; cbn; [done|]. intros y Hy. rewrite Hne; [|set_solver|].
    + apply Hf. set_solver.
    + apply (q_inv_free _ _ _ Hinv). set_solver.
  - destruct xs as [|x xs]; intros [= <- <-].
    + rewrite (nn_queue_pop_empty _ _ Hr). by eexists.
    + destruct (nn_queue_pop_ok _ _ _ _ Hr) as (q' & -> & ?). eexists; split; [done|].
      split; cbn; [done|]. intros y Hy. destruct (decide (x = y)) as [->|].
      * by rewrite lookup_insert_eq.
      * rewrite lookup_insert_ne by done. apply Hf. set_solver.
  - case_decide as Hx.
    + intros [= <- <-]. apply list_elem_of_split in Hx as (pre & post & ->).
      destruct (nn_queue_remove_ok _ _ _ _ _ Hr) as (m' & q' & -> & Hr' & Hx' & Hne).
      eexists; split; [done|]. destruct (NoDup_middle _ _ _ (qrep_nodup _ _ _ Hr)) as (?&?&?).
      split; cbn; [by rewrite filter_ne_middle|]. intros y Hy.
      destruct (decide (x = y)) as [->|]; [done|]. assert (y ∈ F) as HyF by set_solver.
      rewrite Hne; [by apply Hf|done|]. pose proof (q_inv_free _ _ _ Hinv HyF). set_solver.
    + case_decide as HF; [|done]. intros [= <- <-]. unfold nn_queue_remove, get_qitem.
      rewrite (Hf _ HF). by eexists.
  - intros [= <- <-]. eexists. split; [|done]. unfold nn_queue_empty.
    rewrite (qrep_head _ _ _ Hr). by destruct xs.
  - case_decide as Hx; [|case_decide as HF; [|done]]; intros [= <- <-].
    + rewrite (q_inv_isinqueue _ _ _ _ Hinv) by done. by eexists.
    + unfold nn_queue_item_isinqueue, get_qitem. rewrite (Hf _ HF). by eexists.
  - case_decide as HF; [|done]. intros [= <- <-].
    unfold nn_queue_item_term, get_qitem. rewrite (Hf _ HF). by eexists.
Qed.

(** Queue.c implements a FIFO queue with removal from the middle.  From an
    initialised queue, any sequence of nn_queue_* calls that only pushes items
    that are in no queue returns the results of a list appended at one end and
    popped at the other; removing an item that is not queued changes nothing. *)
Theorem queue_refinement os σ rs :
  spec_run q_spec (QSpec [] ∅) os = Some (σ, rs) →
  ∃ m q, run q_exec (∅, nn_queue_init) os = Ret (m, q, rs) ∧ qrep m q (qitems σ).
Proof.
  assert (q_inv (∅, nn_queue_init) (QSpec [] ∅)) as Hinv.
  { split; [split; [done..|constructor]|set_solver]. }
  intros Hs. destruct (run_refines q_inv _ _ q_exec_ok _ _ _ _ _ Hinv Hs) as ([m q] & E & ?).
  exists m, q. by split; [|apply H].
Qed.

Lemma queue_refinement_witness :
  ∃ m q, run q_exec (∅, nn_queue_init)
    [Q_item_init 1; Q_item_init 2; Q_item_init 3; Q_push 1; Q_push 2; Q_push 3;
     Q_remove 2; Q_remove 2; Q_pop; Q_isinqueue 3; Q_push 1; Q_pop; Q_pop; Q_pop; Q_empty]%positive
  = Ret (m, q, [QUnit; QUnit; QUnit; QUnit; QUnit; QUnit; QUnit; QUnit; QPtr (Some 1);
      QBool true; QUnit; QPtr (Some 3); QPtr (Some 1); QPtr None; QBool true]%positive).
Proof.
  set (os := [_; _; _; _; _; _; _; _; _; _; _; _; _; _; _]).
  destruct (spec_run q_spec (QSpec [] ∅) os) as [[σ rs]|] eqn:E; [|discriminate E].
  destruct (queue_refinement os σ rs E) as (m & q & Es & _). exists m, q. rewrite Es.
  vm_compute in E. injection E as _ <-. reflexivity.
Defined.

End refinement.
