(* ===== verification/Hash.v ===== *)
(** * utils/hash.c: hash table with chaining and doubling

    The table is an array of lists.  It is written against the interface of
    list.c, so that the items of the table, the keys embedded next to them and
    the buckets are exactly those of the C code: [lid] (a, i) is the bucket
    [&array \[i\]] of the array allocated as object [a]. *)
From S2P Require Import Prelude NnList.

Definition NN_HASH_INITIAL_SLOTS : Z := 32.

Record nn_hash := NnHash { slots : Z; hitems : Z; array : Z }.

(** The memory a table lives in: list items and headers, the [key] fields of
    the hash items, the next object [nn_alloc] returns. *)
Record hmem (T : Type) := HMem { hstore : T; hkeys : gmap addr Z; hfresh : Z }.
Arguments HMem {T}.
Arguments hstore {T}.
Arguments hkeys {T}.
Arguments hfresh {T}.

Definition nn_hash_key (key : Z) : Z :=
  let key := Z.lxor (Z.lxor key 61) (Z.shiftr key 16) in
  let key := u32 (key + u32 (Z.shiftl key 3)) in
  let key := Z.lxor key (Z.shiftr key 4) in
  let key := u32 (key * 0x27d4eb2d) in
  Z.lxor key (Z.shiftr key 15).

Section code.
Context `{ListStore T}.

Fixpoint init_slots (s : T) (a : Z) (n : nat) : T :=
  match n with
  | O => s
  | S n => l_init (init_slots s a n) (a, Z.of_nat n)
  end.

Definition nn_hash_init (m : hmem T) : hmem T * nn_hash :=
  let a := hfresh m in
  (HMem (init_slots (hstore m) a (Z.to_nat NN_HASH_INITIAL_SLOTS)) (hkeys m) (a + 1),
   NnHash NN_HASH_INITIAL_SLOTS 0 a).

Fixpoint term_slots (s : T) (a : Z) (i : Z) (n : nat) : outcome unit :=
  match n with
  | O => Ret tt
  | S n => l_term s (a, i);; term_slots s a (i + 1) n
  end.

Definition nn_hash_term (m : hmem T) (h : nn_hash) : outcome unit :=
  term_slots (hstore m) (array h) 0 (Z.to_nat (slots h)).

Definition get_key (m : gmap addr Z) (x : addr) : outcome Z := deref (m !! x).

(** The [while] loop that empties the old bucket [i]. *)
Fixpoint move_slot (fuel : nat) (s : T) (keys : gmap addr Z) (old : lid) (a n : Z) : outcome T :=
  match fuel with
  | O => Fail Diverge
  | S fuel =>
      e ← l_empty s old;
      if e : bool then Ret s
      else
        it ← l_begin s old;
        hitm ← deref it;
        '(s, _) ← l_erase s old hitm;
        k ← get_key keys hitm;
        let newslot := nn_hash_key k mod n in
        s ← l_insert s (a, newslot) hitm None;
        move_slot fuel s keys old a n
  end.

Fixpoint move_slots (s : T) (keys : gmap addr Z) (olda : Z) (i : Z) (oldslots : nat)
    (a n : Z) : outcome T :=
  match oldslots with
  | O => Ret s
  | S k =>
      s ← move_slot (S (l_fuel s)) s keys (olda, i) a n;
      l_term s (olda, i);;
      move_slots s keys olda (i + 1) k a n
  end.

Definition nn_hash_rehash (m : hmem T) (h : nn_hash) : outcome (hmem T * nn_hash) :=
  let oldslots := slots h in
  let oldarray := array h in
  let a := hfresh m in
  let n := u32 (slots h * 2) in
  let s := init_slots (hstore m) a (Z.to_nat n) in
  s ← move_slots s (hkeys m) oldarray 0 (Z.to_nat oldslots) a n;
  Ret (HMem s (hkeys m) (a + 1), NnHash n (hitems h) a).

(** The scan of a bucket for [key]. *)
Definition scan_slot (m : hmem T) (l : lid) (key : Z) : outcome (option addr) :=
  it ← l_begin (hstore m) l;
  l_find (l_fuel (hstore m)) (hstore m) l it
    (λ x, k ← get_key (hkeys m) x; Ret (bool_decide (k = key))).

Definition nn_hash_insert (m : hmem T) (h : nn_hash) (key : Z) (item : addr) :
    outcome (hmem T * nn_hash) :=
  let i := nn_hash_key key mod slots h in
  (* the loop asserts that no item of the bucket has the key *)
  dup ← scan_slot m (array h, i) key;
  nn_assert (match dup with None => true | Some _ => false end);;
  let keys := <[item := key]> (hkeys m) in
  s ← l_insert (hstore m) (array h, i) item None;
  let h := NnHash (slots h) (u32 (hitems h + 1)) (array h) in
  let m := HMem s keys (hfresh m) in
  if (slots h <? u32 (hitems h * 2)) && (slots h <? 0x80000000)
  then nn_hash_rehash m h else Ret (m, h).

Definition nn_hash_erase (m : hmem T) (h : nn_hash) (item : addr) :
    outcome (hmem T * nn_hash) :=
  k ← get_key (hkeys m) item;
  let slot := nn_hash_key k mod slots h in
  '(s, _) ← l_erase (hstore m) (array h, slot) item;
  Ret (HMem s (hkeys m) (hfresh m), NnHash (slots h) (u32 (hitems h - 1)) (array h)).

Definition nn_hash_get (m : hmem T) (h : nn_hash) (key : Z) : outcome (option addr) :=
  scan_slot m (array h, nn_hash_key key mod slots h) key.

Definition nn_hash_item_init (m : hmem T) (x : addr) : hmem T :=
  HMem (l_item_init (hstore m) x) (hkeys m) (hfresh m).

Definition nn_hash_item_term (m : hmem T) (x : addr) : outcome unit :=
  l_item_term (hstore m) x.

End code.

(** ** The finite map a table represents *)

(** [x] is in one of the [n] buckets of array [a]. *)
Definition in_slots (σ : lspec) (a : Z) (n : Z) (x : addr) : Prop :=
  ∃ i xs, 0 ≤ i < n ∧ lseq σ !! (a, i) = Some xs ∧ x ∈ xs.

(** All buckets are initialised and hold only items whose key hashes there. *)
Definition slots_ok (σ : lspec) (keys : gmap addr Z) (a n : Z) : Prop :=
  ∀ i, 0 ≤ i < n → ∃ xs, lseq σ !! (a, i) = Some xs ∧
    ∀ x, x ∈ xs → ∃ k, keys !! x = Some k ∧ nn_hash_key k mod n = i.

(** [x] is in some list. *)
Definition linked (σ : lspec) (x : addr) : Prop :=
  ∃ l xs, lseq σ !! l = Some xs ∧ x ∈ xs.

Lemma linked_insert σ F l xs x :
  linked (LSpec (<[l := xs]> (lseq σ)) F) x → x ∈ xs ∨ linked σ x.
Proof.
  intros (l' & ys & Hl & Hx). cbn in Hl. apply lookup_insert_Some in Hl as [[_ <-]|[_ Hl]]; [by left|].
  right. by exists l', ys.
Qed.

Section hrep.
Context `{ListStoreOk T}.

(** [hrep m h M]: the table [h] in memory [m] is the map [M] from keys to
    items. *)
Record hrep (m : hmem T) (σ : lspec) (h : nn_hash) (M : gmap Z addr) : Prop := {
  hrep_list : l_rep (hstore m) σ;
  hrep_slots : NN_HASH_INITIAL_SLOTS ≤ slots h < 2 ^ 32;
  hrep_items : hitems h = u32 (Z.of_nat (size M));
  hrep_ok : slots_ok σ (hkeys m) (array h) (slots h);
  hrep_map k x : M !! k = Some x ↔ in_slots σ (array h) (slots h) x ∧ hkeys m !! x = Some k;
  hrep_array : array h < hfresh m;
  hrep_fresh a i : hfresh m ≤ a → lseq σ !! (a, i) = None;
}.

(** The load factor stays at most 1/2 until the table cannot grow. *)
Definition hload (h : nn_hash) (M : gmap Z addr) : Prop :=
  2 * Z.of_nat (size M) ≤ slots h ∨ 2 ^ 31 ≤ slots h.

Lemma hrep_pos m σ h M : hrep m σ h M → 0 < slots h.
Proof. intros Hr. pose proof (hrep_slots _ _ _ _ Hr). unfold NN_HASH_INITIAL_SLOTS in *. lia. Qed.

Lemma slot_range k n : 0 < n → 0 ≤ nn_hash_key k mod n < n.
Proof. intros. by apply Z.mod_pos_bound. Qed.

Lemma in_slots_key σ keys a n x k :
  slots_ok σ keys a n → keys !! x = Some k → in_slots σ a n x →
  ∃ xs, lseq σ !! (a, nn_hash_key k mod n) = Some xs ∧ x ∈ xs.
Proof.
  intros Hok Hk (i & xs & Hi & Hl & Hx). destruct (Hok i Hi) as (xs' & Hl' & Hxs').
  rewrite Hl in Hl'. injection Hl' as <-. destruct (Hxs' x Hx) as (k' & Hk' & <-).
  rewrite Hk in Hk'. injection Hk' as <-. by exists xs.
Qed.

Lemma hrep_bucket m σ h M k x :
  hrep m σ h M →
  M !! k = Some x ↔ ∃ xs, lseq σ !! (array h, nn_hash_key k mod slots h) = Some xs ∧
                          x ∈ xs ∧ hkeys m !! x = Some k.
Proof.
  intros Hr. rewrite (hrep_map _ _ _ _ Hr). split.
  - intros [Hin Hk]. destruct (in_slots_key _ _ _ _ _ _ (hrep_ok _ _ _ _ Hr) Hk Hin)
      as (xs & ? & ?). by exists xs.
  - intros (xs & Hl & Hx & Hk). split; [|done]. eexists _, xs. split_and!; [| |done..].
    all: by eapply slot_range, hrep_pos.
Qed.

Lemma nn_hash_get_ok m σ h M k : hrep m σ h M → nn_hash_get m h k = Ret (M !! k).
Proof.
  intros Hr. unfold nn_hash_get, scan_slot.
  destruct (hrep_ok _ _ _ _ Hr (nn_hash_key k mod slots h)) as (xs & Hl & Hxs);
    [by eapply slot_range, hrep_pos|].
  rewrite (l_find_begin_ok _ σ _ _ (λ x, bool_decide (hkeys m !! x = Some k)) xs);
    [|apply Hr|done|].
  - f_equal. symmetry. destruct (head _) as [x|] eqn:E.
    + apply head_Some_elem_of, list_elem_of_filter in E as [Hk%bool_decide_eq_true_1 Hx].
      apply (hrep_bucket _ _ _ _ _ _ Hr). by exists xs.
    + apply head_None in E. destruct (M !! k) as [x|] eqn:Ek; [|done].
      apply (hrep_bucket _ _ _ _ _ _ Hr) in Ek as (xs' & Hl' & Hx & Hk). simplify_eq.
      exfalso. apply (not_elem_of_nil x). rewrite <- E. apply list_elem_of_filter.
      split; [by apply bool_decide_eq_true_2|done].
  - intros x Hx. destruct (Hxs x Hx) as (k' & Hk' & _). unfold get_key. rewrite Hk'. cbn.
    f_equal. apply bool_decide_ext. naive_solver.
Qed.

(** Initialising the slots of a fresh array. *)
Lemma init_slots_ok s σ a n :
  l_rep s σ → (∀ i, lseq σ !! (a, i) = None) →
  ∃ σ', l_rep (init_slots s a n) σ' ∧ lfree σ' = lfree σ ∧
    (∀ i, 0 ≤ i < Z.of_nat n → lseq σ' !! (a, i) = Some []) ∧
    (∀ i, Z.of_nat n ≤ i → lseq σ' !! (a, i) = None) ∧
    (∀ b i, b ≠ a → lseq σ' !! (b, i) = lseq σ !! (b, i)) ∧
    (∀ x, linked σ' x → linked σ x).
Proof.
  intros Hr Hno. induction n as [|n (σ' & Hr' & Hf & Hin & Hout & Hne & Hlk)].
  - exists σ. split_and!; [done|done|lia|done|done|done].
  - exists (lspec_set σ' (a, Z.of_nat n) []). cbn. split_and!.
    + apply l_init_ok; [done|]. by rewrite Hout by lia.
    + done.
    + intros i Hi. destruct (decide (i = Z.of_nat n)) as [->|]; [by rewrite lookup_insert_eq|].
      rewrite lookup_insert_ne by congruence. apply Hin. lia.
    + intros i Hi. rewrite lookup_insert_ne by (intros [= ]; lia). apply Hout. lia.
    + intros b i Hb. rewrite lookup_insert_ne by congruence. by apply Hne.
    + intros x [?%not_elem_of_nil|?]%linked_insert; [done|by apply Hlk].
Qed.

Lemma term_slots_ok s σ a i n :
  l_rep s σ → (∀ j, i ≤ j < i + Z.of_nat n → lseq σ !! (a, j) = Some []) →
  term_slots s a i n = Ret tt.
Proof.
  intros Hr. revert i. induction n as [|n IH]; intros i Hin; cbn; [done|].
  rewrite (l_term_ok _ _ _ _ Hr (Hin i ltac:(lia))). cbn. apply IH. intros. apply Hin. lia.
Qed.

(** Items that moved: [in_slots] of the new array gains [xs]. *)
Lemma in_slots_insert σ a n l x y xs :
  lseq σ !! (a, l) = Some xs → 0 ≤ l < n →
  in_slots (LSpec (<[(a, l) := xs ++ [x]]> (lseq σ)) ∅) a n y ↔ in_slots σ a n y ∨ y = x.
Proof.
  intros Hl Hn. unfold in_slots. cbn. split.
  - intros (i & ys & Hi & Hl' & Hy). destruct (decide (i = l)) as [->|].
    + rewrite lookup_insert_eq in Hl'. injection Hl' as <-.
      apply elem_of_app in Hy as [Hy| ->%list_elem_of_singleton]; [|by right].
      left. by exists l, xs.
    + rewrite lookup_insert_ne in Hl' by congruence. left. by exists i, ys.
  - intros [(i & ys & Hi & Hl' & Hy)| ->].
    + destruct (decide (i = l)) as [->|].
      * exists l, (xs ++ [x]). simplify_eq. rewrite lookup_insert_eq. set_solver.
      * exists i, ys. rewrite lookup_insert_ne by congruence. done.
    + exists l, (xs ++ [x]). rewrite lookup_insert_eq. set_solver.
Qed.

Lemma in_slots_seq σ σ' a n x :
  (∀ i, lseq σ' !! (a, i) = lseq σ !! (a, i)) → in_slots σ' a n x ↔ in_slots σ a n x.
Proof. intros He. unfold in_slots. by setoid_rewrite He. Qed.

Lemma slots_ok_insert σ σ' keys a n k x xs :
  slots_ok σ keys a n → 0 < n → keys !! x = Some k →
  lseq σ !! (a, nn_hash_key k mod n) = Some xs →
  (∀ i, lseq σ' !! (a, i) =
     if decide (i = nn_hash_key k mod n) then Some (xs ++ [x]) else lseq σ !! (a, i)) →
  slots_ok σ' keys a n.
Proof.
  intros Hok Hn Hk Hl He i Hi. rewrite He. case_decide as Hd.
  - eexists. split; [done|]. intros y [Hy| ->%list_elem_of_singleton]%elem_of_app; [|by eauto].
    destruct (Hok i Hi) as (ys & Hl' & Hys). subst i. simplify_eq. by apply Hys.
  - by apply Hok.
Qed.

Lemma move_slot_ok keys old i a n xs :
  a ≠ old → 0 < n → (∀ x, x ∈ xs → ∃ k, keys !! x = Some k) →
  ∀ fuel s σ, l_rep s σ → lseq σ !! (old, i) = Some xs → slots_ok σ keys a n →
  (length xs < fuel)%nat →
  ∃ s' σ', move_slot fuel s keys (old, i) a n = Ret s' ∧ l_rep s' σ' ∧ lfree σ' = lfree σ ∧
    slots_ok σ' keys a n ∧ lseq σ' !! (old, i) = Some [] ∧
    (∀ x, in_slots σ' a n x ↔ in_slots σ a n x ∨ x ∈ xs) ∧
    (∀ b j, b ≠ a → (b, j) ≠ (old, i) → lseq σ' !! (b, j) = lseq σ !! (b, j)) ∧
    (∀ x, linked σ' x → linked σ x).
Proof.
  intros Hne Hn. induction xs as [|x xs IH]; intros Hkeys fuel s σ Hr Hl Hok Hf;
    (destruct fuel as [|fuel]; [cbn in Hf; lia|]); cbn [move_slot];
    rewrite (l_empty_ok _ _ _ _ Hr Hl).
  - cbn. exists s, σ. split_and!; [done..|set_solver|done|done].
  - rewrite bool_decide_eq_false_2 by done. cbn [mbind outcome_bind].
    rewrite (l_begin_ok _ _ _ _ Hr Hl). cbn [mbind outcome_bind head hd_error deref].
    destruct (l_erase_ok _ _ _ [] xs x Hr Hl) as (s1 & -> & Hr1).
    destruct (Hkeys x) as [k Hk]; [set_solver|]. unfold get_key. rewrite Hk.
    cbn [mbind outcome_bind deref].
    pose proof (slot_range k n Hn) as Hslot.
    destruct (Hok _ Hslot) as (ys & Hys & _).
    destruct (l_insert_end_ok s1 _ (a, nn_hash_key k mod n) ys x Hr1) as (s2 & -> & Hr2);
      [by cbn; rewrite lookup_insert_ne by congruence|set_solver|].
    cbn [mbind outcome_bind]. match type of Hr2 with l_rep _ ?σ2 => set (τ := σ2) in * end.
    assert (∀ j, lseq τ !! (a, j) =
      if decide (j = nn_hash_key k mod n) then Some (ys ++ [x]) else lseq σ !! (a, j)) as Ha.
    { intros j. cbn. case_decide as Hd; [subst j; by rewrite lookup_insert_eq|].
      by rewrite !lookup_insert_ne by congruence. }
    assert (slots_ok τ keys a n) as Hok' by by eapply slots_ok_insert.
    destruct (IH ltac:(set_solver) fuel s2 τ Hr2) as
      (s' & σ' & -> & Hr' & Hfr & Hok'' & Hl' & Hin & Hfb & Hlk); [|done|cbn in Hf; lia|].
    { cbn. rewrite lookup_insert_ne by congruence. by rewrite lookup_insert_eq. }
    exists s', σ'. split_and!; [done|done| |done|done| | |].
    + rewrite Hfr. cbn. apply set_eq.
      assert (x ∉ lfree σ) by (intros Hx; by eapply (l_rep_free _ _ _ _ _ Hr Hl Hx); set_solver). set_solver.
    + intros y. rewrite Hin. rewrite elem_of_cons.
      assert (in_slots τ a n y ↔ in_slots σ a n y ∨ y = x) as ->; [|tauto].
      rewrite <- (in_slots_insert σ a n _ x y ys) by done. apply in_slots_seq.
      intros j. rewrite Ha. cbn. case_decide as Hd; [subst j; by rewrite lookup_insert_eq|].
      by rewrite lookup_insert_ne by congruence.
    + intros b j Hb Hbj. rewrite Hfb by done. cbn. by rewrite !lookup_insert_ne by congruence.
    + intros y Hy%Hlk. apply linked_insert in Hy as [Hy|Hy].
      * apply elem_of_app in Hy as [Hy|Hy%list_elem_of_singleton]; [by exists (a, nn_hash_key k mod n), ys|].
        subst y. exists (old, i), (x :: xs). split; [done|set_solver].
      * apply linked_insert in Hy as [Hy|Hy]; [|done]. exists (old, i), (x :: xs). split; [done|set_solver].
Qed.

Lemma move_slots_ok keys old a n k :
  a ≠ old → 0 < n → ∀ i s σ, l_rep s σ → slots_ok σ keys a n →
  (∀ j, i ≤ j < i + Z.of_nat k → ∃ xs, lseq σ !! (old, j) = Some xs ∧
     ∀ x, x ∈ xs → ∃ k, keys !! x = Some k) →
  ∃ s' σ', move_slots s keys old i k a n = Ret s' ∧ l_rep s' σ' ∧ lfree σ' = lfree σ ∧
    slots_ok σ' keys a n ∧
    (∀ x, in_slots σ' a n x ↔ in_slots σ a n x ∨
       ∃ j xs, i ≤ j < i + Z.of_nat k ∧ lseq σ !! (old, j) = Some xs ∧ x ∈ xs) ∧
    (∀ b j, b ≠ a → b ≠ old → lseq σ' !! (b, j) = lseq σ !! (b, j)) ∧
    (∀ x, linked σ' x → linked σ x).
Proof.
  intros Hne Hn. induction k as [|k IH]; intros i s σ Hr Hok Hold; cbn [move_slots].
  - exists s, σ. split_and!; [done..| |done|done]. intros x. split; [by left|].
    intros [|(j & ? & ? & _)]; [done|lia].
  - destruct (Hold i) as (xs & Hl & Hxs); [lia|].
    destruct (move_slot_ok keys old i a n xs Hne Hn Hxs (S (l_fuel s)) s σ Hr Hl Hok)
      as (s1 & σ1 & -> & Hr1 & Hf1 & Hok1 & Hl1 & Hin1 & Hfb1 & Hlk1).
    { pose proof (l_rep_fuel _ _ _ _ Hr Hl). lia. }
    cbn [mbind outcome_bind]. rewrite (l_term_ok _ _ _ _ Hr1 Hl1). cbn [mbind outcome_bind nn_assert bool_decide].
    assert (∀ j, j ≠ i → lseq σ1 !! (old, j) = lseq σ !! (old, j)) as Hold1.
    { intros j Hj. apply Hfb1; congruence. }
    destruct (IH (i + 1) s1 σ1 Hr1 Hok1) as (s' & σ' & E & Hr' & Hf' & Hok' & Hin' & Hfb' & Hlk').
    { intros j Hj. rewrite Hold1 by lia. apply Hold. lia. }
    exists s', σ'. split_and!; [|done|congruence|done| | |].
    + exact E.
    + intros x. rewrite Hin', Hin1. split.
      * intros [[?|Hx]|(j & ys & Hj & Hl' & ?)]; [by left| |]; right.
        -- exists i, xs. split_and!; [lia..|done|done].
        -- rewrite Hold1 in Hl' by lia. exists j, ys. split_and!; [lia..|done|done].
      * intros [?|(j & ys & Hj & Hl' & ?)]; [by left; left|].
        destruct (decide (j = i)) as [->|]; [simplify_eq; by left; right|].
        right. exists j, ys. rewrite Hold1 by done. split_and!; [lia..|done|done].
    + intros b j Hb Hb'. rewrite Hfb' by done. apply Hfb1; congruence.
    + auto.
Qed.

Lemma slots_ok_keys σ keys a n i xs :
  slots_ok σ keys a n → 0 ≤ i < n → lseq σ !! (a, i) = Some xs →
  ∀ x, x ∈ xs → ∃ k, keys !! x = Some k.
Proof.
  intros Hok Hi Hl x Hx. destruct (Hok i Hi) as (xs' & Hl' & Hxs). simplify_eq.
  destruct (Hxs x Hx) as (k & ? & _). by exists k.
Qed.

Lemma nn_hash_rehash_ok m σ h M :
  hrep m σ h M → slots h < 2 ^ 31 →
  ∃ m' h' σ', nn_hash_rehash m h = Ret (m', h') ∧ hrep m' σ' h' M ∧
    slots h' = 2 * slots h ∧ lfree σ' = lfree σ ∧ (∀ x, linked σ' x → linked σ x).
Proof.
  intros Hr Hlt. pose proof (hrep_slots _ _ _ _ Hr) as Hs. pose proof (hrep_pos _ _ _ _ Hr).
  pose proof (hrep_array _ _ _ _ Hr) as Ha.
  assert (u32 (slots h * 2) = 2 * slots h) as Hn by (unfold u32; rewrite Z.mod_small; lia).
  unfold nn_hash_rehash. rewrite Hn.
  destruct (init_slots_ok (hstore m) σ (hfresh m) (Z.to_nat (2 * slots h)))
    as (σ1 & Hr1 & Hf1 & Hin1 & _ & Hne1 & Hlk1).
  { apply Hr. } { intros i. apply (hrep_fresh _ _ _ _ Hr). lia. }
  rewrite Z2Nat.id in Hin1 by lia.
  destruct (move_slots_ok (hkeys m) (array h) (hfresh m) (2 * slots h) (Z.to_nat (slots h))
    ltac:(lia) ltac:(lia) 0 _ σ1 Hr1) as (s' & σ' & -> & Hr' & Hf' & Hok' & Hin' & Hfb' & Hlk').
  { intros i Hi. exists []. split; [by apply Hin1|]. set_solver. }
  { intros j Hj. rewrite Hne1 by lia. destruct (hrep_ok _ _ _ _ Hr j) as (xs & Hl & _); [lia|].
    exists xs. split; [done|]. eapply slots_ok_keys; [apply Hr| |done]. lia. }
  cbn. eexists _, _, σ'. split_and!; [done| |done|congruence|auto].
  assert (∀ x, in_slots σ' (hfresh m) (2 * slots h) x ↔ in_slots σ (array h) (slots h) x) as Hin.
  { intros x. rewrite Hin'. split.
    - intros [(i & ys & Hi & Hl & Hx)|(j & ys & Hj & Hl & Hx)].
      + rewrite Hin1 in Hl by lia. injection Hl as <-. by apply not_elem_of_nil in Hx.
      + rewrite Hne1 in Hl by lia. exists j, ys. split_and!; [lia..|done|done].
    - intros (j & ys & Hj & Hl & Hx). right. exists j, ys. rewrite Hne1 by lia.
      split_and!; [lia..|done|done]. }
  split; cbn; [done| |apply Hr|done| |lia|].
  - unfold NN_HASH_INITIAL_SLOTS in *. lia.
  - intros k x. rewrite Hin. apply Hr.
  - intros b i Hb. rewrite Hfb', Hne1 by lia. apply (hrep_fresh _ _ _ _ Hr). lia.
Qed.

Lemma nn_hash_insert_dup m σ h M k x y :
  hrep m σ h M → M !! k = Some y → nn_hash_insert m h k x = Fail Abort.
Proof.
  intros Hr Hk. unfold nn_hash_insert. fold (nn_hash_get m h k).
  by rewrite (nn_hash_get_ok _ _ _ _ _ Hr), Hk.
Qed.

(** Linking an item into its bucket, before the table grows. *)
Lemma link_item_ok m σ h M k x xs s1 :
  let l := (array h, nn_hash_key k mod slots h) in
  hrep m σ h M → M !! k = None → x ∈ lfree σ → lseq σ !! l = Some xs →
  l_rep s1 (lspec_ins σ l (xs ++ [x]) x) →
  hrep (HMem s1 (<[x := k]> (hkeys m)) (hfresh m)) (lspec_ins σ l (xs ++ [x]) x)
       (NnHash (slots h) (u32 (hitems h + 1)) (array h)) (<[k := x]> M).
Proof.
  intros l Hr Hk Hx Hl Hr1. pose proof (hrep_pos _ _ _ _ Hr) as Hpos.
  pose proof (slot_range k (slots h) Hpos) as Hslot.
  assert (∀ l ys, lseq σ !! l = Some ys → x ∉ ys) as Hnot.
  { intros l' ys Hl'. by eapply l_rep_free; [apply Hr| |]. }
  set (σ1 := lspec_ins _ _ _ _).
  assert (∀ y, in_slots σ1 (array h) (slots h) y ↔ in_slots σ (array h) (slots h) y ∨ y = x) as Hin.
  { intros y. by rewrite <- (in_slots_insert σ _ _ (nn_hash_key k mod slots h) x y xs). }
  split; cbn [hstore hkeys hfresh slots hitems array]; [done|apply Hr| | | |apply Hr|].
  - rewrite (hrep_items _ _ _ _ Hr), map_size_insert_None by done.
    unfold u32. rewrite Z.add_mod_idemp_l by lia. f_equal. lia.
  - eapply (slots_ok_insert σ _ _ _ _ k x xs); [|done|by rewrite lookup_insert_eq|done|].
    + intros j Hj. destruct (hrep_ok _ _ _ _ Hr j Hj) as (ys & Hl' & Hys).
      exists ys. split; [done|]. intros y Hy.
      rewrite lookup_insert_ne by (intros ->; by eapply Hnot). by apply Hys.
    + intros j. cbn. unfold l. case_decide as Hd; [subst j; by rewrite lookup_insert_eq|].
      by rewrite lookup_insert_ne by congruence.
  - intros k' y. rewrite lookup_insert_Some, Hin, lookup_insert_Some.
    rewrite (hrep_map _ _ _ _ Hr). split.
    + intros [[-> ->]|(Hne & Hiny & Hy)]; [by split; [right|left]|]. split; [by left|].
      right. split; [|done]. intros ->. destruct Hiny as (j & ys & _ & Hl' & Hy').
      by eapply Hnot.
    + intros [[Hiny| ->] [[Hxy Hkk]|[Hxy Hkk]]]; [|right|by left|done].
      * subst y. destruct Hiny as (j & ys & _ & Hl' & Hy'). exfalso. by eapply Hnot.
      * split; [|done]. intros ->. assert (M !! k' = Some y); [|congruence].
        by apply (hrep_map _ _ _ _ Hr).
  - intros a j Ha. cbn. pose proof (hrep_array _ _ _ _ Hr).
    rewrite lookup_insert_ne by (intros [= ]; lia). by apply (hrep_fresh _ _ _ _ Hr).
Qed.

Lemma nn_hash_insert_ok m σ h M k x :
  hrep m σ h M → hload h M → M !! k = None → x ∈ lfree σ →
  ∃ m' h' σ', nn_hash_insert m h k x = Ret (m', h') ∧ hrep m' σ' h' (<[k := x]> M) ∧
    hload h' (<[k := x]> M) ∧ lfree σ' = lfree σ ∖ {[x]} ∧
    (∀ y, linked σ' y → linked σ y ∨ y = x).
Proof.
  intros Hr Hld Hk Hx. pose proof (hrep_pos _ _ _ _ Hr) as Hpos. unfold nn_hash_insert.
  fold (nn_hash_get m h k). rewrite (nn_hash_get_ok _ _ _ _ _ Hr), Hk. cbn.
  pose proof (slot_range k (slots h) Hpos) as Hslot.
  destruct (hrep_ok _ _ _ _ Hr _ Hslot) as (xs & Hl & _).
  destruct (l_insert_end_ok _ _ _ _ x (hrep_list _ _ _ _ Hr) Hl Hx) as (s1 & -> & Hr1).
  pose proof (link_item_ok _ _ _ _ _ _ _ _ Hr Hk Hx Hl Hr1) as Hr2. cbn.
  assert (∀ y, linked (lspec_ins σ (array h, nn_hash_key k mod slots h) (xs ++ [x]) x) y →
    linked σ y ∨ y = x) as Hlk.
  { intros y [Hy|Hy]%linked_insert; [|by left].
    apply elem_of_app in Hy as [Hy|Hy%list_elem_of_singleton]; [left; by exists (array h, nn_hash_key k mod slots h), xs|by right]. }
  destruct (hrep_slots _ _ _ _ Hr) as [Hs1 Hs2]. unfold NN_HASH_INITIAL_SLOTS in Hs1.
  assert (Z.of_nat (size (<[k := x]> M)) = Z.of_nat (size M) + 1) as Hsz.
  { rewrite map_size_insert_None by done. lia. }
  pose proof (hrep_items _ _ _ _ Hr2) as Hit. cbn in Hit. rewrite Hit.
  destruct (slots h <? 2147483648) eqn:Elt; [apply Z.ltb_lt in Elt|apply Z.ltb_ge in Elt].
  - assert (2 * Z.of_nat (size M) ≤ slots h) by (destruct Hld; lia).
    assert (u32 (u32 (Z.of_nat (size (<[k:=x]> M))) * 2) = 2 * (Z.of_nat (size M) + 1)) as ->.
    { rewrite Hsz. unfold u32. rewrite (Z.mod_small (_ + 1)), Z.mod_small by lia. lia. }
    destruct (slots h <? 2 * _) eqn:Eg; cbn.
    + destruct (nn_hash_rehash_ok _ _ _ _ Hr2) as (m' & h' & σ' & E & Hr' & Hs' & Hf' & Hlk'); [cbn; lia|].
      rewrite Hit in E. exists m', h', σ'. split_and!; [done..| |done|auto]. left.
      cbn in Hs'. rewrite Hsz, Hs'. lia.
    + apply Z.ltb_ge in Eg. do 3 eexists. split_and!; [done| | | |exact Hlk].
      * by rewrite <- Hit. * left. cbn. rewrite Hsz. lia. * done.
  - rewrite andb_false_r. do 3 eexists. split_and!; [done| | | |exact Hlk].
    * by rewrite <- Hit. * right. cbn. lia. * done.
Qed.

Lemma nn_hash_erase_ok m σ h M k x :
  hrep m σ h M → M !! k = Some x →
  ∃ m' h' σ', nn_hash_erase m h x = Ret (m', h') ∧ hrep m' σ' h' (delete k M) ∧
    slots h' = slots h ∧ lfree σ' = {[x]} ∪ lfree σ ∧ (∀ y, linked σ' y → linked σ y ∧ y ≠ x).
Proof.
  intros Hr Hk. pose proof Hk as (xs & Hl & Hx & Hkey)%(hrep_bucket _ _ _ _ _ _ Hr).
  unfold nn_hash_erase, get_key. rewrite Hkey. cbn.
  apply list_elem_of_split in Hx as (pre & post & ->).
  destruct (l_erase_ok _ _ _ _ _ _ (hrep_list _ _ _ _ Hr) Hl) as (s1 & -> & Hr1). cbn.
  destruct (l_rep_nodup_split _ _ _ _ _ _ (hrep_list _ _ _ _ Hr) Hl) as (Hx1 & Hx2 & _).
  set (i := nn_hash_key k mod slots h) in *.
  eexists _, _, (lspec_del σ (array h, i) (pre ++ post) x). split_and!; [done| |done|done|].
  2: { intros y (l & ys & Hl' & Hy). cbn in Hl'. apply lookup_insert_Some in Hl' as [[<- <-]|[Hne Hl']].
       - split; [|set_solver]. exists (array h, i), (pre ++ x :: post). split; [done|set_solver].
       - split; [by exists l, ys|]. intros ->. apply Hne.
         apply (l_rep_disj _ _ _ _ _ _ x (hrep_list _ _ _ _ Hr) Hl Hl'); [set_solver|done]. }
  set (σ1 := lspec_del _ _ _ _).
  assert (0 ≤ i < slots h) as Hi by by eapply slot_range, hrep_pos.
  assert (∀ y, in_slots σ1 (array h) (slots h) y ↔ in_slots σ (array h) (slots h) y ∧ y ≠ x) as Hin.
  { intros y. unfold in_slots. cbn. split.
    - intros (j & ys & Hj & Hl' & Hy). destruct (decide (j = i)) as [->|Hne].
      + rewrite lookup_insert_eq in Hl'. injection Hl' as <-.
        split; [|set_solver]. exists i, (pre ++ x :: post). split_and!; [lia..|done|set_solver].
      + rewrite lookup_insert_ne in Hl' by congruence. split; [by exists j, ys|]. intros ->.
        pose proof (l_rep_disj _ _ _ _ _ _ x (hrep_list _ _ _ _ Hr) Hl Hl') as Hd.
        assert ((array h, i) = (array h, j)) by (apply Hd; [rewrite elem_of_app, elem_of_cons; auto|done]). congruence.
    - intros [(j & ys & Hj & Hl' & Hy) Hne]. destruct (decide (j = i)) as [->|].
      + simplify_eq. exists i, (pre ++ post). rewrite lookup_insert_eq. set_solver.
      + exists j, ys. rewrite lookup_insert_ne by congruence. done. }
  split; cbn; [done|apply Hr| | | |apply Hr|].
  - rewrite (hrep_items _ _ _ _ Hr), map_size_delete_Some by done.
    unfold u32. rewrite Zminus_mod_idemp_l. f_equal.
    assert (size M ≠ 0%nat); [|lia]. intros E%map_size_empty_inv. by rewrite E in Hk.
  - intros j Hj. destruct (hrep_ok _ _ _ _ Hr j Hj) as (ys & Hl' & Hys).
    destruct (decide (j = i)) as [->|].
    + exists (pre ++ post). cbn. rewrite lookup_insert_eq. simplify_eq. split; [done|].
      intros y Hy. apply Hys. set_solver.
    + exists ys. cbn. rewrite lookup_insert_ne by congruence. done.
  - intros k' y. rewrite lookup_delete_Some, Hin, (hrep_map _ _ _ _ Hr).
    split.
    + intros (Hne & Hy & Hky). split_and!; [done| |done]. intros ->. congruence.
    + intros ((Hy & Hne) & Hky). split_and!; [|done..]. intros <-.
      assert (M !! k = Some y); [by apply (hrep_map _ _ _ _ Hr)|congruence].
  - intros a j Ha. pose proof (hrep_array _ _ _ _ Hr).
    cbn. rewrite lookup_insert_ne by (intros [= ]; lia). by apply (hrep_fresh _ _ _ _ Hr).
Qed.

Lemma nn_hash_item_init_ok m σ h M x :
  hrep m σ h M → ¬ linked σ x → hrep (nn_hash_item_init m x) (lspec_new σ x) h M.
Proof.
  intros Hr Hx. assert (∀ a n y, in_slots (lspec_new σ x) a n y ↔ in_slots σ a n y) as Hin
    by (intros; by apply in_slots_seq).
  split; cbn; try (apply Hr).
  apply l_item_init_ok; [apply Hr|]. intros l xs Hl Hxs. apply Hx. by exists l, xs.
Qed.

Lemma nn_hash_term_ok m σ h : hrep m σ h ∅ → nn_hash_term m h = Ret tt.
Proof.
  intros Hr. apply term_slots_ok with σ; [apply Hr|]. intros i Hi.
  pose proof (hrep_pos _ _ _ _ Hr). rewrite Z2Nat.id in Hi by lia.
  destruct (hrep_ok _ _ _ _ Hr i) as (xs & Hl & Hxs); [lia|]. rewrite Hl. f_equal.
  destruct xs as [|x xs]; [done|]. destruct (Hxs x) as (k & Hk & _); [set_solver|].
  assert ((∅ : gmap Z addr) !! k = Some x); [|done]. apply (hrep_map _ _ _ _ Hr).
  split; [|done]. exists i, (x :: xs). split_and!; [lia..|done|set_solver].
Qed.

Lemma nn_hash_init_ok m σ m' h :
  l_rep (hstore m) σ → (∀ a i, hfresh m ≤ a → lseq σ !! (a, i) = None) →
  nn_hash_init m = (m', h) →
  ∃ σ', hrep m' σ' h ∅ ∧ hload h ∅ ∧ lfree σ' = lfree σ ∧ (∀ x, linked σ' x → linked σ x).
Proof.
  intros Hr Hfresh [= <- <-].
  destruct (init_slots_ok (hstore m) σ (hfresh m) (Z.to_nat NN_HASH_INITIAL_SLOTS) Hr)
    as (σ' & Hr' & Hf & Hin & Hout & Hne & Hlk); [intros; by apply Hfresh|].
  exists σ'. unfold NN_HASH_INITIAL_SLOTS in *. split_and!; [|left; cbn; by rewrite map_size_empty|done|done].
  split; cbn; [done|unfold NN_HASH_INITIAL_SLOTS; lia|by rewrite map_size_empty| | |lia|].
  - intros i Hi. exists []. split; [by apply Hin|]. set_solver.
  - intros k x. split; [done|]. intros [(i & xs & Hi & Hl & Hx) _].
    unfold NN_HASH_INITIAL_SLOTS in Hi. rewrite Hin in Hl by lia. injection Hl as <-. by apply not_elem_of_nil in Hx.
  - intros a i Ha. rewrite Hne by lia. apply Hfresh. lia.
Qed.

End hrep.

(** ** Refinement: a table is a finite map *)

Section refinement.

Inductive h_op :=
| H_insert (k : Z) (x : addr) | H_get (k : Z)
| H_erase (x : addr) | H_item_term (x : addr) | H_term.

Inductive h_res := HUnit | HItem (x : option addr).

Record hspec := HSpec { hmap : gmap Z addr; hfree : gset addr }.

Definition key_of (M : gmap Z addr) (x : addr) : option Z :=
  fst <$> head (filter (λ kx, kx.2 = x) (map_to_list M)).

Definition h_spec (σ : hspec) (o : h_op) : option (hspec * h_res) :=
  let '(HSpec M F) := σ in
  match o with
  | H_insert k x =>
      match M !! k with
      | None => if decide (x ∈ F) then Some (HSpec (<[k := x]> M) (F ∖ {[x]}), HUnit) else None
      | Some _ => None end
  | H_get k => Some (σ, HItem (M !! k))
  | H_erase x =>
      match key_of M x with
      | Some k => Some (HSpec (delete k M) ({[x]} ∪ F), HUnit) | None => None end
  | H_item_term x => if decide (x ∈ F) then Some (σ, HUnit) else None
  | H_term => if decide (M = ∅) then Some (σ, HUnit) else None
  end.

Definition h_exec `{ListStore T} (mh : hmem T * nn_hash) (o : h_op) :
    outcome (hmem T * nn_hash * h_res) :=
  let '(m, h) := mh in
  match o with
  | H_insert k x => mh ← nn_hash_insert m h k x; Ret (mh, HUnit)
  | H_get k => r ← nn_hash_get m h k; Ret (m, h, HItem r)
  | H_erase x => mh ← nn_hash_erase m h x; Ret (mh, HUnit)
  | H_item_term x => nn_hash_item_term m x;; Ret (m, h, HUnit)
  | H_term => nn_hash_term m h;; Ret (m, h, HUnit)
  end.

Lemma key_of_Some M x k : key_of M x = Some k → M !! k = Some x.
Proof.
  unfold key_of. destruct (head _) as [[k' x']|] eqn:E; cbn; [|done]. intros [= ->].
  apply head_Some_elem_of, list_elem_of_filter in E as [Hx E]. cbn in Hx. subst.
  by apply elem_of_map_to_list.
Qed.

Definition h_inv `{ListStoreOk T} (mh : hmem T * nn_hash) (σ : hspec) : Prop :=
  ∃ τ, hrep mh.1 τ mh.2 (hmap σ) ∧ hload mh.2 (hmap σ) ∧ lfree τ = hfree σ.

Lemma h_exec_ok `{ListStoreOk T} mh σ o σ' r :
  h_inv mh σ → h_spec σ o = Some (σ', r) → ∃ mh', h_exec mh o = Ret (mh', r) ∧ h_inv mh' σ'.
Proof.
  destruct mh as [m h], σ as [M F]. intros (τ & Hr & Hld & Hf). cbn in Hr, Hld, Hf. subst F.
  destruct o as [k x|k|x|x|]; cbn.
  - destruct (M !! k) eqn:Hk; [done|]. case_decide; [|done]. intros [= <- <-].
    destruct (nn_hash_insert_ok _ _ _ _ k x Hr Hld Hk) as (m' & h' & σ' & -> & ? & ? & ? & _); [done|].
    eexists; split; [done|]. by exists σ'.
  - intros [= <- <-]. rewrite (nn_hash_get_ok _ _ _ _ _ Hr). eexists; split; [done|]. by exists τ.
  - destruct (key_of M x) as [k|] eqn:Hk; [apply key_of_Some in Hk|done]. intros [= <- <-].
    destruct (nn_hash_erase_ok _ _ _ _ _ _ Hr Hk) as (m' & h' & σ' & -> & ? & Hs & ? & _).
    eexists; split; [done|]. exists σ'. split_and!; [done| |done]. unfold hload in *. cbn. rewrite Hs.
    rewrite map_size_delete_Some by done. destruct Hld; [left|right]; lia.
  - case_decide; [|done]. intros [= <- <-]. unfold nn_hash_item_term.
    rewrite (l_item_term_ok _ _ _ (hrep_list _ _ _ _ Hr)) by done.
    eexists; split; [done|]. by exists τ.
  - case_decide; [|done]. subst M. intros [= <- <-]. rewrite (nn_hash_term_ok _ _ _ Hr).
    eexists; split; [done|]. by exists τ.
Qed.

(** Hash.c implements a finite map from 32-bit keys to items.  Over any
    correct list implementation, after [nn_hash_init] every sequence of
    insertions of unlinked items under unused keys, lookups, removals and
    terminations returns what the map predicts; no insertion, in particular
    none that doubles the table and re-hashes every item, loses or moves an
    entry; and at most half of the slots are used until the table reaches 2^31
    slots. *)
Theorem hash_refinement `{ListStoreOk T} (m m' : hmem T) τ h os σ rs :
  l_rep (hstore m) τ → (∀ a i, hfresh m ≤ a → lseq τ !! (a, i) = None) →
  nn_hash_init m = (m', h) →
  spec_run h_spec (HSpec ∅ (lfree τ)) os = Some (σ, rs) →
  ∃ m'' h'', run h_exec (m', h) os = Ret (m'', h'', rs) ∧ hload h'' (hmap σ) ∧
    ∀ k, nn_hash_get m'' h'' k = Ret (hmap σ !! k).
Proof.
  intros Hr Hfresh Hinit Hs.
  destruct (nn_hash_init_ok _ _ _ _ Hr Hfresh Hinit) as (τ' & Hr' & Hld & Hf & _).
  assert (h_inv (m', h) (HSpec ∅ (lfree τ))) as Hinv by by exists τ'.
  destruct (run_refines h_inv _ _ h_exec_ok os _ _ _ _ Hinv Hs) as ([m'' h''] & E & τ'' & Hr'' & Hld'' & _).
  exists m'', h''. split_and!; [done..|]. intros k. by eapply nn_hash_get_ok.
Qed.

Definition sample_items : list addr := Pos.of_nat <$> seq 1 20.

Lemma hash_refinement_witness :
  let st := foldl Ptr.nn_list_item_init Ptr.empty_store sample_items in
  let '(m, h) := nn_hash_init (HMem st ∅ 0) in
  let os := (zip_with (λ k x, H_insert (Z.of_nat k * 32) x) (seq 1 20) sample_items) ++
    [H_get 64; H_erase 2%positive; H_get 64; H_get 640; H_insert 64 2%positive; H_get 64] in
  ∃ m' h', run h_exec (m, h) os = Ret (m', h', replicate 20 HUnit ++
    [HItem (Some 2%positive); HUnit; HItem None; HItem (Some 20%positive); HUnit;
     HItem (Some 2%positive)]).
Proof.
  intros st. destruct (nn_hash_init (HMem st ∅ 0)) as [m h] eqn:Ei. intros os.
  destruct (spec_run h_spec (HSpec ∅ (list_to_set sample_items)) os) as [[σ rs]|] eqn:E;
    [|vm_compute in E; discriminate E].
  assert (Ptr.rep st (LSpec ∅ (list_to_set sample_items))) as Hrep.
  { split; cbn [lseq lfree]; [done|done|]. intros x. rewrite elem_of_list_to_set. intros Hx.
    assert (Forall (λ y, Ptr.items st !! y = Some (Ptr.Item Ptr.NOTINLIST Ptr.NOTINLIST)) sample_items) as Hall
      by (repeat constructor).
    by apply (proj1 (Forall_forall _ _) Hall). }
  destruct (hash_refinement (H0 := Ptr.ptr_store_ok) (HMem st ∅ 0) m _ h os σ rs Hrep (λ _ _ _, eq_refl) Ei E)
    as (m'' & h'' & Er & _).
  exists m'', h''. rewrite Er.
  vm_compute in E. injection E as _ <-. reflexivity.
Defined.

End refinement.
