(* ===== verification/Priolist.v ===== *)
(** * protocols/utils/priolist.c: pipes by priority

    Sixteen lists of pipes, one per priority, each with a "current" pipe that
    rotates through the list, and the number of the highest-priority non-empty
    list.  The load balancer (lb.c) and the fair queuer (fq.c) are thin layers
    over it.

    The memory of a priolist (headers and the items embedded in the pipes' data)
    is a list store of its own: [lid] (0, i) is [self->slots\[i\].pipes]. *)
From S2P Require Import Prelude NnList.

Notation pid := positive (only parsing).

Definition NN_PRIOLIST_SLOTS : Z := 16.

(** ** The C code *)

Record nn_priolist_data := PrioData { ppipe : pid; ppriority : Z }.

Record nn_priolist (T : Type) := Priolist {
  pstore : T;                             (* slots\[i\].pipes and the items *)
  pdata : gmap addr nn_priolist_data;     (* the pipes' data *)
  pslots : list (option addr);            (* slots\[i\].current *)
  pcurrent : Z;                           (* current *)
}.
Arguments Priolist {T}.
Arguments pstore {T}.
Arguments pdata {T}.
Arguments pslots {T}.
Arguments pcurrent {T}.

Section code.
Context `{ListStore T}.

Fixpoint init_prio_slots (s : T) (n : nat) : T :=
  match n with O => s | S n => l_init (init_prio_slots s n) (0, Z.of_nat n) end.

Definition nn_priolist_init (s : T) : nn_priolist T :=
  Priolist (init_prio_slots s (Z.to_nat NN_PRIOLIST_SLOTS)) ∅
    (replicate (Z.to_nat NN_PRIOLIST_SLOTS) None) (-1).

Fixpoint term_prio_slots (s : T) (i : Z) (n : nat) : outcome unit :=
  match n with O => Ret tt | S n => l_term s (0, i);; term_prio_slots s (i + 1) n end.

Definition nn_priolist_term (self : nn_priolist T) : outcome unit :=
  term_prio_slots (pstore self) 0 (Z.to_nat NN_PRIOLIST_SLOTS).

Definition nn_priolist_add (self : nn_priolist T) (data : addr) (pipe : pid)
    (priority : Z) : nn_priolist T :=
  Priolist (l_item_init (pstore self) data)
    (<[data := PrioData pipe priority]> (pdata self)) (pslots self) (pcurrent self).

(** [&self->slots \[i\]]: outside the array there is nothing to access. *)
Definition slot_at (i : Z) : outcome lid :=
  if decide (0 ≤ i < NN_PRIOLIST_SLOTS) then Ret (0, i) else Fail Crash.

Definition get_data (self : nn_priolist T) (data : addr) : outcome nn_priolist_data :=
  deref (pdata self !! data).
Definition get_current (self : nn_priolist T) (i : Z) : outcome (option addr) :=
  slot_at i;; deref (pslots self !! Z.to_nat i).
Definition set_current (self : nn_priolist T) (i : Z) (c : option addr) : nn_priolist T :=
  Priolist (pstore self) (pdata self) (<[Z.to_nat i := c]> (pslots self)) (pcurrent self).
Definition set_store (self : nn_priolist T) (s : T) : nn_priolist T :=
  Priolist s (pdata self) (pslots self) (pcurrent self).
Definition set_pcurrent (self : nn_priolist T) (c : Z) : nn_priolist T :=
  Priolist (pstore self) (pdata self) (pslots self) c.

(** [while (nn_list_empty (&self->slots \[self->current - 1\].pipes))] with its
    body: move to the next lower priority, or to -1 after the last one. *)
Fixpoint skip_empty (fuel : nat) (s : T) (cur : Z) : outcome Z :=
  match fuel with
  | O => Fail Diverge
  | S fuel =>
      l ← slot_at (cur - 1);
      e ← l_empty s l;
      if e : bool then
        let cur := cur + 1 in
        if NN_PRIOLIST_SLOTS <? cur then Ret (-1) else skip_empty fuel s cur
      else Ret cur
  end.

Definition skip_fuel : nat := S (Z.to_nat NN_PRIOLIST_SLOTS).

Definition nn_priolist_rm (self : nn_priolist T) (data : addr) : outcome (nn_priolist T) :=
  b ← l_isinlist (pstore self) data;
  if negb b then l_item_term (pstore self) data;; Ret self
  else
    d ← get_data self data;
    l ← slot_at (ppriority d - 1);
    cur ← get_current self (ppriority d - 1);
    if decide (cur ≠ Some data) then
      '(s, _) ← l_erase (pstore self) l data;
      l_item_term s data;;
      Ret (set_store self s)
    else
      '(s, it) ← l_erase (pstore self) l data;
      l_item_term s data;;
      c ← match it with Some c => Ret (Some c) | None => l_begin s l end;
      let self := set_current (set_store self s) (ppriority d - 1) c in
      if decide (pcurrent self ≠ ppriority d) then Ret self
      else
        cur ← skip_empty skip_fuel s (pcurrent self);
        Ret (set_pcurrent self cur).

Definition nn_priolist_activate (self : nn_priolist T) (data : addr) :
    outcome (nn_priolist T) :=
  d ← get_data self data;
  l ← slot_at (ppriority d - 1);
  e ← l_empty (pstore self) l;
  s ← l_insert (pstore self) l data None;
  let self := set_store self s in
  if negb e then Ret self
  else
    let self := set_current self (ppriority d - 1) (Some data) in
    if decide (pcurrent self = -1) then Ret (set_pcurrent self (ppriority d))
    else if ppriority d <? pcurrent self then Ret (set_pcurrent self (ppriority d))
    else Ret self.

Definition nn_priolist_is_active (self : nn_priolist T) : bool :=
  if decide (pcurrent self = -1) then false else true.

Definition nn_priolist_getpipe (self : nn_priolist T) : outcome (option pid) :=
  if decide (pcurrent self = -1) then Ret None
  else
    c ← get_current self (pcurrent self - 1);
    x ← deref c;
    d ← get_data self x;
    Ret (Some (ppipe d)).

Definition nn_priolist_advance (self : nn_priolist T) (release : bool) :
    outcome (nn_priolist T) :=
  nn_assert (0 <? pcurrent self);;
  l ← slot_at (pcurrent self - 1);
  c ← get_current self (pcurrent self - 1);
  x ← deref c;
  '(s, it) ← (if release then l_erase (pstore self) l x
              else n ← l_next (pstore self) l x; Ret (pstore self, n));
  c ← match it with Some c => Ret (Some c) | None => l_begin s l end;
  let self := set_current (set_store self s) (pcurrent self - 1) c in
  cur ← skip_empty skip_fuel s (pcurrent self);
  Ret (set_pcurrent self cur).

Definition nn_priolist_get_priority (self : nn_priolist T) : Z := pcurrent self.

End code.

(** ** The abstract state

    A slot is the list split in front of its current pipe. *)

Record zipper := Zip { bef : list addr; aft : list addr }.

Definition zlist (z : zipper) : list addr := bef z ++ aft z.
(** The order in which the pipes of a slot get their turns. *)
Definition zring (z : zipper) : list addr := aft z ++ bef z.

(** The current pointer wraps over at the end of the list. *)
Definition znorm (z : zipper) : zipper :=
  match aft z with [] => Zip [] (bef z) | _ => z end.

Definition zip_add (z : zipper) (x : addr) : zipper :=
  Zip (bef z) (aft z ++ [x]).
Definition zip_rm (z : zipper) (x : addr) : zipper :=
  znorm (Zip (filter (λ y, y ≠ x) (bef z)) (filter (λ y, y ≠ x) (aft z))).
Definition zip_advance (z : zipper) (release : bool) : zipper :=
  match aft z with
  | [] => z
  | c :: aft => znorm (Zip (if release then bef z else bef z ++ [c]) aft)
  end.

Record prio := Prio {
  zslots : list zipper;                 (* the sixteen slots, highest priority first *)
  pidle : gset addr;                    (* added, but not active *)
  pinfo : gmap addr nn_priolist_data;
}.

Definition zempty (z : zipper) : bool := match aft z with [] => true | _ => false end.

(** The highest-priority non-empty slot (from 0), and its current pipe. *)
Definition first_slot (zs : list zipper) : option nat :=
  fst <$> list_find (λ z, zempty z = false) zs.

Definition prio_current (p : prio) : option (nat * addr) :=
  i ← first_slot (zslots p); z ← zslots p !! i; x ← head (aft z); Some (i, x).

Definition prio_empty : prio :=
  Prio (replicate (Z.to_nat NN_PRIOLIST_SLOTS) (Zip [] [])) ∅ ∅.
Definition prio_add (p : prio) (x : addr) (pipe : pid) (priority : Z) : prio :=
  Prio (zslots p) ({[x]} ∪ pidle p) (<[x := PrioData pipe priority]> (pinfo p)).
Definition prio_slot (p : prio) (x : addr) : nat :=
  match pinfo p !! x with Some d => Z.to_nat (ppriority d - 1) | None => 0 end.
Definition prio_activate (p : prio) (x : addr) : prio :=
  Prio (alter (λ z, zip_add z x) (prio_slot p x) (zslots p)) (pidle p ∖ {[x]}) (pinfo p).
(** Removed data may be added again later. *)
Definition prio_rm (p : prio) (x : addr) : prio :=
  if decide (x ∈ pidle p) then p
  else Prio (alter (λ z, zip_rm z x) (prio_slot p x) (zslots p)) ({[x]} ∪ pidle p) (pinfo p).
Definition prio_advance (p : prio) (release : bool) : prio :=
  match prio_current p with
  | None => p
  | Some (i, x) =>
      Prio (alter (λ z, zip_advance z release) i (zslots p))
        (if release then {[x]} ∪ pidle p else pidle p) (pinfo p)
  end.

(** ** Representation *)

Definition slot_num (i : option nat) : Z :=
  match i with Some i => Z.of_nat i + 1 | None => -1 end.

Section prep.
Context `{ListStoreOk T}.

Record prep_at (self : nn_priolist T) (p : prio) (σ : lspec) : Prop := {
  pr_list : l_rep (pstore self) σ;
  pr_length : length (zslots p) = Z.to_nat NN_PRIOLIST_SLOTS;
  pr_slots i z : zslots p !! i = Some z → lseq σ !! (0, Z.of_nat i) = Some (zlist z);
  pr_only l xs : lseq σ !! l = Some xs →
    ∃ i : nat, l = (0, Z.of_nat i) ∧ (i < Z.to_nat NN_PRIOLIST_SLOTS)%nat;
  pr_wf i z : zslots p !! i = Some z → aft z = [] → bef z = [];
  pr_currents : pslots self = (λ z, head (aft z)) <$> zslots p;
  pr_free : lfree σ = pidle p;
  pr_data : pdata self = pinfo p;
  pr_prio i z x : zslots p !! i = Some z → x ∈ zlist z →
    ∃ d, pinfo p !! x = Some d ∧ ppriority d = Z.of_nat i + 1;
  pr_range x d : pinfo p !! x = Some d → 1 ≤ ppriority d ≤ NN_PRIOLIST_SLOTS;
  pr_idle x : x ∈ pidle p → is_Some (pinfo p !! x);
  pr_active x d : pinfo p !! x = Some d → x ∉ pidle p →
    ∃ z, zslots p !! prio_slot p x = Some z ∧ x ∈ zlist z;
  pr_current : pcurrent self = slot_num (first_slot (zslots p));
}.

Definition prep (self : nn_priolist T) (p : prio) : Prop := ∃ σ, prep_at self p σ.

Lemma first_slot_Some zs i :
  first_slot zs = Some i ↔ ∃ z, zs !! i = Some z ∧ zempty z = false ∧
    ∀ j z', zs !! j = Some z' → (j < i)%nat → zempty z' = true.
Proof.
  unfold first_slot. split.
  - destruct (list_find _ zs) as [[j z]|] eqn:E; cbn; [|done]. intros [= ->].
    apply list_find_Some in E as (Hz & He & Hlt). exists z. split_and!; [done..|].
    intros j z' Hj Hlt'. specialize (Hlt _ _ Hj Hlt'). by destruct (zempty z').
  - intros (z & Hz & He & Hlt).
    assert (list_find (λ z, zempty z = false) zs = Some (i, z)) as ->; [|done].
    apply list_find_Some. split_and!; [done..|]. intros j z' Hj Hlt' Hf.
    by rewrite (Hlt _ _ Hj Hlt') in Hf.
Qed.

Lemma first_slot_None zs :
  first_slot zs = None ↔ ∀ j z, zs !! j = Some z → zempty z = true.
Proof.
  unfold first_slot. rewrite fmap_None, list_find_None, Forall_lookup.
  split; intros Hz j z Hj; specialize (Hz j z Hj); by destruct (zempty z).
Qed.

Lemma zempty_zlist z : (aft z = [] → bef z = []) → zempty z = bool_decide (zlist z = []).
Proof.
  intros Hwf. unfold zempty, zlist. destruct (aft z) as [|c a].
  - by rewrite Hwf.
  - rewrite bool_decide_eq_false_2; [done|]. by destruct (bef z).
Qed.

Lemma slot_at_ok (i : nat) :
  (i < Z.to_nat NN_PRIOLIST_SLOTS)%nat → slot_at (Z.of_nat i + 1 - 1) = Ret (0, Z.of_nat i).
Proof.
  intros Hi. unfold slot_at. rewrite decide_True by lia. f_equal. f_equal. lia.
Qed.

Lemma slot_lookup p i : length (zslots p) = Z.to_nat NN_PRIOLIST_SLOTS →
  (i < Z.to_nat NN_PRIOLIST_SLOTS)%nat → ∃ z, zslots p !! i = Some z.
Proof. intros Hl Hi. rewrite <- Hl in Hi. by apply lookup_lt_is_Some_2. Qed.

(** The loop that looks for a non-empty slot finds the first one. *)
Lemma skip_empty_ok s σ zs i fuel :
  l_rep s σ → length zs = Z.to_nat NN_PRIOLIST_SLOTS →
  (∀ i z, zs !! i = Some z → lseq σ !! (0, Z.of_nat i) = Some (zlist z)) →
  (∀ i z, zs !! i = Some z → aft z = [] → bef z = []) →
  (i < Z.to_nat NN_PRIOLIST_SLOTS)%nat →
  (∀ j z, zs !! j = Some z → (j < i)%nat → zempty z = true) →
  (Z.to_nat NN_PRIOLIST_SLOTS - i < fuel)%nat →
  skip_empty fuel s (Z.of_nat i + 1) = Ret (slot_num (first_slot zs)).
Proof.
  intros Hr Hlen Hsl Hwf. revert i. induction fuel as [|fuel IH]; intros i Hi Hbefore Hf; [lia|].
  cbn [skip_empty]. rewrite slot_at_ok by done. cbn [mbind outcome_bind].
  destruct (lookup_lt_is_Some_2 zs i ltac:(lia)) as [z Hz].
  rewrite (l_empty_ok _ _ _ _ Hr (Hsl _ _ Hz)). cbn [mbind outcome_bind].
  rewrite <- zempty_zlist by eauto. destruct (zempty z) eqn:Ez.
  - assert (∀ j z', zs !! j = Some z' → (j < S i)%nat → zempty z' = true) as Hbefore'.
    { intros j z' Hj Hlt. destruct (decide (j = i)) as [->|]; [congruence|].
      apply (Hbefore j); [done|lia]. }
    destruct (NN_PRIOLIST_SLOTS <? _) eqn:El.
    + apply Z.ltb_lt in El. assert (first_slot zs = None) as ->; [|done].
      apply first_slot_None. intros j z' Hj. apply (Hbefore' j z' Hj).
      apply lookup_lt_Some in Hj. lia.
    + apply Z.ltb_ge in El. replace (Z.of_nat i + 1 + 1) with (Z.of_nat (S i) + 1) by lia.
      apply IH; [lia|done|lia].
  - assert (first_slot zs = Some i) as ->; [|done]. apply first_slot_Some. eauto.
Qed.

Lemma prep_get_current self p σ i z :
  prep_at self p σ → zslots p !! i = Some z →
  get_current self (Z.of_nat i + 1 - 1) = Ret (head (aft z)).
Proof.
  intros Hr Hz. unfold get_current. rewrite slot_at_ok.
  - cbn. rewrite (pr_currents _ _ _ Hr). replace (Z.of_nat i + 1 - 1) with (Z.of_nat i) by lia.
    rewrite Nat2Z.id, list_lookup_fmap, Hz. done.
  - rewrite <- (pr_length _ _ _ Hr). by eapply lookup_lt_Some.
Qed.

(** An active item determines its slot. *)
Lemma prep_active self p σ x d :
  prep_at self p σ → pinfo p !! x = Some d → x ∉ pidle p →
  ∃ z, zslots p !! prio_slot p x = Some z ∧ x ∈ zlist z ∧
    ppriority d = Z.of_nat (prio_slot p x) + 1 ∧
    (prio_slot p x < Z.to_nat NN_PRIOLIST_SLOTS)%nat.
Proof.
  intros Hr Hd Hx. destruct (pr_active _ _ _ Hr x d Hd Hx) as (z & Hz & Hin).
  exists z. split_and!; [done..| |].
  - destruct (pr_prio _ _ _ Hr _ _ _ Hz Hin) as (d' & Hd' & ?). congruence.
  - rewrite <- (pr_length _ _ _ Hr). by eapply lookup_lt_Some.
Qed.

(** *** How the first non-empty slot moves *)

Lemma first_slot_same zs i z z' :
  zs !! i = Some z → zempty z' = zempty z → first_slot (<[i := z']> zs) = first_slot zs.
Proof.
  intros Hz He. unfold first_slot.
  destruct (first_slot zs) as [j|] eqn:E; unfold first_slot in E; rewrite E.
  - apply first_slot_Some in E as (w & Hw & Hew & Hlt). apply first_slot_Some.
    destruct (decide (i = j)) as [<-|].
    + exists z'. rewrite list_lookup_insert_eq by by eapply lookup_lt_Some.
      split_and!; [done|congruence|]. intros k w' Hk Hlt'.
      rewrite list_lookup_insert_ne in Hk by lia. eauto.
    + exists w. rewrite list_lookup_insert_ne by done. split_and!; [done..|].
      intros k w' [[-> ->]|[_ Hk]]%list_lookup_insert_cases Hlt'; [|eauto].
      rewrite He. eauto.
  - pose proof (proj1 (first_slot_None zs) E) as Hno. apply first_slot_None.
    intros k w' [[-> ->]|[_ Hk]]%list_lookup_insert_cases; [|eauto]. rewrite He. eauto.
Qed.

Lemma first_slot_later zs i j z' :
  first_slot zs = Some j → (j < i)%nat → first_slot (<[i := z']> zs) = Some j.
Proof.
  intros (w & Hw & Hew & Hlt)%first_slot_Some Hji. apply first_slot_Some.
  exists w. rewrite list_lookup_insert_ne by lia. split_and!; [done..|].
  intros k w' Hk Hk'. rewrite list_lookup_insert_ne in Hk by lia. eauto.
Qed.

Lemma first_slot_new zs i z z' :
  zs !! i = Some z → zempty z = true → zempty z' = false →
  first_slot (<[i := z']> zs) =
  match first_slot zs with Some j => Some (Nat.min i j) | None => Some i end.
Proof.
  intros Hz He He'. destruct (first_slot zs) as [j|] eqn:E.
  - pose proof E as (w & Hw & Hew & Hlt)%first_slot_Some.
    destruct (decide (j < i)%nat) as [Hji|Hji].
    + rewrite (first_slot_later _ _ j) by done. f_equal. lia.
    + apply first_slot_Some. rewrite Nat.min_l by lia. exists z'.
      rewrite list_lookup_insert_eq by by eapply lookup_lt_Some. split_and!; [done..|].
      intros k w' Hk Hk'. rewrite list_lookup_insert_ne in Hk by lia. apply (Hlt k); [done|lia].
  - apply first_slot_Some. exists z'.
    rewrite list_lookup_insert_eq by by eapply lookup_lt_Some. split_and!; [done..|].
    intros k w' Hk Hk'. rewrite list_lookup_insert_ne in Hk by lia.
    by apply (proj1 (first_slot_None zs) E k).
Qed.

(** *** Updating one slot *)

Lemma prep_update self p σ i z z' s' F' c :
  prep_at self p σ → zslots p !! i = Some z →
  l_rep s' (LSpec (<[(0, Z.of_nat i) := zlist z']> (lseq σ)) F') →
  (aft z' = [] → bef z' = []) →
  (∀ x, x ∈ zlist z' → x ∈ zlist z ∨ (x ∈ pidle p ∧ prio_slot p x = i)) →
  (∀ x, x ∈ F' ↔ is_Some (pinfo p !! x) ∧ x ∉ zlist z' ∧ (x ∈ pidle p ∨ x ∈ zlist z)) →
  c = slot_num (first_slot (<[i := z']> (zslots p))) →
  prep (Priolist s' (pdata self) (<[i := head (aft z')]> (pslots self)) c)
       (Prio (<[i := z']> (zslots p)) F' (pinfo p)).
Proof.
  intros Hr Hz Hl Hwf Hin HF ->. eexists. split; cbn [zslots pidle pinfo pstore pdata pslots pcurrent];
    [exact Hl| | | | | |done|apply Hr| |apply Hr| | |done].
  - by rewrite length_insert, (pr_length _ _ _ Hr).
  - cbn. intros j w [[-> ->]|[Hne Hj]]%list_lookup_insert_cases; [by rewrite lookup_insert_eq|].
    rewrite lookup_insert_ne by (intros [= ]; lia). by apply (pr_slots _ _ _ Hr).
  - cbn. intros l xs [[<- _]|[_ Hl']]%lookup_insert_Some; [|by eapply (pr_only _ _ _ Hr)].
    exists i. split; [done|]. rewrite <- (pr_length _ _ _ Hr). by eapply lookup_lt_Some.
  - intros j w [[-> ->]|[_ Hj]]%list_lookup_insert_cases; [done|by eapply (pr_wf _ _ _ Hr)].
  - by rewrite (pr_currents _ _ _ Hr), list_fmap_insert.
  - intros j w x [[-> ->]|[_ Hj]]%list_lookup_insert_cases; [|by eapply (pr_prio _ _ _ Hr)].
    intros [Hx|[Hx Hs]]%Hin; [by eapply (pr_prio _ _ _ Hr)|].
    destruct (pr_idle _ _ _ Hr _ Hx) as [d Hd]. exists d. split; [done|].
    unfold prio_slot in Hs. rewrite Hd in Hs. pose proof (pr_range _ _ _ Hr _ _ Hd). lia.
  - intros x Hx. by apply HF in Hx as (? & _).
  - intros x d Hd Hx. unfold prio_slot. cbn. fold (prio_slot p x).
    destruct (decide (x ∈ zlist z')) as [Hx'|Hx'].
    + exists z'. split; [|done]. assert (prio_slot p x = i) as ->.
      { destruct (Hin x Hx') as [Hxz|[_ ?]]; [|done].
        destruct (pr_prio _ _ _ Hr _ _ _ Hz Hxz) as (d' & Hd' & Hp).
        unfold prio_slot. rewrite Hd', Hp. lia. }
      apply list_lookup_insert_eq. by eapply lookup_lt_Some.
    + destruct (decide (x ∈ pidle p)) as [Hi|Hi]; [destruct Hx; apply HF; eauto|].
      destruct (pr_active _ _ _ Hr x d Hd Hi) as (w & Hw & Hxw). exists w. split; [|done].
      rewrite list_lookup_insert_ne; [done|]. intros ->. simplify_eq.
      destruct Hx. apply HF. eauto.
Qed.

(** ** The operations refine the abstract ones *)

Lemma init_prio_slots_ok s σ n :
  l_rep s σ → lseq σ = ∅ →
  ∃ σ', l_rep (init_prio_slots s n) σ' ∧ lfree σ' = lfree σ ∧
    (∀ i : nat, (i < n)%nat → lseq σ' !! (0, Z.of_nat i) = Some []) ∧
    (∀ l xs, lseq σ' !! l = Some xs → ∃ i : nat, l = (0, Z.of_nat i) ∧ (i < n)%nat).
Proof.
  intros Hr He. induction n as [|n (σ' & Hr' & Hf & Hin & Hout)].
  - exists σ. split_and!; [done..|lia|]. intros l xs. by rewrite He.
  - exists (lspec_set σ' (0, Z.of_nat n) []). cbn. split_and!.
    + apply l_init_ok; [done|]. destruct (lseq σ' !! _) eqn:E; [|done].
      apply Hout in E as (i & [= E] & ?). lia.
    + done.
    + intros i Hi. destruct (decide (i = n)) as [->|]; [by rewrite lookup_insert_eq|].
      rewrite lookup_insert_ne by (intros [= ]; lia). apply Hin. lia.
    + intros l xs [[<- _]|[_ Hl]]%lookup_insert_Some; [by exists n; split; [|lia]|].
      destruct (Hout _ _ Hl) as (i & ? & ?). exists i. split; [done|lia].
Qed.

Lemma nn_priolist_init_ok s σ :
  l_rep s σ → lseq σ = ∅ → lfree σ = ∅ → prep (nn_priolist_init s) prio_empty.
Proof.
  intros Hr He Hf. destruct (init_prio_slots_ok s σ (Z.to_nat NN_PRIOLIST_SLOTS) Hr He)
    as (σ' & Hr' & Hf' & Hin & Hout).
  exists σ'. unfold prio_empty.
  assert (∀ i z, replicate (Z.to_nat NN_PRIOLIST_SLOTS) (Zip [] []) !! i = Some z →
    z = Zip [] [] ∧ (i < Z.to_nat NN_PRIOLIST_SLOTS)%nat) as Hz by by intros i z ?%lookup_replicate.
  split; cbn [zslots pidle pinfo pstore pdata pslots pcurrent nn_priolist_init]; [done|done| |done| | |congruence|done| |done|done|done|done].
  - intros i z [-> ?]%Hz. by apply Hin.
  - by intros i z [-> ?]%Hz.
  - reflexivity.
  - intros i z x [-> ?]%Hz Hx. by apply not_elem_of_nil in Hx.
Qed.

Lemma nn_priolist_add_ok self p x pipe priority :
  prep self p → 1 ≤ priority ≤ NN_PRIOLIST_SLOTS →
  (pinfo p !! x = None ∨ x ∈ pidle p) →
  prep (nn_priolist_add self x pipe priority) (prio_add p x pipe priority).
Proof.
  intros [σ Hr] Hp Hx.
  assert (∀ i z, zslots p !! i = Some z → x ∉ zlist z) as Hnot.
  { intros i z Hz Hin. destruct (pr_prio _ _ _ Hr _ _ _ Hz Hin) as (d & Hd & _).
    destruct Hx as [|Hx]; [congruence|]. rewrite <- (pr_free _ _ _ Hr) in Hx.
    by eapply (l_rep_free _ _ _ _ _ (pr_list _ _ _ Hr) (pr_slots _ _ _ Hr _ _ Hz)). }
  assert (∀ y, y ≠ x → prio_slot (prio_add p x pipe priority) y = prio_slot p y) as Hslot.
  { intros y Hy. unfold prio_slot. cbn. by rewrite lookup_insert_ne. }
  exists (lspec_new σ x).
  split; cbn [zslots pidle pinfo pstore pdata pslots pcurrent nn_priolist_add prio_add lseq lfree lspec_new];
    try apply Hr.
  - apply l_item_init_ok; [apply Hr|]. intros l xs Hl.
    destruct (pr_only _ _ _ Hr _ _ Hl) as (i & -> & Hi).
    destruct (slot_lookup p i (pr_length _ _ _ Hr) Hi) as [z Hz].
    rewrite (pr_slots _ _ _ Hr _ _ Hz) in Hl. injection Hl as <-. eauto.
  - by rewrite (pr_free _ _ _ Hr).
  - by rewrite (pr_data _ _ _ Hr).
  - intros i z y Hz Hy. assert (y ≠ x) by (intros ->; by eapply Hnot).
    rewrite lookup_insert_ne by done. by eapply (pr_prio _ _ _ Hr).
  - intros y d [[-> <-]|[_ Hd]]%lookup_insert_Some; [done|by eapply (pr_range _ _ _ Hr)].
  - intros y Hy. rewrite lookup_insert_is_Some'. destruct (decide (x = y)); [by left|right].
    apply (pr_idle _ _ _ Hr). set_solver.
  - intros y d Hd Hy. assert (y ≠ x) by set_solver. rewrite Hslot by done.
    rewrite lookup_insert_ne in Hd by done. eapply (pr_active _ _ _ Hr); [done|set_solver].
Qed.

Lemma head_app_aft (a b : list addr) : a ≠ [] → head (a ++ b) = head a.
Proof. by destruct a. Qed.

Lemma nn_priolist_activate_ok self p x :
  prep self p → x ∈ pidle p →
  ∃ self', nn_priolist_activate self x = Ret self' ∧ prep self' (prio_activate p x).
Proof.
  intros [σ Hr] Hx. destruct (pr_idle _ _ _ Hr _ Hx) as [d Hd].
  pose proof (pr_range _ _ _ Hr _ _ Hd) as Hrange. set (i := prio_slot p x).
  assert (ppriority d = Z.of_nat i + 1) as Hpr by (unfold i, prio_slot; rewrite Hd; lia).
  assert (i < Z.to_nat NN_PRIOLIST_SLOTS)%nat as Hi by (unfold NN_PRIOLIST_SLOTS in *; lia).
  destruct (slot_lookup p i (pr_length _ _ _ Hr) Hi) as [z Hz].
  pose proof (pr_slots _ _ _ Hr _ _ Hz) as Hl.
  assert (x ∈ lfree σ) as Hfree by by rewrite (pr_free _ _ _ Hr).
  assert (x ∉ zlist z) as Hnot by by eapply (l_rep_free _ _ _ _ _ (pr_list _ _ _ Hr) Hl).
  unfold nn_priolist_activate, get_data. rewrite (pr_data _ _ _ Hr), Hd. cbn.
  rewrite Hpr, slot_at_ok by done. cbn.
  rewrite (l_empty_ok _ _ _ _ (pr_list _ _ _ Hr) Hl), <- zempty_zlist by by eapply (pr_wf _ _ _ Hr).
  destruct (l_insert_end_ok _ _ _ _ x (pr_list _ _ _ Hr) Hl Hfree) as (s' & Es & Hr').
  cbn. rewrite Es. cbn.
  assert (∀ c, c = slot_num (first_slot (<[i := zip_add z x]> (zslots p))) →
    prep (Priolist s' (pdata self) (<[i := head (aft (zip_add z x))]> (pslots self)) c)
      (prio_activate p x)) as Hupd.
  { intros c Hc. unfold prio_activate. fold i. rewrite (alter_insert_lookup _ _ _ _ Hz).
    eapply prep_update; [done|exact Hz| | | | |done].
    - unfold zip_add, zlist in *. cbn. rewrite app_assoc.
      replace (pidle p ∖ {[x]}) with (lfree σ ∖ {[x]}) by by rewrite (pr_free _ _ _ Hr). exact Hr'.
    - cbn. by destruct (aft z).
    - intros y. unfold zlist, zip_add. cbn. rewrite app_assoc, elem_of_app, list_elem_of_singleton.
      intros [?| ->]; [by left|by right].
    - intros y. unfold zlist, zip_add. cbn. rewrite app_assoc, elem_of_app, list_elem_of_singleton.
      split.
      + intros [Hy Hyx]%elem_of_difference. apply not_elem_of_singleton in Hyx.
        split_and!; [by apply (pr_idle _ _ _ Hr)| |by left].
        intros [Hin|?]; [|done].
        rewrite <- (pr_free _ _ _ Hr) in Hy. by eapply (l_rep_free _ _ _ _ _ (pr_list _ _ _ Hr) Hl Hy).
      + intros (_ & Hn & [?|?]); [set_solver|]. destruct Hn. by left. }
  destruct (zempty z) eqn:Ez; cbn.
  - assert (z = Zip [] []) as ->.
    { pose proof (pr_wf _ _ _ Hr _ _ Hz) as Hwf. destruct z as [b [|]]; [|done]. cbn in Hwf. by rewrite Hwf. }
    pose proof (first_slot_new _ _ _ (zip_add (Zip [] []) x) Hz Ez eq_refl) as Hfs.
    rewrite (pr_current _ _ _ Hr). unfold set_current, set_store, set_pcurrent. cbn.
    replace (Z.of_nat i + 1 - 1) with (Z.of_nat i) by lia. rewrite Nat2Z.id.
    destruct (first_slot (zslots p)) as [j|] eqn:Ej; cbn.
    + rewrite decide_False by lia. destruct (_ <? _) eqn:Elt.
      * apply Z.ltb_lt in Elt. eexists. split; [done|]. apply Hupd. rewrite Hfs. cbn. lia.
      * apply Z.ltb_ge in Elt. eexists. split; [done|]. apply Hupd. rewrite Hfs.
        cbn. rewrite (pr_current _ _ _ Hr), Ej. cbn. lia.
    + eexists. split; [done|]. apply Hupd. rewrite Hfs. done.
  - eexists. split; [done|].
    assert (aft z ≠ []) as Hne by by destruct z as [? []].
    assert (pslots self = <[i := head (aft (zip_add z x))]> (pslots self)) as Heq.
    { cbn. rewrite head_app_aft by done. symmetry. apply list_insert_id.
      by rewrite (pr_currents _ _ _ Hr), list_lookup_fmap, Hz. }
    unfold set_store. rewrite Heq. apply Hupd.
    rewrite (pr_current _ _ _ Hr). f_equal. symmetry. apply first_slot_same with z; [done|].
    rewrite Ez. unfold zempty. cbn. by destruct (aft z).
Qed.

Lemma znorm_wf z : aft (znorm z) = [] → bef (znorm z) = [].
Proof. unfold znorm. destruct (aft z) eqn:E; cbn; [done|]. by rewrite E. Qed.

Lemma znorm_zlist z : zlist (znorm z) = zlist z.
Proof. unfold znorm, zlist. destruct z as [b [|c a]]; cbn; [by rewrite app_nil_r|done]. Qed.

Lemma znorm_zempty z : zempty (znorm z) = bool_decide (zlist z = []).
Proof. rewrite zempty_zlist by apply znorm_wf. by rewrite znorm_zlist. Qed.

(** The current pipe after the old one was erased, or skipped. *)
Lemma zip_current s σ i b a :
  l_rep s σ → lseq σ !! (0, Z.of_nat i) = Some (b ++ a) →
  match head a with Some c => Ret (Some c) | None => l_begin s (0, Z.of_nat i) end =
  Ret (head (aft (znorm (Zip b a)))).
Proof.
  intros Hr Hl. unfold znorm. destruct a as [|c a]; cbn; [|done].
  rewrite (l_begin_ok _ _ _ _ Hr Hl). by rewrite app_nil_r.
Qed.

(** The current slot changed: the loop finds the new current slot. *)
Lemma skip_update self p σ i z z' s' F' :
  prep_at self p σ → zslots p !! i = Some z → first_slot (zslots p) = Some i →
  l_rep s' (LSpec (<[(0, Z.of_nat i) := zlist z']> (lseq σ)) F') →
  (aft z' = [] → bef z' = []) →
  skip_empty skip_fuel s' (Z.of_nat i + 1) = Ret (slot_num (first_slot (<[i := z']> (zslots p)))).
Proof.
  intros Hr Hz Hi Hr' Hwf.
  pose proof Hi as (_ & _ & _ & Hbefore)%first_slot_Some.
  assert (i < Z.to_nat NN_PRIOLIST_SLOTS)%nat.
  { rewrite <- (pr_length _ _ _ Hr). by eapply lookup_lt_Some. }
  eapply skip_empty_ok; [exact Hr'|by rewrite length_insert, (pr_length _ _ _ Hr)| | |done| |unfold skip_fuel; lia].
  - cbn. intros j w [[-> ->]|[Hne Hj]]%list_lookup_insert_cases; [by rewrite lookup_insert_eq|].
    rewrite lookup_insert_ne by (intros [= ]; lia). by apply (pr_slots _ _ _ Hr).
  - intros j w [[-> ->]|[_ Hj]]%list_lookup_insert_cases; [done|by eapply (pr_wf _ _ _ Hr)].
  - intros j w [[-> ->]|[_ Hj]]%list_lookup_insert_cases ?; [lia|eauto].
Qed.

Lemma zip_rm_current b c a :
  c ∉ b → c ∉ a → zip_rm (Zip b (c :: a)) c = znorm (Zip b a).
Proof.
  intros Hb Ha. unfold zip_rm. cbn [bef aft].
  rewrite filter_cons_False by naive_solver. by rewrite !filter_ne_notin.
Qed.

Lemma nn_priolist_advance_ok self p release i x :
  prep self p → prio_current p = Some (i, x) →
  ∃ self', nn_priolist_advance self release = Ret self' ∧ prep self' (prio_advance p release).
Proof.
  intros [σ Hr] Hc. unfold prio_advance. rewrite Hc. unfold prio_current in Hc.
  destruct (first_slot (zslots p)) as [j|] eqn:Ei; cbn in Hc; [|done].
  destruct (zslots p !! j) as [z|] eqn:Hz; cbn in Hc; [|done].
  destruct z as [b [|c a]]; cbn in Hc; [done|]. injection Hc as -> ->.
  rewrite (alter_insert_lookup _ _ _ _ Hz). cbn [zip_advance bef aft].
  pose proof (pr_slots _ _ _ Hr _ _ Hz) as Hl. unfold zlist in Hl. cbn in Hl.
  destruct (l_rep_nodup_split _ _ _ _ _ _ (pr_list _ _ _ Hr) Hl) as (Hb & Ha & Hnd).
  assert (x ∉ pidle p) as Hnidle.
  { intros Hin. rewrite <- (pr_free _ _ _ Hr) in Hin.
    eapply (l_rep_free _ _ _ _ _ (pr_list _ _ _ Hr) Hl Hin). rewrite elem_of_app, elem_of_cons. auto. }
  assert (i < Z.to_nat NN_PRIOLIST_SLOTS)%nat as Hi.
  { rewrite <- (pr_length _ _ _ Hr). by eapply lookup_lt_Some. }
  assert (is_Some (pinfo p !! x)) as Hinfo.
  { destruct (pr_prio _ _ _ Hr i _ x Hz) as (d & Hd & _); [|by rewrite Hd].
    unfold zlist. cbn. rewrite elem_of_app, elem_of_cons. auto. }
  unfold nn_priolist_advance. rewrite (pr_current _ _ _ Hr), Ei. cbn [slot_num].
  rewrite (proj2 (Z.ltb_lt 0 _)) by lia. cbn [nn_assert mbind outcome_bind].
  rewrite slot_at_ok by done. cbn [mbind outcome_bind].
  rewrite (prep_get_current _ _ _ _ _ Hr Hz). cbn [aft head hd_error deref mbind outcome_bind].
  set (z' := znorm (Zip (if release then b else b ++ [x]) a)).
  assert (∃ s' F', (if release then l_erase (pstore self) (0, Z.of_nat i) x
      else n ← l_next (pstore self) (0, Z.of_nat i) x; Ret (pstore self, n)) = Ret (s', head a) ∧
      l_rep s' (LSpec (<[(0, Z.of_nat i) := zlist z']> (lseq σ)) F') ∧
      F' = (if release then {[x]} ∪ pidle p else pidle p)) as (s' & F' & -> & Hr' & HF').
  { destruct release.
    - destruct (l_erase_ok _ _ _ _ _ _ (pr_list _ _ _ Hr) Hl) as (s' & -> & Hr').
      exists s', ({[x]} ∪ lfree σ). rewrite (pr_free _ _ _ Hr). split_and!; [done| |done].
      unfold z'. rewrite znorm_zlist. rewrite <- (pr_free _ _ _ Hr). exact Hr'.
    - rewrite (l_next_ok _ _ _ _ _ _ (pr_list _ _ _ Hr) Hl). exists (pstore self), (lfree σ).
      split_and!; [done| |by rewrite (pr_free _ _ _ Hr)].
      unfold z'. rewrite znorm_zlist. unfold zlist. cbn. rewrite <- app_assoc. cbn.
      rewrite insert_id by done. destruct σ. apply (pr_list _ _ _ Hr). }
  cbn [mbind outcome_bind].
  assert (lseq (LSpec (<[(0, Z.of_nat i) := zlist z']> (lseq σ)) F') !! (0, Z.of_nat i) =
    Some ((if release then b else b ++ [x]) ++ a)) as Hl'.
  { cbn. rewrite lookup_insert_eq. unfold z'. by rewrite znorm_zlist. }
  rewrite (zip_current s' _ i _ a Hr' Hl'). fold z'. cbn [mbind outcome_bind].
  change (pcurrent (set_current _ _ _)) with (pcurrent self).
  rewrite (pr_current _ _ _ Hr), Ei. cbn [slot_num].
  rewrite (skip_update _ _ _ _ _ z' _ _ Hr Hz Ei Hr') by apply znorm_wf.
  cbn [mbind outcome_bind]. eexists. split; [done|].
  unfold set_pcurrent, set_current, set_store. cbn [pstore pdata pslots pcurrent].
  replace (Z.of_nat i + 1 - 1) with (Z.of_nat i) by lia. rewrite Nat2Z.id. rewrite <- HF'.
  assert (zlist z' = (if release then b else b ++ [x]) ++ a) as Hzl by apply znorm_zlist.
  eapply prep_update; [done|exact Hz|done|apply znorm_wf| | |done].
  - intros y. rewrite Hzl. unfold zlist. cbn. left. destruct release; set_solver.
  - intros y. rewrite Hzl, HF'. unfold zlist. cbn. rewrite !elem_of_app, elem_of_cons.
    assert (y ∈ pidle p → y ∉ b ∧ y ∉ a ∧ y ≠ x ∧ is_Some (pinfo p !! y)) as Hidle.
    { intros Hy. pose proof (pr_idle _ _ _ Hr _ Hy). rewrite <- (pr_free _ _ _ Hr) in Hy.
      pose proof (l_rep_free _ _ _ _ _ (pr_list _ _ _ Hr) Hl Hy) as Hn.
      rewrite elem_of_app, elem_of_cons in Hn. naive_solver. }
    destruct release.
    + rewrite elem_of_union, elem_of_singleton. naive_solver.
    + rewrite elem_of_app, list_elem_of_singleton. naive_solver.
Qed.

Lemma nn_priolist_rm_ok self p x :
  prep self p → is_Some (pinfo p !! x) →
  ∃ self', nn_priolist_rm self x = Ret self' ∧ prep self' (prio_rm p x).
Proof.
  intros [σ Hr] [d Hd]. unfold nn_priolist_rm, prio_rm. destruct (decide (x ∈ pidle p)) as [Hx|Hx].
  { assert (x ∈ lfree σ) by by rewrite (pr_free _ _ _ Hr).
    rewrite (l_isinlist_free _ _ _ (pr_list _ _ _ Hr)) by done. cbn.
    rewrite (l_item_term_ok _ _ _ (pr_list _ _ _ Hr)) by done. exists self. by split; [|exists σ]. }
  destruct (prep_active _ _ _ _ _ Hr Hd Hx) as (z & Hz & Hin & Hpr & Hi).
  set (i := prio_slot p x) in *. pose proof (pr_slots _ _ _ Hr _ _ Hz) as Hl.
  rewrite (l_isinlist_in _ _ _ _ _ (pr_list _ _ _ Hr) Hl Hin). cbn [negb mbind outcome_bind].
  unfold get_data. rewrite (pr_data _ _ _ Hr), Hd. cbn [deref mbind outcome_bind].
  rewrite Hpr, slot_at_ok by done. cbn [mbind outcome_bind].
  rewrite (prep_get_current _ _ _ _ _ Hr Hz). cbn [mbind outcome_bind].
  rewrite (alter_insert_lookup _ _ _ _ Hz).
  assert (x ∈ zlist z) as (pre & post & Hsplit)%list_elem_of_split by done. rewrite Hsplit in Hl.
  destruct (l_rep_nodup_split _ _ _ _ _ _ (pr_list _ _ _ Hr) Hl) as (Hpre & Hpost & Hnd).
  destruct (l_erase_ok _ _ _ _ _ _ (pr_list _ _ _ Hr) Hl) as (s' & -> & Hr').
  assert (zlist (zip_rm z x) = pre ++ post) as Hzl.
  { unfold zip_rm. rewrite znorm_zlist. unfold zlist. cbn. rewrite <- filter_app.
    fold (zlist z). rewrite Hsplit. by apply filter_ne_middle. }
  rewrite <- Hzl in Hr'. pose proof (zip_rm z x) as z0; clear z0.
  assert (∀ c, c = slot_num (first_slot (<[i := zip_rm z x]> (zslots p))) →
    prep (Priolist s' (pdata self) (<[i := head (aft (zip_rm z x))]> (pslots self)) c)
      (Prio (<[i := zip_rm z x]> (zslots p)) ({[x]} ∪ pidle p) (pinfo p))) as Hupd.
  { intros c Hc. rewrite <- (pr_free _ _ _ Hr).
    eapply prep_update; [done|exact Hz|exact Hr'|apply znorm_wf| | |done].
    - intros y. rewrite Hzl, Hsplit. rewrite !elem_of_app, elem_of_cons. naive_solver.
    - intros y. rewrite Hzl, Hsplit. rewrite elem_of_union, elem_of_singleton, (pr_free _ _ _ Hr).
      rewrite !elem_of_app, elem_of_cons.
      assert (y ∈ pidle p → y ∉ pre ∧ y ∉ post ∧ is_Some (pinfo p !! y)) as Hidle.
      { intros Hy. pose proof (pr_idle _ _ _ Hr _ Hy). rewrite <- (pr_free _ _ _ Hr) in Hy.
        pose proof (l_rep_free _ _ _ _ _ (pr_list _ _ _ Hr) Hl Hy) as Hn.
        rewrite elem_of_app, elem_of_cons in Hn. naive_solver. }
      naive_solver. }
  assert (l_item_term s' x = Ret tt) as Hterm by (apply (l_item_term_ok _ _ _ Hr'); set_solver).
  destruct (decide (head (aft z) ≠ Some x)) as [Hne|Heq].
  - cbn [mbind outcome_bind]. rewrite Hterm. cbn [mbind outcome_bind]. eexists. split; [done|].
    destruct z as [b [|c a]].
    { assert (b = []) as -> by by apply (pr_wf _ _ _ Hr _ _ Hz). by apply not_elem_of_nil in Hin. }
    assert (c ≠ x) as Hcx by (cbn in Hne; congruence).
    assert (zip_rm (Zip b (c :: a)) x = Zip (filter (λ y, y ≠ x) b) (c :: filter (λ y, y ≠ x) a)) as Ez.
    { unfold zip_rm. cbn [bef aft]. by rewrite filter_cons_True by done. }
    assert (pslots self = <[i := head (aft (zip_rm (Zip b (c :: a)) x))]> (pslots self)) as Heq.
    { rewrite Ez. cbn. symmetry. apply list_insert_id.
      by rewrite (pr_currents _ _ _ Hr), list_lookup_fmap, Hz. }
    unfold set_store. rewrite Heq. apply Hupd. rewrite (pr_current _ _ _ Hr). f_equal. symmetry.
    apply first_slot_same with (Zip b (c :: a)); [done|]. by rewrite Ez.
  - apply dec_stable in Heq. destruct z as [b a']. destruct a' as [|c a]; [done|]. cbn in Heq.
    injection Heq as ->. unfold zlist in Hsplit. cbn in Hsplit.
    assert (x ∉ b ∧ x ∉ a) as [Hb Ha].
    { assert (NoDup (b ++ x :: a)) as Hnd'; [|by apply NoDup_middle in Hnd' as (?&?&_)].
      rewrite Hsplit. by apply NoDup_middle_2. }
    rewrite zip_rm_current in * by done. rewrite znorm_zlist in Hzl.
    assert (pre = b ∧ post = a) as [-> ->].
    { destruct (split_unique _ _ _ _ _ Hsplit) as [-> ->]; done. }
    cbn [mbind outcome_bind]. rewrite Hterm. cbn [mbind outcome_bind].
    rewrite (zip_current s' _ i b a Hr') by (cbn; by rewrite lookup_insert_eq, znorm_zlist).
    cbn [mbind outcome_bind]. unfold set_current, set_store, set_pcurrent. cbn [pstore pdata pslots pcurrent].
    replace (Z.of_nat i + 1 - 1) with (Z.of_nat i) by lia. rewrite Nat2Z.id.
    case_decide as Hc; rewrite (pr_current _ _ _ Hr) in Hc |- *.
    + eexists. split; [done|]. apply Hupd. f_equal. symmetry.
      destruct (first_slot (zslots p)) as [j|] eqn:Ej.
      * assert (j < i)%nat; [|by apply first_slot_later].
        assert (j ≠ i) by (intros ->; by apply Hc).
        assert (¬ (i < j)%nat); [|lia]. intros Hlt.
        apply first_slot_Some in Ej as (_ & _ & _ & Hbefore).
        specialize (Hbefore _ _ Hz Hlt). done.
      * by pose proof (proj1 (first_slot_None _) Ej i _ Hz).
    + destruct (first_slot (zslots p)) as [j|] eqn:Ej; cbn in Hc; [|lia].
      assert (j = i) as -> by lia. cbn [slot_num].
      rewrite (skip_update _ _ _ _ _ _ _ _ Hr Hz Ej Hr') by apply znorm_wf.
      eexists. split; [done|]. by apply Hupd.
Qed.

Lemma nn_priolist_getpipe_ok self p :
  prep self p →
  nn_priolist_getpipe self =
    Ret ('(_, x) ← prio_current p; d ← pinfo p !! x; Some (ppipe d)) ∧
  nn_priolist_is_active self = bool_decide (is_Some (prio_current p)) ∧
  nn_priolist_get_priority self = slot_num (fst <$> prio_current p).
Proof.
  intros [σ Hr]. unfold nn_priolist_getpipe, nn_priolist_is_active, nn_priolist_get_priority.
  rewrite (pr_current _ _ _ Hr). unfold prio_current.
  destruct (first_slot (zslots p)) as [i|] eqn:Ei; cbn [slot_num mbind option_bind]; [|by rewrite decide_True].
  rewrite !decide_False by lia.
  pose proof Ei as (z & Hz & Hez & _)%first_slot_Some. rewrite Hz. cbn [mbind option_bind].
  destruct z as [b [|x a]]; [done|]. cbn [aft head hd_error fmap option_fmap option_map fst].
  rewrite (prep_get_current _ _ _ _ _ Hr Hz). cbn.
  destruct (pr_prio _ _ _ Hr _ _ x Hz) as (d & Hd & _).
  { unfold zlist. cbn. rewrite elem_of_app, elem_of_cons. auto. }
  unfold get_data. rewrite (pr_data _ _ _ Hr), Hd. done.
Qed.

Lemma prio_current_info self p i x :
  prep self p → prio_current p = Some (i, x) → is_Some (pinfo p !! x) ∧ x ∉ pidle p.
Proof.
  intros [σ Hr]. unfold prio_current. destruct (first_slot _); cbn; [|done].
  destruct (zslots p !! n) as [[b a]|] eqn:Hz; cbn; [|done]. destruct a as [|y a]; cbn; [done|].
  intros [= -> ->]. assert (x ∈ zlist (Zip b (x :: a))) as Hin.
  { unfold zlist. cbn. rewrite elem_of_app, elem_of_cons. auto. }
  split.
  - destruct (pr_prio _ _ _ Hr _ _ _ Hz Hin) as (d & Hd & _). by rewrite Hd.
  - rewrite <- (pr_free _ _ _ Hr). intros Hf.
    by eapply (l_rep_free _ _ _ _ _ (pr_list _ _ _ Hr) (pr_slots _ _ _ Hr _ _ Hz)).
Qed.

Lemma nn_priolist_term_ok self p :
  prep self p →
  nn_priolist_term self = nn_assert (forallb zempty (zslots p)).
Proof.
  intros [σ Hr]. unfold nn_priolist_term.
  assert (∀ n i, (i + n)%nat = Z.to_nat NN_PRIOLIST_SLOTS →
    term_prio_slots (pstore self) (Z.of_nat i) n = nn_assert (forallb zempty (drop i (zslots p)))) as Ht.
  { induction n as [|n IH]; intros i Hi; cbn [term_prio_slots].
    - by rewrite drop_ge by (rewrite (pr_length _ _ _ Hr); lia).
    - destruct (slot_lookup p i (pr_length _ _ _ Hr)) as [z Hz]; [lia|].
      rewrite (l_term_ok _ _ _ _ (pr_list _ _ _ Hr) (pr_slots _ _ _ Hr _ _ Hz)).
      rewrite <- zempty_zlist by by eapply (pr_wf _ _ _ Hr).
      erewrite drop_S by done. cbn. destruct (zempty z); cbn; [|done].
      replace (Z.of_nat i + 1) with (Z.of_nat (S i)) by lia. apply IH. lia. }
  apply (Ht _ 0%nat). lia.
Qed.

End prep.

(** ** Priorities and turns *)

Definition prio_ring (p : prio) : list addr :=
  match first_slot (zslots p) with
  | Some i => match zslots p !! i with Some z => zring z | None => [] end
  | None => []
  end.

Definition rotate {A} (l : list A) : list A :=
  match l with [] => [] | x :: l => l ++ [x] end.

Lemma zip_advance_ring z c a :
  aft z = c :: a → zring (zip_advance z false) = rotate (zring z) ∧
                   zempty (zip_advance z false) = false.
Proof.
  unfold zring, zip_advance, zempty. intros Ha. rewrite Ha. cbn. unfold znorm. cbn.
  destruct a as [|d a]; cbn.
  - rewrite app_nil_r. by destruct (bef z).
  - by rewrite <- !app_assoc.
Qed.

Lemma prio_current_Some p i x :
  prio_current p = Some (i, x) ↔
  ∃ z a, first_slot (zslots p) = Some i ∧ zslots p !! i = Some z ∧ aft z = x :: a.
Proof.
  unfold prio_current. destruct (first_slot (zslots p)) as [j|] eqn:Ej; cbn; [|naive_solver].
  destruct (zslots p !! j) as [z|] eqn:Hz; cbn; [|naive_solver congruence].
  destruct (aft z) as [|y a] eqn:Ha; cbn; naive_solver congruence.
Qed.

Lemma prio_current_None p : prio_current p = None ↔ first_slot (zslots p) = None.
Proof.
  unfold prio_current. destruct (first_slot (zslots p)) as [j|] eqn:Ej; cbn; [|done].
  apply first_slot_Some in Ej as (z & Hz & He & _). rewrite Hz. cbn.
  unfold zempty in He. by destruct (aft z).
Qed.

Lemma prio_ring_head p i x : prio_current p = Some (i, x) → ∃ r, prio_ring p = x :: r.
Proof.
  intros (z & a & Hi & Hz & Ha)%prio_current_Some. unfold prio_ring. rewrite Hi, Hz.
  unfold zring. rewrite Ha. by eexists.
Qed.

Lemma prio_ring_current p x r : prio_ring p = x :: r → ∃ i, prio_current p = Some (i, x).
Proof.
  unfold prio_ring. destruct (first_slot (zslots p)) as [i|] eqn:Hi; [|done].
  pose proof Hi as (z & Hz & He & _)%first_slot_Some. rewrite Hz. unfold zring, zempty in *.
  destruct (aft z) as [|y a] eqn:Ha; [done|]. intros [= -> _]. exists i.
  apply prio_current_Some. by exists z, a.
Qed.

(** A turn without a release rotates the pipes of the current priority. *)
Lemma prio_ring_advance p i x :
  prio_current p = Some (i, x) → prio_ring (prio_advance p false) = rotate (prio_ring p).
Proof.
  intros Hc. pose proof Hc as (z & a & Hi & Hz & Ha)%prio_current_Some.
  unfold prio_advance. rewrite Hc. unfold prio_ring. cbn [zslots].
  rewrite (alter_insert_lookup _ _ _ _ Hz). destruct (zip_advance_ring _ _ _ Ha) as [Hr He].
  rewrite (first_slot_same _ _ z) by (rewrite ?He; unfold zempty; by rewrite ?Ha).
  rewrite Hi, Hz, list_lookup_insert_eq by by eapply lookup_lt_Some. done.
Qed.

Lemma prio_advance_info p r : pinfo (prio_advance p r) = pinfo p.
Proof. unfold prio_advance. by destruct (prio_current p) as [[]|]. Qed.

Section turns.
Context `{ListStoreOk T}.

(** The current pipe has the highest priority (the smallest number) among the
    active ones. *)
Lemma prio_current_highest self p i x dx y dy :
  prep self p → prio_current p = Some (i, x) → pinfo p !! x = Some dx →
  pinfo p !! y = Some dy → y ∉ pidle p → ppriority dx ≤ ppriority dy.
Proof.
  intros [σ Hr] (z & a & Hi & Hz & Ha)%prio_current_Some Hdx Hdy Hy.
  destruct (pr_active _ _ _ Hr y dy Hdy Hy) as (w & Hw & Hyw).
  destruct (pr_prio _ _ _ Hr _ _ _ Hw Hyw) as (dy' & Hdy' & Hpy).
  destruct (pr_prio _ _ _ Hr _ _ x Hz) as (dx' & Hdx' & Hpx).
  { unfold zlist. rewrite Ha, elem_of_app, elem_of_cons. auto. }
  assert (¬ (prio_slot p y < i)%nat); [|by simplify_eq; lia].
  intros Hlt. apply first_slot_Some in Hi as (_ & _ & _ & Hbefore).
  specialize (Hbefore _ _ Hw Hlt). rewrite zempty_zlist in Hbefore by by eapply (pr_wf _ _ _ Hr).
  apply bool_decide_eq_true_1 in Hbefore. rewrite Hbefore in Hyw. by apply not_elem_of_nil in Hyw.
Qed.

(** There is no current pipe only when every known pipe is inactive. *)
Lemma prio_current_idle self p y dy :
  prep self p → prio_current p = None → pinfo p !! y = Some dy → y ∈ pidle p.
Proof.
  intros [σ Hr] Hc%prio_current_None Hdy. destruct (decide (y ∈ pidle p)) as [|Hy]; [done|].
  destruct (pr_active _ _ _ Hr y dy Hdy Hy) as (w & Hw & Hyw).
  pose proof (proj1 (first_slot_None _) Hc _ _ Hw) as He.
  rewrite zempty_zlist in He by by eapply (pr_wf _ _ _ Hr).
  apply bool_decide_eq_true_1 in He. rewrite He in Hyw. by apply not_elem_of_nil in Hyw.
Qed.

Lemma prio_active_ring self p i x y :
  prep self p → prio_current p = Some (i, x) →
  y ∈ prio_ring p ↔ ∃ d dx, pinfo p !! y = Some d ∧ y ∉ pidle p ∧ pinfo p !! x = Some dx ∧
                            ppriority d = ppriority dx.
Proof.
  intros [σ Hr] Hc. pose proof Hc as (z & a & Hi & Hz & Ha)%prio_current_Some.
  assert (x ∈ zlist z) as Hxz by (unfold zlist; rewrite Ha, elem_of_app, elem_of_cons; auto).
  destruct (pr_prio _ _ _ Hr _ _ x Hz Hxz) as (dx & Hdx & Hpx).
  assert (y ∈ prio_ring p ↔ y ∈ zlist z) as ->.
  { unfold prio_ring. rewrite Hi, Hz. unfold zring, zlist. rewrite !elem_of_app. tauto. }
  split.
  - intros Hy. destruct (pr_prio _ _ _ Hr _ _ y Hz Hy) as (d & Hd & Hp).
    exists d, dx. split_and!; [done| |done|congruence].
    rewrite <- (pr_free _ _ _ Hr). intros Hf.
    by eapply (l_rep_free _ _ _ _ _ (pr_list _ _ _ Hr) (pr_slots _ _ _ Hr _ _ Hz)).
  - intros (d & dx' & Hd & Hy & Hdx' & Hp). simplify_eq.
    destruct (pr_active _ _ _ Hr y d Hd Hy) as (w & Hw & Hyw).
    destruct (pr_prio _ _ _ Hr _ _ _ Hw Hyw) as (d' & Hd' & Hpd). simplify_eq.
    assert (prio_slot p y = i) as Hs by lia. rewrite Hs in Hw. by simplify_eq.
Qed.

Lemma prio_ring_nodup self p : prep self p → NoDup (prio_ring p).
Proof.
  intros [σ Hr]. unfold prio_ring. destruct (first_slot _) as [i|]; [|apply NoDup_nil_2].
  destruct (zslots p !! i) as [z|] eqn:Hz; [|apply NoDup_nil_2].
  pose proof (l_rep_nodup _ _ _ _ (pr_list _ _ _ Hr) (pr_slots _ _ _ Hr _ _ Hz)) as Hnd.
  unfold zlist in Hnd. unfold zring. rewrite Permutation_app_comm. done.
Qed.

End turns.

(** ** Refinement: operation sequences *)

Section refinement.

Inductive p_op :=
| P_add (x : addr) (pipe : pid) (priority : Z) | P_activate (x : addr) | P_rm (x : addr)
| P_advance (release : bool) | P_getpipe | P_is_active | P_get_priority | P_term.

Inductive p_res := PUnit | PPipe (p : option pid) | PBool (b : bool) | PInt (z : Z).

Definition p_spec (p : prio) (o : p_op) : option (prio * p_res) :=
  match o with
  | P_add x pipe priority =>
      if decide ((pinfo p !! x = None ∨ x ∈ pidle p) ∧ 1 ≤ priority ≤ NN_PRIOLIST_SLOTS)
      then Some (prio_add p x pipe priority, PUnit) else None
  | P_activate x => if decide (x ∈ pidle p) then Some (prio_activate p x, PUnit) else None
  | P_rm x => if decide (is_Some (pinfo p !! x)) then Some (prio_rm p x, PUnit) else None
  | P_advance r => match prio_current p with Some _ => Some (prio_advance p r, PUnit) | None => None end
  | P_getpipe => Some (p, PPipe ('(_, x) ← prio_current p; d ← pinfo p !! x; Some (ppipe d)))
  | P_is_active => Some (p, PBool (bool_decide (is_Some (prio_current p))))
  | P_get_priority => Some (p, PInt (slot_num (fst <$> prio_current p)))
  | P_term => if forallb zempty (zslots p) then Some (p, PUnit) else None
  end.

Definition p_exec `{ListStore T} (self : nn_priolist T) (o : p_op) :
    outcome (nn_priolist T * p_res) :=
  match o with
  | P_add x pipe priority => Ret (nn_priolist_add self x pipe priority, PUnit)
  | P_activate x => self ← nn_priolist_activate self x; Ret (self, PUnit)
  | P_rm x => self ← nn_priolist_rm self x; Ret (self, PUnit)
  | P_advance r => self ← nn_priolist_advance self r; Ret (self, PUnit)
  | P_getpipe => r ← nn_priolist_getpipe self; Ret (self, PPipe r)
  | P_is_active => Ret (self, PBool (nn_priolist_is_active self))
  | P_get_priority => Ret (self, PInt (nn_priolist_get_priority self))
  | P_term => nn_priolist_term self;; Ret (self, PUnit)
  end.

Lemma p_exec_ok `{ListStoreOk T} self p o p' r :
  prep self p → p_spec p o = Some (p', r) → ∃ self', p_exec self o = Ret (self', r) ∧ prep self' p'.
Proof.
  intros Hr. destruct o as [x pipe pr|x|x|b| | | |]; cbn.
  - case_decide as Hd; [|done]. intros [= <- <-]. eexists. split; [done|].
    destruct Hd. by apply nn_priolist_add_ok.
  - case_decide as Hd; [|done]. intros [= <- <-].
    destruct (nn_priolist_activate_ok _ _ _ Hr Hd) as (self' & -> & ?). by exists self'.
  - case_decide as Hd; [|done]. intros [= <- <-].
    destruct (nn_priolist_rm_ok _ _ _ Hr Hd) as (self' & -> & ?). by exists self'.
  - destruct (prio_current p) as [[i x]|] eqn:Hc; [|done]. intros [= <- <-].
    destruct (nn_priolist_advance_ok _ _ b _ _ Hr Hc) as (self' & -> & ?). by exists self'.
  - intros [= <- <-]. destruct (nn_priolist_getpipe_ok _ _ Hr) as [-> _]. by exists self.
  - intros [= <- <-]. destruct (nn_priolist_getpipe_ok _ _ Hr) as (_ & -> & _). by exists self.
  - intros [= <- <-]. destruct (nn_priolist_getpipe_ok _ _ Hr) as (_ & _ & ->). by exists self.
  - destruct (forallb zempty (zslots p)) eqn:Et; [|done]. intros [= <- <-].
    rewrite (nn_priolist_term_ok _ _ Hr), Et. by exists self.
Qed.

(** The representation reached by running operations on a fresh priolist. *)
Lemma p_run_ok `{ListStoreOk T} s σ os p rs :
  l_rep s σ → lseq σ = ∅ → lfree σ = ∅ →
  spec_run p_spec prio_empty os = Some (p, rs) →
  ∃ self, run p_exec (nn_priolist_init s) os = Ret (self, rs) ∧ prep self p.
Proof.
  intros Hr He Hf. apply (run_refines prep _ _ p_exec_ok). by eapply nn_priolist_init_ok.
Qed.

(** C23: priolist.c refines sixteen rotating lists.  Over any correct list
    implementation, every sequence of adding, activating, removing and
    advancing pipes that respects the contract of priolist.h (priorities 1 to
    16, only inactive pipes are activated, only an active priolist advances)
    returns without an abort what the rotating lists predict: in particular
    [nn_priolist_getpipe] always yields the pipe whose turn it is in the first
    non-empty slot, also after removals of the current pipe. *)
Theorem priolist_refinement `{ListStoreOk T} s σ os p rs :
  l_rep s σ → lseq σ = ∅ → lfree σ = ∅ →
  spec_run p_spec prio_empty os = Some (p, rs) →
  ∃ self, run p_exec (nn_priolist_init s) os = Ret (self, rs) ∧
    pcurrent self = slot_num (first_slot (zslots p)) ∧ prep self p.
Proof.
  intros Hr He Hf Hs. destruct (p_run_ok s σ os p rs Hr He Hf Hs) as (self & E & σ' & Hp).
  exists self. split_and!; [done|apply Hp|by exists σ'].
Qed.

Definition sample_ops : list p_op :=
  let x1 := 1%positive in let x2 := 2%positive in let x3 := 3%positive in
  [P_add x1 12 8; P_add x2 14 8; P_add x3 16 3; P_activate x1; P_activate x2; P_getpipe;
   P_activate x3; P_getpipe; P_advance true; P_getpipe; P_advance false; P_getpipe; P_rm x2;
   P_getpipe; P_get_priority].

Lemma priolist_refinement_witness :
  ∃ self, run p_exec (nn_priolist_init Ptr.empty_store) sample_ops =
    Ret (self, [PUnit; PUnit; PUnit; PUnit; PUnit; PPipe (Some 12%positive); PUnit;
      PPipe (Some 16%positive); PUnit; PPipe (Some 12%positive); PUnit;
      PPipe (Some 14%positive); PUnit; PPipe (Some 12%positive); PInt 8]).
Proof.
  destruct (spec_run p_spec prio_empty sample_ops) as [[p rs]|] eqn:E; [|vm_compute in E; discriminate E].
  destruct (priolist_refinement (H0 := Ptr.ptr_store_ok) Ptr.empty_store _ _ _ _ Ptr.rep_empty eq_refl eq_refl E)
    as (self & Er & _). exists self. rewrite Er.
  vm_compute in E. injection E as _ <-. reflexivity.
Defined.

End refinement.
