(* ===== verification/Pipe.v ===== *)
(** * core/pipe.c: the state machine of a pipe, and what protocols rely on

    A pipe couples a connection of some transport with the protocol of the
    socket.  [PipeOps] is what the protocol code may call, [PipeOpsOk] what the
    core promises about these calls; the protocol components are verified
    against it.  The last part of the file discharges the promise for pipe.c
    over any transport whose send and recv functions behave as transport.h
    documents, and shows by rule induction that the assertions of pipe.c never
    fire. *)
From S2P Require Import Prelude NnList Priolist.

(** ** What protocols see *)

Definition NN_PIPE_RELEASE : Z := 1.
Definition NN_PIPE_PARSED : Z := 2.
Definition NN_PIPE_IN : Z := 33987.
Definition NN_PIPE_OUT : Z := 33988.

(** [rc & NN_PIPE_RELEASE] as a C condition, and [rc & ~NN_PIPE_RELEASE]. *)
Definition released (rc : Z) : bool := negb (Z.land rc NN_PIPE_RELEASE =? 0).
Definition unrelease (rc : Z) : Z := Z.land rc (Z.lnot NN_PIPE_RELEASE).

Class PipeOps (W M : Type) := {
  nn_pipe_send : W → pid → M → outcome (W * Z);
  nn_pipe_recv : W → pid → outcome (W * Z * M);
}.

(** [writable w] and [readable w] are the pipes the protocol may send to and
    receive from; [sent w] and [recvd w] the messages exchanged so far. *)
Class PipeOpsOk (W M : Type) `{PipeOps W M} := {
  pipe_inv : W → Prop;
  writable : W → gset pid;
  readable : W → gset pid;
  sent : W → list (pid * M);
  recvd : W → list (pid * M);
  pipe_send_ok w p m :
    pipe_inv w → p ∈ writable w →
    ∃ w' rc, nn_pipe_send w p m = Ret (w', rc) ∧ pipe_inv w' ∧ (rc = 0 ∨ rc = NN_PIPE_RELEASE) ∧
      sent w' = sent w ++ [(p, m)] ∧ recvd w' = recvd w ∧
      writable w' = (if released rc then writable w ∖ {[p]} else writable w) ∧
      readable w' = readable w;
  pipe_recv_ok w p :
    pipe_inv w → p ∈ readable w →
    ∃ w' rc m, nn_pipe_recv w p = Ret (w', rc, m) ∧ pipe_inv w' ∧ 0 ≤ rc < 4 ∧
      sent w' = sent w ∧ recvd w' = recvd w ++ [(p, m)] ∧
      readable w' = (if released rc then readable w ∖ {[p]} else readable w) ∧
      writable w' = writable w;
}.

(** ** The C code *)

Definition NN_PIPEBASE_STATE_IDLE : Z := 1.
Definition NN_PIPEBASE_STATE_ACTIVE : Z := 2.
Definition NN_PIPEBASE_STATE_FAILED : Z := 3.

Inductive instate_t : Set :=
| IN_DEACTIVATED | IN_IDLE | IN_RECEIVING | IN_RECEIVED | IN_ASYNC.
Inductive outstate_t : Set :=
| OUT_DEACTIVATED | OUT_IDLE | OUT_SENDING | OUT_SENT | OUT_ASYNC.

#[global] Instance instate_eq_dec : EqDecision instate_t.
Proof. solve_decision. Defined.
#[global] Instance outstate_eq_dec : EqDecision outstate_t.
Proof. solve_decision. Defined.

Record nn_ep_options := EpOptions { sndprio : Z; rcvprio : Z; ipv4only : Z }.

Record nn_pipebase := Pipebase {
  pstate : Z;
  instate : instate_t;
  outstate : outstate_t;
  pipedata : option addr;
  poptions : nn_ep_options;
}.

(** What a transport's send or recv function may call back into. *)
Inductive pipe_cb : Set := CbSent | CbReceived.

#[global] Instance pipe_cb_eq_dec : EqDecision pipe_cb.
Proof. solve_decision. Defined.

(** A transport: the vfptr functions of its pipes, over its own state [TW]. *)
Class Transport (TW M : Type) := {
  t_send : TW → pid → M → TW * Z * list pipe_cb;
  t_recv : TW → pid → TW * Z * M * list pipe_cb;
}.

(** The pipes, the event queue of the socket's context, the transport. *)
Record pworld (TW : Type) := PWorld {
  bases : gmap pid nn_pipebase;
  events : list (pid * Z);
  tworld : TW;
}.
Arguments PWorld {TW}.
Arguments bases {TW}.
Arguments events {TW}.
Arguments tworld {TW}.

Section code.
Context {TW M : Type}.

Definition get_base (w : pworld TW) (p : pid) : outcome nn_pipebase := deref (bases w !! p).
Definition set_base (w : pworld TW) (p : pid) (b : nn_pipebase) : pworld TW :=
  PWorld (<[p := b]> (bases w)) (events w) (tworld w).
Definition set_tworld (w : pworld TW) (t : TW) : pworld TW := PWorld (bases w) (events w) t.
Definition set_in (b : nn_pipebase) (s : instate_t) : nn_pipebase :=
  Pipebase (pstate b) s (outstate b) (pipedata b) (poptions b).
Definition set_out (b : nn_pipebase) (s : outstate_t) : nn_pipebase :=
  Pipebase (pstate b) (instate b) s (pipedata b) (poptions b).
Definition set_pstate (b : nn_pipebase) (s : Z) : nn_pipebase :=
  Pipebase s (instate b) (outstate b) (pipedata b) (poptions b).

(** [nn_fsm_raise]: the event is queued in the context; queuing an event that
    is still queued is an assertion failure in [nn_queue_push]. *)
Definition raise (w : pworld TW) (p : pid) (ev : Z) : outcome (pworld TW) :=
  nn_assert (bool_decide ((p, ev) ∉ events w));;
  Ret (PWorld (bases w) (events w ++ [(p, ev)]) (tworld w)).

Definition nn_pipebase_init (w : pworld TW) (p : pid) (data : option addr)
    (options : nn_ep_options) : pworld TW :=
  set_base w p (Pipebase NN_PIPEBASE_STATE_IDLE IN_DEACTIVATED OUT_DEACTIVATED data options).

(** [nn_fsm_event_term] does nothing: an event of a terminated pipe that is
    still queued stays queued. *)
Definition nn_pipebase_term (w : pworld TW) (p : pid) : outcome (pworld TW) :=
  b ← get_base w p;
  nn_assert (pstate b =? NN_PIPEBASE_STATE_IDLE);;
  Ret (PWorld (delete p (bases w)) (events w) (tworld w)).

(** [sock_add] and [sock_rm] are [nn_sock_add] and [nn_sock_rm] of the socket
    that owns the pipe; [x] is the socket. *)
Definition nn_pipebase_start {X} (sock_add : X → pid → outcome (X * Z))
    (x : X) (w : pworld TW) (p : pid) : outcome (X * pworld TW * Z) :=
  b ← get_base w p;
  nn_assert (pstate b =? NN_PIPEBASE_STATE_IDLE);;
  let w := set_base w p
    (Pipebase NN_PIPEBASE_STATE_ACTIVE IN_ASYNC OUT_IDLE (pipedata b) (poptions b)) in
  '(x, rc) ← sock_add x p;
  if rc <? 0 then
    b ← get_base w p;
    Ret (x, set_base w p (set_pstate b NN_PIPEBASE_STATE_FAILED), rc)
  else w ← raise w p NN_PIPE_OUT; Ret (x, w, 0).

Definition nn_pipebase_stop {X} (sock_rm : X → pid → outcome X)
    (x : X) (w : pworld TW) (p : pid) : outcome (X * pworld TW) :=
  b ← get_base w p;
  x ← (if pstate b =? NN_PIPEBASE_STATE_ACTIVE then sock_rm x p else Ret x);
  Ret (x, set_base w p (set_pstate b NN_PIPEBASE_STATE_IDLE)).

Definition nn_pipebase_received (w : pworld TW) (p : pid) : outcome (pworld TW) :=
  b ← get_base w p;
  if decide (instate b = IN_RECEIVING) then Ret (set_base w p (set_in b IN_RECEIVED))
  else
    nn_assert (bool_decide (instate b = IN_ASYNC));;
    raise (set_base w p (set_in b IN_IDLE)) p NN_PIPE_IN.

Definition nn_pipebase_sent (w : pworld TW) (p : pid) : outcome (pworld TW) :=
  b ← get_base w p;
  if decide (outstate b = OUT_SENDING) then Ret (set_base w p (set_out b OUT_SENT))
  else
    nn_assert (bool_decide (outstate b = OUT_ASYNC));;
    raise (set_base w p (set_out b OUT_IDLE)) p NN_PIPE_OUT.

Fixpoint callbacks (w : pworld TW) (p : pid) (cbs : list pipe_cb) : outcome (pworld TW) :=
  match cbs with
  | [] => Ret w
  | CbSent :: cbs => w ← nn_pipebase_sent w p; callbacks w p cbs
  | CbReceived :: cbs => w ← nn_pipebase_received w p; callbacks w p cbs
  end.

Definition nn_pipe_setdata (w : pworld TW) (p : pid) (data : option addr) :
    outcome (pworld TW) :=
  b ← get_base w p;
  Ret (set_base w p (Pipebase (pstate b) (instate b) (outstate b) data (poptions b))).

Definition nn_pipe_getdata (w : pworld TW) (p : pid) : outcome (option addr) :=
  b ← get_base w p; Ret (pipedata b).

Context `{Transport TW M}.

Definition nn_pipe_send_impl (w : pworld TW) (p : pid) (m : M) : outcome (pworld TW * Z) :=
  b ← get_base w p;
  nn_assert (bool_decide (outstate b = OUT_IDLE));;
  let w := set_base w p (set_out b OUT_SENDING) in
  let '(t, rc, cbs) := t_send (tworld w) p m in
  w ← callbacks (set_tworld w t) p cbs;
  nn_assert (0 <=? rc);;
  b ← get_base w p;
  if decide (outstate b = OUT_SENT) then Ret (set_base w p (set_out b OUT_IDLE), rc)
  else
    nn_assert (bool_decide (outstate b = OUT_SENDING));;
    Ret (set_base w p (set_out b OUT_ASYNC), Z.lor rc NN_PIPE_RELEASE).

Definition nn_pipe_recv_impl (w : pworld TW) (p : pid) : outcome (pworld TW * Z * M) :=
  b ← get_base w p;
  nn_assert (bool_decide (instate b = IN_IDLE));;
  let w := set_base w p (set_in b IN_RECEIVING) in
  let '(t, rc, m, cbs) := t_recv (tworld w) p in
  w ← callbacks (set_tworld w t) p cbs;
  nn_assert (0 <=? rc);;
  b ← get_base w p;
  if decide (instate b = IN_RECEIVED) then Ret (set_base w p (set_in b IN_IDLE), rc, m)
  else
    nn_assert (bool_decide (instate b = IN_RECEIVING));;
    Ret (set_base w p (set_in b IN_ASYNC), Z.lor rc NN_PIPE_RELEASE, m).

#[global] Instance pipebase_ops : PipeOps (pworld TW) M := {
  nn_pipe_send := nn_pipe_send_impl;
  nn_pipe_recv := nn_pipe_recv_impl;
}.

End code.

(** ** Options

    [memcpy (optval, &intval, min (optvallen, sizeof (int)))] writes a prefix
    of the (little-endian) representation of the int and reports its size. *)
Definition NN_SOL_SOCKET : Z := 0.
Definition NN_SNDPRIO : Z := 8.
Definition NN_RCVPRIO : Z := 9.
Definition NN_IPV4ONLY : Z := 14.

Definition int_bytes (v : Z) : list Z :=
  [v mod 256; (v / 2 ^ 8) mod 256; (v / 2 ^ 16) mod 256; (v / 2 ^ 24) mod 256].

Definition copy_int (v : Z) (optvallen : nat) : list Z * nat := (take optvallen (int_bytes v), 4%nat).

(** [getopt_inner] is [nn_sock_getopt_inner]: return code, bytes, length. *)
Definition nn_pipebase_getopt (b : nn_pipebase)
    (getopt_inner : Z → Z → nat → Z * (list Z * nat))
    (level option : Z) (optvallen : nat) : outcome (list Z * nat) :=
  let fallback :=
    let '(rc, r) := getopt_inner level option optvallen in nn_assert (rc =? 0);; Ret r in
  if level =? NN_SOL_SOCKET then
    if option =? NN_SNDPRIO then Ret (copy_int (sndprio (poptions b)) optvallen)
    else if option =? NN_RCVPRIO then Ret (copy_int (rcvprio (poptions b)) optvallen)
    else if option =? NN_IPV4ONLY then Ret (copy_int (ipv4only (poptions b)) optvallen)
    else fallback
  else fallback.

(** ** The promise, over a documented transport *)

(** transport.h: send returns 0, recv 0 or [NN_PIPEBASE_PARSED], and both report
    completion at most once before they return. *)
Class TransportOk (TW M : Type) `{Transport TW M} := {
  t_sent : TW → list (pid * M);
  t_recvd : TW → list (pid * M);
  t_send_ok t p m t' rc cbs :
    t_send t p m = (t', rc, cbs) →
    rc = 0 ∧ (cbs = [] ∨ cbs = [CbSent]) ∧
    t_sent t' = t_sent t ++ [(p, m)] ∧ t_recvd t' = t_recvd t;
  t_recv_ok t p m t' rc cbs :
    t_recv t p = (t', rc, m, cbs) →
    (rc = 0 ∨ rc = NN_PIPE_PARSED) ∧ (cbs = [] ∨ cbs = [CbReceived]) ∧
    t_sent t' = t_sent t ∧ t_recvd t' = t_recvd t ++ [(p, m)];
}.

Section promise.
Context `{TransportOk TW M}.

Definition out_idle (w : pworld TW) : gset pid :=
  dom (filter (λ pb, outstate pb.2 = OUT_IDLE) (bases w)).
Definition in_idle (w : pworld TW) : gset pid :=
  dom (filter (λ pb, instate pb.2 = IN_IDLE) (bases w)).

Lemma elem_of_out_idle w p :
  p ∈ out_idle w ↔ ∃ b, bases w !! p = Some b ∧ outstate b = OUT_IDLE.
Proof.
  unfold out_idle. rewrite elem_of_dom. unfold is_Some. setoid_rewrite map_lookup_filter_Some. done.
Qed.

Lemma elem_of_in_idle w p :
  p ∈ in_idle w ↔ ∃ b, bases w !! p = Some b ∧ instate b = IN_IDLE.
Proof.
  unfold in_idle. rewrite elem_of_dom. unfold is_Some. setoid_rewrite map_lookup_filter_Some. done.
Qed.

(** What [nn_pipe_send] does to an idle pipe: the transport gets the message;
    the pipe stays idle when it was sent at once and is released otherwise. *)
Lemma nn_pipe_send_impl_ok w p m b :
  bases w !! p = Some b → outstate b = OUT_IDLE →
  ∃ t (sync : bool),
    t_send (tworld w) p m = (t, 0, if sync then [CbSent] else []) ∧
    nn_pipe_send_impl w p m =
      Ret (PWorld (<[p := set_out b (if sync then OUT_IDLE else OUT_ASYNC)]> (bases w))
             (events w) t,
           if sync then 0 else NN_PIPE_RELEASE) ∧
    t_sent t = t_sent (tworld w) ++ [(p, m)] ∧ t_recvd t = t_recvd (tworld w).
Proof.
  intros Hb Ho. destruct (t_send (tworld w) p m) as [[t rc] cbs] eqn:Et.
  destruct (t_send_ok _ _ _ _ _ _ Et) as (-> & Hcbs & Hs & Hr).
  exists t, (bool_decide (cbs = [CbSent])).
  split_and!; [by destruct Hcbs as [-> | ->]| |done|done].
  unfold nn_pipe_send_impl, get_base. rewrite Hb. cbn [deref mbind outcome_bind].
  rewrite bool_decide_eq_true_2 by done. cbn [nn_assert mbind outcome_bind].
  change (tworld (set_base _ _ _)) with (tworld w). rewrite Et.
  assert (callbacks (set_tworld (set_base w p (set_out b OUT_SENDING)) t) p cbs =
    Ret (PWorld (<[p := set_out b (if bool_decide (cbs = [CbSent]) then OUT_SENT else OUT_SENDING)]>
           (bases w)) (events w) t)) as ->.
  { destruct Hcbs as [-> | ->]; [done|]. cbn [callbacks]. unfold nn_pipebase_sent, get_base.
    cbn [bases set_base set_tworld]. rewrite lookup_insert_eq. cbn [deref mbind outcome_bind].
    rewrite decide_True by done. unfold set_base. cbn. by rewrite insert_insert_eq. }
  cbn [mbind outcome_bind bases nn_assert Z.leb Z.compare].
  rewrite lookup_insert_eq. unfold set_base. cbn. case_bool_decide; cbn;
    [rewrite decide_True by done|rewrite decide_False, bool_decide_eq_true_2 by done]; cbn;
    by rewrite insert_insert_eq.
Qed.

Lemma nn_pipe_recv_impl_ok w p b :
  bases w !! p = Some b → instate b = IN_IDLE →
  ∃ t rc0 m (sync : bool),
    t_recv (tworld w) p = (t, rc0, m, if sync then [CbReceived] else []) ∧
    (rc0 = 0 ∨ rc0 = NN_PIPE_PARSED) ∧
    nn_pipe_recv_impl w p =
      Ret (PWorld (<[p := set_in b (if sync then IN_IDLE else IN_ASYNC)]> (bases w))
             (events w) t,
           (if sync then rc0 else Z.lor rc0 NN_PIPE_RELEASE), m) ∧
    t_sent t = t_sent (tworld w) ∧ t_recvd t = t_recvd (tworld w) ++ [(p, m)].
Proof.
  intros Hb Ho. destruct (t_recv (tworld w) p) as [[[t rc] m] cbs] eqn:Et.
  destruct (t_recv_ok _ _ _ _ _ _ Et) as (Hrc & Hcbs & Hs & Hr).
  exists t, rc, m, (bool_decide (cbs = [CbReceived])).
  assert (0 <=? rc = true) as Hpos by (apply Z.leb_le; unfold NN_PIPE_PARSED in *; lia).
  split_and!; [by destruct Hcbs as [-> | ->]|done| |done|done].
  unfold nn_pipe_recv_impl, get_base. rewrite Hb. cbn [deref mbind outcome_bind].
  rewrite bool_decide_eq_true_2 by done. cbn [nn_assert mbind outcome_bind].
  change (tworld (set_base _ _ _)) with (tworld w). rewrite Et.
  assert (callbacks (set_tworld (set_base w p (set_in b IN_RECEIVING)) t) p cbs =
    Ret (PWorld (<[p := set_in b (if bool_decide (cbs = [CbReceived]) then IN_RECEIVED else IN_RECEIVING)]>
           (bases w)) (events w) t)) as ->.
  { destruct Hcbs as [-> | ->]; [done|]. cbn [callbacks]. unfold nn_pipebase_received, get_base.
    cbn [bases set_base set_tworld]. rewrite lookup_insert_eq. cbn [deref mbind outcome_bind].
    rewrite decide_True by done. unfold set_base. cbn. by rewrite insert_insert_eq. }
  cbn [mbind outcome_bind bases]. rewrite Hpos. cbn [nn_assert mbind outcome_bind].
  rewrite lookup_insert_eq. unfold set_base. cbn. case_bool_decide; cbn;
    [rewrite decide_True by done|rewrite decide_False, bool_decide_eq_true_2 by done]; cbn;
    by rewrite insert_insert_eq.
Qed.

Lemma released_sync rc : rc = 0 ∨ rc = NN_PIPE_PARSED →
  released rc = false ∧ released (Z.lor rc NN_PIPE_RELEASE) = true ∧
  0 ≤ rc < 4 ∧ 0 ≤ Z.lor rc NN_PIPE_RELEASE < 4.
Proof. by intros [-> | ->]. Qed.

Lemma out_idle_insert bs ev ev' t t' p b b' :
  bs !! p = Some b → outstate b = OUT_IDLE →
  out_idle (PWorld (<[p := b']> bs) ev t) =
  if decide (outstate b' = OUT_IDLE) then out_idle (PWorld bs ev' t')
  else out_idle (PWorld bs ev' t') ∖ {[p]}.
Proof.
  intros Hb Ho. apply set_eq. intros q. rewrite elem_of_out_idle. cbn.
  destruct (decide (p = q)) as [<-|Hne].
  - rewrite lookup_insert_eq. case_decide as Hd.
    + rewrite elem_of_out_idle. naive_solver.
    + split; [naive_solver|]. intros [_ Hq]%elem_of_difference. set_solver.
  - rewrite lookup_insert_ne by done. case_decide; rewrite ?elem_of_difference, elem_of_out_idle; set_solver.
Qed.

Lemma in_idle_insert bs ev ev' t t' p b b' :
  bs !! p = Some b → instate b = IN_IDLE →
  in_idle (PWorld (<[p := b']> bs) ev t) =
  if decide (instate b' = IN_IDLE) then in_idle (PWorld bs ev' t')
  else in_idle (PWorld bs ev' t') ∖ {[p]}.
Proof.
  intros Hb Ho. apply set_eq. intros q. rewrite elem_of_in_idle. cbn.
  destruct (decide (p = q)) as [<-|Hne].
  - rewrite lookup_insert_eq. case_decide as Hd.
    + rewrite elem_of_in_idle. naive_solver.
    + split; [naive_solver|]. intros [_ Hq]%elem_of_difference. set_solver.
  - rewrite lookup_insert_ne by done. case_decide; rewrite ?elem_of_difference, elem_of_in_idle; set_solver.
Qed.

(** Changing the other half of a pipe. *)
Lemma in_idle_out bs ev ev' t t' p b b' :
  bs !! p = Some b → instate b' = instate b →
  in_idle (PWorld (<[p := b']> bs) ev t) = in_idle (PWorld bs ev' t').
Proof.
  intros Hb Hi. apply set_eq. intros q. rewrite !elem_of_in_idle. cbn.
  destruct (decide (p = q)) as [<-|]; [|by rewrite lookup_insert_ne].
  rewrite lookup_insert_eq. naive_solver congruence.
Qed.

Lemma out_idle_in bs ev ev' t t' p b b' :
  bs !! p = Some b → outstate b' = outstate b →
  out_idle (PWorld (<[p := b']> bs) ev t) = out_idle (PWorld bs ev' t').
Proof.
  intros Hb Hi. apply set_eq. intros q. rewrite !elem_of_out_idle. cbn.
  destruct (decide (p = q)) as [<-|]; [|by rewrite lookup_insert_ne].
  rewrite lookup_insert_eq. naive_solver congruence.
Qed.

#[global] Program Instance pipebase_ops_ok : PipeOpsOk (pworld TW) M := {|
  pipe_inv _ := True;
  writable := out_idle;
  readable := in_idle;
  sent w := t_sent (tworld w);
  recvd w := t_recvd (tworld w);
|}.
Next Obligation.
  intros [bs ev t] p m _ (b & Hb & Ho)%elem_of_out_idle.
  destruct (nn_pipe_send_impl_ok _ _ m _ Hb Ho) as (t' & sync & _ & E & Hs & Hr). cbn in *.
  eexists _, _. split; [exact E|]. split_and!; [done|destruct sync; auto|done|done| |by eapply in_idle_out].
  rewrite (out_idle_insert _ _ ev _ t _ b) by done.
  destruct sync; cbn; [by rewrite decide_True|by rewrite decide_False].
Qed.
Next Obligation.
  intros [bs ev t] p _ (b & Hb & Ho)%elem_of_in_idle.
  destruct (nn_pipe_recv_impl_ok _ _ _ Hb Ho) as (t' & rc & m & sync & _ & Hrc & E & Hs & Hr).
  destruct (released_sync rc Hrc) as (Hr0 & Hr1 & ? & ?). cbn in *.
  eexists _, _, _. split; [exact E|]. split_and!; [done|destruct sync; lia..|done|done| |by eapply out_idle_in].
  rewrite (in_idle_insert _ _ ev _ t _ b) by done.
  destruct sync; cbn; rewrite ?Hr0, ?Hr1; [by rewrite decide_True|by rewrite decide_False].
Qed.

End promise.

(** ** The life of the pipes of a socket

    The interleavings of the transport, the event queue and the protocol.  The
    protocol side keeps the pipes it may use: a pipe enters [can_out] when its
    NN_PIPE_OUT event is dispatched and leaves it when a send is answered with
    the RELEASE flag; likewise for [can_in]. *)
Section life.
Context `{TransportOk TW M}.

Record psys := PSys { pw : pworld TW; can_out : gset pid; can_in : gset pid }.

Inductive paction :=
| A_start (p : pid) (rc : Z) (o : nn_ep_options)   (* connection established *)
| A_stop (p : pid)                                  (* connection closed, no event of it queued *)
| A_sent (p : pid)                                  (* asynchronous send done *)
| A_received (p : pid)                              (* message arrived *)
| A_dispatch                                        (* the context runs an event *)
| A_send (p : pid) (m : M)
| A_recv (p : pid).

Definition active (s : psys) (p : pid) (b : nn_pipebase) : Prop :=
  bases (pw s) !! p = Some b ∧ pstate b = NN_PIPEBASE_STATE_ACTIVE.

(** When each party may act. *)
Definition enabled (s : psys) (a : paction) : Prop :=
  match a with
  | A_start p _ _ => bases (pw s) !! p = None
  | A_stop p => is_Some (bases (pw s) !! p) ∧ (p, NN_PIPE_OUT) ∉ events (pw s) ∧ (p, NN_PIPE_IN) ∉ events (pw s)
  | A_sent p => ∃ b, active s p b ∧ outstate b = OUT_ASYNC
  | A_received p => ∃ b, active s p b ∧ instate b = IN_ASYNC
  | A_dispatch => events (pw s) ≠ []
  | A_send p _ => p ∈ can_out s
  | A_recv p => p ∈ can_in s
  end.

Definition pstep (s : psys) (a : paction) : outcome psys :=
  match a with
  | A_start p rc o =>
      let w := nn_pipebase_init (pw s) p None o in
      '(_, w, _) ← nn_pipebase_start (λ x _, Ret (x, rc)) tt w p;
      Ret (PSys w (can_out s) (can_in s))
  | A_stop p =>
      '(_, w) ← nn_pipebase_stop (λ x _, Ret x) tt (pw s) p;
      w ← nn_pipebase_term w p;
      Ret (PSys w (can_out s ∖ {[p]}) (can_in s ∖ {[p]}))
  | A_sent p => w ← nn_pipebase_sent (pw s) p; Ret (PSys w (can_out s) (can_in s))
  | A_received p => w ← nn_pipebase_received (pw s) p; Ret (PSys w (can_out s) (can_in s))
  | A_dispatch =>
      match events (pw s) with
      | [] => Ret s
      | (p, ev) :: evs =>
          let w := PWorld (bases (pw s)) evs (tworld (pw s)) in
          Ret (if ev =? NN_PIPE_OUT then PSys w ({[p]} ∪ can_out s) (can_in s)
               else PSys w (can_out s) ({[p]} ∪ can_in s))
      end
  | A_send p m =>
      '(w, rc) ← nn_pipe_send_impl (pw s) p m;
      Ret (PSys w (if released rc then can_out s ∖ {[p]} else can_out s) (can_in s))
  | A_recv p =>
      '(w, rc, _) ← nn_pipe_recv_impl (pw s) p;
      Ret (PSys w (can_out s) (if released rc then can_in s ∖ {[p]} else can_in s))
  end.

Inductive reachable (t0 : TW) : psys → Prop :=
| reach_init : reachable t0 (PSys (PWorld ∅ [] t0) ∅ ∅)
| reach_step s a s' :
    reachable t0 s → enabled s a → pstep s a = Ret s' → reachable t0 s'.

(** One direction of one active pipe: between two steps it is idle or busy;
    idle means that either the protocol knows or the event is on its way. *)
Definition half_ok (idle busy known pending : Prop) : Prop :=
  (idle ∨ busy) ∧ (idle ↔ known ∨ pending) ∧ ¬ (known ∧ pending).

Definition pipe_ok (s : psys) (p : pid) : Prop :=
  match bases (pw s) !! p with
  | Some b =>
      if decide (pstate b = NN_PIPEBASE_STATE_ACTIVE) then
        half_ok (outstate b = OUT_IDLE) (outstate b = OUT_ASYNC)
          (p ∈ can_out s) ((p, NN_PIPE_OUT) ∈ events (pw s)) ∧
        half_ok (instate b = IN_IDLE) (instate b = IN_ASYNC)
          (p ∈ can_in s) ((p, NN_PIPE_IN) ∈ events (pw s))
      else p ∉ can_out s ∧ p ∉ can_in s ∧ ∀ ev, (p, ev) ∉ events (pw s)
  | None => p ∉ can_out s ∧ p ∉ can_in s ∧ ∀ ev, (p, ev) ∉ events (pw s)
  end.

Record psys_inv (s : psys) : Prop := {
  pi_pipe p : pipe_ok s p;
  pi_nodup : NoDup (events (pw s));
  pi_events p ev : (p, ev) ∈ events (pw s) → ev = NN_PIPE_IN ∨ ev = NN_PIPE_OUT;
}.

(** A step that touches only pipe [p]. *)
Lemma pipe_ok_frame s s' p q :
  q ≠ p → bases (pw s') !! q = bases (pw s) !! q →
  (q ∈ can_out s' ↔ q ∈ can_out s) → (q ∈ can_in s' ↔ q ∈ can_in s) →
  (∀ ev, (q, ev) ∈ events (pw s') ↔ (q, ev) ∈ events (pw s)) →
  pipe_ok s q → pipe_ok s' q.
Proof.
  intros Hne Hb Ho Hi Hev. unfold pipe_ok, half_ok. rewrite Hb.
  destruct (bases (pw s) !! q) as [b|]; [case_decide|]; rewrite ?Ho, ?Hi, ?Hev; try done;
    intros (? & ? & Hn); (split_and!; [done..|]); intros ev; rewrite Hev; apply Hn.
Qed.

Lemma active_ok s p b : psys_inv s → active s p b →
  half_ok (outstate b = OUT_IDLE) (outstate b = OUT_ASYNC)
    (p ∈ can_out s) ((p, NN_PIPE_OUT) ∈ events (pw s)) ∧
  half_ok (instate b = IN_IDLE) (instate b = IN_ASYNC)
    (p ∈ can_in s) ((p, NN_PIPE_IN) ∈ events (pw s)).
Proof.
  intros Hinv [Hb Ha]. pose proof (pi_pipe _ Hinv p) as Hp. unfold pipe_ok in Hp.
  rewrite Hb in Hp. by rewrite decide_True in Hp.
Qed.

Lemma known_active s p : psys_inv s → p ∈ can_out s ∨ p ∈ can_in s → ∃ b, active s p b.
Proof.
  intros Hinv Hp. pose proof (pi_pipe _ Hinv p) as Hok. unfold pipe_ok in Hok.
  destruct (bases (pw s) !! p) as [b|] eqn:Hb; [case_decide|]; [by exists b|naive_solver..].
Qed.

(** The event of a busy half is not pending, so raising it succeeds. *)
Lemma raise_ok (w : pworld TW) p ev :
  (p, ev) ∉ events w → raise w p ev = Ret (PWorld (bases w) (events w ++ [(p, ev)]) (tworld w)).
Proof. intros. unfold raise. by rewrite bool_decide_eq_true_2. Qed.

(** Putting back one pipe, and at most one event of it. *)
Lemma psys_inv_update s s' p b' :
  psys_inv s → bases (pw s') = <[p := b']> (bases (pw s)) →
  (∀ q, q ≠ p → q ∈ can_out s' ↔ q ∈ can_out s) →
  (∀ q, q ≠ p → q ∈ can_in s' ↔ q ∈ can_in s) →
  (events (pw s') = events (pw s) ∨
   ∃ ev, events (pw s') = events (pw s) ++ [(p, ev)] ∧ (p, ev) ∉ events (pw s) ∧
         (ev = NN_PIPE_IN ∨ ev = NN_PIPE_OUT)) →
  pipe_ok s' p → psys_inv s'.
Proof.
  intros Hinv Hb Ho Hi Hev Hp. split.
  - intros q. destruct (decide (q = p)) as [->|Hne]; [done|].
    eapply pipe_ok_frame; [done|by rewrite Hb, lookup_insert_ne|by apply Ho|by apply Hi| |apply Hinv].
    intros ev. destruct Hev as [->|(ev' & -> & _)]; [done|].
    rewrite elem_of_app, list_elem_of_singleton. naive_solver.
  - destruct Hev as [->|(ev & -> & Hn & _)]; [apply Hinv|].
    apply NoDup_app. split_and!; [apply Hinv| |apply NoDup_singleton].
    intros x Hx ->%list_elem_of_singleton. done.
  - intros q ev. destruct Hev as [->|(ev' & -> & _ & Hev)]; [apply Hinv|].
    rewrite elem_of_app, list_elem_of_singleton. intros [?|[= -> ->]]; [by eapply Hinv|done].
Qed.

Lemma active_step s p b b' evs co ci t :
  psys_inv s → active s p b → pstate b' = NN_PIPEBASE_STATE_ACTIVE →
  (∀ q, q ≠ p → q ∈ co ↔ q ∈ can_out s) → (∀ q, q ≠ p → q ∈ ci ↔ q ∈ can_in s) →
  (evs = events (pw s) ∨
   ∃ ev, evs = events (pw s) ++ [(p, ev)] ∧ (p, ev) ∉ events (pw s) ∧
         (ev = NN_PIPE_IN ∨ ev = NN_PIPE_OUT)) →
  half_ok (outstate b' = OUT_IDLE) (outstate b' = OUT_ASYNC) (p ∈ co) ((p, NN_PIPE_OUT) ∈ evs) →
  half_ok (instate b' = IN_IDLE) (instate b' = IN_ASYNC) (p ∈ ci) ((p, NN_PIPE_IN) ∈ evs) →
  psys_inv (PSys (PWorld (<[p := b']> (bases (pw s))) evs t) co ci).
Proof.
  intros Hinv [Hb Ha] Ha' Ho Hi Hev H1 H2.
  eapply psys_inv_update; [done|done|done..|]. unfold pipe_ok. cbn.
  by rewrite lookup_insert_eq, decide_True.
Qed.

Lemma elem_of_snoc {A} (l : list A) x y : x ∈ l ++ [y] ↔ x ∈ l ∨ x = y.
Proof. by rewrite elem_of_app, list_elem_of_singleton. Qed.

Lemma step_start s p rc o :
  psys_inv s → enabled s (A_start p rc o) →
  ∃ s', pstep s (A_start p rc o) = Ret s' ∧ psys_inv s'.
Proof.
  intros Hinv Hen. cbn in Hen. pose proof (pi_pipe _ Hinv p) as Hp. unfold pipe_ok in Hp.
  rewrite Hen in Hp. destruct Hp as (Hpo & Hpi & Hpe). cbn.
  unfold nn_pipebase_start, nn_pipebase_init, get_base, set_base. cbn.
  rewrite lookup_insert_eq. cbn. destruct (rc <? 0).
  - rewrite lookup_insert_eq. cbn. eexists. split; [done|].
    eapply psys_inv_update; [done|cbn; by rewrite !insert_insert_eq|done|done|by left|].
    unfold pipe_ok. cbn. by rewrite lookup_insert_eq, decide_False.
  - rewrite raise_ok by apply Hpe. cbn. eexists. split; [done|].
    eapply psys_inv_update; [done|cbn; by rewrite !insert_insert_eq|done|done|right; cbn; eauto|].
    unfold pipe_ok. cbn. rewrite lookup_insert_eq, decide_True by done. unfold half_ok. cbn.
    rewrite !elem_of_snoc. pose proof (Hpe NN_PIPE_IN). naive_solver.
Qed.

Lemma step_stop s p :
  psys_inv s → enabled s (A_stop p) → ∃ s', pstep s (A_stop p) = Ret s' ∧ psys_inv s'.
Proof.
  intros Hinv ([b Hb] & Ho & Hi). cbn. unfold nn_pipebase_stop, get_base. rewrite Hb. cbn.
  destruct (pstate b =? NN_PIPEBASE_STATE_ACTIVE); cbn; unfold nn_pipebase_term, get_base, set_base; cbn;
    rewrite lookup_insert_eq; cbn; rewrite delete_insert_eq.
  all: eexists; split; [done|]; split; cbn; [|apply Hinv|apply Hinv].
  all: intros q; destruct (decide (q = p)) as [->|Hne];
    [|eapply pipe_ok_frame; [done|cbn; by rewrite lookup_delete_ne|cbn; set_solver|cbn; set_solver|done|apply Hinv]].
  all: unfold pipe_ok; cbn; rewrite lookup_delete_eq; split_and!; [set_solver..|].
  all: intros ev Hev; destruct (pi_events _ Hinv _ _ Hev) as [-> | ->]; done.
Qed.

Lemma step_sent s p :
  psys_inv s → enabled s (A_sent p) → ∃ s', pstep s (A_sent p) = Ret s' ∧ psys_inv s'.
Proof.
  intros Hinv (b & Hact & Ho). pose proof (active_ok _ _ _ Hinv Hact) as [(_ & Hhalf & _) Hin].
  assert (p ∉ can_out s ∧ (p, NN_PIPE_OUT) ∉ events (pw s)) as [Hn1 Hn2].
  { rewrite Ho in Hhalf. split; intros Hp; assert (OUT_ASYNC = OUT_IDLE) by tauto; done. }
  cbn. unfold nn_pipebase_sent, get_base. rewrite (proj1 Hact). cbn.
  rewrite decide_False, bool_decide_eq_true_2 by (done || congruence). cbn.
  rewrite raise_ok by done. cbn. eexists. split; [done|].
  eapply active_step; [done|exact Hact|by apply Hact|done|done|right; cbn; eauto 6| |];
    unfold half_ok in *; cbn; rewrite elem_of_snoc; naive_solver.
Qed.

Lemma step_received s p :
  psys_inv s → enabled s (A_received p) → ∃ s', pstep s (A_received p) = Ret s' ∧ psys_inv s'.
Proof.
  intros Hinv (b & Hact & Ho). pose proof (active_ok _ _ _ Hinv Hact) as [Hout (_ & Hhalf & _)].
  assert (p ∉ can_in s ∧ (p, NN_PIPE_IN) ∉ events (pw s)) as [Hn1 Hn2].
  { rewrite Ho in Hhalf. split; intros Hp; assert (IN_ASYNC = IN_IDLE) by tauto; done. }
  cbn. unfold nn_pipebase_received, get_base. rewrite (proj1 Hact). cbn.
  rewrite decide_False, bool_decide_eq_true_2 by (done || congruence). cbn.
  rewrite raise_ok by done. cbn. eexists. split; [done|].
  eapply active_step; [done|exact Hact|by apply Hact|done|done|right; cbn; eauto 6| |];
    unfold half_ok in *; cbn; rewrite elem_of_snoc; naive_solver.
Qed.

Lemma step_send s p m :
  psys_inv s → enabled s (A_send p m) → ∃ s', pstep s (A_send p m) = Ret s' ∧ psys_inv s'.
Proof.
  intros Hinv Hen. cbn in Hen. destruct (known_active s p Hinv (or_introl Hen)) as [b Hact].
  pose proof (active_ok _ _ _ Hinv Hact) as [(_ & Hhalf & Hex) Hin].
  assert (outstate b = OUT_IDLE) as Ho by tauto.
  destruct (nn_pipe_send_impl_ok (pw s) p m b (proj1 Hact) Ho) as (t & sync & _ & E & _).
  cbn. rewrite E. cbn. eexists. split; [done|].
  eapply active_step; [done|exact Hact|by apply Hact| |done|by left| |exact Hin].
  - destruct sync; [done|]. change (released NN_PIPE_RELEASE) with true. set_solver.
  - unfold half_ok. destruct sync; [change (released 0) with false|change (released NN_PIPE_RELEASE) with true]; cbn; [naive_solver|].
    rewrite elem_of_difference, elem_of_singleton. naive_solver.
Qed.

Lemma step_recv s p :
  psys_inv s → enabled s (A_recv p) → ∃ s', pstep s (A_recv p) = Ret s' ∧ psys_inv s'.
Proof.
  intros Hinv Hen. cbn in Hen. destruct (known_active s p Hinv (or_intror Hen)) as [b Hact].
  pose proof (active_ok _ _ _ Hinv Hact) as [Hout (_ & Hhalf & Hex)].
  assert (instate b = IN_IDLE) as Hi by tauto.
  destruct (nn_pipe_recv_impl_ok (pw s) p b (proj1 Hact) Hi) as (t & rc & m & sync & _ & Hrc & E & _).
  destruct (released_sync rc Hrc) as (Hr0 & Hr1 & _). cbn. rewrite E. cbn. eexists. split; [done|].
  eapply active_step; [done|exact Hact|by apply Hact|done| |by left|exact Hout|].
  - destruct sync; rewrite ?Hr0, ?Hr1; [done|]. set_solver.
  - unfold half_ok. destruct sync; rewrite ?Hr0, ?Hr1; cbn; [naive_solver|].
    rewrite elem_of_difference, elem_of_singleton. naive_solver.
Qed.

Lemma step_dispatch s :
  psys_inv s → enabled s A_dispatch → ∃ s', pstep s A_dispatch = Ret s' ∧ psys_inv s'.
Proof.
  intros Hinv Hen. cbn in *. destruct (events (pw s)) as [|[p ev] evs] eqn:Ee; [done|].
  assert ((p, ev) ∈ events (pw s)) as Hin by (rewrite Ee; apply elem_of_cons; by left).
  pose proof (pi_events _ Hinv _ _ Hin) as Hev.
  pose proof (pi_nodup _ Hinv) as Hnd. rewrite Ee in Hnd. apply NoDup_cons in Hnd as [Hn Hnd].
  eexists. split; [done|].
  assert (∀ q e, (q, e) ∈ events (pw s) ↔ (q, e) = (p, ev) ∨ (q, e) ∈ evs) as Hall.
  { intros. by rewrite Ee, elem_of_cons. }
  split.
  - intros q. pose proof (pi_pipe _ Hinv q) as Hq. unfold pipe_ok, half_ok in *.
    destruct Hev as [-> | ->]; cbn in *; destruct (bases (pw s) !! q) as [b|];
      [case_decide| |case_decide|]; rewrite ?elem_of_union, ?elem_of_singleton;
      repeat setoid_rewrite Hall in Hq; destruct (decide (q = p)) as [->|Hne]; try naive_solver.
  - by destruct (ev =? NN_PIPE_OUT).
  - intros q e Hq. apply (pi_events _ Hinv q). apply Hall. right. by destruct (ev =? NN_PIPE_OUT).
Qed.

#[global] Instance enabled_dec s a : Decision (enabled s a).
Proof.
  destruct a as [p rc o|p|p|p| |p m|p]; cbn; [apply _|apply _| | |apply _..].
  - destruct (bases (pw s) !! p) as [b|] eqn:Hb;
      [destruct (decide (pstate b = NN_PIPEBASE_STATE_ACTIVE ∧ outstate b = OUT_ASYNC))|];
      [left|right|right]; unfold active; naive_solver.
  - destruct (bases (pw s) !! p) as [b|] eqn:Hb;
      [destruct (decide (pstate b = NN_PIPEBASE_STATE_ACTIVE ∧ instate b = IN_ASYNC))|];
      [left|right|right]; unfold active; naive_solver.
Defined.

(** Runs a sequence of actions, each of which must be enabled. *)
Fixpoint run_actions (s : psys) (acts : list paction) : outcome psys :=
  match acts with
  | [] => Ret s
  | a :: acts => if decide (enabled s a) then s ← pstep s a; run_actions s acts else Fail Abort
  end.

Lemma run_actions_reachable t0 s acts s' :
  reachable t0 s → run_actions s acts = Ret s' → reachable t0 s'.
Proof.
  revert s. induction acts as [|a acts IH]; intros s Hr; cbn; [by intros [= ->]|].
  case_decide as Hen; [|done]. destruct (pstep s a) as [s1|] eqn:E; [cbn|done].
  apply IH. by eapply reach_step.
Qed.

Lemma pstep_ok s a : psys_inv s → enabled s a → ∃ s', pstep s a = Ret s' ∧ psys_inv s'.
Proof.
  destruct a; [apply step_start|apply step_stop|apply step_sent|apply step_received|apply step_dispatch|
    apply step_send|apply step_recv].
Qed.

Lemma reachable_inv t0 s : reachable t0 s → psys_inv s.
Proof.
  induction 1 as [|s a s' _ IH Hen E].
  - split; cbn; [|apply NoDup_nil_2|by intros ? ? ?%not_elem_of_nil].
    intros p. unfold pipe_ok. cbn. rewrite lookup_empty. split_and!; [set_solver..|].
    intros ev. apply not_elem_of_nil.
  - destruct (pstep_ok s a IH Hen) as (s'' & E' & ?). congruence.
Qed.

(** C1: the assertions of core/pipe.c never fire.  Start from no pipes and
    interleave, in any order, connections being established (or rejected by
    the socket) and closed, asynchronous completions and arrivals reported by the
    transport when one is outstanding, the dispatch of queued events, and the
    protocol sending to and receiving from pipes it has been told about: every
    such step of a reachable state returns. *)
Theorem pipe_never_asserts t0 s a :
  reachable t0 s → enabled s a → ∃ s', pstep s a = Ret s' ∧ reachable t0 s'.
Proof.
  intros Hr Hen. destruct (pstep_ok s a (reachable_inv _ _ Hr) Hen) as (s' & E & _).
  exists s'. split; [done|]. by eapply reach_step.
Qed.

(** C2: no wake-up is lost or doubled.  In every reachable state an active pipe
    that is ready to send (to be received from) is known to the protocol or has
    its OUT (IN) event queued, and never both; a pipe that is busy is neither. *)
Theorem pipe_no_lost_wakeup t0 s p b :
  reachable t0 s → bases (pw s) !! p = Some b → pstate b = NN_PIPEBASE_STATE_ACTIVE →
  (outstate b = OUT_IDLE ↔ p ∈ can_out s ∨ (p, NN_PIPE_OUT) ∈ events (pw s)) ∧
  (instate b = IN_IDLE ↔ p ∈ can_in s ∨ (p, NN_PIPE_IN) ∈ events (pw s)) ∧
  ¬ (p ∈ can_out s ∧ (p, NN_PIPE_OUT) ∈ events (pw s)) ∧
  ¬ (p ∈ can_in s ∧ (p, NN_PIPE_IN) ∈ events (pw s)).
Proof.
  intros Hr Hb Ha.
  destruct (active_ok s p b (reachable_inv _ _ Hr) (conj Hb Ha)) as [(_ & ? & ?) (_ & ? & ?)].
  done.
Qed.

End life.

(** ** A transport for examples

    Every pipe with an even address sends at once and has another message
    waiting; the others complete later. *)
Module Sample.

Record gtw (M : Type) := Tw { log_sent : list (pid * M); log_recvd : list (pid * M) }.
Arguments Tw {M}.
Arguments log_sent {M}.
Arguments log_recvd {M}.

(** The message a pipe has waiting. *)
Class Inbox (M : Type) := inbox : pid → M.
#[global] Instance inbox_Z : Inbox Z := Zpos.

Notation tw := (gtw Z).

Definition is_even (p : pid) : bool := match p with xO _ => true | _ => false end.

#[global] Instance sample_transport `{Inbox M} : Transport (gtw M) M := {
  t_send t p m :=
    (Tw (log_sent t ++ [(p, m)]) (log_recvd t), 0, if is_even p then [CbSent] else []);
  t_recv t p :=
    (Tw (log_sent t) (log_recvd t ++ [(p, inbox p)]), NN_PIPE_PARSED, inbox p,
     if is_even p then [CbReceived] else []);
}.

#[global] Program Instance sample_transport_ok `{Inbox M} : TransportOk (gtw M) M := {|
  t_sent := log_sent; t_recvd := log_recvd |}.
Next Obligation.
  intros M ? t p m t' rc cbs [= <- <- <-]. split_and!; [done| |done..]. destruct (is_even p); auto.
Qed.
Next Obligation.
  intros M ? t p m t' rc cbs [= <- <- <- <-]. split_and!; [by right| |done..]. destruct (is_even p); auto.
Qed.

Definition opts : nn_ep_options := EpOptions 8 8 1.

(** Pipe 1 and 2 connect, their OUT events are dispatched, both send; the send
    on pipe 1 completes and a message arrives on pipe 2. *)
Definition trace : list (@paction Z) :=
  let p1 := 1%positive in let p2 := 2%positive in
  [A_start p1 0 opts; A_start p2 0 opts; A_dispatch; A_dispatch; A_send p1 10; A_send p2 20;
   A_send p2 21; A_sent p1; A_received p2].

Definition start : psys (TW := tw) := PSys (PWorld ∅ [] (Tw [] [])) ∅ ∅.

End Sample.

Lemma pipe_never_asserts_witness :
  ∃ s s', run_actions Sample.start Sample.trace = Ret s ∧
    pstep s (A_dispatch (M := Z)) = Ret s' ∧ reachable (M := Z) (Sample.Tw [] []) s'.
Proof.
  destruct (ret_check_ok (λ s, bool_decide (events (pw s) ≠ [])) (run_actions Sample.start Sample.trace))
    as (s & E & Hs); [vm_compute; reflexivity|].
  destruct (pipe_never_asserts _ s A_dispatch (run_actions_reachable _ _ _ _ (reach_init _) E))
    as (s' & E' & H); [by apply bool_decide_eq_true_1 in Hs|].
  exists s, s'. exact (conj E (conj E' H)).
Defined.

Lemma pipe_no_lost_wakeup_witness :
  ∃ s b, run_actions Sample.start Sample.trace = Ret s ∧ bases (pw s) !! 2%positive = Some b ∧
    (2%positive ∈ can_out s ∨ (2%positive, NN_PIPE_OUT) ∈ events (pw s)).
Proof.
  destruct (ret_check_ok (λ s, match bases (pw s) !! 2%positive with
    | Some b => bool_decide (pstate b = NN_PIPEBASE_STATE_ACTIVE ∧ outstate b = OUT_IDLE)
    | None => false end) (run_actions Sample.start Sample.trace))
    as (s & E & Hs); [vm_compute; reflexivity|].
  destruct (bases (pw s) !! 2%positive) as [b|] eqn:Eb; [|discriminate Hs].
  apply bool_decide_eq_true_1 in Hs as [Ha Ho].
  destruct (pipe_no_lost_wakeup _ s _ b (run_actions_reachable _ _ _ _ (reach_init _) E) Eb Ha)
    as (H1 & _). exists s, b. exact (conj E (conj Eb (proj1 H1 Ho))).
Defined.
