(* ===== verification/LbFq.v ===== *)
(** * protocols/utils/lb.c and fq.c: load balancing and fair queuing

    Both are a priolist plus one call: [nn_lb_send] sends to the current pipe,
    [nn_fq_recv] receives from it, and both give the turn to the next pipe.
    The world [W] of pipes is used through [PipeOps] only. *)
From S2P Require Import Prelude NnList Priolist Pipe.

(** ** The C code *)

Section code.
Context `{ListStore T} `{PipeOps W M}.

Definition nn_lb_init (s : T) : nn_priolist T := nn_priolist_init s.
Definition nn_lb_term (self : nn_priolist T) : outcome unit := nn_priolist_term self.
Definition nn_lb_add (self : nn_priolist T) (data : addr) (pipe : pid) (priority : Z) :
    nn_priolist T := nn_priolist_add self data pipe priority.
Definition nn_lb_rm (self : nn_priolist T) (data : addr) : outcome (nn_priolist T) :=
  nn_priolist_rm self data.
Definition nn_lb_out (self : nn_priolist T) (data : addr) : outcome (nn_priolist T) :=
  nn_priolist_activate self data.
Definition nn_lb_can_send (self : nn_priolist T) : bool := nn_priolist_is_active self.
Definition nn_lb_get_priority (self : nn_priolist T) : Z := nn_priolist_get_priority self.

(** Returns the return code, and the pipe stored through [to]. *)
Definition nn_lb_send (self : nn_priolist T) (w : W) (msg : M) :
    outcome (nn_priolist T * W * Z * option pid) :=
  pipe ← nn_priolist_getpipe self;
  match pipe with
  | None => Ret (self, w, - EAGAIN, None)
  | Some pipe =>
      '(w, rc) ← nn_pipe_send w pipe msg;
      nn_assert (0 <=? rc);;
      self ← nn_priolist_advance self (released rc);
      Ret (self, w, unrelease rc, Some pipe)
  end.

Definition nn_fq_init (s : T) : nn_priolist T := nn_priolist_init s.
Definition nn_fq_term (self : nn_priolist T) : outcome unit := nn_priolist_term self.
Definition nn_fq_add (self : nn_priolist T) (data : addr) (pipe : pid) (priority : Z) :
    nn_priolist T := nn_priolist_add self data pipe priority.
Definition nn_fq_rm (self : nn_priolist T) (data : addr) : outcome (nn_priolist T) :=
  nn_priolist_rm self data.
Definition nn_fq_in (self : nn_priolist T) (data : addr) : outcome (nn_priolist T) :=
  nn_priolist_activate self data.
Definition nn_fq_can_recv (self : nn_priolist T) : bool := nn_priolist_is_active self.

(** Returns the return code, and the pipe and message when there is one. *)
Definition nn_fq_recv (self : nn_priolist T) (w : W) :
    outcome (nn_priolist T * W * Z * option (pid * M)) :=
  p ← nn_priolist_getpipe self;
  match p with
  | None => Ret (self, w, - EAGAIN, None)
  | Some p =>
      '(w, rc, msg) ← nn_pipe_recv w p;
      nn_assert (0 <=? rc);;
      self ← nn_priolist_advance self (released rc);
      Ret (self, w, unrelease rc, Some (p, msg))
  end.

End code.

(** ** One call *)

(** The active data of a priolist belong to distinct pipes in [ok]. *)
Definition pipes_in (p : prio) (ok : gset pid) : Prop :=
  (∀ x d, pinfo p !! x = Some d → x ∉ pidle p → ppipe d ∈ ok) ∧
  (∀ x y dx dy, pinfo p !! x = Some dx → pinfo p !! y = Some dy → ppipe dx = ppipe dy → x = y).

(** Return codes that are combinations of the two flags. *)
Lemma unrelease_range rc : 0 ≤ rc < 4 → 0 ≤ unrelease rc ≤ NN_PIPE_PARSED.
Proof.
  intros. assert (rc = 0 ∨ rc = 1 ∨ rc = 2 ∨ rc = 3) as [-> |[-> |[-> | ->]]] by lia; by vm_compute.
Qed.

Lemma pipes_in_advance p i x ok r :
  prio_current p = Some (i, x) → pipes_in p ok →
  ∀ d, pinfo p !! x = Some d →
  pipes_in (prio_advance p r) (if r then ok ∖ {[ppipe d]} else ok).
Proof.
  intros Hc [Hok Hinj] d Hd. split; rewrite prio_advance_info; [|done].
  intros y dy Hy. unfold prio_advance. rewrite Hc. cbn. destruct r; [|by apply Hok].
  intros Hn. rewrite elem_of_difference, elem_of_singleton. split; [apply (Hok y); [done|set_solver]|].
  intros He. assert (y = x) by by eapply Hinj. set_solver.
Qed.

(** A send leaves no flag but RELEASE. *)
Lemma unrelease_send rc : rc = 0 ∨ rc = NN_PIPE_RELEASE → unrelease rc = 0.
Proof. by intros [-> | ->]. Qed.

Section calls.
Context `{ListStoreOk T} `{PipeOpsOk W M}.

Definition lb_inv (self : nn_priolist T) (w : W) (p : prio) : Prop :=
  prep self p ∧ pipe_inv w ∧ pipes_in p (writable w).
Definition fq_inv (self : nn_priolist T) (w : W) (p : prio) : Prop :=
  prep self p ∧ pipe_inv w ∧ pipes_in p (readable w).

Lemma getpipe_None self p :
  prep self p → prio_current p = None → nn_priolist_getpipe self = Ret None.
Proof. intros Hr Hc. destruct (nn_priolist_getpipe_ok _ _ Hr) as [-> _]. by rewrite Hc. Qed.

Lemma getpipe_Some self p i x d :
  prep self p → prio_current p = Some (i, x) → pinfo p !! x = Some d →
  nn_priolist_getpipe self = Ret (Some (ppipe d)).
Proof.
  intros Hr Hc Hd. destruct (nn_priolist_getpipe_ok _ _ Hr) as [-> _]. by rewrite Hc; cbn; rewrite Hd.
Qed.

Lemma nn_lb_send_current self w p i x d m :
  lb_inv self w p → prio_current p = Some (i, x) → pinfo p !! x = Some d →
  ∃ self' w' rc, nn_pipe_send w (ppipe d) m = Ret (w', rc) ∧
    nn_lb_send self w m = Ret (self', w', unrelease rc, Some (ppipe d)) ∧
    unrelease rc = 0 ∧
    sent w' = sent w ++ [(ppipe d, m)] ∧ recvd w' = recvd w ∧ readable w' = readable w ∧
    writable w' = (if released rc then writable w ∖ {[ppipe d]} else writable w) ∧
    lb_inv self' w' (prio_advance p (released rc)).
Proof.
  intros (Hr & Hw & Hin) Hc Hd. destruct (prio_current_info _ _ _ _ Hr Hc) as [_ Hact].
  destruct (pipe_send_ok w (ppipe d) m Hw) as (w' & rc & Es & Hw' & Hrc & Hs & Hrv & Hwr & Hrd).
  { by eapply (proj1 Hin). }
  destruct (nn_priolist_advance_ok self p (released rc) i x Hr Hc) as (self' & Ea & Hr').
  exists self', w', rc. unfold nn_lb_send. rewrite (getpipe_Some _ _ _ _ _ Hr Hc Hd). cbn.
  rewrite Es. cbn. rewrite (proj2 (Z.leb_le 0 rc)) by (unfold NN_PIPE_RELEASE in *; lia). cbn. rewrite Ea. cbn.
  assert (pipes_in (prio_advance p (released rc)) (writable w')) as Hin'.
  { rewrite Hwr. by eapply pipes_in_advance. }
  pose proof (unrelease_send rc Hrc). split_and!; try done; apply Hin'.
Qed.

Lemma nn_fq_recv_current self w p i x d :
  fq_inv self w p → prio_current p = Some (i, x) → pinfo p !! x = Some d →
  ∃ self' w' rc m, nn_pipe_recv w (ppipe d) = Ret (w', rc, m) ∧
    nn_fq_recv self w = Ret (self', w', unrelease rc, Some (ppipe d, m)) ∧
    0 ≤ unrelease rc ≤ NN_PIPE_PARSED ∧
    recvd w' = recvd w ++ [(ppipe d, m)] ∧ sent w' = sent w ∧ writable w' = writable w ∧
    readable w' = (if released rc then readable w ∖ {[ppipe d]} else readable w) ∧
    fq_inv self' w' (prio_advance p (released rc)).
Proof.
  intros (Hr & Hw & Hin) Hc Hd. destruct (prio_current_info _ _ _ _ Hr Hc) as [_ Hact].
  destruct (pipe_recv_ok w (ppipe d) Hw) as (w' & rc & m & Es & Hw' & Hrc & Hs & Hrv & Hwr & Hrd).
  { by eapply (proj1 Hin). }
  destruct (nn_priolist_advance_ok self p (released rc) i x Hr Hc) as (self' & Ea & Hr').
  exists self', w', rc, m. unfold nn_fq_recv. rewrite (getpipe_Some _ _ _ _ _ Hr Hc Hd). cbn.
  rewrite Es. cbn. rewrite (proj2 (Z.leb_le 0 rc)) by lia. cbn. rewrite Ea. cbn.
  assert (pipes_in (prio_advance p (released rc)) (readable w')) as Hin'.
  { rewrite Hwr. by eapply pipes_in_advance. }
  pose proof (unrelease_range rc Hrc). split_and!; try done; try lia; apply Hin'.
Qed.

(** C21: a load-balanced send goes to exactly one pipe, and to the best one.  When
    no pipe is active, [nn_lb_send] returns -EAGAIN and touches nothing.
    Otherwise the message is handed once to an active pipe of the highest
    priority among all active pipes, that pipe is reported to the caller, the
    result is 0, no pipe receives,
    and the invariant of the load balancer holds again. *)
Theorem lb_send_best self w p m :
  lb_inv self w p →
  (prio_current p = None ∧ nn_lb_send self w m = Ret (self, w, - EAGAIN, None)) ∨
  (∃ x d self' w' (r : bool), pinfo p !! x = Some d ∧ x ∉ pidle p ∧
     (∀ y dy, pinfo p !! y = Some dy → y ∉ pidle p → ppriority d ≤ ppriority dy) ∧
     nn_lb_send self w m = Ret (self', w', 0, Some (ppipe d)) ∧
     sent w' = sent w ++ [(ppipe d, m)] ∧ recvd w' = recvd w ∧
     writable w' = (if r then writable w ∖ {[ppipe d]} else writable w) ∧
     lb_inv self' w' (prio_advance p r)).
Proof.
  intros Hinv. pose proof Hinv as (Hr & _). destruct (prio_current p) as [[i x]|] eqn:Hc.
  - right. destruct (prio_current_info _ _ _ _ Hr Hc) as [[d Hd] Hx].
    destruct (nn_lb_send_current _ _ _ _ _ _ m Hinv Hc Hd)
      as (self' & w' & rc & _ & E & Hrc & Hs & Hrv & _ & Hwr & Hinv').
    rewrite Hrc in E. exists x, d, self', w', (released rc).
    split_and!; try done; try lia; try apply Hinv'. intros. by eapply prio_current_highest.
  - left. split; [done|]. unfold nn_lb_send. by rewrite (getpipe_None _ _ Hr Hc).
Qed.

(** *** Turns *)

Fixpoint lb_sends (self : nn_priolist T) (w : W) (ms : list M) :
    outcome (nn_priolist T * W) :=
  match ms with
  | [] => Ret (self, w)
  | m :: ms => '(self, w, rc, _) ← nn_lb_send self w m; nn_assert (0 <=? rc);; lb_sends self w ms
  end.

Fixpoint fq_recvs (self : nn_priolist T) (w : W) (n : nat) : outcome (nn_priolist T * W) :=
  match n with
  | O => Ret (self, w)
  | S n => '(self, w, rc, _) ← nn_fq_recv self w; nn_assert (0 <=? rc);; fq_recvs self w n
  end.

(** The pipes in the order of their turns. *)
Definition turns (p : prio) : list pid :=
  omap (λ x, ppipe <$> pinfo p !! x) (prio_ring p).

Lemma elem_of_head {A} (x : A) l : x ∈ x :: l.
Proof. apply elem_of_cons. by left. Qed.

Lemma turns_head p i x d :
  prio_current p = Some (i, x) → pinfo p !! x = Some d → ∃ l, turns p = ppipe d :: l.
Proof.
  intros Hc Hd. destruct (prio_ring_head _ _ _ Hc) as [r Hr]. unfold turns. rewrite Hr. cbn.
  rewrite Hd. by eexists.
Qed.

Lemma turns_advance self p i x :
  prep self p → prio_current p = Some (i, x) → turns (prio_advance p false) = rotate (turns p).
Proof.
  intros Hr Hc. destruct (prio_current_info _ _ _ _ Hr Hc) as [[d Hd] _].
  unfold turns. rewrite (prio_ring_advance _ _ _ Hc), prio_advance_info.
  destruct (prio_ring_head _ _ _ Hc) as [r ->]. cbn. rewrite Hd. cbn.
  rewrite omap_app. cbn. by rewrite Hd.
Qed.

Lemma turns_current self p q l :
  prep self p → turns p = q :: l →
  ∃ i x d, prio_current p = Some (i, x) ∧ pinfo p !! x = Some d ∧ ppipe d = q.
Proof.
  intros Hr Ht. destruct (prio_ring p) as [|x r] eqn:Er; [by unfold turns in Ht; rewrite Er in Ht|].
  destruct (prio_ring_current _ _ _ Er) as [i Hc].
  destruct (prio_current_info _ _ _ _ Hr Hc) as [[d Hd] _].
  exists i, x, d. unfold turns in Ht. rewrite Er in Ht. cbn in Ht. rewrite Hd in Ht.
  cbn in Ht. naive_solver.
Qed.

Lemma lb_sends_turns ms self w p l1 l2 :
  (∀ w q m w' rc, q ∈ l1 ++ l2 → nn_pipe_send w q m = Ret (w', rc) → released rc = false) →
  lb_inv self w p → turns p = l1 ++ l2 → length ms = length l1 →
  ∃ self' w' p', lb_sends self w ms = Ret (self', w') ∧ sent w' = sent w ++ zip l1 ms ∧
    lb_inv self' w' p' ∧ turns p' = l2 ++ l1.
Proof.
  revert self w p l1 l2. induction ms as [|m ms IH]; intros self w p [|q l1] l2 Hnr Hinv Ht Hl;
    try done; cbn in Hl.
  - exists self, w, p. rewrite !app_nil_r. split_and!; try done; apply Hinv.
  - destruct (turns_current _ _ _ _ (proj1 Hinv) Ht) as (i & x & d & Hc & Hd & <-).
    destruct (nn_lb_send_current _ _ _ _ _ _ m Hinv Hc Hd)
      as (self1 & w1 & rc & Es & E & Hrc & Hs & _ & _ & _ & Hinv1).
    assert (ppipe d ∈ (ppipe d :: l1) ++ l2) as Hq by apply elem_of_head.
    rewrite (Hnr _ _ _ _ _ Hq Es) in Hinv1. cbn. rewrite E. cbn.
    rewrite (proj2 (Z.leb_le 0 _)) by lia. cbn.
    destruct (IH self1 w1 (prio_advance p false) l1 (l2 ++ [ppipe d])) as (self' & w' & p' & E' & Hs' & Hinv' & Ht').
    { intros ? q ???. rewrite app_assoc. intros Hin. apply Hnr. set_solver. }
    { done. }
    { rewrite (turns_advance _ _ _ _ (proj1 Hinv) Hc), Ht. cbn. by rewrite <- app_assoc. }
    { lia. }
    exists self', w', p'. split; [exact E'|]. split; [by rewrite Hs', Hs, <- app_assoc|].
    split; [done|]. by rewrite Ht', <- app_assoc.
Qed.

Lemma fq_recvs_turns n self w p l1 l2 :
  (∀ w q w' rc m, q ∈ l1 ++ l2 → nn_pipe_recv w q = Ret (w', rc, m) → released rc = false) →
  fq_inv self w p → turns p = l1 ++ l2 → n = length l1 →
  ∃ self' w' p' ms, fq_recvs self w n = Ret (self', w') ∧ length ms = n ∧
    recvd w' = recvd w ++ zip l1 ms ∧ fq_inv self' w' p' ∧ turns p' = l2 ++ l1.
Proof.
  revert self w p l1 l2. induction n as [|n IH]; intros self w p [|q l1] l2 Hnr Hinv Ht Hl;
    try done; cbn in Hl.
  - exists self, w, p, []. rewrite !app_nil_r. split_and!; try done; apply Hinv.
  - destruct (turns_current _ _ _ _ (proj1 Hinv) Ht) as (i & x & d & Hc & Hd & <-).
    destruct (nn_fq_recv_current _ _ _ _ _ _ Hinv Hc Hd)
      as (self1 & w1 & rc & m & Es & E & Hrc & Hs & _ & _ & _ & Hinv1).
    assert (ppipe d ∈ (ppipe d :: l1) ++ l2) as Hq by apply elem_of_head.
    rewrite (Hnr _ _ _ _ _ Hq Es) in Hinv1. cbn. rewrite E. cbn.
    rewrite (proj2 (Z.leb_le 0 _)) by lia. cbn.
    destruct (IH self1 w1 (prio_advance p false) l1 (l2 ++ [ppipe d]))
      as (self' & w' & p' & ms & E' & Hl' & Hs' & Hinv' & Ht').
    { intros ? q ???. rewrite app_assoc. intros Hin. apply Hnr. set_solver. }
    { done. }
    { rewrite (turns_advance _ _ _ _ (proj1 Hinv) Hc), Ht. cbn. by rewrite <- app_assoc. }
    { lia. }
    exists self', w', p', (m :: ms). split; [exact E'|]. split; [by cbn; rewrite Hl'|].
    split; [by rewrite Hs', Hs, <- app_assoc|]. split; [done|]. by rewrite Ht', <- app_assoc.
Qed.

(** Load balancing is a round robin.  As long as no pipe is released, as many
    sends as there are pipes at the best priority hand one message to each of
    them, in the order of their turns, starting with the current one; then the
    turns are as before, so the pattern repeats. *)
Theorem lb_round_robin self w p ms :
  (∀ w q m w' rc, q ∈ turns p → nn_pipe_send w q m = Ret (w', rc) → released rc = false) →
  lb_inv self w p → length ms = length (turns p) →
  ∃ self' w' p', lb_sends self w ms = Ret (self', w') ∧
    sent w' = sent w ++ zip (turns p) ms ∧ lb_inv self' w' p' ∧ turns p' = turns p.
Proof.
  intros Hnr Hinv Hl. destruct (lb_sends_turns ms self w p (turns p) [])
    as (self' & w' & p' & ? & ? & ? & ?);
    [by rewrite app_nil_r|done|by rewrite app_nil_r|done|].
  by exists self', w', p'.
Qed.

(** C22: fair queuing is fair.  As long as no pipe runs dry, as many receives as
    there are readable pipes at the best priority take exactly one message from
    each of them, in the order of their turns, and leave the turns unchanged:
    no pipe can starve another one of its priority. *)
Theorem fq_fair self w p :
  (∀ w q w' rc m, q ∈ turns p → nn_pipe_recv w q = Ret (w', rc, m) → released rc = false) →
  fq_inv self w p →
  ∃ self' w' p' ms, fq_recvs self w (length (turns p)) = Ret (self', w') ∧
    length ms = length (turns p) ∧ recvd w' = recvd w ++ zip (turns p) ms ∧
    fq_inv self' w' p' ∧ turns p' = turns p.
Proof.
  intros Hnr Hinv. destruct (fq_recvs_turns (length (turns p)) self w p (turns p) [])
    as (self' & w' & p' & ms & ? & ? & ? & ? & ?);
    [by rewrite app_nil_r|done|by rewrite app_nil_r|done|].
  by exists self', w', p', ms.
Qed.

End calls.

(** ** Examples *)

Module LbSample.
Import Pipe.Sample.

(** Pipes 2 and 4 are idle in both directions, pipe 4 was activated last. *)
Definition base : nn_pipebase := Pipebase NN_PIPEBASE_STATE_ACTIVE IN_IDLE OUT_IDLE None opts.
Definition world : pworld tw := PWorld {[2%positive := base; 4%positive := base]} [] (Tw [] []).
Definition ops : list p_op :=
  let x1 := 1%positive in let x2 := 2%positive in
  [P_add x1 2 8; P_add x2 4 8; P_activate x1; P_activate x2].

Definition state : prio :=
  match spec_run p_spec prio_empty ops with Some (p, _) => p | None => prio_empty end.

Lemma pipes_in_check p ok :
  bool_decide (map_Forall (λ x d, x ∉ pidle p → ppipe d ∈ ok) (pinfo p) ∧
    map_Forall (λ x dx, map_Forall (λ y dy, ppipe dx = ppipe dy → x = y) (pinfo p)) (pinfo p)) = true →
  pipes_in p ok.
Proof. intros [H1 H2]%bool_decide_eq_true_1. split; [done|]. intros x y dx dy Hx Hy. by apply (H2 _ _ Hx _ _ Hy). Qed.

Lemma ops_run : ∃ self : nn_priolist Ptr.store,
  run p_exec (nn_priolist_init Ptr.empty_store) ops = Ret (self, [PUnit; PUnit; PUnit; PUnit]) ∧
  prep (H0 := Ptr.ptr_store_ok) self state.
Proof.
  destruct (p_run_ok (H0 := Ptr.ptr_store_ok) Ptr.empty_store _ ops state
    [PUnit; PUnit; PUnit; PUnit] Ptr.rep_empty eq_refl eq_refl) as (self & ? & ?);
    [vm_compute; reflexivity|]. by exists self.
Qed.

Lemma state_pipes : pipes_in state (out_idle world) ∧ pipes_in state (in_idle world).
Proof. split; apply pipes_in_check; vm_compute; reflexivity. Qed.

Lemma lb_sample_inv self : prep (H0 := Ptr.ptr_store_ok) self state →
  lb_inv (H0 := Ptr.ptr_store_ok) (M := Z) self world state ∧
  fq_inv (H0 := Ptr.ptr_store_ok) (M := Z) self world state.
Proof. intros Hr. by split; (split; [|split; [|apply state_pipes]]). Qed.

Lemma state_turns : turns state = [2; 4]%positive.
Proof. vm_compute. reflexivity. Qed.

Lemma even_send (w : pworld tw) q m w' rc :
  is_even q = true → nn_pipe_send w q m = Ret (w', rc) → released rc = false.
Proof.
  intros Hq E. cbn in E. pose proof E as E0. unfold nn_pipe_send_impl, get_base in E0. inv_ret.
  destruct (nn_pipe_send_impl_ok w q m _ ltac:(eassumption) ltac:(by eapply bool_decide_eq_true_1))
    as (t & sync & Ht & E1 & _).
  cbn in Ht. rewrite Hq in Ht. destruct sync; simplify_eq. rewrite E1 in E. by simplify_eq.
Qed.

Lemma even_recv (w : pworld tw) q w' rc m :
  is_even q = true → nn_pipe_recv w q = Ret (w', rc, m) → released rc = false.
Proof.
  intros Hq E. cbn in E. pose proof E as E0. unfold nn_pipe_recv_impl, get_base in E0. inv_ret.
  destruct (nn_pipe_recv_impl_ok w q _ ltac:(eassumption) ltac:(by eapply bool_decide_eq_true_1))
    as (t & rc0 & m0 & sync & Ht & _ & E1 & _).
  cbn in Ht. rewrite Hq in Ht. destruct sync; simplify_eq. rewrite E1 in E. by simplify_eq.
Qed.

Lemma turns_even q : q ∈ turns state → is_even q = true.
Proof. rewrite state_turns. rewrite !elem_of_cons. intros [-> |[-> |[]%not_elem_of_nil]]; done. Qed.

End LbSample.

Lemma lb_send_best_witness : ∃ self : nn_priolist Ptr.store,
  ∃ self' w', nn_lb_send self LbSample.world 7 = Ret (self', w', 0, Some 2%positive) ∧
    sent w' = [(2%positive, 7)].
Proof.
  destruct LbSample.ops_run as (self & _ & Hr). exists self.
  destruct (lb_send_best (H0 := Ptr.ptr_store_ok) self LbSample.world LbSample.state 7
    (proj1 (LbSample.lb_sample_inv _ Hr)))
    as [[Hc _]|(x & d & self' & w' & r & Hd & Hx & _ & E & Hs & _)];
    [vm_compute in Hc; discriminate Hc|].
  destruct (nn_lb_send_current (H0 := Ptr.ptr_store_ok) self LbSample.world LbSample.state 7 1%positive
    (PrioData 2 8) 7 (proj1 (LbSample.lb_sample_inv _ Hr))) as (? & ? & ? & _ & E' & H0 & _);
    [vm_compute; reflexivity|vm_compute; reflexivity|].
  rewrite E', H0 in E. injection E as <- <- Hp. eexists _, _. split; [rewrite E', H0; reflexivity|].
  rewrite Hs, <- Hp. reflexivity.
Defined.

Lemma lb_round_robin_witness : ∃ self self' : nn_priolist Ptr.store, ∃ w',
  lb_sends self LbSample.world [7; 8] = Ret (self', w') ∧
  sent w' = [(2%positive, 7); (4%positive, 8)].
Proof.
  destruct LbSample.ops_run as (self & _ & Hr).
  destruct (lb_round_robin (H0 := Ptr.ptr_store_ok) self LbSample.world LbSample.state [7; 8])
    as (self' & w' & _ & E & Hs & _).
  - intros w q m w' rc Hq. apply LbSample.even_send. by apply LbSample.turns_even.
  - exact (proj1 (LbSample.lb_sample_inv _ Hr)).
  - rewrite LbSample.state_turns. reflexivity.
  - exists self, self', w'. split; [exact E|]. rewrite Hs, LbSample.state_turns. reflexivity.
Defined.

Lemma fq_fair_witness : ∃ self self' : nn_priolist Ptr.store, ∃ w',
  fq_recvs self LbSample.world (M := Z) 2 = Ret (self', w') ∧ length (recvd w') = 2%nat.
Proof.
  destruct LbSample.ops_run as (self & _ & Hr).
  destruct (fq_fair (H0 := Ptr.ptr_store_ok) (M := Z) self LbSample.world LbSample.state)
    as (self' & w' & _ & ms & E & Hl & Hs & _).
  - intros w q w' rc m Hq. apply LbSample.even_recv. by apply LbSample.turns_even.
  - exact (proj2 (LbSample.lb_sample_inv _ Hr)).
  - rewrite LbSample.state_turns in E, Hs, Hl. exists self, self', w'. split; [exact E|].
    rewrite Hs. destruct ms as [|m1 [|m2 [|]]]; try discriminate Hl. reflexivity.
Defined.
