(* ===== verification/Chunk.v ===== *)
(** * utils/chunk.c: reference-counted message chunks

    A chunk is one block of memory: a header with the reference count and the
    size of the data, optional empty space, the length of that space and a tag
    in the 8 bytes before the data, and the data.  Code outside chunk.c holds
    pointers to the data only.  A pointer is a block and an offset into the
    bytes that follow the header, so that the tag, the empty space and the data
    are real bytes here and a damaged prefix has its consequences. *)
From S2P Require Import Prelude Wire.

Definition NN_CHUNK_TAG : Z := 0xdeadcafe.
Definition NN_CHUNK_TAG_DEALLOCATED : Z := 0xbeadfeed.

(** sizeof (struct nn_chunk) on a 64-bit host, and with the 8-byte prefix. *)
Definition sizeof_nn_chunk : Z := 24.
Definition nn_chunk_hdrsize : Z := sizeof_nn_chunk + 8.

Record nn_chunk := Chunk {
  refcount : Z;
  csize : Z;
  mem : list Z;       (* the bytes after the header *)
}.

Record heap := Heap { blocks : gmap positive nn_chunk; next_block : positive }.

(** A pointer into block [blk], [off] bytes after the chunk header. *)
Record ptr := Ptr { blk : positive; off : nat }.

Definition empty_heap : heap := Heap ∅ 1.

Section code.
(** The system's allocator: whether a request of [n] bytes succeeds, and what
    the bytes it returns contain. *)
Context (can_alloc : Z → bool) (junk : nat → Z).

Definition get_chunk (h : heap) (b : positive) : outcome nn_chunk := deref (blocks h !! b).
Definition set_chunk (h : heap) (b : positive) (c : nn_chunk) : heap :=
  Heap (<[b := c]> (blocks h)) (next_block h).

(** [nn_getl] and [nn_putl] at an offset of the block. *)
Definition getl_at (m : list Z) (o : nat) : outcome Z := nn_getl (drop o m).
Definition putl_at (m : list Z) (o : nat) (v : Z) : outcome (list Z) :=
  t ← nn_putl (drop o m) v; Ret (take o m ++ t).

(** Bytes [o, o + n) of a block, and overwriting bytes from [o] on. *)
Definition read_at (m : list Z) (o n : nat) : outcome (list Z) :=
  if decide (o + n ≤ length m)%nat then Ret (take n (drop o m)) else Fail Crash.
Definition write_at (m : list Z) (o : nat) (bs : list Z) : outcome (list Z) :=
  if decide (o + length bs ≤ length m)%nat
  then Ret (take o m ++ bs ++ drop (o + length bs) m) else Fail Crash.

(** [nn_chunk_getptr]: the chunk a data pointer belongs to.  Pointers below the
    block, or a chunk address other than that of the block, are wild. *)
Definition nn_chunk_getptr (h : heap) (p : ptr) : outcome nn_chunk :=
  c ← get_chunk h (blk p);
  if decide (8 ≤ off p)%nat then
    tag ← getl_at (mem c) (off p - 4);
    nn_assert (tag =? NN_CHUNK_TAG);;
    o ← getl_at (mem c) (off p - 8);
    if decide (Z.of_nat (off p) - 8 - o = 0) then Ret c else Fail Crash
  else Fail Crash.

Definition nn_chunk_getdata (b : positive) : ptr := Ptr b 8.

Definition nn_chunk_alloc (h : heap) (size type : Z) : outcome (heap * Z * option ptr) :=
  let sz := u64 (nn_chunk_hdrsize + size) in
  if sz <? nn_chunk_hdrsize then Ret (h, - ENOMEM, None)
  else if negb (type =? 0) then Ret (h, - EINVAL, None)
  else if negb (can_alloc sz) then Ret (h, - ENOMEM, None)
  else
    let b := next_block h in
    let m := junk <$> seq 0 (Z.to_nat (sz - sizeof_nn_chunk)) in
    m ← putl_at m 0 0;
    m ← putl_at m 4 NN_CHUNK_TAG;
    Ret (Heap (<[b := Chunk 1 size m]> (blocks h)) (Pos.succ b), 0, Some (nn_chunk_getdata b)).

Definition nn_chunk_free (h : heap) (p : ptr) : outcome heap :=
  c ← nn_chunk_getptr h p;
  let rc := refcount c in
  if rc <=? 1 then
    (* the tag is overwritten, then the block is released *)
    putl_at (mem c) (off p - 4) NN_CHUNK_TAG_DEALLOCATED;;
    Ret (Heap (delete (blk p) (blocks h)) (next_block h))
  else Ret (set_chunk h (blk p) (Chunk (u32 (rc - 1)) (csize c) (mem c))).

Definition nn_chunk_addref (h : heap) (p : ptr) (n : Z) : outcome heap :=
  c ← nn_chunk_getptr h p;
  Ret (set_chunk h (blk p) (Chunk (u32 (refcount c + n)) (csize c) (mem c))).

Definition nn_chunk_size (h : heap) (p : ptr) : outcome Z :=
  c ← nn_chunk_getptr h p; Ret (csize c).

(** [nn_chunk_trim]: moves the data pointer forward and writes a new prefix in
    front of it. *)
Definition nn_chunk_trim (h : heap) (p : ptr) (n : Z) : outcome (heap * ptr) :=
  c ← nn_chunk_getptr h p;
  nn_assert (n <=? csize c);;
  let p := Ptr (blk p) (off p + Z.to_nat n) in
  m ← putl_at (mem c) (off p - 4) NN_CHUNK_TAG;
  let empty_space := Z.of_nat (off p) - 8 in
  nn_assert (empty_space <? 2 ^ 32 - 1);;
  m ← putl_at m (off p - 8) (u32 empty_space);
  Ret (set_chunk h (blk p) (Chunk (refcount c) (csize c - n) m), p).

(** [nn_chunk_realloc]: the return code and the new value of [*chunk]. *)
Definition nn_chunk_realloc (h : heap) (size : Z) (p : ptr) : outcome (heap * Z * ptr) :=
  c ← nn_chunk_getptr h p;
  let copy_out :=
    '(h, rc, new_ptr) ← nn_chunk_alloc h size 0;
    if negb (rc =? 0) then Ret (h, rc, p)
    else
      q ← deref new_ptr;
      (* memcpy (new_ptr, nn_chunk_getdata (self), self->size) *)
      src ← read_at (mem c) (off (nn_chunk_getdata (blk p))) (Z.to_nat (csize c));
      d ← get_chunk h (blk q);
      m ← write_at (mem d) (off q) src;
      let h := set_chunk h (blk q) (Chunk (refcount d) (csize d) m) in
      h ← nn_chunk_free h p;
      Ret (h, 0, q) in
  if refcount c =? 1 then
    if size <=? csize c then
      Ret (set_chunk h (blk p) (Chunk (refcount c) size (mem c)), 0, p)
    else
      let empty := Z.of_nat (off p) - 8 in
      let grow := size - csize c in
      if u64 (nn_chunk_hdrsize + size) <? size then Ret (h, - ENOMEM, p)
      else if grow <=? empty then
        let new_off := (off p - Z.to_nat grow)%nat in
        data ← read_at (mem c) (off p) (Z.to_nat (csize c));
        m ← write_at (mem c) new_off data;
        m ← putl_at m (new_off - 4) NN_CHUNK_TAG;
        m ← putl_at m (new_off - 8) (u32 (Z.of_nat new_off - 8));
        (* "*chunk = p": the pointer is left unchanged *)
        Ret (set_chunk h (blk p) (Chunk (refcount c) size m), 0, p)
      else copy_out
  else copy_out.

End code.

#[local] Arguments be_split : simpl never.

(** ** Representation *)

(** [chunk_at h p data refs empty]: [p] points to [data] in a chunk with [refs]
    references and [empty] bytes of empty space. *)
Record chunk_at (h : heap) (p : ptr) (data : list Z) (refs : Z) (empty : nat) : Prop := {
  ca_chunk : ∃ pre tail, blocks h !! blk p =
    Some (Chunk refs (Z.of_nat (length data))
      (pre ++ be_split 4 (Z.of_nat empty) ++ be_split 4 NN_CHUNK_TAG ++ data ++ tail)) ∧
    length pre = empty;
  ca_off : off p = (empty + 8)%nat;
  ca_empty : Z.of_nat empty < 2 ^ 32 - 1;
  ca_refs : 1 ≤ refs < 2 ^ 32;
}.

Lemma drop_app_len {A} (l1 l2 : list A) n : n = length l1 → drop n (l1 ++ l2) = l2.
Proof. intros ->. apply drop_app_length. Qed.

Lemma take_app_len {A} (l1 l2 : list A) n : n = length l1 → take n (l1 ++ l2) = l1.
Proof. intros ->. apply take_app_length. Qed.

Lemma getl_at_split pre v rest o :
  o = length pre → 0 ≤ v < 2 ^ 32 → getl_at (pre ++ be_split 4 v ++ rest) o = Ret v.
Proof. intros Ho Hv. unfold getl_at. rewrite drop_app_len by done. by apply nn_getl_split. Qed.

Lemma putl_at_ok pre old rest v o :
  o = length pre → length old = 4%nat →
  putl_at (pre ++ old ++ rest) o v = Ret (pre ++ be_split 4 v ++ rest).
Proof.
  intros Ho Hold. unfold putl_at. rewrite drop_app_len, take_app_len by done.
  destruct old as [|a [|b [|c [|d [|]]]]]; try done. cbn [app]. by rewrite nn_putl_be.
Qed.

Lemma read_at_ok pre data rest o n :
  o = length pre → n = length data → read_at (pre ++ data ++ rest) o n = Ret data.
Proof.
  intros Ho Hn. unfold read_at. case_decide as Hd; [|rewrite !length_app in Hd; lia].
  by rewrite drop_app_len, take_app_len.
Qed.

Lemma write_at_ok pre old rest data o :
  o = length pre → length old = length data →
  write_at (pre ++ old ++ rest) o data = Ret (pre ++ data ++ rest).
Proof.
  intros Ho Hn. unfold write_at. case_decide as Hd; [|rewrite !length_app in Hd; lia].
  rewrite take_app_len by done. rewrite (app_assoc pre old), (drop_app_len (pre ++ old)); [done|].
  rewrite length_app. lia.
Qed.

Lemma tag_range : 0 ≤ NN_CHUNK_TAG < 2 ^ 32.
Proof. by vm_compute. Qed.

Lemma getptr_ok h p data refs empty :
  chunk_at h p data refs empty →
  ∃ pre tail, nn_chunk_getptr h p = Ret (Chunk refs (Z.of_nat (length data))
    (pre ++ be_split 4 (Z.of_nat empty) ++ be_split 4 NN_CHUNK_TAG ++ data ++ tail)) ∧
    blocks h !! blk p = Some (Chunk refs (Z.of_nat (length data))
    (pre ++ be_split 4 (Z.of_nat empty) ++ be_split 4 NN_CHUNK_TAG ++ data ++ tail)) ∧
    length pre = empty.
Proof.
  intros [(pre & tail & Hb & Hp) Ho He Hr]. exists pre, tail. split_and!; [|done..].
  set (m := pre ++ _) in *.
  assert (getl_at m (off p - 4) = Ret NN_CHUNK_TAG) as E1.
  { unfold m. rewrite (app_assoc pre). apply getl_at_split; [|apply tag_range].
    rewrite length_app, length_be_split. lia. }
  assert (getl_at m (off p - 8) = Ret (Z.of_nat empty)) as E2 by (apply getl_at_split; lia).
  unfold nn_chunk_getptr, get_chunk. rewrite Hb. step. cbn [mem].
  rewrite decide_True by lia. rewrite E1. step. rewrite Z.eqb_refl. step. rewrite E2. step.
  by rewrite decide_True by lia.
Qed.

Lemma nn_chunk_size_ok h p data refs empty :
  chunk_at h p data refs empty → nn_chunk_size h p = Ret (Z.of_nat (length data)).
Proof. intros Hc. unfold nn_chunk_size. by destruct (getptr_ok _ _ _ _ _ Hc) as (? & ? & -> & _). Qed.

Lemma chunk_at_set h p data refs empty pre tail :
  off p = (empty + 8)%nat → Z.of_nat empty < 2 ^ 32 - 1 → 1 ≤ refs < 2 ^ 32 → length pre = empty →
  chunk_at (set_chunk h (blk p) (Chunk refs (Z.of_nat (length data))
    (pre ++ be_split 4 (Z.of_nat empty) ++ be_split 4 NN_CHUNK_TAG ++ data ++ tail)))
    p data refs empty.
Proof.
  intros. split; [|done..]. exists pre, tail. cbn. by rewrite lookup_insert_eq.
Qed.

Lemma nn_chunk_addref_ok h p data refs empty n :
  chunk_at h p data refs empty → 0 ≤ n → refs + n < 2 ^ 32 →
  ∃ h', nn_chunk_addref h p n = Ret h' ∧ chunk_at h' p data (refs + n) empty ∧
    (∀ b, b ≠ blk p → blocks h' !! b = blocks h !! b).
Proof.
  intros Hc Hn Hr. destruct (getptr_ok _ _ _ _ _ Hc) as (pre & tail & E & _ & Hp).
  pose proof (ca_refs _ _ _ _ _ Hc). unfold nn_chunk_addref. rewrite E. step. cbn [refcount csize mem].
  eexists. split; [done|]. unfold u32. rewrite Z.mod_small by lia. split.
  - apply chunk_at_set; [apply Hc|apply Hc|lia|done].
  - intros b Hb. cbn. by rewrite lookup_insert_ne.
Qed.

Lemma nn_chunk_free_ok h p data refs empty :
  chunk_at h p data refs empty →
  ∃ h', nn_chunk_free h p = Ret h' ∧
    (refs = 1 → blocks h' !! blk p = None) ∧ (1 < refs → chunk_at h' p data (refs - 1) empty) ∧
    (∀ b, b ≠ blk p → blocks h' !! b = blocks h !! b).
Proof.
  intros Hc. destruct (getptr_ok _ _ _ _ _ Hc) as (pre & tail & E & _ & Hp).
  pose proof (ca_refs _ _ _ _ _ Hc). unfold nn_chunk_free. rewrite E. step. cbn [refcount csize mem].
  destruct (refs <=? 1) eqn:Er; [apply Z.leb_le in Er|apply Z.leb_gt in Er].
  - rewrite (app_assoc pre), putl_at_ok
      by (rewrite ?length_app, ?length_be_split, ?(ca_off _ _ _ _ _ Hc); lia || done).
    step. eexists. split; [done|]. split_and!; [intros; cbn; by rewrite lookup_delete_eq|lia|].
    intros b Hb. cbn. by rewrite lookup_delete_ne.
  - eexists. split; [done|]. split_and!; [lia| |intros b Hb; cbn; by rewrite lookup_insert_ne].
    intros _. unfold u32. rewrite Z.mod_small by lia.
    apply chunk_at_set; [apply Hc|apply Hc|lia|done].
Qed.

(** The bytes in front of the new data are the old prefix and trimmed data. *)
Lemma trim_split (old data tail : list Z) n :
  length old = 8%nat → (n ≤ length data)%nat → ∃ pre8 mid,
    old ++ data ++ tail = pre8 ++ mid ++ drop n data ++ tail ∧ length mid = 8%nat ∧ length pre8 = n.
Proof.
  intros Ho Hn. exists (take n (old ++ take n data)), (drop n (old ++ take n data)).
  split_and!.
  - rewrite !app_assoc. f_equal. rewrite take_drop. rewrite <- app_assoc. by rewrite take_drop.
  - rewrite length_drop, length_app, length_take. lia.
  - rewrite length_take, length_app, length_take. lia.
Qed.

Lemma nn_chunk_trim_ok h p data refs empty n :
  chunk_at h p data refs empty → (n ≤ length data)%nat → Z.of_nat (empty + n) < 2 ^ 32 - 1 →
  ∃ h', nn_chunk_trim h p (Z.of_nat n) = Ret (h', Ptr (blk p) (off p + n)) ∧
    chunk_at h' (Ptr (blk p) (off p + n)) (drop n data) refs (empty + n) ∧
    (∀ b, b ≠ blk p → blocks h' !! b = blocks h !! b).
Proof.
  intros Hc Hn He. destruct (getptr_ok _ _ _ _ _ Hc) as (pre & tail & E & _ & Hp).
  pose proof (ca_off _ _ _ _ _ Hc) as Ho.
  unfold nn_chunk_trim. rewrite E. step. cbn [refcount csize mem blk off].
  rewrite (proj2 (Z.leb_le _ _)) by lia. step. rewrite Nat2Z.id.
  destruct (trim_split (be_split 4 (Z.of_nat empty) ++ be_split 4 NN_CHUNK_TAG) data tail n)
    as (pre8 & mid & Hm & Hmid & Hpre); [by rewrite length_app, !length_be_split|done|].
  rewrite <- app_assoc in Hm. rewrite Hm.
  destruct mid as [|m0 [|m1 [|m2 [|m3 [|m4 [|m5 [|m6 [|m7 [|]]]]]]]]]; try done.
  change ([m0; m1; m2; m3; m4; m5; m6; m7]) with ([m0; m1; m2; m3] ++ [m4; m5; m6; m7]).
  rewrite <- app_assoc, (app_assoc pre pre8), (app_assoc (pre ++ pre8)).
  rewrite putl_at_ok by (rewrite ?length_app; cbn [length]; lia || done).
  step. rewrite (proj2 (Z.ltb_lt _ _)) by lia. step.
  replace (Z.of_nat (off p + n) - 8) with (Z.of_nat (empty + n)) by lia.
  unfold u32. rewrite Z.mod_small by lia. rewrite <- app_assoc.
  rewrite putl_at_ok by (rewrite ?length_app; cbn [length]; lia || done).
  step. eexists. split; [done|]. split.
  - replace (Z.of_nat (length data) - Z.of_nat n) with (Z.of_nat (length (drop n data)))
      by (rewrite length_drop; lia).
    apply (chunk_at_set h (Ptr (blk p) (off p + n))); cbn [off]; [lia|lia|apply Hc|].
    rewrite length_app. lia.
  - intros b Hb. cbn. by rewrite lookup_insert_ne.
Qed.

(** Blocks are allocated in increasing order and never reused. *)
Definition heap_ok (h : heap) : Prop := ∀ b, is_Some (blocks h !! b) → (b < next_block h)%positive.

Section alloc.
Context (can_alloc : Z → bool) (junk : nat → Z).

(** The bytes of a fresh chunk of [n] bytes. *)
Definition fresh_data (n : nat) : list Z := junk <$> seq 8 n.

Lemma nn_chunk_alloc_ok h size :
  heap_ok h → 0 ≤ size → nn_chunk_hdrsize + size < 2 ^ 64 → can_alloc (nn_chunk_hdrsize + size) = true →
  ∃ h', nn_chunk_alloc can_alloc junk h size 0 = Ret (h', 0, Some (Ptr (next_block h) 8)) ∧
    chunk_at h' (Ptr (next_block h) 8) (fresh_data (Z.to_nat size)) 1 0 ∧ heap_ok h' ∧
    next_block h' = Pos.succ (next_block h) ∧
    (∀ b, b ≠ next_block h → blocks h' !! b = blocks h !! b) ∧
    ∃ c, blocks h' !! next_block h = Some c ∧ length (mem c) = (8 + Z.to_nat size)%nat.
Proof.
  intros Hh Hs Hlt Ha. unfold nn_chunk_alloc. unfold nn_chunk_hdrsize, sizeof_nn_chunk in *.
  assert (u64 (24 + 8 + size) = 32 + size) as Hsz by (unfold u64; rewrite Z.mod_small; lia).
  rewrite Hsz. replace (24 + 8 + size) with (32 + size) in Ha by lia. rewrite Ha.
  rewrite (proj2 (Z.ltb_ge _ _)) by lia. cbn [negb Z.eqb].
  replace (Z.to_nat (32 + size - 24)) with (4 + (4 + Z.to_nat size))%nat by lia.
  rewrite seq_app, fmap_app, seq_app, fmap_app.
  pose proof (putl_at_ok [] (junk <$> seq 0 4)) as E1. cbn [app] in E1.
  rewrite E1 by (rewrite ?length_fmap, ?length_seq; done). step.
  rewrite (putl_at_ok (be_split 4 0) (junk <$> seq (0 + 4) 4))
    by (rewrite ?length_fmap, ?length_seq, ?length_be_split; done). step.
  eexists. split; [done|]. split_and!; cbn.
  - split; cbn; [|done|lia|lia].
    exists [], []. rewrite lookup_insert_eq. split; [|done]. rewrite app_nil_r. cbn [app].
    unfold fresh_data. rewrite length_fmap, length_seq, Z2Nat.id by lia. done.
  - intros b. cbn. intros [c [[<- _]|[_ Hb]]%lookup_insert_Some]; [lia|].
    specialize (Hh b (ex_intro _ c Hb)). lia.
  - done.
  - intros b Hb. by rewrite lookup_insert_ne.
  - rewrite lookup_insert_eq. eexists. split; [done|].
    cbn [mem]. by rewrite !length_app, !length_be_split, length_fmap, length_seq.
Qed.

Lemma chunk_at_frame h h' p data refs empty :
  chunk_at h p data refs empty → blocks h' !! blk p = blocks h !! blk p →
  chunk_at h' p data refs empty.
Proof. intros [Hb ???] He. split; [by rewrite He|done..]. Qed.

Lemma chunk_at_lt h p data refs empty :
  heap_ok h → chunk_at h p data refs empty → (blk p < next_block h)%positive.
Proof. intros Hh [(? & ? & Hb & _) _ _ _]. by apply Hh. Qed.

(** Reallocation of the only reference to at most the current size. *)
Lemma nn_chunk_realloc_shrink h p data empty n :
  chunk_at h p data 1 empty → (n ≤ length data)%nat →
  ∃ h', nn_chunk_realloc can_alloc junk h (Z.of_nat n) p = Ret (h', 0, p) ∧
    chunk_at h' p (take n data) 1 empty ∧ next_block h' = next_block h ∧
    (∀ b, b ≠ blk p → blocks h' !! b = blocks h !! b).
Proof.
  intros Hc Hn. destruct (getptr_ok _ _ _ _ _ Hc) as (pre & tail & E & _ & Hp).
  unfold nn_chunk_realloc. rewrite E. step. cbn [refcount csize mem Z.eqb Pos.eqb].
  rewrite (proj2 (Z.leb_le _ _)) by lia. eexists. split; [done|]. split.
  - rewrite <- (take_drop n data) at 1. rewrite <- (app_assoc (take n data)).
    replace (Z.of_nat n) with (Z.of_nat (length (take n data))) by (rewrite length_take; lia).
    apply chunk_at_set; [apply Hc|apply Hc|lia|done].
  - split; [done|]. intros b Hb. cbn. by rewrite lookup_insert_ne.
Qed.

(** Reallocation that has to copy: the data is shared or must grow, and was
    never trimmed. *)
Lemma nn_chunk_realloc_copy h p data refs n :
  heap_ok h → chunk_at h p data refs 0 → (length data ≤ n)%nat →
  (1 < refs ∨ (length data < n)%nat) → nn_chunk_hdrsize + Z.of_nat n < 2 ^ 64 →
  can_alloc (nn_chunk_hdrsize + Z.of_nat n) = true →
  ∃ h' q, nn_chunk_realloc can_alloc junk h (Z.of_nat n) p = Ret (h', 0, q) ∧ heap_ok h' ∧
    chunk_at h' q (data ++ drop (length data) (fresh_data n)) 1 0 ∧ blk q ≠ blk p ∧
    (refs = 1 → blocks h' !! blk p = None) ∧ (1 < refs → chunk_at h' p data (refs - 1) 0).
Proof.
  intros Hh Hc Hn Hgrow Hlt Ha. destruct (getptr_ok _ _ _ _ _ Hc) as (pre & tail & E & Hb & Hp).
  pose proof (chunk_at_lt _ _ _ _ _ Hh Hc) as Hblk. destruct pre; [|done]. cbn [app] in *.
  pose proof (ca_off _ _ _ _ _ Hc) as Hoff. pose proof (ca_refs _ _ _ _ _ Hc) as Hrefs.
  unfold nn_chunk_hdrsize, sizeof_nn_chunk in *.
  destruct (nn_chunk_alloc_ok h (Z.of_nat n) Hh ltac:(lia) Hlt Ha)
    as (h1 & Ea & Hc1 & Hh1 & Hnext & Hne1 & _). rewrite Nat2Z.id in Hc1.
  set (q := Ptr (next_block h) 8) in *.
  destruct (ca_chunk _ _ _ _ _ Hc1) as (pre1 & tail1 & Hb1 & Hp1).
  destruct pre1; [|done]. cbn [app] in Hb1.
  assert (length (fresh_data n) = n) as Hfn by (unfold fresh_data; by rewrite length_fmap, length_seq).
  unfold nn_chunk_realloc. rewrite E. step. cbn [refcount csize mem].
  match goal with |- context [if refs =? 1 then ?A else ?B] =>
    assert ((if refs =? 1 then A else B) = B) as -> end.
  { destruct (refs =? 1) eqn:Er; [|done]. apply Z.eqb_eq in Er. subst refs.
    rewrite (proj2 (Z.leb_gt _ _)) by lia. unfold nn_chunk_hdrsize, sizeof_nn_chunk, u64.
    rewrite Z.mod_small by lia. rewrite (proj2 (Z.ltb_ge _ _)) by lia.
    rewrite (proj2 (Z.leb_gt _ _)) by lia. done. }
  rewrite Ea. step. cbn [Z.eqb negb]. step.
  rewrite (app_assoc (be_split 4 (Z.of_nat 0))).
  rewrite read_at_ok by (rewrite ?length_app, ?length_be_split; cbn; lia). step.
  unfold get_chunk. rewrite Hb1. step. cbn [refcount csize mem].
  assert (write_at (be_split 4 (Z.of_nat 0) ++ be_split 4 NN_CHUNK_TAG ++ fresh_data n ++ tail1)
      (off q) data =
    Ret (be_split 4 (Z.of_nat 0) ++ be_split 4 NN_CHUNK_TAG ++
         data ++ drop (length data) (fresh_data n) ++ tail1)) as Ew.
  { pose proof (write_at_ok (be_split 4 (Z.of_nat 0) ++ be_split 4 NN_CHUNK_TAG)
      (take (length data) (fresh_data n)) (drop (length data) (fresh_data n) ++ tail1) data (off q)) as E'.
    rewrite (app_assoc (take _ _)), take_drop, <- !app_assoc in E'. apply E'; [done|].
    rewrite length_take. lia. }
  rewrite Ew. step.
  replace (Z.of_nat (length (fresh_data n))) with
    (Z.of_nat (length (data ++ drop (length data) (fresh_data n))))
    by (rewrite length_app, length_drop; lia).
  rewrite (app_assoc data).
  pose proof (chunk_at_set h1 q (data ++ drop (length data) (fresh_data n)) 1 0 [] tail1
    eq_refl ltac:(lia) ltac:(lia) eq_refl) as Hc2. cbn [app] in Hc2.
  set (h2 := set_chunk h1 (blk q) _) in *.
  assert (blk q ≠ blk p) as Hqp by (cbn; lia).
  assert (chunk_at h2 p data refs 0) as Hc2p.
  { eapply chunk_at_frame; [exact Hc|]. cbn. rewrite lookup_insert_ne by done. apply Hne1. lia. }
  destruct (nn_chunk_free_ok _ _ _ _ _ Hc2p) as (h3 & Ef & Hnone & Hdec & Hne3).
  rewrite Ef. step. exists h3, q. split; [done|].
  split_and!; [|by eapply chunk_at_frame; [|apply Hne3]|done..].
  (* freeing allocates nothing *)
  assert (next_block h3 = next_block h2 ∧ ∀ b, is_Some (blocks h3 !! b) → is_Some (blocks h2 !! b))
    as [Hnx Hdom].
  { unfold nn_chunk_free in Ef. inv_ret. destruct (refcount _ <=? 1); inv_ret; cbn; (split; [done|]);
      intros b; [rewrite lookup_delete_is_Some; naive_solver|].
    rewrite lookup_insert_is_Some'. intros [<-|]; [|done].
    destruct (ca_chunk _ _ _ _ _ Hc2p) as (? & ? & Hx & _). by eexists. }
  intros b Hsome. rewrite Hnx. apply Hdom in Hsome. cbn in Hsome |- *.
  rewrite lookup_insert_is_Some' in Hsome. destruct Hsome as [<-|Hsome]; [cbn; lia|by apply Hh1].
Qed.

End alloc.

(** ** Refinement: a chunk is a reference-counted byte string *)

Section refinement.
Context (can_alloc : Z → bool) (junk : nat → Z).

Inductive k_op :=
| K_addref (n : Z) | K_free | K_size | K_read | K_trim (n : nat) | K_realloc (n : nat).

Inductive k_res := KUnit | KSize (n : Z) | KData (bs : list Z) | KRc (rc : Z).

(** The data, the number of references, the trimmed bytes; [None] once the last
    reference is gone. *)
Record kspec := KSpec { kdata : list Z; krefs : Z; kempty : nat }.

Definition k_spec (σ : option kspec) (o : k_op) : option (option kspec * k_res) :=
  '(KSpec data refs empty) ← σ;
  match o with
  | K_addref n =>
      if decide (0 ≤ n ∧ refs + n < 2 ^ 32) then Some (Some (KSpec data (refs + n) empty), KUnit)
      else None
  | K_free =>
      Some (if decide (refs = 1) then None else Some (KSpec data (refs - 1) empty), KUnit)
  | K_size => Some (σ, KSize (Z.of_nat (length data)))
  | K_read => Some (σ, KData data)
  | K_trim n =>
      if decide ((n ≤ length data)%nat ∧ Z.of_nat (empty + n) < 2 ^ 32 - 1)
      then Some (Some (KSpec (drop n data) refs (empty + n)), KUnit) else None
  | K_realloc n =>
      if decide (refs = 1 ∧ (n ≤ length data)%nat)
      then Some (Some (KSpec (take n data) 1 empty), KRc 0)
      else if decide (empty = 0%nat ∧ (length data ≤ n)%nat ∧ nn_chunk_hdrsize + Z.of_nat n < 2 ^ 64)
      then Some (Some (KSpec (data ++ drop (length data) (fresh_data junk n)) 1 0), KRc 0)
      else None
  end.

Definition k_exec (hp : heap * ptr) (o : k_op) : outcome (heap * ptr * k_res) :=
  let '(h, p) := hp in
  match o with
  | K_addref n => h ← nn_chunk_addref h p n; Ret (h, p, KUnit)
  | K_free => h ← nn_chunk_free h p; Ret (h, p, KUnit)
  | K_size => n ← nn_chunk_size h p; Ret (h, p, KSize n)
  | K_read =>
      n ← nn_chunk_size h p; c ← get_chunk h (blk p);
      bs ← read_at (mem c) (off p) (Z.to_nat n); Ret (h, p, KData bs)
  | K_trim n => hp ← nn_chunk_trim h p (Z.of_nat n); Ret (hp, KUnit)
  | K_realloc n =>
      '(h, rc, p) ← nn_chunk_realloc can_alloc junk h (Z.of_nat n) p; Ret (h, p, KRc rc)
  end.

Definition k_inv (hp : heap * ptr) (σ : option kspec) : Prop :=
  heap_ok hp.1 ∧
  match σ with
  | Some (KSpec data refs empty) => chunk_at hp.1 hp.2 data refs empty
  | None => blocks hp.1 !! blk hp.2 = None
  end.

(** Blocks only come and go through [nn_chunk_alloc] and [nn_chunk_free]. *)
Lemma heap_ok_sub h h' :
  heap_ok h → next_block h' = next_block h →
  (∀ b, is_Some (blocks h' !! b) → is_Some (blocks h !! b)) → heap_ok h'.
Proof. intros Hh Hn Hs b Hb. rewrite Hn. by apply Hh, Hs. Qed.

Lemma heap_ok_set h b c : heap_ok h → is_Some (blocks h !! b) → heap_ok (set_chunk h b c).
Proof.
  intros Hh Hb. apply (heap_ok_sub h); [done..|]. intros b'. cbn.
  rewrite lookup_insert_is_Some'. by intros [<-|].
Qed.

Lemma heap_ok_delete h b : heap_ok h → heap_ok (Heap (delete b (blocks h)) (next_block h)).
Proof.
  intros Hh. apply (heap_ok_sub h); [done..|]. intros b'. cbn.
  rewrite lookup_delete_is_Some. naive_solver.
Qed.

Lemma chunk_at_some h p data refs empty : chunk_at h p data refs empty → is_Some (blocks h !! blk p).
Proof. intros [(? & ? & -> & _) _ _ _]. by eexists. Qed.

Lemma heap_ok_ops h p data refs empty :
  heap_ok h → chunk_at h p data refs empty →
  (∀ n h', nn_chunk_addref h p n = Ret h' → heap_ok h') ∧
  (∀ h', nn_chunk_free h p = Ret h' → heap_ok h') ∧
  (∀ n h' p', nn_chunk_trim h p n = Ret (h', p') → heap_ok h').
Proof.
  intros Hh Hc%chunk_at_some. split_and!.
  - unfold nn_chunk_addref. intros n h' E. inv_ret. by apply heap_ok_set.
  - unfold nn_chunk_free. intros h' E. inv_ret. destruct (_ <=? 1); inv_ret;
      [by apply heap_ok_delete|by apply heap_ok_set].
  - unfold nn_chunk_trim. intros n h' p' E. inv_ret. by apply heap_ok_set.
Qed.

Lemma k_exec_ok (Ha : ∀ z, can_alloc z = true) hp σ o σ' r :
  k_inv hp σ → k_spec σ o = Some (σ', r) → ∃ hp', k_exec hp o = Ret (hp', r) ∧ k_inv hp' σ'.
Proof.
  destruct hp as [h p], σ as [[data refs empty]|]; [|done]. intros [Hh Hc]. cbn in Hh, Hc.
  destruct (heap_ok_ops _ _ _ _ _ Hh Hc) as (Hoa & Hof & Hot).
  destruct o as [n| | | |n|n]; cbn -[decide Z.pow nn_chunk_hdrsize].
  - case_decide as Hd; [|done]. intros [= <- <-]. destruct Hd as [Hd1 Hd2].
    destruct (nn_chunk_addref_ok _ _ _ _ _ n Hc Hd1 Hd2) as (h' & E & ? & _). rewrite E.
    eexists. split; [done|]. split; [by eapply Hoa|done].
  - intros [= <- <-]. destruct (nn_chunk_free_ok _ _ _ _ _ Hc) as (h' & E & Hn & Hd & _). rewrite E.
    eexists. split; [done|]. split; [by eapply Hof|]. pose proof (ca_refs _ _ _ _ _ Hc).
    case_decide; cbn; [by apply Hn|]. apply Hd. lia.
  - intros [= <- <-]. rewrite (nn_chunk_size_ok _ _ _ _ _ Hc). by eexists.
  - intros [= <- <-]. rewrite (nn_chunk_size_ok _ _ _ _ _ Hc). step.
    destruct (ca_chunk _ _ _ _ _ Hc) as (pre & tail & Hb & Hp). unfold get_chunk. rewrite Hb. step.
    cbn [mem]. rewrite (app_assoc _ _ (data ++ tail)), (app_assoc pre).
    rewrite read_at_ok by (rewrite ?length_app, ?length_be_split, ?(ca_off _ _ _ _ _ Hc); lia).
    by eexists.
  - case_decide as Hd; [|done]. intros [= <- <-]. destruct Hd as [Hd1 Hd2].
    destruct (nn_chunk_trim_ok _ _ _ _ _ n Hc Hd1 Hd2) as (h' & E & ? & _). rewrite E.
    eexists. split; [done|]. split; [by eapply Hot|done].
  - case_decide as Hd; [intros [= <- <-]|case_decide as Hd'; [intros [= <- <-]|done]].
    + destruct Hd as [-> Hd].
      destruct (nn_chunk_realloc_shrink can_alloc junk _ _ _ _ n Hc Hd) as (h' & E & Hc' & Hnx & Hne).
      rewrite E. eexists. split; [done|]. split; [|done]. apply (heap_ok_sub h); [done..|].
      intros b Hb. destruct (decide (b = blk p)) as [->|]; [by eapply chunk_at_some|].
      by rewrite <- Hne.
    + destruct Hd' as (-> & Hd1 & Hd2). pose proof (ca_refs _ _ _ _ _ Hc).
      destruct (nn_chunk_realloc_copy can_alloc junk h p data refs n) as (h' & q & E & ? & ? & _);
        [done|done|done|lia|done|done|]. rewrite E. eexists. by split; [|split].
Qed.

(** C38: chunk.c implements a reference-counted byte string.  Starting from a
    fresh chunk, any sequence of taking and dropping references, reading,
    trimming from the front, and reallocating in one of two ways (shrinking the only
    reference, and growing or unsharing a chunk that was not trimmed) returns the
    bytes, sizes and codes of the string: the tag and length in front of the data
    stay consistent, every access stays inside its block, and the block disappears
    exactly when as many references were dropped as were taken.  Memory is available,
    and reference counts, trimmed and allocated sizes fit their fields.  The other
    uses of nn_chunk_realloc are left out, because the code gets them wrong: growing
    or unsharing a trimmed chunk ([chunk_realloc_grow_aborts]) and shrinking a shared
    one ([chunk_realloc_shared_overflow]). *)
Theorem chunk_refinement size os σ rs :
  (∀ z, can_alloc z = true) → nn_chunk_hdrsize + Z.of_nat size < 2 ^ 64 →
  spec_run k_spec (Some (KSpec (fresh_data junk size) 1 0)) os = Some (σ, rs) →
  ∃ h p h' p', nn_chunk_alloc can_alloc junk empty_heap (Z.of_nat size) 0 = Ret (h, 0, Some p) ∧
    run k_exec (h, p) os = Ret (h', p', rs) ∧
    (σ = None → blocks h' !! blk p' = None) ∧
    (∀ s, σ = Some s → chunk_at h' p' (kdata s) (krefs s) (kempty s)).
Proof.
  intros Ha Hlt Hs.
  destruct (nn_chunk_alloc_ok can_alloc junk empty_heap (Z.of_nat size))
    as (h & E & Hc & Hh & _); [by intros b [c Hb]|lia|lia|apply Ha|].
  rewrite Nat2Z.id in Hc.
  assert (k_inv (h, Ptr 1 8) (Some (KSpec (fresh_data junk size) 1 0))) as Hinv by done.
  destruct (run_refines k_inv _ _ (k_exec_ok Ha) _ _ _ _ _ Hinv Hs) as ([h' p'] & Er & Hh' & Hσ).
  exists h, (Ptr 1 8), h', p'. split_and!; [done|done|by intros ->|]. by intros [] ->.
Qed.

End refinement.

Lemma chunk_refinement_witness :
  ∃ h p h' p', nn_chunk_alloc (λ _, true) Z.of_nat empty_heap 6 0 = Ret (h, 0, Some p) ∧
    run (k_exec (λ _, true) Z.of_nat) (h, p)
      [K_read; K_addref 1; K_free; K_trim 2; K_read; K_realloc 3; K_read; K_free] =
    Ret (h', p', [KData [8; 9; 10; 11; 12; 13]; KUnit; KUnit; KUnit; KData [10; 11; 12; 13];
                  KRc 0; KData [10; 11; 12]; KUnit]) ∧ blocks h' !! blk p' = None.
Proof.
  set (os := [_; _; _; _; _; _; _; _]).
  destruct (spec_run (k_spec Z.of_nat) (Some (KSpec (fresh_data Z.of_nat 6) 1 0)) os) as [[σ rs]|] eqn:E;
    [|vm_compute in E; discriminate E].
  destruct (chunk_refinement (λ _, true) Z.of_nat 6 os σ rs) as (h & p & h' & p' & E1 & E2 & E3 & _);
    [done|by vm_compute|exact E|].
  vm_compute in E. injection E as <- <-. exists h, p, h', p'. auto.
Defined.

(** ** What the code does outside that contract *)

(** Growing into the empty space of a trimmed chunk succeeds, but leaves the
    caller's pointer where it was while the data, and with it the tag, moved:
    the next use of the pointer aborts. *)
Definition grow_trimmed : outcome (heap * Z * ptr) :=
  '(h, _, p) ← nn_chunk_alloc (λ _, true) Z.of_nat empty_heap 16 0;
  p ← deref p;
  '(h, p) ← nn_chunk_trim h p 8;
  nn_chunk_realloc (λ _, true) Z.of_nat h 12 p.

Lemma chunk_realloc_grow_aborts :
  (∃ h p, grow_trimmed = Ret (h, 0, p)) ∧
  ('(h, _, p) ← grow_trimmed; nn_chunk_size h p) = Fail Abort.
Proof.
  split; [|vm_compute; reflexivity].
  destruct (ret_check_ok (λ hrp, hrp.1.2 =? 0) grow_trimmed) as ([[h rc] p] & E & Hrc);
    [vm_compute; reflexivity|]. cbn in Hrc. apply Z.eqb_eq in Hrc as ->. by exists h, p.
Qed.

(** Reallocating a shared chunk to fewer bytes writes past the new block. *)
Lemma chunk_realloc_shared_overflow can_alloc junk h p data refs n :
  heap_ok h → chunk_at h p data refs 0 → 1 < refs → (n < length data)%nat →
  nn_chunk_hdrsize + Z.of_nat n < 2 ^ 64 → can_alloc (nn_chunk_hdrsize + Z.of_nat n) = true →
  nn_chunk_realloc can_alloc junk h (Z.of_nat n) p = Fail Crash.
Proof.
  intros Hh Hc Hr Hn Hlt Ha. destruct (getptr_ok _ _ _ _ _ Hc) as (pre & tail & E & Hb & Hp).
  destruct pre; [|done]. cbn [app] in *.
  destruct (nn_chunk_alloc_ok can_alloc junk h (Z.of_nat n) Hh ltac:(lia) Hlt Ha)
    as (h1 & Ea & _ & _ & _ & _ & c & Hb1 & Hlen).
  unfold nn_chunk_realloc. rewrite E. step. cbn [refcount csize mem].
  rewrite (proj2 (Z.eqb_neq _ _)) by lia. rewrite Ea. step. cbn [Z.eqb negb]. step.
  rewrite (app_assoc (be_split 4 (Z.of_nat 0))).
  rewrite read_at_ok by (rewrite ?length_app, ?length_be_split; cbn; lia). step.
  unfold get_chunk. cbn [blk]. rewrite Hb1. step. unfold write_at. cbn [off].
  rewrite decide_False; [done|]. rewrite Hlen. lia.
Qed.
