(* ===== verification/Msg.v ===== *)
(** * utils/chunkref.c and utils/msg.c: message parts and messages

    A chunkref holds up to 31 bytes in place, or points to a chunk.  A message
    is three chunkrefs.  The first half is the code over the heap of chunks;
    [MsgOps] is what distributors of messages need from it.  The second half is
    the value of a message, on which the protocols are modelled: [msg_val]
    relates the two. *)
From S2P Require Import Prelude Wire Chunk.

Definition NN_CHUNKREF_MAX : Z := 32.

(** The union of chunkref.h: the first byte is the size of the bytes stored in
    place, or 0xff for a pointer to a chunk. *)
Inductive nn_chunkref := Vsm (bs : list Z) | Ref (p : ptr).

Record nn_msg := NnMsg { r_sphdr : nn_chunkref; r_hdrs : nn_chunkref; r_body : nn_chunkref }.

Section code.
Context (can_alloc : Z → bool) (junk : nat → Z).

Definition nn_chunkref_init (h : heap) (size : Z) : outcome (heap * nn_chunkref) :=
  if size <? NN_CHUNKREF_MAX then Ret (h, Vsm (junk <$> seq 0 (Z.to_nat size)))
  else
    '(h, rc, p) ← nn_chunk_alloc can_alloc junk h size 0;
    nn_assert (rc =? 0);;
    p ← deref p;
    Ret (h, Ref p).

Definition nn_chunkref_init_chunk (p : ptr) : nn_chunkref := Ref p.

Definition nn_chunkref_term (h : heap) (self : nn_chunkref) : outcome heap :=
  match self with Ref p => nn_chunk_free h p | Vsm _ => Ret h end.

(** Returns the chunk; the chunkref is empty afterwards. *)
Definition nn_chunkref_getchunk (h : heap) (self : nn_chunkref) :
    outcome (heap * ptr * nn_chunkref) :=
  match self with
  | Ref p => Ret (h, p, Vsm [])
  | Vsm bs =>
      '(h, rc, p) ← nn_chunk_alloc can_alloc junk h (Z.of_nat (length bs)) 0;
      nn_assert (rc =? 0);;
      p ← deref p;
      c ← get_chunk h (blk p);
      m ← write_at (mem c) (off p) bs;
      Ret (set_chunk h (blk p) (Chunk (refcount c) (csize c) m), p, Vsm [])
  end.

(** The bytes of the union are copied; [src] must not be used afterwards. *)
Definition nn_chunkref_mv (src : nn_chunkref) : nn_chunkref := src.

Definition nn_chunkref_cp (h : heap) (src : nn_chunkref) : outcome (heap * nn_chunkref) :=
  match src with
  | Ref p => h ← nn_chunk_addref h p 1; Ret (h, src)
  | Vsm _ => Ret (h, src)
  end.

(** The bytes [nn_chunkref_data] points to, up to [nn_chunkref_size]. *)
Definition nn_chunkref_data (h : heap) (self : nn_chunkref) : outcome (list Z) :=
  match self with
  | Ref p => n ← nn_chunk_size h p; c ← get_chunk h (blk p); read_at (mem c) (off p) (Z.to_nat n)
  | Vsm bs => Ret bs
  end.

Definition nn_chunkref_size (h : heap) (self : nn_chunkref) : outcome Z :=
  match self with Ref p => nn_chunk_size h p | Vsm bs => Ret (Z.of_nat (length bs)) end.

Definition nn_chunkref_trim (h : heap) (self : nn_chunkref) (n : Z) :
    outcome (heap * nn_chunkref) :=
  match self with
  | Ref p => '(h, p) ← nn_chunk_trim h p n; Ret (h, Ref p)
  | Vsm bs => nn_assert (n <=? Z.of_nat (length bs));; Ret (h, Vsm (drop (Z.to_nat n) bs))
  end.

Definition nn_chunkref_bulkcopy_start (h : heap) (self : nn_chunkref) (copies : Z) : outcome heap :=
  match self with Ref p => nn_chunk_addref h p copies | Vsm _ => Ret h end.

Definition nn_chunkref_bulkcopy_cp (src : nn_chunkref) : nn_chunkref := src.

Definition nn_msg_init (h : heap) (size : Z) : outcome (heap * nn_msg) :=
  '(h, sp) ← nn_chunkref_init h 0; '(h, hd) ← nn_chunkref_init h 0;
  '(h, bd) ← nn_chunkref_init h size; Ret (h, NnMsg sp hd bd).

Definition nn_msg_init_chunk (h : heap) (p : ptr) : outcome (heap * nn_msg) :=
  '(h, sp) ← nn_chunkref_init h 0; '(h, hd) ← nn_chunkref_init h 0;
  Ret (h, NnMsg sp hd (nn_chunkref_init_chunk p)).

Definition nn_msg_term (h : heap) (m : nn_msg) : outcome heap :=
  h ← nn_chunkref_term h (r_sphdr m); h ← nn_chunkref_term h (r_hdrs m);
  nn_chunkref_term h (r_body m).

Definition nn_msg_mv (src : nn_msg) : nn_msg :=
  NnMsg (nn_chunkref_mv (r_sphdr src)) (nn_chunkref_mv (r_hdrs src)) (nn_chunkref_mv (r_body src)).

Definition nn_msg_cp (h : heap) (src : nn_msg) : outcome (heap * nn_msg) :=
  '(h, sp) ← nn_chunkref_cp h (r_sphdr src); '(h, hd) ← nn_chunkref_cp h (r_hdrs src);
  '(h, bd) ← nn_chunkref_cp h (r_body src); Ret (h, NnMsg sp hd bd).

Definition nn_msg_bulkcopy_start (h : heap) (m : nn_msg) (copies : Z) : outcome heap :=
  h ← nn_chunkref_bulkcopy_start h (r_sphdr m) copies;
  h ← nn_chunkref_bulkcopy_start h (r_hdrs m) copies;
  nn_chunkref_bulkcopy_start h (r_body m) copies.

Definition nn_msg_bulkcopy_cp (src : nn_msg) : nn_msg :=
  NnMsg (nn_chunkref_bulkcopy_cp (r_sphdr src)) (nn_chunkref_bulkcopy_cp (r_hdrs src))
        (nn_chunkref_bulkcopy_cp (r_body src)).

Definition nn_msg_replace_body (h : heap) (m : nn_msg) (new_body : nn_chunkref) :
    outcome (heap * nn_msg) :=
  h ← nn_chunkref_term h (r_body m); Ret (h, NnMsg (r_sphdr m) (r_hdrs m) new_body).

End code.

(** ** The interface of message distributors *)

Class MsgOps (H M : Type) := {
  msg_term : H → M → outcome H;
  msg_bulkcopy_start : H → M → Z → outcome H;
  msg_bulkcopy_cp : M → M;
}.

(** [msg_live h m n]: [m] is a message with [n] references left, that is [n]
    copies are still to be terminated. *)
Class MsgOpsOk (H M : Type) `{MsgOps H M} := {
  msg_live : H → M → Z → Prop;
  msg_gone : H → M → Prop;
  msg_cp_ok m : msg_bulkcopy_cp m = m;
  msg_bulk_ok h m n k :
    msg_live h m n → 0 ≤ k → n + k < 2 ^ 32 →
    ∃ h', msg_bulkcopy_start h m k = Ret h' ∧ msg_live h' m (n + k);
  msg_term_ok h m n :
    msg_live h m n →
    ∃ h', msg_term h m = Ret h' ∧
      (n = 1 → msg_gone h' m) ∧ (1 < n → msg_live h' m (n - 1));
}.

#[global] Instance nn_msg_ops : MsgOps heap nn_msg := {
  msg_term := nn_msg_term;
  msg_bulkcopy_start := nn_msg_bulkcopy_start;
  msg_bulkcopy_cp := nn_msg_bulkcopy_cp;
}.

(** ** The value of a message *)

Definition cref_at (h : heap) (r : nn_chunkref) (data : list Z) (refs : Z) : Prop :=
  match r with
  | Vsm bs => bs = data
  | Ref p => ∃ empty, chunk_at h p data refs empty
  end.

(** Two parts of a message never share a block. *)
Definition apart (r1 r2 : nn_chunkref) : Prop :=
  match r1, r2 with Ref p, Ref q => blk p ≠ blk q | _, _ => True end.

Definition gone_part (h : heap) (r : nn_chunkref) : Prop :=
  match r with Ref p => blocks h !! blk p = None | Vsm _ => True end.

Record parts_ok (m : nn_msg) : Prop := {
  parts_12 : apart (r_sphdr m) (r_hdrs m);
  parts_13 : apart (r_sphdr m) (r_body m);
  parts_23 : apart (r_hdrs m) (r_body m);
}.

Definition msg_val (h : heap) (m : nn_msg) (sp hd bd : list Z) (refs : Z) : Prop :=
  1 ≤ refs < 2 ^ 32 ∧ parts_ok m ∧
  cref_at h (r_sphdr m) sp refs ∧ cref_at h (r_hdrs m) hd refs ∧ cref_at h (r_body m) bd refs.

(** Operations on one part leave the other parts alone. *)
Lemma cref_at_frame h h' r r' data refs :
  apart r r' → cref_at h r' data refs →
  (∀ b, match r with Ref p => b ≠ blk p | Vsm _ => True end → blocks h' !! b = blocks h !! b) →
  cref_at h' r' data refs.
Proof.
  destruct r' as [bs|q]; cbn; [done|]. intros Ha [e Hc] Hf. exists e.
  eapply chunk_at_frame; [exact Hc|]. apply Hf. destruct r; cbn in Ha; done.
Qed.

Lemma cref_bulk_ok h r data refs k :
  cref_at h r data refs → 0 ≤ k → refs + k < 2 ^ 32 →
  ∃ h', nn_chunkref_bulkcopy_start h r k = Ret h' ∧ cref_at h' r data (refs + k) ∧
    (∀ b, match r with Ref p => b ≠ blk p | Vsm _ => True end → blocks h' !! b = blocks h !! b).
Proof.
  destruct r as [bs|p]; cbn; [intros; by exists h|]. intros [e Hc] Hk Hr.
  destruct (nn_chunk_addref_ok _ _ _ _ _ k Hc Hk Hr) as (h' & E & Hc' & Hf).
  exists h'. split_and!; [done|by exists e|done].
Qed.

Lemma cref_term_ok h r data refs :
  cref_at h r data refs →
  ∃ h', nn_chunkref_term h r = Ret h' ∧
    (refs = 1 → gone_part h' r) ∧ (1 < refs → cref_at h' r data (refs - 1)) ∧
    (∀ b, match r with Ref p => b ≠ blk p | Vsm _ => True end → blocks h' !! b = blocks h !! b).
Proof.
  destruct r as [bs|p]; cbn; [intros; by exists h|]. intros [e Hc].
  destruct (nn_chunk_free_ok _ _ _ _ _ Hc) as (h' & E & Hn & Hd & Hf).
  exists h'. split_and!; [done|done| |done]. intros. exists e. by apply Hd.
Qed.

Lemma gone_frame h h' r r' :
  apart r r' → gone_part h r' →
  (∀ b, match r with Ref p => b ≠ blk p | Vsm _ => True end → blocks h' !! b = blocks h !! b) →
  gone_part h' r'.
Proof.
  destruct r' as [bs|q]; cbn; [done|]. intros Ha Hc Hf. rewrite Hf; [done|].
  destruct r; cbn in Ha; done.
Qed.

Lemma apart_sym r1 r2 : apart r1 r2 → apart r2 r1.
Proof. destruct r1, r2; cbn; auto. Qed.

Lemma msg_bulk_val h m sp hd bd refs k :
  msg_val h m sp hd bd refs → 0 ≤ k → refs + k < 2 ^ 32 →
  ∃ h', nn_msg_bulkcopy_start h m k = Ret h' ∧ msg_val h' m sp hd bd (refs + k).
Proof.
  intros (Hr & Hp & H1 & H2 & H3) Hk Hlt. unfold nn_msg_bulkcopy_start.
  destruct (cref_bulk_ok _ _ _ _ k H1 Hk Hlt) as (h1 & -> & H1' & F1). step.
  pose proof (cref_at_frame _ _ _ _ _ _ (parts_12 _ Hp) H2 F1) as H2'.
  pose proof (cref_at_frame _ _ _ _ _ _ (parts_13 _ Hp) H3 F1) as H3'.
  destruct (cref_bulk_ok _ _ _ _ k H2' Hk Hlt) as (h2 & -> & H2'' & F2). step.
  pose proof (cref_at_frame _ _ _ _ _ _ (apart_sym _ _ (parts_12 _ Hp)) H1' F2) as H1''.
  pose proof (cref_at_frame _ _ _ _ _ _ (parts_23 _ Hp) H3' F2) as H3''.
  destruct (cref_bulk_ok _ _ _ _ k H3'' Hk Hlt) as (h3 & -> & H3''' & F3).
  exists h3. split; [done|]. split_and!; [lia..|done| | |done].
  - by eapply (cref_at_frame _ _ _ _ _ _ (apart_sym _ _ (parts_13 _ Hp))).
  - by eapply (cref_at_frame _ _ _ _ _ _ (apart_sym _ _ (parts_23 _ Hp))).
Qed.

Lemma msg_term_val h m sp hd bd refs :
  msg_val h m sp hd bd refs →
  ∃ h', nn_msg_term h m = Ret h' ∧
    (refs = 1 → gone_part h' (r_sphdr m) ∧ gone_part h' (r_hdrs m) ∧ gone_part h' (r_body m)) ∧
    (1 < refs → msg_val h' m sp hd bd (refs - 1)).
Proof.
  intros (Hr & Hp & H1 & H2 & H3). unfold nn_msg_term.
  destruct (cref_term_ok _ _ _ _ H1) as (h1 & -> & G1 & D1 & F1). step.
  pose proof (cref_at_frame _ _ _ _ _ _ (parts_12 _ Hp) H2 F1) as H2'.
  pose proof (cref_at_frame _ _ _ _ _ _ (parts_13 _ Hp) H3 F1) as H3'.
  destruct (cref_term_ok _ _ _ _ H2') as (h2 & -> & G2 & D2 & F2). step.
  pose proof (cref_at_frame _ _ _ _ _ _ (parts_23 _ Hp) H3' F2) as H3''.
  destruct (cref_term_ok _ _ _ _ H3'') as (h3 & -> & G3 & D3 & F3).
  pose proof (parts_12 _ Hp) as P12%apart_sym. pose proof (parts_13 _ Hp) as P13%apart_sym.
  pose proof (parts_23 _ Hp) as P23%apart_sym.
  exists h3. split; [done|]. split.
  - intros E. split_and!; [|by eapply gone_frame, F3; [|apply G2]|by apply G3].
    eapply gone_frame; [exact P13| |exact F3]. eapply gone_frame; [exact P12|by apply G1|exact F2].
  - intros E. split_and!; [lia..|done| | |by apply D3].
    + eapply cref_at_frame; [exact P13| |exact F3]. eapply cref_at_frame; [exact P12|by apply D1|exact F2].
    + eapply cref_at_frame; [exact P23|by apply D2|exact F3].
Qed.

#[global] Program Instance nn_msg_ops_ok : MsgOpsOk heap nn_msg := {|
  msg_live h m n := ∃ sp hd bd, msg_val h m sp hd bd n;
  msg_gone h m := gone_part h (r_sphdr m) ∧ gone_part h (r_hdrs m) ∧ gone_part h (r_body m);
|}.
Next Obligation. by intros []. Qed.
Next Obligation.
  intros h m n k (sp & hd & bd & Hv) Hk Hlt.
  destruct (msg_bulk_val _ _ _ _ _ _ k Hv Hk Hlt) as (h' & ? & ?). exists h'. eauto.
Qed.
Next Obligation.
  intros h m n (sp & hd & bd & Hv).
  destruct (msg_term_val _ _ _ _ _ _ Hv) as (h' & ? & ? & ?). exists h'. eauto 8.
Qed.

Fixpoint terms `{MsgOps H M} (h : H) (m : M) (n : nat) : outcome H :=
  match n with O => Ret h | S n => h ← msg_term h m; terms h m n end.

Lemma terms_ok `{MsgOpsOk H M} h m n (k : nat) :
  msg_live h m n → (Z.of_nat k < n) →
  ∃ h', terms h m k = Ret h' ∧ msg_live h' m (n - Z.of_nat k).
Proof.
  revert h n. induction k as [|k IH]; intros h n Hl Hk; cbn [terms].
  - exists h. by rewrite Z.sub_0_r.
  - destruct (msg_term_ok _ _ _ Hl) as (h1 & -> & _ & Hd). step.
    destruct (IH h1 (n - 1)) as (h' & ? & Hl'); [apply Hd; lia|lia|].
    exists h'. split; [done|]. by replace (n - Z.of_nat (S k)) with (n - 1 - Z.of_nat k) by lia.
Qed.

(** Bulk copying is balanced.  After [nn_msg_bulkcopy_start (msg, k)] the
    original and its [k] copies can each be terminated once, in any number of
    steps: the memory of every part survives the first [k] terminations with
    its bytes unchanged, and is released by the last one. *)
Theorem msg_bulkcopy_balanced h m sp hd bd (k : nat) :
  msg_val h m sp hd bd 1 → Z.of_nat k + 1 < 2 ^ 32 →
  ∃ h0, nn_msg_bulkcopy_start h m (Z.of_nat k) = Ret h0 ∧
    (∀ j, (j ≤ k)%nat → ∃ h', terms h0 (nn_msg_bulkcopy_cp m) j = Ret h' ∧
       msg_val h' m sp hd bd (Z.of_nat (S k - j))) ∧
    ∃ h', terms h0 (nn_msg_bulkcopy_cp m) (S k) = Ret h' ∧
      gone_part h' (r_sphdr m) ∧ gone_part h' (r_hdrs m) ∧ gone_part h' (r_body m).
Proof.
  intros Hv Hk. destruct (msg_bulk_val _ _ _ _ _ _ (Z.of_nat k) Hv) as (h0 & E & Hv0); [lia..|].
  exists h0. split; [done|]. assert (nn_msg_bulkcopy_cp m = m) as -> by by destruct m.
  assert (∀ j h r, msg_val h m sp hd bd r → Z.of_nat j < r →
    ∃ h', terms h m j = Ret h' ∧ msg_val h' m sp hd bd (r - Z.of_nat j)) as Hterms.
  { induction j as [|j IH]; intros h1 r Hv1 Hj; cbn [terms].
    - exists h1. by rewrite Z.sub_0_r.
    - destruct (msg_term_val _ _ _ _ _ _ Hv1) as (h2 & Et & _ & Hd). cbn. rewrite Et. step.
      destruct (IH h2 (r - 1)) as (h' & ? & Hv'); [apply Hd; lia|lia|].
      exists h'. split; [done|]. by replace (r - Z.of_nat (S j)) with (r - 1 - Z.of_nat j) by lia. }
  split.
  - intros j Hj. destruct (Hterms j h0 _ Hv0) as (h' & ? & ?); [lia|].
    exists h'. split; [done|]. by replace (Z.of_nat (S k - j)) with (1 + Z.of_nat k - Z.of_nat j) by lia.
  - destruct (Hterms k h0 _ Hv0) as (h1 & E1 & Hv1); [lia|].
    destruct (msg_term_val _ _ _ _ _ _ Hv1) as (h2 & E2 & Hg & _).
    exists h2. split; [|apply Hg; lia].
    assert (∀ j h h', terms h m j = Ret h' → terms h m (S j) = msg_term h' m) as Hsnoc.
    { induction j as [|j IH]; intros h3 h3'; cbn -[nn_msg_term].
      - intros [= ->]. by destruct (nn_msg_term h3' m).
      - destruct (nn_msg_term h3 m) as [h4|]; [|done]. cbn -[nn_msg_term]. apply IH. }
    rewrite (Hsnoc _ _ _ E1). exact E2.
Qed.

(** The operations on a part of a message act on its bytes, whether these
    are stored in place or in a chunk: the size and the data are those of the
    value, a copy leaves one reference more to the same value, trimming drops
    bytes from the front and refuses to drop more than there are. *)
Theorem chunkref_value h r data refs n :
  cref_at h r data refs → 1 ≤ refs → refs + 1 < 2 ^ 32 → Z.of_nat (length data) < 2 ^ 31 →
  (∀ e, match r with Ref p => off p = (e + 8)%nat → Z.of_nat e < 2 ^ 31 | Vsm _ => True end) →
  nn_chunkref_size h r = Ret (Z.of_nat (length data)) ∧
  nn_chunkref_data h r = Ret data ∧
  (∃ h', nn_chunkref_cp h r = Ret (h', r) ∧ cref_at h' r data (refs + 1)) ∧
  (if decide (n ≤ length data)%nat
   then ∃ h' r', nn_chunkref_trim h r (Z.of_nat n) = Ret (h', r') ∧ cref_at h' r' (drop n data) refs
   else nn_chunkref_trim h r (Z.of_nat n) = Fail Abort).
Proof.
  destruct r as [bs|p]; cbn -[decide]; intros Hc Hr Hr' Hl He.
  - subst bs. split_and!; [done|done|by exists h|]. case_decide.
    + rewrite (proj2 (Z.leb_le _ _)) by lia. step. rewrite Nat2Z.id. by eexists _, _.
    + by rewrite (proj2 (Z.leb_gt _ _)) by lia.
  - destruct Hc as [e Hc]. specialize (He e (ca_off _ _ _ _ _ Hc)).
    rewrite (nn_chunk_size_ok _ _ _ _ _ Hc). step. split_and!; [done| | |].
    + destruct (ca_chunk _ _ _ _ _ Hc) as (pre & tail & Hb & Hp). unfold get_chunk. rewrite Hb. step.
      cbn [mem]. rewrite (app_assoc _ _ (data ++ tail)), (app_assoc pre).
      by rewrite read_at_ok by (rewrite ?length_app, ?length_be_split, ?(ca_off _ _ _ _ _ Hc); lia).
    + destruct (nn_chunk_addref_ok _ _ _ _ _ 1 Hc) as (h' & -> & ? & _); [lia..|].
      step. exists h'. split; [done|by exists e].
    + case_decide as Hd.
      * destruct (nn_chunk_trim_ok _ _ _ _ _ n Hc) as (h' & -> & ? & _); [lia..|].
        step. eexists _, _. split; [done|]. cbn. by exists (e + n)%nat.
      * unfold nn_chunk_trim. destruct (getptr_ok _ _ _ _ _ Hc) as (? & ? & -> & _). step.
        cbn [csize]. by rewrite (proj2 (Z.leb_gt _ _)) by lia.
Qed.

(** ** Examples *)

Definition sample_msg : outcome (heap * nn_msg) :=
  nn_msg_init (λ _, true) Z.of_nat empty_heap 40.

Lemma sample_msg_val :
  ∃ h m, sample_msg = Ret (h, m) ∧ msg_val h m [] [] (fresh_data Z.of_nat 40) 1.
Proof.
  destruct (nn_chunk_alloc_ok (λ _, true) Z.of_nat empty_heap 40) as (h & E & Hc & _);
    [by intros b [c Hb]|lia|done|done|].
  exists h, (NnMsg (Vsm []) (Vsm []) (Ref (Ptr 1 8))). split.
  - unfold sample_msg, nn_msg_init, nn_chunkref_init. cbn -[nn_chunk_alloc]. rewrite E. reflexivity.
  - split_and!; [lia..|by split|done|done|by exists 0%nat].
Qed.

Lemma msg_bulkcopy_balanced_witness :
  ∃ h m h0 h', sample_msg = Ret (h, m) ∧ nn_msg_bulkcopy_start h m 3 = Ret h0 ∧
    terms h0 (nn_msg_bulkcopy_cp m) 4 = Ret h' ∧ gone_part h' (r_body m).
Proof.
  destruct sample_msg_val as (h & m & E & Hv).
  destruct (msg_bulkcopy_balanced h m [] [] _ 3 Hv) as (h0 & E0 & _ & h' & E' & _ & _ & G); [lia|].
  exists h, m, h0, h'. exact (conj E (conj E0 (conj E' G))).
Defined.

Lemma chunkref_value_witness :
  nn_chunkref_size empty_heap (Vsm [1; 2; 3]) = Ret 3 ∧
  nn_chunkref_trim empty_heap (Vsm [1; 2; 3]) 4 = Fail Abort.
Proof.
  destruct (chunkref_value empty_heap (Vsm [1; 2; 3]) [1; 2; 3] 1 4) as (H1 & _ & _ & H2);
    [reflexivity|lia|lia|cbn; lia|done|]. split; [exact H1|exact H2].
Defined.

(** ** Messages as values

    The protocols look at the bytes of a message only.  [chunkref_value] is the
    reason why they can be modelled on the three byte strings themselves; the
    reference counts are the business of [MsgOpsOk] for the heap above. *)
Record vmsg := VMsg { sphdr : list Z; hdrs : list Z; body : list Z }.

#[global] Instance vmsg_eq_dec : EqDecision vmsg.
Proof. solve_decision. Defined.
#[global] Instance vmsg_inhabited : Inhabited vmsg := populate (VMsg [] [] []).

Definition set_sphdr (m : vmsg) (h : list Z) : vmsg := VMsg h (hdrs m) (body m).
Definition set_body (m : vmsg) (b : list Z) : vmsg := VMsg (sphdr m) (hdrs m) b.

Lemma set_sphdr_id m h : sphdr m = h → set_sphdr m h = m.
Proof. by intros <-; destruct m. Qed.

Lemma set_sphdr_set m h h' : set_sphdr (set_sphdr m h) h' = set_sphdr m h'.
Proof. done. Qed.

(** [nn_chunkref_trim] of the body. *)
Definition trim_body (m : vmsg) (n : nat) : outcome vmsg :=
  nn_assert (bool_decide (n ≤ length (body m))%nat);; Ret (set_body m (drop n (body m))).

#[global] Instance vmsg_ops : MsgOps unit vmsg := {
  msg_term h _ := Ret h;
  msg_bulkcopy_start h _ _ := Ret h;
  msg_bulkcopy_cp m := m;
}.

#[global] Program Instance vmsg_ops_ok : MsgOpsOk unit vmsg := {|
  msg_live _ _ _ := True; msg_gone _ _ := True |}.
Next Obligation. done. Qed.
Next Obligation. intros h m n k _ _ _. by exists h. Qed.
Next Obligation. intros h m n _. by exists h. Qed.

(** ** The data of a fresh chunkref

    It has one owner, so that the transports keep it by value. *)
Section msg_data.
Context (alloc : Z → bool) (junk : nat → Z).

Definition msg_data (size : Z) : outcome (list Z) :=
  '(h, r) ← nn_chunkref_init alloc junk empty_heap size; nn_chunkref_data h r.

(** A request for memory that fails. *)
Definition no_memory (size : Z) : Prop := 32 ≤ size ∧ (2 ^ 64 ≤ 32 + size ∨ alloc (32 + size) = false).

Lemma msg_data_ok (Ha : ∀ n, alloc n = true → n < 2 ^ 63) (Hj : ∀ i, is_byte (junk i)) size :
  0 ≤ size < 2 ^ 64 →
  (∃ l, msg_data size = Ret l ∧ Z.of_nat (length l) = size ∧ bytes l ∧ size < 2 ^ 63) ∨
  (msg_data size = Fail Abort ∧ no_memory size).
Proof.
  intros Hs. unfold msg_data, nn_chunkref_init, NN_CHUNKREF_MAX.
  destruct (Z.ltb_spec size 32).
  { step. cbn [nn_chunkref_data]. left. eexists. split; [done|].
    rewrite length_fmap, length_seq. split_and!; [lia|apply Forall_fmap, Forall_forall; intros; apply Hj|lia]. }
  destruct (decide (2 ^ 64 ≤ 32 + size)) as [Hbig|Hbig].
  { right. split; [|split; [done|by left]]. unfold nn_chunk_alloc, nn_chunk_hdrsize, sizeof_nn_chunk.
    assert (u64 (24 + 8 + size) = 32 + size - 2 ^ 64) as ->.
    { unfold u64. rewrite <- (Z_mod_plus_full _ (-1)), Z.mod_small; lia. }
    by rewrite (proj2 (Z.ltb_lt _ _)) by lia. }
  destruct (alloc (32 + size)) eqn:Ea.
  - left. pose proof (Ha _ Ea).
    destruct (nn_chunk_alloc_ok alloc junk empty_heap size) as (h & -> & Hc & _);
      [|lia|unfold nn_chunk_hdrsize, sizeof_nn_chunk; lia|done|].
    { intros b [c Hb]. change (blocks empty_heap) with (∅ : gmap positive nn_chunk) in Hb. by rewrite lookup_empty in Hb. }
    step. cbn [Z.eqb]. step. cbn [nn_chunkref_data]. rewrite (nn_chunk_size_ok _ _ _ _ _ Hc). step.
    destruct (ca_chunk _ _ _ _ _ Hc) as (pre & tail & Hb & Hp). unfold get_chunk. rewrite Hb. step.
    cbn [mem]. rewrite (app_assoc _ _ (_ ++ tail)), (app_assoc pre).
    rewrite read_at_ok by (rewrite ?length_app, ?length_be_split, ?(ca_off _ _ _ _ _ Hc); lia).
    eexists. split; [done|]. unfold fresh_data. rewrite length_fmap, length_seq.
    split_and!; [lia|apply Forall_fmap, Forall_forall; intros; apply Hj|lia].
  - right. split; [|split; [done|by right]]. unfold nn_chunk_alloc, nn_chunk_hdrsize, sizeof_nn_chunk.
    assert (u64 (24 + 8 + size) = 32 + size) as -> by (unfold u64; rewrite Z.mod_small; lia).
    rewrite (proj2 (Z.ltb_ge _ _)) by lia. by rewrite Ea.
Qed.

End msg_data.
