(* ===== verification/Dist.v ===== *)
(** * protocols/utils/dist.c and excl.c: one-to-all and one-to-one

    [nn_dist] hands a copy of a message to every writable pipe; [nn_excl] holds
    the single pipe of a pair socket. *)
From S2P Require Import Prelude NnList Priolist Pipe Chunk Msg.

(** ** The distributor *)

Record nn_dist (T : Type) := Dist {
  dstore : T;                  (* the list [pipes] is (0, 0); the items *)
  ddata : gmap addr pid;       (* the pipe of each nn_dist_data *)
  dcount : Z;
}.
Arguments Dist {T}.
Arguments dstore {T}.
Arguments ddata {T}.
Arguments dcount {T}.

Definition dl : lid := (0, 0).

Section code.
Context `{ListStore T} `{PipeOps W M} `{MsgOps HP M}.

Definition nn_dist_init (s : T) : nn_dist T := Dist (l_init s dl) ∅ 0.

Definition nn_dist_term (self : nn_dist T) : outcome unit :=
  nn_assert (dcount self =? 0);; l_term (dstore self) dl.

Definition nn_dist_add (self : nn_dist T) (data : addr) (pipe : pid) : nn_dist T :=
  Dist (l_item_init (dstore self) data) (<[data := pipe]> (ddata self)) (dcount self).

Definition nn_dist_rm (self : nn_dist T) (data : addr) : outcome (nn_dist T) :=
  b ← l_isinlist (dstore self) data;
  self ← (if b : bool then
            '(s, _) ← l_erase (dstore self) dl data;
            Ret (Dist s (ddata self) (u32 (dcount self - 1)))
          else Ret self);
  l_item_term (dstore self) data;;
  Ret self.

Definition nn_dist_out (self : nn_dist T) (data : addr) : outcome (nn_dist T) :=
  s ← l_insert (dstore self) dl data None;
  Ret (Dist s (ddata self) (u32 (dcount self + 1))).

(** The [while] loop over the pipes. *)
Fixpoint nn_dist_send_loop (fuel : nat) (self : nn_dist T) (w : W) (h : HP) (msg : M)
    (exclude : option pid) (it : option addr) : outcome (nn_dist T * W * HP) :=
  match it with
  | None => Ret (self, w, h)
  | Some it =>
      match fuel with
      | O => Fail Diverge
      | S fuel =>
          pipe ← deref (ddata self !! it);
          let copy := msg_bulkcopy_cp msg in
          if decide (Some pipe = exclude) then
            h ← msg_term h copy;
            it ← l_next (dstore self) dl it;
            nn_dist_send_loop fuel self w h msg exclude it
          else
            '(w, rc) ← nn_pipe_send w pipe copy;
            nn_assert (0 <=? rc);;
            if released rc then
              '(s, it) ← l_erase (dstore self) dl it;
              nn_dist_send_loop fuel (Dist s (ddata self) (u32 (dcount self - 1))) w h msg exclude it
            else
              it ← l_next (dstore self) dl it;
              nn_dist_send_loop fuel self w h msg exclude it
      end
  end.

Definition nn_dist_send (self : nn_dist T) (w : W) (h : HP) (msg : M) (exclude : option pid) :
    outcome (nn_dist T * W * HP * Z) :=
  if dcount self =? 0 then
    h ← msg_term h msg; Ret (self, w, h, 0)
  else
    h ← msg_bulkcopy_start h msg (dcount self);
    it ← l_begin (dstore self) dl;
    '(self, w, h) ← nn_dist_send_loop (S (l_fuel (dstore self))) self w h msg exclude it;
    h ← msg_term h msg;
    Ret (self, w, h, 0).

End code.

(** ** Abstract state *)

Record dist := DistSpec { dlist : list addr; didle : gset addr; dinfo : gmap addr pid }.

Definition dist_empty : dist := DistSpec [] ∅ ∅.
Definition dist_add (d : dist) (x : addr) (p : pid) : dist :=
  DistSpec (dlist d) ({[x]} ∪ didle d) (<[x := p]> (dinfo d)).
Definition dist_out (d : dist) (x : addr) : dist :=
  DistSpec (dlist d ++ [x]) (didle d ∖ {[x]}) (dinfo d).
Definition dist_rm (d : dist) (x : addr) : dist :=
  if decide (x ∈ dlist d)
  then DistSpec (filter (λ y, y ≠ x) (dlist d)) ({[x]} ∪ didle d) (dinfo d) else d.

(** The pipes of some items, and those a send that excludes [ex] targets. *)
Definition dpipes (d : dist) (xs : list addr) : list pid := omap (λ x, dinfo d !! x) xs.
Definition dtargets (d : dist) (ex : option pid) (xs : list addr) : list pid :=
  filter (λ p, Some p ≠ ex) (dpipes d xs).
(** The items whose pipe is in [ok]. *)
Definition dkeep (d : dist) (ok : gset pid) (xs : list addr) : list addr :=
  filter (λ x, match dinfo d !! x with Some p => bool_decide (p ∈ ok) | None => true end = true) xs.

Section dist.
Context `{ListStoreOk T}.

Record drep (self : nn_dist T) (d : dist) : Prop := {
  dr_list : ∃ σ, l_rep (dstore self) σ ∧ lseq σ = {[dl := dlist d]} ∧ lfree σ = didle d;
  dr_data : ddata self = dinfo d;
  dr_count : dcount self = Z.of_nat (length (dlist d));
  dr_bound : Z.of_nat (length (dlist d)) < 2 ^ 32;
  dr_info x : x ∈ dlist d ∨ x ∈ didle d → is_Some (dinfo d !! x);
}.

Lemma drep_lookup (σ : lspec) (xs : list addr) : lseq σ = {[dl := xs]} → lseq σ !! dl = Some xs.
Proof. intros ->. apply lookup_singleton_eq. Qed.

Lemma nn_dist_init_ok s σ :
  l_rep s σ → lseq σ = ∅ → lfree σ = ∅ → drep (nn_dist_init s) dist_empty.
Proof.
  intros Hr He Hf. split; cbn; [|done|done|lia|intros ? [?%not_elem_of_nil|?]; set_solver].
  exists (lspec_set σ dl []). split_and!; [|by cbn; rewrite He|done].
  apply l_init_ok; [done|]. by rewrite He.
Qed.

Lemma nn_dist_add_ok self d x p :
  drep self d → x ∉ dlist d → drep (nn_dist_add self x p) (dist_add d x p).
Proof.
  intros [(σ & Hr & Hl & Hf) Hd Hc Hb Hi] Hx. split; cbn; [|by rewrite Hd|done|done|].
  - exists (lspec_new σ x). split_and!; [|done|cbn; by rewrite Hf].
    apply l_item_init_ok; [done|]. rewrite Hl.
    intros l xs [<- <-]%lookup_singleton_Some. done.
  - intros y Hy. destruct (decide (x = y)) as [->|]; [by rewrite lookup_insert_eq|].
    rewrite lookup_insert_ne by done. apply Hi. set_solver.
Qed.

Lemma nn_dist_out_ok self d x :
  drep self d → x ∈ didle d → Z.of_nat (length (dlist d)) + 1 < 2 ^ 32 →
  ∃ self', nn_dist_out self x = Ret self' ∧ drep self' (dist_out d x).
Proof.
  intros [(σ & Hr & Hl & Hf) Hd Hc Hb Hi] Hx Hlt. unfold nn_dist_out.
  destruct (l_insert_end_ok _ _ _ _ x Hr (drep_lookup _ _ Hl)) as (s' & -> & Hr'); [by rewrite Hf|].
  step. eexists. split; [done|]. split; cbn; [|done| | |].
  - eexists. split; [exact Hr'|]. cbn. rewrite Hl, Hf. split; [by rewrite insert_singleton_eq|done].
  - rewrite Hc, length_app. cbn. unfold u32. rewrite Z.mod_small; lia.
  - rewrite length_app. cbn. lia.
  - intros y Hy. apply Hi. set_solver.
Qed.

(** Removing an item from the list. *)
Lemma dist_erase self d pre x post σ :
  drep self d → l_rep (dstore self) σ → lseq σ = {[dl := dlist d]} → lfree σ = didle d →
  dlist d = pre ++ x :: post →
  ∃ s', l_erase (dstore self) dl x = Ret (s', head post) ∧ x ∉ pre ∧ x ∉ post ∧
    l_rep s' (lspec_del σ dl (pre ++ post) x) ∧
    drep (Dist s' (ddata self) (u32 (dcount self - 1)))
      (DistSpec (pre ++ post) ({[x]} ∪ didle d) (dinfo d)).
Proof.
  intros [_ Hd Hc Hb Hi] Hr Hl Hf Hsplit.
  pose proof (drep_lookup _ _ Hl) as Hdl. rewrite Hsplit in Hdl.
  destruct (l_erase_ok _ _ _ _ _ _ Hr Hdl) as (s' & E & Hr').
  destruct (l_rep_nodup_split _ _ _ _ _ _ Hr Hdl) as (Hx1 & Hx2 & _).
  exists s'. split_and!; [done..|].
  assert (length (dlist d) = S (length (pre ++ post))) as Hlen.
  { rewrite Hsplit, !length_app. cbn. lia. }
  split; cbn; [|done| |lia|].
  - eexists. split; [exact Hr'|]. cbn. rewrite Hl, Hf. split; [by rewrite insert_singleton_eq|done].
  - rewrite Hc, Hlen. unfold u32. rewrite Z.mod_small; lia.
  - intros y Hy. apply Hi. rewrite Hsplit. set_solver.
Qed.

Lemma nn_dist_rm_ok self d x :
  drep self d → x ∈ dlist d ∨ x ∈ didle d →
  ∃ self', nn_dist_rm self x = Ret self' ∧ drep self' (dist_rm d x).
Proof.
  intros Hrep Hx. pose proof Hrep as [(σ & Hr & Hl & Hf) _ _ _ _]. unfold nn_dist_rm, dist_rm.
  case_decide as Hin.
  - rewrite (l_isinlist_in _ _ _ _ _ Hr (drep_lookup _ _ Hl) Hin). step.
    apply list_elem_of_split in Hin as (pre & post & Hsplit).
    destruct (dist_erase _ _ _ _ _ _ Hrep Hr Hl Hf Hsplit) as (s' & -> & Hx1 & Hx2 & Hr' & Hd').
    step. cbn [dstore]. rewrite (l_item_term_ok _ _ _ Hr') by set_solver. step.
    eexists. split; [done|]. by rewrite Hsplit, filter_ne_middle.
  - destruct Hx as [|Hx]; [done|]. rewrite <- Hf in Hx. rewrite (l_isinlist_free _ _ _ Hr Hx). step.
    rewrite (l_item_term_ok _ _ _ Hr) by done. step. by exists self.
Qed.

Lemma nn_dist_term_ok self d :
  drep self d → nn_dist_term self = nn_assert (bool_decide (dlist d = [])).
Proof.
  intros [(σ & Hr & Hl & Hf) _ Hc _ _]. unfold nn_dist_term.
  rewrite (l_term_ok _ _ _ _ Hr (drep_lookup _ _ Hl)), Hc. by destruct (dlist d).
Qed.

Context `{PipeOpsOk W M} `{MsgOpsOk HP M}.

(** What the caller of [nn_dist_send] guarantees: every listed pipe is
    writable, no pipe is listed twice. *)
Definition dist_inv (self : nn_dist T) (w : W) (d : dist) : Prop :=
  drep self d ∧ pipe_inv w ∧ (∀ p, p ∈ dpipes d (dlist d) → p ∈ writable w) ∧
  NoDup (dpipes d (dlist d)).

Lemma dpipes_cons d x xs p : dinfo d !! x = Some p → dpipes d (x :: xs) = p :: dpipes d xs.
Proof. intros Hx. cbn. by rewrite Hx. Qed.

Lemma dpipes_app d xs ys : dpipes d (xs ++ ys) = dpipes d xs ++ dpipes d ys.
Proof. apply omap_app. Qed.

Lemma dtargets_cons d ex x xs p :
  dinfo d !! x = Some p →
  dtargets d ex (x :: xs) = if decide (Some p = ex) then dtargets d ex xs else p :: dtargets d ex xs.
Proof.
  intros Hx. unfold dtargets. rewrite (dpipes_cons _ _ _ _ Hx). case_decide.
  - by rewrite filter_cons_False by naive_solver.
  - by rewrite filter_cons_True.
Qed.

Lemma dkeep_cons d ok x xs p :
  dinfo d !! x = Some p →
  dkeep d ok (x :: xs) = if decide (p ∈ ok) then x :: dkeep d ok xs else dkeep d ok xs.
Proof.
  intros Hx. unfold dkeep. case_decide.
  - rewrite filter_cons_True; [done|]. rewrite Hx. by apply bool_decide_eq_true_2.
  - rewrite filter_cons_False; [done|]. rewrite Hx. by rewrite bool_decide_eq_false_2.
Qed.

Lemma dkeep_ext d ok ok' xs :
  (∀ p, p ∈ dpipes d xs → p ∈ ok ↔ p ∈ ok') → dkeep d ok xs = dkeep d ok' xs.
Proof.
  intros He. apply filter_ext_in. intros x Hx. destruct (dinfo d !! x) as [p|] eqn:Hp; [|done].
  rewrite !bool_decide_eq_true. apply He. unfold dpipes. apply list_elem_of_omap. by exists x.
Qed.

Lemma elem_of_dpipes d xs p : p ∈ dpipes d xs ↔ ∃ x, x ∈ xs ∧ dinfo d !! x = Some p.
Proof. unfold dpipes. by rewrite list_elem_of_omap. Qed.

Lemma dpipes_keep_in d ok xs p : p ∈ dpipes d (dkeep d ok xs) → p ∈ ok.
Proof.
  rewrite elem_of_dpipes. intros (x & [Hx _]%list_elem_of_filter & Hp). rewrite Hp in Hx.
  by apply bool_decide_eq_true_1 in Hx.
Qed.

Lemma dpipes_keep_nodup d ok xs : NoDup (dpipes d xs) → NoDup (dpipes d (dkeep d ok xs)).
Proof.
  induction xs as [|y xs IH]; [done|]. destruct (dinfo d !! y) as [p|] eqn:Hp.
  - rewrite (dpipes_cons _ _ _ _ Hp), NoDup_cons, (dkeep_cons _ _ _ _ _ Hp). intros [Hn Hnd].
    case_decide; [|by apply IH]. rewrite (dpipes_cons _ _ _ _ Hp), NoDup_cons.
    split; [|by apply IH]. rewrite elem_of_dpipes in Hn |- *.
    intros (x & [_ Hx]%list_elem_of_filter & Hxp). apply Hn. by exists x.
  - unfold dkeep. rewrite filter_cons_True by by rewrite Hp. cbn. rewrite Hp. apply IH.
Qed.

(** The loop, in front of the items [todo]. *)
Lemma send_loop_ok m ex todo : ∀ pre self w h d σ k fuel,
  drep self d → l_rep (dstore self) σ → lseq σ = {[dl := dlist d]} → lfree σ = didle d →
  pipe_inv w → dlist d = pre ++ todo → NoDup (dpipes d todo) →
  (∀ p, p ∈ dpipes d todo → p ∈ writable w) →
  1 ≤ k → msg_live h m (k + Z.of_nat (length todo)) → (length todo < fuel)%nat →
  ∃ self' w' h' idle', nn_dist_send_loop fuel self w h m ex (head todo) = Ret (self', w', h') ∧
    drep self' (DistSpec (pre ++ dkeep d (writable w') todo) idle' (dinfo d)) ∧ pipe_inv w' ∧
    sent w' = sent w ++ ((λ p, (p, m)) <$> dtargets d ex todo) ∧ recvd w' = recvd w ∧
    readable w' = readable w ∧ writable w' ⊆ writable w ∧
    (∀ q, q ∉ dpipes d todo → q ∈ writable w' ↔ q ∈ writable w) ∧
    (∀ x, x ∈ didle d ∨ x ∈ todo → x ∈ dkeep d (writable w') todo ∨ x ∈ idle') ∧
    msg_live h' m (k + Z.of_nat (length (dtargets d ex todo))).
Proof.
  induction todo as [|x todo IH];
    intros pre self w h d σ k fuel Hrep Hr Hl Hf Hw Hsplit Hnd Hwr Hpos Hlive Hfuel.
  - exists self, w, h, (didle d). cbn in *. destruct fuel; [lia|]. rewrite app_nil_r.
    split_and!; try done; [|by rewrite app_nil_r|set_solver].
    by destruct d; cbn in *; subst; rewrite app_nil_r in *.
  - destruct fuel as [|fuel]; [lia|]. cbn [length] in Hfuel, Hlive.
    assert (x ∈ dlist d) as Hx by (rewrite Hsplit; set_solver).
    destruct (dr_info _ _ Hrep x (or_introl Hx)) as [p Hp].
    rewrite (dpipes_cons _ _ _ _ Hp) in Hnd, Hwr. apply NoDup_cons in Hnd as [Hpn Hnd].
    pose proof (drep_lookup _ _ Hl) as Hdl. rewrite Hsplit in Hdl.
    cbn [nn_dist_send_loop head hd_error]. rewrite (dr_data _ _ Hrep), Hp. step.
    rewrite msg_cp_ok, (dtargets_cons _ _ _ _ _ Hp).
    assert (dlist d = (pre ++ [x]) ++ todo) as Hsplit' by by rewrite <- app_assoc.
    case_decide as Hex.
    + (* excluded: the copy is terminated *)
      destruct (msg_term_ok _ _ _ Hlive) as (h1 & -> & _ & Hlive1). step.
      rewrite (l_next_ok _ _ _ _ _ _ Hr Hdl). step.
      destruct (IH (pre ++ [x]) self w h1 d σ k fuel)
        as (self' & w' & h' & idle' & -> & Hrep' & Hw' & Hs & Hrv & Hrd & Hsub & Hoth & Hk & Hlive'); try done; [set_solver| |lia|].
      { replace (k + Z.of_nat (length todo)) with (k + Z.of_nat (S (length todo)) - 1) by lia.
        apply Hlive1. lia. }
      exists self', w', h', idle'. split; [done|]. rewrite (dkeep_cons _ _ _ _ _ Hp).
      rewrite decide_True by (apply Hoth; [done|set_solver]). rewrite <- app_assoc in Hrep'.
      rewrite (dpipes_cons _ _ _ _ Hp). split_and!; try done.
      -- intros q Hq. apply Hoth. set_solver.
      -- intros y. specialize (Hk y). rewrite !elem_of_cons. tauto.
    + destruct (pipe_send_ok w p m Hw) as (w1 & rc & -> & Hw1 & Hrc & Hs1 & Hrv1 & Hwr1 & Hrd1);
        [set_solver|]. step. rewrite (proj2 (Z.leb_le 0 rc)) by (unfold NN_PIPE_RELEASE in *; lia). step.
      assert (k + Z.of_nat (S (length todo)) = k + 1 + Z.of_nat (length todo)) as Hk' by lia.
      rewrite Hk' in Hlive.
      destruct (released rc) eqn:Erc.
      * destruct (dist_erase _ _ _ _ _ _ Hrep Hr Hl Hf Hsplit) as (s1 & -> & Hx1 & Hx2 & Hr1 & Hrep1).
        step. set (d1 := DistSpec (pre ++ todo) _ _) in *.
        destruct (IH pre _ w1 h d1 _ (k + 1) fuel Hrep1 Hr1)
          as (self' & w' & h' & idle' & E & Hrep' & Hw' & Hs & Hrv & Hrd & Hsub & Hoth & Hk & Hlive').
        { cbn. by rewrite Hl, insert_singleton_eq. } { cbn. by rewrite Hf. }
        { done. } { done. } { done. }
        { intros q Hq. rewrite Hwr1. apply elem_of_difference. split; [set_solver|].
          rewrite elem_of_singleton. intros ->. done. }
        { lia. } { done. } { lia. }
        rewrite (dr_data _ _ Hrep) in E. rewrite E. exists self', w', h', idle'. split; [done|].
        rewrite (dkeep_cons _ _ _ _ _ Hp).
        rewrite decide_False by (rewrite Hoth by done; set_solver).
        rewrite (dpipes_cons _ _ _ _ Hp). split_and!; [exact Hrep'|done| | | | | | |].
        -- rewrite Hs, Hs1, <- app_assoc. done.
        -- by rewrite Hrv.
        -- by rewrite Hrd.
        -- rewrite Hwr1 in Hsub. set_solver.
        -- intros q Hq. rewrite Hoth by set_solver. rewrite Hwr1. set_solver.
        -- intros y. specialize (Hk y). cbn [d1 didle] in Hk.
           rewrite elem_of_union, elem_of_singleton in Hk. rewrite elem_of_cons. tauto.
        -- replace (k + Z.of_nat (length (p :: dtargets d ex todo))) with
             (k + 1 + Z.of_nat (length (dtargets d ex todo))) by (cbn; lia). exact Hlive'.
      * rewrite (l_next_ok _ _ _ _ _ _ Hr Hdl). step.
        destruct (IH (pre ++ [x]) self w1 h d σ (k + 1) fuel)
          as (self' & w' & h' & idle' & -> & Hrep' & Hw' & Hs & Hrv & Hrd & Hsub & Hoth & Hk & Hlive'); try done;
          [rewrite Hwr1; set_solver|lia|lia|].
        exists self', w', h', idle'. split; [done|]. rewrite (dkeep_cons _ _ _ _ _ Hp).
        rewrite decide_True by (apply Hoth; [done|rewrite Hwr1; set_solver]).
        rewrite <- app_assoc in Hrep'. rewrite (dpipes_cons _ _ _ _ Hp). split_and!; try done.
        -- rewrite Hs, Hs1, <- app_assoc. done.
        -- by rewrite Hrv.
        -- by rewrite Hrd.
        -- by rewrite Hwr1 in Hsub.
        -- intros q Hq. rewrite Hoth by set_solver. by rewrite Hwr1.
        -- intros y. specialize (Hk y). rewrite !elem_of_cons. tauto.
        -- replace (k + Z.of_nat (length (p :: dtargets d ex todo))) with
             (k + 1 + Z.of_nat (length (dtargets d ex todo))) by (cbn; lia). exact Hlive'.
Qed.

Lemma nn_dist_send_ok self w h m ex d n :
  dist_inv self w d → msg_live h m n → 1 ≤ n →
  n + Z.of_nat (length (dlist d)) < 2 ^ 32 →
  ∃ self' w' h' idle', nn_dist_send self w h m ex = Ret (self', w', h', 0) ∧
    sent w' = sent w ++ ((λ p, (p, m)) <$> dtargets d ex (dlist d)) ∧ recvd w' = recvd w ∧
    readable w' = readable w ∧ writable w' ⊆ writable w ∧
    (∀ x, x ∈ dlist d ∨ x ∈ didle d → x ∈ dkeep d (writable w') (dlist d) ∨ x ∈ idle') ∧
    dist_inv self' w' (DistSpec (dkeep d (writable w') (dlist d)) idle' (dinfo d)) ∧
    (let n' := n - 1 + Z.of_nat (length (dtargets d ex (dlist d))) in
     (n' = 0 → msg_gone h' m) ∧ (0 < n' → msg_live h' m n')).
Proof.
  intros (Hrep & Hw & Hwr & Hnd) Hlive Hn Hlt. unfold nn_dist_send.
  rewrite (dr_count _ _ Hrep). destruct (dlist d) as [|x xs] eqn:Ed.
  - cbn [length Z.of_nat Z.eqb]. destruct (msg_term_ok _ _ _ Hlive) as (h' & -> & Hg & Hd). step.
    exists self, w, h', (didle d). cbn. rewrite app_nil_r.
    assert (DistSpec [] (didle d) (dinfo d) = d) as -> by (destruct d; cbn in *; by subst).
    split_and!; try done.
    + by split_and!; try done; rewrite Ed.
    + intros. apply Hg. lia.
    + intros. replace (n - 1 + Z.of_nat 0) with (n - 1) by lia. apply Hd. lia.
  - rewrite <- Ed in *. rewrite (proj2 (Z.eqb_neq _ _)) by (rewrite Ed; cbn; lia).
    pose proof Hrep as [(σ & Hr & Hl & Hf) _ _ _ _].
    destruct (msg_bulk_ok _ _ _ (Z.of_nat (length (dlist d))) Hlive) as (h0 & -> & Hlive0); [lia|done|].
    step. rewrite (l_begin_ok _ _ _ _ Hr (drep_lookup _ _ Hl)). step.
    destruct (send_loop_ok m ex (dlist d) [] self w h0 d σ n (S (l_fuel (dstore self))))
      as (self' & w' & h1 & idle' & -> & Hrep' & Hw' & Hs & Hrv & Hrd & Hsub & Hoth & Hk & Hlive1); try done.
    { pose proof (l_rep_fuel _ _ _ _ Hr (drep_lookup _ _ Hl)). lia. }
    step. destruct (msg_term_ok _ _ _ Hlive1) as (h' & -> & Hg & Hd). step.
    exists self', w', h', idle'. split; [done|]. cbn [app] in Hrep'.
    split_and!; try done.
    + intros x0 Hx0. apply Hk. naive_solver.
    + split_and!; try done; [intros p; exact (dpipes_keep_in d _ _ p)|exact (dpipes_keep_nodup d _ _ Hnd)].
    + intros. apply Hg. lia.
    + intros. replace (n - 1 + _) with (n + Z.of_nat (length (dtargets d ex (dlist d))) - 1) by lia.
      apply Hd. lia.
Qed.

(** C20: distribution is exact.  [nn_dist_send] hands one copy of the message to
    every writable pipe except the excluded one, in list order, and to no other;
    afterwards the distributor lists exactly the pipes that were not released;
    and the references balance: of the [n] references to the message before the
    call one (the caller's) is dropped and one per target is added, so that the
    message is released at once when there is no target and no other holder. *)
Theorem dist_send_exact self w h m ex d n :
  dist_inv self w d → msg_live h m n → 1 ≤ n →
  n + Z.of_nat (length (dlist d)) < 2 ^ 32 →
  ∃ self' w' h' idle', nn_dist_send self w h m ex = Ret (self', w', h', 0) ∧
    sent w' = sent w ++ ((λ p, (p, m)) <$> dtargets d ex (dlist d)) ∧ recvd w' = recvd w ∧
    dist_inv self' w' (DistSpec (dkeep d (writable w') (dlist d)) idle' (dinfo d)) ∧
    (let n' := n - 1 + Z.of_nat (length (dtargets d ex (dlist d))) in
     (n' = 0 → msg_gone h' m) ∧ (0 < n' → msg_live h' m n')).
Proof.
  intros Hinv Hlive Hn Hlt.
  destruct (nn_dist_send_ok _ _ _ _ ex _ _ Hinv Hlive Hn Hlt)
    as (self' & w' & h' & idle' & E & Hs & Hrv & _ & _ & _ & Hinv' & Hrefs).
  by exists self', w', h', idle'.
Qed.

End dist.

(** ** Operation sequences *)

Inductive d_op := D_add (x : addr) (p : pid) | D_out (x : addr) | D_rm (x : addr).

Definition d_spec (d : dist) (o : d_op) : option (dist * unit) :=
  match o with
  | D_add x p => if decide (x ∈ dlist d) then None else Some (dist_add d x p, tt)
  | D_out x =>
      if decide (x ∈ didle d ∧ Z.of_nat (length (dlist d)) + 1 < 2 ^ 32)
      then Some (dist_out d x, tt) else None
  | D_rm x => if decide (x ∈ dlist d ∨ x ∈ didle d) then Some (dist_rm d x, tt) else None
  end.

Definition d_exec `{ListStore T} (self : nn_dist T) (o : d_op) : outcome (nn_dist T * unit) :=
  match o with
  | D_add x p => Ret (nn_dist_add self x p, tt)
  | D_out x => self ← nn_dist_out self x; Ret (self, tt)
  | D_rm x => self ← nn_dist_rm self x; Ret (self, tt)
  end.

Lemma d_exec_ok `{ListStoreOk T} self d o d' r :
  drep self d → d_spec d o = Some (d', r) → ∃ self', d_exec self o = Ret (self', r) ∧ drep self' d'.
Proof.
  intros Hr. destruct o as [x p|x|x]; cbn -[decide]; case_decide as Hd; try done; intros [= <- <-].
  - eexists. split; [done|]. by apply nn_dist_add_ok.
  - destruct (nn_dist_out_ok _ _ _ Hr (proj1 Hd) (proj2 Hd)) as (self' & -> & ?). by exists self'.
  - destruct (nn_dist_rm_ok _ _ _ Hr Hd) as (self' & -> & ?). by exists self'.
Qed.

Lemma d_run_ok `{ListStoreOk T} s σ os d rs :
  l_rep s σ → lseq σ = ∅ → lfree σ = ∅ → spec_run d_spec dist_empty os = Some (d, rs) →
  ∃ self, run d_exec (nn_dist_init s) os = Ret (self, rs) ∧ drep self d.
Proof.
  intros Hr He Hf. apply (run_refines drep _ _ d_exec_ok). by eapply nn_dist_init_ok.
Qed.

(** ** Example *)

Module DistSample.
Import Pipe.Sample.

#[global] Instance inbox_msg : Inbox nn_msg := λ _, NnMsg (Vsm []) (Vsm []) (Vsm []).

Definition base : nn_pipebase := Pipebase NN_PIPEBASE_STATE_ACTIVE IN_IDLE OUT_IDLE None opts.
(** Pipes 2 and 4 send at once, pipe 3 later. *)
Definition world : pworld (gtw nn_msg) :=
  PWorld {[2%positive := base; 3%positive := base; 4%positive := base]} [] (Tw [] []).

Definition ops : list d_op :=
  let x1 := 1%positive in let x2 := 2%positive in let x3 := 3%positive in
  [D_add x1 2; D_add x2 3; D_add x3 4; D_out x1; D_out x2; D_out x3].

Definition d : dist :=
  match spec_run d_spec dist_empty ops with Some (d, _) => d | None => dist_empty end.

Lemma dist_sample_inv : ∃ self : nn_dist Ptr.store,
  dist_inv (H0 := Ptr.ptr_store_ok) (M := nn_msg) self world d.
Proof.
  destruct (d_run_ok (H0 := Ptr.ptr_store_ok) Ptr.empty_store _ ops d (replicate 6 tt)
    Ptr.rep_empty eq_refl eq_refl) as (self & _ & Hr); [vm_compute; reflexivity|].
  exists self. split_and!; [done|done| |].
  - assert (Forall (λ p, p ∈ out_idle world) (dpipes d (dlist d))) as Hall; [|by apply Forall_forall].
    apply (bool_decide_eq_true_1 _). vm_compute. reflexivity.
  - apply (bool_decide_eq_true_1 _). vm_compute. reflexivity.
Qed.

End DistSample.

Lemma dist_send_exact_witness :
  ∃ (self self' : nn_dist Ptr.store) w' h h' m, sample_msg = Ret (h, m) ∧
    nn_dist_send self DistSample.world h m (Some 4%positive) = Ret (self', w', h', 0) ∧
    sent w' = [(2%positive, m); (3%positive, m)] ∧ msg_live h' m 2.
Proof.
  destruct DistSample.dist_sample_inv as [self Hinv]. destruct sample_msg_val as (h & m & E & Hv).
  destruct (dist_send_exact (H0 := Ptr.ptr_store_ok) self DistSample.world h m (Some 4%positive)
    DistSample.d 1 Hinv) as (self' & w' & h' & idle' & Es & Hs & _ & _ & _ & Hl).
  - exists [], [], (fresh_data Z.of_nat 40). exact Hv.
  - lia.
  - by vm_compute.
  - exists self, self', w', h, h', m. split; [exact E|]. split; [exact Es|]. split.
    + rewrite Hs. vm_compute. reflexivity.
    + apply Hl. by vm_compute.
Defined.
