(* ===== verification/Protocol.v ===== *)
(** * protocol.h: the contract between the core and a protocol

    The core calls the functions of [nn_sockbase_vfptr]: it attaches and
    detaches pipes, reports that a pipe has become readable or writable, and
    forwards the user's sends and receives.  [Proto] is that interface and
    [allowed] says when the core makes each call.  [ProtoOk] is what a correct
    protocol promises in return: each call returns, whatever the order, and the
    receive loops terminate.  The theorems of the protocol files instantiate it. *)
From S2P Require Import Prelude Wire NnList Priolist Pipe LbFq Msg.

Definition NN_SOCKBASE_EVENT_IN : Z := 1.
Definition NN_SOCKBASE_EVENT_OUT : Z := 2.

Definition NN_PROTO_PAIR : Z := 1.
Definition NN_PROTO_PUBSUB : Z := 2.
Definition NN_PROTO_REQREP : Z := 3.
Definition NN_PROTO_PIPELINE : Z := 5.
Definition NN_PROTO_SURVEY : Z := 6.
Definition NN_PROTO_BUS : Z := 7.

Definition NN_PAIR : Z := NN_PROTO_PAIR * 16 + 0.
Definition NN_PUB : Z := NN_PROTO_PUBSUB * 16 + 0.
Definition NN_SUB : Z := NN_PROTO_PUBSUB * 16 + 1.
Definition NN_REQ : Z := NN_PROTO_REQREP * 16 + 0.
Definition NN_REP : Z := NN_PROTO_REQREP * 16 + 1.
Definition NN_PUSH : Z := NN_PROTO_PIPELINE * 16 + 0.
Definition NN_PULL : Z := NN_PROTO_PIPELINE * 16 + 1.
Definition NN_SURVEYOR : Z := NN_PROTO_SURVEY * 16 + 2.
Definition NN_RESPONDENT : Z := NN_PROTO_SURVEY * 16 + 3.
Definition NN_BUS : Z := NN_PROTO_BUS * 16 + 0.

(** The lowest and highest priority a pipe can have. *)
Definition prio_ok (priority : Z) : Prop := 1 ≤ priority ≤ NN_PRIOLIST_SLOTS.

(** [nn_assert (rcvprio >= 1 && rcvprio <= 16)]: every protocol checks the
    priority it got from [nn_pipe_getopt]. *)
Definition assert_prio (priority : Z) : outcome unit :=
  nn_assert ((1 <=? priority) && (priority <=? 16)).

Lemma assert_prio_ok priority : prio_ok priority → assert_prio priority = Ret tt.
Proof.
  unfold prio_ok, assert_prio, NN_PRIOLIST_SLOTS. intros.
  by rewrite (proj2 (Z.leb_le 1 _)), (proj2 (Z.leb_le _ 16)) by lia.
Qed.

(** ** Pipe pointers as message headers

    The raw protocols store a [struct nn_pipe*] in eight bytes of the header of
    a message ([memcpy]; the bytes are little-endian on the hosts considered). *)
Definition ptr_bytes (p : pid) : list Z := reverse (be_split 8 (Zpos p)).
Definition bytes_ptr (bs : list Z) : option pid :=
  match be_combine (reverse bs) with Zpos p => Some p | _ => None end.

Lemma ptr_bytes_length p : length (ptr_bytes p) = 8%nat.
Proof. unfold ptr_bytes. by rewrite length_reverse, length_be_split. Qed.

Lemma bytes_ptr_bytes p : Zpos p < 2 ^ 64 → bytes_ptr (ptr_bytes p) = Some p.
Proof.
  intros. unfold bytes_ptr, ptr_bytes. rewrite reverse_involutive.
  by rewrite be_combine_split by (cbn; lia).
Qed.

(** ** Worlds with finitely many messages

    At any time the transports hold finitely many messages: another one arrives
    only when the world changes, between two calls into a protocol. *)
Class PipeFinite (W M : Type) `{PipeOpsOk W M} := {
  pending : W → nat;
  pending_recv w p w' rc m :
    pipe_inv w → p ∈ readable w → nn_pipe_recv w p = Ret (w', rc, m) →
    (pending w' < pending w)%nat;
}.

(** Every message that can be received from [w], before another one arrives,
    is [good]. *)
Definition delivers `{PipeOps W M} (good : M → Prop) (w : W) : Prop :=
  ∃ Ok : W → Prop, Ok w ∧ ∀ w p w' rc m, Ok w → nn_pipe_recv w p = Ret (w', rc, m) → good m ∧ Ok w'.

(** A transport that does not split messages into header and body delivers them
    with an empty header. *)
Class PipeParse (W : Type) `{PipeOpsOk W vmsg} := parse_ok w p w' rc m :
  pipe_inv w → p ∈ readable w → nn_pipe_recv w p = Ret (w', rc, m) →
  Z.land rc NN_PIPE_PARSED = 0 → sphdr m = [].

(** ** The functions of a protocol *)

(** [nat] bounds the iterations of loops that receive until a message is good. *)
Class Proto (St W M : Type) := {
  proto_add : St → pid → Z → Z → outcome (St * Z);
  proto_rm : St → pid → outcome St;
  proto_in : nat → St → W → pid → outcome (St * W);
  proto_out : St → W → pid → outcome (St * W);
  proto_events : St → Z;
  proto_send : St → W → M → outcome (St * W * Z);
  proto_recv : nat → St → W → outcome (St * W * Z * option M);
  proto_destroy : St → outcome unit;
  proto_hears : bool;      (* whether peers of this socket type send messages *)
  proto_room : St → bool;  (* whether another pipe can be identified *)
  proto_takes : M → bool;  (* whether the user may send a message like this *)
}.

(** The calls of the core.  Between two calls the world evolves by itself; what
    a call says about its new world [w'] is part of it. *)
Inductive call (W M : Type) : Type :=
| C_add (p : pid) (sndprio rcvprio : Z)
| C_rm (p : pid) (w' : W)
| C_in (p : pid) (w' : W)
| C_out (p : pid) (w' : W)
| C_send (m : M)
| C_recv.
Arguments C_add {W M}.
Arguments C_rm {W M}.
Arguments C_in {W M}.
Arguments C_out {W M}.
Arguments C_send {W M}.
Arguments C_recv {W M}.

Section contract.
Context `{PipeOpsOk W M}.

(** The world changes without the protocol sending or receiving. *)
Definition env (w w' : W) : Prop := pipe_inv w' ∧ sent w' = sent w ∧ recvd w' = recvd w.

(** When the core makes a call, with [ps] the attached pipes. *)
Definition allowed (w : W) (ps : gset pid) (c : call W M) : Prop :=
  match c with
  | C_add p sp rp => p ∉ ps ∧ p ∉ writable w ∧ p ∉ readable w ∧ prio_ok sp ∧ prio_ok rp ∧
      Z.of_nat (size ps) + 2 < 2 ^ 32
  | C_rm p w' => p ∈ ps ∧ env w w' ∧ writable w' = writable w ∖ {[p]} ∧
      readable w' = readable w ∖ {[p]}
  | C_in p w' => p ∈ ps ∧ p ∉ readable w ∧ env w w' ∧ writable w' = writable w ∧
      readable w' = {[p]} ∪ readable w
  | C_out p w' => p ∈ ps ∧ p ∉ writable w ∧ env w w' ∧ writable w' = {[p]} ∪ writable w ∧
      readable w' = readable w
  | C_send _ | C_recv => True
  end.

End contract.

(** What a protocol promises. *)
Class ProtoOk (St W M : Type) `{PipeFinite W M, !Proto St W M} := {
  proto_inv : St → W → gset pid → Prop;
  proto_add_ok s w ps p sp rp :
    proto_inv s w ps → proto_room (W := W) (M := M) s = true → allowed w ps (C_add p sp rp) →
    ∃ s' rc, proto_add s p sp rp = Ret (s', rc) ∧ rc ≤ 0 ∧
      proto_inv s' w (if rc =? 0 then {[p]} ∪ ps else ps);
  proto_rm_ok s w ps p w' :
    proto_inv s w ps → allowed w ps (C_rm p w') →
    ∃ s', proto_rm s p = Ret s' ∧ proto_inv s' w' (ps ∖ {[p]});
  proto_in_ok fuel s w ps p w' :
    proto_hears (St := St) (W := W) (M := M) = true → proto_inv s w ps → allowed w ps (C_in p w') → (pending w' < fuel)%nat →
    ∃ s' w'', proto_in fuel s w' p = Ret (s', w'') ∧ proto_inv s' w'' ps;
  proto_out_ok s w ps p w' :
    proto_inv s w ps → allowed w ps (C_out p w') →
    ∃ s' w'', proto_out s w' p = Ret (s', w'') ∧ proto_inv s' w'' ps;
  proto_send_ok s w ps m :
    proto_inv s w ps → proto_takes (St := St) (W := W) m = true →
    ∃ s' w' rc, proto_send s w m = Ret (s', w', rc) ∧ rc ≤ 0 ∧ proto_inv s' w' ps;
  proto_recv_ok fuel s w ps :
    proto_inv s w ps → (pending w < fuel)%nat →
    ∃ s' w' rc m, proto_recv fuel s w = Ret (s', w', rc, m) ∧ rc ≤ 0 ∧ proto_inv s' w' ps;
  proto_destroy_ok s w : proto_inv s w ∅ → proto_destroy s = Ret tt;
  proto_env_ok s w ps w' :
    proto_inv s w ps → env w w' → writable w' = writable w → readable w' = readable w →
    proto_inv s w' ps;
  proto_events_ok s w ps : proto_inv s w ps → 0 ≤ proto_events (W := W) (M := M) s;
}.

(** ** What a protocol does to the pipes

    A protocol reaches its pipes only by sending to them and receiving from
    them; everything else about them is as before a call. *)
Definition pipe_move `{PipeOps W M} (w w' : W) : Prop :=
  (∃ p m rc, nn_pipe_send w p m = Ret (w', rc)) ∨ (∃ p rc m, nn_pipe_recv w p = Ret (w', rc, m)).
Definition moved `{PipeOps W M} : W → W → Prop := rtc (pipe_move (M := M)).

Class ProtoFrame (St W M : Type) `{ProtoOk St W M} := {
  proto_inv_world s w ps : proto_inv s w ps → pipe_inv w;
  proto_in_moved fuel s w p s' w' : proto_in fuel s w p = Ret (s', w') → moved w w';
  proto_out_moved s w p s' w' : proto_out s w p = Ret (s', w') → moved w w';
  proto_send_moved s w m s' w' rc : proto_send s w m = Ret (s', w', rc) → moved w w';
  proto_recv_moved fuel s w s' w' rc r : proto_recv fuel s w = Ret (s', w', rc, r) → moved w w';
}.

(** ** Sessions *)

Section session.
Context `{PipeFinite W M} `{Proto St W M}.

Definition session : Type := St * W * gset pid.

(** One call; the fuel is one more than the messages there are to receive. *)
Definition call_step (σ : session) (c : call W M) : outcome session :=
  let '(s, w, ps) := σ in
  match c with
  | C_add p sp rp =>
      '(s, rc) ← proto_add s p sp rp;
      Ret (s, w, if rc =? 0 then {[p]} ∪ ps else ps)
  | C_rm p w' => s ← proto_rm s p; Ret (s, w', ps ∖ {[p]})
  | C_in p w' => '(s, w') ← proto_in (S (pending w')) s w' p; Ret (s, w', ps)
  | C_out p w' => '(s, w') ← proto_out s w' p; Ret (s, w', ps)
  | C_send m => '(s, w, _) ← proto_send s w m; Ret (s, w, ps)
  | C_recv => '(s, w, _, _) ← proto_recv (S (pending w)) s w; Ret (s, w, ps)
  end.

(** A peer that the protocol does not expect to send does not send, there is
    room for the pipes that connect, and the user's messages are well formed. *)
Definition legal (s : St) (c : call W M) : Prop :=
  match c with
  | C_add _ _ _ => proto_room (W := W) (M := M) s = true
  | C_in _ _ => proto_hears (St := St) (W := W) (M := M) = true
  | C_send m => proto_takes (St := St) (W := W) m = true
  | _ => True
  end.

(** The states of a session that starts in [s0], [w0] without pipes. *)
Inductive reach (s0 : St) (w0 : W) : session → Prop :=
| reach_start : reach s0 w0 (s0, w0, ∅)
| reach_call σ c σ' :
    reach s0 w0 σ → legal σ.1.1 c → allowed σ.1.2 σ.2 c → call_step σ c = Ret σ' → reach s0 w0 σ'.

(** Calls one after the other. *)
Fixpoint calls (σ : session) (cs : list (call W M)) : outcome session :=
  match cs with [] => Ret σ | c :: cs => σ ← call_step σ c; calls σ cs end.

Context `{!ProtoOk St W M}.

Lemma call_step_ok s w ps c :
  proto_inv s w ps → legal s c → allowed w ps c →
  ∃ s' w' ps', call_step (s, w, ps) c = Ret (s', w', ps') ∧ proto_inv s' w' ps'.
Proof.
  intros Hi Hl Ha. destruct c as [p sp rp|p w'|p w'|p w'|m|]; cbn.
  - destruct (proto_add_ok _ _ _ _ _ _ Hi Hl Ha) as (s' & rc & -> & _ & Hi'). step. eauto.
  - destruct (proto_rm_ok _ _ _ _ _ Hi Ha) as (s' & -> & Hi'). step. eauto.
  - destruct (proto_in_ok (S (pending w')) _ _ _ _ _ Hl Hi Ha) as (s' & w2 & -> & Hi'); [lia|]. step. eauto.
  - destruct (proto_out_ok _ _ _ _ _ Hi Ha) as (s' & w2 & -> & Hi'). step. eauto.
  - destruct (proto_send_ok _ _ _ m Hi Hl) as (s' & w2 & rc & -> & _ & Hi'). step. eauto.
  - destruct (proto_recv_ok (S (pending w)) _ _ _ Hi) as (s' & w2 & rc & m & -> & _ & Hi'); [lia|]. step. eauto.
Qed.

Lemma reach_inv s0 w0 σ :
  proto_inv s0 w0 ∅ → reach s0 w0 σ → proto_inv σ.1.1 σ.1.2 σ.2.
Proof.
  intros Hi. induction 1 as [|[[s w] ps] c σ' Hr IH Hl Ha E]; [done|].
  destruct (call_step_ok s w ps c IH Hl Ha) as (s' & w' & ps' & E' & ?).
  rewrite E in E'. by injection E' as ->.
Qed.

(** Every call the core may make returns, and the last state can be destroyed
    once all pipes are gone. *)
Lemma session_safe s0 w0 s w ps c :
  proto_inv s0 w0 ∅ → reach s0 w0 (s, w, ps) → legal s c → allowed w ps c →
  (∃ σ', call_step (s, w, ps) c = Ret σ' ∧ reach s0 w0 σ') ∧
  (ps = ∅ → proto_destroy s = Ret tt).
Proof.
  intros Hi Hr Hl Ha. pose proof (reach_inv _ _ _ Hi Hr) as Hinv. split.
  - destruct (call_step_ok s w ps c Hinv Hl Ha) as (s' & w' & ps' & E & _).
    exists (s', w', ps'). split; [done|]. by eapply reach_call.
  - intros ->. by eapply proto_destroy_ok.
Qed.

End session.
