(* ===== verification/Core.v ===== *)
(** * The pipes of a socket as the world of its protocol

    [PipeOps] abstracts from what a protocol sends to and receives from.  Inside
    a socket these are the pipes of core/pipe.c, together with what the protocol
    was told about them: [psys] of Pipe.v.  The protocol's view [s] may know less
    than [psys] does, because a socket that is being closed drops the events of
    its pipes; [core_inv] says that what it knows is true. *)
From S2P Require Import Prelude NnList Priolist Pipe Msg Protocol.

(** A transport that holds finitely many messages at any time: when another
    message is there at once, there are fewer left. *)
Class TransportFinite (TW M : Type) `{TransportOk TW M} := {
  t_pending : TW → nat;
  t_pending_recv t p t' rc m cbs :
    t_recv t p = (t', rc, m, cbs) →
    (t_pending t' + (if decide (cbs = []) then 0 else 1) ≤ t_pending t)%nat;
}.

Section world.
Context `{TransportOk TW M}.

Definition core_send (s : psys (TW := TW)) (p : pid) (m : M) : outcome (psys * Z) :=
  '(w, rc) ← nn_pipe_send_impl (pw s) p m;
  Ret (PSys w (if released rc then can_out s ∖ {[p]} else can_out s) (can_in s), rc).

Definition core_recv (s : psys (TW := TW)) (p : pid) : outcome (psys * Z * M) :=
  '(w, rc, m) ← nn_pipe_recv_impl (pw s) p;
  Ret (PSys w (can_out s) (if released rc then can_in s ∖ {[p]} else can_in s), rc, m).

#[export] Instance core_ops : PipeOps psys M := {
  nn_pipe_send := core_send;
  nn_pipe_recv := core_recv;
}.

Definition core_inv (s : psys (TW := TW)) : Prop :=
  ∃ full : psys, psys_inv full ∧ pw full = pw s ∧ can_out s ⊆ can_out full ∧ can_in s ⊆ can_in full.

Lemma core_out_idle s p : core_inv s → p ∈ can_out s →
  ∃ b, bases (pw s) !! p = Some b ∧ pstate b = NN_PIPEBASE_STATE_ACTIVE ∧ outstate b = OUT_IDLE ∧
    (p, NN_PIPE_OUT) ∉ events (pw s).
Proof.
  intros (full & Hf & E & Ho & _) Hp. apply Ho in Hp.
  destruct (known_active full p Hf (or_introl Hp)) as [b Ha].
  destruct (active_ok _ _ _ Hf Ha) as [(_ & Hi & Hn) _]. rewrite <- E. exists b. destruct Ha. tauto.
Qed.

Lemma core_in_idle s p : core_inv s → p ∈ can_in s →
  ∃ b, bases (pw s) !! p = Some b ∧ pstate b = NN_PIPEBASE_STATE_ACTIVE ∧ instate b = IN_IDLE ∧
    (p, NN_PIPE_IN) ∉ events (pw s).
Proof.
  intros (full & Hf & E & _ & Ho) Hp. apply Ho in Hp.
  destruct (known_active full p Hf (or_intror Hp)) as [b Ha].
  destruct (active_ok _ _ _ Hf Ha) as [_ (_ & Hi & Hn)]. rewrite <- E. exists b. destruct Ha. tauto.
Qed.

(** A step of the whole system is a step of the view. *)
Lemma core_lift (s : psys) a (f : psys → psys) :
  core_inv s → (∀ full, psys_inv full → pw full = pw s → can_out s ⊆ can_out full → can_in s ⊆ can_in full →
    enabled (M := M) full a ∧ ∀ full', pstep full a = Ret full' →
      pw full' = pw (f s) ∧ can_out (f s) ⊆ can_out full' ∧ can_in (f s) ⊆ can_in full') →
  core_inv (f s).
Proof.
  intros (full & Hf & E & Ho & Hi) Hstep. destruct (Hstep full Hf E Ho Hi) as [Hen Hk].
  destruct (pstep_ok full a Hf Hen) as (full' & Es & Hf'). destruct (Hk _ Es) as (? & ? & ?).
  by exists full'.
Qed.

Lemma core_send_ok s p m : core_inv s → p ∈ can_out s →
  ∃ s' rc, core_send s p m = Ret (s', rc) ∧ core_inv s' ∧ (rc = 0 ∨ rc = NN_PIPE_RELEASE) ∧
    t_sent (tworld (pw s')) = t_sent (tworld (pw s)) ++ [(p, m)] ∧
    t_recvd (tworld (pw s')) = t_recvd (tworld (pw s)) ∧
    can_out s' = (if released rc then can_out s ∖ {[p]} else can_out s) ∧ can_in s' = can_in s ∧
    dom (bases (pw s')) = dom (bases (pw s)) ∧ events (pw s') = events (pw s).
Proof.
  intros Hi Hp. destruct (core_out_idle s p Hi Hp) as (b & Hb & _ & Ho & _).
  destruct (nn_pipe_send_impl_ok (pw s) p m b Hb Ho) as (t & sync & _ & E & Hs & Hr).
  unfold core_send. rewrite E. step. eexists _, _. split; [reflexivity|]. split_and!; cbn; try done.
  - eapply (core_lift s (A_send p m) (λ s, PSys _ _ _)); [done|]. intros full Hf Ef Ho' Hi'.
    split; [by apply Ho'|]. intros full'. cbn. rewrite Ef, E. step. intros [= <-]. cbn.
    split; [done|]. destruct (released _); set_solver.
  - destruct sync; auto.
  - rewrite dom_insert_lookup_L; [done|by eexists].
Qed.

Lemma core_recv_ok s p : core_inv s → p ∈ can_in s →
  ∃ s' rc m, core_recv s p = Ret (s', rc, m) ∧ core_inv s' ∧ 0 ≤ rc < 4 ∧
    t_sent (tworld (pw s')) = t_sent (tworld (pw s)) ∧
    t_recvd (tworld (pw s')) = t_recvd (tworld (pw s)) ++ [(p, m)] ∧
    can_in s' = (if released rc then can_in s ∖ {[p]} else can_in s) ∧ can_out s' = can_out s ∧
    dom (bases (pw s')) = dom (bases (pw s)) ∧ events (pw s') = events (pw s).
Proof.
  intros Hi Hp. destruct (core_in_idle s p Hi Hp) as (b & Hb & _ & Ho & _).
  destruct (nn_pipe_recv_impl_ok (pw s) p b Hb Ho) as (t & rc & m & sync & _ & Hrc & E & Hs & Hr).
  destruct (released_sync rc Hrc) as (_ & _ & ? & ?).
  unfold core_recv. rewrite E. step. eexists _, _, _. split; [reflexivity|]. split_and!; cbn; try done.
  - eapply (core_lift s (A_recv p) (λ s, PSys _ _ _)); [done|]. intros full Hf Ef Ho' Hi'.
    split; [by apply Hi'|]. intros full'. cbn. rewrite Ef, E. step. intros [= <-]. cbn.
    split; [done|]. destruct (released _); set_solver.
  - destruct sync; lia.
  - destruct sync; lia.
  - rewrite dom_insert_lookup_L; [done|by eexists].
Qed.

#[export] Program Instance core_ops_ok : PipeOpsOk psys M := {|
  pipe_inv := core_inv;
  writable := can_out;
  readable := can_in;
  sent s := t_sent (tworld (pw s));
  recvd s := t_recvd (tworld (pw s));
|}.
Next Obligation.
  intros s p m Hi Hp. destruct (core_send_ok s p m Hi Hp) as (s' & rc & ? & ? & ? & ? & ? & ? & ? & _).
  by exists s', rc.
Qed.
Next Obligation.
  intros s p Hi Hp. destruct (core_recv_ok s p Hi Hp) as (s' & rc & m & ? & ? & ? & ? & ? & ? & ? & _).
  by exists s', rc, m.
Qed.

(** Sending and receiving leave everything else about the pipes as it was. *)
Record same_pipes (s s' : psys (TW := TW)) : Prop := {
  sp_events : events (pw s') = events (pw s);
  sp_pstate p : pstate <$> bases (pw s') !! p = pstate <$> bases (pw s) !! p;
  sp_out : can_out s' ⊆ can_out s;
  sp_in : can_in s' ⊆ can_in s;
}.

Lemma lookup_insert_pstate (bs : gmap pid nn_pipebase) p q b b' :
  bs !! p = Some b → pstate b' = pstate b → pstate <$> <[p := b']> bs !! q = pstate <$> bs !! q.
Proof.
  intros Hb E. destruct (decide (p = q)) as [<-|]; [|by rewrite lookup_insert_ne].
  by rewrite lookup_insert_eq, Hb; cbn; f_equal.
Qed.

Lemma core_send_same s p m s' rc : core_send s p m = Ret (s', rc) → same_pipes s s'.
Proof.
  unfold core_send. destruct (nn_pipe_send_impl (pw s) p m) as [[w r]|] eqn:Es; [step|done]. intros [= <- <-].
  pose proof Es as E. unfold nn_pipe_send_impl, get_base in E. inv_ret.
  edestruct (nn_pipe_send_impl_ok (pw s) p m) as (t & sync & _ & E' & _);
    [eassumption|by eapply bool_decide_eq_true_1|].
  rewrite E' in Es. simplify_eq. split; cbn; [done|by intros q; eapply lookup_insert_pstate| |done].
  destruct (released _); set_solver.
Qed.

Lemma core_recv_same s p s' rc m : core_recv s p = Ret (s', rc, m) → same_pipes s s'.
Proof.
  unfold core_recv. destruct (nn_pipe_recv_impl (pw s) p) as [[[w r] x]|] eqn:Es; [step|done]. intros [= <- <- <-].
  pose proof Es as E. unfold nn_pipe_recv_impl, get_base in E. inv_ret.
  edestruct (nn_pipe_recv_impl_ok (pw s) p) as (t & rc0 & m0 & sync & _ & _ & E' & _);
    [eassumption|by eapply bool_decide_eq_true_1|].
  rewrite E' in Es. simplify_eq. split; cbn; [done|by intros q; eapply lookup_insert_pstate|done|].
  destruct (released _); set_solver.
Qed.

Lemma moved_same (s s' : psys) : moved (M := M) s s' → same_pipes s s'.
Proof.
  induction 1 as [s|s s1 s' [(p & m & rc & E)|(p & rc & m & E)] _ IH].
  - by split.
  - destruct (core_send_same _ _ _ _ _ E), IH. split; [congruence|congruence|set_solver..].
  - destruct (core_recv_same _ _ _ _ _ E), IH. split; [congruence|congruence|set_solver..].
Qed.

End world.

(** A transport marks the messages it has split into header and body. *)
Class TransportParse (TW : Type) `{TransportOk TW vmsg} := t_parse t p t' rc m cbs :
  t_recv t p = (t', rc, m, cbs) → rc = 0 → sphdr m = [].

#[export] Instance core_parse `{TransportParse TW} : PipeParse psys.
Proof.
  intros s p s' rc m Hi Hp. cbn. destruct (core_in_idle s p Hi Hp) as (b & Hb & _ & Ho & _).
  destruct (nn_pipe_recv_impl_ok (pw s) p b Hb Ho) as (t & rc0 & m0 & sync & Et & Hrc & E & _).
  unfold core_recv. rewrite E. step. intros [= <- <- <-] Hz. apply (t_parse _ _ _ _ _ _ Et).
  destruct Hrc as [-> | ->]; [done|]. by destruct sync.
Qed.

#[export] Program Instance core_finite `{TransportFinite TW M} : PipeFinite psys M := {|
  pending s := (t_pending (tworld (pw s)) + size (can_in s))%nat |}.
Next Obligation.
  intros TW M ? ? ? s p s' rc m Hi Hp. cbn in *. destruct (core_in_idle s p Hi Hp) as (b & Hb & _ & Ho & _).
  destruct (nn_pipe_recv_impl_ok (pw s) p b Hb Ho) as (t & rc0 & m0 & sync & Et & Hrc & E & _).
  destruct (released_sync rc0 Hrc) as (Hr0 & Hr1 & _).
  pose proof (t_pending_recv _ _ _ _ _ _ Et) as Hpend.
  unfold core_recv. rewrite E. step. intros [= <- <- <-]. cbn. destruct sync; rewrite ?Hr0, ?Hr1.
  - rewrite decide_False in Hpend by done. lia.
  - rewrite decide_True in Hpend by done. rewrite size_difference by set_solver. rewrite size_singleton.
    assert (size (can_in s) ≠ 0%nat); [|lia]. rewrite size_non_empty_iff. set_solver.
Qed.

(** ** A transport for examples: at most [budget] messages are there at once *)
Module Finite.

Record ftw (M : Type) := Ftw { f_sent : list (pid * M); f_recvd : list (pid * M); budget : nat }.
Arguments Ftw {M}.
Arguments f_sent {M}.
Arguments f_recvd {M}.
Arguments budget {M}.

Import Sample.

#[export] Instance finite_transport `{Inbox M} : Transport (ftw M) M := {
  t_send t p m :=
    (Ftw (f_sent t ++ [(p, m)]) (f_recvd t) (budget t), 0, if is_even p then [CbSent] else []);
  t_recv t p :=
    (Ftw (f_sent t) (f_recvd t ++ [(p, inbox p)]) (pred (budget t)), NN_PIPE_PARSED, inbox p,
     if budget t is S _ then [CbReceived] else []);
}.

#[export] Program Instance finite_transport_ok `{Inbox M} : TransportOk (ftw M) M := {|
  t_sent := f_sent; t_recvd := f_recvd |}.
Next Obligation.
  intros M ? t p m t' rc cbs [= <- <- <-]. split_and!; [done| |done..]. destruct (is_even p); auto.
Qed.
Next Obligation.
  intros M ? t p m t' rc cbs [= <- <- <- <-]. split_and!; [by right| |done..]. destruct (budget t); auto.
Qed.

#[export] Program Instance finite_finite `{Inbox M} : TransportFinite (ftw M) M := {| t_pending := budget |}.
Next Obligation. intros M ? t p t' rc m cbs [= <- <- <- <-]. cbn [budget]. destruct (budget t); case_decide; cbn; (done || lia). Qed.

End Finite.
