(* ===== verification/Attach.v ===== *)
(** * The pipes attached to a socket, in a priolist and in a distributor

    The protocols keep one item per attached pipe in a load balancer, a fair
    queue or a distributor.  An item is identified by its pipe here: each of
    these structures has a store of its own.  [pl_inv] and [ds_inv] say that the
    active items are those of the usable pipes, and every operation of lb.c,
    fq.c and dist.c that a protocol calls maintains that. *)
From S2P Require Import Prelude NnList Priolist Pipe LbFq Msg Dist Protocol.

(** ** Priolists *)

Definition pl_at (p : prio) (ps ok : gset pid) : Prop :=
  (∀ x d, pinfo p !! x = Some d → ppipe d = x) ∧
  (∀ x, x ∈ ps → is_Some (pinfo p !! x)) ∧
  (∀ x, is_Some (pinfo p !! x) ∧ x ∉ pidle p ↔ x ∈ ps ∧ x ∈ ok).

Section priolist.
Context `{ListStoreOk T}.

Definition pl_inv (self : nn_priolist T) (ps ok : gset pid) : Prop :=
  ∃ p, prep self p ∧ pl_at p ps ok.

Lemma pl_init s σ ok :
  l_rep s σ → lseq σ = ∅ → lfree σ = ∅ → pl_inv (nn_priolist_init s) ∅ ok.
Proof.
  intros Hr He Hf. exists prio_empty. split; [by eapply nn_priolist_init_ok|].
  split_and!; [done|set_solver|]. intros x. cbn. rewrite lookup_empty. split; [|set_solver].
  by intros [[? ?] _].
Qed.

Lemma pl_frame self ps ok ok' :
  (∀ x, x ∈ ps → x ∈ ok ↔ x ∈ ok') → pl_inv self ps ok → pl_inv self ps ok'.
Proof.
  intros He (p & Hr & H1 & H2 & H3). exists p. do 3 (split; [done|]). intros x. rewrite H3.
  specialize (He x). tauto.
Qed.

Lemma pl_add self ps ok x priority :
  pl_inv self ps ok → x ∉ ps → x ∉ ok → prio_ok priority →
  pl_inv (nn_priolist_add self x x priority) ({[x]} ∪ ps) ok.
Proof.
  intros (p & Hr & H1 & H2 & H3) Hx Hok Hpr. exists (prio_add p x x priority).
  split; [apply nn_priolist_add_ok; [done..|]|].
  - destruct (pinfo p !! x) eqn:E; [|by left]. right.
    destruct (decide (x ∈ pidle p)); [done|]. destruct Hx. by apply (H3 x).
  - split_and!; cbn.
    + intros y d [[<- <-]|[_ ?]]%lookup_insert_Some; [done|by eapply H1].
    + intros y Hy. destruct (decide (x = y)) as [->|]; [by rewrite lookup_insert_eq|].
      rewrite lookup_insert_ne by done. apply H2. set_solver.
    + intros y. destruct (decide (x = y)) as [->|]; [set_solver|].
      rewrite lookup_insert_ne by done. specialize (H3 y). set_solver.
Qed.

Lemma pl_rm self ps ok x :
  pl_inv self ps ok → x ∈ ps →
  ∃ self', nn_priolist_rm self x = Ret self' ∧ pl_inv self' (ps ∖ {[x]}) (ok ∖ {[x]}).
Proof.
  intros (p & Hr & H1 & H2 & H3) Hx.
  destruct (nn_priolist_rm_ok _ _ _ Hr (H2 _ Hx)) as (self' & E & Hr').
  exists self'. split; [done|]. exists (prio_rm p x). split; [done|].
  unfold prio_rm in *. destruct (decide (x ∈ pidle p)) as [Hi|Hi]; cbn.
  - split_and!; [done|set_solver|]. intros y. destruct (decide (x = y)) as [->|]; [set_solver|].
    rewrite H3. set_solver.
  - split_and!; cbn; [done|set_solver|]. intros y. destruct (decide (x = y)) as [->|]; [set_solver|].
    specialize (H3 y). set_solver.
Qed.

Lemma pl_activate self ps ok x :
  pl_inv self ps ok → x ∈ ps → x ∉ ok →
  ∃ self', nn_priolist_activate self x = Ret self' ∧ pl_inv self' ps ({[x]} ∪ ok).
Proof.
  intros (p & Hr & H1 & H2 & H3) Hx Hok.
  assert (x ∈ pidle p) as Hi.
  { destruct (decide (x ∈ pidle p)); [done|]. destruct Hok. apply (H3 x). by split; [apply H2|]. }
  destruct (nn_priolist_activate_ok _ _ _ Hr Hi) as (self' & E & Hr').
  exists self'. split; [done|]. exists (prio_activate p x). split; [done|].
  split_and!; cbn; [done..|]. intros y. destruct (decide (x = y)) as [->|]; [set_solver|].
  specialize (H3 y). set_solver.
Qed.

Lemma pl_term self ok : pl_inv self ∅ ok → nn_priolist_term self = Ret tt.
Proof.
  intros (p & Hr & H1 & H2 & H3). rewrite (nn_priolist_term_ok _ _ Hr).
  assert (prio_current p = None) as Hc.
  { destruct (prio_current p) as [[i x]|] eqn:Hc; [|done].
    pose proof (proj1 (H3 x) (prio_current_info _ _ _ _ Hr Hc)). set_solver. }
  apply prio_current_None in Hc. rewrite first_slot_None in Hc.
  assert (forallb zempty (zslots p) = true) as ->; [|done].
  apply forallb_forall. intros z Hz%list_elem_of_In. apply list_elem_of_lookup in Hz as [i Hi].
  by eapply Hc.
Qed.

(** The current pipe, if there is a usable one. *)
Lemma pl_current self p ps ok :
  prep self p → pl_at p ps ok →
  (prio_current p = None ∧ nn_priolist_is_active self = false ∧ (∀ x, x ∈ ps → x ∉ ok)) ∨
  (∃ i x d, prio_current p = Some (i, x) ∧ pinfo p !! x = Some d ∧ ppipe d = x ∧
     x ∈ ps ∧ x ∈ ok ∧ nn_priolist_is_active self = true).
Proof.
  intros Hr (H1 & H2 & H3). destruct (nn_priolist_getpipe_ok _ _ Hr) as (_ & Ha & _).
  destruct (prio_current p) as [[i x]|] eqn:Hc.
  - right. destruct (prio_current_info _ _ _ _ Hr Hc) as [[d Hd] Hi].
    destruct (proj1 (H3 x)) as [??]; [by split|].
    exists i, x, d. split_and!; try done. by eapply H1.
  - left. split_and!; [done|by rewrite Ha|]. intros x Hx Hok.
    destruct (proj2 (H3 x) (conj Hx Hok)) as [[d Hd] Hi]. destruct Hi.
    by eapply prio_current_idle.
Qed.

Lemma pl_advance p ps ok i x (r : bool) :
  pl_at p ps ok → prio_current p = Some (i, x) → x ∈ ps →
  pl_at (prio_advance p r) ps (if r then ok ∖ {[x]} else ok).
Proof.
  intros (H1 & H2 & H3) Hc Hx. unfold pl_at. rewrite prio_advance_info. split_and!; [done..|].
  intros y. unfold prio_advance. rewrite Hc. cbn. destruct r; [|apply H3].
  specialize (H3 y). set_solver.
Qed.

Context `{PipeOpsOk W M}.

Lemma pl_pipes_in p ps ok : pl_at p ps ok → pipes_in p ok.
Proof.
  intros (E1 & E2 & E3). split.
  - intros x d Hd Hi. rewrite (E1 _ _ Hd). by apply (E3 x).
  - intros x y dx dy Hx Hy. by rewrite (E1 _ _ Hx), (E1 _ _ Hy).
Qed.

Lemma pl_send self w ps m :
  pl_inv self ps (writable w) → pipe_inv w →
  (nn_lb_can_send self = false ∧ (∀ x, x ∈ ps → x ∉ writable w) ∧
     nn_lb_send self w m = Ret (self, w, - EAGAIN, None)) ∨
  (nn_lb_can_send self = true ∧ ∃ self' w' rc x,
     nn_lb_send self w m = Ret (self', w', rc, Some x) ∧ x ∈ ps ∧ x ∈ writable w ∧
     rc = 0 ∧ pipe_inv w' ∧ pl_inv self' ps (writable w') ∧
     sent w' = sent w ++ [(x, m)] ∧ recvd w' = recvd w ∧ readable w' = readable w ∧
     writable w' ⊆ writable w ∧ writable w ∖ {[x]} ⊆ writable w').
Proof.
  intros (p & Hr & Hp) Hw. destruct (pl_current _ _ _ _ Hr Hp)
    as [(Hc & Ha & Hn)|(i & x & d & Hc & Hd & Hx & Hps & Hok & Ha)]; [left|right].
  - split_and!; [done..|]. unfold nn_lb_send. by rewrite (getpipe_None _ _ Hr Hc).
  - assert (lb_inv self w p) as Hl by by split_and!; try done; apply pl_pipes_in in Hp as [].
    destruct (nn_lb_send_current _ _ _ _ _ _ m Hl Hc Hd)
      as (self' & w' & rc & _ & E & Hrc & Hs & Hrv & Hrd & Hwr & Hl').
    rewrite Hx in *. split; [done|]. exists self', w', (unrelease rc), x.
    split_and!; try done; try lia; try apply Hl'.
    + exists (prio_advance p (released rc)). split; [apply Hl'|]. rewrite Hwr.
      by eapply pl_advance.
    + rewrite Hwr. destruct (released rc); set_solver.
    + rewrite Hwr. destruct (released rc); set_solver.
Qed.

Lemma pl_recv self w ps :
  pl_inv self ps (readable w) → pipe_inv w →
  (nn_fq_can_recv self = false ∧ (∀ x, x ∈ ps → x ∉ readable w) ∧
     nn_fq_recv self w = Ret (self, w, - EAGAIN, None)) ∨
  (nn_fq_can_recv self = true ∧ ∃ self' w' rc0 rc x m,
     nn_pipe_recv w x = Ret (w', rc0, m) ∧ rc = unrelease rc0 ∧
     nn_fq_recv self w = Ret (self', w', rc, Some (x, m)) ∧ x ∈ ps ∧ x ∈ readable w ∧
     0 ≤ rc ≤ NN_PIPE_PARSED ∧ pipe_inv w' ∧ pl_inv self' ps (readable w') ∧
     recvd w' = recvd w ++ [(x, m)] ∧ sent w' = sent w ∧ writable w' = writable w).
Proof.
  intros (p & Hr & Hp) Hw. destruct (pl_current _ _ _ _ Hr Hp)
    as [(Hc & Ha & Hn)|(i & x & d & Hc & Hd & Hx & Hps & Hok & Ha)]; [left|right].
  - split_and!; [done..|]. unfold nn_fq_recv. by rewrite (getpipe_None _ _ Hr Hc).
  - assert (fq_inv self w p) as Hl by by split_and!; try done; apply pl_pipes_in in Hp as [].
    destruct (nn_fq_recv_current _ _ _ _ _ _ Hl Hc Hd)
      as (self' & w' & rc & m & Er & E & Hrc & Hs & Hrv & Hwr & Hrd & Hl').
    rewrite Hx in *. split; [done|]. exists self', w', rc, (unrelease rc), x, m.
    split_and!; try done; try lia; try apply Hl'.
    exists (prio_advance p (released rc)). split; [apply Hl'|]. rewrite Hrd.
    by eapply pl_advance.
Qed.

End priolist.

(** ** Distributors *)

Section dist.
Context `{ListStoreOk T}.

Definition ds_inv (self : nn_dist T) (ps ok : gset pid) : Prop :=
  Z.of_nat (size ps) + 1 < 2 ^ 32 ∧
  ∃ d, drep self d ∧ (∀ x q, dinfo d !! x = Some q → q = x) ∧
    (∀ x, x ∈ ps → x ∈ dlist d ∨ x ∈ didle d) ∧ (∀ x, x ∈ dlist d ↔ x ∈ ps ∧ x ∈ ok).

Lemma ds_init s σ ok :
  l_rep s σ → lseq σ = ∅ → lfree σ = ∅ → ds_inv (nn_dist_init s) ∅ ok.
Proof.
  intros Hr He Hf. split; [rewrite size_empty; lia|]. exists dist_empty.
  split; [by eapply nn_dist_init_ok|]. split_and!; cbn; [|set_solver..].
  intros x q. by rewrite lookup_empty.
Qed.

Lemma ds_frame self ps ok ok' :
  (∀ x, x ∈ ps → x ∈ ok ↔ x ∈ ok') → ds_inv self ps ok → ds_inv self ps ok'.
Proof.
  intros He (Hb & d & Hr & H1 & H2 & H3). split; [done|]. exists d. do 3 (split; [done|]).
  intros x. rewrite H3. specialize (He x). tauto.
Qed.

Lemma ds_add self ps ok x :
  ds_inv self ps ok → x ∉ ps → x ∉ ok → Z.of_nat (size ps) + 2 < 2 ^ 32 →
  ds_inv (nn_dist_add self x x) ({[x]} ∪ ps) ok.
Proof.
  intros (Hb & d & Hr & H1 & H2 & H3) Hx Hok Hsz. split.
  { rewrite size_union by set_solver. rewrite size_singleton. lia. }
  exists (dist_add d x x).
  split; [apply nn_dist_add_ok; [done|]|split_and!; cbn].
  - intros Hin. by apply H3 in Hin as [].
  - intros y q [[<- <-]|[_ ?]]%lookup_insert_Some; [done|by eapply H1].
  - intros y. rewrite !elem_of_union, elem_of_singleton. specialize (H2 y). naive_solver.
  - intros y. rewrite H3. set_solver.
Qed.

Lemma drep_nodup self d : drep self d → NoDup (dlist d).
Proof.
  intros [(σ & Hr & Hl & _) _ _ _ _]. by eapply (l_rep_nodup _ _ _ _ Hr (drep_lookup _ _ Hl)).
Qed.

Lemma ds_length d (ps ok : gset pid) :
  NoDup (dlist d) → (∀ x, x ∈ dlist d ↔ x ∈ ps ∧ x ∈ ok) → (length (dlist d) ≤ size ps)%nat.
Proof.
  intros Hnd Hin. rewrite <- (size_list_to_set (C := gset pid) _ Hnd).
  apply subseteq_size. intros x. rewrite elem_of_list_to_set. naive_solver.
Qed.

Lemma ds_rm self ps ok x :
  ds_inv self ps ok → x ∈ ps →
  ∃ self', nn_dist_rm self x = Ret self' ∧ ds_inv self' (ps ∖ {[x]}) (ok ∖ {[x]}).
Proof.
  intros (Hb & d & Hr & H1 & H2 & H3) Hx.
  destruct (nn_dist_rm_ok _ _ _ Hr (H2 _ Hx)) as (self' & E & Hr').
  exists self'. split; [done|]. split.
  { assert (size (ps ∖ {[x]}) ≤ size ps)%nat by (apply subseteq_size; set_solver). lia. }
  exists (dist_rm d x). split; [done|]. unfold dist_rm in *. case_decide as Hl; cbn.
  - split_and!; cbn; [done| |]; intros y; rewrite list_elem_of_filter.
    + specialize (H2 y). destruct (decide (y = x)); set_solver.
    + rewrite H3. set_solver.
  - split_and!; cbn; [done|set_solver|]. intros y. rewrite H3.
    destruct (decide (y = x)) as [->|]; [|set_solver]. rewrite H3 in Hl. set_solver.
Qed.

Lemma ds_out self ps ok x :
  ds_inv self ps ok → x ∈ ps → x ∉ ok →
  ∃ self', nn_dist_out self x = Ret self' ∧ ds_inv self' ps ({[x]} ∪ ok).
Proof.
  intros (Hb & d & Hr & H1 & H2 & H3) Hx Hok.
  assert (x ∈ didle d) as Hi by (destruct (H2 x Hx) as [[]%H3|]; done).
  pose proof (ds_length _ _ _ (drep_nodup _ _ Hr) H3).
  destruct (nn_dist_out_ok _ _ _ Hr Hi) as (self' & E & Hr'); [lia|].
  exists self'. split; [done|]. split; [done|]. exists (dist_out d x). split; [done|].
  split_and!; cbn; [done| |]; intros y; rewrite elem_of_app, list_elem_of_singleton.
  - specialize (H2 y). destruct (decide (y = x)); set_solver.
  - rewrite H3. set_solver.
Qed.

Lemma ds_term self ok : ds_inv self ∅ ok → nn_dist_term self = Ret tt.
Proof.
  intros (Hb & d & Hr & H1 & H2 & H3). rewrite (nn_dist_term_ok _ _ Hr).
  rewrite bool_decide_eq_true_2; [done|]. destruct (dlist d) as [|x l] eqn:E; [done|].
  destruct (proj1 (H3 x)); set_solver.
Qed.

Lemma ds_pipes self d :
  drep self d → (∀ x q, dinfo d !! x = Some q → q = x) →
  ∀ xs, (∀ x, x ∈ xs → x ∈ dlist d) → dpipes d xs = xs.
Proof.
  intros Hr H1. induction xs as [|x xs IH]; intros Hin; [done|].
  destruct (dr_info _ _ Hr x) as [q Hq]; [left; set_solver|].
  rewrite (dpipes_cons _ _ _ _ Hq), IH by set_solver. by rewrite (H1 _ _ Hq).
Qed.

Context `{PipeOpsOk W vmsg}.

(** A copy goes to every usable pipe but the excluded one. *)
Lemma ds_send self w ps m ex :
  ds_inv self ps (writable w) → pipe_inv w →
  ∃ self' w' l, nn_dist_send self w tt m ex = Ret (self', w', tt, 0) ∧
    NoDup l ∧ (∀ p, p ∈ l ↔ p ∈ ps ∧ p ∈ writable w ∧ Some p ≠ ex) ∧
    sent w' = sent w ++ ((λ p, (p, m)) <$> l) ∧ recvd w' = recvd w ∧
    readable w' = readable w ∧ writable w' ⊆ writable w ∧
    pipe_inv w' ∧ ds_inv self' ps (writable w').
Proof.
  intros (Hb & d & Hr & E1 & E2 & E3) Hw. pose proof (drep_nodup _ _ Hr) as Hnd.
  pose proof (ds_length _ _ _ Hnd E3) as Hlen.
  assert (dpipes d (dlist d) = dlist d) as Hdp by by eapply ds_pipes.
  destruct (nn_dist_send_ok self w tt m ex d 1) as (self' & w' & [] & idle' & E & Hs & Hrv & Hrd & Hsub & Hk & Hinv & _).
  - split_and!; try done; rewrite Hdp; [|done]. intros p Hp. by apply E3.
  - done.
  - lia.
  - lia.
  - exists self', w', (dtargets d ex (dlist d)). split_and!; try done.
    + unfold dtargets. rewrite Hdp. by apply NoDup_filter.
    + intros p. unfold dtargets. rewrite Hdp, list_elem_of_filter, E3. naive_solver.
    + apply Hinv.
    + destruct Hinv as (Hr' & _). split; [done|]. eexists. split; [exact Hr'|]. cbn [dlist didle dinfo].
      assert (∀ x, x ∈ dkeep d (writable w') (dlist d) ↔ x ∈ ps ∧ x ∈ writable w') as Hkeep.
      { intros x. unfold dkeep. rewrite list_elem_of_filter, E3. split.
        - intros [Hx [??]]. destruct (dr_info _ _ Hr x) as [q Hq]; [left; by apply E3|].
          rewrite Hq in Hx. apply bool_decide_eq_true_1 in Hx. by rewrite (E1 _ _ Hq) in Hx.
        - intros [??]. assert (x ∈ dlist d) as Hx by (apply E3; set_solver).
          destruct (dr_info _ _ Hr x (or_introl Hx)) as [q Hq]. rewrite Hq, (E1 _ _ Hq).
          split_and!; [by apply bool_decide_eq_true_2|done|set_solver]. }
      split_and!; [done| |done]. intros x Hx. apply Hk. destruct (E2 x Hx); auto.
Qed.

End dist.
