(* ===== verification/Toy.v ===== *)
(** * A concrete world of pipes, for examples

    Every pipe with an even address accepts any number of messages, the others
    become busy after one; every pipe delivers the messages of its inbox and
    falls silent with the last one.  The world keeps the promises of [PipeOpsOk]
    and [PipeFinite], so that theorems about all worlds can be evaluated on it. *)
From S2P Require Import Prelude Priolist Pipe Msg Protocol.

Record toy (M : Type) := Toy {
  t_out : gset pid;
  t_in : gmap pid (list M);     (* no inbox is empty *)
  t_sent : list (pid * M);
  t_recvd : list (pid * M);
}.
Arguments Toy {M}.
Arguments t_out {M}.
Arguments t_in {M}.
Arguments t_sent {M}.
Arguments t_recvd {M}.

Definition toy_empty {M} : toy M := Toy ∅ ∅ [] [].

Definition is_even (p : pid) : bool := match p with xO _ => true | _ => false end.

(** Whether a message of the inboxes arrives split into header and body. *)
Class ToyMsg (M : Type) := toy_parsed : M → bool.
#[export] Instance toy_z : ToyMsg Z := λ _, true.
#[export] Instance toy_vmsg : ToyMsg vmsg := λ m, bool_decide (sphdr m ≠ []).
Definition toy_rc `{ToyMsg M} (m : M) : Z := if toy_parsed m then NN_PIPE_PARSED else 0.

#[export] Instance toy_ops `{ToyMsg M} : PipeOps (toy M) M := {
  nn_pipe_send w p m :=
    Ret (Toy (if is_even p then t_out w else t_out w ∖ {[p]}) (t_in w) (t_sent w ++ [(p, m)]) (t_recvd w),
         if is_even p then 0 else NN_PIPE_RELEASE);
  nn_pipe_recv w p :=
    match t_in w !! p with
    | Some [m] => Ret (Toy (t_out w) (delete p (t_in w)) (t_sent w) (t_recvd w ++ [(p, m)]),
                       Z.lor (toy_rc m) NN_PIPE_RELEASE, m)
    | Some (m :: ms) => Ret (Toy (t_out w) (<[p := ms]> (t_in w)) (t_sent w) (t_recvd w ++ [(p, m)]),
                             toy_rc m, m)
    | _ => Fail Crash
    end;
}.

Section toy.
Context {M : Type}.

Definition toy_inv (w : toy M) : Prop := map_Forall (λ _ l, l ≠ []) (t_in w).

Lemma toy_recv_ok (w : toy M) p :
  toy_inv w → p ∈ dom (t_in w) →
  ∃ m ms, t_in w !! p = Some (m :: ms) ∧ toy_inv
    (Toy (t_out w) (match ms with [] => delete p (t_in w) | _ => <[p := ms]> (t_in w) end)
       (t_sent w) (t_recvd w ++ [(p, m)])).
Proof.
  intros Hi [l Hl]%elem_of_dom. pose proof (Hi p l Hl).
  destruct l as [|m ms]; [done|]. exists m, ms. split; [done|]. unfold toy_inv. cbn.
  destruct ms; [by apply map_Forall_delete|]. by apply map_Forall_insert_2.
Qed.

Definition toy_pending (w : toy M) : nat := map_fold (λ _ l n, (length l + n)%nat) O (t_in w).

Lemma toy_pending_delete (m : gmap pid (list M)) p l :
  m !! p = Some l →
  map_fold (λ _ l n, (length l + n)%nat) O m =
    (length l + map_fold (λ _ l n, (length l + n)%nat) O (delete p m))%nat.
Proof.
  intros Hl. apply (map_fold_delete_L (λ (_ : pid) (l : list M) n, (length l + n)%nat)); [|done].
  intros; lia.
Qed.

End toy.

#[export] Program Instance toy_ops_ok `{ToyMsg M} : PipeOpsOk (toy M) M := {|
  pipe_inv := toy_inv; writable := t_out; readable w := dom (t_in w);
  sent := t_sent; recvd := t_recvd |}.
Next Obligation.
  intros M ? w p m Hi Hp. eexists _, _. split; [reflexivity|].
  destruct (is_even p); split_and!; auto.
Qed.
Next Obligation.
  intros M ? w p Hi Hp. destruct (toy_recv_ok _ _ Hi Hp) as (m & ms & Hl & Hi').
  cbn. rewrite Hl. unfold toy_rc. destruct ms as [|m' ms]; eexists _, _, _; (split; [reflexivity|]);
    split_and!; try done; cbn; destruct (toy_parsed m); try done; cbn; rewrite ?dom_delete_L; try done.
  all: rewrite dom_insert_L; apply elem_of_dom_2 in Hl; set_solver.
Qed.
#[export] Instance toy_parse : PipeParse (toy vmsg).
Proof.
  intros w p w' rc m Hi Hp. destruct (toy_recv_ok _ _ Hi Hp) as (m' & ms & Hl & _).
  cbn. rewrite Hl. unfold toy_rc, toy_parsed, toy_vmsg.
  destruct ms; intros [= <- <- <-]; case_bool_decide as Hd; try done; intros _;
    destruct (sphdr m'); done || by destruct Hd.
Qed.

#[export] Program Instance toy_finite `{ToyMsg M} : PipeFinite (toy M) M := {| pending := toy_pending |}.
Next Obligation.
  intros M ? w p w' rc m Hi Hp. destruct (toy_recv_ok _ _ Hi Hp) as (m' & ms & Hl & _).
  cbn. rewrite Hl. unfold toy_pending. destruct ms as [|m2 ms]; intros [= <- <- <-]; cbn [t_in].
  - rewrite (toy_pending_delete _ _ _ Hl). cbn. lia.
  - rewrite (toy_pending_delete _ _ _ Hl).
    rewrite (toy_pending_delete (<[p := m2 :: ms]> (t_in w)) p (m2 :: ms)) by apply lookup_insert_eq.
    rewrite delete_insert_eq. cbn. lia.
Qed.

(** The world changes that the core reports: a message arrives at a pipe that
    was silent, a pipe becomes ready to send. *)
Definition toy_arrive {M} (w : toy M) (p : pid) (ms : list M) : toy M :=
  Toy (t_out w) (<[p := ms]> (t_in w)) (t_sent w) (t_recvd w).
Definition toy_ready {M} (w : toy M) (p : pid) : toy M :=
  Toy ({[p]} ∪ t_out w) (t_in w) (t_sent w) (t_recvd w).

Lemma toy_empty_inv `{ToyMsg M} : pipe_inv (M := M) toy_empty.
Proof. apply map_Forall_empty. Qed.

Lemma toy_delivers `{ToyMsg M} (good : M → Prop) (w : toy M) :
  map_Forall (λ _ ms, Forall good ms) (t_in w) → delivers good w.
Proof.
  intros Hw. exists (λ w, map_Forall (λ _ ms, Forall good ms) (t_in w)). split; [done|].
  intros u p w' rc m Hu. cbn. destruct (t_in u !! p) as [[|m1 [|m2 ms]]|] eqn:E; try done;
    pose proof (Hu _ _ E) as Hms; apply Forall_cons in Hms as [Hm Hms]; intros [= <- <- <-]; cbn.
  - split; [done|]. by apply map_Forall_delete.
  - split; [done|]. by apply map_Forall_insert_2.
Qed.

(** ** Scripts: calls on a toy world, each given the current world *)

Section script.
Context `{EqDecision M} `{ToyMsg M} `{Proto St (toy M) M}.

#[export] Instance toy_inv_dec (w : toy M) : Decision (toy_inv w).
Proof. unfold toy_inv. apply _. Defined.

#[export] Instance allowed_dec (w : toy M) ps (c : call (toy M) M) : Decision (allowed w ps c).
Proof.
  destruct c; cbn; unfold env, prio_ok, pipe_inv; cbn; unfold NN_PRIOLIST_SLOTS; apply _.
Defined.

#[export] Instance legal_dec (s : St) (c : call (toy M) M) : Decision (legal s c).
Proof. destruct c; cbn; apply _. Defined.

Fixpoint script (σ : session (W := toy M)) (fs : list (toy M → call (toy M) M)) :
    outcome (session (W := toy M)) :=
  match fs with
  | [] => Ret σ
  | f :: fs =>
      let c := f σ.1.2 in
      nn_assert (bool_decide (legal (W := toy M) (M := M) σ.1.1 c ∧ allowed σ.1.2 σ.2 c));;
      σ ← call_step (M := M) σ c; script σ fs
  end.

Lemma script_reach s0 w0 fs σ σ' :
  reach (M := M) s0 w0 σ → script σ fs = Ret σ' → reach (M := M) s0 w0 σ'.
Proof.
  revert σ. induction fs as [|f fs IH]; intros σ Hr; cbn; [by intros [= <-]|].
  case_bool_decide as Ha; [|done]. destruct Ha as [Hl Ha]. step. destruct (call_step σ _) as [σ1|] eqn:E; [|done]. step.
  apply IH. by eapply reach_call.
Qed.

End script.
