(* ===== verification/Pair.v ===== *)
(** * protocols/utils/excl.c and protocols/pair/xpair.c: one-to-one sockets

    A pair socket accepts one pipe at a time and rejects every other
    connection until it is gone. *)
From S2P Require Import Prelude Priolist Pipe LbFq Msg Protocol Toy.

(** ** excl.c *)

Record nn_excl := Excl { epipe : option pid; einpipe : option pid; eoutpipe : option pid }.

Definition nn_excl_init : nn_excl := Excl None None None.

Definition nn_excl_term (self : nn_excl) : outcome unit :=
  nn_assert (bool_decide (epipe self = None));;
  nn_assert (bool_decide (einpipe self = None));;
  nn_assert (bool_decide (eoutpipe self = None)).

Definition nn_excl_add (self : nn_excl) (pipe : pid) : nn_excl * Z :=
  match epipe self with
  | Some _ => (self, - EISCONN)
  | None => (Excl (Some pipe) (einpipe self) (eoutpipe self), 0)
  end.

Definition nn_excl_rm (self : nn_excl) (_ : pid) : outcome nn_excl :=
  nn_assert (bool_decide (epipe self ≠ None));; Ret (Excl None None None).

Definition nn_excl_in (self : nn_excl) (pipe : pid) : outcome nn_excl :=
  nn_assert (bool_decide (einpipe self = None));;
  nn_assert (bool_decide (Some pipe = epipe self));;
  Ret (Excl (epipe self) (Some pipe) (eoutpipe self)).

Definition nn_excl_out (self : nn_excl) (pipe : pid) : outcome nn_excl :=
  nn_assert (bool_decide (eoutpipe self = None));;
  nn_assert (bool_decide (Some pipe = epipe self));;
  Ret (Excl (epipe self) (einpipe self) (Some pipe)).

Definition nn_excl_can_send (self : nn_excl) : bool := bool_decide (eoutpipe self ≠ None).
Definition nn_excl_can_recv (self : nn_excl) : bool := bool_decide (einpipe self ≠ None).

Section code.
Context `{PipeOps W M}.

Definition nn_excl_send (self : nn_excl) (w : W) (msg : M) : outcome (nn_excl * W * Z) :=
  match eoutpipe self with
  | None => Ret (self, w, - EAGAIN)
  | Some p =>
      '(w, rc) ← nn_pipe_send w p msg;
      nn_assert (0 <=? rc);;
      let self := if released rc then Excl (epipe self) (einpipe self) None else self in
      Ret (self, w, unrelease rc)
  end.

Definition nn_excl_recv (self : nn_excl) (w : W) : outcome (nn_excl * W * Z * option M) :=
  match einpipe self with
  | None => Ret (self, w, - EAGAIN, None)
  | Some p =>
      '(w, rc, msg) ← nn_pipe_recv w p;
      nn_assert (0 <=? rc);;
      let self := if released rc then Excl (epipe self) None (eoutpipe self) else self in
      Ret (self, w, unrelease rc, Some msg)
  end.

(** ** xpair.c *)

Definition nn_xpair_init : nn_excl := nn_excl_init.
Definition nn_xpair_term (self : nn_excl) : outcome unit := nn_excl_term self.
Definition nn_xpair_destroy (self : nn_excl) : outcome unit := nn_xpair_term self.
Definition nn_xpair_add (self : nn_excl) (pipe : pid) : nn_excl * Z := nn_excl_add self pipe.
Definition nn_xpair_rm (self : nn_excl) (pipe : pid) : outcome nn_excl := nn_excl_rm self pipe.
Definition nn_xpair_in (self : nn_excl) (pipe : pid) : outcome nn_excl := nn_excl_in self pipe.
Definition nn_xpair_out (self : nn_excl) (pipe : pid) : outcome nn_excl := nn_excl_out self pipe.

Definition nn_xpair_events (self : nn_excl) : Z :=
  let events := 0 in
  let events := if nn_excl_can_recv self then Z.lor events NN_SOCKBASE_EVENT_IN else events in
  if nn_excl_can_send self then Z.lor events NN_SOCKBASE_EVENT_OUT else events.

Definition nn_xpair_send (self : nn_excl) (w : W) (msg : M) : outcome (nn_excl * W * Z) :=
  nn_excl_send self w msg.

Definition nn_xpair_recv (self : nn_excl) (w : W) : outcome (nn_excl * W * Z * option M) :=
  '(self, w, rc, msg) ← nn_excl_recv self w;
  Ret (self, w, if rc <? 0 then rc else 0, msg).

#[export] Instance xpair_proto : Proto nn_excl W M := {
  proto_add self p _ _ := Ret (nn_xpair_add self p);
  proto_rm := nn_xpair_rm;
  proto_in _ self w p := self ← nn_xpair_in self p; Ret (self, w);
  proto_out self w p := self ← nn_xpair_out self p; Ret (self, w);
  proto_events := nn_xpair_events;
  proto_send := nn_xpair_send;
  proto_recv _ := nn_xpair_recv;
  proto_destroy := nn_xpair_destroy;
  proto_hears := true;
  proto_room _ := true;
  proto_takes _ := true;
}.

End code.

Definition nn_xpair_ispeer (socktype : Z) : bool := socktype =? NN_PAIR.

(** ** Properties *)

Section props.
Context `{PipeFinite W M}.

(** The accepted pipe is the attached one, and its usable ends are known. *)
Record xpair_inv (e : nn_excl) (w : W) (ps : gset pid) : Prop := {
  xi_pipes : pipe_inv w;
  xi_one : ps = match epipe e with Some p => {[p]} | None => ∅ end;
  xi_in p : einpipe e = Some p ↔ p ∈ ps ∧ p ∈ readable w;
  xi_out p : eoutpipe e = Some p ↔ p ∈ ps ∧ p ∈ writable w;
}.

Lemma nn_excl_send_ok e w ps m p :
  xpair_inv e w ps → eoutpipe e = Some p →
  ∃ e' w' rc, nn_excl_send e w m = Ret (e', w', rc) ∧ rc = 0 ∧ xpair_inv e' w' ps ∧
    sent w' = sent w ++ [(p, m)] ∧ recvd w' = recvd w.
Proof.
  intros [Hw Hone Hi Ho] Hp. destruct (proj1 (Ho p) Hp) as [Hps Hpw].
  destruct (pipe_send_ok w p m Hw Hpw) as (w' & rc & E & Hw' & Hrc & Hs & Hr & Hwr & Hrd).
  unfold nn_excl_send. rewrite Hp, E. step. rewrite (proj2 (Z.leb_le 0 rc)) by (unfold NN_PIPE_RELEASE in *; lia). step.
  pose proof (unrelease_send rc Hrc). eexists _, w', _. split; [done|]. split_and!; try done.
  split; [done|by destruct (released rc)|..]; intros q.
  - rewrite Hrd. destruct (released rc); apply Hi.
  - rewrite Hwr. destruct (released rc); cbn; [|apply Ho]. split; [done|].
    intros [Hq [Hqw Hne]%elem_of_difference]. exfalso. apply Hne, elem_of_singleton.
    pose proof (proj2 (Ho q) (conj Hq Hqw)). congruence.
Qed.

Lemma nn_excl_recv_ok e w ps p :
  xpair_inv e w ps → einpipe e = Some p →
  ∃ e' w' rc m, nn_excl_recv e w = Ret (e', w', rc, Some m) ∧ 0 ≤ rc ∧ xpair_inv e' w' ps ∧
    recvd w' = recvd w ++ [(p, m)] ∧ sent w' = sent w.
Proof.
  intros [Hw Hone Hi Ho] Hp. destruct (proj1 (Hi p) Hp) as [Hps Hpw].
  destruct (pipe_recv_ok w p Hw Hpw) as (w' & rc & m & E & Hw' & Hrc & Hs & Hr & Hrd & Hwr).
  unfold nn_excl_recv. rewrite Hp, E. step. rewrite (proj2 (Z.leb_le 0 rc)) by lia. step.
  pose proof (unrelease_range rc Hrc). eexists _, w', _, m. split; [done|]. split_and!; try done; [lia|].
  split; [done|by destruct (released rc)|..]; intros q.
  - rewrite Hrd. destruct (released rc); cbn; [|apply Hi]. split; [done|].
    intros [Hq [Hqw Hne]%elem_of_difference]. exfalso. apply Hne, elem_of_singleton.
    pose proof (proj2 (Hi q) (conj Hq Hqw)). congruence.
  - rewrite Hwr. destruct (released rc); apply Ho.
Qed.

Lemma xpair_send_ok e w ps m :
  xpair_inv e w ps →
  (Z.testbit (nn_xpair_events e) 1 = false ∧ (∀ p, p ∈ ps → p ∉ writable w) ∧
     nn_xpair_send e w m = Ret (e, w, - EAGAIN)) ∨
  (Z.testbit (nn_xpair_events e) 1 = true ∧ ∃ p e' w' rc, epipe e = Some p ∧
     nn_xpair_send e w m = Ret (e', w', rc) ∧ rc = 0 ∧ xpair_inv e' w' ps ∧
     sent w' = sent w ++ [(p, m)] ∧ recvd w' = recvd w).
Proof.
  intros Hinv. unfold nn_xpair_send, nn_xpair_events, nn_excl_can_recv, nn_excl_can_send.
  destruct (eoutpipe e) as [p|] eqn:Ho; [right|left]; (split; [by destruct (einpipe e)|]).
  - destruct (nn_excl_send_ok e w ps m p Hinv Ho) as (e' & w' & rc & E & ? & ? & ? & ?).
    exists p, e', w', rc. split_and!; try done. apply (xi_out _ _ _ Hinv) in Ho as [Ho _].
    rewrite (xi_one _ _ _ Hinv) in Ho. destruct (epipe e); set_solver.
  - split; [|unfold nn_excl_send; by rewrite Ho]. intros p Hp Hpw.
    pose proof (proj2 (xi_out _ _ _ Hinv p) (conj Hp Hpw)). congruence.
Qed.

Lemma xpair_recv_ok e w ps :
  xpair_inv e w ps →
  (Z.testbit (nn_xpair_events e) 0 = false ∧ (∀ p, p ∈ ps → p ∉ readable w) ∧
     nn_xpair_recv e w = Ret (e, w, - EAGAIN, None)) ∨
  (Z.testbit (nn_xpair_events e) 0 = true ∧ ∃ p e' w' m, epipe e = Some p ∧
     nn_xpair_recv e w = Ret (e', w', 0, Some m) ∧ xpair_inv e' w' ps ∧
     recvd w' = recvd w ++ [(p, m)] ∧ sent w' = sent w).
Proof.
  intros Hinv. unfold nn_xpair_recv, nn_xpair_events, nn_excl_can_recv, nn_excl_can_send.
  destruct (einpipe e) as [p|] eqn:Hi; [right|left]; (split; [by destruct (eoutpipe e)|]).
  - destruct (nn_excl_recv_ok e w ps p Hinv Hi) as (e' & w' & rc & m & -> & ? & ? & ? & ?). step.
    rewrite (proj2 (Z.ltb_ge _ _)) by lia.
    exists p, e', w', m. split_and!; try done. apply (xi_in _ _ _ Hinv) in Hi as [Hi _].
    rewrite (xi_one _ _ _ Hinv) in Hi. destruct (epipe e); set_solver.
  - split; [|unfold nn_excl_recv; by rewrite Hi]. intros p Hp Hpw.
    pose proof (proj2 (xi_in _ _ _ Hinv p) (conj Hp Hpw)). congruence.
Qed.

#[export] Program Instance xpair_proto_ok : ProtoOk nn_excl W M := {| proto_inv := xpair_inv |}.
Next Obligation.
  intros e w ps p sp rp [Hw Hone Hi Ho] _ (Hp & Hnw & Hnr & _). cbn. unfold nn_xpair_add, nn_excl_add.
  destruct (epipe e) as [q|] eqn:Eq; eexists _, _; (split; [done|]); (split; [unfold EISCONN; lia|]); cbn.
  - by split; rewrite ?Eq.
  - rewrite Hone in *. split; cbn; [done|set_solver|..]; intros q; [rewrite Hi|rewrite Ho]; set_solver.
Qed.
Next Obligation.
  intros e w ps p w' [Hw Hone Hi Ho] (Hp & (? & _) & Hwr & Hrd). cbn. unfold nn_xpair_rm, nn_excl_rm.
  rewrite Hone in Hp. destruct (epipe e) as [q|] eqn:Eq; [|set_solver].
  rewrite bool_decide_eq_true_2 by done. step. eexists. split; [done|].
  split; cbn; [done|set_solver|..]; intros x; (split; [done|]); rewrite Hone; set_solver.
Qed.
Next Obligation.
  intros fuel e w ps p w' _ [Hw Hone Hi Ho] (Hp & Hn & (? & _) & Hwr & Hrd) _. cbn.
  unfold nn_xpair_in, nn_excl_in. pose proof Hp as Hp'. rewrite Hone in Hp'.
  destruct (epipe e) as [q|] eqn:Eq; [|set_solver]. apply elem_of_singleton in Hp' as ->.
  destruct (einpipe e) as [x|] eqn:Ex.
  { destruct (proj1 (Hi x) eq_refl) as [Hx ?]. rewrite Hone in Hx. apply elem_of_singleton in Hx as ->. done. }
  rewrite !bool_decide_eq_true_2 by done. step. eexists _, w'. split; [done|].
  split; cbn; [done|by rewrite ?Eq|..]; intros x; [|by rewrite Ho, Hwr].
  rewrite Hrd, Hone. set_solver.
Qed.
Next Obligation.
  intros e w ps p w' [Hw Hone Hi Ho] (Hp & Hn & (? & _) & Hwr & Hrd). cbn.
  unfold nn_xpair_out, nn_excl_out. pose proof Hp as Hp'. rewrite Hone in Hp'.
  destruct (epipe e) as [q|] eqn:Eq; [|set_solver]. apply elem_of_singleton in Hp' as ->.
  destruct (eoutpipe e) as [x|] eqn:Ex.
  { destruct (proj1 (Ho x) eq_refl) as [Hx ?]. rewrite Hone in Hx. apply elem_of_singleton in Hx as ->. done. }
  rewrite !bool_decide_eq_true_2 by done. step. eexists _, w'. split; [done|].
  split; cbn; [done|by rewrite ?Eq|..]; intros x; [by rewrite Hi, Hrd|].
  rewrite Hwr, Hone. set_solver.
Qed.
Next Obligation.
  intros e w ps m Hi _. destruct (xpair_send_ok e w ps m Hi)
    as [(_ & _ & E)|(_ & p & e' & w' & rc & _ & E & -> & ? & _)];
    [by exists e, w, (- EAGAIN)|by exists e', w', 0].
Qed.
Next Obligation.
  intros fuel e w ps Hi _. destruct (xpair_recv_ok e w ps Hi)
    as [(_ & _ & E)|(_ & p & e' & w' & m & _ & E & ? & _)];
    [by exists e, w, (- EAGAIN), None|by exists e', w', 0, (Some m)].
Qed.
Next Obligation.
  intros e w [Hw Hone Hi Ho]. cbn. unfold nn_xpair_destroy, nn_xpair_term, nn_excl_term.
  destruct (epipe e) as [p|]; [set_solver|].
  destruct (einpipe e) as [p|]; [destruct (proj1 (Hi p) eq_refl); set_solver|].
  destruct (eoutpipe e) as [p|]; [destruct (proj1 (Ho p) eq_refl); set_solver|]. done.
Qed.
Next Obligation.
  intros e w ps w' [Hw Hone Hi Ho] (Hw' & _) Hwr Hrd. split; [done|done|by rewrite Hrd|by rewrite Hwr].
Qed.
Next Obligation. intros e w ps _. cbn. unfold nn_xpair_events. repeat case_match; done. Qed.

(** C24: a pair socket talks to one peer only, in every session.  Every call
    returns, and at most one pipe is ever attached: while it is, every other
    connection is rejected with -EISCONN and changes nothing.  A message is sent
    to, and received from, the attached pipe alone, exactly once; without a
    usable pipe the calls return -EAGAIN and touch nothing; the events reported
    are exactly the calls that will not return -EAGAIN. *)
Theorem xpair_exclusive w0 e w ps c m :
  pipe_inv w0 → reach (M := M) nn_xpair_init w0 (e, w, ps) → allowed w ps c →
  (∃ σ, call_step (e, w, ps) c = Ret σ) ∧
  (ps = ∅ ∨ ∃ p, ps = {[p]} ∧ ∀ q, nn_xpair_add e q = (e, - EISCONN)) ∧
  (if Z.testbit (nn_xpair_events e) 1 then
     ∃ p e' w', ps = {[p]} ∧ nn_xpair_send e w m = Ret (e', w', 0) ∧
       sent w' = sent w ++ [(p, m)] ∧ recvd w' = recvd w
   else nn_xpair_send e w m = Ret (e, w, - EAGAIN)) ∧
  (if Z.testbit (nn_xpair_events e) 0 then
     ∃ p e' w' m', ps = {[p]} ∧ nn_xpair_recv e w = Ret (e', w', 0, Some m') ∧
       recvd w' = recvd w ++ [(p, m')] ∧ sent w' = sent w
   else nn_xpair_recv (M := M) e w = Ret (e, w, - EAGAIN, None)).
Proof.
  intros Hw0 Hreach Ha.
  assert (proto_inv (M := M) nn_xpair_init w0 ∅) as Hi0 by (split; cbn; try done; set_solver).
  assert (legal (W := W) (M := M) e c) as Hl by by destruct c.
  destruct (session_safe _ _ _ _ _ _ Hi0 Hreach Hl Ha) as [(σ & E & _) _].
  pose proof (reach_inv _ _ _ Hi0 Hreach : xpair_inv e w ps) as Hinv. split; [by exists σ|].
  pose proof (xi_one _ _ _ Hinv) as Hone. split; [|split].
  - unfold nn_xpair_add, nn_excl_add. destruct (epipe e) as [p|]; [right; by exists p|by left].
  - destruct (xpair_send_ok _ _ _ m Hinv)
      as [(-> & _ & ?)|(-> & p & e' & w' & rc & Hp & ? & -> & _ & ? & ?)]; [done|].
    rewrite Hp in Hone. by exists p, e', w'.
  - destruct (xpair_recv_ok _ _ _ Hinv)
      as [(-> & _ & ?)|(-> & p & e' & w' & m' & Hp & ? & _ & ? & ?)]; [done|].
    rewrite Hp in Hone. by exists p, e', w', m'.
Qed.

End props.

(** ** Example: pipe 2 is connected and ready, pipe 3 is rejected *)

Module PairSample.

Definition pair_script : list (toy Z → call (toy Z) Z) :=
  [λ _, C_add 2 8 8; λ _, C_add 3 8 8; λ w, C_out 2 (toy_ready w 2); λ _, C_send 5].

End PairSample.

Lemma xpair_exclusive_witness :
  ∃ e w ps, script (nn_xpair_init, toy_empty, ∅) PairSample.pair_script = Ret (e, w, ps) ∧
    nn_xpair_add e 3 = (e, - EISCONN) ∧
    ∃ e' w' p, nn_xpair_send e w 7 = Ret (e', w', 0) ∧ t_sent w' = t_sent w ++ [(p, 7)].
Proof.
  destruct (ret_check_ok (λ σ, Z.testbit (nn_xpair_events σ.1.1) 1 && negb (bool_decide (σ.2 = ∅)))
    (script (nn_xpair_init, toy_empty, ∅) PairSample.pair_script))
    as ([[e w] ps] & E & Hs); [vm_compute; reflexivity|]. cbn [fst snd] in Hs.
  apply andb_true_iff in Hs as [Hev Hps]. apply negb_true_iff, bool_decide_eq_false_1 in Hps.
  exists e, w, ps. split; [exact E|].
  destruct (xpair_exclusive toy_empty e w ps C_recv 7 toy_empty_inv
    (script_reach _ _ _ _ _ (reach_start _ _) E) I) as (_ & [H0|(p & _ & Hadd)] & H & _); [done|].
  split; [exact (Hadd _)|]. rewrite Hev in H. destruct H as (q & e' & w' & _ & Es & Hs & _).
  exists e', w', q. exact (conj Es Hs).
Defined.
