(* ===== verification/Pipeline.v ===== *)
(** * protocols/pipeline: push and pull sockets

    A push socket is a load balancer, a pull socket a fair queue.  The value of
    NN_SNDPRIO (NN_RCVPRIO) that [nn_pipe_getopt] returns is an argument of the
    add function; the item of a pipe is identified by the pipe. *)
From S2P Require Import Prelude NnList Priolist Pipe LbFq Protocol Attach Toy.

Definition NN_STAT_CURRENT_SND_PRIORITY : Z := 401.

(** ** xpush.c *)

Record nn_xpush (T : Type) := XPush { xpush_lb : nn_priolist T }.
Arguments XPush {T}.
Arguments xpush_lb {T}.

Section xpush.
Context `{ListStore T} `{PipeOps W M}.

Definition nn_xpush_init (s : T) : nn_xpush T := XPush (nn_lb_init s).
Definition nn_xpush_term (self : nn_xpush T) : outcome unit := nn_lb_term (xpush_lb self).
Definition nn_xpush_destroy (self : nn_xpush T) : outcome unit := nn_xpush_term self.

Definition nn_xpush_add (self : nn_xpush T) (pipe : pid) (sndprio : Z) :
    outcome (nn_xpush T * Z) :=
  assert_prio sndprio;;
  Ret (XPush (nn_lb_add (xpush_lb self) pipe pipe sndprio), 0).

(** [nn_xpush_rm] and [nn_xpush_out] also return the statistics item and the
    value they pass to [nn_sockbase_stat_increment]. *)
Definition nn_xpush_rm (self : nn_xpush T) (pipe : pid) : outcome (nn_xpush T * (Z * Z)) :=
  lb ← nn_lb_rm (xpush_lb self) pipe;
  Ret (XPush lb, (NN_STAT_CURRENT_SND_PRIORITY, nn_lb_get_priority lb)).

Definition nn_xpush_in (self : nn_xpush T) (_ : pid) : outcome (nn_xpush T) := Ret self.

Definition nn_xpush_out (self : nn_xpush T) (pipe : pid) : outcome (nn_xpush T * (Z * Z)) :=
  lb ← nn_lb_out (xpush_lb self) pipe;
  Ret (XPush lb, (NN_STAT_CURRENT_SND_PRIORITY, nn_lb_get_priority lb)).

Definition nn_xpush_events (self : nn_xpush T) : Z :=
  if nn_lb_can_send (xpush_lb self) then NN_SOCKBASE_EVENT_OUT else 0.

Definition nn_xpush_send (self : nn_xpush T) (w : W) (msg : M) :
    outcome (nn_xpush T * W * Z) :=
  '(lb, w, rc, _) ← nn_lb_send (xpush_lb self) w msg; Ret (XPush lb, w, rc).

(** There is no recv function: [nn_sock_recv] refuses with -ENOTSUP. *)
#[export] Instance xpush_proto : Proto (nn_xpush T) W M := {
  proto_add self p sndprio _ := nn_xpush_add self p sndprio;
  proto_rm self p := '(self, _) ← nn_xpush_rm self p; Ret self;
  proto_in _ self w p := self ← nn_xpush_in self p; Ret (self, w);
  proto_out self w p := '(self, _) ← nn_xpush_out self p; Ret (self, w);
  proto_events := nn_xpush_events;
  proto_send := nn_xpush_send;
  proto_recv _ self w := Ret (self, w, - ENOTSUP, None);
  proto_destroy := nn_xpush_destroy;
  proto_hears := true;
  proto_room _ := true;
  proto_takes _ := true;
}.

End xpush.

Definition nn_xpush_ispeer (socktype : Z) : bool := socktype =? NN_PULL.

(** ** xpull.c *)

Record nn_xpull (T : Type) := XPull { xpull_fq : nn_priolist T }.
Arguments XPull {T}.
Arguments xpull_fq {T}.

Section xpull.
Context `{ListStore T} `{PipeOps W M}.

Definition nn_xpull_init (s : T) : nn_xpull T := XPull (nn_fq_init s).
Definition nn_xpull_term (self : nn_xpull T) : outcome unit := nn_fq_term (xpull_fq self).
Definition nn_xpull_destroy (self : nn_xpull T) : outcome unit := nn_xpull_term self.

Definition nn_xpull_add (self : nn_xpull T) (pipe : pid) (rcvprio : Z) :
    outcome (nn_xpull T * Z) :=
  assert_prio rcvprio;;
  Ret (XPull (nn_fq_add (xpull_fq self) pipe pipe rcvprio), 0).

Definition nn_xpull_rm (self : nn_xpull T) (pipe : pid) : outcome (nn_xpull T) :=
  fq ← nn_fq_rm (xpull_fq self) pipe; Ret (XPull fq).

Definition nn_xpull_in (self : nn_xpull T) (pipe : pid) : outcome (nn_xpull T) :=
  fq ← nn_fq_in (xpull_fq self) pipe; Ret (XPull fq).

Definition nn_xpull_out (self : nn_xpull T) (_ : pid) : outcome (nn_xpull T) := Ret self.

Definition nn_xpull_events (self : nn_xpull T) : Z :=
  if nn_fq_can_recv (xpull_fq self) then NN_SOCKBASE_EVENT_IN else 0.

Definition nn_xpull_recv (self : nn_xpull T) (w : W) :
    outcome (nn_xpull T * W * Z * option M) :=
  '(fq, w, rc, r) ← nn_fq_recv (M := M) (xpull_fq self) w;
  Ret (XPull fq, w, if rc <? 0 then rc else 0, option_map snd r).

#[export] Instance xpull_proto : Proto (nn_xpull T) W M := {
  proto_add self p _ rcvprio := nn_xpull_add self p rcvprio;
  proto_rm := nn_xpull_rm;
  proto_in _ self w p := self ← nn_xpull_in self p; Ret (self, w);
  proto_out self w p := self ← nn_xpull_out self p; Ret (self, w);
  proto_events := nn_xpull_events;
  proto_send self w _ := Ret (self, w, - ENOTSUP);
  proto_recv _ self w := nn_xpull_recv self w;
  proto_destroy := nn_xpull_destroy;
  proto_hears := true;
  proto_room _ := true;
  proto_takes _ := true;
}.

End xpull.

Definition nn_xpull_ispeer (socktype : Z) : bool := socktype =? NN_PUSH.

(** ** Properties *)

Section props.
Context `{ListStoreOk T} `{PipeFinite W M}.

Definition xpush_inv (self : nn_xpush T) (w : W) (ps : gset pid) : Prop :=
  pl_inv (xpush_lb self) ps (writable w) ∧ pipe_inv w.
Definition xpull_inv (self : nn_xpull T) (w : W) (ps : gset pid) : Prop :=
  pl_inv (xpull_fq self) ps (readable w) ∧ pipe_inv w.

Lemma xpush_send_ok self w ps m :
  xpush_inv self w ps →
  (nn_xpush_events self = 0 ∧ (∀ x, x ∈ ps → x ∉ writable w) ∧
     nn_xpush_send self w m = Ret (self, w, - EAGAIN)) ∨
  (nn_xpush_events self = NN_SOCKBASE_EVENT_OUT ∧ ∃ self' w' rc x,
     nn_xpush_send self w m = Ret (self', w', rc) ∧ rc = 0 ∧ x ∈ ps ∧ x ∈ writable w ∧
     sent w' = sent w ++ [(x, m)] ∧ recvd w' = recvd w ∧ xpush_inv self' w' ps).
Proof.
  intros [Hl Hw]. unfold nn_xpush_events, nn_xpush_send.
  destruct (pl_send _ _ _ m Hl Hw) as [(-> & Hn & ->)|(-> & self' & w' & rc & x & -> & ?&?&?&?&?&?&?&_)];
    [left|right]; step; (split; [done|]).
  - split; [done|]. by destruct self.
  - exists (XPush self'), w', rc, x. split_and!; try done; lia.
Qed.

Lemma xpull_recv_ok self w ps :
  xpull_inv self w ps →
  (nn_xpull_events self = 0 ∧ (∀ x, x ∈ ps → x ∉ readable w) ∧
     nn_xpull_recv self w = Ret (self, w, - EAGAIN, None)) ∨
  (nn_xpull_events self = NN_SOCKBASE_EVENT_IN ∧ ∃ self' w' x m,
     nn_xpull_recv self w = Ret (self', w', 0, Some m) ∧ x ∈ ps ∧ x ∈ readable w ∧
     recvd w' = recvd w ++ [(x, m)] ∧ sent w' = sent w ∧ xpull_inv self' w' ps).
Proof.
  intros [Hl Hw]. unfold nn_xpull_events, nn_xpull_recv.
  destruct (pl_recv _ _ _ Hl Hw) as [(-> & Hn & ->)|(-> & self' & w' & ? & rc & x & m & _ & _ & -> & ?&?&?&?&?&?&?&_)];
    [left|right]; step; (split; [done|]).
  - split; [done|]. by destruct self.
  - exists (XPull self'), w', x, m. rewrite (proj2 (Z.ltb_ge _ _)) by lia. split_and!; done.
Qed.

#[export] Program Instance xpush_proto_ok : ProtoOk (nn_xpush T) W M := {| proto_inv := xpush_inv |}.
Next Obligation.
  intros self w ps p sp rp [Hl Hw] _ (Hp & Hpw & _ & Hsp & _). cbn. unfold nn_xpush_add.
  rewrite assert_prio_ok by done. step. eexists _, 0. split; [done|]. split; [done|].
  split; [by apply pl_add|done].
Qed.
Next Obligation.
  intros self w ps p w' [Hl Hw] (Hp & (? & _) & Hwr & _). cbn. unfold nn_xpush_rm, nn_lb_rm.
  destruct (pl_rm _ _ _ _ Hl Hp) as (lb & -> & ?). step. eexists. split; [done|].
  split; [by rewrite Hwr|done].
Qed.
Next Obligation.
  intros fuel self w ps p w' _ [Hl Hw] (Hp & _ & (? & _) & Hwr & _) _. eexists _, w'.
  split; [done|]. by split; [rewrite Hwr|].
Qed.
Next Obligation.
  intros self w ps p w' [Hl Hw] (Hp & Hn & (? & _) & Hwr & _). cbn. unfold nn_xpush_out, nn_lb_out.
  destruct (pl_activate _ _ _ _ Hl Hp Hn) as (lb & -> & ?). step. eexists _, w'. split; [done|].
  split; [by rewrite Hwr|done].
Qed.
Next Obligation.
  intros self w ps m Hi _. destruct (xpush_send_ok _ _ _ m Hi)
    as [(_ & _ & E)|(_ & self' & w' & rc & x & E & -> & _ & _ & _ & _ & ?)].
  - by exists self, w, (- EAGAIN).
  - by exists self', w', 0.
Qed.
Next Obligation. intros fuel self w ps Hi _. exists self, w, (- ENOTSUP), None. by split. Qed.
Next Obligation. intros self w [Hl _]. exact (pl_term _ _ Hl). Qed.
Next Obligation. intros self w ps w' [Hl _] (Hw & _) Hwr _. by split; [rewrite Hwr|]. Qed.
Next Obligation. intros self w ps _. cbn. unfold nn_xpush_events. by case_match. Qed.

#[export] Program Instance xpull_proto_ok : ProtoOk (nn_xpull T) W M := {| proto_inv := xpull_inv |}.
Next Obligation.
  intros self w ps p sp rp [Hl Hw] _ (Hp & _ & Hpr & _ & Hrp & _). cbn. unfold nn_xpull_add.
  rewrite assert_prio_ok by done. step. eexists _, 0. split; [done|]. split; [done|].
  split; [by apply pl_add|done].
Qed.
Next Obligation.
  intros self w ps p w' [Hl Hw] (Hp & (? & _) & _ & Hrd). cbn. unfold nn_xpull_rm, nn_fq_rm.
  destruct (pl_rm _ _ _ _ Hl Hp) as (fq & -> & ?). step. eexists. split; [done|].
  split; [by rewrite Hrd|done].
Qed.
Next Obligation.
  intros fuel self w ps p w' _ [Hl Hw] (Hp & Hn & (? & _) & _ & Hrd) _. cbn. unfold nn_xpull_in, nn_fq_in.
  destruct (pl_activate _ _ _ _ Hl Hp Hn) as (fq & -> & ?). step. eexists _, w'. split; [done|].
  split; [by rewrite Hrd|done].
Qed.
Next Obligation.
  intros self w ps p w' [Hl Hw] (Hp & _ & (? & _) & _ & Hrd). eexists _, w'.
  split; [done|]. by split; [rewrite Hrd|].
Qed.
Next Obligation. intros self w ps m Hi _. exists self, w, (- ENOTSUP). by split. Qed.
Next Obligation.
  intros fuel self w ps Hi _. cbn. destruct (xpull_recv_ok _ _ _ Hi)
    as [(_ & _ & E)|(_ & self' & w' & x & m & E & _ & _ & _ & _ & ?)].
  - by exists self, w, (- EAGAIN), None.
  - by exists self', w', 0, (Some m).
Qed.
Next Obligation. intros self w [Hl _]. exact (pl_term _ _ Hl). Qed.
Next Obligation. intros self w ps w' [Hl _] (Hw & _) _ Hrd. by split; [rewrite Hrd|]. Qed.
Next Obligation. intros self w ps _. cbn. unfold nn_xpull_events. by case_match. Qed.

(** A push socket works in every session.  Whatever pipes are attached,
    become writable, are detached, and whatever is sent, in any order the core
    may choose: every call returns and the socket can be destroyed once its
    pipes are gone.  OUT is reported exactly when some attached pipe is
    writable; a send then hands the message once to an attached writable pipe
    and to no other, and otherwise returns -EAGAIN and changes nothing. *)
Theorem xpush_session s0 σ0 w0 s w ps c m :
  l_rep s0 σ0 → lseq σ0 = ∅ → lfree σ0 = ∅ → pipe_inv w0 →
  reach (M := M) (nn_xpush_init s0) w0 (s, w, ps) → allowed w ps c →
  (∃ σ, call_step (s, w, ps) c = Ret σ) ∧
  (ps = ∅ → nn_xpush_destroy s = Ret tt) ∧
  (nn_xpush_events s = NN_SOCKBASE_EVENT_OUT ↔ ∃ x, x ∈ ps ∧ x ∈ writable w) ∧
  (if nn_xpush_events s =? 0 then nn_xpush_send s w m = Ret (s, w, - EAGAIN)
   else ∃ s' w' x, nn_xpush_send s w m = Ret (s', w', 0) ∧ x ∈ ps ∧
     x ∈ writable w ∧ sent w' = sent w ++ [(x, m)] ∧ recvd w' = recvd w).
Proof.
  intros Hr He Hf Hw0 Hreach Ha.
  assert (proto_inv (M := M) (nn_xpush_init s0) w0 ∅) as Hi by by split; [by eapply pl_init|].
  assert (legal (W := W) (M := M) s c) as Hl by by destruct c.
  destruct (session_safe _ _ _ _ _ _ Hi Hreach Hl Ha) as [(σ & E & _) Hd].
  split; [by exists σ|]. split; [exact Hd|].
  destruct (xpush_send_ok s w ps m (reach_inv _ _ _ Hi Hreach))
    as [(Hev & Hn & Es)|(Hev & s' & w' & rc & x & Es & -> & ? & ? & ? & ? & _)]; rewrite Hev.
  - split; [|done]. split; [done|]. intros (x & ? & ?). by destruct (Hn x).
  - split; [|by exists s', w', x]. split; [|done]. intros _. by exists x.
Qed.

(** A pull socket works in every session: as for push, with IN reported
    exactly when some attached pipe is readable; a receive then returns 0 and
    one message of an attached readable pipe, and otherwise -EAGAIN. *)
Theorem xpull_session s0 σ0 w0 s w ps c :
  l_rep s0 σ0 → lseq σ0 = ∅ → lfree σ0 = ∅ → pipe_inv w0 →
  reach (M := M) (nn_xpull_init s0) w0 (s, w, ps) → allowed w ps c →
  (∃ σ, call_step (s, w, ps) c = Ret σ) ∧
  (ps = ∅ → nn_xpull_destroy s = Ret tt) ∧
  (nn_xpull_events s = NN_SOCKBASE_EVENT_IN ↔ ∃ x, x ∈ ps ∧ x ∈ readable w) ∧
  (if nn_xpull_events s =? 0 then nn_xpull_recv (M := M) s w = Ret (s, w, - EAGAIN, None)
   else ∃ s' w' x m, nn_xpull_recv s w = Ret (s', w', 0, Some m) ∧ x ∈ ps ∧
     x ∈ readable w ∧ recvd w' = recvd w ++ [(x, m)] ∧ sent w' = sent w).
Proof.
  intros Hr He Hf Hw0 Hreach Ha.
  assert (proto_inv (M := M) (nn_xpull_init s0) w0 ∅) as Hi by by split; [by eapply pl_init|].
  assert (legal (W := W) (M := M) s c) as Hl by by destruct c.
  destruct (session_safe _ _ _ _ _ _ Hi Hreach Hl Ha) as [(σ & E & _) Hd].
  split; [by exists σ|]. split; [exact Hd|].
  destruct (xpull_recv_ok s w ps (reach_inv _ _ _ Hi Hreach))
    as [(Hev & Hn & Es)|(Hev & s' & w' & x & m & Es & ? & ? & ? & ? & _)]; rewrite Hev.
  - split; [|done]. split; [done|]. intros (x & ? & ?). by destruct (Hn x).
  - split; [|by exists s', w', x, m]. split; [|done]. intros _. by exists x.
Qed.

End props.

(** ** Examples *)

Module PipelineSample.

Definition push0 : nn_xpush Ptr.store := nn_xpush_init Ptr.empty_store.
Definition pull0 : nn_xpull Ptr.store := nn_xpull_init Ptr.empty_store.

(** Two pipes connect and become writable; the one that is not even is busy
    after the first message, the other one is removed later. *)
Definition push_script : list (toy Z → call (toy Z) Z) :=
  [λ _, C_add 2 8 8; λ _, C_add 3 4 8; λ w, C_out 2 (toy_ready w 2); λ w, C_out 3 (toy_ready w 3);
   λ _, C_send 10; λ _, C_send 20].

Definition pull_script : list (toy Z → call (toy Z) Z) :=
  [λ _, C_add 2 8 8; λ _, C_add 3 8 4; λ w, C_in 2 (toy_arrive w 2 [7; 8]);
   λ w, C_in 3 (toy_arrive w 3 [9]); λ _, C_recv].

End PipelineSample.

Lemma xpush_session_witness :
  ∃ s w ps, script (PipelineSample.push0, toy_empty, ∅) PipelineSample.push_script = Ret (s, w, ps) ∧
    sent w = [(3%positive, 10); (2%positive, 20)] ∧
    ∃ s' w' x, nn_xpush_send s w 30 = Ret (s', w', 0) ∧ sent w' = sent w ++ [(x, 30)].
Proof.
  destruct (ret_check_ok (λ σ, bool_decide (t_sent σ.1.2 = [(3%positive, 10); (2%positive, 20)]) &&
      negb (nn_xpush_events σ.1.1 =? 0))
    (script (PipelineSample.push0, toy_empty, ∅) PipelineSample.push_script))
    as ([[s w] ps] & E & Hs); [vm_compute; reflexivity|].
  apply andb_true_iff in Hs as [Hs Hev]. apply bool_decide_eq_true_1 in Hs. apply negb_true_iff in Hev.
  exists s, w, ps. split; [exact E|]. split; [exact Hs|].
  pose proof (xpush_session (H0 := Ptr.ptr_store_ok) Ptr.empty_store _ toy_empty s w ps C_recv 30
    Ptr.rep_empty eq_refl eq_refl toy_empty_inv
    (script_reach _ _ _ _ _ (reach_start _ _) E) I) as (_ & _ & _ & H).
  cbn [fst] in Hev. rewrite Hev in H. destruct H as (s' & w' & x & Es & _ & _ & Hs' & _).
  exists s', w', x. exact (conj Es Hs').
Defined.

Lemma xpull_session_witness :
  ∃ s w ps, script (PipelineSample.pull0, toy_empty, ∅) PipelineSample.pull_script = Ret (s, w, ps) ∧
    recvd w = [(3%positive, 9)] ∧
    ∃ s' w' x m, nn_xpull_recv s w = Ret (s', w', 0, Some m) ∧ recvd w' = recvd w ++ [(x, m)].
Proof.
  destruct (ret_check_ok (λ σ, bool_decide (t_recvd σ.1.2 = [(3%positive, 9)]) &&
      negb (nn_xpull_events σ.1.1 =? 0))
    (script (PipelineSample.pull0, toy_empty, ∅) PipelineSample.pull_script))
    as ([[s w] ps] & E & Hs); [vm_compute; reflexivity|].
  apply andb_true_iff in Hs as [Hs Hev]. apply bool_decide_eq_true_1 in Hs. apply negb_true_iff in Hev.
  exists s, w, ps. split; [exact E|]. split; [exact Hs|].
  pose proof (xpull_session (H0 := Ptr.ptr_store_ok) (M := Z) Ptr.empty_store _ toy_empty s w ps C_recv
    Ptr.rep_empty eq_refl eq_refl toy_empty_inv
    (script_reach _ _ _ _ _ (reach_start _ _) E) I) as (_ & _ & _ & H).
  cbn [fst] in Hev. rewrite Hev in H. destruct H as (s' & w' & x & m & Es & _ & _ & Hs' & _).
  exists s', w', x, m. exact (conj Es Hs').
Defined.
