(* ===== verification/Bus.v ===== *)
(** * protocols/bus: raw and cooked bus sockets

    A bus sends to all its pipes; a raw bus puts the pipe a message came from
    into the header, and does not send a message with such a header back to
    that pipe. *)
From S2P Require Import Prelude Wire NnList Priolist Pipe LbFq Msg Dist Protocol Attach Toy.

(** ** xbus.c *)

Record nn_xbus (T : Type) := XBus { xbus_outpipes : nn_dist T; xbus_inpipes : nn_priolist T }.
Arguments XBus {T}.
Arguments xbus_outpipes {T}.
Arguments xbus_inpipes {T}.

Section code.
Context `{ListStore T} `{PipeOps W vmsg}.

Definition nn_xbus_init (s s' : T) : nn_xbus T := XBus (nn_dist_init s) (nn_fq_init s').

Definition nn_xbus_term (self : nn_xbus T) : outcome unit :=
  nn_fq_term (xbus_inpipes self);; nn_dist_term (xbus_outpipes self).
Definition nn_xbus_destroy (self : nn_xbus T) : outcome unit := nn_xbus_term self.

Definition nn_xbus_add (self : nn_xbus T) (pipe : pid) (rcvprio : Z) : outcome (nn_xbus T * Z) :=
  assert_prio rcvprio;;
  Ret (XBus (nn_dist_add (xbus_outpipes self) pipe pipe)
         (nn_fq_add (xbus_inpipes self) pipe pipe rcvprio), 0).

Definition nn_xbus_rm (self : nn_xbus T) (pipe : pid) : outcome (nn_xbus T) :=
  fq ← nn_fq_rm (xbus_inpipes self) pipe;
  dist ← nn_dist_rm (xbus_outpipes self) pipe;
  Ret (XBus dist fq).

Definition nn_xbus_in (self : nn_xbus T) (pipe : pid) : outcome (nn_xbus T) :=
  fq ← nn_fq_in (xbus_inpipes self) pipe; Ret (XBus (xbus_outpipes self) fq).

Definition nn_xbus_out (self : nn_xbus T) (pipe : pid) : outcome (nn_xbus T) :=
  dist ← nn_dist_out (xbus_outpipes self) pipe; Ret (XBus dist (xbus_inpipes self)).

Definition nn_xbus_events (self : nn_xbus T) : Z :=
  Z.lor (if nn_fq_can_recv (xbus_inpipes self) then NN_SOCKBASE_EVENT_IN else 0)
    NN_SOCKBASE_EVENT_OUT.

Definition nn_xbus_send (self : nn_xbus T) (w : W) (msg : vmsg) : outcome (nn_xbus T * W * Z) :=
  let hdrsz := length (sphdr msg) in
  if decide (hdrsz = 0%nat) then
    '(dist, w, _, rc) ← nn_dist_send (xbus_outpipes self) w tt msg None;
    Ret (XBus dist (xbus_inpipes self), w, rc)
  else if decide (hdrsz = 8%nat) then
    let exclude := bytes_ptr (sphdr msg) in
    '(dist, w, _, rc) ← nn_dist_send (xbus_outpipes self) w tt (set_sphdr msg []) exclude;
    Ret (XBus dist (xbus_inpipes self), w, rc)
  else Ret (self, w, - EINVAL).

(** One turn of the receive loop: messages with a header are dropped. *)
Definition nn_xbus_recv_body (s : nn_xbus T * W) :
    outcome (nn_xbus T * W * option (Z * option (pid * vmsg))) :=
  let '(self, w) := s in
  '(fq, w, rc, r) ← nn_fq_recv (xbus_inpipes self) w;
  let self := XBus (xbus_outpipes self) fq in
  if rc <? 0 then Ret (self, w, Some (rc, None))
  else
    '(pipe, msg) ← deref r;
    if decide (length (sphdr msg) = 0%nat) then Ret (self, w, Some (rc, Some (pipe, msg)))
    else Ret (self, w, None).

Definition nn_xbus_recv (fuel : nat) (self : nn_xbus T) (w : W) :
    outcome (nn_xbus T * W * Z * option vmsg) :=
  '(self, w, (rc, r)) ← while fuel nn_xbus_recv_body (self, w);
  match r with
  | None => Ret (self, w, rc, None)
  | Some (pipe, msg) => Ret (self, w, 0, Some (set_sphdr msg (ptr_bytes pipe)))
  end.

#[export] Instance xbus_proto : Proto (nn_xbus T) W vmsg := {
  proto_add self p _ rcvprio := nn_xbus_add self p rcvprio;
  proto_rm := nn_xbus_rm;
  proto_in _ self w p := self ← nn_xbus_in self p; Ret (self, w);
  proto_out self w p := self ← nn_xbus_out self p; Ret (self, w);
  proto_events := nn_xbus_events;
  proto_send := nn_xbus_send;
  proto_recv := nn_xbus_recv;
  proto_destroy := nn_xbus_destroy;
  proto_hears := true;
  proto_room _ := true;
  proto_takes _ := true;
}.

End code.

Definition nn_xbus_ispeer (socktype : Z) : bool := socktype =? NN_BUS.

(** ** bus.c *)

Record nn_bus (T : Type) := Bus { bus_xbus : nn_xbus T }.
Arguments Bus {T}.
Arguments bus_xbus {T}.

Section bus.
Context `{ListStore T} `{PipeOps W vmsg}.

Definition nn_bus_init (s s' : T) : nn_bus T := Bus (nn_xbus_init s s').
Definition nn_bus_term (self : nn_bus T) : outcome unit := nn_xbus_term (bus_xbus self).
Definition nn_bus_destroy (self : nn_bus T) : outcome unit := nn_bus_term self.

Definition nn_bus_send (self : nn_bus T) (w : W) (msg : vmsg) : outcome (nn_bus T * W * Z) :=
  if decide (length (sphdr msg) ≠ 0%nat) then Ret (self, w, - EINVAL)
  else
    '(xbus, w, rc) ← nn_xbus_send (bus_xbus self) w msg;
    nn_assert (rc =? 0);;
    Ret (Bus xbus, w, 0).

Definition nn_bus_recv (fuel : nat) (self : nn_bus T) (w : W) :
    outcome (nn_bus T * W * Z * option vmsg) :=
  '(xbus, w, rc, r) ← nn_xbus_recv fuel (bus_xbus self) w;
  if rc =? - EAGAIN then Ret (Bus xbus, w, - EAGAIN, None)
  else
    nn_assert (rc =? 0);;
    msg ← deref r;
    nn_assert (bool_decide (length (sphdr msg) = 8%nat));;
    Ret (Bus xbus, w, 0, Some (set_sphdr msg [])).

#[export] Instance bus_proto : Proto (nn_bus T) W vmsg := {
  proto_add self p _ rcvprio := '(xbus, rc) ← nn_xbus_add (bus_xbus self) p rcvprio; Ret (Bus xbus, rc);
  proto_rm self p := xbus ← nn_xbus_rm (bus_xbus self) p; Ret (Bus xbus);
  proto_in _ self w p := xbus ← nn_xbus_in (bus_xbus self) p; Ret (Bus xbus, w);
  proto_out self w p := xbus ← nn_xbus_out (bus_xbus self) p; Ret (Bus xbus, w);
  proto_events self := nn_xbus_events (bus_xbus self);
  proto_send := nn_bus_send;
  proto_recv := nn_bus_recv;
  proto_destroy := nn_bus_destroy;
  proto_hears := true;
  proto_room _ := true;
  proto_takes _ := true;
}.

End bus.

(** ** Properties *)

(** The pipe a message with header [hdr] came from, and the messages that a
    receive drops. *)
Definition origin (hdr : list Z) : option pid :=
  match hdr with [] => None | _ => bytes_ptr hdr end.
Definition has_header (pm : pid * vmsg) : Prop := sphdr pm.2 ≠ [].

Section props.
Context `{ListStoreOk T} `{PipeFinite W vmsg}.

Definition xbus_inv (self : nn_xbus T) (w : W) (ps : gset pid) : Prop :=
  pl_inv (xbus_inpipes self) ps (readable w) ∧ ds_inv (xbus_outpipes self) ps (writable w) ∧
  pipe_inv w.

Lemma xbus_send_ok self w ps m :
  xbus_inv self w ps → sphdr m = [] ∨ length (sphdr m) = 8%nat →
  ∃ self' w' l, nn_xbus_send self w m = Ret (self', w', 0) ∧ NoDup l ∧
    (∀ p, p ∈ l ↔ p ∈ ps ∧ p ∈ writable w ∧ Some p ≠ origin (sphdr m)) ∧
    sent w' = sent w ++ ((λ p, (p, set_sphdr m [])) <$> l) ∧ recvd w' = recvd w ∧
    xbus_inv self' w' ps.
Proof.
  intros (Hf & Hd & Hw) Hh. unfold nn_xbus_send.
  assert (∀ m' ex, ∃ dist w' l,
    nn_dist_send (xbus_outpipes self) w tt m' ex = Ret (dist, w', tt, 0) ∧ NoDup l ∧
    (∀ p, p ∈ l ↔ p ∈ ps ∧ p ∈ writable w ∧ Some p ≠ ex) ∧
    sent w' = sent w ++ ((λ p, (p, m')) <$> l) ∧ recvd w' = recvd w ∧
    xbus_inv (XBus dist (xbus_inpipes self)) w' ps) as Hsend.
  { intros m' ex. destruct (ds_send _ _ _ m' ex Hd Hw)
      as (dist & w' & l & ? & ? & ? & ? & ? & Hrd & _ & ? & ?).
    exists dist, w', l. split_and!; try done. by split_and!; cbn; rewrite ?Hrd. }
  assert (origin (sphdr m) = if decide (length (sphdr m) = 0%nat) then None else bytes_ptr (sphdr m)) as ->.
  { unfold origin. by destruct (sphdr m). }
  case_decide as H0h.
  - apply nil_length_inv in H0h. rewrite (set_sphdr_id m []) by done.
    destruct (Hsend m None) as (dist & w' & l & -> & ?). step. by eexists _, w', l.
  - rewrite decide_True by (destruct Hh as [Hh|]; [by rewrite Hh in H0h|done]).
    destruct (Hsend (set_sphdr m []) (bytes_ptr (sphdr m))) as (dist & w' & l & -> & ?). step.
    by eexists _, w', l.
Qed.

Lemma xbus_recv_ok fuel self w ps :
  xbus_inv self w ps → (pending w < fuel)%nat →
  ∃ self' w' bad, Forall has_header bad ∧ sent w' = sent w ∧ writable w' = writable w ∧
    xbus_inv self' w' ps ∧
    ((nn_xbus_recv fuel self w = Ret (self', w', - EAGAIN, None) ∧ recvd w' = recvd w ++ bad ∧
       ∀ x, x ∈ ps → x ∉ readable w') ∨
     ∃ p m, nn_xbus_recv fuel self w = Ret (self', w', 0, Some (set_sphdr m (ptr_bytes p))) ∧
       p ∈ ps ∧ sphdr m = [] ∧ recvd w' = recvd w ++ bad ++ [(p, m)]).
Proof.
  intros Hi Hfuel. set (J bad (s : nn_xbus T * W) := Forall has_header bad ∧ sent s.2 = sent w ∧
    writable s.2 = writable w ∧ xbus_inv s.1 s.2 ps).
  destruct (while_ok (λ s, ∃ bad, J bad s ∧ recvd s.2 = recvd w ++ bad) (λ s, pending s.2)
    (λ s r, ∃ bad, J bad s ∧
       ((r = (- EAGAIN, None) ∧ recvd s.2 = recvd w ++ bad ∧ ∀ x, x ∈ ps → x ∉ readable s.2) ∨
        ∃ rc p m, 0 ≤ rc ∧ r = (rc, Some (p, m)) ∧ p ∈ ps ∧ sphdr m = [] ∧
          recvd s.2 = recvd w ++ bad ++ [(p, m)])) nn_xbus_recv_body)
    with (fuel := fuel) (s := (self, w)) as ([self' w'] & r & E & bad & (? & ? & ? & ?) & Hr).
  - intros [s u] (bad & (Hbad & Hs & Hwr & Hf & Hd & Hu) & Hrv). cbn [fst snd] in *. cbn.
    destruct (pl_recv _ _ _ Hf Hu) as [(_ & Hn & ->)|(_ & fq & u' & rc0 & rc & x & m & Hp & _ & -> &
      ? & ? & ? & ? & ? & Hrv' & Hs' & Hwr')]; step.
    + eexists (_, _), _. split; [done|]. exists bad. split; [by destruct s|]. left. by split_and!.
    + rewrite (proj2 (Z.ltb_ge rc 0)) by lia.
      assert (xbus_inv (XBus (xbus_outpipes s) fq) u' ps) by by split_and!; cbn; rewrite ?Hwr'.
      case_decide as Hh; eexists (_, _), _; (split; [done|]).
      * apply nil_length_inv in Hh. exists bad. split; [split_and!; cbn; congruence || done|]. right.
        exists rc, x, m. split_and!; [lia|done|done|done|]. cbn. by rewrite Hrv', Hrv, <- app_assoc.
      * split; [|by eapply pending_recv]. exists (bad ++ [(x, m)]). cbn.
        split; [split_and!; cbn; try congruence|by rewrite Hrv', Hrv, <- app_assoc].
        apply Forall_app. split; [done|]. apply Forall_singleton. unfold has_header. cbn.
        intros He. by rewrite He in Hh.
  - exists []. split; [|by rewrite app_nil_r]. by split_and!.
  - done.
  - exists self', w', bad. split_and!; try done. unfold nn_xbus_recv. rewrite E. step.
    destruct Hr as [(-> & ? & ?)|(rc & p & m & ? & -> & ? & ? & ?)]; [left|right; exists p, m]; done.
Qed.
Lemma xbus_init_inv s s' σ σ' w :
  l_rep s σ → lseq σ = ∅ → lfree σ = ∅ → l_rep s' σ' → lseq σ' = ∅ → lfree σ' = ∅ →
  pipe_inv w → xbus_inv (nn_xbus_init s s') w ∅.
Proof. intros. split_and!; [by eapply pl_init|by eapply ds_init|done]. Qed.

Lemma xbus_add_ok self w ps p sp rp :
  xbus_inv self w ps → allowed w ps (C_add p sp rp) →
  ∃ self', nn_xbus_add self p rp = Ret (self', 0) ∧ xbus_inv self' w ({[p]} ∪ ps).
Proof.
  intros (Hf & Hd & Hw) (Hp & Hnw & Hnr & _ & Hrp & Hsz). unfold nn_xbus_add.
  rewrite assert_prio_ok by done. step. eexists. split; [done|].
  split_and!; [by apply pl_add|by apply ds_add|done].
Qed.

Lemma xbus_rm_ok self w ps p w' :
  xbus_inv self w ps → allowed w ps (C_rm p w') →
  ∃ self', nn_xbus_rm self p = Ret self' ∧ xbus_inv self' w' (ps ∖ {[p]}).
Proof.
  intros (Hf & Hd & Hw) (Hp & (? & _) & Hwr & Hrd). unfold nn_xbus_rm, nn_fq_rm.
  destruct (pl_rm _ _ _ _ Hf Hp) as (fq & -> & ?). step.
  destruct (ds_rm _ _ _ _ Hd Hp) as (dist & -> & ?). step. eexists. split; [done|].
  split_and!; cbn; by rewrite ?Hwr, ?Hrd.
Qed.

Lemma xbus_in_ok self w ps p w' :
  xbus_inv self w ps → allowed w ps (C_in p w') →
  ∃ self', nn_xbus_in self p = Ret self' ∧ xbus_inv self' w' ps.
Proof.
  intros (Hf & Hd & Hw) (Hp & Hn & (? & _) & Hwr & Hrd). unfold nn_xbus_in, nn_fq_in.
  destruct (pl_activate _ _ _ _ Hf Hp Hn) as (fq & -> & ?). step. eexists. split; [done|].
  split_and!; cbn; by rewrite ?Hwr, ?Hrd.
Qed.

Lemma xbus_out_ok self w ps p w' :
  xbus_inv self w ps → allowed w ps (C_out p w') →
  ∃ self', nn_xbus_out self p = Ret self' ∧ xbus_inv self' w' ps.
Proof.
  intros (Hf & Hd & Hw) (Hp & Hn & (? & _) & Hwr & Hrd). unfold nn_xbus_out.
  destruct (ds_out _ _ _ _ Hd Hp Hn) as (dist & -> & ?). step. eexists. split; [done|].
  split_and!; cbn; by rewrite ?Hwr, ?Hrd.
Qed.

Lemma xbus_term_ok self w : xbus_inv self w ∅ → nn_xbus_term self = Ret tt.
Proof.
  intros (Hf & Hd & _). unfold nn_xbus_term, nn_fq_term. rewrite (pl_term _ _ Hf). step.
  exact (ds_term _ _ Hd).
Qed.

Lemma xbus_env self w ps w' :
  xbus_inv self w ps → env w w' → writable w' = writable w → readable w' = readable w →
  xbus_inv self w' ps.
Proof. intros (Hi & Ho & _) (Hw & _) Hwr Hrd. split_and!; [by rewrite Hrd|by rewrite Hwr|done]. Qed.

#[export] Program Instance xbus_proto_ok : ProtoOk (nn_xbus T) W vmsg := {| proto_inv := xbus_inv |}.
Next Obligation.
  intros self w ps p sp rp Hi _ Ha. destruct (xbus_add_ok _ _ _ _ _ _ Hi Ha) as (self' & E & ?).
  exists self', 0. by split.
Qed.
Next Obligation. intros self w ps p w' Hi Ha. exact (xbus_rm_ok _ _ _ _ _ Hi Ha). Qed.
Next Obligation.
  intros fuel self w ps p w' _ Hi Ha _. destruct (xbus_in_ok _ _ _ _ _ Hi Ha) as (self' & E & ?).
  cbn. rewrite E. by exists self', w'.
Qed.
Next Obligation.
  intros self w ps p w' Hi Ha. destruct (xbus_out_ok _ _ _ _ _ Hi Ha) as (self' & E & ?).
  cbn. rewrite E. by exists self', w'.
Qed.
Next Obligation.
  intros self w ps m Hi _. cbn. destruct (decide (sphdr m = [] ∨ length (sphdr m) = 8%nat)) as [Hh|Hh].
  - destruct (xbus_send_ok _ _ _ m Hi Hh) as (self' & w' & l & -> & _ & _ & _ & _ & ?).
    by exists self', w', 0.
  - unfold nn_xbus_send. rewrite !decide_False; [by exists self, w, (- EINVAL)|tauto|].
    intros ?%nil_length_inv. tauto.
Qed.
Next Obligation.
  intros fuel self w ps Hi Hf. cbn.
  destruct (xbus_recv_ok fuel _ _ _ Hi Hf)
    as (self' & w' & bad & _ & _ & _ & ? & [[-> _]|(p & m & -> & _)]);
    [by exists self', w', (- EAGAIN), None|by eexists self', w', 0, (Some _)].
Qed.
Next Obligation. intros self w Hi. exact (xbus_term_ok _ _ Hi). Qed.
Next Obligation. intros self w ps w' Hi He Hwr Hrd. exact (xbus_env _ _ _ _ Hi He Hwr Hrd). Qed.
Next Obligation. intros self w ps _. cbn. unfold nn_xbus_events. by case_match. Qed.

#[export] Program Instance bus_proto_ok : ProtoOk (nn_bus T) W vmsg := {|
  proto_inv self := xbus_inv (bus_xbus self) |}.
Next Obligation.
  intros self w ps p sp rp Hi _ Ha. destruct (xbus_add_ok _ _ _ _ _ _ Hi Ha) as (self' & E & ?).
  cbn. rewrite E. by exists (Bus self'), 0.
Qed.
Next Obligation.
  intros self w ps p w' Hi Ha. destruct (xbus_rm_ok _ _ _ _ _ Hi Ha) as (self' & E & ?).
  cbn. rewrite E. by exists (Bus self').
Qed.
Next Obligation.
  intros fuel self w ps p w' _ Hi Ha _. destruct (xbus_in_ok _ _ _ _ _ Hi Ha) as (self' & E & ?).
  cbn. rewrite E. by exists (Bus self'), w'.
Qed.
Next Obligation.
  intros self w ps p w' Hi Ha. destruct (xbus_out_ok _ _ _ _ _ Hi Ha) as (self' & E & ?).
  cbn. rewrite E. by exists (Bus self'), w'.
Qed.
Next Obligation.
  intros self w ps m Hi _. cbn. unfold nn_bus_send. case_decide as Hh.
  - by exists self, w, (- EINVAL).
  - destruct (xbus_send_ok _ _ _ m Hi) as (self' & w' & l & -> & _ & _ & _ & _ & ?);
      [left; apply nil_length_inv; lia|]. step. by exists (Bus self'), w', 0.
Qed.
Next Obligation.
  intros fuel self w ps Hi Hf. cbn. unfold nn_bus_recv.
  destruct (xbus_recv_ok fuel _ _ _ Hi Hf)
    as (self' & w' & bad & _ & _ & _ & ? & [[-> _]|(p & m & -> & _)]); step.
  - by exists (Bus self'), w', (- EAGAIN), None.
  - cbn [sphdr set_sphdr]. rewrite ptr_bytes_length. cbn. by eexists (Bus self'), w', 0, (Some _).
Qed.
Next Obligation. intros self w Hi. exact (xbus_term_ok _ _ Hi). Qed.
Next Obligation. intros self w ps w' Hi He Hwr Hrd. exact (xbus_env _ _ _ _ Hi He Hwr Hrd). Qed.
Next Obligation. intros self w ps _. cbn. unfold nn_xbus_events. by case_match. Qed.

Section sessions.
Context (s0 s0' : T) (σ0 σ0' : lspec) (w0 : W).
Context (Hr0 : l_rep s0 σ0) (He0 : lseq σ0 = ∅) (Hf0 : lfree σ0 = ∅).
Context (Hr0' : l_rep s0' σ0') (He0' : lseq σ0' = ∅) (Hf0' : lfree σ0' = ∅) (Hw0 : pipe_inv w0).

Lemma xbus_reach_inv s w ps :
  reach (M := vmsg) (nn_xbus_init s0 s0') w0 (s, w, ps) → xbus_inv s w ps.
Proof.
  intros Hreach.
  assert (proto_inv (M := vmsg) (nn_xbus_init s0 s0') w0 ∅) as Hi by by eapply xbus_init_inv.
  exact (reach_inv _ _ _ Hi Hreach).
Qed.

(** A forwarding device on a raw bus does not echo.  In every session of a
    raw bus socket, whatever the calls before: a receive either returns -EAGAIN
    with no attached pipe left readable, or 0 and a message of an attached pipe
    [p]; messages that arrive with a header are dropped.  Sending the received
    message on goes to every attached writable pipe except [p], once to each,
    with the header removed. *)
Theorem xbus_forward_no_echo fuel s w ps :
  reach (M := vmsg) (nn_xbus_init s0 s0') w0 (s, w, ps) → (pending w < fuel)%nat →
  ∃ s' w' bad, Forall has_header bad ∧
    ((nn_xbus_recv fuel s w = Ret (s', w', - EAGAIN, None) ∧ recvd w' = recvd w ++ bad ∧
       ∀ x, x ∈ ps → x ∉ readable w') ∨
     ∃ p m, nn_xbus_recv fuel s w = Ret (s', w', 0, Some (set_sphdr m (ptr_bytes p))) ∧
       p ∈ ps ∧ sphdr m = [] ∧ recvd w' = recvd w ++ bad ++ [(p, m)] ∧
       (Zpos p < 2 ^ 64 →
        ∃ s'' w'' l, nn_xbus_send s' w' (set_sphdr m (ptr_bytes p)) = Ret (s'', w'', 0) ∧
          NoDup l ∧ (∀ q, q ∈ l ↔ q ∈ ps ∧ q ∈ writable w ∧ q ≠ p) ∧
          sent w'' = sent w ++ ((λ q, (q, m)) <$> l) ∧ recvd w'' = recvd w')).
Proof.
  intros Hreach Hfuel.
  destruct (xbus_recv_ok fuel _ _ _ (xbus_reach_inv _ _ _ Hreach) Hfuel)
    as (s' & w' & bad & Hbad & Hs & Hwr & Hi & Hr).
  exists s', w', bad. split; [done|]. destruct Hr as [Hr|(p & m & E & Hp & Hm & Hrv)]; [by left|right].
  exists p, m. split_and!; try done. intros Hlt.
  destruct (xbus_send_ok s' w' ps (set_sphdr m (ptr_bytes p)) Hi)
    as (s'' & w'' & l & Es & Hnd & Hl & Hsent & Hrv' & _); [right; apply ptr_bytes_length|].
  exists s'', w'', l. split_and!; try done.
  - intros q. rewrite Hl, Hwr. cbn [sphdr set_sphdr]. unfold origin.
    rewrite bytes_ptr_bytes by done. pose proof (ptr_bytes_length p).
    destruct (ptr_bytes p); [done|]. naive_solver.
  - by rewrite Hsent, Hs, set_sphdr_set, (set_sphdr_id m []).
Qed.

(** A bus socket works in every session: every call returns and the socket
    can be destroyed once its pipes are gone.  A send of a message without a
    header reaches every attached writable pipe exactly once; a message with a
    header is refused with -EINVAL.  A receive returns a message without a
    header, or -EAGAIN when no attached pipe is readable any more. *)
Theorem bus_session s w ps c m fuel :
  reach (M := vmsg) (nn_bus_init s0 s0') w0 (s, w, ps) → allowed w ps c → (pending w < fuel)%nat →
  (∃ σ, call_step (s, w, ps) c = Ret σ) ∧
  (ps = ∅ → nn_bus_destroy s = Ret tt) ∧
  (if decide (sphdr m = []) then
     ∃ s' w' l, nn_bus_send s w m = Ret (s', w', 0) ∧ NoDup l ∧
       (∀ p, p ∈ l ↔ p ∈ ps ∧ p ∈ writable w) ∧
       sent w' = sent w ++ ((λ p, (p, m)) <$> l) ∧ recvd w' = recvd w
   else nn_bus_send s w m = Ret (s, w, - EINVAL)) ∧
  (∃ s' w' bad, Forall has_header bad ∧
    ((nn_bus_recv fuel s w = Ret (s', w', - EAGAIN, None) ∧ recvd w' = recvd w ++ bad ∧
       ∀ x, x ∈ ps → x ∉ readable w') ∨
     ∃ p m', nn_bus_recv fuel s w = Ret (s', w', 0, Some m') ∧ p ∈ ps ∧ sphdr m' = [] ∧
       recvd w' = recvd w ++ bad ++ [(p, m')])).
Proof.
  intros Hreach Ha Hfuel.
  assert (proto_inv (M := vmsg) (nn_bus_init s0 s0') w0 ∅) as Hi by by eapply xbus_init_inv.
  assert (legal (W := W) (M := vmsg) s c) as Hleg by by destruct c.
  destruct (session_safe _ _ _ _ _ _ Hi Hreach Hleg Ha) as [(σ & E & _) Hd].
  pose proof (reach_inv _ _ _ Hi Hreach) as Hinv. cbn [fst snd] in Hinv.
  split; [by exists σ|]. split; [exact Hd|]. split.
  - unfold nn_bus_send. case_decide as Hm.
    + rewrite decide_False by (rewrite Hm; cbn; lia).
      destruct (xbus_send_ok _ _ _ m Hinv (or_introl Hm)) as (s' & w' & l & -> & ? & Hl & Hs & ? & _). step.
      exists (Bus s'), w', l. split_and!; try done; [|by rewrite Hs, set_sphdr_id].
      intros p. rewrite Hl, Hm. cbn. naive_solver.
    + rewrite decide_True; [done|]. intros ?%nil_length_inv. done.
  - unfold nn_bus_recv. destruct (xbus_recv_ok fuel _ _ _ Hinv Hfuel)
      as (s' & w' & bad & ? & _ & _ & _ & [(-> & ? & ?)|(p & m' & -> & ? & Hm & ?)]);
      exists (Bus s'), w', bad; (split; [done|]); step.
    + left. by split_and!.
    + right. exists p, m'. cbn [sphdr set_sphdr]. rewrite ptr_bytes_length. cbn.
      split_and!; try done. f_equal. f_equal. f_equal. by destruct m'; cbn in *; subst.
Qed.

End sessions.
End props.

(** ** Examples *)

Module BusSample.

Definition xbus0 : nn_xbus Ptr.store := nn_xbus_init Ptr.empty_store Ptr.empty_store.
Definition bus0 : nn_bus Ptr.store := nn_bus_init Ptr.empty_store Ptr.empty_store.
Definition hello : vmsg := VMsg [] [] [1; 2; 3].
Definition malformed : vmsg := VMsg [0; 0; 0; 1] [] [9].

(** Pipes 2, 4 and 6 are writable; a malformed and a good message arrive at 4. *)
Definition bus_script : list (toy vmsg → call (toy vmsg) vmsg) :=
  [λ _, C_add 2 8 8; λ _, C_add 4 8 8; λ _, C_add 6 8 8; λ w, C_out 2 (toy_ready w 2);
   λ w, C_out 4 (toy_ready w 4); λ w, C_out 6 (toy_ready w 6);
   λ w, C_in 4 (toy_arrive w 4 [malformed; hello])].

End BusSample.

Lemma xbus_forward_no_echo_witness :
  ∃ s w ps, script (BusSample.xbus0, toy_empty, ∅) BusSample.bus_script = Ret (s, w, ps) ∧
    ∃ s' w' p m, nn_xbus_recv 3 s w = Ret (s', w', 0, Some (set_sphdr m (ptr_bytes p))) ∧
      ∃ s'' w'' l, nn_xbus_send s' w' (set_sphdr m (ptr_bytes p)) = Ret (s'', w'', 0) ∧
        p ∉ l ∧ t_sent w'' = t_sent w ++ ((λ q, (q, m)) <$> l).
Proof.
  destruct (ret_check_ok (λ σ, bool_decide (toy_pending σ.1.2 = 2%nat) &&
      bool_decide (set_Forall (λ p, Zpos p < 2 ^ 64) σ.2) &&
      ret_check (λ r, bool_decide (r.1.2 = 0)) (nn_xbus_recv 3 σ.1.1 σ.1.2))
    (script (BusSample.xbus0, toy_empty, ∅) BusSample.bus_script))
    as ([[s w] ps] & E & Hs); [vm_compute; reflexivity|].
  apply andb_true_iff in Hs as [[Hp Hps]%andb_true_iff Hrc].
  apply bool_decide_eq_true_1 in Hp, Hps. exists s, w, ps. split; [exact E|]. cbn [fst snd] in *.
  destruct (xbus_forward_no_echo (H0 := Ptr.ptr_store_ok) Ptr.empty_store Ptr.empty_store _ _ toy_empty
    Ptr.rep_empty eq_refl eq_refl Ptr.rep_empty eq_refl eq_refl toy_empty_inv 3 s w ps
    (script_reach _ _ _ _ _ (reach_start _ _) E)) as (s' & w' & bad & _ & [[Er _]|(p & m & Er & Hin & _ & _ & H)]);
    [change (pending w) with (toy_pending w); rewrite Hp; lia| |].
  - rewrite Er in Hrc. discriminate Hrc.
  - exists s', w', p, m. split; [exact Er|]. destruct (H (Hps p Hin)) as (s'' & w'' & l & Es & _ & Hl & Hsent & _).
    exists s'', w'', l. split; [exact Es|]. split; [|exact Hsent]. intros Hpl. by apply (Hl p) in Hpl as (_ & _ & []).
Defined.

Lemma bus_session_witness :
  ∃ s w ps, script (BusSample.bus0, toy_empty, ∅) BusSample.bus_script = Ret (s, w, ps) ∧
    ∃ s' w' l, nn_bus_send s w BusSample.hello = Ret (s', w', 0) ∧
      t_sent w' = t_sent w ++ ((λ p, (p, BusSample.hello)) <$> l).
Proof.
  destruct (ret_check_ok (λ σ, bool_decide (toy_pending σ.1.2 = 2%nat))
    (script (BusSample.bus0, toy_empty, ∅) BusSample.bus_script))
    as ([[s w] ps] & E & Hp); [vm_compute; reflexivity|].
  apply bool_decide_eq_true_1 in Hp. exists s, w, ps. split; [exact E|]. cbn [fst snd] in *.
  destruct (bus_session (H0 := Ptr.ptr_store_ok) Ptr.empty_store Ptr.empty_store _ _ toy_empty
    Ptr.rep_empty eq_refl eq_refl Ptr.rep_empty eq_refl eq_refl toy_empty_inv s w ps C_recv
    BusSample.hello 3 (script_reach _ _ _ _ _ (reach_start _ _) E) I) as (_ & _ & H & _);
    [change (pending w) with (toy_pending w); rewrite Hp; lia|].
  rewrite decide_True in H by reflexivity. destruct H as (s' & w' & l & Es & _ & _ & Hs & _).
  exists s', w', l. exact (conj Es Hs).
Defined.
