(* ===== verification/Trie.v ===== *)
(** * protocols/pubsub/trie.c: the patricia trie of subscriptions

    Nodes own their children, so a trie is a tree here.  [nn_node_next] is the
    one way to a child in both layouts of a node, and the proofs see children
    through it only.  The specification is [count]: the number of subscriptions
    to each string. *)
From S2P Require Import Prelude.

Definition NN_TRIE_PREFIX_MAX : nat := 10.
Definition NN_TRIE_SPARSE_MAX : nat := 8.

(** [type] tells the two layouts of the children apart; its value for the
    sparse one is the length of the list.  A child pointer of the sparse array
    is NULL only between the steps of one call. *)
Inductive nn_trie_node := Node (refcount : Z) (prefix : list Z) (kids : nn_kids)
with nn_kids :=
| Sparse (children : list (Z * nn_trie_node))
| Dense (min max nbr : Z) (children : list (option nn_trie_node)).

Definition refcount (n : nn_trie_node) : Z := let 'Node r _ _ := n in r.
Definition prefix (n : nn_trie_node) : list Z := let 'Node _ p _ := n in p.
Definition kids (n : nn_trie_node) : nn_kids := let 'Node _ _ k := n in k.
Definition prefix_len (n : nn_trie_node) : nat := length (prefix n).
Definition set_kids (n : nn_trie_node) (k : nn_kids) : nn_trie_node := Node (refcount n) (prefix n) k.

(** ** The C code *)

Definition nn_node_has_subscribers (n : nn_trie_node) : bool := negb (refcount n =? 0).

(** The number of characters of the prefix that the data match. *)
Fixpoint check_prefix (p data : list Z) : nat :=
  match p, data with
  | c :: p, d :: data => if decide (c = d) then S (check_prefix p data) else O
  | _, _ => O
  end.
Definition nn_node_check_prefix (n : nn_trie_node) (data : list Z) : nat :=
  check_prefix (prefix n) data.

Fixpoint sparse_next (l : list (Z * nn_trie_node)) (c : Z) : option nn_trie_node :=
  match l with
  | [] => None
  | (c', ch) :: l => if decide (c' = c) then Some ch else sparse_next l c
  end.

(** [None] is a NULL result, [Some None] points to a NULL child. *)
Definition nn_node_next (n : nn_trie_node) (c : Z) : option (option nn_trie_node) :=
  match kids n with
  | Sparse l => Some <$> sparse_next l c
  | Dense mn mx _ l => if decide (c < mn ∨ mx < c) then None else l !! Z.to_nat (c - mn)
  end.

(** Storing through the pointer that [nn_node_next] returned. *)
Fixpoint sparse_set (l : list (Z * nn_trie_node)) (c : Z) (ch : nn_trie_node) :
    list (Z * nn_trie_node) :=
  match l with
  | [] => []
  | (c', ch') :: l => if decide (c' = c) then (c', ch) :: l else (c', ch') :: sparse_set l c ch
  end.
Definition set_child (n : nn_trie_node) (c : Z) (ch : nn_trie_node) : nn_trie_node :=
  set_kids n
    match kids n with
    | Sparse l => Sparse (sparse_set l c ch)
    | Dense mn mx nbr l => Dense mn mx nbr (<[Z.to_nat (c - mn) := Some ch]> l)
    end.

Definition nn_node_compact (self : nn_trie_node) : nn_trie_node :=
  if nn_node_has_subscribers self then self
  else match kids self with
  | Sparse [(c, ch)] =>
      if decide (NN_TRIE_PREFIX_MAX < prefix_len self + prefix_len ch + 1)%nat then self
      else Node (refcount ch) (prefix self ++ c :: prefix ch) (kids ch)
  | _ => self
  end.

(** Step 4 and 5 of a subscription: new nodes for the rest of it. *)
Fixpoint new_nodes (fuel : nat) (data : list Z) : outcome nn_trie_node :=
  match fuel with
  | O => Fail Diverge
  | S fuel =>
      match drop NN_TRIE_PREFIX_MAX data with
      | [] => Ret (Node 1 data (Sparse []))
      | c :: data' =>
          ch ← new_nodes fuel data';
          Ret (Node 0 (take NN_TRIE_PREFIX_MAX data) (Sparse [(c, ch)]))
      end
  end.

(** Step 5. *)
Definition add_ref (n : nn_trie_node) : nn_trie_node * Z :=
  let r := u32 (refcount n + 1) in (Node r (prefix n) (kids n), if r =? 1 then 1 else 0).

(** The range of a dense array that replaces a full sparse one. *)
Definition sparse_min (l : list (Z * nn_trie_node)) (c : Z) : Z :=
  Z.min (foldl (λ m x, Z.min m x.1) 255 l) c.
Definition sparse_max (l : list (Z * nn_trie_node)) (c : Z) : Z :=
  Z.max (foldl (λ m x, Z.max m x.1) 0 l) c.
Definition dense_of_sparse (mn mx : Z) (l : list (Z * nn_trie_node)) : list (option nn_trie_node) :=
  foldl (λ a x, <[Z.to_nat (x.1 - mn) := Some x.2]> a)
    (replicate (Z.to_nat (mx - mn + 1)) None) l.

(** Making room for a character outside the range of a dense array. *)
Definition dense_extend (mn mx c : Z) (l : list (option nn_trie_node)) :
    Z * Z * list (option nn_trie_node) :=
  if decide (c < mn ∨ mx < c) then
    let new_min := Z.min mn c in
    let new_max := Z.max mx c in
    (new_min, new_max,
     if decide (mn ≠ new_min) then replicate (Z.to_nat (mn - new_min)) None ++ l
     else l ++ replicate (Z.to_nat (new_max - new_min + 1 - (mx - mn + 1))) None)
  else (mn, mx, l).

(** Step 3 (to 5): a new child array entry for the rest of the subscription. *)
Definition new_branch (n : nn_trie_node) (data : list Z) : outcome (nn_trie_node * Z) :=
  match data with
  | [] => Ret (add_ref n)
  | c :: data =>
      ch ← new_nodes (S (length data)) data;
      match kids n with
      | Sparse l =>
          if decide (length l < NN_TRIE_SPARSE_MAX)%nat
          then Ret (set_kids n (Sparse (l ++ [(c, ch)])), 1)
          else
            let new_min := sparse_min l c in
            let new_max := sparse_max l c in
            let a := dense_of_sparse new_min new_max l in
            Ret (Node 0 (prefix n) (Dense new_min new_max (u16 (Z.of_nat (length l) + 1))
                   (<[Z.to_nat (c - new_min) := Some ch]> a)), 1)
      | Dense mn mx nbr l =>
          let '(mn, mx, l) := dense_extend mn mx c l in
          nn_assert (match l !! Z.to_nat (c - mn) with Some None => true | _ => false end);;
          Ret (set_kids n (Dense mn mx (u16 (nbr + 1)) (<[Z.to_nat (c - mn) := Some ch]> l)), 1)
      end
  end.

(** Step 2: split the prefix after [pos] characters. *)
Definition split_node (n : nn_trie_node) (pos : nat) : outcome nn_trie_node :=
  c ← rd (prefix n) pos;
  let ch := nn_node_compact (Node (refcount n) (drop (S pos) (prefix n)) (kids n)) in
  Ret (Node 0 (take pos (prefix n)) (Sparse [(c, ch)])).

Fixpoint subscribe (fuel : nat) (node : option nn_trie_node) (data : list Z) :
    outcome (nn_trie_node * Z) :=
  match fuel with
  | O => Fail Diverge
  | S fuel =>
      match node with
      | None => ch ← new_nodes (S (length data)) data; Ret (ch, 1)
      | Some n =>
          let pos := nn_node_check_prefix n data in
          let data := drop pos data in
          if decide (pos < prefix_len n)%nat then
            n ← split_node n pos; new_branch n data
          else
            match data with
            | [] => Ret (add_ref n)
            | c :: data' =>
                match nn_node_next n c with
                | Some (Some ch) =>
                    '(ch, rc) ← subscribe fuel (Some ch) data'; Ret (set_child n c ch, rc)
                | _ => new_branch n data
                end
            end
      end
  end.

(** The end of a subscription is found. *)
Definition drop_ref (node : option nn_trie_node) : option nn_trie_node * Z :=
  match node with
  | None => (node, - EINVAL)
  | Some n =>
      if negb (nn_node_has_subscribers n) then (node, - EINVAL)
      else
        let n := Node (refcount n - 1) (prefix n) (kids n) in
        if nn_node_has_subscribers n then (Some n, 0)
        else match kids n with
        | Sparse [] => (None, 1)
        | _ => (Some (nn_node_compact n), 1)
        end
  end.

(** The children of a dense array, with their characters. *)
Fixpoint dense_children (mn : Z) (l : list (option nn_trie_node)) : list (Z * nn_trie_node) :=
  match l with
  | [] => []
  | o :: l =>
      match o with
      | Some ch => (mn, ch) :: dense_children (mn + 1) l
      | None => dense_children (mn + 1) l
      end
  end.

(** The NULL pointers a trim removes from the left. *)
Fixpoint trim_left (l : list (option nn_trie_node)) : nat :=
  match l with None :: l => S (trim_left l) | _ => O end.

(** The child for [c] was removed: its pointer is NULL. *)
Definition remove_child (n : nn_trie_node) (c : Z) : outcome (option nn_trie_node * Z) :=
  match kids n with
  | Sparse l =>
      nn_assert (bool_decide (c ∈ l.*1));;
      let l := filter (λ x, x.1 ≠ c) l in
      let n := set_kids n (Sparse l) in
      match l with
      | [] => if negb (nn_node_has_subscribers n) then Ret (None, 1)
              else Ret (Some (nn_node_compact n), 1)
      | _ => Ret (Some (nn_node_compact n), 1)
      end
  | Dense mn mx nbr l =>
      let l := <[Z.to_nat (c - mn) := None]> l in
      if decide (Z.of_nat NN_TRIE_SPARSE_MAX + 1 < nbr) then
        if decide (c = mn) then
          let i := trim_left l in
          Ret (Some (set_kids n (Dense (u8 (Z.of_nat i + mn)) mx (u16 (nbr - 1)) (drop i l))), 1)
        else if decide (c = mx) then
          let i := Nat.max 1 (length l - trim_left (reverse l)) in
          Ret (Some (set_kids n (Dense mn (Z.of_nat i - 1 + mn) (u16 (nbr - 1)) (take i l))), 1)
        else Ret (Some (set_kids n (Dense mn mx (u16 (nbr - 1)) l)), 1)
      else
        let l := dense_children mn l in
        nn_assert (bool_decide (length l = NN_TRIE_SPARSE_MAX));;
        Ret (Some (Node 0 (prefix n) (Sparse l)), 1)
  end.

Fixpoint nn_node_unsubscribe (fuel : nat) (self : option nn_trie_node) (data : list Z) :
    outcome (option nn_trie_node * Z) :=
  match fuel with
  | O => Fail Diverge
  | S fuel =>
      match data with
      | [] => Ret (drop_ref self)
      | _ =>
          n ← deref self;
          let pos := nn_node_check_prefix n data in
          if decide (pos ≠ prefix_len n) then Ret (self, 0)
          else
            match drop pos data with
            | [] => Ret (drop_ref self)
            | c :: data' =>
                match nn_node_next n c with
                | None => Ret (self, 0)
                | Some ch =>
                    '(ch', rc) ← nn_node_unsubscribe fuel ch data';
                    match ch' with
                    | Some ch' => Ret (Some (set_child n c ch'), if rc =? 0 then 0 else 1)
                    | None => if rc =? 0 then Ret (self, 0) else remove_child n c
                    end
                end
            end
      end
  end.

Record nn_trie := Trie { root : option nn_trie_node }.

Definition nn_trie_init : nn_trie := Trie None.

Definition nn_trie_subscribe (self : nn_trie) (data : list Z) : outcome (nn_trie * Z) :=
  '(n, rc) ← subscribe (S (length data)) (root self) data; Ret (Trie (Some n), rc).

Definition nn_trie_unsubscribe (self : nn_trie) (data : list Z) : outcome (nn_trie * Z) :=
  '(o, rc) ← nn_node_unsubscribe (S (length data)) (root self) data; Ret (Trie o, rc).

(** [nn_trie_match] reads memory: [mem] is what lies from [data] to the end of
    the accessible memory, [size] is a [size_t]. *)
Fixpoint check_prefix_mem (p mem : list Z) (size : Z) : outcome nat :=
  match p with
  | [] => Ret O
  | c :: p =>
      if size =? 0 then Ret O
      else
        d ← deref (head mem);
        if decide (c = d) then i ← check_prefix_mem p (tail mem) (size - 1); Ret (S i) else Ret O
  end.

Fixpoint match_node (fuel : nat) (node : option nn_trie_node) (mem : list Z) (size : Z) : outcome Z :=
  match fuel with
  | O => Fail Diverge
  | S fuel =>
      match node with
      | None => Ret 0
      | Some n =>
          pos ← check_prefix_mem (prefix n) mem size;
          if decide (pos ≠ prefix_len n) then Ret 0
          else
            let mem := drop (prefix_len n) mem in
            let size := u64 (size - Z.of_nat (prefix_len n)) in
            if nn_node_has_subscribers n then Ret 1
            else
              c ← deref (head mem);
              match_node fuel (mjoin (nn_node_next n c)) (tail mem) (u64 (size - 1))
      end
  end.

Definition nn_trie_match (self : nn_trie) (mem : list Z) (size : Z) : outcome Z :=
  match_node (S (length mem)) (root self) mem size.

(** ** Specification *)

(** The node that represents exactly the string [s], below [n]. *)
Fixpoint node_at (n : nn_trie_node) (s : list Z) {struct n} : option nn_trie_node :=
  match n with
  | Node r p k =>
      let pos := check_prefix p s in
      if decide (pos < length p)%nat then None
      else
        match drop pos s with
        | [] => Some n
        | c :: s' =>
            match k with
            | Sparse l =>
                (fix go l := match l with
                 | [] => None
                 | (c', ch) :: l => if decide (c' = c) then node_at ch s' else go l
                 end) l
            | Dense mn mx _ l =>
                if decide (c < mn ∨ mx < c) then None
                else
                  (fix go l i := match l with
                   | [] => None
                   | o :: l =>
                       match i with
                       | O => match o with Some ch => node_at ch s' | None => None end
                       | S i => go l i
                       end
                   end) l (Z.to_nat (c - mn))
            end
        end
  end.

Definition node_at_opt (o : option nn_trie_node) (s : list Z) : option nn_trie_node :=
  match o with Some n => node_at n s | None => None end.

(** The number of subscriptions to [s]. *)
Definition count (o : option nn_trie_node) (s : list Z) : Z :=
  match node_at_opt o s with Some m => refcount m | None => 0 end.

(** *** Prefixes and paths *)

Lemma check_prefix_spec p s :
  ∃ q r t, p = q ++ r ∧ s = q ++ t ∧ check_prefix p s = length q ∧
    match r, t with c :: _, d :: _ => c ≠ d | _, _ => True end.
Proof.
  revert s. induction p as [|c p IH]; intros s; [by exists [], [], s|].
  destruct s as [|d s]; [by exists [], (c :: p), []|]. cbn. case_decide as Hcd.
  - subst d. destruct (IH s) as (q & r & t & -> & -> & -> & ?). by exists (c :: q), r, t.
  - by exists [], (c :: p), (d :: s).
Qed.

Lemma check_prefix_app p s : check_prefix p (p ++ s) = length p.
Proof. induction p as [|c p IH]; [done|]. cbn. by rewrite decide_True, IH. Qed.

Lemma check_prefix_full p s :
  ¬ (check_prefix p s < length p)%nat → s = p ++ drop (length p) s ∧ check_prefix p s = length p.
Proof.
  intros Hn. destruct (check_prefix_spec p s) as (q & r & t & Hp & Hs & Hk & _).
  assert (r = []) as ->.
  { destruct r; [done|]. apply (f_equal length) in Hp. rewrite length_app in Hp. cbn in Hp. lia. }
  rewrite app_nil_r in Hp. subst p. split; [|done].
  by rewrite Hs, drop_app_length.
Qed.

Lemma path_cases (p q : list Z) :
  q = p ∨ (∃ c q', q = p ++ c :: q') ∨ (∀ t, q ≠ p ++ t).
Proof.
  destruct (decide (p `prefix_of` q)) as [[t ->]|Hn].
  - destruct t as [|c t]; [left; by rewrite app_nil_r|right; left; eauto].
  - right. right. intros t ->. apply Hn. by exists t.
Qed.

Lemma node_at_unfold n s :
  node_at n s =
    if decide (check_prefix (prefix n) s < prefix_len n)%nat then None
    else match drop (check_prefix (prefix n) s) s with
         | [] => Some n
         | c :: s' => node_at_opt (mjoin (nn_node_next n c)) s'
         end.
Proof.
  destruct n as [r p k]. cbn [node_at prefix]. unfold prefix_len. cbn [prefix].
  case_decide; [done|]. destruct (drop _ s) as [|c s']; [done|]. unfold nn_node_next. cbn [kids].
  destruct k as [l|mn mx nbr l].
  - induction l as [|[c' ch] l IH]; [done|]. cbn [sparse_next]. case_decide; [done|apply IH].
  - case_decide; [done|]. generalize (Z.to_nat (c - mn)) as i.
    induction l as [|o l IH]; intros i; [by rewrite lookup_nil|].
    destruct i as [|i]; [by destruct o|apply IH].
Qed.

Lemma node_at_here n : node_at n (prefix n) = Some n.
Proof.
  rewrite node_at_unfold. pose proof (check_prefix_app (prefix n) []) as Hk.
  rewrite app_nil_r in Hk. rewrite Hk, decide_False by (unfold prefix_len; lia).
  by rewrite drop_ge.
Qed.

Lemma node_at_step n c s :
  node_at n (prefix n ++ c :: s) = node_at_opt (mjoin (nn_node_next n c)) s.
Proof.
  rewrite node_at_unfold, check_prefix_app, decide_False by (unfold prefix_len; lia).
  by rewrite drop_app_length.
Qed.

Lemma node_at_out n s : (∀ t, s ≠ prefix n ++ t) → node_at n s = None.
Proof.
  intros Hs. rewrite node_at_unfold. case_decide as Hk; [done|].
  destruct (check_prefix_full _ _ Hk) as [He _]. by destruct (Hs _ He).
Qed.

Lemma count_here n : count (Some n) (prefix n) = refcount n.
Proof. unfold count. cbn. by rewrite node_at_here. Qed.

Lemma count_step n c s :
  count (Some n) (prefix n ++ c :: s) = count (mjoin (nn_node_next n c)) s.
Proof. unfold count. cbn. by rewrite node_at_step. Qed.

Lemma count_out n s : (∀ t, s ≠ prefix n ++ t) → count (Some n) s = 0.
Proof. intros Hs. unfold count. cbn. by rewrite node_at_out. Qed.

(** Nodes with the same prefix and children differ in one count. *)
Lemma count_ext n n' q :
  prefix n' = prefix n → (q = prefix n → refcount n' = refcount n) →
  (∀ c q', q = prefix n ++ c :: q' →
     count (mjoin (nn_node_next n' c)) q' = count (mjoin (nn_node_next n c)) q') →
  count (Some n') q = count (Some n) q.
Proof.
  intros Hp Hr Hc. destruct (path_cases (prefix n) q) as [->|[(c & q' & ->)|Hout]].
  - rewrite <- Hp at 1. rewrite !count_here. by apply Hr.
  - rewrite <- Hp at 1. rewrite !count_step. by apply Hc.
  - rewrite !count_out; [done..|by rewrite Hp].
Qed.

(** *** Children *)

Definition is_full {A} (o : option A) : nat := match o with Some _ => 1 | None => 0 end.

Lemma length_dense_children mn l :
  length (dense_children mn l) = sum_list_with is_full l.
Proof. revert mn. induction l as [|[ch|] l IH]; intros mn; cbn; by rewrite ?IH. Qed.

Lemma full_insert (l : list (option nn_trie_node)) i o o' :
  l !! i = Some o →
  (sum_list_with is_full (<[i := o']> l) + is_full o = sum_list_with is_full l + is_full o')%nat.
Proof.
  revert i. induction l as [|x l IH]; intros [|i]; cbn; try done.
  - intros [= ->]. destruct o, o'; cbn; rewrite ?Nat.add_0_r, ?Nat.add_1_r; done.
  - intros Hi. specialize (IH _ Hi). unfold insert in *. lia.
Qed.

(** The invariants of one node. *)
Record node_ok (n : nn_trie_node) : Prop := {
  no_ref : 0 ≤ refcount n < 2 ^ 32;
  no_len : (prefix_len n ≤ NN_TRIE_PREFIX_MAX)%nat;
  no_bytes : bytes (prefix n);
  no_kids :
    match kids n with
    | Sparse l => NoDup l.*1 ∧ bytes l.*1 ∧ (length l ≤ NN_TRIE_SPARSE_MAX)%nat ∧
        (l = [] → refcount n ≠ 0)
    | Dense mn mx nbr l => 0 ≤ mn ≤ mx ∧ mx ≤ 255 ∧ length l = Z.to_nat (mx - mn + 1) ∧
        nbr = Z.of_nat (sum_list_with is_full l) ∧ Z.of_nat NN_TRIE_SPARSE_MAX < nbr
    end;
}.

Inductive wf (n : nn_trie_node) : Prop :=
| wf_node : node_ok n → (∀ c ch, nn_node_next n c = Some (Some ch) → wf ch) → wf n.

Definition wf_opt (o : option nn_trie_node) : Prop := match o with Some n => wf n | None => True end.

Lemma wf_ok n : wf n → node_ok n.
Proof. by destruct 1. Qed.
Lemma wf_next n c ch : wf n → nn_node_next n c = Some (Some ch) → wf ch.
Proof. destruct 1 as [_ H]. apply H. Qed.

Lemma sparse_next_in l c : is_Some (sparse_next l c) ↔ c ∈ l.*1.
Proof.
  induction l as [|[c' ch] l IH]; cbn.
  - split; [by intros [? ?]|by intros ?%not_elem_of_nil].
  - case_decide as Hc; [subst; split; [|done]; intros _; apply elem_of_cons; by left|].
    rewrite IH, elem_of_cons. naive_solver.
Qed.

Lemma sparse_next_set l c ch c' :
  sparse_next (sparse_set l c ch) c' =
    if decide (c' = c) then (if decide (c ∈ l.*1) then Some ch else None) else sparse_next l c'.
Proof.
  induction l as [|[c0 ch0] l IH]; cbn.
  - case_decide; [|done]. rewrite decide_False by apply not_elem_of_nil. done.
  - destruct (decide (c0 = c)) as [->|Hne]; cbn.
    + destruct (decide (c = c')) as [->|]; [|by rewrite decide_False].
      rewrite !decide_True; [done| |done]. apply elem_of_cons. by left.
    + destruct (decide (c0 = c')) as [->|Hne']; [by rewrite decide_False|]. rewrite IH.
      case_decide; [|done]. subst c'. rewrite !(decide_ext (c ∈ c0 :: l.*1) (c ∈ l.*1)); [done|].
      rewrite elem_of_cons. naive_solver.
Qed.

Lemma sparse_set_fst l c ch : (sparse_set l c ch).*1 = l.*1.
Proof. induction l as [|[c' ch'] l IH]; [done|]. cbn. case_decide; cbn; by rewrite ?IH. Qed.

Lemma next_set_child n c ch c' :
  node_ok n → is_Some (mjoin (nn_node_next n c)) →
  nn_node_next (set_child n c ch) c' =
    if decide (c' = c) then Some (Some ch) else nn_node_next n c'.
Proof.
  intros Hn [ch0 Hch0]. destruct (nn_node_next n c) as [[?|]|] eqn:E; try done. clear Hch0.
  unfold nn_node_next, set_child, set_kids in *. pose proof (no_kids _ Hn) as Hk.
  destruct n as [r p [l|mn mx nbr l]]; cbn [kids refcount prefix] in *.
  - rewrite sparse_next_set. case_decide; [|done]. rewrite decide_True; [done|].
    apply sparse_next_in. by destruct (sparse_next l c).
  - case_decide as Hr; [done|]. destruct (decide (c' = c)) as [->|Hne].
    + rewrite decide_False by done. apply lookup_lt_Some in E. by rewrite list_lookup_insert_eq.
    + case_decide; [done|]. rewrite list_lookup_insert_ne by lia. done.
Qed.

Lemma node_ok_set_child n c ch :
  node_ok n → is_Some (mjoin (nn_node_next n c)) → node_ok (set_child n c ch).
Proof.
  intros Hn [ch0 Hch0]. destruct (nn_node_next n c) as [[?|]|] eqn:E; try done. clear Hch0.
  pose proof Hn as [Href Hlen Hby Hk]. unfold nn_node_next, set_child, set_kids in *.
  destruct n as [r p [l|mn mx nbr l]]; cbn [kids refcount prefix] in *; split; try done;
    cbn [kids refcount].
  - rewrite sparse_set_fst. destruct Hk as (? & ? & ? & Hl). split_and!; try done.
    + rewrite <- (length_fmap fst), sparse_set_fst, length_fmap. done.
    + intros He. apply Hl. apply (f_equal (fmap fst)) in He. rewrite sparse_set_fst in He.
      by apply fmap_nil_inv in He.
  - case_decide; [done|]. destruct Hk as (? & ? & ? & Hnbr & ?).
    rewrite length_insert. pose proof (full_insert l _ _ (Some ch) E). cbn in *.
    split_and!; try done; lia.
Qed.

(** *** Merging and splitting nodes *)

Lemma count_node_here r p k : count (Some (Node r p k)) p = r.
Proof. exact (count_here (Node r p k)). Qed.
Lemma count_node_step r p k c s :
  count (Some (Node r p k)) (p ++ c :: s) = count (mjoin (nn_node_next (Node r p k) c)) s.
Proof. exact (count_step (Node r p k) c s). Qed.

Lemma count_app r a b k q :
  count (Some (Node r (a ++ b) k)) (a ++ q) = count (Some (Node r b k)) q.
Proof.
  destruct (path_cases b q) as [->|[(c & q' & ->)|Hout]].
  - by rewrite count_node_here, count_node_here.
  - rewrite app_assoc, count_node_step. by rewrite count_node_step.
  - rewrite (count_out (Node r b k)) by done. apply count_out. cbn. intros t.
    rewrite <- app_assoc. intros He%app_inv_head. by apply (Hout t).
Qed.

Lemma count_no_app r a b k q : (∀ t, q ≠ a ++ t) → count (Some (Node r (a ++ b) k)) q = 0.
Proof. intros Hq. apply count_out. cbn. intros t. rewrite <- app_assoc. apply Hq. Qed.

Lemma count_cons_ne r c d b k q : c ≠ d → count (Some (Node r (c :: b) k)) (d :: q) = 0.
Proof. intros Hne. apply count_out. cbn. intros t [= He _]. done. Qed.

Lemma next_kids n n' c : kids n = kids n' → nn_node_next n c = nn_node_next n' c.
Proof. unfold nn_node_next. by intros ->. Qed.

Lemma wf_same_kids n n' : wf n → kids n' = kids n → node_ok n' → wf n'.
Proof.
  intros Hw Hk Hn. split; [done|]. intros c ch. rewrite (next_kids _ _ _ Hk). by apply wf_next.
Qed.

Lemma next_single n c ch d :
  kids n = Sparse [(c, ch)] →
  nn_node_next n d = if decide (c = d) then Some (Some ch) else None.
Proof. intros Hk. unfold nn_node_next. rewrite Hk. cbn. by case_decide. Qed.

Lemma next_one r p c ch d :
  nn_node_next (Node r p (Sparse [(c, ch)])) d = if decide (c = d) then Some (Some ch) else None.
Proof. by apply next_single. Qed.

(** A node without subscriptions and with one child, merged with the child. *)
Lemma count_merge n c ch q :
  refcount n = 0 → kids n = Sparse [(c, ch)] →
  count (Some (Node (refcount ch) (prefix n ++ c :: prefix ch) (kids ch))) q = count (Some n) q.
Proof.
  intros Hr Hk. destruct ch as [r p k]. cbn [refcount prefix kids].
  destruct (path_cases (prefix n) q) as [->|[(d & q' & ->)|Hout]].
  - rewrite count_here, Hr. rewrite <- (app_nil_r (prefix n)) at 2. rewrite count_app.
    by rewrite count_out by done.
  - rewrite count_app, count_step, (next_single _ _ _ _ Hk). case_decide as Hd.
    + subst d. exact (count_app r [c] p k q').
    + by rewrite count_cons_ne.
  - by rewrite count_no_app, count_out.
Qed.

Lemma has_subscribers_false n : nn_node_has_subscribers n = false ↔ refcount n = 0.
Proof. unfold nn_node_has_subscribers. rewrite negb_false_iff, Z.eqb_eq. done. Qed.

Lemma nn_node_compact_ok n :
  wf n → wf (nn_node_compact n) ∧ ∀ q, count (Some (nn_node_compact n)) q = count (Some n) q.
Proof.
  intros Hw. unfold nn_node_compact. destruct (nn_node_has_subscribers n) eqn:Hs; [done|].
  apply has_subscribers_false in Hs. destruct (kids n) as [[|[c ch] [|]]|] eqn:Hk; try (split; [exact Hw|reflexivity]).
  case_decide as Hlen; [done|]. pose proof (wf_ok _ Hw) as Hn.
  assert (wf ch) as Hch by (apply (wf_next n c); [done|]; by rewrite (next_single _ _ _ _ Hk), decide_True).
  split; [|intros q; by apply count_merge].
  pose proof (wf_ok _ Hch) as [Hr _ Hb Hkids]. apply (wf_same_kids ch); [done..|].
  split; cbn; [done| | |done].
  - unfold prefix_len in *. cbn. rewrite length_app. cbn. lia.
  - pose proof (no_kids _ Hn) as Hkn. rewrite Hk in Hkn. destruct Hkn as (_ & Hc & _).
    apply Forall_app. split; [apply Hn|]. apply Forall_cons. split; [by apply Forall_inv in Hc|done].
Qed.

Lemma split_node_ok n pos :
  wf n → (pos < prefix_len n)%nat →
  ∃ n' c ch, split_node n pos = Ret n' ∧ wf n' ∧ prefix n' = take pos (prefix n) ∧
    refcount n' = 0 ∧ kids n' = Sparse [(c, ch)] ∧ prefix n !! pos = Some c ∧
    ∀ q, count (Some n') q = count (Some n) q.
Proof.
  intros Hw Hpos. destruct (lookup_lt_is_Some_2 (prefix n) pos Hpos) as [c Hc].
  pose proof (wf_ok _ Hw) as [Hr Hl Hb Hk].
  set (i := Node (refcount n) (drop (S pos) (prefix n)) (kids n)).
  assert (wf i) as Hi.
  { apply (wf_same_kids n); [done..|]. split; cbn; [done| |by apply Forall_drop|done].
    unfold prefix_len in *. cbn. rewrite length_drop. lia. }
  destruct (nn_node_compact_ok i Hi) as [Hwc Hcc].
  exists (Node 0 (take pos (prefix n)) (Sparse [(c, nn_node_compact i)])), c, (nn_node_compact i).
  unfold split_node, rd. rewrite Hc. step.
  split; [reflexivity|]. split; [|do 4 (split; [first [reflexivity|exact Hc]|])].
  - split.
    + split; cbn; [lia| |by apply Forall_take|].
      * unfold prefix_len in *. cbn. rewrite length_take. lia.
      * split_and!; [apply NoDup_singleton| |unfold NN_TRIE_SPARSE_MAX; lia|done]. apply Forall_singleton.
        by eapply Forall_lookup in Hb.
    + intros d ch. rewrite next_one. case_decide; [|discriminate]. by intros [= <-].
  - intros q. destruct n as [r p k]. cbn [prefix refcount kids] in *.
    rewrite <- (take_drop_middle p pos c Hc) at 2.
    set (a := take pos p) in *.
    destruct (path_cases a q) as [->|[(d & q' & ->)|Hout]].
    + rewrite count_node_here. rewrite <- (app_nil_r a) at 2. rewrite count_app.
      by rewrite count_out by done.
    + rewrite count_app, count_node_step, next_one.
      case_decide as Hd; cbn [mjoin option_join].
      * subst d. rewrite Hcc. symmetry. exact (count_app r [c] _ k q').
      * by rewrite count_cons_ne.
    + rewrite count_no_app by done. by rewrite count_out.
Qed.

(** *** New nodes *)

Lemma new_nodes_ok fuel data :
  (length data < fuel)%nat → bytes data →
  ∃ n, new_nodes fuel data = Ret n ∧ wf n ∧
    ∀ q, count (Some n) q = if decide (q = data) then 1 else 0.
Proof.
  revert data. induction fuel as [|fuel IH]; intros data Hf Hb; [lia|]. cbn [new_nodes].
  destruct (drop NN_TRIE_PREFIX_MAX data) as [|c data'] eqn:Ed.
  - exists (Node 1 data (Sparse [])). split; [done|].
    assert (length data ≤ NN_TRIE_PREFIX_MAX)%nat as Hl.
    { apply (f_equal length) in Ed. rewrite length_drop in Ed. cbn [length] in Ed. lia. }
    split.
    + split; [|done]. split; cbn; [lia|done|done|]. split_and!; [constructor|constructor|lia|done].
    + intros q. destruct (path_cases data q) as [->|[(c & q' & ->)|Hout]].
      * by rewrite count_node_here, decide_True.
      * rewrite count_node_step, decide_False; [done|].
        intros He. apply (f_equal length) in He. rewrite length_app in He. cbn in He. lia.
      * rewrite count_out by done. rewrite decide_False; [done|]. intros ->. apply (Hout []).
        by rewrite app_nil_r.
  - pose proof (take_drop NN_TRIE_PREFIX_MAX data) as Htd. rewrite Ed in Htd.
    rewrite <- Htd in Hb. apply Forall_app in Hb as [Hb1 [Hc Hb2]%Forall_cons].
    destruct (IH data') as (ch & -> & Hch & Hcount); [|done|].
    { apply (f_equal length) in Htd. rewrite length_app in Htd. cbn in Htd. lia. }
    step. eexists. split; [done|]. set (p := take _ data) in *. split.
    + split.
      * split; cbn; [lia| |done|].
        -- unfold prefix_len, p. cbn. rewrite length_take. unfold NN_TRIE_PREFIX_MAX. lia.
        -- split_and!; [apply NoDup_singleton|by apply Forall_singleton|unfold NN_TRIE_SPARSE_MAX; lia|done].
      * intros d ch'. rewrite next_one. case_decide; [|discriminate]. by intros [= <-].
    + intros q. rewrite <- Htd. destruct (path_cases p q) as [->|[(d & q' & ->)|Hout]].
      * rewrite count_node_here, decide_False; [done|].
        intros He. apply (f_equal length) in He. rewrite length_app in He. cbn in He. lia.
      * rewrite count_node_step, next_one.
        destruct (decide (c = d)) as [->|Hd]; cbn [mjoin option_join].
        -- rewrite Hcount. apply decide_ext. split; [by intros ->|]. by intros [= He]%app_inv_head.
        -- rewrite decide_False; [done|]. by intros [= He _]%app_inv_head.
      * rewrite count_out by done. rewrite decide_False; [done|]. intros ->. by apply (Hout (c :: data')).
Qed.

(** *** New branches *)

Lemma add_ref_ok n :
  wf n → refcount n + 1 < 2 ^ 32 →
  wf (add_ref n).1 ∧ (add_ref n).2 = (if refcount n =? 0 then 1 else 0) ∧
  ∀ q, count (Some (add_ref n).1) q = count (Some n) q + if decide (q = prefix n) then 1 else 0.
Proof.
  intros Hw Hlt. pose proof (wf_ok _ Hw) as [Hr Hl Hb Hk]. unfold add_ref, u32.
  rewrite Z.mod_small by lia. cbn [fst snd]. split_and!.
  - apply (wf_same_kids n); [exact Hw|reflexivity|]. split; cbn [refcount prefix kids]; [lia|exact Hl|exact Hb|].
    destruct (kids n); [|exact Hk]. destruct Hk as (? & ? & ? & Hk). split_and!; [done..|]. lia.
  - destruct (Z.eqb_spec (refcount n) 0) as [->|]; [done|]. by rewrite (proj2 (Z.eqb_neq _ _)) by lia.
  - intros q. case_decide as Hq.
    + subst q. by rewrite count_node_here, count_here.
    + rewrite Z.add_0_r. apply count_ext; [done..|]. intros c q' ->.
      by rewrite (next_kids (Node _ _ _) n).
Qed.

Lemma branch_ok n n' c ch data :
  wf n → node_ok n' → prefix n' = prefix n → wf ch →
  (∀ q, count (Some ch) q = if decide (q = data) then 1 else 0) →
  mjoin (nn_node_next n c) = None →
  (∀ d, mjoin (nn_node_next n' d) = if decide (d = c) then Some ch else mjoin (nn_node_next n d)) →
  wf n' ∧ ∀ q, count (Some n') q =
    if decide (q = prefix n ++ c :: data) then 1
    else if decide (q = prefix n) then refcount n' else count (Some n) q.
Proof.
  intros Hw Hn' Hp Hch Hcount Hc Hnext. split.
  - split; [exact Hn'|]. intros d ch' Hd. specialize (Hnext d). rewrite Hd in Hnext. cbn in Hnext.
    case_decide; [by simplify_eq|]. destruct (nn_node_next n d) as [[?|]|] eqn:E; simplify_eq/=.
    exact (wf_next _ _ _ Hw E).
  - intros q. destruct (path_cases (prefix n) q) as [->|[(d & q' & ->)|Hout]].
    + rewrite decide_False, decide_True by (try done; intros He; apply (f_equal length) in He;
        rewrite length_app in He; cbn in He; lia).
      rewrite <- Hp. apply count_here.
    + rewrite (decide_False (P := prefix n ++ d :: q' = prefix n)); cycle 1.
      { intros He; apply (f_equal length) in He; rewrite length_app in He; cbn in He; lia. }
      rewrite <- Hp at 1. rewrite !count_step, Hnext. destruct (decide (d = c)) as [->|Hd].
      * rewrite Hcount. case_decide as Hq; [by rewrite decide_True by congruence|].
        rewrite decide_False by (intros [= He]%app_inv_head; done). by rewrite Hc.
      * rewrite decide_False by (intros [= He _]%app_inv_head; done). done.
    + rewrite count_out by (by rewrite Hp). rewrite !decide_False; [by rewrite count_out|..].
      * intros ->. apply (Hout []). by rewrite app_nil_r.
      * intros ->. by eapply Hout.
Qed.

Lemma sparse_next_app l c ch d :
  sparse_next (l ++ [(c, ch)]) d =
    match sparse_next l d with Some x => Some x | None => if decide (c = d) then Some ch else None end.
Proof. induction l as [|[c' ch'] l IH]; cbn; [done|]. by destruct (decide (c' = d)). Qed.

Lemma sparse_next_None l c : sparse_next l c = None ↔ c ∉ l.*1.
Proof. rewrite <- sparse_next_in, eq_None_not_Some. done. Qed.

Lemma foldl_min (l : list (Z * nn_trie_node)) : ∀ m, let r := foldl (λ m x, Z.min m x.1) m l in
  r ≤ m ∧ (∀ k, k ∈ l.*1 → r ≤ k) ∧ (∀ b, b ≤ m → (∀ k, k ∈ l.*1 → b ≤ k) → b ≤ r).
Proof.
  induction l as [|[c ch] l IH]; intros m; cbn.
  - split_and!; [lia|by intros k ?%not_elem_of_nil|auto].
  - destruct (IH (Z.min m c)) as (H1 & H2 & H3). split_and!; [lia| |].
    + intros k [->|Hk]%elem_of_cons; [lia|auto].
    + intros b Hb Hbs. apply H3; [|intros k Hk; apply Hbs; apply elem_of_cons; auto].
      assert (b ≤ c) by (apply Hbs, elem_of_cons; auto). lia.
Qed.

Lemma foldl_max (l : list (Z * nn_trie_node)) : ∀ m, let r := foldl (λ m x, Z.max m x.1) m l in
  m ≤ r ∧ (∀ k, k ∈ l.*1 → k ≤ r) ∧ (∀ b, m ≤ b → (∀ k, k ∈ l.*1 → k ≤ b) → r ≤ b).
Proof.
  induction l as [|[c ch] l IH]; intros m; cbn.
  - split_and!; [lia|by intros k ?%not_elem_of_nil|auto].
  - destruct (IH (Z.max m c)) as (H1 & H2 & H3). split_and!; [lia| |].
    + intros k [->|Hk]%elem_of_cons; [lia|auto].
    + intros b Hb Hbs. apply H3; [|intros k Hk; apply Hbs; apply elem_of_cons; auto].
      assert (c ≤ b) by (apply Hbs, elem_of_cons; auto). lia.
Qed.

(** The range of a dense array covers the characters it is built for. *)
Lemma sparse_range l c :
  bytes l.*1 → is_byte c →
  0 ≤ sparse_min l c ≤ c ∧ c ≤ sparse_max l c ≤ 255 ∧
  ∀ k, k ∈ l.*1 → sparse_min l c ≤ k ≤ sparse_max l c.
Proof.
  intros Hb Hc. unfold sparse_min, sparse_max, is_byte, bytes in *. rewrite Forall_forall in Hb.
  destruct (foldl_min l 255) as (H1 & H2 & H3). destruct (foldl_max l 0) as (H4 & H5 & H6).
  assert (0 ≤ foldl (λ m x, Z.min m x.1) 255 l) by (apply H3; [lia|intros k Hk; apply (Hb k Hk)]).
  assert (foldl (λ m x, Z.max m x.1) 0 l ≤ 255).
  { apply H6; [lia|]. intros k Hk. destruct (Hb k Hk). lia. }
  split_and!; try lia; intros k Hk; specialize (H2 k Hk); specialize (H5 k Hk); lia.
Qed.

Lemma foldl_insert_length mn (l : list (Z * nn_trie_node)) : ∀ a,
  length (foldl (λ a x, <[Z.to_nat (x.1 - mn) := Some x.2]> a) a l) = length a.
Proof. induction l as [|x l IH]; intros a; [done|]. cbn [foldl]. by rewrite IH, length_insert. Qed.

Lemma foldl_insert_lookup mn (l : list (Z * nn_trie_node)) : ∀ a d,
  NoDup l.*1 → (∀ k, k ∈ l.*1 → mn ≤ k ∧ (Z.to_nat (k - mn) < length a)%nat) → mn ≤ d →
  foldl (λ a x, <[Z.to_nat (x.1 - mn) := Some x.2]> a) a l !! Z.to_nat (d - mn) =
    match sparse_next l d with Some ch => Some (Some ch) | None => a !! Z.to_nat (d - mn) end.
Proof.
  induction l as [|[c ch] l IH]; intros a d Hnd Hin Hd; [done|].
  cbn [fmap list_fmap] in Hnd. apply NoDup_cons in Hnd as [Hc Hnd]. cbn [foldl sparse_next fst snd].
  rewrite IH; [|done| |done].
  - destruct (decide (c = d)) as [->|Hne].
    + rewrite (proj2 (sparse_next_None l d)) by done. apply list_lookup_insert_eq.
      apply Hin, elem_of_cons. by left.
    + destruct (sparse_next l d); [done|]. apply list_lookup_insert_ne.
      assert (mn ≤ c) by (apply Hin, elem_of_cons; by left). lia.
  - intros k Hk. rewrite length_insert. apply Hin, elem_of_cons. by right.
Qed.

Lemma foldl_insert_full mn (l : list (Z * nn_trie_node)) : ∀ a,
  NoDup l.*1 → (∀ k, k ∈ l.*1 → mn ≤ k ∧ a !! Z.to_nat (k - mn) = Some None) →
  sum_list_with is_full (foldl (λ a x, <[Z.to_nat (x.1 - mn) := Some x.2]> a) a l) =
    (sum_list_with is_full a + length l)%nat.
Proof.
  induction l as [|[c ch] l IH]; intros a Hnd Hin; [cbn; lia|].
  cbn [fmap list_fmap] in Hnd. apply NoDup_cons in Hnd as [Hc Hnd]. cbn [foldl fst snd length].
  destruct (Hin c) as [Hmn Hac]; [apply elem_of_cons; by left|].
  pose proof (full_insert a _ _ (Some ch) Hac) as Hsum. cbn [is_full] in Hsum.
  rewrite IH; [lia|done|]. intros k Hk.
  destruct (Hin k) as [Hmk Hak]; [apply elem_of_cons; by right|]. split; [done|].
  rewrite list_lookup_insert_ne; [done|]. assert (k ≠ c) by by intros ->. lia.
Qed.

(** A full sparse array: adding a child to such a node converts it. *)
Definition sparse_full (n : nn_trie_node) : bool :=
  match kids n with Sparse l => bool_decide (length l = NN_TRIE_SPARSE_MAX) | Dense _ _ _ _ => false end.

Lemma is_full_replicate k : sum_list_with (is_full (A := nn_trie_node)) (replicate k None) = 0%nat.
Proof. induction k; [done|]. cbn. by rewrite IHk. Qed.

Lemma dense_ok r p mn mx nbr l :
  0 ≤ r < 2 ^ 32 → (length p ≤ NN_TRIE_PREFIX_MAX)%nat → bytes p →
  0 ≤ mn ≤ mx → mx ≤ 255 → length l = Z.to_nat (mx - mn + 1) →
  nbr = Z.of_nat (sum_list_with is_full l) → Z.of_nat NN_TRIE_SPARSE_MAX < nbr →
  node_ok (Node r p (Dense mn mx nbr l)).
Proof. intros. split; cbn [refcount prefix kids]; [done|done|done|]. by repeat (split; [assumption|]). Qed.

(** Looking a character up in a dense array. *)
Lemma next_dense r p mn mx nbr l d :
  nn_node_next (Node r p (Dense mn mx nbr l)) d =
    if decide (d < mn ∨ mx < d) then None else l !! Z.to_nat (d - mn).
Proof. done. Qed.

Lemma dense_insert_next mn mx (l : list (option nn_trie_node)) c ch d :
  mn ≤ c ≤ mx → length l = Z.to_nat (mx - mn + 1) →
  mjoin (if decide (d < mn ∨ mx < d) then None else <[Z.to_nat (c - mn) := Some ch]> l !! Z.to_nat (d - mn)) =
    if decide (d = c) then Some ch
    else mjoin (if decide (d < mn ∨ mx < d) then None else l !! Z.to_nat (d - mn)).
Proof.
  intros Hc Hl. destruct (decide (d = c)) as [->|Hd].
  - rewrite decide_False by lia. rewrite list_lookup_insert_eq by lia. done.
  - case_decide; [done|]. by rewrite list_lookup_insert_ne by lia.
Qed.

Lemma dense_of_sparse_ok l c :
  NoDup l.*1 → bytes l.*1 → is_byte c → sparse_next l c = None →
  let mn := sparse_min l c in let mx := sparse_max l c in
  length (dense_of_sparse mn mx l) = Z.to_nat (mx - mn + 1) ∧
  sum_list_with is_full (dense_of_sparse mn mx l) = length l ∧
  dense_of_sparse mn mx l !! Z.to_nat (c - mn) = Some None ∧
  ∀ d, mjoin (if decide (d < mn ∨ mx < d) then None else dense_of_sparse mn mx l !! Z.to_nat (d - mn)) =
    sparse_next l d.
Proof.
  intros Hnd Hb Hc Hn. destruct (sparse_range l c Hb Hc) as (Hmn & Hmx & Hk). cbv zeta.
  generalize dependent (sparse_max l c). generalize dependent (sparse_min l c). intros mn Hmn mx Hmx Hk.
  unfold dense_of_sparse. split_and!.
  - by rewrite foldl_insert_length, length_replicate.
  - rewrite foldl_insert_full, is_full_replicate; [done|done|]. intros k Hkl. specialize (Hk k Hkl).
    split; [lia|]. apply lookup_replicate. split; [done|lia].
  - rewrite foldl_insert_lookup, Hn; [|done| |lia].
    + apply lookup_replicate. split; [done|lia].
    + intros k Hkl. specialize (Hk k Hkl). rewrite length_replicate. lia.
  - intros d. case_decide as Hd.
    + destruct (sparse_next l d) eqn:E; [|done]. assert (d ∈ l.*1) as Hdl by (apply sparse_next_in; by rewrite E).
      specialize (Hk d Hdl). lia.
    + rewrite foldl_insert_lookup; [|done| |lia].
      * destruct (sparse_next l d); [done|]. rewrite lookup_replicate_2 by lia. done.
      * intros k Hkl. specialize (Hk k Hkl). rewrite length_replicate. lia.
Qed.

Lemma is_full_app (l l' : list (option nn_trie_node)) :
  sum_list_with is_full (l ++ l') = (sum_list_with is_full l + sum_list_with is_full l')%nat.
Proof. induction l as [|x l IH]; [done|]. cbn [app sum_list_with]. lia. Qed.

Lemma dense_extend_ok mn mx c l :
  0 ≤ mn ≤ mx → mx ≤ 255 → is_byte c → length l = Z.to_nat (mx - mn + 1) →
  mjoin (if decide (c < mn ∨ mx < c) then None else l !! Z.to_nat (c - mn)) = None →
  ∃ mn' mx' l', dense_extend mn mx c l = (mn', mx', l') ∧ 0 ≤ mn' ≤ mx' ∧ mx' ≤ 255 ∧ mn' ≤ c ≤ mx' ∧
    length l' = Z.to_nat (mx' - mn' + 1) ∧
    sum_list_with is_full l' = sum_list_with is_full l ∧ l' !! Z.to_nat (c - mn') = Some None ∧
    ∀ d, mjoin (if decide (d < mn' ∨ mx' < d) then None else l' !! Z.to_nat (d - mn')) =
      mjoin (if decide (d < mn ∨ mx < d) then None else l !! Z.to_nat (d - mn)).
Proof.
  unfold is_byte. intros Hmn Hmx Hc Hl Hn. unfold dense_extend. case_decide as Hr; cycle 1.
  { exists mn, mx, l. split_and!; try done; try lia.
    destruct (lookup_lt_is_Some_2 l (Z.to_nat (c - mn))) as [o Ho]; [lia|]. rewrite Ho in Hn |- *.
    cbn in Hn. by subst. }
  do 3 eexists. split; [reflexivity|]. do 3 (split; [lia|]).
  destruct (decide (mn ≠ Z.min mn c)) as [Hm|Hm].
  - rewrite length_app, length_replicate, is_full_app, is_full_replicate.
    split_and!; [lia|done|by rewrite lookup_app_l, lookup_replicate_2 by (rewrite ?length_replicate; lia)|].
    intros d. destruct (decide (d < Z.min mn c ∨ Z.max mx c < d)).
    { by rewrite decide_True by lia. }
    destruct (decide (d < mn ∨ mx < d)).
    + by rewrite lookup_app_l, lookup_replicate_2 by (rewrite ?length_replicate; lia).
    + rewrite lookup_app_r, length_replicate by (rewrite length_replicate; lia).
      f_equal. f_equal. lia.
  - rewrite length_app, length_replicate, is_full_app, is_full_replicate, Nat.add_0_r.
    split_and!; [lia|done|by rewrite lookup_app_r, lookup_replicate_2 by lia|].
    intros d. destruct (decide (d < Z.min mn c ∨ Z.max mx c < d)).
    { by rewrite decide_True by lia. }
    destruct (decide (d < mn ∨ mx < d)).
    + by rewrite lookup_app_r, lookup_replicate_2 by lia.
    + rewrite lookup_app_l by lia. f_equal. f_equal. lia.
Qed.

Lemma new_branch_ok n c data :
  wf n → is_byte c → bytes data → mjoin (nn_node_next n c) = None →
  ∃ n', new_branch n (c :: data) = Ret (n', 1) ∧ wf n' ∧ ∀ q, count (Some n') q =
    if decide (q = prefix n ++ c :: data) then 1
    else if decide (q = prefix n) then (if sparse_full n then 0 else count (Some n) q)
    else count (Some n) q.
Proof.
  intros Hw Hc Hb Hn. pose proof (wf_ok _ Hw) as [Hr Hl Hby Hk].
  destruct (new_nodes_ok (S (length data)) data) as (ch & Ech & Hch & Hcount); [lia|done|].
  cbn [new_branch]. rewrite Ech. step. unfold sparse_full.
  assert (∀ n', node_ok n' → prefix n' = prefix n →
    (∀ d, mjoin (nn_node_next n' d) = if decide (d = c) then Some ch else mjoin (nn_node_next n d)) →
    refcount n' = (if match kids n with Sparse l => bool_decide (length l = NN_TRIE_SPARSE_MAX) | _ => false end
                   then 0 else refcount n) →
    wf n' ∧ ∀ q, count (Some n') q = if decide (q = prefix n ++ c :: data) then 1
      else if decide (q = prefix n) then
        (if match kids n with Sparse l => bool_decide (length l = NN_TRIE_SPARSE_MAX) | _ => false end
         then 0 else count (Some n) q) else count (Some n) q) as Hdone.
  { intros n' Hn' Hp Hnext Href.
    destruct (branch_ok n n' c ch data Hw Hn' Hp Hch Hcount Hn Hnext) as [Hw' Hq].
    split; [exact Hw'|]. intros q. rewrite Hq. case_decide; [done|]. case_decide as Hqp; [|done].
    rewrite Href. subst q. by rewrite count_here. }
  destruct n as [r p [l|mn mx nbr l]]; cbn [kids refcount prefix] in *.
  - destruct Hk as (Hnd & Hbl & Hlen & _). change (mjoin (Some <$> sparse_next l c) = None) in Hn.
    assert (sparse_next l c = None) as Hs by by destruct (sparse_next l c).
    assert (∀ d, mjoin (nn_node_next (Node r p (Sparse l)) d) = sparse_next l d) as Hnext.
    { intros d. unfold nn_node_next. cbn. by destruct (sparse_next l d). }
    destruct (decide (length l < NN_TRIE_SPARSE_MAX)%nat) as [Hlt|Hlt].
    + eexists. split; [reflexivity|]. apply Hdone; [|done| |].
      * split; cbn [refcount prefix kids set_kids]; [done|done|done|].
        rewrite fmap_app, length_app. cbn [fmap list_fmap fst length]. split_and!.
        -- apply NoDup_app. split_and!; [done| |apply NoDup_singleton].
           intros x Hx ->%list_elem_of_singleton. by apply sparse_next_None in Hs.
        -- apply Forall_app. split; [done|by apply Forall_singleton].
        -- lia.
        -- by destruct l.
      * intros d. rewrite Hnext. unfold nn_node_next, set_kids. cbn [kids].
        rewrite sparse_next_app. destruct (decide (d = c)) as [->|Hd].
        -- by rewrite Hs, decide_True.
        -- destruct (sparse_next l d); [done|]. by rewrite decide_False.
      * rewrite bool_decide_eq_false_2 by lia. done.
    + destruct (sparse_range l c Hbl Hc) as (Hmn & Hmx & _).
      destruct (dense_of_sparse_ok l c Hnd Hbl Hc Hs) as (Hdl & Hdf & Hdc & Hdn).
      assert (length l = NN_TRIE_SPARSE_MAX) as Hfull by lia.
      eexists. split; [reflexivity|]. apply Hdone; [|done| |].
      * pose proof (full_insert _ _ _ (Some ch) Hdc) as Hsum. cbn [is_full] in Hsum. rewrite Hdf in Hsum.
        apply dense_ok; try done; try lia.
        -- by rewrite length_insert.
        -- unfold u16, NN_TRIE_SPARSE_MAX in *. rewrite Z.mod_small by lia. lia.
        -- unfold u16. rewrite Hfull. done.
      * intros d. rewrite next_dense, dense_insert_next by (done || lia).
        by rewrite Hdn, Hnext.
      * by rewrite bool_decide_eq_true_2.
  - destruct Hk as (Hmn & Hmx & Hlen & Hnbr & Hgt). rewrite next_dense in Hn.
    destruct (dense_extend_ok mn mx c l Hmn Hmx Hc Hlen Hn)
      as (mn' & mx' & l' & -> & Hmn' & Hmx' & Hc' & Hl' & Hf' & Hcn & Hd').
    rewrite Hcn. step. eexists. split; [reflexivity|]. apply Hdone; [|done| |done].
    + pose proof (full_insert _ _ _ (Some ch) Hcn) as Hsum. cbn [is_full] in Hsum.
      assert (sum_list_with is_full l' ≤ length l')%nat.
      { clear. induction l' as [|o l' IH]; [done|]. destruct o; cbn [sum_list_with is_full length]; lia. }
      unfold set_kids. cbn [refcount prefix]. apply dense_ok; try done; try lia.
      * by rewrite length_insert.
      * unfold u16. rewrite Z.mod_small; lia.
      * unfold u16. rewrite Z.mod_small; lia.
    + intros d. unfold set_kids. cbn [refcount prefix].
      rewrite !next_dense, dense_insert_next by done. by rewrite Hd'.
Qed.

(** *** Subscribing *)

(** The subscription to [data] converts the node of [q] into a dense one. *)
Definition converts (o : option nn_trie_node) (data q : list Z) : bool :=
  bool_decide (q `prefix_of` data) &&
  match node_at_opt o q, drop (length q) data with
  | Some m, c :: _ => sparse_full m && bool_decide (¬ is_Some (mjoin (nn_node_next m c)))
  | _, _ => false
  end.

Lemma converts_true o data q :
  converts o data q = true ↔
  ∃ m c t, node_at_opt o q = Some m ∧ data = q ++ c :: t ∧ sparse_full m = true ∧
    mjoin (nn_node_next m c) = None.
Proof.
  unfold converts. rewrite andb_true_iff, bool_decide_eq_true. split.
  - intros [[t ->] Hm]. rewrite drop_app_length in Hm. destruct (node_at_opt o q) as [m|] eqn:E; [|done].
    destruct t as [|c t]; [done|]. apply andb_true_iff in Hm as [Hf Hn%bool_decide_eq_true_1].
    exists m, c, t. split_and!; [done..|]. by apply eq_None_not_Some.
  - intros (m & c & t & -> & -> & -> & Hn). split; [by exists (c :: t)|].
    rewrite drop_app_length. cbn. apply bool_decide_eq_true_2. by rewrite Hn; intros [? ?].
Qed.

Lemma node_at_inv n q m : node_at n q = Some m → ∃ t, q = prefix n ++ t.
Proof.
  intros Hm. destruct (path_cases (prefix n) q) as [->|[(c & q' & ->)|Hout]];
    [exists []; by rewrite app_nil_r|by eexists|]. by rewrite node_at_out in Hm.
Qed.

Lemma converts_false o data q :
  (∀ m c t, node_at_opt o q = Some m → data = q ++ c :: t → sparse_full m = true →
    mjoin (nn_node_next m c) = None → False) → converts o data q = false.
Proof.
  intros Hno. apply not_true_iff_false. intros (m & c & t & ? & ? & ? & ?)%converts_true. by eapply Hno.
Qed.

Lemma converts_short n data q : (∀ t, data ≠ prefix n ++ t) → converts (Some n) data q = false.
Proof.
  intros Hd. apply converts_false. intros m c t [t' ->]%node_at_inv -> _ _.
  apply (Hd (t' ++ c :: t)). by rewrite <- app_assoc.
Qed.

Lemma converts_nil n q : converts (Some n) (prefix n) q = false.
Proof.
  apply converts_false. intros m c t [t' ->]%node_at_inv He _ _. apply (f_equal length) in He.
  rewrite !length_app in He. cbn in He. lia.
Qed.

Lemma converts_here n c t :
  mjoin (nn_node_next n c) = None → converts (Some n) (prefix n ++ c :: t) (prefix n) = sparse_full n.
Proof.
  intros Hn. destruct (sparse_full n) eqn:Hf.
  - apply converts_true. exists n, c, t. split_and!; try done. apply node_at_here.
  - apply converts_false. cbn. intros m d t'. rewrite node_at_here. intros [= <-] _. congruence.
Qed.

Lemma converts_here_child n c t ch :
  nn_node_next n c = Some (Some ch) → converts (Some n) (prefix n ++ c :: t) (prefix n) = false.
Proof.
  intros Hn. apply converts_false. cbn. intros m d t'. rewrite node_at_here. intros [= <-].
  intros [= <- _]%app_inv_head _. by rewrite Hn.
Qed.

Lemma converts_step n c t q :
  converts (Some n) (prefix n ++ c :: t) (prefix n ++ c :: q) = converts (mjoin (nn_node_next n c)) t q.
Proof.
  apply eq_true_iff_eq. rewrite !converts_true. cbn. rewrite node_at_step. split.
  - intros (m & d & t' & ? & He & ?). rewrite <- app_assoc in He. cbn in He.
    apply app_inv_head in He as [= ->]. by exists m, d, t'.
  - intros (m & d & t' & ? & -> & ?). exists m, d, t'. by rewrite <- app_assoc.
Qed.

Lemma converts_ne n c d t q :
  d ≠ c → converts (Some n) (prefix n ++ c :: t) (prefix n ++ d :: q) = false.
Proof.
  intros Hd. apply converts_false. intros m e t' _ He _ _. rewrite <- app_assoc in He.
  apply app_inv_head in He as [= -> _]. done.
Qed.

Lemma converts_out n data q : (∀ t, q ≠ prefix n ++ t) → converts (Some n) data q = false.
Proof.
  intros Hq. apply converts_false. intros m c t [t' ->]%node_at_inv. by destruct (Hq t').
Qed.

(** A change of one child. *)
Lemma set_child_ok n c ch ch' :
  wf n → nn_node_next n c = Some (Some ch) → wf ch' →
  wf (set_child n c ch') ∧ ∀ q, count (Some (set_child n c ch')) q =
    match drop (prefix_len n) q with
    | d :: q' => if decide (q = prefix n ++ c :: q') then count (Some ch') q' else count (Some n) q
    | [] => count (Some n) q
    end.
Proof.
  intros Hw Hch Hw'. pose proof (wf_ok _ Hw) as Hn.
  assert (is_Some (mjoin (nn_node_next n c))) as Hs by by rewrite Hch.
  split.
  - split; [by apply node_ok_set_child|]. intros d ch2. rewrite next_set_child by done.
    case_decide; [by intros [= <-]|]. by apply wf_next.
  - assert (prefix (set_child n c ch') = prefix n) as Hp by done.
    intros q. destruct (path_cases (prefix n) q) as [->|[(d & q' & ->)|Hout]].
    + unfold prefix_len. rewrite drop_ge by done. rewrite <- Hp at 1. rewrite count_here. by rewrite count_here.
    + unfold prefix_len. rewrite drop_app_length. rewrite <- Hp at 1. rewrite count_step.
      rewrite next_set_child by done. destruct (decide (d = c)) as [->|Hd]; [by rewrite decide_True|].
      rewrite decide_False by (intros [= He]%app_inv_head; done). by rewrite count_step.
    + rewrite count_out by done. destruct (drop _ q) as [|d q']; [by rewrite count_out|].
      rewrite decide_False by (intros ->; by eapply Hout). by rewrite count_out.
Qed.

Lemma count_nonneg o q : wf_opt o → 0 ≤ count o q.
Proof.
  destruct o as [n|]; [|done]. cbn. intros Hw. revert q. induction Hw as [n Hn _ IH]. intros q.
  destruct (path_cases (prefix n) q) as [->|[(c & q' & ->)|Hout]].
  - rewrite count_here. by destruct (no_ref _ Hn).
  - rewrite count_step. destruct (nn_node_next n c) as [[ch|]|] eqn:E; [by apply (IH c)|done..].
  - by rewrite count_out.
Qed.

Definition subscribed (o : option nn_trie_node) (data q : list Z) : Z :=
  if decide (q = data) then count o data + 1
  else if converts o data q then 0 else count o q.

Lemma subscribe_partial n data :
  wf n → bytes data → (nn_node_check_prefix n data < prefix_len n)%nat →
  ∃ n' n'' rc, split_node n (nn_node_check_prefix n data) = Ret n' ∧
    new_branch n' (drop (nn_node_check_prefix n data) data) = Ret (n'', rc) ∧ wf n'' ∧
    rc = (if count (Some n) data =? 0 then 1 else 0) ∧
    ∀ q, count (Some n'') q = subscribed (Some n) data q.
Proof.
  intros Hw Hb Hlt. unfold nn_node_check_prefix in *.
  destruct (split_node_ok n _ Hw Hlt) as (n' & c0 & ch0 & Es & Hw' & Hp & Hr & Hk & Hc0 & Hcount).
  destruct (check_prefix_spec (prefix n) data) as (a & r & t & Hpn & Hd & Hcp & Hne).
  rewrite Hcp in *. rewrite Hpn, take_app_length in Hp.
  destruct r as [|c1 r]; [rewrite app_nil_r in Hpn; unfold prefix_len in Hlt; rewrite Hpn in Hlt; lia|].
  assert (c1 = c0) as ->.
  { rewrite Hpn, lookup_app_r, Nat.sub_diag in Hc0 by done. by injection Hc0. }
  assert (∀ t', data ≠ prefix n ++ t') as Hsh.
  { intros t'. rewrite Hd, Hpn, <- app_assoc. intros ->%app_inv_head. by destruct Hne. }
  assert (∀ q, subscribed (Some n) data q = if decide (q = data) then 1 else count (Some n) q) as Hsub.
  { intros q. unfold subscribed. rewrite converts_short by done. case_decide; [|done].
    by rewrite count_out. }
  rewrite (count_out n data Hsh), Z.eqb_refl.
  setoid_rewrite Hsub. exists n'. rewrite Es. rewrite Hd in *. rewrite drop_app_length.
  destruct t as [|d t].
  - rewrite app_nil_r in *. cbn [new_branch]. destruct (add_ref_ok n' Hw') as (Hw2 & Hrc & Hq); [lia|].
    rewrite Hr in Hrc. destruct (add_ref n') as [n2 r2]. cbn [fst snd Z.eqb] in *.
    exists n2, 1. split_and!; [done|by rewrite Hrc|exact Hw2|done|].
    + intros q. rewrite Hq, Hp, Hcount. case_decide; [|lia]. subst q. rewrite count_out by done. done.
  - assert (nn_node_next n' d = None) as Hnx.
    { rewrite (next_single _ _ _ _ Hk). rewrite decide_False; [done|]. congruence. }
    apply Forall_app in Hb as [_ [Hbd Hbt]%Forall_cons].
    destruct (new_branch_ok n' d t Hw' Hbd Hbt) as (n'' & -> & Hw2 & Hq); [by rewrite Hnx|].
    exists n'', 1. split_and!; [done..|exact Hw2|done|]. intros q. rewrite Hq, Hp. case_decide; [done|].
    unfold sparse_full. rewrite Hk. cbn. case_decide; by rewrite Hcount.
Qed.

Lemma subscribe_branch n c t :
  wf n → is_byte c → bytes t → mjoin (nn_node_next n c) = None →
  ∃ n' rc, new_branch n (c :: t) = Ret (n', rc) ∧ wf n' ∧
    rc = (if count (Some n) (prefix n ++ c :: t) =? 0 then 1 else 0) ∧
    ∀ q, count (Some n') q = subscribed (Some n) (prefix n ++ c :: t) q.
Proof.
  intros Hw Hbc Hbt Hn. destruct (new_branch_ok n c t Hw Hbc Hbt Hn) as (n' & -> & Hw' & Hq).
  exists n', 1. rewrite count_step, Hn. split_and!; [done|exact Hw'|done|]. intros q. rewrite Hq.
  unfold subscribed. rewrite count_step, Hn. destruct (decide (q = prefix n ++ c :: t)) as [|Hne]; [done|].
  destruct (path_cases (prefix n) q) as [->|[(d & q' & ->)|Hout]].
  - by rewrite decide_True, converts_here.
  - rewrite decide_False; cycle 1.
    { intros He. apply (f_equal length) in He. rewrite length_app in He. cbn in He. lia. }
    destruct (decide (d = c)) as [->|Hd]; [|by rewrite converts_ne].
    rewrite converts_step, Hn. by rewrite converts_false by done.
  - rewrite converts_out, decide_False; [done| |done]. intros ->. apply (Hout []). by rewrite app_nil_r.
Qed.

Lemma subscribe_ok fuel o data :
  (length data < fuel)%nat → wf_opt o → bytes data → count o data + 1 < 2 ^ 32 →
  ∃ n rc, subscribe fuel o data = Ret (n, rc) ∧ wf n ∧
    rc = (if count o data =? 0 then 1 else 0) ∧ ∀ q, count (Some n) q = subscribed o data q.
Proof.
  revert o data. induction fuel as [|fuel IH]; intros o data Hf Hw Hb Hlt; [lia|]. cbn [subscribe].
  destruct o as [n|]; cycle 1.
  { destruct (new_nodes_ok (S (length data)) data) as (n & -> & Hn & Hq); [lia|done|]. step.
    exists n, 1. split_and!; [done|exact Hn|done|]. intros q. rewrite Hq.
    unfold subscribed. by rewrite converts_false by done. }
  cbn [wf_opt] in Hw. case_decide as Hpos.
  { destruct (subscribe_partial n data Hw Hb Hpos) as (n' & n'' & rc & -> & E & Hr). step.
    rewrite E. by exists n'', rc. }
  destruct (check_prefix_full _ _ Hpos) as [Hd Hcp]. unfold nn_node_check_prefix. rewrite Hcp.
  destruct (drop (length (prefix n)) data) as [|c t] eqn:Ed.
  - rewrite app_nil_r in Hd. subst data. rewrite count_here in *.
    destruct (add_ref_ok n Hw Hlt) as (Hw' & Hrc & Hq).
    exists (add_ref n).1, (add_ref n).2. split_and!; [by destruct (add_ref n)|exact Hw'|done|].
    intros q. rewrite Hq. unfold subscribed. rewrite converts_nil. case_decide; [|lia].
    subst q. by rewrite count_here.
  - rewrite Hd in *. apply Forall_app in Hb as [_ [Hbc Hbt]%Forall_cons]. clear Hd.
    destruct (nn_node_next n c) as [[ch|]|] eqn:Hn.
    + rewrite count_step, Hn in *. cbn [mjoin option_join] in *.
      rewrite length_app in Hf. cbn in Hf.
      destruct (IH (Some ch) t) as (ch' & rc & -> & Hw' & Hrc & Hq); [lia|by eapply wf_next|done|done|]. step.
      destruct (set_child_ok n c ch ch' Hw Hn Hw') as [Hws Hqs].
      exists (set_child n c ch'), rc. split_and!; [done|exact Hws|done|]. intros q. rewrite Hqs.
      unfold subscribed, prefix_len. destruct (path_cases (prefix n) q) as [->|[(d & q' & ->)|Hout]].
      * rewrite drop_ge by done. rewrite (converts_here_child _ _ _ _ Hn), decide_False; [done|].
        intros He. apply (f_equal length) in He. rewrite length_app in He. cbn in He. lia.
      * rewrite drop_app_length. destruct (decide (d = c)) as [->|Hdc].
        -- rewrite decide_True, Hq by done. unfold subscribed. rewrite converts_step, !count_step, Hn.
           cbn [mjoin option_join]. destruct (decide (q' = t)) as [->|]; [by rewrite decide_True|].
           rewrite decide_False by (intros [= He]%app_inv_head; done). done.
        -- rewrite converts_ne by done.
           rewrite !decide_False by (intros He%app_inv_head; congruence). done.
      * rewrite converts_out by done. rewrite count_out by done.
        rewrite (decide_False (P := q = _)) by (intros ->; by eapply Hout).
        destruct (drop _ q); [done|]. rewrite decide_False by (intros ->; by eapply Hout). done.
    + apply subscribe_branch; [exact Hw|done|done|by rewrite Hn].
    + apply subscribe_branch; [exact Hw|done|done|by rewrite Hn].
Qed.

(** *** Unsubscribing *)

(** The only subscription below a node is [t], and there is one. *)
Definition only_sub (o : option nn_trie_node) (t : list Z) : Prop :=
  ∀ q, count o q = if decide (q = t) then 1 else 0.

(** A dense array that has too few children after one is removed. *)
Definition dense_low (n : nn_trie_node) : bool :=
  match kids n with
  | Dense _ _ nbr _ => bool_decide (nbr = Z.of_nat NN_TRIE_SPARSE_MAX + 1)
  | Sparse _ => false
  end.

Lemma not_middle (p : list Z) d q : p ++ d :: q ≠ p.
Proof. intros He. apply (f_equal length) in He. rewrite length_app in He. cbn in He. lia. Qed.

Lemma removal_ok n n' c ch t :
  wf n → node_ok n' → prefix n' = prefix n → nn_node_next n c = Some (Some ch) →
  only_sub (Some ch) t →
  (∀ d, mjoin (nn_node_next n' d) = if decide (d = c) then None else mjoin (nn_node_next n d)) →
  wf n' ∧ ∀ q, count (Some n') q =
    if decide (q = prefix n ++ c :: t) then 0
    else if decide (q = prefix n) then refcount n' else count (Some n) q.
Proof.
  intros Hw Hn' Hp Hch Hone Hnext. split.
  - split; [exact Hn'|]. intros d ch' Hd. specialize (Hnext d). rewrite Hd in Hnext. cbn in Hnext.
    case_decide; [done|]. destruct (nn_node_next n d) as [[?|]|] eqn:E; simplify_eq/=.
    exact (wf_next _ _ _ Hw E).
  - intros q. destruct (path_cases (prefix n) q) as [->|[(d & q' & ->)|Hout]].
    + rewrite decide_False, decide_True by (try done; intros He; by eapply not_middle).
      rewrite <- Hp. apply count_here.
    + rewrite (decide_False (P := prefix n ++ d :: q' = prefix n)) by apply not_middle.
      rewrite <- Hp at 1. rewrite !count_step, Hnext. destruct (decide (d = c)) as [->|Hd].
      * rewrite Hch. cbn [mjoin option_join]. rewrite Hone.
        destruct (decide (q' = t)) as [->|Hq]; [by rewrite decide_True|].
        by rewrite decide_False by (intros He%app_inv_head; congruence).
      * by rewrite decide_False by (intros He%app_inv_head; congruence).
    + rewrite count_out by (by rewrite Hp). case_decide; [done|].
      rewrite decide_False; [by rewrite count_out|]. intros ->. apply (Hout []). by rewrite app_nil_r.
Qed.

Lemma sparse_next_filter l c d :
  sparse_next (filter (λ x, x.1 ≠ c) l) d = if decide (d = c) then None else sparse_next l d.
Proof.
  induction l as [|[c' ch] l IH]; [by case_decide|]. destruct (decide (c' = c)) as [->|Hc].
  - rewrite filter_cons_False by (intros []; done). rewrite IH. cbn. repeat case_decide; congruence.
  - rewrite filter_cons_True by done. cbn. rewrite IH. repeat case_decide; congruence.
Qed.

Lemma filter_fst_in l (c k : Z) :
  k ∈ (filter (λ x : Z * nn_trie_node, x.1 ≠ c) l).*1 → k ∈ l.*1 ∧ k ≠ c.
Proof. intros ([k' ch] & -> & [? Hin]%list_elem_of_filter)%list_elem_of_fmap. split; [|done]. apply list_elem_of_fmap. by eexists. Qed.

Lemma filter_fst_nodup l (c : Z) :
  NoDup l.*1 → NoDup (filter (λ x : Z * nn_trie_node, x.1 ≠ c) l).*1.
Proof.
  induction l as [|[k ch] l IH]; [done|]. cbn [fmap list_fmap fst]. intros [Hk Hnd]%NoDup_cons.
  destruct (decide (k = c)).
  - rewrite filter_cons_False by (intros []; done). by apply IH.
  - rewrite filter_cons_True by done. cbn [fmap list_fmap fst]. constructor; [|by apply IH].
    by intros [? _]%filter_fst_in.
Qed.

Lemma trim_left_spec l :
  ∃ r, l = replicate (trim_left l) None ++ r ∧ sum_list_with is_full r = sum_list_with is_full l.
Proof.
  induction l as [|[ch|] l (r & Hl & Hs)]; cbn; [by exists []|by exists (Some ch :: l)|].
  exists r. split; [by f_equal|done].
Qed.

Lemma full_pos_nonempty (r : list (option nn_trie_node)) :
  (0 < sum_list_with is_full r)%nat → (0 < length r)%nat.
Proof. destruct r; cbn; lia. Qed.

(** Trimming a dense array on either side keeps the children. *)
Lemma trim_left_ok mn mx l :
  length l = Z.to_nat (mx - mn + 1) → (0 < sum_list_with is_full l)%nat →
  Z.of_nat (trim_left l) + mn ≤ mx ∧
  length (drop (trim_left l) l) = Z.to_nat (mx - (Z.of_nat (trim_left l) + mn) + 1) ∧
  sum_list_with is_full (drop (trim_left l) l) = sum_list_with is_full l ∧
  ∀ d, mjoin (if decide (d < Z.of_nat (trim_left l) + mn ∨ mx < d) then None
              else drop (trim_left l) l !! Z.to_nat (d - (Z.of_nat (trim_left l) + mn))) =
       mjoin (if decide (d < mn ∨ mx < d) then None else l !! Z.to_nat (d - mn)).
Proof.
  intros Hl Hpos. destruct (trim_left_spec l) as (r & Hr & Hs). set (k := trim_left l) in *.
  pose proof (full_pos_nonempty r) as Hr0. clearbody k. subst l.
  rewrite length_app, length_replicate in Hl. rewrite drop_app_length' by by rewrite length_replicate.
  split_and!; [lia|lia|done|]. intros d. destruct (decide (d < mn ∨ mx < d)).
  - by rewrite decide_True by lia.
  - destruct (decide (d < Z.of_nat k + mn ∨ mx < d)).
    + by rewrite lookup_app_l, lookup_replicate_2 by (rewrite ?length_replicate; lia).
    + rewrite lookup_app_r, length_replicate by (rewrite length_replicate; lia). f_equal. f_equal. lia.
Qed.

Lemma full_reverse (l : list (option nn_trie_node)) :
  sum_list_with is_full (reverse l) = sum_list_with is_full l.
Proof.
  induction l as [|x l IH]; [done|]. rewrite reverse_cons, is_full_app, IH. cbn [sum_list_with]. lia.
Qed.

Lemma trim_right_ok mn mx l :
  let i := Nat.max 1 (length l - trim_left (reverse l)) in
  length l = Z.to_nat (mx - mn + 1) → (0 < sum_list_with is_full l)%nat →
  (1 ≤ i ≤ length l)%nat ∧
  sum_list_with is_full (take i l) = sum_list_with is_full l ∧
  ∀ d, mjoin (if decide (d < mn ∨ Z.of_nat i - 1 + mn < d) then None else take i l !! Z.to_nat (d - mn)) =
       mjoin (if decide (d < mn ∨ mx < d) then None else l !! Z.to_nat (d - mn)).
Proof.
  intros i Hl Hpos. destruct (trim_left_spec (reverse l)) as (r & Hr & Hs).
  rewrite full_reverse in Hs. unfold i in *. clear i. set (k := trim_left (reverse l)) in *. clearbody k.
  apply (f_equal reverse) in Hr. rewrite reverse_involutive, reverse_app, reverse_replicate in Hr.
  rewrite <- full_reverse in Hs. set (r' := reverse r) in *. clearbody r'. subst l.
  pose proof (full_pos_nonempty r') as Hr0. rewrite length_app, length_replicate in *.
  replace (Nat.max 1 (length r' + k - k)) with (length r') by lia. rewrite take_app_length.
  split_and!; [lia|lia|done|]. intros d. destruct (decide (d < mn ∨ mx < d)).
  - by rewrite decide_True by lia.
  - destruct (decide (d < mn ∨ Z.of_nat (length r') - 1 + mn < d)).
    + by rewrite lookup_app_r, lookup_replicate_2 by lia.
    + by rewrite lookup_app_l by lia.
Qed.

Lemma dense_children_next mx l : ∀ mn d,
  length l = Z.to_nat (mx - mn + 1) →
  sparse_next (dense_children mn l) d =
    mjoin (if decide (d < mn ∨ mx < d) then None else l !! Z.to_nat (d - mn)).
Proof.
  induction l as [|o l IH]; intros mn d Hl; cbn [dense_children].
  - cbn [sparse_next]. by case_decide.
  - cbn [length] in Hl. assert (length l = Z.to_nat (mx - (mn + 1) + 1)) as Hl' by lia.
    assert (sparse_next (dense_children (mn + 1) l) d = if decide (d = mn) then None
      else mjoin (if decide (d < mn ∨ mx < d) then None else (o :: l) !! Z.to_nat (d - mn))) as Hrec.
    { rewrite IH by done. destruct (decide (d = mn)) as [->|Hd]; [by rewrite decide_True by lia|].
      destruct (decide (d < mn ∨ mx < d)); [by rewrite decide_True by lia|].
      rewrite decide_False by lia. replace (Z.to_nat (d - mn)) with (S (Z.to_nat (d - (mn + 1)))) by lia.
      done. }
    destruct o as [ch|]; cbn [sparse_next]; rewrite Hrec;
      destruct (decide (d = mn)) as [->|Hd].
    + rewrite decide_True, decide_False by lia. by rewrite Z.sub_diag.
    + by rewrite decide_False by lia.
    + rewrite decide_False by lia. by rewrite Z.sub_diag.
    + done.
Qed.

Lemma dense_children_fst l : ∀ mn,
  NoDup (dense_children mn l).*1 ∧
  ∀ k, k ∈ (dense_children mn l).*1 → mn ≤ k < mn + Z.of_nat (length l).
Proof.
  induction l as [|o l IH]; intros mn; cbn [dense_children].
  - split; [constructor|by intros k ?%not_elem_of_nil].
  - destruct (IH (mn + 1)) as [Hnd Hr]. cbn [length].
    assert (∀ k, k ∈ (dense_children (mn + 1) l).*1 → mn < k < mn + Z.of_nat (S (length l))) as Hr'.
    { intros k Hk. specialize (Hr k Hk). lia. }
    destruct o as [ch|]; cbn [fmap list_fmap fst].
    + split; [constructor; [|done]|].
      * intros Hin. specialize (Hr' _ Hin). lia.
      * intros k [->|Hk]%elem_of_cons; [lia|]. specialize (Hr' _ Hk). lia.
    + split; [done|]. intros k Hk. specialize (Hr' _ Hk). lia.
Qed.

Lemma next_sparse r p l d :
  mjoin (nn_node_next (Node r p (Sparse l)) d) = sparse_next l d.
Proof. unfold nn_node_next. cbn. by destruct (sparse_next l d). Qed.

(** A node after the removal of child [c]; [None] is the whole node gone. *)
Definition removed (n : nn_trie_node) (c : Z) (t : list Z) (o' : option nn_trie_node) : Prop :=
  wf_opt o' ∧ (o' = None → only_sub (Some n) (prefix n ++ c :: t)) ∧
  ∀ q, count o' q =
    if decide (q = prefix n ++ c :: t) then 0
    else if decide (q = prefix n) then (if dense_low n then 0 else count (Some n) q)
    else count (Some n) q.

(** The node stays, possibly merged with its last child. *)
Lemma removed_stays n n' c ch t :
  wf n → node_ok n' → prefix n' = prefix n → nn_node_next n c = Some (Some ch) →
  only_sub (Some ch) t →
  (∀ d, mjoin (nn_node_next n' d) = if decide (d = c) then None else mjoin (nn_node_next n d)) →
  refcount n' = (if dense_low n then 0 else refcount n) →
  wf n' ∧ removed n c t (Some n').
Proof.
  intros Hw Hn' Hp Hch Hone Hnext Hr.
  destruct (removal_ok n n' c ch t Hw Hn' Hp Hch Hone Hnext) as [Hw' Hq].
  split; [exact Hw'|]. split; [exact Hw'|]. split; [done|]. intros q. rewrite Hq.
  case_decide; [done|]. case_decide as Hqp; [|done]. rewrite Hr. subst q. by rewrite count_here.
Qed.

Lemma removed_compact n c t n' : wf n' → removed n c t (Some n') → removed n c t (Some (nn_node_compact n')).
Proof.
  intros Hw (_ & _ & Hq). destruct (nn_node_compact_ok n' Hw) as [Hwc Hc].
  split; [exact Hwc|]. split; [done|]. intros q. rewrite Hc. apply Hq.
Qed.

Lemma remove_sparse n l c ch t :
  wf n → kids n = Sparse l → nn_node_next n c = Some (Some ch) → only_sub (Some ch) t →
  ∃ o', remove_child n c = Ret (o', 1) ∧ removed n c t o'.
Proof.
  intros Hw Hk Hn Hone. destruct n as [r p k]. cbn [kids] in Hk. subst k.
  pose proof (wf_ok _ Hw) as [Hr Hl Hb (Hnd & Hbl & Hlen & _)]. cbn [refcount prefix] in *.
  assert (sparse_next l c = Some ch) as Hs by (rewrite <- (next_sparse r p), Hn; done).
  unfold remove_child. cbn [kids]. rewrite bool_decide_eq_true_2 by (apply sparse_next_in; by rewrite Hs).
  step. set (l' := filter _ l). assert (∀ d, sparse_next l' d = if decide (d = c) then None else sparse_next l d)
    as Hl' by (intros d; apply sparse_next_filter).
  assert (l' ≠ [] ∨ r ≠ 0 → wf (Node r p (Sparse l')) ∧ removed (Node r p (Sparse l)) c t (Some (Node r p (Sparse l'))))
    as Hstay.
  { intros Hne. eapply removed_stays; [exact Hw| |done|exact Hn|exact Hone| |done].
    - split; cbn [refcount prefix kids]; [done|done|done|]. split_and!.
      + by apply filter_fst_nodup.
      + apply Forall_forall. intros k [Hk _]%filter_fst_in. unfold bytes in Hbl. rewrite Forall_forall in Hbl. by apply Hbl.
      + unfold l'. pose proof (length_filter (λ x : Z * nn_trie_node, x.1 ≠ c) l). lia.
      + intros ->. by destruct Hne.
    - intros d. by rewrite !next_sparse, Hl'. }
  destruct l' as [|x l2] eqn:El.
  - unfold set_kids. cbn [refcount prefix kids]. unfold nn_node_has_subscribers. cbn [refcount].
    rewrite negb_involutive. destruct (Z.eqb_spec r 0) as [->|Hr0].
    + eexists. split; [reflexivity|].
      assert (only_sub (Some (Node 0 p (Sparse l))) (p ++ c :: t)) as Hos.
      { intros q. destruct (path_cases p q) as [->|[(d & q' & ->)|Hout]].
        - rewrite count_node_here, decide_False; [done|]. intros He. symmetry in He. by apply not_middle in He.
        - rewrite count_node_step, next_sparse. destruct (decide (d = c)) as [->|Hd].
          + rewrite Hs, Hone. apply decide_ext. split; [by intros ->|by intros [= He]%app_inv_head].
          + specialize (Hl' d). rewrite decide_False in Hl' by done. cbn in Hl'. rewrite <- Hl'.
            rewrite decide_False; [done|]. intros He%app_inv_head. congruence.
        - rewrite count_out by done. rewrite decide_False; [done|]. intros ->. by eapply Hout. }
      split; [done|]. split; [done|]. intros q. cbn [prefix]. case_decide as Hq; [done|].
      specialize (Hos q). rewrite decide_False in Hos by done. rewrite Hos. cbn. by case_decide.
    + eexists. split; [reflexivity|]. apply removed_compact; apply Hstay; by right.
  - eexists. split; [reflexivity|]. unfold set_kids. cbn [refcount prefix].
    apply removed_compact; apply Hstay; by left.
Qed.

Lemma remove_dense n mn mx nbr l c ch t :
  wf n → kids n = Dense mn mx nbr l → nn_node_next n c = Some (Some ch) → only_sub (Some ch) t →
  ∃ o', remove_child n c = Ret (o', 1) ∧ removed n c t o'.
Proof.
  intros Hw Hk Hn Hone. destruct n as [r p k]. cbn [kids] in Hk. subst k.
  pose proof (wf_ok _ Hw) as [Hr Hl Hb (Hmn & Hmx & Hlen & Hnbr & Hgt)]. cbn [refcount prefix] in *.
  pose proof Hn as Hn'. rewrite next_dense in Hn'. case_decide as Hrange; [done|].
  unfold remove_child. cbn [kids]. set (l1 := <[_ := None]> l).
  assert (length l1 = Z.to_nat (mx - mn + 1)) as Hlen1 by (unfold l1; by rewrite length_insert).
  assert (sum_list_with is_full l1 + 1 = sum_list_with is_full l)%nat as Hsum.
  { pose proof (full_insert l _ _ None Hn') as Hf. cbn [is_full] in Hf. fold l1 in Hf. lia. }
  assert (sum_list_with is_full l ≤ length l)%nat as Hle.
  { clear. induction l as [|o l IH]; [done|]. destruct o; cbn [sum_list_with is_full length]; lia. }
  assert (∀ d, mjoin (if decide (d < mn ∨ mx < d) then None else l1 !! Z.to_nat (d - mn)) =
    if decide (d = c) then None
    else mjoin (if decide (d < mn ∨ mx < d) then None else l !! Z.to_nat (d - mn))) as Hl1.
  { intros d. destruct (decide (d = c)) as [->|Hd].
    - rewrite decide_False by done. unfold l1. by rewrite list_lookup_insert_eq by (by eapply lookup_lt_Some).
    - case_decide; [done|]. unfold l1. by rewrite list_lookup_insert_ne by lia. }
  unfold NN_TRIE_SPARSE_MAX in *. assert (∀ n' : nn_trie_node, node_ok n' → prefix n' = p →
    (∀ d, mjoin (nn_node_next n' d) = mjoin (if decide (d < mn ∨ mx < d) then None else l1 !! Z.to_nat (d - mn))) →
    refcount n' = (if bool_decide (nbr = Z.of_nat NN_TRIE_SPARSE_MAX + 1) then 0 else r) →
    removed (Node r p (Dense mn mx nbr l)) c t (Some n')) as Hdone.
  { intros n' Hn2 Hp Hnx Href. eapply removed_stays; [exact Hw|exact Hn2|exact Hp|exact Hn|exact Hone| |exact Href].
    intros d. rewrite Hnx, Hl1, next_dense. done. }
  assert (u16 (nbr - 1) = nbr - 1) as Hu by (unfold u16; apply Z.mod_small; lia).
  destruct (decide (Z.of_nat 8 + 1 < nbr)) as [Hmany|Hmany].
  - rewrite bool_decide_eq_false_2 in Hdone by (unfold NN_TRIE_SPARSE_MAX; lia).
    destruct (decide (c = mn)) as [Hleft|Hleft]; [|destruct (decide (c = mx)) as [Hright|Hright]].
    + destruct (trim_left_ok mn mx l1 Hlen1) as (Hi & Hlen2 & Hf2 & Hd2); [lia|].
      eexists. split; [reflexivity|]. unfold set_kids, u8. cbn [refcount prefix]. rewrite Hu.
      rewrite Z.mod_small by lia. apply Hdone; [|done| |done].
      * apply dense_ok; unfold NN_TRIE_SPARSE_MAX; try done; lia.
      * intros d. rewrite next_dense. apply Hd2.
    + destruct (trim_right_ok mn mx l1 Hlen1) as (Hi & Hf2 & Hd2); [lia|].
      set (i := Nat.max 1 _) in *. clearbody i.
      eexists. split; [reflexivity|]. unfold set_kids. cbn [refcount prefix]. rewrite Hu.
      apply Hdone; [|done| |done].
      * apply dense_ok; unfold NN_TRIE_SPARSE_MAX; try done; rewrite ?length_take; lia.
      * intros d. rewrite next_dense. apply Hd2.
    + eexists. split; [reflexivity|]. unfold set_kids. cbn [refcount prefix]. rewrite Hu.
      apply Hdone; [|done| |done].
      * apply dense_ok; unfold NN_TRIE_SPARSE_MAX; try done; lia.
      * intros d. by rewrite next_dense.
  - rewrite bool_decide_eq_true_2 in Hdone by (unfold NN_TRIE_SPARSE_MAX; lia).
    pose proof (length_dense_children mn l1) as Hdc.
    rewrite bool_decide_eq_true_2 by lia. step. eexists. split; [reflexivity|].
    destruct (dense_children_fst l1 mn) as [Hnd Hfst].
    apply Hdone; cbn [refcount prefix]; [|done| |done].
    + split; cbn [refcount prefix kids]; [lia|done|done|]. split_and!.
      * done.
      * apply Forall_forall. intros k Hk. specialize (Hfst k Hk). unfold is_byte. lia.
      * unfold NN_TRIE_SPARSE_MAX. lia.
      * intros He. rewrite He in Hdc. cbn in Hdc. lia.
    + intros d. rewrite next_sparse. by apply dense_children_next.
Qed.

Lemma remove_child_ok n c ch t :
  wf n → nn_node_next n c = Some (Some ch) → only_sub (Some ch) t →
  ∃ o', remove_child n c = Ret (o', 1) ∧ removed n c t o'.
Proof.
  intros. destruct (kids n) eqn:Hk; [by eapply remove_sparse|by eapply remove_dense].
Qed.

(** The end of the path. *)
Lemma drop_ref_ok n :
  wf n → 0 < refcount n →
  ∃ o', drop_ref (Some n) = (o', if refcount n =? 1 then 1 else 0) ∧ wf_opt o' ∧
    (o' = None → only_sub (Some n) (prefix n)) ∧
    ∀ q, count o' q = count (Some n) q - if decide (q = prefix n) then 1 else 0.
Proof.
  intros Hw Hpos. pose proof (wf_ok _ Hw) as [Hr Hl Hb Hk]. unfold drop_ref, nn_node_has_subscribers.
  rewrite negb_involutive, (proj2 (Z.eqb_neq _ 0)) by lia. cbn [refcount].
  set (n' := Node (refcount n - 1) (prefix n) (kids n)).
  assert (∀ q, count (Some n') q = count (Some n) q - if decide (q = prefix n) then 1 else 0) as Hq.
  { intros q. case_decide as He.
    - subst q. unfold n'. by rewrite count_node_here, count_here.
    - rewrite Z.sub_0_r. apply count_ext; [done..|]. intros c q' ->. by rewrite (next_kids n' n). }
  assert (kids n ≠ Sparse [] ∨ refcount n ≠ 1 → wf n') as Hw'.
  { intros Hor. apply (wf_same_kids n); [exact Hw|done|]. split; cbn [refcount prefix kids n']; [lia|done|done|].
    destruct (kids n) as [l|]; [|exact Hk]. destruct Hk as (? & ? & ? & Hk). split_and!; [done..|].
    intros ->. destruct Hor as [[]|]; [done|lia]. }
  destruct (Z.eqb_spec (refcount n - 1) 0) as [H1|H1]; cbn [negb].
  - rewrite (proj2 (Z.eqb_eq (refcount n) 1)) by lia.
    assert (kids n ≠ Sparse [] → ∃ o', (Some (nn_node_compact n'), 1) = (o', 1) ∧ wf_opt o' ∧
      (o' = None → only_sub (Some n) (prefix n)) ∧
      ∀ q, count o' q = count (Some n) q - if decide (q = prefix n) then 1 else 0) as Hkeep.
    { intros Hne. destruct (nn_node_compact_ok n' (Hw' (or_introl Hne))) as [Hwc Hcc].
      eexists. split; [reflexivity|]. split; [exact Hwc|]. split; [done|]. intros q. by rewrite Hcc. }
    destruct (kids n) as [[|x l]|] eqn:Ek; [|by apply Hkeep..].
    eexists. split; [reflexivity|].
    assert (only_sub (Some n) (prefix n)) as Hone.
    { intros q. destruct (path_cases (prefix n) q) as [->|[(c & q' & ->)|Hout]].
      - rewrite count_here, decide_True by done. lia.
      - rewrite count_step, decide_False by apply not_middle. unfold nn_node_next. by rewrite Ek.
      - rewrite count_out, decide_False; [done| |done]. intros ->. apply (Hout []). by rewrite app_nil_r. }
    split; [done|]. split; [done|]. intros q. rewrite Hone. cbn. by case_decide.
  - rewrite (proj2 (Z.eqb_neq (refcount n) 1)) by lia. eexists. split; [reflexivity|].
    split; [apply Hw'; right; lia|]. split; [done|exact Hq].
Qed.

(** Removing [data] makes the dense array of the node of [q] a sparse one. *)
Definition reverts (o : option nn_trie_node) (data q : list Z) : Prop :=
  ∃ m c t, node_at_opt o q = Some m ∧ data = q ++ c :: t ∧ dense_low m = true ∧
    only_sub (mjoin (nn_node_next m c)) t.

Definition unsubscribed (o : option nn_trie_node) (data q : list Z) (k : Z) : Prop :=
  (q = data → k = count o data - 1) ∧
  (q ≠ data → (reverts o data q ∧ k = 0) ∨ (¬ reverts o data q ∧ k = count o q)).

Lemma wf_has_sub n : wf n → ∃ q, 0 < count (Some n) q.
Proof.
  induction 1 as [n Hn Hch IH]. destruct (decide (0 < refcount n)) as [Hr|Hr].
  { exists (prefix n). by rewrite count_here. }
  pose proof (no_kids _ Hn) as Hk. pose proof (no_ref _ Hn).
  assert (∃ c ch, nn_node_next n c = Some (Some ch)) as (c & ch & Hc).
  { unfold nn_node_next. destruct (kids n) as [l|mn mx nbr l].
    - destruct l as [|[c ch] l]; [destruct Hk as (_ & _ & _ & Hk); specialize (Hk eq_refl); lia|].
      exists c, ch. cbn. by rewrite decide_True.
    - destruct Hk as (Hmn & Hmx & Hlen & Hnbr & Hgt).
      assert (∃ i ch, l !! i = Some (Some ch)) as (i & ch & Hi).
      { assert (0 < sum_list_with is_full l)%nat as Hpos by lia. clear -Hpos.
        induction l as [|[ch|] l IH]; [cbn in Hpos; lia|by exists 0%nat, ch|].
        destruct IH as (i & ch & ?); [exact Hpos|]. by exists (S i), ch. }
      pose proof (lookup_lt_Some _ _ _ Hi). exists (mn + Z.of_nat i), ch.
      rewrite decide_False by lia. by replace (Z.to_nat _) with i by lia. }
  destruct (IH c ch Hc) as [q Hq]. exists (prefix n ++ c :: q). by rewrite count_step, Hc.
Qed.

Lemma reverts_here n c t ch :
  nn_node_next n c = Some (Some ch) →
  reverts (Some n) (prefix n ++ c :: t) (prefix n) ↔ dense_low n = true ∧ only_sub (Some ch) t.
Proof.
  intros Hn. unfold reverts. cbn. rewrite node_at_here. split.
  - intros (m & d & t' & [= <-] & [= <- <-]%app_inv_head & Hd & Ho). by rewrite Hn in Ho.
  - intros [Hd Ho]. exists n, c, t. by rewrite Hn.
Qed.

Lemma reverts_step n c t q :
  reverts (Some n) (prefix n ++ c :: t) (prefix n ++ c :: q) ↔ reverts (mjoin (nn_node_next n c)) t q.
Proof.
  unfold reverts. cbn. rewrite node_at_step. split.
  - intros (m & d & t' & ? & He & ?). rewrite <- app_assoc in He. apply app_inv_head in He as [= ->].
    by exists m, d, t'.
  - intros (m & d & t' & ? & -> & ?). exists m, d, t'. by rewrite <- app_assoc.
Qed.

Lemma reverts_other n c t q :
  (∀ q', q ≠ prefix n ++ c :: q') → q ≠ prefix n → ¬ reverts (Some n) (prefix n ++ c :: t) q.
Proof.
  intros H1 H2 (m & d & t' & [u ->]%node_at_inv & He & _). rewrite <- app_assoc in He.
  apply app_inv_head in He. destruct u as [|e u]; [by rewrite app_nil_r in H2|].
  injection He as <- _. by eapply H1.
Qed.

Lemma reverts_nil n q : ¬ reverts (Some n) (prefix n) q.
Proof.
  intros (m & d & t' & [u ->]%node_at_inv & He & _). rewrite <- app_assoc in He.
  symmetry in He. destruct u as [|e u]; by apply not_middle in He.
Qed.

Lemma unsubscribe_here fuel n :
  nn_node_unsubscribe (S fuel) (Some n) (prefix n) = Ret (drop_ref (Some n)).
Proof.
  cbn [nn_node_unsubscribe]. destruct (prefix n) as [|c p] eqn:Hp; [done|]. rewrite <- Hp. step.
  pose proof (check_prefix_app (prefix n) []) as Hk. rewrite app_nil_r in Hk.
  unfold nn_node_check_prefix. rewrite Hk, decide_False by (unfold prefix_len; lia).
  by rewrite drop_ge.
Qed.

Lemma unsubscribe_step fuel n c t ch :
  nn_node_next n c = Some (Some ch) →
  nn_node_unsubscribe (S fuel) (Some n) (prefix n ++ c :: t) =
    ('(ch', rc) ← nn_node_unsubscribe fuel (Some ch) t;
     match ch' with
     | Some ch' => Ret (Some (set_child n c ch'), if rc =? 0 then 0 else 1)
     | None => if rc =? 0 then Ret (Some n, 0) else remove_child n c
     end).
Proof.
  intros Hn. cbn [nn_node_unsubscribe].
  assert (∀ {A} (a b : A), match prefix n ++ c :: t with [] => a | _ => b end = b) as Hm
    by (intros; by destruct (prefix n)).
  rewrite Hm. step. unfold nn_node_check_prefix. rewrite check_prefix_app.
  rewrite decide_False by (unfold prefix_len; lia). by rewrite drop_app_length, Hn.
Qed.

Lemma unsubscribe_ok fuel o data :
  (length data < fuel)%nat → wf_opt o → 0 < count o data →
  ∃ o' rc, nn_node_unsubscribe fuel o data = Ret (o', rc) ∧ wf_opt o' ∧
    rc = (if count o data =? 1 then 1 else 0) ∧ (o' = None → only_sub o data) ∧
    ∀ q, unsubscribed o data q (count o' q).
Proof.
  revert o data. induction fuel as [|fuel IH]; intros o data Hf Hw Hpos; [lia|].
  destruct o as [n|]; [|by cbn in Hpos]. cbn [wf_opt] in Hw.
  destruct (path_cases (prefix n) data) as [->|[(c & t & ->)|Hout]]; cycle 2.
  { by rewrite count_out in Hpos. }
  { rewrite unsubscribe_here. rewrite count_here in *.
    destruct (drop_ref_ok n Hw Hpos) as (o' & E & Hw' & Hone & Hq).
    exists o', (if refcount n =? 1 then 1 else 0). rewrite E. split_and!; [done|exact Hw'|done|exact Hone|].
    intros q. rewrite Hq. split.
    - intros ->. by rewrite decide_True by done.
    - intros Hne. right. split; [apply reverts_nil|]. rewrite decide_False by done. lia. }
  rewrite count_step in *. destruct (nn_node_next n c) as [[ch|]|] eqn:Hn; [|by cbn in Hpos..].
  cbn [mjoin option_join] in *. rewrite length_app in Hf. cbn [length] in Hf.
  destruct (IH (Some ch) t) as (o' & rc & E & Hw' & Hrc & Hone & Hq); [lia|by eapply wf_next|done|].
  rewrite (unsubscribe_step _ _ _ _ _ Hn), E. step. destruct o' as [ch'|].
  - destruct (set_child_ok n c ch ch' Hw Hn Hw') as [Hws Hqs].
    exists (Some (set_child n c ch')), rc. split_and!; [|exact Hws|done|done|].
    { rewrite Hrc. by destruct (count (Some ch) t =? 1). }
    intros q. rewrite Hqs. unfold unsubscribed. rewrite count_step, Hn.
    unfold prefix_len. destruct (path_cases (prefix n) q) as [->|[(d & q' & ->)|Hout]].
    + rewrite drop_ge by done. split; [intros He; symmetry in He; by apply not_middle in He|]. intros _. right.
      split; [|done]. rewrite (reverts_here _ _ _ _ Hn). intros [_ Ho].
      destruct (wf_has_sub ch' Hw') as [x Hx]. specialize (Hq x) as [Hq1 Hq2]. specialize (Ho x).
      destruct (decide (x = t)) as [->|Hxt]; [specialize (Hq1 eq_refl); lia|].
      destruct (Hq2 Hxt) as [[_ ?]|[_ ?]]; lia.
    + rewrite drop_app_length. destruct (decide (d = c)) as [->|Hdc].
      * rewrite decide_True by done. rewrite reverts_step, count_step, Hn. cbn [mjoin option_join].
        destruct (Hq q') as [Hq1 Hq2]. split; [by intros [= He]%app_inv_head; apply Hq1|].
        intros Hne. apply Hq2. congruence.
      * rewrite decide_False by (intros He%app_inv_head; congruence).
        split; [intros He%app_inv_head; congruence|]. intros _. right. split; [|done].
        apply reverts_other; [|apply not_middle]. intros q2 He%app_inv_head. congruence.
    + assert (∀ q', q ≠ prefix n ++ c :: q') as Hoc by (intros q' ->; by eapply Hout).
      assert ((match drop (length (prefix n)) q with
        | [] => count (Some n) q
        | d :: q' => if decide (q = prefix n ++ c :: q') then count (Some ch') q' else count (Some n) q
        end) = count (Some n) q) as ->.
      { destruct (drop _ q) as [|d q']; [done|]. by rewrite decide_False by apply Hoc. }
      split; [intros ->; by destruct (Hoc t)|]. intros _. right. split; [|done].
      apply reverts_other; [exact Hoc|]. intros ->. apply (Hout []). by rewrite app_nil_r.
  - specialize (Hone eq_refl). assert (count (Some ch) t = 1) as Hc1 by (rewrite Hone; by rewrite decide_True).
    rewrite Hc1 in *. cbn in Hrc. subst rc. cbn [Z.eqb].
    destruct (remove_child_ok n c ch t Hw Hn Hone) as (o' & -> & Hw2 & Hone2 & Hq2).
    exists o', 1. split_and!; [done|exact Hw2|done|exact Hone2|]. intros q. rewrite Hq2.
    unfold unsubscribed. rewrite count_step, Hn. cbn [mjoin option_join]. rewrite Hc1.
    split; [intros ->; by rewrite decide_True|]. intros Hne. rewrite decide_False by done.
    case_decide as Hqp.
    + subst q. rewrite (reverts_here _ _ _ _ Hn). destruct (dense_low n); [by left|right; by split; [intros []|]].
    + destruct (path_cases (prefix n) q) as [->|[(d & q' & ->)|Hout]]; [done| |].
      * destruct (decide (d = c)) as [->|Hd].
        -- rewrite reverts_step, count_step, Hn. cbn [mjoin option_join].
           assert (q' ≠ t) as Hqt by congruence. destruct (Hq q') as [_ Hq3].
           assert (count (Some ch) q' = 0) as -> by (rewrite Hone; by rewrite decide_False).
           destruct (Hq3 Hqt) as [[? _]|[? _]]; [by left|by right].
        -- right. split; [|done]. apply reverts_other; [|done]. intros q2 He%app_inv_head. congruence.
      * right. split; [|done]. apply reverts_other; [|done]. intros q' ->. by eapply Hout.
Qed.

(** *** Matching *)

Lemma check_prefix_mem_ok p msg rest :
  check_prefix_mem p (msg ++ rest) (Z.of_nat (length msg)) = Ret (check_prefix p msg).
Proof.
  revert msg. induction p as [|c p IH]; intros msg; [done|]. cbn [check_prefix_mem].
  destruct msg as [|d msg]; [done|]. rewrite (proj2 (Z.eqb_neq _ 0)) by (cbn [length]; lia).
  cbn [app head hd_error tail check_prefix deref]. step. case_decide; [|done].
  replace (Z.of_nat (length (d :: msg)) - 1) with (Z.of_nat (length msg)) by (cbn [length]; lia).
  by rewrite IH.
Qed.

Lemma match_node_ok fuel o msg rest :
  (length msg < fuel)%nat → wf_opt o → Z.of_nat (length msg) < 2 ^ 64 →
  ((∃ p, p `prefix_of` msg ∧ 0 < count o p) →
     match_node fuel o (msg ++ rest) (Z.of_nat (length msg)) = Ret 1) ∧
  ((∀ p, p `prefix_of` msg → count o p = 0) →
   (∀ s, msg `prefix_of` s → s ≠ msg → count o s = 0) →
     match_node fuel o (msg ++ rest) (Z.of_nat (length msg)) = Ret 0).
Proof.
  revert o msg. induction fuel as [|fuel IH]; intros o msg Hf Hw Hlen; [lia|].
  destruct o as [n|]; [|by split; [intros (p & _ & Hp); cbn in Hp|]]. cbn [wf_opt] in Hw.
  cbn [match_node]. rewrite check_prefix_mem_ok. step.
  destruct (decide (check_prefix (prefix n) msg ≠ prefix_len n)) as [Hne|He].
  { split; [|done]. intros (p & [t ->] & Hp).
    destruct (path_cases (prefix n) p) as [->|[(c & q & ->)|Hout]].
    - by rewrite check_prefix_app in Hne.
    - by rewrite <- app_assoc, check_prefix_app in Hne.
    - by rewrite count_out in Hp. }
  destruct (check_prefix_full (prefix n) msg) as [Hmsg _]; [unfold prefix_len in He; lia|].
  set (t := drop _ msg) in Hmsg. clearbody t. subst msg. clear He.
  unfold prefix_len. rewrite <- app_assoc, drop_app_length. rewrite length_app in *.
  replace (Z.of_nat (length (prefix n) + length t) - Z.of_nat (length (prefix n)))
    with (Z.of_nat (length t)) by lia.
  assert (u64 (Z.of_nat (length t)) = Z.of_nat (length t)) as -> by (unfold u64; apply Z.mod_small; lia).
  pose proof (no_ref _ (wf_ok _ Hw)) as Hr.
  destruct (nn_node_has_subscribers n) eqn:Hs.
  { split; [done|]. intros Hno. specialize (Hno (prefix n) ltac:(by eexists)). rewrite count_here in Hno.
    apply has_subscribers_false in Hno. congruence. }
  apply has_subscribers_false in Hs. destruct t as [|c t].
  - rewrite app_nil_r. split.
    + intros (p & [u Hu] & Hp). destruct (path_cases (prefix n) p) as [->|[(d & q & ->)|Hout]].
      * rewrite count_here in Hp. lia.
      * exfalso. rewrite <- app_assoc in Hu. symmetry in Hu. by apply not_middle in Hu.
      * by rewrite count_out in Hp.
    + intros _ Hno. destruct (wf_has_sub n Hw) as [q Hq].
      destruct (path_cases (prefix n) q) as [->|[(d & q' & ->)|Hout]].
      * rewrite count_here in Hq. lia.
      * rewrite Hno in Hq; [lia|by eexists|apply not_middle].
      * by rewrite count_out in Hq.
  - cbn [app head hd_error tail deref length] in *. step.
    replace (u64 (Z.of_nat (S (length t)) - 1)) with (Z.of_nat (length t)) by (unfold u64; rewrite Z.mod_small; lia).
    assert (wf_opt (mjoin (nn_node_next n c))) as Hwn.
    { destruct (nn_node_next n c) as [[ch|]|] eqn:E; [by eapply wf_next|done..]. }
    destruct (IH (mjoin (nn_node_next n c)) t) as [H1 H0]; [lia|exact Hwn|lia|]. split.
    + intros (p & [u Hu] & Hp). apply H1. destruct (path_cases (prefix n) p) as [->|[(d & q & ->)|Hout]].
      * rewrite count_here in Hp. lia.
      * rewrite <- app_assoc in Hu. apply app_inv_head in Hu as [= -> Hu2]. exists q.
        split; [by exists u|]. by rewrite count_step in Hp.
      * by rewrite count_out in Hp.
    + intros Hno Hext. apply H0.
      * intros p [u ->]. rewrite <- count_step. apply Hno. exists u. by rewrite <- app_assoc.
      * intros s [u ->] Hne. rewrite <- count_step. apply Hext.
        -- exists u. by rewrite <- app_assoc.
        -- intros Hc%app_inv_head. congruence.
Qed.

(** ** Properties *)

(** A trie reached by subscribing byte strings and by unsubscribing strings
    that are subscribed. *)
Inductive trie_reach : nn_trie → Prop :=
| reach_init : trie_reach nn_trie_init
| reach_sub t data t' rc :
    trie_reach t → bytes data → count (root t) data + 1 < 2 ^ 32 →
    nn_trie_subscribe t data = Ret (t', rc) → trie_reach t'
| reach_unsub t data t' rc :
    trie_reach t → 0 < count (root t) data →
    nn_trie_unsubscribe t data = Ret (t', rc) → trie_reach t'.

Lemma nn_trie_subscribe_ok t data :
  wf_opt (root t) → bytes data → count (root t) data + 1 < 2 ^ 32 →
  ∃ t' rc, nn_trie_subscribe t data = Ret (t', rc) ∧ wf_opt (root t') ∧
    rc = (if count (root t) data =? 0 then 1 else 0) ∧
    ∀ q, count (root t') q = subscribed (root t) data q.
Proof.
  intros Hw Hb Hlt. destruct (subscribe_ok (S (length data)) (root t) data) as (n & rc & E & Hn & Hr);
    [lia|exact Hw|done|done|]. exists (Trie (Some n)), rc. unfold nn_trie_subscribe. rewrite E. by split.
Qed.

Lemma nn_trie_unsubscribe_ok t data :
  wf_opt (root t) → 0 < count (root t) data →
  ∃ t' rc, nn_trie_unsubscribe t data = Ret (t', rc) ∧ wf_opt (root t') ∧
    rc = (if count (root t) data =? 1 then 1 else 0) ∧
    ∀ q, unsubscribed (root t) data q (count (root t') q).
Proof.
  intros Hw Hpos. destruct (unsubscribe_ok (S (length data)) (root t) data)
    as (o & rc & E & Hn & Hr & _ & Hq); [lia|exact Hw|done|].
  exists (Trie o), rc. unfold nn_trie_unsubscribe. rewrite E. by split_and!.
Qed.

Lemma trie_reach_wf t : trie_reach t → wf_opt (root t).
Proof.
  induction 1 as [|t data t' rc _ IH Hb Hlt E|t data t' rc _ IH Hpos E]; [exact I|..].
  - destruct (nn_trie_subscribe_ok t data IH Hb Hlt) as (t2 & rc2 & E2 & Hw & _).
    rewrite E in E2. by injection E2 as -> _.
  - destruct (nn_trie_unsubscribe_ok t data IH Hpos) as (t2 & rc2 & E2 & Hw & _).
    rewrite E in E2. by injection E2 as -> _.
Qed.

(** C25: subscribing is exact, with one exception.  On every reachable trie
    [nn_trie_subscribe] returns, with 1 if the string was not subscribed before
    and 0 otherwise; afterwards the string has one subscription more and every
    other string as many as before, whatever nodes are split, extended or
    merged on the way.  The exception is [converts]: when the new branch leaves
    a node with a full sparse array, this node becomes a dense one and its own
    subscriptions are lost. *)
Theorem trie_subscribe_exact t data :
  trie_reach t → bytes data → count (root t) data + 1 < 2 ^ 32 →
  ∃ t', nn_trie_subscribe t data = Ret (t', if count (root t) data =? 0 then 1 else 0) ∧
    trie_reach t' ∧
    ∀ q, count (root t') q =
      if decide (q = data) then count (root t) data + 1
      else if converts (root t) data q then 0 else count (root t) q.
Proof.
  intros Hr Hb Hlt. destruct (nn_trie_subscribe_ok t data (trie_reach_wf _ Hr) Hb Hlt)
    as (t' & rc & E & _ & -> & Hq). exists t'. split; [done|]. split; [by eapply reach_sub|exact Hq].
Qed.

(** C26: unsubscribing a subscribed string is exact, with one exception.  It
    returns 1 if the last subscription to the string went away and 0 otherwise;
    the string has one subscription less and every other string as many as
    before, whatever nodes are removed, merged, trimmed or turned back into
    sparse ones.  The exception is [reverts]: when a dense node loses its ninth
    child it becomes a sparse one and its own subscriptions are lost. *)
Theorem trie_unsubscribe_exact t data :
  trie_reach t → 0 < count (root t) data →
  ∃ t', nn_trie_unsubscribe t data = Ret (t', if count (root t) data =? 1 then 1 else 0) ∧
    trie_reach t' ∧ count (root t') data = count (root t) data - 1 ∧
    ∀ q, q ≠ data →
      (reverts (root t) data q ∧ count (root t') q = 0) ∨
      (¬ reverts (root t) data q ∧ count (root t') q = count (root t) q).
Proof.
  intros Hr Hpos. destruct (nn_trie_unsubscribe_ok t data (trie_reach_wf _ Hr) Hpos)
    as (t' & rc & E & _ & -> & Hq). exists t'. split; [done|]. split; [by eapply reach_unsub|].
  split; [by apply (Hq data)|]. intros q. apply Hq.
Qed.

(** C27: matching.  On every reachable trie, a message that starts with a
    subscribed string matches, wherever in memory it lies; a message that
    starts with none does not match, provided no subscribed string is longer
    than the message and starts with it (then the code reads past the end of
    the message, see [trie_match_overread]). *)
Theorem trie_match_exact t msg rest :
  trie_reach t → Z.of_nat (length msg) < 2 ^ 64 →
  ((∃ p, p `prefix_of` msg ∧ 0 < count (root t) p) →
     nn_trie_match t (msg ++ rest) (Z.of_nat (length msg)) = Ret 1) ∧
  ((∀ p, p `prefix_of` msg → count (root t) p = 0) →
   (∀ s, msg `prefix_of` s → s ≠ msg → count (root t) s = 0) →
     nn_trie_match t (msg ++ rest) (Z.of_nat (length msg)) = Ret 0).
Proof.
  intros Hr Hlen. apply match_node_ok; [rewrite length_app; lia|by apply trie_reach_wf|done].
Qed.

(** ** Examples *)

Fixpoint subs (t : nn_trie) (ds : list (list Z)) : outcome nn_trie :=
  match ds with
  | [] => Ret t
  | d :: ds =>
      nn_assert (bool_decide (bytes d) && (count (root t) d + 1 <? 2 ^ 32));;
      '(t, _) ← nn_trie_subscribe t d; subs t ds
  end.

Lemma subs_reach ds t t' : trie_reach t → subs t ds = Ret t' → trie_reach t'.
Proof.
  revert t. induction ds as [|d ds IH]; intros t Hr; cbn [subs]; [by intros [= <-]|].
  destruct (bool_decide (bytes d) && _) eqn:Hd; [|done]. step.
  apply andb_true_iff in Hd as [Hb%bool_decide_eq_true_1 Hlt%Z.ltb_lt].
  destruct (nn_trie_subscribe t d) as [[t1 rc]|] eqn:E; [|done]. step. apply IH. by eapply reach_sub.
Qed.

(** "abc", "abd" and nine strings of one character. *)
Definition some_subs : list (list Z) :=
  [[97; 98; 99]; [97; 98; 100]; [1]; [2]; [3]; [4]; [5]; [6]; [7]; [8]; [9]].

Lemma trie_subscribe_exact_witness :
  ∃ t t', subs nn_trie_init some_subs = Ret t ∧
    nn_trie_subscribe t [97; 98] = Ret (t', 1) ∧ count (root t') [97; 98] = 1.
Proof.
  destruct (ret_check_ok (λ t, count (root t) [97; 98] =? 0) (subs nn_trie_init some_subs))
    as (t & E & Hc); [vm_compute; reflexivity|]. apply Z.eqb_eq in Hc.
  destruct (trie_subscribe_exact t [97; 98] (subs_reach _ _ _ reach_init E)) as (t' & E' & _ & Hq).
  - apply (bool_decide_eq_true_1 _). vm_compute. reflexivity.
  - rewrite Hc. lia.
  - exists t, t'. rewrite Hc in E'. specialize (Hq [97; 98]). rewrite decide_True, Hc in Hq by reflexivity.
    exact (conj E (conj E' Hq)).
Defined.

Lemma trie_unsubscribe_exact_witness :
  ∃ t t', subs nn_trie_init some_subs = Ret t ∧
    nn_trie_unsubscribe t [97; 98; 99] = Ret (t', 1) ∧ count (root t') [97; 98; 99] = 0.
Proof.
  destruct (ret_check_ok (λ t, count (root t) [97; 98; 99] =? 1) (subs nn_trie_init some_subs))
    as (t & E & Hc); [vm_compute; reflexivity|]. apply Z.eqb_eq in Hc.
  destruct (trie_unsubscribe_exact t [97; 98; 99] (subs_reach _ _ _ reach_init E)) as (t' & E' & _ & Hq & _).
  - rewrite Hc. lia.
  - exists t, t'. rewrite Hc in E', Hq. exact (conj E (conj E' Hq)).
Defined.

Lemma trie_match_exact_witness :
  ∃ t, subs nn_trie_init some_subs = Ret t ∧ nn_trie_match t ([97; 98; 99; 7] ++ [0]) 4 = Ret 1.
Proof.
  destruct (ret_check_ok (λ t, count (root t) [97; 98; 99] =? 1) (subs nn_trie_init some_subs))
    as (t & E & Hc); [vm_compute; reflexivity|]. apply Z.eqb_eq in Hc. exists t. split; [exact E|].
  destruct (trie_match_exact t [97; 98; 99; 7] [0] (subs_reach _ _ _ reach_init E)) as [H1 _]; [reflexivity|].
  apply H1. exists [97; 98; 99]. split; [by exists [7]|]. rewrite Hc. lia.
Defined.

(** *** Deviations

    The empty subscription is lost when its node is converted: to a dense one by
    the ninth character that follows it, and back to a sparse one. *)
Lemma trie_convert_loses :
  ret_check (λ t, count (root t) [] =? 0)
    (subs nn_trie_init ([] :: ((λ c, [c]) <$> [1; 2; 3; 4; 5; 6; 7; 8; 9]))) = true.
Proof. vm_compute. reflexivity. Qed.

(** "a" is not subscribed, but unsubscribing it removes "abc". *)
Lemma trie_unsubscribe_other :
  ret_check (λ t, (count (root t) [97] =? 0) && (count (root t) [97; 98; 99] =? 1) &&
      ret_check (λ r, (r.2 =? 1) && (count (root r.1) [97; 98; 99] =? 0)) (nn_trie_unsubscribe t [97]))
    (subs nn_trie_init [[97; 98; 99]; [120]]) = true.
Proof. vm_compute. reflexivity. Qed.

(** Unsubscribing from an empty trie dereferences NULL. *)
Lemma trie_unsubscribe_empty : nn_trie_unsubscribe nn_trie_init [97] = Fail Crash.
Proof. reflexivity. Qed.

(** The message "a" matches "ab" when the byte after it in memory is a "b". *)
Lemma trie_match_overread :
  ret_check (λ t, (count (root t) [] =? 0) && (count (root t) [97] =? 0) &&
      ret_check (λ r, r =? 1) (nn_trie_match t ([97] ++ [98]) 1) &&
      negb (ret_check (λ _, true) (nn_trie_match t [97] 1)))
    (subs nn_trie_init [[97; 98]; [97; 99]]) = true.
Proof. vm_compute. reflexivity. Qed.
