(* ===== verification/Pubsub.v ===== *)
(** * protocols/pubsub: publish and subscribe sockets

    A publisher distributes every message to all its pipes; a subscriber
    receives in a fair-queued manner and drops what its trie does not match. *)
From S2P Require Import Prelude NnList Priolist Pipe LbFq Msg Dist Protocol Attach Toy Trie.

(** ** xpub.c *)

Record nn_xpub (T : Type) := XPub { xpub_outpipes : nn_dist T }.
Arguments XPub {T}.
Arguments xpub_outpipes {T}.

Section xpub.
Context `{ListStore T} `{PipeOps W vmsg}.

Definition nn_xpub_init (s : T) : nn_xpub T := XPub (nn_dist_init s).
Definition nn_xpub_term (self : nn_xpub T) : outcome unit := nn_dist_term (xpub_outpipes self).
Definition nn_xpub_destroy (self : nn_xpub T) : outcome unit := nn_xpub_term self.

Definition nn_xpub_add (self : nn_xpub T) (pipe : pid) : outcome (nn_xpub T * Z) :=
  Ret (XPub (nn_dist_add (xpub_outpipes self) pipe pipe), 0).

Definition nn_xpub_rm (self : nn_xpub T) (pipe : pid) : outcome (nn_xpub T) :=
  dist ← nn_dist_rm (xpub_outpipes self) pipe; Ret (XPub dist).

(** A publisher does not expect messages from subscribers. *)
Definition nn_xpub_in (self : nn_xpub T) (_ : pid) : outcome (nn_xpub T) :=
  nn_assert false;; Ret self.

Definition nn_xpub_out (self : nn_xpub T) (pipe : pid) : outcome (nn_xpub T) :=
  dist ← nn_dist_out (xpub_outpipes self) pipe; Ret (XPub dist).

Definition nn_xpub_events (_ : nn_xpub T) : Z := NN_SOCKBASE_EVENT_OUT.

Definition nn_xpub_send (self : nn_xpub T) (w : W) (msg : vmsg) : outcome (nn_xpub T * W * Z) :=
  '(dist, w, _, rc) ← nn_dist_send (xpub_outpipes self) w tt msg None; Ret (XPub dist, w, rc).

#[export] Instance xpub_proto : Proto (nn_xpub T) W vmsg := {
  proto_add self p _ _ := nn_xpub_add self p;
  proto_rm := nn_xpub_rm;
  proto_in _ self w p := self ← nn_xpub_in self p; Ret (self, w);
  proto_out self w p := self ← nn_xpub_out self p; Ret (self, w);
  proto_events := nn_xpub_events;
  proto_send := nn_xpub_send;
  proto_recv _ self w := Ret (self, w, - ENOTSUP, None);
  proto_destroy := nn_xpub_destroy;
  proto_hears := false;
  proto_room _ := true;
  proto_takes _ := true;
}.

End xpub.

(** ** xsub.c *)

Definition NN_SUB_SUBSCRIBE : Z := 1.
Definition NN_SUB_UNSUBSCRIBE : Z := 2.

Record nn_xsub (T : Type) := XSub { xsub_fq : nn_priolist T; xsub_trie : nn_trie }.
Arguments XSub {T}.
Arguments xsub_fq {T}.
Arguments xsub_trie {T}.

Section xsub.
Context `{ListStore T} `{PipeOps W vmsg}.

(** What follows the body of a message in memory: [nn_trie_match] may read it. *)
Context (after : vmsg → list Z).

Definition nn_xsub_init (s : T) : nn_xsub T := XSub (nn_fq_init s) nn_trie_init.
(** [nn_trie_term] only frees memory. *)
Definition nn_xsub_term (self : nn_xsub T) : outcome unit := nn_fq_term (xsub_fq self).
Definition nn_xsub_destroy (self : nn_xsub T) : outcome unit := nn_xsub_term self.

Definition nn_xsub_add (self : nn_xsub T) (pipe : pid) (rcvprio : Z) : outcome (nn_xsub T * Z) :=
  assert_prio rcvprio;;
  Ret (XSub (nn_fq_add (xsub_fq self) pipe pipe rcvprio) (xsub_trie self), 0).

Definition nn_xsub_rm (self : nn_xsub T) (pipe : pid) : outcome (nn_xsub T) :=
  fq ← nn_fq_rm (xsub_fq self) pipe; Ret (XSub fq (xsub_trie self)).

Definition nn_xsub_in (self : nn_xsub T) (pipe : pid) : outcome (nn_xsub T) :=
  fq ← nn_fq_in (xsub_fq self) pipe; Ret (XSub fq (xsub_trie self)).

Definition nn_xsub_out (self : nn_xsub T) (_ : pid) : outcome (nn_xsub T) := Ret self.

Definition nn_xsub_events (self : nn_xsub T) : Z :=
  if nn_fq_can_recv (xsub_fq self) then NN_SOCKBASE_EVENT_IN else 0.

(** One turn of the loop in [nn_xsub_recv]. *)
Definition nn_xsub_recv_body (s : nn_xsub T * W) :
    outcome (nn_xsub T * W * option (Z * option vmsg)) :=
  let '(self, w) := s in
  '(fq, w, rc, r) ← nn_fq_recv (xsub_fq self) w;
  let self := XSub fq (xsub_trie self) in
  if rc =? - EAGAIN then Ret (self, w, Some (- EAGAIN, None))
  else
    nn_assert (0 <=? rc);;
    '(_, msg) ← deref r;
    rc ← nn_trie_match (xsub_trie self) (body msg ++ after msg) (Z.of_nat (length (body msg)));
    if rc =? 0 then Ret (self, w, None)
    else if rc =? 1 then Ret (self, w, Some (0, Some msg))
    else Fail Abort.

Definition nn_xsub_recv (fuel : nat) (self : nn_xsub T) (w : W) :
    outcome (nn_xsub T * W * Z * option vmsg) :=
  '(self, w, (rc, r)) ← while fuel nn_xsub_recv_body (self, w); Ret (self, w, rc, r).

Definition nn_xsub_setopt (self : nn_xsub T) (level option : Z) (optval : list Z) :
    outcome (nn_xsub T * Z) :=
  if negb (level =? NN_SUB) then Ret (self, - ENOPROTOOPT)
  else if option =? NN_SUB_SUBSCRIBE then
    '(t, rc) ← nn_trie_subscribe (xsub_trie self) optval;
    Ret (XSub (xsub_fq self) t, if 0 <=? rc then 0 else rc)
  else if option =? NN_SUB_UNSUBSCRIBE then
    '(t, rc) ← nn_trie_unsubscribe (xsub_trie self) optval;
    Ret (XSub (xsub_fq self) t, if 0 <=? rc then 0 else rc)
  else Ret (self, - ENOPROTOOPT).

End xsub.

Definition nn_xpub_ispeer (socktype : Z) : bool := socktype =? NN_SUB.
Definition nn_xsub_ispeer (socktype : Z) : bool := socktype =? NN_PUB.

(** ** Publishers *)

Section xpub_props.
Context `{ListStoreOk T} `{PipeFinite W vmsg}.

Definition xpub_inv (self : nn_xpub T) (w : W) (ps : gset pid) : Prop :=
  ds_inv (xpub_outpipes self) ps (writable w) ∧ pipe_inv w.

Lemma xpub_send_ok self w ps m :
  xpub_inv self w ps →
  ∃ self' w' l, nn_xpub_send self w m = Ret (self', w', 0) ∧ NoDup l ∧
    (∀ p, p ∈ l ↔ p ∈ ps ∧ p ∈ writable w) ∧
    sent w' = sent w ++ ((λ p, (p, m)) <$> l) ∧ recvd w' = recvd w ∧ xpub_inv self' w' ps.
Proof.
  intros [Hd Hw]. unfold nn_xpub_send. destruct (ds_send _ _ _ m None Hd Hw)
    as (dist & w' & l & -> & ? & Hl & ? & ? & _ & _ & ? & ?). step.
  exists (XPub dist), w', l. split_and!; try done. intros p. rewrite Hl. naive_solver.
Qed.

#[export] Program Instance xpub_proto_ok : ProtoOk (nn_xpub T) W vmsg := {| proto_inv := xpub_inv |}.
Next Obligation.
  intros self w ps p sp rp [Hd Hw] _ (Hp & Hnw & _ & _ & _ & Hsz). eexists _, 0. split; [done|].
  split; [done|]. split; [by apply ds_add|done].
Qed.
Next Obligation.
  intros self w ps p w' [Hd Hw] (Hp & (? & _) & Hwr & _). cbn. unfold nn_xpub_rm.
  destruct (ds_rm _ _ _ _ Hd Hp) as (dist & -> & ?). step. eexists. split; [done|].
  split; [by rewrite Hwr|done].
Qed.
Next Obligation. done. Qed.
Next Obligation.
  intros self w ps p w' [Hd Hw] (Hp & Hn & (? & _) & Hwr & _). cbn. unfold nn_xpub_out.
  destruct (ds_out _ _ _ _ Hd Hp Hn) as (dist & -> & ?). step. eexists _, w'. split; [done|].
  split; [by rewrite Hwr|done].
Qed.
Next Obligation.
  intros self w ps m Hi _. destruct (xpub_send_ok _ _ _ m Hi) as (self' & w' & l & E & _ & _ & _ & _ & ?).
  by exists self', w', 0.
Qed.
Next Obligation. intros fuel self w ps Hi _. exists self, w, (- ENOTSUP), None. by split. Qed.
Next Obligation. intros self w [Hd _]. exact (ds_term _ _ Hd). Qed.
Next Obligation. intros self w ps w' [Hd _] (Hw & _) Hwr _. by split; [rewrite Hwr|]. Qed.
Next Obligation. done. Qed.

(** A publisher works in every session in which its peers keep silent: every
    call returns, the socket can be destroyed once its pipes are gone, and a
    send never blocks: it hands the message once to every attached writable
    pipe and to no other.  A peer that does send aborts the publisher. *)
Theorem xpub_session s0 σ0 w0 s w ps c m :
  l_rep s0 σ0 → lseq σ0 = ∅ → lfree σ0 = ∅ → pipe_inv w0 →
  reach (M := vmsg) (nn_xpub_init s0) w0 (s, w, ps) → allowed w ps c →
  (match c with C_in _ _ => call_step (s, w, ps) c = Fail Abort
   | _ => ∃ σ, call_step (s, w, ps) c = Ret σ end) ∧
  (ps = ∅ → nn_xpub_destroy s = Ret tt) ∧
  nn_xpub_events s = NN_SOCKBASE_EVENT_OUT ∧
  ∃ s' w' l, nn_xpub_send s w m = Ret (s', w', 0) ∧ NoDup l ∧
    (∀ p, p ∈ l ↔ p ∈ ps ∧ p ∈ writable w) ∧
    sent w' = sent w ++ ((λ p, (p, m)) <$> l) ∧ recvd w' = recvd w.
Proof.
  intros Hr He Hf Hw0 Hreach Ha.
  assert (proto_inv (M := vmsg) (nn_xpub_init s0) w0 ∅) as Hi by by split; [by eapply ds_init|].
  pose proof (reach_inv _ _ _ Hi Hreach : xpub_inv s w ps) as Hinv. split_and!.
  - assert (∀ c, legal (W := W) (M := vmsg) s c → allowed w ps c →
      ∃ σ, call_step (s, w, ps) c = Ret σ) as Hc.
    { intros c' Hl Ha'. destruct (session_safe _ _ _ _ _ _ Hi Hreach Hl Ha') as [(σ & E & _) _].
      by exists σ. }
    destruct c; try (by apply Hc). reflexivity.
  - intros ->. destruct Hinv as [Hd _]. exact (ds_term _ _ Hd).
  - done.
  - destruct (xpub_send_ok s w ps m Hinv) as (s' & w' & l & ? & ? & ? & ? & ? & _).
    by exists s', w', l.
Qed.

End xpub_props.

(** ** Subscribers *)

Section xsub_props.
Context `{ListStoreOk T} `{PipeFinite W vmsg} (after : vmsg → list Z).

Definition xsub_inv (self : nn_xsub T) (w : W) (ps : gset pid) : Prop :=
  pl_inv (xsub_fq self) ps (readable w) ∧ pipe_inv w ∧ trie_reach (xsub_trie self).

(** A message that starts with a subscribed string. *)
Definition wanted (t : nn_trie) (m : vmsg) : Prop :=
  ∃ p, p `prefix_of` body m ∧ 0 < count (root t) p.

(** A message that is neither wanted nor the beginning of a longer subscribed
    string: only for these [nn_trie_match] stays inside the message. *)
Definition unwanted (t : nn_trie) (m : vmsg) : Prop :=
  (∀ p, p `prefix_of` body m → count (root t) p = 0) ∧
  (∀ s, body m `prefix_of` s → s ≠ body m → count (root t) s = 0).

Definition clear_cut (t : nn_trie) (m : vmsg) : Prop :=
  Z.of_nat (length (body m)) < 2 ^ 64 ∧ (wanted t m ∨ unwanted t m).

Lemma xsub_recv_ok fuel self w ps :
  delivers (clear_cut (xsub_trie self)) w →
  xsub_inv self w ps → (pending w < fuel)%nat →
  ∃ self' w' bad, Forall (λ pm, unwanted (xsub_trie self) pm.2) bad ∧ sent w' = sent w ∧
    xsub_trie self' = xsub_trie self ∧ xsub_inv self' w' ps ∧
    ((nn_xsub_recv after fuel self w = Ret (self', w', - EAGAIN, None) ∧
        recvd w' = recvd w ++ bad ∧ ∀ x, x ∈ ps → x ∉ readable w') ∨
     ∃ p m, nn_xsub_recv after fuel self w = Ret (self', w', 0, Some m) ∧ p ∈ ps ∧
       wanted (xsub_trie self) m ∧ recvd w' = recvd w ++ bad ++ [(p, m)]).
Proof.
  intros (Ok & Hok & Hmsg) Hi Hfuel. set (t := xsub_trie self) in *.
  set (J bad (s : nn_xsub T * W) := Forall (λ pm : pid * vmsg, unwanted t pm.2) bad ∧
    sent s.2 = sent w ∧ xsub_trie s.1 = t ∧ xsub_inv s.1 s.2 ps).
  destruct (while_ok (λ s, Ok s.2 ∧ ∃ bad, J bad s ∧ recvd s.2 = recvd w ++ bad) (λ s, pending s.2)
    (λ s r, ∃ bad, J bad s ∧
       ((r = (- EAGAIN, None) ∧ recvd s.2 = recvd w ++ bad ∧ ∀ x, x ∈ ps → x ∉ readable s.2) ∨
        ∃ p m, r = (0, Some m) ∧ p ∈ ps ∧ wanted t m ∧ recvd s.2 = recvd w ++ bad ++ [(p, m)]))
    (nn_xsub_recv_body after))
    with (fuel := fuel) (s := (self, w)) as ([self' w'] & r & E & bad & (? & ? & ? & ?) & Hr).
  - intros [s u] (Hoku & bad & (Hbad & Hs & Ht & Hf & Hu & Htr) & Hrv). cbn [fst snd] in *.
    cbn [nn_xsub_recv_body].
    destruct (pl_recv _ _ _ Hf Hu) as [(_ & Hn & ->)|(_ & fq & u' & rc0 & rc & x & m & Hp & _ & -> &
      ? & ? & ? & ? & ? & Hrv' & Hs' & Hwr')]; step.
    + eexists (_, _), _. split; [done|]. exists bad. split; [by split_and!; destruct s|]. left. by split_and!.
    + rewrite (proj2 (Z.eqb_neq rc (- EAGAIN))) by (unfold EAGAIN; lia).
      rewrite (proj2 (Z.leb_le 0 rc)) by lia. step. cbn [xsub_trie]. rewrite Ht.
      assert (xsub_inv (XSub fq t) u' ps) as Hi' by (split_and!; cbn; [done|done|by rewrite <- Ht]).
      rewrite Ht in Htr. destruct (Hmsg _ _ _ _ _ Hoku Hp) as [[Hlen Hw'] Hok'].
      destruct (match_node_ok (S (length (body m ++ after m))) (root t) (body m) (after m))
        as [Hm1 Hm0]; [rewrite length_app; lia|by apply trie_reach_wf|done|]. unfold nn_trie_match.
      destruct Hw' as [Hwant|Hun].
      * rewrite Hm1 by done. step. eexists (_, _), _. split; [done|]. exists bad.
        split; [split_and!; cbn; congruence || done|]. right. exists x, m. split_and!; try done.
        cbn. by rewrite Hrv', Hrv, <- app_assoc.
      * rewrite Hm0 by apply Hun. step. eexists (_, _), _. split; [done|].
        split; [split; [exact Hok'|]|by eapply pending_recv]. exists (bad ++ [(x, m)]). cbn.
        split; [split_and!; cbn; try congruence; try done|by rewrite Hrv', Hrv, <- app_assoc].
        apply Forall_app. split; [done|]. by apply Forall_singleton.
  - split; [done|]. exists []. split; [|by rewrite app_nil_r]. by split_and!.
  - done.
  - exists self', w', bad. split_and!; try done. unfold nn_xsub_recv. rewrite E. step.
    destruct Hr as [(-> & ? & ?)|(p & m & -> & ? & ? & ?)]; [left|right; exists p, m]; done.
Qed.

(** The states of a subscriber: the core attaches, detaches and wakes pipes, the
    user sets options and receives. *)
Inductive xsub_reach (s0 : T) (w0 : W) : nn_xsub T → W → gset pid → Prop :=
| xr_init : xsub_reach s0 w0 (nn_xsub_init s0) w0 ∅
| xr_add s w ps p sp rp s' rc :
    xsub_reach s0 w0 s w ps → allowed w ps (C_add p sp rp) →
    nn_xsub_add s p rp = Ret (s', rc) → xsub_reach s0 w0 s' w ({[p]} ∪ ps)
| xr_rm s w ps p w' s' :
    xsub_reach s0 w0 s w ps → allowed w ps (C_rm p w') →
    nn_xsub_rm s p = Ret s' → xsub_reach s0 w0 s' w' (ps ∖ {[p]})
| xr_in s w ps p w' s' :
    xsub_reach s0 w0 s w ps → allowed w ps (C_in p w') →
    nn_xsub_in s p = Ret s' → xsub_reach s0 w0 s' w' ps
| xr_subscribe s w ps data s' rc :
    xsub_reach s0 w0 s w ps → bytes data → count (root (xsub_trie s)) data + 1 < 2 ^ 32 →
    nn_xsub_setopt s NN_SUB NN_SUB_SUBSCRIBE data = Ret (s', rc) → xsub_reach s0 w0 s' w ps
| xr_unsubscribe s w ps data s' rc :
    xsub_reach s0 w0 s w ps → 0 < count (root (xsub_trie s)) data →
    nn_xsub_setopt s NN_SUB NN_SUB_UNSUBSCRIBE data = Ret (s', rc) → xsub_reach s0 w0 s' w ps
| xr_recv s w ps s' w' rc r :
    xsub_reach s0 w0 s w ps → delivers (clear_cut (xsub_trie s)) w →
    nn_xsub_recv after (S (pending w)) s w = Ret (s', w', rc, r) → xsub_reach s0 w0 s' w' ps.

Lemma xsub_reach_inv s0 σ0 w0 s w ps :
  l_rep s0 σ0 → lseq σ0 = ∅ → lfree σ0 = ∅ → pipe_inv w0 →
  xsub_reach s0 w0 s w ps → xsub_inv s w ps.
Proof.
  intros Hr He Hf Hw0. induction 1 as [|s w ps p sp rp s' rc _ (Hl & Hw & Ht) Ha E
    |s w ps p w' s' _ (Hl & Hw & Ht) Ha E|s w ps p w' s' _ (Hl & Hw & Ht) Ha E
    |s w ps data s' rc _ (Hl & Hw & Ht) Hb Hlt E|s w ps data s' rc _ (Hl & Hw & Ht) Hpos E
    |s w ps s' w' rc r _ IH Hd E].
  - split_and!; [by eapply pl_init|done|apply reach_init].
  - destruct Ha as (Hp & _ & Hpr & _ & Hrp & _). unfold nn_xsub_add in E.
    rewrite assert_prio_ok in E by done. injection E as <- <-. split_and!; [by apply pl_add|done..].
  - destruct Ha as (Hp & (? & _) & _ & Hrd). unfold nn_xsub_rm, nn_fq_rm in E.
    destruct (pl_rm _ _ _ _ Hl Hp) as (fq & E1 & ?). rewrite E1 in E. injection E as <-.
    split_and!; [by rewrite Hrd|done..].
  - destruct Ha as (Hp & Hn & (? & _) & _ & Hrd). unfold nn_xsub_in, nn_fq_in in E.
    destruct (pl_activate _ _ _ _ Hl Hp Hn) as (fq & E1 & ?). rewrite E1 in E. injection E as <-.
    split_and!; [by rewrite Hrd|done..].
  - change (('(t, rc) ← nn_trie_subscribe (xsub_trie s) data;
      Ret (XSub (xsub_fq s) t, if 0 <=? rc then 0 else rc)) = Ret (s', rc)) in E.
    destruct (nn_trie_subscribe (xsub_trie s) data) as [[t rc']|] eqn:Et; [|done].
    injection E as <- _. split_and!; [done..|]. by eapply reach_sub.
  - change (('(t, rc) ← nn_trie_unsubscribe (xsub_trie s) data;
      Ret (XSub (xsub_fq s) t, if 0 <=? rc then 0 else rc)) = Ret (s', rc)) in E.
    destruct (nn_trie_unsubscribe (xsub_trie s) data) as [[t rc']|] eqn:Et; [|done].
    injection E as <- _. split_and!; [done..|]. by eapply reach_unsub.
  - destruct (xsub_recv_ok (S (pending w)) s w ps Hd IH)
      as (s2 & w2 & bad & _ & _ & _ & ? & [[E' _]|(p & m & E' & _)]); [lia|..];
      rewrite E in E'; by injection E' as -> -> _ _.
Qed.

(** C28: what a subscriber receives.  In every reachable state, a receive takes messages
    from its attached pipes in turn, drops those that start with no string its trie
    counts as subscribed, and returns the first one that does; it returns -EAGAIN
    only when no attached pipe is readable any more.  The runs are those in which
    the user only unsubscribes what is subscribed (anything else can remove another
    subscription or use NULL), a string is subscribed less than 2^32 times, and the
    messages waiting are not a proper beginning of a subscribed string, unless they
    also start with a shorter one (the code reads past the end of the others).  What
    the trie counts is what was subscribed and not unsubscribed, but for the
    subscriptions that conversions of nodes lose ([trie_subscribe_exact] and
    [trie_unsubscribe_exact]). *)
Theorem xsub_filter s0 σ0 w0 s w ps fuel :
  l_rep s0 σ0 → lseq σ0 = ∅ → lfree σ0 = ∅ → pipe_inv w0 → xsub_reach s0 w0 s w ps →
  delivers (clear_cut (xsub_trie s)) w → (pending w < fuel)%nat →
  ∃ s' w' bad, Forall (λ pm, ¬ wanted (xsub_trie s) pm.2) bad ∧ sent w' = sent w ∧
    xsub_trie s' = xsub_trie s ∧
    ((nn_xsub_recv after fuel s w = Ret (s', w', - EAGAIN, None) ∧
        recvd w' = recvd w ++ bad ∧ ∀ x, x ∈ ps → x ∉ readable w') ∨
     ∃ p m, nn_xsub_recv after fuel s w = Ret (s', w', 0, Some m) ∧ p ∈ ps ∧
       wanted (xsub_trie s) m ∧ recvd w' = recvd w ++ bad ++ [(p, m)]).
Proof.
  intros Hr He Hf Hw0 Hreach Hd Hfuel.
  destruct (xsub_recv_ok fuel s w ps Hd (xsub_reach_inv _ _ _ _ _ _ Hr He Hf Hw0 Hreach) Hfuel)
    as (s' & w' & bad & Hbad & ? & ? & _ & Hrecv).
  exists s', w', bad. split_and!; try done. eapply Forall_impl; [exact Hbad|].
  intros [p m] [Hno _] (q & Hq & Hpos). cbn in *. specialize (Hno q Hq). lia.
Qed.

End xsub_props.

(** ** Examples *)

Module PubsubSample.

Definition pub0 : nn_xpub Ptr.store := nn_xpub_init Ptr.empty_store.
Definition hello : vmsg := VMsg [] [] [97; 1].

Definition pub_script : list (toy vmsg → call (toy vmsg) vmsg) :=
  [λ _, C_add 2 8 8; λ _, C_add 3 8 8; λ w, C_out 2 (toy_ready w 2); λ w, C_out 3 (toy_ready w 3);
   λ _, C_send hello].

(** A subscriber to "a" with one pipe, on which three messages arrive. *)
Definition sub_run : outcome (nn_xsub Ptr.store) :=
  '(s, _) ← nn_xsub_add (nn_xsub_init Ptr.empty_store) 2 8;
  '(s, _) ← nn_xsub_setopt s NN_SUB NN_SUB_SUBSCRIBE [97];
  nn_xsub_in s 2.
Definition start : toy vmsg := toy_empty.
Definition sub_world : toy vmsg :=
  toy_arrive toy_empty 2 [VMsg [] [] [98]; hello; VMsg [] [] [97]].

End PubsubSample.

Lemma xpub_session_witness :
  ∃ s w ps, script (PubsubSample.pub0, toy_empty, ∅) PubsubSample.pub_script = Ret (s, w, ps) ∧
    ∃ s' w' l, nn_xpub_send s w PubsubSample.hello = Ret (s', w', 0) ∧
      t_sent w' = t_sent w ++ ((λ p, (p, PubsubSample.hello)) <$> l).
Proof.
  destruct (ret_check_ok (λ σ, bool_decide (length (t_sent σ.1.2) = 2%nat))
    (script (PubsubSample.pub0, toy_empty, ∅) PubsubSample.pub_script))
    as ([[s w] ps] & E & _); [vm_compute; reflexivity|].
  exists s, w, ps. split; [exact E|].
  destruct (xpub_session (H0 := Ptr.ptr_store_ok) Ptr.empty_store _ toy_empty s w ps C_recv
    PubsubSample.hello Ptr.rep_empty eq_refl eq_refl toy_empty_inv
    (script_reach _ _ _ _ _ (reach_start _ _) E) I) as (_ & _ & _ & s' & w' & l & Es & _ & _ & Hs & _).
  exists s', w', l. exact (conj Es Hs).
Defined.

(** The trie of the example holds the subscription "a" only. *)
Lemma count_a q : count (Some (Node 1 [97] (Sparse []))) q = if decide (q = [97]) then 1 else 0.
Proof.
  destruct q as [|c [|d q]].
  - reflexivity.
  - unfold count. cbn. destruct (decide (97 = c)) as [<-|]; [reflexivity|].
    rewrite decide_True, decide_False by (congruence || (cbn; lia)). reflexivity.
  - unfold count. cbn. rewrite (decide_False (P := c :: d :: q = [97])) by done.
    destruct (decide (97 = c)); cbn; reflexivity.
Qed.

Definition is_a (t : nn_trie) : bool :=
  match root t with Some (Node r [c] (Sparse [])) => (r =? 1) && (c =? 97) | _ => false end.

Lemma is_a_root t : is_a t = true → root t = Some (Node 1 [97] (Sparse [])).
Proof.
  unfold is_a. destruct (root t) as [[r [|c []] [[]|]]|]; try done.
  by intros [->%Z.eqb_eq ->%Z.eqb_eq]%andb_true_iff.
Qed.

Lemma sub_clear_cut t :
  root t = Some (Node 1 [97] (Sparse [])) → delivers (clear_cut t) PubsubSample.sub_world.
Proof.
  intros Ht. apply toy_delivers.
  apply map_Forall_singleton. repeat apply Forall_cons_2; [| | |by apply Forall_nil];
    (split; [reflexivity|]); unfold wanted, unwanted; rewrite Ht; cbn [body PubsubSample.hello].
  - right. split; intros q Hq; [|intros _]; rewrite count_a, decide_False; try done; intros ->;
      destruct Hq as [u Hu]; discriminate.
  - left. exists [97]. split; [by exists [1]|]. reflexivity.
  - left. exists [97]. split; [by exists []|]. reflexivity.
Qed.

Lemma xsub_filter_witness :
  ∃ s, PubsubSample.sub_run = Ret s ∧
    ∃ s' w' bad, Forall (λ pm, ¬ wanted (xsub_trie s) pm.2) bad ∧
      ((nn_xsub_recv (λ _, []) 5 s PubsubSample.sub_world = Ret (s', w', - EAGAIN, None) ∧
          t_recvd w' = bad ∧ ∀ x : pid, x ∈ ({[2%positive]} : gset pid) → x ∉ readable w') ∨
       ∃ p m, nn_xsub_recv (λ _, []) 5 s PubsubSample.sub_world = Ret (s', w', 0, Some m) ∧
         p ∈ ({[2%positive]} : gset pid) ∧ wanted (xsub_trie s) m ∧ t_recvd w' = bad ++ [(p, m)]).
Proof.
  destruct (ret_check_ok (λ s, is_a (xsub_trie s)) PubsubSample.sub_run) as (s & E & Ha);
    [vm_compute; reflexivity|]. exists s. split; [exact E|].
  pose proof E as E'. unfold PubsubSample.sub_run in E'.
  apply bind_Ret in E' as ([s1 rc1] & E1 & E'). apply bind_Ret in E' as ([s2 rc2] & E2 & E3).
  assert (xsub_reach (W := toy vmsg) (λ _, []) Ptr.empty_store PubsubSample.start s2 PubsubSample.start
    ({[2%positive]} ∪ ∅)) as R.
  { eapply xr_subscribe; [eapply xr_add; [apply xr_init| |exact E1]| | |exact E2].
    - apply (bool_decide_eq_true_1 (allowed (M := vmsg) PubsubSample.start ∅ (C_add 2 8 8))). vm_compute. reflexivity.
    - apply (bool_decide_eq_true_1 (bytes [97])). vm_compute. reflexivity.
    - vm_compute in E1. injection E1 as <- _. reflexivity. }
  assert (xsub_reach (λ _, []) Ptr.empty_store PubsubSample.start s PubsubSample.sub_world
    ({[2%positive]} ∪ ∅)) as R'.
  { eapply xr_in; [exact R| |exact E3].
    apply (bool_decide_eq_true_1 (allowed (M := vmsg) PubsubSample.start ({[2%positive]} ∪ ∅)
      (C_in 2 PubsubSample.sub_world))). vm_compute. reflexivity. }
  destruct (xsub_filter (H0 := Ptr.ptr_store_ok) (λ _, []) Ptr.empty_store _ PubsubSample.start s
    PubsubSample.sub_world _ 5 Ptr.rep_empty eq_refl eq_refl toy_empty_inv R'
    (sub_clear_cut _ (is_a_root _ Ha))) as (s' & w' & bad & Hb & _ & _ & Hr); [apply Nat.ltb_lt; reflexivity|].
  rewrite (right_id_L ∅ (∪)) in Hr.
  exists s', w', bad. split; [exact Hb|]. destruct Hr as [Hr|(p & m & Er & Hp & Hw & Hrv)]; [by left|].
  right. exists p, m. split; [exact Er|]. split; [exact Hp|]. split; [exact Hw|]. exact Hrv.
Defined.
