(* ===== verification/Rep.v ===== *)
(** * protocols/reqrep: raw and cooked reply sockets

    A raw reply socket gives every pipe a 31-bit key and puts the key of the
    pipe a request came from in front of its backtrace; a reply is routed by the
    key on top of its header.  A cooked reply socket keeps the backtrace of the
    last request for the reply.

    The memory of the hash table is separate from that of the fair queue; an
    item of either is identified by its pipe. *)
From S2P Require Import Prelude Wire NnList Hash Priolist Pipe LbFq Msg Protocol Attach Toy.

Definition NN_XREP_OUT : Z := 1.
Definition NN_REP_INPROGRESS : Z := 1.

(** ** xrep.c *)

(** [xrep_maxttl] is what [nn_sockbase_getopt (self, NN_MAXTTL, ...)] reads;
    [xrep_flags] holds the [flags] of [struct nn_xrep_data]. *)
Record nn_xrep (T : Type) := XRep {
  xrep_maxttl : Z;
  next_key : Z;
  xrep_mem : hmem T;
  xrep_outpipes : nn_hash;
  xrep_flags : gmap pid Z;
  xrep_inpipes : nn_priolist T;
}.
Arguments XRep {T}.
Arguments xrep_maxttl {T}.
Arguments next_key {T}.
Arguments xrep_mem {T}.
Arguments xrep_outpipes {T}.
Arguments xrep_flags {T}.
Arguments xrep_inpipes {T}.

Section xrep.
Context `{ListStore T} `{PipeOps W vmsg}.

Definition set_flags (self : nn_xrep T) (fl : gmap pid Z) : nn_xrep T :=
  XRep (xrep_maxttl self) (next_key self) (xrep_mem self) (xrep_outpipes self) fl (xrep_inpipes self).
Definition set_inpipes (self : nn_xrep T) (fq : nn_priolist T) : nn_xrep T :=
  XRep (xrep_maxttl self) (next_key self) (xrep_mem self) (xrep_outpipes self) (xrep_flags self) fq.

(** [key] is the number [nn_random_generate] yields. *)
Definition nn_xrep_init (maxttl key : Z) (m : hmem T) (s : T) : nn_xrep T :=
  let '(m, h) := nn_hash_init m in XRep maxttl key m h ∅ (nn_fq_init s).

Definition nn_xrep_term (self : nn_xrep T) : outcome unit :=
  nn_fq_term (xrep_inpipes self);; nn_hash_term (xrep_mem self) (xrep_outpipes self).
Definition nn_xrep_destroy (self : nn_xrep T) : outcome unit := nn_xrep_term self.

Definition nn_xrep_add (self : nn_xrep T) (pipe : pid) (rcvprio : Z) : outcome (nn_xrep T * Z) :=
  assert_prio rcvprio;;
  let m := nn_hash_item_init (xrep_mem self) pipe in
  '(m, h) ← nn_hash_insert m (xrep_outpipes self) (Z.land (next_key self) 0x7fffffff) pipe;
  Ret (XRep (xrep_maxttl self) (u32 (next_key self + 1)) m h (<[pipe := 0]> (xrep_flags self))
         (nn_fq_add (xrep_inpipes self) pipe pipe rcvprio), 0).

Definition nn_xrep_rm (self : nn_xrep T) (pipe : pid) : outcome (nn_xrep T) :=
  fq ← nn_fq_rm (xrep_inpipes self) pipe;
  '(m, h) ← nn_hash_erase (xrep_mem self) (xrep_outpipes self) pipe;
  nn_hash_item_term m pipe;;
  Ret (XRep (xrep_maxttl self) (next_key self) m h (delete pipe (xrep_flags self)) fq).

Definition nn_xrep_in (self : nn_xrep T) (pipe : pid) : outcome (nn_xrep T) :=
  fq ← nn_fq_in (xrep_inpipes self) pipe; Ret (set_inpipes self fq).

Definition nn_xrep_out (self : nn_xrep T) (pipe : pid) : outcome (nn_xrep T) :=
  f ← deref (xrep_flags self !! pipe);
  Ret (set_flags self (<[pipe := Z.lor f NN_XREP_OUT]> (xrep_flags self))).

Definition nn_xrep_events (self : nn_xrep T) : Z :=
  Z.lor (if nn_fq_can_recv (xrep_inpipes self) then NN_SOCKBASE_EVENT_IN else 0)
    NN_SOCKBASE_EVENT_OUT.

Definition nn_xrep_send (self : nn_xrep T) (w : W) (msg : vmsg) : outcome (nn_xrep T * W * Z) :=
  if decide (length (sphdr msg) < 4)%nat then Ret (self, w, 0)
  else
    key ← nn_getl (sphdr msg);
    let msg := set_sphdr msg (drop 4 (sphdr msg)) in
    data ← nn_hash_get (xrep_mem self) (xrep_outpipes self) key;
    match data with
    | None => Ret (self, w, 0)
    | Some pipe =>
        f ← deref (xrep_flags self !! pipe);
        if Z.land f NN_XREP_OUT =? 0 then Ret (self, w, 0)
        else
          '(w, rc) ← nn_pipe_send w pipe msg;
          nn_assert (0 <=? rc);;
          let f := if Z.land rc NN_PIPE_RELEASE =? 0 then f else Z.land f (Z.lnot NN_XREP_OUT) in
          Ret (set_flags self (<[pipe := f]> (xrep_flags self)), w, 0)
    end.

(** The loop that looks for the bottom of the backtrace stack, the first word
    with the high bit set: [None] when the message ends before it. *)
Definition find_bottom_body (data : list Z) (i : nat) : outcome (nat * option (option nat)) :=
  if decide (length data < (i + 1) * 4)%nat then Ret (i, Some None)
  else
    v ← nn_getl (drop (i * 4) data);
    if negb (Z.land v 0x80000000 =? 0) then Ret (i, Some (Some i)) else Ret (S i, None).

Definition find_bottom (data : list Z) : outcome (option nat) :=
  '(_, r) ← while (S (length data)) (find_bottom_body data) O; Ret r.

(** Splitting a request into header and body; [None]: the request is dropped. *)
Definition split_request (maxttl : Z) (msg : vmsg) : outcome (option vmsg) :=
  r ← find_bottom (body msg);
  match r with
  | None => Ret None
  | Some i =>
      let i := S i in
      if maxttl <? Z.of_nat i then Ret None
      else
        nn_assert (bool_decide (length (sphdr msg) = 0%nat));;
        let msg := set_sphdr msg (take (i * 4) (body msg)) in
        msg ← trim_body msg (i * 4);
        Ret (Some msg)
  end.

(** Prepending the key: [ref] is a new header of the right size. *)
Definition push_key (key : Z) (hdr : list Z) : outcome (list Z) :=
  ref ← nn_putl (replicate (length hdr + 4) 0) key;
  Ret (take 4 ref ++ hdr).

Definition nn_xrep_recv (self : nn_xrep T) (w : W) : outcome (nn_xrep T * W * Z * option vmsg) :=
  '(fq, w, rc, r) ← nn_fq_recv (xrep_inpipes self) w;
  let self := set_inpipes self fq in
  if rc <? 0 then Ret (self, w, rc, None)
  else
    '(pipe, msg) ← deref r;
    split ← (if Z.land rc NN_PIPE_PARSED =? 0 then split_request (xrep_maxttl self) msg
             else Ret (Some msg));
    match split with
    | None => Ret (self, w, - EAGAIN, None)
    | Some msg =>
        key ← get_key (hkeys (xrep_mem self)) pipe;
        hdr ← push_key key (sphdr msg);
        Ret (self, w, 0, Some (set_sphdr msg hdr))
    end.

(** No attached pipe has the key the next pipe would get: [next_key] wraps
    around after 2^31 pipes. *)
Definition xrep_room (self : nn_xrep T) : bool :=
  match nn_hash_get (xrep_mem self) (xrep_outpipes self) (Z.land (next_key self) 0x7fffffff) with
  | Ret None => true
  | _ => false
  end.

#[export] Instance xrep_proto : Proto (nn_xrep T) W vmsg := {
  proto_add self p _ rcvprio := nn_xrep_add self p rcvprio;
  proto_rm := nn_xrep_rm;
  proto_in _ self w p := self ← nn_xrep_in self p; Ret (self, w);
  proto_out self w p := self ← nn_xrep_out self p; Ret (self, w);
  proto_events := nn_xrep_events;
  proto_send := nn_xrep_send;
  proto_recv _ := nn_xrep_recv;
  proto_destroy := nn_xrep_destroy;
  proto_hears := true;
  proto_room := xrep_room;
  proto_takes _ := true;
}.

End xrep.

Definition nn_xrep_ispeer (socktype : Z) : bool := socktype =? NN_REQ.

(** ** rep.c *)

(** [rep_backtrace] is a header only while NN_REP_INPROGRESS is set. *)
Record nn_rep (T : Type) := Rep { rep_xrep : nn_xrep T; rep_flags : Z; rep_backtrace : list Z }.
Arguments Rep {T}.
Arguments rep_xrep {T}.
Arguments rep_flags {T}.
Arguments rep_backtrace {T}.

Section rep.
Context `{ListStore T} `{PipeOps W vmsg}.

Definition nn_rep_init (maxttl key : Z) (m : hmem T) (s : T) : nn_rep T :=
  Rep (nn_xrep_init maxttl key m s) 0 [].
Definition nn_rep_term (self : nn_rep T) : outcome unit := nn_xrep_term (rep_xrep self).
Definition nn_rep_destroy (self : nn_rep T) : outcome unit := nn_rep_term self.

Definition in_progress (self : nn_rep T) : bool :=
  negb (Z.land (rep_flags self) NN_REP_INPROGRESS =? 0).

Definition nn_rep_events (self : nn_rep T) : Z :=
  let events := nn_xrep_events (rep_xrep self) in
  if negb (in_progress self) then Z.land events (Z.lnot NN_SOCKBASE_EVENT_OUT) else events.

Definition nn_rep_send (self : nn_rep T) (w : W) (msg : vmsg) : outcome (nn_rep T * W * Z) :=
  if negb (in_progress self) then Ret (self, w, - EFSM)
  else
    nn_assert (bool_decide (length (sphdr msg) = 0%nat));;
    let msg := set_sphdr msg (rep_backtrace self) in
    let flags := Z.land (rep_flags self) (Z.lnot NN_REP_INPROGRESS) in
    '(xrep, w, rc) ← nn_xrep_send (rep_xrep self) w msg;
    nn_assert ((rc =? 0) || (rc =? - EAGAIN));;
    Ret (Rep xrep flags [], w, 0).

Definition nn_rep_recv (self : nn_rep T) (w : W) : outcome (nn_rep T * W * Z * option vmsg) :=
  let self :=
    if in_progress self
    then Rep (rep_xrep self) (Z.land (rep_flags self) (Z.lnot NN_REP_INPROGRESS)) []
    else self in
  '(xrep, w, rc, r) ← nn_xrep_recv (rep_xrep self) w;
  if rc =? - EAGAIN then Ret (Rep xrep (rep_flags self) (rep_backtrace self), w, - EAGAIN, None)
  else
    nn_assert (rc =? 0);;
    msg ← deref r;
    Ret (Rep xrep (Z.lor (rep_flags self) NN_REP_INPROGRESS) (sphdr msg), w, 0,
         Some (set_sphdr msg [])).

#[export] Instance rep_proto : Proto (nn_rep T) W vmsg := {
  proto_add self p _ rcvprio :=
    '(xrep, rc) ← nn_xrep_add (rep_xrep self) p rcvprio;
    Ret (Rep xrep (rep_flags self) (rep_backtrace self), rc);
  proto_rm self p :=
    xrep ← nn_xrep_rm (rep_xrep self) p; Ret (Rep xrep (rep_flags self) (rep_backtrace self));
  proto_in _ self w p :=
    xrep ← nn_xrep_in (rep_xrep self) p; Ret (Rep xrep (rep_flags self) (rep_backtrace self), w);
  proto_out self w p :=
    xrep ← nn_xrep_out (rep_xrep self) p; Ret (Rep xrep (rep_flags self) (rep_backtrace self), w);
  proto_events := nn_rep_events;
  proto_send := nn_rep_send;
  proto_recv _ := nn_rep_recv;
  proto_destroy := nn_rep_destroy;
  proto_hears := true;
  proto_room self := xrep_room (rep_xrep self);
  proto_takes m := bool_decide (sphdr m = []);
}.

End rep.

(** ** Requests

    [first_bottom data i]: word [i] is the first one with the high bit set. *)
Definition bottom_at (data : list Z) (i : nat) : Prop :=
  ∃ v, nn_getl (drop (i * 4) data) = Ret v ∧ Z.land v 0x80000000 ≠ 0.
Definition first_bottom (data : list Z) (i : nat) : Prop :=
  bottom_at data i ∧ ∀ j, (j < i)%nat → ¬ bottom_at data j.

(** What becomes of a message that a pipe delivered with [rc]. *)
Definition accepted (maxttl rc : Z) (m m' : vmsg) : Prop :=
  if Z.land rc NN_PIPE_PARSED =? 0 then
    ∃ i, first_bottom (body m) i ∧ Z.of_nat (S i) ≤ maxttl ∧
      m' = VMsg (take (S i * 4) (body m)) (hdrs m) (drop (S i * 4) (body m))
  else m' = m.
Definition refused (maxttl rc : Z) (m : vmsg) : Prop :=
  Z.land rc NN_PIPE_PARSED = 0 ∧ ∀ i, first_bottom (body m) i → maxttl < Z.of_nat (S i).

Lemma nn_getl_total l : (4 ≤ length l)%nat → ∃ v, nn_getl l = Ret v.
Proof. destruct l as [|a [|b [|c [|d l]]]]; cbn; try lia. intros _. eexists. reflexivity. Qed.

Lemma bottom_at_length data i : bottom_at data i → (S i * 4 ≤ length data)%nat.
Proof.
  intros (v & Hv & _). assert (4 ≤ length (drop (i * 4) data))%nat as Hl.
  { destruct (drop (i * 4) data) as [|a [|b [|c [|d l]]]]; cbn in *; try done. lia. }
  rewrite length_drop in Hl. lia.
Qed.

Lemma find_bottom_ok data :
  ∃ r, find_bottom data = Ret r ∧
    match r with Some i => first_bottom data i | None => ∀ i, ¬ bottom_at data i end.
Proof.
  unfold find_bottom.
  destruct (while_ok (λ i, ∀ j, (j < i)%nat → ¬ bottom_at data j) (λ i, length data - i)%nat
    (λ _ r, match r with Some i => first_bottom data i | None => ∀ i, ¬ bottom_at data i end)
    (find_bottom_body data)) with (fuel := S (length data)) (s := O) as (i & r & -> & Hr).
  - intros i Hi. unfold find_bottom_body. destruct (decide (length data < (i + 1) * 4)%nat).
    + eexists _, _. split; [reflexivity|]. intros j Hj. pose proof (bottom_at_length _ _ Hj).
      by apply (Hi j); [lia|].
    + destruct (nn_getl_total (drop (i * 4) data)) as [v Hv]; [rewrite length_drop; lia|].
      rewrite Hv. step. destruct (Z.land v 2147483648 =? 0) eqn:E; cbn;
        eexists _, _; (split; [reflexivity|]); cbn.
      * apply Z.eqb_eq in E. split; [|lia]. intros j Hj Hb.
        destruct (decide (j = i)) as [->|]; [|by apply (Hi j); [lia|]].
        destruct Hb as (v' & Hv' & ?). rewrite Hv in Hv'. by injection Hv' as <-.
      * apply Z.eqb_neq in E. split; [by exists v|done].
  - lia.
  - lia.
  - step. by exists r.
Qed.

Lemma split_request_ok maxttl rc m :
  (Z.land rc NN_PIPE_PARSED = 0 → sphdr m = []) →
  ∃ r, (if Z.land rc NN_PIPE_PARSED =? 0 then split_request maxttl m else Ret (Some m)) = Ret r ∧
    match r with Some m' => accepted maxttl rc m m' | None => refused maxttl rc m end.
Proof.
  intros Hm. unfold accepted, refused. destruct (Z.land rc NN_PIPE_PARSED =? 0) eqn:E.
  2: { by exists (Some m). }
  apply Z.eqb_eq in E. unfold split_request. destruct (find_bottom_ok (body m)) as ([i|] & -> & Hi); step.
  - destruct (maxttl <? Z.of_nat (S i)) eqn:Ht.
    + apply Z.ltb_lt in Ht. exists None. split; [done|]. split; [done|]. intros j Hj.
      assert (j = i) as ->; [|done]. destruct Hi as [Hi Hlt], Hj as [Hj Hlt'].
      destruct (Nat.lt_trichotomy i j) as [|[|]]; [by destruct (Hlt' i)|done|by destruct (Hlt j)].
    + apply Z.ltb_ge in Ht. rewrite (Hm E). step.
      pose proof (bottom_at_length _ _ (proj1 Hi)). unfold trim_body.
      rewrite bool_decide_eq_true_2 by (cbn [body set_sphdr]; lia). step.
      eexists. split; [reflexivity|]. by exists i.
  - exists None. split; [done|]. split; [done|]. intros i [Hb _]. by destruct (Hi i).
Qed.

Lemma push_key_ok key hdr : push_key key hdr = Ret (be_split 4 key ++ hdr).
Proof.
  unfold push_key. rewrite Nat.add_comm. change (4 + length hdr)%nat with (S (S (S (S (length hdr))))).
  cbn [replicate]. rewrite nn_putl_be. step. by rewrite take_app_length'.
Qed.

(** ** Properties of raw reply sockets *)

Section props.
Context `{ListStoreOk T} `{PipeFinite W vmsg} `{!PipeParse W}.

(** The table [M] of the attached pipes, and the OUT flags of the writable ones. *)
Definition keys_inv (self : nn_xrep T) (w : W) (ps : gset pid) (M : gmap Z pid) : Prop :=
  ∃ σ, hrep (xrep_mem self) σ (xrep_outpipes self) M ∧ hload (xrep_outpipes self) M ∧
    (∀ x, linked σ x → x ∈ ps) ∧
    (∀ k p, M !! k = Some p → 0 ≤ k < 2 ^ 31 ∧ p ∈ ps) ∧
    (∀ p, p ∈ ps → ∃ k, M !! k = Some p) ∧
    (∀ p, p ∈ ps → xrep_flags self !! p = Some (if decide (p ∈ writable w) then NN_XREP_OUT else 0)).

Definition xrep_inv (self : nn_xrep T) (w : W) (ps : gset pid) : Prop :=
  pl_inv (xrep_inpipes self) ps (readable w) ∧ pipe_inv w ∧ ∃ M, keys_inv self w ps M.

(** The pipe that has [key]. *)
Definition owner (self : nn_xrep T) (key : Z) (p : pid) : Prop :=
  nn_hash_get (xrep_mem self) (xrep_outpipes self) key = Ret (Some p).

Lemma keys_get self w ps M k :
  keys_inv self w ps M → nn_hash_get (xrep_mem self) (xrep_outpipes self) k = Ret (M !! k).
Proof. intros (σ & Hr & _). by eapply nn_hash_get_ok. Qed.

Lemma keys_owner self w ps M k p : keys_inv self w ps M → owner self k p ↔ M !! k = Some p.
Proof. intros Hk. unfold owner. rewrite (keys_get _ _ _ _ _ Hk). split; congruence. Qed.

(** The key of an attached pipe. *)
Lemma keys_of self w ps M p :
  keys_inv self w ps M → p ∈ ps →
  ∃ k, hkeys (xrep_mem self) !! p = Some k ∧ M !! k = Some p ∧ 0 ≤ k < 2 ^ 31.
Proof.
  intros (σ & Hr & _ & _ & Hrange & Hps & _) Hp. destruct (Hps p Hp) as [k Hk].
  destruct (proj1 (hrep_map _ _ _ _ Hr k p) Hk) as [_ Hkey].
  exists k. split_and!; try done; by apply (Hrange k p).
Qed.

Lemma keys_flag self w ps M p :
  keys_inv self w ps M → p ∈ ps →
  xrep_flags self !! p = Some (if decide (p ∈ writable w) then NN_XREP_OUT else 0).
Proof. intros (σ & _ & _ & _ & _ & _ & Hf). apply Hf. Qed.

(** Only the flags and the world change. *)
Lemma keys_frame self self' w w' ps M :
  keys_inv self w ps M → xrep_mem self' = xrep_mem self → xrep_outpipes self' = xrep_outpipes self →
  (∀ p, p ∈ ps → xrep_flags self' !! p = Some (if decide (p ∈ writable w') then NN_XREP_OUT else 0)) →
  keys_inv self' w' ps M.
Proof.
  intros (σ & Hr & Hl & Hlk & Hrange & Hps & _) Em Eo Hf. exists σ. rewrite Em, Eo. by split_and!.
Qed.

Lemma xrep_room_ok self w ps M :
  keys_inv self w ps M → xrep_room self = true ↔ M !! Z.land (next_key self) 0x7fffffff = None.
Proof.
  intros Hk. unfold xrep_room. rewrite (keys_get _ _ _ _ _ Hk).
  by destruct (M !! Z.land (next_key self) 0x7fffffff).
Qed.

Lemma key_range n : 0 ≤ Z.land n 0x7fffffff < 2 ^ 31.
Proof.
  change 0x7fffffff with (Z.ones 31). rewrite Z.land_ones by lia. apply Z.mod_pos_bound. lia.
Qed.

Lemma xrep_init_inv maxttl key m s σ τ w :
  l_rep (hstore m) τ → (∀ x, ¬ linked τ x) → (∀ a i, hfresh m ≤ a → lseq τ !! (a, i) = None) →
  l_rep s σ → lseq σ = ∅ → lfree σ = ∅ → pipe_inv w →
  xrep_inv (nn_xrep_init maxttl key m s) w ∅.
Proof.
  intros Hm Hl Hfr Hs Hσ Hf Hw. unfold nn_xrep_init. destruct (nn_hash_init m) as [m' h] eqn:E.
  destruct (nn_hash_init_ok _ _ _ _ Hm Hfr E) as (τ' & Hr & Hld & _ & Hlk).
  split_and!; [by eapply pl_init|done|]. exists ∅, τ'. split_and!; try done.
  intros x Hx%Hlk. by destruct (Hl x).
Qed.

Lemma xrep_add_ok self w ps p sp rp M :
  xrep_inv self w ps → keys_inv self w ps M → xrep_room self = true → allowed w ps (C_add p sp rp) →
  ∃ self', nn_xrep_add self p rp = Ret (self', 0) ∧ xrep_inv self' w ({[p]} ∪ ps) ∧
    ∃ k, keys_inv self' w ({[p]} ∪ ps) (<[k := p]> M) ∧ M !! k = None.
Proof.
  intros (Hf & Hw & _) Hk Hroom (Hp & Hnw & Hnr & _ & Hrp & Hsz). unfold nn_xrep_add.
  apply (xrep_room_ok _ _ _ _ Hk) in Hroom. rewrite assert_prio_ok by done. step.
  destruct Hk as (σ & Hr & Hld & Hlk & Hrange & Hps & Hfl).
  set (key := Z.land (next_key self) 0x7fffffff) in *.
  assert (¬ linked σ p) as Hnl by (by intros ?%Hlk).
  destruct (nn_hash_insert_ok _ _ _ _ key p (nn_hash_item_init_ok _ _ _ _ _ Hr Hnl) Hld Hroom)
    as (m' & h' & σ' & -> & Hr' & Hld' & _ & Hlk'); [cbn; set_solver|]. step.
  assert (keys_inv (XRep (xrep_maxttl self) (u32 (next_key self + 1)) m' h' (<[p := 0]> (xrep_flags self))
    (nn_fq_add (xrep_inpipes self) p p rp)) w ({[p]} ∪ ps) (<[key := p]> M)) as Hk'.
  { exists σ'. split_and!; [done|done| | | |]; cbn.
    - intros x [(l & xs & Hl & Hx)| ->]%Hlk'; [|set_solver].
      apply elem_of_union_r, Hlk. by exists l, xs.
    - intros k q [[<- <-]|[_ Hq]]%lookup_insert_Some; [split; [apply key_range|set_solver]|].
      destruct (Hrange _ _ Hq). split; [done|set_solver].
    - intros q [->%elem_of_singleton|Hq]%elem_of_union; [exists key; by rewrite lookup_insert_eq|].
      destruct (Hps q Hq) as [k Hk]. exists k. rewrite lookup_insert_ne; [done|]. intros <-. congruence.
    - intros q [->%elem_of_singleton|Hq]%elem_of_union.
      + by rewrite lookup_insert_eq, decide_False.
      + rewrite lookup_insert_ne by (intros ->; done). by apply Hfl. }
  eexists. split; [done|]. split; [|by exists key].
  split_and!; [by apply pl_add|done|by eexists].
Qed.

Lemma xrep_rm_ok self w ps p w' M :
  xrep_inv self w ps → keys_inv self w ps M → allowed w ps (C_rm p w') →
  ∃ self', nn_xrep_rm self p = Ret self' ∧ xrep_inv self' w' (ps ∖ {[p]}) ∧
    ∃ k, keys_inv self' w' (ps ∖ {[p]}) (delete k M) ∧ M !! k = Some p.
Proof.
  intros (Hf & Hw & _) Hk (Hp & (? & _) & Hwr & Hrd). unfold nn_xrep_rm, nn_fq_rm.
  destruct (pl_rm _ _ _ _ Hf Hp) as (fq & -> & ?). step.
  destruct (keys_of _ _ _ _ _ Hk Hp) as (k & _ & HM & _).
  destruct Hk as (σ & Hr & Hld & Hlk & Hrange & Hps & Hfl).
  destruct (nn_hash_erase_ok _ _ _ _ _ _ Hr HM) as (m' & h' & σ' & -> & Hr' & Hs & Hfr & Hlk'). step.
  unfold nn_hash_item_term.
  rewrite (l_item_term_ok _ _ p (hrep_list _ _ _ _ Hr')) by set_solver. step.
  assert (keys_inv (XRep (xrep_maxttl self) (next_key self) m' h' (delete p (xrep_flags self)) fq) w'
    (ps ∖ {[p]}) (delete k M)) as Hk'.
  { exists σ'. split_and!; cbn; [done| | | | |].
    - destruct Hld; [left|right; by rewrite Hs]. rewrite Hs, map_size_delete_Some by done. lia.
    - intros x [Hx Hne]%Hlk'. apply Hlk in Hx. set_solver.
    - intros k' q [Hne Hq]%lookup_delete_Some. destruct (Hrange _ _ Hq) as [? Hqp]. split; [done|].
      apply elem_of_difference. split; [done|]. intros ->%elem_of_singleton. apply Hne.
      destruct (proj1 (hrep_map _ _ _ _ Hr _ _) HM) as [_ E1].
      destruct (proj1 (hrep_map _ _ _ _ Hr _ _) Hq) as [_ E2]. congruence.
    - intros q [Hq Hne]%elem_of_difference. destruct (Hps q Hq) as [k' Hk']. exists k'.
      rewrite lookup_delete_ne; [done|]. intros <-. rewrite HM in Hk'. injection Hk' as <-. set_solver.
    - intros q [Hq Hne]%elem_of_difference. rewrite lookup_delete_ne by set_solver.
      rewrite Hfl, Hwr by done. f_equal. destruct (decide (q ∈ writable w)), (decide (q ∈ writable w ∖ {[p]}));
        set_solver. }
  eexists. split; [done|]. split; [|by exists k].
  split_and!; [by rewrite Hrd|done|by eexists].
Qed.

Lemma xrep_in_ok self w ps p w' M :
  xrep_inv self w ps → keys_inv self w ps M → allowed w ps (C_in p w') →
  ∃ self', nn_xrep_in self p = Ret self' ∧ xrep_inv self' w' ps ∧ keys_inv self' w' ps M.
Proof.
  intros (Hf & Hw & _) Hk (Hp & Hn & (? & _) & Hwr & Hrd). unfold nn_xrep_in, nn_fq_in.
  destruct (pl_activate _ _ _ _ Hf Hp Hn) as (fq & -> & ?). step. eexists. split; [done|].
  assert (keys_inv (set_inpipes self fq) w' ps M) as Hk'.
  { eapply keys_frame; [exact Hk|done..|]. intros q Hq. rewrite Hwr. by eapply keys_flag. }
  split; [|done]. split_and!; [by rewrite Hrd|done|by eexists].
Qed.

Lemma xrep_out_ok self w ps p w' M :
  xrep_inv self w ps → keys_inv self w ps M → allowed w ps (C_out p w') →
  ∃ self', nn_xrep_out self p = Ret self' ∧ xrep_inv self' w' ps ∧ keys_inv self' w' ps M.
Proof.
  intros (Hf & Hw & _) Hk (Hp & Hn & (? & _) & Hwr & Hrd). unfold nn_xrep_out.
  rewrite (keys_flag _ _ _ _ _ Hk Hp), decide_False by done. step. eexists. split; [done|].
  assert (keys_inv (set_flags self (<[p := Z.lor 0 NN_XREP_OUT]> (xrep_flags self))) w' ps M) as Hk'.
  { eapply keys_frame; [exact Hk|done..|]. intros q Hq. cbn. rewrite Hwr.
    destruct (decide (p = q)) as [->|Hne]; [by rewrite lookup_insert_eq, decide_True by set_solver|].
    rewrite lookup_insert_ne, (keys_flag _ _ _ _ _ Hk Hq) by done. f_equal.
    destruct (decide (q ∈ writable w)), (decide (q ∈ {[p]} ∪ writable w)); set_solver. }
  split; [|done]. split_and!; [by rewrite Hrd|done|by eexists].
Qed.

Lemma xrep_term_ok self w : xrep_inv self w ∅ → nn_xrep_term self = Ret tt.
Proof.
  intros (Hf & _ & M & σ & Hr & _ & _ & Hrange & _). unfold nn_xrep_term, nn_fq_term.
  rewrite (pl_term _ _ Hf). step. assert (M = ∅) as ->; [|by eapply nn_hash_term_ok].
  apply map_empty. intros k. destruct (M !! k) as [p|] eqn:E; [|done].
  destruct (Hrange _ _ E). set_solver.
Qed.

(** A reply is routed by its key, or dropped when no attached writable pipe has
    the key. *)
Lemma xrep_send_ok self w ps m M :
  xrep_inv self w ps → keys_inv self w ps M →
  ∃ self' w', nn_xrep_send self w m = Ret (self', w', 0) ∧ xrep_inv self' w' ps ∧
    keys_inv self' w' ps M ∧ recvd w' = recvd w ∧
    ((self' = self ∧ w' = w ∧
        ∀ k p, nn_getl (sphdr m) = Ret k → owner self k p → p ∉ writable w) ∨
     ∃ k p, nn_getl (sphdr m) = Ret k ∧ owner self k p ∧ p ∈ ps ∧ p ∈ writable w ∧
       sent w' = sent w ++ [(p, set_sphdr m (drop 4 (sphdr m)))]).
Proof.
  intros Hi Hk. pose proof Hi as (Hf & Hw & _). unfold nn_xrep_send. case_decide as Hlen.
  { exists self, w. split_and!; try done. left. split_and!; try done. intros k p Hg.
    destruct (sphdr m) as [|a [|b [|c [|d l]]]]; try done. cbn in Hlen. lia. }
  destruct (nn_getl_total (sphdr m)) as [key Hkey]; [lia|]. rewrite Hkey. step.
  rewrite (keys_get _ _ _ _ _ Hk). step. destruct (M !! key) as [p|] eqn:HM.
  2: { exists self, w. split_and!; try done. left. split_and!; try done.
       intros k p [= <-] Ho%(keys_owner _ _ _ _ _ _ Hk). congruence. }
  assert (p ∈ ps) as Hp by (destruct Hk as (σ & _ & _ & _ & Hrange & _); by apply (Hrange key p)).
  rewrite (keys_flag _ _ _ _ _ Hk Hp). step. destruct (decide (p ∈ writable w)) as [Hpw|Hpw].
  2: { exists self, w. split_and!; try done. left. split_and!; try done.
       intros k q [= <-] Ho%(keys_owner _ _ _ _ _ _ Hk). congruence. }
  cbn [Z.land NN_XREP_OUT Pos.land Z.eqb].
  destruct (pipe_send_ok w p (set_sphdr m (drop 4 (sphdr m))) Hw Hpw)
    as (w' & rc & -> & Hw' & Hrc & Hs & Hrv & Hwr & Hrd). step.
  rewrite (proj2 (Z.leb_le 0 rc)) by (unfold NN_PIPE_RELEASE in *; lia). step.
  set (f := if Z.land rc NN_PIPE_RELEASE =? 0 then NN_XREP_OUT else Z.land NN_XREP_OUT (Z.lnot NN_XREP_OUT)).
  assert (keys_inv (set_flags self (<[p := f]> (xrep_flags self))) w' ps M) as Hk'.
  { eapply keys_frame; [exact Hk|done..|]. intros q Hq. cbn.
    destruct (decide (p = q)) as [<-|Hne].
    - rewrite lookup_insert_eq. f_equal. unfold f, released in *. rewrite Hwr.
      destruct (Z.land rc NN_PIPE_RELEASE =? 0); cbn; [by rewrite decide_True|].
      by rewrite decide_False by set_solver.
    - rewrite lookup_insert_ne, (keys_flag _ _ _ _ _ Hk Hq) by done. f_equal.
      assert (q ∈ writable w ↔ q ∈ writable w') as Hqw by (rewrite Hwr; destruct (released rc); set_solver).
      destruct (decide (q ∈ writable w)), (decide (q ∈ writable w')); tauto. }
  eexists _, w'. split; [done|]. split; [|split; [done|]].
  - split_and!; [by rewrite Hrd|done|by eexists].
  - split; [done|]. right. exists key, p. split_and!; try done. by apply (keys_owner _ _ _ _ _ _ Hk).
Qed.

Lemma unrelease_parsed rc : Z.land (unrelease rc) NN_PIPE_PARSED = Z.land rc NN_PIPE_PARSED.
Proof. unfold unrelease. by rewrite <- Z.land_assoc. Qed.

(** A receive takes one message.  A request comes with the key of its pipe on
    top of its backtrace. *)
Lemma xrep_recv_ok self w ps M :
  xrep_inv self w ps → keys_inv self w ps M →
  ∃ self' w', xrep_inv self' w' ps ∧ keys_inv self' w' ps M ∧ sent w' = sent w ∧
    writable w' = writable w ∧
    ((nn_xrep_recv self w = Ret (self', w', - EAGAIN, None) ∧ recvd w' = recvd w ∧
        (∀ x, x ∈ ps → x ∉ readable w)) ∨
     (∃ p rc m, nn_xrep_recv self w = Ret (self', w', - EAGAIN, None) ∧ p ∈ ps ∧
        recvd w' = recvd w ++ [(p, m)] ∧ refused (xrep_maxttl self) rc m) ∨
     (∃ p rc m m' k, p ∈ ps ∧ recvd w' = recvd w ++ [(p, m)] ∧
        accepted (xrep_maxttl self) rc m m' ∧ owner self' k p ∧ 0 ≤ k < 2 ^ 31 ∧
        nn_xrep_recv self w = Ret (self', w', 0, Some (set_sphdr m' (be_split 4 k ++ sphdr m'))))).
Proof.
  intros (Hf & Hw & _) Hk. unfold nn_xrep_recv.
  destruct (pl_recv _ _ _ Hf Hw) as [(_ & Hn & ->)|(_ & fq & w' & rc0 & rc & p & m & Hpr & Hrc0 & -> &
    Hp & Hpw & Hrc & Hw' & Hf' & Hrv & Hs & Hwr)]; step.
  - assert (keys_inv (set_inpipes self (xrep_inpipes self)) w ps M) as Hk' by by destruct self.
    exists (set_inpipes self (xrep_inpipes self)), w. split_and!; [|done..|by left].
    split_and!; [done|done|by eexists].
  - rewrite (proj2 (Z.ltb_ge rc 0)) by lia. set (self' := set_inpipes self fq).
    assert (keys_inv self' w' ps M) as Hk'.
    { eapply keys_frame; [exact Hk|done..|]. intros q Hq. rewrite Hwr. by eapply keys_flag. }
    exists self', w'. split; [split_and!; [done|done|by eexists]|]. split; [done|]. split; [done|].
    split; [done|]. right. cbn [fst snd].
    destruct (split_request_ok (xrep_maxttl self) rc m) as (r & E & Hr).
    { rewrite Hrc0, unrelease_parsed. intros Hz. exact (parse_ok _ _ _ _ _ Hw Hpw Hpr Hz). }
    destruct (keys_of _ _ _ _ _ Hk' Hp) as (k & Hkey & HM & Hrange).
    change (xrep_maxttl self') with (xrep_maxttl self). rewrite E. step. destruct r as [m'|].
    + right. exists p, rc, m, m', k. split_and!; [done..| |apply Hrange|apply Hrange|].
      * by apply (keys_owner _ _ _ _ _ _ Hk').
      * unfold get_key. rewrite Hkey. step. by rewrite push_key_ok.
    + left. by exists p, rc, m.
Qed.

Lemma xrep_env self w ps w' :
  xrep_inv self w ps → env w w' → writable w' = writable w → readable w' = readable w →
  xrep_inv self w' ps.
Proof.
  intros (Hi & _ & M & Hk) (Hw & _) Hwr Hrd. split_and!; [by rewrite Hrd|done|].
  exists M. eapply keys_frame; [exact Hk|done..|]. intros p Hp. rewrite Hwr. exact (keys_flag _ _ _ _ _ Hk Hp).
Qed.

#[export] Program Instance xrep_proto_ok : ProtoOk (nn_xrep T) W vmsg := {| proto_inv := xrep_inv |}.
Next Obligation.
  intros self w ps p sp rp Hi Hroom Ha. pose proof Hi as (_ & _ & M & Hk).
  destruct (xrep_add_ok _ _ _ _ _ _ _ Hi Hk Hroom Ha) as (self' & E & ? & _). by exists self', 0.
Qed.
Next Obligation.
  intros self w ps p w' Hi Ha. pose proof Hi as (_ & _ & M & Hk).
  destruct (xrep_rm_ok _ _ _ _ _ _ Hi Hk Ha) as (self' & E & ? & _). by exists self'.
Qed.
Next Obligation.
  intros fuel self w ps p w' _ Hi Ha _. pose proof Hi as (_ & _ & M & Hk).
  destruct (xrep_in_ok _ _ _ _ _ _ Hi Hk Ha) as (self' & E & ? & _).
  cbn. rewrite E. by exists self', w'.
Qed.
Next Obligation.
  intros self w ps p w' Hi Ha. pose proof Hi as (_ & _ & M & Hk).
  destruct (xrep_out_ok _ _ _ _ _ _ Hi Hk Ha) as (self' & E & ? & _).
  cbn. rewrite E. by exists self', w'.
Qed.
Next Obligation.
  intros self w ps m Hi _. pose proof Hi as (_ & _ & M & Hk).
  destruct (xrep_send_ok _ _ _ m _ Hi Hk) as (self' & w' & E & ? & _). by exists self', w', 0.
Qed.
Next Obligation.
  intros fuel self w ps Hi _. pose proof Hi as (_ & _ & M & Hk).
  destruct (xrep_recv_ok _ _ _ _ Hi Hk) as (self' & w' & ? & _ & _ & _ &
    [(E & _)|[(p & rc & m & E & _)|(p & rc & m & m' & k & _ & _ & _ & _ & _ & E)]]);
    cbn; rewrite E; by eexists self', w', _, _.
Qed.
Next Obligation. intros self w Hi. exact (xrep_term_ok _ _ Hi). Qed.
Next Obligation. intros self w ps w' Hi He Hwr Hrd. exact (xrep_env _ _ _ _ Hi He Hwr Hrd). Qed.
Next Obligation. intros self w ps _. cbn. unfold nn_xrep_events. by case_match. Qed.

(** ** Properties of cooked reply sockets *)

Definition rep_inv (self : nn_rep T) (w : W) (ps : gset pid) : Prop :=
  xrep_inv (rep_xrep self) w ps ∧ (rep_flags self = 0 ∨ rep_flags self = NN_REP_INPROGRESS).

(** The socket owes an answer to [p], to be sent with header [bt]. *)
Definition answers (self : nn_rep T) (p : pid) (bt : list Z) : Prop :=
  in_progress self = true ∧
  ∃ k, 0 ≤ k < 2 ^ 31 ∧ owner (rep_xrep self) k p ∧ rep_backtrace self = be_split 4 k ++ bt.

(** An answer goes to the pipe that is owed it, if that is still attached and
    writable; otherwise it is dropped. *)
Lemma rep_send_ok self w ps m :
  rep_inv self w ps → sphdr m = [] →
  ∃ self' w', rep_inv self' w' ps ∧ recvd w' = recvd w ∧
    in_progress self' = false ∧
    (if in_progress self then nn_rep_send self w m = Ret (self', w', 0)
     else nn_rep_send self w m = Ret (self', w', - EFSM) ∧ self' = self ∧ w' = w) ∧
    ∀ p bt, answers self p bt →
      if decide (p ∈ writable w) then sent w' = sent w ++ [(p, set_sphdr m bt)] else w' = w.
Proof.
  intros [Hi Hfl] Hm. unfold nn_rep_send. destruct (in_progress self) eqn:Hp; cbn [negb].
  2: { exists self, w. split_and!; try done. intros p bt [? _]. congruence. }
  rewrite Hm. cbn [length]. step. pose proof Hi as (_ & _ & M & Hk).
  destruct (xrep_send_ok _ _ _ (set_sphdr m (rep_backtrace self)) _ Hi Hk)
    as (xrep & w' & -> & Hi' & _ & Hrv & Hs). step.
  exists (Rep xrep (Z.land (rep_flags self) (Z.lnot NN_REP_INPROGRESS)) []), w'.
  assert (Z.land (rep_flags self) (Z.lnot NN_REP_INPROGRESS) = 0) as Ef by by destruct Hfl as [-> | ->].
  split; [by split; [|left]|]. split; [done|]. split; [by unfold in_progress; cbn; rewrite Ef|].
  split; [done|].
  intros p bt (_ & k & Hkr & Ho & Hbt). cbn [sphdr set_sphdr] in Hs. rewrite Hbt in Hs.
  assert (nn_getl (be_split 4 k ++ bt) = Ret k) as Hg by (apply nn_getl_split; lia).
  destruct Hs as [(-> & -> & Hn)|(k' & p' & Hg' & Ho' & _ & Hpw & Hs)].
  - by rewrite decide_False by eauto.
  - assert (k' = k) as -> by congruence. assert (p' = p) as ->.
    { apply (keys_owner _ _ _ _ _ _ Hk) in Ho, Ho'. congruence. }
    by rewrite decide_True, Hs.
Qed.

(** A receive cancels the request in progress.  When it returns a request, its
    pipe is owed the answer. *)
Lemma rep_recv_ok self w ps :
  rep_inv self w ps →
  ∃ self' w', rep_inv self' w' ps ∧ sent w' = sent w ∧ writable w' = writable w ∧
    let ttl := xrep_maxttl (rep_xrep self) in
    ((nn_rep_recv self w = Ret (self', w', - EAGAIN, None) ∧ in_progress self' = false ∧
        ((recvd w' = recvd w ∧ ∀ x, x ∈ ps → x ∉ readable w) ∨
         ∃ p rc m, p ∈ ps ∧ recvd w' = recvd w ++ [(p, m)] ∧ refused ttl rc m)) ∨
     (∃ p rc m m', nn_rep_recv self w = Ret (self', w', 0, Some (set_sphdr m' [])) ∧ p ∈ ps ∧
        recvd w' = recvd w ++ [(p, m)] ∧ accepted ttl rc m m' ∧ answers self' p (sphdr m'))).
Proof.
  intros [Hi Hfl]. unfold nn_rep_recv. pose proof Hi as (_ & _ & M & Hk).
  set (self0 := if in_progress self then _ else self).
  assert (rep_xrep self0 = rep_xrep self ∧ rep_flags self0 = 0) as [Ex Ef].
  { unfold self0, in_progress. by destruct Hfl as [Ef | Ef]; rewrite Ef. }
  rewrite Ex, Ef.
  destruct (xrep_recv_ok _ _ _ _ Hi Hk) as (xrep & w' & Hi' & _ & Hs & Hwr & Hr).
  destruct Hr as [(-> & ? & ?)|[(p & rc & m & -> & ? & ? & ?)|(p & rc & m & m' & k & Hp & Hrv & Hacc & Ho & Hkr & ->)]];
    step.
  - exists (Rep xrep 0 (rep_backtrace self0)), w'. split; [by split; [exact Hi'|left]|]. split; [done|]. split; [done|]. left.
    split; [done|]. split; [done|]. by left.
  - exists (Rep xrep 0 (rep_backtrace self0)), w'. split; [by split; [exact Hi'|left]|]. split; [done|]. split; [done|]. left.
    split; [done|]. split; [done|]. right. by exists p, rc, m.
  - exists (Rep xrep (Z.lor 0 NN_REP_INPROGRESS) (be_split 4 k ++ sphdr m')), w'. split; [by split; [exact Hi'|right]|]. split; [done|]. split; [done|]. right.
    exists p, rc, m, m'. split; [done|]. split; [done|]. split; [done|]. split; [done|].
    split; [done|]. by exists k.
Qed.

(** The calls that do not send or receive keep the request in progress, and the
    keys of all pipes but the one removed. *)
Definition keeps (c : call W vmsg) (p : pid) : Prop :=
  match c with C_rm q _ => q ≠ p | C_send _ | C_recv => False | _ => True end.

Lemma xrep_other_ok self w ps c M :
  xrep_inv self w ps → keys_inv self w ps M → legal self c → allowed w ps c →
  match c with
  | C_send _ | C_recv => True
  | C_add p sp rp => ∃ self', nn_xrep_add self p rp = Ret (self', 0) ∧ xrep_inv self' w ({[p]} ∪ ps) ∧
      ∀ k q, owner self k q → owner self' k q
  | C_rm p w' => ∃ self', nn_xrep_rm self p = Ret self' ∧ xrep_inv self' w' (ps ∖ {[p]}) ∧
      ∀ k q, q ≠ p → owner self k q → owner self' k q
  | C_in p w' => ∃ self', nn_xrep_in self p = Ret self' ∧ xrep_inv self' w' ps ∧
      ∀ k q, owner self k q → owner self' k q
  | C_out p w' => ∃ self', nn_xrep_out self p = Ret self' ∧ xrep_inv self' w' ps ∧
      ∀ k q, owner self k q → owner self' k q
  end.
Proof.
  intros Hi Hk Hl Ha. destruct c as [p sp rp|p w'|p w'|p w'|m|]; try done.
  - destruct (xrep_add_ok _ _ _ _ _ _ _ Hi Hk Hl Ha) as (self' & E & ? & k0 & Hk' & HM).
    exists self'. split_and!; [done..|]. intros k q Ho. apply (keys_owner _ _ _ _ _ _ Hk) in Ho.
    apply (keys_owner _ _ _ _ _ _ Hk'). rewrite lookup_insert_ne; congruence.
  - destruct (xrep_rm_ok _ _ _ _ _ _ Hi Hk Ha) as (self' & E & ? & k0 & Hk' & HM).
    exists self'. split_and!; [done..|]. intros k q Hq Ho. apply (keys_owner _ _ _ _ _ _ Hk) in Ho.
    apply (keys_owner _ _ _ _ _ _ Hk'). rewrite lookup_delete_ne; congruence.
  - destruct (xrep_in_ok _ _ _ _ _ _ Hi Hk Ha) as (self' & E & ? & Hk').
    exists self'. split_and!; [done..|]. intros k q Ho. apply (keys_owner _ _ _ _ _ _ Hk) in Ho.
    by apply (keys_owner _ _ _ _ _ _ Hk').
  - destruct (xrep_out_ok _ _ _ _ _ _ Hi Hk Ha) as (self' & E & ? & Hk').
    exists self'. split_and!; [done..|]. intros k q Ho. apply (keys_owner _ _ _ _ _ _ Hk) in Ho.
    by apply (keys_owner _ _ _ _ _ _ Hk').
Qed.

Lemma rep_other_ok self w ps c :
  rep_inv self w ps → legal self c → allowed w ps c → c ≠ C_recv → (∀ m, c ≠ C_send m) →
  ∃ self' w' ps', call_step (self, w, ps) c = Ret (self', w', ps') ∧ rep_inv self' w' ps' ∧
    ∀ p bt, keeps c p → answers self p bt → answers self' p bt.
Proof.
  intros [Hi Hfl] Hl Ha Hr Hs. pose proof Hi as (_ & _ & M & Hk).
  assert (legal (rep_xrep self) c) as Hl' by (destruct c; done || by destruct (Hs m)).
  pose proof (xrep_other_ok _ _ _ c M Hi Hk Hl' Ha) as H'.
  destruct c as [p sp rp|p w'|p w'|p w'|m|]; [| | | |by destruct (Hs m)|done];
    destruct H' as (x & E & Hi' & Ho); cbn; rewrite E; step; cbn [Z.eqb];
    (eexists (Rep x (rep_flags self) (rep_backtrace self)), _, _; split; [reflexivity|];
     split; [by split|]; intros q bt Hq (Hp & k & Hkr & Hko & Hbt);
     split; [exact Hp|]; exists k; split; [exact Hkr|]; split; [|exact Hbt]; by apply Ho).
Qed.

#[export] Program Instance rep_proto_ok : ProtoOk (nn_rep T) W vmsg := {| proto_inv := rep_inv |}.
Next Obligation.
  intros self w ps p sp rp [Hi Hfl] Hroom Ha. pose proof Hi as (_ & _ & M & Hk).
  destruct (xrep_add_ok _ _ _ _ _ _ _ Hi Hk Hroom Ha) as (x & E & ? & _). cbn. rewrite E.
  by exists (Rep x (rep_flags self) (rep_backtrace self)), 0.
Qed.
Next Obligation.
  intros self w ps p w' [Hi Hfl] Ha. pose proof Hi as (_ & _ & M & Hk).
  destruct (xrep_rm_ok _ _ _ _ _ _ Hi Hk Ha) as (x & E & ? & _). cbn. rewrite E.
  by exists (Rep x (rep_flags self) (rep_backtrace self)).
Qed.
Next Obligation.
  intros fuel self w ps p w' _ [Hi Hfl] Ha _. pose proof Hi as (_ & _ & M & Hk).
  destruct (xrep_in_ok _ _ _ _ _ _ Hi Hk Ha) as (x & E & ? & _). cbn. rewrite E.
  by exists (Rep x (rep_flags self) (rep_backtrace self)), w'.
Qed.
Next Obligation.
  intros self w ps p w' [Hi Hfl] Ha. pose proof Hi as (_ & _ & M & Hk).
  destruct (xrep_out_ok _ _ _ _ _ _ Hi Hk Ha) as (x & E & ? & _). cbn. rewrite E.
  by exists (Rep x (rep_flags self) (rep_backtrace self)), w'.
Qed.
Next Obligation.
  intros self w ps m Hi Hm. apply bool_decide_eq_true_1 in Hm.
  destruct (rep_send_ok _ _ _ m Hi Hm) as (self' & w' & ? & _ & _ & E & _).
  destruct (in_progress self); [by exists self', w', 0|].
  destruct E as [E _]. by exists self', w', (- EFSM).
Qed.
Next Obligation.
  intros fuel self w ps Hi _.
  destruct (rep_recv_ok _ _ _ Hi) as (self' & w' & ? & _ & _ & [(E & _)|(p & rc & m & m' & E & _)]);
    cbn; rewrite E; by eexists self', w', _, _.
Qed.
Next Obligation. intros self w [Hi _]. exact (xrep_term_ok _ _ Hi). Qed.
Next Obligation. intros self w ps w' [Hi Hf] He Hwr Hrd. split; [exact (xrep_env _ _ _ _ Hi He Hwr Hrd)|done]. Qed.
Next Obligation. intros self w ps _. cbn. unfold nn_rep_events, nn_xrep_events. by repeat case_match. Qed.

Section sessions.
Context (ttl key : Z) (m0 : hmem T) (τ0 : lspec) (s0 : T) (σ0 : lspec) (w0 : W).
Context (Hm0 : l_rep (hstore m0) τ0) (Hlk0 : ∀ x, ¬ linked τ0 x).
Context (Hfr0 : ∀ a i, hfresh m0 ≤ a → lseq τ0 !! (a, i) = None).
Context (Hr0 : l_rep s0 σ0) (He0 : lseq σ0 = ∅) (Hf0 : lfree σ0 = ∅) (Hw0 : pipe_inv w0).

(** C35: a reply socket answers the pipe that asked.  In every session (no more
    than 2^31 pipes share the key space, and the user sends no header): every
    call returns and the socket can be destroyed once its pipes are gone.  A
    receive cancels the request in progress and takes one message: it returns
    0 and the body of a well-formed request with at most NN_MAXTTL hops, whose
    pipe is then owed an answer with the request's backtrace, or -EAGAIN.  Adding,
    removing and waking other pipes does not change who is owed the answer.  A
    send without a request in progress is refused with -EFSM; otherwise it
    succeeds, ends the request, and hands the answer to the pipe that is owed it
    and to no other, or drops it if that pipe is not writable. *)
Theorem rep_session s w ps c m :
  reach (M := vmsg) (nn_rep_init ttl key m0 s0) w0 (s, w, ps) →
  legal (W := W) (M := vmsg) s c → allowed w ps c → sphdr m = [] →
  (∃ s' w' ps', call_step (s, w, ps) c = Ret (s', w', ps') ∧
     ∀ p bt, keeps c p → answers s p bt → answers s' p bt) ∧
  (ps = ∅ → nn_rep_destroy s = Ret tt) ∧
  (if in_progress s then
     ∃ s' w', nn_rep_send s w m = Ret (s', w', 0) ∧ in_progress s' = false ∧
       ∀ p bt, answers s p bt →
         if decide (p ∈ writable w) then sent w' = sent w ++ [(p, set_sphdr m bt)] else w' = w
   else nn_rep_send s w m = Ret (s, w, - EFSM)) ∧
  (∃ s' w', sent w' = sent w ∧
    ((nn_rep_recv s w = Ret (s', w', - EAGAIN, None) ∧ in_progress s' = false ∧
        ((recvd w' = recvd w ∧ ∀ x, x ∈ ps → x ∉ readable w) ∨
         ∃ p rc r, p ∈ ps ∧ recvd w' = recvd w ++ [(p, r)] ∧ refused (xrep_maxttl (rep_xrep s)) rc r)) ∨
     (∃ p rc r r', nn_rep_recv s w = Ret (s', w', 0, Some (set_sphdr r' [])) ∧ p ∈ ps ∧
        recvd w' = recvd w ++ [(p, r)] ∧ accepted (xrep_maxttl (rep_xrep s)) rc r r' ∧
        answers s' p (sphdr r')))).
Proof.
  intros Hreach Hl Ha Hm.
  assert (proto_inv (M := vmsg) (nn_rep_init ttl key m0 s0) w0 ∅) as Hi0.
  { split; [|by left]. by eapply xrep_init_inv. }
  pose proof (reach_inv _ _ _ Hi0 Hreach : rep_inv s w ps) as Hi.
  destruct (session_safe _ _ _ _ _ _ Hi0 Hreach Hl Ha) as [([[s1 w1] ps1] & E & _) Hd].
  split_and!; [|exact Hd| |].
  - destruct (match c with C_recv | C_send _ => true | _ => false end) eqn:Hc.
    + exists s1, w1, ps1. split; [exact E|]. by destruct c.
    + destruct (rep_other_ok s w ps c Hi Hl Ha) as (s' & w' & ps' & ? & _ & ?); [by destruct c..|].
      by exists s', w', ps'.
  - destruct (rep_send_ok _ _ _ _ Hi Hm) as (s' & w' & _ & _ & Hp & Es & Hs).
    destruct (in_progress s); [by exists s', w'|]. by destruct Es as (? & -> & ->).
  - destruct (rep_recv_ok _ _ _ Hi) as (s' & w' & _ & ? & _ & Hr). by exists s', w'.
Qed.

End sessions.
End props.

(** ** Examples *)

Module RepSample.

Definition mem0 : hmem Ptr.store := HMem Ptr.empty_store ∅ 0.
Definition rep0 : nn_rep Ptr.store := nn_rep_init 8 0x7fffffff mem0 Ptr.empty_store.

(** A request that passed through one device: the key the device gave to its
    requester, then the request id with the high bit, then the body. *)
Definition request : vmsg := VMsg [] [] [0; 0; 0; 5; 128; 0; 0; 1; 104; 105].
Definition answer : vmsg := VMsg [] [] [111; 107].

(** Pipes 2 and 3 connect; 3 becomes readable and its request is received. *)
Definition rep_script : list (toy vmsg → call (toy vmsg) vmsg) :=
  [λ _, C_add 2 8 8; λ _, C_add 3 8 8; λ w, C_out 2 (toy_ready w 2); λ w, C_out 3 (toy_ready w 3);
   λ w, C_in 3 (toy_arrive w 3 [request]); λ _, C_recv].

End RepSample.

Lemma rep_session_witness :
  ∃ s w ps, script (RepSample.rep0, toy_empty, ∅) RepSample.rep_script = Ret (s, w, ps) ∧
    in_progress s = true ∧
    ∃ s' w', nn_rep_send s w RepSample.answer = Ret (s', w', 0) ∧
      ∀ p bt, answers s p bt →
        if decide (p ∈ t_out w) then t_sent w' = t_sent w ++ [(p, set_sphdr RepSample.answer bt)]
        else w' = w.
Proof.
  destruct (ret_check_ok (λ σ, in_progress σ.1.1)
    (script (RepSample.rep0, toy_empty, ∅) RepSample.rep_script))
    as ([[s w] ps] & E & Hp); [vm_compute; reflexivity|].
  cbn [fst] in Hp. exists s, w, ps. split; [exact E|]. split; [exact Hp|].
  destruct (rep_session (H0 := Ptr.ptr_store_ok) 8 0x7fffffff RepSample.mem0 (LSpec ∅ ∅)
    Ptr.empty_store (LSpec ∅ ∅) toy_empty Ptr.rep_empty) with (s := s) (w := w) (ps := ps) (c := C_recv (W := toy vmsg) (M := vmsg))
    (m := RepSample.answer) as (_ & _ & Hs & _).
  - intros x (l & xs & Hl & _). cbn in Hl. rewrite lookup_empty in Hl. discriminate.
  - intros a i _. apply lookup_empty.
  - exact Ptr.rep_empty.
  - reflexivity.
  - reflexivity.
  - exact toy_empty_inv.
  - exact (script_reach _ _ _ _ _ (reach_start _ _) E).
  - exact I.
  - exact I.
  - reflexivity.
  - rewrite Hp in Hs. destruct Hs as (s' & w' & Es & _ & Hsent). exists s', w'. exact (conj Es Hsent).
Defined.

(** The answer of the example goes back to pipe 3, with the request's header. *)
Lemma rep_sample_run :
  ret_check (λ σ, ret_check (λ r, bool_decide (t_sent r.1.2 =
      [(3%positive, VMsg [0; 0; 0; 5; 128; 0; 0; 1] [] [111; 107])]))
    (nn_rep_send σ.1.1 σ.1.2 RepSample.answer))
    (script (RepSample.rep0, toy_empty, ∅) RepSample.rep_script) = true.
Proof. vm_compute. reflexivity. Qed.
