(* ===== verification/Fsm.v ===== *)
(** * aio/fsm.c and aio/timer.c: state machines and timers

    A state machine is a state with a life cycle (idle, active, stopping) and two
    handlers, for events before and after it was asked to stop.  A timer is such
    a machine: its owner starts and stops it, and the worker thread executes the
    tasks the timer posts and reports the expiry.  [tm_events] is the part of the
    context's event queue that the timer raised and its owner has not processed
    yet; [tm_tasks] and [tm_wtimer] are what the worker thread holds for it. *)
From S2P Require Import Prelude.

Definition NN_FSM_ACTION : Z := -2.
Definition NN_FSM_START : Z := -2.
Definition NN_FSM_STOP : Z := -3.

Definition NN_FSM_STATE_IDLE : Z := 1.
Definition NN_FSM_STATE_ACTIVE : Z := 2.
Definition NN_FSM_STATE_STOPPING : Z := 3.

(** The object an event comes from, as far as a handler looks at it. *)
Inductive srcptr : Set := P_null | P_task | P_wtimer | P_timer | P_ep (e : positive) | P_pipe (p : positive).

(** [nn_fsm_bad_action], [nn_fsm_bad_source] and [nn_fsm_bad_state] print the
    three numbers and abort. *)
Definition nn_fsm_bad {A} (state src type : Z) : outcome A := Fail Abort.

(** ** fsm.c, for any machine [S]

    [stopped_active] is [nn_fsm_event_active (&self->stopped)]. *)
Section fsm.
Context {S : Type} (state : S → Z) (set_state : S → Z → S) (stopped_active : S → bool).
Context (fn shutdown_fn : S → Z → Z → srcptr → outcome S).

Definition nn_fsm_feed (self : S) (src type : Z) (ptr : srcptr) : outcome S :=
  if negb (state self =? NN_FSM_STATE_STOPPING) then fn self src type ptr
  else shutdown_fn self src type ptr.

Definition nn_fsm_isidle (self : S) : bool :=
  (state self =? NN_FSM_STATE_IDLE) && negb (stopped_active self).

Definition nn_fsm_term (self : S) : outcome unit := nn_assert (nn_fsm_isidle self).

Definition nn_fsm_start (self : S) : outcome S :=
  nn_assert (nn_fsm_isidle self);;
  self ← fn self NN_FSM_ACTION NN_FSM_START P_null;
  Ret (set_state self NN_FSM_STATE_ACTIVE).

Definition nn_fsm_stop (self : S) : outcome S :=
  if negb (state self =? NN_FSM_STATE_ACTIVE) then Ret self
  else shutdown_fn (set_state self NN_FSM_STATE_STOPPING) NN_FSM_ACTION NN_FSM_STOP P_null.

Definition nn_fsm_stopped_noevent (self : S) : outcome S :=
  nn_assert (state self =? NN_FSM_STATE_STOPPING);;
  Ret (set_state self NN_FSM_STATE_IDLE).

(** [raise] is [nn_fsm_raise (self, &self->stopped, type)]. *)
Definition nn_fsm_stopped (raise : S → Z → outcome S) (self : S) (type : Z) : outcome S :=
  nn_assert (state self =? NN_FSM_STATE_STOPPING);;
  self ← raise self type;
  Ret (set_state self NN_FSM_STATE_IDLE).

Definition nn_fsm_action (self : S) (type : Z) : outcome S :=
  nn_assert (0 <? type);;
  nn_fsm_feed self NN_FSM_ACTION type P_null.

End fsm.

(** ** timer.c *)

Definition NN_TIMER_TIMEOUT : Z := 1.
Definition NN_TIMER_STOPPED : Z := 2.

Definition NN_TIMER_STATE_IDLE : Z := 1.
Definition NN_TIMER_STATE_ACTIVE : Z := 2.
Definition NN_TIMER_STATE_STOPPING : Z := 3.

Definition NN_TIMER_SRC_START_TASK : Z := 1.
Definition NN_TIMER_SRC_STOP_TASK : Z := 2.

Definition NN_WORKER_TIMER_TIMEOUT : Z := 1.
Definition NN_WORKER_TASK_EXECUTE : Z := 1.

(** The worker's view of the wtimer: not in the timer set; in it, due after the
    given time; or taken out of it because it expired, with the worker about to
    enter the context and deliver the timeout. *)
Inductive wtimer : Set := WT_idle | WT_set (due : Z) | WT_expired.

#[export] Instance wtimer_eq_dec : EqDecision wtimer.
Proof. solve_decision. Defined.

Record nn_timer := NnTimer {
  tm_fsm : Z;                 (* fsm.state *)
  tm_state : Z;
  tm_timeout : Z;
  tm_tasks : list Z;          (* the worker's queue, tasks by their source *)
  tm_wtimer : wtimer;
  tm_events : list Z;         (* raised to the owner, by their type *)
}.

#[export] Instance nn_timer_eq_dec : EqDecision nn_timer.
Proof. solve_decision. Defined.

Definition set_tm_fsm (t : nn_timer) (s : Z) : nn_timer :=
  NnTimer s (tm_state t) (tm_timeout t) (tm_tasks t) (tm_wtimer t) (tm_events t).
Definition set_tm_state (t : nn_timer) (s : Z) : nn_timer :=
  NnTimer (tm_fsm t) s (tm_timeout t) (tm_tasks t) (tm_wtimer t) (tm_events t).
Definition set_tm_timeout (t : nn_timer) (ms : Z) : nn_timer :=
  NnTimer (tm_fsm t) (tm_state t) ms (tm_tasks t) (tm_wtimer t) (tm_events t).
Definition set_tm_tasks (t : nn_timer) (ts : list Z) : nn_timer :=
  NnTimer (tm_fsm t) (tm_state t) (tm_timeout t) ts (tm_wtimer t) (tm_events t).
Definition set_tm_wtimer (t : nn_timer) (w : wtimer) : nn_timer :=
  NnTimer (tm_fsm t) (tm_state t) (tm_timeout t) (tm_tasks t) w (tm_events t).
Definition set_tm_events (t : nn_timer) (es : list Z) : nn_timer :=
  NnTimer (tm_fsm t) (tm_state t) (tm_timeout t) (tm_tasks t) (tm_wtimer t) es.

(** The calls into the worker and the context: a queue item that is pushed must
    not be in a queue. *)
Definition nn_worker_execute (t : nn_timer) (task : Z) : outcome nn_timer :=
  nn_assert (bool_decide (task ∉ tm_tasks t));;
  Ret (set_tm_tasks t (tm_tasks t ++ [task])).

Definition nn_worker_add_timer (t : nn_timer) (timeout : Z) : outcome nn_timer :=
  nn_assert (bool_decide (tm_wtimer t = WT_idle));;
  Ret (set_tm_wtimer t (WT_set timeout)).

Definition nn_worker_rm_timer (t : nn_timer) : nn_timer :=
  match tm_wtimer t with WT_set _ => set_tm_wtimer t WT_idle | _ => t end.

Definition nn_fsm_raise (t : nn_timer) (type : Z) : outcome nn_timer :=
  nn_assert (bool_decide (type ∉ tm_events t));;
  Ret (set_tm_events t (tm_events t ++ [type])).

Definition timer_stopped_active (t : nn_timer) : bool :=
  bool_decide (NN_TIMER_STOPPED ∈ tm_events t).

Definition nn_timer_shutdown (self : nn_timer) (src type : Z) (ptr : srcptr) : outcome nn_timer :=
  if (src =? NN_FSM_ACTION) && (type =? NN_FSM_STOP) then
    nn_worker_execute (set_tm_state self NN_TIMER_STATE_STOPPING) NN_TIMER_SRC_STOP_TASK
  else if tm_state self =? NN_TIMER_STATE_STOPPING then
    if negb (src =? NN_TIMER_SRC_STOP_TASK) then Ret self
    else
      nn_assert (type =? NN_WORKER_TASK_EXECUTE);;
      let self := set_tm_state (nn_worker_rm_timer self) NN_TIMER_STATE_IDLE in
      nn_fsm_stopped tm_fsm set_tm_fsm nn_fsm_raise self NN_TIMER_STOPPED
  else nn_fsm_bad (tm_state self) src type.

Definition nn_timer_handler (self : nn_timer) (src type : Z) (ptr : srcptr) : outcome nn_timer :=
  if tm_state self =? NN_TIMER_STATE_IDLE then
    if (src =? NN_FSM_ACTION) && (type =? NN_FSM_START) then
      nn_worker_execute (set_tm_state self NN_TIMER_STATE_ACTIVE) NN_TIMER_SRC_START_TASK
    else nn_fsm_bad (tm_state self) src type
  else if tm_state self =? NN_TIMER_STATE_ACTIVE then
    if src =? NN_TIMER_SRC_START_TASK then
      nn_assert (type =? NN_WORKER_TASK_EXECUTE);;
      nn_assert (0 <=? tm_timeout self);;
      self ← nn_worker_add_timer self (tm_timeout self);
      Ret (set_tm_timeout self (-1))
    else
      match ptr with
      | P_wtimer =>
          if type =? NN_WORKER_TIMER_TIMEOUT then
            nn_assert (tm_timeout self =? -1);;
            nn_fsm_raise self NN_TIMER_TIMEOUT
          else nn_fsm_bad (tm_state self) src type
      | _ => nn_fsm_bad (tm_state self) src type
      end
  else nn_fsm_bad (tm_state self) src type.

Definition timer_feed : nn_timer → Z → Z → srcptr → outcome nn_timer :=
  nn_fsm_feed tm_fsm nn_timer_handler nn_timer_shutdown.

Definition nn_timer_init : nn_timer :=
  NnTimer NN_FSM_STATE_IDLE NN_TIMER_STATE_IDLE (-1) [] WT_idle [].

Definition nn_timer_isidle (self : nn_timer) : bool :=
  nn_fsm_isidle tm_fsm timer_stopped_active self.

(** The terminated tasks and the terminated wtimer must not be in use. *)
Definition nn_timer_term (self : nn_timer) : outcome unit :=
  nn_assert (tm_state self =? NN_TIMER_STATE_IDLE);;
  nn_assert (match tm_wtimer self with WT_set _ => false | _ => true end);;
  nn_assert (bool_decide (tm_tasks self = []));;
  nn_fsm_term tm_fsm timer_stopped_active self.

Definition nn_timer_start (self : nn_timer) (timeout : Z) : outcome nn_timer :=
  nn_assert (0 <=? timeout);;
  nn_fsm_start tm_fsm set_tm_fsm timer_stopped_active nn_timer_handler (set_tm_timeout self timeout).

Definition nn_timer_stop (self : nn_timer) : outcome nn_timer :=
  nn_fsm_stop tm_fsm set_tm_fsm nn_timer_shutdown self.

(** ** The worker thread (worker_posix.inc, [nn_worker_routine])

    One step is what the thread does between two entries of the context: it takes
    an expired timer out of the timer set, delivers the timeout, or executes the
    next task. *)
Inductive wstep : Set := W_expire | W_deliver | W_task.

Definition worker_step (t : nn_timer) (s : wstep) : outcome nn_timer :=
  match s with
  | W_expire => Ret (set_tm_wtimer t WT_expired)
  | W_deliver => timer_feed (set_tm_wtimer t WT_idle) (-1) NN_WORKER_TIMER_TIMEOUT P_wtimer
  | W_task =>
      match tm_tasks t with
      | [] => Fail Crash
      | task :: ts => timer_feed (set_tm_tasks t ts) task NN_WORKER_TASK_EXECUTE P_task
      end
  end.

(** The thread is single: it does nothing else before it has delivered. *)
Definition worker_ready (t : nn_timer) (s : wstep) : bool :=
  match s, tm_wtimer t with
  | W_expire, WT_set _ => true
  | W_deliver, WT_expired => true
  | W_task, WT_expired => false
  | W_task, _ => negb (bool_decide (tm_tasks t = []))
  | _, _ => false
  end.

(** ** What a timer promises its owner

    Between two entries of the context the owner sees a timer as idle, armed
    (the timeout will come), fired (it has come) or stopping. *)
Inductive tphase : Set := T_idle | T_armed | T_fired | T_stopping.

#[export] Instance tphase_eq_dec : EqDecision tphase.
Proof. solve_decision. Defined.

(** [trep t ph]: [t] is in phase [ph] and all its events are processed. *)
Definition trep (t : nn_timer) (ph : tphase) : Prop :=
  tm_events t = [] ∧
  match ph with
  | T_idle => tm_fsm t = NN_FSM_STATE_IDLE ∧ tm_state t = NN_TIMER_STATE_IDLE ∧
      tm_tasks t = [] ∧ tm_wtimer t = WT_idle
  | T_armed => tm_fsm t = NN_FSM_STATE_ACTIVE ∧ tm_state t = NN_TIMER_STATE_ACTIVE ∧
      ((tm_tasks t = [NN_TIMER_SRC_START_TASK] ∧ tm_wtimer t = WT_idle ∧ 0 ≤ tm_timeout t) ∨
       (tm_tasks t = [] ∧ tm_wtimer t ≠ WT_idle ∧ tm_timeout t = -1))
  | T_fired => tm_fsm t = NN_FSM_STATE_ACTIVE ∧ tm_state t = NN_TIMER_STATE_ACTIVE ∧
      tm_tasks t = [] ∧ tm_wtimer t = WT_idle ∧ tm_timeout t = -1
  | T_stopping => tm_fsm t = NN_FSM_STATE_STOPPING ∧ tm_state t = NN_TIMER_STATE_STOPPING ∧
      ((tm_tasks t = [NN_TIMER_SRC_START_TASK; NN_TIMER_SRC_STOP_TASK] ∧ tm_wtimer t = WT_idle) ∨
       tm_tasks t = [NN_TIMER_SRC_STOP_TASK])
  end.

(** The worker steps left: a task counts three, for it may set the timer. *)
Definition work (t : nn_timer) : nat :=
  3 * length (tm_tasks t) + match tm_wtimer t with WT_idle => 0 | WT_set _ => 2 | WT_expired => 1 end.

Lemma trep_work t ph : trep t ph → (work t ≤ 6)%nat.
Proof.
  intros [_ Hp]. unfold work. destruct ph.
  - destruct Hp as (_ & _ & -> & ->). cbn. lia.
  - destruct Hp as (_ & _ & [(-> & -> & _)|(-> & _)]); cbn; [lia|]. destruct (tm_wtimer t); lia.
  - destruct Hp as (_ & _ & -> & -> & _). cbn. lia.
  - destruct Hp as (_ & _ & [(-> & ->)| ->]); cbn; [lia|]. destruct (tm_wtimer t); lia.
Qed.

Lemma trep_init : trep nn_timer_init T_idle.
Proof. done. Qed.

Lemma trep_isidle t ph : trep t ph → nn_timer_isidle t = bool_decide (ph = T_idle).
Proof.
  intros [He Hp]. unfold nn_timer_isidle, nn_fsm_isidle, timer_stopped_active. rewrite He. cbn.
  destruct ph; by destruct Hp as [-> _].
Qed.

Lemma trep_term t : trep t T_idle → nn_timer_term t = Ret tt.
Proof.
  intros [He (Hf & Hs & Ht & Hw)]. unfold nn_timer_term, nn_fsm_term.
  pose proof (trep_isidle t T_idle) as Hi. unfold nn_timer_isidle in Hi. rewrite Hi by done.
  by rewrite Hs, Hw, Ht.
Qed.

Lemma trep_start t ms : trep t T_idle → 0 ≤ ms → ∃ t', nn_timer_start t ms = Ret t' ∧ trep t' T_armed.
Proof.
  destruct t as [f s to ts wt es]. intros [He (Hf & Hs & Ht & Hw)] Hms. cbn in *. subst.
  unfold nn_timer_start. rewrite (proj2 (Z.leb_le 0 ms)) by done. cbn.
  eexists. split; [reflexivity|]. split; [done|]. split_and!; [done..|]. by left.
Qed.

(** Starting with a negative timeout aborts. *)
Lemma timer_start_negative t ms : ms < 0 → nn_timer_start t ms = Fail Abort.
Proof. intros Hms. unfold nn_timer_start. by rewrite (proj2 (Z.leb_gt 0 ms)) by done. Qed.

Lemma trep_stop t ph :
  trep t ph → ∃ t', nn_timer_stop t = Ret t' ∧ trep t' (if decide (ph = T_idle) then T_idle else T_stopping).
Proof.
  destruct t as [f s to ts wt es]. intros [He Hp]. cbn in *. subst es.
  destruct ph; rewrite ?decide_True, ?decide_False by done.
  - destruct Hp as (-> & -> & -> & ->). by eexists.
  - destruct Hp as (-> & -> & [(-> & -> & ?)|(-> & ? & ->)]);
      (eexists; split; [reflexivity|]; split; [done|]); split_and!; try done; [by left|by right].
  - destruct Hp as (-> & -> & -> & -> & ->). eexists. split; [reflexivity|]. split; [done|].
    split_and!; try done. by right.
  - destruct Hp as (-> & -> & Hp). eexists. split; [reflexivity|]. split; [done|]. by split_and!.
Qed.

(** A step of the worker.  The events raised are the owner's to process. *)
Lemma trep_worker t ph s :
  trep t ph → worker_ready t s = true →
  ∃ t', worker_step t s = Ret t' ∧ (work t' < work t)%nat ∧
    ((tm_events t' = [] ∧ trep t' ph) ∨
     (ph = T_armed ∧ tm_events t' = [NN_TIMER_TIMEOUT] ∧ trep (set_tm_events t' []) T_fired) ∨
     (ph = T_stopping ∧ tm_events t' = [NN_TIMER_STOPPED] ∧ trep (set_tm_events t' []) T_idle)).
Proof.
  destruct t as [f st to ts wt es]. intros [He Hp] Hr. cbn in *. subst es.
  destruct ph.
  - destruct Hp as (-> & -> & -> & ->). by destruct s.
  - destruct Hp as (-> & -> & [(-> & -> & Hto)|(-> & Hw & ->)]).
    + destruct s; try done. cbn. unfold timer_feed, nn_fsm_feed. cbn.
      rewrite (proj2 (Z.leb_le 0 to)) by done. cbn. eexists. split; [reflexivity|]. split; [cbn; lia|].
      left. split; [done|]. split; [done|]. split_and!; [done..|]. by right.
    + destruct wt as [|due|]; [done|..]; destruct s; try done; cbn; eexists;
        (split; [reflexivity|]); (split; [cbn; lia|]).
      * left. split; [done|]. split; [done|]. split_and!; [done..|]. by right.
      * right. left. by split_and!.
  - destruct Hp as (-> & -> & -> & -> & ->). by destruct s.
  - destruct Hp as (-> & -> & [(-> & ->)| ->]).
    + destruct s; try done. cbn. eexists. split; [reflexivity|]. split; [cbn; lia|].
      left. split; [done|]. split; [done|]. split_and!; [done..|]. by right.
    + destruct wt as [|due|]; destruct s; try done; cbn; eexists;
        (split; [reflexivity|]); (split; [cbn; lia|]).
      * right. right. by split_and!.
      * left. split; [done|]. split; [done|]. split_and!; [done..|]. by right.
      * right. right. by split_and!.
      * left. split; [done|]. split; [done|]. split_and!; [done..|]. by right.
Qed.

(** The worker has something to do for a timer that is armed or stopping. *)
Lemma trep_ready t ph :
  trep t ph → ph = T_armed ∨ ph = T_stopping → ∃ s, worker_ready t s = true.
Proof.
  destruct t as [f st to ts wt es]. intros [He Hp] [-> | ->]; cbn in *.
  - destruct Hp as (_ & _ & [(-> & -> & _)|(-> & Hw & _)]); [by exists W_task|].
    destruct wt; [done|by exists W_expire|by exists W_deliver].
  - destruct wt; [exists W_task|exists W_expire; done|exists W_deliver; done]; cbn.
    by destruct Hp as (_ & _ & [(-> & _)| ->]).
Qed.

Lemma trep_idle_worker t s : trep t T_idle → worker_ready t s = false.
Proof. intros [_ (_ & _ & Ht & Hw)]. destruct s; cbn; by rewrite ?Ht, Hw. Qed.

Lemma trep_phase t ph ph' : trep t ph → trep t ph' → ph = ph'.
Proof.
  destruct t as [f st to ts wt es]. intros [_ Ha] [_ Hb]. cbn in *.
  destruct ph, ph'; try done; destruct Ha as (-> & _ & Ha), Hb as (? & _ & Hb); try done.
  - destruct Ha as [(-> & _)|(-> & Hw & _)], Hb as (? & ? & _); [done|by destruct Hw].
  - destruct Ha as (-> & -> & _), Hb as [(? & _)|(_ & Hw & _)]; [done|by destruct Hw].
Qed.

(** ** The end of a context (ctx.c, [nn_ctx_leave])

    A root machine with one timer: the next event the timer raised is fed to the
    machine, until there is none. *)
Section leave.
Context {S : Type} (timer : S → nn_timer) (set_timer : S → nn_timer → S) (feed : S → Z → outcome S).

Definition leave_body (s : S) : outcome (S * option unit) :=
  match tm_events (timer s) with
  | [] => Ret (s, Some tt)
  | ev :: evs => s ← feed (set_timer s (set_tm_events (timer s) evs)) ev; Ret (s, None)
  end.

(** Enough fuel for the machines here: an event raises at most one other. *)
Definition nn_ctx_leave (s : S) : outcome S :=
  '(s, _) ← while (3 + length (tm_events (timer s))) leave_body s; Ret s.

Lemma leave_quiet s : tm_events (timer s) = [] → nn_ctx_leave s = Ret s.
Proof. intros E. unfold nn_ctx_leave. rewrite E. cbn. unfold leave_body. by rewrite E. Qed.

Lemma leave_one s ev s' :
  tm_events (timer s) = [ev] → feed (set_timer s (set_tm_events (timer s) [])) ev = Ret s' →
  tm_events (timer s') = [] → nn_ctx_leave s = Ret s'.
Proof.
  intros He Hf Hs. unfold nn_ctx_leave. rewrite He. cbn [length Nat.add while].
  assert (leave_body s = Ret (s', None)) as -> by (unfold leave_body; by rewrite He, Hf).
  step. assert (leave_body s' = Ret (s', Some tt)) as -> by (unfold leave_body; by rewrite Hs).
  reflexivity.
Qed.

End leave.

(** The states of a timer whose owner starts it when it is idle, stops it at any
    time, and processes each event as it is raised. *)
Inductive timer_reach : nn_timer → tphase → Prop :=
| tr_init : timer_reach nn_timer_init T_idle
| tr_start t ms t' : timer_reach t T_idle → 0 ≤ ms → nn_timer_start t ms = Ret t' → timer_reach t' T_armed
| tr_stop t ph t' :
    timer_reach t ph → nn_timer_stop t = Ret t' →
    timer_reach t' (if decide (ph = T_idle) then T_idle else T_stopping)
| tr_quiet t ph s t' :
    timer_reach t ph → worker_ready t s = true → worker_step t s = Ret t' → tm_events t' = [] →
    timer_reach t' ph
| tr_event t ph s t' ev :
    timer_reach t ph → worker_ready t s = true → worker_step t s = Ret t' → tm_events t' = [ev] →
    timer_reach (set_tm_events t' []) (if ev =? NN_TIMER_TIMEOUT then T_fired else T_idle).

Lemma timer_reach_rep t ph : timer_reach t ph → trep t ph.
Proof.
  induction 1 as [|t ms t' _ IH Hms E|t ph t' _ IH E|t ph s t' _ IH Hr E Hev|t ph s t' ev _ IH Hr E Hev].
  - exact trep_init.
  - destruct (trep_start t ms IH Hms) as (u & E' & ?). rewrite E in E'. by injection E' as ->.
  - destruct (trep_stop t ph IH) as (u & E' & ?). rewrite E in E'. by injection E' as ->.
  - destruct (trep_worker t ph s IH Hr) as (u & E' & _ & Hu). rewrite E in E'. injection E' as <-.
    rewrite Hev in Hu. destruct Hu as [[_ ?]|[(_ & ? & _)|(_ & ? & _)]]; done.
  - destruct (trep_worker t ph s IH Hr) as (u & E' & _ & Hu). rewrite E in E'. injection E' as <-.
    rewrite Hev in Hu. destruct Hu as [[? _]|[(_ & [= ->] & ?)|(_ & [= ->] & ?)]]; done.
Qed.

(** C37: what an owner can rely on.  In every reachable state of a timer: it can be
    started if it is idle, stopped, and terminated if it is idle; every step of
    the worker thread returns and brings the worker closer to having nothing to
    do; a timeout is reported only by an armed timer, and once; the end of
    stopping only by a stopping one, after which the timer can be started again;
    and while a timer is armed or stopping the worker has a step to make, so that
    the timeout and the end of stopping do arrive. *)
Theorem timer_contract t ph :
  timer_reach t ph →
  (ph = T_idle → nn_timer_term t = Ret tt ∧
     ∀ ms, 0 ≤ ms → ∃ t', nn_timer_start t ms = Ret t' ∧ timer_reach t' T_armed) ∧
  (∃ t', nn_timer_stop t = Ret t' ∧
     timer_reach t' (if decide (ph = T_idle) then T_idle else T_stopping)) ∧
  (∀ s, worker_ready t s = true →
     ∃ t', worker_step t s = Ret t' ∧ (work t' < work t)%nat ∧
       ((tm_events t' = [] ∧ timer_reach t' ph) ∨
        (ph = T_armed ∧ tm_events t' = [NN_TIMER_TIMEOUT] ∧ timer_reach (set_tm_events t' []) T_fired) ∨
        (ph = T_stopping ∧ tm_events t' = [NN_TIMER_STOPPED] ∧ timer_reach (set_tm_events t' []) T_idle))) ∧
  (ph = T_armed ∨ ph = T_stopping → ∃ s, worker_ready t s = true).
Proof.
  intros Hr. pose proof (timer_reach_rep _ _ Hr) as Ht. split_and!.
  - intros ->. split; [by apply trep_term|]. intros ms Hms.
    destruct (trep_start t ms Ht Hms) as (t' & E & _). exists t'. split; [done|]. by eapply tr_start.
  - destruct (trep_stop t ph Ht) as (t' & E & _). exists t'. split; [done|]. by eapply tr_stop.
  - intros s Hs. destruct (trep_worker t ph s Ht Hs) as (t' & E & Hw & Hev). exists t'.
    split; [done|]. split; [done|]. destruct Hev as [[He _]|[(-> & He & _)|(-> & He & _)]].
    + left. split; [done|]. by eapply tr_quiet.
    + right. left. split_and!; [done..|]. by apply (tr_event t T_armed s t' NN_TIMER_TIMEOUT).
    + right. right. split_and!; [done..|]. by apply (tr_event t T_stopping s t' NN_TIMER_STOPPED).
  - by apply trep_ready.
Qed.

(** A timer is started for 1000 ms and stopped before the worker has seen it. *)
Lemma timer_contract_witness :
  ∃ t, ('(t1) ← nn_timer_start nn_timer_init 1000; nn_timer_stop t1) = Ret t ∧
    ∃ t', worker_step t W_task = Ret t' ∧ (work t' < work t)%nat.
Proof.
  destruct (nn_timer_start nn_timer_init 1000) as [t1|] eqn:E1; [|vm_compute in E1; discriminate].
  destruct (nn_timer_stop t1) as [t|] eqn:E2;
    [|vm_compute in E1; injection E1 as <-; vm_compute in E2; discriminate].
  exists t. split; [exact E2|].
  destruct (timer_contract t T_stopping) as (_ & _ & Hw & _).
  - apply (tr_stop t1 T_armed); [|exact E2]. eapply tr_start; [apply tr_init| |exact E1]. lia.
  - destruct (Hw W_task) as (t' & E & Hlt & _).
    + vm_compute in E1. injection E1 as <-. vm_compute in E2. injection E2 as <-. reflexivity.
    + exists t'. exact (conj E Hlt).
Defined.
