(* ===== verification/Xreq.v ===== *)
(** * protocols/reqrep/xreq.c: raw request sockets

    Requests are load-balanced, replies fair-queued.  A reply that a transport
    did not split starts with the 4 bytes of its header. *)
From S2P Require Import Prelude Wire NnList Priolist Pipe LbFq Msg Protocol Attach Toy.

(** What a receive function does to the message its caller passed: nothing,
    [nn_msg_term], or storing a message in it. *)
Inductive msg_out : Type := O_same | O_term | O_msg (m : vmsg).

Definition out_msg (o : msg_out) : option vmsg := match o with O_msg m => Some m | _ => None end.

(** Splitting a reply into its header, a 32-bit number, and its body. *)
Definition split_word (msg : vmsg) : outcome msg_out :=
  if decide (length (body msg) < 4)%nat then Ret O_term
  else
    nn_assert (bool_decide (length (sphdr msg) = 0%nat));;
    msg ← trim_body (set_sphdr msg (take 4 (body msg))) 4;
    Ret (O_msg msg).

Record nn_xreq (T : Type) := XReq { xreq_lb : nn_priolist T; xreq_fq : nn_priolist T }.
Arguments XReq {T}.
Arguments xreq_lb {T}.
Arguments xreq_fq {T}.

Section xreq.
Context `{ListStore T} `{PipeOps W vmsg}.

Definition nn_xreq_init (s s' : T) : nn_xreq T := XReq (nn_lb_init s) (nn_fq_init s').
Definition nn_xreq_term (self : nn_xreq T) : outcome unit :=
  nn_fq_term (xreq_fq self);; nn_lb_term (xreq_lb self).
Definition nn_xreq_destroy (self : nn_xreq T) : outcome unit := nn_xreq_term self.

Definition nn_xreq_add (self : nn_xreq T) (pipe : pid) (sndprio rcvprio : Z) : outcome (nn_xreq T * Z) :=
  assert_prio sndprio;;
  assert_prio rcvprio;;
  Ret (XReq (nn_lb_add (xreq_lb self) pipe pipe sndprio) (nn_fq_add (xreq_fq self) pipe pipe rcvprio), 0).

(** [nn_xreq_rm] and [nn_xreq_out] also return what they store in the statistics
    item NN_STAT_CURRENT_SND_PRIORITY. *)
Definition nn_xreq_rm (self : nn_xreq T) (pipe : pid) : outcome (nn_xreq T * Z) :=
  lb ← nn_lb_rm (xreq_lb self) pipe;
  fq ← nn_fq_rm (xreq_fq self) pipe;
  Ret (XReq lb fq, nn_lb_get_priority lb).

Definition nn_xreq_in (self : nn_xreq T) (pipe : pid) : outcome (nn_xreq T) :=
  fq ← nn_fq_in (xreq_fq self) pipe; Ret (XReq (xreq_lb self) fq).

Definition nn_xreq_out (self : nn_xreq T) (pipe : pid) : outcome (nn_xreq T * Z) :=
  lb ← nn_lb_out (xreq_lb self) pipe; Ret (XReq lb (xreq_fq self), nn_lb_get_priority lb).

Definition nn_xreq_events (self : nn_xreq T) : Z :=
  Z.lor (if nn_fq_can_recv (xreq_fq self) then NN_SOCKBASE_EVENT_IN else 0)
    (if nn_lb_can_send (xreq_lb self) then NN_SOCKBASE_EVENT_OUT else 0).

(** Also returns the pipe stored in [*to]. *)
Definition nn_xreq_send_to (self : nn_xreq T) (w : W) (msg : vmsg) :
    outcome (nn_xreq T * W * Z * option pid) :=
  '(lb, w, rc, to) ← nn_lb_send (xreq_lb self) w msg;
  let self := XReq lb (xreq_fq self) in
  if rc =? - EAGAIN then Ret (self, w, - EAGAIN, to)
  else
    nn_assert (0 <=? rc);;
    Ret (self, w, 0, to).

Definition nn_xreq_send (self : nn_xreq T) (w : W) (msg : vmsg) : outcome (nn_xreq T * W * Z) :=
  '(self, w, rc, _) ← nn_xreq_send_to self w msg; Ret (self, w, rc).

Definition nn_xreq_recv (self : nn_xreq T) (w : W) : outcome (nn_xreq T * W * Z * msg_out) :=
  '(fq, w, rc, r) ← nn_fq_recv (M := vmsg) (xreq_fq self) w;
  let self := XReq (xreq_lb self) fq in
  if rc =? - EAGAIN then Ret (self, w, - EAGAIN, O_same)
  else
    nn_assert (0 <=? rc);;
    '(_, msg) ← deref r;
    o ← (if Z.land rc NN_PIPE_PARSED =? 0 then split_word msg else Ret (O_msg msg));
    Ret (self, w, match o with O_term => - EAGAIN | _ => 0 end, o).

#[export] Instance xreq_proto : Proto (nn_xreq T) W vmsg := {
  proto_add := nn_xreq_add;
  proto_rm self p := '(self, _) ← nn_xreq_rm self p; Ret self;
  proto_in _ self w p := self ← nn_xreq_in self p; Ret (self, w);
  proto_out self w p := '(self, _) ← nn_xreq_out self p; Ret (self, w);
  proto_events := nn_xreq_events;
  proto_send := nn_xreq_send;
  proto_recv _ self w := '(self, w, rc, o) ← nn_xreq_recv self w; Ret (self, w, rc, out_msg o);
  proto_destroy := nn_xreq_destroy;
  proto_hears := true;
  proto_room _ := true;
  proto_takes _ := true;
}.

End xreq.

Definition nn_xreq_ispeer (socktype : Z) : bool := socktype =? NN_REP.

(** ** Properties *)

(** The message [m'] that the delivery of [m] with [rc] yields, if any. *)
Definition split_as (rc : Z) (m : vmsg) (o : msg_out) : Prop :=
  match o with
  | O_same => False
  | O_term => Z.land rc NN_PIPE_PARSED = 0 ∧ (length (body m) < 4)%nat
  | O_msg m' =>
      if Z.land rc NN_PIPE_PARSED =? 0
      then (4 ≤ length (body m))%nat ∧ m' = VMsg (take 4 (body m)) (hdrs m) (drop 4 (body m))
      else m' = m
  end.

Lemma split_word_ok rc m :
  (Z.land rc NN_PIPE_PARSED = 0 → sphdr m = []) →
  ∃ o, (if Z.land rc NN_PIPE_PARSED =? 0 then split_word m else Ret (O_msg m)) = Ret o ∧ split_as rc m o.
Proof.
  intros Hm. unfold split_as. destruct (Z.land rc NN_PIPE_PARSED =? 0) eqn:E; [|by exists (O_msg m)].
  apply Z.eqb_eq in E. unfold split_word. case_decide as Hl; [by exists O_term|].
  rewrite (Hm E). step. unfold trim_body.
  rewrite bool_decide_eq_true_2 by (cbn [body set_sphdr]; lia). step.
  eexists. split; [reflexivity|]. split; [lia|done].
Qed.

Section props.
Context `{ListStoreOk T} `{PipeFinite W vmsg} `{!PipeParse W}.

(** What [nn_fq_recv] and the split of its message do together. *)
Lemma pl_recv_split fq w ps :
  pl_inv fq ps (readable w) → pipe_inv w →
  (nn_fq_can_recv fq = false ∧ (∀ x, x ∈ ps → x ∉ readable w) ∧
     nn_fq_recv fq w = Ret (fq, w, - EAGAIN, None)) ∨
  (nn_fq_can_recv fq = true ∧ ∃ fq' w' rc x m o,
     nn_fq_recv fq w = Ret (fq', w', rc, Some (x, m)) ∧ 0 ≤ rc ∧ x ∈ ps ∧
     (if Z.land rc NN_PIPE_PARSED =? 0 then split_word m else Ret (O_msg m)) = Ret o ∧ split_as rc m o ∧
     pipe_inv w' ∧ pl_inv fq' ps (readable w') ∧ recvd w' = recvd w ++ [(x, m)] ∧
     sent w' = sent w ∧ writable w' = writable w ∧ (pending w' < pending w)%nat).
Proof.
  intros Hf Hw. destruct (pl_recv _ _ _ Hf Hw) as [?|(Hc & fq' & w' & rc0 & rc & x & m & Hpr & -> & E &
    Hp & Hpw & Hrc & Hw' & Hf' & Hrv & Hs & Hwr)]; [by left|right]. split; [done|].
  destruct (split_word_ok (unrelease rc0) m) as (o & Eo & Ho).
  { unfold unrelease. rewrite <- Z.land_assoc. change (Z.land (Z.lnot NN_PIPE_RELEASE) NN_PIPE_PARSED)
      with NN_PIPE_PARSED. intros Hz. exact (parse_ok _ _ _ _ _ Hw Hpw Hpr Hz). }
  exists fq', w', (unrelease rc0), x, m, o. split_and!; try done; [lia|]. by eapply pending_recv.
Qed.

Definition xreq_inv (self : nn_xreq T) (w : W) (ps : gset pid) : Prop :=
  pl_inv (xreq_lb self) ps (writable w) ∧ pl_inv (xreq_fq self) ps (readable w) ∧ pipe_inv w.

Lemma xreq_init_inv s s' σ σ' w :
  l_rep s σ → lseq σ = ∅ → lfree σ = ∅ → l_rep s' σ' → lseq σ' = ∅ → lfree σ' = ∅ →
  pipe_inv w → xreq_inv (nn_xreq_init s s') w ∅.
Proof. intros. split_and!; [by eapply pl_init|by eapply pl_init|done]. Qed.

Lemma xreq_add_ok self w ps p sp rp :
  xreq_inv self w ps → allowed w ps (C_add p sp rp) →
  ∃ self', nn_xreq_add self p sp rp = Ret (self', 0) ∧ xreq_inv self' w ({[p]} ∪ ps).
Proof.
  intros (Hl & Hf & Hw) (Hp & Hnw & Hnr & Hsp & Hrp & _). unfold nn_xreq_add.
  rewrite !assert_prio_ok by done. step. eexists. split; [done|].
  split_and!; [by apply pl_add|by apply pl_add|done].
Qed.

Lemma xreq_rm_ok self w ps p w' :
  xreq_inv self w ps → allowed w ps (C_rm p w') →
  ∃ self' prio, nn_xreq_rm self p = Ret (self', prio) ∧ xreq_inv self' w' (ps ∖ {[p]}).
Proof.
  intros (Hl & Hf & Hw) (Hp & (? & _) & Hwr & Hrd). unfold nn_xreq_rm, nn_lb_rm, nn_fq_rm.
  destruct (pl_rm _ _ _ _ Hl Hp) as (lb & -> & ?). step.
  destruct (pl_rm _ _ _ _ Hf Hp) as (fq & -> & ?). step. eexists _, _. split; [done|].
  split_and!; cbn; by rewrite ?Hwr, ?Hrd.
Qed.

Lemma xreq_in_ok self w ps p w' :
  xreq_inv self w ps → allowed w ps (C_in p w') →
  ∃ self', nn_xreq_in self p = Ret self' ∧ xreq_inv self' w' ps.
Proof.
  intros (Hl & Hf & Hw) (Hp & Hn & (? & _) & Hwr & Hrd). unfold nn_xreq_in, nn_fq_in.
  destruct (pl_activate _ _ _ _ Hf Hp Hn) as (fq & -> & ?). step. eexists. split; [done|].
  split_and!; cbn; by rewrite ?Hwr, ?Hrd.
Qed.

Lemma xreq_out_ok self w ps p w' :
  xreq_inv self w ps → allowed w ps (C_out p w') →
  ∃ self' prio, nn_xreq_out self p = Ret (self', prio) ∧ xreq_inv self' w' ps.
Proof.
  intros (Hl & Hf & Hw) (Hp & Hn & (? & _) & Hwr & Hrd). unfold nn_xreq_out, nn_lb_out.
  destruct (pl_activate _ _ _ _ Hl Hp Hn) as (lb & -> & ?). step. eexists _, _. split; [done|].
  split_and!; cbn; by rewrite ?Hwr, ?Hrd.
Qed.

Lemma xreq_term_ok self w : xreq_inv self w ∅ → nn_xreq_term self = Ret tt.
Proof.
  intros (Hl & Hf & _). unfold nn_xreq_term, nn_fq_term. rewrite (pl_term _ _ Hf). step.
  exact (pl_term _ _ Hl).
Qed.

Lemma xreq_send_to_ok self w ps m :
  xreq_inv self w ps →
  (nn_xreq_send_to self w m = Ret (self, w, - EAGAIN, None) ∧ ∀ x, x ∈ ps → x ∉ writable w) ∨
  (∃ self' w' x, nn_xreq_send_to self w m = Ret (self', w', 0, Some x) ∧ xreq_inv self' w' ps ∧
     x ∈ ps ∧ x ∈ writable w ∧ sent w' = sent w ++ [(x, m)] ∧ recvd w' = recvd w).
Proof.
  intros (Hl & Hf & Hw). unfold nn_xreq_send_to.
  destruct (pl_send _ _ _ m Hl Hw) as [(_ & Hn & ->)|(_ & lb & w' & rc & x & -> &
    ? & ? & Hrc & ? & ? & ? & ? & Hrd & _)]; step; [left|right].
  - by destruct self.
  - rewrite (proj2 (Z.eqb_neq rc (- EAGAIN))) by (unfold EAGAIN; lia).
    rewrite (proj2 (Z.leb_le 0 rc)) by lia. step.
    eexists (XReq lb (xreq_fq self)), w', x. split; [done|].
    split; [by split_and!; cbn; rewrite ?Hrd|done].
Qed.

Lemma xreq_recv_ok self w ps :
  xreq_inv self w ps →
  (nn_xreq_recv self w = Ret (self, w, - EAGAIN, O_same) ∧ ∀ x, x ∈ ps → x ∉ readable w) ∨
  (∃ self' w' rc x m o,
     nn_xreq_recv self w = Ret (self', w', match o with O_term => - EAGAIN | _ => 0 end, o) ∧
     split_as rc m o ∧ xreq_inv self' w' ps ∧ x ∈ ps ∧ recvd w' = recvd w ++ [(x, m)] ∧
     sent w' = sent w ∧ writable w' = writable w ∧ (pending w' < pending w)%nat).
Proof.
  intros (Hl & Hf & Hw). unfold nn_xreq_recv.
  destruct (pl_recv_split _ _ _ Hf Hw) as [(_ & Hn & ->)|(_ & fq & w' & rc & x & m & o & -> & Hrc & Hp &
    Eo & Ho & ? & ? & ? & ? & Hwr & ?)]; step; [left|right].
  - by destruct self.
  - rewrite (proj2 (Z.eqb_neq rc (- EAGAIN))) by (unfold EAGAIN; lia).
    rewrite (proj2 (Z.leb_le 0 rc)) by lia. step. rewrite Eo. step.
    eexists (XReq (xreq_lb self) fq), w', rc, x, m, o.
    split; [done|]. split; [done|]. split; [by split_and!; cbn; rewrite ?Hwr|done].
Qed.

#[export] Program Instance xreq_proto_ok : ProtoOk (nn_xreq T) W vmsg := {| proto_inv := xreq_inv |}.
Next Obligation.
  intros self w ps p sp rp Hi _ Ha. destruct (xreq_add_ok _ _ _ _ _ _ Hi Ha) as (self' & E & ?).
  by exists self', 0.
Qed.
Next Obligation.
  intros self w ps p w' Hi Ha. destruct (xreq_rm_ok _ _ _ _ _ Hi Ha) as (self' & prio & E & ?).
  cbn. rewrite E. by exists self'.
Qed.
Next Obligation.
  intros fuel self w ps p w' _ Hi Ha _. destruct (xreq_in_ok _ _ _ _ _ Hi Ha) as (self' & E & ?).
  cbn. rewrite E. by exists self', w'.
Qed.
Next Obligation.
  intros self w ps p w' Hi Ha. destruct (xreq_out_ok _ _ _ _ _ Hi Ha) as (self' & prio & E & ?).
  cbn. rewrite E. by exists self', w'.
Qed.
Next Obligation.
  intros self w ps m Hi _. cbn. unfold nn_xreq_send.
  destruct (xreq_send_to_ok _ _ _ m Hi) as [[-> _]|(self' & w' & x & -> & ? & _)]; step;
    [by exists self, w, (- EAGAIN)|by exists self', w', 0].
Qed.
Next Obligation.
  intros fuel self w ps Hi _. cbn.
  destruct (xreq_recv_ok _ _ _ Hi) as [[-> _]|(self' & w' & rc & x & m & o & -> & _ & ? & _)]; step;
    [by exists self, w, (- EAGAIN), None|eexists self', w', _, (out_msg o); split_and!; [done|by destruct o|done]].
Qed.
Next Obligation. intros self w Hi. exact (xreq_term_ok _ _ Hi). Qed.
Next Obligation.
  intros self w ps w' (Ho & Hi & _) (Hw & _) Hwr Hrd. split_and!; [by rewrite Hwr|by rewrite Hrd|done].
Qed.
Next Obligation. intros self w ps _. cbn. unfold nn_xreq_events. repeat case_match; done. Qed.

End props.
