(* ===== verification/Req.v ===== *)
(** * protocols/reqrep/req.c: cooked request sockets

    A request socket is a state machine on top of a raw one: it stores the last
    request, re-sends it when its timer expires or its pipe goes away, and stores
    the reply.  The machine, its timer and the worker thread are composed here;
    [nn_ctx_leave] lets the machine process the events of the timer at the end
    of every step. *)
From S2P Require Import Prelude Wire NnList Priolist Pipe LbFq Msg Protocol Attach Fsm Xreq Toy.

Definition NN_REQ_DEFAULT_RESEND_IVL : Z := 60000.
Definition NN_REQ_RESEND_IVL : Z := 1.

Definition NN_REQ_STATE_IDLE : Z := 1.
Definition NN_REQ_STATE_PASSIVE : Z := 2.
Definition NN_REQ_STATE_DELAYED : Z := 3.
Definition NN_REQ_STATE_ACTIVE : Z := 4.
Definition NN_REQ_STATE_TIMED_OUT : Z := 5.
Definition NN_REQ_STATE_CANCELLING : Z := 6.
Definition NN_REQ_STATE_STOPPING_TIMER : Z := 7.
Definition NN_REQ_STATE_DONE : Z := 8.
Definition NN_REQ_STATE_STOPPING : Z := 9.

Definition NN_REQ_ACTION_IN : Z := 2.
Definition NN_REQ_ACTION_OUT : Z := 3.
Definition NN_REQ_ACTION_SENT : Z := 4.
Definition NN_REQ_ACTION_RECEIVED : Z := 5.
Definition NN_REQ_ACTION_PIPE_RM : Z := 6.

Definition NN_REQ_SRC_RESEND_TIMER : Z := 1.

(** [task.reply] is a message object that may be terminated: reading or
    terminating it again is an error ([nn_msg_term] frees its chunks). *)
Inductive msg_obj : Type := Live (m : vmsg) | Dead.

Definition obj_term (o : msg_obj) : outcome unit :=
  match o with Live _ => Ret tt | Dead => Fail Crash end.

Definition obj_update (o : msg_obj) (out : msg_out) : msg_obj :=
  match out with O_same => o | O_term => Dead | O_msg m => Live m end.

(** [struct nn_task] is inlined: [task_id] to [sent_to].  [req_stopped]: the
    core was told that the socket has stopped ([nn_sockbase_stopped]). *)
Record nn_req (T : Type) := Req {
  req_xreq : nn_xreq T;
  req_fsm : Z;
  req_state : Z;
  resend_ivl : Z;
  task_id : Z;
  task_request : vmsg;
  task_reply : msg_obj;
  task_timer : nn_timer;
  sent_to : option pid;
  req_stopped : bool;
}.
Arguments Req {T}.
Arguments req_xreq {T}.
Arguments req_fsm {T}.
Arguments req_state {T}.
Arguments resend_ivl {T}.
Arguments task_id {T}.
Arguments task_request {T}.
Arguments task_reply {T}.
Arguments task_timer {T}.
Arguments sent_to {T}.
Arguments req_stopped {T}.

Section setters.
Context {T : Type} (r : nn_req T).

Definition set_xreq x : nn_req T := Req x (req_fsm r) (req_state r) (resend_ivl r) (task_id r) (task_request r)
  (task_reply r) (task_timer r) (sent_to r) (req_stopped r).
Definition set_req_fsm s : nn_req T := Req (req_xreq r) s (req_state r) (resend_ivl r) (task_id r) (task_request r)
  (task_reply r) (task_timer r) (sent_to r) (req_stopped r).
Definition set_req_state s : nn_req T := Req (req_xreq r) (req_fsm r) s (resend_ivl r) (task_id r) (task_request r)
  (task_reply r) (task_timer r) (sent_to r) (req_stopped r).
Definition set_ivl i : nn_req T := Req (req_xreq r) (req_fsm r) (req_state r) i (task_id r) (task_request r)
  (task_reply r) (task_timer r) (sent_to r) (req_stopped r).
Definition set_request i m : nn_req T := Req (req_xreq r) (req_fsm r) (req_state r) (resend_ivl r) i m
  (task_reply r) (task_timer r) (sent_to r) (req_stopped r).
Definition set_reply o : nn_req T := Req (req_xreq r) (req_fsm r) (req_state r) (resend_ivl r) (task_id r)
  (task_request r) o (task_timer r) (sent_to r) (req_stopped r).
Definition set_timer t : nn_req T := Req (req_xreq r) (req_fsm r) (req_state r) (resend_ivl r) (task_id r)
  (task_request r) (task_reply r) t (sent_to r) (req_stopped r).
Definition set_sent_to p : nn_req T := Req (req_xreq r) (req_fsm r) (req_state r) (resend_ivl r) (task_id r)
  (task_request r) (task_reply r) (task_timer r) p (req_stopped r).
Definition set_req_stopped b : nn_req T := Req (req_xreq r) (req_fsm r) (req_state r) (resend_ivl r) (task_id r)
  (task_request r) (task_reply r) (task_timer r) (sent_to r) b.

End setters.

Section req.
Context `{ListStore T} `{PipeOps W vmsg}.

(** The machine works on the socket and the world of pipes. *)
Notation ST := (nn_req T * W)%type.

Definition nn_req_inprogress (self : nn_req T) : bool :=
  negb ((req_state self =? NN_REQ_STATE_IDLE) || (req_state self =? NN_REQ_STATE_PASSIVE) ||
        (req_state self =? NN_REQ_STATE_STOPPING)).

Definition nn_req_action_send (s : ST) (allow_delay : bool) : outcome ST :=
  let '(self, w) := s in
  '(xreq, w, rc, to) ← nn_xreq_send_to (req_xreq self) w (task_request self);
  let self := set_xreq self xreq in
  if rc =? - EAGAIN then
    nn_assert allow_delay;;
    Ret (set_req_state self NN_REQ_STATE_DELAYED, w)
  else if rc =? 0 then
    t ← nn_timer_start (task_timer self) (resend_ivl self);
    nn_assert (match to with Some _ => true | None => false end);;
    Ret (set_req_state (set_sent_to (set_timer self t) to) NN_REQ_STATE_ACTIVE, w)
  else Fail Abort.

(** [nn_timer_stop] and the fields set with it. *)
Definition stop_timer (self : nn_req T) (state : Z) : outcome (nn_req T) :=
  t ← nn_timer_stop (task_timer self);
  Ret (set_req_state (set_sent_to (set_timer self t) None) state).

Definition nn_req_handler (s : ST) (src type : Z) (_ : srcptr) : outcome ST :=
  let '(self, w) := s in
  let state := req_state self in
  if state =? NN_REQ_STATE_IDLE then
    if (src =? NN_FSM_ACTION) && (type =? NN_FSM_START)
    then Ret (set_req_state self NN_REQ_STATE_PASSIVE, w) else nn_fsm_bad state src type
  else if state =? NN_REQ_STATE_PASSIVE then
    if (src =? NN_FSM_ACTION) && (type =? NN_REQ_ACTION_SENT)
    then nn_req_action_send s true else nn_fsm_bad state src type
  else if state =? NN_REQ_STATE_DELAYED then
    if src =? NN_FSM_ACTION then
      if type =? NN_REQ_ACTION_OUT then nn_req_action_send s false
      else if type =? NN_REQ_ACTION_SENT then Ret s
      else nn_fsm_bad state src type
    else nn_fsm_bad state src type
  else if state =? NN_REQ_STATE_ACTIVE then
    if src =? NN_FSM_ACTION then
      if type =? NN_REQ_ACTION_IN then
        self ← stop_timer self NN_REQ_STATE_STOPPING_TIMER; Ret (self, w)
      else if type =? NN_REQ_ACTION_SENT then
        self ← stop_timer self NN_REQ_STATE_CANCELLING; Ret (self, w)
      else if type =? NN_REQ_ACTION_PIPE_RM then
        self ← stop_timer self NN_REQ_STATE_TIMED_OUT; Ret (self, w)
      else nn_fsm_bad state src type
    else if src =? NN_REQ_SRC_RESEND_TIMER then
      if type =? NN_TIMER_TIMEOUT then
        self ← stop_timer self NN_REQ_STATE_TIMED_OUT; Ret (self, w)
      else nn_fsm_bad state src type
    else nn_fsm_bad state src type
  else if state =? NN_REQ_STATE_TIMED_OUT then
    if src =? NN_REQ_SRC_RESEND_TIMER then
      if type =? NN_TIMER_STOPPED then nn_req_action_send s true else nn_fsm_bad state src type
    else if src =? NN_FSM_ACTION then
      if type =? NN_REQ_ACTION_SENT then Ret (set_req_state self NN_REQ_STATE_CANCELLING, w)
      else nn_fsm_bad state src type
    else nn_fsm_bad state src type
  else if state =? NN_REQ_STATE_CANCELLING then
    if src =? NN_REQ_SRC_RESEND_TIMER then
      if type =? NN_TIMER_STOPPED then nn_req_action_send s true else nn_fsm_bad state src type
    else if src =? NN_FSM_ACTION then
      if type =? NN_REQ_ACTION_SENT then Ret s else nn_fsm_bad state src type
    else nn_fsm_bad state src type
  else if state =? NN_REQ_STATE_STOPPING_TIMER then
    if src =? NN_REQ_SRC_RESEND_TIMER then
      if type =? NN_TIMER_STOPPED then Ret (set_req_state self NN_REQ_STATE_DONE, w)
      else nn_fsm_bad state src type
    else if src =? NN_FSM_ACTION then
      if type =? NN_REQ_ACTION_SENT then Ret (set_req_state self NN_REQ_STATE_CANCELLING, w)
      else nn_fsm_bad state src type
    else nn_fsm_bad state src type
  else if state =? NN_REQ_STATE_DONE then
    if src =? NN_FSM_ACTION then
      if type =? NN_REQ_ACTION_RECEIVED then Ret (set_req_state self NN_REQ_STATE_PASSIVE, w)
      else if type =? NN_REQ_ACTION_SENT then nn_req_action_send s true
      else nn_fsm_bad state src type
    else nn_fsm_bad state src type
  else nn_fsm_bad state src type.

Definition fsm_of (s : ST) : Z := req_fsm s.1.
Definition set_fsm_of (s : ST) (f : Z) : ST := (set_req_fsm s.1 f, s.2).

Definition nn_req_shutdown (s : ST) (src type : Z) (_ : srcptr) : outcome ST :=
  let '(self, w) := s in
  self ← (if (src =? NN_FSM_ACTION) && (type =? NN_FSM_STOP) then
            t ← nn_timer_stop (task_timer self);
            Ret (set_req_state (set_timer self t) NN_REQ_STATE_STOPPING)
          else Ret self);
  if req_state self =? NN_REQ_STATE_STOPPING then
    if negb (nn_timer_isidle (task_timer self)) then Ret (self, w)
    else
      s ← nn_fsm_stopped_noevent fsm_of set_fsm_of (set_req_state self NN_REQ_STATE_IDLE, w);
      Ret (set_req_stopped s.1 true, s.2)
  else nn_fsm_bad (req_state self) src type.

Definition req_feed : ST → Z → Z → srcptr → outcome ST := nn_fsm_feed fsm_of nn_req_handler nn_req_shutdown.
Definition req_action : ST → Z → outcome ST := nn_fsm_action fsm_of nn_req_handler nn_req_shutdown.

(** [id] is the number [nn_random_generate] yields.  The [stopped] event of a
    root machine is never raised. *)
Definition nn_req_init (s s' : T) (id : Z) (w : W) : outcome ST :=
  nn_fsm_start fsm_of set_fsm_of (λ _, false) nn_req_handler
    (Req (nn_xreq_init s s') NN_FSM_STATE_IDLE NN_REQ_STATE_IDLE NN_REQ_DEFAULT_RESEND_IVL id
       (VMsg [] [] []) (Live (VMsg [] [] [])) nn_timer_init None false, w).

Definition nn_req_term (self : nn_req T) : outcome unit :=
  nn_timer_term (task_timer self);;
  obj_term (task_reply self);;
  nn_assert (req_fsm self =? NN_FSM_STATE_IDLE);;
  nn_xreq_term (req_xreq self).
Definition nn_req_destroy (self : nn_req T) : outcome unit := nn_req_term self.

Definition nn_req_stop (s : ST) : outcome ST := nn_fsm_stop fsm_of set_fsm_of nn_req_shutdown s.

(** One turn of the loop of [nn_req_in]; [Some tt]: return. *)
Definition nn_req_in_body (s : ST) : outcome (ST * option unit) :=
  let '(self, w) := s in
  '(xreq, w, rc, out) ← nn_xreq_recv (req_xreq self) w;
  let self := set_reply (set_xreq self xreq) (obj_update (task_reply self) out) in
  if rc =? - EAGAIN then Ret ((self, w), Some tt)
  else
    nn_assert (rc =? 0);;
    reply ← deref (out_msg out);
    if negb (nn_req_inprogress self) then Ret ((set_reply self Dead, w), None)
    else if negb (bool_decide (length (sphdr reply) = 4%nat)) then Ret ((set_reply self Dead, w), None)
    else
      reqid ← nn_getl (sphdr reply);
      if Z.land reqid 0x80000000 =? 0 then Ret ((set_reply self Dead, w), None)
      else if negb (reqid =? Z.lor (task_id self) 0x80000000) then Ret ((set_reply self Dead, w), None)
      else
        let self := set_reply self (Live (set_sphdr reply [])) in
        s ← (if req_state self =? NN_REQ_STATE_ACTIVE then req_action (self, w) NN_REQ_ACTION_IN
             else Ret (self, w));
        Ret (s, Some tt).

Definition nn_req_in (fuel : nat) (s : ST) (pipe : pid) : outcome ST :=
  xreq ← nn_xreq_in (req_xreq s.1) pipe;
  '(s, _) ← while fuel nn_req_in_body (set_xreq s.1 xreq, s.2);
  Ret s.

Definition nn_req_out (s : ST) (pipe : pid) : outcome ST :=
  '(xreq, _) ← nn_xreq_out (req_xreq s.1) pipe;
  let self := set_xreq s.1 xreq in
  if req_state self =? NN_REQ_STATE_DELAYED then req_action (self, s.2) NN_REQ_ACTION_OUT
  else Ret (self, s.2).

Definition nn_req_rm (s : ST) (pipe : pid) : outcome ST :=
  '(xreq, _) ← nn_xreq_rm (req_xreq s.1) pipe;
  let self := set_xreq s.1 xreq in
  if bool_decide (Some pipe = sent_to self) then req_action (self, s.2) NN_REQ_ACTION_PIPE_RM
  else Ret (self, s.2).

Definition nn_req_events (self : nn_req T) : Z :=
  if req_state self =? NN_REQ_STATE_DONE
  then Z.lor NN_SOCKBASE_EVENT_OUT NN_SOCKBASE_EVENT_IN else NN_SOCKBASE_EVENT_OUT.

Definition nn_req_csend (s : ST) (msg : vmsg) : outcome (ST * Z) :=
  let id := u32 (task_id s.1 + 1) in
  nn_assert (bool_decide (length (sphdr msg) = 0%nat));;
  hdr ← nn_putl (replicate 4 0) (Z.lor id 0x80000000);
  s ← req_action (set_request s.1 id (set_sphdr msg hdr), s.2) NN_REQ_ACTION_SENT;
  Ret (s, 0).

Definition nn_req_crecv (s : ST) : outcome (ST * Z * option vmsg) :=
  if negb (nn_req_inprogress s.1) then Ret (s, - EFSM, None)
  else if negb (req_state s.1 =? NN_REQ_STATE_DONE) then Ret (s, - EAGAIN, None)
  else
    msg ← (match task_reply s.1 with Live m => Ret m | Dead => Fail Crash end);
    s ← req_action (set_reply s.1 (Live (VMsg [] [] [])), s.2) NN_REQ_ACTION_RECEIVED;
    Ret (s, 0, Some msg).

(** An option value is its size and, when that is [sizeof (int)], the integer. *)
Definition nn_req_setopt (self : nn_req T) (level option : Z) (len val : Z) : nn_req T * Z :=
  if negb (level =? NN_REQ) then (self, - ENOPROTOOPT)
  else if option =? NN_REQ_RESEND_IVL then
    if negb (len =? 4) then (self, - EINVAL) else (set_ivl self val, 0)
  else (self, - ENOPROTOOPT).

Definition nn_req_getopt (self : nn_req T) (level opt len : Z) : Z * option (Z * Z) :=
  if negb (level =? NN_REQ) then (- ENOPROTOOPT, None)
  else if opt =? NN_REQ_RESEND_IVL then
    if len <? 4 then (- EINVAL, None) else (0, Some (resend_ivl self, 4))
  else (- ENOPROTOOPT, None).

(** ** The context: every step ends with [nn_ctx_leave] *)

Definition req_leave : ST → outcome ST :=
  nn_ctx_leave (λ s, task_timer s.1) (λ s t, (set_timer s.1 t, s.2))
    (λ s ev, req_feed s NN_REQ_SRC_RESEND_TIMER ev P_timer).

End req.

Section steps.
Context `{ListStore T} `{PipeFinite W vmsg}.

(** A step of the socket: a call of the core, a step of the worker thread for the
    timer, the option, the request to stop. *)
Inductive req_op : Type :=
| Q_call (c : call W vmsg)
| Q_worker (ws : wstep)
| Q_ivl (ms : Z)
| Q_stop.

Definition req_world : Type := nn_req T * W * gset pid.

Definition req_exec (σ : req_world) (op : req_op) : outcome (req_world * Z * option vmsg) :=
  let '(self, w, ps) := σ in
  match op with
  | Q_call (C_add p sp rp) =>
      '(xreq, rc) ← nn_xreq_add (req_xreq self) p sp rp;
      s ← req_leave (set_xreq self xreq, w); Ret (s, {[p]} ∪ ps, rc, None)
  | Q_call (C_rm p w') => s ← nn_req_rm (self, w') p; s ← req_leave s; Ret (s, ps ∖ {[p]}, 0, None)
  | Q_call (C_in p w') =>
      s ← nn_req_in (S (pending w')) (self, w') p; s ← req_leave s; Ret (s, ps, 0, None)
  | Q_call (C_out p w') => s ← nn_req_out (self, w') p; s ← req_leave s; Ret (s, ps, 0, None)
  | Q_call (C_send m) => '(s, rc) ← nn_req_csend (self, w) m; s ← req_leave s; Ret (s, ps, rc, None)
  | Q_call C_recv => '(s, rc, m) ← nn_req_crecv (self, w); s ← req_leave s; Ret (s, ps, rc, m)
  | Q_worker ws =>
      t ← worker_step (task_timer self) ws;
      s ← req_leave (set_timer self t, w); Ret (s, ps, 0, None)
  | Q_ivl ms =>
      let '(self, rc) := nn_req_setopt self NN_REQ NN_REQ_RESEND_IVL 4 ms in
      s ← req_leave (self, w); Ret (s, ps, rc, None)
  | Q_stop => s ← nn_req_stop (self, w); s ← req_leave s; Ret (s, ps, 0, None)
  end.

End steps.

(** ** Invariant *)

Section props.
Context `{ListStoreOk T} `{PipeFinite W vmsg} `{!PipeParse W}.

(** [m] is the body of a reply to request [id]: a message that a pipe delivered
    with the id, high bit set, as its header. *)
Definition good_reply (w : W) (id : Z) (m : vmsg) : Prop :=
  ∃ p rc m0 m1, (p, m0) ∈ recvd w ∧ split_as rc m0 (O_msg m1) ∧ length (sphdr m1) = 4%nat ∧
    nn_getl (sphdr m1) = Ret (Z.lor id 0x80000000) ∧ m = set_sphdr m1 [].

Definition request_hdr (id : Z) : list Z := be_split 4 (Z.lor id 0x80000000).

(** State, timer and pipe of a request: what each state of the machine means. *)
Inductive req_phase (self : nn_req T) (w : W) (ps : gset pid) : Prop :=
| rp_passive :
    req_state self = NN_REQ_STATE_PASSIVE → trep (task_timer self) T_idle → sent_to self = None →
    req_phase self w ps
| rp_delayed :
    req_state self = NN_REQ_STATE_DELAYED → trep (task_timer self) T_idle → sent_to self = None →
    (∀ x, x ∈ ps → x ∉ writable w) → req_phase self w ps
| rp_active p :
    req_state self = NN_REQ_STATE_ACTIVE → trep (task_timer self) T_armed → sent_to self = Some p →
    p ∈ ps → req_phase self w ps
| rp_timer :
    req_state self = NN_REQ_STATE_TIMED_OUT ∨ req_state self = NN_REQ_STATE_CANCELLING ∨
      req_state self = NN_REQ_STATE_STOPPING_TIMER →
    trep (task_timer self) T_stopping → sent_to self = None → req_phase self w ps
| rp_done :
    req_state self = NN_REQ_STATE_DONE → trep (task_timer self) T_idle → sent_to self = None →
    req_phase self w ps.

Definition reply_ok (self : nn_req T) (w : W) : Prop :=
  req_state self = NN_REQ_STATE_STOPPING_TIMER ∨ req_state self = NN_REQ_STATE_DONE →
  match task_reply self with Live m => good_reply w (task_id self) m | Dead => True end.

Definition hdr_ok (self : nn_req T) : Prop :=
  req_state self ≠ NN_REQ_STATE_PASSIVE → sphdr (task_request self) = request_hdr (task_id self).

(** The machine runs. *)
Record req_base (self : nn_req T) (w : W) (ps : gset pid) : Prop := {
  rb_xreq : xreq_inv (req_xreq self) w ps;
  rb_ivl : 0 ≤ resend_ivl self;
  rb_fsm : req_fsm self = NN_FSM_STATE_ACTIVE;
  rb_stopped : req_stopped self = false;
}.

Record req_inv (self : nn_req T) (w : W) (ps : gset pid) : Prop := {
  ri_base : req_base self w ps;
  ri_phase : req_phase self w ps;
  ri_hdr : hdr_ok self;
  ri_reply : reply_ok self w;
}.

Lemma good_reply_mono w w' id m l : recvd w' = recvd w ++ l → good_reply w id m → good_reply w' id m.
Proof.
  intros E (p & rc & m0 & m1 & Hin & ?). exists p, rc, m0, m1. split; [|done]. rewrite E. set_solver.
Qed.

Lemma phase_events self w ps : req_phase self w ps → tm_events (task_timer self) = [].
Proof. by destruct 1 as [? [? _]|? [? _]|? ? [? _]|? [? _]|? [? _]]. Qed.

Lemma req_leave_quiet s : tm_events (task_timer s.1) = [] → req_leave s = Ret s.
Proof. exact (leave_quiet _ _ _ s). Qed.

Lemma stop_timer_ok (self : nn_req T) st ph :
  trep (task_timer self) ph → ph ≠ T_idle →
  ∃ t, stop_timer self st = Ret (set_req_state (set_sent_to (set_timer self t) None) st) ∧
    trep t T_stopping.
Proof.
  intros Ht Hne. unfold stop_timer. destruct (trep_stop _ _ Ht) as (t & -> & Ht'). step.
  rewrite decide_False in Ht' by done. by exists t.
Qed.

(** The stored request has gone to one writable pipe, or there is none. *)
Definition dispatched (self' : nn_req T) (w w' : W) (ps : gset pid) : Prop :=
  (req_state self' = NN_REQ_STATE_DELAYED ∧ w' = w ∧ ∀ x, x ∈ ps → x ∉ writable w) ∨
  (req_state self' = NN_REQ_STATE_ACTIVE ∧ ∃ x, x ∈ ps ∧ x ∈ writable w ∧
     sent w' = sent w ++ [(x, task_request self')]).

(** A handler leaves the request alone. *)
Definition same_task (self self' : nn_req T) : Prop :=
  task_id self' = task_id self ∧ task_request self' = task_request self.

Lemma action_send_ok (self : nn_req T) w ps (delay : bool) :
  req_base self w ps → trep (task_timer self) T_idle → sent_to self = None →
  sphdr (task_request self) = request_hdr (task_id self) →
  (delay = false → ∃ x, x ∈ ps ∧ x ∈ writable w) →
  ∃ self' w', nn_req_action_send (self, w) delay = Ret (self', w') ∧ req_inv self' w' ps ∧
    same_task self self' ∧ recvd w' = recvd w ∧ dispatched self' w w' ps.
Proof.
  intros [Hx Hivl Hf Hst] Ht Hs Hh Hd. unfold nn_req_action_send.
  destruct (xreq_send_to_ok _ _ _ (task_request self) Hx)
    as [[-> Hn]|(xreq & w' & x & -> & Hx' & Hxp & Hxw & Hsent & Hrv)]; step.
  - destruct delay; [|destruct Hd as (x & ? & ?); [done|]; by destruct (Hn x)].
    cbn. eexists _, w. split; [reflexivity|]. split; [|split_and!; try done; by left].
    split; [by split|by apply rp_delayed|by intros _|by intros [|]].
  - cbn [Z.eqb EAGAIN Z.opp]. destruct (trep_start _ _ Ht Hivl) as (t & Et & Ht').
    cbn [task_timer set_xreq resend_ivl]. rewrite Et. step.
    eexists _, w'. split; [reflexivity|]. split; [|split_and!; try done; right; split; [done|by exists x]].
    split; [by split|by eapply rp_active|by intros _|by intros [|]].
Qed.

(** Two hypotheses put the machine into different states. *)
Ltac bad_state :=
  match goal with
  | H1 : req_state ?s = _, H2 : req_state ?s = _ |- _ => rewrite H1 in H2; discriminate H2
  end.

(** An action of a running machine goes to the handler. *)
Lemma req_action_run (self : nn_req T) w type :
  req_fsm self = NN_FSM_STATE_ACTIVE → 0 < type →
  req_action (self, w) type = nn_req_handler (self, w) NN_FSM_ACTION type P_null.
Proof.
  intros Hf Ht. unfold req_action, nn_fsm_action, nn_fsm_feed, fsm_of. cbn [fst]. rewrite Hf.
  by rewrite (proj2 (Z.ltb_lt 0 type)) by done.
Qed.

(** The machine only moves to a state where it waits for the timer to stop. *)
Lemma stopping_inv (self : nn_req T) w ps ph st :
  req_base self w ps → trep (task_timer self) ph → ph ≠ T_idle →
  st = NN_REQ_STATE_TIMED_OUT ∨ st = NN_REQ_STATE_CANCELLING ∨
    (st = NN_REQ_STATE_STOPPING_TIMER ∧
     match task_reply self with Live m => good_reply w (task_id self) m | Dead => True end) →
  sphdr (task_request self) = request_hdr (task_id self) →
  ∃ self', stop_timer self st = Ret self' ∧ req_inv self' w ps ∧ req_state self' = st ∧
    task_id self' = task_id self ∧ task_request self' = task_request self ∧
    task_reply self' = task_reply self.
Proof.
  intros [Hx Hivl Hf Hs] Ht Hne Hst Hh. destruct (stop_timer_ok _ st _ Ht Hne) as (t & -> & Ht').
  eexists. split; [reflexivity|]. split; [|done]. split.
  - by split.
  - apply rp_timer; [cbn; tauto|done..].
  - by intros _.
  - intros Hd. cbn in *. destruct Hst as [-> |[-> |[_ ?]]]; [by destruct Hd..|done].
Qed.

Lemma dispatched_inprogress self w w' ps : dispatched self w w' ps → nn_req_inprogress self = true.
Proof. unfold nn_req_inprogress. by intros [(-> & _)|(-> & _)]. Qed.

(** The handler learns that there is a new request. *)
Lemma sent_ok (self : nn_req T) w ps :
  req_base self w ps → req_phase self w ps →
  sphdr (task_request self) = request_hdr (task_id self) →
  ∃ self' w', nn_req_handler (self, w) NN_FSM_ACTION NN_REQ_ACTION_SENT P_null = Ret (self', w') ∧
    req_inv self' w' ps ∧ same_task self self' ∧ recvd w' = recvd w ∧ nn_req_inprogress self' = true ∧
    (if (req_state self =? NN_REQ_STATE_PASSIVE) || (req_state self =? NN_REQ_STATE_DONE)
     then dispatched self' w w' ps else w' = w).
Proof.
  intros Hb Hph Hh. unfold nn_req_handler.
  destruct Hph as [Hst Ht Hs|Hst Ht Hs Hn|p Hst Ht Hs Hp|Hst Ht Hs|Hst Ht Hs].
  1,5: rewrite Hst; cbn -[nn_req_action_send];
    destruct (action_send_ok self w ps true Hb Ht Hs Hh) as (self' & w' & -> & ? & ? & ? & Hd); [done|];
    exists self', w'; split_and!; try done; by eapply dispatched_inprogress.
  - rewrite Hst. cbn. exists self, w. split; [done|]. split; [|split_and!; try done].
    + split; [done|by apply rp_delayed|by intros _|intros [Hd|Hd]; bad_state].
    + unfold nn_req_inprogress. by rewrite Hst.
  - rewrite Hst. cbn -[stop_timer].
    destruct (stopping_inv self w ps T_armed NN_REQ_STATE_CANCELLING) as (self' & -> & Hi & Hst' & Hid & Hq & _);
      [done|done|done|tauto|done|]. step.
    exists self', w. split_and!; try done. unfold nn_req_inprogress. by rewrite Hst'.
  - exists (set_req_state self NN_REQ_STATE_CANCELLING), w. split; [|split; [|split_and!; try done]].
    + destruct Hst as [Hst|[Hst|Hst]]; rewrite Hst; cbn; [done| |done]. by destruct self; cbn in *; subst.
    + split; [by destruct Hb; split|apply rp_timer; [cbn; tauto|done..]|by intros _|by intros [|]].
    + by destruct Hst as [Hst|[Hst|Hst]]; rewrite Hst.
Qed.

(** A request replaces the one in progress; it is sent at once if there is none. *)
Lemma csend_ok (self : nn_req T) w ps m :
  req_inv self w ps → sphdr m = [] →
  ∃ self' w', nn_req_csend (self, w) m = Ret (self', w', 0) ∧ req_inv self' w' ps ∧
    task_id self' = u32 (task_id self + 1) ∧
    task_request self' = set_sphdr m (request_hdr (task_id self')) ∧ recvd w' = recvd w ∧
    nn_req_inprogress self' = true ∧
    (if (req_state self =? NN_REQ_STATE_PASSIVE) || (req_state self =? NN_REQ_STATE_DONE)
     then dispatched self' w w' ps else w' = w).
Proof.
  intros [Hb Hph _ _] Hm. unfold nn_req_csend. cbn [fst snd]. rewrite Hm. step.
  change (replicate 4 0) with [0; 0; 0; 0]. rewrite nn_putl_be. step. rewrite app_nil_r.
  set (id := u32 (task_id self + 1)). fold (request_hdr id).
  set (self1 := set_request self id (set_sphdr m (request_hdr id))).
  assert (req_base self1 w ps) as Hb1 by by destruct Hb.
  assert (req_phase self1 w ps) as Hph1.
  { destruct Hph; [by apply rp_passive|by apply rp_delayed|by eapply rp_active|by apply rp_timer|by apply rp_done]. }
  rewrite req_action_run by (done || by destruct Hb).
  destruct (sent_ok self1 w ps Hb1 Hph1) as (self' & w' & -> & ? & [Hid Hq] & ? & ? & ?); [done|]. step.
  exists self', w'. split_and!; try done. by rewrite Hq, Hid.
Qed.

(** Replacing the raw socket and the world, between two messages. *)
Lemma req_frame (self : nn_req T) w ps xreq w' ps' l :
  req_inv self w ps → xreq_inv xreq w' ps' → recvd w' = recvd w ++ l →
  (req_state self = NN_REQ_STATE_DELAYED → ∀ x, x ∈ ps' → x ∉ writable w') →
  (∀ p, sent_to self = Some p → p ∈ ps') →
  req_inv (set_xreq self xreq) w' ps'.
Proof.
  intros [[_ Hivl Hf Hst] Hph Hh Hr] Hx Hrv Hn Hs. split; [by split| |done|].
  - destruct Hph; [by apply rp_passive|apply rp_delayed; auto|eapply rp_active; eauto|by apply rp_timer|by apply rp_done].
  - intros Hd. specialize (Hr Hd). cbn in *. destruct (task_reply self); [|done].
    by eapply good_reply_mono.
Qed.

Lemma req_frame_reply (self : nn_req T) w ps o :
  req_inv self w ps →
  (match o with Live m => good_reply w (task_id self) m | Dead => True end) →
  req_inv (set_reply self o) w ps.
Proof.
  intros [[? Hivl Hf Hst] Hph Hh Hr] Ho. split; [by split| |done|by intros _].
  destruct Hph; [by apply rp_passive|by apply rp_delayed|by eapply rp_active|by apply rp_timer|by apply rp_done].
Qed.

(** Receiving: only in state DONE there is something to return. *)
Lemma crecv_ok (self : nn_req T) w ps :
  req_inv self w ps →
  if negb (nn_req_inprogress self) then nn_req_crecv (self, w) = Ret (self, w, - EFSM, None)
  else if negb (req_state self =? NN_REQ_STATE_DONE) then nn_req_crecv (self, w) = Ret (self, w, - EAGAIN, None)
  else match task_reply self with
       | Live m => good_reply w (task_id self) m ∧
           ∃ self', nn_req_crecv (self, w) = Ret (self', w, 0, Some m) ∧ req_inv self' w ps ∧
             nn_req_inprogress self' = false
       | Dead => nn_req_crecv (self, w) = Fail Crash
       end.
Proof.
  intros [Hb Hph Hh Hr]. unfold nn_req_crecv. cbn [fst].
  destruct (nn_req_inprogress self); cbn [negb]; [|done].
  destruct (req_state self =? NN_REQ_STATE_DONE) eqn:Hd; cbn [negb]; [|done].
  apply Z.eqb_eq in Hd. specialize (Hr (or_intror Hd)). destruct (task_reply self) as [m|]; [|done].
  split; [done|]. step. cbn [snd].
  rewrite req_action_run by (done || by destruct Hb). unfold nn_req_handler. cbn [req_state set_reply]. rewrite Hd.
  cbn. eexists. split; [reflexivity|]. split; [|done].
  assert (trep (task_timer self) T_idle ∧ sent_to self = None) as [Ht Hs].
  { destruct Hph as [Hst ? ?|Hst ? ? ?|p Hst ? ? ?|Hst ? ?|? ? ?]; try bad_state; [|done].
    destruct Hst as [|[|]]; bad_state. }
  split; [by destruct Hb; split|by apply rp_passive|by intros []|by intros [|]].
Qed.

(** One turn of the loop that looks for the reply. *)
Lemma req_in_body_ok (self : nn_req T) w ps :
  req_inv self w ps →
  ∃ self' w' r, nn_req_in_body (self, w) = Ret ((self', w'), r) ∧ req_inv self' w' ps ∧
    sent w' = sent w ∧ (r = None → (pending w' < pending w)%nat).
Proof.
  intros Hi. pose proof Hi as [[Hx Hivl Hf Hst] Hph Hh Hr]. unfold nn_req_in_body.
  destruct (xreq_recv_ok _ _ _ Hx) as [[-> Hn]|(xreq & w' & rc & x & m & out & -> & Hsp & Hx' & Hxp & Hrv &
    Hs & Hwr & Hpend)]; step.
  - cbn. exists self, w, (Some tt). split; [by destruct self|]. done.
  - assert (req_inv (set_xreq self xreq) w' ps) as Hi'.
    { eapply req_frame; [done|done|done| |].
      - intros Hd y Hy. rewrite Hwr. destruct Hph as [?|? ? ? Hnw|? ?|[|[|]]|?]; try bad_state. by apply Hnw.
      - intros p Hp. destruct Hph as [|? ? ?|q ? ? E ?|? ? E|? ? E]; congruence. }
    assert (∀ (self1 : nn_req T), req_inv self1 w' ps → ∃ self' w2 r,
      Ret (set_reply self1 Dead, w', @None unit) = Ret ((self', w2), r) ∧ req_inv self' w2 ps ∧ sent w2 = sent w ∧
      (r = None → (pending w2 < pending w)%nat)) as Hdead.
    { intros self1 Hi1. eexists _, w', None. split; [reflexivity|]. split; [by apply req_frame_reply|done]. }
    destruct out as [| |reply]; [done| |].
    { cbn. eexists _, w', (Some tt). split; [reflexivity|]. split; [by apply req_frame_reply|done]. }
    cbn [Z.eqb EAGAIN Z.opp]. step. cbn [out_msg]. step.
    set (self1 := set_reply (set_xreq self xreq) (obj_update (task_reply self) (O_msg reply))).
    change (set_reply self1 Dead) with (set_reply (set_xreq self xreq) Dead).
    destruct (nn_req_inprogress self1); cbn [negb]; [|by apply Hdead].
    case_bool_decide as Hlen; cbn [negb]; [|by apply Hdead].
    destruct (sphdr reply) as [|a [|b [|c [|d [|]]]]] eqn:Hsphdr; try done.
    destruct (nn_getl [a; b; c; d]) as [reqid|] eqn:Hg; [|done]. step.
    destruct (Z.land reqid 0x80000000 =? 0); [by apply Hdead|].
    change (task_id self1) with (task_id self).
    destruct (reqid =? Z.lor (task_id self) 0x80000000) eqn:Hid; cbn [negb]; [|by apply Hdead].
    apply Z.eqb_eq in Hid. subst reqid.
    assert (good_reply w' (task_id self) (set_sphdr reply [])) as Hgood.
    { exists x, rc, m, reply. split; [rewrite Hrv; set_solver|]. by rewrite Hsphdr. }
    set (self2 := set_reply self1 (Live (set_sphdr reply []))).
    assert (req_inv self2 w' ps) as Hi2.
    { change self2 with (set_reply (set_xreq self xreq) (Live (set_sphdr reply []))). by apply req_frame_reply. }
    destruct (req_state self2 =? NN_REQ_STATE_ACTIVE) eqn:Ha; [|by exists self2, w', (Some tt)].
    apply Z.eqb_eq in Ha. destruct Hi2 as [Hb2 Hph2 Hh2 _].
    rewrite req_action_run by (done || by destruct Hb2).
    destruct Hph2 as [?|?|p _ Ht _ _|[|[|]]|?]; try bad_state.
    destruct (stopping_inv self2 w' ps T_armed NN_REQ_STATE_STOPPING_TIMER) as (self3 & E & Hi3 & _);
      [done|done|done|by right; right|by apply Hh2; rewrite Ha|].
    unfold nn_req_handler. rewrite Ha. cbn -[stop_timer]. rewrite E. step. by exists self3, w', (Some tt).
Qed.

Lemma req_in_ok fuel (self : nn_req T) w ps p w' :
  req_inv self w ps → allowed w ps (C_in p w') → (pending w' < fuel)%nat →
  ∃ self' w'', nn_req_in fuel (self, w') p = Ret (self', w'') ∧ req_inv self' w'' ps ∧ sent w'' = sent w.
Proof.
  intros Hi Ha Hfuel. pose proof Hi as [[Hx _ _ _] Hph _ _]. unfold nn_req_in. cbn [fst snd].
  destruct (xreq_in_ok _ _ _ _ _ Hx Ha) as (xreq & -> & Hx'). step.
  destruct Ha as (Hp & Hn & (_ & Hs & Hrv) & Hwr & Hrd).
  assert (req_inv (set_xreq self xreq) w' ps) as Hi'.
  { eapply (req_frame _ _ _ _ _ _ []); [done|done|by rewrite app_nil_r| |].
    - intros Hd y Hy. rewrite Hwr. destruct Hph as [?|? ? ? Hnw|? ?|[|[|]]|?]; try bad_state. by apply Hnw.
    - intros q Hq. destruct Hph as [|? ? ?|q' ? ? E ?|? ? E|? ? E]; congruence. }
  destruct (while_ok (λ s, req_inv s.1 s.2 ps ∧ sent s.2 = sent w) (λ s, pending s.2)
    (λ s _, req_inv s.1 s.2 ps ∧ sent s.2 = sent w) nn_req_in_body)
    with (fuel := fuel) (s := (set_xreq self xreq, w')) as ([self' w''] & r & -> & ? & ?).
  - intros [r u] [Hr Hu]. cbn [fst snd] in *.
    destruct (req_in_body_ok r u ps Hr) as (r' & u' & o & E & Hr' & Hsu & Hpd).
    exists (r', u'), o. split; [done|]. cbn. destruct o; split; try done; [congruence| |].
    + split; [done|congruence].
    + by apply Hpd.
  - by split.
  - done.
  - step. by exists self', w''.
Qed.

(** A pipe that becomes writable gets the request that was waiting for one. *)
Lemma req_out_ok (self : nn_req T) w ps p w' :
  req_inv self w ps → allowed w ps (C_out p w') →
  ∃ self' w'', nn_req_out (self, w') p = Ret (self', w'') ∧ req_inv self' w'' ps ∧
    (if req_state self =? NN_REQ_STATE_DELAYED then req_state self' = NN_REQ_STATE_ACTIVE ∧
       ∃ x, x ∈ ps ∧ sent w'' = sent w ++ [(x, task_request self)]
     else w'' = w').
Proof.
  intros Hi Ha. pose proof Hi as [[Hx Hivl Hf Hst] Hph Hh Hr]. unfold nn_req_out. cbn [fst snd].
  destruct (xreq_out_ok _ _ _ _ _ Hx Ha) as (xreq & prio & -> & Hx'). step.
  destruct Ha as (Hp & Hn & (_ & Hs & Hrv) & Hwr & Hrd). cbn [req_state set_xreq].
  destruct (req_state self =? NN_REQ_STATE_DELAYED) eqn:Hd.
  - apply Z.eqb_eq in Hd. rewrite req_action_run by done. unfold nn_req_handler. cbn [req_state set_xreq].
    rewrite Hd. cbn -[nn_req_action_send].
    destruct Hph as [?|_ Ht Hst' _|? ?|[|[|]]|?]; try bad_state.
    destruct (action_send_ok (set_xreq self xreq) w' ps false) as (self' & w'' & -> & ? & [_ Hq] & _ & Hdis);
      [by split|done|done|apply Hh; by rewrite Hd|intros _; exists p; rewrite Hwr; set_solver|].
    exists self', w''. split; [done|]. split; [done|].
    destruct Hdis as [(_ & _ & Hnw)|(? & x & ? & _ & Hsx)]; [by destruct (Hnw p Hp); rewrite Hwr; set_solver|].
    split; [done|]. exists x. split; [done|]. by rewrite Hsx, Hs, Hq.
  - apply Z.eqb_neq in Hd. exists (set_xreq self xreq), w'. split; [done|]. split; [|done].
    eapply (req_frame _ _ _ _ _ _ []); [done|done|by rewrite app_nil_r|done|].
    intros q Hq. destruct Hph as [|? ? ?|q' ? ? E ?|? ? E|? ? E]; congruence.
Qed.

(** When the pipe a request was sent to goes away, the request is re-sent. *)
Lemma req_rm_ok (self : nn_req T) w ps p w' :
  req_inv self w ps → allowed w ps (C_rm p w') →
  ∃ self', nn_req_rm (self, w') p = Ret (self', w') ∧ req_inv self' w' (ps ∖ {[p]}) ∧
    (sent_to self = Some p → req_state self' = NN_REQ_STATE_TIMED_OUT).
Proof.
  intros Hi Ha. pose proof Hi as [[Hx Hivl Hf Hst] Hph Hh Hr]. unfold nn_req_rm. cbn [fst snd].
  destruct (xreq_rm_ok _ _ _ _ _ Hx Ha) as (xreq & prio & -> & Hx'). step.
  destruct Ha as (Hp & (_ & Hs & Hrv) & Hwr & Hrd). cbn [sent_to set_xreq].
  case_bool_decide as Hsp.
  - destruct Hph as [? ? E|? ? E|q Ha Ht E Hq|? ? E|? ? E]; [congruence|congruence| |congruence|congruence].
    rewrite req_action_run by done. unfold nn_req_handler. cbn [req_state set_xreq]. rewrite Ha.
    cbn -[stop_timer].
    destruct (stopping_inv (set_xreq self xreq) w' (ps ∖ {[p]}) T_armed NN_REQ_STATE_TIMED_OUT)
      as (self' & -> & ? & ? & _); [by split|done|done|by left|apply Hh; by rewrite Ha|].
    step. by exists self'.
  - exists (set_xreq self xreq). split; [done|]. split; [|by intros ?; destruct Hsp].
    eapply (req_frame _ _ _ _ _ _ []); [done|done|by rewrite app_nil_r| |].
    + intros Hd y Hy. rewrite Hwr. destruct Hph as [?|? ? ? Hnw|? ?|[|[|]]|?]; try bad_state. set_solver.
    + intros q Hq. destruct Hph as [|? ? ?|q' ? ? E Hin|? ? E|? ? E]; [congruence|congruence| |congruence..].
      assert (q' = q) as -> by congruence. apply elem_of_difference. split; [done|]. set_solver.
Qed.

Lemma req_add_ok (self : nn_req T) w ps p sp rp :
  req_inv self w ps → allowed w ps (C_add p sp rp) →
  ∃ xreq, nn_xreq_add (req_xreq self) p sp rp = Ret (xreq, 0) ∧
    req_inv (set_xreq self xreq) w ({[p]} ∪ ps).
Proof.
  intros Hi Ha. pose proof Hi as [[Hx Hivl Hf Hst] Hph Hh Hr].
  destruct (xreq_add_ok _ _ _ _ _ _ Hx Ha) as (xreq & E & Hx'). exists xreq. split; [done|].
  destruct Ha as (_ & Hnw' & _). eapply (req_frame _ _ _ _ _ _ []); [done|done|by rewrite app_nil_r| |].
  - intros Hd y Hy. destruct Hph as [?|? ? ? Hnw|? ?|[|[|]]|?]; try bad_state.
    apply elem_of_union in Hy as [->%elem_of_singleton|Hy]; [done|by apply Hnw].
  - intros q Hq. destruct Hph as [|? ? ?|q' ? ? Eq Hin|? ? Eq|? ? Eq]; [congruence|congruence| |congruence..].
    assert (q' = q) as -> by congruence. set_solver.
Qed.

(** The timer's event is processed on leaving the context. *)
Lemma req_leave_one (self : nn_req T) w t ev s :
  tm_events t = [ev] →
  req_feed (set_timer self (set_tm_events t []), w) NN_REQ_SRC_RESEND_TIMER ev P_timer = Ret s →
  tm_events (task_timer s.1) = [] →
  req_leave (set_timer self t, w) = Ret s.
Proof.
  intros He Hf Hs. unfold req_leave. by apply leave_one with (ev := ev).
Qed.

Lemma req_set_timer (self : nn_req T) w ps t :
  req_inv self w ps → (∀ ph, trep (task_timer self) ph → ph ≠ T_idle → trep t ph) →
  (trep (task_timer self) T_idle → trep t T_idle) → req_inv (set_timer self t) w ps.
Proof.
  intros [[? Hivl Hf Hst] Hph Hh Hr] Ht Hi. split; [by split| |done|done].
  destruct Hph; [apply rp_passive|apply rp_delayed|eapply rp_active|apply rp_timer|apply rp_done];
    try done; first [by apply Hi|by eapply Ht].
Qed.

(** A running machine, after the timer reported that it fired or stopped. *)
Lemma req_event_ok (self : nn_req T) w ps t ev :
  req_inv self w ps →
  (trep (task_timer self) T_armed ∧ ev = NN_TIMER_TIMEOUT ∧ trep t T_fired) ∨
  (trep (task_timer self) T_stopping ∧ ev = NN_TIMER_STOPPED ∧ trep t T_idle) →
  ∃ self' w', req_feed (set_timer self t, w) NN_REQ_SRC_RESEND_TIMER ev P_timer = Ret (self', w') ∧
    req_inv self' w' ps ∧ same_task self self' ∧ recvd w' = recvd w ∧
    (if ev =? NN_TIMER_TIMEOUT then w' = w ∧ req_state self' = NN_REQ_STATE_TIMED_OUT
     else if req_state self =? NN_REQ_STATE_STOPPING_TIMER then w' = w ∧ req_state self' = NN_REQ_STATE_DONE
     else dispatched self' w w' ps).
Proof.
  intros [[Hx Hivl Hf Hst] Hph Hh Hr] Hev. unfold req_feed, nn_fsm_feed, fsm_of.
  cbn [fst req_fsm set_timer]. rewrite Hf. cbn [Z.eqb negb NN_FSM_STATE_ACTIVE NN_FSM_STATE_STOPPING Pos.eqb].
  unfold nn_req_handler. cbn [req_state set_timer].
  destruct Hev as [(Ht & -> & Ht')|(Ht & -> & Ht')].
  - destruct Hph as [_ E _|_ E _ _|p Hs _ Hp _|_ E _|_ E _]; try (by pose proof (trep_phase _ _ _ Ht E)).
    rewrite Hs. cbn -[stop_timer].
    destruct (stopping_inv (set_timer self t) w ps T_fired NN_REQ_STATE_TIMED_OUT)
      as (self' & -> & ? & ? & ? & ? & _); [by split|done|done|by left|apply Hh; by rewrite Hs|].
    step. by exists self', w.
  - destruct Hph as [_ E _|_ E _ _|p _ E _ _|Hs _ Hsent|_ E _]; try (by pose proof (trep_phase _ _ _ Ht E)).
    assert (sphdr (task_request self) = request_hdr (task_id self)) as Hreq.
    { apply Hh. intros E. destruct Hs as [|[|]]; bad_state. }
    assert (∃ self' w', nn_req_action_send (set_timer self t, w) true = Ret (self', w') ∧
      req_inv self' w' ps ∧ same_task self self' ∧ recvd w' = recvd w ∧ dispatched self' w w' ps) as Hsend.
    { by apply (action_send_ok (set_timer self t) w ps true). }
    destruct Hs as [Hs|[Hs|Hs]]; rewrite Hs; cbn -[nn_req_action_send]; [exact Hsend|exact Hsend|].
    eexists _, w. split; [reflexivity|]. split; [|done].
    split; [by split|by apply rp_done|by intros _|]. intros _. apply Hr. by left.
Qed.

(** What a step of the worker thread leads to: nothing but less to do for it, a
    re-send that waits for the timer, a request on its way, or the end. *)
Definition worker_effect (self self' : nn_req T) (w w' : W) (ps : gset pid) : Prop :=
  (w' = w ∧ req_state self' = req_state self ∧ (work (task_timer self') < work (task_timer self))%nat) ∨
  (w' = w ∧ req_state self = NN_REQ_STATE_ACTIVE ∧ req_state self' = NN_REQ_STATE_TIMED_OUT) ∨
  ((req_state self = NN_REQ_STATE_TIMED_OUT ∨ req_state self = NN_REQ_STATE_CANCELLING) ∧
     dispatched self' w w' ps) ∨
  (w' = w ∧ req_state self = NN_REQ_STATE_STOPPING_TIMER ∧ req_state self' = NN_REQ_STATE_DONE).

Lemma req_worker_ok (self : nn_req T) w ps ws :
  req_inv self w ps → worker_ready (task_timer self) ws = true →
  ∃ t self' w', worker_step (task_timer self) ws = Ret t ∧
    req_leave (set_timer self t, w) = Ret (self', w') ∧ req_inv self' w' ps ∧
    same_task self self' ∧ recvd w' = recvd w ∧ worker_effect self self' w w' ps.
Proof.
  intros Hi Hw. assert (∃ ph, trep (task_timer self) ph) as [ph Ht] by (destruct Hi as [_ [] _ _]; eauto).
  destruct (trep_worker _ _ _ Ht Hw) as (t & Et & Hlt & [[He Ht']|Hev]); exists t.
  - exists (set_timer self t), w. split; [done|]. split; [by apply req_leave_quiet|].
    split; [|split; [done|split; [done|by left]]]. apply req_set_timer; [done| |].
    + intros ph' Hph' _. by rewrite (trep_phase _ _ _ Hph' Ht).
    + intros Hph'. by rewrite (trep_phase _ _ _ Hph' Ht).
  - assert (∃ ev, tm_events t = [ev] ∧
      ((trep (task_timer self) T_armed ∧ ev = NN_TIMER_TIMEOUT ∧ trep (set_tm_events t []) T_fired) ∨
       (trep (task_timer self) T_stopping ∧ ev = NN_TIMER_STOPPED ∧ trep (set_tm_events t []) T_idle)))
      as (ev & He & Hcase).
    { destruct Hev as [(-> & ? & ?)|(-> & ? & ?)]; eexists; (split; [done|]); [left|right]; done. }
    destruct (req_event_ok self w ps _ ev Hi Hcase) as (self' & w' & E & Hi' & Hs & Hrv & Hd).
    exists self', w'. split; [done|].
    split; [eapply req_leave_one; [done|done|by eapply phase_events, ri_phase]|].
    split; [done|]. split; [done|]. split; [done|]. right.
    destruct Hi as [_ Hph _ _].
    destruct Hcase as [(Hc & -> & _)|(Hc & -> & _)]; cbn in Hd.
    + left. destruct Hph as [_ E2 _|_ E2 _ _|p Hst _ _ _|_ E2 _|_ E2 _];
        try (by pose proof (trep_phase _ _ _ Hc E2)). by destruct Hd.
    + right. destruct Hph as [_ E2 _|_ E2 _ _|p _ E2 _ _|Hst _ _|_ E2 _];
        try (by pose proof (trep_phase _ _ _ Hc E2)).
      destruct Hst as [Hst|[Hst|Hst]]; rewrite Hst in Hd; [left; auto|left; auto|right].
      by destruct Hd.
Qed.

(** ** The end of a session *)

(** The socket was asked to stop, or has stopped. *)
Definition req_stop_inv (self : nn_req T) (w : W) : Prop :=
  xreq_inv (req_xreq self) w ∅ ∧
  ((req_fsm self = NN_FSM_STATE_STOPPING ∧ req_state self = NN_REQ_STATE_STOPPING ∧
     trep (task_timer self) T_stopping ∧ req_stopped self = false) ∨
   (req_fsm self = NN_FSM_STATE_IDLE ∧ req_state self = NN_REQ_STATE_IDLE ∧
     trep (task_timer self) T_idle ∧ req_stopped self = true)).

Lemma stop_events self w : req_stop_inv self w → tm_events (task_timer self) = [].
Proof. by intros [_ [(_ & _ & [? _] & _)|(_ & _ & [? _] & _)]]. Qed.

Lemma req_stop_ok (self : nn_req T) w :
  req_inv self w ∅ → ∃ self', nn_req_stop (self, w) = Ret (self', w) ∧ req_stop_inv self' w ∧
    task_reply self' = task_reply self.
Proof.
  intros [[Hx Hivl Hf Hst] Hph _ _]. assert (∃ ph, trep (task_timer self) ph) as [ph Ht] by (destruct Hph; eauto).
  unfold nn_req_stop, nn_fsm_stop, fsm_of, set_fsm_of. cbn [fst snd]. rewrite Hf. cbn [Z.eqb negb Pos.eqb NN_FSM_STATE_ACTIVE].
  unfold nn_req_shutdown. cbn [Z.eqb Pos.eqb andb NN_FSM_ACTION NN_FSM_STOP]. cbn [task_timer set_req_fsm].
  destruct (trep_stop _ _ Ht) as (t & -> & Ht'). step. cbn -[nn_timer_isidle].
  rewrite (trep_isidle _ _ Ht'). case_decide as Hd; cbn.
  - eexists. split; [reflexivity|]. split; [|done]. split; [done|right]. by split_and!.
  - eexists. split; [reflexivity|]. split; [|done]. split; [done|left]. by split_and!.
Qed.

Lemma req_stop_worker (self : nn_req T) w ws :
  req_stop_inv self w → worker_ready (task_timer self) ws = true →
  ∃ t self', worker_step (task_timer self) ws = Ret t ∧
    req_leave (set_timer self t, w) = Ret (self', w) ∧ req_stop_inv self' w ∧
    task_reply self' = task_reply self.
Proof.
  intros [Hx [(Hf & Hs & Ht & Hst)|(_ & _ & Ht & _)]] Hw; [|by rewrite (trep_idle_worker _ _ Ht) in Hw].
  destruct (trep_worker _ _ _ Ht Hw) as (t & Et & _ & [[He Ht']|[(? & _)|(_ & He & Ht')]]); [|done|]; exists t.
  - exists (set_timer self t). split; [done|]. split; [by apply req_leave_quiet|].
    split; [|done]. split; [done|left]. by split_and!.
  - exists (set_req_stopped (set_req_fsm (set_req_state (set_timer self (set_tm_events t [])) NN_REQ_STATE_IDLE)
      NN_FSM_STATE_IDLE) true).
    split; [done|]. split.
    + eapply req_leave_one; [done| |done]. unfold req_feed, nn_fsm_feed, fsm_of. cbn [fst req_fsm set_timer].
      rewrite Hf. cbn [Z.eqb negb NN_FSM_STATE_STOPPING Pos.eqb]. unfold nn_req_shutdown.
      cbn [Z.eqb Pos.eqb andb NN_REQ_SRC_RESEND_TIMER NN_FSM_ACTION]. step.
      cbn [req_state set_timer task_timer]. rewrite Hs. cbn [Z.eqb Pos.eqb NN_REQ_STATE_STOPPING].
      rewrite (trep_isidle _ _ Ht'). cbn. unfold nn_fsm_stopped_noevent, fsm_of. cbn. rewrite Hf. done.
    + split; [|done]. split; [done|right]. by split_and!.
Qed.

(** ** Sessions *)

Notation world := (req_world (T := T) (W := W)).
Notation op_of := (req_op (W := W)).

(** When the core, the worker thread and the user take each step.  A receive that
    would hand out a terminated reply is left out: see [req_stale_reply]. *)
Definition req_allowed (σ : world) (op : op_of) : Prop :=
  let '(self, w, ps) := σ in
  match op with
  | Q_call c => req_fsm self = NN_FSM_STATE_ACTIVE ∧ allowed w ps c ∧
      match c with
      | C_send m => sphdr m = []
      | C_recv => req_state self = NN_REQ_STATE_DONE → task_reply self ≠ Dead
      | _ => True
      end
  | Q_worker ws => worker_ready (task_timer self) ws = true
  | Q_ivl ms => req_fsm self = NN_FSM_STATE_ACTIVE ∧ 0 ≤ ms
  | Q_stop => req_fsm self = NN_FSM_STATE_ACTIVE ∧ ps = ∅
  end.

(** What a user can do that this state of the code does not survive, now or later: a
    header on a request, a negative resend interval, and receiving a reply that the
    protocol has terminated. *)
Definition req_risk (σ : world) (op : op_of) : Prop :=
  let '(self, _, _) := σ in
  match op with
  | Q_call (C_send m) => sphdr m ≠ []
  | Q_call C_recv => req_state self = NN_REQ_STATE_DONE ∧ task_reply self = Dead
  | Q_ivl ms => ms < 0
  | _ => False
  end.

(** When the core, the worker thread and the user can take each step. *)
Definition req_possible (σ : world) (op : op_of) : Prop :=
  let '(self, w, ps) := σ in
  match op with
  | Q_call c => req_fsm self = NN_FSM_STATE_ACTIVE ∧ allowed w ps c
  | Q_worker ws => worker_ready (task_timer self) ws = true
  | Q_ivl ms => req_fsm self = NN_FSM_STATE_ACTIVE
  | Q_stop => req_fsm self = NN_FSM_STATE_ACTIVE ∧ ps = ∅
  end.

Lemma req_possible_risk σ op : req_possible σ op → req_risk σ op ∨ req_allowed σ op.
Proof.
  destruct σ as [[self w] ps], op as [c|ws|ms|]; cbn [req_possible req_risk req_allowed]; [|tauto|intros ?|tauto].
  - intros [Hf Ha]. destruct c as [| | | |m|]; try (right; by split_and!).
    + destruct (decide (sphdr m = [])); [right; by split_and!|by left].
    + destruct (decide (req_state self = NN_REQ_STATE_DONE)); [|right; by split_and!].
      destruct (task_reply self) eqn:Er; [right; by split_and!|by left].
  - destruct (decide (0 ≤ ms)); [right; by split|left; lia].
Qed.

Definition req_any_inv (σ : world) : Prop :=
  let '(self, w, ps) := σ in req_inv self w ps ∨ (ps = ∅ ∧ req_stop_inv self w).

Inductive req_reach (σ0 : world) : world → Prop :=
| rr_start : req_reach σ0 σ0
| rr_step σ op σ' rc m :
    req_reach σ0 σ → req_allowed σ op → req_exec σ op = Ret (σ', rc, m) → req_reach σ0 σ'.

Lemma req_init_ok s s' τ τ' id w :
  l_rep s τ → lseq τ = ∅ → lfree τ = ∅ → l_rep s' τ' → lseq τ' = ∅ → lfree τ' = ∅ → pipe_inv w →
  ∃ self, nn_req_init s s' id w = Ret (self, w) ∧ req_inv self w ∅ ∧
    req_state self = NN_REQ_STATE_PASSIVE ∧ task_id self = id.
Proof.
  intros. eexists. split; [reflexivity|]. split; [|done]. split.
  - split; [by eapply xreq_init_inv|done|done|done].
  - by apply rp_passive.
  - by intros [].
  - by intros [|].
Qed.

Lemma inv_active self w ps :
  req_any_inv (self, w, ps) → req_fsm self = NN_FSM_STATE_ACTIVE → req_inv self w ps.
Proof. intros [Hi|(_ & _ & [(-> & _)|(-> & _)])] Ha; done. Qed.

Lemma inv_quiet self w ps : req_inv self w ps → req_leave (self, w) = Ret (self, w).
Proof. intros Hi. apply req_leave_quiet. by eapply phase_events, ri_phase. Qed.

Lemma req_call_ok self w ps c :
  req_inv self w ps → req_allowed (self, w, ps) (Q_call c) →
  ∃ self' w' ps' rc m, req_exec (self, w, ps) (Q_call c) = Ret (self', w', ps', rc, m) ∧ req_inv self' w' ps'.
Proof.
  intros Hi (_ & Ha & Hc). destruct c as [p sp rp|p u|p u|p u|m|]; cbn -[while req_leave nn_req_in].
  - destruct (req_add_ok _ _ _ _ _ _ Hi Ha) as (x & E & ?). rewrite E. step.
    erewrite inv_quiet by done. step. by eexists _, w, _, 0, None.
  - destruct (req_rm_ok _ _ _ _ _ Hi Ha) as (self' & -> & ? & _). step.
    erewrite inv_quiet by done. step. by eexists self', u, _, 0, None.
  - destruct (req_in_ok (S (pending u)) _ _ _ _ _ Hi Ha) as (self' & u' & -> & ? & _); [lia|]. step.
    erewrite inv_quiet by done. step. by eexists self', u', ps, 0, None.
  - destruct (req_out_ok _ _ _ _ _ Hi Ha) as (self' & u' & -> & ? & _). step.
    erewrite inv_quiet by done. step. by eexists self', u', ps, 0, None.
  - destruct (csend_ok _ _ _ _ Hi Hc) as (self' & u & -> & ? & _). step.
    erewrite inv_quiet by done. step. by eexists self', u, ps, 0, None.
  - pose proof (crecv_ok _ _ _ Hi) as Hr.
    destruct (nn_req_inprogress self); cbn [negb] in Hr;
      [|rewrite Hr; step; erewrite inv_quiet by done; step; by eexists self, w, ps, _, None].
    destruct (req_state self =? NN_REQ_STATE_DONE) eqn:Hd; cbn [negb] in Hr;
      [|rewrite Hr; step; erewrite inv_quiet by done; step; by eexists self, w, ps, _, None].
    apply Z.eqb_eq in Hd. specialize (Hc Hd). destruct (task_reply self); [|done].
    destruct Hr as (_ & self' & -> & ? & _). step. erewrite inv_quiet by done. step.
    by eexists self', w, ps, 0, _.
Qed.

Lemma req_exec_ok σ op :
  req_any_inv σ → req_allowed σ op → ∃ σ' rc m, req_exec σ op = Ret (σ', rc, m) ∧ req_any_inv σ'.
Proof.
  destruct σ as [[self w] ps]. intros Hi Ha. destruct op as [c|ws|ms|].
  - pose proof (inv_active _ _ _ Hi (proj1 Ha)) as Hi'.
    destruct (req_call_ok _ _ _ _ Hi' Ha) as (self' & w' & ps' & rc & m & E & ?).
    exists (self', w', ps'), rc, m. split; [done|by left].
  - destruct Hi as [Hi|[-> Hi]].
    + destruct (req_worker_ok _ _ _ _ Hi Ha) as (t & self' & w' & E & E' & ? & _).
      exists (self', w', ps), 0, None. unfold req_exec. rewrite E. step. rewrite E'. step. split; [done|by left].
    + destruct (req_stop_worker _ _ _ Hi Ha) as (t & self' & E & E' & ? & _).
      exists (self', w, ∅), 0, None. unfold req_exec. rewrite E. step. rewrite E'. step. split; [done|by right].
  - destruct Ha as [Ha Hms]. pose proof (inv_active _ _ _ Hi Ha) as Hi'.
    exists (set_ivl self ms, w, ps), 0, None. split.
    + unfold req_exec, nn_req_setopt. rewrite !Z.eqb_refl. cbn [negb].
      rewrite req_leave_quiet by (exact (phase_events _ _ _ (ri_phase _ _ _ Hi'))). done.
    + left. destruct Hi' as [[? ? ? ?] Hph Hh Hr]. split; [by split| |done|done].
      destruct Hph; [by apply rp_passive|by apply rp_delayed|by eapply rp_active|by apply rp_timer|by apply rp_done].
  - destruct Ha as [Ha ->]. pose proof (inv_active _ _ _ Hi Ha) as Hi'.
    destruct (req_stop_ok _ _ Hi') as (self' & E & Hs & _). exists (self', w, ∅), 0, None.
    unfold req_exec. rewrite E. step. rewrite req_leave_quiet by (by eapply stop_events). step.
    split; [done|by right].
Qed.

Lemma req_reach_inv σ0 σ : req_any_inv σ0 → req_reach σ0 σ → req_any_inv σ.
Proof.
  intros Hi. induction 1 as [|σ op σ' rc m _ IH Ha E]; [done|].
  destruct (req_exec_ok _ _ IH Ha) as (σ1 & rc1 & m1 & E1 & ?). rewrite E in E1. by injection E1 as -> _ _.
Qed.

Section sessions.
Context (s s' : T) (τ τ' : lspec) (id : Z) (w0 : W) (self0 : nn_req T).
Context (Hs : l_rep s τ) (Hs1 : lseq τ = ∅) (Hs2 : lfree τ = ∅).
Context (Hs' : l_rep s' τ') (Hs1' : lseq τ' = ∅) (Hs2' : lfree τ' = ∅) (Hw0 : pipe_inv w0).
Context (Hinit : nn_req_init s s' id w0 = Ret (self0, w0)).

Lemma req_reach_any σ : req_reach (self0, w0, ∅) σ → req_any_inv σ.
Proof.
  apply req_reach_inv. left.
  destruct (req_init_ok s s' τ τ' id w0) as (self & E & ? & _); [done..|].
  rewrite Hinit in E. by injection E as ->.
Qed.

(** C32: a request socket keeps working in every session: whatever calls the core
    makes as the contract of protocol.h asks, whatever the worker thread does for
    the timer, whenever the resend interval is set and the socket is asked to stop
    (when its pipes are gone), every step returns and leads on, and none of the
    assertions of req.c, xreq.c, fsm.c and timer.c fires, unless it is one of three
    things the code does not survive, with which a session ends: the user passes a
    header with a request, sets a negative NN_REQ_RESEND_IVL, or receives a reply
    that was terminated behind its back.  Once the socket has stopped it can be
    destroyed, if its reply was not terminated before. *)
Theorem req_session self w ps op :
  req_reach (self0, w0, ∅) (self, w, ps) →
  (req_possible (self, w, ps) op →
     req_risk (self, w, ps) op ∨
     ∃ σ' rc m, req_exec (self, w, ps) op = Ret (σ', rc, m) ∧ req_reach (self0, w0, ∅) σ') ∧
  (req_stopped self = true → task_reply self ≠ Dead → nn_req_destroy self = Ret tt) ∧
  (req_fsm self = NN_FSM_STATE_STOPPING → ∃ ws, worker_ready (task_timer self) ws = true).
Proof.
  intros Hr. pose proof (req_reach_any _ Hr) as Hi. split_and!.
  - intros [?|Ha]%req_possible_risk; [by left|right]. destruct (req_exec_ok _ _ Hi Ha) as (σ' & rc & m & E & _). exists σ', rc, m.
    split; [done|]. by eapply rr_step.
  - intros Hst Hd. destruct Hi as [[[_ _ _ E] _ _ _]|[-> [Hx [(_ & _ & _ & E)|(Hf & _ & Ht & _)]]]];
      [by rewrite Hst in E..|].
    unfold nn_req_destroy, nn_req_term. rewrite (trep_term _ Ht). step.
    destruct (task_reply self); [|done]. step. rewrite Hf. cbn [Z.eqb Pos.eqb NN_FSM_STATE_IDLE]. step.
    exact (xreq_term_ok _ _ Hx).
  - intros Hst. destruct Hi as [[[_ _ E _] _ _ _]|[_ [_ [(_ & _ & Ht & _)|(E & _)]]]]; [by rewrite Hst in E| |by rewrite Hst in E].
    apply (trep_ready _ _ Ht). by right.
Qed.

(** C33: the reply a user gets answers the last request sent.  In every reachable
    state of a running request socket: a send returns 0, gives the request the
    next number, and sends it at once unless an older request has to be
    cancelled first; without a request a receive returns -EFSM, before the
    reply has come -EAGAIN, and otherwise (unless the reply was terminated) the
    body of a message that a pipe delivered with the number of the current
    request as its header, after which there is no request in progress. *)
Theorem req_reply_matches self w ps m :
  req_reach (self0, w0, ∅) (self, w, ps) → req_fsm self = NN_FSM_STATE_ACTIVE → sphdr m = [] →
  (∃ self' w', req_exec (self, w, ps) (Q_call (C_send m)) = Ret (self', w', ps, 0, None) ∧
     task_id self' = u32 (task_id self + 1) ∧
     task_request self' = set_sphdr m (request_hdr (task_id self')) ∧ nn_req_inprogress self' = true ∧
     (if (req_state self =? NN_REQ_STATE_PASSIVE) || (req_state self =? NN_REQ_STATE_DONE)
      then dispatched self' w w' ps else w' = w)) ∧
  (if negb (nn_req_inprogress self) then
     req_exec (self, w, ps) (Q_call C_recv) = Ret (self, w, ps, - EFSM, None)
   else if negb (req_state self =? NN_REQ_STATE_DONE) then
     req_exec (self, w, ps) (Q_call C_recv) = Ret (self, w, ps, - EAGAIN, None)
   else match task_reply self with
        | Live r => good_reply w (task_id self) r ∧
            ∃ self', req_exec (self, w, ps) (Q_call C_recv) = Ret (self', w, ps, 0, Some r) ∧
              nn_req_inprogress self' = false
        | Dead => req_exec (self, w, ps) (Q_call C_recv) = Fail Crash
        end).
Proof.
  intros Hr Ha Hm. pose proof (inv_active _ _ _ (req_reach_any _ Hr) Ha) as Hi. split.
  - destruct (csend_ok _ _ _ _ Hi Hm) as (self' & w' & E & Hi' & ? & ? & _ & ? & ?). exists self', w'.
    split; [|done]. cbn -[req_leave]. rewrite E. step. erewrite inv_quiet by done. done.
  - pose proof (crecv_ok _ _ _ Hi) as Hc. cbn -[req_leave].
    destruct (nn_req_inprogress self); cbn [negb] in *; [|by rewrite Hc; step; erewrite inv_quiet by done].
    destruct (req_state self =? NN_REQ_STATE_DONE); cbn [negb] in *;
      [|by rewrite Hc; step; erewrite inv_quiet by done].
    destruct (task_reply self); [|by rewrite Hc].
    destruct Hc as (? & self' & E & ? & ?). split; [done|]. exists self'. rewrite E. step.
    erewrite inv_quiet by done. done.
Qed.

(** C34: a request is not forgotten.  While a request is in progress and not
    answered, either it waits for a pipe, none is writable, and the first one to
    become so gets it; or the worker thread has something to do for the socket,
    and each thing it does leaves it less to do, or is the resend timer expiring,
    or puts the request on its way again (or finds that no pipe is writable), or
    makes the reply available.  When the pipe of a request goes away the request
    is re-sent without waiting for the timer. *)
Theorem req_not_forgotten self w ps :
  req_reach (self0, w0, ∅) (self, w, ps) → req_fsm self = NN_FSM_STATE_ACTIVE →
  nn_req_inprogress self = true → req_state self ≠ NN_REQ_STATE_DONE →
  (req_state self = NN_REQ_STATE_DELAYED ∧ (∀ x, x ∈ ps → x ∉ writable w) ∧
     ∀ p w', allowed w ps (C_out p w') →
       ∃ self' w'', req_exec (self, w, ps) (Q_call (C_out p w')) = Ret (self', w'', ps, 0, None) ∧
         req_state self' = NN_REQ_STATE_ACTIVE ∧
         ∃ x, x ∈ ps ∧ sent w'' = sent w ++ [(x, task_request self)]) ∨
  ((∃ ws, worker_ready (task_timer self) ws = true) ∧
   (∀ ws, worker_ready (task_timer self) ws = true →
      ∃ self' w', req_exec (self, w, ps) (Q_worker ws) = Ret (self', w', ps, 0, None) ∧
        same_task self self' ∧ worker_effect self self' w w' ps) ∧
   (∀ p w', sent_to self = Some p → allowed w ps (C_rm p w') →
      ∃ self', req_exec (self, w, ps) (Q_call (C_rm p w')) = Ret (self', w', ps ∖ {[p]}, 0, None) ∧
        req_state self' = NN_REQ_STATE_TIMED_OUT)).
Proof.
  intros Hr Ha Hp Hnd. pose proof (inv_active _ _ _ (req_reach_any _ Hr) Ha) as Hi.
  destruct (decide (req_state self = NN_REQ_STATE_DELAYED)) as [Hd|Hd]; [left|right].
  - split; [done|]. split.
    { destruct Hi as [_ [E|? ? ? ?|? E|[E|[E|E]]|E] _ _]; try bad_state. done. }
    intros p w' Hall.
    destruct (req_out_ok _ _ _ _ _ Hi Hall) as (self' & w'' & E & Hi' & Hout).
    rewrite Hd in Hout. cbn in Hout. destruct Hout as (? & x & ? & Hx). exists self', w''. split.
    { cbn -[req_leave]. rewrite E. step. erewrite inv_quiet by done. done. }
    split; [done|]. by exists x.
  - split_and!.
    + destruct Hi as [_ [E|E|? E Ht|_ Ht|E] _ _]; try done.
      * unfold nn_req_inprogress in Hp. by rewrite E in Hp.
      * apply (trep_ready _ _ Ht). by left.
      * apply (trep_ready _ _ Ht). by right.
    + intros ws Hws. destruct (req_worker_ok _ _ _ _ Hi Hws) as (t & self' & w' & E & E' & _ & ? & _ & ?).
      exists self', w'. split; [|done]. unfold req_exec. rewrite E. step. rewrite E'. done.
    + intros p w' Hsp Hall. destruct (req_rm_ok _ _ _ _ _ Hi Hall) as (self' & E & ? & Ht).
      exists self'. split; [|by apply Ht]. cbn -[req_leave]. rewrite E. step. erewrite inv_quiet by done. done.
Qed.

End sessions.
End props.

(** ** Examples *)

#[export] Instance msg_obj_eq_dec : EqDecision msg_obj.
Proof. solve_decision. Defined.

Module ReqSample.

Notation world := (req_world (T := Ptr.store) (W := toy vmsg)).
Notation op := (req_op (W := toy vmsg)).

#[export] Instance allowed_dec (σ : world) (o : op) : Decision (req_allowed (T := Ptr.store) σ o).
Proof. destruct σ as [[self w] ps], o as [[]|ws|ms|]; cbn -[allowed]; apply _. Defined.

Fixpoint run (σ : world) (fs : list (toy vmsg → op)) : outcome world :=
  match fs with
  | [] => Ret σ
  | f :: fs =>
      let o := f σ.1.2 in
      nn_assert (bool_decide (req_allowed σ o));;
      '(σ, _, _) ← req_exec σ o; run σ fs
  end.

Lemma run_reach σ0 fs σ σ' : req_reach σ0 σ → run σ fs = Ret σ' → req_reach σ0 σ'.
Proof.
  revert σ. induction fs as [|f fs IH]; intros σ Hr; cbn -[req_exec]; [by intros [= <-]|].
  case_bool_decide as Ha; [|done]. step. destruct (req_exec σ _) as [[[σ1 rc] m]|] eqn:E; [|done]. step.
  apply IH. by eapply rr_step.
Qed.

Definition req0 : nn_req Ptr.store :=
  Req (nn_xreq_init Ptr.empty_store Ptr.empty_store) NN_FSM_STATE_ACTIVE NN_REQ_STATE_PASSIVE
    NN_REQ_DEFAULT_RESEND_IVL 5 (VMsg [] [] []) (Live (VMsg [] [] [])) nn_timer_init None false.
Definition start : world := (req0, toy_empty, ∅).

Definition reply (id : Z) : vmsg := VMsg [] [] [128; 0; 0; id; 111; 107].

(** A request goes to pipe 2; its reply comes; the timer stops. *)
Definition ask : list (toy vmsg → op) :=
  [λ _, Q_call (C_add 2 8 8); λ w, Q_call (C_out 2 (toy_ready w 2));
   λ _, Q_call (C_send (VMsg [] [] [104; 105]))].
Definition answer : list (toy vmsg → op) :=
  [λ _, Q_worker W_task; λ w, Q_call (C_in 2 (toy_arrive w 2 [reply 6])); λ _, Q_worker W_task].

End ReqSample.

Import ReqSample.

Lemma req_session_witness :
  ∃ self w ps, run start ask = Ret (self, w, ps) ∧ req_state self = NN_REQ_STATE_ACTIVE ∧
    ∃ σ' rc m, req_exec (self, w, ps) (Q_worker W_task) = Ret (σ', rc, m) ∧ req_reach start σ'.
Proof.
  destruct (ret_check_ok (λ σ, (req_state σ.1.1 =? NN_REQ_STATE_ACTIVE) &&
      bool_decide (req_allowed σ (Q_worker W_task))) (run start ask))
    as ([[self w] ps] & E & Hp); [vm_compute; reflexivity|].
  apply andb_prop in Hp as [Hst Ha]. exists self, w, ps. split; [exact E|].
  split; [exact (proj1 (Z.eqb_eq _ _) Hst)|].
  destruct (req_session (H0 := Ptr.ptr_store_ok) Ptr.empty_store Ptr.empty_store (LSpec ∅ ∅) (LSpec ∅ ∅) 5
    toy_empty req0) with (self := self) (w := w) (ps := ps) (op := Q_worker (W := toy vmsg) W_task) as (Hx & _).
  - exact Ptr.rep_empty.
  - reflexivity.
  - reflexivity.
  - exact Ptr.rep_empty.
  - reflexivity.
  - reflexivity.
  - exact toy_empty_inv.
  - reflexivity.
  - exact (run_reach _ _ _ _ (rr_start _) E).
  - destruct Hx as [[]|Hx]; [|exact Hx]. exact (bool_decide_eq_true_1 _ Ha).
Defined.

Lemma req_reply_matches_witness :
  ∃ self w ps r, run start (ask ++ answer) = Ret (self, w, ps) ∧ task_reply self = Live r ∧
    good_reply w (task_id self) r ∧
    ∃ self', req_exec (self, w, ps) (Q_call C_recv) = Ret (self', w, ps, 0, Some r).
Proof.
  destruct (ret_check_ok (λ σ, (req_fsm σ.1.1 =? NN_FSM_STATE_ACTIVE) &&
      nn_req_inprogress σ.1.1 && (req_state σ.1.1 =? NN_REQ_STATE_DONE) &&
      negb (bool_decide (task_reply σ.1.1 = Dead))) (run start (ask ++ answer)))
    as ([[self w] ps] & E & Hp); [vm_compute; reflexivity|]. cbn [fst] in Hp.
  apply andb_prop in Hp as [Hp Hd]. apply andb_prop in Hp as [Hp Hst]. apply andb_prop in Hp as [Hf Hin].
  destruct (task_reply self) as [r|] eqn:Hrep; [|discriminate Hd].
  exists self, w, ps, r. split; [exact E|]. split; [exact Hrep|].
  destruct (req_reply_matches (H0 := Ptr.ptr_store_ok) Ptr.empty_store Ptr.empty_store (LSpec ∅ ∅) (LSpec ∅ ∅) 5
    toy_empty req0) with (self := self) (w := w) (ps := ps) (m := VMsg [] [] []) as (_ & Hx).
  - exact Ptr.rep_empty.
  - reflexivity.
  - reflexivity.
  - exact Ptr.rep_empty.
  - reflexivity.
  - reflexivity.
  - exact toy_empty_inv.
  - reflexivity.
  - exact (run_reach _ _ _ _ (rr_start _) E).
  - exact (proj1 (Z.eqb_eq _ _) Hf).
  - reflexivity.
  - rewrite Hin, Hst, Hrep in Hx. cbn [negb] in Hx. destruct Hx as (Hg & self' & Ex & _).
    split; [exact Hg|]. exists self'. exact Ex.
Defined.

(** The request of the example was sent; its timer will expire or its reply come. *)
Lemma req_not_forgotten_witness :
  ∃ self w ps, run start ask = Ret (self, w, ps) ∧
    ∃ ws, worker_ready (task_timer self) ws = true ∧
    ∃ self' w', req_exec (self, w, ps) (Q_worker ws) = Ret (self', w', ps, 0, None) ∧
      worker_effect self self' w w' ps.
Proof.
  destruct (ret_check_ok (λ σ, (req_fsm σ.1.1 =? NN_FSM_STATE_ACTIVE) &&
      (req_state σ.1.1 =? NN_REQ_STATE_ACTIVE)) (run start ask))
    as ([[self w] ps] & E & Hp); [vm_compute; reflexivity|]. cbn [fst] in Hp.
  apply andb_prop in Hp as [Hf Hst]. apply Z.eqb_eq in Hf, Hst.
  exists self, w, ps. split; [exact E|].
  destruct (req_not_forgotten (H0 := Ptr.ptr_store_ok) Ptr.empty_store Ptr.empty_store (LSpec ∅ ∅) (LSpec ∅ ∅) 5
    toy_empty req0) with (self := self) (w := w) (ps := ps) as [(Hd & _)|((ws & Hws) & Hw & _)].
  - exact Ptr.rep_empty.
  - reflexivity.
  - reflexivity.
  - exact Ptr.rep_empty.
  - reflexivity.
  - reflexivity.
  - exact toy_empty_inv.
  - reflexivity.
  - exact (run_reach _ _ _ _ (rr_start _) E).
  - exact Hf.
  - unfold nn_req_inprogress. rewrite Hst. reflexivity.
  - rewrite Hst. discriminate.
  - rewrite Hst in Hd. discriminate.
  - exists ws. split; [exact Hws|]. destruct (Hw ws Hws) as (self' & w' & Ex & _ & He).
    exists self', w'. exact (conj Ex He).
Defined.

(** A second reply that arrives before the first one was received (here with an
    old number) terminates it: the receive reads a terminated message, and
    destroying the socket terminates it again. *)
Lemma req_stale_reply :
  ret_check (λ σ, match req_exec σ (Q_call C_recv), obj_term (task_reply σ.1.1) with
      | Fail Crash, Fail Crash => true | _, _ => false end)
    (run start (ask ++ answer ++ [λ w, Q_call (C_in 2 (toy_arrive w 2 [reply 5]))])) = true.
Proof. vm_compute. reflexivity. Qed.

(** A reply queued behind a good one is not looked at when it arrives. *)
Lemma req_reply_unread :
  ret_check (λ σ, bool_decide (t_in σ.1.2 = {[2%positive := [reply 6]]}))
    (run start (ask ++ [λ w, Q_call (C_in 2 (toy_arrive w 2 [reply 6; reply 6]))])) = true.
Proof. vm_compute. reflexivity. Qed.

(** A negative resend interval is accepted and aborts the next send. *)
Lemma req_negative_ivl :
  ret_check (λ σ, let self := (nn_req_setopt σ.1.1 NN_REQ NN_REQ_RESEND_IVL 4 (-1)).1 in
      match nn_req_csend (self, σ.1.2) (VMsg [] [] []) with Fail Abort => true | _ => false end)
    (run start (take 2 ask)) = true.
Proof. vm_compute. reflexivity. Qed.
