(* ===== verification/Survey.v ===== *)
(** * protocols/survey: surveyors and respondents

    A surveyor sends a survey to all its pipes and receives the responses that
    carry its number until the deadline.  Like a request socket it is a state
    machine with a timer on top of a raw socket.  The code of xrespondent.c and
    respondent.c is that of xrep.c and rep.c with other names. *)
From S2P Require Import Prelude Wire NnList Hash Priolist Pipe LbFq Msg Dist Protocol Attach Fsm Xreq Rep Toy.

(** ** xsurveyor.c *)

Record nn_xsurveyor (T : Type) := XSurveyor {
  xsurveyor_outpipes : nn_dist T; xsurveyor_inpipes : nn_priolist T }.
Arguments XSurveyor {T}.
Arguments xsurveyor_outpipes {T}.
Arguments xsurveyor_inpipes {T}.

Section xsurveyor.
Context `{ListStore T} `{PipeOps W vmsg}.

Definition nn_xsurveyor_init (s s' : T) : nn_xsurveyor T := XSurveyor (nn_dist_init s) (nn_fq_init s').
Definition nn_xsurveyor_term (self : nn_xsurveyor T) : outcome unit :=
  nn_fq_term (xsurveyor_inpipes self);; nn_dist_term (xsurveyor_outpipes self).
Definition nn_xsurveyor_destroy (self : nn_xsurveyor T) : outcome unit := nn_xsurveyor_term self.

Definition nn_xsurveyor_add (self : nn_xsurveyor T) (pipe : pid) (rcvprio : Z) :
    outcome (nn_xsurveyor T * Z) :=
  assert_prio rcvprio;;
  let fq := nn_fq_add (xsurveyor_inpipes self) pipe pipe rcvprio in
  Ret (XSurveyor (nn_dist_add (xsurveyor_outpipes self) pipe pipe) fq, 0).

Definition nn_xsurveyor_rm (self : nn_xsurveyor T) (pipe : pid) : outcome (nn_xsurveyor T) :=
  fq ← nn_fq_rm (xsurveyor_inpipes self) pipe;
  dist ← nn_dist_rm (xsurveyor_outpipes self) pipe;
  Ret (XSurveyor dist fq).

Definition nn_xsurveyor_in (self : nn_xsurveyor T) (pipe : pid) : outcome (nn_xsurveyor T) :=
  fq ← nn_fq_in (xsurveyor_inpipes self) pipe; Ret (XSurveyor (xsurveyor_outpipes self) fq).

Definition nn_xsurveyor_out (self : nn_xsurveyor T) (pipe : pid) : outcome (nn_xsurveyor T) :=
  dist ← nn_dist_out (xsurveyor_outpipes self) pipe; Ret (XSurveyor dist (xsurveyor_inpipes self)).

Definition nn_xsurveyor_events (self : nn_xsurveyor T) : Z :=
  if nn_fq_can_recv (xsurveyor_inpipes self)
  then Z.lor NN_SOCKBASE_EVENT_OUT NN_SOCKBASE_EVENT_IN else NN_SOCKBASE_EVENT_OUT.

Definition nn_xsurveyor_send (self : nn_xsurveyor T) (w : W) (msg : vmsg) :
    outcome (nn_xsurveyor T * W * Z) :=
  '(dist, w, _, rc) ← nn_dist_send (xsurveyor_outpipes self) w tt msg None;
  Ret (XSurveyor dist (xsurveyor_inpipes self), w, rc).

Definition nn_xsurveyor_recv (self : nn_xsurveyor T) (w : W) :
    outcome (nn_xsurveyor T * W * Z * msg_out) :=
  '(fq, w, rc, r) ← nn_fq_recv (M := vmsg) (xsurveyor_inpipes self) w;
  let self := XSurveyor (xsurveyor_outpipes self) fq in
  if rc <? 0 then Ret (self, w, rc, O_same)
  else
    '(_, msg) ← deref r;
    o ← (if Z.land rc NN_PIPE_PARSED =? 0 then split_word msg else Ret (O_msg msg));
    Ret (self, w, match o with O_term => - EAGAIN | _ => 0 end, o).

#[export] Instance xsurveyor_proto : Proto (nn_xsurveyor T) W vmsg := {
  proto_add self p _ rcvprio := nn_xsurveyor_add self p rcvprio;
  proto_rm := nn_xsurveyor_rm;
  proto_in _ self w p := self ← nn_xsurveyor_in self p; Ret (self, w);
  proto_out self w p := self ← nn_xsurveyor_out self p; Ret (self, w);
  proto_events := nn_xsurveyor_events;
  proto_send := nn_xsurveyor_send;
  proto_recv _ self w := '(self, w, rc, o) ← nn_xsurveyor_recv self w; Ret (self, w, rc, out_msg o);
  proto_destroy := nn_xsurveyor_destroy;
  proto_hears := true;
  proto_room _ := true;
  proto_takes _ := true;
}.

End xsurveyor.

Definition nn_xsurveyor_ispeer (socktype : Z) : bool := socktype =? NN_RESPONDENT.

(** ** surveyor.c *)

Definition NN_SURVEYOR_DEADLINE : Z := 1.
Definition NN_SURVEYOR_DEFAULT_DEADLINE : Z := 1000.

Definition NN_SURVEYOR_STATE_IDLE : Z := 1.
Definition NN_SURVEYOR_STATE_PASSIVE : Z := 2.
Definition NN_SURVEYOR_STATE_ACTIVE : Z := 3.
Definition NN_SURVEYOR_STATE_CANCELLING : Z := 4.
Definition NN_SURVEYOR_STATE_STOPPING_TIMER : Z := 5.
Definition NN_SURVEYOR_STATE_STOPPING : Z := 6.

Definition NN_SURVEYOR_ACTION_START : Z := 1.
Definition NN_SURVEYOR_ACTION_CANCEL : Z := 2.
Definition NN_SURVEYOR_SRC_DEADLINE_TIMER : Z := 1.
Definition NN_SURVEYOR_TIMEDOUT : Z := 1.

Record nn_surveyor (T : Type) := Surveyor {
  xsurveyor : nn_xsurveyor T;
  sv_fsm : Z;
  sv_state : Z;
  surveyid : Z;
  sv_timer : nn_timer;
  tosend : vmsg;
  deadline : Z;
  timedout : Z;
  sv_stopped : bool;          (* nn_sockbase_stopped was called *)
}.
Arguments Surveyor {T}.
Arguments xsurveyor {T}.
Arguments sv_fsm {T}.
Arguments sv_state {T}.
Arguments surveyid {T}.
Arguments sv_timer {T}.
Arguments tosend {T}.
Arguments deadline {T}.
Arguments timedout {T}.
Arguments sv_stopped {T}.

Section setters.
Context {T : Type} (r : nn_surveyor T).

Definition set_xsurveyor x : nn_surveyor T := Surveyor x (sv_fsm r) (sv_state r) (surveyid r) (sv_timer r)
  (tosend r) (deadline r) (timedout r) (sv_stopped r).
Definition set_sv_fsm s : nn_surveyor T := Surveyor (xsurveyor r) s (sv_state r) (surveyid r) (sv_timer r)
  (tosend r) (deadline r) (timedout r) (sv_stopped r).
Definition set_sv_state s : nn_surveyor T := Surveyor (xsurveyor r) (sv_fsm r) s (surveyid r) (sv_timer r)
  (tosend r) (deadline r) (timedout r) (sv_stopped r).
Definition set_survey i m : nn_surveyor T := Surveyor (xsurveyor r) (sv_fsm r) (sv_state r) i (sv_timer r)
  m (deadline r) (timedout r) (sv_stopped r).
Definition set_sv_timer t : nn_surveyor T := Surveyor (xsurveyor r) (sv_fsm r) (sv_state r) (surveyid r) t
  (tosend r) (deadline r) (timedout r) (sv_stopped r).
Definition set_deadline ms : nn_surveyor T := Surveyor (xsurveyor r) (sv_fsm r) (sv_state r) (surveyid r)
  (sv_timer r) (tosend r) ms (timedout r) (sv_stopped r).
Definition set_timedout b : nn_surveyor T := Surveyor (xsurveyor r) (sv_fsm r) (sv_state r) (surveyid r)
  (sv_timer r) (tosend r) (deadline r) b (sv_stopped r).
Definition set_sv_stopped b : nn_surveyor T := Surveyor (xsurveyor r) (sv_fsm r) (sv_state r) (surveyid r)
  (sv_timer r) (tosend r) (deadline r) (timedout r) b.

End setters.

Section surveyor.
Context `{ListStore T} `{PipeOps W vmsg}.

Notation ST := (nn_surveyor T * W)%type.

Definition nn_surveyor_inprogress (self : nn_surveyor T) : bool :=
  negb ((sv_state self =? NN_SURVEYOR_STATE_IDLE) || (sv_state self =? NN_SURVEYOR_STATE_PASSIVE) ||
        (sv_state self =? NN_SURVEYOR_STATE_STOPPING)).

(** A copy of the stored survey is sent. *)
Definition nn_surveyor_resend (s : ST) : outcome ST :=
  '(x, w, rc) ← nn_xsurveyor_send (xsurveyor s.1) s.2 (tosend s.1);
  nn_assert (rc =? 0);;
  Ret (set_xsurveyor s.1 x, w).

(** Sending the survey, starting the timer and going ACTIVE. *)
Definition launch (s : ST) : outcome ST :=
  s ← nn_surveyor_resend s;
  t ← nn_timer_start (sv_timer s.1) (deadline s.1);
  Ret (set_sv_state (set_sv_timer s.1 t) NN_SURVEYOR_STATE_ACTIVE, s.2).

Definition nn_surveyor_handler (s : ST) (src type : Z) (_ : srcptr) : outcome ST :=
  let '(self, w) := s in
  let state := sv_state self in
  if state =? NN_SURVEYOR_STATE_IDLE then
    if (src =? NN_FSM_ACTION) && (type =? NN_FSM_START)
    then Ret (set_sv_state self NN_SURVEYOR_STATE_PASSIVE, w) else nn_fsm_bad state src type
  else if state =? NN_SURVEYOR_STATE_PASSIVE then
    if (src =? NN_FSM_ACTION) && (type =? NN_SURVEYOR_ACTION_START)
    then launch s else nn_fsm_bad state src type
  else if state =? NN_SURVEYOR_STATE_ACTIVE then
    if src =? NN_FSM_ACTION then
      if type =? NN_SURVEYOR_ACTION_CANCEL then
        t ← nn_timer_stop (sv_timer self);
        Ret (set_sv_state (set_sv_timer self t) NN_SURVEYOR_STATE_CANCELLING, w)
      else nn_fsm_bad state src type
    else if src =? NN_SURVEYOR_SRC_DEADLINE_TIMER then
      if type =? NN_TIMER_TIMEOUT then
        t ← nn_timer_stop (sv_timer self);
        Ret (set_timedout (set_sv_state (set_sv_timer self t) NN_SURVEYOR_STATE_STOPPING_TIMER)
               NN_SURVEYOR_TIMEDOUT, w)
      else nn_fsm_bad state src type
    else nn_fsm_bad state src type
  else if state =? NN_SURVEYOR_STATE_CANCELLING then
    if src =? NN_FSM_ACTION then
      if type =? NN_SURVEYOR_ACTION_CANCEL then Ret s else nn_fsm_bad state src type
    else if src =? NN_SURVEYOR_SRC_DEADLINE_TIMER then
      if type =? NN_TIMER_STOPPED then launch s else nn_fsm_bad state src type
    else nn_fsm_bad state src type
  else if state =? NN_SURVEYOR_STATE_STOPPING_TIMER then
    if src =? NN_FSM_ACTION then
      if type =? NN_SURVEYOR_ACTION_CANCEL then Ret (set_sv_state self NN_SURVEYOR_STATE_CANCELLING, w)
      else nn_fsm_bad state src type
    else if src =? NN_SURVEYOR_SRC_DEADLINE_TIMER then
      if type =? NN_TIMER_STOPPED then Ret (set_sv_state self NN_SURVEYOR_STATE_PASSIVE, w)
      else nn_fsm_bad state src type
    else nn_fsm_bad state src type
  else nn_fsm_bad state src type.

Definition sv_fsm_of (s : ST) : Z := sv_fsm s.1.
Definition set_sv_fsm_of (s : ST) (f : Z) : ST := (set_sv_fsm s.1 f, s.2).

Definition nn_surveyor_shutdown (s : ST) (src type : Z) (_ : srcptr) : outcome ST :=
  let '(self, w) := s in
  self ← (if (src =? NN_FSM_ACTION) && (type =? NN_FSM_STOP) then
            t ← nn_timer_stop (sv_timer self);
            Ret (set_sv_state (set_sv_timer self t) NN_SURVEYOR_STATE_STOPPING)
          else Ret self);
  if sv_state self =? NN_SURVEYOR_STATE_STOPPING then
    if negb (nn_timer_isidle (sv_timer self)) then Ret (self, w)
    else
      s ← nn_fsm_stopped_noevent sv_fsm_of set_sv_fsm_of (set_sv_state self NN_SURVEYOR_STATE_IDLE, w);
      Ret (set_sv_stopped s.1 true, s.2)
  else nn_fsm_bad (sv_state self) src type.

Definition sv_feed : ST → Z → Z → srcptr → outcome ST :=
  nn_fsm_feed sv_fsm_of nn_surveyor_handler nn_surveyor_shutdown.
Definition sv_action : ST → Z → outcome ST :=
  nn_fsm_action sv_fsm_of nn_surveyor_handler nn_surveyor_shutdown.

(** [id] is the number [nn_random_generate] yields. *)
Definition nn_surveyor_init (s s' : T) (id : Z) (w : W) : outcome ST :=
  nn_fsm_start sv_fsm_of set_sv_fsm_of (λ _, false) nn_surveyor_handler
    (Surveyor (nn_xsurveyor_init s s') NN_FSM_STATE_IDLE NN_SURVEYOR_STATE_IDLE id nn_timer_init
       (VMsg [] [] []) NN_SURVEYOR_DEFAULT_DEADLINE 0 false, w).

Definition nn_surveyor_term (self : nn_surveyor T) : outcome unit :=
  nn_timer_term (sv_timer self);;
  nn_assert (sv_fsm self =? NN_FSM_STATE_IDLE);;
  nn_xsurveyor_term (xsurveyor self).
Definition nn_surveyor_destroy (self : nn_surveyor T) : outcome unit := nn_surveyor_term self.
Definition nn_surveyor_stop (s : ST) : outcome ST :=
  nn_fsm_stop sv_fsm_of set_sv_fsm_of nn_surveyor_shutdown s.

Definition nn_surveyor_events (self : nn_surveyor T) : Z :=
  let rc := nn_xsurveyor_events (xsurveyor self) in
  if negb (nn_surveyor_inprogress self) then Z.lor rc NN_SOCKBASE_EVENT_IN else rc.

Definition nn_surveyor_send (s : ST) (msg : vmsg) : outcome (ST * Z) :=
  let id := Z.lor (u32 (surveyid s.1 + 1)) 0x80000000 in
  nn_assert (bool_decide (length (sphdr msg) = 0%nat));;
  hdr ← nn_putl (replicate 4 0) id;
  let self := set_survey s.1 id (set_sphdr msg hdr) in
  if nn_surveyor_inprogress self then
    if Z.land (nn_xsurveyor_events (xsurveyor self)) NN_SOCKBASE_EVENT_OUT =? 0
    then Ret ((self, s.2), - EAGAIN)
    else s ← sv_action (self, s.2) NN_SURVEYOR_ACTION_CANCEL; Ret (s, 0)
  else s ← sv_action (self, s.2) NN_SURVEYOR_ACTION_START; Ret (s, 0).

(** One turn of the receive loop. *)
Definition nn_surveyor_recv_body (s : ST) : outcome (ST * option (Z * option vmsg)) :=
  let '(self, w) := s in
  '(x, w, rc, out) ← nn_xsurveyor_recv (xsurveyor self) w;
  let self := set_xsurveyor self x in
  if rc =? - EAGAIN then Ret ((self, w), Some (- EAGAIN, None))
  else
    nn_assert (rc =? 0);;
    msg ← deref (out_msg out);
    if negb (bool_decide (length (sphdr msg) = 4%nat)) then Ret ((self, w), None)
    else
      id ← nn_getl (sphdr msg);
      if negb (id =? surveyid self) then Ret ((self, w), None)
      else Ret ((self, w), Some (0, Some (set_sphdr msg []))).

Definition nn_surveyor_recv (fuel : nat) (s : ST) : outcome (ST * Z * option vmsg) :=
  if negb (nn_surveyor_inprogress s.1) then
    if timedout s.1 =? NN_SURVEYOR_TIMEDOUT then Ret ((set_timedout s.1 0, s.2), - ETIMEDOUT, None)
    else Ret (s, - EFSM, None)
  else '(s, (rc, m)) ← while fuel nn_surveyor_recv_body s; Ret (s, rc, m).

Definition nn_surveyor_setopt (self : nn_surveyor T) (level option : Z) (len val : Z) : nn_surveyor T * Z :=
  if negb (level =? NN_SURVEYOR) then (self, - ENOPROTOOPT)
  else if option =? NN_SURVEYOR_DEADLINE then
    if negb (len =? 4) then (self, - EINVAL) else (set_deadline self val, 0)
  else (self, - ENOPROTOOPT).

Definition nn_surveyor_getopt (self : nn_surveyor T) (level opt len : Z) : Z * option (Z * Z) :=
  if negb (level =? NN_SURVEYOR) then (- ENOPROTOOPT, None)
  else if opt =? NN_SURVEYOR_DEADLINE then
    if len <? 4 then (- EINVAL, None) else (0, Some (deadline self, 4))
  else (- ENOPROTOOPT, None).

Definition sv_leave : ST → outcome ST :=
  nn_ctx_leave (λ s, sv_timer s.1) (λ s t, (set_sv_timer s.1 t, s.2))
    (λ s ev, sv_feed s NN_SURVEYOR_SRC_DEADLINE_TIMER ev P_timer).

End surveyor.

Section steps.
Context `{ListStore T} `{PipeFinite W vmsg}.

(** A step of the socket: a call of the core, a step of the worker thread for the
    timer, the option, the request to stop. *)
Inductive sv_op : Type :=
| V_call (c : call W vmsg)
| V_worker (ws : wstep)
| V_deadline (ms : Z)
| V_stop.

Definition sv_world : Type := nn_surveyor T * W * gset pid.

Definition sv_exec (σ : sv_world) (op : sv_op) : outcome (sv_world * Z * option vmsg) :=
  let '(self, w, ps) := σ in
  match op with
  | V_call (C_add p _ rp) =>
      '(x, rc) ← nn_xsurveyor_add (xsurveyor self) p rp;
      s ← sv_leave (set_xsurveyor self x, w); Ret (s, {[p]} ∪ ps, rc, None)
  | V_call (C_rm p w') =>
      x ← nn_xsurveyor_rm (xsurveyor self) p;
      s ← sv_leave (set_xsurveyor self x, w'); Ret (s, ps ∖ {[p]}, 0, None)
  | V_call (C_in p w') =>
      x ← nn_xsurveyor_in (xsurveyor self) p;
      s ← sv_leave (set_xsurveyor self x, w'); Ret (s, ps, 0, None)
  | V_call (C_out p w') =>
      x ← nn_xsurveyor_out (xsurveyor self) p;
      s ← sv_leave (set_xsurveyor self x, w'); Ret (s, ps, 0, None)
  | V_call (C_send m) =>
      '(s, rc) ← nn_surveyor_send (self, w) m; s ← sv_leave s; Ret (s, ps, rc, None)
  | V_call C_recv =>
      '(s, rc, m) ← nn_surveyor_recv (S (pending w)) (self, w); s ← sv_leave s; Ret (s, ps, rc, m)
  | V_worker ws =>
      t ← worker_step (sv_timer self) ws;
      s ← sv_leave (set_sv_timer self t, w); Ret (s, ps, 0, None)
  | V_deadline ms =>
      let '(self, rc) := nn_surveyor_setopt self NN_SURVEYOR NN_SURVEYOR_DEADLINE 4 ms in
      s ← sv_leave (self, w); Ret (s, ps, rc, None)
  | V_stop => s ← nn_surveyor_stop (self, w); s ← sv_leave s; Ret (s, ps, 0, None)
  end.

End steps.

(** ** The raw surveyor *)

Section xprops.
Context `{ListStoreOk T} `{PipeFinite W vmsg} `{!PipeParse W}.

Definition xsurveyor_inv (self : nn_xsurveyor T) (w : W) (ps : gset pid) : Prop :=
  pl_inv (xsurveyor_inpipes self) ps (readable w) ∧ ds_inv (xsurveyor_outpipes self) ps (writable w) ∧
  pipe_inv w.

Lemma xsurveyor_init_inv s s' σ σ' w :
  l_rep s σ → lseq σ = ∅ → lfree σ = ∅ → l_rep s' σ' → lseq σ' = ∅ → lfree σ' = ∅ →
  pipe_inv w → xsurveyor_inv (nn_xsurveyor_init s s') w ∅.
Proof. intros. split_and!; [by eapply pl_init|by eapply ds_init|done]. Qed.

Lemma xsurveyor_add_ok self w ps p sp rp :
  xsurveyor_inv self w ps → allowed w ps (C_add p sp rp) →
  ∃ self', nn_xsurveyor_add self p rp = Ret (self', 0) ∧ xsurveyor_inv self' w ({[p]} ∪ ps).
Proof.
  intros (Hf & Hd & Hw) (Hp & Hnw & Hnr & _ & Hrp & Hsz). unfold nn_xsurveyor_add.
  rewrite assert_prio_ok by done. step. eexists. split; [done|].
  split_and!; [by apply pl_add|by apply ds_add|done].
Qed.

Lemma xsurveyor_rm_ok self w ps p w' :
  xsurveyor_inv self w ps → allowed w ps (C_rm p w') →
  ∃ self', nn_xsurveyor_rm self p = Ret self' ∧ xsurveyor_inv self' w' (ps ∖ {[p]}).
Proof.
  intros (Hf & Hd & Hw) (Hp & (? & _) & Hwr & Hrd). unfold nn_xsurveyor_rm, nn_fq_rm.
  destruct (pl_rm _ _ _ _ Hf Hp) as (fq & -> & ?). step.
  destruct (ds_rm _ _ _ _ Hd Hp) as (dist & -> & ?). step. eexists. split; [done|].
  split_and!; cbn; by rewrite ?Hwr, ?Hrd.
Qed.

Lemma xsurveyor_in_ok self w ps p w' :
  xsurveyor_inv self w ps → allowed w ps (C_in p w') →
  ∃ self', nn_xsurveyor_in self p = Ret self' ∧ xsurveyor_inv self' w' ps.
Proof.
  intros (Hf & Hd & Hw) (Hp & Hn & (? & _) & Hwr & Hrd). unfold nn_xsurveyor_in, nn_fq_in.
  destruct (pl_activate _ _ _ _ Hf Hp Hn) as (fq & -> & ?). step. eexists. split; [done|].
  split_and!; cbn; by rewrite ?Hwr, ?Hrd.
Qed.

Lemma xsurveyor_out_ok self w ps p w' :
  xsurveyor_inv self w ps → allowed w ps (C_out p w') →
  ∃ self', nn_xsurveyor_out self p = Ret self' ∧ xsurveyor_inv self' w' ps.
Proof.
  intros (Hf & Hd & Hw) (Hp & Hn & (? & _) & Hwr & Hrd). unfold nn_xsurveyor_out.
  destruct (ds_out _ _ _ _ Hd Hp Hn) as (dist & -> & ?). step. eexists. split; [done|].
  split_and!; cbn; by rewrite ?Hwr, ?Hrd.
Qed.

Lemma xsurveyor_term_ok self w : xsurveyor_inv self w ∅ → nn_xsurveyor_term self = Ret tt.
Proof.
  intros (Hf & Hd & _). unfold nn_xsurveyor_term, nn_fq_term. rewrite (pl_term _ _ Hf). step.
  exact (ds_term _ _ Hd).
Qed.

(** [m] has gone to every writable pipe, once. *)
Definition surveyed (m : vmsg) (w w' : W) (ps : gset pid) : Prop :=
  ∃ l, NoDup l ∧ (∀ p, p ∈ l ↔ p ∈ ps ∧ p ∈ writable w) ∧
    sent w' = sent w ++ ((λ p, (p, m)) <$> l) ∧ recvd w' = recvd w.

Lemma xsurveyor_send_ok self w ps m :
  xsurveyor_inv self w ps →
  ∃ self' w', nn_xsurveyor_send self w m = Ret (self', w', 0) ∧ surveyed m w w' ps ∧
    xsurveyor_inv self' w' ps.
Proof.
  intros (Hf & Hd & Hw). unfold nn_xsurveyor_send.
  destruct (ds_send _ _ _ m None Hd Hw) as (dist & w' & l & -> & Hnd & Hl & Hs & Hrv & Hrd & _ & ? & ?).
  step. eexists _, w'. split; [done|]. split; [|by split_and!; cbn; rewrite ?Hrd].
  exists l. split_and!; try done. intros p. rewrite Hl. naive_solver.
Qed.

Lemma xsurveyor_recv_ok self w ps :
  xsurveyor_inv self w ps →
  (nn_xsurveyor_recv self w = Ret (self, w, - EAGAIN, O_same) ∧ ∀ x, x ∈ ps → x ∉ readable w) ∨
  (∃ self' w' rc x m o,
     nn_xsurveyor_recv self w = Ret (self', w', match o with O_term => - EAGAIN | _ => 0 end, o) ∧
     split_as rc m o ∧ xsurveyor_inv self' w' ps ∧ x ∈ ps ∧ recvd w' = recvd w ++ [(x, m)] ∧
     sent w' = sent w ∧ writable w' = writable w ∧ (pending w' < pending w)%nat).
Proof.
  intros (Hf & Hd & Hw). unfold nn_xsurveyor_recv.
  destruct (pl_recv_split _ _ _ Hf Hw) as [(_ & Hn & ->)|(_ & fq & w' & rc & x & m & o & -> & Hrc & Hp &
    Eo & Ho & ? & ? & ? & ? & Hwr & ?)]; step; [left|right].
  - by destruct self.
  - rewrite (proj2 (Z.ltb_ge rc 0)) by lia. step. rewrite Eo. step.
    eexists (XSurveyor (xsurveyor_outpipes self) fq), w', rc, x, m, o.
    split; [done|]. split; [done|]. split; [by split_and!; cbn; rewrite ?Hwr|done].
Qed.

#[export] Program Instance xsurveyor_proto_ok : ProtoOk (nn_xsurveyor T) W vmsg := {|
  proto_inv := xsurveyor_inv |}.
Next Obligation.
  intros self w ps p sp rp Hi _ Ha. destruct (xsurveyor_add_ok _ _ _ _ _ _ Hi Ha) as (self' & E & ?).
  by exists self', 0.
Qed.
Next Obligation. intros self w ps p w' Hi Ha. exact (xsurveyor_rm_ok _ _ _ _ _ Hi Ha). Qed.
Next Obligation.
  intros fuel self w ps p w' _ Hi Ha _. destruct (xsurveyor_in_ok _ _ _ _ _ Hi Ha) as (self' & E & ?).
  cbn. rewrite E. by exists self', w'.
Qed.
Next Obligation.
  intros self w ps p w' Hi Ha. destruct (xsurveyor_out_ok _ _ _ _ _ Hi Ha) as (self' & E & ?).
  cbn. rewrite E. by exists self', w'.
Qed.
Next Obligation.
  intros self w ps m Hi _. destruct (xsurveyor_send_ok _ _ _ m Hi) as (self' & w' & E & _ & ?).
  by exists self', w', 0.
Qed.
Next Obligation.
  intros fuel self w ps Hi _. cbn.
  destruct (xsurveyor_recv_ok _ _ _ Hi) as [[-> _]|(self' & w' & rc & x & m & o & -> & _ & ? & _)]; step;
    [by exists self, w, (- EAGAIN), None|eexists self', w', _, (out_msg o); split_and!; [done|by destruct o|done]].
Qed.
Next Obligation. intros self w Hi. exact (xsurveyor_term_ok _ _ Hi). Qed.
Next Obligation.
  intros self w ps w' (Hi & Ho & _) (Hw & _) Hwr Hrd. split_and!; [by rewrite Hrd|by rewrite Hwr|done].
Qed.
Next Obligation. intros self w ps _. cbn. unfold nn_xsurveyor_events. repeat case_match; done. Qed.

End xprops.

(** ** The surveyor *)

Section props.
Context `{ListStoreOk T} `{PipeFinite W vmsg} `{!PipeParse W}.

(** [m] is the body of a response to survey [id] that was delivered as [m0]. *)
Definition response (rc id : Z) (m0 m : vmsg) : Prop :=
  ∃ m1, split_as rc m0 (O_msg m1) ∧ length (sphdr m1) = 4%nat ∧ nn_getl (sphdr m1) = Ret id ∧
    m = set_sphdr m1 [].

(** A message with another header, to be ignored. *)
Definition stale (id : Z) (pm : pid * vmsg) : Prop :=
  ∃ rc m1, split_as rc pm.2 (O_msg m1) ∧ ¬ (length (sphdr m1) = 4%nat ∧ nn_getl (sphdr m1) = Ret id).

(** What the states of the machine mean. *)
Inductive sv_phase (self : nn_surveyor T) : Prop :=
| vp_passive : sv_state self = NN_SURVEYOR_STATE_PASSIVE → trep (sv_timer self) T_idle → sv_phase self
| vp_active : sv_state self = NN_SURVEYOR_STATE_ACTIVE → trep (sv_timer self) T_armed → sv_phase self
| vp_cancel :
    sv_state self = NN_SURVEYOR_STATE_CANCELLING → trep (sv_timer self) T_stopping → sv_phase self
| vp_expired :
    sv_state self = NN_SURVEYOR_STATE_STOPPING_TIMER → trep (sv_timer self) T_stopping →
    timedout self = NN_SURVEYOR_TIMEDOUT → sv_phase self.

Record sv_base (self : nn_surveyor T) (w : W) (ps : gset pid) : Prop := {
  vb_x : xsurveyor_inv (xsurveyor self) w ps;
  vb_deadline : 0 ≤ deadline self;
  vb_fsm : sv_fsm self = NN_FSM_STATE_ACTIVE;
  vb_stopped : sv_stopped self = false;
}.

Record sv_inv (self : nn_surveyor T) (w : W) (ps : gset pid) : Prop := {
  vi_base : sv_base self w ps;
  vi_phase : sv_phase self;
  vi_hdr : nn_surveyor_inprogress self = true → sphdr (tosend self) = be_split 4 (surveyid self);
}.

Ltac bad_state :=
  match goal with
  | H1 : sv_state ?s = _, H2 : sv_state ?s = _ |- _ => rewrite H1 in H2; discriminate H2
  | H1 : sv_state ?s = _, H2 : context [nn_surveyor_inprogress ?s] |- _ =>
      unfold nn_surveyor_inprogress in H2; rewrite H1 in H2; discriminate H2
  end.

Lemma sv_timer_phase self w ps : sv_inv self w ps → ∃ ph, trep (sv_timer self) ph.
Proof. intros [_ [] _]; eauto. Qed.

Lemma sv_leave_quiet s : tm_events (sv_timer s.1) = [] → sv_leave s = Ret s.
Proof. exact (leave_quiet _ _ _ s). Qed.

Lemma sv_leave_one (self : nn_surveyor T) w t ev s :
  tm_events t = [ev] →
  sv_feed (set_sv_timer self (set_tm_events t []), w) NN_SURVEYOR_SRC_DEADLINE_TIMER ev P_timer = Ret s →
  tm_events (sv_timer s.1) = [] → sv_leave (set_sv_timer self t, w) = Ret s.
Proof. intros He Hf Hs. unfold sv_leave. by apply leave_one with (ev := ev). Qed.

Lemma sv_quiet self w ps : sv_inv self w ps → sv_leave (self, w) = Ret (self, w).
Proof. intros Hi. destruct (sv_timer_phase _ _ _ Hi) as [ph [He _]]. by apply sv_leave_quiet. Qed.

(** Replacing the raw socket and the world. *)
Lemma sv_frame self w ps x w' ps' :
  sv_inv self w ps → xsurveyor_inv x w' ps' → sv_inv (set_xsurveyor self x) w' ps'.
Proof.
  intros [[_ Hd Hf Hs] Hph Hh] Hx. split; [by split| |done].
  destruct Hph; [by apply vp_passive|by apply vp_active|by apply vp_cancel|by apply vp_expired].
Qed.

Definition same_survey (self self' : nn_surveyor T) : Prop :=
  surveyid self' = surveyid self ∧ tosend self' = tosend self.

Lemma launch_ok self w ps :
  sv_base self w ps → trep (sv_timer self) T_idle → sphdr (tosend self) = be_split 4 (surveyid self) →
  ∃ self' w', launch (self, w) = Ret (self', w') ∧ sv_inv self' w' ps ∧ same_survey self self' ∧
    sv_state self' = NN_SURVEYOR_STATE_ACTIVE ∧ surveyed (tosend self) w w' ps.
Proof.
  intros [Hx Hd Hf Hs] Ht Hh. unfold launch, nn_surveyor_resend. cbn [fst snd].
  destruct (xsurveyor_send_ok _ _ _ (tosend self) Hx) as (x & w' & -> & Hsv & Hx'). step.
  rewrite Z.eqb_refl. step. cbn [fst snd sv_timer set_xsurveyor deadline].
  destruct (trep_start _ _ Ht Hd) as (t & -> & Ht'). step. eexists _, w'. split; [reflexivity|].
  split; [|done]. split; [by split|by apply vp_active|by intros _].
Qed.

Lemma sv_action_run self w type :
  sv_fsm self = NN_FSM_STATE_ACTIVE → 0 < type →
  sv_action (self, w) type = nn_surveyor_handler (self, w) NN_FSM_ACTION type P_null.
Proof.
  intros Hf Ht. unfold sv_action, nn_fsm_action, nn_fsm_feed, sv_fsm_of. cbn [fst]. rewrite Hf.
  by rewrite (proj2 (Z.ltb_lt 0 type)) by done.
Qed.

(** The timer is stopped and the machine waits for that. *)
Lemma sv_stopping self w ps ph (b : bool) :
  sv_base self w ps → trep (sv_timer self) ph → ph ≠ T_idle →
  sphdr (tosend self) = be_split 4 (surveyid self) →
  ∃ t, nn_timer_stop (sv_timer self) = Ret t ∧
    sv_inv (if b then set_timedout (set_sv_state (set_sv_timer self t) NN_SURVEYOR_STATE_STOPPING_TIMER)
                        NN_SURVEYOR_TIMEDOUT
            else set_sv_state (set_sv_timer self t) NN_SURVEYOR_STATE_CANCELLING) w ps.
Proof.
  intros [Hx Hd Hf Hs] Ht Hne Hh. destruct (trep_stop _ _ Ht) as (t & -> & Ht').
  rewrite decide_False in Ht' by done. exists t. split; [done|].
  destruct b; (split; [by split| |by intros _]); [by apply vp_expired|by apply vp_cancel].
Qed.

(** A survey goes to all pipes at once, or cancels the one in progress first. *)
Lemma sv_send_ok self w ps m :
  sv_inv self w ps → sphdr m = [] →
  ∃ self' w', nn_surveyor_send (self, w) m = Ret ((self', w'), 0) ∧ sv_inv self' w' ps ∧
    surveyid self' = Z.lor (u32 (surveyid self + 1)) 0x80000000 ∧
    tosend self' = set_sphdr m (be_split 4 (surveyid self')) ∧ nn_surveyor_inprogress self' = true ∧
    (if nn_surveyor_inprogress self
     then w' = w ∧ sv_state self' = NN_SURVEYOR_STATE_CANCELLING else surveyed (tosend self') w w' ps).
Proof.
  intros [Hb Hph _] Hm. unfold nn_surveyor_send. cbn [fst snd]. rewrite Hm. step.
  change (replicate 4 0) with [0; 0; 0; 0]. rewrite nn_putl_be. step. rewrite app_nil_r.
  set (id := Z.lor (u32 (surveyid self + 1)) 0x80000000).
  set (self1 := set_survey self id (set_sphdr m (be_split 4 id))).
  assert (sv_base self1 w ps) as Hb1 by by destruct Hb.
  change (nn_surveyor_inprogress self1) with (nn_surveyor_inprogress self).
  rewrite !sv_action_run by (done || by destruct Hb).
  assert (Z.land (nn_xsurveyor_events (xsurveyor self1)) NN_SOCKBASE_EVENT_OUT =? 0 = false) as ->.
  { unfold nn_xsurveyor_events. by destruct (nn_fq_can_recv _). }
  unfold nn_surveyor_handler. change (sv_state self1) with (sv_state self).
  assert (nn_surveyor_inprogress self = negb (sv_state self =? NN_SURVEYOR_STATE_PASSIVE)) as ->.
  { unfold nn_surveyor_inprogress. by destruct Hph as [-> | -> | -> | ->]. }
  destruct Hph as [Hs Ht|Hs Ht|Hs Ht|Hs Ht _]; rewrite Hs; cbn -[launch nn_timer_stop be_split].
  - destruct (launch_ok self1 w ps Hb1 Ht) as (self' & w' & -> & ? & [Hid Hto] & Hst & ?); [done|]. step.
    exists self', w'. split; [done|]. split; [done|]. split; [done|]. rewrite Hto, Hid. split; [done|].
    split; [unfold nn_surveyor_inprogress; by rewrite Hst|done].
  - destruct (sv_stopping self1 w ps T_armed false) as (t & E & ?); [done..|].
    change (sv_timer self1) with (sv_timer self) in E. rewrite E. step. by eexists _, w.
  - exists self1, w. split; [done|]. split; [split; [done|by apply vp_cancel|by intros _]|].
    split; [done|]. split; [done|]. split; [unfold nn_surveyor_inprogress; cbn; by rewrite Hs|done].
  - exists (set_sv_state self1 NN_SURVEYOR_STATE_CANCELLING), w. split; [done|].
    split; [split; [by destruct Hb1; split|by apply vp_cancel|by intros _]|done].
Qed.

(** Receiving while a survey is in progress. *)
Lemma sv_recv_ok fuel self w ps :
  sv_inv self w ps → nn_surveyor_inprogress self = true → (pending w < fuel)%nat →
  ∃ x w' bad, sv_inv (set_xsurveyor self x) w' ps ∧ Forall (stale (surveyid self)) bad ∧ sent w' = sent w ∧
    ((nn_surveyor_recv fuel (self, w) = Ret ((set_xsurveyor self x, w'), - EAGAIN, None) ∧
        ((recvd w' = recvd w ++ bad ∧ ∀ y, y ∈ ps → y ∉ readable w') ∨
         ∃ p m0 rc, recvd w' = recvd w ++ bad ++ [(p, m0)] ∧ split_as rc m0 O_term)) ∨
     ∃ p rc m0 m, nn_surveyor_recv fuel (self, w) = Ret ((set_xsurveyor self x, w'), 0, Some m) ∧
        recvd w' = recvd w ++ bad ++ [(p, m0)] ∧ response rc (surveyid self) m0 m).
Proof.
  intros Hi Hp Hfuel.
  set (J bad (s : nn_surveyor T * W) := (∃ x, s.1 = set_xsurveyor self x) ∧ sv_inv s.1 s.2 ps ∧
    Forall (stale (surveyid self)) bad ∧ sent s.2 = sent w).
  destruct (while_ok (λ s, ∃ bad, J bad s ∧ recvd s.2 = recvd w ++ bad) (λ s, pending s.2)
    (λ s r, ∃ bad, J bad s ∧
      ((r = (- EAGAIN, None) ∧
          ((recvd s.2 = recvd w ++ bad ∧ ∀ y, y ∈ ps → y ∉ readable s.2) ∨
           ∃ p m0 rc, recvd s.2 = recvd w ++ bad ++ [(p, m0)] ∧ split_as rc m0 O_term)) ∨
       ∃ p rc m0 m, r = (0, Some m) ∧ recvd s.2 = recvd w ++ bad ++ [(p, m0)] ∧
          response rc (surveyid self) m0 m)) nn_surveyor_recv_body)
    with (fuel := fuel) (s := (self, w)) as ([self' w'] & [rc m] & E & bad & ((x & Ex) & ? & ? & ?) & Hr).
  - intros [s u] (bad & ((x & Ex) & His & Hbad & Hs) & Hrv). cbn [fst snd] in *. unfold nn_surveyor_recv_body.
    assert (surveyid s = surveyid self) as Hid by by rewrite Ex.
    destruct (xsurveyor_recv_ok _ _ _ (vb_x _ _ _ (vi_base _ _ _ His)))
      as [[-> Hn]|(x' & u' & rc & y & m & o & -> & Ho & Hx' & Hy & Hrv' & Hs' & Hwr & Hpd)]; step.
    + eexists (set_xsurveyor s (xsurveyor s), u), (Some (- EAGAIN, None)). split; [done|].
      replace (set_xsurveyor s (xsurveyor s)) with s by by destruct s.
      exists bad. split; [by split_and!; eauto|]. left. split; [done|]. by left.
    + assert (sv_inv (set_xsurveyor s x') u' ps) as Hi' by by eapply sv_frame.
      assert (set_xsurveyor s x' = set_xsurveyor self x') as Ex' by by rewrite Ex.
      destruct o as [| |m1]; [done| |].
      * eexists (_, u'), (Some (- EAGAIN, None)). split; [done|]. exists bad.
        split; [split_and!; cbn; [by eexists|done|done|congruence]|]. left. split; [done|]. right.
        exists y, m, rc. cbn. split; [|done]. by rewrite Hrv', Hrv, <- app_assoc.
      * cbn [Z.eqb EAGAIN Z.opp]. step. cbn [out_msg]. step.
        assert (¬ (length (sphdr m1) = 4%nat ∧ nn_getl (sphdr m1) = Ret (surveyid self)) →
          (∃ bad0, J bad0 (set_xsurveyor s x', u') ∧ recvd u' = recvd w ++ bad0) ∧
          (pending u' < pending u)%nat) as Hskip.
        { intros Hnot. split; [|done]. exists (bad ++ [(y, m)]).
          split; [|by rewrite Hrv', Hrv, <- app_assoc].
          split_and!; cbn; [by eexists|done| |congruence].
          apply Forall_app. split; [done|]. apply Forall_singleton. by exists rc, m1. }
        case_bool_decide as Hl; cbn [negb].
        2: { eexists (_, u'), None. split; [done|]. apply Hskip. tauto. }
        destruct (sphdr m1) as [|b0 [|b1 [|b2 [|b3 [|]]]]] eqn:Hh; try done.
        destruct (nn_getl [b0; b1; b2; b3]) as [id|] eqn:Hg; [|done]. step.
        cbn [surveyid set_xsurveyor]. rewrite Hid.
        destruct (id =? surveyid self) eqn:Heq; cbn [negb].
        -- apply Z.eqb_eq in Heq. subst id. eexists (_, u'), (Some (0, Some (set_sphdr m1 []))).
           split; [done|]. exists bad. split; [split_and!; cbn; [by eexists|done|done|congruence]|].
           right. exists y, rc, m, (set_sphdr m1 []). split; [done|]. cbn.
           split; [by rewrite Hrv', Hrv, <- app_assoc|]. exists m1. by rewrite Hh.
        -- eexists (_, u'), None. split; [done|]. apply Hskip. intros [_ [= ->]].
           by rewrite Z.eqb_refl in Heq.
  - exists []. split; [|by rewrite app_nil_r]. split_and!; [exists (xsurveyor self); by destruct self|done|done|done].
  - done.
  - cbn [fst snd] in *. subst self'. exists x, w', bad. split; [done|]. split; [done|]. split; [done|].
    unfold nn_surveyor_recv. cbn [fst]. rewrite Hp. cbn [negb]. rewrite E. step.
    destruct Hr as [([= -> ->] & Hr)|(p & rc' & m0 & m' & [= -> ->] & Hr)]; [by left|].
    right. exists p, rc', m0, m'. by split.
Qed.
(** What a step of the worker thread leads to. *)
Definition sv_effect (self self' : nn_surveyor T) (w w' : W) (ps : gset pid) : Prop :=
  (w' = w ∧ sv_state self' = sv_state self ∧ (work (sv_timer self') < work (sv_timer self))%nat) ∨
  (w' = w ∧ sv_state self = NN_SURVEYOR_STATE_ACTIVE ∧
     sv_state self' = NN_SURVEYOR_STATE_STOPPING_TIMER) ∨
  (sv_state self = NN_SURVEYOR_STATE_CANCELLING ∧ sv_state self' = NN_SURVEYOR_STATE_ACTIVE ∧
     surveyed (tosend self) w w' ps) ∨
  (w' = w ∧ sv_state self = NN_SURVEYOR_STATE_STOPPING_TIMER ∧
     sv_state self' = NN_SURVEYOR_STATE_PASSIVE ∧ timedout self' = NN_SURVEYOR_TIMEDOUT).

Lemma sv_event_ok self w ps t ev :
  sv_inv self w ps →
  (trep (sv_timer self) T_armed ∧ ev = NN_TIMER_TIMEOUT ∧ trep t T_fired) ∨
  (trep (sv_timer self) T_stopping ∧ ev = NN_TIMER_STOPPED ∧ trep t T_idle) →
  ∃ self' w', sv_feed (set_sv_timer self t, w) NN_SURVEYOR_SRC_DEADLINE_TIMER ev P_timer = Ret (self', w') ∧
    sv_inv self' w' ps ∧ same_survey self self' ∧ sv_effect self self' w w' ps.
Proof.
  intros [Hb Hph Hh] Hev. pose proof Hb as [Hx Hd Hf Hs].
  assert (sv_base (set_sv_timer self t) w ps) as Hb1 by by split.
  unfold sv_feed, nn_fsm_feed, sv_fsm_of. cbn [fst sv_fsm set_sv_timer]. rewrite Hf.
  cbn [Z.eqb negb NN_FSM_STATE_ACTIVE NN_FSM_STATE_STOPPING Pos.eqb].
  unfold nn_surveyor_handler. cbn [sv_state set_sv_timer].
  destruct Hev as [(Ht & -> & Ht')|(Ht & -> & Ht')].
  - destruct Hph as [_ E|Hst _|_ E|_ E _]; try (by pose proof (trep_phase _ _ _ Ht E)).
    assert (sphdr (tosend self) = be_split 4 (surveyid self)) as Hh'.
    { apply Hh. unfold nn_surveyor_inprogress. by rewrite Hst. }
    rewrite Hst. cbn -[nn_timer_stop].
    destruct (sv_stopping (set_sv_timer self t) w ps T_fired true) as (t' & E & ?); [done..|].
    cbn [sv_timer set_sv_timer] in E. rewrite E. step. eexists _, w. split; [reflexivity|].
    split; [done|]. split; [done|]. right. left. by split_and!.
  - destruct Hph as [_ E|_ E|Hst _|Hst _ Hto]; try (by pose proof (trep_phase _ _ _ Ht E)).
    + assert (sphdr (tosend self) = be_split 4 (surveyid self)) as Hh'.
      { apply Hh. unfold nn_surveyor_inprogress. by rewrite Hst. }
      rewrite Hst. cbn -[launch].
      destruct (launch_ok (set_sv_timer self t) w ps) as (self' & w' & -> & ? & ? & ? & ?); [done..|].
      exists self', w'. split_and!; try done. right. right. left. by split_and!.
    + rewrite Hst. cbn. eexists _, w. split; [reflexivity|]. split; [|split; [done|]].
      * split; [by split|by apply vp_passive|done].
      * right. right. right. by split_and!.
Qed.

Lemma sv_worker_ok self w ps ws :
  sv_inv self w ps → worker_ready (sv_timer self) ws = true →
  ∃ t self' w', worker_step (sv_timer self) ws = Ret t ∧
    sv_leave (set_sv_timer self t, w) = Ret (self', w') ∧ sv_inv self' w' ps ∧
    same_survey self self' ∧ sv_effect self self' w w' ps.
Proof.
  intros Hi Hw. destruct (sv_timer_phase _ _ _ Hi) as [ph Ht].
  destruct (trep_worker _ _ _ Ht Hw) as (t & Et & Hlt & [[He Ht']|Hev]); exists t.
  - exists (set_sv_timer self t), w. split; [done|]. split; [by apply sv_leave_quiet|].
    split; [|split; [done|by left]]. destruct Hi as [[? ? ? ?] Hph Hh]. split; [by split| |done].
    destruct Hph as [? E|? E|? E|? E ?]; rewrite (trep_phase _ _ _ Ht E) in Ht';
      [by apply vp_passive|by apply vp_active|by apply vp_cancel|by apply vp_expired].
  - assert (∃ ev, tm_events t = [ev] ∧
      ((trep (sv_timer self) T_armed ∧ ev = NN_TIMER_TIMEOUT ∧ trep (set_tm_events t []) T_fired) ∨
       (trep (sv_timer self) T_stopping ∧ ev = NN_TIMER_STOPPED ∧ trep (set_tm_events t []) T_idle)))
      as (ev & He & Hcase).
    { destruct Hev as [(-> & ? & ?)|(-> & ? & ?)]; eexists; (split; [done|]); [left|right]; done. }
    destruct (sv_event_ok self w ps _ ev Hi Hcase) as (self' & w' & E & Hi' & Hs & Heff).
    exists self', w'. split; [done|]. split; [|done].
    destruct (sv_timer_phase _ _ _ Hi') as [ph' [He' _]].
    exact (sv_leave_one _ _ _ ev (self', w') He E He').
Qed.

(** ** The end of a session *)

Definition sv_stop_inv (self : nn_surveyor T) (w : W) : Prop :=
  xsurveyor_inv (xsurveyor self) w ∅ ∧
  ((sv_fsm self = NN_FSM_STATE_STOPPING ∧ sv_state self = NN_SURVEYOR_STATE_STOPPING ∧
     trep (sv_timer self) T_stopping ∧ sv_stopped self = false) ∨
   (sv_fsm self = NN_FSM_STATE_IDLE ∧ sv_state self = NN_SURVEYOR_STATE_IDLE ∧
     trep (sv_timer self) T_idle ∧ sv_stopped self = true)).

Lemma sv_stop_quiet self w : sv_stop_inv self w → sv_leave (self, w) = Ret (self, w).
Proof.
  intros [_ [(_ & _ & [He _] & _)|(_ & _ & [He _] & _)]]; by apply sv_leave_quiet.
Qed.

Lemma sv_stop_ok self w :
  sv_inv self w ∅ → ∃ self', nn_surveyor_stop (self, w) = Ret (self', w) ∧ sv_stop_inv self' w.
Proof.
  intros Hi. destruct (sv_timer_phase _ _ _ Hi) as [ph Ht]. destruct Hi as [[Hx Hd Hf Hst] _ _].
  unfold nn_surveyor_stop, nn_fsm_stop, sv_fsm_of, set_sv_fsm_of. cbn [fst snd]. rewrite Hf.
  cbn [Z.eqb negb Pos.eqb NN_FSM_STATE_ACTIVE]. unfold nn_surveyor_shutdown.
  cbn [Z.eqb Pos.eqb andb NN_FSM_ACTION NN_FSM_STOP]. cbn [sv_timer set_sv_fsm].
  destruct (trep_stop _ _ Ht) as (t & -> & Ht'). step. cbn -[nn_timer_isidle].
  rewrite (trep_isidle _ _ Ht'). case_decide as Hi; cbn.
  - eexists. split; [reflexivity|]. split; [done|right]. by split_and!.
  - eexists. split; [reflexivity|]. split; [done|left]. by split_and!.
Qed.

Lemma sv_stop_worker self w ws :
  sv_stop_inv self w → worker_ready (sv_timer self) ws = true →
  ∃ t self', worker_step (sv_timer self) ws = Ret t ∧
    sv_leave (set_sv_timer self t, w) = Ret (self', w) ∧ sv_stop_inv self' w.
Proof.
  intros [Hx [(Hf & Hs & Ht & Hst)|(_ & _ & Ht & _)]] Hw; [|by rewrite (trep_idle_worker _ _ Ht) in Hw].
  destruct (trep_worker _ _ _ Ht Hw) as (t & Et & _ & [[He Ht']|[(? & _)|(_ & He & Ht')]]); [|done|]; exists t.
  - exists (set_sv_timer self t). split; [done|]. split; [by apply sv_leave_quiet|].
    split; [done|left]. by split_and!.
  - exists (set_sv_stopped (set_sv_fsm (set_sv_state (set_sv_timer self (set_tm_events t []))
      NN_SURVEYOR_STATE_IDLE) NN_FSM_STATE_IDLE) true).
    split; [done|]. split; [|split; [done|right]; by split_and!].
    eapply sv_leave_one; [done| |done].
    unfold sv_feed, nn_fsm_feed, sv_fsm_of. cbn [fst snd sv_fsm set_sv_timer sv_timer].
    rewrite Hf. cbn [Z.eqb negb NN_FSM_STATE_STOPPING Pos.eqb]. unfold nn_surveyor_shutdown.
    cbn [Z.eqb Pos.eqb andb NN_SURVEYOR_SRC_DEADLINE_TIMER NN_FSM_ACTION]. step.
    cbn [sv_state set_sv_timer sv_timer]. rewrite Hs. cbn [Z.eqb Pos.eqb NN_SURVEYOR_STATE_STOPPING].
    rewrite (trep_isidle _ _ Ht'). cbn. unfold nn_fsm_stopped_noevent, sv_fsm_of. cbn. by rewrite Hf.
Qed.

(** ** Sessions *)

Notation world := (sv_world (T := T) (W := W)).
Notation op_of := (sv_op (W := W)).

Definition sv_allowed (σ : world) (op : op_of) : Prop :=
  let '(self, w, ps) := σ in
  match op with
  | V_call c => sv_fsm self = NN_FSM_STATE_ACTIVE ∧ allowed w ps c ∧
      match c with C_send m => sphdr m = [] | _ => True end
  | V_worker ws => worker_ready (sv_timer self) ws = true
  | V_deadline ms => sv_fsm self = NN_FSM_STATE_ACTIVE ∧ 0 ≤ ms
  | V_stop => sv_fsm self = NN_FSM_STATE_ACTIVE ∧ ps = ∅
  end.

Definition sv_any_inv (σ : world) : Prop :=
  let '(self, w, ps) := σ in sv_inv self w ps ∨ (ps = ∅ ∧ sv_stop_inv self w).

Inductive sv_reach (σ0 : world) : world → Prop :=
| vr_start : sv_reach σ0 σ0
| vr_step σ op σ' rc m :
    sv_reach σ0 σ → sv_allowed σ op → sv_exec σ op = Ret (σ', rc, m) → sv_reach σ0 σ'.

Lemma sv_active self w ps :
  sv_any_inv (self, w, ps) → sv_fsm self = NN_FSM_STATE_ACTIVE → sv_inv self w ps.
Proof. intros [Hi|(_ & _ & [(-> & _)|(-> & _)])] Ha; done. Qed.

Lemma sv_call_ok self w ps c :
  sv_inv self w ps → sv_allowed (self, w, ps) (V_call c) →
  ∃ self' w' ps' rc m, sv_exec (self, w, ps) (V_call c) = Ret (self', w', ps', rc, m) ∧ sv_inv self' w' ps'.
Proof.
  intros Hi (_ & Ha & Hc). pose proof (vb_x _ _ _ (vi_base _ _ _ Hi)) as Hx.
  destruct c as [p sp rp|p u|p u|p u|m|]; cbn -[while sv_leave nn_surveyor_recv].
  - destruct (xsurveyor_add_ok _ _ _ _ _ _ Hx Ha) as (x & E & ?). rewrite E. step.
    assert (sv_inv (set_xsurveyor self x) w ({[p]} ∪ ps)) as Hi' by by eapply sv_frame.
    rewrite (sv_quiet _ _ _ Hi'). step. by eexists _, w, _, 0, None.
  - destruct (xsurveyor_rm_ok _ _ _ _ _ Hx Ha) as (x & E & ?). rewrite E. step.
    assert (sv_inv (set_xsurveyor self x) u (ps ∖ {[p]})) as Hi' by by eapply sv_frame.
    rewrite (sv_quiet _ _ _ Hi'). step. by eexists _, u, _, 0, None.
  - destruct (xsurveyor_in_ok _ _ _ _ _ Hx Ha) as (x & E & ?). rewrite E. step.
    assert (sv_inv (set_xsurveyor self x) u ps) as Hi' by by eapply sv_frame.
    rewrite (sv_quiet _ _ _ Hi'). step. by eexists _, u, ps, 0, None.
  - destruct (xsurveyor_out_ok _ _ _ _ _ Hx Ha) as (x & E & ?). rewrite E. step.
    assert (sv_inv (set_xsurveyor self x) u ps) as Hi' by by eapply sv_frame.
    rewrite (sv_quiet _ _ _ Hi'). step. by eexists _, u, ps, 0, None.
  - destruct (sv_send_ok _ _ _ _ Hi Hc) as (self' & u & E & Hi' & _). rewrite E. step.
    rewrite (sv_quiet _ _ _ Hi'). step. by eexists _, u, ps, 0, None.
  - destruct (nn_surveyor_inprogress self) eqn:Hp.
    + destruct (sv_recv_ok (S (pending w)) _ _ _ Hi Hp) as (x & u & bad & Hi' & _ & _ & Hr); [lia|].
      destruct Hr as [(E & _)|(p & rc & m0 & m & E & _)]; rewrite E; step;
        rewrite (sv_quiet _ _ _ Hi'); step; by eexists _, u, ps, _, _.
    + unfold nn_surveyor_recv. cbn [fst snd]. rewrite Hp. cbn [negb].
      destruct (timedout self =? NN_SURVEYOR_TIMEDOUT); step.
      * assert (sv_inv (set_timedout self 0) w ps) as Hi'.
        { destruct Hi as [[? ? ? ?] Hph Hh]. split; [by split| |done].
          destruct Hph; try bad_state. by apply vp_passive. }
        rewrite (sv_quiet _ _ _ Hi'). step. by eexists _, w, ps, _, None.
      * rewrite (sv_quiet _ _ _ Hi). step. by eexists _, w, ps, _, None.
Qed.

Lemma sv_exec_ok σ op :
  sv_any_inv σ → sv_allowed σ op → ∃ σ' rc m, sv_exec σ op = Ret (σ', rc, m) ∧ sv_any_inv σ'.
Proof.
  destruct σ as [[self w] ps]. intros Hi Ha. destruct op as [c|ws|ms|].
  - pose proof (sv_active _ _ _ Hi (proj1 Ha)) as Hi'.
    destruct (sv_call_ok _ _ _ _ Hi' Ha) as (self' & w' & ps' & rc & m & E & ?).
    exists (self', w', ps'), rc, m. split; [done|by left].
  - destruct Hi as [Hi|[-> Hi]].
    + destruct (sv_worker_ok _ _ _ _ Hi Ha) as (t & self' & w' & E & E' & ? & _).
      exists (self', w', ps), 0, None. unfold sv_exec. rewrite E. step. rewrite E'. step. split; [done|by left].
    + destruct (sv_stop_worker _ _ _ Hi Ha) as (t & self' & E & E' & ?).
      exists (self', w, ∅), 0, None. unfold sv_exec. rewrite E. step. rewrite E'. step. split; [done|by right].
  - destruct Ha as [Ha Hms]. pose proof (sv_active _ _ _ Hi Ha) as Hi'.
    assert (sv_inv (set_deadline self ms) w ps) as Hi2.
    { destruct Hi' as [[? ? ? ?] Hph Hh]. split; [by split| |done].
      destruct Hph; [by apply vp_passive|by apply vp_active|by apply vp_cancel|by apply vp_expired]. }
    exists (set_deadline self ms, w, ps), 0, None. split; [|by left].
    unfold sv_exec, nn_surveyor_setopt. rewrite !Z.eqb_refl. cbn [negb].
    by rewrite (sv_quiet _ _ _ Hi2).
  - destruct Ha as [Ha ->]. pose proof (sv_active _ _ _ Hi Ha) as Hi'.
    destruct (sv_stop_ok _ _ Hi') as (self' & E & Hs). exists (self', w, ∅), 0, None.
    unfold sv_exec. rewrite E. step. rewrite (sv_stop_quiet _ _ Hs). step. split; [done|by right].
Qed.

(** How far a survey is from its end, in steps of the worker thread. *)
Definition survey_left (self : nn_surveyor T) : nat :=
  7 * (if sv_state self =? NN_SURVEYOR_STATE_CANCELLING then 3
       else if sv_state self =? NN_SURVEYOR_STATE_ACTIVE then 2
       else if sv_state self =? NN_SURVEYOR_STATE_STOPPING_TIMER then 1 else 0) + work (sv_timer self).

Lemma sv_effect_left self self' w w' ps :
  sv_inv self' w' ps → sv_effect self self' w w' ps → (survey_left self' < survey_left self)%nat.
Proof.
  intros Hi. destruct (sv_timer_phase _ _ _ Hi) as [ph Ht%trep_work]. unfold survey_left.
  intros [(_ & -> & ?)|[(_ & -> & ->)|[(-> & -> & _)|(_ & -> & -> & _)]]]; cbn -[Nat.mul]; lia.
Qed.

Section sessions.
Context (s s' : T) (τ τ' : lspec) (id : Z) (w0 : W) (self0 : nn_surveyor T).
Context (Hs : l_rep s τ) (Hs1 : lseq τ = ∅) (Hs2 : lfree τ = ∅).
Context (Hs' : l_rep s' τ') (Hs1' : lseq τ' = ∅) (Hs2' : lfree τ' = ∅) (Hw0 : pipe_inv w0).
Context (Hinit : nn_surveyor_init s s' id w0 = Ret (self0, w0)).

Lemma sv_reach_any σ : sv_reach (self0, w0, ∅) σ → sv_any_inv σ.
Proof.
  assert (sv_inv self0 w0 ∅) as Hi0.
  { unfold nn_surveyor_init in Hinit. cbn in Hinit. injection Hinit as <-.
    split; [|by apply vp_passive|done]. split; [by eapply xsurveyor_init_inv|done|done|done]. }
  induction 1 as [|σ op σ' rc m _ IH Ha E]; [by left|].
  destruct (sv_exec_ok _ _ IH Ha) as (σ1 & rc1 & m1 & E1 & ?). rewrite E in E1. by injection E1 as -> _ _.
Qed.

(** A surveyor keeps working in every session: whatever calls the core makes,
    whatever the worker thread does for the deadline timer and whenever the socket
    is asked to stop, every step returns and no assertion fires.  Once the socket
    has stopped it can be destroyed, and while it is stopping the worker
    thread has a step to make. *)
Theorem survey_session self w ps op :
  sv_reach (self0, w0, ∅) (self, w, ps) →
  (sv_allowed (self, w, ps) op →
     ∃ σ' rc m, sv_exec (self, w, ps) op = Ret (σ', rc, m) ∧ sv_reach (self0, w0, ∅) σ') ∧
  (sv_stopped self = true → nn_surveyor_destroy self = Ret tt) ∧
  (sv_fsm self = NN_FSM_STATE_STOPPING → ∃ ws, worker_ready (sv_timer self) ws = true).
Proof.
  intros Hr. pose proof (sv_reach_any _ Hr) as Hi. split_and!.
  - intros Ha. destruct (sv_exec_ok _ _ Hi Ha) as (σ' & rc & m & E & _). exists σ', rc, m.
    split; [done|]. by eapply vr_step.
  - intros Hst. destruct Hi as [[[_ _ _ E] _ _]|[-> [Hx [(_ & _ & _ & E)|(Hf & _ & Ht & _)]]]];
      [by rewrite Hst in E..|].
    unfold nn_surveyor_destroy, nn_surveyor_term. rewrite (trep_term _ Ht). step.
    rewrite Hf. cbn [Z.eqb Pos.eqb NN_FSM_STATE_IDLE]. step. exact (xsurveyor_term_ok _ _ Hx).
  - intros Hst. destruct Hi as [[[_ _ E _] _ _]|[_ [_ [(_ & _ & Ht & _)|(E & _)]]]];
      [by rewrite Hst in E| |by rewrite Hst in E].
    apply (trep_ready _ _ Ht). by right.
Qed.

(** A survey reaches everybody and only its own responses come back.  In every
    reachable state of a running surveyor: a send returns 0 and gives the survey
    the next number (with the high bit set); it is handed once to every writable
    pipe, at once, unless an older survey has to be cancelled first.  While
    there is a survey a receive skips messages with another header and returns the
    body of the first response, or -EAGAIN when nothing is left to receive or
    a message is too short to hold a header; without one it returns -ETIMEDOUT if
    the last survey timed out since, and -EFSM otherwise. *)
Theorem survey_contract self w ps m :
  sv_reach (self0, w0, ∅) (self, w, ps) → sv_fsm self = NN_FSM_STATE_ACTIVE → sphdr m = [] →
  (∃ self' w', sv_exec (self, w, ps) (V_call (C_send m)) = Ret (self', w', ps, 0, None) ∧
     surveyid self' = Z.lor (u32 (surveyid self + 1)) 0x80000000 ∧
     tosend self' = set_sphdr m (be_split 4 (surveyid self')) ∧ nn_surveyor_inprogress self' = true ∧
     (if nn_surveyor_inprogress self
      then w' = w ∧ sv_state self' = NN_SURVEYOR_STATE_CANCELLING else surveyed (tosend self') w w' ps)) ∧
  (if nn_surveyor_inprogress self then
     ∃ self' w' bad, Forall (stale (surveyid self)) bad ∧ sent w' = sent w ∧ same_survey self self' ∧
       ((sv_exec (self, w, ps) (V_call C_recv) = Ret (self', w', ps, - EAGAIN, None) ∧
           ((recvd w' = recvd w ++ bad ∧ ∀ y, y ∈ ps → y ∉ readable w') ∨
            ∃ p m0 rc, recvd w' = recvd w ++ bad ++ [(p, m0)] ∧ split_as rc m0 O_term)) ∨
        ∃ p rc m0 r, sv_exec (self, w, ps) (V_call C_recv) = Ret (self', w', ps, 0, Some r) ∧
           recvd w' = recvd w ++ bad ++ [(p, m0)] ∧ response rc (surveyid self) m0 r)
   else if timedout self =? NN_SURVEYOR_TIMEDOUT then
     sv_exec (self, w, ps) (V_call C_recv) = Ret (set_timedout self 0, w, ps, - ETIMEDOUT, None)
   else sv_exec (self, w, ps) (V_call C_recv) = Ret (self, w, ps, - EFSM, None)).
Proof.
  intros Hr Ha Hm. pose proof (sv_active _ _ _ (sv_reach_any _ Hr) Ha) as Hi. split.
  - destruct (sv_send_ok _ _ _ _ Hi Hm) as (self' & w' & E & Hi' & ?). exists self', w'.
    split; [|done]. cbn -[sv_leave]. rewrite E. step. by rewrite (sv_quiet _ _ _ Hi').
  - unfold sv_exec. destruct (nn_surveyor_inprogress self) eqn:Hp.
    + destruct (sv_recv_ok (S (pending w)) _ _ _ Hi Hp) as (x & w' & bad & Hi' & Hb & Hsent & Hrv); [lia|].
      exists (set_xsurveyor self x), w', bad. split; [done|]. split; [done|]. split; [done|].
      destruct Hrv as [(E & Hrv)|(p & rc & m0 & r & E & Hrv)]; [left|right; exists p, rc, m0, r];
        rewrite E; step; by rewrite (sv_quiet _ _ _ Hi').
    + destruct (sv_timer_phase _ _ _ Hi) as [ph [He _]]. unfold nn_surveyor_recv. cbn [fst snd].
      rewrite Hp. cbn [negb]. destruct (timedout self =? NN_SURVEYOR_TIMEDOUT); step;
        by rewrite sv_leave_quiet.
Qed.

(** C36: every survey ends.  While a survey is in progress the worker thread has
    something to do for it, and whatever it does brings the survey closer to its
    end (at most 27 steps away): it does less, or the deadline expires, or a
    cancelled survey is replaced by the stored one, which is handed to every
    writable pipe, or the survey is over and the timeout will be reported.  In the
    sessions considered the user sets no negative NN_SURVEYOR_DEADLINE and passes no
    header with a survey; the code aborts on both. *)
Theorem survey_ends self w ps :
  sv_reach (self0, w0, ∅) (self, w, ps) → sv_fsm self = NN_FSM_STATE_ACTIVE →
  nn_surveyor_inprogress self = true →
  (∃ ws, worker_ready (sv_timer self) ws = true) ∧ (survey_left self ≤ 27)%nat ∧
  (∀ ws, worker_ready (sv_timer self) ws = true →
     ∃ self' w', sv_exec (self, w, ps) (V_worker ws) = Ret (self', w', ps, 0, None) ∧
       (survey_left self' < survey_left self)%nat ∧ same_survey self self' ∧ sv_effect self self' w w' ps).
Proof.
  intros Hr Ha Hp. pose proof (sv_active _ _ _ (sv_reach_any _ Hr) Ha) as Hi. split_and!.
  - destruct Hi as [_ Hph _]. destruct Hph as [E _|_ Ht|_ Ht|_ Ht _].
    + unfold nn_surveyor_inprogress in Hp. by rewrite E in Hp.
    + apply (trep_ready _ _ Ht). by left.
    + apply (trep_ready _ _ Ht). by right.
    + apply (trep_ready _ _ Ht). by right.
  - destruct (sv_timer_phase _ _ _ Hi) as [ph Ht%trep_work]. unfold survey_left.
    repeat case_match; lia.
  - intros ws Hws. destruct (sv_worker_ok _ _ _ _ Hi Hws) as (t & self' & w' & E & E' & Hi' & ? & Heff).
    exists self', w'. split; [unfold sv_exec; rewrite E; step; by rewrite E'|].
    split; [by eapply sv_effect_left|done].
Qed.

End sessions.
End props.

(** ** Respondents (xrespondent.c, respondent.c)

    The two files are xrep.c and rep.c with other names: keys instead of pipes in
    the headers, one survey at a time, the backtrace kept between receiving a
    survey and sending the response.  All theorems about reply sockets hold of
    them; only the peers differ. *)
Definition nn_xrespondent : Type → Type := nn_xrep.
Definition nn_respondent : Type → Type := nn_rep.

Section respondent.
Context `{ListStore T} `{PipeOps W vmsg}.

Definition nn_xrespondent_init : Z → Z → hmem T → T → nn_xrespondent T := nn_xrep_init.
Definition nn_xrespondent_term : nn_xrespondent T → outcome unit := nn_xrep_term.
Definition nn_xrespondent_destroy : nn_xrespondent T → outcome unit := nn_xrep_destroy.
Definition nn_xrespondent_add : nn_xrespondent T → pid → Z → outcome (nn_xrespondent T * Z) := nn_xrep_add.
Definition nn_xrespondent_rm : nn_xrespondent T → pid → outcome (nn_xrespondent T) := nn_xrep_rm.
Definition nn_xrespondent_in : nn_xrespondent T → pid → outcome (nn_xrespondent T) := nn_xrep_in.
Definition nn_xrespondent_out : nn_xrespondent T → pid → outcome (nn_xrespondent T) := nn_xrep_out.
Definition nn_xrespondent_events : nn_xrespondent T → Z := nn_xrep_events.
Definition nn_xrespondent_send : nn_xrespondent T → W → vmsg → outcome (nn_xrespondent T * W * Z) :=
  nn_xrep_send.
Definition nn_xrespondent_recv : nn_xrespondent T → W → outcome (nn_xrespondent T * W * Z * option vmsg) :=
  nn_xrep_recv.

Definition nn_respondent_init : Z → Z → hmem T → T → nn_respondent T := nn_rep_init.
Definition nn_respondent_term : nn_respondent T → outcome unit := nn_rep_term.
Definition nn_respondent_destroy : nn_respondent T → outcome unit := nn_rep_destroy.
Definition nn_respondent_events : nn_respondent T → Z := nn_rep_events.
Definition nn_respondent_send : nn_respondent T → W → vmsg → outcome (nn_respondent T * W * Z) :=
  nn_rep_send.
Definition nn_respondent_recv : nn_respondent T → W → outcome (nn_respondent T * W * Z * option vmsg) :=
  nn_rep_recv.

End respondent.

Definition nn_xrespondent_ispeer (socktype : Z) : bool := socktype =? NN_SURVEYOR.

(** ** Examples *)

Module SurveySample.

Notation world := (sv_world (T := Ptr.store) (W := toy vmsg)).
Notation op := (sv_op (W := toy vmsg)).

#[export] Instance sv_allowed_dec (σ : world) (o : op) : Decision (sv_allowed (T := Ptr.store) σ o).
Proof. destruct σ as [[self w] ps], o as [[]|ws|ms|]; cbn -[allowed]; apply _. Defined.

Fixpoint sv_run (σ : world) (fs : list (toy vmsg → op)) : outcome world :=
  match fs with
  | [] => Ret σ
  | f :: fs =>
      let o := f σ.1.2 in
      nn_assert (bool_decide (sv_allowed σ o));;
      '(σ, _, _) ← sv_exec σ o; sv_run σ fs
  end.

Lemma sv_run_reach σ0 fs σ σ' : sv_reach σ0 σ → sv_run σ fs = Ret σ' → sv_reach σ0 σ'.
Proof.
  revert σ. induction fs as [|f fs IH]; intros σ Hr; cbn -[sv_exec]; [by intros [= <-]|].
  case_bool_decide as Ha; [|done]. step. destruct (sv_exec σ _) as [[[σ1 rc] m]|] eqn:E; [|done]. step.
  apply IH. by eapply vr_step.
Qed.

Definition surveyor0 : nn_surveyor Ptr.store :=
  Surveyor (nn_xsurveyor_init Ptr.empty_store Ptr.empty_store) NN_FSM_STATE_ACTIVE
    NN_SURVEYOR_STATE_PASSIVE 5 nn_timer_init (VMsg [] [] []) NN_SURVEYOR_DEFAULT_DEADLINE 0 false.
Definition survey_start : world := (surveyor0, toy_empty, ∅).

(** Two pipes; a survey goes to both; an old response and a good one come back. *)
Definition ask_all : list (toy vmsg → op) :=
  [λ _, V_call (C_add 2 8 8); λ w, V_call (C_out 2 (toy_ready w 2));
   λ _, V_call (C_add 4 8 8); λ w, V_call (C_out 4 (toy_ready w 4));
   λ _, V_call (C_send (VMsg [] [] [104; 105])); λ _, V_worker W_task].
Definition responses : list (toy vmsg → op) :=
  [λ w, V_call (C_in 4 (toy_arrive w 4 [VMsg [] [] [128; 0; 0; 5; 111]; VMsg [] [] [128; 0; 0; 6; 107]]))].

End SurveySample.

Import SurveySample.

Lemma survey_session_witness :
  ∃ self w ps, sv_run survey_start ask_all = Ret (self, w, ps) ∧
    ∃ σ' rc m, sv_exec (self, w, ps) (V_worker W_expire) = Ret (σ', rc, m) ∧ sv_reach survey_start σ'.
Proof.
  destruct (ret_check_ok (λ σ, bool_decide (sv_allowed σ (V_worker W_expire))) (sv_run survey_start ask_all))
    as ([[self w] ps] & E & Ha); [vm_compute; reflexivity|].
  exists self, w, ps. split; [exact E|].
  destruct (survey_session (H0 := Ptr.ptr_store_ok) Ptr.empty_store Ptr.empty_store (LSpec ∅ ∅) (LSpec ∅ ∅) 5
    toy_empty surveyor0) with (self := self) (w := w) (ps := ps) (op := V_worker (W := toy vmsg) W_expire) as (Hx & _).
  - exact Ptr.rep_empty.
  - reflexivity.
  - reflexivity.
  - exact Ptr.rep_empty.
  - reflexivity.
  - reflexivity.
  - exact toy_empty_inv.
  - reflexivity.
  - exact (sv_run_reach _ _ _ _ (vr_start _) E).
  - exact (Hx (bool_decide_eq_true_1 _ Ha)).
Defined.

(** The survey of the example went to both pipes; a new one would replace it. *)
Lemma survey_contract_witness :
  ∃ self w ps, sv_run survey_start (ask_all ++ responses) = Ret (self, w, ps) ∧
    t_sent w = [(2%positive, VMsg [128; 0; 0; 6] [] [104; 105]); (4%positive, VMsg [128; 0; 0; 6] [] [104; 105])] ∧
    ∃ self' w', sv_exec (self, w, ps) (V_call (C_send (VMsg [] [] [49]))) = Ret (self', w', ps, 0, None) ∧
      surveyid self' = Z.lor (u32 (surveyid self + 1)) 0x80000000.
Proof.
  destruct (ret_check_ok (λ σ, (sv_fsm σ.1.1 =? NN_FSM_STATE_ACTIVE) && bool_decide (t_sent σ.1.2 =
      [(2%positive, VMsg [128; 0; 0; 6] [] [104; 105]); (4%positive, VMsg [128; 0; 0; 6] [] [104; 105])]))
      (sv_run survey_start (ask_all ++ responses)))
    as ([[self w] ps] & E & Hp); [vm_compute; reflexivity|]. cbn [fst snd] in Hp.
  apply andb_prop in Hp as [Hf Hsent]. exists self, w, ps. split; [exact E|].
  split; [exact (bool_decide_eq_true_1 _ Hsent)|].
  destruct (survey_contract (H0 := Ptr.ptr_store_ok) Ptr.empty_store Ptr.empty_store (LSpec ∅ ∅) (LSpec ∅ ∅) 5
    toy_empty surveyor0) with (self := self) (w := w) (ps := ps) (m := VMsg [] [] [49])
    as ((self' & w' & Ex & Hid & _) & _).
  - exact Ptr.rep_empty.
  - reflexivity.
  - reflexivity.
  - exact Ptr.rep_empty.
  - reflexivity.
  - reflexivity.
  - exact toy_empty_inv.
  - reflexivity.
  - exact (sv_run_reach _ _ _ _ (vr_start _) E).
  - exact (proj1 (Z.eqb_eq _ _) Hf).
  - reflexivity.
  - exists self', w'. exact (conj Ex Hid).
Defined.

Lemma survey_ends_witness :
  ∃ self w ps, sv_run survey_start ask_all = Ret (self, w, ps) ∧
    ∃ ws self' w', sv_exec (self, w, ps) (V_worker ws) = Ret (self', w', ps, 0, None) ∧
      (survey_left self' < survey_left self)%nat.
Proof.
  destruct (ret_check_ok (λ σ, (sv_fsm σ.1.1 =? NN_FSM_STATE_ACTIVE) && nn_surveyor_inprogress σ.1.1)
      (sv_run survey_start ask_all))
    as ([[self w] ps] & E & Hp); [vm_compute; reflexivity|]. cbn [fst snd] in Hp.
  apply andb_prop in Hp as [Hf Hin]. exists self, w, ps. split; [exact E|].
  destruct (survey_ends (H0 := Ptr.ptr_store_ok) Ptr.empty_store Ptr.empty_store (LSpec ∅ ∅) (LSpec ∅ ∅) 5
    toy_empty surveyor0) with (self := self) (w := w) (ps := ps) as ((ws & Hws) & _ & Hw).
  - exact Ptr.rep_empty.
  - reflexivity.
  - reflexivity.
  - exact Ptr.rep_empty.
  - reflexivity.
  - reflexivity.
  - exact toy_empty_inv.
  - reflexivity.
  - exact (sv_run_reach _ _ _ _ (vr_start _) E).
  - exact (proj1 (Z.eqb_eq _ _) Hf).
  - exact Hin.
  - destruct (Hw ws Hws) as (self' & w' & Ex & Hl & _). exists ws, self', w'. exact (conj Ex Hl).
Defined.

(** The example's receive skips the old response and returns the good one. *)
Lemma survey_sample_recv :
  ret_check (λ σ, ret_check (λ r, bool_decide (r.1.2 = 0 ∧ r.2 = Some (VMsg [] [] [107])))
    (sv_exec σ (V_call C_recv))) (sv_run survey_start (ask_all ++ responses)) = true.
Proof. vm_compute. reflexivity. Qed.

(** A negative deadline is accepted and aborts the next survey. *)
Lemma survey_negative_deadline :
  match nn_surveyor_send (T := Ptr.store) (W := toy vmsg)
    ((nn_surveyor_setopt surveyor0 NN_SURVEYOR NN_SURVEYOR_DEADLINE 4 (-1)).1, toy_empty) (VMsg [] [] []) with
  | Fail Abort => true | _ => false end = true.
Proof. vm_compute. reflexivity. Qed.
