(* ===== verification/Base64.v ===== *)
(** * transports/utils/base64.c

    Both directions keep the bits that do not fill a byte or a character yet in
    a 32-bit word.  The proofs compare the streams of bits. *)
From S2P Require Import Prelude.

(** ** Code

    A buffer is the list of the bytes written so far, with [out_len] its size:
    a character is only written if there is room. *)

Definition ENCODEMAP : list Z :=
  ((λ i, 65 + Z.of_nat i) <$> seq 0 26) ++ ((λ i, 97 + Z.of_nat i) <$> seq 0 26) ++
  ((λ i, 48 + Z.of_nat i) <$> seq 0 10) ++ [43; 47].

Definition DECODEMAP : list Z := [
   255; 255; 255; 255; 255; 255; 255; 255; 255; 255; 255; 255; 255; 255; 255; 255;
   255; 255; 255; 255; 255; 255; 255; 255; 255; 255; 255; 255; 255; 255; 255; 255;
   255; 255; 255; 255; 255; 255; 255; 255; 255; 255; 255; 62; 255; 255; 255; 63;
   52; 53; 54; 55; 56; 57; 58; 59; 60; 61; 255; 255; 255; 62; 255; 255;
   255; 0; 1; 2; 3; 4; 5; 6; 7; 8; 9; 10; 11; 12; 13; 14;
   15; 16; 17; 18; 19; 20; 21; 22; 23; 24; 25; 255; 255; 255; 255; 255;
   255; 26; 27; 28; 29; 30; 31; 32; 33; 34; 35; 36; 37; 38; 39; 40;
   41; 42; 43; 44; 45; 46; 47; 48; 49; 50; 51; 255; 255; 255; 255; 255;
   255; 255; 255; 255; 255; 255; 255; 255; 255; 255; 255; 255; 255; 255; 255; 255;
   255; 255; 255; 255; 255; 255; 255; 255; 255; 255; 255; 255; 255; 255; 255; 255;
   255; 255; 255; 255; 255; 255; 255; 255; 255; 255; 255; 255; 255; 255; 255; 255;
   255; 255; 255; 255; 255; 255; 255; 255; 255; 255; 255; 255; 255; 255; 255; 255;
   255; 255; 255; 255; 255; 255; 255; 255; 255; 255; 255; 255; 255; 255; 255; 255;
   255; 255; 255; 255; 255; 255; 255; 255; 255; 255; 255; 255; 255; 255; 255; 255;
   255; 255; 255; 255; 255; 255; 255; 255; 255; 255; 255; 255; 255; 255; 255; 255;
   255; 255; 255; 255; 255; 255; 255; 255; 255; 255; 255; 255; 255; 255; 255; 255].

Definition isspace (c : Z) : bool := (c =? 32) || ((9 <=? c) && (c <=? 13)).

(** [if (io >= out_len) return -ENOBUFS; out [io++] = c]: [None] when it returns. *)
Definition put (out_len : Z) (out : list Z) (c : Z) : option (list Z) :=
  if out_len <=? Z.of_nat (length out) then None else Some (out ++ [c]).

(** *** Encoding *)

(** One turn of [while (rem >= 6)]; the result [None] is -ENOBUFS. *)
Definition flush_body (out_len v : Z) (s : Z * list Z) : outcome ((Z * list Z) * option (option unit)) :=
  let '(rem, out) := s in
  if 6 <=? rem then
    let rem := rem - 6 in
    c ← rd ENCODEMAP (Z.to_nat (Z.land (Z.shiftr v rem) 63));
    match put out_len out c with
    | None => Ret ((rem, out), Some None)
    | Some out => Ret ((rem, out), None)
    end
  else Ret ((rem, out), Some (Some tt)).

(** The loop over the input; [None]: -ENOBUFS. *)
Fixpoint encode_loop (inp : list Z) (out_len v rem : Z) (out : list Z) : outcome (option (Z * Z) * list Z) :=
  match inp with
  | [] => Ret (Some (v, rem), out)
  | ch :: inp =>
      let v := Z.lor (u32 (Z.shiftl v 8)) ch in
      '((rem, out), r) ← while 3 (flush_body out_len v) (rem + 8, out);
      match r with
      | None => Ret (None, out)
      | Some _ => encode_loop inp out_len v rem out
      end
  end.

(** One turn of [while (io & 3)]. *)
Definition pad_body (out_len : Z) (out : list Z) : outcome (list Z * option (option unit)) :=
  if Z.land (Z.of_nat (length out)) 3 =? 0 then Ret (out, Some (Some tt))
  else match put out_len out 61 with None => Ret (out, Some None) | Some out => Ret (out, None) end.

(** The bytes written to [out] and the result. *)
Definition nn_base64_encode (inp : list Z) (out_len : Z) : outcome (list Z * Z) :=
  '(r, out) ← encode_loop inp out_len 0 0 [];
  match r with
  | None => Ret (out, - ENOBUFS)
  | Some (v, rem) =>
      last ← (if rem =? 0 then Ret (Some out)
              else
                c ← rd ENCODEMAP (Z.to_nat (Z.land (u32 (Z.shiftl v (6 - rem))) 63));
                Ret (put out_len out c));
      match last with
      | None => Ret (out, - ENOBUFS)
      | Some out =>
          '(out, r) ← while 4 (pad_body out_len) out;
          match r with
          | None => Ret (out, - ENOBUFS)
          | Some _ =>
              match put out_len out 0 with
              | None => Ret (out, - ENOBUFS)
              | Some buf => Ret (buf, s32 (Z.of_nat (length out)))
              end
          end
      end
  end.

(** *** Decoding *)

(** [DECODEMAP \[(int)(in \[ii\])\]]: the characters are signed on the hosts
    considered, so that one above 127 gives a negative index. *)
Definition decode_at (c : Z) : outcome Z := if c <? 128 then rd DECODEMAP (Z.to_nat c) else Fail Crash.

Fixpoint decode_loop (inp : list Z) (out_len v rem : Z) (out : list Z) : outcome (option (Z * Z) * list Z) :=
  match inp with
  | [] => Ret (Some (v, rem), out)
  | c :: inp =>
      if isspace c then decode_loop inp out_len v rem out
      else if c =? 61 then Ret (Some (v, rem), out)
      else
        ch ← decode_at c;
        if ch =? 255 then Ret (Some (v, rem), out)
        else
          let v := Z.lor (u32 (Z.shiftl v 6)) ch in
          let rem := rem + 6 in
          if 8 <=? rem then
            let rem := rem - 8 in
            match put out_len out (Z.land (Z.shiftr v rem) 255) with
            | None => Ret (None, out)
            | Some out => decode_loop inp out_len v rem out
            end
          else decode_loop inp out_len v rem out
  end.

Definition nn_base64_decode (inp : list Z) (out_len : Z) : outcome (list Z * Z) :=
  '(r, out) ← decode_loop inp out_len 0 0 [];
  match r with
  | None => Ret (out, - ENOBUFS)
  | Some (v, rem) =>
      if 8 <=? rem then
        match put out_len out (Z.land (Z.shiftr v (rem - 8)) 255) with
        | None => Ret (out, - ENOBUFS)
        | Some out => Ret (out, s32 (Z.of_nat (length out)))
        end
      else Ret (out, s32 (Z.of_nat (length out)))
  end.

(** ** Bits *)

(** The low [k] bits of [v], the most significant one first. *)
Fixpoint bits (k : nat) (v : Z) : list bool :=
  match k with O => [] | S k => Z.testbit v (Z.of_nat k) :: bits k v end.

Definition stream (k : nat) (l : list Z) : list bool := concat (bits k <$> l).

Lemma length_bits k v : length (bits k v) = k.
Proof. induction k; cbn; [done|by f_equal]. Qed.

Lemma bits_app a b v : bits (a + b) v = bits a (Z.shiftr v (Z.of_nat b)) ++ bits b v.
Proof.
  induction a as [|a IH]; [done|]. cbn. rewrite IH, Z.shiftr_spec by lia. f_equal. f_equal. lia.
Qed.

Lemma bits_ext k v v' : (∀ i, 0 ≤ i < Z.of_nat k → Z.testbit v i = Z.testbit v' i) → bits k v = bits k v'.
Proof.
  induction k as [|k IH]; intros He; [done|]. cbn. rewrite He by lia. f_equal. apply IH.
  intros. apply He. lia.
Qed.

Lemma testbit_small v k i : 0 ≤ v < 2 ^ k → k ≤ i → Z.testbit v i = false.
Proof.
  intros Hv Hi. destruct (decide (v = 0)) as [->|]; [apply Z.testbit_0_l|].
  apply Z.bits_above_log2; [lia|]. apply Z.log2_lt_pow2; [lia|].
  apply Z.lt_le_trans with (2 ^ k); [lia|]. apply Z.pow_le_mono_r; lia.
Qed.

Lemma bits_inj k v v' :
  0 ≤ v < 2 ^ Z.of_nat k → 0 ≤ v' < 2 ^ Z.of_nat k → bits k v = bits k v' → v = v'.
Proof.
  intros Hv Hv' He. apply Z.bits_inj'. intros i Hi.
  destruct (decide (Z.of_nat k ≤ i)) as [Hk|Hk]; [by rewrite !(testbit_small _ (Z.of_nat k))|].
  assert (∀ n, (n ≤ k)%nat → bits n v = bits n v') as Hn.
  { intros n Hle. revert He. replace k with ((k - n) + n)%nat by lia. rewrite !bits_app. intros He.
    apply app_inj_2 in He as [_ He]; [done|by rewrite !length_bits]. }
  specialize (Hn (S (Z.to_nat i))). cbn in Hn. rewrite Z2Nat.id in Hn by lia.
  assert (S (Z.to_nat i) ≤ k)%nat as Hle by lia. by injection (Hn Hle).
Qed.

(** Appending [n] bits to a 32-bit word. *)
Lemma bits_push k n v ch :
  0 ≤ ch < 2 ^ Z.of_nat n → (k + n ≤ 32)%nat →
  bits (k + n) (Z.lor (u32 (Z.shiftl v (Z.of_nat n))) ch) = bits k v ++ bits n ch.
Proof.
  intros Hch Hk. rewrite bits_app. unfold u32. f_equal; apply bits_ext; intros i Hi.
  - rewrite Z.shiftr_spec, Z.lor_spec, Z.mod_pow2_bits_low, Z.shiftl_spec by lia.
    rewrite (testbit_small ch (Z.of_nat n)) by lia. rewrite orb_false_r. f_equal. lia.
  - rewrite Z.lor_spec, Z.mod_pow2_bits_low, Z.shiftl_spec by lia.
    by rewrite (Z.testbit_neg_r v) by lia.
Qed.

(** Taking the upper [n] of [k + n] bits. *)
Lemma bits_pop n k v m :
  m = 2 ^ Z.of_nat n - 1 →
  bits (n + k) v = bits n (Z.land (Z.shiftr v (Z.of_nat k)) m) ++ bits k v.
Proof.
  intros ->. rewrite bits_app. f_equal. apply bits_ext. intros i Hi.
  replace (2 ^ Z.of_nat n - 1) with (Z.ones (Z.of_nat n)) by (rewrite Z.ones_equiv; lia).
  by rewrite Z.land_spec, Z.ones_spec_low, andb_true_r by lia.
Qed.

Lemma stream_snoc k l c : stream k (l ++ [c]) = stream k l ++ bits k c.
Proof. unfold stream. rewrite fmap_app, concat_app. cbn. by rewrite app_nil_r. Qed.

Lemma length_stream k l : length (stream k l) = (k * length l)%nat.
Proof.
  unfold stream. induction l as [|c l IH]; cbn; [lia|]. rewrite length_app, length_bits, IH. lia.
Qed.

(** Bytes are determined by their bits, whatever incomplete byte follows. *)
Lemma stream_inj a b t t' :
  bytes a → bytes b → (length t < 8)%nat → (length t' < 8)%nat →
  stream 8 a ++ t = stream 8 b ++ t' → a = b.
Proof.
  intros Ha Hb Ht Ht'. revert b Hb. induction Ha as [|x a Hx Ha IH]; intros [|y b] Hb He; [done|..].
  - apply (f_equal length) in He. rewrite !length_app, !length_stream in He. cbn [length] in He. lia.
  - apply (f_equal length) in He. rewrite !length_app, !length_stream in He. cbn [length] in He. lia.
  - apply Forall_cons in Hb as [Hy Hb]. unfold stream in He. cbn [fmap list_fmap concat] in He.
    rewrite <- !app_assoc in He. apply app_inj_1 in He as [Hxy He]; [|by rewrite !length_bits].
    f_equal; [by apply (bits_inj 8)|by apply IH].
Qed.

(** ** Encoding *)

Definition enc (i : Z) : Z := default 0 (ENCODEMAP !! Z.to_nat i).
Definition is_sextet (i : Z) : Prop := 0 ≤ i < 64.

(** The two tables are inverse, and no character has a special meaning. *)
Lemma enc_ok i :
  is_sextet i → rd ENCODEMAP (Z.to_nat i) = Ret (enc i) ∧ decode_at (enc i) = Ret i ∧
    isspace (enc i) = false ∧ (enc i =? 61) = false ∧ (i =? 255) = false.
Proof.
  intros Hi.
  assert (forallb (λ i, ret_check (λ c, c =? enc i) (rd ENCODEMAP (Z.to_nat i)) &&
      ret_check (λ c, c =? i) (decode_at (enc i)) && negb (isspace (enc i)) && negb (enc i =? 61) &&
      negb (i =? 255)) (Z.of_nat <$> seq 0 64) = true) as Hall by (vm_compute; reflexivity).
  rewrite forallb_forall in Hall. specialize (Hall i).
  assert (In i (Z.of_nat <$> seq 0 64)) as Hin.
  { apply list_elem_of_In, list_elem_of_fmap. exists (Z.to_nat i).
    split; [unfold is_sextet in Hi; lia|]. apply elem_of_seq. unfold is_sextet in Hi. lia. }
  specialize (Hall Hin). rewrite !andb_true_iff, !negb_true_iff in Hall.
  destruct Hall as ((((H1 & H2) & H3) & H4) & H5).
  apply ret_check_ok in H1 as (c & -> & ->%Z.eqb_eq). apply ret_check_ok in H2 as (c & -> & ->%Z.eqb_eq).
  done.
Qed.

Lemma put_cases out_len out c :
  (put out_len out c = None ∧ out_len ≤ Z.of_nat (length out)) ∨
  (put out_len out c = Some (out ++ [c]) ∧ Z.of_nat (length (out ++ [c])) ≤ out_len).
Proof.
  unfold put. destruct (out_len <=? Z.of_nat (length out)) eqn:E.
  - left. split; [done|]. by apply Z.leb_le.
  - right. split; [done|]. apply Z.leb_gt in E. rewrite length_app. cbn. lia.
Qed.

Section encode.
Context (out_len : Z).

Definition room (out : list Z) : Prop := 0 ≤ out_len → Z.of_nat (length out) ≤ out_len.

Lemma sextet_land v n : is_sextet (Z.land (Z.shiftr v n) 63).
Proof. unfold is_sextet. rewrite (Z.land_ones _ 6) by lia. apply Z.mod_pos_bound. lia. Qed.

Lemma flush_ok v rem sx :
  0 ≤ rem < 14 → Forall is_sextet sx → room (enc <$> sx) →
  let pre := stream 6 sx ++ bits (Z.to_nat rem) v in
  ∃ rem' out r, while 3 (flush_body out_len v) (rem, enc <$> sx) = Ret ((rem', out), r) ∧ room out ∧
    match r with
    | None => out_len ≤ Z.of_nat (length out) ∧ (6 * (length out + 1) ≤ length pre)%nat
    | Some _ => 0 ≤ rem' < 6 ∧ ∃ sx', out = enc <$> sx' ∧ Forall is_sextet sx' ∧
        stream 6 sx' ++ bits (Z.to_nat rem') v = pre
    end.
Proof.
  intros Hrem Hsx Hroom pre.
  destruct (while_ok
    (λ s, 0 ≤ s.1 < 14 ∧ room s.2 ∧ ∃ sx', s.2 = enc <$> sx' ∧ Forall is_sextet sx' ∧
       stream 6 sx' ++ bits (Z.to_nat s.1) v = pre) (λ s, Z.to_nat (s.1 / 6))
    (λ s r, room s.2 ∧ match r with
       | None => out_len ≤ Z.of_nat (length s.2) ∧ (6 * (length s.2 + 1) ≤ length pre)%nat
       | Some _ => 0 ≤ s.1 < 6 ∧ ∃ sx', s.2 = enc <$> sx' ∧ Forall is_sextet sx' ∧
           stream 6 sx' ++ bits (Z.to_nat s.1) v = pre end) (flush_body out_len v))
    with (fuel := 3%nat) (s := (rem, enc <$> sx)) as ([rem' out] & r & E & Hr & Hcase).
  - intros [rm out] (Hrm & Hro & sx' & Eout & Hsx' & Hbits). cbn [fst snd] in *. subst out. unfold flush_body.
    destruct (6 <=? rm) eqn:Hle.
    + apply Z.leb_le in Hle. set (c := Z.land (Z.shiftr v (rm - 6)) 63).
      destruct (enc_ok c (sextet_land _ _)) as (-> & _). step.
      assert (bits (Z.to_nat rm) v = bits 6 c ++ bits (Z.to_nat (rm - 6)) v) as Hpop.
      { replace (Z.to_nat rm) with (6 + Z.to_nat (rm - 6))%nat by lia.
        rewrite (bits_pop 6 _ _ 63) by done. by rewrite Z2Nat.id by lia. }
      destruct (put_cases out_len (enc <$> sx') (enc c)) as [[-> Ho]|[-> Ho]].
      * eexists _, (Some None). split; [done|]. cbn [fst snd]. split; [done|]. split; [done|].
        rewrite <- Hbits, Hpop, !length_app, length_stream, !length_bits, length_fmap. lia.
      * eexists (rm - 6, _), None. split; [done|]. cbn [fst snd]. split.
        -- split; [lia|]. split; [by intros _|]. exists (sx' ++ [c]). rewrite fmap_app. split; [done|].
           split; [by apply Forall_app_2; [|apply Forall_singleton, sextet_land]|].
           by rewrite stream_snoc, <- app_assoc, <- Hpop.
        -- replace rm with ((rm - 6) + 1 * 6) at 2 by lia. rewrite Z.div_add by lia.
           assert (0 ≤ (rm - 6) / 6) by (apply Z.div_pos; lia). lia.
    + apply Z.leb_gt in Hle. eexists _, (Some (Some tt)). split; [done|]. cbn [fst snd].
      split; [done|]. split; [lia|]. by exists sx'.
  - cbn [fst snd]. split; [done|]. split; [done|]. by exists sx.
  - cbn [fst]. assert (rem / 6 < 3) by (apply Z.div_lt_upper_bound; lia). lia.
  - exists rem', out, r. by split_and!.
Qed.

Lemma encode_loop_ok inp v rem sx :
  0 ≤ rem < 6 → Forall is_sextet sx → bytes inp → room (enc <$> sx) →
  let pre := stream 6 sx ++ bits (Z.to_nat rem) v in
  ∃ r out, encode_loop inp out_len v rem (enc <$> sx) = Ret (r, out) ∧ room out ∧
    match r with
    | None => out_len ≤ Z.of_nat (length out) ∧ (6 * (length out + 1) ≤ length pre + 8 * length inp)%nat
    | Some (v', rem') => 0 ≤ rem' < 6 ∧ ∃ sx', out = enc <$> sx' ∧ Forall is_sextet sx' ∧
        stream 6 sx' ++ bits (Z.to_nat rem') v' = pre ++ stream 8 inp
    end.
Proof.
  intros Hrem Hsx Hinp. revert v rem sx Hrem Hsx.
  induction Hinp as [|ch inp Hch Hinp IH]; intros v rem sx Hrem Hsx Hroom pre.
  - exists (Some (v, rem)), (enc <$> sx). split; [done|]. split; [done|]. split; [done|].
    exists sx. by rewrite app_nil_r.
  - cbn [encode_loop]. set (v' := Z.lor (u32 (Z.shiftl v 8)) ch).
    destruct (flush_ok v' (rem + 8) sx) as (rem' & out & r & -> & Hro & Hr); [lia|done|done|]. step.
    assert (stream 6 sx ++ bits (Z.to_nat (rem + 8)) v' = pre ++ bits 8 ch) as Hpush.
    { unfold pre. rewrite <- app_assoc. f_equal. replace (Z.to_nat (rem + 8)) with (Z.to_nat rem + 8)%nat by lia.
      by rewrite <- (bits_push (Z.to_nat rem) 8 v ch) by (exact Hch || lia). }
    rewrite Hpush in Hr. destruct r as [_|].
    + destruct Hr as (Hrem' & sx' & -> & Hsx' & Hb).
      destruct (IH v' rem' sx' Hrem' Hsx' Hro) as (r & out & -> & Hro' & Hr). exists r, out.
      split; [done|]. split; [done|]. rewrite Hb in Hr. destruct r as [[v2 rem2]|].
      * destruct Hr as (? & sx2 & ? & ? & Hb2). split; [done|]. exists sx2. split; [done|]. split; [done|].
        rewrite Hb2. by rewrite <- app_assoc.
      * destruct Hr as [? Hle]. split; [done|]. rewrite !length_app, length_bits in Hle.
        cbn [length]. lia.
    + exists None, out. split; [done|]. split; [done|]. destruct Hr as [? Hle]. split; [done|].
      rewrite !length_app, length_bits in Hle. cbn [length]. lia.
Qed.

(** Padding: how many characters are missing. *)
Definition missing (n : nat) : Z := (4 - Z.of_nat n mod 4) mod 4.

Lemma missing_bounds n : 0 ≤ missing n < 4.
Proof. apply Z.mod_pos_bound. lia. Qed.

Lemma missing_succ n : Z.of_nat n mod 4 ≠ 0 → 1 ≤ missing n ∧ missing (S n) = missing n - 1.
Proof.
  unfold missing. rewrite Nat2Z.inj_succ. unfold Z.succ. generalize (Z.of_nat n). intros z Hm.
  assert (0 ≤ z mod 4 < 4) by (apply Z.mod_pos_bound; lia).
  rewrite (Z.add_mod z 1 4) by lia. change (1 mod 4) with 1.
  destruct (decide (z mod 4 = 1)) as [->|]; [done|]. destruct (decide (z mod 4 = 2)) as [->|]; [done|].
  assert (z mod 4 = 3) as -> by lia. done.
Qed.

Lemma pad_ok text :
  room text →
  ∃ p r, while 4 (pad_body out_len) text = Ret (text ++ replicate p 61, r) ∧
    room (text ++ replicate p 61) ∧
    match r with
    | None => out_len ≤ Z.of_nat (length text + p) ∧ Z.of_nat p < missing (length text)
    | Some _ => Z.of_nat p = missing (length text)
    end.
Proof.
  intros Hroom.
  destruct (while_ok (λ out, ∃ p, out = text ++ replicate p 61 ∧ room out ∧
      Z.of_nat p + missing (length out) = missing (length text))
    (λ out, Z.to_nat (missing (length out)))
    (λ out r, ∃ p, out = text ++ replicate p 61 ∧ room out ∧
      match r with
      | None => out_len ≤ Z.of_nat (length text + p) ∧ Z.of_nat p < missing (length text)
      | Some _ => Z.of_nat p = missing (length text)
      end) (pad_body out_len)) with (fuel := 4%nat) (s := text) as (out & r & E & p & -> & Hr).
  - intros out (p & Eout & Hro & Hp). unfold pad_body. rewrite (Z.land_ones _ 2) by lia. change (2 ^ 2) with 4.
    destruct (Z.of_nat (length out) mod 4 =? 0) eqn:Hm.
    + apply Z.eqb_eq in Hm. eexists _, (Some (Some tt)). split; [done|]. exists p. split; [done|]. split; [done|].
      unfold missing in Hp at 1. rewrite Hm in Hp. by rewrite Z.add_0_r in Hp.
    + apply Z.eqb_neq in Hm. destruct (missing_succ _ Hm) as [Hpos Hsucc].
      destruct (put_cases out_len out 61) as [[-> Ho]|[-> Ho]].
      * eexists _, (Some None). split; [done|]. exists p. split; [done|]. split; [done|].
        split; [|lia]. by rewrite Eout, length_app, length_replicate in Ho.
      * assert (length (out ++ [61]) = S (length out)) as Hlen by (rewrite length_app; cbn; lia).
        eexists _, None. split; [done|]. rewrite Hlen, Hsucc. split; [|lia].
        exists (S p). split; [by rewrite Eout, <- app_assoc, <- replicate_S_end|].
        split; [by intros _|lia].
  - exists O. cbn. rewrite app_nil_r. by split_and!.
  - pose proof (missing_bounds (length text)). lia.
  - exists p, r. by split.
Qed.

End encode.

(** ** Decoding *)

Lemma bits_land k v : bits k (Z.land v (2 ^ Z.of_nat k - 1)) = bits k v.
Proof.
  apply bits_ext. intros i Hi. replace (2 ^ Z.of_nat k - 1) with (Z.ones (Z.of_nat k)) by (rewrite Z.ones_equiv; lia).
  by rewrite Z.land_spec, Z.ones_spec_low, andb_true_r by lia.
Qed.

Lemma byte_land v n : is_byte (Z.land (Z.shiftr v n) 255).
Proof. unfold is_byte. rewrite (Z.land_ones _ 8) by lia. apply Z.mod_pos_bound. lia. Qed.

Lemma decode_loop_ok out_len p sx v rem out :
  Forall is_sextet sx → 0 ≤ rem < 8 → bytes out → room out_len out →
  let pre := stream 8 out ++ bits (Z.to_nat rem) v in
  ∃ r out', decode_loop ((enc <$> sx) ++ replicate p 61) out_len v rem out = Ret (r, out') ∧ room out_len out' ∧
    match r with
    | None => out_len ≤ Z.of_nat (length out') ∧ (8 * (length out' + 1) ≤ length pre + 6 * length sx)%nat
    | Some (v', rem') => 0 ≤ rem' < 8 ∧ bytes out' ∧
        stream 8 out' ++ bits (Z.to_nat rem') v' = pre ++ stream 6 sx
    end.
Proof.
  intros Hsx. revert v rem out. induction Hsx as [|i sx Hi Hsx IH]; intros v rem out Hrem Hout Hroom pre.
  - exists (Some (v, rem)), out. split; [by destruct p|]. split; [done|]. by rewrite app_nil_r.
  - destruct (enc_ok i Hi) as (_ & Hd & Hsp & Heq & Hff). cbn [fmap list_fmap app decode_loop].
    rewrite Hsp, Heq, Hd. step. rewrite Hff. set (v' := Z.lor (u32 (Z.shiftl v 6)) i).
    assert (stream 8 out ++ bits (Z.to_nat (rem + 6)) v' = pre ++ bits 6 i) as Hpush.
    { unfold pre. rewrite <- app_assoc. f_equal. replace (Z.to_nat (rem + 6)) with (Z.to_nat rem + 6)%nat by lia.
      by rewrite <- (bits_push (Z.to_nat rem) 6 v i) by (exact Hi || lia). }
    assert (stream 6 (i :: sx) = bits 6 i ++ stream 6 sx) as -> by done.
    assert (length (pre ++ bits 6 i) + 6 * length sx = length pre + 6 * length (i :: sx))%nat as Hlen.
    { rewrite length_app, length_bits. cbn [length]. lia. }
    destruct (8 <=? rem + 6) eqn:Hle.
    + apply Z.leb_le in Hle. set (c := Z.land (Z.shiftr v' (rem + 6 - 8)) 255).
      assert (bits (Z.to_nat (rem + 6)) v' = bits 8 c ++ bits (Z.to_nat (rem + 6 - 8)) v') as Hpop.
      { replace (Z.to_nat (rem + 6)) with (8 + Z.to_nat (rem + 6 - 8))%nat by lia.
        rewrite (bits_pop 8 _ _ 255) by done. by rewrite Z2Nat.id by lia. }
      rewrite Hpop, app_assoc, <- stream_snoc in Hpush.
      destruct (put_cases out_len out c) as [[-> Ho]|[-> Ho]].
      * exists None, out. split; [done|]. split; [done|]. split; [done|]. rewrite <- Hlen, <- Hpush.
        rewrite length_app, length_stream, length_app. cbn [length]. lia.
      * destruct (IH v' (rem + 6 - 8) (out ++ [c])) as (r & out' & -> & Hro & Hr); [lia| |by intros _|].
        { apply Forall_app_2; [done|]. apply Forall_singleton, byte_land. }
        exists r, out'. split; [done|]. split; [done|]. rewrite Hpush in Hr.
        destruct r as [[v2 rem2]|]; [by rewrite <- app_assoc in Hr|by rewrite Hlen in Hr].
    + apply Z.leb_gt in Hle. destruct (IH v' (rem + 6) out) as (r & out' & -> & Hro & Hr); [lia|done|done|].
      exists r, out'. split; [done|]. split; [done|]. rewrite Hpush in Hr.
      destruct r as [[v2 rem2]|]; [by rewrite <- app_assoc in Hr|by rewrite Hlen in Hr].
Qed.

(** The decoder inverts any list of sextets whose bits are the bytes, if there is room. *)
Lemma decode_ok sx t p inp len :
  Forall is_sextet sx → bytes inp → (length t < 8)%nat → stream 6 sx = stream 8 inp ++ t →
  Z.of_nat (length inp) < 2 ^ 31 → 0 ≤ len →
  if Z.of_nat (length inp) <=? len
  then nn_base64_decode ((enc <$> sx) ++ replicate p 61) len = Ret (inp, Z.of_nat (length inp))
  else ∃ out, nn_base64_decode ((enc <$> sx) ++ replicate p 61) len = Ret (out, - ENOBUFS).
Proof.
  intros Hsx Hinp Ht Hb Hlen Hpos. unfold nn_base64_decode.
  destruct (decode_loop_ok len p sx 0 0 [] Hsx) as (r & out & -> & Hro & Hr); [lia|constructor|by intros ?|]. step.
  change (stream 8 [] ++ bits (Z.to_nat 0) 0) with (@nil bool) in Hr. cbn [app length] in Hr.
  assert (6 * length sx = 8 * length inp + length t)%nat as Hcount.
  { by rewrite <- !length_stream, Hb, length_app. }
  specialize (Hro Hpos). destruct r as [[v rem]|].
  - destruct Hr as (Hrem & Hout & He). rewrite Hb in He.
    apply stream_inj in He as <-; [|done|done|rewrite length_bits; lia|done].
    rewrite (proj2 (Z.leb_gt 8 rem)) by lia. rewrite (proj2 (Z.leb_le _ len)) by done.
    do 2 f_equal. unfold s32. rewrite Z.mod_small; lia.
  - destruct Hr as [Ho Hle]. rewrite (proj2 (Z.leb_gt _ len)) by lia. by exists out.
Qed.

(** ** Properties *)

(** The last character: what is left of the bits, filled up with zeros. *)
Lemma last_sextet v rem :
  0 < rem < 6 →
  bits 6 (Z.land (u32 (Z.shiftl v (6 - rem))) 63) = bits (Z.to_nat rem) v ++ bits (Z.to_nat (6 - rem)) 0.
Proof.
  intros Hr. rewrite (bits_land 6). rewrite <- (bits_push (Z.to_nat rem) (Z.to_nat (6 - rem)) v 0) by lia.
  rewrite Z2Nat.id, Z.lor_0_r by lia. f_equal. lia.
Qed.

(** What the encoder writes before the padding. *)
Lemma encode_sextets inp out_len :
  bytes inp → 0 ≤ out_len →
  (∃ out, nn_base64_encode inp out_len = Ret (out, - ENOBUFS) ∧ Z.of_nat (length out) ≤ out_len ∧
     out_len ≤ 4 * ((Z.of_nat (length inp) + 2) / 3)) ∨
  (∃ sx t, Forall is_sextet sx ∧ stream 6 sx = stream 8 inp ++ t ∧ (length t < 6)%nat ∧
     room out_len (enc <$> sx) ∧
     nn_base64_encode inp out_len =
       ('(out, r) ← while 4 (pad_body out_len) (enc <$> sx);
        match r with
        | None => Ret (out, - ENOBUFS)
        | Some _ => match put out_len out 0 with
                    | None => Ret (out, - ENOBUFS)
                    | Some buf => Ret (buf, s32 (Z.of_nat (length out)))
                    end
        end)).
Proof.
  intros Hinp Hpos. unfold nn_base64_encode.
  destruct (encode_loop_ok out_len inp 0 0 []) as (r & out & E & Hro & Hr); [lia|constructor|done|by intros ?|].
  cbn [fmap list_fmap] in E. rewrite E. step.
  change (stream 6 [] ++ bits (Z.to_nat 0) 0) with (@nil bool) in Hr. cbn [app length] in Hr.
  set (n := length inp) in *.
  assert (3 * ((Z.of_nat n + 2) / 3) ≤ Z.of_nat n + 2 < 3 * ((Z.of_nat n + 2) / 3) + 3) as Hdiv.
  { pose proof (Z.div_mod (Z.of_nat n + 2) 3). pose proof (Z.mod_pos_bound (Z.of_nat n + 2) 3). lia. }
  destruct r as [[v rem]|].
  - destruct Hr as (Hrem & sx & -> & Hsx & Hb). destruct (rem =? 0) eqn:Hz.
    + apply Z.eqb_eq in Hz. subst rem. step. right. exists sx, []. rewrite app_nil_r. split; [done|].
      change (bits (Z.to_nat 0) v) with (@nil bool) in Hb. rewrite app_nil_r in Hb. cbn. split_and!; done || lia.
    + apply Z.eqb_neq in Hz. set (c := Z.land (u32 (Z.shiftl v (6 - rem))) 63).
      assert (is_sextet c) as Hc by (unfold c; rewrite <- (Z.shiftr_0_r (u32 _)); apply sextet_land).
      destruct (enc_ok c Hc) as (-> & _). step.
      assert (6 * length sx + Z.to_nat rem = 8 * n)%nat as Hcount.
      { apply (f_equal length) in Hb. by rewrite length_app, !length_stream, length_bits in Hb. }
      destruct (put_cases out_len (enc <$> sx) (enc c)) as [[-> Ho]|[-> Ho]].
      * left. eexists. split; [done|]. split; [by apply Hro|]. rewrite length_fmap in Ho. lia.
      * right. exists (sx ++ [c]), (bits (Z.to_nat (6 - rem)) 0). rewrite fmap_app, length_bits.
        split; [by apply Forall_app_2; [|apply Forall_singleton]|].
        split; [|split; [lia|split; [by intros _|done]]].
        rewrite stream_snoc. unfold c. rewrite last_sextet by lia. by rewrite app_assoc, Hb.
  - left. exists out. split; [done|]. split; [by apply Hro|]. destruct Hr. lia.
Qed.

(** C40: encoding and decoding are inverse.  For any bytes and any buffer the encoder
    either writes four characters for every three bytes begun, and a final zero,
    and returns the number of characters, if they fit; or it returns -ENOBUFS and
    has not written past the end of the buffer.  The text decodes to the bytes
    whenever they fit into the decoder's buffer, and to -ENOBUFS otherwise. *)
Theorem base64_roundtrip inp out_len :
  bytes inp → 0 ≤ out_len → 4 * ((Z.of_nat (length inp) + 2) / 3) < 2 ^ 31 →
  let total := 4 * ((Z.of_nat (length inp) + 2) / 3) in
  if total <? out_len then
    ∃ text, nn_base64_encode inp out_len = Ret (text ++ [0], total) ∧ Z.of_nat (length text) = total ∧
      ∀ len, 0 ≤ len →
        if Z.of_nat (length inp) <=? len
        then nn_base64_decode text len = Ret (inp, Z.of_nat (length inp))
        else ∃ out, nn_base64_decode text len = Ret (out, - ENOBUFS)
  else
    ∃ out, nn_base64_encode inp out_len = Ret (out, - ENOBUFS) ∧ Z.of_nat (length out) ≤ out_len.
Proof.
  intros Hinp Hpos Hbig total.
  destruct (encode_sextets inp out_len Hinp Hpos) as [(out & -> & Hlen & Ho)|(sx & t & Hsx & Hb & Ht & Hroom & ->)].
  { rewrite (proj2 (Z.ltb_ge total out_len)) by done. by exists out. }
  assert (6 * length sx = 8 * length inp + length t)%nat as Hcount.
  { by rewrite <- !length_stream, Hb, length_app. }
  destruct (pad_ok out_len (enc <$> sx) Hroom) as (p & r & -> & Hro & Hr). step.
  rewrite length_fmap in Hr. set (text := (enc <$> sx) ++ replicate p 61) in *.
  assert (Z.of_nat (length sx) + missing (length sx) = total) as Htotal.
  { unfold missing, total. clear - Hcount Ht. Z.to_euclidean_division_equations. lia. }
  assert (length text = length sx + p)%nat as Hlen.
  { unfold text. by rewrite length_app, length_fmap, length_replicate. }
  specialize (Hro Hpos). rewrite Hlen in Hro. destruct r as [_|].
  - assert (Z.of_nat (length text) = total) as Ht' by lia.
    destruct (put_cases out_len text 0) as [[-> Ho]|[-> Ho]].
    + rewrite (proj2 (Z.ltb_ge total out_len)) by lia. eexists. split; [done|]. lia.
    + rewrite length_app in Ho. cbn [length] in Ho.
      rewrite (proj2 (Z.ltb_lt total out_len)) by lia. exists text.
      rewrite Ht'. split; [do 2 f_equal; unfold s32; rewrite Z.mod_small; lia|]. split; [done|].
      intros len Hl. eapply decode_ok; try done; lia.
  - destruct Hr as [Ho Hp]. rewrite (proj2 (Z.ltb_ge total out_len)) by lia. eexists. split; [done|]. lia.
Qed.

Lemma base64_roundtrip_witness :
  ∃ text, nn_base64_encode [77; 97] 8 = Ret (text ++ [0], 4) ∧ nn_base64_decode text 16 = Ret ([77; 97], 2).
Proof.
  destruct (base64_roundtrip [77; 97] 8) as (text & E & _ & Hd).
  - apply Forall_cons. split; [unfold is_byte; lia|]. apply Forall_singleton. unfold is_byte. lia.
  - lia.
  - vm_compute. reflexivity.
  - exists text. split; [exact E|]. apply (Hd 16). lia.
Defined.

(** The text of the example is TWE=. *)
Lemma base64_sample : nn_base64_encode [77; 97] 8 = Ret ([84; 87; 69; 61; 0], 4).
Proof. vm_compute. reflexivity. Qed.

(** A character above 127 indexes the table with a negative number. *)
Lemma base64_decode_high : nn_base64_decode [200] 8 = Fail Crash.
Proof. vm_compute. reflexivity. Qed.
