(* ===== verification/Msgqueue.v ===== *)
(** * transports/inproc/msgqueue.c

    A queue of messages between the two ends of an in-process connection: a chain
    of chunks of 126 messages, written at one end and read at the other, with
    one emptied chunk kept for later.  The chunks live in a heap of their own. *)
From S2P Require Import Prelude Msg.

Definition NN_MSGQUEUE_GRANULARITY : nat := 126.

(** ** Memory *)

(** A slot is [None] until something is written to it. *)
Record nn_msgqueue_chunk := MqChunk { msgs : list (option vmsg); next : option positive }.

Record mheap := MHeap { mchunks : gmap positive nn_msgqueue_chunk; mfresh : positive }.

Definition mheap_empty : mheap := MHeap ∅ 1.

(** [nn_alloc] of a chunk, with its [next] set to NULL. *)
Definition mq_alloc (h : mheap) : mheap * positive :=
  (MHeap (<[mfresh h := MqChunk (replicate NN_MSGQUEUE_GRANULARITY None) None]> (mchunks h))
     (Pos.succ (mfresh h)), mfresh h).

Definition mq_free (h : mheap) (a : positive) : outcome mheap :=
  _ ← deref (mchunks h !! a); Ret (MHeap (delete a (mchunks h)) (mfresh h)).

Definition mq_write (h : mheap) (a : positive) (pos : nat) (m : vmsg) : outcome mheap :=
  c ← deref (mchunks h !! a);
  if decide (pos < length (msgs c))%nat
  then Ret (MHeap (<[a := MqChunk (<[pos := Some m]> (msgs c)) (next c)]> (mchunks h)) (mfresh h))
  else Fail Crash.

Definition mq_read (h : mheap) (a : positive) (pos : nat) : outcome vmsg :=
  c ← deref (mchunks h !! a); m ← deref (msgs c !! pos); deref m.

Definition mq_link (h : mheap) (a b : positive) : outcome mheap :=
  c ← deref (mchunks h !! a);
  Ret (MHeap (<[a := MqChunk (msgs c) (Some b)]> (mchunks h)) (mfresh h)).

(** ** Operations *)

Record nn_msgqueue := Msgqueue {
  out_chunk : positive; out_pos : nat;
  in_chunk : positive; in_pos : nat;
  mq_count : Z; mq_mem : Z; mq_maxmem : Z;
  mq_cache : option positive;
}.

Definition msgsz (m : vmsg) : Z := u64 (Z.of_nat (length (sphdr m)) + Z.of_nat (length (body m))).

Definition nn_msgqueue_init (h : mheap) (maxmem : Z) : mheap * nn_msgqueue :=
  let '(h, c) := mq_alloc h in (h, Msgqueue c 0 c 0 0 0 maxmem None).

Definition nn_msgqueue_empty (self : nn_msgqueue) : bool := mq_count self =? 0.

(** The next chunk for the writer: the cached one or a new one. *)
Definition take_chunk (h : mheap) (cache : option positive) : mheap * positive :=
  match cache with Some c => (h, c) | None => mq_alloc h end.

Definition nn_msgqueue_send (h : mheap) (self : nn_msgqueue) (msg : vmsg) : outcome (mheap * nn_msgqueue * Z) :=
  let sz := msgsz msg in
  if (0 <? mq_count self) && (mq_maxmem self <=? u64 (mq_mem self + sz)) then Ret (h, self, - EAGAIN)
  else
    let count := u64 (mq_count self + 1) in
    let mem := u64 (mq_mem self + sz) in
    h ← mq_write h (out_chunk self) (out_pos self) msg;
    if decide (S (out_pos self) = NN_MSGQUEUE_GRANULARITY) then
      let '(h, c) := take_chunk h (mq_cache self) in
      h ← mq_link h (out_chunk self) c;
      Ret (h, Msgqueue c 0 (in_chunk self) (in_pos self) count mem (mq_maxmem self) None, 0)
    else
      Ret (h, Msgqueue (out_chunk self) (S (out_pos self)) (in_chunk self) (in_pos self) count mem
                (mq_maxmem self) (mq_cache self), 0).

Definition nn_msgqueue_recv (h : mheap) (self : nn_msgqueue) :
    outcome (mheap * nn_msgqueue * Z * option vmsg) :=
  if mq_count self =? 0 then Ret (h, self, - EAGAIN, None)
  else
    msg ← mq_read h (in_chunk self) (in_pos self);
    let count := u64 (mq_count self - 1) in
    let mem := u64 (mq_mem self - msgsz msg) in
    if decide (S (in_pos self) = NN_MSGQUEUE_GRANULARITY) then
      let o := in_chunk self in
      c ← deref (mchunks h !! o);
      n ← deref (next c);
      '(h, cache) ← (match mq_cache self with
                     | None => Ret (h, Some o)
                     | Some _ => h ← mq_free h o; Ret (h, mq_cache self)
                     end);
      Ret (h, Msgqueue (out_chunk self) (out_pos self) n 0 count mem (mq_maxmem self) cache, 0, Some msg)
    else
      Ret (h, Msgqueue (out_chunk self) (out_pos self) (in_chunk self) (S (in_pos self)) count mem
                (mq_maxmem self) (mq_cache self), 0, Some msg).

(** One turn of the loop that empties the queue. *)
Definition term_body (s : mheap * nn_msgqueue) : outcome (mheap * nn_msgqueue * option unit) :=
  let '(h, self) := s in
  '(h, self, rc, _) ← nn_msgqueue_recv h self;
  if rc =? - EAGAIN then Ret (h, self, Some tt) else nn_assert (0 <=? rc);; Ret (h, self, None).

Definition nn_msgqueue_term (fuel : nat) (h : mheap) (self : nn_msgqueue) : outcome mheap :=
  '(h, self, _) ← while fuel term_body (h, self);
  nn_assert (bool_decide (in_chunk self = out_chunk self));;
  h ← mq_free h (in_chunk self);
  match mq_cache self with Some c => mq_free h c | None => Ret h end.

(** ** Representation *)

(** The messages [l] are in the slots of chunk [a] from [i] on. *)
Definition slots (h : mheap) (a : positive) (i : nat) (l : list vmsg) : Prop :=
  ∃ c pre post, mchunks h !! a = Some c ∧ msgs c = pre ++ (Some <$> l) ++ post ∧
    length pre = i ∧ length (msgs c) = NN_MSGQUEUE_GRANULARITY.

(** The messages [l] are in the chunks [cs], from slot [i] of the first to slot
    [j] of the last, [b]. *)
Fixpoint chain (h : mheap) (cs : list positive) (i : nat) (l : list vmsg) (b : positive) (j : nat) : Prop :=
  match cs with
  | [] => False
  | a :: cs =>
      match cs with
      | [] => a = b ∧ (i + length l)%nat = j ∧ slots h a i l
      | a' :: _ => ∃ l1 l2 c, l = l1 ++ l2 ∧ (i + length l1)%nat = NN_MSGQUEUE_GRANULARITY ∧
          slots h a i l1 ∧ mchunks h !! a = Some c ∧ next c = Some a' ∧ chain h cs 0 l2 b j
      end
  end.

Definition total (l : list vmsg) : Z := foldr (λ m n, msgsz m + n) 0 l.

Record mqrep (h : mheap) (q : nn_msgqueue) (l : list vmsg) (maxmem : Z) (cs : list positive) : Prop := {
  mr_chain : chain h cs (in_pos q) l (out_chunk q) (out_pos q);
  mr_head : head cs = Some (in_chunk q);
  mr_nodup : NoDup (cs ++ option_list (mq_cache q));
  mr_dom : dom (mchunks h) = list_to_set (cs ++ option_list (mq_cache q));
  mr_cache : ∀ a, mq_cache q = Some a → ∃ c, mchunks h !! a = Some c ∧ length (msgs c) = NN_MSGQUEUE_GRANULARITY;
  mr_fresh : ∀ a, a ∈ dom (mchunks h) → (a < mfresh h)%positive;
  mr_in : (in_pos q < NN_MSGQUEUE_GRANULARITY)%nat;
  mr_out : (out_pos q < NN_MSGQUEUE_GRANULARITY)%nat;
  mr_count : mq_count q = Z.of_nat (length l);
  mr_count_small : Z.of_nat (length l) < 2 ^ 64;
  mr_mem : mq_mem q = total l;
  mr_mem_small : total l < 2 ^ 64;
  mr_maxmem : mq_maxmem q = maxmem;
}.

Lemma msgsz_nonneg m : 0 ≤ msgsz m.
Proof. apply Z.mod_pos_bound. lia. Qed.

Lemma total_nonneg l : 0 ≤ total l.
Proof.
  induction l as [|m l IH]; [done|]. change (total (m :: l)) with (msgsz m + total l).
  pose proof (msgsz_nonneg m). lia.
Qed.

Lemma total_app l l' : total (l ++ l') = total l + total l'.
Proof.
  induction l as [|m l IH]; [done|]. change (total ((m :: l) ++ l')) with (msgsz m + total (l ++ l')).
  rewrite IH. change (total (m :: l)) with (msgsz m + total l). lia.
Qed.

(** Chunks that are not part of a chain do not matter. *)
Lemma slots_frame h h' a i l : mchunks h' !! a = mchunks h !! a → slots h a i l → slots h' a i l.
Proof. intros E (c & pre & post & Hc & ?). exists c, pre, post. by rewrite E. Qed.

Lemma chain_frame h h' cs i l b j :
  (∀ a, a ∈ cs → mchunks h' !! a = mchunks h !! a) → chain h cs i l b j → chain h' cs i l b j.
Proof.
  revert i l. induction cs as [|a cs IH]; intros i l Hh; [done|]. cbn [chain].
  destruct cs as [|a' cs].
  - intros (-> & ? & ?). split_and!; [done|done|]. eapply slots_frame; [|done]. apply Hh. set_solver.
  - intros (l1 & l2 & c & ? & ? & ? & Hc & ? & ?). exists l1, l2, c. split_and!; try done.
    + eapply slots_frame; [|done]. apply Hh. set_solver.
    + rewrite Hh by set_solver. done.
    + apply IH; [|done]. intros. apply Hh. set_solver.
Qed.

Lemma chain_last h cs i l b j : chain h cs i l b j → b ∈ cs.
Proof.
  revert i l. induction cs as [|a cs IH]; intros i l; [done|]. cbn [chain].
  destruct cs as [|a' cs]; [intros (-> & _); set_solver|].
  intros (l1 & l2 & c & _ & _ & _ & _ & _ & Hc). apply elem_of_cons. right. by eapply IH.
Qed.

(** The next slot of the last chunk is written. *)
Lemma chain_push h cs i l b j m :
  NoDup cs → chain h cs i l b j → (j < NN_MSGQUEUE_GRANULARITY)%nat →
  ∃ h', mq_write h b j m = Ret h' ∧ chain h' cs i (l ++ [m]) b (S j) ∧ mfresh h' = mfresh h ∧
    dom (mchunks h') = dom (mchunks h) ∧ ∀ a, a ≠ b → mchunks h' !! a = mchunks h !! a.
Proof.
  intros Hnd. revert i l. induction cs as [|a cs IH]; intros i l Hc Hj; [done|]. cbn [chain] in *.
  apply NoDup_cons in Hnd as [Ha Hnd]. destruct cs as [|a' cs].
  - destruct Hc as (-> & <- & c & pre & post & Hc & Hm & Hpre & Hlen). unfold mq_write. rewrite Hc. step.
    rewrite decide_True by lia. eexists. split; [reflexivity|]. cbn [mchunks mfresh].
    assert (b ∈ dom (mchunks h)) by by apply elem_of_dom_2 in Hc.
    split_and!; [done|rewrite length_app; cbn; lia| |done|rewrite dom_insert_L; set_solver|].
    + destruct post as [|s post].
      { rewrite Hm, !length_app, length_fmap in Hlen. cbn in Hlen. lia. }
      exists (MqChunk (<[(i + length l)%nat := Some m]> (msgs c)) (next c)), pre, post. cbn [mchunks msgs].
      rewrite lookup_insert_eq, length_insert. split_and!; try done. rewrite Hm, fmap_app.
      rewrite insert_app_r_alt by lia. rewrite insert_app_r_alt by (rewrite length_fmap; lia).
      rewrite length_fmap. replace (i + length l - length pre - length l)%nat with O by lia. cbn.
      by rewrite <- app_assoc.
    + intros a Hne. by rewrite lookup_insert_ne.
  - destruct Hc as (l1 & l2 & c & -> & Hi & Hs & Hca & Hn & Hch).
    destruct (IH Hnd _ _ Hch Hj) as (h' & E & Hch' & Hf & Hd & Hfr). exists h'.
    assert (a ≠ b) as Hab by (intros ->; by apply Ha; apply chain_last in Hch).
    split_and!; try done. exists l1, (l2 ++ [m]), c. rewrite <- app_assoc.
    split_and!; try done; [by eapply slots_frame; [apply Hfr|]|by rewrite Hfr].
Qed.

(** A full last chunk is linked to an empty one. *)
Lemma chain_extend h cs i l b c d :
  NoDup cs → chain h cs i l b NN_MSGQUEUE_GRANULARITY → d ∉ cs →
  mchunks h !! d = Some c → length (msgs c) = NN_MSGQUEUE_GRANULARITY →
  ∃ h', mq_link h b d = Ret h' ∧ chain h' (cs ++ [d]) i l d 0 ∧ mfresh h' = mfresh h ∧
    dom (mchunks h') = dom (mchunks h) ∧ ∀ a, a ≠ b → mchunks h' !! a = mchunks h !! a.
Proof.
  intros Hnd. revert i l. induction cs as [|a cs IH]; intros i l Hc Hd Hdc Hlen; [done|]. cbn [chain] in Hc.
  apply NoDup_cons in Hnd as [Ha Hnd]. destruct cs as [|a' cs].
  - destruct Hc as (-> & Hl & c0 & pre & post & Hc & Hm & Hpre & Hlen0). unfold mq_link. rewrite Hc. step.
    eexists. split; [reflexivity|]. cbn [mchunks mfresh app].
    assert (b ∈ dom (mchunks h)) by by apply elem_of_dom_2 in Hc.
    assert (d ≠ b) by set_solver.
    split_and!; [|done|rewrite dom_insert_L; set_solver|by intros; rewrite lookup_insert_ne].
    exists l, [], (MqChunk (msgs c0) (Some d)). rewrite app_nil_r. cbn [mchunks].
    rewrite lookup_insert_eq. split_and!; try done.
    + exists (MqChunk (msgs c0) (Some d)), pre, post. cbn [mchunks]. by rewrite lookup_insert_eq.
    + cbn [chain]. split; [done|]. split; [done|]. exists c, [], (msgs c). cbn [mchunks]. by rewrite lookup_insert_ne by done.
  - destruct Hc as (l1 & l2 & c0 & -> & Hi & Hs & Hca & Hn & Hch).
    destruct (IH Hnd _ _ Hch) as (h' & E & Hch' & Hf & Hdm & Hfr); [set_solver|done|done|]. exists h'.
    assert (a ≠ b) as Hab by (intros ->; by apply Ha; apply chain_last in Hch).
    split_and!; try done. exists l1, l2, c0.
    split_and!; try done; [by eapply slots_frame; [apply Hfr|]|by rewrite Hfr].
Qed.

(** The first message of a chain is read; [cs] may lose its head. *)
Lemma chain_pop h a cs i m l b j :
  chain h (a :: cs) i (m :: l) b j → (i < NN_MSGQUEUE_GRANULARITY)%nat → (j < NN_MSGQUEUE_GRANULARITY)%nat →
  mq_read h a i = Ret m ∧
  (if decide (S i = NN_MSGQUEUE_GRANULARITY)
   then ∃ c n cs', mchunks h !! a = Some c ∧ next c = Some n ∧ cs = n :: cs' ∧ chain h cs 0 l b j
   else chain h (a :: cs) (S i) l b j).
Proof.
  intros Hc Hi Hj.
  assert (∀ l', slots h a i (m :: l') → mq_read h a i = Ret m ∧ slots h a (S i) l') as Hread.
  { intros l' (c & pre & post & Hc' & Hm & Hpre & Hlen). unfold mq_read. rewrite Hc'. step. split.
    - rewrite Hm, lookup_app_r by lia. by rewrite Hpre, Nat.sub_diag.
    - exists c, (pre ++ [Some m]), post. rewrite length_app, <- app_assoc. cbn. split_and!; try done. lia. }
  cbn [chain] in Hc. destruct cs as [|a' cs].
  - destruct Hc as (-> & Hl & Hs). cbn [length] in Hl. destruct (Hread _ Hs) as [Hr Hs']. split; [done|].
    rewrite decide_False by lia. cbn [chain]. split_and!; [done|lia|done].
  - destruct Hc as (l1 & l2 & c & El & Hi' & Hs & Hca & Hn & Hch). destruct l1 as [|m1 l1].
    { cbn in Hi'. lia. }
    cbn in El. injection El as <- ->. cbn [length] in Hi'. destruct (Hread _ Hs) as [Hr Hs']. split; [done|].
    case_decide as Hfull.
    + assert (l1 = []) as -> by (apply nil_length_inv; lia). exists c, a', cs. by split_and!.
    + cbn [chain]. exists l1, l2, c. split_and!; try done. lia.
Qed.

Lemma mq_alloc_ok h :
  (∀ a, a ∈ dom (mchunks h) → (a < mfresh h)%positive) →
  ∃ h' d, mq_alloc h = (h', d) ∧ d ∉ dom (mchunks h) ∧ dom (mchunks h') = {[d]} ∪ dom (mchunks h) ∧
    (∃ c, mchunks h' !! d = Some c ∧ length (msgs c) = NN_MSGQUEUE_GRANULARITY) ∧
    (∀ a, a ∈ dom (mchunks h') → (a < mfresh h')%positive) ∧
    (∀ a, a ≠ d → mchunks h' !! a = mchunks h !! a).
Proof.
  intros Hf. eexists _, _. split; [reflexivity|]. cbn [mchunks mfresh].
  assert (mfresh h ∉ dom (mchunks h)) as Hnew by (intros Hin%Hf; lia).
  split_and!; [done|by rewrite dom_insert_L| | |].
  - eexists. rewrite lookup_insert_eq. split; [done|]. cbn [msgs]. by rewrite length_replicate.
  - intros a. rewrite dom_insert_L, elem_of_union, elem_of_singleton. intros [->|Ha%Hf]; lia.
  - intros a Ha. by rewrite lookup_insert_ne.
Qed.

(** The chunk the writer goes on with, when its chunk is full. *)
Lemma take_chunk_ok h (cs : list positive) cache :
  NoDup (cs ++ option_list cache) → dom (mchunks h) = list_to_set (cs ++ option_list cache) →
  (∀ a, cache = Some a → ∃ c, mchunks h !! a = Some c ∧ length (msgs c) = NN_MSGQUEUE_GRANULARITY) →
  (∀ a, a ∈ dom (mchunks h) → (a < mfresh h)%positive) →
  ∃ h' d c, take_chunk h cache = (h', d) ∧ d ∉ cs ∧ mchunks h' !! d = Some c ∧
    length (msgs c) = NN_MSGQUEUE_GRANULARITY ∧ dom (mchunks h') = list_to_set (cs ++ [d]) ∧
    (∀ a, a ∈ dom (mchunks h') → (a < mfresh h')%positive) ∧
    (∀ a, a ∈ cs → mchunks h' !! a = mchunks h !! a).
Proof.
  intros Hnd Hd Hc Hf. destruct cache as [a|]; cbn [take_chunk option_list] in *.
  - destruct (Hc a eq_refl) as (c & ? & ?). exists h, a, c. split_and!; try done.
    apply NoDup_app in Hnd as (_ & Hn & _). intros Ha. apply (Hn a Ha). set_solver.
  - rewrite app_nil_r in *. destruct (mq_alloc_ok h Hf) as (h' & d & -> & Hd' & Hdom & (c & ? & ?) & Hf' & Hfr).
    assert (d ∉ cs) as Hdn by (intros Hin; apply Hd'; rewrite Hd; set_solver).
    exists h', d, c. split_and!; try done.
    + rewrite Hdom, Hd, list_to_set_app_L. set_solver.
    + intros a Ha. apply Hfr. by intros ->.
Qed.

Lemma mqrep_init maxmem :
  ∃ h q cs, nn_msgqueue_init mheap_empty maxmem = (h, q) ∧ mqrep h q [] maxmem cs.
Proof.
  eexists _, _, [1%positive]. split; [reflexivity|].
  split; cbn [in_pos out_pos in_chunk out_chunk mq_count mq_mem mq_maxmem mq_cache mchunks mfresh];
    try done; unfold NN_MSGQUEUE_GRANULARITY.
  - cbn [chain]. split_and!; [done|done|]. eexists _, [], _. split_and!; try done.
  - constructor; [set_solver|constructor].
  - intros a. cbn. rewrite dom_insert_L, dom_empty_L. intros Ha. assert (a = 1%positive) as -> by set_solver. lia.
  - lia.
  - lia.
Qed.

Lemma mq_send_ok h q l maxmem cs m :
  mqrep h q l maxmem cs → Z.of_nat (length l) + 1 < 2 ^ 64 → total l + msgsz m < 2 ^ 64 →
  if (0 <? Z.of_nat (length l)) && (maxmem <=? total l + msgsz m)
  then nn_msgqueue_send h q m = Ret (h, q, - EAGAIN)
  else ∃ h' q' cs', nn_msgqueue_send h q m = Ret (h', q', 0) ∧ mqrep h' q' (l ++ [m]) maxmem cs'.
Proof.
  intros [Hch Hhd Hnd Hdom Hcache Hf Hin Hout Hcnt Hcs Hmem Hms Hmx] Hc Ht. unfold nn_msgqueue_send.
  pose proof (msgsz_nonneg m) as Hm0. pose proof (total_nonneg l) as Hl0.
  assert (u64 (mq_mem q + msgsz m) = total l + msgsz m) as -> by (rewrite Hmem; apply Z.mod_small; lia).
  assert (u64 (mq_count q + 1) = Z.of_nat (length (l ++ [m]))) as ->.
  { rewrite Hcnt, length_app. cbn [length]. unfold u64. rewrite Z.mod_small; lia. }
  rewrite Hcnt, Hmx. destruct (_ && _); [done|].
  assert (total (l ++ [m]) = total l + msgsz m) as Htot by (rewrite total_app; cbn -[msgsz]; lia).
  assert (Z.of_nat (length (l ++ [m])) < 2 ^ 64) as Hcs' by (rewrite length_app; cbn; lia).
  apply NoDup_app in Hnd as Hnd'. destruct Hnd' as (Hnd1 & Hdisj & _).
  destruct (chain_push _ _ _ _ _ _ m Hnd1 Hch Hout) as (h1 & -> & Hch1 & Hf1 & Hdom1 & Hfr1). step.
  pose proof (chain_last _ _ _ _ _ _ Hch) as Hlast.
  assert (∀ a, mq_cache q = Some a → ∃ c, mchunks h1 !! a = Some c ∧ length (msgs c) = NN_MSGQUEUE_GRANULARITY) as Hcache1.
  { intros a Ha. rewrite Hfr1; [by apply Hcache|]. intros ->. apply (Hdisj _ Hlast). rewrite Ha. set_solver. }
  rewrite <- Hdom1 in Hdom, Hf. rewrite <- Hf1 in Hf.
  case_decide as Hfull.
  - destruct (take_chunk_ok h1 cs (mq_cache q) Hnd Hdom Hcache1 Hf)
      as (h2 & d & c & -> & Hd & Hdc & Hdl & Hdom2 & Hf2 & Hfr2).
    destruct (chain_extend h2 cs (in_pos q) (l ++ [m]) (out_chunk q) c d)
      as (h3 & -> & Hch3 & Hf3 & Hdom3 & Hfr3); try done.
    { rewrite <- Hfull. by eapply chain_frame. }
    step. eexists h3, _, (cs ++ [d]). split; [reflexivity|].
    rewrite <- Hdom3 in Hdom2, Hf2. rewrite <- Hf3 in Hf2.
    split; cbn [in_pos out_pos in_chunk out_chunk mq_count mq_mem mq_maxmem mq_cache option_list];
      rewrite ?app_nil_r; try done; try lia.
    + by destruct cs.
    + apply NoDup_app. split_and!; [done| |apply NoDup_singleton]. intros x Hx ->%list_elem_of_singleton. done.
  - eexists h1, _, cs. split; [reflexivity|].
    split; cbn [in_pos out_pos in_chunk out_chunk mq_count mq_mem mq_maxmem mq_cache]; try done; lia.
Qed.

Lemma mq_recv_ok h q l maxmem cs :
  mqrep h q l maxmem cs →
  match l with
  | [] => nn_msgqueue_recv h q = Ret (h, q, - EAGAIN, None)
  | m :: l => ∃ h' q' cs', nn_msgqueue_recv h q = Ret (h', q', 0, Some m) ∧ mqrep h' q' l maxmem cs'
  end.
Proof.
  intros [Hch Hhd Hnd Hdom Hcache Hf Hin Hout Hcnt Hcs Hmem Hms Hmx]. unfold nn_msgqueue_recv. rewrite Hcnt.
  destruct l as [|m l]; [done|]. rewrite (proj2 (Z.eqb_neq _ 0)) by (cbn [length]; lia).
  destruct cs as [|a cs]; [done|]. injection Hhd as ->.
  change (total (m :: l)) with (msgsz m + total l) in *. cbn [length] in *.
  pose proof (msgsz_nonneg m) as Hm0. pose proof (total_nonneg l) as Hl0.
  destruct (chain_pop _ _ _ _ _ _ _ _ Hch Hin Hout) as [-> Hpop]. step.
  assert (u64 (mq_mem q - msgsz m) = total l) as -> by (rewrite Hmem; unfold u64; rewrite Z.mod_small; lia).
  assert (u64 (Z.of_nat (S (length l)) - 1) = Z.of_nat (length l)) as -> by (unfold u64; rewrite Z.mod_small; lia).
  case_decide as Hfull.
  - destruct Hpop as (c & n & cs' & Hc & Hn & -> & Hch'). rewrite Hc. step. rewrite Hn. step.
    pose proof Hnd as Hnd'. cbn [app] in Hnd'. apply NoDup_cons in Hnd' as [Ha Hnd'].
    assert (length (msgs c) = NN_MSGQUEUE_GRANULARITY) as Hlen.
    { cbn [chain] in Hch. destruct Hch as (? & ? & ? & _ & _ & (c' & ? & ? & Hc' & _ & _ & ?) & _). congruence. }
    destruct (mq_cache q) as [k|] eqn:Ek; step.
    + unfold mq_free. rewrite Hc. step. eexists _, _, (n :: cs'). split; [reflexivity|].
      destruct (Hcache k eq_refl) as (ck & Hk & Hkl).
      assert (k ≠ in_chunk q) as Hne by (intros ->; apply Ha; set_solver).
      split; cbn [in_pos out_pos in_chunk out_chunk mq_count mq_mem mq_maxmem mq_cache mchunks mfresh option_list] in *;
        try done; try lia.
      * eapply chain_frame; [|done]. intros b Hb. cbn [mchunks]. apply lookup_delete_ne. intros Hbk. apply Ha. rewrite Hbk. set_solver.
      * rewrite dom_delete_L, Hdom. cbn [app list_to_set]. apply not_elem_of_cons in Ha as [? ?].
        apply set_eq. intros b. rewrite elem_of_difference, elem_of_union, elem_of_singleton.
        rewrite !list_to_set_app_L in *. set_solver.
      * intros b [= <-]. exists ck. by rewrite lookup_delete_ne.
      * intros b. rewrite dom_delete_L. intros Hb. apply Hf. set_solver.
    + eexists h, _, (n :: cs'). split; [reflexivity|].
      split; cbn [in_pos out_pos in_chunk out_chunk mq_count mq_mem mq_maxmem mq_cache option_list] in *;
        try done; try lia.
      * rewrite app_nil_r in *. apply NoDup_app. split_and!; [done| |apply NoDup_singleton].
        intros x Hx ->%list_elem_of_singleton. done.
      * rewrite Hdom, !app_nil_r, list_to_set_app_L. cbn. set_solver.
      * intros b [= <-]. by exists c.
  - eexists h, _, (in_chunk q :: cs). split; [reflexivity|].
    split; cbn [in_pos out_pos in_chunk out_chunk mq_count mq_mem mq_maxmem mq_cache]; try done; lia.
Qed.

Lemma mq_term_ok fuel h q l maxmem cs :
  mqrep h q l maxmem cs → (length l < fuel)%nat →
  ∃ h', nn_msgqueue_term fuel h q = Ret h' ∧ mchunks h' = ∅.
Proof.
  intros Hr Hfuel. unfold nn_msgqueue_term.
  set (I (s : mheap * nn_msgqueue) n := ∃ l cs, mqrep s.1 s.2 l maxmem cs ∧ length l = n).
  assert (∀ fuel s n, I s n → (n < fuel)%nat → ∃ s', while fuel term_body s = Ret (s', tt) ∧ I s' O) as Hloop.
  { clear. induction fuel as [|fuel IH]; intros [h q] n (l & cs & Hr & <-) Hf; [lia|]. cbn [while].
    pose proof (mq_recv_ok _ _ _ _ _ Hr) as Hrecv. cbn [fst snd] in Hrecv. destruct l as [|m l].
    - assert (term_body (h, q) = Ret ((h, q), Some tt)) as -> by (unfold term_body; by rewrite Hrecv).
      step. exists (h, q). split; [done|]. by exists [], cs.
    - destruct Hrecv as (h' & q' & cs' & E & Hr').
      assert (term_body (h, q) = Ret ((h', q'), None)) as -> by (unfold term_body; by rewrite E).
      step. cbn [length] in Hf.
      apply (IH (h', q') (length l)); [|lia]. by exists l, cs'. }
  destruct (Hloop fuel (h, q) (length l)) as ([h' q'] & -> & l' & cs' & Hr' & Hl'); [by exists l, cs|done|].
  step. apply nil_length_inv in Hl' as ->. cbn [fst snd] in Hr'.
  destruct Hr' as [Hch Hhd Hnd Hdom Hcache Hf Hin _ _ _ _ _ _].
  destruct cs' as [|a [|a' cs']]; [done| |].
  2: { cbn [chain] in Hch. destruct Hch as (l1 & l2 & c & E & Hi & _).
       symmetry in E. apply app_nil in E as [-> _]. cbn in Hi. lia. }
  cbn [chain] in Hch. destruct Hch as (E & _ & c & _ & _ & Hc & _). injection Hhd as Ea. rewrite Ea in *. clear Ea a.
  rewrite bool_decide_eq_true_2 by done. step.
  assert (mq_free h' (in_chunk q') = Ret (MHeap (delete (in_chunk q') (mchunks h')) (mfresh h'))) as ->.
  { unfold mq_free. by rewrite Hc. }
  step.
  destruct (mq_cache q') as [k|]; cbn [option_list app list_to_set] in *.
  - destruct (Hcache k eq_refl) as (ck & Hk & _).
    assert (k ≠ in_chunk q') as Hne by (apply NoDup_cons in Hnd as [? _]; set_solver).
    unfold mq_free. cbn [mchunks]. rewrite lookup_delete_ne, Hk by done. step. eexists. split; [reflexivity|].
    cbn [mchunks]. apply dom_empty_inv_L. rewrite !dom_delete_L, Hdom. set_solver.
  - eexists. split; [reflexivity|]. cbn [mchunks]. apply dom_empty_inv_L. rewrite dom_delete_L, Hdom. set_solver.
Qed.

(** ** Refinement *)

Inductive mq_op : Type := MQ_send (m : vmsg) | MQ_recv | MQ_empty.

(** Results: a return code or truth value, and a message. *)
Definition mq_exec (s : mheap * nn_msgqueue) (o : mq_op) :
    outcome ((mheap * nn_msgqueue) * (Z * option vmsg)) :=
  match o with
  | MQ_send m => '(h, q, rc) ← nn_msgqueue_send s.1 s.2 m; Ret ((h, q), (rc, None))
  | MQ_recv => '(h, q, rc, m) ← nn_msgqueue_recv s.1 s.2; Ret ((h, q), (rc, m))
  | MQ_empty => Ret (s, (if nn_msgqueue_empty s.2 then 1 else 0, None))
  end.

(** A list with a limit on its memory that one message may exceed.  The queue
    must not hold 2^64 bytes or messages. *)
Definition mq_spec (maxmem : Z) (l : list vmsg) (o : mq_op) : option (list vmsg * (Z * option vmsg)) :=
  match o with
  | MQ_send m =>
      if negb ((Z.of_nat (length l) + 1 <? 2 ^ 64) && (total l + msgsz m <? 2 ^ 64)) then None
      else if (0 <? Z.of_nat (length l)) && (maxmem <=? total l + msgsz m) then Some (l, (- EAGAIN, None))
      else Some (l ++ [m], (0, None))
  | MQ_recv => match l with [] => Some (l, (- EAGAIN, None)) | m :: l => Some (l, (0, Some m)) end
  | MQ_empty => Some (l, (if bool_decide (l = []) then 1 else 0, None))
  end.

Lemma mq_exec_ok maxmem s l o l' r :
  (∃ cs, mqrep s.1 s.2 l maxmem cs) → mq_spec maxmem l o = Some (l', r) →
  ∃ s', mq_exec s o = Ret (s', r) ∧ ∃ cs, mqrep s'.1 s'.2 l' maxmem cs.
Proof.
  destruct s as [h q]. cbn [fst snd]. intros (cs & Hr). destruct o as [m| |]; cbn -[msgsz].
  - destruct (_ && _) eqn:Hsmall; cbn [negb]; [|done].
    apply andb_prop in Hsmall as [Hc%Z.ltb_lt Ht%Z.ltb_lt].
    pose proof (mq_send_ok _ _ _ _ _ m Hr Hc Ht) as Hs. destruct (_ && _); intros [= <- <-].
    + rewrite Hs. step. exists (h, q). eauto.
    + destruct Hs as (h' & q' & cs' & -> & ?). step. exists (h', q'). eauto.
  - pose proof (mq_recv_ok _ _ _ _ _ Hr) as Hs. destruct l as [|m l]; intros [= <- <-].
    + rewrite Hs. step. exists (h, q). eauto.
    + destruct Hs as (h' & q' & cs' & -> & ?). step. exists (h', q'). eauto.
  - intros [= <- <-]. exists (h, q). split; [|eauto]. unfold nn_msgqueue_empty.
    rewrite (mr_count _ _ _ _ _ Hr). by destruct l.
Qed.

(** The chunked queue of msgqueue.c is a FIFO queue with a limit on its memory.
    Any sequence of sends and receives returns what a list would: a message is
    refused with -EAGAIN exactly when the queue is not empty and would reach
    [maxmem] bytes, and received in the order of sending.  Terminating the queue
    then frees every chunk it ever allocated, the cached one included. *)
Theorem msgqueue_refinement maxmem os l rs :
  spec_run (mq_spec maxmem) [] os = Some (l, rs) →
  ∃ h q, run mq_exec (nn_msgqueue_init mheap_empty maxmem) os = Ret ((h, q), rs) ∧
    (∃ cs, mqrep h q l maxmem cs) ∧
    ∀ fuel, (length l < fuel)%nat → ∃ h', nn_msgqueue_term fuel h q = Ret h' ∧ mchunks h' = ∅.
Proof.
  intros Hs. destruct (mqrep_init maxmem) as (h0 & q0 & cs0 & -> & Hr0).
  destruct (run_refines (λ s l, ∃ cs, mqrep s.1 s.2 l maxmem cs) mq_exec (mq_spec maxmem) (mq_exec_ok maxmem)
    os (h0, q0) [] l rs) as ([h q] & E & cs & Hr); [by exists cs0|done|].
  exists h, q. split; [done|]. split; [by exists cs|]. intros fuel Hf. by eapply mq_term_ok.
Qed.

(** 130 messages, which takes two chunks, then everything is received. *)
Lemma msgqueue_refinement_witness :
  ∃ h q, ret_check (λ r, bool_decide (r.2 !! 130%nat = Some (- EAGAIN, None) ∧ r.2 !! 260%nat = Some (0, Some (VMsg [] [] [129]))))
      (run mq_exec (nn_msgqueue_init mheap_empty 131)
         (((λ i, MQ_send (VMsg [] [] [Z.of_nat i])) <$> seq 0 131) ++ replicate 130 MQ_recv)) = true ∧
    ∃ h', nn_msgqueue_term 1 h q = Ret h' ∧ mchunks h' = ∅.
Proof.
  set (os := ((λ i, MQ_send (VMsg [] [] [Z.of_nat i])) <$> seq 0 131) ++ replicate 130 MQ_recv).
  destruct (spec_run (mq_spec 131) [] os) as [[l rs]|] eqn:E; [|vm_compute in E; discriminate].
  destruct (msgqueue_refinement 131 os l rs E) as (h & q & Er & _ & Ht).
  exists h, q. split; [vm_compute; reflexivity|]. apply Ht.
  assert (l = []) as -> by (vm_compute in E; injection E as <- _; reflexivity). cbn. lia.
Defined.
