(* ===== verification/Timerset.v ===== *)
(** * aio/timerset.c: the timers of a worker thread

    A list of handles in the order in which they expire.  The time is an argument
    of every operation that reads the clock ([nn_clock_ms], milliseconds). *)
From S2P Require Import Prelude NnList.
From Stdlib Require Import Sorted.

Record nn_timerset (T : Type) := Timerset {
  ts_store : T;                (* the list [timeouts] is (0, 0) *)
  ts_due : gmap addr Z;        (* the field [timeout] of each handle *)
}.
Arguments Timerset {T}.
Arguments ts_store {T}.
Arguments ts_due {T}.

Definition tl : lid := (0, 0).

Section code.
Context `{ListStore T}.

Definition nn_timerset_init (s : T) : nn_timerset T := Timerset (l_init s tl) ∅.
Definition nn_timerset_term (self : nn_timerset T) : outcome unit := l_term (ts_store self) tl.

Definition due_of (self : nn_timerset T) (x : addr) : outcome Z := deref (ts_due self !! x).

(** The result says whether the new timeout is the first one to expire. *)
Definition nn_timerset_add (self : nn_timerset T) (now timeout : Z) (hndl : addr) :
    outcome (nn_timerset T * bool) :=
  let due := u64 (now + timeout) in
  let self := Timerset (ts_store self) (<[hndl := due]> (ts_due self)) in
  it ← l_begin (ts_store self) tl;
  it ← l_find (l_fuel (ts_store self)) (ts_store self) tl it
         (λ x, d ← due_of self x; Ret (due <? d));
  b ← l_begin (ts_store self) tl;
  s ← l_insert (ts_store self) tl hndl it;
  Ret (Timerset s (ts_due self), bool_decide (b = it)).

Definition nn_timerset_rm (self : nn_timerset T) (hndl : addr) : outcome (nn_timerset T * bool) :=
  i ← l_isinlist (ts_store self) hndl;
  if negb i then Ret (self, false)
  else
    b ← l_begin (ts_store self) tl;
    '(s, _) ← l_erase (ts_store self) tl hndl;
    Ret (Timerset s (ts_due self), bool_decide (b = Some hndl)).

(** The time to wait, -1 for ever.  The difference is cast to an int. *)
Definition nn_timerset_timeout (self : nn_timerset T) (now : Z) : outcome Z :=
  e ← l_empty (ts_store self) tl;
  if e : bool then Ret (-1)
  else
    b ← l_begin (ts_store self) tl; x ← deref b; d ← due_of self x;
    let timeout := s32 (u64 (d - now)) in
    Ret (if timeout <? 0 then 0 else timeout).

Definition nn_timerset_event (self : nn_timerset T) (now : Z) : outcome (nn_timerset T * Z * option addr) :=
  e ← l_empty (ts_store self) tl;
  if e : bool then Ret (self, - EAGAIN, None)
  else
    b ← l_begin (ts_store self) tl; first ← deref b; d ← due_of self first;
    if now <? d then Ret (self, - EAGAIN, None)
    else
      '(s, _) ← l_erase (ts_store self) tl first;
      Ret (Timerset s (ts_due self), 0, Some first).

Definition nn_timerset_hndl_init (self : nn_timerset T) (x : addr) : nn_timerset T :=
  Timerset (l_item_init (ts_store self) x) (ts_due self).
Definition nn_timerset_hndl_term (self : nn_timerset T) (x : addr) : outcome unit :=
  l_item_term (ts_store self) x.
Definition nn_timerset_hndl_isactive (self : nn_timerset T) (x : addr) : outcome bool :=
  l_isinlist (ts_store self) x.

End code.

(** ** Specification

    Handles with the times they are due, in the order of expiry, and the handles
    that are not in the set. *)
Record tspec := TSpec { tlist : list (addr * Z); tidle : gset addr }.

Definition thandles (t : tspec) : list addr := (tlist t).*1.
Definition earlier (p q : addr * Z) : Prop := p.2 ≤ q.2.

(** Insertion behind everything due at the same time or before. *)
Definition tins (l : list (addr * Z)) (x : addr) (d : Z) : list (addr * Z) :=
  filter (λ p, p.2 ≤ d) l ++ (x, d) :: filter (λ p, d < p.2) l.

Definition tdel (l : list (addr * Z)) (x : addr) : list (addr * Z) := filter (λ p, p.1 ≠ x) l.

Inductive ts_op : Type :=
| TS_hndl_init (x : addr) | TS_hndl_term (x : addr) | TS_isactive (x : addr)
| TS_add (now timeout : Z) (x : addr) | TS_rm (x : addr) | TS_timeout (now : Z) | TS_event (now : Z).

Definition ts_exec `{ListStore T} (s : nn_timerset T) (o : ts_op) : outcome (nn_timerset T * (Z * option addr)) :=
  let b2z (b : bool) : Z := if b then 1 else 0 in
  match o with
  | TS_hndl_init x => Ret (nn_timerset_hndl_init s x, (0, None))
  | TS_hndl_term x => nn_timerset_hndl_term s x;; Ret (s, (0, None))
  | TS_isactive x => b ← nn_timerset_hndl_isactive s x; Ret (s, (b2z b, None))
  | TS_add now timeout x => '(s, b) ← nn_timerset_add s now timeout x; Ret (s, (b2z b, None))
  | TS_rm x => '(s, b) ← nn_timerset_rm s x; Ret (s, (b2z b, None))
  | TS_timeout now => t ← nn_timerset_timeout s now; Ret (s, (t, None))
  | TS_event now => '(s, rc, x) ← nn_timerset_event s now; Ret (s, (rc, x))
  end.

(** Timeouts are non-negative ints and the clock stays below 2^63; the time to
    wait is only defined while no timer is more than 2^31 ms late or early. *)
Definition ts_spec (t : tspec) (o : ts_op) : option (tspec * (Z * option addr)) :=
  let b2z (b : bool) : Z := if b then 1 else 0 in
  match o with
  | TS_hndl_init x => if decide (x ∈ thandles t) then None else Some (TSpec (tlist t) ({[x]} ∪ tidle t), (0, None))
  | TS_hndl_term x => if decide (x ∈ tidle t) then Some (t, (0, None)) else None
  | TS_isactive x =>
      if decide (x ∈ thandles t) then Some (t, (1, None))
      else if decide (x ∈ tidle t) then Some (t, (0, None)) else None
  | TS_add now timeout x =>
      if decide (x ∈ tidle t ∧ 0 ≤ now < 2 ^ 63 ∧ 0 ≤ timeout < 2 ^ 31) then
        Some (TSpec (tins (tlist t) x (now + timeout)) (tidle t ∖ {[x]}),
          (b2z (bool_decide (Forall (λ p, now + timeout < p.2) (tlist t))), None))
      else None
  | TS_rm x =>
      if decide (x ∈ thandles t) then
        Some (TSpec (tdel (tlist t) x) ({[x]} ∪ tidle t), (b2z (bool_decide (head (thandles t) = Some x)), None))
      else if decide (x ∈ tidle t) then Some (t, (0, None)) else None
  | TS_timeout now =>
      match tlist t with
      | [] => Some (t, (-1, None))
      | (_, d) :: _ => if decide (- 2 ^ 31 ≤ d - now < 2 ^ 31) then Some (t, (Z.max 0 (d - now), None)) else None
      end
  | TS_event now =>
      match tlist t with
      | (x, d) :: l => if decide (d ≤ now) then Some (TSpec l ({[x]} ∪ tidle t), (0, Some x))
                       else Some (t, (- EAGAIN, None))
      | [] => Some (t, (- EAGAIN, None))
      end
  end.

(** ** Sorted lists *)

Definition tsorted (l : list (addr * Z)) : Prop := StronglySorted earlier l.

Lemma filter_late l d e :
  Forall (λ p : addr * Z, e ≤ p.2) l → d < e →
  filter (λ p, p.2 ≤ d) l = [] ∧ filter (λ p, d < p.2) l = l.
Proof.
  intros Hl Hd. induction Hl as [|p l Hp Hl [IH1 IH2]]; [done|]. rewrite !filter_cons.
  rewrite decide_False, decide_True by lia. by rewrite IH1, IH2.
Qed.

Lemma tsorted_split l d : tsorted l → filter (λ p, p.2 ≤ d) l ++ filter (λ p, d < p.2) l = l.
Proof.
  induction 1 as [|p l Hs IH Hall]; [done|]. rewrite !filter_cons.
  destruct (decide (p.2 ≤ d)) as [He|He].
  - rewrite (decide_False (P := d < p.2)) by lia. cbn. by rewrite IH.
  - rewrite (decide_True (P := d < p.2)) by lia. destruct (filter_late l d p.2 Hall) as [-> ->]; [lia|done].
Qed.

Lemma tsorted_filter (P : addr * Z → Prop) `{!∀ p, Decision (P p)} l : tsorted l → tsorted (filter P l).
Proof.
  induction 1 as [|p l Hs IH Hall]; [constructor|]. rewrite filter_cons. case_decide; [|done].
  constructor; [done|]. rewrite Forall_forall in *. intros q [_ Hq]%list_elem_of_filter. by apply Hall.
Qed.

Lemma tsorted_app l l' :
  tsorted l → tsorted l' → (∀ p q, p ∈ l → q ∈ l' → earlier p q) → tsorted (l ++ l').
Proof.
  intros Hl Hl'. induction Hl as [|p l Hs IH Hall]; intros Hlt; [done|]. cbn. constructor.
  - apply IH. intros. apply Hlt; [set_solver|done].
  - apply Forall_app. split; [done|]. apply Forall_forall. intros q Hq. apply Hlt; [set_solver|done].
Qed.

Lemma tins_sorted l x d : tsorted l → tsorted (tins l x d).
Proof.
  intros Hl. unfold tins. apply tsorted_app; [by apply tsorted_filter| |].
  - constructor; [by apply tsorted_filter|]. apply Forall_forall. unfold earlier.
    intros q [Hq _]%list_elem_of_filter. cbn. lia.
  - unfold earlier. intros p q [Hp _]%list_elem_of_filter [->|[Hq _]%list_elem_of_filter]%elem_of_cons; cbn; lia.
Qed.

(** ** Refinement *)

Section refinement.
Context `{ListStoreOk T}.

Record trep_set (self : nn_timerset T) (t : tspec) : Prop := {
  ts_list : ∃ σ, l_rep (ts_store self) σ ∧ lseq σ = {[tl := thandles t]} ∧ lfree σ = tidle t;
  ts_dues : ∀ x d, (x, d) ∈ tlist t → ts_due self !! x = Some d;
  ts_sorted : tsorted (tlist t);
  ts_bounds : ∀ x d, (x, d) ∈ tlist t → 0 ≤ d < 2 ^ 64;
}.

Lemma seq_at (σ : lspec) (xs : list addr) : lseq σ = {[tl := xs]} → lseq σ !! tl = Some xs.
Proof. intros ->. apply lookup_singleton_eq. Qed.

Lemma filter_handles (due : gmap addr Z) l d :
  (∀ y e, (y, e) ∈ l → due !! y = Some e) →
  filter (λ y, (d <? default 0 (due !! y)) = true) (l.*1) = (filter (λ p, d < p.2) l).*1.
Proof.
  induction l as [|[y e] l IH]; intros Hd; [done|]. cbn [fmap list_fmap fst]. rewrite !filter_cons.
  rewrite (Hd y e) by set_solver. cbn [default from_option id snd].
  rewrite IH by (intros; apply Hd; set_solver).
  destruct (decide (d < e)) as [He|He].
  - by rewrite decide_True by by apply Z.ltb_lt.
  - rewrite decide_False; [done|]. intros Hlt%Z.ltb_lt. lia.
Qed.

(** An item of the list is removed. *)
Lemma ts_erase_ok self t pre x d post :
  trep_set self t → tlist t = pre ++ (x, d) :: post →
  ∃ s', l_erase (ts_store self) tl x = Ret (s', head (post.*1)) ∧
    trep_set (Timerset s' (ts_due self)) (TSpec (pre ++ post) ({[x]} ∪ tidle t)) ∧
    x ∉ pre.*1 ∧ x ∉ post.*1.
Proof.
  intros [(σ & Hr & Hl & Hf) Hd Hs Hb] Hsplit. unfold thandles in Hl.
  rewrite Hsplit, fmap_app, fmap_cons in Hl. cbn [fst] in Hl. pose proof (seq_at _ _ Hl) as Hl'.
  destruct (l_erase_ok _ _ _ _ _ _ Hr Hl') as (s' & E & Hr').
  destruct (l_rep_nodup_split _ _ _ _ _ _ Hr Hl') as (? & ? & _).
  exists s'. split; [done|]. split; [|done]. split; cbn [tlist tidle ts_store ts_due].
  - eexists. split; [exact Hr'|]. unfold lspec_del, thandles. cbn [lseq lfree tlist].
    by rewrite Hl, Hf, fmap_app, insert_singleton_eq.
  - intros y e Hy. apply Hd. rewrite Hsplit. set_solver.
  - rewrite Hsplit in Hs. clear - Hs. unfold tsorted in *. induction pre as [|p pre IH]; cbn in *.
    + by apply StronglySorted_inv in Hs as [? _].
    + apply StronglySorted_inv in Hs as [Hs Hall]. constructor; [by apply IH|].
      apply Forall_app in Hall as [? [? ?]%Forall_cons]. by apply Forall_app.
  - intros y e Hy. apply (Hb y). rewrite Hsplit. set_solver.
Qed.

Lemma tdel_split pre (x : addr) (d : Z) post :
  x ∉ pre.*1 → x ∉ post.*1 → tdel (pre ++ (x, d) :: post) x = pre ++ post.
Proof.
  assert (∀ l : list (addr * Z), x ∉ l.*1 → filter (λ p, p.1 ≠ x) l = l) as Hno.
  { induction l as [|[y e] l IH]; [done|]. cbn [fmap list_fmap fst]. intros [??]%not_elem_of_cons.
    by rewrite filter_cons_True, IH by done. }
  intros. unfold tdel. rewrite filter_app, filter_cons_False by naive_solver. by rewrite !Hno.
Qed.

Lemma ts_add_ok self t now timeout x :
  trep_set self t → x ∈ tidle t → 0 ≤ now < 2 ^ 63 → 0 ≤ timeout < 2 ^ 31 →
  ∃ self', nn_timerset_add self now timeout x =
      Ret (self', bool_decide (Forall (λ p, now + timeout < p.2) (tlist t))) ∧
    trep_set self' (TSpec (tins (tlist t) x (now + timeout)) (tidle t ∖ {[x]})).
Proof.
  intros [(σ & Hr & Hl & Hf) Hd Hs Hb] Hx Hnow Htm. unfold nn_timerset_add.
  assert (u64 (now + timeout) = now + timeout) as -> by (apply Z.mod_small; lia).
  set (d := now + timeout). pose proof (seq_at _ _ Hl) as Hl'. rewrite <- Hf in Hx.
  pose proof (l_rep_free _ _ _ _ _ Hr Hl' Hx) as Hnot.
  set (due := <[x := d]> (ts_due self)).
  assert (∀ y e, (y, e) ∈ tlist t → due !! y = Some e) as Hd'.
  { intros y e Hy. unfold due. rewrite lookup_insert_ne; [by apply Hd|]. intros ->. apply Hnot.
    unfold thandles. apply list_elem_of_fmap. by exists (y, e). }
  cbn [ts_store ts_due].
  pose proof (l_find_begin_ok _ _ _ (λ y, e ← due_of (Timerset (ts_store self) due) y; Ret (d <? e))
    (λ y, d <? default 0 (due !! y)) _ Hr Hl') as Hfind.
  rewrite (l_begin_ok _ _ _ _ Hr Hl') in *. cbn [mbind outcome_bind] in Hfind. step. rewrite Hfind.
  2: { intros y ([y' e] & -> & Hy)%list_elem_of_fmap. unfold due_of. cbn [ts_due fst]. by rewrite (Hd' _ _ Hy). }
  step. set (post := filter (λ p, d < p.2) (tlist t)). set (pre := filter (λ p, p.2 ≤ d) (tlist t)).
  assert (pre ++ post = tlist t) as Hsplit by by apply tsorted_split.
  unfold thandles. rewrite (filter_handles _ _ _ Hd'). fold post.
  destruct (l_insert_ok _ _ tl (pre.*1) (post.*1) x Hr) as (s' & -> & Hr'); [|done|].
  { by rewrite <- fmap_app, Hsplit. }
  step. eexists. split.
  - do 2 f_equal. rewrite <- Hsplit. apply bool_decide_ext. destruct pre as [|[y e] pre'] eqn:Epre.
    + cbn [app]. split; [|done]. intros _. apply Forall_forall.
      intros p Hp. by apply list_elem_of_filter in Hp as [? _].
    + assert ((y, e) ∈ pre) as Hy by (rewrite Epre; set_solver).
      apply list_elem_of_filter in Hy as [Hye Hy]. cbn [snd] in Hye. cbn [app fmap list_fmap fst head].
      split.
      * intros Heq. exfalso. destruct post as [|[z e2] post'] eqn:Epost; [done|]. cbn in Heq. injection Heq as ->.
        assert ((z, e2) ∈ post) as Hz by (rewrite Epost; set_solver).
        apply list_elem_of_filter in Hz as [Hz1 Hz]. cbn in Hz1.
        pose proof (Hd _ _ Hy) as E1. pose proof (Hd _ _ Hz) as E2. rewrite E1 in E2. injection E2 as ->. lia.
      * intros [Hlt _]%Forall_cons. cbn in Hlt. lia.
  - split; cbn [ts_store ts_due tlist tidle].
    + eexists. split; [exact Hr'|]. unfold lspec_ins, thandles, tins. cbn [lseq lfree tlist].
      by rewrite Hl, Hf, fmap_app, insert_singleton_eq.
    + unfold tins. fold pre post. intros y e [Hy|[[= -> ->]|Hy]%elem_of_cons]%elem_of_app.
      * apply Hd'. rewrite <- Hsplit. set_solver.
      * unfold due. by rewrite lookup_insert_eq.
      * apply Hd'. rewrite <- Hsplit. set_solver.
    + by apply tins_sorted.
    + unfold tins. fold pre post. intros y e [Hy|[[= -> ->]|Hy]%elem_of_cons]%elem_of_app.
      * apply (Hb y). rewrite <- Hsplit. set_solver.
      * unfold d. lia.
      * apply (Hb y). rewrite <- Hsplit. set_solver.
Qed.

Lemma ts_event_ok s t now :
  trep_set s t →
  match tlist t with
  | [] => nn_timerset_event s now = Ret (s, - EAGAIN, None)
  | (x, d) :: l =>
      if decide (d ≤ now)
      then ∃ s', nn_timerset_event s now = Ret (s', 0, Some x) ∧ trep_set s' (TSpec l ({[x]} ∪ tidle t))
      else nn_timerset_event s now = Ret (s, - EAGAIN, None)
  end.
Proof.
  intros Hrep. pose proof Hrep as [(σ & Hr & Hl & Hf) Hd Hs Hb]. pose proof (seq_at _ _ Hl) as Hl'.
  unfold nn_timerset_event. rewrite (l_empty_ok _ _ _ _ Hr Hl'), (l_begin_ok _ _ _ _ Hr Hl'). unfold thandles.
  destruct (tlist t) as [|[x d] l] eqn:El; [done|]. cbn.
  unfold due_of. rewrite (Hd x d) by set_solver. step. case_decide as Hdue.
  - rewrite (proj2 (Z.ltb_ge now d)) by done.
    destruct (ts_erase_ok _ _ [] x d l Hrep El) as (s' & -> & ? & _). step. by eexists.
  - by rewrite (proj2 (Z.ltb_lt now d)) by lia.
Qed.

Lemma ts_exec_ok s t o t' r :
  trep_set s t → ts_spec t o = Some (t', r) → ∃ s', ts_exec s o = Ret (s', r) ∧ trep_set s' t'.
Proof.
  intros Hrep. pose proof Hrep as [(σ & Hr & Hl & Hf) Hd Hs Hb]. pose proof (seq_at _ _ Hl) as Hl'.
  destruct o as [x|x|x|now timeout x|x|now|now]; cbn -[Z.pow].
  - case_decide as Hx; [done|]. intros [= <- <-]. eexists. split; [reflexivity|].
    split; cbn [ts_store ts_due tlist tidle]; [|done..]. eexists (lspec_new σ x).
    split; [|by cbn; rewrite Hf]. apply l_item_init_ok; [done|]. rewrite Hl.
    intros l xs [<- <-]%lookup_singleton_Some. done.
  - case_decide as Hx; [|done]. intros [= <- <-]. unfold nn_timerset_hndl_term.
    rewrite (l_item_term_ok _ _ _ Hr) by by rewrite Hf. by exists s.
  - unfold nn_timerset_hndl_isactive. case_decide as Hx; [|case_decide as Hx'; [|done]]; intros [= <- <-].
    + rewrite (l_isinlist_in _ _ _ _ _ Hr Hl' Hx). by exists s.
    + rewrite (l_isinlist_free _ _ _ Hr) by by rewrite Hf. by exists s.
  - case_decide as Hx; [|done]. destruct Hx as (Hx & Hn & Ht). intros [= <- <-].
    destruct (ts_add_ok _ _ _ _ _ Hrep Hx Hn Ht) as (s' & -> & ?). step. by exists s'.
  - unfold nn_timerset_rm. case_decide as Hx; [|case_decide as Hx'; [|done]]; intros [= <- <-].
    + rewrite (l_isinlist_in _ _ _ _ _ Hr Hl' Hx). step. cbn [negb].
      rewrite (l_begin_ok _ _ _ _ Hr Hl'). step.
      apply list_elem_of_fmap in Hx as ([x' d] & Ex & Hx). cbn in Ex. subst x'. apply list_elem_of_split in Hx as (pre & post & Hsplit).
      destruct (ts_erase_ok _ _ _ _ _ _ Hrep Hsplit) as (s' & -> & ? & ? & ?). step. eexists. split; [reflexivity|].
      cbn [fst]. by rewrite Hsplit, tdel_split.
    + rewrite (l_isinlist_free _ _ _ Hr) by by rewrite Hf. by exists s.
  - unfold nn_timerset_timeout. rewrite (l_empty_ok _ _ _ _ Hr Hl'). unfold thandles.
    destruct (tlist t) as [|[x d] l] eqn:El; [intros [= <- <-]; by exists s|]. cbn -[Z.pow].
    case_decide as Hrange; [|done]. intros [= <- <-]. rewrite (l_begin_ok _ _ _ _ Hr Hl').
    unfold thandles. rewrite El. cbn -[Z.pow u64 s32]. unfold due_of. rewrite (Hd x d) by set_solver. step.
    assert (s32 (u64 (d - now)) = d - now) as ->.
    { unfold s32, u64. rewrite Zplus_mod_idemp_l_small || idtac.
      replace ((d - now) mod 2 ^ 64 + 2 ^ 31) with ((d - now) + 2 ^ 31 + (- ((d - now) / 2 ^ 64) * 2 ^ 32) * 2 ^ 32)
        by (rewrite (Z.mod_eq (d - now)) by lia; lia).
      rewrite Z.mod_add, Z.mod_small by lia. lia. }
    exists s. split; [|done]. do 3 f_equal. destruct (d - now <? 0) eqn:Hneg; lia.
  - pose proof (ts_event_ok s t now Hrep) as Hev. destruct (tlist t) as [|[x d] l].
    + intros [= <- <-]. rewrite Hev. by exists s.
    + destruct (decide (d ≤ now)); intros [= <- <-].
      * destruct Hev as (s' & -> & ?). step. by exists s'.
      * rewrite Hev. by exists s.
Qed.

(** The timer set delivers timeouts in the order in which they are due.  Any
    sequence of calls on an initialised set returns what a list sorted by due time
    would: adding says whether the new timeout is the first to expire, timeouts due
    at the same time keep their order, the time to wait is that of the first
    timeout, and an event is reported exactly when the first one is due, which no
    other one in the set is before. *)
Theorem timerset_refinement s σ os t rs :
  l_rep s σ → lseq σ = ∅ → lfree σ = ∅ → spec_run ts_spec (TSpec [] ∅) os = Some (t, rs) →
  ∃ self, run ts_exec (nn_timerset_init s) os = Ret (self, rs) ∧
    nn_timerset_term self = nn_assert (bool_decide (tlist t = [])) ∧
    ∀ now, ∃ self' rc x, nn_timerset_event self now = Ret (self', rc, x) ∧
      match x with
      | Some x => rc = 0 ∧ ∃ d, (x, d) ∈ tlist t ∧ d ≤ now ∧ ∀ y e, (y, e) ∈ tlist t → d ≤ e
      | None => rc = - EAGAIN ∧ self' = self ∧ ∀ y e, (y, e) ∈ tlist t → now < e
      end.
Proof.
  intros Hr He Hf Hs.
  assert (trep_set (nn_timerset_init s) (TSpec [] ∅)) as Hi.
  { split; cbn; [|set_solver|constructor|set_solver]. exists (lspec_set σ tl []).
    split_and!; [|by cbn; rewrite He|done]. apply l_init_ok; [done|]. by rewrite He. }
  destruct (run_refines trep_set _ _ ts_exec_ok os _ _ t rs Hi Hs) as (self & E & Hrep).
  exists self. split; [done|]. split.
  { destruct Hrep as [(σ' & Hr' & Hl' & _) _ _ _]. unfold nn_timerset_term.
    rewrite (l_term_ok _ _ _ _ Hr' (seq_at _ _ Hl')). f_equal. apply bool_decide_ext.
    unfold thandles. by destruct (tlist t). }
  intros now. pose proof (ts_event_ok self t now Hrep) as Hev.
  pose proof (ts_sorted _ _ Hrep) as Hsort. destruct (tlist t) as [|[x d] l].
  { exists self, (- EAGAIN), None. split_and!; try done. intros y e Hy. by apply not_elem_of_nil in Hy. }
  apply StronglySorted_inv in Hsort as [_ Hall]. rewrite Forall_forall in Hall.
  assert (∀ y e, (y, e) ∈ (x, d) :: l → d ≤ e) as Hmin.
  { intros y e [[= _ ->]|Hy]%elem_of_cons; [done|exact (Hall _ Hy)]. }
  case_decide as Hdue.
  - destruct Hev as (self' & Ev & _). exists self', 0, (Some x). split; [done|]. split; [done|].
    exists d. split; [set_solver|]. by split.
  - exists self, (- EAGAIN), None. split_and!; try done. intros y e Hy%Hmin. lia.
Qed.

End refinement.

(** Three timers; the last one is removed before it expires. *)
Definition timers : list ts_op :=
  let a := 1%positive in let b := 2%positive in let c := 3%positive in
  [TS_hndl_init a; TS_hndl_init b; TS_hndl_init c; TS_add 1000 50 a; TS_add 1010 20 b; TS_add 1015 35 c;
   TS_timeout 1020; TS_event 1020; TS_event 1040; TS_rm c; TS_timeout 1045].

Lemma timerset_refinement_witness :
  ∃ self t, run ts_exec (nn_timerset_init Ptr.empty_store) timers =
      Ret (self, [(0, None); (0, None); (0, None); (1, None); (1, None); (0, None); (10, None);
                  (- EAGAIN, None); (0, Some 2%positive); (0, None); (5, None)]) ∧
    tlist t = [(1%positive, 1050)] ∧
    ∃ self' rc x, nn_timerset_event self 1050 = Ret (self', rc, x) ∧
      match x with
      | Some x => rc = 0 ∧ ∃ d, (x, d) ∈ tlist t ∧ d ≤ 1050 ∧ ∀ y e, (y, e) ∈ tlist t → d ≤ e
      | None => rc = - EAGAIN ∧ self' = self ∧ ∀ y e, (y, e) ∈ tlist t → 1050 < e
      end.
Proof.
  destruct (spec_run ts_spec (TSpec [] ∅) timers) as [[t rs]|] eqn:E; [|vm_compute in E; discriminate].
  destruct (timerset_refinement (H0 := Ptr.ptr_store_ok) Ptr.empty_store (LSpec ∅ ∅) timers t rs)
    as (self & Er & _ & Hev).
  - exact Ptr.rep_empty.
  - reflexivity.
  - reflexivity.
  - exact E.
  - exists self, t. rewrite Er. vm_compute in E. injection E as <- <-.
    split; [reflexivity|]. split; [reflexivity|]. exact (Hev 1050).
Defined.
