(* ===== verification/Utf8.v ===== *)
(** * transports/ws/sws.c: UTF-8 code points

    [nn_utf8_code_point] looks at the bytes at a position of a received text and
    says how many of them are the next code point.  It is compared with the
    encoding of RFC 3629: a scalar value of Unicode is written in one to four
    bytes. *)
From S2P Require Import Prelude.

(** ** Code *)

Definition NN_SWS_UTF8_INVALID : Z := -2.
Definition NN_SWS_UTF8_FRAGMENT : Z := -1.
Definition NN_SWS_UTF8_MAX_CODEPOINT_LEN : Z := 4.

(** [(b & 0xC0) == 0x80] *)
Definition is_cont (b : Z) : bool := Z.land b 0xC0 =? 0x80.

Definition nn_utf8_code_point (buffer : list Z) (len : Z) : outcome Z :=
  if len =? 0 then Ret NN_SWS_UTF8_FRAGMENT
  else
    b0 ← rd buffer 0;
    if b0 <=? 0x7F then Ret 1
    else if b0 <? 0xC2 then Ret NN_SWS_UTF8_INVALID
    else if b0 <=? 0xDF then
      if len <? 2 then Ret NN_SWS_UTF8_FRAGMENT
      else
        b1 ← rd buffer 1;
        if negb (is_cont b1) then Ret NN_SWS_UTF8_INVALID else Ret 2
    else if b0 <=? 0xEF then
      if len <? 2 then Ret NN_SWS_UTF8_FRAGMENT
      else
        b1 ← rd buffer 1;
        if (b0 =? 0xE0) && ((b1 <? 0xA0) || (b1 =? 0x80)) then Ret NN_SWS_UTF8_INVALID
        else if (b0 =? 0xED) && (0xA0 <=? b1) then Ret NN_SWS_UTF8_INVALID
        else if len <? 3 then Ret NN_SWS_UTF8_FRAGMENT
        else
          b2 ← rd buffer 2;
          if negb (is_cont b1) || negb (is_cont b2) then Ret NN_SWS_UTF8_INVALID else Ret 3
    else if b0 <=? 0xF4 then
      if len <? 2 then Ret NN_SWS_UTF8_FRAGMENT
      else
        b1 ← rd buffer 1;
        if (b0 =? 0xF0) && (b1 <? 0x90) then Ret NN_SWS_UTF8_INVALID
        else if (b0 =? 0xF4) && (0x90 <=? b1) then Ret NN_SWS_UTF8_INVALID
        else if len <? 4 then Ret NN_SWS_UTF8_FRAGMENT
        else
          b2 ← rd buffer 2; b3 ← rd buffer 3;
          if negb (is_cont b1) || negb (is_cont b2) || negb (is_cont b3)
          then Ret NN_SWS_UTF8_INVALID else Ret 4
    else if 0xF5 <=? b0 then Ret NN_SWS_UTF8_INVALID
    else Fail Abort.

(** ** Reference: RFC 3629 *)

(** The scalar values: the code points without the surrogates. *)
Definition scalar (v : Z) : Prop := 0 ≤ v < 0xD800 ∨ 0xE000 ≤ v < 0x110000.

Definition utf8 (v : Z) : list Z :=
  if v <? 0x80 then [v]
  else if v <? 0x800 then [0xC0 + v / 64; 0x80 + v mod 64]
  else if v <? 0x10000 then [0xE0 + v / 4096; 0x80 + v / 64 mod 64; 0x80 + v mod 64]
  else [0xF0 + v / 262144; 0x80 + v / 4096 mod 64; 0x80 + v / 64 mod 64; 0x80 + v mod 64].

(** A text is the encodings of scalar values one after the other. *)
Definition utf8_text (l : list Z) : Prop :=
  ∃ vs, Forall scalar vs ∧ l = concat (utf8 <$> vs).

(** ** Lemmas *)

Lemma is_cont_spec b : is_byte b → is_cont b = bool_decide (128 ≤ b < 192).
Proof.
  intros Hb. unfold is_byte in Hb.
  assert (forallb (λ n, eqb (is_cont (Z.of_nat n)) (bool_decide (128 ≤ Z.of_nat n < 192))) (seq 0 256) = true)
    as Hall by (vm_compute; reflexivity).
  rewrite forallb_forall in Hall. specialize (Hall (Z.to_nat b)).
  rewrite Z2Nat.id in Hall by lia. apply eqb_prop, Hall, in_seq. lia.
Qed.

(** The shapes of the encodings as ranges of their bytes. *)
Definition cont (b : Z) : Prop := 128 ≤ b < 192.

Inductive shape : list Z → Prop :=
| Shape1 b0 : 0 ≤ b0 < 128 → shape [b0]
| Shape2 b0 b1 : 0xC2 ≤ b0 < 0xE0 → cont b1 → shape [b0; b1]
| Shape3 b0 b1 b2 : 0xE0 ≤ b0 < 0xF0 → cont b1 → cont b2 →
    (b0 = 0xE0 → 0xA0 ≤ b1) → (b0 = 0xED → b1 < 0xA0) → shape [b0; b1; b2]
| Shape4 b0 b1 b2 b3 : 0xF0 ≤ b0 < 0xF5 → cont b1 → cont b2 → cont b3 →
    (b0 = 0xF0 → 0x90 ≤ b1) → (b0 = 0xF4 → b1 < 0x90) → shape [b0; b1; b2; b3].

Lemma utf8_shape v : scalar v → shape (utf8 v).
Proof.
  unfold scalar, utf8. intros Hv. repeat case_match; constructor; unfold cont;
    Z.to_euclidean_division_equations; lia.
Qed.

Lemma shape_utf8 l : shape l → ∃ v, scalar v ∧ utf8 v = l.
Proof.
  unfold scalar, utf8. destruct 1 as [b0|b0 b1|b0 b1 b2|b0 b1 b2 b3]; unfold cont in *.
  - exists b0. split; [lia|]. repeat case_match; (lia || done).
  - exists ((b0 - 0xC0) * 64 + (b1 - 0x80)). split; [lia|].
    repeat case_match; try lia. repeat (f_equal; try (Z.to_euclidean_division_equations; lia)).
  - exists ((b0 - 0xE0) * 4096 + (b1 - 0x80) * 64 + (b2 - 0x80)). split; [lia|].
    repeat case_match; try lia. repeat (f_equal; try (Z.to_euclidean_division_equations; lia)).
  - exists ((b0 - 0xF0) * 262144 + (b1 - 0x80) * 4096 + (b2 - 0x80) * 64 + (b3 - 0x80)). split; [lia|].
    repeat case_match; try lia. repeat (f_equal; try (Z.to_euclidean_division_equations; lia)).
Qed.

(** No encoding is a prefix of another one. *)
Lemma shape_prefix_free s s' rest rest' :
  shape s → shape s' → s ++ rest = s' ++ rest' → s = s' ∧ rest = rest'.
Proof.
  destruct 1; destruct 1; cbn; intros He; simplify_eq; unfold cont in *; try lia; done.
Qed.

Lemma shape_len s : shape s → (0 < length s ≤ 4)%nat.
Proof. destruct 1; cbn; lia. Qed.

(** Only the first [len] bytes are looked at. *)
Lemma code_point_app l rest :
  nn_utf8_code_point (l ++ rest) (Z.of_nat (length l)) = nn_utf8_code_point l (Z.of_nat (length l)).
Proof.
  unfold nn_utf8_code_point.
  destruct l as [|b0 [|b1 [|b2 [|b3 l]]]]; cbn [length app]; try done;
    repeat (rewrite (proj2 (Z.ltb_ge _ _)) by lia); done.
Qed.

(** A branch that answers FRAGMENT or INVALID: no shape fits. *)
Ltac no_shape :=
  let Hs := fresh "Hs" in let He := fresh "He" in
  eexists; (split; [reflexivity|]);
  first [ left; (split; [reflexivity|]); intros ? ? Hs He
        | right; left; (split; [reflexivity|]); intros ? ? ? Hs He ];
  destruct Hs; cbn in He; simplify_eq; unfold cont in *; lia.

(** A branch that finds the code point [s], the bytes [l] follow it. *)
Ltac found s l :=
  eexists; (split; [reflexivity|]); right; right; exists s, l;
  (split_and!; [constructor; unfold cont; lia|reflexivity|reflexivity]).

(** The next byte of the buffer, if there is one. *)
Ltac peel l Hl b :=
  let Hb := fresh "Hb" in
  destruct l as [|b l]; [cbn; no_shape|]; apply Forall_cons in Hl as [Hb Hl].

Ltac enough_bytes :=
  rewrite (proj2 (Z.ltb_ge _ _)) by (cbn; lia);
  cbn [deref lookup list_lookup mbind outcome_bind].

Lemma code_point_cases l : bytes l → ∃ r, nn_utf8_code_point l (Z.of_nat (length l)) = Ret r ∧
  ((r = NN_SWS_UTF8_FRAGMENT ∧ ∀ s rest, shape s → l ≠ s ++ rest) ∨
   (r = NN_SWS_UTF8_INVALID ∧ ∀ s ext rest, shape s → l ++ ext ≠ s ++ rest) ∨
   ∃ s rest, shape s ∧ l = s ++ rest ∧ r = Z.of_nat (length s)).
Proof.
  intros Hl. unfold nn_utf8_code_point, rd.
  destruct l as [|b0 l]; [cbn; no_shape|].
  apply Forall_cons in Hl as [Hb0 Hl]. unfold is_byte in Hb0.
  rewrite (proj2 (Z.eqb_neq _ _)) by (cbn; lia). cbn [deref lookup list_lookup mbind outcome_bind].
  destruct (Z.leb_spec b0 0x7F); [found [b0] l|].
  destruct (Z.ltb_spec b0 0xC2); [no_shape|].
  destruct (Z.leb_spec b0 0xDF).
  { peel l Hl b1. enough_bytes. rewrite is_cont_spec by done.
    case_bool_decide; cbn [negb]; [found [b0; b1] l|no_shape]. }
  destruct (Z.leb_spec b0 0xEF).
  { peel l Hl b1. enough_bytes.
    destruct (Z.eqb_spec b0 0xE0), (Z.ltb_spec b1 0xA0), (Z.eqb_spec b1 0x80), (Z.eqb_spec b0 0xED),
      (Z.leb_spec 0xA0 b1); cbn [andb orb]; try lia; try no_shape;
      (peel l Hl b2; enough_bytes; rewrite !is_cont_spec by done;
       repeat case_bool_decide; cbn [negb orb]; try no_shape; found [b0; b1; b2] l). }
  destruct (Z.leb_spec b0 0xF4).
  { peel l Hl b1. enough_bytes.
    destruct (Z.eqb_spec b0 0xF0), (Z.ltb_spec b1 0x90), (Z.eqb_spec b0 0xF4), (Z.leb_spec 0x90 b1);
      cbn [andb orb]; try lia; try no_shape;
      (peel l Hl b2; peel l Hl b3; enough_bytes; rewrite !is_cont_spec by done;
       repeat case_bool_decide; cbn [negb orb]; try no_shape; found [b0; b1; b2; b3] l). }
  rewrite (proj2 (Z.leb_le _ _)) by lia. no_shape.
Qed.

Lemma utf8_text_nil : utf8_text [].
Proof. by exists []. Qed.

Lemma utf8_text_inv l : utf8_text l → l = [] ∨ ∃ s rest, shape s ∧ l = s ++ rest ∧ utf8_text rest.
Proof.
  intros ([|v vs] & Hvs & ->); [by left|]. apply Forall_cons in Hvs as [Hv Hvs].
  right. exists (utf8 v), (concat (utf8 <$> vs)). split_and!; [by apply utf8_shape|done|by exists vs].
Qed.

Lemma utf8_text_shape s rest : shape s → utf8_text (s ++ rest) ↔ utf8_text rest.
Proof.
  intros Hs. pose proof (shape_len s Hs) as Hlen. split.
  - intros [He|(s' & rest' & Hs' & He & Ht)]%utf8_text_inv.
    + apply app_eq_nil in He as [-> _]. cbn in Hlen. lia.
    + by destruct (shape_prefix_free s s' rest rest') as [_ ->].
  - intros (vs & Hvs & ->). apply shape_utf8 in Hs as (v & Hv & <-).
    exists (v :: vs). by split; [constructor|].
Qed.

Lemma utf8_text_app l1 l2 : utf8_text l1 → utf8_text l2 → utf8_text (l1 ++ l2).
Proof.
  intros (v1 & H1 & ->) (v2 & H2 & ->). exists (v1 ++ v2).
  split; [by apply Forall_app|]. by rewrite fmap_app, concat_app.
Qed.

Lemma code_point_full b len : 4 ≤ len → nn_utf8_code_point b len ≠ Ret NN_SWS_UTF8_FRAGMENT.
Proof.
  intros Hlen. unfold nn_utf8_code_point.
  rewrite (proj2 (Z.eqb_neq len 0)), (proj2 (Z.ltb_ge len 2)), (proj2 (Z.ltb_ge len 3)),
    (proj2 (Z.ltb_ge len 4)) by lia.
  destruct (rd b 0) as [b0|]; [|done]. step.
  destruct (rd b 1) as [b1|], (rd b 2) as [b2|], (rd b 3) as [b3|]; step; repeat case_match; done.
Qed.

Lemma code_point_take b len : 0 ≤ len ≤ Z.of_nat (length b) →
  nn_utf8_code_point b len =
    nn_utf8_code_point (take (Z.to_nat len) b) (Z.of_nat (length (take (Z.to_nat len) b))).
Proof.
  intros Hlen. rewrite <- (code_point_app _ (drop (Z.to_nat len) b)), take_drop.
  f_equal. rewrite length_take. lia.
Qed.

Lemma code_point_bounds b len : bytes b → 0 ≤ len ≤ Z.of_nat (length b) →
  ∃ r, nn_utf8_code_point b len = Ret r ∧
    ((r = NN_SWS_UTF8_FRAGMENT ∧ len < 4) ∨ r = NN_SWS_UTF8_INVALID ∨ (1 ≤ r ≤ 4 ∧ r ≤ len)).
Proof.
  intros Hb Hlen.
  destruct (code_point_cases (take (Z.to_nat len) b)) as (r & Hr & Hc); [by apply Forall_take|].
  rewrite <- code_point_take in Hr by done. exists r. split; [done|].
  destruct Hc as [[-> _]|[[-> _]|(s & rest & Hs & He & ->)]]; [|by right; left|].
  - left. split; [done|]. destruct (decide (len < 4)); [done|]. destruct (code_point_full b len); [lia|done].
  - right. right. pose proof (shape_len s Hs). apply (f_equal length) in He.
    rewrite length_take, length_app in He. lia.
Qed.

Lemma code_point_shape s rest : shape s → bytes (s ++ rest) →
  nn_utf8_code_point (s ++ rest) (Z.of_nat (length (s ++ rest))) = Ret (Z.of_nat (length s)).
Proof.
  intros Hs Hb. destruct (code_point_cases _ Hb) as (r & -> & [[_ Hr]|[[_ Hr]|(s' & rest' & Hs' & He & ->)]]).
  - by destruct (Hr s rest).
  - destruct (Hr s [] rest Hs). by rewrite app_nil_r.
  - by destruct (shape_prefix_free _ _ _ _ Hs Hs' He) as [-> _].
Qed.

(** ** The property *)

(** On the first [len] bytes of a buffer that has them, the function returns:
    the length of the code point they begin with, if they begin with the encoding
    of a scalar value; INVALID only if no continuation of them does; FRAGMENT
    whenever they are cut from the encoding of a scalar value. *)
Theorem utf8_code_point_exact buffer len :
  bytes buffer → 0 ≤ len ≤ Z.of_nat (length buffer) →
  ∃ r, nn_utf8_code_point buffer len = Ret r ∧
    let l := take (Z.to_nat len) buffer in
    (0 < r ∨ r = NN_SWS_UTF8_INVALID ∨ r = NN_SWS_UTF8_FRAGMENT) ∧
    (∀ k, (r = Z.of_nat k ∧ 0 < r) ↔
       ∃ v rest, scalar v ∧ l = utf8 v ++ rest ∧ k = length (utf8 v)) ∧
    (r = NN_SWS_UTF8_INVALID → ∀ v ext rest, scalar v → l ++ ext ≠ utf8 v ++ rest) ∧
    (∀ v t, scalar v → t ≠ [] → l ++ t = utf8 v → r = NN_SWS_UTF8_FRAGMENT).
Proof.
  intros Hb Hlen. cbn zeta.
  rewrite code_point_take by done.
  pose proof (Forall_take is_byte (Z.to_nat len) buffer Hb) as Hl. cbn zeta.
  generalize dependent (take (Z.to_nat len) buffer). intros l Hl.
  destruct (code_point_cases l Hl) as (r & -> & Hr).
  exists r. split; [done|].
  destruct Hr as [[-> Hr]|[[-> Hr]|(s & rest & Hs & -> & ->)]].
  - split_and!; [by right; right| |done|done].
    intros k. split; [intros [_ [=]]|]. intros (v & rest & Hv%utf8_shape & He & _). by destruct (Hr _ _ Hv He).
  - split_and!; [by right; left| | |].
    + intros k. split; [intros [_ [=]]|]. intros (v & rest & Hv%utf8_shape & He & _).
      destruct (Hr _ [] rest Hv). by rewrite app_nil_r.
    + intros _ v ext rest Hv%utf8_shape. by apply Hr.
    + intros v t Hv%utf8_shape _ He. destruct (Hr _ t [] Hv). by rewrite app_nil_r.
  - pose proof (shape_len s Hs). split_and!; [left; lia| | |].
    + intros k. split.
      * intros [Hk _]. apply Nat2Z.inj in Hk as <-. destruct (shape_utf8 s Hs) as (v & Hv & <-). eauto.
      * intros (v & rest' & Hv%utf8_shape & He & ->).
        destruct (shape_prefix_free _ _ _ _ Hs Hv He) as [-> _]. split; [done|lia].
    + unfold NN_SWS_UTF8_INVALID. lia.
    + intros v t Hv%utf8_shape Ht He.
      destruct (shape_prefix_free s (utf8 v) (rest ++ t) [] Hs Hv) as [_ [_ ?]%app_eq_nil]; [|done].
      by rewrite app_nil_r, app_assoc.
Qed.

Lemma utf8_code_point_exact_witness :
  ∃ r, nn_utf8_code_point [0xE2; 0x82; 0xAC; 0x21] 4 = Ret r ∧ r = 3.
Proof.
  destruct (utf8_code_point_exact [0xE2; 0x82; 0xAC; 0x21] 4) as (r & Hr & _ & Hex & _).
  - repeat constructor; unfold is_byte; lia.
  - cbn; lia.
  - exists r. split; [exact Hr|]. destruct (proj2 (Hex 3%nat)) as [-> _]; [|reflexivity].
    exists 0x20AC, [0x21]. split_and!; [left; lia|reflexivity|reflexivity].
Defined.
