(* ===== verification/Cmsg.v ===== *)
(** * nn.h and core/global.c: ancillary data

    A control buffer is a sequence of property headers with their data, aligned
    to the size of a [size_t]; [nn_cmsg_nxthdr_] walks along it.  Offsets into
    the buffer are [size_t]s and wrap around.  The numbers of a header are in the
    byte order of the host, a little-endian one with 64 bits. *)
From S2P Require Import Prelude.

(** ** Code *)

Definition NN_MSG : Z := 2 ^ 64 - 1.
Definition sizeof_cmsghdr : Z := 16.

(** [(len + sizeof (size_t) - 1) & ~(sizeof (size_t) - 1)] *)
Definition NN_CMSG_ALIGN_ (len : Z) : Z := Z.land (u64 (len + 8 - 1)) (2 ^ 64 - 8).
Definition NN_CMSG_SPACE (len : Z) : Z := u64 (NN_CMSG_ALIGN_ len + NN_CMSG_ALIGN_ sizeof_cmsghdr).
Definition NN_CMSG_LEN (len : Z) : Z := u64 (NN_CMSG_ALIGN_ sizeof_cmsghdr + len).

(** A load of [n] bytes, the least significant one first. *)
Fixpoint ld (n : nat) (data : list Z) (off : nat) : outcome Z :=
  match n with
  | O => Ret 0
  | S n => b ← rd data off; r ← ld n data (S off); Ret (b + 256 * r)
  end.

(** The header at an offset. *)
Definition cmsg_len (data : list Z) (c : Z) : outcome Z := ld 8 data (Z.to_nat c).
Definition cmsg_level (data : list Z) (c : Z) : outcome Z := l ← ld 4 data (Z.to_nat c + 8); Ret (s32 l).
Definition cmsg_type (data : list Z) (c : Z) : outcome Z := t ← ld 4 data (Z.to_nat c + 12); Ret (s32 t).
(** [*NN_CMSG_DATA (cmsg)] *)
Definition cmsg_data (data : list Z) (c : Z) : outcome Z := rd data (Z.to_nat c + 16).

(** [msg_control] is the buffer, or with [msg_controllen == NN_MSG] the chunk
    that the pointer stored in the buffer points to. *)
Record msghdr := Msghdr { msg_control : list Z; msg_controllen : Z }.

Definition control_size (mhdr : msghdr) : Z :=
  if msg_controllen mhdr =? NN_MSG then Z.of_nat (length (msg_control mhdr)) else msg_controllen mhdr.

Definition nn_cmsg_nxthdr_ (mhdr : option msghdr) (cmsg : option Z) : outcome (option Z) :=
  match mhdr with
  | None => Ret None
  | Some mhdr =>
      let data := msg_control mhdr in
      let sz := control_size mhdr in
      if sz <? NN_CMSG_SPACE 0 then Ret None
      else
        next ← (match cmsg with
                | None => Ret 0
                | Some c => len ← cmsg_len data c; Ret (u64 (c + NN_CMSG_ALIGN_ len))
                end);
        let headsz := next in
        if sz <? u64 (headsz + NN_CMSG_SPACE 0) then Ret None
        else
          len ← cmsg_len data next;
          if sz <? u64 (headsz + NN_CMSG_ALIGN_ len) then Ret None else Ret (Some next)
  end.

Definition NN_CMSG_FIRSTHDR (mhdr : msghdr) : outcome (option Z) := nn_cmsg_nxthdr_ (Some mhdr) None.
Definition NN_CMSG_NXTHDR (mhdr : msghdr) (cmsg : Z) : outcome (option Z) :=
  nn_cmsg_nxthdr_ (Some mhdr) (Some cmsg).

(** The loops of the sources that look for a property:
    [while (cmsg) { if (level and type match) break; cmsg = NN_CMSG_NXTHDR (..); }] *)
Definition cmsg_find_body (mhdr : msghdr) (level type : Z) (cmsg : option Z) :
    outcome (option Z * option unit) :=
  match cmsg with
  | None => Ret (None, Some tt)
  | Some c =>
      l ← cmsg_level (msg_control mhdr) c;
      t ← cmsg_type (msg_control mhdr) c;
      if (l =? level) && (t =? type) then Ret (Some c, Some tt)
      else next ← NN_CMSG_NXTHDR mhdr c; Ret (next, None)
  end.

Definition cmsg_find (fuel : nat) (mhdr : msghdr) (level type : Z) : outcome (option Z) :=
  first ← NN_CMSG_FIRSTHDR mhdr;
  '(c, _) ← while fuel (cmsg_find_body mhdr level type) first;
  Ret c.

(** ** Reference: a list of properties *)

Fixpoint le (n : nat) (v : Z) : list Z :=
  match n with O => [] | S n => v mod 256 :: le n (v / 256) end.

Record cmsg := Cmsg { c_level : Z; c_type : Z; c_data : list Z }.

Definition pad8 (n : nat) : nat := Z.to_nat (- Z.of_nat n mod 8).

Definition enc_cmsg (c : cmsg) : list Z :=
  le 8 (16 + Z.of_nat (length (c_data c))) ++ le 4 (u32 (c_level c)) ++ le 4 (u32 (c_type c)) ++
  c_data c ++ replicate (pad8 (length (c_data c))) 0.

Definition is_int (z : Z) : Prop := - 2 ^ 31 ≤ z < 2 ^ 31.

Definition cmsg_ok (c : cmsg) : Prop := is_int (c_level c) ∧ is_int (c_type c).

(** ** Lemmas *)

Lemma align_spec n : 0 ≤ n < 2 ^ 64 - 8 → NN_CMSG_ALIGN_ n = (n + 7) / 8 * 8.
Proof.
  intros Hn. unfold NN_CMSG_ALIGN_, u64. rewrite Z.mod_small by lia.
  replace (n + 8 - 1) with (n + 7) by lia.
  assert (Z.land (n + 7) (2 ^ 64 - 8) = Z.ldiff (n + 7) 7) as ->.
  { apply Z.bits_inj_iff'. intros i Hi. rewrite Z.land_spec, Z.ldiff_spec.
    destruct (decide (i < 64)).
    - f_equal. assert (∀ k, (k < 64)%nat → Z.testbit (2 ^ 64 - 8) (Z.of_nat k) = negb (Z.testbit 7 (Z.of_nat k))) as Hk.
      { intros k Hk. do 64 (destruct k as [|k]; [reflexivity|]). lia. }
      specialize (Hk (Z.to_nat i)). rewrite Z2Nat.id in Hk by lia. apply Hk. lia.
    - rewrite (Z.bits_above_log2 (n + 7)); [done|lia|].
      apply Z.log2_lt_pow2; [lia|]. apply Z.lt_le_trans with (2 ^ 64); [lia|]. apply Z.pow_le_mono_r; lia. }
  change 7 with (Z.ones 3) at 2. rewrite Z.ldiff_ones_r by lia.
  by rewrite Z.shiftl_mul_pow2, Z.shiftr_div_pow2 by lia.
Qed.

Lemma space0 : NN_CMSG_SPACE 0 = 16.
Proof. reflexivity. Qed.

Lemma length_le n v : length (le n v) = n.
Proof. revert v. induction n; intros; cbn; auto. Qed.

Lemma rd_app_r pre l i : rd (pre ++ l) (length pre + i) = rd l i.
Proof. unfold rd. by rewrite lookup_app_r, Nat.add_comm, Nat.add_sub by lia. Qed.

Lemma ld_le n v pre rest :
  0 ≤ v < 256 ^ Z.of_nat n → ld n (pre ++ le n v ++ rest) (length pre) = Ret v.
Proof.
  revert v pre. induction n as [|n IH]; intros v pre Hv; cbn [ld le app].
  - cbn in Hv. f_equal. lia.
  - rewrite <- (Nat.add_0_r (length pre)) at 1. rewrite rd_app_r. cbn [rd deref lookup list_lookup]. step.
    rewrite Nat2Z.inj_succ, Z.pow_succ_r in Hv by lia.
    replace (pre ++ v mod 256 :: le n (v / 256) ++ rest)
      with ((pre ++ [v mod 256]) ++ le n (v / 256) ++ rest) by (by rewrite <- app_assoc).
    replace (S (length pre)) with (length (pre ++ [v mod 256])) by (rewrite length_app; cbn; lia).
    rewrite IH; [step; f_equal|]; Z.to_euclidean_division_equations; nia.
Qed.

Lemma length_enc_cmsg c : Z.of_nat (length (c_data c)) < 2 ^ 63 →
  Z.of_nat (length (enc_cmsg c)) = NN_CMSG_ALIGN_ (16 + Z.of_nat (length (c_data c))).
Proof.
  intros Hn. rewrite align_spec by lia. unfold enc_cmsg, pad8.
  rewrite !length_app, !length_le, length_replicate. Z.to_euclidean_division_equations; lia.
Qed.

Lemma enc_cmsg_len c : (16 + length (c_data c) ≤ length (enc_cmsg c))%nat.
Proof. unfold enc_cmsg. rewrite !length_app, !length_le, length_replicate. lia. Qed.

Lemma cmsg_len_ok pre c rest : Z.of_nat (length (c_data c)) < 2 ^ 63 →
  cmsg_len (pre ++ enc_cmsg c ++ rest) (Z.of_nat (length pre)) = Ret (16 + Z.of_nat (length (c_data c))).
Proof.
  intros Hn. unfold cmsg_len, enc_cmsg. rewrite Nat2Z.id, <- !app_assoc. apply ld_le. change (256 ^ Z.of_nat 8) with (2 ^ 64). lia.
Qed.

Lemma ld_int off pre rest z : off = length pre → is_int z →
  (l ← ld 4 (pre ++ le 4 (u32 z) ++ rest) off; Ret (s32 l)) = Ret z.
Proof.
  intros -> Hz. unfold is_int in Hz. rewrite ld_le; [step|change (256 ^ Z.of_nat 4) with (2 ^ 32); apply Z.mod_pos_bound; lia].
  unfold s32, u32. f_equal. rewrite Z.add_mod_idemp_l by lia. rewrite Z.mod_small by lia. lia.
Qed.

Lemma cmsg_level_ok pre c rest : cmsg_ok c →
  cmsg_level (pre ++ enc_cmsg c ++ rest) (Z.of_nat (length pre)) = Ret (c_level c).
Proof.
  intros [Hl _]. unfold cmsg_level, enc_cmsg. rewrite Nat2Z.id, <- !app_assoc.
  rewrite (app_assoc pre). apply ld_int; [|done]. by rewrite length_app, length_le.
Qed.

Lemma cmsg_type_ok pre c rest : cmsg_ok c →
  cmsg_type (pre ++ enc_cmsg c ++ rest) (Z.of_nat (length pre)) = Ret (c_type c).
Proof.
  intros [_ Hl]. unfold cmsg_type, enc_cmsg. rewrite Nat2Z.id, <- !app_assoc.
  rewrite (app_assoc pre), (app_assoc (pre ++ _)). apply ld_int; [|done].
  rewrite !length_app, !length_le. lia.
Qed.

Lemma cmsg_data_ok pre c rest b t : c_data c = b :: t →
  cmsg_data (pre ++ enc_cmsg c ++ rest) (Z.of_nat (length pre)) = Ret b.
Proof.
  intros Hd. unfold cmsg_data. rewrite Nat2Z.id, rd_app_r. unfold enc_cmsg, rd. rewrite Hd.
  rewrite <- !app_assoc. by rewrite !lookup_app_r by (rewrite ?length_le; lia); rewrite !length_le.
Qed.

(** The offset of the header after the bytes [pre], if there is one. *)
Definition hdr_after (pre : list Z) (cs : list cmsg) : option Z :=
  match cs with [] => None | _ => Some (Z.of_nat (length pre)) end.

Notation ctrl l := (Msghdr l (Z.of_nat (length l))).

Lemma control_size_ctrl (l : list Z) : control_size (ctrl l) = Z.of_nat (length l).
Proof. unfold control_size. cbn. by case_match. Qed.

Lemma accept_hdr pre cs :
  let l := pre ++ concat (enc_cmsg <$> cs) in
  let o := Z.of_nat (length pre) in
  Z.of_nat (length l) < 2 ^ 63 →
  (if Z.of_nat (length l) <? u64 (o + NN_CMSG_SPACE 0) then Ret None
   else
     len ← cmsg_len l o;
     if Z.of_nat (length l) <? u64 (o + NN_CMSG_ALIGN_ len) then Ret None else Ret (Some o))
  = Ret (hdr_after pre cs).
Proof.
  cbn zeta. intros Hl. rewrite space0. revert Hl. rewrite length_app. intros Hl. unfold u64.
  rewrite (Z.mod_small (_ + 16)) by lia.
  destruct cs as [|c cs]; cbn [fmap list_fmap concat hdr_after] in *.
  - cbn [length]. by rewrite (proj2 (Z.ltb_lt _ _)) by (cbn; lia).
  - rewrite length_app in *. pose proof (enc_cmsg_len c).
    rewrite (proj2 (Z.ltb_ge _ _)) by lia.
    rewrite cmsg_len_ok by lia. step. rewrite <- length_enc_cmsg by lia.
    rewrite Z.mod_small by lia. by rewrite (proj2 (Z.ltb_ge _ _)) by lia.
Qed.

Lemma firsthdr_ok cs : let l := concat (enc_cmsg <$> cs) in
  Z.of_nat (length l) < 2 ^ 63 → NN_CMSG_FIRSTHDR (ctrl l) = Ret (hdr_after [] cs).
Proof.
  cbn zeta. intros Hl. unfold NN_CMSG_FIRSTHDR, nn_cmsg_nxthdr_. rewrite control_size_ctrl.
  cbn [msg_control]. rewrite space0. destruct (Z.ltb_spec (Z.of_nat (length (concat (enc_cmsg <$> cs)))) 16) as [Hs|Hs].
  - destruct cs as [|c cs]; [done|]. cbn in Hs. rewrite length_app in Hs. pose proof (enc_cmsg_len c). lia.
  - step. apply (accept_hdr [] cs Hl).
Qed.

Lemma nxthdr_ok pre c cs : let l := pre ++ enc_cmsg c ++ concat (enc_cmsg <$> cs) in
  Z.of_nat (length l) < 2 ^ 63 →
  NN_CMSG_NXTHDR (ctrl l) (Z.of_nat (length pre)) = Ret (hdr_after (pre ++ enc_cmsg c) cs).
Proof.
  cbn zeta. intros Hl. unfold NN_CMSG_NXTHDR, nn_cmsg_nxthdr_. rewrite control_size_ctrl.
  cbn [msg_control]. rewrite space0. pose proof (enc_cmsg_len c) as Hc. revert Hl. rewrite !length_app. intros Hl.
  rewrite (proj2 (Z.ltb_ge _ _)) by lia. rewrite cmsg_len_ok by lia. step.
  rewrite <- length_enc_cmsg by lia.
  assert (u64 (Z.of_nat (length pre) + Z.of_nat (length (enc_cmsg c))) = Z.of_nat (length (pre ++ enc_cmsg c))) as ->
    by (unfold u64; rewrite length_app, Z.mod_small; lia).
  rewrite <- !length_app, app_assoc. apply accept_hdr. rewrite !length_app. lia.
Qed.

Lemma cmsg_find_body_ok pre c cs level type : let l := pre ++ enc_cmsg c ++ concat (enc_cmsg <$> cs) in
  Z.of_nat (length l) < 2 ^ 63 → cmsg_ok c →
  cmsg_find_body (ctrl l) level type (Some (Z.of_nat (length pre))) =
    Ret (if decide (c_level c = level ∧ c_type c = type) then (Some (Z.of_nat (length pre)), Some tt)
         else (hdr_after (pre ++ enc_cmsg c) cs, None)).
Proof.
  cbn zeta. intros Hl Hc. unfold cmsg_find_body. cbn [msg_control].
  rewrite cmsg_level_ok, cmsg_type_ok by done. step.
  destruct ((c_level c =? level) && (c_type c =? type)) eqn:E.
  - apply andb_true_iff in E as [?%Z.eqb_eq ?%Z.eqb_eq]. by rewrite decide_True.
  - rewrite decide_False by (intros [<- <-]; by rewrite !Z.eqb_refl in E). by rewrite nxthdr_ok.
Qed.

(** The loop finds the first property of the level and type. *)
Lemma cmsg_find_from fuel pre cs level type :
  let l := pre ++ concat (enc_cmsg <$> cs) in
  Z.of_nat (length l) < 2 ^ 63 → Forall cmsg_ok cs → (length cs < fuel)%nat →
  ∃ r, while fuel (cmsg_find_body (ctrl l) level type) (hdr_after pre cs) = Ret (r, tt) ∧
    match list_find (λ c, c_level c = level ∧ c_type c = type) cs with
    | None => r = None
    | Some (_, c) => ∃ o, r = Some o ∧ ∀ b t, c_data c = b :: t → cmsg_data l o = Ret b
    end.
Proof.
  cbn zeta. revert pre fuel. induction cs as [|c cs IH]; intros pre [|fuel] Hl Hok Hf; cbn in Hf; try lia.
  - cbn. eauto.
  - apply Forall_cons in Hok as [Hc Hok]. cbn [fmap list_fmap concat hdr_after while] in *.
    rewrite cmsg_find_body_ok by done. step. cbn [list_find].
    destruct (decide (c_level c = level ∧ c_type c = type)) as [_|Hne].
    + eexists. split; [done|]. eexists. split; [done|]. intros b t Hd. by eapply cmsg_data_ok.
    + destruct (IH (pre ++ enc_cmsg c) fuel) as (r & Hr & Hm); [by rewrite <- app_assoc|done|lia|].
      rewrite <- app_assoc in Hr, Hm. exists r. split; [done|].
      destruct (list_find _ cs) as [[? ?]|] eqn:El; cbn; by rewrite ?El.
Qed.

Lemma cmsg_find_ok fuel cs level type : let l := concat (enc_cmsg <$> cs) in
  Z.of_nat (length l) < 2 ^ 63 → Forall cmsg_ok cs → (length cs < fuel)%nat →
  ∃ r, cmsg_find fuel (ctrl l) level type = Ret r ∧
    match list_find (λ c, c_level c = level ∧ c_type c = type) cs with
    | None => r = None
    | Some (_, c) => ∃ o, r = Some o ∧ ∀ b t, c_data c = b :: t → cmsg_data l o = Ret b
    end.
Proof.
  cbn zeta. intros Hl Hok Hf. unfold cmsg_find. rewrite firsthdr_ok by done. step.
  destruct (cmsg_find_from fuel [] cs level type Hl Hok Hf) as (r & Hr & Hm). cbn [app] in Hr, Hm.
  exists r. by rewrite Hr.
Qed.

(** A header whose length is 0 is its own successor: a search for another type
    does not end. *)
Lemma cmsg_zero_len_loops fuel :
  cmsg_find fuel (ctrl (le 8 0 ++ le 4 7 ++ le 4 7)) (-4) 1 = Fail Diverge.
Proof.
  unfold cmsg_find. change (NN_CMSG_FIRSTHDR _) with (@Ret (option Z) (Some 0)). step.
  assert (while fuel (cmsg_find_body (ctrl (le 8 0 ++ le 4 7 ++ le 4 7)) (-4) 1) (Some 0) = Fail Diverge) as ->;
    [|done]. induction fuel; [done|]. cbn [while].
  change (cmsg_find_body _ _ _ (Some 0)) with (@Ret (option Z * option unit) (Some 0, None)). by step.
Qed.
