(* ===== verification/Usock.v ===== *)
(** * aio/usock_posix.inc: sockets of the operating system

    The state machine around a non-blocking socket: connecting, sending all
    bytes of a message, receiving exactly the bytes asked for through a batch
    buffer, errors and closing.  The operating system is explicit: [kernel] holds
    what the next calls of recvmsg and sendmsg find.  The events a socket raises
    go to the queue of its context, which it shares with the machines of a
    connection. *)
From S2P Require Import Prelude Chunk Fsm.

(** ** Constants *)

Definition NN_USOCK_CONNECTED : Z := 1.
Definition NN_USOCK_ACCEPTED : Z := 2.
Definition NN_USOCK_SENT : Z := 3.
Definition NN_USOCK_RECEIVED : Z := 4.
Definition NN_USOCK_ERROR : Z := 5.
Definition NN_USOCK_ACCEPT_ERROR : Z := 6.
Definition NN_USOCK_STOPPED : Z := 7.
Definition NN_USOCK_SHUTDOWN : Z := 8.

Definition NN_USOCK_MAX_IOVCNT : nat := 3.
Definition NN_USOCK_BATCH_SIZE : Z := 2048.

Definition NN_USOCK_STATE_IDLE : Z := 1.
Definition NN_USOCK_STATE_STARTING : Z := 2.
Definition NN_USOCK_STATE_BEING_ACCEPTED : Z := 3.
Definition NN_USOCK_STATE_ACCEPTED : Z := 4.
Definition NN_USOCK_STATE_CONNECTING : Z := 5.
Definition NN_USOCK_STATE_ACTIVE : Z := 6.
Definition NN_USOCK_STATE_REMOVING_FD : Z := 7.
Definition NN_USOCK_STATE_DONE : Z := 8.
Definition NN_USOCK_STATE_LISTENING : Z := 9.
Definition NN_USOCK_STATE_ACCEPTING : Z := 10.
Definition NN_USOCK_STATE_CANCELLING : Z := 11.
Definition NN_USOCK_STATE_STOPPING : Z := 12.
Definition NN_USOCK_STATE_STOPPING_ACCEPT : Z := 13.
Definition NN_USOCK_STATE_ACCEPTING_ERROR : Z := 14.

Definition NN_USOCK_ACTION_ACCEPT : Z := 1.
Definition NN_USOCK_ACTION_BEING_ACCEPTED : Z := 2.
Definition NN_USOCK_ACTION_CANCEL : Z := 3.
Definition NN_USOCK_ACTION_LISTEN : Z := 4.
Definition NN_USOCK_ACTION_CONNECT : Z := 5.
Definition NN_USOCK_ACTION_ACTIVATE : Z := 6.
Definition NN_USOCK_ACTION_DONE : Z := 7.
Definition NN_USOCK_ACTION_ERROR : Z := 8.
Definition NN_USOCK_ACTION_STARTED : Z := 9.

Definition NN_USOCK_SRC_FD : Z := 1.
Definition NN_USOCK_SRC_TASK_CONNECTING : Z := 2.
Definition NN_USOCK_SRC_TASK_CONNECTED : Z := 3.
Definition NN_USOCK_SRC_TASK_ACCEPT : Z := 4.
Definition NN_USOCK_SRC_TASK_SEND : Z := 5.
Definition NN_USOCK_SRC_TASK_RECV : Z := 6.
Definition NN_USOCK_SRC_TASK_STOP : Z := 7.

Definition NN_WORKER_FD_IN : Z := 1.
Definition NN_WORKER_FD_OUT : Z := 2.
Definition NN_WORKER_FD_ERR : Z := 3.

(** ** The operating system

    What the next calls on the socket find: data (an empty piece is the end of the
    stream, which stays), or an error; room for some bytes, or an error.  When
    there is nothing the call would block.  [k_read] and [k_written] are the bytes
    read and written so far. *)
Inductive rx_item : Set := R_data (l : list Z) | R_err.
Inductive tx_item : Set := T_room (n : nat) | T_err.

Record kernel := Kernel {
  k_rx : list rx_item;
  k_tx : list tx_item;
  k_read : list Z;
  k_written : list Z;
}.

Inductive sysret : Set := Sys_ok (l : list Z) | Sys_again | Sys_fail.

(** At most [n] bytes. *)
Definition recvmsg (k : kernel) (n : nat) : sysret * kernel :=
  match k_rx k with
  | [] => (Sys_again, k)
  | R_err :: _ => (Sys_fail, k)
  | R_data [] :: _ => (Sys_ok [], k)
  | R_data l :: rest =>
      let rx := match drop n l with [] => rest | l' => R_data l' :: rest end in
      (Sys_ok (take n l), Kernel rx (k_tx k) (k_read k ++ take n l) (k_written k))
  end.

Definition sendmsg (k : kernel) (data : list Z) : sysret * kernel :=
  match k_tx k with
  | [] => match data with [] => (Sys_ok [], k) | _ => (Sys_again, k) end
  | T_err :: _ => (Sys_fail, k)
  | T_room n :: rest =>
      (Sys_ok (take n data), Kernel (k_rx k) rest (k_read k) (k_written k ++ take n data))
  end.

(** ** Events *)

(** The owner of a socket: an endpoint's machine, the header exchange or the
    connection ([nn_usock_swap_owner]). *)
Inductive uowner : Set := O_ep | O_hdr | O_stream.

(** The event objects of a socket. *)
Inductive uobj : Set := UE_established | UE_sent | UE_received | UE_error | UE_stopped.

(** What the context's queue of a connection may hold: events of the socket, of
    the header exchange, of the pipe, and of the connection for its owner. *)
Inductive evt : Set :=
| E_usock (o : uobj) (to : uowner) (type : Z)
| E_hdr_done (type : Z)
| E_hdr_stopped (type : Z)
| E_pipe (type : Z)
| E_done (type : Z)
| E_stopped (type : Z).

#[export] Instance uowner_eq_dec : EqDecision uowner.
Proof. solve_decision. Defined.
#[export] Instance uobj_eq_dec : EqDecision uobj.
Proof. solve_decision. Defined.
#[export] Instance evt_eq_dec : EqDecision evt.
Proof. solve_decision. Defined.

Definition is_usock_obj (o : uobj) (x : evt) : bool :=
  match x with E_usock o' _ _ => bool_decide (o = o') | _ => false end.

(** ** The state

    [in_dst] is what was stored so far in the buffer of the present request,
    [in_len] the number of bytes that miss.  [out_iov] are the pieces that are not
    yet sent.  [w_reg], [w_in], [w_out]: the socket's place in the poller. *)
Record nn_usock := NnUsock {
  u_fsm : Z;
  u_state : Z;
  u_owner : uowner;
  u_fd : bool;                    (* s != -1 *)
  in_dst : list Z;
  in_len : Z;
  batch : option (list Z);
  batch_len : Z;
  batch_pos : Z;
  out_iov : list (list Z);
  u_tasks : list Z;               (* the worker's queue, tasks by their source *)
  w_reg : bool;
  w_in : bool;
  w_out : bool;
  u_os : kernel;
}.

Definition set_u_fsm (v : Z) (s : nn_usock) : nn_usock :=
  NnUsock v (u_state s) (u_owner s) (u_fd s) (in_dst s) (in_len s) (batch s) (batch_len s) (batch_pos s)
    (out_iov s) (u_tasks s) (w_reg s) (w_in s) (w_out s) (u_os s).
Definition set_u_state (v : Z) (s : nn_usock) : nn_usock :=
  NnUsock (u_fsm s) v (u_owner s) (u_fd s) (in_dst s) (in_len s) (batch s) (batch_len s) (batch_pos s)
    (out_iov s) (u_tasks s) (w_reg s) (w_in s) (w_out s) (u_os s).
Definition set_u_owner (v : uowner) (s : nn_usock) : nn_usock :=
  NnUsock (u_fsm s) (u_state s) v (u_fd s) (in_dst s) (in_len s) (batch s) (batch_len s) (batch_pos s)
    (out_iov s) (u_tasks s) (w_reg s) (w_in s) (w_out s) (u_os s).
Definition set_u_fd (v : bool) (s : nn_usock) : nn_usock :=
  NnUsock (u_fsm s) (u_state s) (u_owner s) v (in_dst s) (in_len s) (batch s) (batch_len s) (batch_pos s)
    (out_iov s) (u_tasks s) (w_reg s) (w_in s) (w_out s) (u_os s).
Definition set_req (dst : list Z) (len : Z) (s : nn_usock) : nn_usock :=
  NnUsock (u_fsm s) (u_state s) (u_owner s) (u_fd s) dst len (batch s) (batch_len s) (batch_pos s)
    (out_iov s) (u_tasks s) (w_reg s) (w_in s) (w_out s) (u_os s).
Definition set_batch (b : option (list Z)) (len pos : Z) (s : nn_usock) : nn_usock :=
  NnUsock (u_fsm s) (u_state s) (u_owner s) (u_fd s) (in_dst s) (in_len s) b len pos
    (out_iov s) (u_tasks s) (w_reg s) (w_in s) (w_out s) (u_os s).
Definition set_out_iov (v : list (list Z)) (s : nn_usock) : nn_usock :=
  NnUsock (u_fsm s) (u_state s) (u_owner s) (u_fd s) (in_dst s) (in_len s) (batch s) (batch_len s) (batch_pos s)
    v (u_tasks s) (w_reg s) (w_in s) (w_out s) (u_os s).
Definition set_u_tasks (v : list Z) (s : nn_usock) : nn_usock :=
  NnUsock (u_fsm s) (u_state s) (u_owner s) (u_fd s) (in_dst s) (in_len s) (batch s) (batch_len s) (batch_pos s)
    (out_iov s) v (w_reg s) (w_in s) (w_out s) (u_os s).
Definition set_poll (reg i o : bool) (s : nn_usock) : nn_usock :=
  NnUsock (u_fsm s) (u_state s) (u_owner s) (u_fd s) (in_dst s) (in_len s) (batch s) (batch_len s) (batch_pos s)
    (out_iov s) (u_tasks s) reg i o (u_os s).
Definition set_u_os (v : kernel) (s : nn_usock) : nn_usock :=
  NnUsock (u_fsm s) (u_state s) (u_owner s) (u_fd s) (in_dst s) (in_len s) (batch s) (batch_len s) (batch_pos s)
    (out_iov s) (u_tasks s) (w_reg s) (w_in s) (w_out s) v.

(** Computes the fields of a socket that setters made. *)
Ltac usock_simpl :=
  cbn [ u_fsm u_state u_owner u_fd in_dst in_len batch batch_len batch_pos out_iov u_tasks w_reg w_in w_out
        u_os set_u_fsm set_u_state set_u_owner set_u_fd set_req set_batch set_out_iov set_u_tasks set_poll
        set_u_os fst snd ] in *.

(** ** The worker and its poller (poller_epoll.inc ignores what epoll_ctl reports) *)

Definition nn_worker_add_fd (s : nn_usock) : nn_usock := set_poll true false false s.
Definition nn_worker_rm_fd (s : nn_usock) : nn_usock := set_poll false (w_in s) (w_out s) s.
Definition nn_worker_set_in (s : nn_usock) : nn_usock := set_poll (w_reg s) true (w_out s) s.
Definition nn_worker_reset_in (s : nn_usock) : nn_usock := set_poll (w_reg s) false (w_out s) s.
Definition nn_worker_set_out (s : nn_usock) : nn_usock := set_poll (w_reg s) (w_in s) true s.
Definition nn_worker_reset_out (s : nn_usock) : nn_usock := set_poll (w_reg s) (w_in s) false s.

(** A task that is posted must not be in the worker's queue. *)
Definition worker_execute (task : Z) (s : nn_usock) : outcome nn_usock :=
  nn_assert (bool_decide (task ∉ u_tasks s));; Ret (set_u_tasks (u_tasks s ++ [task]) s).

(** The socket and the events queued in its context. *)
Definition usock_ctx : Type := nn_usock * list evt.

Definition on_usock (f : nn_usock → nn_usock) (x : usock_ctx) : usock_ctx := (f x.1, x.2).

(** [nn_fsm_raise]: the event goes to the owner of this moment; queuing an event
    object that is in the queue is an assertion failure. *)
Definition usock_raise (o : uobj) (x : usock_ctx) (type : Z) : outcome usock_ctx :=
  nn_assert (negb (existsb (is_usock_obj o) x.2));;
  Ret (x.1, x.2 ++ [E_usock o (u_owner x.1) type]).

(** ** Moving data *)

(** Adjusts the pieces after [nbytes] were sent: the result of the loop and of
    the test behind it. *)
Fixpoint adjust_iov (nbytes : Z) (iov : list (list Z)) : outcome (list (list Z) * Z) :=
  if nbytes =? 0 then Ret (iov, match iov with [] => 0 | _ => - EAGAIN end)
  else
    match iov with
    | [] => Fail Crash
    | v :: rest =>
        let len := Z.of_nat (length v) in
        if len <=? nbytes then
          match rest with
          | [] => nn_assert (nbytes =? len);; Ret ([], 0)
          | _ => adjust_iov (nbytes - len) rest
          end
        else Ret (drop (Z.to_nat nbytes) v :: rest, - EAGAIN)
    end.

Definition nn_usock_send_raw (self : nn_usock) : outcome (nn_usock * Z) :=
  let '(r, os) := sendmsg (u_os self) (concat (out_iov self)) in
  let self := set_u_os os self in
  match r with
  | Sys_fail => Ret (self, - ECONNRESET)
  | Sys_again => '(iov, rc) ← adjust_iov 0 (out_iov self); Ret (set_out_iov iov self, rc)
  | Sys_ok l => '(iov, rc) ← adjust_iov (Z.of_nat (length l)) (out_iov self); Ret (set_out_iov iov self, rc)
  end.

(** Allocation, and the contents of fresh memory. *)
Section code.
Context (alloc : Z → bool) (junk : nat → Z).

Definition batch_init (self : nn_usock) : outcome (nn_usock * list Z) :=
  match batch self with
  | Some b => Ret (self, b)
  | None =>
      nn_assert (alloc NN_USOCK_BATCH_SIZE);;
      let b := junk <$> seq 0 (Z.to_nat NN_USOCK_BATCH_SIZE) in
      Ret (set_batch (Some b) (batch_len self) (batch_pos self) self, b)
  end.

(** What the batch buffer holds for a request: the bytes, and how many are still
    wanted ([length] of the code). *)
Definition batch_take (self : nn_usock) (b : list Z) (len : Z) : outcome (nn_usock * list Z * Z) :=
  let sz := u64 (batch_len self - batch_pos self) in
  if sz =? 0 then Ret (self, [], len)
  else
    let sz := if len <? sz then len else sz in
    got ← read_at b (Z.to_nat (batch_pos self)) (Z.to_nat sz);
    Ret (set_batch (batch self) (batch_len self) (batch_pos self + sz) self, got, len - sz).

(** Reads into the batch buffer and hands out up to [want] bytes of it. *)
Definition batch_fill (self : nn_usock) (b data : list Z) (want : Z) : outcome (nn_usock * list Z) :=
  let nbytes := Z.of_nat (length data) in
  b ← write_at b 0 data;
  let sz := if want <? nbytes then want else nbytes in
  d ← read_at b 0 (Z.to_nat sz);
  Ret (set_batch (Some b) nbytes sz self, d).

(** The bytes stored into the buffer, whose number is the function's [*len], and
    its result.  A file descriptor that comes with the data is closed: no caller
    passes a place for it.  Callers ask for at least one byte; for none the code
    would still call the system. *)
Definition nn_usock_recv_raw (self : nn_usock) (len : Z) : outcome (nn_usock * list Z * Z) :=
  '(self, b) ← batch_init self;
  '(self, got, want) ← batch_take self b len;
  if want =? 0 then Ret (self, got, 0)
  else
    let direct := NN_USOCK_BATCH_SIZE <? want in
    let '(r, os) := recvmsg (u_os self) (Z.to_nat (if direct then want else NN_USOCK_BATCH_SIZE)) in
    let self := set_u_os os self in
    match r with
    | Sys_fail | Sys_ok [] => Ret (self, got, - ECONNRESET)
    | Sys_again | Sys_ok _ =>
        let data := match r with Sys_ok l => l | _ => [] end in
        if direct then Ret (self, got ++ data, 0)
        else '(self, d) ← batch_fill self b data want; Ret (self, got ++ d, 0)
    end.

(** ** The state machine *)

(** The states in which two sockets accept a connection, and the accepted socket
    asking the listening one to stop, are a parameter: a socket that is connected
    is not in them. *)
Context (accepting : usock_ctx → Z → Z → srcptr → outcome usock_ctx).

(** The result: was the event one of these? *)
Definition nn_internal_tasks (x : usock_ctx) (src type : Z) : outcome (usock_ctx * bool) :=
  if src =? NN_USOCK_SRC_TASK_SEND then
    nn_assert (type =? NN_WORKER_TASK_EXECUTE);; Ret (on_usock nn_worker_set_out x, true)
  else if src =? NN_USOCK_SRC_TASK_RECV then
    nn_assert (type =? NN_WORKER_TASK_EXECUTE);; Ret (on_usock nn_worker_set_in x, true)
  else if src =? NN_USOCK_SRC_TASK_CONNECTED then
    nn_assert (type =? NN_WORKER_TASK_EXECUTE);; Ret (on_usock nn_worker_add_fd x, true)
  else if src =? NN_USOCK_SRC_TASK_CONNECTING then
    nn_assert (type =? NN_WORKER_TASK_EXECUTE);;
    Ret (on_usock nn_worker_set_out (on_usock nn_worker_add_fd x), true)
  else if src =? NN_USOCK_SRC_TASK_ACCEPT then
    nn_assert (type =? NN_WORKER_TASK_EXECUTE);;
    Ret (on_usock nn_worker_set_in (on_usock nn_worker_add_fd x), true)
  else Ret (x, false).

Definition nn_usock_async_stop (x : usock_ctx) : outcome usock_ctx :=
  u ← worker_execute NN_USOCK_SRC_TASK_STOP x.1;
  usock_raise UE_error (u, x.2) NN_USOCK_SHUTDOWN.

(** The labels finish1 and finish2. *)
Definition usock_finish2 (x : usock_ctx) : outcome usock_ctx :=
  nn_fsm_stopped (λ x, u_fsm x.1) (λ x v, on_usock (set_u_fsm v) x) (usock_raise UE_stopped)
    (on_usock (set_u_state NN_USOCK_STATE_IDLE) x) NN_USOCK_STOPPED.
Definition usock_finish1 (x : usock_ctx) : outcome usock_ctx := usock_finish2 (on_usock (set_u_fd false) x).

Definition nn_usock_shutdown (x : usock_ctx) (src type : Z) (ptr : srcptr) : outcome usock_ctx :=
  '(x, done) ← nn_internal_tasks x src type;
  let st := u_state x.1 in
  if done : bool then Ret x
  else if (src =? NN_FSM_ACTION) && (type =? NN_FSM_STOP) then
    nn_assert (negb (st =? NN_USOCK_STATE_ACCEPTING) && negb (st =? NN_USOCK_STATE_CANCELLING));;
    if st =? NN_USOCK_STATE_IDLE then Ret x
    else if st =? NN_USOCK_STATE_DONE then usock_finish2 x
    else if (st =? NN_USOCK_STATE_STARTING) || (st =? NN_USOCK_STATE_ACCEPTED) ||
            (st =? NN_USOCK_STATE_ACCEPTING_ERROR) || (st =? NN_USOCK_STATE_LISTENING) then usock_finish1 x
    else if st =? NN_USOCK_STATE_BEING_ACCEPTED then accepting x src type ptr
    else
      x ← (if negb (st =? NN_USOCK_STATE_REMOVING_FD) then nn_usock_async_stop x else Ret x);
      Ret (on_usock (set_u_state NN_USOCK_STATE_STOPPING) x)
  else if st =? NN_USOCK_STATE_STOPPING_ACCEPT then
    nn_assert ((src =? NN_FSM_ACTION) && (type =? NN_USOCK_ACTION_DONE));;
    usock_finish2 x
  else if st =? NN_USOCK_STATE_STOPPING then
    if negb (src =? NN_USOCK_SRC_TASK_STOP) then Ret x
    else
      nn_assert (type =? NN_WORKER_TASK_EXECUTE);;
      usock_finish1 (on_usock nn_worker_rm_fd x)
  else nn_fsm_bad st src type.

(** The label error: the connection is broken. *)
Definition usock_broken (x : usock_ctx) : outcome usock_ctx :=
  let u := set_u_state NN_USOCK_STATE_DONE (set_u_fd false (nn_worker_rm_fd x.1)) in
  usock_raise UE_error (u, x.2) NN_USOCK_ERROR.

Definition usock_fd_in (x : usock_ctx) : outcome usock_ctx :=
  let u := x.1 in
  '(u, got, rc) ← nn_usock_recv_raw u (in_len u);
  if rc =? 0 then
    let u := set_req (in_dst u ++ got) (u64 (in_len u - Z.of_nat (length got))) u in
    if in_len u =? 0 then usock_raise UE_received (nn_worker_reset_in u, x.2) NN_USOCK_RECEIVED
    else Ret (u, x.2)
  else
    nn_assert (rc =? - ECONNRESET);; usock_broken (u, x.2).

Definition usock_fd_out (x : usock_ctx) : outcome usock_ctx :=
  '(u, rc) ← nn_usock_send_raw x.1;
  if rc =? 0 then usock_raise UE_sent (nn_worker_reset_out u, x.2) NN_USOCK_SENT
  else if rc =? - EAGAIN then Ret (u, x.2)
  else nn_assert (rc =? - ECONNRESET);; usock_broken (u, x.2).

Definition usock_active (x : usock_ctx) (src type : Z) : outcome usock_ctx :=
  if src =? NN_USOCK_SRC_FD then
    if type =? NN_WORKER_FD_IN then usock_fd_in x
    else if type =? NN_WORKER_FD_OUT then usock_fd_out x
    else if type =? NN_WORKER_FD_ERR then usock_broken x
    else nn_fsm_bad (u_state x.1) src type
  else if src =? NN_FSM_ACTION then
    if type =? NN_USOCK_ACTION_ERROR then
      nn_usock_async_stop (on_usock (set_u_state NN_USOCK_STATE_REMOVING_FD) x)
    else nn_fsm_bad (u_state x.1) src type
  else nn_fsm_bad (u_state x.1) src type.

Definition usock_removing_fd (x : usock_ctx) (src type : Z) : outcome usock_ctx :=
  if src =? NN_USOCK_SRC_TASK_STOP then
    if type =? NN_WORKER_TASK_EXECUTE then usock_broken x else nn_fsm_bad (u_state x.1) src type
  else if src =? NN_USOCK_SRC_FD then Ret x
  else if src =? NN_FSM_ACTION then
    if type =? NN_USOCK_ACTION_ERROR then Ret x else nn_fsm_bad (u_state x.1) src type
  else nn_fsm_bad (u_state x.1) src type.

(** [sockerr] is what [nn_usock_geterr] finds. *)
Definition usock_connecting (sockerr : Z) (x : usock_ctx) (src type : Z) : outcome usock_ctx :=
  if src =? NN_FSM_ACTION then
    if type =? NN_USOCK_ACTION_DONE then
      u ← worker_execute NN_USOCK_SRC_TASK_CONNECTED (set_u_state NN_USOCK_STATE_ACTIVE x.1);
      usock_raise UE_established (u, x.2) NN_USOCK_CONNECTED
    else if type =? NN_USOCK_ACTION_ERROR then
      usock_raise UE_error (on_usock (set_u_state NN_USOCK_STATE_DONE) (on_usock (set_u_fd false) x)) NN_USOCK_ERROR
    else nn_fsm_bad (u_state x.1) src type
  else if src =? NN_USOCK_SRC_FD then
    if type =? NN_WORKER_FD_OUT then
      let x := on_usock (set_u_state NN_USOCK_STATE_ACTIVE) (on_usock nn_worker_reset_out x) in
      if sockerr =? 0 then usock_raise UE_established x NN_USOCK_CONNECTED else usock_broken x
    else if type =? NN_WORKER_FD_ERR then usock_broken x
    else nn_fsm_bad (u_state x.1) src type
  else nn_fsm_bad (u_state x.1) src type.

(** The states before the socket is connected. *)
Definition usock_starting (x : usock_ctx) (src type : Z) : outcome usock_ctx :=
  if src =? NN_FSM_ACTION then
    if type =? NN_USOCK_ACTION_LISTEN then Ret (on_usock (set_u_state NN_USOCK_STATE_LISTENING) x)
    else if type =? NN_USOCK_ACTION_CONNECT then Ret (on_usock (set_u_state NN_USOCK_STATE_CONNECTING) x)
    else if type =? NN_USOCK_ACTION_BEING_ACCEPTED then
      Ret (on_usock (set_u_state NN_USOCK_STATE_BEING_ACCEPTED) x)
    else if type =? NN_USOCK_ACTION_STARTED then
      Ret (on_usock (set_u_state NN_USOCK_STATE_ACTIVE) (on_usock nn_worker_add_fd x))
    else nn_fsm_bad (u_state x.1) src type
  else nn_fsm_bad (u_state x.1) src type.

Definition usock_being_accepted (x : usock_ctx) (src type : Z) : outcome usock_ctx :=
  if (src =? NN_FSM_ACTION) && (type =? NN_USOCK_ACTION_DONE) then
    usock_raise UE_established (on_usock (set_u_state NN_USOCK_STATE_ACCEPTED) x) NN_USOCK_ACCEPTED
  else nn_fsm_bad (u_state x.1) src type.

Definition usock_accepted (x : usock_ctx) (src type : Z) : outcome usock_ctx :=
  if (src =? NN_FSM_ACTION) && (type =? NN_USOCK_ACTION_ACTIVATE) then
    Ret (on_usock (set_u_state NN_USOCK_STATE_ACTIVE) (on_usock nn_worker_add_fd x))
  else nn_fsm_bad (u_state x.1) src type.

Context (sockerr : Z).

Definition nn_usock_handler (x : usock_ctx) (src type : Z) (ptr : srcptr) : outcome usock_ctx :=
  '(x, done) ← nn_internal_tasks x src type;
  let st := u_state x.1 in
  if done : bool then Ret x
  else if st =? NN_USOCK_STATE_IDLE then
    if (src =? NN_FSM_ACTION) && (type =? NN_FSM_START) then
      Ret (on_usock (set_u_state NN_USOCK_STATE_STARTING) x)
    else nn_fsm_bad st src type
  else if st =? NN_USOCK_STATE_STARTING then usock_starting x src type
  else if st =? NN_USOCK_STATE_BEING_ACCEPTED then usock_being_accepted x src type
  else if st =? NN_USOCK_STATE_ACCEPTED then usock_accepted x src type
  else if st =? NN_USOCK_STATE_CONNECTING then usock_connecting sockerr x src type
  else if st =? NN_USOCK_STATE_ACTIVE then usock_active x src type
  else if st =? NN_USOCK_STATE_REMOVING_FD then usock_removing_fd x src type
  else if st =? NN_USOCK_STATE_DONE then Ret x
  else if (st =? NN_USOCK_STATE_LISTENING) || (st =? NN_USOCK_STATE_ACCEPTING) ||
          (st =? NN_USOCK_STATE_ACCEPTING_ERROR) || (st =? NN_USOCK_STATE_CANCELLING) then
    accepting x src type ptr
  else nn_fsm_bad st src type.

Definition usock_feed : usock_ctx → Z → Z → srcptr → outcome usock_ctx :=
  nn_fsm_feed (λ x, u_fsm x.1) nn_usock_handler nn_usock_shutdown.

Definition usock_action (x : usock_ctx) (type : Z) : outcome usock_ctx :=
  nn_fsm_action (λ x, u_fsm x.1) nn_usock_handler nn_usock_shutdown x type.

(** ** The functions of the owner *)

Definition nn_usock_swap_owner (owner : uowner) (self : nn_usock) : nn_usock * uowner :=
  (set_u_owner owner self, u_owner self).

Definition nn_usock_activate (x : usock_ctx) : outcome usock_ctx := usock_action x NN_USOCK_ACTION_ACTIVATE.

Definition nn_usock_stop (x : usock_ctx) : outcome usock_ctx :=
  nn_fsm_stop (λ x, u_fsm x.1) (λ x v, on_usock (set_u_fsm v) x) nn_usock_shutdown x.

Definition nn_usock_send (x : usock_ctx) (iov : list (list Z)) : outcome usock_ctx :=
  if negb (u_state x.1 =? NN_USOCK_STATE_ACTIVE) then usock_action x NN_USOCK_ACTION_ERROR
  else
    nn_assert (bool_decide (length iov ≤ NN_USOCK_MAX_IOVCNT)%nat);;
    '(u, rc) ← nn_usock_send_raw (set_out_iov (filter (λ v, v ≠ []) iov) x.1);
    if rc =? 0 then usock_raise UE_sent (u, x.2) NN_USOCK_SENT
    else if negb (rc =? - EAGAIN) then
      nn_assert (rc =? - ECONNRESET);; usock_action (u, x.2) NN_USOCK_ACTION_ERROR
    else u ← worker_execute NN_USOCK_SRC_TASK_SEND u; Ret (u, x.2).

Definition nn_usock_recv (x : usock_ctx) (len : Z) : outcome usock_ctx :=
  if negb (u_state x.1 =? NN_USOCK_STATE_ACTIVE) then usock_action x NN_USOCK_ACTION_ERROR
  else
    '(u, got, rc) ← nn_usock_recv_raw x.1 len;
    if rc <? 0 then
      nn_assert (rc =? - ECONNRESET);; usock_action (u, x.2) NN_USOCK_ACTION_ERROR
    else if Z.of_nat (length got) =? len then
      usock_raise UE_received (set_req got 0 u, x.2) NN_USOCK_RECEIVED
    else
      u ← worker_execute NN_USOCK_SRC_TASK_RECV (set_req got (len - Z.of_nat (length got)) u);
      Ret (u, x.2).

(** ** The worker thread: the next task, or an event of the poller *)

Inductive ustep : Set := U_task | U_in | U_out | U_err.

Definition usock_step (x : usock_ctx) (s : ustep) : outcome usock_ctx :=
  match s with
  | U_task =>
      match u_tasks x.1 with
      | [] => Fail Crash
      | t :: ts => usock_feed (on_usock (set_u_tasks ts) x) t NN_WORKER_TASK_EXECUTE P_task
      end
  | U_in => usock_feed x NN_USOCK_SRC_FD NN_WORKER_FD_IN P_null
  | U_out => usock_feed x NN_USOCK_SRC_FD NN_WORKER_FD_OUT P_null
  | U_err => usock_feed x NN_USOCK_SRC_FD NN_WORKER_FD_ERR P_null
  end.

(** The poller reports what it was asked for, and errors at any time. *)
Definition usock_ready (u : nn_usock) (s : ustep) : bool :=
  match s with
  | U_task => negb (bool_decide (u_tasks u = []))
  | U_in => w_reg u && w_in u
  | U_out => w_reg u && w_out u
  | U_err => w_reg u
  end.

End code.
