(* ===== verification/UsockSafe.v ===== *)
(** * Sockets: what their owner can rely on

    A connected socket under any behaviour of the operating system.  [u_ok] is its
    invariant, [rx_ok] and [tx_ok] say what it does for the owner: a request is
    answered by exactly the next bytes of the stream, whatever pieces they come
    in; a message is sent completely before NN_USOCK_SENT is raised. *)
From S2P Require Import Prelude Chunk Fsm Usock.

(** ** The batch buffer *)

(** The bytes that were read from the system and not handed out yet. *)
Definition unread (u : nn_usock) : list Z :=
  match batch u with
  | None => []
  | Some b => take (Z.to_nat (batch_len u - batch_pos u)) (drop (Z.to_nat (batch_pos u)) b)
  end.

Definition batch_ok (u : nn_usock) : Prop :=
  0 ≤ batch_pos u ≤ batch_len u ∧
  match batch u with
  | None => batch_len u = 0
  | Some b => length b = 2048%nat ∧ bytes b ∧ batch_len u ≤ 2048
  end.

Definition rx_bytes (k : kernel) : Prop :=
  ∀ l, R_data l ∈ k_rx k → bytes l.

Lemma recvmsg_ok k n r k' : recvmsg k n = (r, k') → rx_bytes k → (0 < n)%nat →
  rx_bytes k' ∧ k_tx k' = k_tx k ∧ k_written k' = k_written k ∧
  ∃ l, k_read k' = k_read k ++ l ∧ (length l ≤ n)%nat ∧ bytes l ∧
    (r = Sys_ok l ∨ l = [] ∧ (r = Sys_again ∨ r = Sys_fail)).
Proof.
  unfold recvmsg, rx_bytes. intros E Hk Hn. destruct (k_rx k) as [|[l|] rest] eqn:Ek.
  - injection E as <- <-. rewrite Ek. split_and!; [done..|]. exists []. rewrite app_nil_r. cbn.
    split_and!; [done|lia|constructor|by auto].
  - destruct l as [|b l].
    + injection E as <- <-. rewrite Ek. split_and!; [done..|]. exists []. rewrite app_nil_r. cbn.
      split_and!; [done|lia|constructor|by auto].
    + assert (bytes (b :: l)) as Hb by (apply Hk; left).
      injection E as <- <-. cbn [k_rx k_tx k_read k_written]. split.
      { intros l' Hl'. destruct (drop n (b :: l)) eqn:Ed; [by apply Hk; right|].
        apply elem_of_cons in Hl' as [[= ->]|?]; [|by apply Hk; right]. rewrite <- Ed. by apply bytes_drop. }
      split_and!; [done..|]. eexists. split_and!; [done|rewrite length_take; lia|by apply bytes_take|by auto].
  - injection E as <- <-. rewrite Ek. split_and!; [done..|]. exists []. rewrite app_nil_r. cbn.
    split_and!; [done|lia|constructor|by auto].
Qed.

(** The batch buffer after [batch_init]. *)
Definition has_batch (u : nn_usock) (b : list Z) : Prop :=
  batch u = Some b ∧ length b = 2048%nat ∧ bytes b ∧ 0 ≤ batch_pos u ≤ batch_len u ∧ batch_len u ≤ 2048.

Lemma has_batch_ok u b : has_batch u b → batch_ok u.
Proof. intros (Hu & Hl & Hb & Hp & Hle). split; [done|]. by rewrite Hu. Qed.

Lemma unread_split u b n : has_batch u b → (n ≤ Z.to_nat (batch_len u - batch_pos u))%nat →
  unread u = take n (drop (Z.to_nat (batch_pos u)) b) ++
    unread (set_batch (batch u) (batch_len u) (batch_pos u + Z.of_nat n) u) ∧
  (Z.to_nat (batch_pos u) + n ≤ length b)%nat.
Proof.
  intros (Hu & Hl & _ & Hp & Hle) Hn. split; [|lia]. unfold unread. usock_simpl. rewrite Hu.
  set (m := Z.to_nat (batch_len u - batch_pos u)) in *.
  rewrite <- (take_drop n (take m _)) at 1. rewrite take_take, Nat.min_l by done. f_equal.
  replace m with (n + (m - n))%nat at 1 by lia. rewrite <- take_drop_commute, drop_drop. subst m.
  f_equal; [lia|]. f_equal. lia.
Qed.

Lemma batch_take_ok u b len : has_batch u b → 0 < len →
  ∃ got n, batch_take u b len =
    Ret (set_batch (batch u) (batch_len u) (batch_pos u + Z.of_nat n) u, got, len - Z.of_nat n) ∧
    length got = n ∧ bytes got ∧ Z.of_nat n ≤ len ∧ (n ≤ Z.to_nat (batch_len u - batch_pos u))%nat ∧
    unread u = got ++ unread (set_batch (batch u) (batch_len u) (batch_pos u + Z.of_nat n) u) ∧
    (Z.of_nat n < len → n = Z.to_nat (batch_len u - batch_pos u)).
Proof.
  intros Hu Hlen. pose proof Hu as (Hb & Hl & Bb & Hp & Hle). unfold batch_take.
  set (n := Z.to_nat (batch_len u - batch_pos u)).
  assert (u64 (batch_len u - batch_pos u) = Z.of_nat n) as ->.
  { unfold u64. rewrite Z.mod_small by lia. lia. }
  destruct (Z.eqb_spec (Z.of_nat n) 0) as [Hn|Hn].
  - exists [], 0%nat. cbn [length Z.of_nat]. rewrite Z.add_0_r, Z.sub_0_r.
    assert (set_batch (batch u) (batch_len u) (batch_pos u) u = u) as -> by by destruct u.
    split_and!; try done; [constructor|lia..].
  - set (k := Nat.min (Z.to_nat len) n).
    assert ((if len <? Z.of_nat n then len else Z.of_nat n) = Z.of_nat k) as ->
      by (subst k; destruct (Z.ltb_spec len (Z.of_nat n)); lia).
    destruct (unread_split u b k Hu) as [Hun Hk]; [lia|]. rewrite Nat2Z.id. unfold read_at.
    rewrite decide_True by lia. step. eexists _, k. split; [done|].
    split; [rewrite length_take, length_drop; lia|]. split; [by apply bytes_take, bytes_drop|].
    split; [lia|]. split; [lia|]. split; [done|lia].
Qed.

Lemma batch_fill_ok u b data want : has_batch u b → bytes data → (length data ≤ 2048)%nat → 0 < want →
  ∃ b' d n, batch_fill u b data want = Ret (set_batch (Some b') (Z.of_nat (length data)) (Z.of_nat n) u, d) ∧
    has_batch (set_batch (Some b') (Z.of_nat (length data)) (Z.of_nat n) u) b' ∧
    length d = n ∧ bytes d ∧ Z.of_nat n ≤ want ∧
    data = d ++ unread (set_batch (Some b') (Z.of_nat (length data)) (Z.of_nat n) u) ∧
    (Z.of_nat n < want → n = length data).
Proof.
  intros (Hb & Hl & Bb & _) Bd Hd Hw. unfold batch_fill, write_at. rewrite decide_True by lia. step.
  rewrite take_0. cbn [app Nat.add]. set (n := Nat.min (Z.to_nat want) (length data)).
  assert ((if want <? Z.of_nat (length data) then want else Z.of_nat (length data)) = Z.of_nat n) as ->
    by (subst n; destruct (Z.ltb_spec want (Z.of_nat (length data))); lia).
  assert (length (data ++ drop (length data) b) = 2048%nat) as Hl' by (rewrite length_app, length_drop; lia).
  unfold read_at. rewrite decide_True by (subst n; lia). step. eexists _, _, n. split; [by rewrite Nat2Z.id|].
  rewrite drop_0, take_app_le by (subst n; lia).
  split; [split_and!; usock_simpl; try done; [by apply bytes_app, bytes_drop|subst n; lia..]|].
  split; [rewrite length_take; subst n; lia|]. split; [by apply bytes_take|]. split; [subst n; lia|].
  split; [|subst n; lia]. unfold unread. usock_simpl. rewrite Nat2Z.id, drop_app_le by lia.
  rewrite take_app_le by (rewrite length_drop; lia).
  rewrite (take_ge (drop n data)) by (rewrite length_drop; lia). by rewrite take_drop.
Qed.

(** The fields a receive changes. *)
Definition received_by (u u' : nn_usock) : Prop :=
  ∃ b l p os, u' = set_u_os os (set_batch b l p u) ∧
    k_tx os = k_tx (u_os u) ∧ k_written os = k_written (u_os u).

(** The outcome of [nn_usock_recv_raw]: the bytes handed out are the next ones of
    the stream; an answer that is short means that nothing is left over. *)
Definition raw_received (u u' : nn_usock) (got : list Z) (rc len : Z) : Prop :=
  received_by u u' ∧ batch_ok u' ∧ rx_bytes (u_os u') ∧ batch u' ≠ None ∧
  Z.of_nat (length got) ≤ len ∧ bytes got ∧
  (∃ l, k_read (u_os u') = k_read (u_os u) ++ l ∧ unread u ++ l = got ++ unread u') ∧
  (rc = - ECONNRESET ∨ rc = 0 ∧ (Z.of_nat (length got) < len → unread u' = [])).

Section code.
Context (alloc : Z → bool) (junk : nat → Z) (Hjunk : ∀ i, is_byte (junk i)).

Lemma batch_init_ok u : batch_ok u →
  (batch u = None ∧ alloc NN_USOCK_BATCH_SIZE = false ∧ batch_init alloc junk u = Fail Abort) ∨
  ∃ b, let u' := set_batch (Some b) (batch_len u) (batch_pos u) u in
    batch_init alloc junk u = Ret (u', b) ∧ has_batch u' b ∧ unread u' = unread u.
Proof.
  intros [Hp Hb]. unfold batch_init. destruct (batch u) as [b|] eqn:Eb.
  - right. exists b. destruct Hb as (Hl & Hbb & Hle).
    assert (set_batch (Some b) (batch_len u) (batch_pos u) u = u) as -> by (destruct u; cbn in *; by subst).
    done.
  - destruct (alloc NN_USOCK_BATCH_SIZE) eqn:Ea; [right|by left]. eexists. split; [done|]. split.
    + split; [done|]. split; [by rewrite length_fmap, length_seq|].
      split; [apply Forall_fmap, Forall_forall; intros i _; apply Hjunk|]. usock_simpl. lia.
    + unfold unread. usock_simpl. rewrite Eb. by replace (batch_len u - batch_pos u) with 0 by lia.
Qed.

Lemma recv_raw_ok u len : batch_ok u → rx_bytes (u_os u) → 0 < len →
  (batch u = None ∧ alloc NN_USOCK_BATCH_SIZE = false ∧ nn_usock_recv_raw alloc junk u len = Fail Abort) ∨
  ∃ u' got rc, nn_usock_recv_raw alloc junk u len = Ret (u', got, rc) ∧ raw_received u u' got rc len.
Proof.
  intros Hu Hk Hlen. unfold nn_usock_recv_raw.
  destruct (batch_init_ok u Hu) as [(Hn & Ha & ->)|(b & -> & Hb & Hun)]; [by left|right]. step.
  destruct (batch_take_ok _ b len Hb Hlen) as (got & n & -> & Hgn & Bgot & Hnl & Hnn & Hsplit & Hshort).
  step. rewrite Hun in Hsplit. pose proof Hb as (_ & Hlb & Bb & Hp & Hle). usock_simpl.
  set (u1 := set_batch (Some b) (batch_len u) (batch_pos u + Z.of_nat n) u) in *.
  change (set_batch (Some b) (batch_len u) (batch_pos u + Z.of_nat n)
            (set_batch (Some b) (batch_len u) (batch_pos u) u)) with u1 in *.
  assert (has_batch u1 b) as Hu1.
  { split; [done|]. split; [done|]. split; [done|]. unfold u1. usock_simpl. lia. }
  destruct (Z.eqb_spec (len - Z.of_nat n) 0) as [Hz|Hz].
  { eexists _, _, _. split; [done|]. split; [by exists (Some b), (batch_len u), (batch_pos u + Z.of_nat n), (u_os u)|].
    split; [by eapply has_batch_ok|]. split; [done|]. split; [done|]. split; [lia|]. split; [done|].
    split; [exists []; by rewrite !app_nil_r|]. right. split; [done|lia]. }
  assert (unread u1 = []) as Hu1e.
  { unfold unread, u1. usock_simpl. by replace (batch_len u - (batch_pos u + Z.of_nat n)) with 0 by lia. }
  set (w := len - Z.of_nat n) in *. rewrite Hu1e, app_nil_r in Hsplit.
  match goal with |- context [recvmsg ?k ?n] => destruct (recvmsg k n) as [r os] eqn:Er end.
  apply recvmsg_ok in Er as (Hk' & Htx & Hwr & l & Hrd & Hll & Bl & Hr); [|done|].
  2: { unfold NN_USOCK_BATCH_SIZE. destruct (Z.ltb_spec 2048 w); lia. }
  assert (received_by u (set_u_os os u1)) as Hby by (by exists (Some b), (batch_len u), (batch_pos u + Z.of_nat n), os).
  assert (unread (set_u_os os u1) = []) as Hos by done.
  assert (∀ rc, rc = - ECONNRESET ∨ rc = 0 → l = [] → raw_received u (set_u_os os u1) got rc len) as Hnone.
  { intros rc Hrc ->. split; [done|]. split; [by apply (has_batch_ok _ b)|]. split; [done|]. split; [done|].
    split; [lia|]. split; [done|]. rewrite Hos, Hsplit.
    split; [exists []; split; [exact Hrd|by rewrite !app_nil_r]|]. naive_solver. }
  assert (∃ u' got' rc,
    (if NN_USOCK_BATCH_SIZE <? w then Ret (set_u_os os u1, got ++ l, 0)
     else '(self, d) ← batch_fill (set_u_os os u1) b l w; Ret (self, got ++ d, 0)) = Ret (u', got', rc) ∧
    raw_received u u' got' rc len) as Hdata.
  { destruct (Z.ltb_spec NN_USOCK_BATCH_SIZE w) as [Hbig|Hbig].
    - eexists _, _, _. split; [done|]. split; [done|]. split; [by apply (has_batch_ok _ b)|]. split; [done|].
      split; [done|]. split; [rewrite length_app; lia|]. split; [by apply bytes_app|]. rewrite Hos.
      split; [exists l; by rewrite Hsplit, app_nil_r|]. by right.
    - destruct (batch_fill_ok (set_u_os os u1) b l w) as (b' & d & k & -> & Hb' & Hd & Bd & Hkw & Hl & Hks);
        [done|done|unfold NN_USOCK_BATCH_SIZE in *; lia|lia|].
      step. eexists _, _, _. split; [done|]. split; [by eexists _, _, _, os|]. split; [by eapply has_batch_ok|].
      split; [done|]. split; [done|]. split; [rewrite length_app; lia|]. split; [by apply bytes_app|].
      split; [exists l; split; [done|]; by rewrite Hsplit, <- app_assoc, <- Hl|].
      right. split; [done|]. rewrite length_app. intros Hlt.
      assert (k = length l) as Hk1 by (apply Hks; lia).
      apply (f_equal length) in Hl. rewrite length_app in Hl. apply length_zero_iff_nil. lia. }
  destruct Hr as [->|[Hl [-> | ->]]].
  - destruct l as [|x l]; [|exact Hdata]. eexists _, _, _. split; [done|]. apply Hnone; auto.
  - subst l. exact Hdata.
  - eexists _, _, _. split; [done|]. apply Hnone; auto.
Qed.

End code.

(** ** Sending *)

Definition pieces (iov : list (list Z)) : Prop := Forall (λ v, v ≠ []) iov.

Lemma concat_filter (iov : list (list Z)) : concat (filter (λ v, v ≠ []) iov) = concat iov.
Proof.
  induction iov as [|v iov IH]; [done|]. rewrite filter_cons. case_decide as Hv; cbn [concat]; rewrite IH; [done|].
  by rewrite Hv.
Qed.

Lemma adjust_ok iov : pieces iov → ∀ n, (n ≤ length (concat iov))%nat →
  ∃ iov' rc, adjust_iov (Z.of_nat n) iov = Ret (iov', rc) ∧ pieces iov' ∧
    concat iov = take n (concat iov) ++ concat iov' ∧
    (rc = 0 ∧ iov' = [] ∨ rc = - EAGAIN ∧ iov' ≠ []).
Proof.
  induction 1 as [|v iov Hv Hp IH]; intros n Hn.
  { cbn in Hn. assert (n = 0%nat) as -> by lia. exists [], 0. split; [done|]. split; [constructor|]. split; [done|by left]. }
  cbn [adjust_iov]. destruct (Z.eqb_spec (Z.of_nat n) 0) as [Hz|Hz].
  { assert (n = 0%nat) as -> by lia. eexists _, _. split; [done|]. split; [by constructor|].
    rewrite take_0. split; [done|]. by right. }
  cbn [concat] in *. rewrite length_app in Hn. destruct (Z.leb_spec (Z.of_nat (length v)) (Z.of_nat n)) as [Hle|Hlt].
  - destruct iov as [|v' iov].
    + cbn in *. assert (n = length v) as -> by lia. rewrite Z.eqb_refl. step. exists [], 0.
      rewrite !app_nil_r, firstn_all. split; [done|]. split; [constructor|]. split; [done|by left].
    + destruct (IH (n - length v)%nat) as (iov' & rc & E & Hp' & Hc & Hr); [lia|].
      rewrite Nat2Z.inj_sub in E by lia. rewrite E. eexists _, _. split; [done|]. split; [done|].
      split; [|done]. rewrite take_app_ge, <- app_assoc by lia. by f_equal.
  - eexists _, _. split; [done|]. rewrite Nat2Z.id. split.
    { constructor; [|done]. intros Hd. apply (f_equal length) in Hd. rewrite length_drop in Hd. cbn in Hd. lia. }
    cbn [concat]. rewrite take_app_le by lia. split; [by rewrite app_assoc, take_drop|]. by right.
Qed.

Lemma sendmsg_ok k data r k' : sendmsg k data = (r, k') →
  k_rx k' = k_rx k ∧ k_read k' = k_read k ∧
  (k' = k ∧ r = Sys_fail ∨ k' = k ∧ r = Sys_again ∨
   ∃ n, r = Sys_ok (take n data) ∧ k_written k' = k_written k ++ take n data).
Proof.
  unfold sendmsg. destruct (k_tx k) as [|[n|] rest] eqn:Ek; [destruct data as [|b data]|..]; intros [= <- <-].
  - split_and!; [done..|]. right. right. exists 0%nat. by rewrite app_nil_r.
  - split_and!; [done..|]. by right; left.
  - split_and!; [done..|]. right. right. by exists n.
  - split_and!; [done..|]. by left.
Qed.

Lemma send_raw_ok u : pieces (out_iov u) →
  ∃ iov os rc, nn_usock_send_raw u = Ret (set_out_iov iov (set_u_os os u), rc) ∧ pieces iov ∧
    k_rx os = k_rx (u_os u) ∧ k_read os = k_read (u_os u) ∧
    k_written os ++ concat iov = k_written (u_os u) ++ concat (out_iov u) ∧
    (rc = 0 ∧ iov = [] ∨ rc = - EAGAIN ∧ iov ≠ [] ∨ rc = - ECONNRESET).
Proof.
  intros Hp. unfold nn_usock_send_raw. destruct (sendmsg (u_os u) (concat (out_iov u))) as [r os] eqn:E.
  apply sendmsg_ok in E as (Hrx & Hrd & [[-> ->]|[[-> ->]|(n & -> & Hw)]]).
  - exists (out_iov u), (u_os u), (- ECONNRESET). split; [by destruct u|]. auto 10.
  - usock_simpl. destruct (adjust_ok (out_iov u) Hp 0) as (iov & rc & E & Hi & Hc & Hr); [lia|].
    change (Z.of_nat 0) with 0 in E. rewrite E. step.
    eexists _, _, _. split; [done|]. rewrite take_0 in Hc. cbn in Hc. rewrite Hc. naive_solver.
  - usock_simpl. set (m := Nat.min n (length (concat (out_iov u)))).
    rewrite length_take. destruct (adjust_ok (out_iov u) Hp m) as (iov & rc & E & Hi & Hc & Hr); [lia|].
    fold m. rewrite E. step. eexists _, _, _. split; [done|]. split; [done|]. split; [done|]. split; [done|].
    split; [|naive_solver]. rewrite Hw, <- app_assoc. f_equal. rewrite Hc at 2. f_equal.
    subst m. destruct (decide (n ≤ length (concat (out_iov u)))%nat); [by rewrite Nat.min_l|].
    rewrite Nat.min_r, !take_ge by lia. done.
Qed.

(** ** The invariant *)

Definition uobjs (q : list evt) : list uobj :=
  omap (λ x, match x with E_usock o _ _ => Some o | _ => None end) q.

Lemma uobjs_app q1 q2 : uobjs (q1 ++ q2) = uobjs q1 ++ uobjs q2.
Proof. apply omap_app. Qed.

Lemma existsb_uobjs o q : existsb (is_usock_obj o) q = bool_decide (o ∈ uobjs q).
Proof.
  induction q as [|x q IH]; [done|]. cbn [existsb]. rewrite IH. destruct x as [o' to t| | | | |]; [|done..].
  change (uobjs (E_usock o' to t :: q)) with (o' :: uobjs q). cbn [is_usock_obj].
  destruct (decide (o = o')) as [->|Hne].
  - rewrite (bool_decide_true (o' = o')) by done. cbn [orb]. symmetry. apply bool_decide_true. by left.
  - rewrite (bool_decide_false (o = o')) by done. cbn [orb]. apply bool_decide_ext. rewrite elem_of_cons. naive_solver.
Qed.

Definition active (u : nn_usock) : Prop := u_state u = NN_USOCK_STATE_ACTIVE.

(** The events a socket may have raised. *)
Definition uev_ok (u : nn_usock) (o : uobj) (type : Z) : Prop :=
  match o with
  | UE_sent => type = NN_USOCK_SENT
  | UE_received => type = NN_USOCK_RECEIVED
  | UE_error => (u_state u = NN_USOCK_STATE_REMOVING_FD ∧ type = NN_USOCK_SHUTDOWN) ∨
                (u_state u = NN_USOCK_STATE_DONE ∧ type = NN_USOCK_ERROR)
  | _ => False
  end.

Notation t_conn := NN_USOCK_SRC_TASK_CONNECTED.
Notation t_send := NN_USOCK_SRC_TASK_SEND.
Notation t_recv := NN_USOCK_SRC_TASK_RECV.
Notation t_stop := NN_USOCK_SRC_TASK_STOP.

Record u_ok (u : nn_usock) (q : list evt) : Prop := {
  uo_fsm : u_fsm u = NN_FSM_STATE_ACTIVE;
  uo_state : active u ∨ u_state u = NN_USOCK_STATE_REMOVING_FD ∨ u_state u = NN_USOCK_STATE_DONE;
  uo_batch : batch_ok u;
  uo_rx : rx_bytes (u_os u);
  uo_dst : bytes (in_dst u);
  uo_nodup : NoDup (u_tasks u);
  uo_tasks : ∀ t, t ∈ u_tasks u → t = t_conn ∨ t = t_send ∨ t = t_recv ∨ t = t_stop;
  uo_conn : t_conn ∈ u_tasks u →
    (∃ ts, u_tasks u = t_conn :: ts) ∧ w_reg u = false ∧ w_in u = false ∧ w_out u = false;
  uo_stop : t_stop ∈ u_tasks u ↔ u_state u = NN_USOCK_STATE_REMOVING_FD;
  uo_ev : ∀ o to t, E_usock o to t ∈ q → to = u_owner u ∧ uev_ok u o t;
  uo_evs : NoDup (uobjs q);
  uo_last : ∀ l1 l2, uobjs q = l1 ++ UE_error :: l2 → l2 = [];
}.

(** *** Receiving: [C] has been handed to the owner, [w] is what it waits for *)

Definition free_in (u : nn_usock) : Prop := t_recv ∉ u_tasks u ∧ w_in u = false.
Definition busy_in (u : nn_usock) : Prop :=
  0 < in_len u < 2 ^ 64 ∧ unread u = [] ∧
  (t_recv ∈ u_tasks u ∧ w_in u = false ∨ t_recv ∉ u_tasks u ∧ w_in u = true).

Definition rx_ok (u : nn_usock) (q : list evt) (C : list Z) (w : option Z) : Prop :=
  C `prefix_of` k_read (u_os u) ∧
  match w with
  | None => UE_received ∉ uobjs q ∧ (active u → free_in u ∧ k_read (u_os u) = C ++ unread u)
  | Some n =>
      (UE_received ∈ uobjs q ∧ Z.of_nat (length (in_dst u)) = n ∧ C ++ in_dst u `prefix_of` k_read (u_os u) ∧
       (active u → free_in u ∧ k_read (u_os u) = C ++ in_dst u ++ unread u)) ∨
      (UE_received ∉ uobjs q ∧
       (active u → busy_in u ∧ Z.of_nat (length (in_dst u)) + in_len u = n ∧
          k_read (u_os u) = C ++ in_dst u ++ unread u))
  end.

(** *** Sending: [D] has been handed over, [b] says whether the owner waits *)

Definition free_out (u : nn_usock) : Prop := t_send ∉ u_tasks u ∧ w_out u = false ∧ out_iov u = [].
Definition busy_out (u : nn_usock) : Prop :=
  out_iov u ≠ [] ∧ pieces (out_iov u) ∧
  (t_send ∈ u_tasks u ∧ w_out u = false ∨ t_send ∉ u_tasks u ∧ w_out u = true).

Definition tx_ok (u : nn_usock) (q : list evt) (D : list Z) (b : bool) : Prop :=
  k_written (u_os u) `prefix_of` D ∧
  if b then
    (UE_sent ∈ uobjs q ∧ k_written (u_os u) = D ∧ (active u → free_out u)) ∨
    (UE_sent ∉ uobjs q ∧ (active u → busy_out u ∧ k_written (u_os u) ++ concat (out_iov u) = D))
  else UE_sent ∉ uobjs q ∧ (active u → free_out u ∧ k_written (u_os u) = D).

(** What does not concern one direction preserves it. *)
Lemma rx_frame u q u' q' C w :
  rx_ok u q C w → k_read (u_os u) `prefix_of` k_read (u_os u') → in_dst u' = in_dst u →
  (UE_received ∈ uobjs q' ↔ UE_received ∈ uobjs q) →
  (active u' → active u ∧ in_len u' = in_len u ∧ unread u' = unread u ∧ w_in u' = w_in u ∧
     (t_recv ∈ u_tasks u' ↔ t_recv ∈ u_tasks u) ∧ k_read (u_os u') = k_read (u_os u)) →
  rx_ok u' q' C w.
Proof.
  intros [Hp Hw] Hr Hd Hq Ha. split; [by etrans|]. destruct w as [n|].
  - destruct Hw as [(Hin & Hn & Hc & Hact)|(Hin & Hact)].
    + left. rewrite Hd, Hq. split; [done|]. split; [done|]. split; [by etrans|].
      intros (Hu & _ & Hun & Hwi & Ht & Hk)%Ha. rewrite Hun, Hk. unfold free_in. rewrite Hwi, Ht. by apply Hact.
    + right. rewrite Hd, Hq. split; [done|].
      intros (Hu & Hl & Hun & Hwi & Ht & Hk)%Ha. rewrite Hun, Hk. unfold busy_in. rewrite Hwi, Ht, Hl, Hun.
      by apply Hact.
  - rewrite Hq. destruct Hw as [Hin Hact]. split; [done|]. intros (Hu & _ & Hun & Hwi & Ht & Hk)%Ha.
    rewrite Hun, Hk. unfold free_in. rewrite Hwi, Ht. by apply Hact.
Qed.

Lemma tx_frame u q u' q' D b :
  tx_ok u q D b → k_written (u_os u') = k_written (u_os u) →
  (UE_sent ∈ uobjs q' ↔ UE_sent ∈ uobjs q) →
  (active u' → active u ∧ out_iov u' = out_iov u ∧ w_out u' = w_out u ∧
     (t_send ∈ u_tasks u' ↔ t_send ∈ u_tasks u)) →
  tx_ok u' q' D b.
Proof.
  intros [Hp Hw] Hr Hq Ha. unfold tx_ok. rewrite Hr. split; [done|]. destruct b; rewrite Hq.
  - destruct Hw as [(Hin & Hn & Hact)|(Hin & Hact)]; [left|right]; split; try done; [split; [done|]|];
      intros (Hu & Ho & Hwo & Ht)%Ha; unfold free_out, busy_out; rewrite Ho, Hwo, Ht; by apply Hact.
  - destruct Hw as [Hin Hact]. split; [done|]. intros (Hu & Ho & Hwo & Ht)%Ha.
    unfold free_out. rewrite Ho, Hwo, Ht. by apply Hact.
Qed.

(** *** Events and tasks *)

Lemma elem_uobjs o q : o ∈ uobjs q → ∃ to t, E_usock o to t ∈ q.
Proof.
  intros (x & Hx & E)%list_elem_of_omap. destruct x as [o' to t| | | | |]; try done.
  injection E as ->. by exists to, t.
Qed.

Lemma active_no_error u q : u_ok u q → active u → UE_error ∉ uobjs q.
Proof.
  intros Hu Ha (to & t & [_ He]%(uo_ev _ _ Hu))%elem_uobjs. unfold active in Ha. cbn in He. rewrite Ha in He.
  by destruct He as [[? _]|[? _]].
Qed.

(** What an operation of a socket does to the queue. *)
Definition raised (u : nn_usock) (q q' : list evt) : Prop :=
  q' = q ∨ ∃ o t, q' = q ++ [E_usock o (u_owner u) t].

Definition u_post (u : nn_usock) (q : list evt) (u' : nn_usock) (q' : list evt) : Prop :=
  u_ok u' q' ∧ u_owner u' = u_owner u ∧ raised u q q'.

Lemma event_raised u q o t : u_ok u q → o ∉ uobjs q → UE_error ∉ uobjs q → uev_ok u o t →
  usock_raise o (u, q) t = Ret (u, q ++ [E_usock o (u_owner u) t]) ∧
  u_ok u (q ++ [E_usock o (u_owner u) t]) ∧
  uobjs (q ++ [E_usock o (u_owner u) t]) = uobjs q ++ [o].
Proof.
  intros Hu Ho He Ht. unfold usock_raise. cbn [fst snd].
  rewrite existsb_uobjs, bool_decide_false by done. split; [done|].
  assert (uobjs (q ++ [E_usock o (u_owner u) t]) = uobjs q ++ [o]) as Hq by (by rewrite uobjs_app).
  split; [|done]. destruct Hu as [? ? ? ? ? ? ? ? ? Hev Hevs Hlast]. constructor; try done.
  - intros o' to t' [Hin|Hin]%elem_of_app; [by apply Hev|].
    apply list_elem_of_singleton in Hin as [= -> -> ->]. done.
  - rewrite Hq. apply NoDup_app. split; [done|]. split; [|apply NoDup_singleton].
    intros x Hx ->%list_elem_of_singleton. done.
  - intros l1 l2. rewrite Hq. intros E. destruct l2 as [|x l2 _] using rev_ind; [done|].
    rewrite app_comm_cons, app_assoc in E. apply app_inj_tail in E as [E _]. destruct He. rewrite E. set_solver.
Qed.

Lemma u_ok_tasks u q t : u_ok u q → t = t_send ∨ t = t_recv → t ∉ u_tasks u →
  worker_execute t u = Ret (set_u_tasks (u_tasks u ++ [t]) u) ∧ u_ok (set_u_tasks (u_tasks u ++ [t]) u) q.
Proof.
  intros Hu Ht Hn. unfold worker_execute. rewrite bool_decide_true by done. split; [done|].
  destruct Hu as [? ? ? ? ? Hnd Htk Hc Hs ? ? ?]. constructor; usock_simpl; try done.
  - apply NoDup_app. split; [done|]. split; [|apply NoDup_singleton]. intros x Hx ->%list_elem_of_singleton. done.
  - intros x [Hx| ->%list_elem_of_singleton]%elem_of_app; [by apply Htk|]. naive_solver.
  - intros [Hx|Hx%list_elem_of_singleton]%elem_of_app; [|exfalso; naive_solver].
    destruct (Hc Hx) as ((ts & ->) & ?). split; [|done]. by eexists.
  - rewrite elem_of_app, list_elem_of_singleton. rewrite Hs. naive_solver.
Qed.

(** A receive leaves a well-formed socket. *)
Lemma u_ok_received u q u' dst len : u_ok u q → received_by u u' → batch_ok u' → rx_bytes (u_os u') →
  bytes dst → u_ok (set_req dst len u') q.
Proof.
  intros [] (b & l & p & os & -> & _) Hb Hr Hd. by constructor; usock_simpl.
Qed.

Lemma set_req_id u : set_req (in_dst u) (in_len u) u = u.
Proof. by destruct u. Qed.

Section ops.
Context (alloc : Z → bool) (junk : nat → Z) (Hjunk : ∀ i, is_byte (junk i)).
Context (accepting : usock_ctx → Z → Z → srcptr → outcome usock_ctx) (sockerr : Z).

Notation feed := (usock_feed alloc junk accepting sockerr).

(** Evaluates the dispatch on a known state. *)
Lemma feed_connected x src type ptr : u_fsm x.1 = NN_FSM_STATE_ACTIVE → active x.1 →
  src = NN_FSM_ACTION ∨ src = NN_USOCK_SRC_FD ∨ src = t_stop →
  feed x src type ptr = usock_active alloc junk x src type.
Proof.
  unfold active. intros Hf Hs Hsrc. unfold usock_feed, nn_fsm_feed. rewrite Hf. cbn [negb].
  unfold nn_usock_handler. by destruct Hsrc as [-> |[-> | ->]]; cbn -[usock_active usock_removing_fd]; rewrite Hs.
Qed.

Lemma feed_removing x src type ptr : u_fsm x.1 = NN_FSM_STATE_ACTIVE → u_state x.1 = NN_USOCK_STATE_REMOVING_FD →
  src = NN_FSM_ACTION ∨ src = NN_USOCK_SRC_FD ∨ src = t_stop →
  feed x src type ptr = usock_removing_fd x src type.
Proof.
  unfold active. intros Hf Hs Hsrc. unfold usock_feed, nn_fsm_feed. rewrite Hf. cbn [negb].
  unfold nn_usock_handler. by destruct Hsrc as [-> |[-> | ->]]; cbn -[usock_active usock_removing_fd]; rewrite Hs.
Qed.

Lemma feed_done x src type ptr : u_fsm x.1 = NN_FSM_STATE_ACTIVE → u_state x.1 = NN_USOCK_STATE_DONE →
  src = NN_FSM_ACTION ∨ src = NN_USOCK_SRC_FD ∨ src = t_stop →
  feed x src type ptr = Ret x.
Proof.
  unfold active. intros Hf Hs Hsrc. unfold usock_feed, nn_fsm_feed. rewrite Hf. cbn [negb].
  unfold nn_usock_handler. by destruct Hsrc as [-> |[-> | ->]]; cbn -[usock_active usock_removing_fd]; rewrite Hs.
Qed.

(** A broken socket: only the state, the tasks, the poller and the descriptor
    change, and at most an error event is raised. *)
Definition breaks (u : nn_usock) (q : list evt) (u' : nn_usock) (q' : list evt) : Prop :=
  u_post u q u' q' ∧ ¬ active u' ∧ in_dst u' = in_dst u ∧ u_os u' = u_os u ∧
  ∀ o, o ≠ UE_error → o ∈ uobjs q' ↔ o ∈ uobjs q.

Lemma breaks_rx u q u' q' C w : breaks u q u' q' → rx_ok u q C w → rx_ok u' q' C w.
Proof.
  intros (_ & Hn & Hd & Ho & Hq) Hrx. eapply rx_frame; [done|by rewrite Ho|done|by apply Hq|done].
Qed.

Lemma breaks_tx u q u' q' D b : breaks u q u' q' → tx_ok u q D b → tx_ok u' q' D b.
Proof.
  intros (_ & Hn & Hd & Ho & Hq) Htx. eapply tx_frame; [done|by rewrite Ho|by apply Hq|done].
Qed.

Lemma snoc_error o q : o ≠ UE_error → o ∈ uobjs q ++ [UE_error] ↔ o ∈ uobjs q.
Proof. intros. rewrite elem_of_app, list_elem_of_singleton. naive_solver. Qed.

Lemma u_ok_broken u q st ts reg fd :
  u_ok u q → st = NN_USOCK_STATE_REMOVING_FD ∨ st = NN_USOCK_STATE_DONE → UE_error ∉ uobjs q →
  (reg = w_reg u ∨ reg = false) →
  (st = NN_USOCK_STATE_REMOVING_FD → ts = u_tasks u ++ [t_stop] ∧ t_stop ∉ u_tasks u) →
  (st = NN_USOCK_STATE_DONE → ts = u_tasks u ∧ t_stop ∉ u_tasks u) →
  u_ok (set_u_state st (set_u_fd fd (set_poll reg (w_in u) (w_out u) (set_u_tasks ts u)))) q.
Proof.
  intros Hu Hst He Hreg Hr Hd. pose proof (elem_uobjs UE_error q) as Heq.
  destruct Hu as [Hf Hs Hb Hrx Hdst Hnd Htk Hc Hstop Hev Hevs Hlast].
  assert (∀ t, t ∈ ts → t ∈ u_tasks u ∨ t = t_stop) as Hts.
  { intros t Ht. destruct Hst as [Hst|Hst]; [destruct (Hr Hst) as [-> _]|destruct (Hd Hst) as [-> _]]; [|by left].
    apply elem_of_app in Ht. rewrite list_elem_of_singleton in Ht. done. }
  constructor; usock_simpl; try done.
  - by right.
  - destruct Hst as [Hst|Hst]; [destruct (Hr Hst) as [-> Hn]|by destruct (Hd Hst) as [-> _]].
    apply NoDup_app. split; [done|]. split; [|apply NoDup_singleton]. by intros x Hx ->%list_elem_of_singleton.
  - intros t [Ht| ->]%Hts; [by apply Htk|auto].
  - intros [Ht|Ht]%Hts; [|done]. destruct (Hc Ht) as ((l & El) & Hw & Hi & Ho).
    split; [|by destruct Hreg as [-> | ->]].
    destruct Hst as [Hst|Hst]; [destruct (Hr Hst) as [-> _]|destruct (Hd Hst) as [-> _]]; rewrite El; by eexists.
  - destruct Hst as [Hst|Hst]; [destruct (Hr Hst) as [-> _]|destruct (Hd Hst) as [-> Hn]].
    + rewrite elem_of_app, list_elem_of_singleton. naive_solver.
    + rewrite Hst. split; [done|]. intros E. discriminate E.
  - intros o to t Hin. destruct (Hev o to t Hin) as [-> Ht]. split; [done|]. destruct o; try done.
    destruct He. apply list_elem_of_omap. by eexists.
Qed.

Lemma action_error_ok u q : u_ok u q →
  ∃ u' q', usock_action alloc junk accepting sockerr (u, q) NN_USOCK_ACTION_ERROR = Ret (u', q') ∧
    breaks u q u' q'.
Proof.
  intros Hu. unfold usock_action, nn_fsm_action.
  change (nn_fsm_feed _ _ _ (u, q) NN_FSM_ACTION NN_USOCK_ACTION_ERROR P_null)
    with (feed (u, q) NN_FSM_ACTION NN_USOCK_ACTION_ERROR P_null). cbn [nn_assert].
  change (0 <? NN_USOCK_ACTION_ERROR) with true. step.
  pose proof (uo_fsm _ _ Hu) as Hf. destruct (uo_state _ _ Hu) as [Hs|[Hs|Hs]].
  - rewrite feed_connected by (try done; by left). cbn [usock_active].
    change (usock_active alloc junk (u, q) NN_FSM_ACTION NN_USOCK_ACTION_ERROR)
      with (nn_usock_async_stop (set_u_state NN_USOCK_STATE_REMOVING_FD u, q)).
    pose proof (active_no_error u q Hu Hs) as He.
    assert (t_stop ∉ u_tasks u) as Hn.
    { rewrite (uo_stop _ _ Hu). unfold active in Hs. rewrite Hs. intros E. discriminate E. }
    unfold nn_usock_async_stop, worker_execute. usock_simpl. rewrite bool_decide_true by done. step.
    assert (u_ok (set_u_tasks (u_tasks u ++ [t_stop]) (set_u_state NN_USOCK_STATE_REMOVING_FD u)) q) as Hu'.
    { apply (u_ok_broken u q NN_USOCK_STATE_REMOVING_FD (u_tasks u ++ [t_stop]) (w_reg u) (u_fd u)); auto.
      intros E. discriminate E. }
    destruct (event_raised _ q UE_error NN_USOCK_SHUTDOWN Hu' He He) as (E & Hok & Hq); [by left|].
    eexists _, _. split; [exact E|]. split; [split; [exact Hok|]; split; [done|right; by eexists _, _]|].
    split; [intros E'; discriminate E'|]. split; [done|]. split; [done|].
    intros o Ho. rewrite Hq. by apply snoc_error.
  - rewrite feed_removing by (try done; by left). eexists _, _. split; [reflexivity|].
    split; [split; [done|]; split; [done|by left]|]. split; [|done].
    unfold active. usock_simpl. rewrite Hs. intros E; discriminate E.
  - rewrite feed_done by (try done; by left). eexists _, _. split; [reflexivity|].
    split; [split; [done|]; split; [done|by left]|]. split; [|done].
    unfold active. usock_simpl. rewrite Hs. intros E; discriminate E.
Qed.

(** Breaking on an event of the poller or of the worker, when nothing is queued. *)
Lemma usock_broken_ok u q : u_ok u q → active u → 
  ∃ u' q', usock_broken (u, q) = Ret (u', q') ∧ breaks u q u' q'.
Proof.
  intros Hu Hs. pose proof (active_no_error u q Hu Hs) as He.
  assert (t_stop ∉ u_tasks u) as Hn.
  { rewrite (uo_stop _ _ Hu). unfold active in Hs. rewrite Hs. intros E. discriminate E. }
  unfold usock_broken. usock_simpl.
  assert (u_ok (set_u_state NN_USOCK_STATE_DONE (set_u_fd false (nn_worker_rm_fd u))) q) as Hu'.
  { apply (u_ok_broken u q NN_USOCK_STATE_DONE (u_tasks u) false false); auto. intros E. discriminate E. }
  destruct (event_raised _ q UE_error NN_USOCK_ERROR Hu' He He) as (E & Hok & Hq); [by right|].
  eexists _, _. split; [exact E|]. split; [split; [exact Hok|]; split; [done|right; by eexists _, _]|].
  split; [intros E'; discriminate E'|]. split; [done|]. split; [done|].
  intros o Ho. rewrite Hq. by apply snoc_error.
Qed.

(** *** The owner's requests *)

Lemma rx_broken u q C w : ¬ active u → UE_received ∉ uobjs q → C `prefix_of` k_read (u_os u) → rx_ok u q C w.
Proof. intros Ha Hq Hp. split; [done|]. destruct w; [right|]; done. Qed.

Lemma tx_broken u q D b : ¬ active u → UE_sent ∉ uobjs q → k_written (u_os u) `prefix_of` D → tx_ok u q D b.
Proof. intros Ha Hq Hp. split; [done|]. destruct b; [right|]; done. Qed.

Lemma received_tx u q u1 D b dst len : received_by u u1 → tx_ok u q D b → tx_ok (set_req dst len u1) q D b.
Proof. intros (bt & l & p & os & -> & Htx & Hw) Ht. by eapply tx_frame. Qed.

Lemma prefix_grow (C k l : list Z) : C `prefix_of` k → C `prefix_of` k ++ l.
Proof. intros. by apply prefix_app_r. Qed.

Lemma usock_recv_ok u q C D b n : u_ok u q → rx_ok u q C None → tx_ok u q D b → 0 < n < 2 ^ 64 →
  (nn_usock_recv alloc junk accepting sockerr (u, q) n = Fail Abort ∧
     batch u = None ∧ alloc NN_USOCK_BATCH_SIZE = false) ∨
  ∃ u' q', nn_usock_recv alloc junk accepting sockerr (u, q) n = Ret (u', q') ∧
    u_post u q u' q' ∧ rx_ok u' q' C (Some n) ∧ tx_ok u' q' D b.
Proof.
  intros Hu Hrx Htx Hn. pose proof Hrx as (Hp & Hin & Hact). unfold nn_usock_recv. cbn [fst snd].
  destruct (Z.eqb_spec (u_state u) NN_USOCK_STATE_ACTIVE) as [Hs|Hs]; cbn [negb].
  2: { right. destruct (action_error_ok u q Hu) as (u' & q' & -> & Hb).
       exists u', q'. split; [done|]. split; [apply Hb|]. split; [|by eapply breaks_tx].
       eapply breaks_rx; [done|]. by apply rx_broken. }
  destruct (Hact Hs) as [[Hft Hfw] Hk].
  destruct (recv_raw_ok alloc junk Hjunk u n) as [(? & ? & ->)|(u1 & got & rc & -> & Hraw)];
    [apply (uo_batch _ _ Hu)|apply (uo_rx _ _ Hu)|lia|by left|right]. step.
  destruct Hraw as (Hby & Hb1 & Hr1 & _ & Hlen & Bgot & (l & Hk1 & Hl) & Hrc).
  pose proof (active_no_error u q Hu Hs) as He.
  assert (u_tasks u1 = u_tasks u ∧ w_in u1 = w_in u ∧ u_owner u1 = u_owner u) as (Ht1 & Hw1 & Ho1)
    by (by destruct Hby as (bt & l1 & p & os & -> & _)).
  assert (k_read (u_os u1) = C ++ got ++ unread u1) as Hk1' by (by rewrite Hk1, Hk, <- app_assoc, Hl).
  destruct Hrc as [-> | [-> Hshort]].
  - change (- ECONNRESET <? 0) with true. change (- ECONNRESET =? - ECONNRESET) with true. step.
    assert (u_ok u1 q) as Hu1.
    { rewrite <- (set_req_id u1). eapply u_ok_received; [done..|].
      destruct Hby as (bt & l1 & p & os & -> & _). exact (uo_dst _ _ Hu). }
    destruct (action_error_ok u1 q Hu1) as (u' & q' & -> & Hb). exists u', q'. split; [done|].
    pose proof Hb as ((Hok & Ho & Hra) & Hna & _ & Hos & Hqs).
    split; [split; [done|]; unfold raised in *; rewrite Ho1 in Hra; by rewrite Ho, Ho1|]. split.
    + apply rx_broken; [done|by rewrite Hqs|]. rewrite Hos, Hk1. by apply prefix_grow.
    + eapply breaks_tx; [done|]. rewrite <- (set_req_id u1). by eapply received_tx.
  - change (0 <? 0) with false. cbn [negb]. destruct (Z.eqb_spec (Z.of_nat (length got)) n) as [Hfull|Hpart].
    + assert (u_ok (set_req got 0 u1) q) as Hu1 by (by eapply u_ok_received).
      destruct (event_raised _ q UE_received NN_USOCK_RECEIVED Hu1 Hin He eq_refl) as (-> & Hok & Hq).
      eexists _, _. split; [done|]. split; [split; [done|]; split; [done|right; cbn; rewrite Ho1; by eexists _, _]|].
      split.
      * split; [cbn; rewrite Hk1; by apply prefix_grow|]. left. rewrite Hq. split; [set_solver|].
        split; [done|]. cbn. split; [rewrite Hk1'; by exists (unread u1); rewrite app_assoc|].
        intros _. unfold free_in. cbn. rewrite Ht1, Hw1. done.
      * eapply tx_frame; [by eapply (received_tx u q u1 D b got 0)|done| |done].
        rewrite Hq. set_solver.
    + assert (u_ok (set_req got (n - Z.of_nat (length got)) u1) q) as Hu1 by (by eapply u_ok_received).
      destruct (u_ok_tasks _ q t_recv Hu1) as [-> Hok]; [by right|cbn; by rewrite Ht1|]. step.
      eexists _, _. split; [done|]. split; [split; [done|]; split; [done|by left]|]. split.
      * split; [cbn; rewrite Hk1; by apply prefix_grow|]. right. split; [done|]. intros _. cbn.
        split; [|split; [lia|done]]. unfold busy_in. cbn. rewrite Ht1, Hw1.
        split; [lia|]. split; [apply Hshort; lia|]. left. split; [set_solver|done].
      * eapply tx_frame; [by eapply (received_tx u q u1 D b got (n - Z.of_nat (length got)))|done..|].
        cbn. intros ?. split_and!; try done. rewrite elem_of_app, list_elem_of_singleton. naive_solver.
Qed.

Lemma u_ok_sent u q iov os : u_ok u q → k_rx os = k_rx (u_os u) → u_ok (set_out_iov iov (set_u_os os u)) q.
Proof. intros [] Hk. constructor; usock_simpl; try done. unfold rx_bytes. by rewrite Hk. Qed.

Lemma sent_rx u q C w iov os : rx_ok u q C w → k_read os = k_read (u_os u) →
  rx_ok (set_out_iov iov (set_u_os os u)) q C w.
Proof. intros Hrx Hk. eapply rx_frame; [done|by usock_simpl; rewrite Hk|done..]. Qed.

Lemma usock_send_ok u q C w D iov : u_ok u q → rx_ok u q C w → tx_ok u q D false →
  (length iov ≤ NN_USOCK_MAX_IOVCNT)%nat →
  ∃ u' q', nn_usock_send alloc junk accepting sockerr (u, q) iov = Ret (u', q') ∧
    u_post u q u' q' ∧ rx_ok u' q' C w ∧ tx_ok u' q' (D ++ concat iov) true.
Proof.
  intros Hu Hrx Htx Hiov. pose proof Htx as (Hp & Hin & Hact). unfold nn_usock_send. cbn [fst snd].
  destruct (Z.eqb_spec (u_state u) NN_USOCK_STATE_ACTIVE) as [Hs|Hs]; cbn [negb].
  2: { destruct (action_error_ok u q Hu) as (u' & q' & -> & Hb).
       exists u', q'. split; [done|]. split; [apply Hb|]. split; [by eapply breaks_rx|].
       eapply breaks_tx; [done|]. apply tx_broken; [done|done|by apply prefix_grow]. }
  destruct (Hact Hs) as [(Hft & Hfw & _) Hk]. rewrite bool_decide_true by done. step.
  set (u0 := set_out_iov (filter (λ v, v ≠ []) iov) u).
  destruct (send_raw_ok u0) as (iov' & os & rc & -> & Hp' & Hrx' & Hrd & Hwr & Hrc).
  { unfold u0. usock_simpl. apply Forall_forall. by intros v [Hv _]%list_elem_of_filter. }
  step. change (set_out_iov iov' (set_u_os os u0)) with (set_out_iov iov' (set_u_os os u)).
  unfold u0 in Hwr. usock_simpl. rewrite concat_filter, Hk in Hwr.
  pose proof (u_ok_sent u q iov' os Hu Hrx') as Hu1. pose proof (sent_rx u q C w iov' os Hrx Hrd) as Hrx1.
  set (u1 := set_out_iov iov' (set_u_os os u)) in *.
  pose proof (active_no_error u q Hu Hs) as He.
  assert (k_written os `prefix_of` D ++ concat iov) as Hpre by (rewrite <- Hwr; by apply prefix_grow).
  destruct Hrc as [[-> ->]|[[-> Hne]| ->]].
  - change (0 =? 0) with true. destruct (event_raised u1 q UE_sent NN_USOCK_SENT Hu1 Hin He eq_refl) as (-> & Hok & Hq).
    eexists _, _. split; [done|]. split; [split; [done|]; split; [done|right; by eexists _, _]|]. split.
    + eapply rx_frame; [done..| |done]. rewrite Hq. set_solver.
    + split; [done|]. left. rewrite Hq. split; [set_solver|]. split; [by rewrite app_nil_r in Hwr|done].
  - change (- EAGAIN =? 0) with false. change (- EAGAIN =? - EAGAIN) with true. cbn [negb].
    destruct (u_ok_tasks u1 q t_send Hu1) as [-> Hok]; [by left|done|]. step. eexists _, _. split; [done|].
    split; [split; [done|]; split; [done|by left]|]. split.
    + eapply rx_frame; [done..|]. intros Ha. split_and!; try done. cbn. rewrite elem_of_app, list_elem_of_singleton. naive_solver.
    + split; [done|]. right. split; [done|]. intros _. split; [|done]. unfold busy_out. cbn.
      split; [done|]. split; [done|]. left. split; [set_solver|done].
  - change (- ECONNRESET =? 0) with false. change (- ECONNRESET =? - EAGAIN) with false.
    change (- ECONNRESET =? - ECONNRESET) with true. cbn [negb]. step.
    destruct (action_error_ok u1 q Hu1) as (u' & q' & -> & Hb). exists u', q'. split; [done|].
    split; [apply Hb|]. split; [by eapply breaks_rx|].
    destruct Hb as (_ & Hna & _ & Hos & Hqs). apply tx_broken; [done|by rewrite Hqs|by rewrite Hos].
Qed.

(** *** The worker *)

Lemma u_ok_poll u q reg i o : u_ok u q →
  (t_conn ∈ u_tasks u → reg = false ∧ i = false ∧ o = false) → u_ok (set_poll reg i o u) q.
Proof.
  intros [? ? ? ? ? ? ? Hc ? ? ? ?] Hp. constructor; usock_simpl; try done.
  intros Ht. destruct (Hc Ht) as [? _]. by split; [|apply Hp].
Qed.

(** The first task is taken; a stop task closes the socket in the same step. *)
Lemma u_ok_pop u q t ts : u_ok u q → u_tasks u = t :: ts → t ≠ t_stop → u_ok (set_u_tasks ts u) q.
Proof.
  intros [? ? ? ? ? Hnd Htk Hc Hs ? ? ?] Et Ht. rewrite Et in *. apply NoDup_cons in Hnd as [Hn Hnd].
  constructor; usock_simpl; try done.
  - intros t' Ht'. apply Htk. by right.
  - intros Hin. assert (t = t_conn) as ->; [|done].
    destruct Hc as [(ts' & [= ->]) _]; [by right|done].
  - rewrite <- Hs, elem_of_cons. naive_solver.
Qed.

Definition step_post (u : nn_usock) (q : list evt) (C : list Z) (w : option Z) (D : list Z) (b : bool)
    (u' : nn_usock) (q' : list evt) : Prop :=
  u_post u q u' q' ∧ rx_ok u' q' C w ∧ tx_ok u' q' D b.

Lemma breaks_post u q C w D b u' q' :
  breaks u q u' q' → rx_ok u q C w → tx_ok u q D b → step_post u q C w D b u' q'.
Proof. intros Hb Hrx Htx. split; [apply Hb|]. split; [by eapply breaks_rx|by eapply breaks_tx]. Qed.

Lemma post_refl u q C w D b : u_ok u q → rx_ok u q C w → tx_ok u q D b → step_post u q C w D b u q.
Proof. intros. split; [split; [done|]; split; [done|by left]|]. done. Qed.

Lemma fd_in_ok u C w D b : u_ok u [] → rx_ok u [] C w → tx_ok u [] D b → active u → w_in u = true →
  (usock_fd_in alloc junk (u, []) = Fail Abort ∧ batch u = None ∧ alloc NN_USOCK_BATCH_SIZE = false) ∨
  ∃ u' q', usock_fd_in alloc junk (u, []) = Ret (u', q') ∧ step_post u [] C w D b u' q'.
Proof.
  intros Hu Hrx Htx Hs Hwi. destruct w as [n|]; [|destruct Hrx as (_ & _ & Hact); destruct (Hact Hs) as [[_ ?] _]; congruence].
  destruct Hrx as [Hp [(Hin & _)|(Hin & Hact)]]; [by apply elem_of_nil in Hin|].
  destruct (Hact Hs) as ((Hlen & Hun & Hbusy) & Hn & Hk). rewrite Hun, app_nil_r in Hk.
  destruct Hbusy as [[_ ?]|[Htn _]]; [congruence|].
  unfold usock_fd_in. cbn [fst snd].
  destruct (recv_raw_ok alloc junk Hjunk u (in_len u)) as [(? & ? & ->)|(u1 & got & rc & -> & Hraw)];
    [apply (uo_batch _ _ Hu)|apply (uo_rx _ _ Hu)|lia|by left|right]. step.
  destruct Hraw as (Hby & Hb1 & Hr1 & _ & Hgl & Bgot & (l & Hk1 & Hl) & Hrc).
  assert (in_dst u1 = in_dst u ∧ in_len u1 = in_len u ∧ u_tasks u1 = u_tasks u ∧ w_in u1 = w_in u ∧
    u_owner u1 = u_owner u ∧ active u1) as (Hd1 & Hl1 & Ht1 & Hw1 & Ho1 & Hs1)
    by (by destruct Hby as (bt & l1 & p & os & -> & _)).
  rewrite Hun in Hl. cbn [app] in Hl.
  assert (k_read (u_os u1) = C ++ (in_dst u ++ got) ++ unread u1) as Hk1'
    by (by rewrite Hk1, Hk, Hl, <- !app_assoc).
  assert (C `prefix_of` k_read (u_os u1)) as Hp1 by (rewrite Hk1; by apply prefix_grow).
  destruct Hrc as [-> | [-> Hshort]].
  - change (- ECONNRESET =? 0) with false. change (- ECONNRESET =? - ECONNRESET) with true. step.
    assert (u_ok u1 []) as Hu1.
    { rewrite <- (set_req_id u1). eapply u_ok_received; [done..|]. rewrite Hd1. exact (uo_dst _ _ Hu). }
    destruct (usock_broken_ok u1 [] Hu1 Hs1) as (u' & q' & -> & Hb). exists u', q'. split; [done|].
    pose proof Hb as ((Hok & Ho & Hra) & Hna & _ & Hos & Hqs).
    split; [split; [done|]; unfold raised in *; rewrite Ho1 in Hra; by rewrite Ho, Ho1|]. split.
    + apply rx_broken; [done|by rewrite Hqs|by rewrite Hos].
    + eapply breaks_tx; [done|]. rewrite <- (set_req_id u1). by eapply received_tx.
  - change (0 =? 0) with true. cbn iota. rewrite Hd1, Hl1.
    assert (u64 (in_len u - Z.of_nat (length got)) = in_len u - Z.of_nat (length got)) as Hrest
      by (unfold u64; rewrite Z.mod_small; lia).
    rewrite Hrest. cbn [set_req in_len].
    assert (u_ok (set_req (in_dst u ++ got) (in_len u - Z.of_nat (length got)) u1) []) as Hu1.
    { eapply u_ok_received; [done..|]. apply bytes_app; [exact (uo_dst _ _ Hu)|done]. }
    pose proof (received_tx u [] u1 D b (in_dst u ++ got) (in_len u - Z.of_nat (length got)) Hby Htx) as Htx1.
    destruct (Z.eqb_spec (in_len u - Z.of_nat (length got)) 0) as [Hfull|Hpart].
    + unfold nn_worker_reset_in.
      set (u2 := set_req (in_dst u ++ got) (in_len u - Z.of_nat (length got)) u1) in *.
      eapply (u_ok_poll _ [] (w_reg u2) false (w_out u2)) in Hu1 as Hu2.
      2: { change (u_tasks u2) with (u_tasks u1). intros Ht. rewrite Ht1 in Ht. destruct (uo_conn _ _ Hu Ht) as (_ & _ & ? & _). congruence. }
      destruct (event_raised _ [] UE_received NN_USOCK_RECEIVED Hu2) as (-> & Hok & Hq); [set_solver..|done|].
      eexists _, _. split; [done|]. split; [split; [done|]; split; [done|right; cbn; rewrite Ho1; by eexists _, _]|].
      split.
      * split; [done|]. left. rewrite Hq. split; [set_solver|]. cbn. rewrite length_app.
        split; [lia|]. split; [rewrite Hk1'; exists (unread u1); by rewrite <- !app_assoc|].
        intros _. split; [|done]. unfold free_in. cbn. by rewrite Ht1.
      * eapply tx_frame; [exact Htx1|done|rewrite Hq; set_solver|done].
    + eexists _, _. split; [done|]. split; [split; [done|]; split; [done|by left]|]. split; [|done].
      split; [done|]. right. split; [done|]. intros _. cbn. rewrite length_app.
      split; [|split; [lia|done]]. unfold busy_in. cbn. rewrite Ht1, Hw1. split; [lia|].
      split; [apply Hshort; lia|by right].
Qed.

Lemma fd_out_ok u C w D b : u_ok u [] → rx_ok u [] C w → tx_ok u [] D b → active u → w_out u = true →
  ∃ u' q', usock_fd_out (u, []) = Ret (u', q') ∧ step_post u [] C w D b u' q'.
Proof.
  intros Hu Hrx Htx Hs Hwo. destruct b; [|destruct Htx as (_ & _ & Hact); destruct (Hact Hs) as [(_ & ? & _) _]; congruence].
  destruct Htx as [Hp [(Hin & _)|(Hin & Hact)]]; [by apply elem_of_nil in Hin|].
  destruct (Hact Hs) as ((Hne & Hpc & Hbusy) & HD). destruct Hbusy as [[_ ?]|[Htn _]]; [congruence|].
  unfold usock_fd_out. cbn [fst snd].
  destruct (send_raw_ok u Hpc) as (iov & os & rc & -> & Hp' & Hrx' & Hrd & Hwr & Hrc). step.
  pose proof (u_ok_sent u [] iov os Hu Hrx') as Hu1. pose proof (sent_rx u [] C w iov os Hrx Hrd) as Hrx1.
  set (u1 := set_out_iov iov (set_u_os os u)) in *.
  assert (k_written os `prefix_of` D) as Hpre by (rewrite <- HD, <- Hwr; by apply prefix_app_r).
  rewrite HD in Hwr. destruct Hrc as [[-> ->]|[[-> Hne']| ->]].
  - change (0 =? 0) with true. cbn iota. unfold nn_worker_reset_out.
    eapply (u_ok_poll _ [] (w_reg u1) (w_in u1) false) in Hu1 as Hu2.
    2: { intros Ht. destruct (uo_conn _ _ Hu Ht) as (_ & _ & _ & ?). congruence. }
    destruct (event_raised _ [] UE_sent NN_USOCK_SENT Hu2) as (-> & Hok & Hq); [set_solver..|done|].
    eexists _, _. split; [done|]. split; [split; [done|]; split; [done|right; by eexists _, _]|]. split.
    + eapply rx_frame; [exact Hrx1|done|done|rewrite Hq; set_solver|done].
    + split; [done|]. left. rewrite Hq. split; [set_solver|]. split; [by rewrite app_nil_r in Hwr|done].
  - change (- EAGAIN =? 0) with false. change (- EAGAIN =? - EAGAIN) with true. cbn iota.
    eexists _, _. split; [done|]. split; [split; [done|]; split; [done|by left]|]. split; [done|].
    split; [done|]. right. split; [done|]. intros _. split; [|done]. by split_and!; [| |right].
  - change (- ECONNRESET =? 0) with false. change (- ECONNRESET =? - EAGAIN) with false.
    change (- ECONNRESET =? - ECONNRESET) with true. cbn iota. step.
    destruct (usock_broken_ok u1 [] Hu1 Hs) as (u' & q' & -> & Hb). exists u', q'. split; [done|].
    split; [apply Hb|]. split; [by eapply breaks_rx|].
    destruct Hb as (_ & Hna & _ & Hos & Hqs). apply tx_broken; [done|rewrite Hqs by done; set_solver|by rewrite Hos].
Qed.

Lemma feed_task x t ptr : u_fsm x.1 = NN_FSM_STATE_ACTIVE →
  feed x t NN_WORKER_TASK_EXECUTE ptr =
    if decide (t = t_conn) then Ret (on_usock nn_worker_add_fd x)
    else if decide (t = t_send) then Ret (on_usock nn_worker_set_out x)
    else if decide (t = t_recv) then Ret (on_usock nn_worker_set_in x)
    else feed x t NN_WORKER_TASK_EXECUTE ptr.
Proof.
  intros Hf. repeat case_decide; [subst t..|done]; unfold usock_feed, nn_fsm_feed; rewrite Hf.
  all: reflexivity.
Qed.

Lemma task_ok u C w D b : u_ok u [] → rx_ok u [] C w → tx_ok u [] D b → u_tasks u ≠ [] →
  ∃ u' q', usock_step alloc junk accepting sockerr (u, []) U_task = Ret (u', q') ∧ step_post u [] C w D b u' q'.
Proof.
  intros Hu Hrx Htx Hne. unfold usock_step. cbn [fst]. destruct (u_tasks u) as [|t ts] eqn:Et; [done|].
  pose proof (uo_nodup _ _ Hu) as Hnd. rewrite Et in Hnd. apply NoDup_cons in Hnd as [Hnt Hnd].
  rewrite feed_task by exact (uo_fsm _ _ Hu). unfold on_usock. cbn [fst snd].
  assert (∀ x, x ≠ t → x ∈ ts ↔ x ∈ u_tasks u) as Hts by (intros x Hx; rewrite Et, elem_of_cons; naive_solver).
  assert (t ∈ u_tasks u) as Hin by (rewrite Et; by left).
  case_decide as Hc; [|case_decide as Hsd; [|case_decide as Hrc]].
  - subst t. destruct (uo_conn _ _ Hu Hin) as (_ & _ & Hwi & Hwo). eexists _, _. split; [done|].
    split; [split; [|by split; [|left]]|split].
    + apply u_ok_poll; [by eapply u_ok_pop|]. intros Hc. by destruct Hnt.
    + eapply rx_frame; [exact Hrx|done..|]. intros Ha. cbn. rewrite Hwi. split_and!; try done. by apply Hts.
    + eapply tx_frame; [exact Htx|done..|]. intros Ha. cbn. rewrite Hwo. split_and!; try done. by apply Hts.
  - subst t. eexists _, _. split; [done|]. split; [split; [|by split; [|left]]|split].
    + apply u_ok_poll; [by eapply u_ok_pop|]. cbn. intros Hconn.
      destruct (uo_conn _ _ Hu) as ((ts' & E) & _); [rewrite Et; by right|]. congruence.
    + eapply rx_frame; [exact Hrx|done..|]. intros Ha. cbn. split_and!; try done. by apply Hts.
    + destruct Htx as [Hp Hb]. split; [done|]. destruct b.
      * destruct Hb as [(Hbad & _)|(_ & Hact)]; [by apply elem_of_nil in Hbad|]. right. split; [apply not_elem_of_nil|].
        intros Ha. destruct (Hact Ha) as ((Ho & Hpc & _) & HD). split; [|done]. split; [done|]. split; [done|].
        by right.
      * destruct Hb as [_ Hact]. split; [apply not_elem_of_nil|]. intros Ha. by destruct (Hact Ha) as [(? & _) _].
  - subst t. eexists _, _. split; [done|]. split; [split; [|by split; [|left]]|split].
    + apply u_ok_poll; [by eapply u_ok_pop|]. cbn. intros Hconn.
      destruct (uo_conn _ _ Hu) as ((ts' & E) & _); [rewrite Et; by right|]. congruence.
    + destruct Hrx as [Hp Hb]. split; [done|]. destruct w as [n|].
      * destruct Hb as [(Hbad & _)|(_ & Hact)]; [by apply elem_of_nil in Hbad|]. right. split; [apply not_elem_of_nil|].
        intros Ha. destruct (Hact Ha) as ((Hl & Hun & _) & HD). split; [|done]. split; [done|]. split; [done|].
        by right.
      * destruct Hb as [_ Hact]. split; [apply not_elem_of_nil|]. intros Ha. by destruct (Hact Ha) as [(? & _) _].
    + eapply tx_frame; [exact Htx|done..|]. intros Ha. cbn. split_and!; try done. by apply Hts.
  - assert (t = t_stop) as -> by (destruct (uo_tasks _ _ Hu t Hin) as [?|[?|[?|?]]]; done).
    pose proof (proj1 (uo_stop _ _ Hu) Hin) as Hs.
    rewrite feed_removing by (try exact (uo_fsm _ _ Hu); try done; by right; right).
    change (usock_removing_fd (set_u_tasks ts u, []) t_stop NN_WORKER_TASK_EXECUTE)
      with (usock_broken (set_u_tasks ts u, [])).
    unfold usock_broken. usock_simpl.
    set (u1 := set_u_state NN_USOCK_STATE_DONE (set_u_fd false (nn_worker_rm_fd (set_u_tasks ts u)))).
    assert (u_ok u1 []) as Hu1.
    { destruct Hu as [? ? ? ? ? ? Htk Hcn ? ? ? ?]. constructor; unfold u1; usock_simpl; try done.
      - by right; right.
      - intros x Hx. apply Htk. rewrite Et. by right.
      - intros Hx. destruct Hcn as ((ts' & E) & _); [rewrite Et; by right|]. congruence.
      - intros o to t Hev. by apply elem_of_nil in Hev. }
    destruct (event_raised u1 [] UE_error NN_USOCK_ERROR Hu1) as (-> & Hok & Hq); [set_solver..|by right|].
    eexists _, _. split; [done|]. apply (breaks_post u []); [|done..].
    split; [split; [done|]; split; [done|right; by eexists _, _]|]. split; [intros E; discriminate E|].
    split; [done|]. split; [done|]. intros o Ho. rewrite Hq. by apply snoc_error.
Qed.

(** A step of the worker thread in a context without events. *)
Lemma usock_step_ok u C w D b s : u_ok u [] → rx_ok u [] C w → tx_ok u [] D b → usock_ready u s = true →
  (usock_step alloc junk accepting sockerr (u, []) s = Fail Abort ∧
     batch u = None ∧ alloc NN_USOCK_BATCH_SIZE = false) ∨
  ∃ u' q', usock_step alloc junk accepting sockerr (u, []) s = Ret (u', q') ∧ step_post u [] C w D b u' q'.
Proof.
  intros Hu Hrx Htx Hr. pose proof (uo_fsm _ _ Hu) as Hf.
  assert (∀ type, ¬ active u → feed (u, []) NN_USOCK_SRC_FD type P_null = Ret (u, [])) as Hoff.
  { intros type Ha. destruct (uo_state _ _ Hu) as [|[Hs|Hs]]; [done|..].
    - by rewrite feed_removing by (try done; by right; left).
    - by rewrite feed_done by (try done; by right; left). }
  destruct (decide (active u)) as [Ha|Ha].
  - destruct s; cbn [usock_ready] in Hr.
    + right. apply task_ok; try done. by apply negb_true_iff, bool_decide_eq_false in Hr.
    + apply andb_true_iff in Hr as [_ Hw]. unfold usock_step. rewrite feed_connected by (try done; by right; left).
      by apply fd_in_ok.
    + apply andb_true_iff in Hr as [_ Hw]. unfold usock_step. rewrite feed_connected by (try done; by right; left).
      right. by apply fd_out_ok.
    + unfold usock_step. rewrite feed_connected by (try done; by right; left). right.
      change (usock_active alloc junk (u, []) NN_USOCK_SRC_FD NN_WORKER_FD_ERR) with (usock_broken (u, [])).
      destruct (usock_broken_ok u [] Hu Ha) as (u' & q' & -> & Hb). eexists _, _. split; [done|].
      by apply breaks_post.
  - destruct s; cbn [usock_ready] in Hr; [|unfold usock_step; right; rewrite (Hoff _ Ha); by eexists _, _; split; [|apply post_refl]..].
    right. apply task_ok; try done. by apply negb_true_iff, bool_decide_eq_false in Hr.
Qed.

End ops.

(** *** The queue *)

Definition is_usock (x : evt) : bool := match x with E_usock _ _ _ => true | _ => false end.

Lemma uobjs_cons o to t q : uobjs (E_usock o to t :: q) = o :: uobjs q.
Proof. done. Qed.

Lemma uobjs_other x q : is_usock x = false → uobjs (x :: q) = uobjs q.
Proof. by destruct x. Qed.

Lemma uobjs_snoc_other x q : is_usock x = false → uobjs (q ++ [x]) = uobjs q.
Proof. intros. rewrite uobjs_app, (uobjs_other x []) by done. apply app_nil_r. Qed.

(** The invariant looks at the socket's own events only. *)
Lemma u_ok_q u q q' : u_ok u q → uobjs q' = uobjs q →
  (∀ o to t, E_usock o to t ∈ q' → E_usock o to t ∈ q) → u_ok u q'.
Proof. intros [] E Hq. constructor; rewrite ?E; try done. eauto. Qed.

Lemma u_ok_snoc u q x : u_ok u q → is_usock x = false → u_ok u (q ++ [x]).
Proof.
  intros Hu Hx. eapply u_ok_q; [done|by apply uobjs_snoc_other|].
  intros o to t [?|E%list_elem_of_singleton]%elem_of_app; [done|]. by subst x.
Qed.

Lemma u_ok_tail u q x : u_ok u (x :: q) → is_usock x = false → u_ok u q.
Proof. intros Hu Hx. eapply u_ok_q; [done|by rewrite uobjs_other|]. intros. by right. Qed.

Lemma rx_ok_q u q q' C w : rx_ok u q C w → uobjs q' = uobjs q → rx_ok u q' C w.
Proof. unfold rx_ok. by intros ? ->. Qed.

Lemma tx_ok_q u q q' D b : tx_ok u q D b → uobjs q' = uobjs q → tx_ok u q' D b.
Proof. unfold tx_ok. by intros ? ->. Qed.

(** The owner processes an event. *)
Lemma u_ok_event u q o to t : u_ok u (E_usock o to t :: q) →
  u_ok u q ∧ o ∉ uobjs q ∧ to = u_owner u ∧ uev_ok u o t ∧ (o = UE_error → uobjs q = []).
Proof.
  intros Hu. destruct Hu as [? ? ? ? ? ? ? ? ? Hev Hevs Hlast]. rewrite uobjs_cons in *.
  apply NoDup_cons in Hevs as [Hn Hnd]. split.
  - constructor; try done; [intros o' to' t' Hin; apply Hev; by right|].
    intros l1 l2 E. apply (Hlast (o :: l1)). by rewrite E.
  - split; [done|]. destruct (Hev o to t) as [-> ?]; [by left|]. split; [done|]. split; [done|].
    intros ->. by apply (Hlast []).
Qed.

Lemma rx_received u q to t C w : rx_ok u (E_usock UE_received to t :: q) C w → UE_received ∉ uobjs q →
  w = Some (Z.of_nat (length (in_dst u))) ∧ rx_ok u q (C ++ in_dst u) None.
Proof.
  intros [Hp Hw] Hn. rewrite uobjs_cons in Hw. destruct w as [n|]; [|destruct Hw as [Hbad _]; destruct Hbad; by left].
  destruct Hw as [(_ & <- & Hc & Hact)|(Hbad & _)]; [|destruct Hbad; by left]. split; [done|].
  split; [done|]. split; [done|]. intros Ha. destruct (Hact Ha) as [Hf Hk]. split; [done|]. by rewrite <- app_assoc.
Qed.

Lemma rx_other u q o to t C w : o ≠ UE_received → rx_ok u (E_usock o to t :: q) C w → rx_ok u q C w.
Proof.
  intros Ho Hrx. eapply rx_frame; [exact Hrx|done|done| |done]. rewrite uobjs_cons, elem_of_cons. naive_solver.
Qed.

Lemma tx_sent u q to t D b : tx_ok u (E_usock UE_sent to t :: q) D b → UE_sent ∉ uobjs q →
  b = true ∧ k_written (u_os u) = D ∧ tx_ok u q D false.
Proof.
  intros [Hp Hw] Hn. rewrite uobjs_cons in Hw. destruct b; [|destruct Hw as [Hbad _]; destruct Hbad; by left].
  destruct Hw as [(_ & Hk & Hact)|(Hbad & _)]; [|destruct Hbad; by left]. split; [done|].
  split; [done|]. split; [done|]. split; [done|]. intros Ha. by split; [apply Hact|].
Qed.

Lemma tx_other u q o to t D b : o ≠ UE_sent → tx_ok u (E_usock o to t :: q) D b → tx_ok u q D b.
Proof.
  intros Ho Htx. eapply tx_frame; [exact Htx|done| |done]. rewrite uobjs_cons, elem_of_cons. naive_solver.
Qed.

(** Another owner takes the socket. *)
Lemma u_ok_owner u q o : u_ok u q → uobjs q = [] → u_ok (set_u_owner o u) q.
Proof.
  intros [] E. constructor; usock_simpl; try done. intros o' to t Hin. exfalso.
  assert (o' ∈ uobjs q) as Hbad by (apply list_elem_of_omap; by eexists). rewrite E in Hbad.
  by apply elem_of_nil in Hbad.
Qed.

(** The network. *)
Definition more_rx (i : rx_item) (k : kernel) : kernel := Kernel (k_rx k ++ [i]) (k_tx k) (k_read k) (k_written k).
Definition more_tx (i : tx_item) (k : kernel) : kernel := Kernel (k_rx k) (k_tx k ++ [i]) (k_read k) (k_written k).
Definition item_ok (i : rx_item) : Prop := match i with R_data l => bytes l | R_err => True end.

Lemma u_ok_net u q i : item_ok i → u_ok u q → u_ok (set_u_os (more_rx i (u_os u)) u) q.
Proof.
  intros Hi []. constructor; usock_simpl; try done.
  intros l [Hl|Hl%list_elem_of_singleton]%elem_of_app; [by apply uo_rx0|]. by subst i.
Qed.

Lemma u_ok_net_tx u q i : u_ok u q → u_ok (set_u_os (more_tx i (u_os u)) u) q.
Proof. intros []. by constructor. Qed.

(** ** The contract of a socket with its owner

    The owner waits for the answer of a receive, or of a send, before the next one;
    [C] are the bytes it was given, [D] the bytes it handed over. *)
Definition fresh_usock (u : nn_usock) : Prop :=
  u_fsm u = NN_FSM_STATE_ACTIVE ∧ active u ∧ batch_ok u ∧ unread u = [] ∧ bytes (in_dst u) ∧ out_iov u = [] ∧
  w_in u = false ∧ w_out u = false ∧ u_os u = Kernel [] [] [] [] ∧
  (u_tasks u = [] ∨ u_tasks u = [t_conn] ∧ w_reg u = false).

Lemma fresh_ok u : fresh_usock u → u_ok u [] ∧ rx_ok u [] [] None ∧ tx_ok u [] [] false.
Proof.
  intros (Hf & Ha & Hb & Hun & Hd & Ho & Hwi & Hwo & Hos & Ht). split; [constructor|split].
  all: try done.
  - by left.
  - unfold rx_bytes. rewrite Hos. intros l Hl. by apply elem_of_nil in Hl.
  - destruct Ht as [-> | [-> _]]; [constructor|apply NoDup_singleton].
  - destruct Ht as [-> | [-> _]]; intros t Hin; [by apply elem_of_nil in Hin|].
    apply list_elem_of_singleton in Hin. by left.
  - destruct Ht as [-> | [-> ->]]; intros Hin; [by apply elem_of_nil in Hin|]. split; [by eexists|done].
  - unfold active in Ha. rewrite Ha. split; [|intros E; discriminate E]. intros Hin. exfalso.
    destruct Ht as [Ht|[Ht _]]; rewrite Ht in Hin; [by apply elem_of_nil in Hin|].
    apply list_elem_of_singleton in Hin. discriminate Hin.
  - intros o to t Hin. by apply elem_of_nil in Hin.
  - constructor.
  - intros l1 l2 E. symmetry in E. by apply app_nil in E as [_ ?].
  - split; [apply prefix_nil|]. split; [apply not_elem_of_nil|]. intros _. unfold free_in. rewrite Hos, Hun.
    split; [|done]. split; [|done]. intros Hin.
    destruct Ht as [Ht|[Ht _]]; rewrite Ht in Hin; [by apply elem_of_nil in Hin|].
    apply list_elem_of_singleton in Hin. discriminate Hin.
  - unfold tx_ok. rewrite Hos. split; [done|]. split; [apply not_elem_of_nil|]. intros _. split; [|done].
    split; [|done]. intros Hin.
    destruct Ht as [Ht|[Ht _]]; rewrite Ht in Hin; [by apply elem_of_nil in Hin|].
    apply list_elem_of_singleton in Hin. discriminate Hin.
Qed.

Section contract.
Context (alloc : Z → bool) (junk : nat → Z).
Context (accepting : usock_ctx → Z → Z → srcptr → outcome usock_ctx) (sockerr : Z).

Notation recv := (nn_usock_recv alloc junk accepting sockerr).
Notation send := (nn_usock_send alloc junk accepting sockerr).
Notation work := (usock_step alloc junk accepting sockerr).

Inductive usock_run : nn_usock → list evt → list Z → list Z → option Z → bool → Prop :=
| ur_init u : fresh_usock u → usock_run u [] [] [] None false
| ur_recv u q C D b n u' q' :
    usock_run u q C D None b → 0 < n < 2 ^ 64 → recv (u, q) n = Ret (u', q') → usock_run u' q' C D (Some n) b
| ur_send u q C D w iov u' q' :
    usock_run u q C D w false → (length iov ≤ NN_USOCK_MAX_IOVCNT)%nat → send (u, q) iov = Ret (u', q') →
    usock_run u' q' C (D ++ concat iov) w true
| ur_work u C D w b s u' q' :
    usock_run u [] C D w b → usock_ready u s = true → work (u, []) s = Ret (u', q') → usock_run u' q' C D w b
| ur_rx u q C D w b i :
    usock_run u q C D w b → item_ok i → usock_run (set_u_os (more_rx i (u_os u)) u) q C D w b
| ur_tx u q C D w b i :
    usock_run u q C D w b → usock_run (set_u_os (more_tx i (u_os u)) u) q C D w b
| ur_received u to t q C D w b :
    usock_run u (E_usock UE_received to t :: q) C D w b → usock_run u q (C ++ in_dst u) D None b
| ur_sent u to t q C D w b :
    usock_run u (E_usock UE_sent to t :: q) C D w b → usock_run u q C D w false
| ur_error u to t q C D w b :
    usock_run u (E_usock UE_error to t :: q) C D w b → usock_run u q C D w b.

Lemma usock_run_ok u q C D w b : (∀ i, is_byte (junk i)) →
  usock_run u q C D w b → u_ok u q ∧ rx_ok u q C w ∧ tx_ok u q D b.
Proof.
  intros Hj. induction 1 as [u Hf|u q C D b n u' q' _ (Hu & Hrx & Htx) Hn E|u q C D w iov u' q' _ (Hu & Hrx & Htx) Hn E
    |u C D w b s u' q' _ (Hu & Hrx & Htx) Hr E|u q C D w b i _ (Hu & Hrx & Htx) Hi|u q C D w b i _ (Hu & Hrx & Htx)
    |u to t q C D w b _ (Hu & Hrx & Htx)|u to t q C D w b _ (Hu & Hrx & Htx)|u to t q C D w b _ (Hu & Hrx & Htx)].
  - by apply fresh_ok.
  - destruct (usock_recv_ok alloc junk Hj accepting sockerr u q C D b n Hu Hrx Htx Hn)
      as [(E' & _)|(u1 & q1 & E' & [Hok _] & ?)]; rewrite E in E'; [done|]. by injection E' as <- <-.
  - destruct (usock_send_ok alloc junk Hj accepting sockerr u q C w D iov Hu Hrx Htx Hn)
      as (u1 & q1 & E' & [Hok _] & ?). rewrite E in E'. by injection E' as <- <-.
  - destruct (usock_step_ok alloc junk Hj accepting sockerr u C w D b s Hu Hrx Htx Hr)
      as [(E' & _)|(u1 & q1 & E' & [Hok _] & ?)]; rewrite E in E'; [done|]. by injection E' as <- <-.
  - split; [by apply u_ok_net|]. split; [by eapply rx_frame|by eapply tx_frame].
  - split; [by apply u_ok_net_tx|]. split; [by eapply rx_frame|by eapply tx_frame].
  - destruct (u_ok_event _ _ _ _ _ Hu) as (Hu' & Hn & _). destruct (rx_received _ _ _ _ _ _ Hrx Hn) as [_ ?].
    split; [done|]. split; [done|eapply tx_other; [|exact Htx]; discriminate].
  - destruct (u_ok_event _ _ _ _ _ Hu) as (Hu' & Hn & _). destruct (tx_sent _ _ _ _ _ _ Htx Hn) as (_ & _ & ?).
    split; [done|]. split; [eapply rx_other; [|exact Hrx]; discriminate|done].
  - destruct (u_ok_event _ _ _ _ _ Hu) as (Hu' & Hn & _).
    split; [done|]. split; [eapply rx_other; [|exact Hrx]; discriminate|eapply tx_other; [|exact Htx]; discriminate].
Qed.

(** C14: what the owner of a connected socket can rely on, whatever the operating
    system does and in whatever pieces it takes and delivers the data: the bytes
    given to the owner are the first bytes that were read, in order, and those
    written are the first of those handed over; when NN_USOCK_RECEIVED is next, the
    buffer holds exactly the number of bytes asked for, and they continue the
    stream; when NN_USOCK_SENT is next, everything handed over was written; as long
    as the socket is not broken, an unanswered request has a task or an interest in
    the poller that will answer it; and no assertion fires: the only call that can
    abort is the first receive, for want of memory for the batch buffer. *)
Theorem usock_contract u q C D w b :
  (∀ i, is_byte (junk i)) → usock_run u q C D w b →
  C `prefix_of` k_read (u_os u) ∧ k_written (u_os u) `prefix_of` D ∧
  (∀ to t q', q = E_usock UE_received to t :: q' →
     w = Some (Z.of_nat (length (in_dst u))) ∧ C ++ in_dst u `prefix_of` k_read (u_os u)) ∧
  (∀ to t q', q = E_usock UE_sent to t :: q' → b = true ∧ k_written (u_os u) = D) ∧
  (active u → q = [] →
     (is_Some w → t_recv ∈ u_tasks u ∨ w_in u = true) ∧ (b = true → t_send ∈ u_tasks u ∨ w_out u = true)) ∧
  (∀ n, w = None → 0 < n < 2 ^ 64 → (batch u = None ∧ alloc NN_USOCK_BATCH_SIZE = false) ∨
     ∃ x, recv (u, q) n = Ret x) ∧
  (∀ iov, b = false → (length iov ≤ NN_USOCK_MAX_IOVCNT)%nat → ∃ x, send (u, q) iov = Ret x) ∧
  (∀ s, q = [] → usock_ready u s = true → (batch u = None ∧ alloc NN_USOCK_BATCH_SIZE = false) ∨
     ∃ x, work (u, q) s = Ret x).
Proof.
  intros Hj (Hu & Hrx & Htx)%usock_run_ok; [|done].
  split; [apply Hrx|]. split; [apply Htx|]. split; [|split; [|split; [|split; [|split]]]].
  - intros to t q' ->. destruct (u_ok_event _ _ _ _ _ Hu) as (_ & Hn & _).
    destruct (rx_received _ _ _ _ _ _ Hrx Hn) as [? [? _]]. done.
  - intros to t q' ->. destruct (u_ok_event _ _ _ _ _ Hu) as (_ & Hn & _).
    destruct (tx_sent _ _ _ _ _ _ Htx Hn) as (? & ? & _). done.
  - intros Ha ->. split.
    + intros [n ->]. destruct Hrx as [_ [(Hbad & _)|(_ & Hact)]]; [by apply elem_of_nil in Hbad|].
      destruct (Hact Ha) as [(_ & _ & Hb) _]. naive_solver.
    + intros ->. destruct Htx as [_ [(Hbad & _)|(_ & Hact)]]; [by apply elem_of_nil in Hbad|].
      destruct (Hact Ha) as [(_ & _ & Hb) _]. naive_solver.
  - intros n -> Hn. destruct (usock_recv_ok alloc junk Hj accepting sockerr u q C D b n Hu Hrx Htx Hn)
      as [(_ & ?)|(u1 & q1 & E' & _)]; [by left|right; by eexists].
  - intros iov -> Hn. destruct (usock_send_ok alloc junk Hj accepting sockerr u q C w D iov Hu Hrx Htx Hn)
      as (u1 & q1 & E' & _). by eexists.
  - intros s -> Hr. destruct (usock_step_ok alloc junk Hj accepting sockerr u C w D b s Hu Hrx Htx Hr)
      as [(_ & ?)|(u1 & q1 & E' & _)]; [by left|right; by eexists].
Qed.

End contract.

(** A receive of five bytes that come in three pieces, the last one with two more. *)
Module UsockSample.

Definition alloc : Z → bool := λ n, n <? 2 ^ 40.
Definition junk : nat → Z := λ _, 0.
Definition accepting : usock_ctx → Z → Z → srcptr → outcome usock_ctx := λ _ _ _ _, Fail Abort.
Definition u0 : nn_usock :=
  NnUsock NN_FSM_STATE_ACTIVE NN_USOCK_STATE_ACTIVE O_ep true [] 0 None 0 0 [] [] true false false (Kernel [] [] [] []).

Lemma u0_fresh : fresh_usock u0.
Proof. repeat split; try done; [constructor|by left]. Qed.

(** The owner asks, the pieces come, the worker reads. *)
Definition receive_in_pieces : outcome usock_ctx :=
  x ← nn_usock_recv alloc junk accepting 0 (u0, []) 5;
  x ← usock_step alloc junk accepting 0 x U_task;
  x ← usock_step alloc junk accepting 0 (set_u_os (more_rx (R_data [1; 2]) (u_os x.1)) x.1, x.2) U_in;
  x ← usock_step alloc junk accepting 0 (set_u_os (more_rx (R_data [3]) (u_os x.1)) x.1, x.2) U_in;
  usock_step alloc junk accepting 0 (set_u_os (more_rx (R_data [4; 5; 6; 7]) (u_os x.1)) x.1, x.2) U_in.

Lemma received_in_pieces :
  ret_check (λ x, bool_decide (x.2 = [E_usock UE_received O_ep NN_USOCK_RECEIVED]) &&
    bool_decide (in_dst x.1 = [1; 2; 3; 4; 5]) && bool_decide (unread x.1 = [6; 7])) receive_in_pieces = true.
Proof. vm_compute. reflexivity. Qed.

End UsockSample.

Lemma usock_contract_witness :
  ∃ u, usock_run UsockSample.alloc UsockSample.junk UsockSample.accepting 0 u [] [] [] (Some 5) false ∧
    [] `prefix_of` k_read (u_os u) ∧ (t_recv ∈ u_tasks u ∨ w_in u = true).
Proof.
  assert (∃ u, nn_usock_recv UsockSample.alloc UsockSample.junk UsockSample.accepting 0 (UsockSample.u0, []) 5 = Ret (u, []) ∧ active u)
    as (u & E & Ha) by (eexists; split; [vm_compute; reflexivity|reflexivity]).
  assert (usock_run UsockSample.alloc UsockSample.junk UsockSample.accepting 0 u [] [] [] (Some 5) false) as Hr.
  { eapply ur_recv; [apply ur_init, UsockSample.u0_fresh|lia|exact E]. }
  exists u. split; [exact Hr|].
  destruct (usock_contract UsockSample.alloc UsockSample.junk UsockSample.accepting 0 u [] [] [] (Some 5) false)
    as (Hp & _ & _ & _ & Hb & _); [intros i; split; [apply Z.le_refl|reflexivity]|exact Hr|].
  split; [exact Hp|]. apply Hb; [exact Ha|reflexivity|by eexists].
Defined.
