(* ===== verification/Stream.v ===== *)
(** * transports/utils/streamhdr.c, tcp/stcp.c and ipc/sipc.c: stream connections

    A connection over TCP or IPC: the exchange of the protocol headers, then
    messages with a header that holds their size.  The two transports differ in
    this header only; [e_ipc] says which one it is.

    The connection, the header exchange with its timer, the socket and the pipe
    share one context: a step is what happens between two events of the context's
    queue, and nothing from outside happens while the queue holds events. *)
From S2P Require Import Prelude Wire Chunk Msg Fsm Pipe Usock.

(** ** Constants *)

Definition NN_STREAMHDR_OK : Z := 1.
Definition NN_STREAMHDR_ERROR : Z := 2.
Definition NN_STREAMHDR_STOPPED : Z := 3.

Definition NN_STREAMHDR_STATE_IDLE : Z := 1.
Definition NN_STREAMHDR_STATE_SENDING : Z := 2.
Definition NN_STREAMHDR_STATE_RECEIVING : Z := 3.
Definition NN_STREAMHDR_STATE_STOPPING_TIMER_ERROR : Z := 4.
Definition NN_STREAMHDR_STATE_STOPPING_TIMER_DONE : Z := 5.
Definition NN_STREAMHDR_STATE_DONE : Z := 6.
Definition NN_STREAMHDR_STATE_STOPPING : Z := 7.

Definition NN_STREAMHDR_SRC_USOCK : Z := 1.
Definition NN_STREAMHDR_SRC_TIMER : Z := 2.

Definition NN_STCP_ERROR : Z := 1.
Definition NN_STCP_STOPPED : Z := 2.

Definition NN_STCP_STATE_IDLE : Z := 1.
Definition NN_STCP_STATE_PROTOHDR : Z := 2.
Definition NN_STCP_STATE_STOPPING_STREAMHDR : Z := 3.
Definition NN_STCP_STATE_ACTIVE : Z := 4.
Definition NN_STCP_STATE_SHUTTING_DOWN : Z := 5.
Definition NN_STCP_STATE_DONE : Z := 6.
Definition NN_STCP_STATE_STOPPING : Z := 7.

Definition NN_STCP_INSTATE_HDR : Z := 1.
Definition NN_STCP_INSTATE_BODY : Z := 2.
Definition NN_STCP_INSTATE_HASMSG : Z := 3.

Definition NN_STCP_OUTSTATE_IDLE : Z := 1.
Definition NN_STCP_OUTSTATE_SENDING : Z := 2.

Definition NN_STCP_SRC_USOCK : Z := 1.
Definition NN_STCP_SRC_STREAMHDR : Z := 2.

Definition NN_SIPC_MSG_NORMAL : Z := 1.

(** ** The state *)

Record nn_streamhdr := Hdr {
  h_fsm : Z;
  h_state : Z;
  h_timer : nn_timer;
  h_usock : bool;                 (* usock != NULL *)
  h_owner : option uowner;        (* usock_owner *)
  protohdr : list Z;              (* 8 bytes *)
}.

(** [s_inmsg] is the body of the message being received. *)
Record nn_stcp := Stcp {
  s_fsm : Z;
  s_state : Z;
  s_usock : bool;
  s_owner : option uowner;
  s_instate : Z;
  inhdr : list Z;
  s_inmsg : list Z;
  s_outstate : Z;
  outhdr : list Z;
  s_outmsg : vmsg;
}.

(** A connection with all it is made of.  [c_out] and [c_in]: the protocol was
    told that the pipe is writable or readable, and has not used it since.
    [c_sent] and [c_rcvd]: the messages the protocol sent and received. *)
Record conn := Conn {
  c_us : nn_usock;
  c_q : list evt;
  c_hdr : nn_streamhdr;
  c_st : nn_stcp;
  c_pipe : nn_pipebase;
  c_out : bool;
  c_in : bool;
  c_sent : list vmsg;
  c_rcvd : list vmsg;
}.

Definition set_us (u : nn_usock) (c : conn) : conn :=
  Conn u (c_q c) (c_hdr c) (c_st c) (c_pipe c) (c_out c) (c_in c) (c_sent c) (c_rcvd c).
Definition set_q (q : list evt) (c : conn) : conn :=
  Conn (c_us c) q (c_hdr c) (c_st c) (c_pipe c) (c_out c) (c_in c) (c_sent c) (c_rcvd c).
Definition set_hdr (h : nn_streamhdr) (c : conn) : conn :=
  Conn (c_us c) (c_q c) h (c_st c) (c_pipe c) (c_out c) (c_in c) (c_sent c) (c_rcvd c).
Definition set_st (s : nn_stcp) (c : conn) : conn :=
  Conn (c_us c) (c_q c) (c_hdr c) s (c_pipe c) (c_out c) (c_in c) (c_sent c) (c_rcvd c).
Definition set_pipe (p : nn_pipebase) (c : conn) : conn :=
  Conn (c_us c) (c_q c) (c_hdr c) (c_st c) p (c_out c) (c_in c) (c_sent c) (c_rcvd c).
Definition set_told (o i : bool) (c : conn) : conn :=
  Conn (c_us c) (c_q c) (c_hdr c) (c_st c) (c_pipe c) o i (c_sent c) (c_rcvd c).
Definition set_msgs (sent rcvd : list vmsg) (c : conn) : conn :=
  Conn (c_us c) (c_q c) (c_hdr c) (c_st c) (c_pipe c) (c_out c) (c_in c) sent rcvd.

Definition set_h_fsm (v : Z) (h : nn_streamhdr) : nn_streamhdr :=
  Hdr v (h_state h) (h_timer h) (h_usock h) (h_owner h) (protohdr h).
Definition set_h_state (v : Z) (h : nn_streamhdr) : nn_streamhdr :=
  Hdr (h_fsm h) v (h_timer h) (h_usock h) (h_owner h) (protohdr h).
Definition set_h_timer (v : nn_timer) (h : nn_streamhdr) : nn_streamhdr :=
  Hdr (h_fsm h) (h_state h) v (h_usock h) (h_owner h) (protohdr h).
Definition set_h_usock (v : bool) (o : option uowner) (h : nn_streamhdr) : nn_streamhdr :=
  Hdr (h_fsm h) (h_state h) (h_timer h) v o (protohdr h).
Definition set_protohdr (v : list Z) (h : nn_streamhdr) : nn_streamhdr :=
  Hdr (h_fsm h) (h_state h) (h_timer h) (h_usock h) (h_owner h) v.

Definition set_s_fsm (v : Z) (s : nn_stcp) : nn_stcp :=
  Stcp v (s_state s) (s_usock s) (s_owner s) (s_instate s) (inhdr s) (s_inmsg s) (s_outstate s) (outhdr s) (s_outmsg s).
Definition set_s_state (v : Z) (s : nn_stcp) : nn_stcp :=
  Stcp (s_fsm s) v (s_usock s) (s_owner s) (s_instate s) (inhdr s) (s_inmsg s) (s_outstate s) (outhdr s) (s_outmsg s).
Definition set_s_usock (v : bool) (o : option uowner) (s : nn_stcp) : nn_stcp :=
  Stcp (s_fsm s) (s_state s) v o (s_instate s) (inhdr s) (s_inmsg s) (s_outstate s) (outhdr s) (s_outmsg s).
Definition set_s_instate (v : Z) (s : nn_stcp) : nn_stcp :=
  Stcp (s_fsm s) (s_state s) (s_usock s) (s_owner s) v (inhdr s) (s_inmsg s) (s_outstate s) (outhdr s) (s_outmsg s).
Definition set_inhdr (v : list Z) (s : nn_stcp) : nn_stcp :=
  Stcp (s_fsm s) (s_state s) (s_usock s) (s_owner s) (s_instate s) v (s_inmsg s) (s_outstate s) (outhdr s) (s_outmsg s).
Definition set_s_inmsg (v : list Z) (s : nn_stcp) : nn_stcp :=
  Stcp (s_fsm s) (s_state s) (s_usock s) (s_owner s) (s_instate s) (inhdr s) v (s_outstate s) (outhdr s) (s_outmsg s).
Definition set_s_outstate (v : Z) (s : nn_stcp) : nn_stcp :=
  Stcp (s_fsm s) (s_state s) (s_usock s) (s_owner s) (s_instate s) (inhdr s) (s_inmsg s) v (outhdr s) (s_outmsg s).
Definition set_outhdr (v : list Z) (s : nn_stcp) : nn_stcp :=
  Stcp (s_fsm s) (s_state s) (s_usock s) (s_owner s) (s_instate s) (inhdr s) (s_inmsg s) (s_outstate s) v (s_outmsg s).
Definition set_s_outmsg (v : vmsg) (s : nn_stcp) : nn_stcp :=
  Stcp (s_fsm s) (s_state s) (s_usock s) (s_owner s) (s_instate s) (inhdr s) (s_inmsg s) (s_outstate s) (outhdr s) v.

(** Computes the fields of a connection that setters made. *)
Ltac conn_simpl :=
  cbn [ c_us c_q c_hdr c_st c_pipe c_out c_in c_sent c_rcvd set_us set_q set_hdr set_st set_pipe set_told
        set_msgs h_fsm h_state h_timer h_usock h_owner protohdr set_h_fsm set_h_state set_h_timer set_h_usock
        set_protohdr s_fsm s_state s_usock s_owner s_instate inhdr s_inmsg s_outstate outhdr s_outmsg
        set_s_fsm set_s_state set_s_usock set_s_instate set_inhdr set_s_inmsg set_s_outstate set_outhdr
        set_s_outmsg fst snd ] in *.

(** What the connection asks of its surroundings: memory, the answer of
    [nn_sock_add], NN_RCVMAXSIZE and NN_PROTOCOL of the socket, [nn_sock_ispeer]. *)
Record st_env := StEnv {
  e_alloc : Z → bool;
  e_junk : nat → Z;
  e_add_rc : Z;
  e_rcvmaxsize : Z;
  e_protocol : Z;
  e_ispeer : Z → bool;
  e_ipc : bool;
}.

Section code.
Context (e : st_env).
(** The states of a socket that is being accepted, see Usock. *)
Context (accepting : usock_ctx → Z → Z → srcptr → outcome usock_ctx) (sockerr : Z).

(** ** The socket and the queue *)

Definition with_usock (f : usock_ctx → outcome usock_ctx) (c : conn) : outcome conn :=
  '(u, q) ← f (c_us c, c_q c); Ret (set_q q (set_us u c)).

Definition usock_send (iov : list (list Z)) : conn → outcome conn :=
  with_usock (λ x, nn_usock_send (e_alloc e) (e_junk e) accepting sockerr x iov).
Definition usock_recv (len : Z) : conn → outcome conn :=
  with_usock (λ x, nn_usock_recv (e_alloc e) (e_junk e) accepting sockerr x len).

(** [nn_fsm_raise] for the events of the connection. *)
Definition conn_raise (x : evt) (c : conn) : outcome conn :=
  nn_assert (bool_decide (x ∉ c_q c));; Ret (set_q (c_q c ++ [x]) c).

(** ** The pipe (core/pipe.c on the connection's own pipe) *)

Definition pipe_set_in (s : instate_t) (c : conn) : conn := set_pipe (set_in (c_pipe c) s) c.
Definition pipe_set_out (s : outstate_t) (c : conn) : conn := set_pipe (set_out (c_pipe c) s) c.

Definition pipebase_start (c : conn) : outcome (conn * Z) :=
  let b := c_pipe c in
  nn_assert (pstate b =? NN_PIPEBASE_STATE_IDLE);;
  let b := Pipebase NN_PIPEBASE_STATE_ACTIVE IN_ASYNC OUT_IDLE (pipedata b) (poptions b) in
  if e_add_rc e <? 0 then Ret (set_pipe (set_pstate b NN_PIPEBASE_STATE_FAILED) c, e_add_rc e)
  else c ← conn_raise (E_pipe NN_PIPE_OUT) (set_pipe b c); Ret (c, 0).

(** [nn_sock_rm] makes the protocol forget the pipe. *)
Definition pipebase_stop (c : conn) : conn :=
  let c := if pstate (c_pipe c) =? NN_PIPEBASE_STATE_ACTIVE then set_told false false c else c in
  set_pipe (set_pstate (c_pipe c) NN_PIPEBASE_STATE_IDLE) c.

Definition pipebase_received (c : conn) : outcome conn :=
  if decide (instate (c_pipe c) = IN_RECEIVING) then Ret (pipe_set_in IN_RECEIVED c)
  else
    nn_assert (bool_decide (instate (c_pipe c) = IN_ASYNC));;
    conn_raise (E_pipe NN_PIPE_IN) (pipe_set_in IN_IDLE c).

Definition pipebase_sent (c : conn) : outcome conn :=
  if decide (outstate (c_pipe c) = OUT_SENDING) then Ret (pipe_set_out OUT_SENT c)
  else
    nn_assert (bool_decide (outstate (c_pipe c) = OUT_ASYNC));;
    conn_raise (E_pipe NN_PIPE_OUT) (pipe_set_out OUT_IDLE c).

(** ** streamhdr.c *)

Definition on_hdr (f : nn_streamhdr → nn_streamhdr) (c : conn) : conn := set_hdr (f (c_hdr c)) c.

Definition hdr_stopped_active (c : conn) : bool :=
  existsb (λ x, match x with E_hdr_stopped _ => true | _ => false end) (c_q c).

Definition nn_streamhdr_init : nn_streamhdr :=
  Hdr NN_FSM_STATE_IDLE NN_STREAMHDR_STATE_IDLE nn_timer_init false None (replicate 8 0).

Definition nn_streamhdr_isidle (c : conn) : bool :=
  nn_fsm_isidle (λ c, h_fsm (c_hdr c)) hdr_stopped_active c.

Definition nn_streamhdr_term (c : conn) : outcome unit :=
  nn_assert (h_state (c_hdr c) =? NN_STREAMHDR_STATE_IDLE);;
  nn_timer_term (h_timer (c_hdr c));;
  nn_assert (nn_streamhdr_isidle c).

Definition hdr_timer_start (ms : Z) (c : conn) : outcome conn :=
  t ← nn_timer_start (h_timer (c_hdr c)) ms; Ret (on_hdr (set_h_timer t) c).
Definition hdr_timer_stop (c : conn) : outcome conn :=
  t ← nn_timer_stop (h_timer (c_hdr c)); Ret (on_hdr (set_h_timer t) c).

Definition nn_streamhdr_shutdown (c : conn) (src type : Z) (ptr : srcptr) : outcome conn :=
  c ← (if (src =? NN_FSM_ACTION) && (type =? NN_FSM_STOP) then
         c ← hdr_timer_stop c; Ret (on_hdr (set_h_state NN_STREAMHDR_STATE_STOPPING) c)
       else Ret c);
  if h_state (c_hdr c) =? NN_STREAMHDR_STATE_STOPPING then
    if negb (nn_timer_isidle (h_timer (c_hdr c))) then Ret c
    else
      nn_fsm_stopped (λ c, h_fsm (c_hdr c)) (λ c v, on_hdr (set_h_fsm v) c)
        (λ c t, conn_raise (E_hdr_stopped t) c)
        (on_hdr (set_h_state NN_STREAMHDR_STATE_IDLE) c) NN_STREAMHDR_STOPPED
  else nn_fsm_bad (h_state (c_hdr c)) src type.

(** The bytes ["\0SP\0"]. *)
Definition protohdr_magic : list Z := [0; 83; 80; 0].

(** The header exchange gives up: the timer is stopped first. *)
Definition hdr_error (c : conn) : outcome conn :=
  c ← hdr_timer_stop c; Ret (on_hdr (set_h_state NN_STREAMHDR_STATE_STOPPING_TIMER_ERROR) c).

Definition hdr_timeout (c : conn) (src type : Z) : outcome conn :=
  if type =? NN_TIMER_TIMEOUT then hdr_error c else nn_fsm_bad (h_state (c_hdr c)) src type.

Definition hdr_sending (c : conn) (src type : Z) : outcome conn :=
  if src =? NN_STREAMHDR_SRC_USOCK then
    if type =? NN_USOCK_SENT then
      c ← usock_recv (Z.of_nat (length (protohdr (c_hdr c)))) c;
      Ret (on_hdr (set_h_state NN_STREAMHDR_STATE_RECEIVING) c)
    else if type =? NN_USOCK_SHUTDOWN then Ret c
    else if type =? NN_USOCK_ERROR then hdr_error c
    else nn_fsm_bad (h_state (c_hdr c)) src type
  else if src =? NN_STREAMHDR_SRC_TIMER then hdr_timeout c src type
  else nn_fsm_bad (h_state (c_hdr c)) src type.

(** NN_USOCK_RECEIVED: the socket has stored the peer's header in [protohdr]. *)
Definition hdr_received (c : conn) : outcome conn :=
  let c := on_hdr (set_protohdr (in_dst (c_us c))) c in
  let h := protohdr (c_hdr c) in
  if negb (bool_decide (take 4 h = protohdr_magic)) then hdr_error c
  else
    protocol ← nn_gets (drop 4 h);
    if negb (e_ispeer e protocol) then hdr_error c
    else c ← hdr_timer_stop c; Ret (on_hdr (set_h_state NN_STREAMHDR_STATE_STOPPING_TIMER_DONE) c).

Definition hdr_receiving (c : conn) (src type : Z) : outcome conn :=
  if src =? NN_STREAMHDR_SRC_USOCK then
    if type =? NN_USOCK_RECEIVED then hdr_received c
    else if type =? NN_USOCK_SHUTDOWN then Ret c
    else if type =? NN_USOCK_ERROR then hdr_error c
    else Fail Abort
  else if src =? NN_STREAMHDR_SRC_TIMER then hdr_timeout c src type
  else nn_fsm_bad (h_state (c_hdr c)) src type.

(** The timer is stopped: the socket goes back to the connection. *)
Definition hdr_stopping (result : Z) (c : conn) (src type : Z) : outcome conn :=
  if src =? NN_STREAMHDR_SRC_USOCK then Ret c
  else if src =? NN_STREAMHDR_SRC_TIMER then
    if type =? NN_TIMER_STOPPED then
      o ← deref (h_owner (c_hdr c));
      let '(u, _) := nn_usock_swap_owner o (c_us c) in
      let c := on_hdr (set_h_state NN_STREAMHDR_STATE_DONE) (on_hdr (set_h_usock false None) (set_us u c)) in
      conn_raise (E_hdr_done result) c
    else nn_fsm_bad (h_state (c_hdr c)) src type
  else nn_fsm_bad (h_state (c_hdr c)) src type.

Definition nn_streamhdr_handler (c : conn) (src type : Z) (ptr : srcptr) : outcome conn :=
  let st := h_state (c_hdr c) in
  if st =? NN_STREAMHDR_STATE_IDLE then
    if (src =? NN_FSM_ACTION) && (type =? NN_FSM_START) then
      c ← hdr_timer_start 1000 c;
      c ← usock_send [protohdr (c_hdr c)] c;
      Ret (on_hdr (set_h_state NN_STREAMHDR_STATE_SENDING) c)
    else nn_fsm_bad st src type
  else if st =? NN_STREAMHDR_STATE_SENDING then hdr_sending c src type
  else if st =? NN_STREAMHDR_STATE_RECEIVING then hdr_receiving c src type
  else if st =? NN_STREAMHDR_STATE_STOPPING_TIMER_ERROR then hdr_stopping NN_STREAMHDR_ERROR c src type
  else if st =? NN_STREAMHDR_STATE_STOPPING_TIMER_DONE then hdr_stopping NN_STREAMHDR_OK c src type
  else nn_fsm_bad st src type.

Definition nn_streamhdr_start (c : conn) : outcome conn :=
  nn_assert (negb (h_usock (c_hdr c)) && bool_decide (h_owner (c_hdr c) = None));;
  let '(u, old) := nn_usock_swap_owner O_hdr (c_us c) in
  let c := on_hdr (set_h_usock true (Some old)) (set_us u c) in
  h ← puts_at (protohdr_magic ++ [0; 0; 0; 0]) 4 (u16 (e_protocol e));
  nn_fsm_start (λ c, h_fsm (c_hdr c)) (λ c v, on_hdr (set_h_fsm v) c) hdr_stopped_active
    nn_streamhdr_handler (on_hdr (set_protohdr h) c).

Definition nn_streamhdr_stop (c : conn) : outcome conn :=
  nn_fsm_stop (λ c, h_fsm (c_hdr c)) (λ c v, on_hdr (set_h_fsm v) c) nn_streamhdr_shutdown c.

Definition hdr_feed : conn → Z → Z → srcptr → outcome conn :=
  nn_fsm_feed (λ c, h_fsm (c_hdr c)) nn_streamhdr_handler nn_streamhdr_shutdown.

(** ** stcp.c and sipc.c *)

Definition on_st (f : nn_stcp → nn_stcp) (c : conn) : conn := set_st (f (c_st c)) c.

Definition stcp_stopped_active (c : conn) : bool :=
  existsb (λ x, match x with E_stopped _ => true | _ => false end) (c_q c).

(** The size of [inhdr] and [outhdr]: IPC has the type of the message first. *)
Definition hdr_len : nat := if e_ipc e then 9 else 8.

(** Serialising and parsing the header of a message. *)
Definition put_hdr (h : list Z) (size : Z) : outcome (list Z) :=
  if e_ipc e then h ← wr h 0 NN_SIPC_MSG_NORMAL; putll_at h 1 size else nn_putll h size.
Definition get_hdr (h : list Z) : outcome Z :=
  if e_ipc e then t ← rd h 0; nn_assert (t =? NN_SIPC_MSG_NORMAL);; nn_getll (drop 1 h)
  else nn_getll h.

Definition nn_stcp_init : nn_stcp :=
  Stcp NN_FSM_STATE_IDLE NN_STCP_STATE_IDLE false None (-1) (replicate hdr_len 0) [] (-1)
    (replicate hdr_len 0) (VMsg [] [] []).

Definition nn_stcp_isidle (c : conn) : bool :=
  nn_fsm_isidle (λ c, s_fsm (c_st c)) stcp_stopped_active c.

Definition nn_stcp_term (c : conn) : outcome unit :=
  nn_assert (s_state (c_st c) =? NN_STCP_STATE_IDLE);;
  nn_assert (pstate (c_pipe c) =? NN_PIPEBASE_STATE_IDLE);;
  nn_streamhdr_term c;;
  nn_assert (nn_stcp_isidle c).

Definition recv_hdr (c : conn) : outcome conn := usock_recv (Z.of_nat hdr_len) c.

Definition nn_stcp_send (c : conn) (msg : vmsg) : outcome (conn * Z) :=
  nn_assert (s_state (c_st c) =? NN_STCP_STATE_ACTIVE);;
  nn_assert (s_outstate (c_st c) =? NN_STCP_OUTSTATE_IDLE);;
  let c := on_st (set_s_outmsg msg) c in
  h ← put_hdr (outhdr (c_st c)) (u64 (Z.of_nat (length (sphdr msg)) + Z.of_nat (length (body msg))));
  c ← usock_send [h; sphdr msg; body msg] (on_st (set_outhdr h) c);
  Ret (on_st (set_s_outstate NN_STCP_OUTSTATE_SENDING) c, 0).

Definition nn_stcp_recv (c : conn) : outcome (conn * Z * vmsg) :=
  nn_assert (s_state (c_st c) =? NN_STCP_STATE_ACTIVE);;
  nn_assert (s_instate (c_st c) =? NN_STCP_INSTATE_HASMSG);;
  let msg := VMsg [] [] (s_inmsg (c_st c)) in
  c ← recv_hdr (on_st (set_s_instate NN_STCP_INSTATE_HDR) (on_st (set_s_inmsg []) c));
  Ret (c, 0, msg).

Definition stcp_done (c : conn) : outcome conn :=
  conn_raise (E_done NN_STCP_ERROR) (on_st (set_s_state NN_STCP_STATE_DONE) c).

Definition nn_stcp_shutdown (c : conn) (src type : Z) (ptr : srcptr) : outcome conn :=
  c ← (if (src =? NN_FSM_ACTION) && (type =? NN_FSM_STOP) then
         c ← nn_streamhdr_stop (pipebase_stop c); Ret (on_st (set_s_state NN_STCP_STATE_STOPPING) c)
       else Ret c);
  if s_state (c_st c) =? NN_STCP_STATE_STOPPING then
    if nn_streamhdr_isidle c then
      o ← deref (s_owner (c_st c));
      let '(u, _) := nn_usock_swap_owner o (c_us c) in
      let c := on_st (set_s_state NN_STCP_STATE_IDLE) (on_st (set_s_usock false None) (set_us u c)) in
      nn_fsm_stopped (λ c, s_fsm (c_st c)) (λ c v, on_st (set_s_fsm v) c)
        (λ c t, conn_raise (E_stopped t) c) c NN_STCP_STOPPED
    else Ret c
  else nn_fsm_bad (s_state (c_st c)) src type.

Definition stcp_protohdr (c : conn) (src type : Z) : outcome conn :=
  if src =? NN_STCP_SRC_STREAMHDR then
    if type =? NN_STREAMHDR_OK then
      c ← nn_streamhdr_stop c; Ret (on_st (set_s_state NN_STCP_STATE_STOPPING_STREAMHDR) c)
    else if type =? NN_STREAMHDR_ERROR then stcp_done c
    else nn_fsm_bad (s_state (c_st c)) src type
  else nn_fsm_bad (s_state (c_st c)) src type.

Definition stcp_stopping_streamhdr (c : conn) (src type : Z) : outcome conn :=
  if (src =? NN_STCP_SRC_STREAMHDR) && (type =? NN_STREAMHDR_STOPPED) then
    '(c, rc) ← pipebase_start c;
    if rc <? 0 then stcp_done c
    else
      c ← recv_hdr (on_st (set_s_instate NN_STCP_INSTATE_HDR) c);
      Ret (on_st (set_s_state NN_STCP_STATE_ACTIVE) (on_st (set_s_outstate NN_STCP_OUTSTATE_IDLE) c))
  else nn_fsm_bad (s_state (c_st c)) src type.

Definition stcp_sent (c : conn) : outcome conn :=
  nn_assert (s_outstate (c_st c) =? NN_STCP_OUTSTATE_SENDING);;
  pipebase_sent (on_st (set_s_outmsg (VMsg [] [] [])) (on_st (set_s_outstate NN_STCP_OUTSTATE_IDLE) c)).

(** The header of a message has been stored in [inhdr]. *)
Definition stcp_received_hdr (c : conn) : outcome conn :=
  let c := on_st (set_inhdr (in_dst (c_us c))) c in
  size ← get_hdr (inhdr (c_st c));
  let opt := e_rcvmaxsize e in
  if (0 <=? opt) && (u32 opt <? size) then stcp_done c
  else
    data ← msg_data (e_alloc e) (e_junk e) size;
    let c := on_st (set_s_inmsg data) c in
    if size =? 0 then pipebase_received (on_st (set_s_instate NN_STCP_INSTATE_HASMSG) c)
    else usock_recv size (on_st (set_s_instate NN_STCP_INSTATE_BODY) c).

(** The body has been stored in [inmsg]. *)
Definition stcp_received_body (c : conn) : outcome conn :=
  pipebase_received (on_st (set_s_instate NN_STCP_INSTATE_HASMSG) (on_st (set_s_inmsg (in_dst (c_us c))) c)).

Definition stcp_active (c : conn) (src type : Z) : outcome conn :=
  if src =? NN_STCP_SRC_USOCK then
    if type =? NN_USOCK_SENT then stcp_sent c
    else if type =? NN_USOCK_RECEIVED then
      if s_instate (c_st c) =? NN_STCP_INSTATE_HDR then stcp_received_hdr c
      else if s_instate (c_st c) =? NN_STCP_INSTATE_BODY then stcp_received_body c
      else Fail Abort
    else if type =? NN_USOCK_SHUTDOWN then
      Ret (on_st (set_s_state NN_STCP_STATE_SHUTTING_DOWN) (pipebase_stop c))
    else if type =? NN_USOCK_ERROR then stcp_done (pipebase_stop c)
    else nn_fsm_bad (s_state (c_st c)) src type
  else nn_fsm_bad (s_state (c_st c)) src type.

Definition stcp_shutting_down (c : conn) (src type : Z) : outcome conn :=
  if (src =? NN_STCP_SRC_USOCK) && (type =? NN_USOCK_ERROR) then stcp_done c
  else nn_fsm_bad (s_state (c_st c)) src type.

Definition nn_stcp_handler (c : conn) (src type : Z) (ptr : srcptr) : outcome conn :=
  let st := s_state (c_st c) in
  if st =? NN_STCP_STATE_IDLE then
    if (src =? NN_FSM_ACTION) && (type =? NN_FSM_START) then
      c ← nn_streamhdr_start c; Ret (on_st (set_s_state NN_STCP_STATE_PROTOHDR) c)
    else nn_fsm_bad st src type
  else if st =? NN_STCP_STATE_PROTOHDR then stcp_protohdr c src type
  else if st =? NN_STCP_STATE_STOPPING_STREAMHDR then stcp_stopping_streamhdr c src type
  else if st =? NN_STCP_STATE_ACTIVE then stcp_active c src type
  else if st =? NN_STCP_STATE_SHUTTING_DOWN then stcp_shutting_down c src type
  else nn_fsm_bad st src type.

Definition nn_stcp_start (c : conn) : outcome conn :=
  nn_assert (negb (s_usock (c_st c)) && bool_decide (s_owner (c_st c) = None));;
  let '(u, old) := nn_usock_swap_owner O_stream (c_us c) in
  nn_fsm_start (λ c, s_fsm (c_st c)) (λ c v, on_st (set_s_fsm v) c) stcp_stopped_active
    nn_stcp_handler (on_st (set_s_usock true (Some old)) (set_us u c)).

Definition nn_stcp_stop (c : conn) : outcome conn :=
  nn_fsm_stop (λ c, s_fsm (c_st c)) (λ c v, on_st (set_s_fsm v) c) nn_stcp_shutdown c.

Definition stcp_feed : conn → Z → Z → srcptr → outcome conn :=
  nn_fsm_feed (λ c, s_fsm (c_st c)) nn_stcp_handler nn_stcp_shutdown.

(** ** The protocol and its pipe *)

Definition pipe_send (c : conn) (msg : vmsg) : outcome (conn * Z) :=
  nn_assert (bool_decide (outstate (c_pipe c) = OUT_IDLE));;
  '(c, rc) ← nn_stcp_send (pipe_set_out OUT_SENDING c) msg;
  nn_assert (0 <=? rc);;
  if decide (outstate (c_pipe c) = OUT_SENT) then Ret (pipe_set_out OUT_IDLE c, rc)
  else
    nn_assert (bool_decide (outstate (c_pipe c) = OUT_SENDING));;
    Ret (pipe_set_out OUT_ASYNC c, Z.lor rc NN_PIPE_RELEASE).

Definition pipe_recv (c : conn) : outcome (conn * Z * vmsg) :=
  nn_assert (bool_decide (instate (c_pipe c) = IN_IDLE));;
  '(c, rc, msg) ← nn_stcp_recv (pipe_set_in IN_RECEIVING c);
  nn_assert (0 <=? rc);;
  if decide (instate (c_pipe c) = IN_RECEIVED) then Ret (pipe_set_in IN_IDLE c, rc, msg)
  else
    nn_assert (bool_decide (instate (c_pipe c) = IN_RECEIVING));;
    Ret (pipe_set_in IN_ASYNC c, Z.lor rc NN_PIPE_RELEASE, msg).

(** What a protocol does with the pipe.  It sends when it was told that the pipe
    is writable, receives when it was told that it is readable, and forgets what
    it was told when the result says so. *)
Inductive pipe_op : Type := O_send (m : vmsg) | O_recv.

Definition run_op (o : pipe_op) (c : conn) : outcome conn :=
  match o with
  | O_send m =>
      if c_out c then
        '(c, rc) ← pipe_send c m;
        Ret (set_told (negb (released rc)) (c_in c) (set_msgs (c_sent c ++ [m]) (c_rcvd c) c))
      else Ret c
  | O_recv =>
      if c_in c then
        '(c, rc, m) ← pipe_recv c;
        Ret (set_told (c_out c) (negb (released rc)) (set_msgs (c_sent c) (c_rcvd c ++ [m]) c))
      else Ret c
  end.

Fixpoint run_ops (os : list pipe_op) (c : conn) : outcome conn :=
  match os with [] => Ret c | o :: os => c ← run_op o c; run_ops os c end.

(** The socket passes an event of the pipe to the protocol, which has released
    what it knows of the pipe when the pipe was stopped. *)
Definition pipe_event (type : Z) (os : list pipe_op) (c : conn) : outcome conn :=
  if pstate (c_pipe c) =? NN_PIPEBASE_STATE_ACTIVE then
    run_ops os (if type =? NN_PIPE_OUT then set_told true (c_in c) c else set_told (c_out c) true c)
  else Fail Crash.

(** ** Steps *)

(** The next event: those of the timer come first; the worker raises them when
    the queue is empty.  The owner stops a connection that is done (atcp.c and its
    like); the events of a stopped connection are the owner's. *)
Definition next_event (os : list pipe_op) (c : conn) : outcome conn :=
  match tm_events (h_timer (c_hdr c)) with
  | t :: ts =>
      hdr_feed (on_hdr (set_h_timer (set_tm_events (h_timer (c_hdr c)) ts)) c) NN_STREAMHDR_SRC_TIMER t P_timer
  | [] =>
      match c_q c with
      | [] => Fail Crash
      | x :: q =>
          let c := set_q q c in
          match x with
          | E_usock _ O_hdr type => hdr_feed c NN_STREAMHDR_SRC_USOCK type P_null
          | E_usock _ O_stream type => stcp_feed c NN_STCP_SRC_USOCK type P_null
          | E_usock _ O_ep _ => Ret c
          | E_hdr_done type => stcp_feed c NN_STCP_SRC_STREAMHDR type P_null
          | E_hdr_stopped type => stcp_feed c NN_STCP_SRC_STREAMHDR type P_null
          | E_pipe type => pipe_event type os c
          | E_done _ => nn_stcp_stop c
          | E_stopped _ => Ret c
          end
      end
  end.

Inductive conn_step : Type :=
| X_event (os : list pipe_op)      (* the next event; a protocol that is told something may do [os] *)
| X_ops (os : list pipe_op)        (* the user calls the socket *)
| X_timer (s : wstep)              (* the worker thread *)
| X_usock (s : ustep)
| X_stop                           (* the endpoint is closed *)
| X_rx (i : rx_item)               (* the network *)
| X_tx (i : tx_item).

Definition quiet (c : conn) : bool :=
  bool_decide (c_q c = []) && bool_decide (tm_events (h_timer (c_hdr c)) = []).

Definition net (f : kernel → kernel) (c : conn) : conn := set_us (set_u_os (f (u_os (c_us c))) (c_us c)) c.

Definition conn_exec (c : conn) (x : conn_step) : outcome conn :=
  match x with
  | X_event os => next_event os c
  | X_ops os => run_ops os c
  | X_timer s => t ← worker_step (h_timer (c_hdr c)) s; Ret (on_hdr (set_h_timer t) c)
  | X_usock s => with_usock (λ x, usock_step (e_alloc e) (e_junk e) accepting sockerr x s) c
  | X_stop => nn_stcp_stop c
  | X_rx i => Ret (net (λ k, Kernel (k_rx k ++ [i]) (k_tx k) (k_read k) (k_written k)) c)
  | X_tx i => Ret (net (λ k, Kernel (k_rx k) (k_tx k ++ [i]) (k_read k) (k_written k)) c)
  end.

Definition conn_enabled (c : conn) (x : conn_step) : bool :=
  match x with
  | X_event _ => negb (quiet c)
  | X_ops _ | X_stop => quiet c
  | X_timer s => quiet c && worker_ready (h_timer (c_hdr c)) s
  | X_usock s => quiet c && usock_ready (c_us c) s
  | X_rx _ | X_tx _ => true
  end.

(** A connection is created on a socket that is connected; then it is started. *)
Definition conn_init (u : nn_usock) (b : nn_pipebase) : conn :=
  Conn u [] nn_streamhdr_init nn_stcp_init b false false [] [].

End code.

(** ** ipc/sipc.c

    The same code but for the header of a message: the constants of its states are
    those above. *)
Section sipc.
Context (e : st_env) (accepting : usock_ctx → Z → Z → srcptr → outcome usock_ctx) (sockerr : Z).

Definition ipc_env : st_env :=
  StEnv (e_alloc e) (e_junk e) (e_add_rc e) (e_rcvmaxsize e) (e_protocol e) (e_ispeer e) true.

Definition nn_sipc_init : nn_stcp := nn_stcp_init ipc_env.
Definition nn_sipc_term (c : conn) : outcome unit := nn_stcp_term c.
Definition nn_sipc_isidle (c : conn) : bool := nn_stcp_isidle c.
Definition nn_sipc_start (c : conn) : outcome conn := nn_stcp_start ipc_env accepting sockerr c.
Definition nn_sipc_stop (c : conn) : outcome conn := nn_stcp_stop c.
Definition nn_sipc_send (c : conn) (msg : vmsg) : outcome (conn * Z) := nn_stcp_send ipc_env accepting sockerr c msg.
Definition nn_sipc_recv (c : conn) : outcome (conn * Z * vmsg) := nn_stcp_recv ipc_env accepting sockerr c.
Definition nn_sipc_shutdown (c : conn) (src type : Z) (ptr : srcptr) : outcome conn := nn_stcp_shutdown c src type ptr.
Definition nn_sipc_handler (c : conn) (src type : Z) (ptr : srcptr) : outcome conn :=
  nn_stcp_handler ipc_env accepting sockerr c src type ptr.

End sipc.
