(* ===== verification/StreamSafe.v ===== *)
(** * What a stream connection keeps

    [conn_ok] lists the phases of a connection with what holds in each: where the
    header exchange, its timer, the connection, the pipe and the socket are, which
    events may be queued, and which bytes have been handed over.  Every step
    preserves it or fails for one of the reasons of [stream_fault].  The
    consequences: a peer can do no harm but what these reasons name, and two ends
    of a connection deliver the messages that were sent. *)
From S2P Require Import Prelude Wire Chunk Msg Fsm Pipe Usock UsockSafe Stream.

(** Computes the fields of a connection in the goal. *)
Ltac conn_red :=
  cbv beta iota delta [
    c_us c_q c_hdr c_st c_pipe c_out c_in c_sent c_rcvd set_us set_q set_hdr set_st set_pipe set_told
    set_msgs h_fsm h_state h_timer h_usock h_owner protohdr set_h_fsm set_h_state set_h_timer set_h_usock
    set_protohdr s_fsm s_state s_usock s_owner s_instate inhdr s_inmsg s_outstate outhdr s_outmsg
    set_s_fsm set_s_state set_s_usock set_s_instate set_inhdr set_s_inmsg set_s_outstate set_outhdr
    set_s_outmsg on_hdr on_st pipe_set_in pipe_set_out net fst snd ].

(** ** What is sent *)

Section wire.
Context (e : st_env).

Definition hello : list Z := protohdr_magic ++ be_split 2 (u16 (e_protocol e)) ++ [0; 0].

(** The header of a message of [size] bytes, and a message. *)
Definition msg_hdr (size : Z) : list Z := (if e_ipc e then [NN_SIPC_MSG_NORMAL] else []) ++ be_split 8 size.
Definition wire (m : vmsg) : list Z :=
  msg_hdr (u64 (Z.of_nat (length (sphdr m)) + Z.of_nat (length (body m)))) ++ sphdr m ++ body m.
Definition wires (ms : list vmsg) : list Z := concat (wire <$> ms).

Lemma wires_snoc ms m : wires (ms ++ [m]) = wires ms ++ wire m.
Proof. unfold wires. rewrite fmap_app, concat_app. cbn [fmap list_fmap concat]. by rewrite app_nil_r. Qed.

Lemma length_msg_hdr size : length (msg_hdr size) = hdr_len e.
Proof. unfold msg_hdr, hdr_len. rewrite length_app, length_be_split. by destruct (e_ipc e). Qed.

Lemma put_hdr_ok h size : length h = hdr_len e → put_hdr e h size = Ret (msg_hdr size).
Proof.
  intros Hl. unfold put_hdr, msg_hdr, putll_at, hdr_len in *. destruct (e_ipc e).
  - do 9 (destruct h as [|? h]; [done|]). destruct h; [|done]. step. cbn [wr]. unfold wr.
    rewrite decide_True by (cbn; lia). cbn [insert list_insert]. step. cbn [drop take].
    rewrite nn_putll_be. step. by rewrite app_nil_r.
  - do 8 (destruct h as [|? h]; [done|]). destruct h; [|done]. by rewrite nn_putll_be, app_nil_r.
Qed.

Lemma get_hdr_ok h : bytes h → length h = hdr_len e →
  (e_ipc e = true ∧ h !! 0%nat ≠ Some NN_SIPC_MSG_NORMAL ∧ get_hdr e h = Fail Abort) ∨
  ∃ size, get_hdr e h = Ret size ∧ 0 ≤ size < 2 ^ 64 ∧ h = msg_hdr size.
Proof.
  intros Hb Hl. unfold get_hdr, msg_hdr, hdr_len in *. 
  assert (∀ l, bytes l → length l = 8%nat →
    nn_getll l = Ret (be_combine l) ∧ 0 ≤ be_combine l < 2 ^ 64 ∧ l = be_split 8 (be_combine l)) as Hget.
  { intros l Bl Ll. pose proof (be_split_combine l Bl) as Hs. pose proof (be_combine_range l Bl) as Hr.
    rewrite Ll in Hs, Hr. split_and!; [|apply Hr..|done].
    do 8 (destruct l as [|? l]; [done|]). destruct l; [|done]. by apply nn_getll_be. }
  destruct (e_ipc e).
  - destruct h as [|t h]; [done|]. cbn [rd deref lookup list_lookup drop]. unfold rd. cbn [lookup list_lookup deref]. step.
    destruct (Z.eqb_spec t NN_SIPC_MSG_NORMAL) as [->|Ht]; [right|left; split_and!; [done|naive_solver|done]].
    apply Forall_cons in Hb as [_ Hb]. destruct (Hget h Hb) as (Hg & Hr & Hs); [by injection Hl|].
    exists (be_combine h). rewrite drop_0. split; [done|]. split; [done|]. by rewrite <- Hs.
  - right. destruct (Hget h Hb Hl) as (Hg & Hr & Hs). by exists (be_combine h).
Qed.

End wire.

(** ** The queue *)

(** The events of the pipe. *)
Definition pevs (q : list evt) : list Z := omap (λ x, match x with E_pipe t => Some t | _ => None end) q.

Lemma pevs_app q1 q2 : pevs (q1 ++ q2) = pevs q1 ++ pevs q2.
Proof. apply omap_app. Qed.

Lemma elem_pevs t q : t ∈ pevs q ↔ E_pipe t ∈ q.
Proof.
  unfold pevs. rewrite list_elem_of_omap. split; [|intros H; by exists (E_pipe t)].
  intros (x & Hx & E). destruct x; try done. by injection E as ->.
Qed.

(** An event of the socket or of the pipe. *)
Definition own (x : evt) : Prop := is_usock x = true ∨ x = E_pipe NN_PIPE_IN ∨ x = E_pipe NN_PIPE_OUT.

Lemma raised_pevs u q q' : raised u q q' → pevs q' = pevs q.
Proof. intros [->|(o & t & ->)]; [done|]. by rewrite pevs_app, app_nil_r. Qed.

Lemma raised_own u q q' : raised u q q' → Forall own q → Forall own q'.
Proof. intros [->|(o & t & ->)] ?; [done|]. apply Forall_app. split; [done|]. repeat constructor. Qed.

Definition all_usock (q : list evt) : Prop := Forall (λ x, is_usock x = true) q.

Lemma raised_usock u q q' : raised u q q' → all_usock q → all_usock q'.
Proof. intros [->|(o & t & ->)] ?; [done|]. apply Forall_app. split; [done|]. repeat constructor. Qed.

(** ** The socket of a connection: [C] was handed to its owner, [D] handed over by it *)

Record base (u : nn_usock) (q : list evt) (C : list Z) (w : option Z) (D : list Z) (b : bool) : Prop := Base {
  bs_u : u_ok u q;
  bs_rx : rx_ok u q C w;
  bs_tx : tx_ok u q D b;
}.

Lemma base_q u q q' C w D b : base u q C w D b → uobjs q' = uobjs q →
  (∀ o to t, E_usock o to t ∈ q' → E_usock o to t ∈ q) → base u q' C w D b.
Proof. intros [] Hq Hin. constructor; [by eapply u_ok_q|by eapply rx_ok_q|by eapply tx_ok_q]. Qed.

Lemma base_snoc u q x C w D b : base u q C w D b → is_usock x = false → base u (q ++ [x]) C w D b.
Proof.
  intros Hb Hx. eapply base_q; [done|by apply uobjs_snoc_other|].
  intros o to t [?|E%list_elem_of_singleton]%elem_of_app; [done|]. by subst x.
Qed.

Lemma base_tail u q x C w D b : base u (x :: q) C w D b → is_usock x = false → base u q C w D b.
Proof. intros Hb Hx. eapply base_q; [done|by rewrite uobjs_other|]. intros o to t ?. by right. Qed.

Lemma base_pop u o to t q C w D b : base u (E_usock o to t :: q) C w D b →
  to = u_owner u ∧ ∃ C' w' b', base u q C' w' D b' ∧ C `prefix_of` C'.
Proof.
  intros [Hu Hrx Htx]. destruct (u_ok_event _ _ _ _ _ Hu) as (Hu' & Hn & Hto & Hev & _). split; [done|].
  destruct o; try done.
  - destruct (tx_sent _ _ _ _ _ _ Htx Hn) as (_ & _ & ?). exists C, w, false. split; [|done].
    constructor; [done| |done]. eapply rx_other; [|exact Hrx]. discriminate.
  - destruct (rx_received _ _ _ _ _ _ Hrx Hn) as [_ ?]. exists (C ++ in_dst u), None, b.
    split; [|by apply prefix_app_r]. constructor; [done|done|]. eapply tx_other; [|exact Htx]. discriminate.
  - exists C, w, b. split; [|done].
    constructor; [done|eapply rx_other; [|exact Hrx]; discriminate|eapply tx_other; [|exact Htx]; discriminate].
Qed.

Lemma base_owner u q C w D b o : base u q C w D b → uobjs q = [] → base (set_u_owner o u) q C w D b.
Proof. intros [] ?. constructor; [by apply u_ok_owner|by eapply rx_frame|by eapply tx_frame]. Qed.

Lemma base_net_rx u q C w D b i : item_ok i → base u q C w D b → base (set_u_os (more_rx i (u_os u)) u) q C w D b.
Proof. intros ? []. constructor; [by apply u_ok_net|by eapply rx_frame|by eapply tx_frame]. Qed.

Lemma base_net_tx u q C w D b i : base u q C w D b → base (set_u_os (more_tx i (u_os u)) u) q C w D b.
Proof. intros []. constructor; [by apply u_ok_net_tx|by eapply rx_frame|by eapply tx_frame]. Qed.

(** A socket whose owner knows that it is broken: what it may still raise. *)
Definition closed (u : nn_usock) (q : list evt) : Prop :=
  (u_state u = NN_USOCK_STATE_REMOVING_FD ∧ uobjs q = []) ∨
  (u_state u = NN_USOCK_STATE_DONE ∧ (uobjs q = [] ∨ uobjs q = [UE_error])).

Lemma closed_stays alloc junk accepting sockerr u s u' q' :
  u_ok u [] → closed u [] → usock_ready u s = true →
  usock_step alloc junk accepting sockerr (u, []) s = Ret (u', q') → closed u' q'.
Proof.
  intros Hu Hc Hr E. pose proof (uo_fsm _ _ Hu) as Hf.
  assert (∀ u1, u_state u1 = u_state u → closed u1 []) as Hsame.
  { intros u1 Hu1. unfold closed. rewrite Hu1. destruct Hc as [?|[? _]]; [by left|right]. split; [done|by left]. }
  assert (∀ type, usock_feed alloc junk accepting sockerr (u, []) NN_USOCK_SRC_FD type P_null = Ret (u, [])) as Hoff.
  { intros type. destruct Hc as [[Hs _]|[Hs _]].
    - by rewrite feed_removing by (try done; by right; left).
    - by rewrite feed_done by (try done; by right; left). }
  destruct s; unfold usock_step in E; [|rewrite Hoff in E; injection E as <- <-; by apply Hsame..].
  cbn [fst] in E. destruct (u_tasks u) as [|t ts] eqn:Et; [done|].
  rewrite feed_task in E by exact Hf. unfold on_usock in E. cbn [fst snd] in E.
  repeat case_decide; [injection E as <- <-; by apply Hsame..|].
  assert (t ∈ u_tasks u) as Hin by (rewrite Et; by left).
  assert (t = NN_USOCK_SRC_TASK_STOP) as -> by (destruct (uo_tasks _ _ Hu t Hin) as [?|[?|[?|?]]]; done).
  pose proof (proj1 (uo_stop _ _ Hu) Hin) as Hs.
  rewrite feed_removing in E by (try exact Hf; try done; by right; right).
  change (usock_removing_fd (set_u_tasks ts u, []) NN_USOCK_SRC_TASK_STOP NN_WORKER_TASK_EXECUTE)
    with (usock_broken (set_u_tasks ts u, [])) in E.
  unfold usock_broken, usock_raise in E. cbn in E. injection E as <- <-. right. split; [done|]. by right.
Qed.

(** ** The phases of a connection *)

Section invariant.
Context (e : st_env).

(** Memory and the contents of new memory. *)
Definition st_env_ok : Prop := (∀ i, is_byte (e_junk e i)) ∧ (∀ n, e_alloc e n = true → n < 2 ^ 63).

(** The timer of the header exchange is running, or being stopped; its event
    comes when the queue is empty. *)
Definition running (q : list evt) (t : nn_timer) : Prop :=
  trep t T_armed ∨ tm_events t = [NN_TIMER_TIMEOUT] ∧ trep (set_tm_events t []) T_fired ∧ q = [].
Definition halting (q : list evt) (t : nn_timer) : Prop :=
  trep t T_stopping ∨ tm_events t = [NN_TIMER_STOPPED] ∧ trep (set_tm_events t []) T_idle ∧ q = [].

Definition exchange (q : list evt) (state : Z) (t : nn_timer) (C : list Z) (w : option Z) (b : bool) : Prop :=
  (state = NN_STREAMHDR_STATE_SENDING ∧ running q t ∧ C = [] ∧ w = None) ∨
  (state = NN_STREAMHDR_STATE_RECEIVING ∧ running q t ∧ C = [] ∧ w = Some 8 ∧ b = false) ∨
  (state = NN_STREAMHDR_STATE_STOPPING_TIMER_ERROR ∧ halting q t) ∨
  (state = NN_STREAMHDR_STATE_STOPPING_TIMER_DONE ∧ halting q t ∧ w = None ∧ b = false ∧ length C = 8%nat).

(** Receiving: a header, a body, or a message the protocol has not taken.  [P] is
    the peer's protocol header. *)
Definition inbound (q : list evt) (P C : list Z) (w : option Z) (rcvd : list vmsg) (state : Z) (msg : list Z)
    (s : instate_t) (ci : bool) : Prop :=
  (state = NN_STCP_INSTATE_HDR ∧ s = IN_ASYNC ∧ ci = false ∧ NN_PIPE_IN ∉ pevs q ∧
     w = Some (Z.of_nat (hdr_len e)) ∧ C = P ++ wires e rcvd) ∨
  (state = NN_STCP_INSTATE_BODY ∧ s = IN_ASYNC ∧ ci = false ∧ NN_PIPE_IN ∉ pevs q ∧
     ∃ size, 0 < size < 2 ^ 64 ∧ w = Some size ∧ C = P ++ wires e rcvd ++ msg_hdr e size) ∨
  (state = NN_STCP_INSTATE_HASMSG ∧ s = IN_IDLE ∧ (ci = true ∧ NN_PIPE_IN ∉ pevs q ∨ ci = false ∧ NN_PIPE_IN ∈ pevs q) ∧
     w = None ∧ Z.of_nat (length msg) < 2 ^ 64 ∧ C = P ++ wires e (rcvd ++ [VMsg [] [] msg])).

(** Sending: nothing, with the protocol knowing it or about to be told; or a message. *)
Definition outbound (q : list evt) (b : bool) (state : Z) (s : outstate_t) (co : bool) : Prop :=
  (state = NN_STCP_OUTSTATE_IDLE ∧ s = OUT_IDLE ∧ b = false ∧
     (co = true ∧ NN_PIPE_OUT ∉ pevs q ∨ co = false ∧ NN_PIPE_OUT ∈ pevs q)) ∨
  (state = NN_STCP_OUTSTATE_SENDING ∧ s = OUT_ASYNC ∧ b = true ∧ co = false ∧ NN_PIPE_OUT ∉ pevs q).

(** The messages received are among the bytes handed over. *)
Definition plain (m : vmsg) : Prop := sphdr m = [] ∧ hdrs m = [] ∧ Z.of_nat (length (body m)) < 2 ^ 64.
Definition taken (rcvd : list vmsg) (C : list Z) : Prop :=
  rcvd = [] ∨ ∃ P, length P = 8%nat ∧ P ++ wires e rcvd `prefix_of` C ∧ Forall plain rcvd.

(** [s] while the connection is in a state: its own fields, and the size of the
    buffer for the header of outgoing messages. *)
Definition st_at (fsm state : Z) (s : nn_stcp) : Prop :=
  s_fsm s = fsm ∧ s_state s = state ∧ s_usock s = true ∧ s_owner s = Some O_ep ∧ length (outhdr s) = hdr_len e.

Notation D0 sent := (hello e ++ wires e sent).

(** The connection exchanges messages. *)
Inductive in_session : conn → Prop :=
| In_session u q t ph s p co ci sent rcvd P C w b :
    base u q C w (D0 sent) b → u_owner u = O_stream → Forall own q → NoDup (pevs q) → trep t T_idle →
    st_at NN_FSM_STATE_ACTIVE NN_STCP_STATE_ACTIVE s → pstate p = NN_PIPEBASE_STATE_ACTIVE →
    length P = 8%nat → Forall plain rcvd →
    inbound q P C w rcvd (s_instate s) (s_inmsg s) (instate p) ci →
    outbound q b (s_outstate s) (outstate p) co →
    in_session (Conn u q (Hdr NN_FSM_STATE_IDLE NN_STREAMHDR_STATE_IDLE t false None ph) s p co ci sent rcvd).

Inductive conn_ok : conn → Prop :=
| ok_exchange u q state t ph s p C w b :
    base u q C w (D0 []) b → u_owner u = O_hdr → all_usock q → exchange q state t C w b → length ph = 8%nat →
    st_at NN_FSM_STATE_ACTIVE NN_STCP_STATE_PROTOHDR s → pstate p = NN_PIPEBASE_STATE_IDLE →
    conn_ok (Conn u q (Hdr NN_FSM_STATE_ACTIVE state t true (Some O_stream) ph) s p false false [] [])
| ok_hdr_done u t ph s p C w b type :
    base u [] C w (D0 []) b → u_owner u = O_stream → trep t T_idle →
    type = NN_STREAMHDR_OK ∧ w = None ∧ b = false ∧ length C = 8%nat ∨ type = NN_STREAMHDR_ERROR →
    st_at NN_FSM_STATE_ACTIVE NN_STCP_STATE_PROTOHDR s → pstate p = NN_PIPEBASE_STATE_IDLE →
    conn_ok (Conn u [E_hdr_done type] (Hdr NN_FSM_STATE_ACTIVE NN_STREAMHDR_STATE_DONE t false None ph) s p
      false false [] [])
| ok_stopping_hdr u t ph s p C :
    base u [] C None (D0 []) false → u_owner u = O_stream → trep t T_idle → length C = 8%nat →
    st_at NN_FSM_STATE_ACTIVE NN_STCP_STATE_STOPPING_STREAMHDR s → pstate p = NN_PIPEBASE_STATE_IDLE →
    conn_ok (Conn u [E_hdr_stopped NN_STREAMHDR_STOPPED] (Hdr NN_FSM_STATE_IDLE NN_STREAMHDR_STATE_IDLE t false None ph)
      s p false false [] [])
| ok_session c : in_session c → conn_ok c
| ok_shutting u q t ph s p sent rcvd C w b :
    base u q C w (D0 sent) b → closed u q → u_owner u = O_stream → Forall own q → trep t T_idle →
    st_at NN_FSM_STATE_ACTIVE NN_STCP_STATE_SHUTTING_DOWN s → pstate p = NN_PIPEBASE_STATE_IDLE → taken rcvd C →
    conn_ok (Conn u q (Hdr NN_FSM_STATE_IDLE NN_STREAMHDR_STATE_IDLE t false None ph) s p false false sent rcvd)
| ok_done u q fsm state t ph s p co ci sent rcvd C w b :
    base u q C w (D0 sent) b → u_owner u = O_stream → Forall own q → trep t T_idle →
    fsm = NN_FSM_STATE_IDLE ∧ state = NN_STREAMHDR_STATE_IDLE ∨
      fsm = NN_FSM_STATE_ACTIVE ∧ state = NN_STREAMHDR_STATE_DONE →
    st_at NN_FSM_STATE_ACTIVE NN_STCP_STATE_DONE s →
    pstate p = NN_PIPEBASE_STATE_ACTIVE ∨ uobjs q = [] ∧ co = false ∧ ci = false → taken rcvd C →
    conn_ok (Conn u (q ++ [E_done NN_STCP_ERROR]) (Hdr fsm state t false None ph) s p co ci sent rcvd)
| ok_stopping u q t ph s p sent rcvd C w b :
    base u q C w (D0 sent) b → u_owner u = O_hdr → all_usock q → halting q t →
    st_at NN_FSM_STATE_STOPPING NN_STCP_STATE_STOPPING s → pstate p = NN_PIPEBASE_STATE_IDLE → taken rcvd C →
    conn_ok (Conn u q (Hdr NN_FSM_STATE_STOPPING NN_STREAMHDR_STATE_STOPPING t true (Some O_stream) ph) s p
      false false sent rcvd)
| ok_hdr_stopped u t hu ho ph s p sent rcvd C w b :
    base u [] C w (D0 sent) b → trep t T_idle →
    st_at NN_FSM_STATE_STOPPING NN_STCP_STATE_STOPPING s → pstate p = NN_PIPEBASE_STATE_IDLE → taken rcvd C →
    conn_ok (Conn u [E_hdr_stopped NN_STREAMHDR_STOPPED] (Hdr NN_FSM_STATE_IDLE NN_STREAMHDR_STATE_IDLE t hu ho ph) s p
      false false sent rcvd)
| ok_stopped u q t hu ho ph s p sent rcvd C w b :
    base u q C w (D0 sent) b → u_owner u = O_ep → Forall (λ x, is_usock x = true ∨ x = E_stopped NN_STCP_STOPPED) q →
    trep t T_idle → s_fsm s = NN_FSM_STATE_IDLE → s_state s = NN_STCP_STATE_IDLE →
    pstate p = NN_PIPEBASE_STATE_IDLE → taken rcvd C →
    conn_ok (Conn u q (Hdr NN_FSM_STATE_IDLE NN_STREAMHDR_STATE_IDLE t hu ho ph) s p false false sent rcvd).

(** ** The ways a step can fail *)

Inductive stream_fault (c : conn) : fault → Prop :=
| sf_batch : e_alloc e NN_USOCK_BATCH_SIZE = false → stream_fault c Abort
| sf_memory to t q size : c_q c = E_usock UE_received to t :: q → in_dst (c_us c) = msg_hdr e size →
    e_rcvmaxsize e < 0 ∨ size ≤ u32 (e_rcvmaxsize e) → no_memory (e_alloc e) size → stream_fault c Abort
| sf_type to t q : c_q c = E_usock UE_received to t :: q → e_ipc e = true →
    in_dst (c_us c) !! 0%nat ≠ Some NN_SIPC_MSG_NORMAL → stream_fault c Abort
| sf_too_large : s_state (c_st c) = NN_STCP_STATE_DONE → pstate (c_pipe c) = NN_PIPEBASE_STATE_ACTIVE →
    stream_fault c Abort
| sf_gone t q : c_q c = E_pipe t :: q → pstate (c_pipe c) ≠ NN_PIPEBASE_STATE_ACTIVE → stream_fault c Crash.

(** A step from [c] that ends well or for one of these reasons. *)
Definition step_res (c : conn) (r : outcome conn) : Prop :=
  match r with Ret c' => conn_ok c' | Fail f => stream_fault c f end.

End invariant.

(** ** Steps *)

Section steps.
Context (e : st_env) (accepting : usock_ctx → Z → Z → srcptr → outcome usock_ctx) (sockerr : Z).
Context (He : st_env_ok e).

Notation exec := (conn_exec e accepting sockerr).
Notation res := (step_res e).
Notation conn_ok := (conn_ok e).

Lemma conn_net_ok c f : (∀ u q C w D b, base u q C w D b → base (set_u_os (f (u_os u)) u) q C w D b) →
  conn_ok c → conn_ok (net f c).
Proof.
  intros Hf Hc. destruct Hc; [| | |apply ok_session; match goal with Ha : in_session _ _ |- _ => destruct Ha end|..];
    conn_red; econstructor; first [by apply Hf|eassumption|done].
Qed.

(** *** The worker thread *)

Lemma halting_step q t s : halting q t → tm_events t = [] → q = [] → worker_ready t s = true →
  ∃ t', worker_step t s = Ret t' ∧ halting q t'.
Proof.
  intros [Ht|(Ht & _)] He0 -> Hr; [|by rewrite He0 in Ht].
  destruct (trep_worker t T_stopping s Ht Hr) as (t' & -> & _ & Ht'). eexists. split; [done|].
  destruct Ht' as [[_ ?]|[(? & _)|(_ & ? & ?)]]; [by left|done|by right].
Qed.

Lemma running_step q t s : running q t → tm_events t = [] → q = [] → worker_ready t s = true →
  ∃ t', worker_step t s = Ret t' ∧ running q t'.
Proof.
  intros [Ht|(Ht & _)] He0 -> Hr; [|by rewrite He0 in Ht].
  destruct (trep_worker t T_armed s Ht Hr) as (t' & -> & _ & Ht'). eexists. split; [done|].
  destruct Ht' as [[_ ?]|[(_ & ? & ?)|(? & _)]]; [by left|by right|done].
Qed.

Lemma exchange_timer q state t C w b s : exchange q state t C w b → tm_events t = [] → q = [] →
  worker_ready t s = true → ∃ t', worker_step t s = Ret t' ∧ exchange q state t' C w b.
Proof.
  intros Hx He0 Hq Hr. destruct Hx as [(Hs & Ht & Hx)|[(Hs & Ht & Hx)|[(Hs & Ht)|(Hs & Ht & Hx)]]].
  - destruct (running_step q t s Ht He0 Hq Hr) as (t' & ? & ?). exists t'. split; [done|]. by left.
  - destruct (running_step q t s Ht He0 Hq Hr) as (t' & ? & ?). exists t'. split; [done|]. by right; left.
  - destruct (halting_step q t s Ht He0 Hq Hr) as (t' & ? & ?). exists t'. split; [done|]. by do 2 right; left.
  - destruct (halting_step q t s Ht He0 Hq Hr) as (t' & ? & ?). exists t'. split; [done|]. by do 3 right.
Qed.

Lemma quiet_inv c : quiet c = true → c_q c = [] ∧ tm_events (h_timer (c_hdr c)) = [].
Proof. unfold quiet. by intros [?%bool_decide_eq_true ?%bool_decide_eq_true]%andb_true_iff. Qed.

Lemma conn_timer_ok c s : conn_ok c → conn_enabled c (X_timer s) = true → res c (exec c (X_timer s)).
Proof.
  intros Hc [[Hq Ht]%quiet_inv Hr]%andb_true_iff. cbn [conn_exec].
  destruct Hc; [| | |match goal with Ha : in_session _ _ |- _ => destruct Ha end|..]; conn_simpl; try discriminate Hq;
    try (rewrite trep_idle_worker in Hr by done; discriminate Hr).
  - match goal with Hx : exchange _ _ _ _ _ _ |- _ =>
      destruct (exchange_timer _ _ _ _ _ _ s Hx Ht Hq Hr) as (t' & -> & ?) end.
    step. unfold on_hdr; conn_simpl. by econstructor.
  - match goal with Hx : halting _ _ |- _ => destruct (halting_step _ _ s Hx Ht Hq Hr) as (t' & -> & ?) end.
    step. unfold on_hdr; conn_simpl. by econstructor.
Qed.

Lemma halting_q q q' t : halting q t → tm_events t = [] → halting q' t.
Proof. intros [?|(Ht & _)] He0; [by left|by rewrite He0 in Ht]. Qed.

Lemma running_q q q' t : running q t → tm_events t = [] → running q' t.
Proof. intros [?|(Ht & _)] He0; [by left|by rewrite He0 in Ht]. Qed.

Lemma exchange_q q q' state t C w b : exchange q state t C w b → tm_events t = [] → exchange q' state t C w b.
Proof.
  intros Hx He0. unfold exchange. destruct Hx as [(Hs & Ht & Hx)|[(Hs & Ht & Hx)|[(Hs & Ht)|(Hs & Ht & Hx)]]].
  - left. split; [done|]. split; [by eapply running_q|done].
  - right; left. split; [done|]. split; [by eapply running_q|done].
  - do 2 right; left. split; [done|]. by eapply halting_q.
  - do 3 right. split; [done|]. split; [by eapply halting_q|done].
Qed.

Lemma inbound_q q q' P C w rcvd state msg s ci :
  inbound e q P C w rcvd state msg s ci → pevs q' = pevs q → inbound e q' P C w rcvd state msg s ci.
Proof. unfold inbound. by intros H ->. Qed.

Lemma outbound_q q q' b state s co : outbound q b state s co → pevs q' = pevs q → outbound q' b state s co.
Proof. unfold outbound. by intros H ->. Qed.

Lemma raised_stopped u q q' : raised u q q' →
  Forall (λ x, is_usock x = true ∨ x = E_stopped NN_STCP_STOPPED) q →
  Forall (λ x, is_usock x = true ∨ x = E_stopped NN_STCP_STOPPED) q'.
Proof. intros [->|(o & t & ->)] ?; [done|]. apply Forall_app. split; [done|]. repeat constructor. Qed.

Lemma usock_work u s C w D b : base u [] C w D b → usock_ready u s = true →
  (usock_step (e_alloc e) (e_junk e) accepting sockerr (u, []) s = Fail Abort ∧ e_alloc e NN_USOCK_BATCH_SIZE = false) ∨
  ∃ u' q', usock_step (e_alloc e) (e_junk e) accepting sockerr (u, []) s = Ret (u', q') ∧
    base u' q' C w D b ∧ u_owner u' = u_owner u ∧ raised u [] q'.
Proof.
  intros [Hu Hrx Htx] Hr.
  destruct (usock_step_ok (e_alloc e) (e_junk e) (proj1 He) accepting sockerr u C w D b s Hu Hrx Htx Hr)
    as [(-> & _ & ?)|(u' & q' & -> & (Hu' & Ho & Hraised) & ? & ?)]; [by left|].
  right. by eexists _, _.
Qed.

Lemma conn_usock_ok c s : conn_ok c → conn_enabled c (X_usock s) = true → res c (exec c (X_usock s)).
Proof.
  intros Hc [[Hq Ht]%quiet_inv Hr]%andb_true_iff. cbn [conn_exec]. unfold with_usock. rewrite Hq.
  destruct Hc; [| | |match goal with Ha : in_session _ _ |- _ => destruct Ha end|..];
    conn_simpl; subst; try discriminate Hq; try (by destruct q; discriminate Hq);
    (match goal with Hb : base _ _ _ _ _ _ |- _ =>
       destruct (usock_work u s _ _ _ _ Hb Hr) as [[-> Hal]|(u' & q' & E & Hb' & Ho & Hrd)];
         [by apply sf_batch|]; rewrite E; step; unfold step_res; conn_red end).
  - econstructor; [exact Hb'|by rewrite Ho|by eapply raised_usock|by eapply exchange_q|done..].
  - apply ok_session. pose proof (raised_pevs _ _ _ Hrd) as Hpe. econstructor; [exact Hb'|by rewrite Ho|by eapply raised_own|by rewrite Hpe|done..| |].
    + by eapply inbound_q. 
    + by eapply outbound_q.
  - econstructor; [exact Hb'| |by rewrite Ho|by eapply raised_own|done..].
    eapply closed_stays; [|done..]. by eapply bs_u.
  - econstructor; [exact Hb'|by rewrite Ho|by eapply raised_usock|by eapply halting_q|done..].
  - econstructor; [exact Hb'|by rewrite Ho|by eapply raised_stopped|done..].
Qed.

(** *** Calls of the socket from a connection *)

Lemma conn_send c C w D iov : base (c_us c) (c_q c) C w D false → (length iov ≤ NN_USOCK_MAX_IOVCNT)%nat →
  ∃ u' q', usock_send e accepting sockerr iov c = Ret (set_q q' (set_us u' c)) ∧
    base u' q' C w (D ++ concat iov) true ∧ u_owner u' = u_owner (c_us c) ∧ raised (c_us c) (c_q c) q'.
Proof.
  intros [Hu Hrx Htx] Hl.
  destruct (usock_send_ok (e_alloc e) (e_junk e) (proj1 He) accepting sockerr _ _ _ _ _ iov Hu Hrx Htx Hl)
    as (u' & q' & E & (? & ? & ?) & ? & ?).
  exists u', q'. unfold usock_send, with_usock. by rewrite E.
Qed.

Lemma conn_recv c C D b n : base (c_us c) (c_q c) C None D b → 0 < n < 2 ^ 64 →
  (usock_recv e accepting sockerr n c = Fail Abort ∧ e_alloc e NN_USOCK_BATCH_SIZE = false) ∨
  ∃ u' q', usock_recv e accepting sockerr n c = Ret (set_q q' (set_us u' c)) ∧
    base u' q' C (Some n) D b ∧ u_owner u' = u_owner (c_us c) ∧ raised (c_us c) (c_q c) q'.
Proof.
  intros [Hu Hrx Htx] Hn.
  destruct (usock_recv_ok (e_alloc e) (e_junk e) (proj1 He) accepting sockerr _ _ _ _ _ n Hu Hrx Htx Hn)
    as [(E & _ & ?)|(u' & q' & E & (? & ? & ?) & ? & ?)].
  - left. unfold usock_recv, with_usock. by rewrite E.
  - right. exists u', q'. unfold usock_recv, with_usock. by rewrite E.
Qed.

Lemma hdr_len_range : 0 < Z.of_nat (hdr_len e) < 2 ^ 64.
Proof. unfold hdr_len. by destruct (e_ipc e). Qed.

(** *** The protocol uses the pipe *)

(** The protocol was told that the pipe is writable. *)
Lemma outbound_told q b state s : outbound q b state s true →
  state = NN_STCP_OUTSTATE_IDLE ∧ s = OUT_IDLE ∧ b = false ∧ NN_PIPE_OUT ∉ pevs q.
Proof. intros [(? & ? & ? & [[_ ?]|[? _]])|(_ & _ & _ & ? & _)]; done. Qed.

Lemma inbound_told q P C w rcvd state msg s : inbound e q P C w rcvd state msg s true →
  state = NN_STCP_INSTATE_HASMSG ∧ s = IN_IDLE ∧ NN_PIPE_IN ∉ pevs q ∧
  w = None ∧ Z.of_nat (length msg) < 2 ^ 64 ∧ C = P ++ wires e (rcvd ++ [VMsg [] [] msg]).
Proof.
  intros [(_ & _ & ? & _)|[(_ & _ & ? & _)|(? & ? & [[_ ?]|[? _]] & ? & ? & ?)]]; done.
Qed.

Lemma op_send_ok c m : in_session e c → ∃ c', run_op e accepting sockerr (O_send m) c = Ret c' ∧ in_session e c'.
Proof.
  intros [u q t ph s p co ci sent rcvd P C w b Hb Ho Hq Hnd Ht Hs Hp HP Hpl Hin Hout]. unfold run_op. conn_red.
  destruct co; [|eexists; split; [done|by econstructor]].
  destruct (outbound_told _ _ _ _ Hout) as (Eo & Ep & -> & Hn).
  destruct s as [sf ss su so ns ih im os oh om], p as [pp pi po pd px]. destruct Hs as (? & ? & ? & ? & Hoh). conn_simpl.
  cbn [instate outstate pstate] in *. subst.
  unfold pipe_send. conn_red. cbn [outstate pstate set_out]. step. unfold nn_stcp_send. conn_red.
  change (NN_STCP_STATE_ACTIVE =? NN_STCP_STATE_ACTIVE) with true.
  change (NN_STCP_OUTSTATE_IDLE =? NN_STCP_OUTSTATE_IDLE) with true.
  step. rewrite put_hdr_ok by done. step.
  set (c1 := Conn u q _ _ _ _ _ _ _).
  destruct (conn_send c1 C w _ [msg_hdr e (u64 (Z.of_nat (length (sphdr m)) + Z.of_nat (length (body m)))); sphdr m; body m] Hb)
    as (u' & q' & -> & Hb' & Ho' & Hrd); [done|]. subst c1. conn_red. step.
  cbn [outstate]. rewrite decide_False by done. step.
  eexists. split; [reflexivity|]. pose proof (raised_pevs _ _ _ Hrd) as Hpe.
  apply (In_session e u' q' t ph _ _ false ci (sent ++ [m]) rcvd P C w true); try done.
  - rewrite wires_snoc, app_assoc. unfold wire. cbn [concat] in Hb'. by rewrite app_nil_r in Hb'.
  - by rewrite Ho'.
  - by eapply raised_own.
  - by rewrite Hpe.
  - split_and!; try done. apply length_msg_hdr.
  - by eapply inbound_q.
  - right. by rewrite Hpe.
Qed.

Lemma op_recv_ok c : in_session e c →
  (run_op e accepting sockerr O_recv c = Fail Abort ∧ e_alloc e NN_USOCK_BATCH_SIZE = false) ∨
  ∃ c', run_op e accepting sockerr O_recv c = Ret c' ∧ in_session e c'.
Proof.
  intros [u q t ph s p co ci sent rcvd P C w b Hb Ho Hq Hnd Ht Hs Hp HP Hpl Hin Hout]. unfold run_op. conn_red.
  destruct ci; [|right; eexists; split; [done|by econstructor]].
  destruct (inbound_told _ _ _ _ _ _ _ _ Hin) as (Ei & Ep & Hn & -> & Hlen & HC).
  destruct s as [sf ss su so ns ih im os oh om], p as [pp pi po pd px]. destruct Hs as (? & ? & ? & ? & Hoh). conn_simpl.
  cbn [instate outstate pstate] in *. subst.
  unfold pipe_recv. conn_red. cbn [instate pstate set_in]. step. unfold nn_stcp_recv. conn_red.
  change (NN_STCP_STATE_ACTIVE =? NN_STCP_STATE_ACTIVE) with true.
  change (NN_STCP_INSTATE_HASMSG =? NN_STCP_INSTATE_HASMSG) with true.
  step. unfold recv_hdr.
  set (c1 := Conn u q _ _ _ _ _ _ _).
  destruct (conn_recv c1 _ _ b (Z.of_nat (hdr_len e)) Hb hdr_len_range)
    as [[-> Hal]|(u' & q' & -> & Hb' & Ho' & Hrd)]; [by left|right]. subst c1. conn_red. step.
  cbn [instate]. rewrite decide_False by done. step.
  eexists. split; [reflexivity|]. pose proof (raised_pevs _ _ _ Hrd) as Hpe.
  eapply (In_session e u' q' t ph _ _ co false sent (rcvd ++ [VMsg [] [] im]) P); try done.
  - by rewrite Ho'.
  - by eapply raised_own.
  - by rewrite Hpe.
  - apply Forall_app. split; [done|]. repeat constructor; done.
  - left. by rewrite Hpe.
  - by eapply outbound_q.
Qed.

Lemma run_ops_ok os c : in_session e c →
  (run_ops e accepting sockerr os c = Fail Abort ∧ e_alloc e NN_USOCK_BATCH_SIZE = false) ∨
  ∃ c', run_ops e accepting sockerr os c = Ret c' ∧ in_session e c'.
Proof.
  revert c. induction os as [|o os IH]; intros c Hc; [right; by exists c|]. cbn [run_ops].
  destruct o as [m|].
  - destruct (op_send_ok c m Hc) as (c1 & -> & Hc1). step. by apply IH.
  - destruct (op_recv_ok c Hc) as [[-> ?]|(c1 & -> & Hc1)]; [by left|]. step. by apply IH.
Qed.

(** A protocol that was told nothing does nothing. *)
Lemma run_ops_idle os c : c_out c = false → c_in c = false → run_ops e accepting sockerr os c = Ret c.
Proof.
  intros Ho Hi. induction os as [|o os IH]; [done|]. cbn [run_ops].
  assert (run_op e accepting sockerr o c = Ret c) as -> by (destruct o; cbn; by rewrite ?Ho, ?Hi). step. exact IH.
Qed.

(** After an oversized message every use of the pipe aborts. *)
Lemma run_ops_done os c : s_state (c_st c) = NN_STCP_STATE_DONE →
  run_ops e accepting sockerr os c = Ret c ∨ run_ops e accepting sockerr os c = Fail Abort.
Proof.
  intros Hs. induction os as [|o os IH]; [by left|]. cbn [run_ops].
  assert (run_op e accepting sockerr o c = Ret c ∨ run_op e accepting sockerr o c = Fail Abort) as [-> | ->]; [|exact IH|by right].
  destruct o; cbn [run_op].
  - destruct (c_out c); [|by left]. right. unfold pipe_send. case_bool_decide; [|done]. step.
    unfold nn_stcp_send. by rewrite (Hs : s_state (c_st (pipe_set_out OUT_SENDING c)) = _).
  - destruct (c_in c); [|by left]. right. unfold pipe_recv. case_bool_decide; [|done]. step.
    unfold nn_stcp_recv. by rewrite (Hs : s_state (c_st (pipe_set_in IN_RECEIVING c)) = _).
Qed.

Lemma conn_ops_ok c os : conn_ok c → conn_enabled c (X_ops os) = true → res c (exec c (X_ops os)).
Proof.
  intros Hc [Hq _]%quiet_inv. cbn [conn_exec].
  destruct Hc as [| | |c Ha| | | | |]; try (by rewrite run_ops_idle; [econstructor|..]).
  - destruct (run_ops_ok os c Ha) as [[-> ?]|(c' & -> & ?)]; [by apply sf_batch|by apply ok_session].
  - conn_simpl. by destruct q.
Qed.

(** *** The owner stops the connection *)

Definition stopped_pipe (p : nn_pipebase) : nn_pipebase := set_pstate p NN_PIPEBASE_STATE_IDLE.

(** [nn_pipebase_stop]: the protocol knows nothing of the pipe any more. *)
Lemma pipebase_stop_ok c : pstate (c_pipe c) = NN_PIPEBASE_STATE_ACTIVE ∨ c_out c = false ∧ c_in c = false →
  pipebase_stop c = set_told false false (set_pipe (stopped_pipe (c_pipe c)) c).
Proof.
  intros H. unfold pipebase_stop, stopped_pipe. destruct (Z.eqb_spec (pstate (c_pipe c)) NN_PIPEBASE_STATE_ACTIVE); [done|].
  destruct H as [?|[Ho Hi]]; [done|]. destruct c; conn_simpl. by subst.
Qed.

(** The header exchange is idle: the connection stops at once. *)
Lemma stop_idle u t hu ho ph s p co ci sent rcvd state C w b :
  base u [] C w (hello e ++ wires e sent) b → trep t T_idle → st_at e NN_FSM_STATE_ACTIVE state s →
  pstate p = NN_PIPEBASE_STATE_ACTIVE ∨ co = false ∧ ci = false → taken e rcvd C →
  ∃ c', nn_stcp_stop (Conn u [] (Hdr NN_FSM_STATE_IDLE NN_STREAMHDR_STATE_IDLE t hu ho ph) s p co ci sent rcvd) = Ret c' ∧
    conn_ok c'.
Proof.
  intros Hb Ht (Hf & Hs & Hsu & Hso & Hoh) Hp Htk. unfold nn_stcp_stop, nn_fsm_stop. conn_simpl. rewrite Hf.
  unfold nn_stcp_shutdown.
  change ((NN_FSM_ACTION =? NN_FSM_ACTION) && (NN_FSM_STOP =? NN_FSM_STOP)) with true. cbn [negb].
  change (NN_FSM_STATE_ACTIVE =? NN_FSM_STATE_ACTIVE) with true. cbn match.
  rewrite pipebase_stop_ok by done. conn_red.
  unfold nn_streamhdr_stop at 1. unfold nn_fsm_stop at 1. conn_red.
  change (NN_FSM_STATE_IDLE =? NN_FSM_STATE_ACTIVE) with false. cbn [negb]. step. conn_red.
  change (NN_STCP_STATE_STOPPING =? NN_STCP_STATE_STOPPING) with true. cbn match.
  match goal with |- context [nn_streamhdr_isidle ?c] => change (nn_streamhdr_isidle c) with true end.
  destruct s as [sf ss su so ns ih im os oh om]. conn_simpl. subst. step. unfold nn_usock_swap_owner. cbn match.
  unfold nn_fsm_stopped. conn_red. change (NN_FSM_STATE_STOPPING =? NN_FSM_STATE_STOPPING) with true. step.
  unfold conn_raise. conn_red. rewrite bool_decide_true by apply not_elem_of_nil. step. conn_red.
  eexists. split; [reflexivity|]. eapply ok_stopped; try done.
  - apply base_snoc; [|done]. by apply base_owner.
  - constructor; [by right|constructor].
Qed.

(** The header exchange is under way or has failed: it is stopped first. *)
Lemma stop_hdr u q fsm state t hu ho ph s p sent rcvd st co ci :
  tm_events t = [] → fsm = NN_FSM_STATE_ACTIVE → st_at e NN_FSM_STATE_ACTIVE st s →
  pstate p = NN_PIPEBASE_STATE_ACTIVE ∨ co = false ∧ ci = false →
  ∀ ph0, trep t ph0 → (ph0 = T_idle → q = []) →
  ∃ t' s', nn_stcp_stop (Conn u q (Hdr fsm state t hu ho ph) s p co ci sent rcvd) =
    Ret (if decide (ph0 = T_idle)
         then Conn u [E_hdr_stopped NN_STREAMHDR_STOPPED] (Hdr NN_FSM_STATE_IDLE NN_STREAMHDR_STATE_IDLE t' hu ho ph) s'
                (stopped_pipe p) false false sent rcvd
         else Conn u q (Hdr NN_FSM_STATE_STOPPING NN_STREAMHDR_STATE_STOPPING t' hu ho ph) s'
                (stopped_pipe p) false false sent rcvd) ∧
    trep t' (if decide (ph0 = T_idle) then T_idle else T_stopping) ∧
    st_at e NN_FSM_STATE_STOPPING NN_STCP_STATE_STOPPING s'.
Proof.
  intros Hev -> (Hf & Hs & Hsu & Hso & Hoh) Hp ph0 Ht Hq. unfold nn_stcp_stop, nn_fsm_stop. conn_simpl. rewrite Hf.
  unfold nn_stcp_shutdown.
  change ((NN_FSM_ACTION =? NN_FSM_ACTION) && (NN_FSM_STOP =? NN_FSM_STOP)) with true.
  change (NN_FSM_STATE_ACTIVE =? NN_FSM_STATE_ACTIVE) with true. cbn [negb]. cbn match.
  rewrite pipebase_stop_ok by done. conn_red.
  unfold nn_streamhdr_stop. unfold nn_fsm_stop. conn_red.
  change (NN_FSM_STATE_ACTIVE =? NN_FSM_STATE_ACTIVE) with true. cbn [negb].
  unfold nn_streamhdr_shutdown. change ((NN_FSM_ACTION =? NN_FSM_ACTION) && (NN_FSM_STOP =? NN_FSM_STOP)) with true.
  cbn match. unfold hdr_timer_stop. conn_red.
  destruct (trep_stop t ph0 Ht) as (t' & -> & Ht'). step. conn_red.
  change (NN_STREAMHDR_STATE_STOPPING =? NN_STREAMHDR_STATE_STOPPING) with true. cbn match.
  rewrite (trep_isidle _ _ Ht').
  destruct s as [sf ss su so ns ih im os oh om]. conn_simpl. subst.
  case_decide as Hph.
  - rewrite Hq by done. rewrite bool_decide_true by done. cbn [negb]. unfold nn_fsm_stopped. conn_red.
    change (NN_FSM_STATE_STOPPING =? NN_FSM_STATE_STOPPING) with true. step.
    unfold conn_raise. conn_red. rewrite bool_decide_true by apply not_elem_of_nil. step. conn_red.
    change (NN_STCP_STATE_STOPPING =? NN_STCP_STATE_STOPPING) with true. cbn match.
    match goal with |- context [nn_streamhdr_isidle ?c] => change (nn_streamhdr_isidle c) with false end.
    eexists _, _. split; [reflexivity|]. done.
  - rewrite bool_decide_false by done. cbn [negb]. step. conn_red.
    change (NN_STCP_STATE_STOPPING =? NN_STCP_STATE_STOPPING) with true. cbn match.
    match goal with |- context [nn_streamhdr_isidle ?c] => change (nn_streamhdr_isidle c) with false end.
    eexists _, _. split; [reflexivity|]. done.
Qed.

Lemma inbound_taken q P C w rcvd state msg s ci :
  inbound e q P C w rcvd state msg s ci → length P = 8%nat → Forall plain rcvd → taken e rcvd C.
Proof.
  intros Hin HP Hpl. right. exists P. split; [done|]. split; [|done].
  destruct Hin as [(_ & _ & _ & _ & _ & ->)|[(_ & _ & _ & _ & size & _ & _ & ->)|(_ & _ & _ & _ & _ & ->)]]; [done|..].
  - rewrite app_assoc. by apply prefix_app_r.
  - rewrite wires_snoc, app_assoc. by apply prefix_app_r.
Qed.

Lemma exchange_phase q state t C w b : exchange q state t C w b → tm_events t = [] →
  ∃ ph, trep t ph ∧ ph ≠ T_idle.
Proof.
  assert (∀ q, running q t → tm_events t = [] → ∃ ph, trep t ph ∧ ph ≠ T_idle) as Hr.
  { intros q' [?|(Ht & _)] He0; [by exists T_armed|by rewrite He0 in Ht]. }
  assert (∀ q, halting q t → tm_events t = [] → ∃ ph, trep t ph ∧ ph ≠ T_idle) as Hh.
  { intros q' [?|(Ht & _)] He0; [by exists T_stopping|by rewrite He0 in Ht]. }
  intros [(_ & ? & _)|[(_ & ? & _)|[(_ & ?)|(_ & ? & _)]]] ?; by eauto.
Qed.

Lemma conn_stop_ok c : conn_ok c → quiet c = true → res c (nn_stcp_stop c).
Proof.
  intros Hc [Hq Hev]%quiet_inv.
  destruct Hc as [u q state t ph s p C w b Hb Ho Hu Hx Hph Hs Hp| | |c Ha|u q t ph s p sent rcvd C w b Hb _ Ho _ Ht Hs Hp Htk| | | |];
    conn_simpl; try discriminate Hq; try (by destruct q; discriminate Hq).
  - destruct (exchange_phase _ _ _ _ _ _ Hx Hev) as (ph0 & Ht & Hne).
    destruct (stop_hdr u q NN_FSM_STATE_ACTIVE state t true (Some O_stream) ph s p [] [] _ false false Hev eq_refl Hs
      (or_intror (conj eq_refl eq_refl)) ph0 Ht) as (t' & s' & -> & Ht' & Hs'); [done|].
    rewrite (decide_False (P := ph0 = T_idle)) by done. rewrite (decide_False (P := ph0 = T_idle)) in Ht' by done.
    eapply ok_stopping; try done; [by left|by left].
  - destruct Ha as [u q t ph s p co ci sent rcvd P C w b Hb Ho Hq' Hnd Ht Hs Hp HP Hpl Hin Hout]. conn_simpl. subst q.
    destruct (stop_idle u t false None ph s p co ci sent rcvd _ C w b Hb Ht Hs) as (c' & -> & ?); [by left| |done].
    by eapply inbound_taken.
  - subst q.
    destruct (stop_idle u t false None ph s p false false sent rcvd _ C w b Hb Ht Hs) as (c' & -> & ?); [by right|done|done].
  - match goal with H : st_at _ _ _ _ |- _ => pose proof H as (Hf & _) end.
    unfold nn_stcp_stop, nn_fsm_stop. conn_simpl. rewrite Hf.
    change (NN_FSM_STATE_STOPPING =? NN_FSM_STATE_ACTIVE) with false. cbn [negb]. by econstructor.
  - unfold nn_stcp_stop, nn_fsm_stop. conn_simpl. 
    match goal with H : s_fsm _ = _ |- _ => rewrite H end.
    change (NN_FSM_STATE_IDLE =? NN_FSM_STATE_ACTIVE) with false. cbn [negb]. by econstructor.
Qed.

(** *** Events of the header exchange *)

Notation hfeed := (hdr_feed e accepting sockerr).

Lemma hfeed_eq c src type ptr : h_fsm (c_hdr c) = NN_FSM_STATE_ACTIVE →
  (h_state (c_hdr c) = NN_STREAMHDR_STATE_SENDING → hfeed c src type ptr = hdr_sending e accepting sockerr c src type) ∧
  (h_state (c_hdr c) = NN_STREAMHDR_STATE_RECEIVING → hfeed c src type ptr = hdr_receiving e c src type) ∧
  (h_state (c_hdr c) = NN_STREAMHDR_STATE_STOPPING_TIMER_ERROR →
     hfeed c src type ptr = hdr_stopping NN_STREAMHDR_ERROR c src type) ∧
  (h_state (c_hdr c) = NN_STREAMHDR_STATE_STOPPING_TIMER_DONE →
     hfeed c src type ptr = hdr_stopping NN_STREAMHDR_OK c src type).
Proof.
  intros Hf. unfold hdr_feed, nn_fsm_feed. rewrite Hf.
  change (negb (NN_FSM_STATE_ACTIVE =? NN_FSM_STATE_STOPPING)) with true. cbn match.
  unfold nn_streamhdr_handler. by split_and!; intros ->.
Qed.

Lemma hdr_timer_stop_ok c ph : trep (h_timer (c_hdr c)) ph → ph ≠ T_idle →
  ∃ t, hdr_timer_stop c = Ret (on_hdr (set_h_timer t) c) ∧ trep t T_stopping.
Proof.
  intros Ht Hne. unfold hdr_timer_stop. destruct (trep_stop _ _ Ht) as (t & -> & Ht'). exists t.
  rewrite decide_False in Ht' by done. done.
Qed.

Lemma hdr_error_ok c ph : trep (h_timer (c_hdr c)) ph → ph ≠ T_idle →
  ∃ t, hdr_error c = Ret (on_hdr (set_h_state NN_STREAMHDR_STATE_STOPPING_TIMER_ERROR) (on_hdr (set_h_timer t) c)) ∧
    trep t T_stopping.
Proof.
  intros Ht Hne. unfold hdr_error. destruct (hdr_timer_stop_ok c ph Ht Hne) as (t & -> & ?). by exists t.
Qed.

Lemma running_now q t : running q t → tm_events t = [] → trep t T_armed.
Proof. intros [?|(Ht & _)] He0; [done|by rewrite He0 in Ht]. Qed.

Lemma halting_now q t : halting q t → tm_events t = [] → trep t T_stopping.
Proof. intros [?|(Ht & _)] He0; [done|by rewrite He0 in Ht]. Qed.

(** The end of the exchange by the timer: it has fired, or it is stopped. *)
Lemma exchange_fired c0 u q state t ph s p C w b ev evs :
  base u q C w (hello e ++ wires e []) b → u_owner u = O_hdr → exchange q state t C w b → length ph = 8%nat →
  st_at e NN_FSM_STATE_ACTIVE NN_STCP_STATE_PROTOHDR s → pstate p = NN_PIPEBASE_STATE_IDLE → tm_events t = ev :: evs →
  res c0 (hfeed (Conn u q (Hdr NN_FSM_STATE_ACTIVE state (set_tm_events t evs) true (Some O_stream) ph) s p false false [] [])
     NN_STREAMHDR_SRC_TIMER ev P_timer).
Proof.
  intros Hb Ho Hx Hph Hs Hp Hev.
  set (c := Conn _ _ _ _ _ _ _ _ _).
  assert (running q t → ev = NN_TIMER_TIMEOUT ∧ evs = [] ∧ trep (set_tm_events t evs) T_fired ∧ q = []) as Hrun.
  { intros [[He0 _]|(He0 & ? & ?)]; [by rewrite He0 in Hev|]. rewrite Hev in He0. by injection He0 as -> ->. }
  assert (halting q t → ev = NN_TIMER_STOPPED ∧ evs = [] ∧ trep (set_tm_events t evs) T_idle ∧ q = []) as Hhalt.
  { intros [[He0 _]|(He0 & ? & ?)]; [by rewrite He0 in Hev|]. rewrite Hev in He0. by injection He0 as -> ->. }
  assert (running q t → res c0 (hdr_timeout c NN_STREAMHDR_SRC_TIMER ev)) as Htimeout.
  { intros (-> & -> & Ht & ->)%Hrun. change (hdr_timeout c NN_STREAMHDR_SRC_TIMER NN_TIMER_TIMEOUT) with (hdr_error c).
    destruct (hdr_error_ok c T_fired Ht) as (t' & -> & ?); [done|]. unfold c, step_res. conn_red.
    eapply ok_exchange; try done; [constructor|]. do 2 right; left. split; [done|]. by left. }
  assert (∀ result, halting q t → (result = NN_STREAMHDR_OK ∧ w = None ∧ b = false ∧ length C = 8%nat ∨ result = NN_STREAMHDR_ERROR) →
     res c0 (hdr_stopping result c NN_STREAMHDR_SRC_TIMER ev)) as Hstopped.
  { intros result (-> & -> & Ht & ->)%Hhalt Hr.
    change (hdr_stopping result c NN_STREAMHDR_SRC_TIMER NN_TIMER_STOPPED) with
      (conn_raise (E_hdr_done result) (Conn (set_u_owner O_stream u) [] (Hdr NN_FSM_STATE_ACTIVE NN_STREAMHDR_STATE_DONE (set_tm_events t []) false None ph) s p false false [] [])).
    unfold conn_raise. conn_red. rewrite bool_decide_true by apply not_elem_of_nil. step. unfold step_res. conn_red.
    eapply ok_hdr_done; try done. by apply base_owner. }
  destruct (hfeed_eq c NN_STREAMHDR_SRC_TIMER ev P_timer eq_refl) as (Hse & Hre & Her & Hok).
  destruct Hx as [(-> & Ht & _)|[(-> & Ht & _)|[(-> & Ht)|(-> & Ht & ? & ? & ?)]]].
  - rewrite Hse by done. by apply Htimeout.
  - rewrite Hre by done. by apply Htimeout.
  - rewrite Her by done. apply Hstopped; [done|by right].
  - rewrite Hok by done. apply Hstopped; [done|by left].
Qed.

Lemma hdr_received_cases c : bytes (in_dst (c_us c)) → length (in_dst (c_us c)) = 8%nat →
  let c1 := on_hdr (set_protohdr (in_dst (c_us c))) c in
  hdr_received e c = hdr_error c1 ∨
  hdr_received e c = (c ← hdr_timer_stop c1; Ret (on_hdr (set_h_state NN_STREAMHDR_STATE_STOPPING_TIMER_DONE) c)).
Proof.
  intros Hb Hl. cbv zeta. unfold hdr_received. set (c1 := on_hdr _ c).
  change (protohdr (c_hdr c1)) with (in_dst (c_us c)).
  case_bool_decide; cbn [negb]; [|by left].
  clearbody c1. generalize dependent (in_dst (c_us c)). intros l Hb Hl _.
  do 8 (destruct l as [|? l]; [done|]). cbn [drop].
  do 4 (apply Forall_cons in Hb as [_ Hb]).
  apply Forall_cons in Hb as [? Hb]. apply Forall_cons in Hb as [? Hb].
  rewrite nn_gets_be by auto using bytes_cons, bytes_nil. step. destruct (e_ispeer e _); [by right|by left].
Qed.

(** A socket event during the exchange. *)
Lemma exchange_event c0 u o to type q state t ph s p C w b :
  base u (E_usock o to type :: q) C w (hello e ++ wires e []) b → u_owner u = O_hdr → all_usock q →
  exchange (E_usock o to type :: q) state t C w b → length ph = 8%nat →
  st_at e NN_FSM_STATE_ACTIVE NN_STCP_STATE_PROTOHDR s → pstate p = NN_PIPEBASE_STATE_IDLE → tm_events t = [] →
  res c0 (hfeed (Conn u q (Hdr NN_FSM_STATE_ACTIVE state t true (Some O_stream) ph) s p false false [] [])
     NN_STREAMHDR_SRC_USOCK type P_null).
Proof.
  intros Hb Ho Hq Hx Hph Hs Hp Hev.
  pose proof Hb as [Hu Hrx Htx]. destruct (u_ok_event _ _ _ _ _ Hu) as (Hu' & Hn & _ & Hty & _).
  set (c := Conn _ _ _ _ _ _ _ _ _).
  destruct (hfeed_eq c NN_STREAMHDR_SRC_USOCK type P_null eq_refl) as (Hse & Hre & Her & Hok).
  (* Giving up. *)
  assert (∀ ph' C' w' b', length ph' = 8%nat → base u q C' w' (hello e ++ wires e []) b' → running (E_usock o to type :: q) t →
    res c0 (hdr_error (on_hdr (set_protohdr ph') c))) as Herror.
  { intros ph' C' w' b' Hph' Hb' Ht%running_now; [|done].
    destruct (hdr_error_ok (on_hdr (set_protohdr ph') c) T_armed Ht) as (t' & -> & ?); [done|].
    unfold c, step_res. conn_red. eapply ok_exchange; try done. do 2 right; left. split; [done|]. by left. }
  (* An event that changes nothing. *)
  assert (∀ C' w' b', base u q C' w' (hello e ++ wires e []) b' → exchange q state t C' w' b' → res c0 (Ret c)) as Hsame.
  { intros. unfold c, step_res. by eapply ok_exchange. }
  assert (o = UE_error → base u q C w (hello e ++ wires e []) b) as Hberr.
  { intros ->. constructor; [done|eapply rx_other; [|exact Hrx]; discriminate|eapply tx_other; [|exact Htx]; discriminate]. }
  assert (set_protohdr ph (c_hdr c) = c_hdr c) as Hid by done.
  destruct Hx as [(-> & Ht & HC & Hw)|[(-> & Ht & HC & Hw & Hbf)|[(-> & Ht)|(-> & Ht & Hw & Hbf & HC)]]].
  - rewrite Hse by done. subst C w. destruct o; cbn in Hty; try done; subst; try (by destruct Hrx as [_ [Hbad _]]; destruct Hbad; left).
    + destruct (tx_sent _ _ _ _ _ _ Htx Hn) as (-> & _ & Htx').
      change (hdr_sending e accepting sockerr c NN_STREAMHDR_SRC_USOCK NN_USOCK_SENT) with
        (c ← usock_recv e accepting sockerr (Z.of_nat (length ph)) c; Ret (on_hdr (set_h_state NN_STREAMHDR_STATE_RECEIVING) c)).
      assert (rx_ok u q [] None) as Hrx' by (eapply rx_other; [|exact Hrx]; discriminate).
      rewrite Hph. destruct (conn_recv c [] _ false (Z.of_nat 8) (Base _ _ _ _ _ _ Hu' Hrx' Htx'))
        as [[-> ?]|(u' & q' & -> & Hb' & Ho' & Hrd)]; [done|by apply sf_batch|].
      step. unfold c, step_res. conn_red. eapply ok_exchange; try done; [by rewrite Ho'|by eapply raised_usock|].
      right; left. split_and!; try done. by eapply running_q.
    + destruct Hty as [[_ ->]|[_ ->]].
      * eapply Hsame; [by apply Hberr|]. left. split_and!; try done. by eapply running_q.
      * eapply (Herror ph); [done|by apply Hberr|done].
  - rewrite Hre by done. subst C w b. destruct o; cbn in Hty; try done; subst; try (by destruct Htx as [_ [Hbad _]]; destruct Hbad; left).
    + destruct (rx_received _ _ _ _ _ _ Hrx Hn) as [[= Hlen] Hrx'].
      assert (length (in_dst u) = 8%nat) as Hl by lia.
      assert (base u q ([] ++ in_dst u) None (hello e ++ wires e []) false) as Hb'.
      { constructor; [done|done|eapply tx_other; [|exact Htx]; discriminate]. }
      change (hdr_receiving e c NN_STREAMHDR_SRC_USOCK NN_USOCK_RECEIVED) with (hdr_received e c).
      destruct (hdr_received_cases c (uo_dst _ _ Hu) Hl) as [-> | ->].
      * by eapply Herror.
      * destruct (hdr_timer_stop_ok (on_hdr (set_protohdr (in_dst (c_us c))) c) T_armed) as (t' & -> & ?); [by eapply running_now|done|].
        step. unfold c, step_res. conn_red. eapply ok_exchange; try done.
        do 3 right. split_and!; try done. by left.
    + destruct Hty as [[_ ->]|[_ ->]].
      * eapply Hsame; [by apply Hberr|]. right; left. split_and!; try done. by eapply running_q.
      * eapply (Herror ph); [done|by apply Hberr|done].
  - rewrite Her by done. destruct (base_pop _ _ _ _ _ _ _ _ _ Hb) as (_ & C' & w' & b' & Hb' & _).
    eapply Hsame; [done|]. do 2 right; left. split; [done|]. by eapply halting_q.
  - rewrite Hok by done. subst w b. destruct o; cbn in Hty; try done;
      [by destruct Htx as [_ [Hbad _]]; destruct Hbad; left|by destruct Hrx as [_ [Hbad _]]; destruct Hbad; left|].
    eapply Hsame; [by apply Hberr|]. do 3 right. split_and!; try done. by eapply halting_q.
Qed.

(** *** Events of the connection *)

Notation sfeed := (stcp_feed e accepting sockerr).

Lemma sfeed_eq c src type ptr : s_fsm (c_st c) = NN_FSM_STATE_ACTIVE →
  (s_state (c_st c) = NN_STCP_STATE_PROTOHDR → sfeed c src type ptr = stcp_protohdr c src type) ∧
  (s_state (c_st c) = NN_STCP_STATE_STOPPING_STREAMHDR →
     sfeed c src type ptr = stcp_stopping_streamhdr e accepting sockerr c src type) ∧
  (s_state (c_st c) = NN_STCP_STATE_ACTIVE → sfeed c src type ptr = stcp_active e accepting sockerr c src type) ∧
  (s_state (c_st c) = NN_STCP_STATE_SHUTTING_DOWN → sfeed c src type ptr = stcp_shutting_down c src type) ∧
  (s_state (c_st c) = NN_STCP_STATE_DONE → sfeed c src type ptr = Fail Abort).
Proof.
  intros Hf. unfold stcp_feed, nn_fsm_feed. rewrite Hf.
  change (negb (NN_FSM_STATE_ACTIVE =? NN_FSM_STATE_STOPPING)) with true. cbn match.
  unfold nn_stcp_handler. by split_and!; intros ->.
Qed.

Lemma own_other q x : Forall own q → (∀ o to t, x ≠ E_usock o to t) → (∀ t, x ≠ E_pipe t) → x ∉ q.
Proof.
  intros Hq Hu Hp Hin. apply Forall_forall with (x := x) in Hq; [|done].
  destruct Hq as [Hq|[-> | ->]]; [|by destruct (Hp NN_PIPE_IN)|by destruct (Hp NN_PIPE_OUT)].
  destruct x; try done. by eapply Hu.
Qed.

Lemma stcp_done_ok c : Forall own (c_q c) →
  stcp_done c = Ret (set_q (c_q c ++ [E_done NN_STCP_ERROR]) (on_st (set_s_state NN_STCP_STATE_DONE) c)).
Proof. intros Hq. unfold stcp_done, conn_raise. conn_red. by rewrite bool_decide_true by (by apply own_other). Qed.

Lemma hdr_done_event c0 u t ph s p C w b type :
  base u [] C w (hello e ++ wires e []) b → u_owner u = O_stream → trep t T_idle →
  type = NN_STREAMHDR_OK ∧ w = None ∧ b = false ∧ length C = 8%nat ∨ type = NN_STREAMHDR_ERROR →
  st_at e NN_FSM_STATE_ACTIVE NN_STCP_STATE_PROTOHDR s → pstate p = NN_PIPEBASE_STATE_IDLE →
  res c0 (sfeed (Conn u [] (Hdr NN_FSM_STATE_ACTIVE NN_STREAMHDR_STATE_DONE t false None ph) s p false false [] [])
    NN_STCP_SRC_STREAMHDR type P_null).
Proof.
  intros Hb Ho Ht Hty (Hf & Hs & Hsu & Hso & Hoh) Hp. set (c := Conn _ _ _ _ _ _ _ _ _).
  destruct (sfeed_eq c NN_STCP_SRC_STREAMHDR type P_null Hf) as (Heq & _). rewrite (Heq Hs). clear Heq.
  destruct Hty as [(-> & -> & -> & HC)| ->].
  - change (stcp_protohdr c NN_STCP_SRC_STREAMHDR NN_STREAMHDR_OK) with
      (c ← nn_streamhdr_stop c; Ret (on_st (set_s_state NN_STCP_STATE_STOPPING_STREAMHDR) c)).
    unfold nn_streamhdr_stop, nn_fsm_stop, c. conn_red.
    change (NN_FSM_STATE_ACTIVE =? NN_FSM_STATE_ACTIVE) with true. cbn [negb].
    unfold nn_streamhdr_shutdown. change ((NN_FSM_ACTION =? NN_FSM_ACTION) && (NN_FSM_STOP =? NN_FSM_STOP)) with true.
    cbn match. unfold hdr_timer_stop. conn_red. destruct (trep_stop t T_idle Ht) as (t' & -> & Ht'). step. conn_red.
    change (NN_STREAMHDR_STATE_STOPPING =? NN_STREAMHDR_STATE_STOPPING) with true. cbn match.
    rewrite decide_True in Ht' by done. rewrite (trep_isidle _ _ Ht'), bool_decide_true by done. cbn [negb].
    unfold nn_fsm_stopped. conn_red. change (NN_FSM_STATE_STOPPING =? NN_FSM_STATE_STOPPING) with true. step.
    unfold conn_raise. conn_red. rewrite bool_decide_true by apply not_elem_of_nil. step. unfold step_res. conn_red.
    cbn [app]. by eapply ok_stopping_hdr.
  - change (stcp_protohdr c NN_STCP_SRC_STREAMHDR NN_STREAMHDR_ERROR) with (stcp_done c).
    rewrite stcp_done_ok by constructor. unfold c, step_res. conn_red.
    eapply ok_done; try done; [by right|by right|by left].
Qed.

Lemma hdr_stopped_event c0 u t ph s p C :
  base u [] C None (hello e ++ wires e []) false → u_owner u = O_stream → trep t T_idle → length C = 8%nat →
  st_at e NN_FSM_STATE_ACTIVE NN_STCP_STATE_STOPPING_STREAMHDR s → pstate p = NN_PIPEBASE_STATE_IDLE →
  res c0 (sfeed (Conn u [] (Hdr NN_FSM_STATE_IDLE NN_STREAMHDR_STATE_IDLE t false None ph) s p false false [] [])
    NN_STCP_SRC_STREAMHDR NN_STREAMHDR_STOPPED P_null).
Proof.
  intros Hb Ho Ht HC (Hf & Hs & Hsu & Hso & Hoh) Hp. set (c := Conn _ _ _ _ _ _ _ _ _).
  destruct (sfeed_eq c NN_STCP_SRC_STREAMHDR NN_STREAMHDR_STOPPED P_null Hf) as (_ & Heq & _).
  rewrite (Heq Hs). clear Heq. unfold stcp_stopping_streamhdr.
  change ((NN_STCP_SRC_STREAMHDR =? NN_STCP_SRC_STREAMHDR) && (NN_STREAMHDR_STOPPED =? NN_STREAMHDR_STOPPED)) with true.
  cbn match. unfold pipebase_start, c. conn_red. rewrite Hp. change (NN_PIPEBASE_STATE_IDLE =? NN_PIPEBASE_STATE_IDLE) with true. step.
  destruct (Z.ltb_spec (e_add_rc e) 0) as [Hrc|Hrc].
  - step. rewrite (proj2 (Z.ltb_lt _ _) Hrc). rewrite stcp_done_ok by constructor. unfold step_res. conn_red.
    eapply ok_done; try done; [by left|by right|by left].
  - unfold conn_raise. conn_red. rewrite bool_decide_true by apply not_elem_of_nil. step. conn_red.
    change (0 <? 0) with false. cbn match. unfold recv_hdr. set (c1 := Conn _ _ _ _ _ _ _ _ _).
    destruct (conn_recv c1 C _ false _ (base_snoc _ _ (E_pipe NN_PIPE_OUT) _ _ _ _ Hb eq_refl) hdr_len_range)
      as [[-> ?]|(u' & q' & -> & Hb' & Ho' & Hrd)]; [by apply sf_batch|].
    step. unfold c1, step_res. conn_red. apply ok_session. cbn [c1 c_us c_q] in Hrd, Ho'.
    pose proof (raised_pevs _ _ _ Hrd) as Hpe.
    eapply (In_session e u' q' t ph _ _ false false [] [] C C); try done.
    + by rewrite Ho'.
    + eapply raised_own; [done|]. constructor; [by right; right|constructor].
    + rewrite Hpe. apply NoDup_singleton.
    + left. rewrite Hpe. split_and!; try done; [|by rewrite app_nil_r]. intros Hin%list_elem_of_singleton. discriminate Hin.
    + left. rewrite Hpe. split_and!; try done. right. split; [done|]. by apply list_elem_of_singleton.
Qed.

Lemma taken_mono rcvd C C' : C `prefix_of` C' → taken e rcvd C → taken e rcvd C'.
Proof. intros HC [->|(P & ? & ? & ?)]; [by left|right]. exists P. split; [done|]. split; [by etrans|done]. Qed.

Lemma wire_plain im : wire e (VMsg [] [] im) = msg_hdr e (u64 (Z.of_nat (length im))) ++ im.
Proof. done. Qed.

Definition at_q (u : nn_usock) (t : nn_timer) (ph : list Z) (s : nn_stcp) (p : nn_pipebase) (co ci : bool)
    (sent rcvd : list vmsg) (q : list evt) : conn :=
  Conn u q (Hdr NN_FSM_STATE_IDLE NN_STREAMHDR_STATE_IDLE t false None ph) s p co ci sent rcvd.

(** An event of the socket while the connection is active. *)
Section active_event.
Context (u : nn_usock) (o : uobj) (to : uowner) (type : Z) (q : list evt) (t : nn_timer) (ph : list Z).
Context (s : nn_stcp) (p : nn_pipebase) (co ci : bool) (sent rcvd : list vmsg) (P C : list Z) (w : option Z) (b : bool).

Context (Hb : base u (E_usock o to type :: q) C w (hello e ++ wires e sent) b).
Context (Ho : u_owner u = O_stream) (Hq : Forall own q) (Hnd : NoDup (pevs q)) (Ht : trep t T_idle).
Context (Hs : st_at e NN_FSM_STATE_ACTIVE NN_STCP_STATE_ACTIVE s) (Hp : pstate p = NN_PIPEBASE_STATE_ACTIVE).
Context (HP : length P = 8%nat) (Hpl : Forall plain rcvd).
Context (Hin : inbound e q P C w rcvd (s_instate s) (s_inmsg s) (instate p) ci).
Context (Hout : outbound q b (s_outstate s) (outstate p) co).

Notation before := (at_q u t ph s p co ci sent rcvd (E_usock o to type :: q)).
Notation now := (at_q u t ph s p co ci sent rcvd q).

Lemma event_facts : u_ok u q ∧ o ∉ uobjs q ∧ uev_ok u o type ∧ (o = UE_error → uobjs q = []).
Proof. destruct (u_ok_event _ _ _ _ _ (bs_u _ _ _ _ _ _ Hb)) as (? & ? & _ & ? & ?). done. Qed.

Lemma event_error : o = UE_error → base u q C w (hello e ++ wires e sent) b.
Proof.
  intros Hoe. destruct event_facts as (Hu & _). pose proof Hb as [_ Hrx Htx]. subst o.
  constructor; [done|eapply rx_other; [|exact Hrx]; discriminate|eapply tx_other; [|exact Htx]; discriminate].
Qed.

(** The message is sent: the protocol may send the next. *)
Lemma active_sent : o = UE_sent → res before (stcp_sent now).
Proof.
  intros Hoe. destruct event_facts as (Hu & Hn & _). pose proof Hb as [_ Hrx Htx]. subst o.
  destruct (tx_sent _ _ _ _ _ _ Htx Hn) as (-> & _ & Htx').
  destruct Hout as [(_ & _ & ? & _)|(Eo & Ep & _ & -> & Hno)]; [done|].
  destruct Hs as (? & ? & ? & ? & Hoh). destruct s as [sf ss su so ns ih im os oh om], p as [pp pi po pd px].
  cbn [s_outstate s_instate s_inmsg instate outstate pstate s_fsm s_state s_usock s_owner outhdr] in *. subst.
  unfold stcp_sent, at_q. conn_red.
  change (NN_STCP_OUTSTATE_SENDING =? NN_STCP_OUTSTATE_SENDING) with true. step.
  unfold pipebase_sent. conn_red. cbn [outstate set_out pstate instate]. rewrite decide_False by done.
  rewrite bool_decide_true by done. step. unfold conn_raise. conn_red.
  assert (E_pipe NN_PIPE_OUT ∉ q) as Hnq by (by rewrite <- elem_pevs).
  rewrite bool_decide_true by done. step. unfold step_res. conn_red. apply ok_session.
  eapply (In_session e u _ t ph _ _ false ci sent rcvd P C w false); try done.
  - apply base_snoc; [|done]. constructor; [done|eapply rx_other; [|exact Hrx]; discriminate|done].
  - apply Forall_app. split; [done|]. constructor; [by right; right|constructor].
  - rewrite pevs_app. apply NoDup_app. split; [done|]. split; [|apply NoDup_singleton].
    intros x Hx ->%list_elem_of_singleton. done.
  - unfold inbound in Hin |- *. rewrite pevs_app. 
    assert (NN_PIPE_IN ∈ pevs q ++ pevs [E_pipe NN_PIPE_OUT] ↔ NN_PIPE_IN ∈ pevs q) as ->.
    { rewrite elem_of_app. split; [|by left]. intros [?|Hx%list_elem_of_singleton]; [done|discriminate Hx]. }
    exact Hin.
  - left. split_and!; try done. right. split; [done|]. rewrite pevs_app, elem_of_app. right. by apply list_elem_of_singleton.
Qed.

(** The connection breaks. *)
Lemma active_shutdown : o = UE_error → type = NN_USOCK_SHUTDOWN →
  res before (Ret (on_st (set_s_state NN_STCP_STATE_SHUTTING_DOWN) (pipebase_stop now))).
Proof.
  intros Hoe Htype. destruct event_facts as (Hu & Hn & Hty & Hlast). pose proof (event_error Hoe) as Hb'. subst o type.
  rewrite pipebase_stop_ok by (by left). unfold step_res, at_q. conn_red.
  destruct s as [sf ss su so ns ih im os oh om]. destruct Hs as (? & ? & ? & ? & Hoh). conn_simpl. subst.
  eapply ok_shutting; try done.
  - destruct Hty as [[? _]|[_ Hx]]; [|discriminate Hx]. left. split; [done|]. by apply Hlast.
  - by eapply inbound_taken.
Qed.

Lemma active_broken : o = UE_error → res before (stcp_done (pipebase_stop now)).
Proof.
  intros Hoe. destruct event_facts as (Hu & Hn & Hty & Hlast). pose proof (event_error Hoe) as Hb'.
  rewrite pipebase_stop_ok by (by left). rewrite stcp_done_ok by done. unfold step_res, at_q. conn_red.
  destruct s as [sf ss su so ns ih im os oh om]. destruct Hs as (? & ? & ? & ? & Hoh). conn_simpl. subst.
  eapply ok_done; try done.
  - by left.
  - right. split; [by apply Hlast|done].
  - by eapply inbound_taken.
Qed.

(** A message is complete: the protocol is told. *)
Lemma active_message im' C' ns' :
  base u q C' None (hello e ++ wires e sent) b → instate p = IN_ASYNC → ci = false → NN_PIPE_IN ∉ pevs q →
  Z.of_nat (length im') < 2 ^ 64 → C' = P ++ wires e (rcvd ++ [VMsg [] [] im']) → ns' = NN_STCP_INSTATE_HASMSG →
  ∀ ih', res before (pipebase_received (on_st (set_s_instate ns') (on_st (set_s_inmsg im') (on_st (set_inhdr ih') now)))).
Proof.
  intros Hb' Ep -> Hni Hl -> -> ih'. destruct Hs as (? & ? & ? & ? & Hoh).
  destruct s as [sf ss su so ns ih im os oh om], p as [pp pi po pd px].
  cbn [s_outstate s_instate s_inmsg instate outstate pstate s_fsm s_state s_usock s_owner outhdr] in *. subst.
  unfold pipebase_received, at_q. conn_red. cbn [instate outstate pstate set_in]. rewrite decide_False by done.
  rewrite bool_decide_true by done. step. unfold conn_raise. conn_red.
  assert (E_pipe NN_PIPE_IN ∉ q) as Hnq by (by rewrite <- elem_pevs).
  rewrite bool_decide_true by done. step. unfold step_res. conn_red. apply ok_session.
  eapply (In_session e u _ t ph _ _ co false sent rcvd P); try done.
  - by apply base_snoc.
  - apply Forall_app. split; [done|]. constructor; [by right; left|constructor].
  - rewrite pevs_app. apply NoDup_app. split; [done|]. split; [|apply NoDup_singleton].
    intros x Hx ->%list_elem_of_singleton. done.
  - do 2 right. split_and!; try done. right. split; [done|]. rewrite pevs_app, elem_of_app. right. by apply list_elem_of_singleton.
  - unfold outbound in Hout |- *. rewrite pevs_app. 
    assert (NN_PIPE_OUT ∈ pevs q ++ pevs [E_pipe NN_PIPE_IN] ↔ NN_PIPE_OUT ∈ pevs q) as ->.
    { rewrite elem_of_app. split; [|by left]. intros [?|Hx%list_elem_of_singleton]; [done|discriminate Hx]. }
    exact Hout.
Qed.

(** What was stored is the owner's. *)
Lemma event_received : o = UE_received →
  w = Some (Z.of_nat (length (in_dst u))) ∧ bytes (in_dst u) ∧ base u q (C ++ in_dst u) None (hello e ++ wires e sent) b.
Proof.
  intros Hoe. destruct event_facts as (Hu & Hn & _). pose proof Hb as [_ Hrx Htx]. subst o.
  destruct (rx_received _ _ _ _ _ _ Hrx Hn) as [-> Hrx']. split; [done|]. split; [exact (uo_dst _ _ Hu)|].
  constructor; [done|done|]. eapply tx_other; [|exact Htx]. discriminate.
Qed.

Lemma active_body : o = UE_received → s_instate s = NN_STCP_INSTATE_BODY → res before (stcp_received_body now).
Proof.
  intros Hoe Hns. destruct (event_received Hoe) as (Hw & _ & Hb').
  destruct Hin as [(Hbad & _)|[(_ & Ep & Hci & Hni & size & Hsz & Hw' & HC)|(Hbad & _)]];
    [by rewrite Hns in Hbad| |by rewrite Hns in Hbad].
  rewrite Hw in Hw'. injection Hw' as Hw'. unfold stcp_received_body.
  assert (on_st (set_s_instate NN_STCP_INSTATE_HASMSG) (on_st (set_s_inmsg (in_dst (c_us now))) now) =
    on_st (set_s_instate NN_STCP_INSTATE_HASMSG) (on_st (set_s_inmsg (in_dst u)) (on_st (set_inhdr (inhdr s)) now))) as ->
    by (unfold at_q; conn_red; by destruct s).
  eapply active_message; [exact Hb'|done..|lia| |done].
  rewrite HC, wires_snoc, wire_plain, <- !app_assoc. rewrite Hw'. unfold u64. by rewrite Z.mod_small by lia.
Qed.

Lemma active_hdr : o = UE_received → s_instate s = NN_STCP_INSTATE_HDR →
  res before (stcp_received_hdr e accepting sockerr now).
Proof.
  intros Hoe Hns. destruct (event_received Hoe) as (Hw & Bd & Hb').
  destruct Hin as [(_ & Ep & Hci & Hni & Hw' & HC)|[(Hbad & _)|(Hbad & _)]];
    [|by rewrite Hns in Hbad|by rewrite Hns in Hbad].
  rewrite Hw in Hw'. injection Hw' as Hlen%Nat2Z.inj. unfold stcp_received_hdr.
  set (c1 := on_st (set_inhdr _) now). change (inhdr (c_st c1)) with (in_dst u).
  destruct (get_hdr_ok e (in_dst u) Bd Hlen) as [(Hipc & Hty & ->)|(size & -> & Hsize & Hdst)].
  { subst o. by eapply sf_type. }
  step. destruct ((0 <=? e_rcvmaxsize e) && (u32 (e_rcvmaxsize e) <? size)) eqn:Hmax.
  - rewrite stcp_done_ok by done. unfold c1, at_q, step_res. conn_red.
    destruct s as [sf ss su so ns ih im os oh om]. destruct Hs as (? & ? & ? & ? & Hoh). conn_simpl. subst.
    eapply ok_done; try done; [by left|by left|].
    eapply taken_mono; [|by eapply inbound_taken]. by apply prefix_app_r.
  - destruct (msg_data_ok (e_alloc e) (e_junk e) (proj2 He) (proj1 He) size Hsize) as [(l & -> & Hl & Bl & Hls)|[-> Hno]].
    2: { subst o. eapply sf_memory; [done|exact Hdst| |done].
         apply andb_false_iff in Hmax as [Hm|Hm]; [left; by apply Z.leb_gt|right; by apply Z.ltb_ge]. }
    step. destruct (Z.eqb_spec size 0) as [Hz|Hz].
    + eapply active_message; [exact Hb'|done..|lia| |done].
      destruct l; [|cbn in Hl; lia]. rewrite HC, wires_snoc, wire_plain, app_nil_r, Hdst, <- app_assoc. subst size. done.
    + set (c2 := on_st _ (on_st _ c1)).
      destruct (conn_recv c2 _ _ _ size Hb') as [[-> ?]|(u' & q' & -> & Hb2 & Ho' & Hrd)]; [lia|by apply sf_batch|].
      unfold c2, c1, at_q, step_res. conn_red. apply ok_session. pose proof (raised_pevs _ _ _ Hrd) as Hpe.
      cbn [c2 c1 at_q c_us c_q on_st set_st] in *.
      destruct s as [sf ss su so ns ih im os oh om]. destruct Hs as (? & ? & ? & ? & Hoh). conn_simpl. subst.
      eapply (In_session e u' q' t ph _ _ co false sent rcvd P); try done.
      * by rewrite Ho'.
      * by eapply raised_own.
      * by rewrite Hpe.
      * right; left. split_and!; try done; [by rewrite Hpe|]. exists (Z.of_nat (length l)). split; [lia|]. split; [done|].
        by rewrite Hdst, <- app_assoc.
      * by eapply outbound_q.
Qed.

Lemma active_event : res before (sfeed now NN_STCP_SRC_USOCK type P_null).
Proof.
  destruct (sfeed_eq now NN_STCP_SRC_USOCK type P_null (proj1 Hs)) as (_ & _ & Heq & _).
  rewrite (Heq (proj1 (proj2 Hs))). clear Heq. destruct event_facts as (Hu & Hn & Hty & Hlast).
  assert (o = UE_sent ∧ type = NN_USOCK_SENT ∨ o = UE_received ∧ type = NN_USOCK_RECEIVED ∨
    o = UE_error ∧ type = NN_USOCK_SHUTDOWN ∨ o = UE_error ∧ type = NN_USOCK_ERROR) as Hcases.
  { clear -Hty. destruct o; cbn in Hty; naive_solver. }
  destruct Hcases as [[Hoe Hte]|[[Hoe Hte]|[[Hoe Hte]|[Hoe Hte]]]].
  - assert (stcp_active e accepting sockerr now NN_STCP_SRC_USOCK type = stcp_sent now) as -> by (by rewrite Hte).
    by apply active_sent.
  - assert (stcp_active e accepting sockerr now NN_STCP_SRC_USOCK type =
      if s_instate s =? NN_STCP_INSTATE_HDR then stcp_received_hdr e accepting sockerr now
      else if s_instate s =? NN_STCP_INSTATE_BODY then stcp_received_body now else Fail Abort) as -> by (by rewrite Hte).
    destruct (event_received Hoe) as (Hw & _).
    destruct Hin as [(E & _)|[(E & _)|(_ & _ & _ & Hbad & _)]].
    + destruct (Z.eqb_spec (s_instate s) NN_STCP_INSTATE_HDR); [by apply active_hdr|done].
    + destruct (Z.eqb_spec (s_instate s) NN_STCP_INSTATE_HDR); [by apply active_hdr|].
      destruct (Z.eqb_spec (s_instate s) NN_STCP_INSTATE_BODY); [by apply active_body|done].
    + by rewrite Hw in Hbad.
  - assert (stcp_active e accepting sockerr now NN_STCP_SRC_USOCK type =
      Ret (on_st (set_s_state NN_STCP_STATE_SHUTTING_DOWN) (pipebase_stop now))) as -> by (by rewrite Hte).
    by apply active_shutdown.
  - assert (stcp_active e accepting sockerr now NN_STCP_SRC_USOCK type = stcp_done (pipebase_stop now)) as ->
      by (by rewrite Hte).
    by apply active_broken.
Qed.

End active_event.

(** The protocol is told that the pipe is ready. *)
Lemma active_pipe_event u type q t ph s p co ci sent rcvd P C w b os :
  base u (E_pipe type :: q) C w (hello e ++ wires e sent) b → u_owner u = O_stream → Forall own (E_pipe type :: q) →
  NoDup (pevs (E_pipe type :: q)) → trep t T_idle →
  st_at e NN_FSM_STATE_ACTIVE NN_STCP_STATE_ACTIVE s → pstate p = NN_PIPEBASE_STATE_ACTIVE → length P = 8%nat →
  Forall plain rcvd → inbound e (E_pipe type :: q) P C w rcvd (s_instate s) (s_inmsg s) (instate p) ci →
  outbound (E_pipe type :: q) b (s_outstate s) (outstate p) co →
  res (at_q u t ph s p co ci sent rcvd (E_pipe type :: q))
    (pipe_event e accepting sockerr type os (at_q u t ph s p co ci sent rcvd q)).
Proof.
  intros Hb Ho Hq Hnd Ht Hs Hp HP Hpl Hin Hout. change (pevs (E_pipe type :: q)) with (type :: pevs q) in *.
  apply NoDup_cons in Hnd as [Hn Hnd]. apply Forall_cons in Hq as [Hx Hq].
  assert (type = NN_PIPE_IN ∨ type = NN_PIPE_OUT) as Hty by (destruct Hx as [Hx|[Hx|Hx]]; [done|left|right]; by injection Hx).
  unfold pipe_event, at_q. conn_red. rewrite Hp. change (NN_PIPEBASE_STATE_ACTIVE =? NN_PIPEBASE_STATE_ACTIVE) with true. cbn match.
  set (c1 := if type =? NN_PIPE_OUT then _ else _).
  assert (in_session e c1) as Hc1.
  { unfold inbound, outbound in Hin, Hout. change (pevs (E_pipe type :: q)) with (type :: pevs q) in *.
    rewrite !elem_of_cons in Hin, Hout. unfold c1.
    destruct Hty as [-> | ->]; [change (NN_PIPE_IN =? NN_PIPE_OUT) with false|change (NN_PIPE_OUT =? NN_PIPE_OUT) with true]; cbn match.
    - eapply (In_session e u q t ph s p co true sent rcvd P C w b); try done; [by eapply base_tail| |].
      + do 2 right. destruct Hin as [(_ & _ & _ & Hni & _)|[(_ & _ & _ & Hni & _)|(? & ? & _ & ? & ? & ?)]];
          [destruct Hni; by left|destruct Hni; by left|].
        split_and!; try done. by left.
      + assert (NN_PIPE_OUT ≠ NN_PIPE_IN) by done. unfold outbound. naive_solver.
    - eapply (In_session e u q t ph s p true ci sent rcvd P C w b); try done; [by eapply base_tail| |].
      + assert (NN_PIPE_IN ≠ NN_PIPE_OUT) by done. unfold inbound. naive_solver.
      + left. destruct Hout as [(? & ? & ? & _)|(_ & _ & _ & _ & Hno)]; [|destruct Hno; by left].
        split_and!; try done. by left. }
  destruct (run_ops_ok os c1 Hc1) as [[-> ?]|(c' & -> & ?)]; [by apply sf_batch|by apply ok_session].
Qed.

Lemma shutting_event u x q t ph s p sent rcvd C w b os :
  base u (x :: q) C w (hello e ++ wires e sent) b → closed u (x :: q) → u_owner u = O_stream → Forall own (x :: q) →
  trep t T_idle → st_at e NN_FSM_STATE_ACTIVE NN_STCP_STATE_SHUTTING_DOWN s → pstate p = NN_PIPEBASE_STATE_IDLE →
  taken e rcvd C →
  res (at_q u t ph s p false false sent rcvd (x :: q))
    (next_event e accepting sockerr os (at_q u t ph s p false false sent rcvd (x :: q))).
Proof.
  intros Hb Hc Ho Hq Ht Hs Hp Htk. unfold next_event, at_q. conn_red. rewrite (proj1 Ht).
  apply Forall_cons in Hq as [Hx Hq]. destruct x as [o to ty| | |ty| |]; try by destruct Hx as [?|[?|?]].
  - destruct (u_ok_event _ _ _ _ _ (bs_u _ _ _ _ _ _ Hb)) as (Hu & Hn & -> & Hty & Hlast). rewrite Ho.
    unfold closed in Hc. rewrite uobjs_cons in Hc.
    destruct Hc as [[_ Hc]|[Hst [Hc|Hc]]]; [done..|]. injection Hc as -> Hc.
    destruct Hty as [[Hbad _]|[_ ->]]; [by rewrite Hst in Hbad|].
    set (c1 := Conn u q _ _ _ _ _ _ _).
    destruct (sfeed_eq c1 NN_STCP_SRC_USOCK NN_USOCK_ERROR P_null (proj1 Hs)) as (_ & _ & _ & Heq & _).
    rewrite (Heq (proj1 (proj2 Hs))).
    change (stcp_shutting_down c1 NN_STCP_SRC_USOCK NN_USOCK_ERROR) with (stcp_done c1).
    rewrite stcp_done_ok by done. unfold c1, step_res. conn_red.
    destruct s as [sf ss su so ns ih im os' oh om]. destruct Hs as (? & ? & ? & ? & Hoh). conn_simpl. subst.
    destruct (base_pop _ _ _ _ _ _ _ _ _ Hb) as (_ & C' & w' & b' & Hb' & HC).
    eapply ok_done; try done; [by left|by right|by eapply taken_mono].
  - unfold pipe_event. conn_red. rewrite Hp. change (NN_PIPEBASE_STATE_IDLE =? NN_PIPEBASE_STATE_ACTIVE) with false.
    eapply sf_gone; [done|]. conn_simpl. by rewrite Hp.
Qed.

Lemma done_event u q fsm state t ph s p co ci sent rcvd C w b os :
  base u q C w (hello e ++ wires e sent) b → u_owner u = O_stream → Forall own q → trep t T_idle →
  fsm = NN_FSM_STATE_IDLE ∧ state = NN_STREAMHDR_STATE_IDLE ∨ fsm = NN_FSM_STATE_ACTIVE ∧ state = NN_STREAMHDR_STATE_DONE →
  st_at e NN_FSM_STATE_ACTIVE NN_STCP_STATE_DONE s →
  pstate p = NN_PIPEBASE_STATE_ACTIVE ∨ uobjs q = [] ∧ co = false ∧ ci = false → taken e rcvd C →
  let c := Conn u (q ++ [E_done NN_STCP_ERROR]) (Hdr fsm state t false None ph) s p co ci sent rcvd in
  res c (next_event e accepting sockerr os c).
Proof.
  intros Hb Ho Hq Ht Hh Hs Hp Htk. cbv zeta. unfold next_event. conn_red. rewrite (proj1 Ht).
  destruct q as [|x q]; cbn [app].
  - assert (pstate p = NN_PIPEBASE_STATE_ACTIVE ∨ co = false ∧ ci = false) as Hp' by (destruct Hp as [?|(_ & ?)]; [by left|by right]).
    destruct Hh as [[-> ->]|[-> ->]].
    + by destruct (stop_idle u t false None ph s p co ci sent rcvd _ C w b Hb Ht Hs Hp' Htk) as (c' & -> & ?).
    + destruct (stop_hdr u [] NN_FSM_STATE_ACTIVE NN_STREAMHDR_STATE_DONE t false None ph s p sent rcvd _ co ci (proj1 Ht) eq_refl Hs Hp' T_idle Ht)
        as (t' & s' & -> & Ht' & Hs'); [done|].
      rewrite (decide_True (P := T_idle = T_idle)) by done. rewrite (decide_True (P := T_idle = T_idle)) in Ht' by done.
      by eapply ok_hdr_stopped.
  - apply Forall_cons in Hq as [Hx Hq]. destruct x as [o to ty| | |ty| |]; try by destruct Hx as [?|[?|?]].
    + destruct Hp as [Hp|[Hp _]]; [|done].
      destruct (u_ok_event _ _ _ _ _ (bs_u _ _ _ _ _ _ Hb)) as (_ & _ & -> & _). rewrite Ho.
      set (c1 := Conn u (q ++ [E_done NN_STCP_ERROR]) _ _ _ _ _ _ _).
      destruct (sfeed_eq c1 NN_STCP_SRC_USOCK ty P_null (proj1 Hs)) as (_ & _ & _ & _ & Heq).
      rewrite (Heq (proj1 (proj2 Hs))). apply sf_too_large; [apply Hs|done].
    + unfold pipe_event. conn_red. destruct (Z.eqb_spec (pstate p) NN_PIPEBASE_STATE_ACTIVE) as [Hpa|Hpa].
      2: { by eapply sf_gone. }
      set (c1 := if ty =? NN_PIPE_OUT then _ else _).
      assert (s_state (c_st c1) = NN_STCP_STATE_DONE) as Hc1 by (unfold c1; destruct (ty =? NN_PIPE_OUT); apply Hs).
      destruct (run_ops_done os c1 Hc1) as [-> | ->]; [|apply sf_too_large; [apply Hs|done]].
      apply base_tail in Hb; [|done].
      unfold c1. destruct (ty =? NN_PIPE_OUT); eapply ok_done; try done; by left.
Qed.

(** The header exchange is being stopped: its timer is, or an event comes too late. *)
Lemma stopping_event u q t ph s p sent rcvd C w b os :
  base u q C w (hello e ++ wires e sent) b → u_owner u = O_hdr → all_usock q → halting q t →
  st_at e NN_FSM_STATE_STOPPING NN_STCP_STATE_STOPPING s → pstate p = NN_PIPEBASE_STATE_IDLE → taken e rcvd C →
  let c := Conn u q (Hdr NN_FSM_STATE_STOPPING NN_STREAMHDR_STATE_STOPPING t true (Some O_stream) ph) s p
    false false sent rcvd in
  quiet c = false → res c (next_event e accepting sockerr os c).
Proof.
  intros Hb Ho Hq Ht Hs Hp Htk. cbv zeta. intros Hnq. unfold next_event. conn_red.
  destruct Ht as [Ht|(-> & Ht & ->)].
  - rewrite (proj1 Ht). unfold quiet in Hnq. conn_simpl. rewrite (proj1 Ht) in Hnq.
    destruct q as [|x q]; [done|]. apply Forall_cons in Hq as [Hx Hq]. destruct x as [o to ty| | | | |]; try done.
    destruct (base_pop _ _ _ _ _ _ _ _ _ Hb) as (-> & C' & w' & b' & Hb' & HC). rewrite Ho.
    unfold hdr_feed, nn_fsm_feed. conn_red. change (negb (NN_FSM_STATE_STOPPING =? NN_FSM_STATE_STOPPING)) with false. cbn match.
    unfold nn_streamhdr_shutdown. change ((NN_STREAMHDR_SRC_USOCK =? NN_FSM_ACTION) && (ty =? NN_FSM_STOP)) with false.
    step. conn_red. change (NN_STREAMHDR_STATE_STOPPING =? NN_STREAMHDR_STATE_STOPPING) with true. cbn match.
    rewrite (trep_isidle _ _ Ht), bool_decide_false by done. cbn [negb]. unfold step_res.
    eapply ok_stopping; try done; [by left|by eapply taken_mono].
  - unfold hdr_feed, nn_fsm_feed. conn_red. change (negb (NN_FSM_STATE_STOPPING =? NN_FSM_STATE_STOPPING)) with false. cbn match.
    unfold nn_streamhdr_shutdown. change ((NN_STREAMHDR_SRC_TIMER =? NN_FSM_ACTION) && (NN_TIMER_STOPPED =? NN_FSM_STOP)) with false.
    step. conn_red. change (NN_STREAMHDR_STATE_STOPPING =? NN_STREAMHDR_STATE_STOPPING) with true. cbn match.
    rewrite (trep_isidle _ _ Ht), bool_decide_true by done. cbn [negb].
    unfold nn_fsm_stopped. conn_red. change (NN_FSM_STATE_STOPPING =? NN_FSM_STATE_STOPPING) with true. step.
    unfold conn_raise. conn_red. rewrite bool_decide_true by apply not_elem_of_nil. step. unfold step_res. conn_red.
    cbn [app]. by eapply ok_hdr_stopped.
Qed.

Lemma late_stopped_event u t hu ho ph s p sent rcvd C w b os :
  base u [] C w (hello e ++ wires e sent) b → trep t T_idle →
  st_at e NN_FSM_STATE_STOPPING NN_STCP_STATE_STOPPING s → pstate p = NN_PIPEBASE_STATE_IDLE → taken e rcvd C →
  let c := Conn u [E_hdr_stopped NN_STREAMHDR_STOPPED] (Hdr NN_FSM_STATE_IDLE NN_STREAMHDR_STATE_IDLE t hu ho ph) s p
    false false sent rcvd in
  res c (next_event e accepting sockerr os c).
Proof.
  intros Hb Ht (Hf & Hs & Hsu & Hso & Hoh) Hp Htk. cbv zeta. unfold next_event. conn_red. rewrite (proj1 Ht).
  destruct s as [sf ss su so ns ih im os' oh om]. conn_simpl. subst.
  unfold stcp_feed, nn_fsm_feed. conn_red. change (negb (NN_FSM_STATE_STOPPING =? NN_FSM_STATE_STOPPING)) with false. cbn match.
  unfold nn_stcp_shutdown. change ((NN_STCP_SRC_STREAMHDR =? NN_FSM_ACTION) && (NN_STREAMHDR_STOPPED =? NN_FSM_STOP)) with false.
  step. conn_red. change (NN_STCP_STATE_STOPPING =? NN_STCP_STATE_STOPPING) with true. cbn match.
  match goal with |- context [nn_streamhdr_isidle ?c] => change (nn_streamhdr_isidle c) with true end. step.
  unfold nn_usock_swap_owner. cbn match. unfold nn_fsm_stopped. conn_red.
  change (NN_FSM_STATE_STOPPING =? NN_FSM_STATE_STOPPING) with true. step.
  unfold conn_raise. conn_red. rewrite bool_decide_true by apply not_elem_of_nil. step. unfold step_res. conn_red.
  eapply ok_stopped; try done.
  - apply base_snoc; [|done]. by apply base_owner.
  - constructor; [by right|constructor].
Qed.

Lemma stopped_event u q t hu ho ph s p sent rcvd C w b os :
  base u q C w (hello e ++ wires e sent) b → u_owner u = O_ep →
  Forall (λ x, is_usock x = true ∨ x = E_stopped NN_STCP_STOPPED) q → trep t T_idle →
  s_fsm s = NN_FSM_STATE_IDLE → s_state s = NN_STCP_STATE_IDLE → pstate p = NN_PIPEBASE_STATE_IDLE → taken e rcvd C →
  let c := Conn u q (Hdr NN_FSM_STATE_IDLE NN_STREAMHDR_STATE_IDLE t hu ho ph) s p false false sent rcvd in
  quiet c = false → res c (next_event e accepting sockerr os c).
Proof.
  intros Hb Ho Hq Ht Hf Hs Hp Htk. cbv zeta. intros Hnq. unfold quiet in Hnq. conn_simpl. rewrite (proj1 Ht) in Hnq.
  unfold next_event. conn_red. rewrite (proj1 Ht). destruct q as [|x q]; [done|].
  apply Forall_cons in Hq as [Hx Hq]. destruct x as [o to ty| | | | |ty]; try by destruct Hx.
  - destruct (base_pop _ _ _ _ _ _ _ _ _ Hb) as (-> & C' & w' & b' & Hb' & HC). rewrite Ho. unfold step_res.
    eapply ok_stopped; try done. by eapply taken_mono.
  - unfold step_res. apply base_tail in Hb; [|done]. by eapply ok_stopped.
Qed.

Lemma conn_event_ok c os : conn_ok c → quiet c = false → res c (next_event e accepting sockerr os c).
Proof.
  intros Hc Hnq.
  destruct Hc as [u q state t ph s p C w b Hb Ho Hq Hx Hph Hs Hp|u t ph s p C w b type Hb Ho Ht Hty Hs Hp
    |u t ph s p C Hb Ho Ht HC Hs Hp|c Ha|u q t ph s p sent rcvd C w b Hb Hc Ho Hq Ht Hs Hp Htk
    |u q fsm state t ph s p co ci sent rcvd C w b Hb Ho Hq Ht Hh Hs Hp Htk|u q t ph s p sent rcvd C w b Hb Ho Hq Ht Hs Hp Htk
    |u t hu ho ph s p sent rcvd C w b Hb Ht Hs Hp Htk|u q t hu ho ph s p sent rcvd C w b Hb Ho Hq Ht Hf Hs Hp Htk].
  - unfold next_event. conn_red. destruct (tm_events t) as [|ev evs] eqn:Hev.
    + unfold quiet in Hnq. conn_simpl. rewrite Hev in Hnq. destruct q as [|x q]; [done|].
      apply Forall_cons in Hq as [Hxu Hq]. destruct x as [o to ty| | | | |]; try done.
      destruct (base_pop _ _ _ _ _ _ _ _ _ Hb) as (-> & _). rewrite Ho in Hb, Hx |- *. by eapply exchange_event.
    + by eapply exchange_fired.
  - unfold next_event. conn_red. rewrite (proj1 Ht). by eapply hdr_done_event.
  - unfold next_event. conn_red. rewrite (proj1 Ht). by eapply hdr_stopped_event.
  - destruct Ha as [u q t ph s p co ci sent rcvd P C w b Hb Ho Hq Hnd Ht Hs Hp HP Hpl Hin Hout].
    unfold quiet in Hnq. conn_simpl. rewrite (proj1 Ht) in Hnq. unfold next_event. conn_red. rewrite (proj1 Ht).
    destruct q as [|x q]; [done|]. pose proof Hq as Hq'. apply Forall_cons in Hq as [Hx Hq].
    destruct x as [o to ty| | |ty| |]; try by destruct Hx as [?|[?|?]].
    + destruct (base_pop _ _ _ _ _ _ _ _ _ Hb) as (-> & _). rewrite Ho in Hb, Hin, Hout |- *. by eapply active_event.
    + by eapply active_pipe_event.
  - unfold quiet in Hnq. conn_simpl. rewrite (proj1 Ht) in Hnq. destruct q as [|x q]; [done|]. by eapply shutting_event.
  - by eapply done_event.
  - by eapply stopping_event.
  - by eapply late_stopped_event.
  - by eapply stopped_event.
Qed.

(** What the network and the protocol may do. *)
Definition conn_legal (x : conn_step) : Prop := match x with X_rx i => item_ok i | _ => True end.

Lemma conn_step_ok c x : conn_ok c → conn_enabled c x = true → conn_legal x → res c (exec c x).
Proof.
  intros Hc Hen Hl. destruct x as [os|os|s|s| |i|i].
  - apply conn_event_ok; [done|]. by apply negb_true_iff in Hen.
  - by apply conn_ops_ok.
  - by apply conn_timer_ok.
  - by apply conn_usock_ok.
  - by apply conn_stop_ok.
  - apply (conn_net_ok c (more_rx i)); [|done]. intros. by apply base_net_rx.
  - apply (conn_net_ok c (more_tx i)); [|done]. intros. by apply base_net_tx.
Qed.

End steps.

(** ** The states a connection can reach *)

Section reach.
Context (e : st_env) (accepting : usock_ctx → Z → Z → srcptr → outcome usock_ctx) (sockerr : Z).

(** It starts on a socket that is connected and goes on with any enabled steps. *)
Inductive conn_reach : conn → Prop :=
| cr_start u b c : fresh_usock u → u_owner u = O_ep → pstate b = NN_PIPEBASE_STATE_IDLE →
    nn_stcp_start e accepting sockerr (conn_init e u b) = Ret c → conn_reach c
| cr_step c x c' : conn_reach c → conn_enabled c x = true → conn_legal x → conn_exec e accepting sockerr c x = Ret c' →
    conn_reach c'.

Lemma conn_start_ok u b : st_env_ok e → fresh_usock u → u_owner u = O_ep → pstate b = NN_PIPEBASE_STATE_IDLE →
  ∃ c, nn_stcp_start e accepting sockerr (conn_init e u b) = Ret c ∧ conn_ok e c.
Proof.
  intros He (Hu & Hrx & Htx)%fresh_ok Ho Hp. unfold nn_stcp_start, conn_init. conn_red.
  unfold nn_stcp_init. conn_red. cbn [negb andb]. rewrite bool_decide_true by done. step.
  unfold nn_usock_swap_owner. cbn match. unfold nn_fsm_start at 1.
  match goal with |- context [nn_fsm_isidle ?a ?b ?c] => change (nn_fsm_isidle a b c) with true end. step.
  conn_red. unfold nn_stcp_handler. conn_red. change (NN_STCP_STATE_IDLE =? NN_STCP_STATE_IDLE) with true. cbn match.
  change ((NN_FSM_ACTION =? NN_FSM_ACTION) && (NN_FSM_START =? NN_FSM_START)) with true. cbn match.
  unfold nn_streamhdr_start, nn_streamhdr_init. conn_red. cbn [negb andb]. rewrite bool_decide_true by done. step.
  unfold nn_usock_swap_owner. cbn match. unfold puts_at. cbn [app protohdr_magic drop take]. rewrite nn_puts_be. step. conn_red.
  unfold nn_fsm_start.
  match goal with |- context [nn_fsm_isidle ?a ?b ?c] => change (nn_fsm_isidle a b c) with true end. step.
  unfold nn_streamhdr_handler. conn_red. change (NN_STREAMHDR_STATE_IDLE =? NN_STREAMHDR_STATE_IDLE) with true. cbn match.
  change ((NN_FSM_ACTION =? NN_FSM_ACTION) && (NN_FSM_START =? NN_FSM_START)) with true. cbn match.
  unfold hdr_timer_start. conn_red. destruct (trep_start nn_timer_init 1000 trep_init) as (t & -> & Ht); [lia|]. step. conn_red.
  set (c1 := Conn _ _ _ _ _ _ _ _ _).
  destruct (conn_send e accepting sockerr He c1 [] None [] [0 :: 83 :: 80 :: 0 :: be_split 2 (u16 (e_protocol e)) ++ [0; 0]])
    as (u' & q' & -> & Hb & Ho' & Hrd).
  { constructor; [by apply u_ok_owner; [apply u_ok_owner|]|by eapply rx_frame|by eapply tx_frame]. }
  { unfold NN_USOCK_MAX_IOVCNT. cbn [length]. lia. }
  step. unfold c1. conn_red. eexists. split; [reflexivity|]. cbn [c1 c_us c_q] in Ho', Hrd.
  eapply ok_exchange; try done.
  - eapply raised_usock; [done|constructor].
  - left. split_and!; try done. by left.
  - split_and!; try done; cbn; [by rewrite Ho|by rewrite length_replicate].
Qed.

Lemma conn_reach_ok c : st_env_ok e → conn_reach c → conn_ok e c.
Proof.
  intros He. induction 1 as [u b c Hf Ho Hp E|c x c' _ IH Hen Hl E].
  - destruct (conn_start_ok u b He Hf Ho Hp) as (c1 & E1 & ?). rewrite E in E1. by injection E1 as ->.
  - pose proof (conn_step_ok e accepting sockerr He c x IH Hen Hl) as Hr. by rewrite E in Hr.
Qed.

End reach.

(** ** The messages of a stream of bytes *)

Section frames.
Context (e : st_env).

(** The size of a message on the wire fits in 64 bits. *)
Definition sized (m : vmsg) : Prop := Z.of_nat (length (sphdr m)) + Z.of_nat (length (body m)) < 2 ^ 64.

(** What the receiver makes of a message: the header is part of the body. *)
Definition strip (m : vmsg) : vmsg := VMsg [] [] (sphdr m ++ body m).

Lemma msg_hdr_inj n1 n2 : 0 ≤ n1 < 2 ^ 64 → 0 ≤ n2 < 2 ^ 64 → msg_hdr e n1 = msg_hdr e n2 → n1 = n2.
Proof.
  intros H1 H2 E. unfold msg_hdr in E. apply app_inv_head in E.
  rewrite <- (be_combine_split 8 n1), <- (be_combine_split 8 n2) by done. by rewrite E.
Qed.

Lemma wire_sized m : sized m →
  wire e m = msg_hdr e (Z.of_nat (length (sphdr m ++ body m))) ++ sphdr m ++ body m.
Proof. intros Hm. unfold wire, u64. rewrite Z.mod_small, length_app, Nat2Z.inj_add; [done|]. unfold sized in Hm. lia. Qed.

Lemma wires_cons m ms : wires e (m :: ms) = wire e m ++ wires e ms.
Proof. done. Qed.

(** A stream has one reading: the frames at its start are those it was made of. *)
Lemma wires_prefix l1 l2 : Forall plain l1 → Forall sized l2 → wires e l1 `prefix_of` wires e l2 →
  l1 `prefix_of` (strip <$> l2).
Proof.
  revert l2. induction l1 as [|m1 l1 IH]; intros l2 H1 H2 Hp; [apply prefix_nil|].
  apply Forall_cons in H1 as [Hm1 H1]. destruct Hm1 as (Hs & Hh & Hl).
  assert (sized m1) as Hsz by (unfold sized; rewrite Hs; cbn [length]; lia).
  destruct Hp as [rest E]. rewrite wires_cons, wire_sized, Hs in E by done. cbn [app] in E.
  destruct l2 as [|m2 l2].
  { apply (f_equal length) in E. rewrite !length_app, length_msg_hdr in E. pose proof (hdr_len_range e). cbn in E. lia. }
  apply Forall_cons in H2 as [Hm2 H2]. rewrite wires_cons, wire_sized in E by done. rewrite <- !app_assoc in E.
  apply app_inj_1 in E as [Eh E]; [|by rewrite !length_msg_hdr].
  unfold sized in Hm2. apply msg_hdr_inj in Eh as Elen; [|rewrite length_app; lia|lia].
  rewrite app_assoc in E. apply app_inj_1 in E as [Eb E]; [|lia].
  destruct m1 as [sp hd bd]. cbn [sphdr hdrs body] in *. subst sp hd. rewrite fmap_cons. unfold strip at 1. rewrite Eb.
  apply prefix_cons. apply IH; [done|done|]. by exists rest.
Qed.

(** The start of a message. *)
Definition partial (rest : list Z) : Prop :=
  (length rest < hdr_len e)%nat ∨
  ∃ size l, rest = msg_hdr e size ++ l ∧ Z.of_nat (length l) < size < 2 ^ 64.

End frames.

Section results.
Context (e : st_env) (accepting : usock_ctx → Z → Z → srcptr → outcome usock_ctx) (sockerr : Z).
Notation reach := (conn_reach e accepting sockerr).

Lemma conn_bytes c : conn_ok e c →
  ∃ C w b, base (c_us c) (c_q c) C w (hello e ++ wires e (c_sent c)) b ∧ taken e (c_rcvd c) C.
Proof.
  assert (∀ u q q' C w D b, base u q C w D b → (q' = q ∨ ∃ x, is_usock x = false ∧ q' = q ++ [x]) → base u q' C w D b) as Hsnoc.
  { intros u q q' C w D b Hb [->|(x & Hx & ->)]; [done|by apply base_snoc]. }
  intros [u q state t ph s p C w b Hb| u t ph s p C w b type Hb|u t ph s p C Hb|c' Ha|u q t ph s p sent rcvd C w b Hb Hc Ho Hq Ht Hs Hp Htk
    |u q fsm state t ph s p co ci sent rcvd C w b Hb Ho Hq Ht Hh Hs Hp Htk|u q t ph s p sent rcvd C w b Hb Ho Hq Ht Hs Hp Htk
    |u t hu ho ph s p sent rcvd C w b Hb Ht Hs Hp Htk|u q t hu ho ph s p sent rcvd C w b Hb Ho Hq Ht Hf Hs Hp Htk].
  4: { destruct Ha as [u q t ph s p co ci sent rcvd P C w b Hb Ho Hq Hnd Ht Hs Hp HP Hpl Hin Hout].
       exists C, w, b. split; [done|]. by eapply inbound_taken. }
  all: eexists C, _, _; conn_simpl; (split; [eapply Hsnoc; [exact Hb|first [by left|right; eexists; split; [|reflexivity]; reflexivity]]|first [done|by left]]).
Qed.

Lemma taken_read u q C w D b rcvd : base u q C w D b → taken e rcvd C → taken e rcvd (k_read (u_os u)).
Proof. intros [_ [Hp _] _]. by apply taken_mono. Qed.

(** What a connection that is up is waiting for. *)
Lemma session_waits c : in_session e c → c_q c = [] → active (c_us c) →
  (if c_out c then k_written (u_os (c_us c)) = hello e ++ wires e (c_sent c)
   else NN_USOCK_SRC_TASK_SEND ∈ u_tasks (c_us c) ∨ w_out (c_us c) = true) ∧
  ∃ P rest, length P = 8%nat ∧ k_read (u_os (c_us c)) = P ++ wires e (c_rcvd c) ++ rest ∧
    if c_in c then ∃ m rest', plain m ∧ rest = wire e m ++ rest'
    else (NN_USOCK_SRC_TASK_RECV ∈ u_tasks (c_us c) ∨ w_in (c_us c) = true) ∧ partial e rest.
Proof.
  intros [u q t ph s p co ci sent rcvd P C w b [Hu Hrx Htx] Ho Hq Hnd Ht Hs Hp HP Hpl Hin Hout] Hq0 Ha. conn_simpl. subst q.
  split.
  - destruct Hout as [(_ & _ & -> & [[-> _]|[_ Hbad]])|(_ & _ & -> & -> & _)]; [|by apply elem_of_nil in Hbad|].
    + destruct Htx as (_ & _ & Hact). by apply Hact.
    + destruct Htx as [_ [(Hbad & _)|(_ & Hact)]]; [by apply elem_of_nil in Hbad|].
      destruct (Hact Ha) as [(_ & _ & [[? _]|[_ ?]]) _]; [by left|by right].
  - exists P.
    destruct Hin as [(_ & _ & -> & _ & -> & ->)|[(_ & _ & -> & _ & size & Hsz & -> & ->)|(_ & _ & [[-> _]|[_ Hbad]] & -> & Hl & ->)]];
      [| | |by apply elem_of_nil in Hbad].
    + destruct Hrx as [_ [(Hbad & _)|(_ & Hact)]]; [by apply elem_of_nil in Hbad|].
      destruct (Hact Ha) as ((Hl & Hun & Hb) & Hn & Hk). exists (in_dst u). rewrite Hun, app_nil_r, <- app_assoc in Hk.
      split; [done|]. split; [done|]. split; [naive_solver|]. left. lia.
    + destruct Hrx as [_ [(Hbad & _)|(_ & Hact)]]; [by apply elem_of_nil in Hbad|].
      destruct (Hact Ha) as ((Hl & Hun & Hb) & Hn & Hk). exists (msg_hdr e size ++ in_dst u).
      rewrite Hun, app_nil_r, <- !app_assoc in Hk.
      split; [done|]. split; [done|]. split; [naive_solver|]. right. exists size, (in_dst u). split; [done|]. lia.
    + destruct Hrx as [_ [_ Hact]]. destruct (Hact Ha) as [_ Hk].
      exists (wire e (VMsg [] [] (s_inmsg s)) ++ unread u). rewrite wires_snoc, <- !app_assoc in Hk.
      split; [done|]. split; [done|]. eexists _, _. split; [|done]. done.
Qed.

(** C15: whatever the peer, the network, the users and the endpoint do, every step of a
    connection over TCP or IPC returns, but for five reasons: no memory for the batch
    buffer; no memory for a message whose size passed the test against NN_RCVMAXSIZE;
    over IPC, a message whose first byte is not 1; anything that happens to a pipe that
    is still attached although an oversized message was announced; an event of the
    pipe that is still queued when the pipe has been stopped.  The start returns. *)
Theorem stream_safe : st_env_ok e →
  (∀ u b, fresh_usock u → u_owner u = O_ep → pstate b = NN_PIPEBASE_STATE_IDLE →
     ∃ c, nn_stcp_start e accepting sockerr (conn_init e u b) = Ret c ∧ reach c) ∧
  (∀ c x, reach c → conn_enabled c x = true → conn_legal x →
     match conn_exec e accepting sockerr c x with
     | Ret c' => reach c'
     | Fail f => stream_fault e c f
     end).
Proof.
  intros He. split.
  - intros u b Hf Ho Hp. destruct (conn_start_ok e accepting sockerr u b He Hf Ho Hp) as (c & E & _).
    exists c. split; [done|]. by eapply cr_start.
  - intros c x Hc Hen Hl. pose proof (conn_step_ok e accepting sockerr He c x (conn_reach_ok _ _ _ c He Hc) Hen Hl) as Hr.
    destruct (conn_exec e accepting sockerr c x) as [c'|f] eqn:E; [by eapply cr_step|exact Hr].
Qed.

(** C16: what is on the wire.  The bytes written are the first of the protocol header and
    the messages sent, each behind its size; the messages received are those the bytes
    read start with, behind a protocol header.  When no event is queued and the
    connection is up on a socket that works: all was written if the protocol may send,
    and otherwise the worker has something to send; and if the protocol may receive, a
    whole message was read, and otherwise the bytes read end inside a message and the
    worker waits for more. *)
Theorem stream_exact c : st_env_ok e → reach c →
  let k := u_os (c_us c) in
  k_written k `prefix_of` hello e ++ wires e (c_sent c) ∧
  (c_rcvd c = [] ∨ ∃ P, length P = 8%nat ∧ P ++ wires e (c_rcvd c) `prefix_of` k_read k) ∧
  (quiet c = true → s_state (c_st c) = NN_STCP_STATE_ACTIVE → active (c_us c) →
     (if c_out c then k_written k = hello e ++ wires e (c_sent c)
      else NN_USOCK_SRC_TASK_SEND ∈ u_tasks (c_us c) ∨ w_out (c_us c) = true) ∧
     ∃ P rest, length P = 8%nat ∧ k_read k = P ++ wires e (c_rcvd c) ++ rest ∧
       if c_in c then ∃ m rest', plain m ∧ rest = wire e m ++ rest'
       else (NN_USOCK_SRC_TASK_RECV ∈ u_tasks (c_us c) ∨ w_in (c_us c) = true) ∧ partial e rest).
Proof.
  intros He Hc%conn_reach_ok; [|done]. cbv zeta. destruct (conn_bytes c Hc) as (C & w & b & Hb & Htk).
  split; [apply (bs_tx _ _ _ _ _ _ Hb)|]. split.
  { destruct (taken_read _ _ _ _ _ _ _ Hb Htk) as [?|(P & ? & ? & _)]; [by left|right; by exists P]. }
  intros [Hq _]%quiet_inv Hs Ha. apply session_waits; [|done..].
  destruct Hc; conn_simpl; try done;
    match goal with H : st_at _ _ _ _ |- _ => destruct H as (_ & H & _); by rewrite H in Hs
      | H : s_state _ = _ |- _ => by rewrite H in Hs end.
Qed.

End results.

(** C17: two ends of a connection, over TCP or over IPC: what one end delivers to its
    user are the first messages the other end's user sent, in order, each with its
    header in front of its body, provided that the network hands over bytes in the
    order in which they were written. *)
Theorem stream_delivers eA eB acceptA acceptB errA errB cA cB :
  st_env_ok eA → st_env_ok eB → e_ipc eA = e_ipc eB →
  conn_reach eA acceptA errA cA → conn_reach eB acceptB errB cB → Forall sized (c_sent cA) →
  k_read (u_os (c_us cB)) `prefix_of` k_written (u_os (c_us cA)) →
  c_rcvd cB `prefix_of` (strip <$> c_sent cA).
Proof.
  intros HA HB Hipc HcA%conn_reach_ok HcB%conn_reach_ok Hsz Hnet; [|done..].
  destruct (conn_bytes eA cA HcA) as (CA & wA & bA & HbA & _). destruct (conn_bytes eB cB HcB) as (CB & wB & bB & HbB & HtB).
  destruct (taken_read _ _ _ _ _ _ _ _ HbB HtB) as [->|(P & HP & Hp & Hpl)]; [apply prefix_nil|].
  assert (∀ ms, wires eA ms = wires eB ms) as Hw.
  { intros ms. unfold wires. f_equal. apply list_fmap_ext. intros i m _. unfold wire, msg_hdr. by rewrite Hipc. }
  destruct HbA as [_ _ [HkA _]].
  assert (P ++ wires eB (c_rcvd cB) `prefix_of` hello eA ++ wires eA (c_sent cA)) as [rest E] by (by do 2 (etrans; [done|])).
  rewrite <- app_assoc in E. apply app_inj_1 in E as [_ E].
  - rewrite Hw in E. eapply wires_prefix; [done|done|]. by exists rest.
  - rewrite HP. unfold hello. by rewrite !length_app, length_be_split.
Qed.

(** ** Examples *)

Module StreamSample.

Definition u0 : nn_usock :=
  NnUsock NN_FSM_STATE_ACTIVE NN_USOCK_STATE_ACTIVE O_ep true [] 0 None 0 0 [] [] true false false (Kernel [] [] [] []).
Definition p0 : nn_pipebase := Pipebase NN_PIPEBASE_STATE_IDLE IN_DEACTIVATED OUT_DEACTIVATED None (EpOptions 8 8 1).
Definition accepting : usock_ctx → Z → Z → srcptr → outcome usock_ctx := λ _ _ _ _, Fail Abort.

(** A socket of the protocol [p] that talks to the protocol [q]. *)
Definition env (ipc : bool) (p q : Z) : st_env := StEnv (λ n, n <? 2 ^ 40) (λ _, 0) 0 1000 p (λ x, x =? q) ipc.

Lemma env_ok ipc p q : st_env_ok (env ipc p q).
Proof.
  split; [intros i; split; [apply Z.le_refl|reflexivity]|]. intros n Hn. apply Z.ltb_lt in Hn. cbn in Hn. lia.
Qed.

Lemma start_fresh : fresh_usock u0.
Proof. repeat split; try done; [constructor|by left]. Qed.

Section run.
Context (e : st_env).

Definition legal (x : conn_step) : bool :=
  match x with X_rx (R_data l) => forallb (λ b, (0 <=? b) && (b <? 256)) l | _ => true end.

Lemma legal_ok x : legal x = true → conn_legal x.
Proof.
  destruct x as [| | | | |i|]; try done. destruct i as [l|]; [|done]. cbn. intros Hl. apply Forall_forall. intros b Hb.
  rewrite forallb_forall in Hl. apply list_elem_of_In in Hb. specialize (Hl b Hb).
  apply andb_true_iff in Hl as [?%Z.leb_le ?%Z.ltb_lt]. by split.
Qed.

Fixpoint run (l : list conn_step) (c : conn) : option conn :=
  match l with
  | [] => Some c
  | x :: l =>
      if conn_enabled c x && legal x then
        match conn_exec e accepting 0 c x with Ret c => run l c | Fail _ => None end
      else None
  end.

Definition runs (l : list conn_step) (f : conn → bool) : bool :=
  match nn_stcp_start e accepting 0 (conn_init e u0 p0) with
  | Ret c => match run l c with Some c => f c | None => false end
  | Fail _ => false
  end.

Lemma steps_reach l c c' : conn_reach e accepting 0 c → run l c = Some c' → conn_reach e accepting 0 c'.
Proof.
  revert c. induction l as [|x l IH]; intros c Hc; cbn [run]; [by intros [= <-]|].
  destruct (conn_enabled c x) eqn:Hen; [|done]. destruct (legal x) eqn:Hl; [|done]. cbn [andb].
  destruct (conn_exec e accepting 0 c x) as [c1|] eqn:E; [|done]. apply IH. by eapply cr_step; [| |apply legal_ok|].
Qed.

(** A sequence of steps whose end satisfies [f]. *)
Lemma runs_reach l f : runs l f = true → ∃ c, conn_reach e accepting 0 c ∧ f c = true.
Proof.
  unfold runs. destruct (nn_stcp_start _ _ _ _) as [c|] eqn:E; [|done].
  destruct (run l c) as [c'|] eqn:Er; [|done]. intros Hf. exists c'. split; [|done].
  eapply steps_reach; [|done]. apply (cr_start _ _ _ u0 p0); [exact start_fresh|done|done|exact E].
Qed.

End run.

Definition ev : conn_step := X_event [].

(** The exchange of the headers; with the peer's header come the bytes [l]. *)
Definition handshake (p : Z) (l : list Z) : list conn_step :=
  [X_tx (T_room 100); X_usock U_task; X_usock U_out; ev; X_usock U_task; X_tx (T_room 1000);
   X_rx (R_data ([0; 83; 80; 0; 0; p; 0; 0] ++ l)); X_usock U_in; ev; X_timer W_task; X_timer W_task; ev; ev; ev].

Definition hello_msg : vmsg := VMsg [9] [] [1; 2; 3].
Definition pusher : st_env := env false 80 81.
Definition puller : st_env := env false 81 80.

(** One end sends a message, and the other end receives the bytes. *)
Definition sender : list conn_step := handshake 81 [] ++ [X_event [O_send hello_msg]; ev; ev].
Definition receiver : list conn_step :=
  handshake 80 [0; 0; 0; 0; 0; 0; 0; 4; 9; 1; 2; 3] ++ [ev; ev; ev; X_event [O_recv]].

Definition aborts (e : st_env) (f : fault) (x : conn_step) (c : conn) : bool :=
  conn_enabled c x && legal x && match conn_exec e accepting 0 c x with Ret _ => false | Fail f' =>
    match f, f' with Abort, Abort | Crash, Crash | Diverge, Diverge => true | _, _ => false end end.

Definition stuck (c : conn) : bool :=
  quiet c && (s_state (c_st c) =? NN_STCP_STATE_ACTIVE) && (u_state (c_us c) =? NN_USOCK_STATE_DONE) &&
  bool_decide (u_tasks (c_us c) = []) && negb (w_reg (c_us c)) && bool_decide (tm_tasks (h_timer (c_hdr c)) = []) &&
  bool_decide (tm_wtimer (h_timer (c_hdr c)) = WT_idle) && negb (c_out c) && negb (c_in c).

(** A peer that announces too large a message while ours goes out: NN_USOCK_SENT
    finds the connection in the state DONE. *)
Definition oversized : list conn_step :=
  handshake 81 [0; 0; 0; 0; 0; 100; 0; 0] ++ [X_event [O_send hello_msg]; ev].

(** A peer that sends the header of a message and closes: the pipe is stopped with
    an event of it still queued. *)
Definition closing : list conn_step :=
  handshake 81 [0; 0; 0; 0; 0; 0; 0; 20] ++ [X_rx (R_data []); X_event [O_send hello_msg]; ev; ev; ev].

(** The socket breaks while the timer of the header exchange is being stopped. *)
Definition unnoticed : list conn_step :=
  [X_tx (T_room 100); X_usock U_task; X_usock U_out; ev; X_usock U_task; X_tx (T_room 1000);
   X_rx (R_data [0; 83; 80; 0; 0; 81; 0; 0]); X_usock U_in; ev; X_usock U_err; ev; X_timer W_task; X_timer W_task;
   ev; ev; ev; X_event [O_send hello_msg]].

Definition too_large (c : conn) : bool :=
  (s_state (c_st c) =? NN_STCP_STATE_DONE) && (pstate (c_pipe c) =? NN_PIPEBASE_STATE_ACTIVE).

End StreamSample.
Import StreamSample.

Lemma aborts_ok e f x c : aborts e f x c = true →
  conn_enabled c x = true ∧ conn_legal x ∧ conn_exec e accepting 0 c x = Fail f.
Proof.
  unfold aborts. intros [[Hen Hl]%andb_true_iff Hf]%andb_true_iff. split; [done|]. split; [by apply legal_ok|].
  destruct (conn_exec e accepting 0 c x) as [|f']; [done|]. by destruct f, f'.
Qed.

Lemma stuck_ok c : stuck c = true →
  quiet c = true ∧ s_state (c_st c) = NN_STCP_STATE_ACTIVE ∧ u_state (c_us c) = NN_USOCK_STATE_DONE ∧
  c_out c = false ∧ c_in c = false ∧
  (∀ s, usock_ready (c_us c) s = false) ∧ (∀ s, worker_ready (h_timer (c_hdr c)) s = false).
Proof.
  unfold stuck. rewrite !andb_true_iff, !negb_true_iff, !bool_decide_eq_true, !Z.eqb_eq.
  intros ((((((((Hq & Hs) & Hu) & Ht) & Hr) & Hw) & Hwt) & Ho) & Hi). split_and!; try done.
  - intros []; cbn; by rewrite ?Ht, ?Hr.
  - intros []; cbn; by rewrite Hwt, ?Hw.
Qed.

(** What a peer can do to the process, and what it can miss.  A peer that announces
    a message larger than NN_RCVMAXSIZE at the right moment makes the process abort; a
    peer that closes inside a message makes it use the protocol's data of a pipe that
    was removed; and an error of the socket that comes while the timer of the header
    exchange is being stopped is lost: the connection becomes active on a socket that
    is closed, and nothing will ever happen to it. *)
Theorem stream_faults :
  (∃ c x, conn_reach pusher accepting 0 c ∧ conn_enabled c x = true ∧ conn_legal x ∧
     s_state (c_st c) = NN_STCP_STATE_DONE ∧ pstate (c_pipe c) = NN_PIPEBASE_STATE_ACTIVE ∧
     conn_exec pusher accepting 0 c x = Fail Abort) ∧
  (∃ c x, conn_reach pusher accepting 0 c ∧ conn_enabled c x = true ∧ conn_legal x ∧
     conn_exec pusher accepting 0 c x = Fail Crash) ∧
  (∃ c, conn_reach pusher accepting 0 c ∧ quiet c = true ∧
     s_state (c_st c) = NN_STCP_STATE_ACTIVE ∧ u_state (c_us c) = NN_USOCK_STATE_DONE ∧ c_out c = false ∧ c_in c = false ∧
     (∀ s, usock_ready (c_us c) s = false) ∧ (∀ s, worker_ready (h_timer (c_hdr c)) s = false)).
Proof.
  split; [|split].
  - destruct (runs_reach pusher oversized (λ c, aborts pusher Abort ev c && too_large c)) as (c & Hc & Hf);
      [vm_compute; reflexivity|].
    apply andb_true_iff in Hf as [(? & ? & ?)%aborts_ok [?%Z.eqb_eq ?%Z.eqb_eq]%andb_true_iff]. by exists c, ev.
  - destruct (runs_reach pusher closing (aborts pusher Crash ev)) as (c & Hc & (? & ? & ?)%aborts_ok);
      [vm_compute; reflexivity|]. by exists c, ev.
  - destruct (runs_reach pusher unnoticed stuck) as (c & Hc & Hf%stuck_ok); [vm_compute; reflexivity|]. by exists c.
Qed.

Lemma stream_safe_witness :
  ∃ c, nn_stcp_start pusher accepting 0 (conn_init pusher u0 p0) = Ret c ∧ conn_reach pusher accepting 0 c.
Proof.
  apply (proj1 (stream_safe pusher accepting 0 (env_ok false 80 81))); [exact start_fresh|reflexivity|reflexivity].
Defined.

Lemma stream_exact_witness :
  ∃ c, conn_reach pusher accepting 0 c ∧ c_sent c = [hello_msg] ∧ c_out c = true ∧
    k_written (u_os (c_us c)) = hello pusher ++ wires pusher [hello_msg].
Proof.
  destruct (runs_reach pusher sender (λ c, quiet c && (s_state (c_st c) =? NN_STCP_STATE_ACTIVE) &&
    (u_state (c_us c) =? NN_USOCK_STATE_ACTIVE) && bool_decide (c_sent c = [hello_msg]) && c_out c)) as (c & Hc & Hf);
    [vm_compute; reflexivity|].
  rewrite !andb_true_iff, bool_decide_eq_true, !Z.eqb_eq in Hf. destruct Hf as ((((Hq & Hs) & Hu) & Hm) & Ho).
  exists c. split; [exact Hc|]. split; [exact Hm|]. split; [exact Ho|].
  destruct (stream_exact pusher accepting 0 c (env_ok false 80 81) Hc) as (_ & _ & Hx).
  destruct (Hx Hq Hs Hu) as [Hw _]. rewrite Ho, Hm in Hw. exact Hw.
Defined.

Lemma stream_delivers_witness :
  ∃ cA cB, conn_reach pusher accepting 0 cA ∧ conn_reach puller accepting 0 cB ∧
    c_rcvd cB = [strip hello_msg] ∧ c_rcvd cB `prefix_of` (strip <$> c_sent cA).
Proof.
  set (sent := [0; 83; 80; 0; 0; 80; 0; 0; 0; 0; 0; 0; 0; 0; 0; 4; 9; 1; 2; 3]).
  destruct (runs_reach pusher sender (λ c, bool_decide (c_sent c = [hello_msg]) && bool_decide (k_written (u_os (c_us c)) = sent)))
    as (cA & HA & Hf); [vm_compute; reflexivity|].
  destruct (runs_reach puller receiver (λ c, bool_decide (c_rcvd c = [strip hello_msg]) && bool_decide (k_read (u_os (c_us c)) = sent)))
    as (cB & HB & Hg); [vm_compute; reflexivity|].
  rewrite andb_true_iff, !bool_decide_eq_true in Hf, Hg. destruct Hf as [Hs Hw], Hg as [Hr Hk].
  exists cA, cB. split; [exact HA|]. split; [exact HB|]. split; [exact Hr|].
  apply (stream_delivers pusher puller accepting accepting 0 0 cA cB (env_ok false 80 81) (env_ok false 81 80));
    [reflexivity|exact HA|exact HB| |].
  - rewrite Hs. constructor; [vm_compute; reflexivity|constructor].
  - rewrite Hk, Hw. exists []. reflexivity.
Defined.
