(* ===== verification/Iovec.v ===== *)
(** * nn_sendmsg and nn_recvmsg: data between the user's buffers and a message

    The messages are the values of Msg.v; what the calls do with the socket is
    in SockSys.v ([U_send], [U_recv]).  A buffer of the user is the memory from its
    address on; copying past the end of it is [Fail Crash].  [mem] says whether an
    allocation of a size succeeds: the library aborts when it does not. *)
From S2P Require Import Prelude Chunk Msg Cmsg.

Definition EFAULT : Z := 14.
Definition EMSGSIZE : Z := 90.
Definition PROTO_SP : Z := 1.
Definition SP_HDR : Z := 1.

(** [IovMsg] has the length NN_MSG: the buffer holds the address of a chunk.
    None is NULL. *)
Inductive nn_iovec :=
| IovBuf (iov_base : option (list Z)) (iov_len : Z)
| IovMsg (chunk : option (list Z)).

Record nn_msghdr := NnMsghdr {
  msg_iov : list nn_iovec;
  msg_iovlen : Z;
  msg_ctrl : option msghdr;   (* None: msg_control is NULL *)
}.

(** [memcpy] of [n] bytes from a buffer of the user. *)
Definition copy_from (base : option (list Z)) (n : Z) : outcome (list Z) :=
  if n =? 0 then Ret [] else m ← deref base; read_at m 0 (Z.to_nat n).

Section code.
Context (mem : Z → bool).

(** ** nn_sendmsg *)

(** The first loop: the size of the message, or an error. *)
Fixpoint gather_size (l : list nn_iovec) (sz : Z) : Z + Z :=
  match l with
  | [] => inl sz
  | IovMsg _ :: _ => inr (- EINVAL)
  | IovBuf base len :: l =>
      if match base with None => negb (len =? 0) | Some _ => false end then inr (- EFAULT)
      else if u64 (sz + len) <? sz then inr (- EINVAL)
      else gather_size l (u64 (sz + len))
  end.

(** The second loop. *)
Fixpoint gather (l : list nn_iovec) : outcome (list Z) :=
  match l with
  | IovBuf base len :: l => bs ← copy_from base len; r ← gather l; Ret (bs ++ r)
  | _ => Ret []
  end.

(** The body, its size and whether it is the user's chunk; or an error. *)
Definition gather_all (l : list nn_iovec) : outcome (list Z * Z * bool + Z) :=
  match gather_size l 0 with
  | inr e => Ret (inr e)
  | inl sz => nn_assert (mem sz);; bs ← gather l; Ret (inl (bs, sz, false))
  end.
Definition sendmsg_body (l : list nn_iovec) : outcome (list Z * Z * bool + Z) :=
  match l with
  | [IovMsg None] => Ret (inr (- EFAULT))
  | [IovMsg (Some chunk)] => Ret (inl (chunk, Z.of_nat (length chunk), true))
  | l => gather_all l
  end.

(** The header of the message from the SP_HDR property at the offset [c]. *)
Definition take_sphdr (control : list Z) (c : Z) (sphdr : list Z) : outcome (list Z) :=
  len ← cmsg_len control c;
  let clen := u64 (len - NN_CMSG_SPACE 0) in
  if 8 <? clen then
    let ptr := (Z.to_nat c + 16)%nat in
    spsz ← ld 8 control ptr;
    if spsz <=? clen - 8 then nn_assert (mem spsz);; read_at control (ptr + 8) (Z.to_nat spsz)
    else Ret sphdr
  else Ret sphdr.

(** The message, its size and whether the body is the user's chunk; or an error. *)
Definition sendmsg_build (fuel : nat) (mhdr : option nn_msghdr) : outcome (vmsg * Z * bool + Z) :=
  match mhdr with
  | None => Ret (inr (- EINVAL))
  | Some mhdr =>
      if msg_iovlen mhdr <? 0 then Ret (inr (- EMSGSIZE))
      else
        r ← sendmsg_body (msg_iov mhdr);
        match r with
        | inr e => Ret (inr e)
        | inl (body, sz, nnmsg) =>
            match msg_ctrl mhdr with
            | None => Ret (inl (VMsg [] [] body, sz, nnmsg))
            | Some ctl =>
                hdrs ← (if msg_controllen ctl =? NN_MSG then Ret (msg_control ctl)
                        else nn_assert (mem (msg_controllen ctl));;
                             read_at (msg_control ctl) 0 (Z.to_nat (msg_controllen ctl)));
                cmsg ← cmsg_find fuel ctl PROTO_SP SP_HDR;
                sphdr ← (match cmsg with None => Ret [] | Some c => take_sphdr (msg_control ctl) c [] end);
                Ret (inl (VMsg sphdr hdrs body, sz, nnmsg))
            end
        end
  end.

(** ** nn_recvmsg *)

(** What each buffer receives; [IovMsg] in the middle is an error. *)
Fixpoint scatter (l : list nn_iovec) (data : list Z) : list (list Z) + Z :=
  match l with
  | [] => inl []
  | IovMsg _ :: _ => inr (- EINVAL)
  | IovBuf _ len :: l =>
      if Z.of_nat (length data) <? len then inl [data]
      else
        match scatter l (drop (Z.to_nat len) data) with
        | inl r => inl (take (Z.to_nat len) data :: r)
        | inr e => inr e
        end
  end.

(** The control buffer, with [ctrl] as contents before. *)
Definition fill_control (msg : vmsg) (ctrlsz : Z) (ctrl : list Z) : outcome (list Z) :=
  let spsz := Z.of_nat (length (sphdr msg)) in
  let sptotalsz := NN_CMSG_SPACE (spsz + 8) in
  if ctrlsz <? sptotalsz then Ret ctrl
  else
    ctrl ← write_at ctrl 0 (le 8 sptotalsz ++ le 4 (u32 PROTO_SP) ++ le 4 (u32 SP_HDR));
    ctrl ← write_at ctrl 16 (le 8 spsz);
    ctrl ← write_at ctrl 24 (sphdr msg);
    let hdrssz := Z.min (Z.of_nat (length (hdrs msg))) (ctrlsz - sptotalsz) in
    write_at ctrl (Z.to_nat sptotalsz) (take (Z.to_nat hdrssz) (hdrs msg)).

(** [junk] is the memory [nn_chunk_alloc] returns.  The result: the bytes of the
    message, what the buffers receive, the control buffer; or an error, when the
    message is lost. *)
Definition recvmsg_copy (junk : nat → list Z) (mhdr : nn_msghdr) (msg : vmsg) :
    outcome (Z * list (list Z) * option (list Z) + Z) :=
  match (match msg_iov mhdr with [IovMsg _] => inl [body msg] | l => scatter l (body msg) end) with
  | inr e => Ret (inr e)
  | inl out =>
      let sz := Z.of_nat (length (body msg)) in
      match msg_ctrl mhdr with
      | None => Ret (inl (sz, out, None))
      | Some ctl =>
          let ctrlsz := NN_CMSG_SPACE (Z.of_nat (length (sphdr msg)) + 8) + Z.of_nat (length (hdrs msg)) in
          ctrl ← (if msg_controllen ctl =? NN_MSG
                  then nn_assert (mem ctrlsz);; fill_control msg ctrlsz (junk (Z.to_nat ctrlsz))
                  else fill_control msg (msg_controllen ctl) (msg_control ctl));
          Ret (inl (sz, out, Some ctrl))
      end
  end.

(** Errors before a message is received. *)
Definition recvmsg_check (mhdr : option nn_msghdr) : Z :=
  match mhdr with
  | None => - EINVAL
  | Some mhdr => if msg_iovlen mhdr <? 0 then - EMSGSIZE else 0
  end.

End code.

(** ** Lemmas *)

Lemma write_at_app pre x post bs : length x = length bs →
  write_at (pre ++ x ++ post) (length pre) bs = Ret (pre ++ bs ++ post).
Proof.
  intros Hx. unfold write_at. rewrite decide_True by (rewrite !length_app; lia).
  rewrite take_app_length. f_equal. f_equal. f_equal. rewrite <- Hx, <- length_app, app_assoc. apply drop_app_length.
Qed.

Lemma read_at_app pre x post : read_at (pre ++ x ++ post) (length pre) (length x) = Ret x.
Proof.
  unfold read_at. rewrite decide_True by (rewrite !length_app; lia). by rewrite drop_app_length, take_app_length.
Qed.

Lemma split_len {A} (l : list A) a b : length l = (a + b)%nat → ∃ l1 l2, l = l1 ++ l2 ∧ length l1 = a ∧ length l2 = b.
Proof.
  intros Hl. exists (take a l), (drop a l). rewrite take_drop, length_take, length_drop. split_and!; (done || lia).
Qed.

Lemma space_spec n : 0 ≤ n < 2 ^ 62 → NN_CMSG_SPACE n = (n + 7) / 8 * 8 + 16 ∧ n + 16 ≤ NN_CMSG_SPACE n < n + 24.
Proof.
  intros Hn. unfold NN_CMSG_SPACE. change (NN_CMSG_ALIGN_ sizeof_cmsghdr) with 16. rewrite align_spec by lia.
  unfold u64. rewrite Z.mod_small by (Z.to_euclidean_division_equations; lia).
  split; [done|]. Z.to_euclidean_division_equations; lia.
Qed.

Section lemmas.
Context (mem : Z → bool) (Hmem : ∀ n, mem n = true).

(** What nn_recvmsg puts into a control buffer that is large enough. *)
Lemma fill_control_ok msg ctrl :
  let spsz := Z.of_nat (length (sphdr msg)) in
  let tot := NN_CMSG_SPACE (spsz + 8) in
  spsz + Z.of_nat (length (hdrs msg)) < 2 ^ 61 →
  Z.of_nat (length ctrl) = tot + Z.of_nat (length (hdrs msg)) →
  ∃ pad, Z.of_nat (length pad) = tot - 24 - spsz ∧
    fill_control msg (Z.of_nat (length ctrl)) ctrl =
      Ret (le 8 tot ++ le 4 (u32 PROTO_SP) ++ le 4 (u32 SP_HDR) ++ le 8 spsz ++ sphdr msg ++ pad ++ hdrs msg).
Proof.
  cbn zeta. intros Hsz Hl. destruct (space_spec (Z.of_nat (length (sphdr msg)) + 8)) as [_ Htot]; [lia|].
  set (spsz := Z.of_nat (length (sphdr msg))) in *. set (tot := NN_CMSG_SPACE (spsz + 8)) in *.
  destruct (split_len ctrl 16 (8 + (length (sphdr msg) + (Z.to_nat (tot - 24 - spsz) + length (hdrs msg)))))
    as (c1 & r1 & -> & H1 & Hr1); [lia|].
  destruct (split_len _ _ _ Hr1) as (c2 & r2 & -> & H2 & Hr2). destruct (split_len _ _ _ Hr2) as (c3 & r3 & -> & H3 & Hr3).
  destruct (split_len _ _ _ Hr3) as (pad & c4 & -> & H4 & H5). exists pad. split; [lia|].
  unfold fill_control. fold spsz. fold tot. rewrite (proj2 (Z.ltb_ge _ _)) by lia.
  set (h := le 8 tot ++ le 4 (u32 PROTO_SP) ++ le 4 (u32 SP_HDR)).
  assert (length h = 16%nat) as Hh by done.
  assert (write_at (c1 ++ c2 ++ c3 ++ pad ++ c4) 0 h = Ret (h ++ c2 ++ c3 ++ pad ++ c4)) as ->
    by (apply (write_at_app [] c1); lia). step.
  rewrite <- Hh. rewrite (write_at_app h c2 _ (le 8 spsz)) by (by rewrite length_le). step.
  replace 24%nat with (length (h ++ le 8 spsz)) by (by rewrite length_app, length_le, Hh).
  rewrite (app_assoc h (le 8 spsz)), (write_at_app (h ++ le 8 spsz) c3) by done. step.
  rewrite Z.min_l by lia. rewrite Nat2Z.id, firstn_all.
  replace (Z.to_nat tot) with (length (((h ++ le 8 spsz) ++ sphdr msg) ++ pad))
    by (rewrite !length_app, length_le, Hh; lia).
  rewrite (app_assoc _ (sphdr msg)), (app_assoc _ pad), <- (app_nil_r c4), (write_at_app _ c4 [] (hdrs msg)) by done.
  by rewrite app_nil_r, <- !app_assoc.
Qed.

(** nn_sendmsg finds the header that nn_recvmsg has put into a control buffer. *)
Lemma sphdr_found fuel sp pad rest :
  let spsz := Z.of_nat (length sp) in
  let tot := NN_CMSG_SPACE (spsz + 8) in
  let ctl := le 8 tot ++ le 4 (u32 PROTO_SP) ++ le 4 (u32 SP_HDR) ++ le 8 spsz ++ sp ++ pad ++ rest in
  (0 < fuel)%nat → spsz < 2 ^ 61 → Z.of_nat (length pad) = tot - 24 - spsz → Z.of_nat (length ctl) < 2 ^ 62 →
  cmsg_find fuel (Msghdr ctl NN_MSG) PROTO_SP SP_HDR = Ret (Some 0) ∧ take_sphdr mem ctl 0 [] = Ret sp.
Proof.
  cbn zeta. intros Hfuel Hsp Hpad Hl. destruct (space_spec (Z.of_nat (length sp) + 8)) as [Et Htot]; [lia|].
  set (spsz := Z.of_nat (length sp)) in *. set (tot := NN_CMSG_SPACE (spsz + 8)) in *.
  set (ctl := le 8 tot ++ _) in *.
  assert (Z.of_nat (length ctl) = tot + Z.of_nat (length rest)) as Hlen
    by (unfold ctl; rewrite !length_app, !length_le; lia).
  assert (cmsg_len ctl 0 = Ret tot) as Elen.
  { unfold cmsg_len, ctl. apply (ld_le 8 tot []). change (256 ^ Z.of_nat 8) with (2 ^ 64). lia. }
  assert (NN_CMSG_ALIGN_ tot = tot) as Ealign.
  { rewrite align_spec by lia. rewrite Et. Z.to_euclidean_division_equations; lia. }
  split.
  - unfold cmsg_find, NN_CMSG_FIRSTHDR, nn_cmsg_nxthdr_, control_size. cbn [msg_control msg_controllen].
    rewrite Z.eqb_refl, space0. rewrite (proj2 (Z.ltb_ge _ 16)) by lia. step.
    change (u64 (0 + 16)) with 16. rewrite (proj2 (Z.ltb_ge _ 16)) by lia. rewrite Elen. step. rewrite Ealign.
    rewrite Z.add_0_l. unfold u64. rewrite Z.mod_small by lia. rewrite (proj2 (Z.ltb_ge _ _)) by lia. step.
    assert (cmsg_find_body (Msghdr ctl NN_MSG) PROTO_SP SP_HDR (Some 0) = Ret (Some 0, Some tt)) as Eb.
    { unfold cmsg_find_body. cbn [msg_control].
      assert (cmsg_level ctl 0 = Ret PROTO_SP) as -> by (unfold cmsg_level, ctl; by apply ld_int). step.
      assert (cmsg_type ctl 0 = Ret SP_HDR) as ->; [|done].
      unfold cmsg_type, ctl. rewrite (app_assoc (le 8 tot)). by apply ld_int. }
    destruct fuel as [|fuel]; [lia|]. cbn [while]. rewrite Eb. done.
  - unfold take_sphdr. rewrite Elen. step. rewrite space0. unfold u64. rewrite Z.mod_small by lia.
    destruct (Z.ltb_spec 8 (tot - 16)) as [Hc|Hc].
    + assert (ld 8 ctl (Z.to_nat 0 + 16) = Ret spsz) as ->.
      { unfold ctl. rewrite (app_assoc (le 8 tot)), (app_assoc (_ ++ _)).
        apply (ld_le 8 spsz ((le 8 tot ++ le 4 (u32 PROTO_SP)) ++ le 4 (u32 SP_HDR))).
        change (256 ^ Z.of_nat 8) with (2 ^ 64). lia. }
      step. rewrite (proj2 (Z.leb_le _ _)) by lia. rewrite Hmem. step. unfold spsz. rewrite Nat2Z.id. unfold ctl.
      rewrite (app_assoc (le 8 tot)), (app_assoc (_ ++ _)), (app_assoc (_ ++ _)).
      apply (read_at_app ((((le 8 tot ++ le 4 (u32 PROTO_SP)) ++ le 4 (u32 SP_HDR)) ++ le 8 (Z.of_nat (length sp))))).
    + f_equal. symmetry. apply nil_length_inv. lia.
Qed.

(** Forwarding keeps the header.  What nn_recvmsg with NN_MSG buffers returns
    for a message - its body, and a control buffer with the header in an SP_HDR
    property - makes nn_sendmsg build a message with the same body and header: this
    is how devices forward messages of raw sockets. *)
Lemma forward_msg junk fuel msg :
  (∀ n, length (junk n) = n) → (0 < fuel)%nat →
  Z.of_nat (length (sphdr msg)) + Z.of_nat (length (hdrs msg)) < 2 ^ 61 →
  ∃ control,
    recvmsg_copy mem junk (NnMsghdr [IovMsg None] 1 (Some (Msghdr [] NN_MSG))) msg =
      Ret (inl (Z.of_nat (length (body msg)), [body msg], Some control)) ∧
    sendmsg_build mem fuel (Some (NnMsghdr [IovMsg (Some (body msg))] 1 (Some (Msghdr control NN_MSG)))) =
      Ret (inl (VMsg (sphdr msg) control (body msg), Z.of_nat (length (body msg)), true)).
Proof.
  intros Hj Hf Hsz. destruct (space_spec (Z.of_nat (length (sphdr msg)) + 8)) as [_ Htot]; [lia|].
  set (n := NN_CMSG_SPACE (Z.of_nat (length (sphdr msg)) + 8) + Z.of_nat (length (hdrs msg))).
  assert (Z.of_nat (length (junk (Z.to_nat n))) = n) as Hn by (rewrite Hj, Z2Nat.id; lia).
  destruct (fill_control_ok msg (junk (Z.to_nat n))) as (pad & Hpad & E); [lia|exact Hn|].
  rewrite Hn in E. eexists. split.
  - unfold recvmsg_copy. cbn [msg_iov msg_ctrl msg_controllen]. rewrite Z.eqb_refl. fold n. rewrite Hmem. step.
    rewrite E. step. reflexivity.
  - unfold sendmsg_build. cbn [msg_iov msg_iovlen msg_ctrl msg_controllen msg_control]. rewrite Z.eqb_refl.
    change (1 <? 0) with false. step.
    destruct (sphdr_found fuel (sphdr msg) pad (hdrs msg) Hf ltac:(lia) Hpad) as [-> E2].
    { rewrite !length_app, !length_le. lia. }
    step. rewrite E2. by step.
Qed.

(** ** Scattered and gathered data *)

Definition buffer (b : list Z * list Z) : nn_iovec := IovBuf (Some (b.1 ++ b.2)) (Z.of_nat (length b.1)).

Lemma gather_size_ok bs sz : 0 ≤ sz → sz + Z.of_nat (length (concat bs.*1)) < 2 ^ 64 →
  gather_size (buffer <$> bs) sz = inl (sz + Z.of_nat (length (concat bs.*1))).
Proof.
  revert sz. induction bs as [|[b r] bs IH]; intros sz Hsz Hl; cbn [fmap list_fmap buffer gather_size fst snd concat] in *.
  - by rewrite Z.add_0_r.
  - rewrite length_app in *. unfold u64. rewrite Z.mod_small by lia. rewrite (proj2 (Z.ltb_ge _ _)) by lia.
    rewrite IH by lia. f_equal. lia.
Qed.

Lemma gather_ok bs : gather (buffer <$> bs) = Ret (concat bs.*1).
Proof.
  induction bs as [|[b r] bs IH]; [done|]. rewrite !fmap_cons. unfold buffer at 1. cbn [gather fst snd concat].
  assert (copy_from (Some (b ++ r)) (Z.of_nat (length b)) = Ret b) as ->.
  { unfold copy_from. destruct (Z.eqb_spec (Z.of_nat (length b)) 0); [by destruct b|]. step.
    rewrite Nat2Z.id. apply (read_at_app [] b r). }
  step. rewrite IH. by step.
Qed.

(** nn_sendmsg sends the concatenation of the buffers. *)
Lemma sendmsg_gathers fuel bs len : 0 ≤ len → Z.of_nat (length (concat bs.*1)) < 2 ^ 64 →
  sendmsg_build mem fuel (Some (NnMsghdr (buffer <$> bs) len None)) =
    Ret (inl (VMsg [] [] (concat bs.*1), Z.of_nat (length (concat bs.*1)), false)).
Proof.
  intros Hlen Hl. unfold sendmsg_build. cbn [msg_iov msg_iovlen msg_ctrl]. rewrite (proj2 (Z.ltb_ge _ _)) by done.
  assert (gather_all mem (buffer <$> bs) = Ret (inl (concat bs.*1, Z.of_nat (length (concat bs.*1)), false))) as Eg.
  { unfold gather_all. rewrite gather_size_ok, Z.add_0_l, Hmem by lia. step. rewrite gather_ok. by step. }
  assert (sendmsg_body mem (buffer <$> bs) = gather_all mem (buffer <$> bs)) as -> by (destruct bs as [|[] [|]]; done).
  rewrite Eg. by step.
Qed.

(** nn_recvmsg fills the buffers one after the other, up to the end of the
    message or of the last buffer. *)
Lemma recvmsg_scatters lens data : Forall (λ n, 0 ≤ n) lens →
  ∃ out, scatter (IovBuf None <$> lens) data = inl out ∧
    concat out = take (Z.to_nat (foldr Z.add 0 lens)) data ∧
    ∀ i o, out !! i = Some o → ∃ n, lens !! i = Some n ∧ Z.of_nat (length o) ≤ n.
Proof.
  revert data. induction lens as [|n lens IH]; intros data Hl; cbn [fmap list_fmap scatter].
  - by exists [].
  - apply Forall_cons in Hl as [Hn Hl].
    assert (0 ≤ foldr Z.add 0 lens) as Hs by (clear -Hl; induction Hl; cbn; lia). cbn [foldr].
    destruct (Z.ltb_spec (Z.of_nat (length data)) n) as [Hlt|Hge].
    + exists [data]. split; [done|]. split; [cbn; rewrite app_nil_r, take_ge by lia; done|].
      intros [|i] o Ho; [|done]. injection Ho as <-. exists n. split; [done|lia].
    + destruct (IH (drop (Z.to_nat n) data) Hl) as (out & E & Hc & Hi). rewrite E. eexists. split; [reflexivity|]. split.
      * cbn [concat]. rewrite Hc, take_take_drop. f_equal. lia.
      * intros [|i] o Ho; [|by apply Hi]. injection Ho as <-. exists n. split; [done|]. rewrite length_take. lia.
Qed.
End lemmas.
