(* ===== verification/Frames.v ===== *)
(** * The protocols touch their pipes only by sending and receiving

    [ProtoFrame] of Protocol.v for the protocols: [auto with moves] follows the
    calls a function makes. *)
From S2P Require Import Prelude NnList Priolist Pipe LbFq Msg Dist Protocol Hash Pair Pipeline Bus Pubsub Rep Fsm Xreq Survey.

Create HintDb moves.

Section moves.
Context `{PipeOps W M}.

Lemma moved_refl (w : W) : moved (M := M) w w.
Proof. apply rtc_refl. Qed.

Lemma moved_trans (w w1 w2 : W) : moved (M := M) w w1 → moved (M := M) w1 w2 → moved (M := M) w w2.
Proof. apply transitivity. Qed.

Lemma send_moved (w : W) p (m : M) w' rc : nn_pipe_send w p m = Ret (w', rc) → moved (M := M) w w'.
Proof. intros E. apply rtc_once. left. eauto. Qed.

Lemma recv_moved (w : W) p w' rc (m : M) : nn_pipe_recv w p = Ret (w', rc, m) → moved (M := M) w w'.
Proof. intros E. apply rtc_once. right. eauto. Qed.

(** A loop moves when its body does. *)
Lemma while_moved {S R : Type} (body : S * W → outcome (S * W * option R)) :
  (∀ s w s' w' r, body (s, w) = Ret (s', w', r) → moved (M := M) w w') →
  ∀ fuel s w s' w' r, while fuel body (s, w) = Ret (s', w', r) → moved (M := M) w w'.
Proof.
  intros Hb. induction fuel as [|fuel IH]; intros s w s' w' r; cbn; [done|].
  destruct (body (s, w)) as [[[s1 w1] [r1|]]|] eqn:E; cbn; [|intros E'|done].
  - intros [= <- <- <-]. by eapply Hb.
  - eapply moved_trans; [by eapply Hb|by eapply IH].
Qed.

End moves.

#[export] Hint Resolve moved_refl send_moved recv_moved : moves.

(** Follows the calls: every world that occurs was moved to. *)
Ltac moves :=
  repeat (inv_ret; match goal with
  | H : context [match ?x with _ => _ end] |- _ => lazymatch x with
      | context [match _ with _ => _ end] => fail
      | _ => destruct x eqn:? end
  end);
  inv_ret; simplify_eq; eauto 4 using moved_trans with moves.

Section helpers.
Context `{ListStore T}.

Lemma lb_send_moved `{PipeOps W M} lb (w : W) (m : M) lb' w' rc to :
  nn_lb_send (T := T) lb w m = Ret (lb', w', rc, to) → moved (M := M) w w'.
Proof. unfold nn_lb_send. intros E. moves. Qed.

Lemma fq_recv_moved `{PipeOps W M} fq (w : W) fq' w' rc (r : option (pid * M)) :
  nn_fq_recv (T := T) fq w = Ret (fq', w', rc, r) → moved (M := M) w w'.
Proof. unfold nn_fq_recv. intros E. moves. Qed.

Lemma dist_loop_moved `{PipeOps W M} `{MsgOps HP M} fuel d (w : W) h (m : M) ex it d' w' h' :
  nn_dist_send_loop (T := T) fuel d w h m ex it = Ret (d', w', h') → moved (M := M) w w'.
Proof.
  revert d w h it. induction fuel as [|fuel IH]; intros d w h [it|]; cbn; intros E; moves.
Qed.

Lemma dist_send_moved `{PipeOps W M} `{MsgOps HP M} d (w : W) h (m : M) ex d' w' h' rc :
  nn_dist_send (T := T) d w h m ex = Ret (d', w', h', rc) → moved (M := M) w w'.
Proof.
  unfold nn_dist_send. intros E. case_match; inv_ret; [apply moved_refl|].
  by eapply dist_loop_moved.
Qed.
End helpers.

#[export] Hint Resolve lb_send_moved fq_recv_moved dist_send_moved : moves.

(** ** The protocols *)

#[export] Instance xpair_frame `{PipeFinite W M} : ProtoFrame nn_excl W M.
Proof.
  split; cbn.
  - by intros s w ps [].
  - intros ? s w p s' w' E. moves.
  - intros s w p s' w' E. moves.
  - unfold nn_xpair_send, nn_excl_send. intros s w m s' w' rc E. moves.
  - unfold nn_xpair_recv, nn_excl_recv. intros ? s w s' w' rc r E. moves.
Qed.

Section protocols.
Context `{ListStoreOk T}.

#[export] Instance xpush_frame `{PipeFinite W M} : ProtoFrame (nn_xpush T) W M.
Proof.
  split; cbn.
  - by intros s w ps [].
  - intros ? s w p s' w' E. moves.
  - intros s w p s' w' E. moves.
  - unfold nn_xpush_send. intros s w m s' w' rc E. moves.
  - intros ? s w s' w' rc r E. moves.
Qed.

#[export] Instance xpull_frame `{PipeFinite W M} : ProtoFrame (nn_xpull T) W M.
Proof.
  split; cbn.
  - by intros s w ps [].
  - intros ? s w p s' w' E. moves.
  - intros s w p s' w' E. moves.
  - intros s w m s' w' rc E. moves.
  - unfold nn_xpull_recv. intros ? s w s' w' rc r E. moves.
Qed.

Context `{PipeFinite W vmsg}.

#[export] Instance xpub_frame : ProtoFrame (nn_xpub T) W vmsg.
Proof.
  split; cbn.
  - by intros s w ps [].
  - intros ? s w p s' w' E. moves.
  - intros s w p s' w' E. moves.
  - unfold nn_xpub_send. intros s w m s' w' rc E. moves.
  - intros ? s w s' w' rc r E. moves.
Qed.

Lemma xbus_send_moved (s : nn_xbus T) (w : W) m s' w' rc :
  nn_xbus_send s w m = Ret (s', w', rc) → moved (M := vmsg) w w'.
Proof. unfold nn_xbus_send. intros E. moves. Qed.

Lemma xbus_recv_moved fuel (s : nn_xbus T) (w : W) s' w' rc r :
  nn_xbus_recv fuel s w = Ret (s', w', rc, r) → moved (M := vmsg) w w'.
Proof.
  unfold nn_xbus_recv. intros E. moves; eapply while_moved; try done; unfold nn_xbus_recv_body;
    intros ????? E; moves.
Qed.

#[export] Instance xbus_frame : ProtoFrame (nn_xbus T) W vmsg.
Proof.
  split; cbn.
  - by intros s w ps (_ & _ & ?).
  - intros ? s w p s' w' E. moves.
  - intros s w p s' w' E. moves.
  - apply xbus_send_moved.
  - apply xbus_recv_moved.
Qed.

#[export] Instance bus_frame : ProtoFrame (nn_bus T) W vmsg.
Proof.
  split; cbn.
  - by intros s w ps (_ & _ & ?).
  - intros ? s w p s' w' E. moves.
  - intros s w p s' w' E. moves.
  - unfold nn_bus_send. intros s w m s' w' rc E. moves; by eapply xbus_send_moved.
  - unfold nn_bus_recv. intros ? s w s' w' rc r E. moves; by eapply xbus_recv_moved.
Qed.

Lemma xrep_send_moved (s : nn_xrep T) (w : W) m s' w' rc :
  nn_xrep_send s w m = Ret (s', w', rc) → moved (M := vmsg) w w'.
Proof. unfold nn_xrep_send. intros E. moves. Qed.

Lemma xrep_recv_moved (s : nn_xrep T) (w : W) s' w' rc r :
  nn_xrep_recv s w = Ret (s', w', rc, r) → moved (M := vmsg) w w'.
Proof. unfold nn_xrep_recv. intros E. moves. Qed.

Context `{!PipeParse W}.

#[export] Instance xrep_frame : ProtoFrame (nn_xrep T) W vmsg.
Proof.
  split; cbn.
  - by intros s w ps (_ & ? & _).
  - intros ? s w p s' w' E. moves.
  - intros s w p s' w' E. moves.
  - apply xrep_send_moved.
  - intros _. apply xrep_recv_moved.
Qed.

#[export] Instance rep_frame : ProtoFrame (nn_rep T) W vmsg.
Proof.
  split; cbn.
  - by intros s w ps ((_ & ? & _) & _).
  - intros ? s w p s' w' E. moves.
  - intros s w p s' w' E. moves.
  - unfold nn_rep_send. intros s w m s' w' rc E. moves; by eapply xrep_send_moved.
  - unfold nn_rep_recv. intros ? s w s' w' rc r E. moves; by eapply xrep_recv_moved.
Qed.

#[export] Instance xreq_frame : ProtoFrame (nn_xreq T) W vmsg.
Proof.
  split; cbn.
  - by intros s w ps (_ & _ & ?).
  - intros ? s w p s' w' E. moves.
  - intros s w p s' w' E. moves.
  - unfold nn_xreq_send, nn_xreq_send_to. intros s w m s' w' rc E. moves.
  - unfold nn_xreq_recv. intros ? s w s' w' rc r E. moves.
Qed.

#[export] Instance xsurveyor_frame : ProtoFrame (nn_xsurveyor T) W vmsg.
Proof.
  split; cbn.
  - by intros s w ps (_ & _ & ?).
  - intros ? s w p s' w' E. moves.
  - intros s w p s' w' E. moves.
  - unfold nn_xsurveyor_send. intros s w m s' w' rc E. moves.
  - unfold nn_xsurveyor_recv. intros ? s w s' w' rc r E. moves.
Qed.

End protocols.
