(* ===== verification/SockState.v ===== *)
(** * core/sock.h and core/ep.h: the state of a socket

    [nn_sock] is the C structure, with the fields of the options and the
    statistics in records of their own; [sys] adds what lives around it: its
    endpoints, the events of its context, its pipes.  Lists are sequences here
    ([NnList.list_refinement]). *)
From S2P Require Import Prelude NnList Priolist Pipe Msg Protocol Core.

(** ** utils/efd.h: event descriptors, a file descriptor and the count of an eventfd *)
Record nn_efd := NnEfd { efd_fd : Z; efd_count : Z }.

(** ** protocol.h: a socket type *)
Record nn_socktype := NnSocktype {
  st_domain : Z; st_protocol : Z; st_flags : Z; st_ispeer : Z → bool }.

(** ** NN_SOL_SOCKET options *)
Record nn_sock_options := SockOptions {
  sndbuf : Z;
  rcvbuf : Z;
  rcvmaxsize : Z;
  sndtimeo : Z;
  rcvtimeo : Z;
  reconnect_ivl : Z;
  reconnect_ivl_max : Z;
  maxttl : Z;
  ep_template : nn_ep_options;
  socket_name : list Z;   (* up to the terminating 0 *)
}.

Definition set_sndbuf (v : Z) (x : nn_sock_options) : nn_sock_options :=
  SockOptions v (rcvbuf x) (rcvmaxsize x) (sndtimeo x) (rcvtimeo x) (reconnect_ivl x) (reconnect_ivl_max x) (maxttl x) (ep_template x) (socket_name x).
Definition set_rcvbuf (v : Z) (x : nn_sock_options) : nn_sock_options :=
  SockOptions (sndbuf x) v (rcvmaxsize x) (sndtimeo x) (rcvtimeo x) (reconnect_ivl x) (reconnect_ivl_max x) (maxttl x) (ep_template x) (socket_name x).
Definition set_rcvmaxsize (v : Z) (x : nn_sock_options) : nn_sock_options :=
  SockOptions (sndbuf x) (rcvbuf x) v (sndtimeo x) (rcvtimeo x) (reconnect_ivl x) (reconnect_ivl_max x) (maxttl x) (ep_template x) (socket_name x).
Definition set_sndtimeo (v : Z) (x : nn_sock_options) : nn_sock_options :=
  SockOptions (sndbuf x) (rcvbuf x) (rcvmaxsize x) v (rcvtimeo x) (reconnect_ivl x) (reconnect_ivl_max x) (maxttl x) (ep_template x) (socket_name x).
Definition set_rcvtimeo (v : Z) (x : nn_sock_options) : nn_sock_options :=
  SockOptions (sndbuf x) (rcvbuf x) (rcvmaxsize x) (sndtimeo x) v (reconnect_ivl x) (reconnect_ivl_max x) (maxttl x) (ep_template x) (socket_name x).
Definition set_reconnect_ivl (v : Z) (x : nn_sock_options) : nn_sock_options :=
  SockOptions (sndbuf x) (rcvbuf x) (rcvmaxsize x) (sndtimeo x) (rcvtimeo x) v (reconnect_ivl_max x) (maxttl x) (ep_template x) (socket_name x).
Definition set_reconnect_ivl_max (v : Z) (x : nn_sock_options) : nn_sock_options :=
  SockOptions (sndbuf x) (rcvbuf x) (rcvmaxsize x) (sndtimeo x) (rcvtimeo x) (reconnect_ivl x) v (maxttl x) (ep_template x) (socket_name x).
Definition set_maxttl (v : Z) (x : nn_sock_options) : nn_sock_options :=
  SockOptions (sndbuf x) (rcvbuf x) (rcvmaxsize x) (sndtimeo x) (rcvtimeo x) (reconnect_ivl x) (reconnect_ivl_max x) v (ep_template x) (socket_name x).
Definition set_ep_template (v : nn_ep_options) (x : nn_sock_options) : nn_sock_options :=
  SockOptions (sndbuf x) (rcvbuf x) (rcvmaxsize x) (sndtimeo x) (rcvtimeo x) (reconnect_ivl x) (reconnect_ivl_max x) (maxttl x) v (socket_name x).
Definition set_socket_name (v : list Z) (x : nn_sock_options) : nn_sock_options :=
  SockOptions (sndbuf x) (rcvbuf x) (rcvmaxsize x) (sndtimeo x) (rcvtimeo x) (reconnect_ivl x) (reconnect_ivl_max x) (maxttl x) (ep_template x) v.

(** ** Statistics *)
Record nn_statistics := Statistics {
  established_connections : Z;
  accepted_connections : Z;
  dropped_connections : Z;
  broken_connections : Z;
  connect_errors : Z;
  bind_errors : Z;
  accept_errors : Z;
  messages_sent : Z;
  messages_received : Z;
  bytes_sent : Z;
  bytes_received : Z;
  current_connections : Z;
  inprogress_connections : Z;
  current_snd_priority : Z;
  current_ep_errors : Z;
}.

Definition set_established_connections (v : Z) (x : nn_statistics) : nn_statistics :=
  Statistics v (accepted_connections x) (dropped_connections x) (broken_connections x) (connect_errors x) (bind_errors x) (accept_errors x) (messages_sent x) (messages_received x) (bytes_sent x) (bytes_received x) (current_connections x) (inprogress_connections x) (current_snd_priority x) (current_ep_errors x).
Definition set_accepted_connections (v : Z) (x : nn_statistics) : nn_statistics :=
  Statistics (established_connections x) v (dropped_connections x) (broken_connections x) (connect_errors x) (bind_errors x) (accept_errors x) (messages_sent x) (messages_received x) (bytes_sent x) (bytes_received x) (current_connections x) (inprogress_connections x) (current_snd_priority x) (current_ep_errors x).
Definition set_dropped_connections (v : Z) (x : nn_statistics) : nn_statistics :=
  Statistics (established_connections x) (accepted_connections x) v (broken_connections x) (connect_errors x) (bind_errors x) (accept_errors x) (messages_sent x) (messages_received x) (bytes_sent x) (bytes_received x) (current_connections x) (inprogress_connections x) (current_snd_priority x) (current_ep_errors x).
Definition set_broken_connections (v : Z) (x : nn_statistics) : nn_statistics :=
  Statistics (established_connections x) (accepted_connections x) (dropped_connections x) v (connect_errors x) (bind_errors x) (accept_errors x) (messages_sent x) (messages_received x) (bytes_sent x) (bytes_received x) (current_connections x) (inprogress_connections x) (current_snd_priority x) (current_ep_errors x).
Definition set_connect_errors (v : Z) (x : nn_statistics) : nn_statistics :=
  Statistics (established_connections x) (accepted_connections x) (dropped_connections x) (broken_connections x) v (bind_errors x) (accept_errors x) (messages_sent x) (messages_received x) (bytes_sent x) (bytes_received x) (current_connections x) (inprogress_connections x) (current_snd_priority x) (current_ep_errors x).
Definition set_bind_errors (v : Z) (x : nn_statistics) : nn_statistics :=
  Statistics (established_connections x) (accepted_connections x) (dropped_connections x) (broken_connections x) (connect_errors x) v (accept_errors x) (messages_sent x) (messages_received x) (bytes_sent x) (bytes_received x) (current_connections x) (inprogress_connections x) (current_snd_priority x) (current_ep_errors x).
Definition set_accept_errors (v : Z) (x : nn_statistics) : nn_statistics :=
  Statistics (established_connections x) (accepted_connections x) (dropped_connections x) (broken_connections x) (connect_errors x) (bind_errors x) v (messages_sent x) (messages_received x) (bytes_sent x) (bytes_received x) (current_connections x) (inprogress_connections x) (current_snd_priority x) (current_ep_errors x).
Definition set_messages_sent (v : Z) (x : nn_statistics) : nn_statistics :=
  Statistics (established_connections x) (accepted_connections x) (dropped_connections x) (broken_connections x) (connect_errors x) (bind_errors x) (accept_errors x) v (messages_received x) (bytes_sent x) (bytes_received x) (current_connections x) (inprogress_connections x) (current_snd_priority x) (current_ep_errors x).
Definition set_messages_received (v : Z) (x : nn_statistics) : nn_statistics :=
  Statistics (established_connections x) (accepted_connections x) (dropped_connections x) (broken_connections x) (connect_errors x) (bind_errors x) (accept_errors x) (messages_sent x) v (bytes_sent x) (bytes_received x) (current_connections x) (inprogress_connections x) (current_snd_priority x) (current_ep_errors x).
Definition set_bytes_sent (v : Z) (x : nn_statistics) : nn_statistics :=
  Statistics (established_connections x) (accepted_connections x) (dropped_connections x) (broken_connections x) (connect_errors x) (bind_errors x) (accept_errors x) (messages_sent x) (messages_received x) v (bytes_received x) (current_connections x) (inprogress_connections x) (current_snd_priority x) (current_ep_errors x).
Definition set_bytes_received (v : Z) (x : nn_statistics) : nn_statistics :=
  Statistics (established_connections x) (accepted_connections x) (dropped_connections x) (broken_connections x) (connect_errors x) (bind_errors x) (accept_errors x) (messages_sent x) (messages_received x) (bytes_sent x) v (current_connections x) (inprogress_connections x) (current_snd_priority x) (current_ep_errors x).
Definition set_current_connections (v : Z) (x : nn_statistics) : nn_statistics :=
  Statistics (established_connections x) (accepted_connections x) (dropped_connections x) (broken_connections x) (connect_errors x) (bind_errors x) (accept_errors x) (messages_sent x) (messages_received x) (bytes_sent x) (bytes_received x) v (inprogress_connections x) (current_snd_priority x) (current_ep_errors x).
Definition set_inprogress_connections (v : Z) (x : nn_statistics) : nn_statistics :=
  Statistics (established_connections x) (accepted_connections x) (dropped_connections x) (broken_connections x) (connect_errors x) (bind_errors x) (accept_errors x) (messages_sent x) (messages_received x) (bytes_sent x) (bytes_received x) (current_connections x) v (current_snd_priority x) (current_ep_errors x).
Definition set_current_snd_priority (v : Z) (x : nn_statistics) : nn_statistics :=
  Statistics (established_connections x) (accepted_connections x) (dropped_connections x) (broken_connections x) (connect_errors x) (bind_errors x) (accept_errors x) (messages_sent x) (messages_received x) (bytes_sent x) (bytes_received x) (current_connections x) (inprogress_connections x) v (current_ep_errors x).
Definition set_current_ep_errors (v : Z) (x : nn_statistics) : nn_statistics :=
  Statistics (established_connections x) (accepted_connections x) (dropped_connections x) (broken_connections x) (connect_errors x) (bind_errors x) (accept_errors x) (messages_sent x) (messages_received x) (bytes_sent x) (bytes_received x) (current_connections x) (inprogress_connections x) (current_snd_priority x) v.

(** ** An endpoint *)
Record nn_ep := NnEp {
  ep_fsm : Z;   (* fsm.state *)
  ep_state : Z;
  ep_eid : Z;   (* eid *)
  ep_errno : Z;   (* last_errno *)
  ep_opts : nn_ep_options;   (* options *)
  ep_addr : list Z;   (* addr *)
}.

Definition set_ep_fsm (v : Z) (x : nn_ep) : nn_ep :=
  NnEp v (ep_state x) (ep_eid x) (ep_errno x) (ep_opts x) (ep_addr x).
Definition set_ep_state (v : Z) (x : nn_ep) : nn_ep :=
  NnEp (ep_fsm x) v (ep_eid x) (ep_errno x) (ep_opts x) (ep_addr x).
Definition set_ep_eid (v : Z) (x : nn_ep) : nn_ep :=
  NnEp (ep_fsm x) (ep_state x) v (ep_errno x) (ep_opts x) (ep_addr x).
Definition set_ep_errno (v : Z) (x : nn_ep) : nn_ep :=
  NnEp (ep_fsm x) (ep_state x) (ep_eid x) v (ep_opts x) (ep_addr x).
Definition set_ep_opts (v : nn_ep_options) (x : nn_ep) : nn_ep :=
  NnEp (ep_fsm x) (ep_state x) (ep_eid x) (ep_errno x) v (ep_addr x).
Definition set_ep_addr (v : list Z) (x : nn_ep) : nn_ep :=
  NnEp (ep_fsm x) (ep_state x) (ep_eid x) (ep_errno x) (ep_opts x) v.

(** ** A socket: [St] is the protocol's part, [OS] the transports' option sets *)
Record nn_sock (St OS : Type) := NnSock {
  sk_fsm : Z;   (* fsm.state *)
  sk_state : Z;   (* state *)
  sockbase : option St;   (* None: destroyed *)
  socktype : nn_socktype;
  sk_flags : Z;   (* flags *)
  sndfd : option nn_efd;   (* None: not initialised *)
  rcvfd : option nn_efd;
  termsem : Z;   (* posts not waited for *)
  relesem : Z;
  eps : list positive;
  sdeps : list positive;
  sk_eid : Z;   (* eid *)
  holds : Z;
  sk_opts : nn_sock_options;
  optsets : list (option OS);
  statistics : nn_statistics;
}.
Arguments NnSock {St OS}.
Arguments sk_fsm {St OS}.
Arguments sk_state {St OS}.
Arguments sockbase {St OS}.
Arguments socktype {St OS}.
Arguments sk_flags {St OS}.
Arguments sndfd {St OS}.
Arguments rcvfd {St OS}.
Arguments termsem {St OS}.
Arguments relesem {St OS}.
Arguments eps {St OS}.
Arguments sdeps {St OS}.
Arguments sk_eid {St OS}.
Arguments holds {St OS}.
Arguments sk_opts {St OS}.
Arguments optsets {St OS}.
Arguments statistics {St OS}.

Definition set_sk_fsm {St OS} (v : Z) (x : nn_sock St OS) : nn_sock St OS :=
  NnSock v (sk_state x) (sockbase x) (socktype x) (sk_flags x) (sndfd x) (rcvfd x) (termsem x) (relesem x) (eps x) (sdeps x) (sk_eid x) (holds x) (sk_opts x) (optsets x) (statistics x).
Definition set_sk_state {St OS} (v : Z) (x : nn_sock St OS) : nn_sock St OS :=
  NnSock (sk_fsm x) v (sockbase x) (socktype x) (sk_flags x) (sndfd x) (rcvfd x) (termsem x) (relesem x) (eps x) (sdeps x) (sk_eid x) (holds x) (sk_opts x) (optsets x) (statistics x).
Definition set_sockbase {St OS} (v : option St) (x : nn_sock St OS) : nn_sock St OS :=
  NnSock (sk_fsm x) (sk_state x) v (socktype x) (sk_flags x) (sndfd x) (rcvfd x) (termsem x) (relesem x) (eps x) (sdeps x) (sk_eid x) (holds x) (sk_opts x) (optsets x) (statistics x).
Definition set_socktype {St OS} (v : nn_socktype) (x : nn_sock St OS) : nn_sock St OS :=
  NnSock (sk_fsm x) (sk_state x) (sockbase x) v (sk_flags x) (sndfd x) (rcvfd x) (termsem x) (relesem x) (eps x) (sdeps x) (sk_eid x) (holds x) (sk_opts x) (optsets x) (statistics x).
Definition set_sk_flags {St OS} (v : Z) (x : nn_sock St OS) : nn_sock St OS :=
  NnSock (sk_fsm x) (sk_state x) (sockbase x) (socktype x) v (sndfd x) (rcvfd x) (termsem x) (relesem x) (eps x) (sdeps x) (sk_eid x) (holds x) (sk_opts x) (optsets x) (statistics x).
Definition set_sndfd {St OS} (v : option nn_efd) (x : nn_sock St OS) : nn_sock St OS :=
  NnSock (sk_fsm x) (sk_state x) (sockbase x) (socktype x) (sk_flags x) v (rcvfd x) (termsem x) (relesem x) (eps x) (sdeps x) (sk_eid x) (holds x) (sk_opts x) (optsets x) (statistics x).
Definition set_rcvfd {St OS} (v : option nn_efd) (x : nn_sock St OS) : nn_sock St OS :=
  NnSock (sk_fsm x) (sk_state x) (sockbase x) (socktype x) (sk_flags x) (sndfd x) v (termsem x) (relesem x) (eps x) (sdeps x) (sk_eid x) (holds x) (sk_opts x) (optsets x) (statistics x).
Definition set_termsem {St OS} (v : Z) (x : nn_sock St OS) : nn_sock St OS :=
  NnSock (sk_fsm x) (sk_state x) (sockbase x) (socktype x) (sk_flags x) (sndfd x) (rcvfd x) v (relesem x) (eps x) (sdeps x) (sk_eid x) (holds x) (sk_opts x) (optsets x) (statistics x).
Definition set_relesem {St OS} (v : Z) (x : nn_sock St OS) : nn_sock St OS :=
  NnSock (sk_fsm x) (sk_state x) (sockbase x) (socktype x) (sk_flags x) (sndfd x) (rcvfd x) (termsem x) v (eps x) (sdeps x) (sk_eid x) (holds x) (sk_opts x) (optsets x) (statistics x).
Definition set_eps {St OS} (v : list positive) (x : nn_sock St OS) : nn_sock St OS :=
  NnSock (sk_fsm x) (sk_state x) (sockbase x) (socktype x) (sk_flags x) (sndfd x) (rcvfd x) (termsem x) (relesem x) v (sdeps x) (sk_eid x) (holds x) (sk_opts x) (optsets x) (statistics x).
Definition set_sdeps {St OS} (v : list positive) (x : nn_sock St OS) : nn_sock St OS :=
  NnSock (sk_fsm x) (sk_state x) (sockbase x) (socktype x) (sk_flags x) (sndfd x) (rcvfd x) (termsem x) (relesem x) (eps x) v (sk_eid x) (holds x) (sk_opts x) (optsets x) (statistics x).
Definition set_sk_eid {St OS} (v : Z) (x : nn_sock St OS) : nn_sock St OS :=
  NnSock (sk_fsm x) (sk_state x) (sockbase x) (socktype x) (sk_flags x) (sndfd x) (rcvfd x) (termsem x) (relesem x) (eps x) (sdeps x) v (holds x) (sk_opts x) (optsets x) (statistics x).
Definition set_holds {St OS} (v : Z) (x : nn_sock St OS) : nn_sock St OS :=
  NnSock (sk_fsm x) (sk_state x) (sockbase x) (socktype x) (sk_flags x) (sndfd x) (rcvfd x) (termsem x) (relesem x) (eps x) (sdeps x) (sk_eid x) v (sk_opts x) (optsets x) (statistics x).
Definition set_sk_opts {St OS} (v : nn_sock_options) (x : nn_sock St OS) : nn_sock St OS :=
  NnSock (sk_fsm x) (sk_state x) (sockbase x) (socktype x) (sk_flags x) (sndfd x) (rcvfd x) (termsem x) (relesem x) (eps x) (sdeps x) (sk_eid x) (holds x) v (optsets x) (statistics x).
Definition set_optsets {St OS} (v : list (option OS)) (x : nn_sock St OS) : nn_sock St OS :=
  NnSock (sk_fsm x) (sk_state x) (sockbase x) (socktype x) (sk_flags x) (sndfd x) (rcvfd x) (termsem x) (relesem x) (eps x) (sdeps x) (sk_eid x) (holds x) (sk_opts x) v (statistics x).
Definition set_statistics {St OS} (v : nn_statistics) (x : nn_sock St OS) : nn_sock St OS :=
  NnSock (sk_fsm x) (sk_state x) (sockbase x) (socktype x) (sk_flags x) (sndfd x) (rcvfd x) (termsem x) (relesem x) (eps x) (sdeps x) (sk_eid x) (holds x) (sk_opts x) (optsets x) v.

(** ** The events queued in the context

    An event of a pipe stands for the next one in [events] of Pipe.v.  An endpoint
    has one event, which it first raises to itself and then to the socket. *)
Inductive sock_ev : Set := SE_pipe | SE_ep_action (e : positive) | SE_ep_stopped (e : positive) | SE_sock_stopped.

#[export] Instance sock_ev_eq_dec : EqDecision sock_ev.
Proof. solve_decision. Defined.

(** ** A socket and what it owns *)
Record sys (St OS TW : Type) := Sys {
  sock : nn_sock St OS;
  epmem : gmap positive nn_ep;   (* the endpoints in memory *)
  evq : list sock_ev;   (* ctx.events *)
  world : psys (TW := TW);   (* the pipes *)
  attached : gset pid;   (* pipes the protocol was given *)
  powner : gmap pid positive;   (* the endpoint of each pipe *)
  locked : bool;   (* a thread is in the context *)
}.
Arguments Sys {St OS TW}.
Arguments sock {St OS TW}.
Arguments epmem {St OS TW}.
Arguments evq {St OS TW}.
Arguments world {St OS TW}.
Arguments attached {St OS TW}.
Arguments powner {St OS TW}.
Arguments locked {St OS TW}.

Definition set_sock {St OS TW} (v : nn_sock St OS) (x : sys St OS TW) : sys St OS TW :=
  Sys v (epmem x) (evq x) (world x) (attached x) (powner x) (locked x).
Definition set_epmem {St OS TW} (v : gmap positive nn_ep) (x : sys St OS TW) : sys St OS TW :=
  Sys (sock x) v (evq x) (world x) (attached x) (powner x) (locked x).
Definition set_evq {St OS TW} (v : list sock_ev) (x : sys St OS TW) : sys St OS TW :=
  Sys (sock x) (epmem x) v (world x) (attached x) (powner x) (locked x).
Definition set_world {St OS TW} (v : psys (TW := TW)) (x : sys St OS TW) : sys St OS TW :=
  Sys (sock x) (epmem x) (evq x) v (attached x) (powner x) (locked x).
Definition set_attached {St OS TW} (v : gset pid) (x : sys St OS TW) : sys St OS TW :=
  Sys (sock x) (epmem x) (evq x) (world x) v (powner x) (locked x).
Definition set_powner {St OS TW} (v : gmap pid positive) (x : sys St OS TW) : sys St OS TW :=
  Sys (sock x) (epmem x) (evq x) (world x) (attached x) v (locked x).
Definition set_locked {St OS TW} (v : bool) (x : sys St OS TW) : sys St OS TW :=
  Sys (sock x) (epmem x) (evq x) (world x) (attached x) (powner x) v.
