(* ===== verification/Sock.v ===== *)
(** * core/sock.c and core/ep.c: sockets and their endpoints

    The state machine of a socket, the endpoints it owns, its options, and what
    the user's threads and the transports do to it while they hold its context.
    [process] is what [nn_ctx_leave] does with one queued event, [nn_sock_onleave]
    what it does when no event is left. *)
From S2P Require Import Prelude NnList Priolist Pipe Msg Protocol Core Fsm SockState.

Definition NN_SOCK_FLAG_IN : Z := 1.
Definition NN_SOCK_FLAG_OUT : Z := 2.

Definition NN_SOCK_STATE_INIT : Z := 1.
Definition NN_SOCK_STATE_ACTIVE : Z := 2.
Definition NN_SOCK_STATE_STOPPING_EPS : Z := 3.
Definition NN_SOCK_STATE_STOPPING : Z := 4.
Definition NN_SOCK_STATE_FINI : Z := 5.

Definition NN_SOCK_ACTION_STOPPED : Z := 1.
Definition NN_SOCK_SRC_EP : Z := 1.

Definition NN_EP_STATE_IDLE : Z := 1.
Definition NN_EP_STATE_ACTIVE : Z := 2.
Definition NN_EP_STATE_STOPPING : Z := 3.
Definition NN_EP_ACTION_STOPPED : Z := 1.
Definition NN_EP_STOPPED : Z := 1.

Definition NN_SOCKTYPE_FLAG_NORECV : Z := 1.
Definition NN_SOCKTYPE_FLAG_NOSEND : Z := 2.

Definition NN_MAX_TRANSPORT : Z := 4.
Definition NN_SOCKADDR_MAX : Z := 128.
Definition NN_DONTWAIT : Z := 1.
Definition AF_SP : Z := 1.

Definition NN_LINGER : Z := 1.
Definition NN_SNDBUF : Z := 2.
Definition NN_RCVBUF : Z := 3.
Definition NN_SNDTIMEO : Z := 4.
Definition NN_RCVTIMEO : Z := 5.
Definition NN_RECONNECT_IVL : Z := 6.
Definition NN_RECONNECT_IVL_MAX : Z := 7.
Definition NN_SNDFD : Z := 10.
Definition NN_RCVFD : Z := 11.
Definition NN_DOMAIN : Z := 12.
Definition NN_PROTOCOL : Z := 13.
Definition NN_SOCKET_NAME : Z := 15.
Definition NN_RCVMAXSIZE : Z := 16.
Definition NN_MAXTTL : Z := 17.

Definition NN_STAT_ESTABLISHED_CONNECTIONS : Z := 101.
Definition NN_STAT_ACCEPTED_CONNECTIONS : Z := 102.
Definition NN_STAT_DROPPED_CONNECTIONS : Z := 103.
Definition NN_STAT_BROKEN_CONNECTIONS : Z := 104.
Definition NN_STAT_CONNECT_ERRORS : Z := 105.
Definition NN_STAT_BIND_ERRORS : Z := 106.
Definition NN_STAT_ACCEPT_ERRORS : Z := 107.
Definition NN_STAT_CURRENT_CONNECTIONS : Z := 201.
Definition NN_STAT_INPROGRESS_CONNECTIONS : Z := 202.
Definition NN_STAT_CURRENT_EP_ERRORS : Z := 203.
Definition NN_STAT_MESSAGES_SENT : Z := 301.
Definition NN_STAT_MESSAGES_RECEIVED : Z := 302.
Definition NN_STAT_BYTES_SENT : Z := 303.
Definition NN_STAT_BYTES_RECEIVED : Z := 304.
Definition NN_STAT_CURRENT_SND_PRIORITY : Z := 401.
Definition INT_MAX : Z := 2 ^ 31 - 1.

Definition has_flag (flags f : Z) : bool := negb (Z.land flags f =? 0).

(** ** Parameters: the parts of a protocol that protocol.h makes optional, and the
    option sets of the transports *)
Class SockProto (St : Type) := {
  proto_stop : option (St → outcome St);
  proto_setopt : option (St → Z → Z → list Z → outcome (St * Z));
  proto_getopt : option (St → Z → Z → nat → outcome (Z * (list Z * nat)));
}.

Class OptSets (OS : Type) := {
  tp_optset : Z → option OS;    (* [nn_global_transport (id)->optset ()] *)
  os_setopt : OS → Z → list Z → OS * Z;
  os_getopt : OS → Z → nat → Z * (list Z * nat);
}.

(** ** utils/efd_eventfd.inc *)

(** The write fails when the counter would reach 2^64-1. *)
Definition nn_efd_signal (self : nn_efd) : outcome nn_efd :=
  if efd_fd self <? 0 then Ret self
  else
    nn_assert (efd_count self + 1 <? 2 ^ 64 - 1);;
    Ret (NnEfd (efd_fd self) (efd_count self + 1)).

(** The read fails when the counter is zero. *)
Definition nn_efd_unsignal (self : nn_efd) : outcome nn_efd :=
  if efd_fd self <? 0 then Ret self
  else nn_assert (0 <? efd_count self);; Ret (NnEfd (efd_fd self) 0).

Definition nn_efd_stop (self : nn_efd) : outcome nn_efd := nn_efd_signal self.
Definition nn_efd_term (self : nn_efd) : nn_efd := NnEfd (-1) 0.
Definition nn_efd_getfd (self : nn_efd) : Z := efd_fd self.

(** [nn_efd_wait (self, 0)] *)
Definition nn_efd_poll (self : nn_efd) : Z :=
  if efd_fd self <? 0 then - EBADF else if 0 <? efd_count self then 0 else - ETIMEDOUT.

(** ** Statistics *)

Definition stat_add (cur increment : Z) : outcome Z :=
  nn_assert (0 <? increment);; Ret (u64 (cur + increment)).
Definition stat_add0 (cur increment : Z) : outcome Z :=
  nn_assert (0 <=? increment);; Ret (u64 (cur + increment)).
Definition stat_level (cur increment : Z) : outcome Z :=
  nn_assert ((0 <? increment) || (- increment <=? cur));;
  nn_assert ((increment <? INT_MAX) && (- INT_MAX <? increment));;
  Ret (s32 (cur + increment)).

Definition nn_sock_stat_increment (s : nn_statistics) (name increment : Z) : outcome nn_statistics :=
  if name =? NN_STAT_ESTABLISHED_CONNECTIONS then
    v ← stat_add (established_connections s) increment; Ret (set_established_connections v s)
  else if name =? NN_STAT_ACCEPTED_CONNECTIONS then
    v ← stat_add (accepted_connections s) increment; Ret (set_accepted_connections v s)
  else if name =? NN_STAT_DROPPED_CONNECTIONS then
    v ← stat_add (dropped_connections s) increment; Ret (set_dropped_connections v s)
  else if name =? NN_STAT_BROKEN_CONNECTIONS then
    v ← stat_add (broken_connections s) increment; Ret (set_broken_connections v s)
  else if name =? NN_STAT_CONNECT_ERRORS then
    v ← stat_add (connect_errors s) increment; Ret (set_connect_errors v s)
  else if name =? NN_STAT_BIND_ERRORS then
    v ← stat_add (bind_errors s) increment; Ret (set_bind_errors v s)
  else if name =? NN_STAT_ACCEPT_ERRORS then
    v ← stat_add (accept_errors s) increment; Ret (set_accept_errors v s)
  else if name =? NN_STAT_MESSAGES_SENT then
    v ← stat_add (messages_sent s) increment; Ret (set_messages_sent v s)
  else if name =? NN_STAT_MESSAGES_RECEIVED then
    v ← stat_add (messages_received s) increment; Ret (set_messages_received v s)
  else if name =? NN_STAT_BYTES_SENT then
    v ← stat_add0 (bytes_sent s) increment; Ret (set_bytes_sent v s)
  else if name =? NN_STAT_BYTES_RECEIVED then
    v ← stat_add0 (bytes_received s) increment; Ret (set_bytes_received v s)
  else if name =? NN_STAT_CURRENT_CONNECTIONS then
    v ← stat_level (current_connections s) increment; Ret (set_current_connections v s)
  else if name =? NN_STAT_INPROGRESS_CONNECTIONS then
    v ← stat_level (inprogress_connections s) increment; Ret (set_inprogress_connections v s)
  else if name =? NN_STAT_CURRENT_SND_PRIORITY then
    nn_assert (((0 <? increment) && (increment <=? 16)) || (increment =? -1));;
    Ret (set_current_snd_priority increment s)
  else if name =? NN_STAT_CURRENT_EP_ERRORS then
    v ← stat_level (current_ep_errors s) increment; Ret (set_current_ep_errors v s)
  else Ret s.

(** ** Lists of endpoints *)

Definition list_erase (l : list positive) (e : positive) : outcome (list positive) :=
  nn_assert (bool_decide (e ∈ l));; Ret (filter (λ x, x ≠ e) l).

Section code.
Context {St OS TW M : Type}.
Notation sys := (sys St OS TW).

Definition on_sock (f : nn_sock St OS → nn_sock St OS) (s : sys) : sys := set_sock (f (sock s)) s.
Definition set_state (v : Z) : sys → sys := on_sock (set_sk_state v).
Definition set_eps_of (v : list positive) : sys → sys := on_sock (set_eps v).
Definition set_sdeps_of (v : list positive) : sys → sys := on_sock (set_sdeps v).

Definition stat_increment (name increment : Z) (s : sys) : outcome sys :=
  st ← nn_sock_stat_increment (statistics (sock s)) name increment;
  Ret (on_sock (set_statistics st) s).

Definition get_ep (s : sys) (e : positive) : outcome nn_ep := deref (epmem s !! e).
Definition put_ep (e : positive) (ep : nn_ep) (s : sys) : sys := set_epmem (<[e := ep]> (epmem s)) s.

(** [nn_list_insert (list, &ep->item, nn_list_end (list))]: the item must not be
    in a list. *)
Definition list_free (s : sys) (e : positive) : bool :=
  bool_decide (e ∉ eps (sock s)) && bool_decide (e ∉ sdeps (sock s)).

Definition eps_append (e : positive) (s : sys) : outcome sys :=
  nn_assert (list_free s e);; Ret (set_eps_of (eps (sock s) ++ [e]) s).
Definition sdeps_append (e : positive) (s : sys) : outcome sys :=
  nn_assert (list_free s e);; Ret (set_sdeps_of (sdeps (sock s) ++ [e]) s).
Definition eps_erase (e : positive) (s : sys) : outcome sys :=
  l ← list_erase (eps (sock s)) e; Ret (set_eps_of l s).
Definition sdeps_erase (e : positive) (s : sys) : outcome sys :=
  l ← list_erase (sdeps (sock s)) e; Ret (set_sdeps_of l s).

(** [nn_ctx_raise] on the event of an endpoint or of the socket. *)
Definition ep_queued (s : sys) (e : positive) : bool :=
  bool_decide (SE_ep_action e ∈ evq s ∨ SE_ep_stopped e ∈ evq s).
Definition raise_ep (ev : sock_ev) (e : positive) (s : sys) : outcome sys :=
  nn_assert (negb (ep_queued s e));; Ret (set_evq (evq s ++ [ev]) s).

(** ** ep.c *)

Definition fsm_of (e : positive) (s : sys) : Z := match epmem s !! e with Some ep => ep_fsm ep | None => 0 end.
Definition set_fsm_of (e : positive) (s : sys) (v : Z) : sys := set_epmem (alter (set_ep_fsm v) e (epmem s)) s.

(** [ep->ops.stop] asks the transport to stop; what it then does are steps of its
    own. *)
Definition nn_ep_shutdown (e : positive) (s : sys) (src type : Z) (ptr : srcptr) : outcome sys :=
  ep ← get_ep s e;
  if (src =? NN_FSM_ACTION) && (type =? NN_FSM_STOP) then
    Ret (put_ep e (set_ep_state NN_EP_STATE_STOPPING ep) s)
  else if ep_state ep =? NN_EP_STATE_STOPPING then
    if negb (src =? NN_FSM_ACTION) || negb (type =? NN_EP_ACTION_STOPPED) then Ret s
    else
      let s := put_ep e (set_ep_state NN_EP_STATE_IDLE ep) s in
      nn_fsm_stopped (fsm_of e) (set_fsm_of e) (λ s _, raise_ep (SE_ep_stopped e) e s) s NN_EP_STOPPED
  else nn_fsm_bad (ep_state ep) src type.

Definition nn_ep_handler (e : positive) (s : sys) (src type : Z) (ptr : srcptr) : outcome sys :=
  ep ← get_ep s e;
  if ep_state ep =? NN_EP_STATE_IDLE then
    if (src =? NN_FSM_ACTION) && (type =? NN_FSM_START) then
      Ret (put_ep e (set_ep_state NN_EP_STATE_ACTIVE ep) s)
    else nn_fsm_bad (ep_state ep) src type
  else nn_fsm_bad (ep_state ep) src type.

(** [rc] is what the transport's bind or connect function returned. *)
Definition nn_ep_init (e : positive) (eid rc : Z) (addr : list Z) (s : sys) : outcome (sys * Z) :=
  nn_assert (Z.of_nat (length addr) <=? NN_SOCKADDR_MAX);;
  let ep := NnEp NN_FSM_STATE_IDLE NN_EP_STATE_IDLE eid 0 (ep_template (sk_opts (sock s))) addr in
  if rc <? 0 then
    nn_assert (list_free s e);;
    Ret (s, rc)
  else Ret (put_ep e ep s, 0).

(** With the [nn_free (ep)] that follows it. *)
Definition nn_ep_term (e : positive) (s : sys) : outcome sys :=
  ep ← get_ep s e;
  nn_assert (ep_state ep =? NN_EP_STATE_IDLE);;
  nn_assert (list_free s e);;
  nn_fsm_term (fsm_of e) (λ s, ep_queued s e) s;;
  Ret (set_epmem (delete e (epmem s)) s).

Definition nn_ep_start (e : positive) (s : sys) : outcome sys :=
  nn_fsm_start (fsm_of e) (set_fsm_of e) (λ s, ep_queued s e) (nn_ep_handler e) s.
Definition nn_ep_stop (e : positive) (s : sys) : outcome sys :=
  nn_fsm_stop (fsm_of e) (set_fsm_of e) (nn_ep_shutdown e) s.
Definition nn_ep_stopped (e : positive) (s : sys) : outcome sys := raise_ep (SE_ep_action e) e s.

Definition nn_ep_set_error (e : positive) (errnum : Z) (s : sys) : outcome sys :=
  ep ← get_ep s e;
  if ep_errno ep =? errnum then Ret s
  else
    s ← (if ep_errno ep =? 0 then stat_increment NN_STAT_CURRENT_EP_ERRORS 1 s else Ret s);
    Ret (put_ep e (set_ep_errno errnum ep) s).

Definition nn_ep_clear_error (e : positive) (s : sys) : outcome sys :=
  ep ← get_ep s e;
  if ep_errno ep =? 0 then Ret s
  else
    s ← stat_increment NN_STAT_CURRENT_EP_ERRORS (-1) s;
    Ret (put_ep e (set_ep_errno 0 ep) s).

(** ** sock.c *)

Context `{TransportFinite TW M} `{!Proto St (psys (TW := TW)) M} `{!SockProto St} `{!OptSets OS}.

Definition no_recv (s : sys) : bool := has_flag (st_flags (socktype (sock s))) NN_SOCKTYPE_FLAG_NORECV.
Definition no_send (s : sys) : bool := has_flag (st_flags (socktype (sock s))) NN_SOCKTYPE_FLAG_NOSEND.

Definition nn_sock_stopped (s : sys) : outcome sys :=
  nn_assert (bool_decide (SE_sock_stopped ∉ evq s));;
  Ret (set_evq (evq s ++ [SE_sock_stopped]) s).

Definition nn_sock_ispeer (s : sys) (socktype' : Z) : bool :=
  if negb (Z.land (st_protocol (socktype (sock s))) 0xfff0 =? Z.land socktype' 0xfff0) then false
  else st_ispeer (socktype (sock s)) socktype'.

(** *** Pipes *)

(** [attached] remembers the pipes the protocol has accepted; [sp] and [rp] are
    the priorities of the pipe, which the protocol asks for. *)
Definition nn_sock_add (s : sys) (p : pid) (sp rp : Z) : outcome (sys * Z) :=
  sb ← deref (sockbase (sock s));
  '(sb, rc) ← proto_add (M := M) sb p sp rp;
  let s := on_sock (set_sockbase (Some sb)) s in
  s ← (if 0 <=? rc then stat_increment NN_STAT_CURRENT_CONNECTIONS 1 s else Ret s);
  Ret (if rc =? 0 then set_attached ({[p]} ∪ attached s) s else s, rc).

Definition nn_sock_rm (s : sys) (p : pid) : outcome sys :=
  sb ← deref (sockbase (sock s));
  sb ← proto_rm (M := M) sb p;
  let s := on_sock (set_sockbase (Some sb)) s in
  s ← stat_increment NN_STAT_CURRENT_CONNECTIONS (-1) s;
  Ret (set_attached (attached s ∖ {[p]}) s).

(** *** Leaving the context *)

(** [flag] says whether [fd] was signalled; [ev] whether the protocol is ready. *)
Definition adjust_fd (ev : bool) (flag : Z) (fd : option nn_efd) (flags : Z) :
    outcome (option nn_efd * Z) :=
  fd ← deref fd;
  if ev then
    if negb (has_flag flags flag) then fd ← nn_efd_signal fd; Ret (Some fd, Z.lor flags flag)
    else Ret (Some fd, flags)
  else if has_flag flags flag then fd ← nn_efd_unsignal fd; Ret (Some fd, Z.land flags (Z.lnot flag))
  else Ret (Some fd, flags).

Definition nn_sock_onleave (s : sys) : outcome sys :=
  if negb (sk_state (sock s) =? NN_SOCK_STATE_ACTIVE) then Ret s
  else
    sb ← deref (sockbase (sock s));
    let events := proto_events (W := psys (TW := TW)) (M := M) sb in
    nn_assert (0 <=? events);;
    s ← (if no_recv s then Ret s
         else
           '(fd, fl) ← adjust_fd (has_flag events NN_SOCKBASE_EVENT_IN) NN_SOCK_FLAG_IN
                         (rcvfd (sock s)) (sk_flags (sock s));
           Ret (on_sock (λ k, set_sk_flags fl (set_rcvfd fd k)) s));
    if no_send s then Ret s
    else
      '(fd, fl) ← adjust_fd (has_flag events NN_SOCKBASE_EVENT_OUT) NN_SOCK_FLAG_OUT
                    (sndfd (sock s)) (sk_flags (sock s));
      Ret (on_sock (λ k, set_sk_flags fl (set_sndfd fd k)) s).

(** *** The state machine *)

Definition as_ep (ptr : srcptr) : outcome positive := match ptr with P_ep e => Ret e | _ => Fail Crash end.
Definition as_pipe (ptr : srcptr) : outcome pid := match ptr with P_pipe p => Ret p | _ => Fail Crash end.

(** The protocol learns that [p] can be received from, or sent to. *)
Definition told_in (p : pid) (w : psys (TW := TW)) : psys := PSys (pw w) (can_out w) ({[p]} ∪ can_in w).
Definition told_out (p : pid) (w : psys (TW := TW)) : psys := PSys (pw w) ({[p]} ∪ can_out w) (can_in w).

Definition sock_in (p : pid) (s : sys) : outcome sys :=
  sb ← deref (sockbase (sock s));
  let w := told_in p (world s) in
  '(sb, w) ← proto_in (M := M) (S (pending w)) sb w p;
  Ret (set_world w (on_sock (set_sockbase (Some sb)) s)).
Definition sock_out (p : pid) (s : sys) : outcome sys :=
  sb ← deref (sockbase (sock s));
  '(sb, w) ← proto_out (M := M) sb (told_out p (world s)) p;
  Ret (set_world w (on_sock (set_sockbase (Some sb)) s)).

Definition ep_gone (ptr : srcptr) (s : sys) : outcome sys :=
  e ← as_ep ptr;
  s ← sdeps_erase e s;
  nn_ep_term e s.

Definition nn_sock_handler (s : sys) (src type : Z) (ptr : srcptr) : outcome sys :=
  let st := sk_state (sock s) in
  if st =? NN_SOCK_STATE_INIT then
    if src =? NN_FSM_ACTION then
      if type =? NN_FSM_START then Ret (set_state NN_SOCK_STATE_ACTIVE s) else nn_fsm_bad st src type
    else nn_fsm_bad st src type
  else if st =? NN_SOCK_STATE_ACTIVE then
    if src =? NN_FSM_ACTION then nn_fsm_bad st src type
    else if src =? NN_SOCK_SRC_EP then
      if type =? NN_EP_STOPPED then ep_gone ptr s else nn_fsm_bad st src type
    else if type =? NN_PIPE_IN then p ← as_pipe ptr; sock_in p s
    else if type =? NN_PIPE_OUT then p ← as_pipe ptr; sock_out p s
    else nn_fsm_bad st src type
  else nn_fsm_bad st src type.

(** [finish1] *)
Definition stop_finish (s : sys) : outcome sys :=
  sb ← deref (sockbase (sock s));
  proto_destroy (M := M) (W := psys (TW := TW)) sb;;
  let s := set_state NN_SOCK_STATE_FINI (on_sock (set_sockbase None) s) in
  s ← (if no_recv s then Ret s
       else fd ← deref (rcvfd (sock s)); Ret (on_sock (set_rcvfd (Some (nn_efd_term fd))) s));
  s ← (if no_send s then Ret s
       else fd ← deref (sndfd (sock s)); Ret (on_sock (set_sndfd (Some (nn_efd_term fd))) s));
  Ret (on_sock (set_termsem (termsem (sock s) + 1)) s).

(** [finish2] *)
Definition stop_protocol (s : sys) : outcome sys :=
  if negb (bool_decide (sdeps (sock s) = [])) then Ret s
  else
    nn_assert (bool_decide (eps (sock s) = []));;
    let s := set_state NN_SOCK_STATE_STOPPING s in
    match proto_stop (St := St) with
    | None => stop_finish s
    | Some stop =>
        sb ← deref (sockbase (sock s));
        sb ← stop sb;
        Ret (on_sock (set_sockbase (Some sb)) s)
    end.

(** The loop over the endpoints [l]. *)
Fixpoint stop_eps (l : list positive) (s : sys) : outcome sys :=
  match l with
  | [] => Ret s
  | e :: l =>
      s ← eps_erase e s;
      s ← sdeps_append e s;
      s ← nn_ep_stop e s;
      stop_eps l s
  end.

Definition nn_sock_shutdown (s : sys) (src type : Z) (ptr : srcptr) : outcome sys :=
  let st := sk_state (sock s) in
  if (src =? NN_FSM_ACTION) && (type =? NN_FSM_STOP) then
    nn_assert (st =? NN_SOCK_STATE_ACTIVE);;
    s ← (if no_recv s then Ret s
         else fd ← deref (rcvfd (sock s)); fd ← nn_efd_stop fd; Ret (on_sock (set_rcvfd (Some fd)) s));
    s ← (if no_send s then Ret s
         else fd ← deref (sndfd (sock s)); fd ← nn_efd_stop fd; Ret (on_sock (set_sndfd (Some fd)) s));
    s ← stop_eps (eps (sock s)) s;
    stop_protocol (set_state NN_SOCK_STATE_STOPPING_EPS s)
  else if st =? NN_SOCK_STATE_STOPPING_EPS then
    if negb ((src =? NN_SOCK_SRC_EP) && (type =? NN_EP_STOPPED)) then Ret s
    else s ← ep_gone ptr s; stop_protocol s
  else if st =? NN_SOCK_STATE_STOPPING then
    nn_assert ((src =? NN_FSM_ACTION) && (type =? NN_SOCK_ACTION_STOPPED));;
    stop_finish s
  else nn_fsm_bad st src type.

Definition sock_fsm (s : sys) : Z := sk_fsm (sock s).
Definition set_sock_fsm (s : sys) (v : Z) : sys := on_sock (set_sk_fsm v) s.
Definition sock_feed : sys → Z → Z → srcptr → outcome sys :=
  nn_fsm_feed sock_fsm nn_sock_handler nn_sock_shutdown.

(** [nn_fsm_event_process] for the event [ev]. *)
Definition process (ev : sock_ev) (s : sys) : outcome sys :=
  match ev with
  | SE_pipe =>
      match events (pw (world s)) with
      | [] => Fail Crash
      | (p, type) :: evs =>
          let w := PSys (PWorld (bases (pw (world s))) evs (tworld (pw (world s))))
                     (can_out (world s)) (can_in (world s)) in
          sock_feed (set_world w s) 0 type (P_pipe p)
      end
  | SE_ep_action e =>
      nn_fsm_feed (fsm_of e) (nn_ep_handler e) (nn_ep_shutdown e) s NN_FSM_ACTION NN_EP_ACTION_STOPPED P_null
  | SE_ep_stopped e => sock_feed s NN_SOCK_SRC_EP NN_EP_STOPPED (P_ep e)
  | SE_sock_stopped => sock_feed s NN_FSM_ACTION NN_SOCK_ACTION_STOPPED P_null
  end.

(** *** Starting, stopping, holding *)

(** [base] is what the function [create] of the socket type returned, [sfd] and
    [rfd] are fresh file descriptors, [name] the decimal form of the socket's. *)
Definition nn_sock_init (type : nn_socktype) (base : St) (sfd rfd : Z) (name : list Z) (w : psys (TW := TW)) :
    outcome sys :=
  nn_assert (negb (has_flag (st_flags type) NN_SOCKTYPE_FLAG_NOSEND) ||
             negb (has_flag (st_flags type) NN_SOCKTYPE_FLAG_NORECV));;
  let o := SockOptions (128 * 1024) (128 * 1024) (1024 * 1024) (-1) (-1) 100 0 8 (EpOptions 8 8 1) name in
  let k := NnSock NN_FSM_STATE_IDLE NN_SOCK_STATE_INIT (Some base) type 0
    (if has_flag (st_flags type) NN_SOCKTYPE_FLAG_NOSEND then None else Some (NnEfd sfd 0))
    (if has_flag (st_flags type) NN_SOCKTYPE_FLAG_NORECV then None else Some (NnEfd rfd 0))
    0 0 [] [] 1 1 o (replicate (Z.to_nat NN_MAX_TRANSPORT) None)
    (Statistics 0 0 0 0 0 0 0 0 0 0 0 0 0 0 0) in
  let s := Sys k ∅ [] w ∅ ∅ true in
  s ← nn_fsm_start sock_fsm set_sock_fsm (λ s, bool_decide (SE_sock_stopped ∈ evq s)) nn_sock_handler s;
  s ← nn_sock_onleave s;
  Ret (set_locked false s).

Definition nn_sock_stop (s : sys) : outcome sys :=
  nn_fsm_stop sock_fsm set_sock_fsm nn_sock_shutdown s.

(** [nn_sem_wait] on both semaphores, and the destruction; a wait that nobody
    ends is [Diverge]. *)
Definition nn_sock_term (s : sys) : outcome sys :=
  s ← (if 0 <? termsem (sock s) then Ret (on_sock (set_termsem (termsem (sock s) - 1)) s) else Fail Diverge);
  s ← (if 0 <? relesem (sock s) then Ret (on_sock (set_relesem (relesem (sock s) - 1)) s) else Fail Diverge);
  s ← nn_fsm_stopped_noevent sock_fsm set_sock_fsm s;
  nn_fsm_term sock_fsm (λ s, bool_decide (SE_sock_stopped ∈ evq s)) s;;
  nn_assert (bool_decide (sdeps (sock s) = []));;
  nn_assert (bool_decide (eps (sock s) = []));;
  Ret s.

Definition nn_sock_hold (s : sys) : sys * Z :=
  let st := sk_state (sock s) in
  if (st =? NN_SOCK_STATE_ACTIVE) || (st =? NN_SOCK_STATE_INIT)
  then (on_sock (set_holds (holds (sock s) + 1)) s, 0) else (s, - EBADF).

Definition nn_sock_rele (s : sys) : sys :=
  let s := on_sock (set_holds (holds (sock s) - 1)) s in
  if holds (sock s) =? 0 then on_sock (set_relesem (relesem (sock s) + 1)) s else s.

(** *** Endpoints *)

(** [e] is the memory [nn_alloc] returns. *)
Definition nn_sock_add_ep (e : option positive) (rc : Z) (addr : list Z) (s : sys) : outcome (sys * Z) :=
  e ← deref e;
  let eid := sk_eid (sock s) in
  '(s, rc) ← nn_ep_init e eid rc addr s;
  if rc <? 0 then Ret (s, rc)
  else
    s ← nn_ep_start e s;
    let s := on_sock (set_sk_eid (s32 (eid + 1))) s in
    s ← eps_append e s;
    Ret (s, eid).

Definition find_ep (eid : Z) (s : sys) : option positive :=
  snd <$> list_find (λ e, ep_eid <$> epmem s !! e = Some eid) (eps (sock s)).

Definition nn_sock_rm_ep (eid : Z) (s : sys) : outcome (sys * Z) :=
  match find_ep eid s with
  | None => Ret (s, - EINVAL)
  | Some e =>
      s ← eps_erase e s;
      s ← sdeps_append e s;
      s ← nn_ep_stop e s;
      Ret (s, 0)
  end.

(** *** Sending and receiving

    One turn of the loop, up to the point where the thread leaves the context:
    it returns a code, or waits for the event descriptor. *)
Definition nn_sock_send_try (s : sys) (msg : M) (flags : Z) : outcome (sys * option Z) :=
  if no_send s then Ret (s, Some (- ENOTSUP))
  else
    let st := sk_state (sock s) in
    if (st =? NN_SOCK_STATE_STOPPING_EPS) || (st =? NN_SOCK_STATE_STOPPING) || (st =? NN_SOCK_STATE_FINI)
    then Ret (s, Some (- EBADF))
    else
      sb ← deref (sockbase (sock s));
      '(sb, w, rc) ← proto_send sb (world s) msg;
      let s := set_world w (on_sock (set_sockbase (Some sb)) s) in
      if rc =? 0 then Ret (s, Some 0)
      else
        nn_assert (rc <? 0);;
        if negb (rc =? - EAGAIN) then Ret (s, Some rc)
        else if has_flag flags NN_DONTWAIT then Ret (s, Some (- EAGAIN))
        else Ret (s, None).

Definition nn_sock_recv_try (s : sys) (flags : Z) : outcome (sys * option Z * option M) :=
  if no_recv s then Ret (s, Some (- ENOTSUP), None)
  else
    let st := sk_state (sock s) in
    if (st =? NN_SOCK_STATE_STOPPING_EPS) || (st =? NN_SOCK_STATE_STOPPING) || (st =? NN_SOCK_STATE_FINI)
    then Ret (s, Some (- EBADF), None)
    else
      sb ← deref (sockbase (sock s));
      '(sb, w, rc, msg) ← proto_recv (S (pending (world s))) sb (world s);
      let s := set_world w (on_sock (set_sockbase (Some sb)) s) in
      if rc =? 0 then Ret (s, Some 0, msg)
      else
        nn_assert (rc <? 0);;
        if negb (rc =? - EAGAIN) then Ret (s, Some rc, msg)
        else if has_flag flags NN_DONTWAIT then Ret (s, Some (- EAGAIN), msg)
        else Ret (s, None, msg).

(** The double check after the wait, the context entered again. *)
Definition nn_sock_send_again (s : sys) : outcome sys :=
  fd ← deref (sndfd (sock s));
  if nn_efd_poll fd =? 0 then Ret (on_sock (set_sk_flags (Z.lor (sk_flags (sock s)) NN_SOCK_FLAG_OUT)) s)
  else Ret s.
Definition nn_sock_recv_again (s : sys) : outcome sys :=
  fd ← deref (rcvfd (sock s));
  if nn_efd_poll fd =? 0 then Ret (on_sock (set_sk_flags (Z.lor (sk_flags (sock s)) NN_SOCK_FLAG_IN)) s)
  else Ret s.

End code.
