(* ===== verification/SockOpt.v ===== *)
(** * core/sock.c: socket options

    [nn_sock_setopt_inner] and [nn_sock_getopt_inner].  An option value is the
    bytes behind [optval]; its length is [optvallen]. *)
From S2P Require Import Prelude NnList Priolist Pipe Msg Protocol Core Fsm SockState Sock.

(** [*(int*\) optval] *)
Definition bytes_int (l : list Z) : Z := s32 (foldr (λ b acc, b + 256 * acc) 0 l).

(** The string in a buffer, and [strncpy] of it into [n] bytes. *)
Fixpoint cstr (l : list Z) : list Z :=
  match l with [] => [] | b :: l => if b =? 0 then [] else b :: cstr l end.
Definition strncpy (l : list Z) (n : nat) : list Z :=
  take n (cstr l) ++ replicate (n - length (cstr l)) 0.

Section code.
Context {St OS : Type} `{!SockProto St} `{!OptSets OS}.
Notation nn_sock := (nn_sock St OS).

Definition nn_sock_optset (self : nn_sock) (id : Z) : nn_sock * option OS :=
  let index := (- id) - 1 in
  if (index <? 0) || (NN_MAX_TRANSPORT <=? index) then (self, None)
  else
    match optsets self !! Z.to_nat index with
    | Some (Some os) => (self, Some os)
    | _ =>
        match tp_optset id with
        | None => (self, None)
        | Some os => (set_optsets (<[Z.to_nat index := Some os]> (optsets self)) self, Some os)
        end
    end.

Definition put_optset (id : Z) (os : OS) (self : nn_sock) : nn_sock :=
  set_optsets (<[Z.to_nat (- id - 1) := Some os]> (optsets self)) self.

Definition on_opts (f : nn_sock_options → nn_sock_options) (self : nn_sock) : nn_sock :=
  set_sk_opts (f (sk_opts self)) self.

(** The case of a generic option that is an int. *)
Definition setopt_int (self : nn_sock) (opt val : Z) : nn_sock * Z :=
  let einval := (self, - EINVAL) in
  let set f := (on_opts f self, 0) in
  let template f := set (λ o, set_ep_template (f (ep_template o)) o) in
  if opt =? NN_SNDBUF then if val <=? 0 then einval else set (set_sndbuf val)
  else if opt =? NN_RCVBUF then if val <=? 0 then einval else set (set_rcvbuf val)
  else if opt =? NN_RCVMAXSIZE then if val <? -1 then einval else set (set_rcvmaxsize val)
  else if opt =? NN_SNDTIMEO then set (set_sndtimeo val)
  else if opt =? NN_RCVTIMEO then set (set_rcvtimeo val)
  else if opt =? NN_RECONNECT_IVL then if val <? 0 then einval else set (set_reconnect_ivl val)
  else if opt =? NN_RECONNECT_IVL_MAX then if val <? 0 then einval else set (set_reconnect_ivl_max val)
  else if opt =? NN_SNDPRIO then
    if (val <? 1) || (16 <? val) then einval
    else template (λ t, EpOptions val (rcvprio t) (ipv4only t))
  else if opt =? NN_RCVPRIO then
    if (val <? 1) || (16 <? val) then einval
    else template (λ t, EpOptions (sndprio t) val (ipv4only t))
  else if opt =? NN_IPV4ONLY then
    if negb (val =? 0) && negb (val =? 1) then einval
    else template (λ t, EpOptions (sndprio t) (rcvprio t) val)
  else if opt =? NN_MAXTTL then
    if (val <? 1) || (255 <? val) then einval else set (set_maxttl val)
  else if opt =? NN_LINGER then (self, 0)
  else (self, - ENOPROTOOPT).

Definition nn_sock_setopt_inner (self : nn_sock) (level opt : Z) (optval : list Z) :
    outcome (nn_sock * Z) :=
  if NN_SOL_SOCKET <? level then
    match proto_setopt (St := St) with
    | None => Ret (self, - ENOPROTOOPT)
    | Some setopt =>
        sb ← deref (sockbase self);
        '(sb, rc) ← setopt sb level opt optval;
        Ret (set_sockbase (Some sb) self, rc)
    end
  else if level <? NN_SOL_SOCKET then
    match nn_sock_optset self level with
    | (self, None) => Ret (self, - ENOPROTOOPT)
    | (self, Some os) => let '(os, rc) := os_setopt os opt optval in Ret (put_optset level os self, rc)
    end
  else
    nn_assert (level =? NN_SOL_SOCKET);;
    if opt =? NN_SOCKET_NAME then
      if 63 <? Z.of_nat (length optval) then Ret (self, - EINVAL)
      else Ret (on_opts (set_socket_name optval) self, 0)
    else if negb (bool_decide (length optval = 4%nat)) then Ret (self, - EINVAL)
    else Ret (setopt_int self opt (bytes_int optval)).

(** The value of a generic option that is an int. *)
Definition getopt_int (self : nn_sock) (opt : Z) : option Z :=
  let o := sk_opts self in
  if opt =? NN_DOMAIN then Some (st_domain (socktype self))
  else if opt =? NN_PROTOCOL then Some (st_protocol (socktype self))
  else if opt =? NN_LINGER then Some 0
  else if opt =? NN_SNDBUF then Some (sndbuf o)
  else if opt =? NN_RCVBUF then Some (rcvbuf o)
  else if opt =? NN_RCVMAXSIZE then Some (rcvmaxsize o)
  else if opt =? NN_SNDTIMEO then Some (sndtimeo o)
  else if opt =? NN_RCVTIMEO then Some (rcvtimeo o)
  else if opt =? NN_RECONNECT_IVL then Some (reconnect_ivl o)
  else if opt =? NN_RECONNECT_IVL_MAX then Some (reconnect_ivl_max o)
  else if opt =? NN_SNDPRIO then Some (sndprio (ep_template o))
  else if opt =? NN_RCVPRIO then Some (rcvprio (ep_template o))
  else if opt =? NN_IPV4ONLY then Some (ipv4only (ep_template o))
  else if opt =? NN_MAXTTL then Some (maxttl o)
  else None.

(** The code, the bytes written to [optval], and the new [*optvallen]. *)
Definition nn_sock_getopt_inner (self : nn_sock) (level opt : Z) (optvallen : nat) :
    outcome (nn_sock * Z * (list Z * nat)) :=
  let fail := Ret (self, - ENOPROTOOPT, ([], optvallen)) in
  if NN_SOL_SOCKET <? level then
    match proto_getopt (St := St) with
    | None => fail
    | Some getopt =>
        sb ← deref (sockbase self);
        '(rc, r) ← getopt sb level opt optvallen;
        Ret (self, rc, r)
    end
  else if level <? NN_SOL_SOCKET then
    match nn_sock_optset self level with
    | (self, None) => Ret (self, - ENOPROTOOPT, ([], optvallen))
    | (self, Some os) => let '(rc, r) := os_getopt os opt optvallen in Ret (self, rc, r)
    end
  else
    nn_assert (level =? NN_SOL_SOCKET);;
    match getopt_int self opt with
    | Some intval => Ret (self, 0, copy_int intval optvallen)
    | None =>
        if opt =? NN_SNDFD then
          if has_flag (st_flags (socktype self)) NN_SOCKTYPE_FLAG_NOSEND then fail
          else fd ← deref (sndfd self); Ret (self, 0, copy_int (nn_efd_getfd fd) optvallen)
        else if opt =? NN_RCVFD then
          if has_flag (st_flags (socktype self)) NN_SOCKTYPE_FLAG_NORECV then fail
          else fd ← deref (rcvfd self); Ret (self, 0, copy_int (nn_efd_getfd fd) optvallen)
        else if opt =? NN_SOCKET_NAME then
          Ret (self, 0, (strncpy (socket_name (sk_opts self)) optvallen, length (cstr (socket_name (sk_opts self)))))
        else fail
    end.

(** ** Reference: the ints an option can be set to *)
Definition opt_range (opt : Z) : option (Z * Z) :=
  if opt =? NN_SNDBUF then Some (1, INT_MAX)
  else if opt =? NN_RCVBUF then Some (1, INT_MAX)
  else if opt =? NN_RCVMAXSIZE then Some (-1, INT_MAX)
  else if (opt =? NN_SNDTIMEO) || (opt =? NN_RCVTIMEO) || (opt =? NN_LINGER) then Some (- 2 ^ 31, INT_MAX)
  else if (opt =? NN_RECONNECT_IVL) || (opt =? NN_RECONNECT_IVL_MAX) then Some (0, INT_MAX)
  else if (opt =? NN_SNDPRIO) || (opt =? NN_RCVPRIO) then Some (1, 16)
  else if opt =? NN_IPV4ONLY then Some (0, 1)
  else if opt =? NN_MAXTTL then Some (1, 255)
  else None.

Definition in_range (r : Z * Z) (v : Z) : bool := (r.1 <=? v) && (v <=? r.2).

(** The answer of the reference to a value of four bytes. *)
Definition opt_rc (opt v : Z) : Z :=
  match opt_range opt with
  | None => - ENOPROTOOPT
  | Some r => if in_range r v then 0 else - EINVAL
  end.

(** The options of a socket are in their ranges. *)
Definition opts_ok (o : nn_sock_options) : Prop :=
  0 < sndbuf o ∧ 0 < rcvbuf o ∧ -1 ≤ rcvmaxsize o ∧ 0 ≤ reconnect_ivl o ∧ 0 ≤ reconnect_ivl_max o ∧
  1 ≤ maxttl o ≤ 255 ∧ prio_ok (sndprio (ep_template o)) ∧ prio_ok (rcvprio (ep_template o)) ∧
  0 ≤ ipv4only (ep_template o) ≤ 1.

Lemma s32_range v : - 2 ^ 31 ≤ s32 v ≤ INT_MAX.
Proof. unfold s32, INT_MAX. pose proof (Z.mod_pos_bound (v + 2 ^ 31) (2 ^ 32)). lia. Qed.

(** Two calls that return the same code and value, on different states. *)
Ltac ret_iff :=
  step; split; intros E; first [discriminate E |
    apply (f_equal (λ x, match x with Ret y => Some (y.1.2, y.2) | Fail _ => None end)) in E;
    injection E as <- <-; reflexivity].
Ltac opt_case o :=
  match goal with
  | |- context [ (o =? ?c) ] => destruct (Z.eqb_spec o c) as [->|]
  end.

Lemma setopt_int_rc self opt v : - 2 ^ 31 ≤ v ≤ INT_MAX → (setopt_int self opt v).2 = opt_rc opt v.
Proof.
  intros Hv. unfold setopt_int, opt_rc, opt_range, in_range.
  repeat opt_case opt; cbn [orb fst snd Z.eqb Pos.eqb]; repeat case_match; cbn [orb] in *; simplify_eq/=; try done;
    exfalso; rewrite ?orb_true_iff, ?orb_false_iff, ?andb_true_iff, ?andb_false_iff, ?negb_true_iff, ?negb_false_iff in *; lia.
Qed.

(** What an accepted value changes. *)
Lemma setopt_int_get self opt v o :
  getopt_int (setopt_int self opt v).1 o =
    if (o =? opt) && ((setopt_int self opt v).2 =? 0) && negb (o =? NN_LINGER) then Some v else getopt_int self o.
Proof.
  destruct (Z.eqb_spec o opt) as [->|Hne]; cbn [andb].
  - unfold setopt_int. repeat opt_case opt;
      repeat match goal with |- context [if ?b then (self, - EINVAL) else _] => destruct b end; reflexivity.
  - unfold setopt_int. repeat opt_case opt;
      repeat match goal with |- context [if ?b then (self, - EINVAL) else _] => destruct b end; try reflexivity; unfold getopt_int;
      repeat (match goal with |- context [o =? ?c] => destruct (Z.eqb_spec o c) as [->|]; [try reflexivity; done|] end);
      reflexivity.
Qed.

Lemma setopt_int_rest self opt v (self' := (setopt_int self opt v).1) :
  socktype self' = socktype self ∧ sndfd self' = sndfd self ∧ rcvfd self' = rcvfd self ∧
  socket_name (sk_opts self') = socket_name (sk_opts self) ∧
  ((setopt_int self opt v).2 ≠ 0 → self' = self) ∧ (opts_ok (sk_opts self) → opts_ok (sk_opts self')).
Proof.
  unfold self', setopt_int. repeat case_match; cbn; (split_and!; [done..| |]); try done.
  all: unfold opts_ok, prio_ok, NN_PRIOLIST_SLOTS; cbn; intros (?&?&?&?&?&?&?&?&?);
    rewrite ?orb_false_iff, ?andb_false_iff, ?negb_false_iff in *; split_and!; try done; lia.
Qed.

(** C39: options are exact.  Setting a generic option to a value of four bytes
    returns what the reference table says: 0 for a value in the range of the
    option, -EINVAL outside of it, -ENOPROTOOPT for an option that cannot be set;
    a value of another length is -EINVAL.  When 0 is returned, reading the option
    gives the value back, in as many bytes as there is room for, except for
    NN_LINGER, whose value is ignored and which reads 0; all other options, and all
    options after an error, read as before.  Every option stays in its range.  A
    name of at most 63 bytes reads back as a string. *)
Theorem sockopt_exact (self : nn_sock) opt optval :
  opts_ok (sk_opts self) →
  ∃ self' rc, nn_sock_setopt_inner self NN_SOL_SOCKET opt optval = Ret (self', rc) ∧
    opts_ok (sk_opts self') ∧ (rc ≠ 0 → self' = self) ∧
    rc = (if opt =? NN_SOCKET_NAME then if 63 <? Z.of_nat (length optval) then - EINVAL else 0
          else if negb (bool_decide (length optval = 4%nat)) then - EINVAL else opt_rc opt (bytes_int optval)) ∧
    ∀ o n code r, nn_sock_getopt_inner self' NN_SOL_SOCKET o n = Ret (self', code, r) ↔
      if (o =? opt) && (rc =? 0) && negb (o =? NN_LINGER) then
        code = 0 ∧ r = if o =? NN_SOCKET_NAME then (strncpy optval n, length (cstr optval))
                       else copy_int (bytes_int optval) n
      else nn_sock_getopt_inner self NN_SOL_SOCKET o n = Ret (self, code, r).
Proof.
  intros Hok. unfold nn_sock_setopt_inner. cbn [Z.ltb Z.compare NN_SOL_SOCKET Z.eqb nn_assert]. step.
  destruct (Z.eqb_spec opt NN_SOCKET_NAME) as [->|Hname].
  { destruct (63 <? Z.of_nat (length optval)); eexists _, _; (split; [reflexivity|]); (split; [exact Hok|]);
      (split; [done|]); (split; [reflexivity|]); intros o n code r.
    { rewrite andb_false_r. done. }
    destruct (Z.eqb_spec o NN_SOCKET_NAME) as [->|Hne]; cbn [andb Z.eqb negb NN_LINGER NN_SOCKET_NAME Pos.eqb].
    - unfold nn_sock_getopt_inner. cbn. naive_solver.
    - unfold nn_sock_getopt_inner. cbn [Z.ltb Z.compare NN_SOL_SOCKET Z.eqb nn_assert mbind outcome_bind].
      change (getopt_int (on_opts _ self) o) with (getopt_int self o).
      change (socktype (on_opts _ self)) with (socktype self). change (sndfd (on_opts _ self)) with (sndfd self).
      change (rcvfd (on_opts _ self)) with (rcvfd self).
      rewrite (proj2 (Z.eqb_neq _ _) Hne). destruct (sndfd self), (rcvfd self); repeat (step; case_match); ret_iff. }
  case_bool_decide as Hlen; cbn [negb].
  2: { eexists _, _. split; [reflexivity|]. split; [exact Hok|]. split; [done|]. split; [reflexivity|].
       intros. rewrite andb_false_r. done. }
  set (v := bytes_int optval). pose proof (setopt_int_get self opt v) as Hget.
  destruct (setopt_int_rest self opt v) as (E1 & E2 & E3 & E4 & Herr & Hok').
  pose proof (setopt_int_rc self opt v (s32_range _)) as Hrc.
  destruct (setopt_int self opt v) as [self' rc] eqn:Eset. cbn [fst snd] in *.
  exists self', rc. split; [reflexivity|]. split; [by apply Hok'|]. split; [exact Herr|]. split; [exact Hrc|].
  intros o n code r. unfold nn_sock_getopt_inner. cbn [Z.ltb Z.compare NN_SOL_SOCKET Z.eqb nn_assert mbind outcome_bind].
  rewrite Hget, E1, E2, E3, E4.
  destruct ((o =? opt) && (rc =? 0) && negb (o =? NN_LINGER)) eqn:Ec.
  - rewrite !andb_true_iff in Ec. destruct Ec as [[->%Z.eqb_eq _] _].
    rewrite (proj2 (Z.eqb_neq _ _) Hname). naive_solver.
  - destruct (sndfd self), (rcvfd self); repeat (step; case_match); ret_iff.
Qed.

End code.

(** ** Example: the priority of the endpoints that will be created *)
Module OptSample.

#[export] Instance unit_sockproto : SockProto unit := {
  proto_stop := None; proto_setopt := None; proto_getopt := None }.
#[export] Instance unit_optsets : OptSets unit := {
  tp_optset _ := None; os_setopt os _ _ := (os, 0); os_getopt _ _ _ := (0, ([], 0%nat)) }.

Definition defaults : nn_sock_options :=
  SockOptions (128 * 1024) (128 * 1024) (1024 * 1024) (-1) (-1) 100 0 8 (EpOptions 8 8 1) [].
Definition self : nn_sock unit unit :=
  NnSock NN_FSM_STATE_ACTIVE NN_SOCK_STATE_ACTIVE (Some tt) (NnSocktype AF_SP NN_PAIR 0 (λ _, true)) 0
    (Some (NnEfd 3 0)) (Some (NnEfd 4 0)) 0 0 [] [] 1 1 defaults [None; None; None; None]
    (Statistics 0 0 0 0 0 0 0 0 0 0 0 0 0 0 0).

End OptSample.
Import OptSample.

(** NN_SNDPRIO is set to 3, and read into a buffer of two bytes. *)
Lemma sockopt_exact_witness :
  opts_ok (sk_opts self) ∧
  ∃ self', nn_sock_setopt_inner self NN_SOL_SOCKET NN_SNDPRIO [3; 0; 0; 0] = Ret (self', 0) ∧
    nn_sock_getopt_inner self' NN_SOL_SOCKET NN_SNDPRIO 2 = Ret (self', 0, ([3; 0], 4%nat)).
Proof.
  assert (opts_ok (sk_opts self)) as Hok.
  { unfold opts_ok, prio_ok, NN_PRIOLIST_SLOTS. cbn. lia. }
  split; [exact Hok|].
  destruct (sockopt_exact self NN_SNDPRIO [3; 0; 0; 0] Hok) as (self' & rc & E & _ & _ & Hrc & Hget).
  assert (rc = 0) as -> by (rewrite Hrc; vm_compute; reflexivity). exists self'. split; [exact E|].
  apply (Hget NN_SNDPRIO 2%nat). cbn [Z.eqb Pos.eqb andb negb NN_SNDPRIO NN_LINGER NN_SOCKET_NAME].
  split; vm_compute; reflexivity.
Defined.
