(* ===== verification/SockSys.v ===== *)
(** * The life of a socket: user threads, transports, events

    A thread enters the context of the socket, does one thing, lets the queued
    events be processed and leaves.  The user's threads send, receive, set
    options, add and remove endpoints, and close the socket; the worker threads
    run the transports, which start and stop pipes, report on them and on their
    endpoints.  [sstep] is one such step, [enabled] says when it can happen, and
    [sreach] are the states that result. *)
From S2P Require Import Prelude NnList Priolist Pipe Msg Protocol Core Fsm SockState Sock SockOpt.

(** What the optional functions of a protocol promise. *)
Class SockProtoOk (St TW M : Type) `{TransportFinite TW M, !Proto St (psys (TW := TW)) M,
    !ProtoOk St (psys (TW := TW)) M, !SockProto St} := {
  proto_stop_ok f s w ps :
    proto_stop = Some f → proto_inv s w ps → ∃ s', f s = Ret s' ∧ proto_inv s' w ps;
  proto_setopt_ok f s w ps level o v :
    proto_setopt = Some f → proto_inv s w ps → ∃ s' rc, f s level o v = Ret (s', rc) ∧ proto_inv s' w ps;
  proto_getopt_ok f s w ps level o n :
    proto_getopt = Some f → proto_inv s w ps → ∃ r, f s level o n = Ret r;
}.

Section steps.
Context {St OS TW M : Type} `{TransportFinite TW M} `{!Proto St (psys (TW := TW)) M}.
Context `{!SockProto St} `{!OptSets OS}.
Notation sys := (sys St OS TW).

Inductive saction :=
| S_enter                                  (* a thread enters the context *)
| S_dispatch                               (* ... processes an event *)
| S_leave                                  (* ... and leaves *)
| U_send (m : M) (fl : Z)                  (* a turn of nn_sock_send *)
| U_recv (fl : Z)
| U_send_again                             (* the double check after a wait *)
| U_recv_again
| U_setopt (level o : Z) (v : list Z)
| U_getopt (level o : Z) (n : nat)
| U_add_ep (e : positive) (rc : Z) (addr : list Z)
| U_rm_ep (eid : Z)
| U_stop
| U_hold
| U_rele
| T_start (p : pid) (e : positive)         (* a connection of [e] is established *)
| T_stop (p : pid)                         (* a connection is closed *)
| T_sent (p : pid)
| T_received (p : pid)
| T_world (t : TW)                         (* something happens in the transport *)
| T_stopped (e : positive)                 (* the transport has stopped [e] *)
| T_error (e : positive) (errnum : Z)
| T_clear (e : positive)
| T_stat (name increment : Z)
| T_protocol.                              (* the protocol has stopped *)

(** The pipes after a call of the transport; the events it raised are queued. *)
Definition set_pipes (w : pworld TW) (s : sys) : sys :=
  let old := world s in
  set_evq (evq s ++ replicate (length (events w) - length (events (pw old))) SE_pipe)
    (set_world (PSys w (can_out old) (can_in old)) s).

Definition sstep (s : sys) (a : saction) : outcome sys :=
  match a with
  | S_enter => Ret (set_locked true s)
  | S_dispatch => match evq s with [] => Ret s | ev :: q => process ev (set_evq q s) end
  | S_leave => s ← nn_sock_onleave s; Ret (set_locked false s)
  | U_send m fl => '(s, _) ← nn_sock_send_try s m fl; Ret s
  | U_recv fl => '(s, _, _) ← nn_sock_recv_try s fl; Ret s
  | U_send_again => nn_sock_send_again s
  | U_recv_again => nn_sock_recv_again s
  | U_setopt level o v => '(k, _) ← nn_sock_setopt_inner (sock s) level o v; Ret (set_sock k s)
  | U_getopt level o n => '(k, _, _) ← nn_sock_getopt_inner (sock s) level o n; Ret (set_sock k s)
  | U_add_ep e rc addr => '(s, _) ← nn_sock_add_ep (Some e) rc addr s; Ret s
  | U_rm_ep eid => '(s, _) ← nn_sock_rm_ep eid s; Ret s
  | U_stop => nn_sock_stop s
  | U_hold => Ret (nn_sock_hold s).1
  | U_rele => Ret (nn_sock_rele s)
  | T_start p e =>
      ep ← get_ep s e;
      let w := nn_pipebase_init (pw (world s)) p None (ep_opts ep) in
      '(s, w, _) ← nn_pipebase_start
        (λ s p, nn_sock_add s p (sndprio (ep_opts ep)) (rcvprio (ep_opts ep))) s w p;
      Ret (set_powner (<[p := e]> (powner s)) (set_pipes w s))
  | T_stop p =>
      '(s, w) ← nn_pipebase_stop nn_sock_rm s (pw (world s)) p;
      w ← nn_pipebase_term w p;
      let old := world s in
      Ret (set_powner (delete p (powner s)) (set_world (PSys w (can_out old ∖ {[p]}) (can_in old ∖ {[p]})) s))
  | T_sent p => w ← nn_pipebase_sent (pw (world s)) p; Ret (set_pipes w s)
  | T_received p => w ← nn_pipebase_received (pw (world s)) p; Ret (set_pipes w s)
  | T_world t => Ret (set_pipes (set_tworld (pw (world s)) t) s)
  | T_stopped e => nn_ep_stopped e s
  | T_error e errnum => nn_ep_set_error e errnum s
  | T_clear e => nn_ep_clear_error e s
  | T_stat name increment => stat_increment name increment s
  | T_protocol => nn_sock_stopped s
  end.

(** The statistics that only grow. *)
Definition counters : list Z :=
  [NN_STAT_ESTABLISHED_CONNECTIONS; NN_STAT_ACCEPTED_CONNECTIONS; NN_STAT_DROPPED_CONNECTIONS;
   NN_STAT_BROKEN_CONNECTIONS; NN_STAT_CONNECT_ERRORS; NN_STAT_BIND_ERRORS; NN_STAT_ACCEPT_ERRORS;
   NN_STAT_MESSAGES_SENT; NN_STAT_MESSAGES_RECEIVED; NN_STAT_BYTES_SENT; NN_STAT_BYTES_RECEIVED].

(** The transport of [e] still works for it. *)
Definition working (s : sys) (e : positive) : Prop :=
  ∃ ep, epmem s !! e = Some ep ∧ ep_state ep ≠ NN_EP_STATE_IDLE ∧ SE_ep_action e ∉ evq s.

Definition half (s : sys) (p : pid) (P : nn_pipebase → Prop) : Prop :=
  ∃ b, bases (pw (world s)) !! p = Some b ∧ pstate b = NN_PIPEBASE_STATE_ACTIVE ∧ P b.

Definition enabled (s : sys) (a : saction) : Prop :=
  match a with
  | S_enter => locked s = false
  | S_dispatch => locked s = true ∧ evq s ≠ []
  | S_leave => locked s = true ∧ evq s = []
  | U_hold => True
  | U_rele => 0 < holds (sock s) ∧ (sk_fsm (sock s) = NN_FSM_STATE_ACTIVE → 1 < holds (sock s))
  | U_add_ep e _ addr => locked s = true ∧ evq s = [] ∧ epmem s !! e = None ∧
      Z.of_nat (length addr) ≤ NN_SOCKADDR_MAX ∧ sk_eid (sock s) < INT_MAX
  | U_send_again => locked s = true ∧ evq s = [] ∧ no_send s = false
  | U_recv_again => locked s = true ∧ evq s = [] ∧ no_recv s = false
  | U_send _ _ | U_recv _ | U_setopt _ _ _ | U_getopt _ _ _ | U_rm_ep _ | U_stop =>
      locked s = true ∧ evq s = []
  | T_start p e => locked s = true ∧ bases (pw (world s)) !! p = None ∧ working s e ∧
      Z.of_nat (size (attached s)) + 2 < INT_MAX
  | T_stop p => locked s = true ∧ is_Some (bases (pw (world s)) !! p) ∧
      (p, NN_PIPE_OUT) ∉ events (pw (world s)) ∧ (p, NN_PIPE_IN) ∉ events (pw (world s))
  | T_sent p => locked s = true ∧ half s p (λ b, outstate b = OUT_ASYNC)
  | T_received p => locked s = true ∧ half s p (λ b, instate b = IN_ASYNC)
  | T_world t => t_sent t = t_sent (tworld (pw (world s))) ∧ t_recvd t = t_recvd (tworld (pw (world s)))
  | T_stopped e => locked s = true ∧ working s e ∧ fsm_of e s = NN_FSM_STATE_STOPPING ∧
      (∀ p, powner s !! p ≠ Some e)
  | T_error e errnum => locked s = true ∧ is_Some (epmem s !! e) ∧ errnum ≠ 0
  | T_clear e => locked s = true ∧ is_Some (epmem s !! e)
  | T_stat name increment => locked s = true ∧ name ∈ counters ∧ 0 < increment
  | T_protocol => locked s = true ∧ sk_state (sock s) = NN_SOCK_STATE_STOPPING ∧ SE_sock_stopped ∉ evq s
  end.

(** What the model of a protocol expects of its users and peers, and what the
    user must not do: add an endpoint to a socket, or use an option of its
    protocol, while another thread is closing it. *)
Definition slegal (s : sys) (a : saction) : Prop :=
  match a with
  | U_send m _ => proto_takes (St := St) (W := psys (TW := TW)) m = true
  | U_add_ep _ _ _ => sk_fsm (sock s) = NN_FSM_STATE_ACTIVE
  | U_setopt level _ _ | U_getopt level _ _ => NN_SOL_SOCKET < level → sk_fsm (sock s) = NN_FSM_STATE_ACTIVE
  | T_start _ _ => ∀ sb, sockbase (sock s) = Some sb → proto_room (W := psys (TW := TW)) (M := M) sb = true
  | T_received _ => proto_hears (St := St) (W := psys (TW := TW)) (M := M) = true
  | _ => True
  end.

(** Steps that other threads can make at the wrong time: they add an endpoint to a
    socket that is being closed, or use an option of its protocol, or a transport
    stops a pipe while an event of the pipe is still queued. *)
Inductive sock_race (s : sys) : saction → Prop :=
| race_add_ep e rc addr : sk_fsm (sock s) ≠ NN_FSM_STATE_ACTIVE → sock_race s (U_add_ep e rc addr)
| race_setopt level o v : NN_SOL_SOCKET < level → sk_fsm (sock s) ≠ NN_FSM_STATE_ACTIVE → sock_race s (U_setopt level o v)
| race_getopt level o n : NN_SOL_SOCKET < level → sk_fsm (sock s) ≠ NN_FSM_STATE_ACTIVE → sock_race s (U_getopt level o n)
| race_pipe p type : (p, type) ∈ events (pw (world s)) → sock_race s (T_stop p).

(** What can happen, the races included. *)
Definition possible (s : sys) (a : saction) : Prop :=
  match a with
  | T_stop p => locked s = true ∧ is_Some (bases (pw (world s)) !! p)
  | U_add_ep _ _ _ | U_setopt _ _ _ | U_getopt _ _ _ => enabled s a
  | _ => enabled s a ∧ slegal s a
  end.

Lemma possible_race s a : possible s a → sock_race s a ∨ enabled s a ∧ slegal s a.
Proof.
  destruct a as [| | | | | | |level o v|level o n| | | | | | |p| | | | | | | |]; cbn [possible]; intros Hp; try by right.
  1-2: destruct (decide (sk_fsm (sock s) = NN_FSM_STATE_ACTIVE)); [right; split; [exact Hp|by intros ?]|];
    destruct (decide (NN_SOL_SOCKET < level)); [left; by constructor|right; split; [exact Hp|by intros ?]].
  - destruct (decide (sk_fsm (sock s) = NN_FSM_STATE_ACTIVE)); [right; split; assumption|left; by constructor].
  - destruct (decide ((p, NN_PIPE_OUT) ∈ events (pw (world s)))); [left; by econstructor|].
    destruct (decide ((p, NN_PIPE_IN) ∈ events (pw (world s)))); [left; by econstructor|].
    right. cbn. naive_solver.
Qed.

Inductive sreach (s0 : sys) : sys → Prop :=
| sreach_start : sreach s0 s0
| sreach_step s a s' : sreach s0 s → enabled s a → slegal s a → sstep s a = Ret s' → sreach s0 s'.

(** Both are decidable, so that a sequence of steps can be run. *)
#[export] Instance half_dec s p P `{!∀ b, Decision (P b)} : Decision (half s p P).
Proof.
  unfold half. destruct (bases (pw (world s)) !! p) as [b|] eqn:Hb; [|right; naive_solver].
  destruct (decide (pstate b = NN_PIPEBASE_STATE_ACTIVE ∧ P b)); [left|right]; naive_solver.
Defined.

#[export] Instance working_dec s e : Decision (working s e).
Proof.
  unfold working. destruct (epmem s !! e) as [ep|] eqn:Hep; [|right; naive_solver].
  destruct (decide (ep_state ep ≠ NN_EP_STATE_IDLE ∧ SE_ep_action e ∉ evq s)); [left|right]; naive_solver.
Defined.

#[export] Instance senabled_dec `{EqDecision M} s a : Decision (enabled s a).
Proof.
  destruct a; cbn [enabled]; try apply _.
  destruct (decide (locked s = true ∧ working s e ∧ fsm_of e s = NN_FSM_STATE_STOPPING ∧
    map_Forall (λ _ e', e' ≠ e) (powner s))) as [Hd|Hd]; [left|right].
  - destruct Hd as (? & ? & ? & Hf). split_and!; try done. intros p Hp. by apply (Hf p e).
  - intros (? & ? & ? & Hf). apply Hd. split_and!; try done. intros p e' Hp ->. by apply (Hf p).
Defined.

#[export] Instance slegal_dec s a : Decision (slegal s a).
Proof.
  destruct a; cbn [slegal]; try apply _.
  destruct (sockbase (sock s)) as [sb|]; [|by left].
  destruct (proto_room sb) eqn:E; [left; by intros ? [= <-]|right; intros Hl; specialize (Hl sb eq_refl); congruence].
Defined.

Fixpoint srun `{EqDecision M} (s : sys) (acts : list saction) : outcome sys :=
  match acts with
  | [] => Ret s
  | a :: acts =>
      if decide (enabled s a ∧ slegal s a) then s ← sstep s a; srun s acts else Fail Abort
  end.

Lemma srun_reach `{EqDecision M} s0 s acts s' : sreach s0 s → srun s acts = Ret s' → sreach s0 s'.
Proof.
  revert s. induction acts as [|a acts IH]; intros s Hr; cbn [srun]; [by intros [= ->]|].
  destruct (decide _) as [[Hen Hl]|]; [|done]. destruct (sstep s a) as [s1|] eqn:E; [cbn|done].
  apply IH. by eapply sreach_step.
Qed.

(** ** Holds and the life cycle

    Only [nn_sock_hold], [nn_sock_rele] and [nn_sock_stop] change who holds the
    socket and whether it is being closed; only entering and leaving the context
    change whether a thread is in it. *)
Definition kept (s s' : sys) : Prop :=
  holds (sock s') = holds (sock s) ∧ sk_fsm (sock s') = sk_fsm (sock s) ∧ locked s' = locked s.

Ltac kept_with tac :=
  repeat (inv_ret; match goal with
  | E : _ = Ret _ |- _ => progress tac E
  | E : context [match ?x with _ => _ end] |- _ => lazymatch x with
      | context [match _ with _ => _ end] => fail
      | _ => destruct x eqn:? end
  end);
  inv_ret; simplify_eq; unfold kept in *; cbn in *; repeat case_match; cbn in *; intuition congruence.
Ltac no_tac E := fail.

Lemma stat_kept name i s s' : stat_increment name i s = Ret s' → kept s s'.
Proof. unfold stat_increment. intros E. kept_with no_tac. Qed.
Lemma ep_handler_kept e s a b c s' : nn_ep_handler e s a b c = Ret s' → kept s s'.
Proof. unfold nn_ep_handler, nn_fsm_bad. intros E. kept_with no_tac. Qed.
Lemma ep_shutdown_kept e s a b c s' : nn_ep_shutdown e s a b c = Ret s' → kept s s'.
Proof. unfold nn_ep_shutdown, nn_fsm_bad, nn_fsm_stopped, raise_ep. intros E. kept_with no_tac. Qed.
Lemma ep_stop_kept e s s' : nn_ep_stop e s = Ret s' → kept s s'.
Proof.
  unfold nn_ep_stop, nn_fsm_stop. intros E. destruct (negb _); [by injection E as <-|].
  apply ep_shutdown_kept in E. exact E.
Qed.
Lemma ep_start_kept e s s' : nn_ep_start e s = Ret s' → kept s s'.
Proof.
  unfold nn_ep_start, nn_fsm_start. intros E. inv_ret.
  match goal with E : nn_ep_handler _ _ _ _ _ = _ |- _ => apply ep_handler_kept in E; exact E end.
Qed.
Lemma eps_erase_kept e s s' : eps_erase e s = Ret s' → kept s s'.
Proof. unfold eps_erase. intros E. kept_with no_tac. Qed.
Lemma sdeps_erase_kept e s s' : sdeps_erase e s = Ret s' → kept s s'.
Proof. unfold sdeps_erase. intros E. kept_with no_tac. Qed.
Lemma sdeps_append_kept e s s' : sdeps_append e s = Ret s' → kept s s'.
Proof. unfold sdeps_append. intros E. kept_with no_tac. Qed.
Lemma eps_append_kept e s s' : eps_append e s = Ret s' → kept s s'.
Proof. unfold eps_append. intros E. kept_with no_tac. Qed.
Lemma ep_term_kept e s s' : nn_ep_term e s = Ret s' → kept s s'.
Proof. unfold nn_ep_term. intros E. kept_with no_tac. Qed.

Ltac known E := first [apply stat_kept in E | apply ep_handler_kept in E | apply ep_shutdown_kept in E |
  apply ep_stop_kept in E | apply ep_start_kept in E | apply eps_erase_kept in E | apply sdeps_erase_kept in E |
  apply sdeps_append_kept in E | apply eps_append_kept in E | apply ep_term_kept in E].

Lemma ep_gone_kept p s s' : ep_gone p s = Ret s' → kept s s'.
Proof. unfold ep_gone. intros E. kept_with known. Qed.
Lemma stop_finish_kept s s' : stop_finish (M := M) s = Ret s' → kept s s'.
Proof. unfold stop_finish. intros E. kept_with no_tac. Qed.
Lemma stop_protocol_kept s s' : stop_protocol (M := M) s = Ret s' → kept s s'.
Proof.
  unfold stop_protocol. intros E. destruct (negb _); [by injection E as <-|]. inv_ret.
  destruct proto_stop; [kept_with no_tac|].
  match goal with E : stop_finish _ = _ |- _ => apply stop_finish_kept in E; exact E end.
Qed.
Lemma stop_eps_kept l s s' : stop_eps l s = Ret s' → kept s s'.
Proof.
  revert s. induction l as [|e l IH]; intros s; cbn [stop_eps]; [by intros [= <-]|]. intros E. inv_ret.
  match goal with E : stop_eps _ _ = _ |- _ => apply IH in E end. kept_with known.
Qed.
Lemma sock_in_kept p s s' : sock_in (M := M) p s = Ret s' → kept s s'.
Proof. unfold sock_in. intros E. kept_with no_tac. Qed.
Lemma sock_out_kept p s s' : sock_out (M := M) p s = Ret s' → kept s s'.
Proof. unfold sock_out. intros E. kept_with no_tac. Qed.


Ltac known2 E := first [known E | apply ep_gone_kept in E | apply stop_finish_kept in E | apply stop_protocol_kept in E |
  apply stop_eps_kept in E | apply sock_in_kept in E | apply sock_out_kept in E].

Lemma shutdown_kept s a b c s' : nn_sock_shutdown (M := M) s a b c = Ret s' → kept s s'.
Proof. unfold nn_sock_shutdown, nn_fsm_bad. intros E. kept_with known2. Qed.
Lemma handler_kept s a b c s' : nn_sock_handler (M := M) s a b c = Ret s' → kept s s'.
Proof. unfold nn_sock_handler, nn_fsm_bad. intros E. kept_with known2. Qed.
Lemma feed_kept s a b c s' : sock_feed (M := M) s a b c = Ret s' → kept s s'.
Proof.
  unfold sock_feed, nn_fsm_feed. destruct (negb _); [apply handler_kept|apply shutdown_kept].
Qed.
Lemma process_kept ev s s' : process (M := M) ev s = Ret s' → kept s s'.
Proof.
  unfold process. intros E. destruct ev; [|unfold nn_fsm_feed in E; destruct (negb _);
    [by eapply ep_handler_kept|by eapply ep_shutdown_kept]|by eapply feed_kept..].
  destruct (events _) as [|[]]; [done|]. apply feed_kept in E. exact E.
Qed.
Lemma onleave_kept s s' : nn_sock_onleave (M := M) s = Ret s' → kept s s'.
Proof. unfold nn_sock_onleave. intros E. kept_with no_tac. Qed.
Lemma sock_add_kept s p a b s' rc : nn_sock_add (M := M) s p a b = Ret (s', rc) → kept s s'.
Proof. unfold nn_sock_add. intros E. kept_with known. Qed.
Lemma sock_rm_kept s p s' : nn_sock_rm (M := M) s p = Ret s' → kept s s'.
Proof. unfold nn_sock_rm. intros E. kept_with known. Qed.
Lemma send_try_kept s m fl s' r : nn_sock_send_try s m fl = Ret (s', r) → kept s s'.
Proof. unfold nn_sock_send_try. intros E. kept_with no_tac. Qed.
Lemma recv_try_kept s fl s' r m : nn_sock_recv_try (M := M) s fl = Ret (s', r, m) → kept s s'.
Proof. unfold nn_sock_recv_try. intros E. kept_with no_tac. Qed.

Definition kept_sock (k k' : nn_sock St OS) : Prop := holds k' = holds k ∧ sk_fsm k' = sk_fsm k.
Lemma optset_kept k level k' r : nn_sock_optset k level = (k', r) → kept_sock k k'.
Proof. unfold nn_sock_optset. repeat case_match; intros [= <- <-]; done. Qed.
Lemma setopt_kept k level o v k' rc : nn_sock_setopt_inner k level o v = Ret (k', rc) → kept_sock k k'.
Proof.
  unfold nn_sock_setopt_inner. intros E. destruct (NN_SOL_SOCKET <? level).
  { destruct proto_setopt; inv_ret; done. }
  destruct (level <? NN_SOL_SOCKET).
  { destruct (nn_sock_optset k level) as [k1 r] eqn:E1. apply optset_kept in E1.
    destruct r; [destruct (os_setopt _ _ _)|]; injection E as <- <-; exact E1. }
  inv_ret. repeat case_match; simplify_eq; try done.
  match goal with E : setopt_int _ _ _ = _ |- _ => revert E end. unfold setopt_int.
  repeat case_match; intros [= <- <-]; done.
Qed.
Lemma getopt_kept k level o n k' rc r : nn_sock_getopt_inner k level o n = Ret (k', rc, r) → kept_sock k k'.
Proof.
  unfold nn_sock_getopt_inner. intros E. destruct (NN_SOL_SOCKET <? level).
  { destruct proto_getopt; inv_ret; done. }
  destruct (level <? NN_SOL_SOCKET).
  { destruct (nn_sock_optset k level) as [k1 os] eqn:E1. apply optset_kept in E1.
    destruct os; [destruct (os_getopt _ _ _)|]; injection E as <- <- <-; exact E1. }
  inv_ret. repeat (case_match; inv_ret); done.
Qed.

Ltac known3 E := first [known2 E | apply setopt_kept in E | apply getopt_kept in E |
  apply shutdown_kept in E | apply sock_add_kept in E | apply sock_rm_kept in E | apply onleave_kept in E |
  apply send_try_kept in E | apply recv_try_kept in E].

Lemma ep_init_kept e eid rc addr s s' r : nn_ep_init e eid rc addr s = Ret (s', r) → kept s s'.
Proof. unfold nn_ep_init. intros E. kept_with no_tac. Qed.
Lemma add_ep_kept e rc addr s s' r : nn_sock_add_ep e rc addr s = Ret (s', r) → kept s s'.
Proof.
  unfold nn_sock_add_ep. intros E. inv_ret.
  match goal with E : nn_ep_init _ _ _ _ _ = _ |- _ => apply ep_init_kept in E end. kept_with known2.
Qed.
Lemma rm_ep_kept eid s s' r : nn_sock_rm_ep eid s = Ret (s', r) → kept s s'.
Proof. unfold nn_sock_rm_ep. intros E. kept_with known2. Qed.
Lemma set_error_kept e errnum s s' : nn_ep_set_error e errnum s = Ret s' → kept s s'.
Proof. unfold nn_ep_set_error. intros E. kept_with known2. Qed.
Lemma clear_error_kept e s s' : nn_ep_clear_error e s = Ret s' → kept s s'.
Proof. unfold nn_ep_clear_error. intros E. kept_with known2. Qed.
Lemma send_again_kept s s' : nn_sock_send_again s = Ret s' → kept s s'.
Proof. unfold nn_sock_send_again. intros E. kept_with no_tac. Qed.
Lemma recv_again_kept s s' : nn_sock_recv_again s = Ret s' → kept s s'.
Proof. unfold nn_sock_recv_again. intros E. kept_with no_tac. Qed.

(** What a transport's call keeps of the socket. *)
Lemma pipebase_start_kept s (w : pworld TW) p a b s' w' rc :
  nn_pipebase_start (λ s p, nn_sock_add (M := M) s p a b) s w p = Ret (s', w', rc) → kept s s'.
Proof.
  unfold nn_pipebase_start. intros E. inv_ret.
  match goal with E : nn_sock_add _ _ _ _ = _ |- _ => apply sock_add_kept in E end.
  destruct (_ <? 0); inv_ret; by simplify_eq.
Qed.
Lemma pipebase_stop_kept s (w : pworld TW) p s' w' :
  nn_pipebase_stop (nn_sock_rm (M := M)) s w p = Ret (s', w') → kept s s'.
Proof.
  unfold nn_pipebase_stop. intros E. inv_ret. destruct (_ =? _); [|by inv_ret].
  match goal with E : nn_sock_rm _ _ = _ |- _ => apply sock_rm_kept in E; exact E end.
Qed.

Definition keeps (a : saction) : Prop :=
  match a with S_enter | S_leave | U_stop | U_hold | U_rele => False | _ => True end.

Lemma sstep_kept s a s' : keeps a → sstep s a = Ret s' → kept s s'.
Proof.
  destruct a; cbn [keeps sstep]; intros Hk E; try done; inv_ret; try done.
  - destruct (evq s); [by inv_ret|]. apply process_kept in E. exact E.
  - by eapply send_try_kept.
  - by eapply recv_try_kept.
  - by apply send_again_kept.
  - by apply recv_again_kept.
  - match goal with E : nn_sock_setopt_inner _ _ _ _ = _ |- _ => destruct (setopt_kept _ _ _ _ _ _ E) end. by split_and!.
  - match goal with E : nn_sock_getopt_inner _ _ _ _ = _ |- _ => destruct (getopt_kept _ _ _ _ _ _ _ E) end. by split_and!.
  - by eapply add_ep_kept.
  - by eapply rm_ep_kept.
  - match goal with E : nn_pipebase_start _ _ _ _ = _ |- _ => apply pipebase_start_kept in E; exact E end.
  - match goal with E : nn_pipebase_stop _ _ _ _ = _ |- _ => apply pipebase_stop_kept in E; exact E end.
  - unfold nn_ep_stopped, raise_ep in E. kept_with no_tac.
  - by eapply set_error_kept.
  - by eapply clear_error_kept.
  - by eapply stat_kept.
  - unfold nn_sock_stopped in E. kept_with no_tac.
Qed.

End steps.
