(* ===== verification/SockInv.v ===== *)
(** * The invariant of a socket

    [sock_inv] is made of invariants of its parts, each over the fields it is
    about, so that a step that leaves these alone preserves it by computation:
    the phase the socket is in, its event descriptors, its endpoints, their
    numbers and error counts, its pipes, and the protocol. *)
From S2P Require Import Prelude NnList Priolist Pipe Msg Protocol Core Fsm SockState Sock SockOpt SockSys.

(** ** Endpoints *)

Definition in_error (ep : nn_ep) : Prop := ep_errno ep ≠ 0.
#[export] Instance in_error_dec ep : Decision (in_error ep).
Proof. unfold in_error. apply _. Defined.

(** [cur] is the statistics item current_ep_errors, [eid] the next id. *)
Definition ids_ok (em : gmap positive nn_ep) (eid cur : Z) : Prop :=
  1 ≤ eid ≤ INT_MAX ∧
  (∀ e ep, em !! e = Some ep → 1 ≤ ep_eid ep < eid) ∧
  (∀ e e' ep ep', em !! e = Some ep → em !! e' = Some ep' → ep_eid ep = ep_eid ep' → e = e') ∧
  Z.of_nat (mcount in_error em) ≤ cur ∧ cur + Z.of_nat (size em) - Z.of_nat (mcount in_error em) ≤ eid - 1.

(** A new endpoint takes the next id. *)
Lemma ids_ok_add em eid cur e ep :
  ids_ok em eid cur → em !! e = None → ep_eid ep = eid → ep_errno ep = 0 → eid < INT_MAX →
  ids_ok (<[e := ep]> em) (eid + 1) cur.
Proof.
  intros (Hr & Hlt & Hinj & Hc1 & Hc2) He Hid Herr Hmax.
  assert (mcount in_error (<[e := ep]> em) = mcount in_error em) as Ec by (rewrite mcount_new by done; rewrite bcount_false by (unfold in_error; tauto); lia).
  unfold ids_ok. rewrite Ec, map_size_insert_None by done. split_and!; try lia.
  - intros e' ep' [[<- <-]|[_ He']]%lookup_insert_Some; [lia|]. specialize (Hlt _ _ He'). lia.
  - intros e1 e2 ep1 ep2 [[<- <-]|[? H1]]%lookup_insert_Some [[<- <-]|[? H2]]%lookup_insert_Some Heq; [done|..].
    + specialize (Hlt _ _ H2). lia.
    + specialize (Hlt _ _ H1). lia.
    + by eapply Hinj.
Qed.

(** The error of an endpoint changes, and the counter with it. *)
Lemma ids_ok_update em eid cur e ep ep' :
  ids_ok em eid cur → em !! e = Some ep → ep_eid ep' = ep_eid ep →
  ids_ok (<[e := ep']> em) eid (cur + Z.of_nat (bcount in_error ep') - Z.of_nat (bcount in_error ep)).
Proof.
  intros (Hr & Hlt & Hinj & Hc1 & Hc2) He Hid. pose proof (mcount_update in_error em e ep ep' He).
  unfold ids_ok. rewrite map_size_insert_Some by eauto. split_and!; try lia.
  - intros e' ep1 [[<- <-]|[_ He']]%lookup_insert_Some; [rewrite Hid|]; by eapply Hlt.
  - intros e1 e2 ep1 ep2 [[<- <-]|[? ?]]%lookup_insert_Some [[<- <-]|[? ?]]%lookup_insert_Some Heq; [done|..];
      rewrite ?Hid in Heq; by eapply Hinj.
Qed.

Lemma ids_ok_same em eid cur e ep ep' :
  ids_ok em eid cur → em !! e = Some ep → ep_eid ep' = ep_eid ep → ep_errno ep' = ep_errno ep →
  ids_ok (<[e := ep']> em) eid cur.
Proof.
  intros Hok He Hid Herr. pose proof (ids_ok_update em eid cur e ep ep' Hok He Hid) as Hx.
  assert (bcount in_error ep' = bcount in_error ep) as Eb.
  { unfold bcount, in_error. do 2 case_decide; congruence. }
  rewrite Eb in Hx. by replace (cur + _ - _) with cur in Hx by lia.
Qed.

Lemma ids_ok_delete em eid cur e ep :
  ids_ok em eid cur → em !! e = Some ep → ids_ok (delete e em) eid cur.
Proof.
  intros (Hr & Hlt & Hinj & Hc1 & Hc2) He. pose proof (mcount_delete in_error em e ep He).
  unfold ids_ok. rewrite map_size_delete_Some by eauto.
  assert (size em ≠ 0%nat) by (rewrite map_size_ne_0_lookup; eauto).
  assert (bcount in_error ep ≤ 1)%nat by (unfold bcount; case_decide; lia).
  split_and!; try lia.
  - intros ? ? [? ?]%lookup_delete_Some. by eapply Hlt.
  - intros ? ? ? ? [? ?]%lookup_delete_Some [? ?]%lookup_delete_Some. by eapply Hinj.
Qed.

(** There is room to count another error. *)
Lemma ids_ok_error em eid cur e ep :
  ids_ok em eid cur → em !! e = Some ep → (ep_errno ep = 0 → 0 ≤ cur < INT_MAX) ∧ (ep_errno ep ≠ 0 → 0 < cur ≤ INT_MAX).
Proof.
  intros (Hr & _ & _ & Hc1 & Hc2) He. pose proof (mcount_delete in_error em e ep He) as Hd. unfold bcount in Hd.
  pose proof (mcount_le in_error (delete e em)) as Hle. rewrite map_size_delete_Some in Hle by eauto.
  assert (size em ≠ 0%nat) by (rewrite map_size_ne_0_lookup; eauto). unfold INT_MAX in *.
  unfold in_error in *. case_decide; split; intros; try done; lia.
Qed.

(** Endpoint [e]: in use; being stopped; stopped, and about to be freed. *)
Definition ep_ok (es ds : list positive) (q : list sock_ev) (e : positive) (ep : nn_ep) : Prop :=
  prio_ok (sndprio (ep_opts ep)) ∧ prio_ok (rcvprio (ep_opts ep)) ∧
  (e ∈ es ∧ ep_fsm ep = NN_FSM_STATE_ACTIVE ∧ ep_state ep = NN_EP_STATE_ACTIVE ∧
     SE_ep_action e ∉ q ∧ SE_ep_stopped e ∉ q ∨
   e ∈ ds ∧ ep_fsm ep = NN_FSM_STATE_STOPPING ∧ ep_state ep = NN_EP_STATE_STOPPING ∧ SE_ep_stopped e ∉ q ∨
   e ∈ ds ∧ ep_fsm ep = NN_FSM_STATE_IDLE ∧ ep_state ep = NN_EP_STATE_IDLE ∧
     SE_ep_stopped e ∈ q ∧ SE_ep_action e ∉ q).

Lemma ep_ok_frame es es' ds ds' q q' e ep :
  ep_ok es ds q e ep → (e ∈ es ↔ e ∈ es') → (e ∈ ds ↔ e ∈ ds') →
  (SE_ep_action e ∈ q ↔ SE_ep_action e ∈ q') → (SE_ep_stopped e ∈ q ↔ SE_ep_stopped e ∈ q') →
  ep_ok es' ds' q' e ep.
Proof. unfold ep_ok. tauto. Qed.

Definition events_nodup (q : list sock_ev) : Prop := NoDup (filter (λ ev, ev ≠ SE_pipe) q).

Record eps_ok (es ds : list positive) (em : gmap positive nn_ep) (q : list sock_ev)
    (own : gmap pid positive) : Prop := {
  eo_nodup : NoDup (es ++ ds);
  eo_mem e : e ∈ es ++ ds → is_Some (em !! e);
  eo_ep e ep : em !! e = Some ep → ep_ok es ds q e ep;
  eo_event e : SE_ep_action e ∈ q ∨ SE_ep_stopped e ∈ q → e ∈ ds ∧ ∀ p, own !! p ≠ Some e;
  eo_once : events_nodup q;
}.

(** ** Pipes *)

Definition pipe_tokens (q : list sock_ev) : nat := length (filter (λ ev, ev = SE_pipe) q).

Section inv.
Context {St OS TW M : Type} `{TransportFinite TW M} `{!Proto St (psys (TW := TW)) M}.
Context `{!ProtoOk St (psys (TW := TW)) M} `{!SockProto St}.
Notation sys := (sys St OS TW).
Notation nn_sock := (nn_sock St OS).

(** The pipes of a socket: [att] those the protocol knows, [own] their endpoints,
    [conn] the statistics item current_connections. *)
Record pipes_ok (w : psys (TW := TW)) (att : gset pid) (own : gmap pid positive) (em : gmap positive nn_ep)
    (q : list sock_ev) (conn : Z) : Prop := {
  po_world : core_inv w;
  po_att p : p ∈ att ↔ ∃ b, bases (pw w) !! p = Some b ∧ pstate b = NN_PIPEBASE_STATE_ACTIVE;
  po_own p : is_Some (own !! p) ↔ is_Some (bases (pw w) !! p);
  po_ep p e : own !! p = Some e → is_Some (em !! e);
  po_tokens : pipe_tokens q = length (events (pw w));
  po_conn : conn = Z.of_nat (size att) ∧ Z.of_nat (size att) < INT_MAX;
  po_hears p : (p, NN_PIPE_IN) ∈ events (pw w) → proto_hears (St := St) (W := psys (TW := TW)) (M := M) = true;
}.

(** ** The phases of a socket *)
Inductive life (fsm st : Z) (sb : option St) (term : Z) (es ds : list positive) (q : list sock_ev) : Prop :=
| life_active : fsm = NN_FSM_STATE_ACTIVE → st = NN_SOCK_STATE_ACTIVE →
    is_Some sb → term = 0 → SE_sock_stopped ∉ q → life fsm st sb term es ds q
| life_eps : fsm = NN_FSM_STATE_STOPPING → st = NN_SOCK_STATE_STOPPING_EPS →
    is_Some sb → term = 0 → SE_sock_stopped ∉ q → es = [] → ds ≠ [] → life fsm st sb term es ds q
| life_protocol : fsm = NN_FSM_STATE_STOPPING → st = NN_SOCK_STATE_STOPPING →
    is_Some sb → term = 0 → is_Some (proto_stop (St := St)) → es = [] → ds = [] → life fsm st sb term es ds q
| life_fini : fsm = NN_FSM_STATE_STOPPING → st = NN_SOCK_STATE_FINI →
    sb = None → term = 1 → SE_sock_stopped ∉ q → es = [] → ds = [] → life fsm st sb term es ds q.

(** The threads that use the socket. *)
Definition holds_ok (fsm holds relesem : Z) : Prop :=
  0 ≤ holds ∧ relesem = (if holds =? 0 then 1 else 0) ∧ (fsm = NN_FSM_STATE_ACTIVE → 0 < holds).

(** While the socket is active, [fd] is signalled exactly when [flag] is set. *)
Definition fd_ok (no : bool) (fd : option nn_efd) (flags flag st : Z) : Prop :=
  no = false → ∃ f, fd = Some f ∧ 0 ≤ efd_count f ≤ 2 ∧
    (st = NN_SOCK_STATE_ACTIVE → 0 ≤ efd_fd f ∧ efd_count f = if has_flag flags flag then 1 else 0).

Definition fds_ok (k : nn_sock) : Prop :=
  0 ≤ sk_flags k < 4 ∧
  fd_ok (has_flag (st_flags (socktype k)) NN_SOCKTYPE_FLAG_NORECV) (rcvfd k) (sk_flags k) NN_SOCK_FLAG_IN (sk_state k) ∧
  fd_ok (has_flag (st_flags (socktype k)) NN_SOCKTYPE_FLAG_NOSEND) (sndfd k) (sk_flags k) NN_SOCK_FLAG_OUT (sk_state k).

(** The flags say what the protocol can do. *)
Definition flags_true (k : nn_sock) (sb : St) : Prop :=
  let ev := proto_events (W := psys (TW := TW)) (M := M) sb in
  (has_flag (st_flags (socktype k)) NN_SOCKTYPE_FLAG_NORECV = false →
     has_flag (sk_flags k) NN_SOCK_FLAG_IN = has_flag ev NN_SOCKBASE_EVENT_IN) ∧
  (has_flag (st_flags (socktype k)) NN_SOCKTYPE_FLAG_NOSEND = false →
     has_flag (sk_flags k) NN_SOCK_FLAG_OUT = has_flag ev NN_SOCKBASE_EVENT_OUT).

Record sock_inv (s : sys) : Prop := {
  si_life : life (sk_fsm (sock s)) (sk_state (sock s)) (sockbase (sock s)) (termsem (sock s))
              (eps (sock s)) (sdeps (sock s)) (evq s);
  si_holds : holds_ok (sk_fsm (sock s)) (holds (sock s)) (relesem (sock s));
  si_opts : opts_ok (sk_opts (sock s));
  si_fds : fds_ok (sock s);
  si_eps : eps_ok (eps (sock s)) (sdeps (sock s)) (epmem s) (evq s) (powner s);
  si_ids : ids_ok (epmem s) (sk_eid (sock s)) (current_ep_errors (statistics (sock s)));
  si_pipes : pipes_ok (world s) (attached s) (powner s) (epmem s) (evq s) (current_connections (statistics (sock s)));
  si_proto sb : sockbase (sock s) = Some sb → proto_inv sb (world s) (attached s);
  si_idle : locked s = false → evq s = [] ∧
    (sk_state (sock s) = NN_SOCK_STATE_ACTIVE → ∀ sb, sockbase (sock s) = Some sb → flags_true (sock s) sb);
}.

End inv.

(** ** Steps of the endpoints *)
Section endpoints.
Context (es ds : list positive) (em : gmap positive nn_ep) (q : list sock_ev) (own : gmap pid positive).
Hypothesis Hok : eps_ok es ds em q own.

(** A step that concerns endpoint [e] only. *)
Lemma eps_ok_at es' ds' em' q' own' e :
  NoDup (es' ++ ds') → events_nodup q' →
  (∀ e', e' ≠ e → (e' ∈ es ↔ e' ∈ es') ∧ (e' ∈ ds ↔ e' ∈ ds') ∧ em' !! e' = em !! e' ∧
     (SE_ep_action e' ∈ q ↔ SE_ep_action e' ∈ q') ∧ (SE_ep_stopped e' ∈ q ↔ SE_ep_stopped e' ∈ q') ∧
     ∀ p, own' !! p = Some e' → own !! p = Some e') →
  (e ∈ es' ++ ds' → is_Some (em' !! e)) →
  (∀ ep, em' !! e = Some ep → ep_ok es' ds' q' e ep) →
  (SE_ep_action e ∈ q' ∨ SE_ep_stopped e ∈ q' → e ∈ ds' ∧ ∀ p, own' !! p ≠ Some e) →
  eps_ok es' ds' em' q' own'.
Proof.
  intros Hnd Hq Hf Hm He Hev. destruct Hok as [_ Hm0 He0 Hev0 _]. split; [done| | | |done].
  - intros e' He'. destruct (decide (e' = e)) as [->|Hne]; [by apply Hm|].
    destruct (Hf e' Hne) as (? & ? & -> & _). apply Hm0. set_solver.
  - intros e' ep He'. destruct (decide (e' = e)) as [->|Hne]; [by apply He|].
    destruct (Hf e' Hne) as (? & ? & E & ? & ? & _). rewrite E in He'. by eapply ep_ok_frame; [by apply He0|..].
  - intros e' He'. destruct (decide (e' = e)) as [->|Hne]; [by apply Hev|].
    destruct (Hf e' Hne) as (? & ? & _ & ? & ? & Hown). destruct (Hev0 e') as [? Hno]; [tauto|].
    split; [tauto|]. intros p Hp. by apply (Hno p), Hown.
Qed.

(** The events of endpoints stay as they are. *)
Lemma eps_ok_queue q' :
  (∀ e, (SE_ep_action e ∈ q ↔ SE_ep_action e ∈ q') ∧ (SE_ep_stopped e ∈ q ↔ SE_ep_stopped e ∈ q')) →
  events_nodup q' → eps_ok es ds em q' own.
Proof.
  intros Hq Hnd. destruct Hok as [Hnd0 Hm0 He0 Hev0 _]. split; [done|done| | |done].
  - intros e ep He. by eapply ep_ok_frame; [by apply He0|done|done|apply Hq|apply Hq].
  - intros e He. apply Hev0. destruct (Hq e). tauto.
Qed.

Lemma eps_fresh e : em !! e = None → e ∉ es ∧ e ∉ ds ∧ SE_ep_action e ∉ q ∧ SE_ep_stopped e ∉ q.
Proof.
  intros He. destruct Hok as [_ Hm _ Hev _].
  assert (e ∉ es ++ ds) as Hn by (intros ?%Hm%eq_None_not_Some; done).
  split_and!; [set_solver|set_solver|intros Hq..]; destruct (Hev e) as [? _]; auto; set_solver.
Qed.

Lemma eps_exclusive e : e ∈ es → e ∉ ds.
Proof. destruct Hok as [Hnd _ _ _ _]. apply NoDup_app in Hnd as (_ & Hd & _). apply Hd. Qed.

Lemma eps_active e : e ∈ es → ∃ ep, em !! e = Some ep ∧ ep_fsm ep = NN_FSM_STATE_ACTIVE ∧
  ep_state ep = NN_EP_STATE_ACTIVE ∧ SE_ep_action e ∉ q ∧ SE_ep_stopped e ∉ q.
Proof.
  intros He. pose proof (eps_exclusive e He). destruct (eo_mem _ _ _ _ _ Hok e) as [ep Hep]; [set_solver|].
  exists ep. destruct (eo_ep _ _ _ _ _ Hok e ep Hep) as (_ & _ & [?|[?|?]]); tauto.
Qed.

(** [nn_sock_add_ep] *)
Lemma eps_ok_add e ep :
  em !! e = None → ep_fsm ep = NN_FSM_STATE_ACTIVE → ep_state ep = NN_EP_STATE_ACTIVE →
  prio_ok (sndprio (ep_opts ep)) → prio_ok (rcvprio (ep_opts ep)) →
  eps_ok (es ++ [e]) ds (<[e := ep]> em) q own.
Proof.
  intros He ????. destruct (eps_fresh e He) as (Hn1 & Hn2 & Hn3 & Hn4).
  apply (eps_ok_at _ _ _ _ _ e); [|apply Hok| |by rewrite lookup_insert_eq| |tauto].
  - rewrite <- app_assoc. apply NoDup_middle_2; [apply Hok|done|done].
  - intros e' Hne. rewrite lookup_insert_ne by done. set_solver.
  - rewrite lookup_insert_eq. intros ep' [= <-]. unfold ep_ok. set_solver.
Qed.

(** [nn_sock_rm_ep], and the loop of [nn_sock_shutdown] *)
Lemma eps_ok_stop e ep ep' :
  e ∈ es → em !! e = Some ep → ep_opts ep' = ep_opts ep →
  ep_fsm ep' = NN_FSM_STATE_STOPPING → ep_state ep' = NN_EP_STATE_STOPPING →
  eps_ok (filter (λ x, x ≠ e) es) (ds ++ [e]) (<[e := ep']> em) q own.
Proof.
  intros He Hep Ho ??. pose proof (eps_exclusive e He). destruct (eps_active e He) as (? & ? & _ & _ & Hn1 & Hn2).
  simplify_eq. destruct (eo_ep _ _ _ _ _ Hok e ep Hep) as (Hp1 & Hp2 & _).
  apply (eps_ok_at _ _ _ _ _ e); [|apply Hok| |by rewrite lookup_insert_eq| |tauto].
  - pose proof (eo_nodup _ _ _ _ _ Hok) as Hnd. apply NoDup_app in Hnd as (Hnd1 & Hnd2 & Hnd3).
    apply NoDup_app. split_and!; [by apply NoDup_filter| |apply NoDup_app; split_and!; [done|set_solver|apply NoDup_singleton]].
    intros x Hx. apply list_elem_of_filter in Hx as [? ?]. set_solver.
  - intros e' Hne. rewrite lookup_insert_ne by done. rewrite list_elem_of_filter. set_solver.
  - rewrite lookup_insert_eq. intros ? [= <-]. unfold ep_ok. rewrite Ho. set_solver.
Qed.

(** [nn_ep_set_error] and [nn_ep_clear_error] *)
Lemma eps_ok_same e ep ep' :
  em !! e = Some ep → ep_opts ep' = ep_opts ep → ep_fsm ep' = ep_fsm ep → ep_state ep' = ep_state ep →
  eps_ok es ds (<[e := ep']> em) q own.
Proof.
  intros Hep Ho Hf Hs. apply (eps_ok_at _ _ _ _ _ e); [apply Hok|apply Hok| |by rewrite lookup_insert_eq| |apply Hok].
  - intros e' Hne. by rewrite lookup_insert_ne.
  - rewrite lookup_insert_eq. intros ? [= <-]. pose proof (eo_ep _ _ _ _ _ Hok e ep Hep). unfold ep_ok in *.
    by rewrite Ho, Hf, Hs.
Qed.

End endpoints.

Lemma events_nodup_snoc q ev : events_nodup q → ev ∉ q → events_nodup (q ++ [ev]).
Proof.
  unfold events_nodup. intros Hq Hn. rewrite filter_app, filter_cons. case_decide; [|by rewrite app_nil_r].
  apply NoDup_app. split_and!; [done| |apply NoDup_singleton].
  intros x [_ Hx]%list_elem_of_filter ->%list_elem_of_singleton. done.
Qed.

Lemma events_nodup_pipes q n : events_nodup q → events_nodup (q ++ replicate n SE_pipe).
Proof.
  unfold events_nodup. intros Hq. rewrite filter_app.
  assert (filter (λ ev, ev ≠ SE_pipe) (replicate n SE_pipe) = []) as ->; [|by rewrite app_nil_r].
  induction n as [|n IH]; [done|]. cbn [replicate]. rewrite filter_cons_False by tauto. done.
Qed.

Lemma events_nodup_cons q ev : events_nodup (ev :: q) → events_nodup q ∧ (ev ≠ SE_pipe → ev ∉ q).
Proof.
  unfold events_nodup. rewrite filter_cons. case_decide as Hd; [|done].
  rewrite NoDup_cons, list_elem_of_filter. tauto.
Qed.

(** *** Dispatching the events of endpoints *)
Section dispatch.
Context (es ds : list positive) (em : gmap positive nn_ep) (q : list sock_ev) (own : gmap pid positive) (e : positive).

(** The first event, which the endpoint handles itself. *)
Lemma eps_ok_action :
  eps_ok es ds em (SE_ep_action e :: q) own →
  ∃ ep, em !! e = Some ep ∧ ep_fsm ep = NN_FSM_STATE_STOPPING ∧ ep_state ep = NN_EP_STATE_STOPPING ∧
    SE_ep_action e ∉ q ∧ SE_ep_stopped e ∉ q ∧
    ∀ ep', ep_opts ep' = ep_opts ep → ep_fsm ep' = NN_FSM_STATE_IDLE → ep_state ep' = NN_EP_STATE_IDLE →
      eps_ok es ds (<[e := ep']> em) (q ++ [SE_ep_stopped e]) own.
Proof.
  intros Hok. destruct (eo_event _ _ _ _ _ Hok e) as [Hds Hown]; [left; set_solver|].
  destruct (eo_mem _ _ _ _ _ Hok e) as [ep Hep]; [set_solver|]. exists ep.
  destruct (eo_ep _ _ _ _ _ Hok e ep Hep) as (Hp1 & Hp2 & Hst).
  destruct (events_nodup_cons _ _ (eo_once _ _ _ _ _ Hok)) as [Hnd Hn]. specialize (Hn ltac:(done)).
  destruct Hst as [(_ & _ & _ & Hx & _)|[(_ & ? & ? & Hn2)|(_ & _ & _ & _ & Hx)]]; [set_solver| |set_solver].
  split_and!; try done; [set_solver|]. intros ep' Ho ??.
  eapply (eps_ok_at _ _ _ _ _ Hok _ _ _ _ _ e); [apply Hok| | |by rewrite lookup_insert_eq| |by auto].
  - apply events_nodup_snoc; [done|set_solver].
  - intros e' Hne. rewrite lookup_insert_ne by done. set_solver.
  - rewrite lookup_insert_eq. intros ? [= <-]. unfold ep_ok. rewrite Ho. set_solver.
Qed.

(** The second one, after which the socket frees the endpoint. *)
Lemma eps_ok_gone :
  eps_ok es ds em (SE_ep_stopped e :: q) own →
  ∃ ep, em !! e = Some ep ∧ ep_fsm ep = NN_FSM_STATE_IDLE ∧ ep_state ep = NN_EP_STATE_IDLE ∧
    e ∈ ds ∧ e ∉ es ∧ SE_ep_action e ∉ q ∧ SE_ep_stopped e ∉ q ∧ (∀ p, own !! p ≠ Some e) ∧
    eps_ok es (filter (λ x, x ≠ e) ds) (delete e em) q own.
Proof.
  intros Hok. destruct (eo_event _ _ _ _ _ Hok e) as [Hds Hown]; [right; set_solver|].
  destruct (eo_mem _ _ _ _ _ Hok e) as [ep Hep]; [set_solver|]. exists ep.
  destruct (eo_ep _ _ _ _ _ Hok e ep Hep) as (_ & _ & Hst).
  destruct (events_nodup_cons _ _ (eo_once _ _ _ _ _ Hok)) as [Hnd Hn]. specialize (Hn ltac:(done)).
  assert (e ∉ es) as Hes by (intros Hx; by apply (eps_exclusive _ _ _ _ _ Hok e Hx)).
  destruct Hst as [(? & _)|[(_ & _ & _ & Hx)|(_ & ? & ? & _ & Hx)]]; [done|set_solver|].
  split_and!; try done; [set_solver|].
  eapply (eps_ok_at _ _ _ _ _ Hok _ _ _ _ _ e); [| done| | | |].
  - pose proof (eo_nodup _ _ _ _ _ Hok) as Hx1. apply NoDup_app in Hx1 as (H1 & H2 & H3).
    apply NoDup_app. split_and!; [done| |by apply NoDup_filter].
    intros x Hx1 [_ Hx2]%list_elem_of_filter. by apply (H2 x).
  - intros e' Hne. rewrite lookup_delete_ne by done. rewrite list_elem_of_filter. set_solver.
  - rewrite elem_of_app, list_elem_of_filter. tauto.
  - by rewrite lookup_delete_eq.
  - set_solver.
Qed.

End dispatch.

(** ** Steps of the pipes *)
Section pipes.
Context {St TW M : Type} `{TransportFinite TW M} `{!Proto St (psys (TW := TW)) M}.
Notation psys := (psys (TW := TW)).
Notation pipes_ok := (pipes_ok (St := St) (M := M)).

Lemma pipe_tokens_app q q' : pipe_tokens (q ++ q') = (pipe_tokens q + pipe_tokens q')%nat.
Proof. unfold pipe_tokens. by rewrite filter_app, length_app. Qed.

Lemma pipe_tokens_replicate n : pipe_tokens (replicate n SE_pipe) = n.
Proof. unfold pipe_tokens. induction n as [|n IH]; [done|]. cbn [replicate]. rewrite filter_cons_True by done. cbn. lia. Qed.

Lemma core_active (w : psys) p : core_inv w → p ∈ can_out w ∨ p ∈ can_in w ∨ (∃ ty, (p, ty) ∈ events (pw w)) →
  ∃ b, bases (pw w) !! p = Some b ∧ pstate b = NN_PIPEBASE_STATE_ACTIVE.
Proof.
  intros (full & Hf & E & Ho & Hi) Hp. rewrite <- E in *. destruct Hp as [Hp|[Hp|[ty Hp]]].
  - destruct (known_active full p Hf) as [b Hb]; [left; set_solver|]. by exists b.
  - destruct (known_active full p Hf) as [b Hb]; [right; set_solver|]. by exists b.
  - pose proof (pi_pipe _ Hf p) as Hok. unfold pipe_ok in Hok.
    destruct (bases (pw full) !! p) as [b|]; [case_decide|]; [by exists b| |]; naive_solver.
Qed.

(** An event is taken from the queue: the protocol may be told. *)
Lemma core_dispatch (w : psys) p ty evs (w0 := PSys (PWorld (bases (pw w)) evs (tworld (pw w))) (can_out w) (can_in w)) :
  core_inv w → events (pw w) = (p, ty) :: evs →
  core_inv w0 ∧
  (ty = NN_PIPE_IN ∧ core_inv (told_in p w0) ∧ p ∉ can_in w ∨
   ty = NN_PIPE_OUT ∧ core_inv (told_out p w0) ∧ p ∉ can_out w).
Proof.
  intros Hi Ee. destruct Hi as (full & Hf & E & Ho & Hi).
  assert ((p, ty) ∈ events (pw full)) as Hin by (rewrite E, Ee; apply elem_of_cons; by left).
  destruct (step_dispatch full Hf) as (full' & Es & Hf'); [cbn; by rewrite E, Ee|].
  cbn in Es. rewrite E, Ee in Es. pose proof (pi_pipe _ Hf p) as Hok. unfold pipe_ok, half_ok in Hok.
  assert (¬ (p ∈ can_in full ∧ (p, NN_PIPE_IN) ∈ events (pw full)) ∧ ¬ (p ∈ can_out full ∧ (p, NN_PIPE_OUT) ∈ events (pw full))) as [Hx1 Hx2].
  { destruct (bases (pw full) !! p); [case_decide|]; tauto. }
  assert (∀ co ci, co ⊆ can_out full' → ci ⊆ can_in full' →
    core_inv (PSys (PWorld (bases (pw w)) evs (tworld (pw w))) co ci)) as Hk.
  { intros co ci ??. exists full'. split_and!; try done. by destruct (ty =? NN_PIPE_OUT); injection Es as <-. }
  destruct (pi_events _ Hf _ _ Hin) as [-> | ->]; injection Es as <-; cbn in *;
    (split; [apply Hk; set_solver|]); [left|right]; split_and!; try done; [apply Hk|..|apply Hk|]; set_solver.
Qed.

(** A connection: [rc] is what the socket answers. *)
Definition started (w : pworld TW) p b rc : pworld TW :=
  PWorld (<[p := Pipebase (if rc <? 0 then NN_PIPEBASE_STATE_FAILED else NN_PIPEBASE_STATE_ACTIVE)
                   IN_ASYNC OUT_IDLE (pipedata b) (poptions b)]> (bases w))
    (if rc <? 0 then events w else events w ++ [(p, NN_PIPE_OUT)]) (tworld w).

Lemma pipebase_start_eq {X} (sock_add : X → pid → outcome (X * Z)) x (w : pworld TW) p b x' rc :
  bases w !! p = Some b → pstate b = NN_PIPEBASE_STATE_IDLE → (p, NN_PIPE_OUT) ∉ events w →
  sock_add x p = Ret (x', rc) →
  nn_pipebase_start sock_add x w p = Ret (x', started w p b rc, if rc <? 0 then rc else 0).
Proof.
  intros Hb Hst Hev Hadd. unfold nn_pipebase_start, get_base. rewrite Hb. step. rewrite Hst. step.
  rewrite Z.eqb_refl. step. rewrite Hadd. step. unfold started. destruct (rc <? 0).
  - unfold set_base. cbn [bases events tworld]. rewrite lookup_insert_eq. step. cbn. by rewrite insert_insert_eq.
  - rewrite raise_ok by done. step. reflexivity.
Qed.

Lemma core_start (w : psys) p o rc (w0 := nn_pipebase_init (pw w) p None o) b :
  core_inv w → bases (pw w) !! p = None → bases w0 !! p = Some b →
  core_inv (PSys (started w0 p b rc) (can_out w) (can_in w)) ∧ (p, NN_PIPE_OUT) ∉ events (pw w) ∧
  p ∉ can_out w ∧ p ∉ can_in w.
Proof.
  intros Hi Hp Hb. assert (¬ (p ∈ can_out w ∨ p ∈ can_in w ∨ ∃ ty, (p, ty) ∈ events (pw w))) as Hn.
  { intros Hx. destruct (core_active w p Hi Hx) as (? & ? & _). congruence. }
  assert ((p, NN_PIPE_OUT) ∉ events (pw w)) as Hn' by eauto 6.
  split; [|split_and!; eauto].
  eapply (core_lift w (A_start p rc o) (λ w, PSys _ (can_out w) (can_in w))); [done|].
  intros full Hf E Ho Hi'. split; [cbn; congruence|]. intros full'. cbn. rewrite E.
  rewrite (pipebase_start_eq _ tt w0 p b tt rc); [|done| |done|done].
  - step. intros [= <-]. cbn. done.
  - unfold w0, nn_pipebase_init, set_base in Hb. cbn in Hb. rewrite lookup_insert_eq in Hb. by injection Hb as <-.
Qed.

(** A disconnection. *)
Definition stopped (w : pworld TW) p : pworld TW := PWorld (delete p (bases w)) (events w) (tworld w).

Lemma pipebase_stop_eq {X} (sock_rm : X → pid → outcome X) x (w : pworld TW) p b x' :
  bases w !! p = Some b →
  (if pstate b =? NN_PIPEBASE_STATE_ACTIVE then sock_rm x p else Ret x) = Ret x' →
  ∃ w', nn_pipebase_stop sock_rm x w p = Ret (x', w') ∧ nn_pipebase_term w' p = Ret (stopped w p).
Proof.
  intros Hb Hrm. unfold nn_pipebase_stop, get_base. rewrite Hb. step. rewrite Hrm. step.
  eexists. split; [done|]. unfold nn_pipebase_term, get_base, set_base. cbn. rewrite lookup_insert_eq. step.
  cbn. by rewrite delete_insert_eq.
Qed.

Lemma core_stop (w : psys) p :
  core_inv w → is_Some (bases (pw w) !! p) → (p, NN_PIPE_OUT) ∉ events (pw w) → (p, NN_PIPE_IN) ∉ events (pw w) →
  core_inv (PSys (stopped (pw w) p) (can_out w ∖ {[p]}) (can_in w ∖ {[p]})).
Proof.
  intros Hi [b Hb] Ho Hn.
  eapply (core_lift w (A_stop p) (λ w, PSys _ (can_out w ∖ {[p]}) (can_in w ∖ {[p]}))); [done|].
  intros full Hf E Ho' Hi'. split; [cbn; rewrite E; eauto|]. intros full'. cbn. rewrite E.
  destruct (pipebase_stop_eq (λ x _, Ret x) tt (pw w) p b tt) as (w' & -> & Ht); [done|by case_match|].
  step. rewrite Ht. step. intros [= <-]. cbn. set_solver.
Qed.

(** Completions and arrivals. *)
Lemma core_sent (w : psys) p b :
  core_inv w → bases (pw w) !! p = Some b → pstate b = NN_PIPEBASE_STATE_ACTIVE → outstate b = OUT_ASYNC →
  let w' := PWorld (<[p := set_out b OUT_IDLE]> (bases (pw w))) (events (pw w) ++ [(p, NN_PIPE_OUT)]) (tworld (pw w)) in
  nn_pipebase_sent (pw w) p = Ret w' ∧ core_inv (PSys w' (can_out w) (can_in w)).
Proof.
  intros Hi Hb Ha Ho w'. assert (nn_pipebase_sent (pw w) p = Ret w') as E.
  { destruct Hi as (full & Hf & E & _). rewrite <- E in Hb.
    pose proof (active_ok _ _ _ Hf (conj Hb Ha)) as [(_ & Hh & _) _]. rewrite E, Ho in *.
    unfold nn_pipebase_sent, get_base. rewrite Hb. step. rewrite decide_False, bool_decide_eq_true_2 by congruence.
    step. rewrite raise_ok; [done|]. cbn. intros Hx. by assert (OUT_ASYNC = OUT_IDLE) by tauto. }
  split; [done|]. eapply (core_lift w (A_sent p) (λ w, PSys w' (can_out w) (can_in w))); [done|].
  intros full Hf Ef Ho' Hi'. split; [exists b; unfold active; by rewrite Ef|]. intros full'. cbn. rewrite Ef, E.
  step. by intros [= <-].
Qed.

Lemma core_received (w : psys) p b :
  core_inv w → bases (pw w) !! p = Some b → pstate b = NN_PIPEBASE_STATE_ACTIVE → instate b = IN_ASYNC →
  let w' := PWorld (<[p := set_in b IN_IDLE]> (bases (pw w))) (events (pw w) ++ [(p, NN_PIPE_IN)]) (tworld (pw w)) in
  nn_pipebase_received (pw w) p = Ret w' ∧ core_inv (PSys w' (can_out w) (can_in w)).
Proof.
  intros Hi Hb Ha Ho w'. assert (nn_pipebase_received (pw w) p = Ret w') as E.
  { destruct Hi as (full & Hf & E & _). rewrite <- E in Hb.
    pose proof (active_ok _ _ _ Hf (conj Hb Ha)) as [_ (_ & Hh & _)]. rewrite E, Ho in *.
    unfold nn_pipebase_received, get_base. rewrite Hb. step. rewrite decide_False, bool_decide_eq_true_2 by congruence.
    step. rewrite raise_ok; [done|]. cbn. intros Hx. by assert (IN_ASYNC = IN_IDLE) by tauto. }
  split; [done|]. eapply (core_lift w (A_received p) (λ w, PSys w' (can_out w) (can_in w))); [done|].
  intros full Hf Ef Ho' Hi'. split; [exists b; unfold active; by rewrite Ef|]. intros full'. cbn. rewrite Ef, E.
  step. by intros [= <-].
Qed.

(** *** The pipes of the socket *)

Lemma pstate_same (o o' : option nn_pipebase) : pstate <$> o' = pstate <$> o →
  ((∃ b, o = Some b ∧ pstate b = NN_PIPEBASE_STATE_ACTIVE) ↔ (∃ b, o' = Some b ∧ pstate b = NN_PIPEBASE_STATE_ACTIVE)) ∧
  (is_Some o ↔ is_Some o').
Proof.
  destruct o as [b|], o' as [b'|]; cbn; intros E; try done. injection E as E. split; [|by split; eexists].
  split; intros (? & [= <-] & ?); eexists; split; (done || congruence).
Qed.

(** Only what the protocol may use changes, or what the pipes hold. *)
Lemma pipes_ok_world w w' att own em q conn :
  pipes_ok w att own em q conn → core_inv w' → events (pw w') = events (pw w) →
  (∀ p, pstate <$> bases (pw w') !! p = pstate <$> bases (pw w) !! p) → pipes_ok w' att own em q conn.
Proof.
  intros [Hw Ha Ho He Ht Hc Hh] Hw' Ee Ep. split; try done.
  - intros p. rewrite Ha. apply pstate_same, Ep.
  - intros p. rewrite Ho. apply pstate_same, Ep.
  - by rewrite Ee.
  - intros p. rewrite Ee. apply Hh.
Qed.

Lemma pipes_ok_eps w att own em em' q q' conn :
  pipes_ok w att own em q conn → (∀ e, is_Some (em !! e) → is_Some (em' !! e) ∨ ∀ p, own !! p ≠ Some e) →
  pipe_tokens q' = pipe_tokens q → pipes_ok w att own em' q' conn.
Proof.
  intros [Hw Ha Ho He Ht Hc Hh] Hem Hq. split; try done.
  - intros p e Hp. destruct (Hem e (He _ _ Hp)) as [?|Hn]; [done|]. by destruct (Hn p).
  - congruence.
Qed.

Lemma pipes_ok_dispatch w att own em q conn :
  pipes_ok w att own em (SE_pipe :: q) conn →
  ∃ p ty evs, events (pw w) = (p, ty) :: evs ∧ p ∈ att ∧
    let w0 := PSys (PWorld (bases (pw w)) evs (tworld (pw w))) (can_out w) (can_in w) in
    pipes_ok w0 att own em q conn ∧
    (ty = NN_PIPE_IN ∧ core_inv (told_in p w0) ∧ p ∉ can_in w ∧
       proto_hears (St := St) (W := psys) (M := M) = true ∨
     ty = NN_PIPE_OUT ∧ core_inv (told_out p w0) ∧ p ∉ can_out w).
Proof.
  intros [Hw Ha Ho He Ht Hc Hh]. destruct (events (pw w)) as [|[p ty] evs] eqn:Ee.
  { exfalso. unfold pipe_tokens in Ht. rewrite filter_cons_True in Ht by done. cbn in Ht. lia. }
  exists p, ty, evs. split; [done|]. split.
  { apply Ha, core_active; [done|]. right; right. exists ty. rewrite Ee. set_solver. }
  destruct (core_dispatch w p ty evs Hw Ee) as [Hw0 Hcase]. split.
  - split; cbn; try done.
    + unfold pipe_tokens in *. rewrite filter_cons_True in Ht by done. cbn in Ht. lia.
    + intros p' Hp'. apply (Hh p'). set_solver.
  - destruct Hcase as [(-> & ? & ?)|?]; [left|by right]. split_and!; try done. apply (Hh p). set_solver.
Qed.

Lemma pipes_ok_start w att own em q conn p e o b rc (w0 := nn_pipebase_init (pw w) p None o) :
  pipes_ok w att own em q conn → bases (pw w) !! p = None → bases w0 !! p = Some b → is_Some (em !! e) →
  rc ≤ 0 → Z.of_nat (size att) + 2 < INT_MAX →
  pipes_ok (PSys (started w0 p b rc) (can_out w) (can_in w)) (if rc =? 0 then {[p]} ∪ att else att)
    (<[p := e]> own) em (q ++ replicate (if rc <? 0 then 0 else 1) SE_pipe) (if rc =? 0 then conn + 1 else conn).
Proof.
  intros [Hw Ha Ho He Ht Hc Hh] Hp Hb Hem Hrc Hsz.
  destruct (core_start w p o rc b Hw Hp Hb) as (Hw' & Hne & Hno & Hni).
  assert (p ∉ att) as Hna by (intros (? & ? & _)%Ha; congruence).
  assert ((rc =? 0) = negb (rc <? 0)) as Erc.
  { destruct (Z.eqb_spec rc 0), (Z.ltb_spec rc 0); try done; lia. }
  split; [done|..].
  - intros p'. unfold started, w0, nn_pipebase_init, set_base. cbn. rewrite insert_insert_eq, Erc.
    destruct (decide (p' = p)) as [->|Hne'].
    + rewrite lookup_insert_eq. destruct (rc <? 0); cbn; [|set_solver by eauto].
      split; [done|]. intros (? & [= <-] & [=]).
    + rewrite lookup_insert_ne by done. rewrite <- Ha. destruct (negb _); set_solver.
  - intros p'. unfold started, w0, nn_pipebase_init, set_base. cbn. rewrite insert_insert_eq.
    destruct (decide (p' = p)) as [->|]; [by rewrite !lookup_insert_eq|by rewrite !lookup_insert_ne].
  - intros p' e' [[-> ->]|[_ ?]]%lookup_insert_Some; [done|by eapply He].
  - rewrite pipe_tokens_app, pipe_tokens_replicate, Ht. unfold started, w0. cbn.
    destruct (rc <? 0); [lia|]. rewrite length_app. cbn. lia.
  - destruct Hc as [-> ?]. rewrite Erc. destruct (rc <? 0); cbn; [done|].
    rewrite size_union by set_solver. rewrite size_singleton. lia.
  - intros p'. unfold started, w0. cbn. destruct (rc <? 0); [apply Hh|]. rewrite elem_of_snoc.
    intros [?|[=]]. by eapply Hh.
Qed.

Lemma pipes_ok_stop w att own em q conn p b :
  pipes_ok w att own em q conn → bases (pw w) !! p = Some b →
  (p, NN_PIPE_OUT) ∉ events (pw w) → (p, NN_PIPE_IN) ∉ events (pw w) →
  pipes_ok (PSys (stopped (pw w) p) (can_out w ∖ {[p]}) (can_in w ∖ {[p]})) (att ∖ {[p]}) (delete p own) em q
    (if pstate b =? NN_PIPEBASE_STATE_ACTIVE then conn - 1 else conn).
Proof.
  intros [Hw Ha Ho He Ht Hc Hh] Hb Hno Hni. split; cbn; try done.
  - apply core_stop; eauto.
  - intros p'. destruct (decide (p' = p)) as [->|Hne].
    + rewrite lookup_delete_eq. split; [set_solver|]. naive_solver.
    + rewrite lookup_delete_ne by done. rewrite <- Ha. set_solver.
  - intros p'. destruct (decide (p' = p)) as [->|]; [by rewrite !lookup_delete_eq|by rewrite !lookup_delete_ne].
  - intros p' e' [? ?]%lookup_delete_Some. by eapply He.
  - destruct Hc as [-> ?]. destruct (Z.eqb_spec (pstate b) NN_PIPEBASE_STATE_ACTIVE) as [Hp|Hp].
    + assert (p ∈ att) as Hp' by (apply Ha; eauto). rewrite size_difference by set_solver.
      rewrite size_singleton. assert (size att ≠ 0%nat); [|lia]. rewrite size_non_empty_iff. set_solver.
    + assert (p ∉ att) by (intros (? & ? & ?)%Ha; congruence).
      replace (att ∖ {[p]}) with att by set_solver. done.
Qed.

(** A half becomes idle, and its event is queued. *)
Lemma pipes_ok_event w att own em q conn p ty b b' w' :
  pipes_ok w att own em q conn → bases (pw w) !! p = Some b → pstate b' = pstate b →
  w' = PWorld (<[p := b']> (bases (pw w))) (events (pw w) ++ [(p, ty)]) (tworld (pw w)) →
  core_inv (PSys w' (can_out w) (can_in w)) →
  (ty = NN_PIPE_IN → proto_hears (St := St) (W := psys) (M := M) = true) →
  pipes_ok (PSys w' (can_out w) (can_in w)) att own em (q ++ [SE_pipe]) conn.
Proof.
  intros [Hw Ha Ho He Ht Hc Hh] Hb Hp -> Hw' Hty. pose proof (λ q, lookup_insert_pstate _ _ q _ _ Hb Hp) as Hps.
  split; cbn; try done.
  - intros p'. rewrite Ha. apply pstate_same, Hps.
  - intros p'. rewrite Ho. apply pstate_same, Hps.
  - rewrite pipe_tokens_app, length_app, Ht. done.
  - intros p'. rewrite elem_of_snoc. intros [?|Heq]; [by eapply Hh|]. simplify_eq. by apply Hty.
Qed.
End pipes.
