(* ===== verification/SockSafe.v ===== *)
(** * Sockets are safe

    Every step of Sock.v and SockSys.v preserves the invariant of SockInv.v, so
    no assertion of core/sock.c and core/ep.c fires, whatever the interleaving.
    The last part draws the consequences: polling, closing, statistics. *)
From S2P Require Import Prelude NnList Priolist Pipe Msg Protocol Core Pair Frames Fsm SockState Sock SockOpt SockSys SockInv.

(** ** Event descriptors and flags *)

Lemma flags_cases f : 0 ≤ f < 4 → f = 0 ∨ f = 1 ∨ f = 2 ∨ f = 3.
Proof. lia. Qed.

Lemma adjust_fd_ok ev flag fd flags : 0 ≤ flags < 4 → flag = 1 ∨ flag = 2 → 0 ≤ efd_fd fd →
  efd_count fd = (if has_flag flags flag then 1 else 0) →
  ∃ fd' flags', adjust_fd ev flag (Some fd) flags = Ret (Some fd', flags') ∧ 0 ≤ flags' < 4 ∧
    efd_fd fd' = efd_fd fd ∧ efd_count fd' = (if has_flag flags' flag then 1 else 0) ∧
    has_flag flags' flag = ev ∧ ∀ o, o = 3 - flag → has_flag flags' o = has_flag flags o.
Proof.
  destruct fd as [fd n]. cbn [efd_fd efd_count]. intros Hf Hfl Hfd ->. unfold adjust_fd. step.
  unfold nn_efd_signal, nn_efd_unsignal. cbn [efd_fd efd_count]. rewrite (proj2 (Z.ltb_ge _ _)) by lia.
  destruct (flags_cases _ Hf) as [->|[->|[->| ->]]], Hfl as [->| ->], ev; cbn;
    eexists _, _; (split; [reflexivity|]); cbn;
    (split; [by vm_compute|]); split_and!; try done; by intros ? ->.
Qed.

(** ** Statistics *)

Lemma level_up c : 0 ≤ c < INT_MAX → stat_level c 1 = Ret (c + 1).
Proof.
  intros. unfold stat_level, INT_MAX in *. change (0 <? 1) with true. cbn [orb]. step. change ((1 <? 2 ^ 31 - 1) && (- (2 ^ 31 - 1) <? 1)) with true. step.
  unfold s32. rewrite Z.mod_small by lia. f_equal. lia.
Qed.

Lemma level_down c : 0 < c ≤ INT_MAX → stat_level c (-1) = Ret (c - 1).
Proof.
  intros. unfold stat_level, INT_MAX in *. rewrite (proj2 (Z.leb_le _ _)), orb_true_r by lia. step.
  change ((-1 <? 2 ^ 31 - 1) && (- (2 ^ 31 - 1) <? -1)) with true. step.
  unfold s32. rewrite Z.mod_small by lia. f_equal. lia.
Qed.

Lemma stat_counter st name inc : name ∈ counters → 0 < inc →
  ∃ st', nn_sock_stat_increment st name inc = Ret st' ∧ current_connections st' = current_connections st ∧
    current_ep_errors st' = current_ep_errors st.
Proof.
  intros Hn Hi. unfold counters in Hn. rewrite !elem_of_cons in Hn.
  repeat destruct Hn as [->|Hn]; [..|by apply not_elem_of_nil in Hn].
  all: unfold nn_sock_stat_increment; cbn; unfold stat_add, stat_add0; step;
    rewrite ?(proj2 (Z.ltb_lt _ _)), ?(proj2 (Z.leb_le _ _)) by lia; step; by eexists.
Qed.

Section safe.
Context {St OS TW M : Type} `{TransportFinite TW M} `{!Proto St (psys (TW := TW)) M}.
Context `{!ProtoOk St (psys (TW := TW)) M} `{!ProtoFrame St (psys (TW := TW)) M}.
Context `{!SockProto St} `{!SockProtoOk St TW M} `{!OptSets OS}.
Notation sys := (sys St OS TW).
Notation psys := (psys (TW := TW)).
Notation nn_sock := (nn_sock St OS).
Notation sock_inv := (sock_inv (St := St) (OS := OS) (M := M)).
Notation life := (life (St := St)).
Implicit Types s : sys.

Lemma sockbase_life fsm st sb sb' term es ds q :
  life fsm st (Some sb) term es ds q → life fsm st (Some sb') term es ds q.
Proof. intros [| | |]; [eapply life_active|eapply life_eps|eapply life_protocol|]; done. Qed.

(** The sub-invariants that a step leaves alone. *)
Ltac keep Hs := destruct Hs; split; cbn; try assumption.

Lemma env_refl (w w' : psys) : core_inv w' → tworld (pw w') = tworld (pw w) → env (M := M) w w'.
Proof. intros. split_and!; cbn; [done|congruence..]. Qed.

Lemma proto_core (sb : St) (w : psys) ps : proto_inv sb w ps → core_inv w.
Proof. intros Hp. exact (proto_inv_world _ _ _ Hp). Qed.

(** A call into the protocol: the pipes are as before, but for what the protocol
    sent, received and was told. *)
Lemma proto_call_gen s sb sb' w' :
  sock_inv s → locked s = true → sockbase (sock s) = Some sb →
  proto_inv sb' w' (attached s) → events (pw w') = events (pw (world s)) →
  (∀ p, pstate <$> bases (pw w') !! p = pstate <$> bases (pw (world s)) !! p) →
  sock_inv (set_world w' (on_sock (set_sockbase (Some sb')) s)).
Proof.
  intros Hs Hlk Hsb Hp Ee Eb. keep Hs.
  - rewrite Hsb in *. by eapply sockbase_life.
  - eapply pipes_ok_world; [eassumption| |done..]. by eapply proto_core.
  - by intros ? [= <-].
  - congruence.
Qed.

Lemma proto_call s sb sb' w' :
  sock_inv s → locked s = true → sockbase (sock s) = Some sb →
  proto_inv sb' w' (attached s) → moved (M := M) (world s) w' →
  sock_inv (set_world w' (on_sock (set_sockbase (Some sb')) s)).
Proof. intros ??? Hi Hm. destruct (moved_same _ _ Hm). by eapply proto_call_gen. Qed.

Lemma stopping_state fsm st sb term es ds q : life fsm st sb term es ds q →
  (st =? NN_SOCK_STATE_STOPPING_EPS) || (st =? NN_SOCK_STATE_STOPPING) || (st =? NN_SOCK_STATE_FINI) = false →
  is_Some sb ∧ st = NN_SOCK_STATE_ACTIVE ∧ fsm = NN_FSM_STATE_ACTIVE.
Proof. by intros [|? ->|? ->|? ->]. Qed.

Lemma send_try_ok s m fl :
  sock_inv s → locked s = true → proto_takes (St := St) (W := psys) m = true →
  ∃ s' r, nn_sock_send_try s m fl = Ret (s', r) ∧ sock_inv s' ∧ locked s' = true ∧ evq s' = evq s.
Proof.
  intros Hs Hlk Hm. unfold nn_sock_send_try. destruct (no_send s); [by eexists _, _|].
  destruct (_ || _ || _) eqn:Est; [by eexists _, _|].
  destruct (stopping_state _ _ _ _ _ _ _ (si_life _ Hs) Est) as ([sb Hsb] & _). rewrite Hsb. step.
  destruct (proto_send_ok _ _ _ m (si_proto _ Hs _ Hsb) Hm) as (sb' & w' & rc & E & Hrc & Hinv). rewrite E. step.
  pose proof (proto_call s sb sb' w' Hs Hlk Hsb Hinv (proto_send_moved _ _ _ _ _ _ E)) as Hs'.
  destruct (Z.eqb_spec rc 0); [by eexists _, _|]. rewrite (proj2 (Z.ltb_lt rc 0)) by lia. step.
  destruct (negb _); [by eexists _, _|]. by destruct (has_flag _ _); eexists _, _.
Qed.

Lemma recv_try_ok s fl :
  sock_inv s → locked s = true →
  ∃ s' r m, nn_sock_recv_try s fl = Ret (s', r, m) ∧ sock_inv s' ∧ locked s' = true ∧ evq s' = evq s.
Proof.
  intros Hs Hlk. unfold nn_sock_recv_try. destruct (no_recv s); [by eexists _, _, _|].
  destruct (_ || _ || _) eqn:Est; [by eexists _, _, _|].
  destruct (stopping_state _ _ _ _ _ _ _ (si_life _ Hs) Est) as ([sb Hsb] & _). rewrite Hsb. step.
  destruct (proto_recv_ok (S (pending (world s))) _ _ _ (si_proto _ Hs _ Hsb)) as (sb' & w' & rc & m & E & Hrc & Hinv); [lia|].
  rewrite E. step.
  pose proof (proto_call s sb sb' w' Hs Hlk Hsb Hinv (proto_recv_moved _ _ _ _ _ _ _ E)) as Hs'.
  destruct (Z.eqb_spec rc 0); [by eexists _, _, _|]. rewrite (proj2 (Z.ltb_lt rc 0)) by lia. step.
  destruct (negb _); [by eexists _, _, _|]. by destruct (has_flag _ _); eexists _, _, _.
Qed.

(** The double check sets a flag that is already set, unless the socket is being closed. *)
Lemma again_ok no flags flag st f :
  fd_ok no (Some f) flags flag st → no = false → flag = 1 ∨ flag = 2 → 0 ≤ flags < 4 → nn_efd_poll f = 0 →
  0 ≤ Z.lor flags flag < 4 ∧ (st = NN_SOCK_STATE_ACTIVE → Z.lor flags flag = flags).
Proof.
  intros Hfd Hno Hfl Hr Hpoll. destruct (Hfd Hno) as (? & [= <-] & Hc & Hact). split.
  - by destruct (flags_cases _ Hr) as [->|[->|[->| ->]]], Hfl as [->| ->].
  - intros Hst. destruct (Hact Hst) as [Hfd0 Hcnt]. unfold nn_efd_poll in Hpoll.
    rewrite (proj2 (Z.ltb_ge _ _)) in Hpoll by lia. rewrite Hcnt in Hpoll.
    by destruct (flags_cases _ Hr) as [->|[->|[->| ->]]], Hfl as [->| ->].
Qed.

Lemma fd_ok_flags no fd flags flags' flag st :
  fd_ok no fd flags flag st → (st = NN_SOCK_STATE_ACTIVE → flags' = flags) → fd_ok no fd flags' flag st.
Proof.
  intros Hfd He Hno. destruct (Hfd Hno) as (f & ? & ? & Hact). exists f. split_and!; try done; try lia.
  intros Hst. rewrite (He Hst). auto.
Qed.

Lemma flags_ok s fl :
  sock_inv s → locked s = true → 0 ≤ fl < 4 → (sk_state (sock s) = NN_SOCK_STATE_ACTIVE → fl = sk_flags (sock s)) →
  sock_inv (on_sock (set_sk_flags fl) s).
Proof.
  intros Hs Hlk Hr Hfl. keep Hs; [|congruence]. destruct si_fds as (_ & Hi & Ho).
  split; [exact Hr|]. split; cbn; eapply fd_ok_flags; eassumption.
Qed.

Lemma send_again_ok s :
  sock_inv s → locked s = true → no_send s = false →
  ∃ s', nn_sock_send_again s = Ret s' ∧ sock_inv s' ∧ locked s' = true ∧ evq s' = evq s.
Proof.
  intros Hs Hlk Hno. unfold nn_sock_send_again. destruct (si_fds _ Hs) as (Hr & _ & Ho).
  pose proof Ho as Ho'. destruct (Ho Hno) as (f & Ef & _). rewrite Ef in *. step.
  destruct (Z.eqb_spec (nn_efd_poll f) 0) as [Hpoll|]; [|by eexists].
  destruct (again_ok _ _ _ _ _ Ho' Hno (or_intror eq_refl) Hr Hpoll) as [Hr' Ha].
  eexists. split; [reflexivity|]. split; [|done]. by apply flags_ok.
Qed.

Lemma recv_again_ok s :
  sock_inv s → locked s = true → no_recv s = false →
  ∃ s', nn_sock_recv_again s = Ret s' ∧ sock_inv s' ∧ locked s' = true ∧ evq s' = evq s.
Proof.
  intros Hs Hlk Hno. unfold nn_sock_recv_again. destruct (si_fds _ Hs) as (Hr & Hi & _).
  pose proof Hi as Hi'. destruct (Hi Hno) as (f & Ef & _). rewrite Ef in *. step.
  destruct (Z.eqb_spec (nn_efd_poll f) 0) as [Hpoll|]; [|by eexists].
  destruct (again_ok _ _ _ _ _ Hi' Hno (or_introl eq_refl) Hr Hpoll) as [Hr' Ha].
  eexists. split; [reflexivity|]. split; [|done]. by apply flags_ok.
Qed.

(** *** Options *)

Lemma setopt_int_only (self : nn_sock) o v :
  ∃ opts, (setopt_int self o v).1 = set_sk_opts opts self ∧ (opts_ok (sk_opts self) → opts_ok opts).
Proof.
  exists (sk_opts (setopt_int self o v).1). split; [|apply setopt_int_rest].
  destruct self. unfold setopt_int. repeat case_match; reflexivity.
Qed.

Lemma opts_changed s o : sock_inv s → locked s = true → opts_ok o → sock_inv (set_sock (set_sk_opts o (sock s)) s).
Proof. intros Hs Hlk Ho. keep Hs. Qed.

Lemma optsets_changed s os : sock_inv s → locked s = true → sock_inv (set_sock (set_optsets os (sock s)) s).
Proof. intros Hs Hlk. keep Hs. Qed.

Lemma optset_changed s level k r :
  sock_inv s → locked s = true → nn_sock_optset (sock s) level = (k, r) → sock_inv (set_sock k s).
Proof.
  intros Hs Hlk. unfold nn_sock_optset. destruct s as [k0 ? ? ? ? ? ?].
  repeat case_match; intros [= <- <-]; try exact Hs; by apply (optsets_changed (Sys k0 _ _ _ _ _ _)).
Qed.

Lemma set_sock_self s : set_sock (sock s) s = s.
Proof. by destruct s. Qed.

Lemma setopt_ok s level o v :
  sock_inv s → locked s = true → (NN_SOL_SOCKET < level → sk_fsm (sock s) = NN_FSM_STATE_ACTIVE) →
  ∃ k rc, nn_sock_setopt_inner (sock s) level o v = Ret (k, rc) ∧ sock_inv (set_sock k s).
Proof.
  intros Hs Hlk Hl. pose proof Hs as Hs0. rewrite <- set_sock_self in Hs0. unfold nn_sock_setopt_inner.
  destruct (Z.ltb_spec NN_SOL_SOCKET level) as [Hlt|].
  { destruct (proto_setopt (St := St)) as [f|] eqn:Ef; [|by eexists _, _].
    assert (∃ sb, sockbase (sock s) = Some sb) as [sb Hsb].
    { destruct (si_life _ Hs) as [? ? ?|E|E|E]; [done|..]; rewrite (Hl Hlt) in E; discriminate E. }
    rewrite Hsb. step.
    destruct (proto_setopt_ok f sb (world s) (attached s) level o v Ef (si_proto _ Hs _ Hsb)) as (sb' & rc & -> & Hi).
    step. eexists _, _. split; [reflexivity|].
    exact (proto_call s sb sb' (world s) Hs Hlk Hsb Hi (rtc_refl _ _)). }
  destruct (Z.ltb_spec level NN_SOL_SOCKET).
  { destruct (nn_sock_optset (sock s) level) as [k r] eqn:E. pose proof (optset_changed _ _ _ _ Hs Hlk E) as Hk.
    destruct r as [os|]; [|by eexists _, _]. destruct (os_setopt os o v) as [os' rc].
    eexists _, _. split; [reflexivity|]. by apply (optsets_changed (set_sock k s)). }
  replace (level =? NN_SOL_SOCKET) with true by (symmetry; apply Z.eqb_eq; lia). step.
  destruct (o =? NN_SOCKET_NAME).
  { destruct (63 <? _); eexists _, _; (split; [reflexivity|]); [done|]. apply opts_changed; [done..|]. apply Hs. }
  destruct (negb _); [by eexists _, _|]. destruct (setopt_int_only (sock s) o (bytes_int v)) as (opts & E & Ho).
  destruct (setopt_int (sock s) o (bytes_int v)) as [k rc]. cbn in E. subst k. eexists _, _. split; [reflexivity|].
  apply opts_changed; [done..|]. apply Ho, Hs.
Qed.

Lemma getopt_ok s level o n :
  sock_inv s → locked s = true → (NN_SOL_SOCKET < level → sk_fsm (sock s) = NN_FSM_STATE_ACTIVE) →
  ∃ k rc r, nn_sock_getopt_inner (sock s) level o n = Ret (k, rc, r) ∧ sock_inv (set_sock k s).
Proof.
  intros Hs Hlk Hl. pose proof Hs as Hs0. rewrite <- set_sock_self in Hs0. unfold nn_sock_getopt_inner.
  destruct (Z.ltb_spec NN_SOL_SOCKET level) as [Hlt|].
  { destruct (proto_getopt (St := St)) as [f|] eqn:Ef; [|by eexists _, _, _].
    assert (∃ sb, sockbase (sock s) = Some sb) as [sb Hsb].
    { destruct (si_life _ Hs) as [? ? ?|E|E|E]; [done|..]; rewrite (Hl Hlt) in E; discriminate E. }
    rewrite Hsb. step.
    destruct (proto_getopt_ok f sb (world s) (attached s) level o n Ef (si_proto _ Hs _ Hsb)) as ([rc r] & ->).
    step. by eexists _, _, _. }
  destruct (Z.ltb_spec level NN_SOL_SOCKET).
  { destruct (nn_sock_optset (sock s) level) as [k r] eqn:E. pose proof (optset_changed _ _ _ _ Hs Hlk E) as Hk.
    destruct r as [os|]; [|by eexists _, _, _]. destruct (os_getopt os o n) as [rc r]. by eexists _, _, _. }
  replace (level =? NN_SOL_SOCKET) with true by (symmetry; apply Z.eqb_eq; lia). step.
  destruct (getopt_int (sock s) o); [by eexists _, _, _|].
  destruct (si_fds _ Hs) as (_ & Hi & Ho).
  destruct (o =? NN_SNDFD).
  { destruct (has_flag _ NN_SOCKTYPE_FLAG_NOSEND) eqn:E; [by eexists _, _, _|].
    destruct (Ho eq_refl) as (f & -> & _). step. by eexists _, _, _. }
  destruct (o =? NN_RCVFD).
  { destruct (has_flag _ NN_SOCKTYPE_FLAG_NORECV) eqn:E; [by eexists _, _, _|].
    destruct (Hi eq_refl) as (f & -> & _). step. by eexists _, _, _. }
  destruct (o =? NN_SOCKET_NAME); by eexists _, _, _.
Qed.

(** *** Endpoints *)

Definition added (e : positive) (addr : list Z) (s : sys) : sys :=
  let k := sock s in
  let ep := NnEp NN_FSM_STATE_ACTIVE NN_EP_STATE_ACTIVE (sk_eid k) 0 (ep_template (sk_opts k)) addr in
  on_sock (λ k, set_eps (eps k ++ [e]) (set_sk_eid (sk_eid k + 1) k)) (put_ep e ep s).

Lemma list_free_fresh s e : sock_inv s → epmem s !! e = None → list_free s e = true.
Proof.
  intros Hs He. destruct (eps_fresh _ _ _ _ _ (si_eps _ Hs) e He) as (? & ? & _).
  unfold list_free. by rewrite !bool_decide_eq_true_2.
Qed.

Lemma add_ep_eq s e rc addr :
  sock_inv s → epmem s !! e = None → Z.of_nat (length addr) ≤ NN_SOCKADDR_MAX → sk_eid (sock s) < INT_MAX →
  nn_sock_add_ep (Some e) rc addr s =
    if rc <? 0 then Ret (s, rc) else Ret (added e addr s, sk_eid (sock s)).
Proof.
  intros Hs He Ha Hid. unfold nn_sock_add_ep, nn_ep_init. step. rewrite (proj2 (Z.leb_le _ _)) by done. step.
  destruct (Z.ltb_spec rc 0); [rewrite list_free_fresh by done; step; by rewrite (proj2 (Z.ltb_lt _ _))|]. step.
  destruct (eps_fresh _ _ _ _ _ (si_eps _ Hs) e He) as (? & ? & ? & ?).
  unfold nn_ep_start, nn_fsm_start, nn_fsm_isidle, fsm_of, ep_queued, put_ep, set_epmem. cbn -[Z.leb s32].
  rewrite lookup_insert_eq. rewrite bool_decide_eq_false_2 by tauto. cbn -[Z.leb s32].
  unfold nn_ep_handler, get_ep. cbn -[Z.leb s32]. rewrite lookup_insert_eq. cbn -[Z.leb s32].
  unfold eps_append, list_free, set_eps_of. cbn -[Z.leb s32].
  rewrite !bool_decide_eq_true_2 by done. cbn -[Z.leb s32].
  assert (s32 (sk_eid (sock s) + 1) = sk_eid (sock s) + 1) as ->.
  { unfold s32. destruct (si_ids _ Hs) as (? & _). unfold INT_MAX in *. rewrite Z.mod_small by lia. lia. }
  unfold added, on_sock, set_fsm_of, put_ep, set_sock, set_epmem. cbn -[alter insert].
  rewrite insert_insert_eq, alter_insert_eq. reflexivity.
Qed.

Lemma added_ok s e addr :
  sock_inv s → locked s = true → epmem s !! e = None → sk_eid (sock s) < INT_MAX →
  sk_fsm (sock s) = NN_FSM_STATE_ACTIVE → sock_inv (added e addr s).
Proof.
  intros Hs Hlk He Hid Hact. pose proof (si_opts _ Hs) as (_ & _ & _ & _ & _ & _ & Hp1 & Hp2 & _). keep Hs.
  - destruct si_life as [| E | E | E]; [by apply life_active|rewrite Hact in E; discriminate E..].
  - by eapply eps_ok_add.
  - by apply ids_ok_add.
  - eapply pipes_ok_eps; [eassumption| |done]. intros e' [ep Hep]. left.
    destruct (decide (e = e')) as [->|]; [by rewrite lookup_insert_eq|by rewrite lookup_insert_ne].
Qed.

(** An endpoint is taken from [eps] and asked to stop. *)
Definition stopping_ep (ep : nn_ep) : nn_ep := set_ep_state NN_EP_STATE_STOPPING (set_ep_fsm NN_FSM_STATE_STOPPING ep).
Definition stopping (e : positive) (ep : nn_ep) (s : sys) : sys :=
  on_sock (λ k, set_sdeps (sdeps k ++ [e]) (set_eps (filter (λ x, x ≠ e) (eps k)) k)) (put_ep e (stopping_ep ep) s).

Lemma stop_one_eq s e ep {A} (k : sys → outcome A) :
  eps_ok (eps (sock s)) (sdeps (sock s)) (epmem s) (evq s) (powner s) → e ∈ eps (sock s) → epmem s !! e = Some ep →
  (s ← eps_erase e s; s ← sdeps_append e s; s ← nn_ep_stop e s; k s) = k (stopping e ep s).
Proof.
  intros Hok He Hep. pose proof (eps_exclusive _ _ _ _ _ Hok e He).
  destruct (eps_active _ _ _ _ _ Hok e He) as (? & ? & Hf & Hst & _). simplify_eq.
  unfold eps_erase, list_erase. rewrite bool_decide_eq_true_2 by done. step.
  unfold sdeps_append, list_free. cbn. rewrite !bool_decide_eq_true_2; [|done|].
  2: { rewrite list_elem_of_filter. tauto. }
  step. unfold nn_ep_stop, nn_fsm_stop, fsm_of. cbn. rewrite Hep. cbn. rewrite Hf. cbn.
  unfold nn_ep_shutdown, get_ep. cbn. rewrite lookup_alter_eq, Hep. cbn. f_equal.
  unfold stopping, on_sock, put_ep, set_sock, set_epmem. cbn. f_equal. unfold stopping_ep.
  apply map_eq. intros e'. destruct (decide (e' = e)) as [->|].
  - by rewrite !lookup_insert_eq.
  - by rewrite !lookup_insert_ne, lookup_alter_ne.
Qed.

Lemma stopping_eps_ok s e ep :
  eps_ok (eps (sock s)) (sdeps (sock s)) (epmem s) (evq s) (powner s) → e ∈ eps (sock s) → epmem s !! e = Some ep →
  let s' := stopping e ep s in eps_ok (eps (sock s')) (sdeps (sock s')) (epmem s') (evq s') (powner s').
Proof. intros Hok He Hep. by eapply eps_ok_stop. Qed.

Lemma stopping_ok s e ep :
  sock_inv s → locked s = true → e ∈ eps (sock s) → epmem s !! e = Some ep → sock_inv (stopping e ep s).
Proof.
  intros Hs Hlk He Hep. pose proof (stopping_eps_ok s e ep (si_eps _ Hs) He Hep). keep Hs.
  - destruct si_life as [| ? ? ? ? ? E | ? ? ? ? ? E | ? ? ? ? ? E]; [by apply life_active|..];
      rewrite E in He; by apply not_elem_of_nil in He.
  - by eapply ids_ok_same.
  - eapply pipes_ok_eps; [eassumption| |done]. intros e' [ep' Hep']. left.
    destruct (decide (e = e')) as [->|]; [by rewrite lookup_insert_eq|by rewrite lookup_insert_ne].
Qed.

Lemma find_ep_Some s eid e : find_ep eid s = Some e → e ∈ eps (sock s) ∧ ep_eid <$> epmem s !! e = Some eid.
Proof.
  unfold find_ep. rewrite fmap_Some. intros ([i x] & Hl & ->). apply list_find_Some in Hl as (Hi & ? & _).
  split; [by eapply list_elem_of_lookup_2|done].
Qed.

Lemma rm_ep_eq s eid :
  sock_inv s → nn_sock_rm_ep eid s = match find_ep eid s with
    | None => Ret (s, - EINVAL)
    | Some e => match epmem s !! e with Some ep => Ret (stopping e ep s, 0) | None => Ret (s, 0) end
    end.
Proof.
  intros Hs. unfold nn_sock_rm_ep. destruct (find_ep eid s) as [e|] eqn:E; [|done].
  apply find_ep_Some in E as [He Hep]. destruct (epmem s !! e) as [ep|] eqn:Ee; [|done].
  by apply (stop_one_eq s e ep (λ s, Ret (s, 0)) (si_eps _ Hs)).
Qed.

(** *** Closing the socket

    [parts] is the invariant without the phase, while a thread is in the context. *)
Record parts (s : sys) : Prop := {
  sp_holds : holds_ok (sk_fsm (sock s)) (holds (sock s)) (relesem (sock s));
  sp_opts : opts_ok (sk_opts (sock s));
  sp_fds : fds_ok (sock s);
  sp_eps : eps_ok (eps (sock s)) (sdeps (sock s)) (epmem s) (evq s) (powner s);
  sp_ids : ids_ok (epmem s) (sk_eid (sock s)) (current_ep_errors (statistics (sock s)));
  sp_pipes : pipes_ok (St := St) (M := M) (world s) (attached s) (powner s) (epmem s) (evq s)
               (current_connections (statistics (sock s)));
  sp_proto sb : sockbase (sock s) = Some sb → proto_inv sb (world s) (attached s);
  sp_locked : locked s = true;
}.

Lemma parts_inv s :
  parts s → life (sk_fsm (sock s)) (sk_state (sock s)) (sockbase (sock s)) (termsem (sock s))
              (eps (sock s)) (sdeps (sock s)) (evq s) → sock_inv s.
Proof. intros []. split; try assumption. congruence. Qed.

Lemma inv_parts s : sock_inv s → locked s = true → parts s.
Proof. intros []. by split. Qed.

(** No endpoint is left, so no pipe is. *)
Lemma no_endpoints s : parts s → eps (sock s) = [] → sdeps (sock s) = [] →
  epmem s = ∅ ∧ powner s = ∅ ∧ bases (pw (world s)) = ∅ ∧ attached s = ∅ ∧
  ∀ e, SE_ep_action e ∉ evq s ∧ SE_ep_stopped e ∉ evq s.
Proof.
  intros Hp E1 E2. destruct (sp_eps _ Hp) as [_ _ Hep Hev _]. destruct (sp_pipes _ Hp) as [_ Ha Ho He _ _ _].
  rewrite E1, E2 in *.
  assert (epmem s = ∅) as Em.
  { apply map_eq. intros e. rewrite lookup_empty. destruct (epmem s !! e) as [ep|] eqn:E; [exfalso|done].
    destruct (Hep e ep E) as (_ & _ & [[? _]|[[? _]|[? _]]]); by eapply not_elem_of_nil. }
  assert (powner s = ∅) as Eo.
  { apply map_eq. intros p. rewrite lookup_empty. destruct (powner s !! p) as [e|] eqn:E; [exfalso|done].
    destruct (He p e E) as [ep Hx]. by rewrite Em, lookup_empty in Hx. }
  assert (bases (pw (world s)) = ∅) as Eb.
  { apply map_eq. intros p. rewrite lookup_empty. destruct (bases (pw (world s)) !! p) as [b|] eqn:E; [exfalso|done].
    destruct (proj2 (Ho p)) as [e Hx]; [by eexists|]. by rewrite Eo, lookup_empty in Hx. }
  split_and!; try done.
  - apply set_eq. intros p. rewrite Ha, Eb, lookup_empty. split; [by intros (? & [=] & _)|set_solver].
  - intros e. split; intros Hx; destruct (Hev e) as [Hn _]; eauto; by apply not_elem_of_nil in Hn.
Qed.

Definition ended (no : bool) (fd : option nn_efd) : option nn_efd := if no then fd else nn_efd_term <$> fd.
Definition finished (s : sys) : sys :=
  on_sock (λ k, set_termsem (termsem k + 1) (set_sndfd (ended (no_send s) (sndfd k))
    (set_rcvfd (ended (no_recv s) (rcvfd k)) (set_sk_state NN_SOCK_STATE_FINI (set_sockbase None k))))) s.

Lemma stop_finish_eq s sb :
  fds_ok (sock s) → sockbase (sock s) = Some sb → proto_inv sb (world s) ∅ → stop_finish s = Ret (finished s).
Proof.
  intros (Hr & Hin & Hout) Hsb Hi. unfold stop_finish, finished. rewrite Hsb. step.
  rewrite (proto_destroy_ok _ _ Hi). step. unfold no_recv, no_send, ended in *.
  destruct s as [[] ? ? ? ? ? ?]. cbn in *.
  destruct (has_flag _ NN_SOCKTYPE_FLAG_NORECV); [|destruct (Hin eq_refl) as (? & -> & _)]; cbn;
    (destruct (has_flag _ NN_SOCKTYPE_FLAG_NOSEND); [|destruct (Hout eq_refl) as (? & -> & _)]); reflexivity.
Qed.

Lemma finished_ok s :
  parts s → eps (sock s) = [] → sdeps (sock s) = [] →
  sk_fsm (sock s) = NN_FSM_STATE_STOPPING → termsem (sock s) = 0 → SE_sock_stopped ∉ evq s → sock_inv (finished s).
Proof.
  intros Hp E1 E2 Hf Ht Hn. apply parts_inv; [|cbn; rewrite Ht; by apply life_fini].
  destruct Hp; split; cbn; try assumption; [|done]. destruct sp_fds0 as (Hr & Hin & Hout).
  split; [done|]. unfold ended. split; intros Hno; cbn in Hno.
  - change (no_recv s) with (has_flag (st_flags (socktype (sock s))) NN_SOCKTYPE_FLAG_NORECV). rewrite Hno.
    destruct (Hin Hno) as (f & -> & _). eexists. split; [reflexivity|]. by split.
  - change (no_send s) with (has_flag (st_flags (socktype (sock s))) NN_SOCKTYPE_FLAG_NOSEND). rewrite Hno.
    destruct (Hout Hno) as (f & -> & _). eexists. split; [reflexivity|]. by split.
Qed.

Lemma fds_ok_state (k : nn_sock) st : fds_ok k → st ≠ NN_SOCK_STATE_ACTIVE → fds_ok (set_sk_state st k).
Proof.
  intros (Hr & Hin & Hout) Hst. split; [done|]. split; intros Hno; cbn in Hno;
    [destruct (Hin Hno) as (f & Hf & ? & _)|destruct (Hout Hno) as (f & Hf & ? & _)];
    exists f; (split; [exact Hf|]); by split.
Qed.

Lemma parts_state s st : parts s → st ≠ NN_SOCK_STATE_ACTIVE → parts (set_state st s).
Proof. intros [] Hst. split; try assumption. by apply fds_ok_state. Qed.

Lemma stop_protocol_ok s sb :
  parts s → eps (sock s) = [] → sk_fsm (sock s) = NN_FSM_STATE_STOPPING →
  sk_state (sock s) = NN_SOCK_STATE_STOPPING_EPS → sockbase (sock s) = Some sb → termsem (sock s) = 0 →
  SE_sock_stopped ∉ evq s → ∃ s', stop_protocol s = Ret s' ∧ sock_inv s'.
Proof.
  intros Hp E1 Hf Hst Hsb Ht Hn. unfold stop_protocol. case_bool_decide as E2; cbn [negb].
  2: { exists s. split; [done|]. apply parts_inv; [done|]. by apply life_eps. }
  rewrite bool_decide_eq_true_2 by done. step. destruct (no_endpoints s Hp E1 E2) as (_ & _ & _ & Ea & _).
  pose proof (sp_proto _ Hp _ Hsb) as Hi.
  assert (parts (set_state NN_SOCK_STATE_STOPPING s)) as Hp' by by apply parts_state.
  destruct (proto_stop (St := St)) as [stop|] eqn:Es.
  - change (sockbase _) with (sockbase (sock s)). rewrite Hsb. step.
    destruct (proto_stop_ok _ _ _ _ Es Hi) as (sb' & -> & Hi'). step. eexists. split; [reflexivity|].
    apply parts_inv; [|cbn; apply life_protocol; try done; by rewrite Es].
    destruct Hp'; split; try assumption. by intros ? [= <-].
  - eexists. split; [eapply (stop_finish_eq _ sb); [apply Hp'|exact Hsb|]; by rewrite Ea in Hi|].
    by apply finished_ok.
Qed.

(** The loop over the endpoints; the socket is between two states. *)
Lemma stop_eps_ok l s :
  parts (set_state NN_SOCK_STATE_STOPPING_EPS s) → eps (sock s) = l →
  ∃ s', stop_eps l s = Ret s' ∧ parts (set_state NN_SOCK_STATE_STOPPING_EPS s') ∧ eps (sock s') = [] ∧
    sk_fsm (sock s') = sk_fsm (sock s) ∧ sockbase (sock s') = sockbase (sock s) ∧
    termsem (sock s') = termsem (sock s) ∧ evq s' = evq s.
Proof.
  revert s. induction l as [|e l IH]; intros s Hp El; cbn; [by exists s|].
  pose proof (sp_eps _ Hp) as Hok. cbn in Hok.
  assert (e ∈ eps (sock s)) as He by (rewrite El; set_solver).
  destruct (eo_mem _ _ _ _ _ Hok e) as [ep Hep]; [set_solver|].
  rewrite (stop_one_eq s e ep (stop_eps l) Hok He Hep).
  destruct (IH (stopping e ep s)) as (s' & E & Hp' & E1 & E2 & E3 & E4 & E5).
  - pose proof (stopping_eps_ok s e ep Hok He Hep) as Hok'. destruct Hp; split; try assumption.
    + by eapply ids_ok_same.
    + eapply pipes_ok_eps; [eassumption| |done]. intros e' [ep' Hep']. left. cbn.
      destruct (decide (e = e')) as [->|]; [by rewrite lookup_insert_eq|by rewrite lookup_insert_ne].
  - cbn. rewrite El. pose proof (eo_nodup _ _ _ _ _ Hok) as Hnd. rewrite El in Hnd. cbn in Hnd.
    apply NoDup_cons in Hnd as [Hn _]. rewrite filter_cons_False by tauto. apply filter_ne_notin. set_solver.
  - exists s'. done.
Qed.

Lemma efd_stop_ok no fd flags flag :
  fd_ok no fd flags flag NN_SOCK_STATE_ACTIVE → no = false →
  ∃ f f', fd = Some f ∧ nn_efd_stop f = Ret f' ∧ 0 ≤ efd_count f' ≤ 2.
Proof.
  intros Hfd Hno. destruct (Hfd Hno) as (f & -> & Hc & Ha). destruct (Ha eq_refl) as [Hfd0 Hcnt].
  exists f. unfold nn_efd_stop, nn_efd_signal. rewrite (proj2 (Z.ltb_ge _ _)) by lia.
  rewrite (proj2 (Z.ltb_lt _ _)) by lia. step. eexists. split; [done|]. split; [done|]. cbn.
  destruct (has_flag _ _); lia.
Qed.

(** What [nn_sock_shutdown] does first. *)
Definition unblocked (rfd sfd : option nn_efd) (s : sys) : sys :=
  on_sock (λ k, set_sndfd sfd (set_rcvfd rfd (set_sk_fsm NN_FSM_STATE_STOPPING k))) s.

Lemma unblocked_ok s rfd sfd :
  sock_inv s → locked s = true →
  (no_recv s = false → ∃ f, rfd = Some f ∧ 0 ≤ efd_count f ≤ 2) →
  (no_send s = false → ∃ f, sfd = Some f ∧ 0 ≤ efd_count f ≤ 2) →
  parts (set_state NN_SOCK_STATE_STOPPING_EPS (unblocked rfd sfd s)).
Proof.
  intros Hs Hlk Hr Hsd. destruct (inv_parts s Hs Hlk). split; try assumption.
  - destruct sp_holds0 as (? & ? & _). by split.
  - destruct sp_fds0 as (? & _). split; [done|].
    split; intros Hno; [destruct (Hr Hno) as (f & -> & ?)|destruct (Hsd Hno) as (f & -> & ?)];
      exists f; (split; [reflexivity|]); by split.
Qed.

Lemma sock_stop_ok s : sock_inv s → locked s = true → ∃ s', nn_sock_stop s = Ret s' ∧ sock_inv s'.
Proof.
  intros Hs Hlk. unfold nn_sock_stop, nn_fsm_stop, sock_fsm.
  destruct (Z.eqb_spec (sk_fsm (sock s)) NN_FSM_STATE_ACTIVE) as [Hact|]; cbn [negb]; [|by exists s].
  destruct (si_life _ Hs) as [_ Hst [sb Hsb] Ht Hn|E|E|E]; [|rewrite Hact in E; discriminate E..].
  unfold nn_sock_shutdown. change (sk_state (sock (set_sock_fsm _ _))) with (sk_state (sock s)).
  rewrite Hst. cbn [Z.eqb NN_FSM_ACTION NN_FSM_STOP Pos.eqb andb NN_SOCK_STATE_ACTIVE nn_assert]. step.
  destruct (si_fds _ Hs) as (_ & Hin & Hout). rewrite Hst in Hin, Hout.
  assert (∃ rfd, (if no_recv (set_sock_fsm s NN_FSM_STATE_STOPPING) then Ret (set_sock_fsm s NN_FSM_STATE_STOPPING)
    else fd ← deref (rcvfd (sock (set_sock_fsm s NN_FSM_STATE_STOPPING))); fd ← nn_efd_stop fd;
      Ret (on_sock (set_rcvfd (Some fd)) (set_sock_fsm s NN_FSM_STATE_STOPPING))) =
    Ret (unblocked rfd (sndfd (sock s)) s) ∧ (no_recv s = false → ∃ f, rfd = Some f ∧ 0 ≤ efd_count f ≤ 2))
    as (rfd & -> & Hr).
  { change (no_recv (set_sock_fsm _ _)) with (no_recv s). unfold no_recv in *.
    destruct (has_flag _ _) eqn:Eno.
    - exists (rcvfd (sock s)). split; [|done]. unfold unblocked, set_sock_fsm, on_sock. by destruct s as [[] ? ? ? ? ? ?].
    - destruct (efd_stop_ok _ _ _ _ Hin eq_refl) as (f & f' & Ef & E' & ?).
      change (rcvfd (sock (set_sock_fsm _ _))) with (rcvfd (sock s)). rewrite Ef. step. rewrite E'. step.
      exists (Some f'). split; [|by exists f']. unfold unblocked, set_sock_fsm, on_sock. by destruct s as [[] ? ? ? ? ? ?]. }
  step. set (s1 := unblocked rfd (sndfd (sock s)) s) in *.
  assert (∃ sfd, (if no_send s1 then Ret s1
    else fd ← deref (sndfd (sock s1)); fd ← nn_efd_stop fd; Ret (on_sock (set_sndfd (Some fd)) s1)) =
    Ret (unblocked rfd sfd s) ∧ (no_send s = false → ∃ f, sfd = Some f ∧ 0 ≤ efd_count f ≤ 2)) as (sfd & -> & Hsd).
  { change (no_send s1) with (no_send s). unfold no_send in *. destruct (has_flag _ NN_SOCKTYPE_FLAG_NOSEND) eqn:Eno.
    - by exists (sndfd (sock s)).
    - destruct (efd_stop_ok _ _ _ _ Hout eq_refl) as (f & f' & Ef & E' & ?).
      change (sndfd (sock s1)) with (sndfd (sock s)). rewrite Ef. step. rewrite E'. step.
      exists (Some f'). split; [reflexivity|by exists f']. }
  step. destruct (stop_eps_ok (eps (sock (unblocked rfd sfd s))) (unblocked rfd sfd s)) as (s' & -> & Hp & E1 & E2 & E3 & E4 & E5);
    [by apply unblocked_ok|done|].
  step. eapply (stop_protocol_ok _ sb); cbn; [done|done|by rewrite E2|done|by rewrite E3|by rewrite E4|by rewrite E5].
Qed.

(** *** Dispatching *)

(** An endpoint that has stopped is freed. *)
Definition freed (e : positive) (s : sys) : sys :=
  set_epmem (delete e (epmem s)) (on_sock (λ k, set_sdeps (filter (λ x, x ≠ e) (sdeps k)) k) s).

Lemma ep_gone_eq s e q :
  eps_ok (eps (sock s)) (sdeps (sock s)) (epmem s) (SE_ep_stopped e :: q) (powner s) → evq s = q →
  ep_gone (P_ep e) s = Ret (freed e s).
Proof.
  intros Hok Eq. destruct (eps_ok_gone _ _ _ _ _ _ Hok) as (ep & Hep & Hf & Hst & Hd & He & Hn1 & Hn2 & _).
  unfold ep_gone. cbn [as_ep]. step. unfold sdeps_erase, list_erase. rewrite bool_decide_eq_true_2 by done. step.
  unfold nn_ep_term, get_ep. cbn. rewrite Hep. step. rewrite Hst. cbn.
  assert (e ∉ filter (λ x, x ≠ e) (sdeps (sock s))) as Hd' by (rewrite list_elem_of_filter; tauto).
  unfold list_free. cbn. rewrite !bool_decide_eq_true_2 by assumption.
  step. unfold nn_fsm_term, nn_fsm_isidle, fsm_of, ep_queued. cbn. rewrite Hep, Hf, Eq.
  rewrite bool_decide_eq_false_2 by tauto. cbn. reflexivity.
Qed.

Lemma freed_parts s e q :
  parts (set_evq (SE_ep_stopped e :: q) s) → evq s = q → parts (freed e s).
Proof.
  intros Hp Eq. destruct Hp. cbn in *.
  destruct (eps_ok_gone _ _ _ _ _ _ sp_eps0) as (ep & Hep & Hf & Hst & Hd & He & Hn1 & Hn2 & Hown & Hok).
  split; cbn; try assumption.
  - by rewrite Eq.
  - by eapply ids_ok_delete.
  - rewrite Eq. eapply pipes_ok_eps; [exact sp_pipes0| |done]. intros e' He'.
    destruct (decide (e' = e)) as [->|]; [by right|left]. by rewrite lookup_delete_ne.
Qed.

(** The protocol learns that a pipe is ready. *)
Lemma sock_in_ok s p :
  sock_inv s → locked s = true → is_Some (sockbase (sock s)) → p ∈ attached s → p ∉ can_in (world s) →
  core_inv (told_in p (world s)) → proto_hears (St := St) (W := psys) (M := M) = true →
  ∃ s', sock_in p s = Ret s' ∧ sock_inv s'.
Proof.
  intros Hs Hlk [sb Hsb] Hp Hn Hc Hh. unfold sock_in. rewrite Hsb. step.
  destruct (proto_in_ok (S (pending (told_in p (world s)))) sb (world s) (attached s) p (told_in p (world s)))
    as (sb' & w' & E & Hi); [done|by apply (si_proto _ Hs)| |lia|].
  { split_and!; try done. }
  rewrite E. step. eexists. split; [reflexivity|].
  destruct (moved_same _ _ (proto_in_moved _ _ _ _ _ _ E)). by apply (proto_call_gen s sb).
Qed.

Lemma sock_out_ok s p :
  sock_inv s → locked s = true → is_Some (sockbase (sock s)) → p ∈ attached s → p ∉ can_out (world s) →
  core_inv (told_out p (world s)) → ∃ s', sock_out p s = Ret s' ∧ sock_inv s'.
Proof.
  intros Hs Hlk [sb Hsb] Hp Hn Hc. unfold sock_out. rewrite Hsb. step.
  destruct (proto_out_ok sb (world s) (attached s) p (told_out p (world s)))
    as (sb' & w' & E & Hi); [by apply (si_proto _ Hs)| |].
  { split_and!; try done. }
  rewrite E. step. eexists. split; [reflexivity|].
  destruct (moved_same _ _ (proto_out_moved _ _ _ _ _ E)). by apply (proto_call_gen s sb).
Qed.

Lemma life_queue fsm st sb term es ds q q' :
  life fsm st sb term es ds q → (SE_sock_stopped ∈ q' → SE_sock_stopped ∈ q) → life fsm st sb term es ds q'.
Proof.
  intros [| | |] Hq; [apply life_active|apply life_eps|apply life_protocol|apply life_fini]; try done; naive_solver.
Qed.

(** The event of a pipe. *)
Lemma process_pipe_ok s q :
  sock_inv s → locked s = true → evq s = SE_pipe :: q →
  ∃ s', process SE_pipe (set_evq q s) = Ret s' ∧ sock_inv s'.
Proof.
  intros Hs Hlk Eq. pose proof (si_pipes _ Hs) as Hpo. rewrite Eq in Hpo.
  destruct (pipes_ok_dispatch _ _ _ _ _ _ Hpo) as (p & ty & evs & Ee & Hp & Hpo' & Hcase).
  unfold process. cbn [world set_evq]. rewrite Ee. set (w0 := PSys _ _ _) in *.
  assert (sock_inv (set_world w0 (set_evq q s))) as Hs0.
  { destruct Hs; split; cbn; try assumption; [| | |congruence].
    - eapply life_queue; [eassumption|]. rewrite Eq. set_solver.
    - rewrite Eq in *. eapply eps_ok_queue; [eassumption|set_solver|]. apply (events_nodup_cons _ _ (eo_once _ _ _ _ _ si_eps)).
    - intros sb Hsb. eapply proto_env_ok; [by apply si_proto| |done|done]. apply env_refl; [apply Hpo'|done]. }
  unfold sock_feed, nn_fsm_feed, sock_fsm.
  change (sk_fsm (sock (set_world w0 (set_evq q s)))) with (sk_fsm (sock s)).
  destruct (si_life _ Hs) as [Hf Hst Hsb _ _|Hf Hst _ _ _ _ _|Hf Hst _ _ _ E1 E2|Hf Hst _ _ _ E1 E2];
    rewrite Hf; cbn [Z.eqb Pos.eqb NN_FSM_STATE_ACTIVE NN_FSM_STATE_STOPPING negb].
  - unfold nn_sock_handler. change (sk_state (sock (set_world w0 (set_evq q s)))) with (sk_state (sock s)). rewrite Hst.
    destruct Hcase as [(-> & Hc & Hn & Hh)|(-> & Hc & Hn)]; cbn [Z.eqb Pos.eqb as_pipe]; cbv [NN_SOCK_STATE_ACTIVE
      NN_SOCK_STATE_INIT NN_FSM_ACTION NN_SOCK_SRC_EP NN_PIPE_IN NN_PIPE_OUT]; cbn [Z.eqb Pos.eqb as_pipe]; step.
    + by apply sock_in_ok.
    + by apply sock_out_ok.
  - unfold nn_sock_shutdown. change (sk_state (sock (set_world w0 (set_evq q s)))) with (sk_state (sock s)). rewrite Hst.
    eexists. split; [reflexivity|done].
  - destruct (no_endpoints s (inv_parts s Hs Hlk) E1 E2) as (_ & _ & _ & Ea & _). rewrite Ea in Hp. set_solver.
  - destruct (no_endpoints s (inv_parts s Hs Hlk) E1 E2) as (_ & _ & _ & Ea & _). rewrite Ea in Hp. set_solver.
Qed.

(** The first event of an endpoint that stops. *)
Definition idle_ep (ep : nn_ep) : nn_ep := set_ep_state NN_EP_STATE_IDLE (set_ep_fsm NN_FSM_STATE_IDLE ep).

Lemma process_action_ok s e q :
  sock_inv s → locked s = true → evq s = SE_ep_action e :: q →
  ∃ s', process (SE_ep_action e) (set_evq q s) = Ret s' ∧ sock_inv s'.
Proof.
  intros Hs Hlk Eq. pose proof (si_eps _ Hs) as Hok. rewrite Eq in Hok.
  destruct (eps_ok_action _ _ _ _ _ _ Hok) as (ep & Hep & Hf & Hst & Hn1 & Hn2 & Hok').
  exists (set_evq (q ++ [SE_ep_stopped e]) (put_ep e (idle_ep ep) s)). split.
  - unfold process, nn_fsm_feed, fsm_of. cbn. rewrite Hep, Hf. cbn.
    unfold nn_ep_shutdown, get_ep. cbn. rewrite Hep. step. rewrite Hst. cbn.
    unfold nn_fsm_stopped, fsm_of, put_ep. cbn. rewrite lookup_insert_eq. cbn. rewrite Hf. cbn.
    unfold raise_ep, ep_queued. cbn. rewrite bool_decide_eq_false_2 by tauto. cbn. f_equal.
    unfold set_fsm_of, set_evq, set_epmem. cbn. by rewrite alter_insert_eq.
  - destruct Hs; split; cbn; try assumption; [| | | |congruence].
    + eapply life_queue; [eassumption|]. rewrite Eq. set_solver.
    + by apply Hok'.
    + by eapply ids_ok_same.
    + eapply pipes_ok_eps; [eassumption| |].
      * intros e' [ep' Hep']. left. destruct (decide (e = e')) as [->|]; [by rewrite lookup_insert_eq|by rewrite lookup_insert_ne].
      * rewrite Eq, pipe_tokens_app. unfold pipe_tokens. rewrite (filter_cons_False _ (SE_ep_action e)) by done.
        rewrite (filter_cons_False _ (SE_ep_stopped e)) by done. cbn. lia.
Qed.

(** Its second event, which the socket gets. *)
Lemma process_stopped_ok s e q :
  sock_inv s → locked s = true → evq s = SE_ep_stopped e :: q →
  ∃ s', process (SE_ep_stopped e) (set_evq q s) = Ret s' ∧ sock_inv s'.
Proof.
  intros Hs Hlk Eq. pose proof (si_eps _ Hs) as Hok. rewrite Eq in Hok.
  pose proof (ep_gone_eq (set_evq q s) e q Hok eq_refl) as Eg.
  destruct (eps_ok_gone _ _ _ _ _ _ Hok) as (ep & Hep & _ & _ & Hds & _).
  assert (parts (freed e (set_evq q s))) as Hp.
  { apply (freed_parts (set_evq q s) e q); [|done]. cbn. destruct (inv_parts s Hs Hlk).
    rewrite Eq in *. by split. }
  unfold process, sock_feed, nn_fsm_feed, sock_fsm. change (sk_fsm (sock (set_evq q s))) with (sk_fsm (sock s)).
  assert (SE_sock_stopped ∈ q → SE_sock_stopped ∈ evq s) as Hq by (rewrite Eq; set_solver).
  destruct (si_life _ Hs) as [Hf Hst [sb Hsb] Ht Hn|Hf Hst [sb Hsb] Ht Hn E1 _|Hf Hst _ _ _ E1 E2|Hf Hst _ _ _ E1 E2];
    rewrite Hf; cbn [Z.eqb Pos.eqb NN_FSM_STATE_ACTIVE NN_FSM_STATE_STOPPING negb].
  - unfold nn_sock_handler. change (sk_state (sock (set_evq q s))) with (sk_state (sock s)). rewrite Hst.
    cbn [Z.eqb Pos.eqb NN_SOCK_STATE_ACTIVE NN_SOCK_STATE_INIT NN_SOCK_SRC_EP NN_FSM_ACTION NN_EP_STOPPED].
    rewrite Eg. eexists. split; [reflexivity|]. apply parts_inv; [done|]. cbn. apply life_active; eauto.
  - unfold nn_sock_shutdown. change (sk_state (sock (set_evq q s))) with (sk_state (sock s)). rewrite Hst.
    cbn [Z.eqb Pos.eqb andb negb NN_SOCK_STATE_STOPPING_EPS NN_SOCK_SRC_EP NN_FSM_ACTION NN_EP_STOPPED].
    rewrite Eg. step. apply (stop_protocol_ok _ sb); cbn; auto.
  - rewrite E2 in Hds. by apply not_elem_of_nil in Hds.
  - rewrite E2 in Hds. by apply not_elem_of_nil in Hds.
Qed.

(** The protocol has stopped. *)
Lemma process_protocol_ok s q :
  sock_inv s → locked s = true → evq s = SE_sock_stopped :: q →
  ∃ s', process SE_sock_stopped (set_evq q s) = Ret s' ∧ sock_inv s'.
Proof.
  intros Hs Hlk Eq. assert (SE_sock_stopped ∈ evq s) as Hin by (rewrite Eq; set_solver).
  pose proof (eo_once _ _ _ _ _ (si_eps _ Hs)) as Hnd. rewrite Eq in Hnd.
  apply events_nodup_cons in Hnd as [Hnd Hn]. specialize (Hn ltac:(done)).
  assert (parts (set_evq q s)) as Hp.
  { destruct (inv_parts s Hs Hlk). rewrite Eq in *. split; cbn; try assumption.
    - eapply eps_ok_queue; [eassumption|set_solver|done].
    - eapply pipes_ok_eps; [eassumption|by left|]. unfold pipe_tokens.
      by rewrite (filter_cons_False _ SE_sock_stopped) by done. }
  destruct (si_life _ Hs) as [_ _ _ _ Hx|_ _ _ _ Hx|Hf Hst [sb Hsb] Ht Hstop E1 E2|_ _ _ _ Hx]; [done|done| |done].
  unfold process, sock_feed, nn_fsm_feed, sock_fsm. change (sk_fsm (sock (set_evq q s))) with (sk_fsm (sock s)).
  rewrite Hf. cbn [Z.eqb Pos.eqb NN_FSM_STATE_ACTIVE NN_FSM_STATE_STOPPING negb].
  unfold nn_sock_shutdown. change (sk_state (sock (set_evq q s))) with (sk_state (sock s)). rewrite Hst.
  cbn [Z.eqb Pos.eqb andb negb NN_SOCK_STATE_STOPPING NN_SOCK_STATE_STOPPING_EPS NN_SOCK_ACTION_STOPPED NN_FSM_ACTION NN_FSM_STOP].
  step. destruct (no_endpoints s (inv_parts s Hs Hlk) E1 E2) as (_ & _ & _ & Ea & _).
  pose proof (si_proto _ Hs _ Hsb) as Hi. rewrite Ea in Hi.
  eexists. split; [by apply (stop_finish_eq _ sb); [apply Hp|..]|]. by apply finished_ok.
Qed.

Lemma process_ok s ev q :
  sock_inv s → locked s = true → evq s = ev :: q →
  ∃ s', process ev (set_evq q s) = Ret s' ∧ sock_inv s'.
Proof.
  destruct ev; [apply process_pipe_ok|apply process_action_ok|apply process_stopped_ok|apply process_protocol_ok].
Qed.

(** *** Leaving the context *)
Lemma onleave_ok s :
  sock_inv s → locked s = true → evq s = [] →
  ∃ s', nn_sock_onleave s = Ret s' ∧ sock_inv (set_locked false s').
Proof.
  intros Hs Hlk Eq. unfold nn_sock_onleave.
  destruct (Z.eqb_spec (sk_state (sock s)) NN_SOCK_STATE_ACTIVE) as [Hst|Hne]; cbn [negb].
  2: { exists s. split; [done|]. destruct Hs; split; cbn; try assumption. intros _. split; [done|]. done. }
  destruct (si_life _ Hs) as [_ _ [sb Hsb] _ _|? E|? E|? E]; [|rewrite Hst in E; discriminate E..].
  rewrite Hsb. step. rewrite (proj2 (Z.leb_le _ _)) by apply (proto_events_ok _ _ _ (si_proto _ Hs _ Hsb)). step.
  set (ev := proto_events sb). destruct (si_fds _ Hs) as (Hr & Hin & Hout). rewrite Hst in Hin, Hout.
  assert (∃ fd fl, (if no_recv s then Ret s
    else '(fd, fl) ← adjust_fd (has_flag ev NN_SOCKBASE_EVENT_IN) NN_SOCK_FLAG_IN (rcvfd (sock s)) (sk_flags (sock s));
         Ret (on_sock (λ k, set_sk_flags fl (set_rcvfd fd k)) s)) = Ret (on_sock (λ k, set_sk_flags fl (set_rcvfd fd k)) s) ∧
    0 ≤ fl < 4 ∧ fd_ok (no_recv s) fd fl NN_SOCK_FLAG_IN NN_SOCK_STATE_ACTIVE ∧
    (no_recv s = false → has_flag fl NN_SOCK_FLAG_IN = has_flag ev NN_SOCKBASE_EVENT_IN) ∧
    has_flag fl NN_SOCK_FLAG_OUT = has_flag (sk_flags (sock s)) NN_SOCK_FLAG_OUT) as (fd & fl & -> & Hfl & Hfd & Hti & Hoth).
  { change (has_flag (st_flags (socktype (sock s))) NN_SOCKTYPE_FLAG_NORECV) with (no_recv s) in Hin. destruct (no_recv s).
    - exists (rcvfd (sock s)), (sk_flags (sock s)). split; [|done]. unfold on_sock. by destruct s as [[] ? ? ? ? ? ?].
    - destruct (Hin eq_refl) as (f & -> & _ & Ha). destruct (Ha eq_refl) as [Hf0 Hc].
      destruct (adjust_fd_ok (has_flag ev NN_SOCKBASE_EVENT_IN) NN_SOCK_FLAG_IN f (sk_flags (sock s)) Hr (or_introl eq_refl) Hf0 Hc)
        as (f' & fl & -> & ? & ? & Hc' & ? & Ho). step. exists (Some f'), fl. split; [done|]. split; [done|].
      split; [|split; [done|by apply Ho]]. intros _. exists f'. split; [done|]. split; [|split; [lia|done]].
      rewrite Hc'. case_match; lia. }
  step. set (s1 := on_sock _ s). change (no_send s1) with (no_send s).
  change (sndfd (sock s1)) with (sndfd (sock s)). change (sk_flags (sock s1)) with fl.
  assert (∃ fd' fl', (if no_send s then Ret s1
    else '(fd, fl) ← adjust_fd (has_flag ev NN_SOCKBASE_EVENT_OUT) NN_SOCK_FLAG_OUT (sndfd (sock s)) fl;
         Ret (on_sock (λ k, set_sk_flags fl (set_sndfd fd k)) s1)) = Ret (on_sock (λ k, set_sk_flags fl' (set_sndfd fd' k)) s1) ∧
    0 ≤ fl' < 4 ∧ fd_ok (no_send s) fd' fl' NN_SOCK_FLAG_OUT NN_SOCK_STATE_ACTIVE ∧
    (no_send s = false → has_flag fl' NN_SOCK_FLAG_OUT = has_flag ev NN_SOCKBASE_EVENT_OUT) ∧
    has_flag fl' NN_SOCK_FLAG_IN = has_flag fl NN_SOCK_FLAG_IN) as (fd' & fl' & -> & Hfl' & Hfd' & Hto & Hoth').
  { change (has_flag (st_flags (socktype (sock s))) NN_SOCKTYPE_FLAG_NOSEND) with (no_send s) in Hout. destruct (no_send s).
    - exists (sndfd (sock s)), fl. split; [|done]. unfold s1, on_sock. by destruct s as [[] ? ? ? ? ? ?].
    - destruct (Hout eq_refl) as (f & -> & _ & Ha). destruct (Ha eq_refl) as [Hf0 Hc]. rewrite <- Hoth in Hc.
      destruct (adjust_fd_ok (has_flag ev NN_SOCKBASE_EVENT_OUT) NN_SOCK_FLAG_OUT f fl Hfl (or_intror eq_refl) Hf0 Hc)
        as (f' & fl' & -> & ? & ? & Hc' & ? & Ho). step. exists (Some f'), fl'. split; [done|]. split; [done|].
      split; [|split; [done|by apply Ho]]. intros _. exists f'. split; [done|]. split; [|split; [lia|done]].
      rewrite Hc'. case_match; lia. }
  eexists. split; [reflexivity|]. destruct Hs; split; cbn; try assumption.
  - split; [done|]. cbn. rewrite Hst. split; [|done].
    intros Hno. destruct (Hfd Hno) as (f & ? & ? & Ha). exists f. split_and!; try done; [lia..|].
    intros _. rewrite Hoth'. by apply Ha.
  - intros _. split; [done|]. intros _ sb' Hsb'. rewrite Hsb in Hsb'. injection Hsb' as <-.
    split; intros Hno; cbn; [rewrite Hoth'; by apply Hti|by apply Hto].
Qed.

(** *** The transports *)

(** A socket with endpoints still has its protocol. *)
Lemma has_protocol s e : sock_inv s → is_Some (epmem s !! e) → is_Some (sockbase (sock s)).
Proof.
  intros Hs [ep Hep]. destruct (eo_ep _ _ _ _ _ (si_eps _ Hs) e ep Hep) as (_ & _ & Hc).
  destruct (si_life _ Hs) as [| | |? ? ? ? ? E1 E2]; try done. rewrite E1, E2 in Hc.
  destruct Hc as [[Hx _]|[[Hx _]|[Hx _]]]; by apply not_elem_of_nil in Hx.
Qed.

(** The answer [rc] of the protocol to a pipe. *)
Definition accepted (p : pid) (sb : St) (rc : Z) (s : sys) : sys :=
  on_sock (λ k, set_statistics
      (if rc =? 0 then set_current_connections (current_connections (statistics k) + 1) (statistics k) else statistics k)
      (set_sockbase (Some sb) k))
    (set_attached (if rc =? 0 then {[p]} ∪ attached s else attached s) s).

Lemma sock_add_eq s p sp rp sb sb' rc :
  sockbase (sock s) = Some sb → 0 ≤ current_connections (statistics (sock s)) < INT_MAX →
  rc ≤ 0 → proto_add (M := M) (W := psys) sb p sp rp = Ret (sb', rc) →
  nn_sock_add (M := M) s p sp rp = Ret (accepted p sb' rc s, rc).
Proof.
  intros Hsb Hc Hrc E. unfold nn_sock_add. rewrite Hsb. step. rewrite E. step.
  unfold accepted, stat_increment, on_sock, set_sock, set_attached, nn_sock_stat_increment.
  destruct s as [[] ? ? ? ? ? ?]; cbn [NN_STAT_CURRENT_CONNECTIONS Z.eqb Pos.eqb] in *.
  destruct (Z.eqb_spec rc 0) as [->|Hne].
  - cbn -[stat_level Z.add]. cbn in Hc. rewrite level_up by lia. step. reflexivity.
  - rewrite (proj2 (Z.leb_gt 0 rc)) by lia. reflexivity.
Qed.

Lemma start_ok s p e :
  sock_inv s → enabled (M := M) s (T_start p e) → slegal (M := M) s (T_start p e) →
  ∃ s', sstep (M := M) s (T_start p e) = Ret s' ∧ sock_inv s'.
Proof.
  intros Hs (Hlk & Hp & (ep & Hep & Hst & Hq) & Hsz) Hroom. cbn in Hroom.
  destruct (has_protocol s e Hs ltac:(eauto)) as [sb Hsb]. pose proof (si_pipes _ Hs) as Hpo.
  cbn [sstep]. unfold get_ep. rewrite Hep. step.
  set (w := nn_pipebase_init (pw (world s)) p None (ep_opts ep)).
  set (b := Pipebase NN_PIPEBASE_STATE_IDLE IN_DEACTIVATED OUT_DEACTIVATED None (ep_opts ep)).
  assert (bases w !! p = Some b) as Hb by (unfold w, nn_pipebase_init, set_base; cbn; apply lookup_insert_eq).
  destruct (eo_ep _ _ _ _ _ (si_eps _ Hs) e ep Hep) as (Hp1 & Hp2 & Hc).
  destruct (core_start (world s) p (ep_opts ep) 0 b (po_world _ _ _ _ _ _ Hpo) Hp Hb) as (_ & Hn1 & Hn2 & Hn3).
  assert (p ∉ attached s) as Hna by (intros (? & ? & _)%(po_att _ _ _ _ _ _ Hpo); congruence).
  destruct (proto_add_ok sb (world s) (attached s) p (sndprio (ep_opts ep)) (rcvprio (ep_opts ep)))
    as (sb' & rc & E & Hrc & Hi); [by apply (si_proto _ Hs)|by apply Hroom| |].
  { split_and!; try done; try apply Hp1; try apply Hp2. unfold INT_MAX in Hsz. lia. }
  destruct (po_conn _ _ _ _ _ _ Hpo) as [Hconn Hmax].
  pose proof (pipes_ok_start _ _ _ _ _ _ p e (ep_opts ep) b rc Hpo Hp Hb ltac:(eauto) Hrc Hsz) as Hpo'.
  erewrite (pipebase_start_eq _ s w p b _ rc Hb eq_refl Hn1); [|by apply (sock_add_eq s p _ _ sb sb' rc Hsb); [rewrite Hconn; lia|..]].
  set (s1 := accepted p sb' rc s).
  step. eexists. split; [reflexivity|].
  assert (length (events (started w p b rc)) - length (events (pw (world s1))) = if (rc <? 0)%Z then 0 else 1)%nat as Hlen.
  { unfold started, s1, w. cbn. destruct (rc <? 0); [lia|]. rewrite length_app. cbn. lia. }
  unfold set_pipes. cbv zeta. rewrite Hlen. destruct Hs; split; cbn; try assumption; [| | | | |congruence].
  - rewrite Hsb in *. eapply life_queue; [by eapply sockbase_life|]. rewrite elem_of_app, elem_of_replicate. naive_solver.
  - apply (eps_ok_at _ _ _ _ _ si_eps _ _ _ _ _ e); [apply si_eps|apply events_nodup_pipes, si_eps| |apply si_eps| |].
    + intros e' Hne. rewrite !elem_of_app, !elem_of_replicate. split_and!; try done; [naive_solver..|].
      intros p'. rewrite lookup_insert_Some. naive_solver.
    + intros ep' Hep'. eapply ep_ok_frame; [by eapply si_eps|done|done|..]; rewrite elem_of_app, elem_of_replicate; naive_solver.
    + rewrite !elem_of_app, !elem_of_replicate. intros Hev. exfalso.
      destruct Hc as [(_ & _ & _ & ? & ?)|[(_ & _ & _ & ?)|(_ & _ & ? & _)]]; naive_solver.
  - by destruct (rc =? 0).
  - revert Hpo'. by destruct (rc =? 0).
  - intros ? [= <-]. eapply proto_env_ok; [exact Hi| |done|done]. apply env_refl; [apply Hpo'|done].
Qed.

(** The protocol forgets a pipe. *)
Definition detached (p : pid) (sb : St) (s : sys) : sys :=
  set_attached (attached s ∖ {[p]})
    (on_sock (λ k, set_statistics (set_current_connections (current_connections (statistics k) - 1) (statistics k))
      (set_sockbase (Some sb) k)) s).

Lemma sock_rm_eq s p sb sb' :
  sockbase (sock s) = Some sb → 0 < current_connections (statistics (sock s)) ≤ INT_MAX →
  proto_rm (M := M) (W := psys) sb p = Ret sb' → nn_sock_rm (M := M) s p = Ret (detached p sb' s).
Proof.
  intros Hsb Hc E. unfold nn_sock_rm. rewrite Hsb. step. rewrite E. step.
  unfold stat_increment, nn_sock_stat_increment. cbn [Z.eqb Pos.eqb NN_STAT_CURRENT_CONNECTIONS].
  cbn -[stat_level Z.sub]. rewrite level_down by lia. reflexivity.
Qed.

Lemma own_delete_eps es ds em q own p : eps_ok es ds em q own → eps_ok es ds em q (delete p own).
Proof.
  intros [Hnd Hm He Hev Hq]. split; try done. intros e Hx. destruct (Hev e Hx) as [? Hn].
  split; [done|]. intros p' [_ ?]%lookup_delete_Some. by apply (Hn p').
Qed.

(** The state after a connection was closed. *)
Definition disconnected (p : pid) (s : sys) : sys :=
  set_powner (delete p (powner s))
    (set_world (PSys (stopped (pw (world s)) p) (can_out (world s) ∖ {[p]}) (can_in (world s) ∖ {[p]})) s).

Lemma stop_ok s p :
  sock_inv s → enabled (M := M) s (T_stop p) → ∃ s', sstep (M := M) s (T_stop p) = Ret s' ∧ sock_inv s'.
Proof.
  intros Hs (Hlk & [b Hb] & Hn1 & Hn2). pose proof (si_pipes _ Hs) as Hpo.
  pose proof (pipes_ok_stop _ _ _ _ _ _ p b Hpo Hb Hn1 Hn2) as Hpo'.
  destruct (proj2 (po_own _ _ _ _ _ _ Hpo p)) as [e He]; [by eexists|].
  destruct (has_protocol s e Hs (po_ep _ _ _ _ _ _ Hpo p e He)) as [sb Hsb].
  pose proof (si_proto _ Hs _ Hsb) as Hi. destruct (po_conn _ _ _ _ _ _ Hpo) as [Hconn Hmax].
  cbn [sstep]. destruct (Z.eqb_spec (pstate b) NN_PIPEBASE_STATE_ACTIVE) as [Ha|Ha].
  - assert (p ∈ attached s) as Hp by (apply (po_att _ _ _ _ _ _ Hpo); eauto).
    assert (size (attached s) ≠ 0%nat) as Hsz by (apply size_non_empty_iff; set_solver).
    destruct (proto_rm_ok sb (world s) (attached s) p
      (PSys (stopped (pw (world s)) p) (can_out (world s) ∖ {[p]}) (can_in (world s) ∖ {[p]}))) as (sb' & E & Hi'); [done| |].
    { split; [done|]. split; [apply env_refl; [apply Hpo'|done]|]. by split. }
    destruct (pipebase_stop_eq nn_sock_rm s (pw (world s)) p b (detached p sb' s) Hb) as (w' & E1 & E2).
    { rewrite (proj2 (Z.eqb_eq _ _) Ha). apply (sock_rm_eq s p sb); [done|lia|done]. }
    rewrite E1. step. rewrite E2. step. exists (disconnected p (detached p sb' s)). split; [reflexivity|].
    destruct Hs; split; cbn; try assumption; [| | |congruence].
    + rewrite Hsb in *. by eapply sockbase_life.
    + by apply own_delete_eps.
    + by intros ? [= <-].
  - destruct (pipebase_stop_eq nn_sock_rm s (pw (world s)) p b s Hb) as (w' & E1 & E2).
    { by rewrite (proj2 (Z.eqb_neq _ _) Ha). }
    rewrite E1. step. rewrite E2. step. exists (disconnected p s). split; [reflexivity|].
    assert (p ∉ can_out (world s) ∧ p ∉ can_in (world s)) as [Hno Hni].
    { split; intros Hx; (destruct (core_active (world s) p (po_world _ _ _ _ _ _ Hpo)) as (b' & Hb' & Hx'); [tauto|congruence]). }
    assert (p ∉ attached s) as Hna by (intros (? & ? & ?)%(po_att _ _ _ _ _ _ Hpo); congruence).
    replace (attached s ∖ {[p]}) with (attached s) in Hpo' by set_solver.
    destruct Hs; split; cbn; try assumption; [|].
    + by apply own_delete_eps.
    + intros sb1 Hsb1. eapply proto_env_ok; [by apply si_proto| |cbn; set_solver|cbn; set_solver].
      apply env_refl; [apply Hpo'|done].
Qed.

(** A half of a pipe becomes ready. *)
Lemma event_ok s p b b' ty w' :
  sock_inv s → locked s = true → bases (pw (world s)) !! p = Some b → pstate b' = pstate b →
  w' = PWorld (<[p := b']> (bases (pw (world s)))) (events (pw (world s)) ++ [(p, ty)]) (tworld (pw (world s))) →
  core_inv (PSys w' (can_out (world s)) (can_in (world s))) →
  (ty = NN_PIPE_IN → proto_hears (St := St) (W := psys) (M := M) = true) → sock_inv (set_pipes w' s).
Proof.
  intros Hs Hlk Hb Hp Ew Hc Hty.
  pose proof (pipes_ok_event _ _ _ _ _ _ p ty b b' w' (si_pipes _ Hs) Hb Hp Ew Hc Hty) as Hpo'.
  assert (length (events w') - length (events (pw (world s))) = 1)%nat as Hlen.
  { rewrite Ew. cbn. rewrite length_app. cbn. lia. }
  unfold set_pipes. cbv zeta. rewrite Hlen. cbn [replicate].
  destruct Hs; split; cbn; try assumption; [| | |congruence].
  - eapply life_queue; [eassumption|]. rewrite elem_of_snoc. naive_solver.
  - eapply eps_ok_queue; [eassumption| |apply (events_nodup_pipes _ 1); apply si_eps].
    intros e. rewrite !elem_of_snoc. naive_solver.
  - intros sb Hsb. eapply proto_env_ok; [by apply si_proto| |done|done]. apply env_refl; [done|by rewrite Ew].
Qed.

Lemma half_active s p (P : nn_pipebase → Prop) : half s p P →
  ∃ b, bases (pw (world s)) !! p = Some b ∧ pstate b = NN_PIPEBASE_STATE_ACTIVE ∧ P b.
Proof. done. Qed.

Lemma transport_ok s t :
  sock_inv s → enabled (M := M) s (T_world t) → ∃ s', sstep (M := M) s (T_world t) = Ret s' ∧ sock_inv s'.
Proof.
  intros Hs [Hsent Hrecvd]. cbn [sstep]. eexists. split; [reflexivity|].
  unfold set_pipes. cbv zeta. cbn [set_tworld events]. rewrite Nat.sub_diag. cbn [replicate]. rewrite app_nil_r.
  assert (core_inv (PSys (set_tworld (pw (world s)) t) (can_out (world s)) (can_in (world s)))) as Hc.
  { destruct (po_world _ _ _ _ _ _ (si_pipes _ Hs)) as (full & Hf & E & ? & ?).
    exists (PSys (set_tworld (pw full) t) (can_out full) (can_in full)). split_and!; cbn; try done; [|by rewrite E].
    destruct Hf. by split. }
  destruct Hs; split; cbn; try assumption.
  - by eapply pipes_ok_world.
  - intros sb Hsb. eapply proto_env_ok; [by apply si_proto| |done|done]. by split.
Qed.

Lemma ep_stopped_ok s e :
  sock_inv s → enabled (M := M) s (T_stopped e) → ∃ s', nn_ep_stopped e s = Ret s' ∧ sock_inv s'.
Proof.
  intros Hs (Hlk & (ep & Hep & Hst & Hq) & Hf & Hown). unfold fsm_of in Hf. rewrite Hep in Hf.
  destruct (eo_ep _ _ _ _ _ (si_eps _ Hs) e ep Hep) as (_ & _ & Hc).
  destruct Hc as [(_ & E & _)|[(Hds & _ & _ & Hns)|(_ & _ & ? & _)]]; [rewrite E in Hf; discriminate Hf| |done].
  unfold nn_ep_stopped, raise_ep, ep_queued. rewrite bool_decide_eq_false_2 by tauto. cbn [negb nn_assert]. step.
  eexists. split; [reflexivity|]. destruct Hs; split; cbn; try assumption; [| | |congruence].
  - eapply life_queue; [eassumption|]. rewrite elem_of_snoc. naive_solver.
  - apply (eps_ok_at _ _ _ _ _ si_eps _ _ _ _ _ e); [apply si_eps| | |apply si_eps| |].
    + by apply events_nodup_snoc; [apply si_eps|].
    + intros e' Hne. rewrite !elem_of_snoc. naive_solver.
    + intros ep' Hep'. rewrite Hep in Hep'. injection Hep' as <-.
      destruct (eo_ep _ _ _ _ _ si_eps e ep Hep) as (? & ? & Hx). unfold ep_ok. rewrite !elem_of_snoc.
      destruct Hx as [(Hx & _)|[Hx|(_ & _ & ? & _)]]; [by destruct (eps_exclusive _ _ _ _ _ si_eps e Hx)| |done].
      naive_solver.
    + by intros _.
  - eapply pipes_ok_eps; [eassumption|by left|]. rewrite pipe_tokens_app. unfold pipe_tokens.
    rewrite (filter_cons_False _ (SE_ep_action e)) by done. cbn. lia.
Qed.

(** The error of an endpoint changes with the counter. *)
Lemma error_changed s e ep errnum cur :
  sock_inv s → locked s = true → epmem s !! e = Some ep →
  cur = current_ep_errors (statistics (sock s)) + Z.of_nat (bcount in_error (set_ep_errno errnum ep)) - Z.of_nat (bcount in_error ep) →
  sock_inv (put_ep e (set_ep_errno errnum ep)
    (on_sock (λ k, set_statistics (set_current_ep_errors cur (statistics k)) k) s)).
Proof.
  intros Hs Hlk Hep ->. destruct Hs; split; cbn; try assumption; [| |].
  - by eapply eps_ok_same.
  - by apply ids_ok_update.
  - eapply pipes_ok_eps; [eassumption| |done]. intros e' [ep' Hep']. left.
    destruct (decide (e = e')) as [->|]; [by rewrite lookup_insert_eq|by rewrite lookup_insert_ne].
Qed.

Lemma same_errors s : on_sock (λ k, set_statistics (set_current_ep_errors (current_ep_errors (statistics k)) (statistics k)) k) s = s.
Proof. by destruct s as [[? ? ? ? ? ? ? ? ? ? ? ? ? ? ? []] ? ? ? ? ? ?]. Qed.

Lemma set_error_ok s e errnum :
  sock_inv s → locked s = true → is_Some (epmem s !! e) → errnum ≠ 0 →
  ∃ s', nn_ep_set_error e errnum s = Ret s' ∧ sock_inv s'.
Proof.
  intros Hs Hlk [ep Hep] Hne. unfold nn_ep_set_error, get_ep. rewrite Hep. step.
  destruct (Z.eqb_spec (ep_errno ep) errnum); [by exists s|].
  destruct (ids_ok_error _ _ _ _ _ (si_ids _ Hs) Hep) as [Hroom _].
  destruct (Z.eqb_spec (ep_errno ep) 0) as [H0'|H0'].
  - unfold stat_increment, nn_sock_stat_increment. cbn [Z.eqb Pos.eqb NN_STAT_CURRENT_EP_ERRORS].
    cbn -[stat_level Z.add]. rewrite level_up by auto. step. eexists. split; [reflexivity|].
    apply error_changed; try done. rewrite (bcount_true _ (set_ep_errno _ _)), (bcount_false _ ep) by (unfold in_error; cbn; congruence). lia.
  - step. eexists. split; [reflexivity|]. rewrite <- (same_errors s) at 1. apply error_changed; try done.
    rewrite !bcount_true by done. lia.
Qed.

Lemma clear_error_ok s e :
  sock_inv s → locked s = true → is_Some (epmem s !! e) → ∃ s', nn_ep_clear_error e s = Ret s' ∧ sock_inv s'.
Proof.
  intros Hs Hlk [ep Hep]. unfold nn_ep_clear_error, get_ep. rewrite Hep. step.
  destruct (Z.eqb_spec (ep_errno ep) 0) as [|H0']; [by exists s|].
  destruct (ids_ok_error _ _ _ _ _ (si_ids _ Hs) Hep) as [_ Hroom].
  unfold stat_increment, nn_sock_stat_increment. cbn [Z.eqb Pos.eqb NN_STAT_CURRENT_EP_ERRORS].
  cbn -[stat_level Z.sub]. rewrite level_down by auto. step. eexists. split; [reflexivity|].
  apply error_changed; try done. rewrite (bcount_false _ (set_ep_errno _ _)), (bcount_true _ ep) by (unfold in_error; cbn; congruence). lia.
Qed.

(** *** The threads that use the socket *)
Lemma hold_ok s : sock_inv s → sock_inv (nn_sock_hold s).1.
Proof.
  intros Hs. unfold nn_sock_hold. destruct (_ || _) eqn:E; [|done].
  assert (sk_fsm (sock s) = NN_FSM_STATE_ACTIVE) as Hf.
  { destruct (si_life _ Hs) as [? Hst|? Hst|? Hst|? Hst]; rewrite Hst in E; done. }
  destruct Hs; split; cbn; try assumption. destruct si_holds as (? & Hr & Hpos). specialize (Hpos Hf).
  rewrite Hr. split; [lia|]. split; [|lia]. by rewrite !(proj2 (Z.eqb_neq _ _)) by lia.
Qed.

Lemma rele_ok s : sock_inv s → enabled (M := M) s U_rele → sock_inv (nn_sock_rele s).
Proof.
  intros Hs [Hpos Hact]. unfold nn_sock_rele. cbn.
  destruct Hs as [? (Hge & Hr & Hh) ? ? ? ? ? ? ?]. rewrite (proj2 (Z.eqb_neq _ _)) in Hr by lia.
  destruct (Z.eqb_spec (holds (sock s) - 1) 0) as [Hz|Hz]; split; cbn; try assumption.
  - rewrite Hr, Hz. split; [done|]. split; [done|]. intros Hf. specialize (Hact Hf). lia.
  - rewrite Hr. split; [lia|]. split; [by rewrite (proj2 (Z.eqb_neq _ _))|]. intros Hf. specialize (Hact Hf). lia.
Qed.

(** A hold succeeds exactly until the socket is closed. *)
Lemma hold_cases s : sock_inv s →
  (sk_fsm (sock s) = NN_FSM_STATE_ACTIVE ∧ nn_sock_hold s = (on_sock (set_holds (holds (sock s) + 1)) s, 0)) ∨
  (sk_fsm (sock s) = NN_FSM_STATE_STOPPING ∧ nn_sock_hold s = (s, - EBADF)).
Proof.
  intros Hs. unfold nn_sock_hold.
  destruct (si_life _ Hs) as [? Hst|? Hst|? Hst|? Hst]; rewrite Hst; cbn; tauto.
Qed.

(** Closing begins. *)
Lemma stop_state s s' : nn_sock_stop (M := M) s = Ret s' → sk_fsm (sock s) = NN_FSM_STATE_ACTIVE →
  holds (sock s') = holds (sock s) ∧ sk_fsm (sock s') = NN_FSM_STATE_STOPPING ∧ locked s' = locked s.
Proof.
  unfold nn_sock_stop, nn_fsm_stop, sock_fsm. intros E Hf. rewrite Hf in E. cbn [negb Z.eqb NN_FSM_STATE_ACTIVE Pos.eqb] in E.
  apply shutdown_kept in E. exact E.
Qed.

(** Once nobody holds the socket and all of it has stopped, it can be freed. *)
Lemma term_ok s : sock_inv s → locked s = false → 0 < termsem (sock s) → 0 < relesem (sock s) →
  ∃ s', nn_sock_term s = Ret s'.
Proof.
  intros Hs Hlk Ht Hr. destruct (si_idle _ Hs Hlk) as [Hq _]. unfold nn_sock_term.
  destruct (si_life _ Hs) as [_ _ _ Ht'|_ _ _ Ht'|_ _ _ Ht'|Hf _ _ Ht' _ E1 E2]; [lia..|].
  rewrite Ht'. cbn [Z.ltb Z.compare]. step. change (relesem (sock (on_sock _ s))) with (relesem (sock s)).
  rewrite (proj2 (Z.ltb_lt _ _) Hr). step. unfold nn_fsm_stopped_noevent, sock_fsm. cbn. rewrite Hf. cbn.
  unfold nn_fsm_term, nn_fsm_isidle. cbn. rewrite Hq, E1, E2. by eexists.
Qed.

(** *** The protocol *)
Lemma protocol_ok s :
  sock_inv s → enabled (M := M) s T_protocol → ∃ s', nn_sock_stopped s = Ret s' ∧ sock_inv s'.
Proof.
  intros Hs (Hlk & Hst & Hn). unfold nn_sock_stopped. rewrite bool_decide_eq_true_2 by done. step.
  eexists. split; [reflexivity|]. destruct Hs; split; cbn; try assumption; [| | |congruence].
  - destruct si_life as [? E|? E|? ? ? ? ? ? ?|? E]; [rewrite E in Hst; discriminate Hst..| |rewrite E in Hst; discriminate Hst].
    by apply life_protocol.
  - eapply eps_ok_queue; [eassumption| |apply events_nodup_snoc; [apply si_eps|done]].
    intros e. rewrite !elem_of_snoc. naive_solver.
  - eapply pipes_ok_eps; [eassumption|by left|]. rewrite pipe_tokens_app. unfold pipe_tokens.
    rewrite (filter_cons_False _ SE_sock_stopped) by done. cbn. lia.
Qed.

Lemma stat_ok s name inc :
  sock_inv s → name ∈ counters → 0 < inc → ∃ s', stat_increment name inc s = Ret s' ∧ sock_inv s'.
Proof.
  intros Hs Hn Hpos. destruct (stat_counter (statistics (sock s)) name inc Hn Hpos) as (st & E & E1 & E2).
  unfold stat_increment. rewrite E. step. eexists. split; [reflexivity|].
  destruct Hs; split; cbn; rewrite ?E1, ?E2; assumption.
Qed.

(** Every step of a state that satisfies the invariant returns, and preserves it. *)
Lemma sstep_ok s a :
  sock_inv s → enabled (M := M) s a → slegal (M := M) s a → ∃ s', sstep (M := M) s a = Ret s' ∧ sock_inv s'.
Proof.
  intros Hs Hen Hl. destruct a as [| | |m fl|fl| | |level o v|level o n|e rc addr|eid| | | |p e|p|p|p|t|e|e errnum|e|name inc|];
    try exact (transport_ok s t Hs Hen).
  - cbn. eexists. split; [reflexivity|]. destruct Hs; split; cbn; try assumption. done.
  - destruct Hen as [Hlk Hq]. cbn. destruct (evq s) as [|ev q] eqn:E; [done|]. by apply process_ok.
  - destruct Hen as [Hlk Hq]. destruct (onleave_ok s Hs Hlk Hq) as (s' & E & ?). cbn [sstep]. rewrite E. step. by eexists.
  - destruct Hen as [Hlk Hq]. destruct (send_try_ok s m fl Hs Hlk Hl) as (s' & r & E & ? & _). cbn [sstep]. rewrite E. step. by eexists.
  - destruct Hen as [Hlk Hq]. destruct (recv_try_ok s fl Hs Hlk) as (s' & r & m & E & ? & _). cbn [sstep]. rewrite E. step. by eexists.
  - destruct Hen as (Hlk & Hq & Hno). destruct (send_again_ok s Hs Hlk Hno) as (s' & E & ? & _). by exists s'.
  - destruct Hen as (Hlk & Hq & Hno). destruct (recv_again_ok s Hs Hlk Hno) as (s' & E & ? & _). by exists s'.
  - destruct Hen as [Hlk Hq]. destruct (setopt_ok s level o v Hs Hlk Hl) as (k & rc & E & ?). cbn [sstep]. rewrite E. step. by eexists.
  - destruct Hen as [Hlk Hq]. destruct (getopt_ok s level o n Hs Hlk Hl) as (k & rc & r & E & ?). cbn [sstep]. rewrite E. step. by eexists.
  - destruct Hen as (Hlk & Hq & He & Ha & Hid). cbn [sstep]. rewrite add_ep_eq by done.
    destruct (rc <? 0); step; eexists; (split; [reflexivity|]); [done|]. by apply added_ok.
  - destruct Hen as [Hlk Hq]. cbn [sstep]. rewrite rm_ep_eq by done.
    destruct (find_ep eid s) as [e|] eqn:E; step; [|by eexists]. apply find_ep_Some in E as [He _].
    destruct (epmem s !! e) as [ep|] eqn:Ee; step; eexists; (split; [reflexivity|]); [|done]. by apply stopping_ok.
  - destruct Hen as [Hlk Hq]. by apply sock_stop_ok.
  - eexists. split; [reflexivity|]. by apply hold_ok.
  - eexists. split; [reflexivity|]. by apply rele_ok.
  - by apply start_ok.
  - by apply stop_ok.
  - destruct Hen as (Hlk & b & Hb & Ha & Ho).
    destruct (core_sent (world s) p b (po_world _ _ _ _ _ _ (si_pipes _ Hs)) Hb Ha Ho) as [E Hc].
    cbn [sstep]. rewrite E. step. eexists. split; [reflexivity|]. by apply (event_ok s p b (set_out b OUT_IDLE) NN_PIPE_OUT).
  - destruct Hen as (Hlk & b & Hb & Ha & Ho). cbn in Hl.
    destruct (core_received (world s) p b (po_world _ _ _ _ _ _ (si_pipes _ Hs)) Hb Ha Ho) as [E Hc].
    cbn [sstep]. rewrite E. step. eexists. split; [reflexivity|]. by apply (event_ok s p b (set_in b IN_IDLE) NN_PIPE_IN).
  - by apply ep_stopped_ok.
  - destruct Hen as (Hlk & He & Hne). by apply set_error_ok.
  - destruct Hen as [Hlk He]. by apply clear_error_ok.
  - destruct Hen as (Hlk & Hn & Hpos). by apply stat_ok.
  - by apply protocol_ok.
Qed.

(** ** The socket from its creation on *)
Section life.
Context (type : nn_socktype) (base : St) (sfd rfd : Z) (name : list Z) (w : psys).
Hypothesis Hdir : has_flag (st_flags type) NN_SOCKTYPE_FLAG_NOSEND = false ∨
  has_flag (st_flags type) NN_SOCKTYPE_FLAG_NORECV = false.
Hypothesis Hbase : proto_inv base w ∅.
Hypothesis Hnew : events (pw w) = [] ∧ bases (pw w) = ∅.
Hypothesis Hfds : 0 ≤ sfd ∧ 0 ≤ rfd.

Lemma init_ok : ∃ s, nn_sock_init (M := M) (OS := OS) type base sfd rfd name w = Ret s ∧ sock_inv s.
Proof.
  unfold nn_sock_init. rewrite <- negb_andb.
  replace (_ && _) with false by (symmetry; apply andb_false_iff; tauto). cbn [negb nn_assert]. step.
  unfold nn_fsm_start, nn_fsm_isidle. cbn -[nn_sock_onleave Z.mul]. rewrite bool_decide_eq_false_2 by set_solver.
  cbn -[nn_sock_onleave Z.mul]. match goal with |- context [nn_sock_onleave ?s] => set (s0 := s) end.
  assert (sock_inv s0) as Hs.
  { split; try done; cbn.
    - apply life_active; try done. set_solver.
    - split; [done|]. split; intros Hno; cbn in Hno |- *; rewrite Hno; eexists; (split; [reflexivity|]); (split; [done|]); intros _; (split; [cbn; tauto|done]).
    - split; try done; [constructor|set_solver|set_solver|constructor].
    - destruct Hnew as [He Hb]. split; rewrite ?He, ?Hb; try done; [by eapply proto_core| | |].
      + intros p. rewrite lookup_empty. split; [set_solver|naive_solver].
      + intros p. by rewrite !lookup_empty.
      + intros p Hp. by apply not_elem_of_nil in Hp.
    - by intros ? [= <-]. }
  destruct (onleave_ok s0 Hs eq_refl eq_refl) as (s' & -> & Hs'). step. by eexists.
Qed.

Lemma init_state s : nn_sock_init (M := M) (OS := OS) type base sfd rfd name w = Ret s →
  holds (sock s) = 1 ∧ sk_fsm (sock s) = NN_FSM_STATE_ACTIVE ∧ locked s = false.
Proof.
  unfold nn_sock_init, nn_fsm_start. intros E. inv_ret. cbn [nn_sock_handler] in *.
  match goal with E : nn_sock_onleave _ = _, E' : nn_sock_handler _ _ _ _ = _ |- _ =>
    destruct (onleave_kept _ _ E) as (? & ? & _); destruct (handler_kept _ _ _ _ _ E') as (? & ? & _) end.
  cbn in *. split_and!; congruence.
Qed.

Lemma sreach_inv s0 s : nn_sock_init (M := M) type base sfd rfd name w = Ret s0 → sreach (M := M) s0 s → sock_inv s.
Proof.
  intros E. destruct init_ok as (s1 & E1 & H1'). rewrite E1 in E. injection E as <-.
  induction 1 as [|s a s' _ IH Hen Hl E]; [done|].
  destruct (sstep_ok s a IH Hen Hl) as (s'' & E' & ?). congruence.
Qed.

(** C3: when a socket can fail.  A socket whose protocol keeps its contract can be
    created; from then on threads of the user and of the transports enter its
    context in any order, send, receive, poll, set options, add and remove
    endpoints, open, use and close connections, report errors and shutdowns, close
    the socket; events are processed before the context is left; messages, pipes
    and the transport are as the contracts of the protocol and of transport.h ask,
    and the numbers of endpoints and pipes stay below INT_MAX.  Each such step of
    a reachable state returns and leads to a reachable state, so that no assertion
    of core/sock.c, core/ep.c and core/pipe.c fires and nothing that was freed is
    used, unless it is one of four steps that come too late or too early: an
    endpoint is added, or an option of the protocol set or read, when the socket
    is being closed, or a pipe is stopped while an event of it is queued.  These
    four are not made safe by the code (core/sock.c lines 485 and 279, core/pipe.c
    line 96), and a run ends with them. *)
Theorem sock_safe :
  ∃ s0, nn_sock_init (M := M) (OS := OS) type base sfd rfd name w = Ret s0 ∧
    ∀ s a, sreach (M := M) s0 s → possible (M := M) s a →
      sock_race (M := M) s a ∨ ∃ s', sstep (M := M) s a = Ret s' ∧ sreach (M := M) s0 s'.
Proof.
  destruct init_ok as (s0 & E & _). exists s0. split; [done|]. intros s a Hr [?|[Hen Hl]]%possible_race; [by left|right].
  destruct (sstep_ok s a (sreach_inv s0 s E Hr) Hen Hl) as (s' & Es & _).
  exists s'. split; [done|]. by eapply sreach_step.
Qed.

Lemma poll_flag no fd flags flag : fd_ok no fd flags flag NN_SOCK_STATE_ACTIVE → no = false →
  ∃ f, fd = Some f ∧ (nn_efd_poll f = 0 ↔ has_flag flags flag = true).
Proof.
  intros Hfd Hno. destruct (Hfd Hno) as (f & -> & _ & Ha). destruct (Ha eq_refl) as [Hf Hc].
  exists f. split; [done|]. unfold nn_efd_poll. rewrite (proj2 (Z.ltb_ge _ _)), Hc by lia. destruct (has_flag flags flag); cbn; split; done.
Qed.

(** C5: polling tells the truth.  Whenever no thread is in the context of an open
    socket, the file descriptor NN_RCVFD is readable exactly when the protocol
    has a message to receive, and NN_SNDFD exactly when it can send one. *)
Theorem sock_poll s0 s :
  nn_sock_init (M := M) type base sfd rfd name w = Ret s0 → sreach (M := M) s0 s →
  locked s = false → sk_state (sock s) = NN_SOCK_STATE_ACTIVE →
  ∃ sb, sockbase (sock s) = Some sb ∧
    (no_recv s = false → ∃ fd, rcvfd (sock s) = Some fd ∧
       (nn_efd_poll fd = 0 ↔ has_flag (proto_events (W := psys) (M := M) sb) NN_SOCKBASE_EVENT_IN = true)) ∧
    (no_send s = false → ∃ fd, sndfd (sock s) = Some fd ∧
       (nn_efd_poll fd = 0 ↔ has_flag (proto_events (W := psys) (M := M) sb) NN_SOCKBASE_EVENT_OUT = true)).
Proof.
  intros E Hr Hlk Hst. pose proof (sreach_inv s0 s E Hr) as Hs.
  destruct (si_life _ Hs) as [_ _ [sb Hsb] _ _|? E'|? E'|? E']; [|rewrite Hst in E'; discriminate E'..].
  exists sb. split; [done|]. destruct (si_idle _ Hs Hlk) as [_ Hfl]. destruct (Hfl Hst sb Hsb) as [Hi Ho].
  destruct (si_fds _ Hs) as (_ & Hin & Hout). rewrite Hst in Hin, Hout.
  split; intros Hno; [rewrite <- (Hi Hno); exact (poll_flag _ _ _ _ Hin Hno)|rewrite <- (Ho Hno); exact (poll_flag _ _ _ _ Hout Hno)].
Qed.

(** C4: closing a socket makes progress.  Once a socket is being closed, sends and
    holds fail with EBADF.  Whenever no thread is in its context, the transport
    of some endpoint has still to report that it has stopped; or all endpoints
    are gone and the protocol has still to report it; or the socket is finished:
    no endpoint, no pipe and no protocol is left, the semaphore nn_close waits
    for is posted, and when no thread uses the socket nn_sock_term returns. *)
Theorem sock_close s0 s :
  nn_sock_init (M := M) type base sfd rfd name w = Ret s0 → sreach (M := M) s0 s →
  locked s = false → sk_fsm (sock s) = NN_FSM_STATE_STOPPING →
  (nn_sock_hold s).2 = - EBADF ∧
  (∀ m fl, nn_sock_send_try (M := M) s m fl = Ret (s, Some (if no_send s then - ENOTSUP else - EBADF))) ∧
  ((∃ e ep, e ∈ sdeps (sock s) ∧ epmem s !! e = Some ep ∧ ep_state ep = NN_EP_STATE_STOPPING) ∨
   (sk_state (sock s) = NN_SOCK_STATE_STOPPING ∧ is_Some (proto_stop (St := St)) ∧ epmem s = ∅ ∧ bases (pw (world s)) = ∅) ∨
   (epmem s = ∅ ∧ bases (pw (world s)) = ∅ ∧ sockbase (sock s) = None ∧ termsem (sock s) = 1 ∧
    (holds (sock s) = 0 → ∃ s', nn_sock_term s = Ret s'))).
Proof.
  intros E Hr Hlk Hf. pose proof (sreach_inv s0 s E Hr) as Hs. destruct (si_idle _ Hs Hlk) as [Hq _].
  assert (∀ st, sk_state (sock s) = st → st = NN_SOCK_STATE_STOPPING_EPS ∨ st = NN_SOCK_STATE_STOPPING ∨ st = NN_SOCK_STATE_FINI →
    (nn_sock_hold s).2 = - EBADF ∧
    ∀ m fl, nn_sock_send_try (M := M) s m fl = Ret (s, Some (if no_send s then - ENOTSUP else - EBADF))) as Hgone.
  { intros st Hst Hc. unfold nn_sock_hold, nn_sock_send_try. rewrite Hst.
    destruct Hc as [->|[->| ->]]; (split; [done|]); intros m fl; by destruct (no_send s). }
  assert (eps (sock s) = [] → sdeps (sock s) = [] → epmem s = ∅ ∧ bases (pw (world s)) = ∅) as Hempty.
  { intros E1 E2. pose proof (si_pipes _ Hs). assert (parts (set_locked true s)) as Hp by (destruct Hs; by split).
    destruct (no_endpoints _ Hp E1 E2) as (? & _ & ? & _). done. }
  destruct (si_life _ Hs) as [E'|_ Hst _ _ _ E1 E2|_ Hst _ _ Hp E1 E2|_ Hst Hsb Ht _ E1 E2].
  - rewrite Hf in E'. discriminate E'.
  - destruct (Hgone _ Hst) as [Hg1 Hg2]; [by left|]. split; [done|]. split; [done|]. left.
    destruct (sdeps (sock s)) as [|e l] eqn:El; [done|].
    destruct (eo_mem _ _ _ _ _ (si_eps _ Hs) e) as [ep Hep]; [rewrite El; set_solver|].
    exists e, ep. split; [set_solver|]. split; [done|].
    destruct (eo_ep _ _ _ _ _ (si_eps _ Hs) e ep Hep) as (_ & _ & Hc). rewrite Hq, E1 in Hc.
    destruct Hc as [(? & _)|[(_ & _ & ? & _)|(_ & _ & _ & Hx & _)]]; [set_solver|done|set_solver].
  - destruct (Hgone _ Hst) as [Hg1 Hg2]; [by auto|]. split; [done|]. split; [done|]. right; left.
    destruct (Hempty E1 E2). done.
  - destruct (Hgone _ Hst) as [Hg1 Hg2]; [by auto|]. split; [done|]. split; [done|]. right; right.
    destruct (Hempty E1 E2). split_and!; try done. intros Hh.
    destruct (si_holds _ Hs) as (_ & Hrel & _). rewrite Hh in Hrel. cbn in Hrel. apply (term_ok s Hs Hlk); lia.
Qed.

Lemma find_ep_added s e addr :
  sock_inv s → locked s = true → epmem s !! e = None → sk_eid (sock s) < INT_MAX →
  sk_fsm (sock s) = NN_FSM_STATE_ACTIVE → find_ep (sk_eid (sock s)) (added e addr s) = Some e.
Proof.
  intros Hs Hlk He Hid Hf. destruct (si_ids _ (added_ok s e addr Hs Hlk He Hid Hf)) as (_ & _ & Hinj & _).
  assert (ep_eid <$> epmem (added e addr s) !! e = Some (sk_eid (sock s))) as Hee by (cbn; by rewrite lookup_insert_eq).
  assert (is_Some (find_ep (sk_eid (sock s)) (added e addr s))) as [e' Hf'].
  { unfold find_ep. apply fmap_is_Some. eapply list_find_elem_of; [|exact Hee]. cbn. set_solver. }
  rewrite Hf'. f_equal. apply find_ep_Some in Hf' as [_ Hx].
  apply fmap_Some in Hx as (ep' & Hx & Hi'). apply fmap_Some in Hee as (ep & Hy & Hi).
  apply (Hinj e' e ep' ep Hx Hy). congruence.
Qed.

(** C6: endpoint ids are exact.  A successful nn_bind or nn_connect returns an id
    that no endpoint of the socket has, and appends the endpoint; a failed one
    changes nothing.  nn_shutdown with that id finds exactly this endpoint: it is
    moved to the list of those being shut down and told to stop, all others keep
    running; a second nn_shutdown with the id fails with EINVAL and changes
    nothing. *)
Theorem sock_endpoints s0 s e rc addr :
  nn_sock_init (M := M) type base sfd rfd name w = Ret s0 → sreach (M := M) s0 s →
  enabled (M := M) s (U_add_ep e rc addr) → slegal (M := M) s (U_add_ep e rc addr) →
  if rc <? 0 then nn_sock_add_ep (Some e) rc addr s = Ret (s, rc)
  else ∃ s1 s2 ep, let eid := sk_eid (sock s) in
    nn_sock_add_ep (Some e) rc addr s = Ret (s1, eid) ∧ eps (sock s1) = eps (sock s) ++ [e] ∧
    (∀ e' ep', epmem s !! e' = Some ep' → ep_eid ep' ≠ eid) ∧
    nn_sock_rm_ep eid s1 = Ret (s2, 0) ∧ eps (sock s2) = eps (sock s) ∧ sdeps (sock s2) = sdeps (sock s) ++ [e] ∧
    epmem s2 !! e = Some ep ∧ ep_state ep = NN_EP_STATE_STOPPING ∧ ep_addr ep = addr ∧
    (∀ e', e' ≠ e → epmem s2 !! e' = epmem s !! e') ∧
    nn_sock_rm_ep eid s2 = Ret (s2, - EINVAL).
Proof.
  intros E Hr (Hlk & Hq & He & Ha & Hid) Hf. pose proof (sreach_inv s0 s E Hr) as Hs. cbn in Hf.
  rewrite !add_ep_eq by done. destruct (rc <? 0); [done|].
  set (ep := NnEp NN_FSM_STATE_ACTIVE NN_EP_STATE_ACTIVE (sk_eid (sock s)) 0 (ep_template (sk_opts (sock s))) addr).
  exists (added e addr s), (stopping e ep (added e addr s)), (stopping_ep ep). cbv zeta.
  destruct (eps_fresh _ _ _ _ _ (si_eps _ Hs) e He) as (Hn1 & Hn2 & _).
  destruct (si_ids _ Hs) as (_ & Hlt & _).
  pose proof (added_ok s e addr Hs Hlk He Hid Hf) as Hs1.
  assert (eps (sock (stopping e ep (added e addr s))) = eps (sock s)) as Eeps.
  { cbn. rewrite filter_app, (filter_ne_notin e) by done. rewrite filter_cons_False, filter_nil by tauto. apply app_nil_r. }
  assert (∀ e', e' ≠ e → epmem (stopping e ep (added e addr s)) !! e' = epmem s !! e') as Hoth.
  { intros e' Hne. cbn. by rewrite !lookup_insert_ne. }
  split; [done|]. split; [done|]. split.
  { intros e' ep' He' Hx. specialize (Hlt _ _ He'). lia. }
  split.
  { rewrite rm_ep_eq by done. rewrite find_ep_added by done. cbn. by rewrite lookup_insert_eq. }
  split; [done|]. split; [done|]. split; [cbn; by rewrite lookup_insert_eq|]. split; [done|]. split; [done|].
  split; [done|]. unfold nn_sock_rm_ep.
  destruct (find_ep (sk_eid (sock s)) (stopping e ep (added e addr s))) as [e'|] eqn:Ef; [exfalso|done].
  apply find_ep_Some in Ef as [Hin Hx]. rewrite Eeps in Hin. rewrite Hoth in Hx by (intros ->; done).
  apply fmap_Some in Hx as (ep' & Hx & Hi'). specialize (Hlt _ _ Hx). lia.
Qed.

(** The statistics of a socket: current_connections is the number of its active
    pipes; current_ep_errors is at least the number of its endpoints in error
    (an endpoint that is freed while in error stays counted). *)
Theorem sock_statistics s0 s :
  nn_sock_init (M := M) type base sfd rfd name w = Ret s0 → sreach (M := M) s0 s →
  current_connections (statistics (sock s)) =
    Z.of_nat (size (filter (λ pb, pstate pb.2 = NN_PIPEBASE_STATE_ACTIVE) (bases (pw (world s))))) ∧
  Z.of_nat (mcount in_error (epmem s)) ≤ current_ep_errors (statistics (sock s)).
Proof.
  intros E Hr. pose proof (sreach_inv s0 s E Hr) as Hs. destruct (si_ids _ Hs) as (_ & _ & _ & Hc & _).
  split; [|done]. destruct (si_pipes _ Hs) as [_ Ha _ _ _ [-> _] _]. f_equal. rewrite <- size_dom. f_equal.
  apply set_eq. intros p. rewrite Ha, elem_of_dom. unfold is_Some. by setoid_rewrite map_lookup_filter_Some.
Qed.

End life.
End safe.

(** ** Examples: a PAIR socket over a transport with four messages to deliver *)

(** [nn_xpair_sockbase_vfptr] leaves the optional functions out. *)
#[export] Instance xpair_sockproto : SockProto nn_excl := {
  proto_stop := None; proto_setopt := None; proto_getopt := None }.

#[export] Instance xpair_sockproto_ok `{TransportFinite TW M} : SockProtoOk nn_excl TW M.
Proof. by split. Qed.

Definition nn_pair_socktype : nn_socktype := NnSocktype AF_SP NN_PAIR 0 nn_xpair_ispeer.

Module SockSample.
Import Sample Finite OptSample.

Definition w0 : psys (TW := ftw Z) := PSys (PWorld ∅ [] (Ftw [] [] 4)) ∅ ∅.

Definition start : outcome (sys nn_excl unit (ftw Z)) :=
  nn_sock_init (M := Z) nn_pair_socktype nn_xpair_init 3 4 [] w0.

(** Bind, connect pipe 2, send, receive the arrival on pipe 2. *)
Definition open : list (saction (TW := ftw Z) (M := Z)) :=
  [S_enter; U_add_ep 1 0 [97; 98]; S_leave; S_enter; T_start 2 1; S_dispatch; S_leave;
   S_enter; U_send 7 0; S_leave; S_enter; T_received 2; S_dispatch; S_leave].

(** Close: the endpoint is asked to stop, closes its connection and reports. *)
Definition close : list (saction (TW := ftw Z) (M := Z)) :=
  [S_enter; U_stop; S_leave; S_enter; T_stop 2; T_stopped 1; S_dispatch; S_dispatch; S_leave; U_rele].

Definition run (acts : list saction) : outcome (sys nn_excl unit (ftw Z)) := s ← start; srun s acts.

Lemma pair_ok : proto_inv (W := psys (TW := ftw Z)) (M := Z) nn_xpair_init w0 ∅.
Proof.
  split; cbn; [|done|set_solver..].
  exists w0. split; [|done]. eapply reachable_inv, (reach_init (M := Z)).
Qed.

Lemma runs acts (P : sys nn_excl unit (ftw Z) → bool) :
  ret_check P (run acts) = true → ∃ s0 s, start = Ret s0 ∧ sreach (M := Z) s0 s ∧ P s = true.
Proof.
  intros Hc. destruct (ret_check_ok _ _ Hc) as (s & E & HP). unfold run in E.
  destruct start as [s0|]; [cbn in E|done]. exists s0, s. split; [done|]. split; [|done].
  by apply (srun_reach s0 s0 acts); [apply sreach_start|].
Qed.

End SockSample.

Import Sample Finite OptSample SockSample.

Lemma sock_safe_witness :
  ∃ s0 s s', start = Ret s0 ∧ sreach (M := Z) s0 s ∧ sstep (M := Z) s S_enter = Ret s' ∧ sreach (M := Z) s0 s'.
Proof.
  destruct (sock_safe (OS := unit) nn_pair_socktype nn_xpair_init 3 4 [] w0 (or_introl eq_refl) pair_ok
    (conj eq_refl eq_refl) ltac:(split; lia)) as (s0 & E & Hsafe).
  destruct (runs open (λ s, negb (locked s))) as (s0' & s & E' & Hr & Hl); [vm_compute; reflexivity|].
  assert (s0' = s0) as -> by (unfold start in E'; rewrite E in E'; injection E' as E'; exact (eq_sym E')).
  destruct (Hsafe s S_enter Hr (conj (proj1 (negb_true_iff _) Hl) I)) as [Hrace|(s' & Es & Hr')]; [inversion Hrace|].
  exists s0, s, s'. exact (conj E' (conj Hr (conj Es Hr'))).
Defined.

(** The message that has arrived makes NN_RCVFD readable. *)
Lemma sock_poll_witness :
  ∃ s0 s fd, start = Ret s0 ∧ sreach (M := Z) s0 s ∧ rcvfd (sock s) = Some fd ∧ nn_efd_poll fd = 0.
Proof.
  destruct (runs open (λ s, negb (locked s) && (sk_state (sock s) =? NN_SOCK_STATE_ACTIVE) && negb (no_recv s) &&
    match sockbase (sock s) with
    | Some sb => has_flag (proto_events (W := psys (TW := ftw Z)) (M := Z) sb) NN_SOCKBASE_EVENT_IN
    | None => false end)) as (s0 & s & E & Hr & HP); [vm_compute; reflexivity|].
  rewrite !andb_true_iff, !negb_true_iff in HP. destruct HP as [[[Hl Hst] Hno] Hev].
  destruct (sock_poll nn_pair_socktype nn_xpair_init 3 4 [] w0 (or_introl eq_refl) pair_ok
    (conj eq_refl eq_refl) ltac:(split; lia) s0 s E Hr Hl (proj1 (Z.eqb_eq _ _) Hst)) as (sb & Hsb & Hin & _).
  destruct (Hin Hno) as (fd & Hfd & Hiff). exists s0, s, fd. rewrite Hsb in Hev.
  exact (conj E (conj Hr (conj Hfd (proj2 Hiff Hev)))).
Defined.

(** The socket is closed while its endpoint is still running, and after it. *)
Lemma sock_close_witness :
  (∃ s e ep, run (open ++ [S_enter; U_stop; S_leave]) = Ret s ∧ e ∈ sdeps (sock s) ∧ epmem s !! e = Some ep) ∧
  (∃ s0 s s', start = Ret s0 ∧ sreach (M := Z) s0 s ∧ nn_sock_term s = Ret s').
Proof.
  split.
  - destruct (ret_check_ok (λ s, bool_decide (sdeps (sock s) = [1%positive] ∧ is_Some (epmem s !! 1%positive)))
      (run (open ++ [S_enter; U_stop; S_leave]))) as (s & E & Hd); [vm_compute; reflexivity|].
    apply bool_decide_eq_true_1 in Hd as [Hs [ep Hep]]. exists s, 1%positive, ep. rewrite Hs.
    split; [exact E|]. split; [by apply list_elem_of_singleton|exact Hep].
  - destruct (runs (open ++ close) (λ s, negb (locked s) && (sk_fsm (sock s) =? NN_FSM_STATE_STOPPING) &&
      bool_decide (holds (sock s) = 0) && bool_decide (sk_state (sock s) = NN_SOCK_STATE_FINI) &&
      bool_decide (sdeps (sock s) = []))) as (s0 & s & E & Hr & HP); [vm_compute; reflexivity|].
    rewrite !andb_true_iff, negb_true_iff in HP. destruct HP as [[[[Hl Hf] Hh] Hst] Hsd].
    apply bool_decide_eq_true_1 in Hh, Hst, Hsd.
    destruct (sock_close nn_pair_socktype nn_xpair_init 3 4 [] w0 (or_introl eq_refl) pair_ok
      (conj eq_refl eq_refl) ltac:(split; lia) s0 s E Hr Hl (proj1 (Z.eqb_eq _ _) Hf))
      as (_ & _ & [(e & ep & Hx & _)|[(Hx & _)|(_ & _ & _ & _ & Ht)]]).
    + rewrite Hsd in Hx. by apply not_elem_of_nil in Hx.
    + rewrite Hst in Hx. discriminate Hx.
    + destruct (Ht Hh) as [s' E']. exists s0, s, s'. exact (conj E (conj Hr E')).
Defined.

(** A second endpoint. *)
Lemma sock_endpoints_witness :
  ∃ s0 s s1, start = Ret s0 ∧ sreach (M := Z) s0 s ∧
    nn_sock_add_ep (Some 2%positive) 0 [99] s = Ret (s1, 2) ∧ eps (sock s1) = [1%positive; 2%positive].
Proof.
  destruct (runs (open ++ [S_enter]) (λ s, bool_decide (enabled (M := Z) s (U_add_ep 2 0 [99])) &&
    bool_decide (sk_fsm (sock s) = NN_FSM_STATE_ACTIVE ∧ sk_eid (sock s) = 2 ∧ eps (sock s) = [1%positive])))
    as (s0 & s & E & Hr & HP); [vm_compute; reflexivity|].
  apply andb_true_iff in HP as [Hen%bool_decide_eq_true_1 (Hf & Hid & He)%bool_decide_eq_true_1].
  destruct (sock_endpoints nn_pair_socktype nn_xpair_init 3 4 [] w0 (or_introl eq_refl) pair_ok
    (conj eq_refl eq_refl) ltac:(split; lia) s0 s 2%positive 0 [99] E Hr Hen Hf)
    as (s1 & s2 & ep & E1 & E2 & _).
  rewrite Hid in E1. rewrite He in E2. exists s0, s, s1. exact (conj E (conj Hr (conj E1 E2))).
Defined.
