(* ===== verification/Global.v ===== *)
(** * core/global.c: the library's global state

    The table of sockets with the stack of unused descriptors, the reference
    counts that keep a socket in memory while a call uses it, [nn_socket] and
    [nn_close], and the parsing of addresses.

    A socket lives at an address of the [heap].  A user's thread that is in a
    call holds its socket ([In_call]) or is closing it; a worker thread has no state
    of its own.  [gstep] is one step of some thread: a whole function where the
    code holds [self.lock] or the context of the socket throughout, a part of it
    where other threads can run in between. *)
From S2P Require Import Prelude NnList Priolist Pipe LbFq Msg Protocol Core Pair Pipeline Bus Pubsub Rep Xreq Survey.
From S2P Require Import Fsm SockState Sock SockOpt SockSys SockSafe.

Definition EMFILE : Z := 24.
Definition ENAMETOOLONG : Z := 36.
Definition EPROTONOSUPPORT : Z := 93.
Definition EAFNOSUPPORT : Z := 97.
Definition ETERM : Z := NN_HAUSNUMERO + 53.

Definition AF_SP_RAW : Z := 2.
Definition NN_MAX_SOCKETS : nat := 512.
Definition NN_CTX_FLAG_TERMED : Z := 1.
Definition NN_CTX_FLAG_TERMING : Z := 2.
Definition NN_CTX_FLAG_TERM : Z := Z.lor NN_CTX_FLAG_TERMED NN_CTX_FLAG_TERMING.

(** ** The table of socket types *)
Definition nn_xpair_socktype := NnSocktype AF_SP_RAW NN_PAIR 0 nn_xpair_ispeer.
Definition nn_pub_socktype := NnSocktype AF_SP NN_PUB NN_SOCKTYPE_FLAG_NORECV nn_xpub_ispeer.
Definition nn_sub_socktype := NnSocktype AF_SP NN_SUB NN_SOCKTYPE_FLAG_NOSEND nn_xsub_ispeer.
Definition nn_xpub_socktype := NnSocktype AF_SP_RAW NN_PUB NN_SOCKTYPE_FLAG_NORECV nn_xpub_ispeer.
Definition nn_xsub_socktype := NnSocktype AF_SP_RAW NN_SUB NN_SOCKTYPE_FLAG_NOSEND nn_xsub_ispeer.
Definition nn_rep_socktype := NnSocktype AF_SP NN_REP 0 nn_xrep_ispeer.
Definition nn_req_socktype := NnSocktype AF_SP NN_REQ 0 nn_xreq_ispeer.
Definition nn_xrep_socktype := NnSocktype AF_SP_RAW NN_REP 0 nn_xrep_ispeer.
Definition nn_xreq_socktype := NnSocktype AF_SP_RAW NN_REQ 0 nn_xreq_ispeer.
Definition nn_push_socktype := NnSocktype AF_SP NN_PUSH NN_SOCKTYPE_FLAG_NORECV nn_xpush_ispeer.
Definition nn_xpush_socktype := NnSocktype AF_SP_RAW NN_PUSH NN_SOCKTYPE_FLAG_NORECV nn_xpush_ispeer.
Definition nn_pull_socktype := NnSocktype AF_SP NN_PULL NN_SOCKTYPE_FLAG_NOSEND nn_xpull_ispeer.
Definition nn_xpull_socktype := NnSocktype AF_SP_RAW NN_PULL NN_SOCKTYPE_FLAG_NOSEND nn_xpull_ispeer.
Definition nn_respondent_socktype := NnSocktype AF_SP NN_RESPONDENT 0 nn_xrespondent_ispeer.
Definition nn_surveyor_socktype := NnSocktype AF_SP NN_SURVEYOR 0 nn_xsurveyor_ispeer.
Definition nn_xrespondent_socktype := NnSocktype AF_SP_RAW NN_RESPONDENT 0 nn_xrespondent_ispeer.
Definition nn_xsurveyor_socktype := NnSocktype AF_SP_RAW NN_SURVEYOR 0 nn_xsurveyor_ispeer.
Definition nn_bus_socktype := NnSocktype AF_SP NN_BUS 0 nn_xbus_ispeer.
Definition nn_xbus_socktype := NnSocktype AF_SP_RAW NN_BUS 0 nn_xbus_ispeer.

Definition nn_socktypes : list nn_socktype :=
  [nn_pair_socktype; nn_xpair_socktype; nn_pub_socktype; nn_sub_socktype; nn_xpub_socktype; nn_xsub_socktype;
   nn_rep_socktype; nn_req_socktype; nn_xrep_socktype; nn_xreq_socktype; nn_push_socktype; nn_xpush_socktype;
   nn_pull_socktype; nn_xpull_socktype; nn_respondent_socktype; nn_surveyor_socktype; nn_xrespondent_socktype;
   nn_xsurveyor_socktype; nn_bus_socktype; nn_xbus_socktype].

(** The loop that looks for a socket type. *)
Definition find_socktype (domain protocol : Z) : option (nat * nn_socktype) :=
  list_find (λ t, st_domain t = domain ∧ st_protocol t = protocol) nn_socktypes.

(** [sprintf ("%d")] of a descriptor: at most 20 digits. *)
Fixpoint decimal (fuel : nat) (n : Z) : list Z :=
  match fuel with
  | O => []
  | S fuel => (if n <? 10 then [] else decimal fuel (n / 10)) ++ [48 + n mod 10]
  end.
Definition socket_name_of (s : Z) : list Z := decimal 20 s.

(** ** The state *)
Notation kid := positive (only parsing).   (* the address of a socket *)
Notation tid := positive (only parsing).   (* a thread of the user *)

Record table := Table {
  socks : list (option kid);
  unused : list Z;
  nsocks : nat;
}.

(** What a thread of the user is doing. *)
Inductive tstate : Set :=
| In_call (k : kid)            (* it holds [k] *)
| Stopping (s : Z) (k : kid)   (* in nn_close, before nn_sock_stop *)
| Stopped (s : Z) (k : kid)    (* ... before the two nn_sock_rele *)
| Closing (s : Z) (k : kid).   (* ... in nn_sock_term *)

#[export] Instance tstate_eq_dec : EqDecision tstate.
Proof. solve_decision. Defined.

Section code.
Context {St : nat → Type} {OS TW M : Type} `{TransportFinite TW M}.
Context {HP : ∀ i, Proto (St i) (psys (TW := TW)) M} {HSP : ∀ i, SockProto (St i)} `{!OptSets OS}.
Notation psys := (psys (TW := TW)).
Notation saction := (saction (TW := TW) (M := M)).

(** A socket: the index of its type, which determines the type of its state,
    and its state. *)
Definition inst : Type := {i : nat & sys (St i) OS TW}.
Definition Inst (i : nat) (s : sys (St i) OS TW) : inst := existT i s.
Definition inst_type (σ : inst) : nat := projT1 σ.
Definition inst_sys (σ : inst) : sys (St (inst_type σ)) OS TW := projT2 σ.

(** What the function [create] of the [i]-th socket type returns. *)
Context (create : ∀ i, St i).

Record gsys := Gsys {
  self : option table;   (* None: self.socks is NULL *)
  g_flags : Z;
  g_lock : option tid;   (* held by a thread that waits for a socket *)
  heap : gmap kid inst;
  threads : gmap tid tstate;
  inside : gmap kid (option tid);   (* who is in the context; None: a worker *)
}.

Definition set_self t g := Gsys t (g_flags g) (g_lock g) (heap g) (threads g) (inside g).
Definition set_g_flags v g := Gsys (self g) v (g_lock g) (heap g) (threads g) (inside g).
Definition set_g_lock l g := Gsys (self g) (g_flags g) l (heap g) (threads g) (inside g).
Definition set_heap h g := Gsys (self g) (g_flags g) (g_lock g) h (threads g) (inside g).
Definition set_threads t g := Gsys (self g) (g_flags g) (g_lock g) (heap g) t (inside g).
Definition set_inside o g := Gsys (self g) (g_flags g) (g_lock g) (heap g) (threads g) o.

(** ** Starting and ending the library *)

Definition nn_global_init (g : gsys) : gsys :=
  match self g with
  | Some _ => g
  | None =>
      set_g_flags 0 (set_self (Some (Table (replicate NN_MAX_SOCKETS None)
        ((λ i, Z.of_nat (NN_MAX_SOCKETS - i - 1)) <$> seq 0 NN_MAX_SOCKETS) 0)) g)
  end.

Definition nn_global_term (g : gsys) : outcome gsys :=
  t ← deref (self g);
  if (0 <? nsocks t)%nat then Ret g else Ret (set_self None g).

(** ** Creating a socket

    [mem] is what [nn_alloc] returns; [fds] are the descriptors [nn_efd_init]
    opens, or None when the process has no more; [w] are the transports. *)
Definition nn_global_create_socket (domain protocol : Z) (mem : option kid) (fds : option (Z * Z))
    (w : psys) (g : gsys) : outcome (gsys * Z) :=
  if negb (domain =? AF_SP) && negb (domain =? AF_SP_RAW) then Ret (g, - EAFNOSUPPORT)
  else
    t ← deref (self g);
    if (NN_MAX_SOCKETS <=? nsocks t)%nat then Ret (g, - EMFILE)
    else
      s ← deref (unused t !! (NN_MAX_SOCKETS - nsocks t - 1)%nat);
      match find_socktype domain protocol with
      | None => Ret (g, - EINVAL)
      | Some (i, type) =>
          match mem with
          | None => Ret (g, - ENOMEM)
          | Some k =>
              match fds with
              | None => Ret (g, - EMFILE)
              | Some (sfd, rfd) =>
                  σ ← nn_sock_init (M := M) (OS := OS) type (create i) sfd rfd (socket_name_of s) w;
                  deref (socks t !! Z.to_nat s);;
                  let t := Table (<[Z.to_nat s := Some k]> (socks t)) (unused t) (S (nsocks t)) in
                  Ret (set_heap (<[k := Inst i σ]> (heap g)) (set_self (Some t) g), s)
              end
          end
      end.

(** The result and, when it is -1, the error number.  The heap holds the sockets in
    use; memory that the code leaks when there are no descriptors is not in it. *)
Definition nn_socket (domain protocol : Z) (mem : option kid) (fds : option (Z * Z)) (w : psys) (g : gsys) :
    outcome (gsys * Z * Z) :=
  if negb (Z.land (g_flags g) NN_CTX_FLAG_TERM =? 0) then Ret (g, -1, ETERM)
  else
    '(g, rc) ← nn_global_create_socket domain protocol mem fds w (nn_global_init g);
    if rc <? 0 then g ← nn_global_term g; Ret (g, -1, - rc) else Ret (g, rc, 0).

(** ** Holding a socket *)

Definition get_inst (g : gsys) (k : kid) : outcome inst := deref (heap g !! k).
Definition put_inst (k : kid) (σ : inst) (g : gsys) : gsys := set_heap (<[k := σ]> (heap g)) g.

Definition inst_hold (σ : inst) : inst * Z :=
  let '(s, rc) := nn_sock_hold (inst_sys σ) in (Inst (inst_type σ) s, rc).
Definition inst_rele (σ : inst) : inst := Inst (inst_type σ) (nn_sock_rele (inst_sys σ)).
Definition inst_step (σ : inst) (a : saction) : outcome inst :=
  s ← sstep (M := M) (inst_sys σ) a; Ret (Inst (inst_type σ) s).
Definition inst_term (σ : inst) : outcome inst :=
  s ← nn_sock_term (inst_sys σ); Ret (Inst (inst_type σ) s).

(** The address of the socket, or an error. *)
Definition nn_global_hold_socket_locked (s : Z) (g : gsys) : outcome (gsys * (kid + Z)) :=
  match self g with
  | None => Ret (g, inr (- EBADF))
  | Some t =>
      if (s <? 0) || (Z.of_nat NN_MAX_SOCKETS <=? s) then Ret (g, inr (- EBADF))
      else
        sock ← deref (socks t !! Z.to_nat s);
        match sock with
        | None => Ret (g, inr (- EBADF))
        | Some k =>
            σ ← get_inst g k;
            let '(σ, rc) := inst_hold σ in
            if negb (rc =? 0) then Ret (g, inr (- EBADF)) else Ret (put_inst k σ g, inl k)
        end
  end.

Definition nn_global_rele_socket (k : kid) (g : gsys) : outcome gsys :=
  σ ← get_inst g k; Ret (put_inst k (inst_rele σ) g).

(** The entry of a call that uses the socket [s]. *)
Definition enter_call (t : tid) (s : Z) (g : gsys) : outcome (gsys * Z) :=
  '(g, r) ← nn_global_hold_socket_locked s g;
  match r with
  | inl k => Ret (set_threads (<[t := In_call k]> (threads g)) g, 0)
  | inr rc => Ret (g, rc)
  end.

(** ** Closing a socket, in four parts *)

Definition close_begin (t : tid) (s : Z) (g : gsys) : outcome (gsys * Z) :=
  '(g, r) ← nn_global_hold_socket_locked s g;
  match r with
  | inl k => Ret (set_g_lock (Some t) (set_threads (<[t := Stopping s k]> (threads g)) g), 0)
  | inr rc => Ret (g, rc)
  end.

(** [nn_sock_stop] up to [nn_ctx_leave]. *)
Definition close_stop (t : tid) (s : Z) (k : kid) (g : gsys) : outcome gsys :=
  σ ← get_inst g k;
  σ ← inst_step σ S_enter;
  σ ← inst_step σ U_stop;
  Ret (set_inside (<[k := Some t]> (inside g))
        (set_threads (<[t := Stopped s k]> (threads g)) (put_inst k σ g))).

Definition close_rele (t : tid) (s : Z) (k : kid) (g : gsys) : outcome gsys :=
  g ← nn_global_rele_socket k g;
  g ← nn_global_rele_socket k g;
  Ret (set_g_lock None (set_threads (<[t := Closing s k]> (threads g)) g)).

(** [nn_sock_term] once nobody is in the way, and the rest of [nn_close]. *)
Definition close_free (t : tid) (s : Z) (k : kid) (g : gsys) : outcome gsys :=
  σ ← get_inst g k;
  inst_term σ;;
  tab ← deref (self g);
  deref (socks tab !! Z.to_nat s);;
  deref (unused tab !! (NN_MAX_SOCKETS - nsocks tab)%nat);;
  let tab := Table (<[Z.to_nat s := None]> (socks tab))
    (<[(NN_MAX_SOCKETS - nsocks tab)%nat := s]> (unused tab)) (nsocks tab - 1) in
  nn_global_term (set_threads (delete t (threads g)) (set_heap (delete k (heap g)) (set_self (Some tab) g))).

(** ** The steps of the threads *)

Inductive gaction :=
| G_socket (domain protocol : Z) (mem : option kid) (fds : option (Z * Z)) (w : psys)
| G_hold (t : tid) (s : Z)
| G_rele (t : tid)
| G_enter (who : option tid) (k : kid)
| G_do (who : option tid) (k : kid) (a : saction)
| G_leave (who : option tid) (k : kid)
| G_close (t : tid) (s : Z)
| G_stop (t : tid)
| G_closed (t : tid)
| G_free (t : tid)
| G_term            (* nn_term, before it closes all sockets *)
| G_termed          (* ... and after *)
| G_init.           (* nn_init *)

Definition gstep (g : gsys) (a : gaction) : outcome gsys :=
  match a with
  | G_socket domain protocol mem fds w => '(g, _, _) ← nn_socket domain protocol mem fds w g; Ret g
  | G_hold t s => '(g, _) ← enter_call t s g; Ret g
  | G_rele t =>
      match threads g !! t with
      | Some (In_call k) => g ← nn_global_rele_socket k g; Ret (set_threads (delete t (threads g)) g)
      | _ => Fail Abort
      end
  | G_enter who k =>
      σ ← get_inst g k; σ ← inst_step σ S_enter;
      Ret (set_inside (<[k := who]> (inside g)) (put_inst k σ g))
  | G_do who k a => σ ← get_inst g k; σ ← inst_step σ a; Ret (put_inst k σ g)
  | G_leave who k =>
      σ ← get_inst g k; σ ← inst_step σ S_leave;
      Ret (set_inside (delete k (inside g)) (put_inst k σ g))
  | G_close t s => '(g, _) ← close_begin t s g; Ret g
  | G_stop t => match threads g !! t with Some (Stopping s k) => close_stop t s k g | _ => Fail Abort end
  | G_closed t => match threads g !! t with Some (Stopped s k) => close_rele t s k g | _ => Fail Abort end
  | G_free t => match threads g !! t with Some (Closing s k) => close_free t s k g | _ => Fail Abort end
  | G_term => Ret (set_g_flags (Z.lor (g_flags g) NN_CTX_FLAG_TERMING) g)
  | G_termed =>
      Ret (set_g_flags (Z.ldiff (Z.lor (g_flags g) NN_CTX_FLAG_TERMED) NN_CTX_FLAG_TERMING) g)
  | G_init => Ret (set_g_flags (Z.ldiff (g_flags g) NN_CTX_FLAG_TERMED) g)
  end.

(** What users and workers do in the context. *)
Definition user_action (a : saction) : bool :=
  match a with
  | U_send _ _ | U_recv _ | U_send_again | U_recv_again | U_setopt _ _ _ | U_getopt _ _ _
  | U_add_ep _ _ _ | U_rm_ep _ | S_dispatch => true
  | T_stat _ _ => true   (* nn_sendmsg and nn_recvmsg *)
  | _ => false
  end.
Definition worker_action (a : saction) : bool :=
  match a with
  | T_start _ _ | T_stop _ | T_sent _ | T_received _ | T_world _ | T_stopped _ | T_error _ _ | T_clear _
  | T_stat _ _ | T_protocol | S_dispatch => true
  | _ => false
  end.

Definition role (g : gsys) (who : option tid) (k : kid) (a : saction) : Prop :=
  match who with
  | None => worker_action a = true
  | Some t => match threads g !! t with
      | Some (In_call k') => k' = k ∧ user_action a = true
      | Some (Stopped _ k') => k' = k ∧ a = S_dispatch
      | _ => False
      end
  end.

(** A thread of the user enters the context of the socket it holds. *)
Definition may_enter (g : gsys) (who : option tid) (k : kid) : Prop :=
  match who with None => True | Some t => threads g !! t = Some (In_call k) end.

Definition inst_ready (σ : inst) (a : saction) : Prop :=
  enabled (M := M) (inst_sys σ) a ∧ slegal (M := M) (inst_sys σ) a.

(** When a step can happen. *)
Definition genabled (g : gsys) (a : gaction) : Prop :=
  match a with
  | G_socket domain protocol mem fds w => g_lock g = None ∧
      (∀ k, mem = Some k → heap g !! k = None) ∧ (∀ sfd rfd, fds = Some (sfd, rfd) → 0 ≤ sfd ∧ 0 ≤ rfd) ∧
      events (pw w) = [] ∧ bases (pw w) = ∅
  | G_hold t _ | G_close t _ => g_lock g = None ∧ threads g !! t = None
  | G_rele t => g_lock g = None ∧
      ∃ k, threads g !! t = Some (In_call k) ∧ inside g !! k ≠ Some (Some t)
  | G_enter who k => inside g !! k = None ∧ is_Some (heap g !! k) ∧ may_enter g who k
  | G_do who k a => inside g !! k = Some who ∧ role g who k a ∧ ∃ σ, heap g !! k = Some σ ∧ inst_ready σ a
  | G_leave who k => inside g !! k = Some who ∧ ∃ σ : inst, heap g !! k = Some σ ∧ enabled (M := M) (inst_sys σ) S_leave
  | G_stop t => ∃ s k, threads g !! t = Some (Stopping s k) ∧ inside g !! k = None
  | G_closed t => ∃ s k, threads g !! t = Some (Stopped s k) ∧ inside g !! k ≠ Some (Some t)
  | G_free t => g_lock g = None ∧ ∃ s k (σ : inst), threads g !! t = Some (Closing s k) ∧ heap g !! k = Some σ ∧
      inside g !! k = None ∧ 0 < termsem (sock (inst_sys σ)) ∧ 0 < relesem (sock (inst_sys σ))
  | G_term | G_termed => g_lock g = None
  | G_init => g_lock g = None ∧ Z.land (g_flags g) NN_CTX_FLAG_TERMING = 0
  end.

(** What can happen, the races of SockSys.v included. *)
Definition gpossible (g : gsys) (a : gaction) : Prop :=
  match a with
  | G_do who k a => inside g !! k = Some who ∧ role g who k a ∧
      ∃ σ, heap g !! k = Some σ ∧ possible (M := M) (inst_sys σ) a
  | _ => genabled g a
  end.

(** [a] is such a race. *)
Definition global_race (g : gsys) (a : gaction) : Prop :=
  ∃ who k a' σ, a = G_do who k a' ∧ heap g !! k = Some σ ∧ sock_race (M := M) (inst_sys σ) a'.

Lemma gpossible_race g a : gpossible g a → global_race g a ∨ genabled g a.
Proof.
  destruct a as [| | | |who k a| | | | | | | |]; cbn [gpossible]; intros Hp; try by right.
  destruct Hp as (Hi & Hr & σ & Hk & [Hrace|Hok]%possible_race).
  - left. by exists who, k, a, σ.
  - right. split; [done|]. split; [done|]. by exists σ.
Qed.

(** The library before its first use. *)
Definition gstart : gsys := Gsys None 0 None ∅ ∅ ∅.

End code.

(** ** Addresses: nn_global_create_ep

    An address is a C string without its terminating 0. *)
Definition ascii_inproc : list Z := [105; 110; 112; 114; 111; 99].
Definition ascii_ipc : list Z := [105; 112; 99].
Definition ascii_tcp : list Z := [116; 99; 112].
Definition ascii_ws : list Z := [119; 115].
Definition nn_transports : list (list Z) := [ascii_inproc; ascii_ipc; ascii_tcp; ascii_ws].

(** The transport and the address for it, or an error; [None] is NULL. *)
Definition parse_addr (addr : option (list Z)) : (nat * list Z) + Z :=
  match addr with
  | None => inr (- EINVAL)
  | Some addr =>
      if NN_SOCKADDR_MAX <=? Z.of_nat (length addr) then inr (- ENAMETOOLONG)
      else
        match list_find (λ c, c = 58) addr with   (* ':' *)
        | None => inr (- EINVAL)
        | Some (protosz, _) =>
            if negb (bool_decide (addr !! S protosz = Some 47)) || negb (bool_decide (addr !! S (S protosz) = Some 47))
            then inr (- EINVAL)   (* '/' *)
            else
              match list_find (λ name, length name = protosz ∧ name = take protosz addr) nn_transports with
              | None => inr (- EPROTONOSUPPORT)
              | Some (i, _) => inl (i, drop (protosz + 3) addr)
              end
        end
  end.

(** [bind i addr] is the result of the function of the [i]-th transport that
    [nn_bind] or [nn_connect] calls, and [e] the memory of the new endpoint. *)
Definition nn_global_create_ep {St OS TW} (bind : nat → list Z → Z) (addr : option (list Z)) (e : option positive)
    (s : sys St OS TW) : outcome (sys St OS TW * Z) :=
  match parse_addr addr with
  | inr rc => Ret (s, rc)
  | inl (i, rest) => nn_sock_add_ep e (bind i rest) rest s
  end.

(** ** nn_get_statistic: the value, or -1 with EINVAL *)
Definition stat_value (st : nn_statistics) (statistic : Z) : option Z :=
  if statistic =? NN_STAT_ESTABLISHED_CONNECTIONS then Some (established_connections st)
  else if statistic =? NN_STAT_ACCEPTED_CONNECTIONS then Some (accepted_connections st)
  else if statistic =? NN_STAT_DROPPED_CONNECTIONS then Some (dropped_connections st)
  else if statistic =? NN_STAT_BROKEN_CONNECTIONS then Some (broken_connections st)
  else if statistic =? NN_STAT_CONNECT_ERRORS then Some (connect_errors st)
  else if statistic =? NN_STAT_BIND_ERRORS then Some (bind_errors st)
  else if statistic =? NN_STAT_ACCEPT_ERRORS then Some (bind_errors st)
  else if statistic =? NN_STAT_MESSAGES_SENT then Some (messages_sent st)
  else if statistic =? NN_STAT_MESSAGES_RECEIVED then Some (messages_received st)
  else if statistic =? NN_STAT_BYTES_SENT then Some (bytes_sent st)
  else if statistic =? NN_STAT_BYTES_RECEIVED then Some (bytes_received st)
  else if statistic =? NN_STAT_CURRENT_CONNECTIONS then Some (current_connections st)
  else if statistic =? NN_STAT_INPROGRESS_CONNECTIONS then Some (inprogress_connections st)
  else if statistic =? NN_STAT_CURRENT_SND_PRIORITY then Some (current_snd_priority st)
  else if statistic =? NN_STAT_CURRENT_EP_ERRORS then Some (current_ep_errors st)
  else None.
Definition nn_get_statistic {St OS TW} (s : sys St OS TW) (statistic : Z) : Z * Z :=
  match stat_value (statistics (sock s)) statistic with
  | Some v => (u64 v, 0)
  | None => (u64 (-1), EINVAL)
  end.
