(* ===== verification/GlobalSafe.v ===== *)
(** * The table of sockets and the reference counts are safe

    [ginv] relates the table, the sockets in memory and the threads that use
    them; every step of Global.v preserves it.  The consequences: no call uses a
    socket that has been freed or aborts, a socket is freed when its last user
    has left, and descriptors are given out and taken back exactly. *)
From S2P Require Import Prelude NnList Priolist Pipe Msg Protocol Core Pair Frames Fsm SockState Sock SockOpt SockSys.
From S2P Require Import SockInv SockSafe Global.

(** ** What a thread does to a socket *)
Definition tkid (ts : tstate) : kid :=
  match ts with In_call k | Stopping _ k | Stopped _ k | Closing _ k => k end.
Definition tslot (ts : tstate) : option Z :=
  match ts with In_call _ => None | Stopping s _ | Stopped s _ | Closing s _ => Some s end.

(** It has a hold of its own, it has released the hold of the table, it has
    stopped the socket, it has [self.lock]. *)
Definition uses (k : kid) (ts : tstate) : Prop :=
  match ts with In_call k' | Stopping _ k' | Stopped _ k' => k' = k | Closing _ _ => False end.
Definition gone (k : kid) (ts : tstate) : Prop := match ts with Closing _ k' => k' = k | _ => False end.
Definition shut (k : kid) (ts : tstate) : Prop :=
  match ts with Stopped _ k' | Closing _ k' => k' = k | _ => False end.
Definition waiting (ts : tstate) : Prop := match ts with Stopping _ _ | Stopped _ _ => True | _ => False end.

#[export] Instance uses_dec k ts : Decision (uses k ts).
Proof. destruct ts; cbn; apply _. Defined.
#[export] Instance gone_dec k ts : Decision (gone k ts).
Proof. destruct ts; cbn; apply _. Defined.
#[export] Instance shut_dec k ts : Decision (shut k ts).
Proof. destruct ts; cbn; apply _. Defined.

Lemma gone_shut k ts : gone k ts → shut k ts.
Proof. by destruct ts. Qed.

(** Counts for a socket change only with threads that refer to it. *)
Lemma other_counts k o : (∀ ts, o = Some ts → tkid ts ≠ k) →
  ocount (uses k) o = 0%nat ∧ ocount (gone k) o = 0%nat ∧ ocount (shut k) o = 0%nat.
Proof.
  intros Ho. destruct o as [ts|]; cbn; [|done]. specialize (Ho ts eq_refl).
  rewrite !bcount_false; [done|by destruct ts; cbn in *; tauto..].
Qed.

Ltac counts := cbn; repeat match goal with
  | |- context [bcount ?P ?a] => first [rewrite (bcount_true P a) by (cbn; tauto) | rewrite (bcount_false P a) by (cbn; tauto)]
  end.

(** ** The table *)
Record tab_ok (t : table) (ks : gset kid) : Prop := {
  to_socks : length (socks t) = NN_MAX_SOCKETS;
  to_unused : length (unused t) = NN_MAX_SOCKETS;
  to_count : nsocks t = size ks;
  to_max : (nsocks t ≤ NN_MAX_SOCKETS)%nat;
  to_used s k : socks t !! s = Some (Some k) → k ∈ ks;
  to_inj s s' k : socks t !! s = Some (Some k) → socks t !! s' = Some (Some k) → s = s';
  to_has k : k ∈ ks → ∃ s, socks t !! s = Some (Some k);
  to_nodup : NoDup (take (NN_MAX_SOCKETS - nsocks t) (unused t));
  to_free s : s ∈ take (NN_MAX_SOCKETS - nsocks t) (unused t) ↔ 0 ≤ s ∧ socks t !! Z.to_nat s = Some None;
}.

Lemma initial_table : tab_ok (Table (replicate NN_MAX_SOCKETS None)
  ((λ i, Z.of_nat (NN_MAX_SOCKETS - i - 1)) <$> seq 0 NN_MAX_SOCKETS) 0) ∅.
Proof.
  split; cbn [socks unused nsocks]; try done.
  - lia.
  - intros s k Hs. apply lookup_replicate in Hs as [? _]. congruence.
  - intros s s' k Hs. apply lookup_replicate in Hs as [? _]. congruence.
  - apply (bool_decide_unpack _). vm_compute. reflexivity.
  - intros s. rewrite take_ge by (by rewrite length_fmap, length_seq). rewrite list_elem_of_fmap.
    setoid_rewrite elem_of_seq. rewrite lookup_replicate. split.
    + intros (i & -> & ?). split; [lia|]. split; [done|]. rewrite Nat2Z.id. lia.
    + intros (? & _ & ?). exists (NN_MAX_SOCKETS - Z.to_nat s - 1)%nat. split; lia.
Qed.

(** The top of the stack becomes the descriptor of [k]. *)
Lemma take_slot t ks k s : tab_ok t ks → k ∉ ks → (nsocks t < NN_MAX_SOCKETS)%nat →
  unused t !! (NN_MAX_SOCKETS - nsocks t - 1)%nat = Some s →
  0 ≤ s ∧ socks t !! Z.to_nat s = Some None ∧
  tab_ok (Table (<[Z.to_nat s := Some k]> (socks t)) (unused t) (S (nsocks t))) ({[k]} ∪ ks).
Proof.
  intros [Hl1 Hl2 Hc Hm Hu Hinj Hhas Hnd Hf] Hk Hlt Hs.
  set (n := (NN_MAX_SOCKETS - nsocks t - 1)%nat) in *.
  replace (NN_MAX_SOCKETS - nsocks t)%nat with (S n) in Hnd, Hf by lia.
  rewrite (take_S_r _ _ _ Hs) in Hnd, Hf. apply NoDup_app in Hnd as (Hnd & Hni & _).
  assert (0 ≤ s ∧ socks t !! Z.to_nat s = Some None) as [H0 Hn] by (apply Hf; set_solver).
  split; [done|]. split; [done|].
  assert (∀ i, <[Z.to_nat s := Some k]> (socks t) !! i = if decide (Z.to_nat s = i) then Some (Some k) else socks t !! i) as Hlk.
  { intros i. case_decide as Hd; [subst i|by apply list_lookup_insert_ne].
    apply list_lookup_insert_eq. by apply lookup_lt_Some in Hn. }
  split; cbn [socks unused nsocks]; try done.
  - by rewrite length_insert.
  - rewrite size_union, size_singleton by set_solver. lia.
  - intros i k'. rewrite Hlk. case_decide; [intros [= ->]; set_solver|]. intros Hi. apply Hu in Hi. set_solver.
  - intros i j k'. rewrite !Hlk. repeat case_decide; subst; try done.
    + intros [= ->] Hj. by apply Hu in Hj.
    + intros Hj [= ->]. by apply Hu in Hj.
    + apply Hinj.
  - intros k' [->%elem_of_singleton|Hin]%elem_of_union.
    + exists (Z.to_nat s). rewrite Hlk. by rewrite decide_True.
    + destruct (Hhas k' Hin) as [i Hi]. exists i. rewrite Hlk, decide_False; [done|]. intros <-. congruence.
  - by replace (NN_MAX_SOCKETS - S (nsocks t))%nat with n by lia.
  - intros s'. replace (NN_MAX_SOCKETS - S (nsocks t))%nat with n by lia. rewrite Hlk. specialize (Hf s').
    rewrite elem_of_app, list_elem_of_singleton in Hf. case_decide as Hd.
    + split; [|naive_solver]. intros Hin. exfalso. apply (Hni s'); [done|]. apply list_elem_of_singleton.
      destruct Hf as [Hf _]. destruct Hf as [? _]; [by left|]. lia.
    + split; [intros Hin; apply Hf; by left|]. intros Hin. destruct Hf as [_ Hf]. destruct (Hf Hin) as [?| ->]; done.
Qed.

(** Its descriptor goes back to the stack. *)
Lemma give_slot t ks k s : tab_ok t ks → 0 ≤ s → socks t !! Z.to_nat s = Some (Some k) →
  (NN_MAX_SOCKETS - nsocks t < NN_MAX_SOCKETS)%nat ∧
  tab_ok (Table (<[Z.to_nat s := None]> (socks t)) (<[(NN_MAX_SOCKETS - nsocks t)%nat := s]> (unused t)) (nsocks t - 1))
    (ks ∖ {[k]}).
Proof.
  intros [Hl1 Hl2 Hc Hm Hu Hinj Hhas Hnd Hf] Hs Hk. pose proof (Hu _ _ Hk) as Hin.
  assert (1 ≤ nsocks t)%nat as Hpos.
  { rewrite Hc. destruct (size ks) eqn:E; [|lia]. apply size_empty_inv in E. set_solver. }
  split; [unfold NN_MAX_SOCKETS in *; lia|]. set (n := (NN_MAX_SOCKETS - nsocks t)%nat) in *.
  assert (∀ i, <[Z.to_nat s := None]> (socks t) !! i = if decide (Z.to_nat s = i) then Some None else socks t !! i) as Hlk.
  { intros i. case_decide as Hd; [subst i|by apply list_lookup_insert_ne].
    apply list_lookup_insert_eq. by apply lookup_lt_Some in Hk. }
  assert (take (NN_MAX_SOCKETS - (nsocks t - 1)) (<[n := s]> (unused t)) = take n (unused t) ++ [s]) as Htk.
  { replace (NN_MAX_SOCKETS - (nsocks t - 1))%nat with (S n) by lia.
    rewrite (take_S_r _ _ s); [by rewrite take_insert_ge by lia|]. apply list_lookup_insert_eq. lia. }
  split; cbn [socks unused nsocks]; rewrite ?Htk; try done.
  - by rewrite length_insert.
  - by rewrite length_insert.
  - rewrite size_difference by set_solver. rewrite size_singleton. lia.
  - lia.
  - intros i k'. rewrite Hlk. case_decide as Hd; [done|]. intros Hi. apply elem_of_difference.
    split; [by eapply Hu|]. intros ->%elem_of_singleton. apply Hd. by eapply Hinj.
  - intros i j k'. rewrite !Hlk. repeat case_decide; try done. apply Hinj.
  - intros k' [Hin' Hne%not_elem_of_singleton]%elem_of_difference. destruct (Hhas k' Hin') as [i Hi].
    exists i. rewrite Hlk, decide_False; [done|]. intros <-. congruence.
  - apply NoDup_app. split; [done|]. split; [|apply NoDup_singleton].
    intros s' Hs' ->%list_elem_of_singleton. apply Hf in Hs' as [_ ?]. congruence.
  - intros s'. rewrite elem_of_app, list_elem_of_singleton, Hf, Hlk. case_decide as Hd; split.
    + intros [[? E]| ->]; [|done]. rewrite <- Hd in E. congruence.
    + intros [? _]. right. lia.
    + intros [?| ->]; [done|]. done.
    + by left.
Qed.

(** ** The invariant *)
Section safe.
Context {St : nat → Type} {OS TW M : Type} `{TransportFinite TW M}.
Context {HP : ∀ i, Proto (St i) (psys (TW := TW)) M} {HPO : ∀ i, ProtoOk (St i) (psys (TW := TW)) M}
  {HPF : ∀ i, ProtoFrame (St i) (psys (TW := TW)) M} {HSP : ∀ i, SockProto (St i)}
  {HSO : ∀ i, SockProtoOk (St i) TW M} `{!OptSets OS}.
Context (create : ∀ i, St i).
Notation psys := (psys (TW := TW)).
Notation gsys := (gsys (St := St) (OS := OS) (TW := TW)).
Notation inst := (inst (St := St) (OS := OS) (TW := TW)).
Implicit Types (g : gsys) (σ : inst) (k : kid) (t : tid).

Definition stopping σ : nat := if sk_fsm (sock (inst_sys σ)) =? NN_FSM_STATE_STOPPING then 1%nat else 0%nat.

(** The reference count of [σ] is the number of threads that use it, and one for
    the table until [nn_close] has dropped it; it is being closed by one thread at
    most; [o] is who is in its context. *)
Record inst_ok (th : gmap tid tstate) (o : option (option tid)) (k : kid) (σ : inst) : Prop := {
  io_sock : sock_inv (M := M) (inst_sys σ);
  io_holds : holds (sock (inst_sys σ)) + Z.of_nat (mcount (gone k) th) = Z.of_nat (mcount (uses k) th) + 1;
  io_shut : mcount (shut k) th = stopping σ;
  io_in : locked (inst_sys σ) = match o with Some _ => true | None => false end;
  io_first t s : th !! t = Some (Stopping s k) → sk_fsm (sock (inst_sys σ)) = NN_FSM_STATE_ACTIVE;
}.

Definition slot_of g (s : Z) k : Prop :=
  ∃ tab, self g = Some tab ∧ 0 ≤ s ∧ socks tab !! Z.to_nat s = Some (Some k).
Definition may_be_in k (o : option tstate) : Prop := o = Some (In_call k) ∨ ∃ s, o = Some (Stopped s k).

Record ginv g : Prop := {
  gi_tab : match self g with
           | None => heap g = ∅
           | Some tab => tab_ok tab (dom (heap g)) ∧ (0 < nsocks tab)%nat
           end;
  gi_flags : 0 ≤ g_flags g < 4;
  gi_inst k σ : heap g !! k = Some σ → inst_ok (threads g) (inside g !! k) k σ;
  gi_thread t ts : threads g !! t = Some ts →
    is_Some (heap g !! tkid ts) ∧ ∀ s, tslot ts = Some s → slot_of g s (tkid ts);
  gi_inside k who : inside g !! k = Some who →
    is_Some (heap g !! k) ∧ ∀ t, who = Some t → may_be_in k (threads g !! t);
  gi_lock t : g_lock g = Some t ↔ ∃ ts, threads g !! t = Some ts ∧ waiting ts;
}.

Lemma start_ginv : ginv gstart.
Proof. split; cbn; try done. intros t. rewrite lookup_empty. naive_solver. Qed.

(** A new state for one socket; its context may be entered or left. *)
Lemma put_ok g k σ σ' ins :
  ginv g → heap g !! k = Some σ → sock_inv (M := M) (inst_sys σ') →
  holds (sock (inst_sys σ')) = holds (sock (inst_sys σ)) →
  sk_fsm (sock (inst_sys σ')) = sk_fsm (sock (inst_sys σ)) →
  locked (inst_sys σ') = match ins !! k with Some _ => true | None => false end →
  (∀ k', k' ≠ k → ins !! k' = inside g !! k') →
  (∀ t, ins !! k = Some (Some t) → may_be_in k (threads g !! t)) →
  ginv (set_inside ins (put_inst k σ' g)).
Proof.
  intros [Ht Hfl Hi Hth Hin Hlk] Hk Hs Hh Hf Hl Hins Hwho. split; cbn; [|done| | | |done].
  - destruct (self g); [|rewrite Ht in Hk; done]. by rewrite dom_insert_lookup_L by (by eexists).
  - intros k' σ1. destruct (decide (k' = k)) as [->|Hne].
    + rewrite lookup_insert_eq. intros [= <-]. destruct (Hi _ _ Hk) as [_ ? ? _ ?]. split; [done|lia| |done|by rewrite Hf].
      unfold stopping in *. by rewrite Hf.
    + rewrite lookup_insert_ne by done. intros Hk'. rewrite Hins by done. by apply Hi.
  - intros t ts Ets. destruct (Hth t ts Ets) as [? ?]. split; [|done]. apply lookup_insert_is_Some'. by right.
  - intros k' who Hw. rewrite lookup_insert_is_Some'. destruct (decide (k' = k)) as [->|Hne].
    + split; [by left|]. intros t ->. by apply Hwho.
    + rewrite Hins in Hw by done. destruct (Hin k' who Hw). split; [by right|done].
Qed.

(** The state of the thread [t], which refers to [k] only, becomes [no]. *)
Lemma move_ok g t k no σ σ' ins lk :
  ginv g → heap g !! k = Some σ → sock_inv (M := M) (inst_sys σ') →
  (∀ ts, threads g !! t = Some ts → tkid ts = k) →
  (∀ ts, no = Some ts → tkid ts = k ∧ ∀ s, tslot ts = Some s → slot_of g s k) →
  holds (sock (inst_sys σ')) + Z.of_nat (ocount (gone k) no) + Z.of_nat (ocount (uses k) (threads g !! t)) =
    holds (sock (inst_sys σ)) + Z.of_nat (ocount (gone k) (threads g !! t)) + Z.of_nat (ocount (uses k) no) →
  (stopping σ' + ocount (shut k) (threads g !! t) = stopping σ + ocount (shut k) no)%nat →
  (∀ t' s, (if decide (t' = t) then no else threads g !! t') = Some (Stopping s k) →
     sk_fsm (sock (inst_sys σ')) = NN_FSM_STATE_ACTIVE) →
  locked (inst_sys σ') = match ins !! k with Some _ => true | None => false end →
  (∀ k', k' ≠ k → ins !! k' = inside g !! k') →
  (∀ t', ins !! k = Some (Some t') → may_be_in k (if decide (t' = t) then no else threads g !! t')) →
  (∀ t', lk = Some t' ↔ ∃ ts, (if decide (t' = t) then no else threads g !! t') = Some ts ∧ waiting ts) →
  ginv (set_inside ins (set_g_lock lk (set_threads (partial_alter (λ _, no) t (threads g)) (put_inst k σ' g)))).
Proof.
  intros [Ht Hfl Hi Hth Hin Hlk] Hk Hs Hold Hno Hh Hf Hst Hl Hins Hwho Hlock.
  assert (∀ t', partial_alter (λ _, no) t (threads g) !! t' = if decide (t' = t) then no else threads g !! t') as Hl'.
  { intros t'. case_decide; [subst; by rewrite lookup_partial_alter_eq|by rewrite lookup_partial_alter_ne]. }
  split; cbn; [|done| | | |].
  - destruct (self g); [|rewrite Ht in Hk; done]. by rewrite dom_insert_lookup_L by (by eexists).
  - intros k' σ1 Hk'. pose proof (mcount_alter (uses k') (threads g) t no).
    pose proof (mcount_alter (gone k') (threads g) t no). pose proof (mcount_alter (shut k') (threads g) t no).
    destruct (decide (k' = k)) as [->|Hne].
    + rewrite lookup_insert_eq in Hk'. injection Hk' as <-. destruct (Hi _ _ Hk). split; [done|lia|lia|done|]. intros t' s. rewrite Hl'. apply Hst.
    + rewrite lookup_insert_ne in Hk' by done. rewrite Hins by done. destruct (Hi _ _ Hk').
      destruct (other_counts k' (threads g !! t)) as (? & ? & ?); [intros ts Hts; rewrite (Hold ts Hts); congruence|].
      destruct (other_counts k' no) as (? & ? & ?); [intros ts Hts; rewrite (proj1 (Hno ts Hts)); congruence|].
      split; [done|lia|lia|done|]. intros t' s. rewrite Hl'. case_decide; [intros Hts; exfalso; apply Hne|by apply io_first0].
      exact (proj1 (Hno _ Hts)).
  - intros t' ts. rewrite Hl', lookup_insert_is_Some'. case_decide as Hd.
    + intros Hts. destruct (Hno ts Hts) as [-> Hsl]. split; [by left|done].
    + intros Hts. destruct (Hth t' ts Hts) as [? ?]. split; [by right|done].
  - intros k' who Hw. rewrite lookup_insert_is_Some'. destruct (decide (k' = k)) as [->|Hne].
    + split; [by left|]. intros t' ->. rewrite Hl'. by apply Hwho.
    + rewrite Hins in Hw by done. destruct (Hin k' who Hw) as [? Hmay]. split; [by right|].
      intros t' ->. specialize (Hmay t' eq_refl). rewrite Hl'. case_decide as Hd; [|done]. subst t'. exfalso. apply Hne.
      destruct Hmay as [E|[s E]]; by apply Hold in E.
  - intros t'. rewrite Hl'. apply Hlock.
Qed.

(** *** Holding and releasing *)

Lemma inst_fsm th o k σ : inst_ok th o k σ →
  sk_fsm (sock (inst_sys σ)) = NN_FSM_STATE_ACTIVE ∨ sk_fsm (sock (inst_sys σ)) = NN_FSM_STATE_STOPPING.
Proof. intros [Hs _ _ _ _]. destruct (si_life _ Hs); by auto. Qed.

Lemma slot_inst g s k : ginv g → slot_of g s k → ∃ σ, heap g !! k = Some σ.
Proof.
  intros Hg (tab & Htab & _ & Hs). pose proof (gi_tab g Hg) as Ht. rewrite Htab in Ht.
  pose proof (to_used _ _ (proj1 Ht) _ _ Hs) as Hk. by apply elem_of_dom in Hk.
Qed.

(** The new state of a socket that a thread has got hold of. *)
Definition held σ : inst := Inst (inst_type σ) (on_sock (set_holds (holds (sock (inst_sys σ)) + 1)) (inst_sys σ)).

(** A descriptor can be used exactly while it is open and not being closed. *)
Lemma hold_socket g s : ginv g →
  (∃ k σ, slot_of g s k ∧ heap g !! k = Some σ ∧ sk_fsm (sock (inst_sys σ)) = NN_FSM_STATE_ACTIVE ∧
     nn_global_hold_socket_locked s g = Ret (put_inst k (held σ) g, inl k)) ∨
  ((∀ k σ, slot_of g s k → heap g !! k = Some σ → sk_fsm (sock (inst_sys σ)) = NN_FSM_STATE_STOPPING) ∧
     nn_global_hold_socket_locked s g = Ret (g, inr (- EBADF))).
Proof.
  intros Hg. unfold nn_global_hold_socket_locked. pose proof (gi_tab g Hg) as Ht.
  destruct (self g) as [tab|] eqn:Etab; [|right; split; [|done]; intros ? ? (? & ? & _); congruence].
  destruct ((s <? 0) || (Z.of_nat NN_MAX_SOCKETS <=? s)) eqn:Er.
  { right. split; [|done]. intros k σ (tab' & E & Hpos & Hs) _. exfalso.
    rewrite Etab in E. injection E as <-. apply lookup_lt_Some in Hs. rewrite (to_socks _ _ (proj1 Ht)) in Hs.
    apply orb_true_iff in Er as [?%Z.ltb_lt|?%Z.leb_le]; lia. }
  apply orb_false_iff in Er as [Hpos%Z.ltb_ge Hlt%Z.leb_gt].
  destruct (lookup_lt_is_Some_2 (socks tab) (Z.to_nat s)) as [o Ho]; [rewrite (to_socks _ _ (proj1 Ht)); lia|].
  rewrite Ho. step. destruct o as [k|]; [|right; split; [|done]; intros k σ (tab' & E & _ & Hs); congruence].
  assert (slot_of g s k) as Hsl by (by exists tab).
  destruct (slot_inst g s k Hg Hsl) as [σ Hσ]. unfold get_inst. rewrite Hσ. step. unfold inst_hold.
  destruct (gi_inst g Hg k σ Hσ) as [Hs _ _ _ _].
  destruct (hold_cases (inst_sys σ) Hs) as [[Hf ->]|[Hf ->]]; cbn.
  - left. exists k, σ. done.
  - right. split; [|done]. intros k' σ' (tab' & E & _ & Hs') Hσ'. rewrite Etab in E. injection E as <-.
    rewrite Ho in Hs'. injection Hs' as <-. rewrite Hσ in Hσ'. apply (inj Some) in Hσ'. by rewrite <- Hσ'.
Qed.

(** The thread of a hold that has just been taken. *)
Lemma held_ok g t k σ ts lk : ginv g → heap g !! k = Some σ → sk_fsm (sock (inst_sys σ)) = NN_FSM_STATE_ACTIVE →
  threads g !! t = None → g_lock g = None →
  (ts = In_call k ∧ lk = None) ∨ (∃ s, ts = Stopping s k ∧ slot_of g s k ∧ lk = Some t) →
  ginv (set_g_lock lk (set_threads (<[t := ts]> (threads g)) (put_inst k (held σ) g))).
Proof.
  intros Hg Hk Hf Hnone Hlock Hts. destruct (gi_inst g Hg k σ Hk) as [Hs _ _ Hlk Hfirst].
  assert (uses k ts ∧ ¬ gone k ts ∧ ¬ shut k ts) as (Hu & Hng & Hns)
    by (destruct Hts as [[-> _]|(s & -> & _)]; cbn; tauto).
  apply (move_ok g t k (Some ts) σ (held σ) (inside g) lk Hg Hk).
  - pose proof (hold_ok (inst_sys σ) Hs) as Hok. destruct (hold_cases (inst_sys σ) Hs) as [[_ E]|[E _]]; [|rewrite Hf in E; discriminate E].
    rewrite E in Hok. exact Hok.
  - rewrite Hnone. done.
  - intros ts' [= <-]. destruct Hts as [[-> _]|(s & -> & Hsl & _)]; (split; [done|]); cbn; [done|]. by intros s' [= <-].
  - rewrite Hnone. cbn. rewrite bcount_false, bcount_true by done. lia.
  - rewrite Hnone. cbn. rewrite bcount_false by done. done.
  - intros t' s _. exact Hf.
  - exact Hlk.
  - done.
  - intros t' Hin. destruct (gi_inside g Hg k _ Hin) as [_ Hmay]. specialize (Hmay t' eq_refl).
    case_decide; [subst t'; rewrite Hnone in Hmay; destruct Hmay as [?|[? ?]]; done|done].
  - intros t'. pose proof (gi_lock g Hg t') as Hl. rewrite Hlock in Hl.
    destruct Hts as [[-> ->]|(s & -> & _ & ->)]; case_decide as Hd.
    + split; [done|]. by intros (? & [= <-] & ?).
    + exact Hl.
    + subst t'. split; [|done]. intros _. by eexists.
    + split; [congruence|]. intros Hx. apply Hl in Hx. done.
Qed.

(** One reference less. *)
Lemma rele_ready th o k σ : inst_ok th o k σ → (1 ≤ mcount (uses k) th)%nat →
  enabled (M := M) (inst_sys σ) U_rele.
Proof.
  intros Hσ Hpos. pose proof (mcount_mono (gone k) (shut k) th (gone_shut k)) as Hm.
  destruct (inst_fsm _ _ _ _ Hσ) as [Hf|Hf]; destruct Hσ as [_ Hh Hsh _ _]; unfold stopping in Hsh; rewrite Hf in Hsh;
    cbn in Hsh |- *; rewrite Hf; split; (lia || done || intros [=]); lia.
Qed.

(** *** Creating a socket *)

Lemma init_tab g : ginv g → ∃ tab, self (nn_global_init g) = Some tab ∧ tab_ok tab (dom (heap g)) ∧
  nn_global_init g = set_g_flags (g_flags (nn_global_init g)) (set_self (Some tab) g) ∧
  0 ≤ g_flags (nn_global_init g) < 4 ∧ (self g = None ∨ self g = Some tab).
Proof.
  intros Hg. pose proof (gi_tab g Hg) as Ht. pose proof (gi_flags g Hg). unfold nn_global_init.
  destruct (self g) as [tab|] eqn:E.
  - exists tab. split; [done|]. split; [by destruct Ht|]. split; [by destruct g; cbn in *; subst|]. split; [done|by right].
  - eexists. split; [reflexivity|]. split; [rewrite Ht, dom_empty_L; exact initial_table|].
    split; [done|]. split; [cbn; lia|by left].
Qed.

(** A failed call of nn_socket leaves everything as it was. *)
Lemma failed_socket g : ginv g → Z.land (g_flags g) NN_CTX_FLAG_TERM = 0 →
  nn_global_term (nn_global_init g) = Ret g.
Proof.
  intros Hg Hf. pose proof (gi_tab g Hg) as Ht. unfold nn_global_term, nn_global_init.
  destruct (self g) as [tab|] eqn:E.
  - rewrite E. step. destruct Ht as [_ Ht%Nat.ltb_lt]. by rewrite Ht.
  - destruct g as [se fl lk h th ins]. cbn in *. rewrite E. pose proof (gi_flags _ Hg) as Hfl. cbn in Hfl.
    assert (fl = 0) as ->; [|done]. assert (fl = 0 ∨ fl = 1 ∨ fl = 2 ∨ fl = 3) as Hc by lia.
    destruct Hc as [->|[->|[->| ->]]]; done.
Qed.

Lemma no_thread g k : ginv g → heap g !! k = None →
  mcount (uses k) (threads g) = 0%nat ∧ mcount (gone k) (threads g) = 0%nat ∧ mcount (shut k) (threads g) = 0%nat ∧
  inside g !! k = None.
Proof.
  intros Hg Hk. assert (∀ t ts, threads g !! t = Some ts → tkid ts ≠ k) as Hn.
  { intros t ts Ht E. destruct (gi_thread g Hg t ts Ht) as [[? Hh] _]. rewrite E, Hk in Hh. done. }
  rewrite !mcount_none; [|intros t ts Ht; specialize (Hn t ts Ht); destruct ts; cbn in *; tauto..].
  split_and!; try done. destruct (inside g !! k) eqn:E; [|done].
  destruct (gi_inside g Hg k _ E) as [[? Hh] _]. by rewrite Hk in Hh.
Qed.

Lemma add_socket_ok g tab fl k s σ :
  ginv g → self g = None ∨ self g = Some tab → tab_ok tab (dom (heap g)) → 0 ≤ fl < 4 → heap g !! k = None →
  (nsocks tab < NN_MAX_SOCKETS)%nat → unused tab !! (NN_MAX_SOCKETS - nsocks tab - 1)%nat = Some s →
  sock_inv (M := M) (inst_sys σ) → holds (sock (inst_sys σ)) = 1 →
  sk_fsm (sock (inst_sys σ)) = NN_FSM_STATE_ACTIVE → locked (inst_sys σ) = false →
  let tab' := Table (<[Z.to_nat s := Some k]> (socks tab)) (unused tab) (S (nsocks tab)) in
  let g' := set_heap (<[k := σ]> (heap g)) (set_g_flags fl (set_self (Some tab') g)) in
  ginv g' ∧ slot_of g' s k ∧ ∀ k', ¬ slot_of g s k'.
Proof.
  intros Hg Hself Htab Hfl Hk Hlt Hs Hinv Hh Hf Hl tab' g'.
  destruct (take_slot tab (dom (heap g)) k s Htab) as (H0s & Hfree & Htab'); [by apply not_elem_of_dom|done|done|].
  destruct (no_thread g k Hg Hk) as (Hu & Hgo & Hsh & Hin). split; [|split].
  - split; cbn; [| |intros k' σ'| | |by apply gi_lock].
    + split; [by rewrite dom_insert_L|lia].
    + done.
    + destruct (decide (k' = k)) as [->|Hne].
      * rewrite lookup_insert_eq. intros [= <-]. split; [done|rewrite Hgo, Hu; lia| |by rewrite Hin|done].
        rewrite Hsh. unfold stopping. by rewrite Hf.
      * rewrite lookup_insert_ne by done. by apply gi_inst.
    + intros t ts Ht. destruct (gi_thread g Hg t ts Ht) as [? Hsl]. rewrite lookup_insert_is_Some'.
      split; [by right|]. intros s' Hs'. destruct (Hsl s' Hs') as (tab0 & E & ? & Hlk).
      destruct Hself as [E'|E']; rewrite E in E'; [done|injection E' as ->].
      exists tab'. split; [done|]. split; [done|]. cbn. rewrite list_lookup_insert_ne; [done|].
      intros E'. rewrite E' in Hfree. congruence.
    + intros k' who Hw. destruct (gi_inside g Hg k' who Hw). rewrite lookup_insert_is_Some'. split; [by right|done].
  - exists tab'. split; [done|]. split; [done|]. cbn. apply list_lookup_insert_eq. by apply lookup_lt_Some in Hfree.
  - intros k' (tab0 & E & _ & Hlk). destruct Hself as [E'|E']; rewrite E in E'; [done|injection E' as ->]. congruence.
Qed.

Definition glegal g (a : gaction (TW := TW) (M := M)) : Prop :=
  match a with
  | G_socket domain protocol _ _ w =>
      ∀ i type, find_socktype domain protocol = Some (i, type) → proto_inv (M := M) (create i) w ∅
  | _ => True
  end.

(** The error number of a call of nn_socket that fails, in the order of the tests. *)
Definition socket_error g (domain protocol : Z) (mem : option kid) (fds : option (Z * Z)) : option Z :=
  if negb (Z.land (g_flags g) NN_CTX_FLAG_TERM =? 0) then Some ETERM
  else if negb (domain =? AF_SP) && negb (domain =? AF_SP_RAW) then Some EAFNOSUPPORT
  else if (NN_MAX_SOCKETS <=? size (heap g))%nat then Some EMFILE
  else match find_socktype domain protocol, mem, fds with
       | None, _, _ => Some EINVAL
       | _, None, _ => Some ENOMEM
       | _, _, None => Some EMFILE
       | _, _, _ => None
       end.

Lemma socket_error_pos g domain protocol mem fds e : socket_error g domain protocol mem fds = Some e → 0 < e.
Proof. unfold socket_error. repeat case_match; intros [= <-]; by vm_compute. Qed.

Lemma socktype_direction domain protocol i type : find_socktype domain protocol = Some (i, type) →
  has_flag (st_flags type) NN_SOCKTYPE_FLAG_NOSEND = false ∨ has_flag (st_flags type) NN_SOCKTYPE_FLAG_NORECV = false.
Proof.
  intros (Hi & _)%list_find_Some. apply list_elem_of_lookup_2 in Hi. unfold nn_socktypes in Hi.
  rewrite !elem_of_cons in Hi. repeat destruct Hi as [->|Hi]; cbn; [auto..|]. by apply not_elem_of_nil in Hi.
Qed.

Lemma socket_ok domain protocol mem fds w g :
  ginv g → genabled (OS := OS) g (G_socket domain protocol mem fds w) →
  glegal g (G_socket domain protocol mem fds w) →
  match socket_error g domain protocol mem fds with
  | Some e => nn_socket (M := M) create domain protocol mem fds w g = Ret (g, -1, e)
  | None => ∃ g' s k σ, nn_socket (M := M) create domain protocol mem fds w g = Ret (g', s, 0) ∧ ginv g' ∧
      mem = Some k ∧ heap g' = <[k := σ]> (heap g) ∧ threads g' = threads g ∧ slot_of g' s k ∧
      sk_fsm (sock (inst_sys σ)) = NN_FSM_STATE_ACTIVE ∧ (∀ k', ¬ slot_of g s k') ∧
      ∃ tab, self (nn_global_init g) = Some tab ∧ unused tab !! (NN_MAX_SOCKETS - nsocks tab - 1)%nat = Some s
  end.
Proof.
  intros Hg (Hlock & Hmem & Hfds & Hev & Hbs) Hl. unfold socket_error, nn_socket.
  destruct (Z.eqb_spec (Z.land (g_flags g) NN_CTX_FLAG_TERM) 0) as [Hterm|]; cbn [negb]; [|done].
  pose proof (failed_socket g Hg Hterm) as Hfail. unfold nn_global_create_socket.
  destruct (negb (domain =? AF_SP) && negb (domain =? AF_SP_RAW)); [step; by rewrite Hfail|].
  destruct (init_tab g Hg) as (tab & Eself & Htab & Einit & Hfl & Hself). rewrite Eself. step.
  pose proof (to_count _ _ Htab) as Hn. rewrite size_dom in Hn. rewrite <- Hn.
  destruct (Nat.leb_spec NN_MAX_SOCKETS (nsocks tab)) as [Hfull|Hroom]; [step; by rewrite Hfail|].
  destruct (lookup_lt_is_Some_2 (unused tab) (NN_MAX_SOCKETS - nsocks tab - 1)) as [s Hs];
    [rewrite (to_unused _ _ Htab); unfold NN_MAX_SOCKETS; lia|].
  rewrite Hs. step. destruct (find_socktype domain protocol) as [[i type]|] eqn:Ef; [|step; by rewrite Hfail].
  destruct mem as [k|]; [|step; by rewrite Hfail]. destruct fds as [[sfd rfd]|]; [|step; by rewrite Hfail].
  specialize (Hmem k eq_refl). specialize (Hfds sfd rfd eq_refl).
  pose proof (socktype_direction _ _ _ _ Ef) as Hdir. pose proof (Hl i type Ef) as Hbase.
  destruct (init_ok (OS := OS) type (create i) sfd rfd (socket_name_of s) w Hdir Hbase (conj Hev Hbs) Hfds) as (σ & E & Hinv).
  destruct (init_state type (create i) sfd rfd (socket_name_of s) w σ E) as (Hh & Hf & Hlk). rewrite E. step.
  destruct (add_socket_ok g tab (g_flags (nn_global_init g)) k s (Inst i σ) Hg Hself Htab Hfl Hmem Hroom Hs Hinv Hh Hf Hlk)
    as (Hg' & Hsl & Hfresh).
  destruct (take_slot tab (dom (heap g)) k s Htab) as (Hpos & Hfree & _); [by apply not_elem_of_dom|done|done|].
  rewrite Hfree. step. rewrite (proj2 (Z.ltb_ge _ _)) by done.
  eexists _, s, k, (Inst i σ). split; [reflexivity|]. rewrite Einit. split_and!; try done.
  by exists tab.
Qed.

(** *** The other steps *)

Lemma inst_step_ok σ a : sock_inv (M := M) (inst_sys σ) → inst_ready σ a →
  ∃ s', inst_step σ a = Ret (Inst (inst_type σ) s') ∧ sstep (M := M) (inst_sys σ) a = Ret s' ∧ sock_inv (M := M) s'.
Proof.
  intros Hs [Hen Hl]. destruct (sstep_ok (inst_sys σ) a Hs Hen Hl) as (s' & E & ?).
  unfold inst_step. rewrite E. step. eauto.
Qed.

Lemma thread_inst g t ts : ginv g → threads g !! t = Some ts →
  ∃ σ, heap g !! tkid ts = Some σ ∧ inst_ok (threads g) (inside g !! tkid ts) (tkid ts) σ.
Proof. intros Hg Ht. destruct (gi_thread g Hg t ts Ht) as [[σ Hσ] _]. exists σ. split; [done|]. by apply gi_inst. Qed.

Lemma lock_free g : ginv g → g_lock g = None → ∀ t ts, threads g !! t = Some ts → ¬ waiting ts.
Proof.
  intros Hg Hl t ts Ht Hw. assert (g_lock g = Some t) as E by (apply (gi_lock g Hg); by exists ts). congruence.
Qed.

Lemma lock_same g lk : g_lock g = lk → set_g_lock lk g = g.
Proof. by destruct g; cbn; intros <-. Qed.
Lemma inside_same g : set_inside (inside g) g = g.
Proof. by destruct g. Qed.

Lemma rele_state {A} (s : sys A OS TW) : holds (sock (nn_sock_rele s)) = holds (sock s) - 1 ∧
  sk_fsm (sock (nn_sock_rele s)) = sk_fsm (sock s) ∧ locked (nn_sock_rele s) = locked s.
Proof. unfold nn_sock_rele. by destruct (_ =? 0). Qed.

Lemma rele_step g t : ginv g → genabled (M := M) g (G_rele t) →
  ∃ g', gstep (M := M) create g (G_rele t) = Ret g' ∧ ginv g'.
Proof.
  intros Hg (Hlock & k & Ht & Hin). destruct (thread_inst g t _ Hg Ht) as (σ & Hk & Hσ). cbn [tkid] in *.
  cbn [gstep]. rewrite Ht. unfold nn_global_rele_socket, get_inst. rewrite Hk. step. eexists. split; [reflexivity|].
  rewrite <- (inside_same (set_threads _ _)), <- (lock_same _ None Hlock). cbn.
  destruct (rele_state (inst_sys σ)) as (Hh & Hf & Hl). destruct Hσ as [Hs ? ? Hlk Hfirst] eqn:Eσ. clear Eσ.
  assert (enabled (M := M) (inst_sys σ) U_rele) as Hen.
  { eapply rele_ready; [by apply gi_inst|]. by apply (mcount_pos _ _ t _ Ht). }
  refine (move_ok g t k None σ (inst_rele σ) (inside g) None Hg Hk (rele_ok _ Hs Hen) _ _ _ _ _ _ _ _ _).
  - by rewrite Ht; intros ? [= <-].
  - done.
  - rewrite Ht. counts. cbn in Hh. lia.
  - rewrite Ht. counts. unfold stopping. cbn in Hf |- *. rewrite Hf. lia.
  - intros t' s Ht'. case_decide; [done|]. cbn in Hf |- *. rewrite Hf. by eapply Hfirst.
  - cbn in Hl |- *. by rewrite Hl.
  - done.
  - intros t' Hw. case_decide; [by subst|]. by apply (gi_inside g Hg k (Some t') Hw).
  - intros t'. split; [done|]. intros (ts & Hts & Hw). case_decide; [done|]. exfalso. by eapply lock_free.
Qed.

Lemma hold_step g t s : ginv g → g_lock g = None → threads g !! t = None →
  ∃ g' rc, enter_call t s g = Ret (g', rc) ∧ ginv g'.
Proof.
  intros Hg Hlock Ht. unfold enter_call.
  destruct (hold_socket g s Hg) as [(k & σ & Hsl & Hk & Hf & E)|[_ E]]; rewrite E; step; [|by eexists _, _].
  eexists _, _. split; [reflexivity|]. rewrite <- (lock_same _ None Hlock). cbn.
  apply (held_ok g t k σ (In_call k) None Hg Hk Hf Ht Hlock). by left.
Qed.

Lemma close_step g t s : ginv g → g_lock g = None → threads g !! t = None →
  ∃ g' rc, close_begin t s g = Ret (g', rc) ∧ ginv g'.
Proof.
  intros Hg Hlock Ht. unfold close_begin.
  destruct (hold_socket g s Hg) as [(k & σ & Hsl & Hk & Hf & E)|[_ E]]; rewrite E; step; [|by eexists _, _].
  eexists _, _. split; [reflexivity|].
  apply (held_ok g t k σ (Stopping s k) (Some t) Hg Hk Hf Ht Hlock). right. by exists s.
Qed.

Lemma enter_step g who k : ginv g → genabled (M := M) g (G_enter who k) →
  ∃ g', gstep (M := M) create g (G_enter who k) = Ret g' ∧ ginv g'.
Proof.
  intros Hg (Hin & [σ Hk] & Hmay). cbn [gstep]. unfold get_inst. rewrite Hk. step.
  destruct (gi_inst g Hg k σ Hk) as [Hs _ _ Hlk _]. rewrite Hin in Hlk.
  destruct (inst_step_ok σ S_enter Hs (conj Hlk I)) as (s' & -> & E & Hs'). step. injection E as <-.
  eexists. split; [reflexivity|].
  apply (put_ok g k σ (Inst (inst_type σ) (set_locked true (inst_sys σ))) (<[k := who]> (inside g)) Hg Hk Hs').
  - done.
  - done.
  - by rewrite lookup_insert_eq.
  - intros k' Hne. by apply lookup_insert_ne.
  - intros t. rewrite lookup_insert_eq. intros [= ->]. by left.
Qed.

Lemma role_keeps g who k (a : saction (TW := TW) (M := M)) : role g who k a → keeps a.
Proof.
  unfold role. destruct who as [t|]; [|by destruct a].
  destruct (threads g !! t) as [[| | |]|]; try done; intros [_ Ha]; by destruct a.
Qed.

Lemma do_step g who k a : ginv g → genabled g (G_do who k a) →
  ∃ g', gstep (M := M) create g (G_do who k a) = Ret g' ∧ ginv g'.
Proof.
  intros Hg (Hin & Hrole & σ & Hk & Hready). cbn [gstep]. unfold get_inst. rewrite Hk. step.
  destruct (gi_inst g Hg k σ Hk) as [Hs _ _ Hlk _].
  destruct (inst_step_ok σ a Hs Hready) as (s' & -> & E & Hs'). step. eexists. split; [reflexivity|].
  destruct (sstep_kept _ a _ (role_keeps _ _ _ _ Hrole) E) as (Hh & Hf & Hl). rewrite <- (inside_same (put_inst _ _ _)).
  apply (put_ok g k σ (Inst (inst_type σ) s') (inside g) Hg Hk Hs' Hh Hf).
  - rewrite <- Hlk. exact Hl.
  - done.
  - intros t Ht. by apply (gi_inside g Hg k (Some t) Ht).
Qed.

Lemma leave_step g who k : ginv g → genabled (M := M) g (G_leave who k) →
  ∃ g', gstep (M := M) create g (G_leave who k) = Ret g' ∧ ginv g'.
Proof.
  intros Hg (Hin & σ & Hk & Hen). cbn [gstep]. unfold get_inst. rewrite Hk. step.
  destruct (gi_inst g Hg k σ Hk) as [Hs _ _ _ _].
  destruct (inst_step_ok σ S_leave Hs (conj Hen I)) as (s' & -> & E & Hs'). step. eexists. split; [reflexivity|].
  cbn [sstep] in E. inv_ret. match goal with E : nn_sock_onleave _ = _ |- _ => destruct (onleave_kept _ _ E) as (Hh & Hf & _) end.
  refine (put_ok g k σ (Inst (inst_type σ) _) (delete k (inside g)) Hg Hk Hs' Hh Hf _ _ _).
  - by rewrite lookup_delete_eq.
  - intros k' Hne. by apply lookup_delete_ne.
  - intros t. by rewrite lookup_delete_eq.
Qed.

(** [nn_sock_stop] of the thread that has [self.lock]. *)
Lemma stop_step g t : ginv g → genabled (M := M) g (G_stop t) →
  ∃ g', gstep (M := M) create g (G_stop t) = Ret g' ∧ ginv g'.
Proof.
  intros Hg (s & k & Ht & Hin). destruct (thread_inst g t _ Hg Ht) as (σ & Hk & [Hs _ _ Hlk Hfirst]). cbn [tkid] in *.
  rewrite Hin in Hlk. specialize (Hfirst t s Ht).
  cbn [gstep]. rewrite Ht. unfold close_stop, get_inst. rewrite Hk. step.
  destruct (inst_step_ok σ S_enter Hs (conj Hlk I)) as (s1 & -> & E1 & Hs1). step. injection E1 as <-.
  destruct (si_idle _ Hs Hlk) as [Hq _].
  destruct (inst_step_ok (Inst (inst_type σ) (set_locked true (inst_sys σ))) U_stop Hs1 (conj (conj eq_refl Hq) I))
    as (s2 & -> & E2 & Hs2). step. eexists. split; [reflexivity|].
  destruct (stop_state (M := M) (set_locked true (inst_sys σ)) s2 E2 Hfirst) as (Hh & Hf & Hl). cbn in Hh, Hl.
  assert (g_lock g = Some t) as Hlock by (apply (gi_lock g Hg); by eexists).
  assert (∀ t' ts, threads g !! t' = Some ts → waiting ts → t' = t) as Huniq.
  { intros t' ts Ht' Hw. assert (g_lock g = Some t') as E by (apply (gi_lock g Hg); by exists ts). congruence. }
  match goal with |- ginv (set_inside _ ?x) => rewrite <- (lock_same x (Some t) Hlock) end. cbn.
  refine (move_ok g t k (Some (Stopped s k)) σ (Inst (inst_type σ) s2) (<[k := Some t]> (inside g)) (Some t) Hg Hk Hs2 _ _ _ _ _ _ _ _ _).
  - rewrite Ht. by intros ? [= <-].
  - intros ts [= <-]. split; [done|]. intros s' [= <-]. by apply (gi_thread g Hg t _ Ht).
  - rewrite Ht. counts. cbn. lia.
  - rewrite Ht. counts. unfold stopping. cbn. by rewrite Hf, Hfirst.
  - intros t' s'. case_decide as Hd; [done|]. intros Ht'. exfalso. by apply Hd, (Huniq t' _ Ht').
  - rewrite lookup_insert_eq. exact Hl.
  - intros k' Hne. by apply lookup_insert_ne.
  - intros t'. rewrite lookup_insert_eq. intros [= ->]. rewrite decide_True by done. right. by exists s.
  - intros t'. case_decide as Hd.
    + subst t'. split; [|done]. intros _. by eexists.
    + split; [congruence|]. intros (ts & Hts & Hw). exfalso. by apply Hd, (Huniq t' ts).
Qed.

(** The thread that closes [k] is the only one. *)
Lemma closer_alone g t ts k σ : ginv g → threads g !! t = Some ts → heap g !! k = Some σ → shut k ts →
  sk_fsm (sock (inst_sys σ)) = NN_FSM_STATE_STOPPING ∧ mcount (shut k) (delete t (threads g)) = 0%nat ∧
  mcount (gone k) (delete t (threads g)) = 0%nat.
Proof.
  intros Hg Ht Hk Hsh. destruct (gi_inst g Hg k σ Hk) as [_ _ Hc _ _].
  pose proof (mcount_delete (shut k) (threads g) t ts Ht) as Hd. rewrite bcount_true in Hd by done.
  pose proof (mcount_mono (gone k) (shut k) (delete t (threads g)) (gone_shut k)).
  unfold stopping in Hc. destruct (Z.eqb_spec (sk_fsm (sock (inst_sys σ))) NN_FSM_STATE_STOPPING); split_and!; (done || lia).
Qed.

Lemma closed_step g t : ginv g → genabled (M := M) g (G_closed t) →
  ∃ g', gstep (M := M) create g (G_closed t) = Ret g' ∧ ginv g'.
Proof.
  intros Hg (s & k & Ht & Hin). destruct (thread_inst g t _ Hg Ht) as (σ & Hk & Hσ). cbn [tkid] in *.
  destruct (closer_alone g t _ k σ Hg Ht Hk eq_refl) as (Hf & Hsh & Hgo).
  cbn [gstep]. rewrite Ht. unfold close_rele, nn_global_rele_socket, get_inst. rewrite Hk. step. cbn [heap put_inst set_heap].
  rewrite lookup_insert_eq. step. eexists. split; [reflexivity|].
  assert (enabled (M := M) (inst_sys σ) U_rele) as Hen1.
  { eapply rele_ready; [exact Hσ|]. by apply (mcount_pos _ _ t _ Ht). }
  destruct Hσ as [Hs Hh _ Hlk _]. pose proof (rele_ok _ Hs Hen1) as Hs1.
  destruct (rele_state (inst_sys σ)) as (Hh1 & Hf1 & Hl1).
  assert (2 ≤ holds (sock (inst_sys σ))) as Hge.
  { pose proof (mcount_pos (uses k) _ t _ Ht eq_refl). pose proof (mcount_delete (gone k) _ t _ Ht) as Hd.
    rewrite bcount_false in Hd by (cbn; tauto). lia. }
  assert (enabled (M := M) (nn_sock_rele (inst_sys σ)) U_rele) as Hen2.
  { split; [lia|]. rewrite Hf1, Hf. done. }
  pose proof (rele_ok _ Hs1 Hen2) as Hs2. destruct (rele_state (nn_sock_rele (inst_sys σ))) as (Hh2 & Hf2 & Hl2).
  assert (g_lock g = Some t) as Hlock by (apply (gi_lock g Hg); by eexists).
  assert (∀ t' ts, threads g !! t' = Some ts → waiting ts → t' = t) as Huniq.
  { intros t' ts Ht' Hw. assert (g_lock g = Some t') as E by (apply (gi_lock g Hg); by exists ts). congruence. }
  unfold put_inst, set_heap. cbn. rewrite insert_insert_eq.
  refine (move_ok g t k (Some (Closing s k)) σ (inst_rele (inst_rele σ)) (inside g) None Hg Hk Hs2 _ _ _ _ _ _ _ _ _).
  - rewrite Ht. by intros ? [= <-].
  - intros ts [= <-]. split; [done|]. intros s' [= <-]. by apply (gi_thread g Hg t _ Ht).
  - rewrite Ht. counts. cbn in Hh1, Hh2. lia.
  - rewrite Ht. counts. unfold stopping. cbn in Hf1, Hf2 |- *. by rewrite Hf2, Hf1.
  - intros t' s'. case_decide as Hd; [done|]. intros Ht'. exfalso. by apply Hd, (Huniq t' _ Ht').
  - cbn in Hl1, Hl2 |- *. by rewrite Hl2, Hl1.
  - done.
  - intros t' Hw. case_decide; [by subst|]. by apply (gi_inside g Hg k (Some t') Hw).
  - intros t'. case_decide as Hd.
    + split; [done|]. by intros (ts & [= <-] & ?).
    + split; [done|]. intros (ts & Hts & Hw). exfalso. by apply Hd, (Huniq t' ts).
Qed.

(** Freeing the socket: no other thread refers to it. *)
Lemma freed_ok g t s k σ tab : ginv g → g_lock g = None → threads g !! t = Some (Closing s k) →
  heap g !! k = Some σ → inside g !! k = None → 0 < relesem (sock (inst_sys σ)) →
  self g = Some tab → 0 ≤ s → socks tab !! Z.to_nat s = Some (Some k) →
  let tab' := Table (<[Z.to_nat s := None]> (socks tab))
    (<[(NN_MAX_SOCKETS - nsocks tab)%nat := s]> (unused tab)) (nsocks tab - 1) in
  let g' := set_threads (delete t (threads g)) (set_heap (delete k (heap g)) g) in
  ∃ g'', nn_global_term (set_self (Some tab') g') = Ret g'' ∧ ginv g'' ∧
    heap g'' = delete k (heap g) ∧ (self g'' = None ∨ self g'' = Some tab').
Proof.
  intros Hg Hlock Ht Hk Hin Hrel Hself Hpos Hs tab' g'. pose proof (gi_tab g Hg) as Htab. rewrite Hself in Htab.
  destruct Htab as [Htab Hn]. destruct (give_slot tab _ k s Htab Hpos Hs) as (_ & Htab').
  destruct (closer_alone g t _ k σ Hg Ht Hk eq_refl) as (Hf & Hsh & Hgo).
  destruct (gi_inst g Hg k σ Hk) as [Hinv Hh _ _ _].
  assert (mcount (uses k) (threads g) = 0%nat) as Hu.
  { destruct (si_holds _ Hinv) as (_ & Hr & _). destruct (Z.eqb_spec (holds (sock (inst_sys σ))) 0); [|lia].
    pose proof (mcount_delete (gone k) _ t _ Ht) as Hd. rewrite bcount_true in Hd by done. lia. }
  assert (∀ t' ts, threads g !! t' = Some ts → t' ≠ t → tkid ts ≠ k) as Hother.
  { intros t' ts Ht' Hne E. destruct ts as [k'|s' k'|s' k'|s' k']; cbn in E; subst k'.
    1-3: pose proof (mcount_pos (uses k) _ t' _ Ht' eq_refl); lia.
    rewrite <- (lookup_delete_ne _ t t') in Ht' by done. pose proof (mcount_pos (shut k) _ t' _ Ht' eq_refl). lia. }
  assert (∀ se, match se with None => delete k (heap g) = ∅ | Some tab => tab_ok tab (dom (delete k (heap g))) ∧ (0 < nsocks tab)%nat end →
    (se = None ∨ se = Some tab') → ginv (set_self se g')) as Hnew.
  { intros se Hse Hcase. split; cbn.
    - exact Hse.
    - by apply gi_flags.
    - intros k' σ' [Hne Hk']%lookup_delete_Some. destruct (gi_inst g Hg k' σ' Hk') as [? ? ? ? Hfirst].
      pose proof (mcount_delete (uses k') _ t _ Ht) as H2'. pose proof (mcount_delete (gone k') _ t _ Ht) as H3'.
      pose proof (mcount_delete (shut k') _ t _ Ht) as H4'. rewrite bcount_false in H2', H3', H4' by (cbn; congruence).
      split; [done|lia|lia|done|]. intros t' s' [_ Ht']%lookup_delete_Some. by eapply Hfirst.
    - intros t' ts [Hne Ht']%lookup_delete_Some. destruct (gi_thread g Hg t' ts Ht') as [[σ' Hσ'] Hsl].
      pose proof (Hother t' ts Ht' (not_eq_sym Hne)) as Hk'. split; [exists σ'; by rewrite lookup_delete_ne by congruence|].
      intros s' Hs'. destruct (Hsl s' Hs') as (tab0 & E & Hpos' & Hlk). rewrite Hself in E. injection E as <-.
      destruct Hcase as [->| ->].
      + rewrite <- (lookup_delete_ne _ k) in Hσ' by congruence. rewrite Hse in Hσ'. done.
      + exists tab'. split; [done|]. split; [done|]. cbn. rewrite list_lookup_insert_ne; [done|]. intros E. rewrite E in Hs. congruence.
    - intros k' who Hw. destruct (gi_inside g Hg k' who Hw) as [[σ' Hσ'] Hmay].
      destruct (decide (k' = k)) as [->|Hne]; [congruence|]. split; [exists σ'; by rewrite lookup_delete_ne by congruence|].
      intros t' ->. destruct (decide (t' = t)) as [->|Hne']; [|unfold may_be_in; rewrite lookup_delete_ne by done; by apply Hmay].
      exfalso. destruct (Hmay t eq_refl) as [E|[? E]]; rewrite Ht in E; done.
    - intros t'. rewrite Hlock. split; [done|]. intros (ts & [_ Hts]%lookup_delete_Some & Hw). by destruct (lock_free g Hg Hlock t' ts Hts). }
  assert (dom (delete k (heap g)) = dom (heap g) ∖ {[k]}) as Hdom by apply dom_delete_L.
  rewrite <- Hdom in Htab'. unfold nn_global_term. change (self (set_self (Some tab') g')) with (Some tab'). step.
  change (nsocks tab') with (nsocks tab - 1)%nat.
  destruct (Nat.ltb_spec 0 (nsocks tab - 1)) as [Hlt|Hge]; (eexists; split; [reflexivity|split; [|split; [done|cbn; tauto]]]).
  - apply (Hnew (Some tab')); [by split|by right].
  - apply (Hnew None); [|by left]. apply dom_empty_iff_L, leibniz_equiv, size_empty_inv.
    pose proof (to_count _ _ Htab') as Hc. cbn in Hc. lia.
Qed.

(** What nn_close leaves. *)
Lemma free_state g t s k : ginv g → genabled (M := M) g (G_free t) → threads g !! t = Some (Closing s k) →
  ∃ g' tab, gstep (M := M) create g (G_free t) = Ret g' ∧ ginv g' ∧ heap g' = delete k (heap g) ∧
    (nsocks tab ≤ NN_MAX_SOCKETS)%nat ∧ (0 < nsocks tab)%nat ∧ length (unused tab) = NN_MAX_SOCKETS ∧
    (Z.to_nat s < length (socks tab))%nat ∧
    (self g' = None ∨ self g' = Some (Table (<[Z.to_nat s := None]> (socks tab))
       (<[(NN_MAX_SOCKETS - nsocks tab)%nat := s]> (unused tab)) (nsocks tab - 1))).
Proof.
  intros Hg (Hlock & s0 & k0 & σ & Ht & Hk & Hin & Hterm & Hrel) Ht'. rewrite Ht in Ht'. injection Ht' as -> ->.
  destruct (gi_inst g Hg k σ Hk) as [Hinv _ _ Hlk _]. rewrite Hin in Hlk.
  destruct (term_ok (inst_sys σ) Hinv Hlk Hterm Hrel) as [s' E].
  destruct (gi_thread g Hg t _ Ht) as [_ Hsl]. destruct (Hsl s eq_refl) as (tab & Hself & Hpos & Hs). cbn [tkid] in Hs.
  pose proof (gi_tab g Hg) as Htab. rewrite Hself in Htab. destruct Htab as [Htab Hn].
  destruct (give_slot tab _ k s Htab Hpos Hs) as (Hlt & _).
  destruct (lookup_lt_is_Some_2 (unused tab) (NN_MAX_SOCKETS - nsocks tab)) as [u Hu]; [by rewrite (to_unused _ _ Htab)|].
  cbn [gstep]. rewrite Ht. unfold close_free, get_inst, inst_term. rewrite Hk. step. rewrite E. step.
  rewrite Hself. step. rewrite Hs. step. rewrite Hu. step.
  destruct (freed_ok g t s k σ tab Hg Hlock Ht Hk Hin Hrel Hself Hpos Hs) as (g' & E' & Hg' & Hh & Hse).
  exists g', tab. split; [exact E'|]. destruct Htab. apply lookup_lt_Some in Hs. split_and!; (done || lia).
Qed.

Lemma free_step g t : ginv g → genabled (M := M) g (G_free t) →
  ∃ g', gstep (M := M) create g (G_free t) = Ret g' ∧ ginv g'.
Proof.
  intros Hg Hen. destruct Hen as (Hl & s & k & σ & Ht & Hr) eqn:E. clear E.
  destruct (free_state g t s k Hg ltac:(split; [done|]; by exists s, k, σ) Ht) as (g' & tab & E & Hg' & _). by exists g'.
Qed.

Lemma flags_step g fl : ginv g → 0 ≤ fl < 4 → ginv (set_g_flags fl g).
Proof. intros [? ? ? ? ? ?] Hfl. by split. Qed.

Lemma flag_values f : 0 ≤ f < 4 → 0 ≤ Z.lor f NN_CTX_FLAG_TERMING < 4 ∧
  0 ≤ Z.ldiff (Z.lor f NN_CTX_FLAG_TERMED) NN_CTX_FLAG_TERMING < 4 ∧ 0 ≤ Z.ldiff f NN_CTX_FLAG_TERMED < 4.
Proof. intros Hf. destruct (flags_cases f Hf) as [->|[->|[->| ->]]]; vm_compute; repeat split; intros [=]. Qed.

Lemma gstep_ok g a : ginv g → genabled g a → glegal g a → ∃ g', gstep (M := M) create g a = Ret g' ∧ ginv g'.
Proof.
  intros Hg Hen Hl. pose proof (flag_values _ (gi_flags g Hg)) as (? & ? & ?).
  destruct a as [domain protocol mem fds w|t s|t|who k|who k a|who k|t s|t|t|t| | |].
  - pose proof (socket_ok domain protocol mem fds w g Hg Hen Hl) as Hs. cbn [gstep].
    destruct (socket_error g domain protocol mem fds); [rewrite Hs; step; by eexists|].
    destruct Hs as (g' & s & k & σ & -> & ? & _). step. by eexists.
  - destruct Hen. destruct (hold_step g t s Hg) as (g' & rc & E & ?); [done..|]. cbn [gstep]. rewrite E. step. by eexists.
  - by apply rele_step.
  - by apply enter_step.
  - by apply do_step.
  - by apply leave_step.
  - destruct Hen. destruct (close_step g t s Hg) as (g' & rc & E & ?); [done..|]. cbn [gstep]. rewrite E. step. by eexists.
  - by apply stop_step.
  - by apply closed_step.
  - by apply free_step.
  - eexists. split; [reflexivity|]. by apply flags_step.
  - eexists. split; [reflexivity|]. by apply flags_step.
  - eexists. split; [reflexivity|]. by apply flags_step.
Qed.

(** ** The library from its first use on *)
Inductive greach : gsys → Prop :=
| greach_start : greach gstart
| greach_step g a g' :
    greach g → genabled (M := M) g a → glegal g a → gstep (M := M) create g a = Ret g' → greach g'.

Lemma greach_ginv g : greach g → ginv g.
Proof.
  induction 1 as [|g a g' _ IH Hen Hl E]; [exact start_ginv|].
  destruct (gstep_ok g a IH Hen Hl) as (g'' & E' & Hg'). rewrite E in E'. by injection E' as ->.
Qed.

(** C7: the global state is safe but for the races of single sockets.  Threads of the
    user create sockets of any type, use them and close them, call nn_term and
    nn_init, in any order and any interleaving that [self.lock] and the contexts of
    the sockets allow, while worker threads run the transports.  Every such step
    of a reachable state returns and leads to a reachable state: no assertion
    fires, the table is never indexed out of range, no socket is used after it has
    been freed.  The exceptions are four steps inside the context of a socket, with
    which a run ends: nn_bind or nn_connect, or nn_setsockopt or nn_getsockopt of an
    option of the protocol, gets in after another thread's nn_close has stopped the
    socket, and a worker stops a pipe with an event in the queue. *)
Theorem global_safe g a :
  greach g → gpossible (M := M) g a → glegal g a →
  global_race (M := M) g a ∨ ∃ g', gstep (M := M) create g a = Ret g' ∧ greach g'.
Proof.
  intros Hg [?|Hen]%gpossible_race Hl; [by left|right].
  destruct (gstep_ok g a (greach_ginv g Hg) Hen Hl) as (g' & E & _).
  exists g'. split; [done|]. by eapply greach_step.
Qed.

(** C8: reference counts are exact.  A socket that a thread uses or closes is in
    memory; it has exactly one descriptor; its count is the number of calls in
    progress, and one more until nn_close has dropped the hold of the table; the
    semaphore nn_sock_term waits for is posted exactly when the count is 0.  At
    most one thread closes it.  The table exists as long as there is a socket. *)
Theorem global_refcount g :
  greach g →
  (self g = None ↔ heap g = ∅) ∧
  (∀ t ts, threads g !! t = Some ts → is_Some (heap g !! tkid ts)) ∧
  ∀ k σ, heap g !! k = Some σ →
    (∃ s, slot_of g s k ∧ ∀ s', slot_of g s' k → s' = s) ∧ (mcount (gone k) (threads g) ≤ 1)%nat ∧
    holds (sock (inst_sys σ)) =
      Z.of_nat (mcount (uses k) (threads g)) + (if decide (mcount (gone k) (threads g) = 0%nat) then 1 else 0) ∧
    relesem (sock (inst_sys σ)) = if holds (sock (inst_sys σ)) =? 0 then 1 else 0.
Proof.
  intros Hr. pose proof (greach_ginv g Hr) as Hg. pose proof (gi_tab g Hg) as Ht. split; [|split].
  - destruct (self g) as [tab|]; [|done]. split; [done|]. intros Hh. destruct Ht as [Ht Hn].
    rewrite (to_count _ _ Ht), Hh, dom_empty_L, size_empty in Hn. lia.
  - intros t ts Hts. by apply (gi_thread g Hg t ts).
  - intros k σ Hk. destruct (gi_inst g Hg k σ Hk) as [Hs Hh Hsh _ _]. split.
    + destruct (self g) as [tab|] eqn:Eself; [|rewrite Ht in Hk; done]. destruct Ht as [Ht _].
      destruct (to_has _ _ Ht k) as [n Hn]; [by apply elem_of_dom_2 in Hk|].
      exists (Z.of_nat n). split; [exists tab; rewrite Nat2Z.id; split_and!; (done || lia)|].
      intros s' (tab' & E & Hpos & Hs'). rewrite Eself in E. injection E as <-.
      pose proof (to_inj _ _ Ht _ _ _ Hn Hs'). lia.
    + pose proof (mcount_mono (gone k) (shut k) (threads g) (gone_shut k)) as Hm.
      assert (stopping σ ≤ 1)%nat by (unfold stopping; destruct (_ =? _); lia).
      destruct (si_holds _ Hs) as (_ & Hrel & _). split; [lia|]. split; [|done]. case_decide; lia.
Qed.

(** C9: nn_socket is exact.  A call fails with the first error that applies -
    ETERM after nn_term, EAFNOSUPPORT for an unknown domain, EMFILE when 512
    sockets are open, EINVAL for an unknown protocol, ENOMEM, EMFILE when no
    descriptors are left - and changes nothing; otherwise it returns a descriptor
    between 0 and 511 that was not open and now refers to a new, active socket. *)
Theorem global_socket g domain protocol mem fds w :
  greach g → genabled (OS := OS) g (G_socket domain protocol mem fds w) →
  glegal g (G_socket domain protocol mem fds w) →
  match socket_error g domain protocol mem fds with
  | Some e => nn_socket (M := M) create domain protocol mem fds w g = Ret (g, -1, e)
  | None => ∃ g' s k σ, nn_socket (M := M) create domain protocol mem fds w g = Ret (g', s, 0) ∧
      0 ≤ s < Z.of_nat NN_MAX_SOCKETS ∧ (∀ k', ¬ slot_of g s k') ∧ slot_of g' s k ∧ heap g !! k = None ∧
      heap g' = <[k := σ]> (heap g) ∧ sk_fsm (sock (inst_sys σ)) = NN_FSM_STATE_ACTIVE
  end.
Proof.
  intros Hr Hen Hl. pose proof (socket_ok domain protocol mem fds w g (greach_ginv g Hr) Hen Hl) as Hs.
  destruct (socket_error g domain protocol mem fds); [done|].
  destruct Hs as (g' & s & k & σ & E & Hg' & -> & Hh & _ & Hsl & Hf & Hfresh & _). exists g', s, k, σ.
  destruct Hen as (_ & Hmem & _). destruct Hsl as (tab & Etab & Hpos & Hlk) eqn:E1. clear E1.
  pose proof (gi_tab g' Hg') as Ht. rewrite Etab in Ht. destruct Ht as [Ht _].
  pose proof (lookup_lt_Some _ _ _ Hlk) as Hlt. rewrite (to_socks _ _ Ht) in Hlt.
  split; [done|]. split; [lia|]. split; [done|]. split; [by exists tab|]. split; [by apply Hmem|done].
Qed.

(** The descriptor of the next socket. *)
Lemma next_slot g tab tab' s s' : ginv g → (nsocks tab ≤ NN_MAX_SOCKETS)%nat → (0 < nsocks tab)%nat →
  length (unused tab) = NN_MAX_SOCKETS →
  self g = None ∨ self g = Some (Table (<[Z.to_nat s := None]> (socks tab))
    (<[(NN_MAX_SOCKETS - nsocks tab)%nat := s]> (unused tab)) (nsocks tab - 1)) →
  self (nn_global_init g) = Some tab' → unused tab' !! (NN_MAX_SOCKETS - nsocks tab' - 1)%nat = Some s' →
  s' = if decide (dom (heap g) = ∅) then 0 else s.
Proof.
  intros Hg Hmax Hn Hl Hself Htab' Htop. pose proof (gi_tab g Hg) as Ht. unfold nn_global_init in Htab'.
  destruct Hself as [Hse|Hse]; rewrite Hse in Ht, Htab'.
  - rewrite Ht, dom_empty_L, decide_True by done. cbn in Htab'. injection Htab' as <-. vm_compute in Htop. by injection Htop as <-.
  - rewrite Hse in Htab'. injection Htab' as <-. destruct Ht as [Ht Hpos]. cbn [unused nsocks] in Hpos, Htop.
    rewrite decide_False.
    + replace (NN_MAX_SOCKETS - (nsocks tab - 1) - 1)%nat with (NN_MAX_SOCKETS - nsocks tab)%nat in Htop by lia.
      rewrite list_lookup_insert_eq in Htop by lia. by injection Htop as <-.
    + intros E. pose proof (to_count _ _ Ht) as Hc. rewrite E, size_empty in Hc. cbn in Hc. lia.
Qed.

(** C10: descriptors are exact.  A call on [s] fails with EBADF, and changes nothing,
    exactly when [s] is not open or is being closed - so of several threads that
    close a socket one succeeds.  When nn_close has finished, [s] is not open and
    the socket is gone; the next socket gets this descriptor if other sockets are
    left, and descriptor 0, because the library starts again, if it was the last. *)
Theorem global_close g :
  greach g →
  (∀ s, (nn_global_hold_socket_locked s g = Ret (g, inr (- EBADF)) ↔
     ∀ k σ, slot_of g s k → heap g !! k = Some σ → sk_fsm (sock (inst_sys σ)) = NN_FSM_STATE_STOPPING)) ∧
  ∀ t s k, genabled (M := M) g (G_free t) → threads g !! t = Some (Closing s k) →
    ∃ g', gstep (M := M) create g (G_free t) = Ret g' ∧ heap g' = delete k (heap g) ∧ (∀ k', ¬ slot_of g' s k') ∧
      ∀ domain protocol mem fds w g'' s', genabled (OS := OS) g' (G_socket domain protocol mem fds w) →
        glegal g' (G_socket domain protocol mem fds w) →
        nn_socket (M := M) create domain protocol mem fds w g' = Ret (g'', s', 0) →
        s' = if decide (dom (heap g') = ∅) then 0 else s.
Proof.
  intros Hr. pose proof (greach_ginv g Hr) as Hg. split.
  - intros s. destruct (hold_socket g s Hg) as [(k & σ & Hsl & Hk & Hf & E)|[Hst E]]; rewrite E; split; try done.
    intros Hst. specialize (Hst k σ Hsl Hk). rewrite Hf in Hst. discriminate Hst.
  - intros t s k Hen Ht. destruct (free_state g t s k Hg Hen Ht) as (g' & tab & E & Hg' & Hh & Hmax & Hn & Hl & Hs & Hself).
    exists g'. split; [done|]. split; [done|]. split.
    + intros k' (tab' & E' & Hpos & Hlk). destruct Hself as [Hse|Hse]; rewrite Hse in E'; [done|].
      injection E' as <-. cbn in Hlk. rewrite list_lookup_insert_eq in Hlk by lia. done.
    + intros domain protocol mem fds w g'' s' Hen' Hl' E'.
      pose proof (socket_ok domain protocol mem fds w g' Hg' Hen' Hl') as Hs'.
      destruct (socket_error g' domain protocol mem fds) as [e|] eqn:Ee.
      { apply socket_error_pos in Ee. rewrite Hs' in E'. injection E' as _ _ ->. lia. }
      destruct Hs' as (g1 & s1 & k1 & σ1 & E1 & _ & _ & _ & _ & _ & _ & _ & tab1 & Htab1 & Htop).
      rewrite E1 in E'. injection E' as _ ->. by apply (next_slot g' tab tab1 s s').
Qed.
End safe.

(** ** Addresses *)

Lemma transport_names i name : nn_transports !! i = Some name →
  58 ∉ name ∧ list_find (λ n, length n = length name ∧ n = take (length name) name) nn_transports = Some (i, name).
Proof.
  intros Hi. assert (i < 4)%nat as Hlt by (by apply lookup_lt_Some in Hi).
  do 4 (destruct i as [|i]; [injection Hi as <-; split; [by apply (bool_decide_unpack _)|reflexivity]|]). lia.
Qed.

Lemma char_at (a : list Z) n c : a !! n = Some c → a = take n a ++ c :: drop (S n) a.
Proof. intros Hn. by rewrite (take_drop_middle a n c Hn). Qed.

(** An address with a "://" after its first colon. *)
Lemma parse_addr_split p rest : 58 ∉ p → let a := p ++ [58; 47; 47] ++ rest in Z.of_nat (length a) < NN_SOCKADDR_MAX →
  parse_addr (Some a) =
    match list_find (λ name, length name = length p ∧ name = p) nn_transports with
    | None => inr (- EPROTONOSUPPORT)
    | Some (i, _) => inl (i, rest)
    end.
Proof.
  intros Hno a Hlen. unfold parse_addr. rewrite (proj2 (Z.leb_gt _ _) Hlen).
  assert (∀ j, a !! (length p + j)%nat = ([58; 47; 47] ++ rest) !! j) as Hlk
    by (intros j; unfold a; rewrite lookup_app_r by lia; f_equal; lia).
  assert (list_find (λ c, c = 58) a = Some (length p, 58)) as ->.
  { apply list_find_Some. split; [by rewrite <- (Nat.add_0_r (length p)), Hlk|]. split; [done|].
    intros j c Hj Hlt ->. unfold a in Hj. rewrite lookup_app_l in Hj by done. by apply list_elem_of_lookup_2 in Hj. }
  replace (S (S (length p))) with (length p + 2)%nat by lia.
  replace (S (length p)) with (length p + 1)%nat by lia.
  rewrite !Hlk. rewrite !bool_decide_eq_true_2 by done. cbn [negb orb].
  replace (take (length p) a) with p by (unfold a; by rewrite take_app_length).
  replace (drop (length p + 3) a) with rest by (unfold a; by rewrite drop_app_add). done.
Qed.

(** Any other. *)
Lemma parse_addr_bad a : Z.of_nat (length a) < NN_SOCKADDR_MAX →
  (∀ p rest, 58 ∉ p → a ≠ p ++ [58; 47; 47] ++ rest) → parse_addr (Some a) = inr (- EINVAL).
Proof.
  intros Hlen Hbad. unfold parse_addr. rewrite (proj2 (Z.leb_gt _ _) Hlen).
  destruct (list_find (λ c, c = 58) a) as [[n c]|] eqn:Ef; [|done].
  apply list_find_Some in Ef as (Hn & -> & Hlt).
  destruct (bool_decide_reflect (a !! S n = Some 47)) as [H1|]; [|done].
  destruct (bool_decide_reflect (a !! S (S n) = Some 47)) as [H2|]; [|done].
  destruct (Hbad (take n a) (drop (S (S (S n))) a)).
  - intros (j & Hj)%list_elem_of_lookup_1. apply lookup_take_Some in Hj as [Hj Hjn]. by apply (Hlt j 58).
  - rewrite (char_at a n 58 Hn) at 1. f_equal. cbn. by rewrite (drop_S a 47 (S n) H1), (drop_S a 47 (S (S n)) H2).
Qed.

(** C11: how nn_bind and nn_connect read an address.  An address of 128 bytes or more
    fails with ENAMETOOLONG, one without "://" at its first colon with EINVAL, one
    whose transport the library does not have with EPROTONOSUPPORT, and these change
    nothing.  Of TRANSPORT://REST, with inproc, ipc, tcp or ws for TRANSPORT, exactly
    REST is handed to that transport; the endpoint is then made by nn_sock_add_ep with
    the transport's answer, which may still be an error. *)
Theorem create_ep_exact {St OS TW} (bind : nat → list Z → Z) (a : list Z) (e : option positive) (s : sys St OS TW) :
  (NN_SOCKADDR_MAX ≤ Z.of_nat (length a) →
     nn_global_create_ep bind (Some a) e s = Ret (s, - ENAMETOOLONG)) ∧
  (Z.of_nat (length a) < NN_SOCKADDR_MAX →
     (∀ p rest, 58 ∉ p → a = p ++ [58; 47; 47] ++ rest →
        (∀ i, nn_transports !! i = Some p → nn_global_create_ep bind (Some a) e s = nn_sock_add_ep e (bind i rest) rest s) ∧
        (p ∉ nn_transports → nn_global_create_ep bind (Some a) e s = Ret (s, - EPROTONOSUPPORT))) ∧
     ((∀ p rest, 58 ∉ p → a ≠ p ++ [58; 47; 47] ++ rest) →
        nn_global_create_ep bind (Some a) e s = Ret (s, - EINVAL))).
Proof.
  unfold nn_global_create_ep. split; [|split].
  - intros Hlong. unfold parse_addr. by rewrite (proj2 (Z.leb_le _ _) Hlong).
  - intros p rest Hno ->. rewrite parse_addr_split by done. split.
    + intros i Hi. destruct (transport_names i p Hi) as [_ Hfind]. rewrite firstn_all in Hfind. by rewrite Hfind.
    + intros Hp. destruct (list_find _ nn_transports) as [[i name]|] eqn:Et; [|done].
      apply list_find_Some in Et as (Hi & [_ ->] & _). by apply list_elem_of_lookup_2 in Hi.
  - intros Hbad. by rewrite parse_addr_bad.
Qed.

(** "tcp://*:5", and the address of an unknown transport; both are shorter than 128 bytes. *)
Lemma create_ep_exact_witness :
  (∀ bind s, nn_global_create_ep (St := unit) (OS := unit) (TW := unit) bind (Some [116; 99; 112; 58; 47; 47; 42; 58; 53]) None s =
     nn_sock_add_ep None (bind 2%nat [42; 58; 53]) [42; 58; 53] s) ∧
  ∀ bind s, nn_global_create_ep (St := unit) (OS := unit) (TW := unit) bind (Some [117; 100; 112; 58; 47; 47]) None s =
     Ret (s, - EPROTONOSUPPORT).
Proof.
  split; intros bind s.
  - destruct (create_ep_exact bind [116; 99; 112; 58; 47; 47; 42; 58; 53] None s) as [_ Hx].
    destruct Hx as [Hx _]; [done|]. destruct (Hx ascii_tcp [42; 58; 53]) as [Hi _]; [by apply (bool_decide_unpack _)|done|].
    by apply (Hi 2%nat).
  - destruct (create_ep_exact bind [117; 100; 112; 58; 47; 47] None s) as [_ Hx].
    destruct Hx as [Hx _]; [done|]. destruct (Hx [117; 100; 112] []) as [_ Hi]; [by apply (bool_decide_unpack _)|done|].
    apply Hi. by apply (bool_decide_unpack _).
Defined.

(** ** Running a sequence of steps *)
Section run.
Context {St : nat → Type} {OS TW M : Type} `{TransportFinite TW M} `{EqDecision M}.
Context {HP : ∀ i, Proto (St i) (psys (TW := TW)) M} {HSP : ∀ i, SockProto (St i)} `{!OptSets OS}.
Context (create : ∀ i, St i).
Notation gsys := (gsys (St := St) (OS := OS) (TW := TW)).

Definition is_none {A} (o : option A) : bool := match o with None => true | Some _ => false end.
Definition role_dec (g : gsys) who k (a : saction (TW := TW) (M := M)) : bool :=
  match who with
  | None => worker_action a
  | Some t => match threads g !! t with
      | Some (In_call k') => bool_decide (k' = k) && user_action a
      | Some (Stopped _ k') => bool_decide (k' = k) && match a with S_dispatch => true | _ => false end
      | _ => false
      end
  end.

(** Whether a step can happen, computed. *)
Definition gready (g : gsys) (a : gaction (TW := TW) (M := M)) : bool :=
  match a with
  | G_socket _ _ mem fds w => is_none (g_lock g) && match mem with Some k => is_none (heap g !! k) | None => true end &&
      match fds with Some (sfd, rfd) => (0 <=? sfd) && (0 <=? rfd) | None => true end &&
      match events (pw w) with [] => true | _ => false end && bool_decide (size (bases (pw w)) = 0%nat)
  | G_hold t _ | G_close t _ => is_none (g_lock g) && is_none (threads g !! t)
  | G_rele t => is_none (g_lock g) && match threads g !! t with
      | Some (In_call k) => bool_decide (inside g !! k ≠ Some (Some t)) | _ => false end
  | G_enter who k => is_none (inside g !! k) && negb (is_none (heap g !! k)) && match who with
      | None => true | Some t => match threads g !! t with Some (In_call k') => bool_decide (k' = k) | _ => false end end
  | G_do who k a => bool_decide (inside g !! k = Some who) && role_dec g who k a &&
      match heap g !! k with
      | Some σ => bool_decide (enabled (M := M) (inst_sys σ) a) && bool_decide (slegal (M := M) (inst_sys σ) a)
      | None => false end
  | G_leave who k => bool_decide (inside g !! k = Some who) &&
      match heap g !! k with Some σ => bool_decide (enabled (M := M) (inst_sys σ) S_leave) | None => false end
  | G_stop t => match threads g !! t with Some (Stopping _ k) => is_none (inside g !! k) | _ => false end
  | G_closed t => match threads g !! t with
      | Some (Stopped _ k) => bool_decide (inside g !! k ≠ Some (Some t)) | _ => false end
  | G_free t => is_none (g_lock g) && match threads g !! t with
      | Some (Closing _ k) => is_none (inside g !! k) && match heap g !! k with
          | Some σ => (0 <? termsem (sock (inst_sys σ))) && (0 <? relesem (sock (inst_sys σ))) | None => false end
      | _ => false end
  | G_term | G_termed => is_none (g_lock g)
  | G_init => is_none (g_lock g) && (Z.land (g_flags g) NN_CTX_FLAG_TERMING =? 0)
  end.

Lemma is_none_true {A} (o : option A) : is_none o = true ↔ o = None.
Proof. by destruct o. Qed.

Lemma role_dec_ok g who k a : role_dec g who k a = true → role g who k a.
Proof.
  unfold role_dec, role. destruct who as [t|]; [|done]. destruct (threads g !! t) as [[]|]; try done;
    intros [Hk%bool_decide_eq_true Ha]%andb_true_iff; split; try done. by destruct a.
Qed.

Lemma gready_ok g a : gready g a = true → genabled g a.
Proof.
  destruct a as [domain protocol mem fds w|t s|t|who k|who k a|who k|t s|t|t|t| | |]; cbn [gready genabled];
    rewrite ?andb_true_iff, ?is_none_true; try done.
  - intros ((((? & Hm) & Hf) & He) & Hb%bool_decide_eq_true). split; [done|]. split; [|split].
    + intros k ->. by apply is_none_true.
    + intros sfd rfd ->. apply andb_true_iff in Hf as [?%Z.leb_le ?%Z.leb_le]. done.
    + split; [by destruct (events _)|by apply map_size_empty_iff].
  - intros [? Ht]. split; [done|]. destruct (threads g !! t) as [[k|s k|s k|s k]|]; try done. exists k. split; [done|]. by apply bool_decide_eq_true in Ht.
  - intros ((? & Hh) & Hm). split; [done|]. split; [by destruct (heap g !! k)|]. destruct who as [t|]; [|done].
    cbn. destruct (threads g !! t) as [[k'|s k'|s k'|s k']|]; try done. apply bool_decide_eq_true in Hm. by subst.
  - intros ((Hi%bool_decide_eq_true & Hr%role_dec_ok) & Hh). split; [done|]. split; [done|].
    destruct (heap g !! k) as [σ|]; [|done]. exists σ. split; [done|].
    apply andb_true_iff in Hh as [?%bool_decide_eq_true ?%bool_decide_eq_true]. by split.
  - intros (Hi%bool_decide_eq_true & Hh). split; [done|]. destruct (heap g !! k) as [σ|]; [|done].
    apply bool_decide_eq_true in Hh. by exists σ.
  - destruct (threads g !! t) as [[k|s k|s k|s k]|]; try done. rewrite is_none_true. intros ?. by exists s, k.
  - destruct (threads g !! t) as [[k|s k|s k|s k]|]; try done. intros Hh%bool_decide_eq_true. by exists s, k.
  - intros [? Ht]. split; [done|]. destruct (threads g !! t) as [[k|s k|s k|s k]|]; try done.
    rewrite andb_true_iff, is_none_true in Ht. destruct Ht as [? Hh]. destruct (heap g !! k) as [σ|] eqn:E; [|done].
    rewrite andb_true_iff, !Z.ltb_lt in Hh. destruct Hh. by exists s, k, σ.
  - rewrite Z.eqb_eq. done.
Qed.

Fixpoint grun (g : gsys) (acts : list gaction) : outcome gsys :=
  match acts with
  | [] => Ret g
  | a :: acts => if gready g a then g ← gstep (M := M) create g a; grun g acts else Fail Abort
  end.
End run.

(** ** Examples: a process with PAIR sockets only *)
Module GlobalSample.
Import Sample Finite OptSample SockSample.

Definition family (i : nat) : Type := nn_excl.
#[export] Instance family_proto i : Proto (family i) (psys (TW := ftw Z)) Z := xpair_proto.
#[export] Instance family_ok i : ProtoOk (family i) (psys (TW := ftw Z)) Z := xpair_proto_ok.
#[export] Instance family_frame i : ProtoFrame (family i) (psys (TW := ftw Z)) Z := xpair_frame.
#[export] Instance family_sock i : SockProto (family i) := xpair_sockproto.
#[export] Instance family_sock_ok i : SockProtoOk (family i) (ftw Z) Z := xpair_sockproto_ok.
Definition create (i : nat) : family i := nn_xpair_init.

Notation gsys := (gsys (St := family) (OS := unit) (TW := ftw Z)).
Notation gaction := (gaction (TW := ftw Z) (M := Z)).

(** Thread 1 opens socket 0 at address 1 and is in a call when thread 2 closes it. *)
Definition open1 : gaction := G_socket AF_SP NN_PAIR (Some 1%positive) (Some (3, 4)) w0.
Definition in_use : list gaction :=
  [open1; G_hold 1 0; G_enter (Some 1%positive) 1; G_do (Some 1%positive) 1 (U_add_ep 1 0 [97]);
   G_leave (Some 1%positive) 1].
Definition closing : list gaction :=
  [G_close 2 0; G_stop 2; G_leave (Some 2%positive) 1; G_closed 2;
   G_enter None 1; G_do None 1 (T_stopped 1); G_do None 1 S_dispatch; G_do None 1 S_dispatch; G_leave None 1; G_rele 1].

(** Sockets are created over transports in the state [w0]. *)
Definition sample_act (a : gaction) : Prop :=
  match a with G_socket _ _ _ _ w => w = w0 | _ => True end.

Lemma sample_legal (g : gsys) a : sample_act a → glegal create g a.
Proof. destruct a; try done. intros -> i type _. exact pair_ok. Qed.

Lemma grun_reach (g : gsys) acts g' : greach create g → Forall sample_act acts →
  grun create g acts = Ret g' → greach create g'.
Proof.
  revert g. induction acts as [|a acts IH]; intros g Hr; cbn [grun]; [by intros _ [= <-]|].
  intros [Hp Hps]%Forall_cons. destruct (gready g a) eqn:Ea; [|done].
  destruct (gstep create g a) as [g1|] eqn:E; [cbn|done]. apply (IH g1); [|done].
  eapply greach_step; [exact Hr|by apply gready_ok|by apply sample_legal|exact E].
Qed.

(** A state that the steps [acts] lead to. *)
Lemma greaches acts (P : gsys → bool) : Forall sample_act acts →
  ret_check P (grun create gstart acts) = true → ∃ g, greach create g ∧ P g = true.
Proof.
  intros Hp Hc. destruct (ret_check_ok _ _ Hc) as (g & E & HP). exists g. split; [|done].
  exact (grun_reach gstart acts g (greach_start create) Hp E).
Qed.
End GlobalSample.

Import Sample Finite OptSample SockSample GlobalSample.

(** Thread 2 frees the socket. *)
Lemma global_safe_witness :
  ∃ g g' : GlobalSample.gsys, greach create g ∧ gstep (M := Z) create g (G_free 2) = Ret g' ∧ greach create g'.
Proof.
  destruct (greaches (in_use ++ closing) (λ g, gready (M := Z) g (G_free 2))) as (g & Hr & Hp); [repeat constructor|vm_compute; reflexivity|].
  destruct (global_safe create g (G_free 2) Hr (gready_ok g (G_free 2) Hp) I) as [(? & ? & ? & ? & [=] & _)|(g' & E & Hr')].
  by exists g, g'.
Defined.

(** The closing thread has dropped both holds, thread 1 still has its own. *)
Lemma global_refcount_witness :
  ∃ (g : GlobalSample.gsys) σ, greach create g ∧ heap g !! 1%positive = Some σ ∧
    sk_fsm (sock (inst_sys σ)) = NN_FSM_STATE_STOPPING ∧ holds (sock (inst_sys σ)) = 1.
Proof.
  destruct (greaches (in_use ++ take 4 closing) (λ g, match heap g !! 1%positive with
    | Some σ => (sk_fsm (sock (inst_sys σ)) =? NN_FSM_STATE_STOPPING) &&
        (mcount (uses 1) (threads g) =? 1)%nat && (mcount (gone 1) (threads g) =? 1)%nat
    | None => false end)) as (g & Hr & Hp); [repeat constructor|vm_compute; reflexivity|].
  destruct (heap g !! 1%positive) as [σ|] eqn:Hk; [|discriminate Hp].
  apply andb_true_iff in Hp as [[Hf%Z.eqb_eq Hu%Nat.eqb_eq]%andb_true_iff Hg%Nat.eqb_eq].
  destruct (global_refcount create g Hr) as (_ & _ & Hc). destruct (Hc 1%positive σ Hk) as (_ & _ & Hh & _).
  rewrite Hu, Hg in Hh. exists g, σ. exact (conj Hr (conj Hk (conj Hf Hh))).
Defined.

(** The second socket; an unknown protocol. *)
Lemma global_socket_witness :
  ∃ (g : GlobalSample.gsys), greach create g ∧
    (∃ g' s k, nn_socket (M := Z) create AF_SP NN_PAIR (Some 2%positive) (Some (5, 6)) w0 g = Ret (g', s, 0) ∧ slot_of g' s k) ∧
    nn_socket (M := Z) create AF_SP 7 (Some 2%positive) (Some (5, 6)) w0 g = Ret (g, -1, EINVAL).
Proof.
  destruct (greaches [open1] (λ g, gready (M := Z) g (G_socket AF_SP NN_PAIR (Some 2%positive) (Some (5, 6)) w0) &&
    is_none (socket_error g AF_SP NN_PAIR (Some 2%positive) (Some (5, 6))) &&
    bool_decide (socket_error g AF_SP 7 (Some 2%positive) (Some (5, 6)) = Some EINVAL))) as (g & Hr & Hp);
    [repeat constructor|vm_compute; reflexivity|].
  apply andb_true_iff in Hp as [[Hen%gready_ok H1%is_none_true]%andb_true_iff H2%bool_decide_eq_true_1].
  pose proof (global_socket create g AF_SP NN_PAIR (Some 2%positive) (Some (5, 6)) w0 Hr Hen (λ _ _ _, pair_ok)) as Ha.
  pose proof (global_socket create g AF_SP 7 (Some 2%positive) (Some (5, 6)) w0 Hr Hen (λ _ _ _, pair_ok)) as Hb.
  rewrite H1 in Ha. rewrite H2 in Hb. destruct Ha as (g' & s & k & σ & E & _ & _ & Hsl & _).
  exists g. split; [exact Hr|]. split; [|exact Hb]. exists g', s, k. exact (conj E Hsl).
Defined.

(** While thread 2 closes the socket nobody else can use it; then it is gone. *)
Lemma global_close_witness :
  ∃ g g' : GlobalSample.gsys, greach create g ∧ nn_global_hold_socket_locked 5 g = Ret (g, inr (- EBADF)) ∧
    gstep (M := Z) create g (G_free 2) = Ret g' ∧ heap g' = delete 1%positive (heap g).
Proof.
  destruct (greaches (in_use ++ closing) (λ g, gready (M := Z) g (G_free 2) &&
    bool_decide (threads g !! 2%positive = Some (Closing 0 1)) &&
    match Global.self g with Some tab => bool_decide (socks tab !! 5%nat = Some None) | None => false end)) as (g & Hr & Hp);
    [repeat constructor|vm_compute; reflexivity|].
  apply andb_true_iff in Hp as [[Hen%gready_ok Ht%bool_decide_eq_true_1]%andb_true_iff Hs].
  destruct (global_close create g Hr) as [Hbad Hfree].
  destruct (Hfree 2%positive 0 1%positive Hen Ht) as (g' & E & Hh & _).
  exists g, g'. split; [exact Hr|]. split; [|exact (conj E Hh)]. apply Hbad. intros k σ (tab & Hself & _ & Hk) _.
  rewrite Hself in Hs. apply bool_decide_eq_true_1 in Hs. change (Z.to_nat 5) with 5%nat in Hk. rewrite Hs in Hk. discriminate Hk.
Defined.
