(* ===== verification/Device.v ===== *)
(** * devices/device.c: devices

    A device forwards messages between two sockets, or back through one.
    [nn_device_entry] examines the sockets with nn_getsockopt and chooses what to
    do ([plan]); the loops of the three kinds of device move one message after the
    other until an error.  The flags of the recipe are those of
    [nn_ordinary_device]; the rewriting function is the one that always forwards. *)
From S2P Require Import Prelude Chunk Msg Cmsg Iovec Priolist Pipe Protocol Core.
From S2P Require Import Fsm SockState Sock SockOpt SockSys SockInv SockSafe Global GlobalSafe.

Definition NN_CHECK_AT_LEAST_ONE_SOCKET : Z := 1.
Definition NN_CHECK_ALLOW_LOOPBACK : Z := 2.
Definition NN_CHECK_ALLOW_BIDIRECTIONAL : Z := 4.
Definition NN_CHECK_ALLOW_UNIDIRECTIONAL : Z := 8.
Definition NN_CHECK_REQUIRE_RAW_SOCKETS : Z := 16.
Definition NN_CHECK_SAME_PROTOCOL_FAMILY : Z := 32.
Definition NN_CHECK_SOCKET_DIRECTIONALITY : Z := 64.
Definition NN_BAD_FD : Z := -1.

Definition nn_ordinary_device : Z :=
  foldr Z.lor 0 [NN_CHECK_AT_LEAST_ONE_SOCKET; NN_CHECK_ALLOW_LOOPBACK; NN_CHECK_ALLOW_BIDIRECTIONAL;
    NN_CHECK_REQUIRE_RAW_SOCKETS; NN_CHECK_SAME_PROTOCOL_FAMILY; NN_CHECK_SOCKET_DIRECTIONALITY;
    NN_CHECK_ALLOW_UNIDIRECTIONAL].

(** What a device does; [Refuse e] is the result -1 with this error number. *)
Inductive plan := Loopback (s : Z) | Twoway (s1 s2 : Z) | Oneway (s1 s2 : Z) | Refuse (e : Z).

Section entry.
Context {St : nat → Type} {OS TW M : Type} `{TransportFinite TW M}.
Context {HP : ∀ i, Proto (St i) (psys (TW := TW)) M} {HSP : ∀ i, SockProto (St i)} `{!OptSets OS}.
Notation gsys := (gsys (St := St) (OS := OS) (TW := TW)).
Notation inst := (inst (St := St) (OS := OS) (TW := TW)).

(** ** nn_getsockopt of a generic option with an int value

    The value, or the error number. *)
Definition inst_getopt (σ : inst) (opt : Z) : outcome (inst * (Z + Z)) :=
  '(k, rc, (bytes, _)) ← nn_sock_getopt_inner (sock (inst_sys σ)) NN_SOL_SOCKET opt 4;
  Ret (Inst (inst_type σ) (set_sock k (inst_sys σ)), if rc <? 0 then inr (- rc) else inl (bytes_int bytes)).

Definition nn_getsockopt (s opt : Z) (g : gsys) : outcome (gsys * (Z + Z)) :=
  '(g, r) ← nn_global_hold_socket_locked s g;
  match r with
  | inr rc => Ret (g, inr (- rc))
  | inl k =>
      σ ← get_inst g k;
      '(σ, r) ← inst_getopt σ opt;
      g ← nn_global_rele_socket k (put_inst k σ g);
      Ret (g, r)
  end.

(** Code that stops with [return -1] when an option cannot be read. *)
Definition with_opt (s opt : Z) (K : Z → gsys → outcome (gsys * plan)) (g : gsys) : outcome (gsys * plan) :=
  '(g, r) ← nn_getsockopt s opt g;
  match r with inl v => K v g | inr e => Ret (g, Refuse e) end.

(** The file descriptor to poll, or NN_BAD_FD. *)
Definition with_fd (s opt : Z) (K : Z → gsys → outcome (gsys * plan)) (g : gsys) : outcome (gsys * plan) :=
  '(g, r) ← nn_getsockopt s opt g;
  match r with
  | inl v => K v g
  | inr e => if negb (e =? ENOPROTOOPT) then Ret (g, Refuse e) else K NN_BAD_FD g
  end.

Definition nn_device_loopback (s : Z) : gsys → outcome (gsys * plan) :=
  with_opt s NN_DOMAIN (λ op g, if negb (op =? AF_SP_RAW) then Ret (g, Refuse EINVAL) else Ret (g, Loopback s)).

(** The tests after the file descriptors have been read. *)
Definition choose (checks s1 s2 s1rcv s1snd s2rcv s2snd : Z) : outcome plan :=
  let bad x := x =? NN_BAD_FD in
  let ok x := negb (x =? NN_BAD_FD) in
  if has_flag checks NN_CHECK_SOCKET_DIRECTIONALITY &&
     ((ok s1rcv && bad s2snd) || (ok s1snd && bad s2rcv) || (ok s2rcv && bad s1snd) || (ok s2snd && bad s1rcv))
  then Ret (Refuse EINVAL)
  else if has_flag checks NN_CHECK_ALLOW_BIDIRECTIONAL && (ok s1rcv && ok s1snd && ok s2rcv && ok s2snd)
  then Ret (Twoway s1 s2)
  else if has_flag checks NN_CHECK_ALLOW_UNIDIRECTIONAL && (ok s1rcv && bad s1snd && bad s2rcv && ok s2snd)
  then Ret (Oneway s1 s2)
  else if has_flag checks NN_CHECK_ALLOW_UNIDIRECTIONAL && (bad s1rcv && ok s1snd && ok s2rcv && bad s2snd)
  then Ret (Oneway s2 s1)
  else Fail Abort.

Definition nn_device_entry (checks s1 s2 : Z) (g : gsys) : outcome (gsys * plan) :=
  if has_flag checks NN_CHECK_AT_LEAST_ONE_SOCKET && ((s1 <? 0) && (s2 <? 0)) then Ret (g, Refuse EBADF)
  else if has_flag checks NN_CHECK_ALLOW_LOOPBACK && (s2 <? 0) then nn_device_loopback s1 g
  else if has_flag checks NN_CHECK_ALLOW_LOOPBACK && (s1 <? 0) then nn_device_loopback s2 g
  else
    (if has_flag checks NN_CHECK_REQUIRE_RAW_SOCKETS then
       λ K, with_opt s1 NN_DOMAIN (λ op1, with_opt s2 NN_DOMAIN (λ op2 g,
         if negb (op1 =? AF_SP_RAW) || negb (op2 =? AF_SP_RAW) then Ret (g, Refuse EINVAL) else K g))
     else λ K, K)
    ((if has_flag checks NN_CHECK_SAME_PROTOCOL_FAMILY then
        λ K, with_opt s1 NN_PROTOCOL (λ op1, with_opt s2 NN_PROTOCOL (λ op2 g,
          if negb (Z.quot op1 16 =? Z.quot op2 16) then Ret (g, Refuse EINVAL) else K g))
      else λ K, K)
     (with_fd s1 NN_RCVFD (λ s1rcv, with_fd s1 NN_SNDFD (λ s1snd,
      with_fd s2 NN_RCVFD (λ s2rcv, with_fd s2 NN_SNDFD (λ s2snd g,
        p ← choose checks s1 s2 s1rcv s1snd s2rcv s2snd; Ret (g, p))))))) g.

Definition nn_device (s1 s2 : Z) : gsys → outcome (gsys * plan) := nn_device_entry nn_ordinary_device s1 s2.
End entry.

(** ** Moving messages

    [recv] and [send] are nn_sock_recv and nn_sock_send of the sockets, which may
    wait; the message is the value of Msg.v.  [mem] and [junk] are the memory. *)
Section move.
Context {X : Type} (recv : X → Z → outcome (X * (vmsg + Z))) (send : X → Z → vmsg → outcome (X * Z)).
Context (mem : Z → bool) (junk : nat → list Z) (fuel : nat).

(** [nn_device_rewritemsg]: 1, always forward. *)
Definition nn_device_rewritemsg : Z := 1.

(** 0, or -1 with an error number. *)
Definition nn_device_mvmsg (x : X) (from to : Z) : outcome (X * Z) :=
  '(x, r) ← recv x from;
  match r with
  | inr e => Ret (x, -1)
  | inl msg =>
      out ← recvmsg_copy mem junk (NnMsghdr [IovMsg None] 1 (Some (Msghdr [] NN_MSG))) msg;
      match out with
      | inr e => Ret (x, -1)
      | inl (_, bodies, control) =>
          let rc := nn_device_rewritemsg in
          if rc =? -1 then Ret (x, -1)
          else if rc =? 0 then Ret (x, 0)
          else
            nn_assert (rc =? 1);;
            control ← deref control;
            m ← sendmsg_build mem fuel (Some (NnMsghdr [IovMsg (head bodies)] 1 (Some (Msghdr control NN_MSG))));
            match m with
            | inr e => Ret (x, -1)
            | inl (msg, _, _) => '(x, rc) ← send x to msg; Ret (x, if rc <? 0 then -1 else 0)
            end
      end
  end.

(** The loop of a forwarding thread, for [n] messages; it ends with an error. *)
Fixpoint nn_device_oneway (n : nat) (x : X) (s1 s2 : Z) : outcome (X * Z) :=
  match n with
  | O => Fail Diverge
  | S n => '(x, rc) ← nn_device_mvmsg x s1 s2; if rc <? 0 then Ret (x, -1) else nn_device_oneway n x s1 s2
  end.
End move.

(** ** Messages are forwarded unchanged *)
Section forward.
Context (mem : Z → bool) (Hmem : ∀ n, mem n = true) (junk : nat → list Z) (Hjunk : ∀ n, length (junk n) = n) (fuel : nat) (Hfuel : (0 < fuel)%nat).

Definition sendable (m : vmsg) : Prop := Z.of_nat (length (sphdr m)) + Z.of_nat (length (hdrs m)) < 2 ^ 61.
Definition same_message (m m' : vmsg) : Prop := sphdr m' = sphdr m ∧ body m' = body m.

Lemma mvmsg_eq {X} recv send (x : X) from to x1 m : recv x from = Ret (x1, inl m) → sendable m →
  ∃ m', same_message m m' ∧ nn_device_mvmsg recv send mem junk fuel x from to =
    ('(x, rc) ← send x1 to m'; Ret (x, if rc <? 0 then -1 else 0)).
Proof.
  intros Hr Hm. destruct (forward_msg mem Hmem junk fuel m Hjunk Hfuel Hm) as (control & E1 & E2).
  exists (VMsg (sphdr m) control (body m)). split; [done|]. unfold nn_device_mvmsg. rewrite Hr. step.
  rewrite E1. step. cbn [head]. change (nn_device_rewritemsg =? -1) with false. change (nn_device_rewritemsg =? 0) with false.
  change (nn_device_rewritemsg =? 1) with true. step. rewrite E2. by step.
Qed.

Lemma oneway_S {X} recv send n (x : X) s1 s2 : nn_device_oneway recv send mem junk fuel (S n) x s1 s2 =
  ('(x, rc) ← nn_device_mvmsg recv send mem junk fuel x s1 s2;
   if rc <? 0 then Ret (x, -1) else nn_device_oneway recv send mem junk fuel n x s1 s2).
Proof. done. Qed.

(** The two sockets of the example environment: the messages that arrive at one,
    then an error, and what is sent to the other. *)
Definition pop (x : list vmsg * list vmsg) (s : Z) : outcome ((list vmsg * list vmsg) * (vmsg + Z)) :=
  match x with (m :: q, l) => Ret ((q, l), inl m) | ([], l) => Ret (([], l), inr EBADF) end.
Definition push (x : list vmsg * list vmsg) (s : Z) (m : vmsg) : outcome ((list vmsg * list vmsg) * Z) :=
  Ret ((x.1, x.2 ++ [m]), Z.of_nat (length (body m))).

(** C13: devices forward messages unchanged.  Whatever messages arrive at the
    socket a device reads, with any headers and any ancillary properties: the device
    sends the same bodies with the same headers, in the same order, and ends with
    the error that ends the arrivals.  A socket that reports an error on sending ends
    the device with that message. *)
Theorem device_forwards msgs sent s1 s2 :
  Forall sendable msgs →
  ∃ out, nn_device_oneway pop push mem junk fuel (S (length msgs)) (msgs, sent) s1 s2 = Ret (([], sent ++ out), -1) ∧
    Forall2 same_message msgs out.
Proof.
  intros Hm. revert sent. induction Hm as [|m msgs Hm _ IH]; intros sent.
  - exists []. rewrite app_nil_r. by split.
  - cbn [length]. rewrite oneway_S.
    destruct (mvmsg_eq pop push (m :: msgs, sent) s1 s2 (msgs, sent) m eq_refl Hm) as (m' & Hs & E).
    assert (push (msgs, sent) s2 m' = Ret ((msgs, sent ++ [m']), Z.of_nat (length (body m')))) as Ep by done.
    rewrite E, Ep. step. rewrite (proj2 (Z.ltb_ge (Z.of_nat (length (body m'))) 0)) by lia. change (0 <? 0) with false. cbn iota.
    destruct (IH (sent ++ [m'])) as (out & E' & Hall). exists (m' :: out). rewrite E', <- app_assoc. split; [done|].
    by constructor.
Qed.
End forward.

(** Two messages with different headers. *)
Lemma device_forwards_witness :
  ∃ out, nn_device_oneway pop push (λ _, true) (λ n, replicate n 0) 1 3
      ([VMsg [0; 0; 0; 1; 128; 0; 0; 9] [] [104; 105]; VMsg [] [] []], []) 1 2 = Ret (([], out), -1) ∧
    Forall2 same_message [VMsg [0; 0; 0; 1; 128; 0; 0; 9] [] [104; 105]; VMsg [] [] []] out.
Proof.
  apply (device_forwards (λ _, true) (λ _, eq_refl) (λ n, replicate n 0) (λ n, length_replicate n 0) 1 Nat.lt_0_1
    [VMsg [0; 0; 0; 1; 128; 0; 0; 9] [] [104; 105]; VMsg [] [] []] []).
  repeat constructor; by vm_compute.
Defined.

(** ** What nn_device does with two sockets *)

(** The value nn_getsockopt copies out and back. *)
Lemma bytes_copy_int v : - 2 ^ 31 ≤ v < 2 ^ 31 → bytes_int (copy_int v 4).1 = v.
Proof.
  intros Hv. unfold copy_int, int_bytes. cbn [fst]. rewrite take_ge by done. cbn [foldr]. unfold bytes_int, s32, u32.
  cbn [foldr]. Z.to_euclidean_division_equations. lia.
Qed.

Definition sends (t : nn_socktype) : bool := negb (has_flag (st_flags t) NN_SOCKTYPE_FLAG_NOSEND).
Definition receives (t : nn_socktype) : bool := negb (has_flag (st_flags t) NN_SOCKTYPE_FLAG_NORECV).

(** The reference. *)
Definition device_plan (t1 t2 : nn_socktype) (s1 s2 : Z) : plan :=
  if negb (st_domain t1 =? AF_SP_RAW) || negb (st_domain t2 =? AF_SP_RAW) then Refuse EINVAL
  else if negb (st_protocol t1 / 16 =? st_protocol t2 / 16) then Refuse EINVAL
  else if negb (Bool.eqb (receives t1) (sends t2)) || negb (Bool.eqb (sends t1) (receives t2)) then Refuse EINVAL
  else if sends t1 then if receives t1 then Twoway s1 s2 else Oneway s2 s1
  else Oneway s1 s2.

Section plans.
Context {St : nat → Type} {OS TW M : Type} `{TransportFinite TW M}.
Context {HP : ∀ i, Proto (St i) (psys (TW := TW)) M} {HPO : ∀ i, ProtoOk (St i) (psys (TW := TW)) M}
  {HPF : ∀ i, ProtoFrame (St i) (psys (TW := TW)) M} {HSP : ∀ i, SockProto (St i)}
  {HSO : ∀ i, SockProtoOk (St i) TW M} `{!OptSets OS}.
Context (create : ∀ i, St i).
Notation gsys := (gsys (St := St) (OS := OS) (TW := TW)).
Notation inst := (inst (St := St) (OS := OS) (TW := TW)).
Implicit Types (g : gsys) (σ : inst).

(** Holding and releasing a socket in between changes nothing. *)
Lemma hold_rele σ : 0 < holds (sock (inst_sys σ)) → inst_rele (held σ) = σ.
Proof.
  destruct σ as [i [[] ? ? ? ? ? ?]]. unfold inst_rele, held, nn_sock_rele, Inst. cbn. intros Hh.
  rewrite Z.add_simpl_r. by rewrite (proj2 (Z.eqb_neq _ _)) by lia.
Qed.

(** An open socket, and the values of its options. *)
Definition opened g s σ : Prop :=
  ∃ k, slot_of g s k ∧ heap g !! k = Some σ ∧ sk_fsm (sock (inst_sys σ)) = NN_FSM_STATE_ACTIVE.

Lemma getsockopt_ok g s σ opt rc b n : ginv (M := M) g → opened g s σ →
  nn_sock_getopt_inner (sock (inst_sys (held σ))) NN_SOL_SOCKET opt 4 = Ret (sock (inst_sys (held σ)), rc, (b, n)) →
  nn_getsockopt s opt g = Ret (g, if rc <? 0 then inr (- rc) else inl (bytes_int b)).
Proof.
  intros Hg (k & Hsl & Hk & Hf) E. unfold nn_getsockopt.
  destruct (hold_socket g s Hg) as [(k' & σ' & Hsl' & Hk' & Hf' & Eh)|[Hst _]].
  - assert (k' = k) as ->.
    { destruct Hsl as (tab & Ht & _ & H1'), Hsl' as (tab' & Ht' & _ & H2'). rewrite Ht in Ht'. injection Ht' as <-. congruence. }
    rewrite Hk in Hk'. apply (inj Some) in Hk'. subst σ'. rewrite Eh. step. unfold get_inst at 1. cbn [heap put_inst set_heap].
    rewrite lookup_insert_eq. step. unfold inst_getopt. rewrite E. step.
    unfold nn_global_rele_socket, get_inst. cbn [heap put_inst set_heap]. rewrite lookup_insert_eq. step.
    assert (Inst (inst_type (held σ)) (set_sock (sock (inst_sys (held σ))) (inst_sys (held σ))) = held σ) as ->
      by (destruct σ as [i []]; done).
    destruct (gi_inst g Hg k σ Hk) as [Hs _ _ _ _]. destruct (si_holds _ Hs) as (_ & _ & Hpos).
    rewrite hold_rele by (by apply Hpos). unfold put_inst, set_heap. cbn. rewrite !insert_insert_eq, insert_id by done. by destruct g.
  - specialize (Hst k σ Hsl Hk). rewrite Hf in Hst. discriminate Hst.
Qed.

(** The file descriptors of [σ] are ints. *)
Definition int_fds σ : Prop :=
  (∀ f, sndfd (sock (inst_sys σ)) = Some f → efd_fd f ≤ INT_MAX) ∧
  (∀ f, rcvfd (sock (inst_sys σ)) = Some f → efd_fd f ≤ INT_MAX).

(** What [with_fd] sees of a socket that can, or cannot, do [b]. *)
Definition reads_fd g s opt (b : bool) : Prop :=
  if b then ∃ v, v ≠ NN_BAD_FD ∧ nn_getsockopt s opt g = Ret (g, inl v)
  else nn_getsockopt s opt g = Ret (g, inr ENOPROTOOPT).

(** Reading the options of an open socket. *)
Lemma read_opts g s σ : ginv (M := M) g → opened g s σ → int_fds σ → socktype (sock (inst_sys σ)) ∈ nn_socktypes →
  let t := socktype (sock (inst_sys σ)) in
  nn_getsockopt s NN_DOMAIN g = Ret (g, inl (st_domain t)) ∧
  nn_getsockopt s NN_PROTOCOL g = Ret (g, inl (st_protocol t)) ∧
  reads_fd g s NN_RCVFD (receives t) ∧ reads_fd g s NN_SNDFD (sends t).
Proof.
  intros Hg Ho [Hsf Hrf] Ht t. pose proof Ho as (k & _ & Hk & Hf). destruct (gi_inst g Hg k σ Hk) as [Hs _ _ _ _].
  assert (sk_state (sock (inst_sys σ)) = NN_SOCK_STATE_ACTIVE) as Hst.
  { destruct (si_life _ Hs) as [_ ?|E|E|E]; [done|rewrite Hf in E; discriminate E..]. }
  destruct (si_fds _ Hs) as (_ & Hr & Hsn). fold t in Hr, Hsn.
  assert (st_domain t = 1 ∨ st_domain t = 2) as Hd.
  { unfold nn_socktypes in Ht. fold t in Ht. rewrite !elem_of_cons in Ht. repeat destruct Ht as [->|Ht]; cbn; [auto..|]. by apply not_elem_of_nil in Ht. }
  assert (0 ≤ st_protocol t < 1024) as Hp.
  { unfold nn_socktypes in Ht. fold t in Ht. rewrite !elem_of_cons in Ht. repeat destruct Ht as [->|Ht]; [by vm_compute..|]. by apply not_elem_of_nil in Ht. }
  split; [|split; [|split]].
  - rewrite (getsockopt_ok g s σ NN_DOMAIN 0 (copy_int (st_domain t) 4).1 4 Hg Ho) by reflexivity.
    cbn [Z.ltb Z.compare]. by rewrite bytes_copy_int by lia.
  - rewrite (getsockopt_ok g s σ NN_PROTOCOL 0 (copy_int (st_protocol t) 4).1 4 Hg Ho) by reflexivity.
    cbn [Z.ltb Z.compare]. by rewrite bytes_copy_int by lia.
  - unfold reads_fd, receives. destruct (has_flag (st_flags t) NN_SOCKTYPE_FLAG_NORECV) eqn:Efl; cbn [negb].
    + rewrite (getsockopt_ok g s σ NN_RCVFD (- ENOPROTOOPT) [] 4 Hg Ho); [done|].
      unfold nn_sock_getopt_inner. cbn -[has_flag]. fold t. by rewrite Efl.
    + destruct (Hr eq_refl) as (f & Ef & _ & Hact). destruct (Hact Hst) as [Hpos _].
      exists (efd_fd f). split; [unfold NN_BAD_FD; lia|].
      rewrite (getsockopt_ok g s σ NN_RCVFD 0 (copy_int (efd_fd f) 4).1 4 Hg Ho).
      * cbn [Z.ltb Z.compare]. specialize (Hrf f Ef). unfold INT_MAX in Hrf. by rewrite bytes_copy_int by lia.
      * unfold nn_sock_getopt_inner. cbn -[has_flag copy_int]. fold t. rewrite Efl, Ef. by step.
  - unfold reads_fd, sends. destruct (has_flag (st_flags t) NN_SOCKTYPE_FLAG_NOSEND) eqn:Efl; cbn [negb].
    + rewrite (getsockopt_ok g s σ NN_SNDFD (- ENOPROTOOPT) [] 4 Hg Ho); [done|].
      unfold nn_sock_getopt_inner. cbn -[has_flag]. fold t. by rewrite Efl.
    + destruct (Hsn eq_refl) as (f & Ef & _ & Hact). destruct (Hact Hst) as [Hpos _].
      exists (efd_fd f). split; [unfold NN_BAD_FD; lia|].
      rewrite (getsockopt_ok g s σ NN_SNDFD 0 (copy_int (efd_fd f) 4).1 4 Hg Ho).
      * cbn [Z.ltb Z.compare]. specialize (Hsf f Ef). unfold INT_MAX in Hsf. by rewrite bytes_copy_int by lia.
      * unfold nn_sock_getopt_inner. cbn -[has_flag copy_int]. fold t. rewrite Efl, Ef. by step.
Qed.

Lemma with_fd_ok g s opt b K r : reads_fd g s opt b →
  (∀ v, (v =? NN_BAD_FD) = negb b → K v g = r) → with_fd s opt K g = r.
Proof.
  unfold reads_fd, with_fd. destruct b; [intros (v & Hv & ->)|intros ->]; intros HK; step; apply HK; [|done].
  by apply Z.eqb_neq.
Qed.

(** C12: nn_device is exact.  For two open sockets of any types it refuses with
    EINVAL, unless both are raw, of the same protocol, and one can receive exactly
    when the other can send; then it forwards in both directions, or from the one
    that receives to the one that sends.  The assertion at its end never fires, and
    the sockets are as before. *)
Theorem device_entry_exact g s1 s2 σ1 σ2 :
  greach (M := M) create g → opened g s1 σ1 → opened g s2 σ2 → int_fds σ1 → int_fds σ2 →
  socktype (sock (inst_sys σ1)) ∈ nn_socktypes → socktype (sock (inst_sys σ2)) ∈ nn_socktypes →
  nn_device s1 s2 g = Ret (g, device_plan (socktype (sock (inst_sys σ1))) (socktype (sock (inst_sys σ2))) s1 s2).
Proof.
  intros Hr Ho1 Ho2 Hf1 Hf2 Ht1 Ht2. pose proof (greach_ginv create g Hr) as Hg.
  destruct (read_opts g s1 σ1 Hg Ho1 Hf1 Ht1) as (Ed1 & Ep1 & Er1 & Es1).
  destruct (read_opts g s2 σ2 Hg Ho2 Hf2 Ht2) as (Ed2 & Ep2 & Er2 & Es2).
  set (t1 := socktype (sock (inst_sys σ1))) in *. set (t2 := socktype (sock (inst_sys σ2))) in *.
  assert (sends t1 = false → receives t1 = true) as Hdir.
  { unfold nn_socktypes in Ht1. rewrite !elem_of_cons in Ht1. repeat destruct Ht1 as [->|Ht1]; [done..|]. by apply not_elem_of_nil in Ht1. }
  assert (∀ t, t ∈ nn_socktypes → 0 ≤ st_protocol t) as Hpos.
  { intros t Ht. unfold nn_socktypes in Ht. rewrite !elem_of_cons in Ht. repeat destruct Ht as [->|Ht]; [by vm_compute..|]. by apply not_elem_of_nil in Ht. }
  destruct Ho1 as (_ & (_ & _ & H1s & _) & _), Ho2 as (_ & (_ & _ & H2s & _) & _).
  unfold nn_device, nn_device_entry. rewrite !(proj2 (Z.ltb_ge _ 0)) by done. rewrite !andb_false_r.
  change (has_flag nn_ordinary_device _) with true. cbn iota.
  unfold with_opt at 1. rewrite Ed1. step. unfold with_opt at 1. rewrite Ed2. step. unfold device_plan.
  destruct (_ || _); [done|]. unfold with_opt at 1. rewrite Ep1. step. unfold with_opt at 1. rewrite Ep2. step.
  rewrite !Z.quot_div_nonneg by (lia || by apply Hpos). destruct (negb _); [done|].
  apply (with_fd_ok g s1 NN_RCVFD _ _ _ Er1). intros v1 Hv1. apply (with_fd_ok g s1 NN_SNDFD _ _ _ Es1). intros v2 Hv2.
  apply (with_fd_ok g s2 NN_RCVFD _ _ _ Er2). intros v3 Hv3. apply (with_fd_ok g s2 NN_SNDFD _ _ _ Es2). intros v4 Hv4.
  unfold choose. change (has_flag nn_ordinary_device _) with true. rewrite Hv1, Hv2, Hv3, Hv4.
  destruct (receives t1), (sends t1), (receives t2), (sends t2); try done. by specialize (Hdir eq_refl).
Qed.
End plans.

(** ** Examples *)
Import Sample Finite OptSample SockSample GlobalSample.

(** Two raw PAIR sockets. *)
Definition pairs : GlobalSample.gsys :=
  match grun create gstart [G_socket AF_SP_RAW NN_PAIR (Some 1%positive) (Some (3, 4)) w0;
    G_socket AF_SP_RAW NN_PAIR (Some 2%positive) (Some (5, 6)) w0] with Ret g => g | Fail _ => gstart end.

Lemma pairs_reach : greach create pairs.
Proof.
  unfold pairs. destruct (grun _ _ _) as [g|] eqn:E; [|apply greach_start].
  refine (grun_reach gstart _ g (greach_start create) _ E). repeat constructor.
Qed.

Lemma pairs_open s k : (s = 0 ∧ k = 1%positive) ∨ (s = 1 ∧ k = 2%positive) →
  ∃ σ, opened pairs s σ ∧ int_fds σ ∧ socktype (sock (inst_sys σ)) = nn_xpair_socktype.
Proof.
  intros Hc. assert (∃ σ, heap pairs !! k = Some σ ∧ slot_of pairs s k ∧ sk_fsm (sock (inst_sys σ)) = NN_FSM_STATE_ACTIVE ∧
    int_fds σ ∧ socktype (sock (inst_sys σ)) = nn_xpair_socktype) as (σ & Hk & Hs & Hf & Hi & Ht).
  { destruct Hc as [[-> ->]|[-> ->]]; (eexists; split; [vm_compute; reflexivity|]);
      (split; [eexists; split; [vm_compute; reflexivity|]; split; [by vm_compute|reflexivity]|]);
      (split; [reflexivity|]); (split; [split; intros f [= <-]; by vm_compute|reflexivity]). }
  exists σ. split; [by exists k|by split].
Qed.

Lemma xpair_known : nn_xpair_socktype ∈ nn_socktypes.
Proof. apply list_elem_of_further, list_elem_of_here. Qed.

Lemma device_entry_exact_witness : nn_device 0 1 pairs = Ret (pairs, Twoway 0 1).
Proof.
  destruct (pairs_open 0 1%positive) as (σ1 & Ho1 & Hi1 & Ht1); [by left|].
  destruct (pairs_open 1 2%positive) as (σ2 & Ho2 & Hi2 & Ht2); [by right|].
  rewrite (device_entry_exact create pairs 0 1 σ1 σ2 pairs_reach Ho1 Ho2 Hi1 Hi2);
    rewrite ?Ht1, ?Ht2; [reflexivity|exact xpair_known..].
Defined.
