(* ===== verification/WsState.v ===== *)
(** * transports/ws/sws.h: the state of a WebSocket connection

    The fields of [struct nn_sws], with what the underlying socket is doing for
    it, and the functions that set one field.  Not kept: the resource and the
    host, which are only handed to the handshake, and the two counters of frames
    sent, which nothing changes. *)
From Stdlib Require Import String Ascii.
From S2P Require Import Prelude Msg.

(** [inmsg_current_chunk_buf]: NULL, [inmsg_control], or the data of the last
    chunk of [inmsg_array]. *)
Inductive cur_ptr : Set := CP_null | CP_control | CP_array.

(** Where the socket stores what it receives: into [inhdr] from an offset on, or
    into the current chunk. *)
Inductive rx_ptr : Set := RX_hdr (off : nat) | RX_cur.

(** The calls of the object into the handshake, the pipe and its owner. *)
Inductive sws_call : Set :=
| C_handshake_start | C_handshake_stop
| C_received | C_sent | C_stop          (* nn_pipebase_received, _sent, _stop *)
| C_swap_owner                          (* nn_usock_swap_owner *)
| C_done (type : Z).                    (* nn_fsm_raise (&self->fsm, &self->done, type) *)

#[export] Instance cur_ptr_eq_dec : EqDecision cur_ptr.
Proof. solve_decision. Defined.
#[export] Instance rx_ptr_eq_dec : EqDecision rx_ptr.
Proof. solve_decision. Defined.
#[export] Instance sws_call_eq_dec : EqDecision sws_call.
Proof. solve_decision. Defined.

Record nn_sws := NnSws {
  fsm : Z;                        (* fsm.state *)
  stopped_ev : bool;              (* the event fsm.stopped is in the context's queue *)
  state : Z;
  mode : Z;
  msg_type : Z;
  usock : bool;                   (* usock != NULL, and its owner is this object *)
  instate : Z;
  inhdr : list Z;                 (* 14 bytes *)
  opcode : Z;
  payload_ctl : Z;
  masked : bool;
  mask : option nat;              (* a pointer into inhdr *)
  ext_hdr_len : Z;
  is_final_frame : bool;
  is_control_frame : bool;
  continuing : bool;
  utf8_frag : list Z;             (* utf8_code_pt_fragment, 4 bytes *)
  utf8_len : Z;                   (* utf8_code_pt_fragment_len *)
  pings_received : Z;
  pongs_received : Z;
  inmsg_array : list (list Z);    (* the contents of the chunks *)
  cur_buf : cur_ptr;              (* inmsg_current_chunk_buf *)
  cur_len : Z;                    (* inmsg_current_chunk_len *)
  total_size : Z;                 (* inmsg_total_size *)
  inmsg_chunks : Z;
  inmsg_hdr : Z;
  inmsg_control : list Z;         (* 125 bytes *)
  fail_msg : list Z;              (* 125 bytes *)
  outstate : Z;
  outhdr : list Z;                (* 14 bytes *)
  outmsg : vmsg;
  rx : option (rx_ptr * Z);       (* the receive the socket is executing *)
  tx : option (list Z);           (* the bytes the socket is sending *)
  calls : list sws_call;          (* the calls out of this object so far *)
}.

Definition set_fsm (v : Z) (s : nn_sws) : nn_sws :=
  NnSws v (stopped_ev s) (state s) (mode s) (msg_type s) (usock s) (instate s) (inhdr s) (opcode s)
    (payload_ctl s) (masked s) (mask s) (ext_hdr_len s) (is_final_frame s) (is_control_frame s)
    (continuing s) (utf8_frag s) (utf8_len s) (pings_received s) (pongs_received s) (inmsg_array s)
    (cur_buf s) (cur_len s) (total_size s) (inmsg_chunks s) (inmsg_hdr s) (inmsg_control s) (fail_msg s)
    (outstate s) (outhdr s) (outmsg s) (rx s) (tx s) (calls s).
Definition set_stopped_ev (v : bool) (s : nn_sws) : nn_sws :=
  NnSws (fsm s) v (state s) (mode s) (msg_type s) (usock s) (instate s) (inhdr s) (opcode s) (payload_ctl s)
    (masked s) (mask s) (ext_hdr_len s) (is_final_frame s) (is_control_frame s) (continuing s) (utf8_frag s)
    (utf8_len s) (pings_received s) (pongs_received s) (inmsg_array s) (cur_buf s) (cur_len s)
    (total_size s) (inmsg_chunks s) (inmsg_hdr s) (inmsg_control s) (fail_msg s) (outstate s) (outhdr s)
    (outmsg s) (rx s) (tx s) (calls s).
Definition set_state (v : Z) (s : nn_sws) : nn_sws :=
  NnSws (fsm s) (stopped_ev s) v (mode s) (msg_type s) (usock s) (instate s) (inhdr s) (opcode s)
    (payload_ctl s) (masked s) (mask s) (ext_hdr_len s) (is_final_frame s) (is_control_frame s)
    (continuing s) (utf8_frag s) (utf8_len s) (pings_received s) (pongs_received s) (inmsg_array s)
    (cur_buf s) (cur_len s) (total_size s) (inmsg_chunks s) (inmsg_hdr s) (inmsg_control s) (fail_msg s)
    (outstate s) (outhdr s) (outmsg s) (rx s) (tx s) (calls s).
Definition set_mode (v : Z) (s : nn_sws) : nn_sws :=
  NnSws (fsm s) (stopped_ev s) (state s) v (msg_type s) (usock s) (instate s) (inhdr s) (opcode s)
    (payload_ctl s) (masked s) (mask s) (ext_hdr_len s) (is_final_frame s) (is_control_frame s)
    (continuing s) (utf8_frag s) (utf8_len s) (pings_received s) (pongs_received s) (inmsg_array s)
    (cur_buf s) (cur_len s) (total_size s) (inmsg_chunks s) (inmsg_hdr s) (inmsg_control s) (fail_msg s)
    (outstate s) (outhdr s) (outmsg s) (rx s) (tx s) (calls s).
Definition set_msg_type (v : Z) (s : nn_sws) : nn_sws :=
  NnSws (fsm s) (stopped_ev s) (state s) (mode s) v (usock s) (instate s) (inhdr s) (opcode s)
    (payload_ctl s) (masked s) (mask s) (ext_hdr_len s) (is_final_frame s) (is_control_frame s)
    (continuing s) (utf8_frag s) (utf8_len s) (pings_received s) (pongs_received s) (inmsg_array s)
    (cur_buf s) (cur_len s) (total_size s) (inmsg_chunks s) (inmsg_hdr s) (inmsg_control s) (fail_msg s)
    (outstate s) (outhdr s) (outmsg s) (rx s) (tx s) (calls s).
Definition set_usock (v : bool) (s : nn_sws) : nn_sws :=
  NnSws (fsm s) (stopped_ev s) (state s) (mode s) (msg_type s) v (instate s) (inhdr s) (opcode s)
    (payload_ctl s) (masked s) (mask s) (ext_hdr_len s) (is_final_frame s) (is_control_frame s)
    (continuing s) (utf8_frag s) (utf8_len s) (pings_received s) (pongs_received s) (inmsg_array s)
    (cur_buf s) (cur_len s) (total_size s) (inmsg_chunks s) (inmsg_hdr s) (inmsg_control s) (fail_msg s)
    (outstate s) (outhdr s) (outmsg s) (rx s) (tx s) (calls s).
Definition set_instate (v : Z) (s : nn_sws) : nn_sws :=
  NnSws (fsm s) (stopped_ev s) (state s) (mode s) (msg_type s) (usock s) v (inhdr s) (opcode s)
    (payload_ctl s) (masked s) (mask s) (ext_hdr_len s) (is_final_frame s) (is_control_frame s)
    (continuing s) (utf8_frag s) (utf8_len s) (pings_received s) (pongs_received s) (inmsg_array s)
    (cur_buf s) (cur_len s) (total_size s) (inmsg_chunks s) (inmsg_hdr s) (inmsg_control s) (fail_msg s)
    (outstate s) (outhdr s) (outmsg s) (rx s) (tx s) (calls s).
Definition set_inhdr (v : list Z) (s : nn_sws) : nn_sws :=
  NnSws (fsm s) (stopped_ev s) (state s) (mode s) (msg_type s) (usock s) (instate s) v (opcode s)
    (payload_ctl s) (masked s) (mask s) (ext_hdr_len s) (is_final_frame s) (is_control_frame s)
    (continuing s) (utf8_frag s) (utf8_len s) (pings_received s) (pongs_received s) (inmsg_array s)
    (cur_buf s) (cur_len s) (total_size s) (inmsg_chunks s) (inmsg_hdr s) (inmsg_control s) (fail_msg s)
    (outstate s) (outhdr s) (outmsg s) (rx s) (tx s) (calls s).
Definition set_opcode (v : Z) (s : nn_sws) : nn_sws :=
  NnSws (fsm s) (stopped_ev s) (state s) (mode s) (msg_type s) (usock s) (instate s) (inhdr s) v
    (payload_ctl s) (masked s) (mask s) (ext_hdr_len s) (is_final_frame s) (is_control_frame s)
    (continuing s) (utf8_frag s) (utf8_len s) (pings_received s) (pongs_received s) (inmsg_array s)
    (cur_buf s) (cur_len s) (total_size s) (inmsg_chunks s) (inmsg_hdr s) (inmsg_control s) (fail_msg s)
    (outstate s) (outhdr s) (outmsg s) (rx s) (tx s) (calls s).
Definition set_payload_ctl (v : Z) (s : nn_sws) : nn_sws :=
  NnSws (fsm s) (stopped_ev s) (state s) (mode s) (msg_type s) (usock s) (instate s) (inhdr s) (opcode s) v
    (masked s) (mask s) (ext_hdr_len s) (is_final_frame s) (is_control_frame s) (continuing s) (utf8_frag s)
    (utf8_len s) (pings_received s) (pongs_received s) (inmsg_array s) (cur_buf s) (cur_len s)
    (total_size s) (inmsg_chunks s) (inmsg_hdr s) (inmsg_control s) (fail_msg s) (outstate s) (outhdr s)
    (outmsg s) (rx s) (tx s) (calls s).
Definition set_masked (v : bool) (s : nn_sws) : nn_sws :=
  NnSws (fsm s) (stopped_ev s) (state s) (mode s) (msg_type s) (usock s) (instate s) (inhdr s) (opcode s)
    (payload_ctl s) v (mask s) (ext_hdr_len s) (is_final_frame s) (is_control_frame s) (continuing s)
    (utf8_frag s) (utf8_len s) (pings_received s) (pongs_received s) (inmsg_array s) (cur_buf s) (cur_len s)
    (total_size s) (inmsg_chunks s) (inmsg_hdr s) (inmsg_control s) (fail_msg s) (outstate s) (outhdr s)
    (outmsg s) (rx s) (tx s) (calls s).
Definition set_mask (v : option nat) (s : nn_sws) : nn_sws :=
  NnSws (fsm s) (stopped_ev s) (state s) (mode s) (msg_type s) (usock s) (instate s) (inhdr s) (opcode s)
    (payload_ctl s) (masked s) v (ext_hdr_len s) (is_final_frame s) (is_control_frame s) (continuing s)
    (utf8_frag s) (utf8_len s) (pings_received s) (pongs_received s) (inmsg_array s) (cur_buf s) (cur_len s)
    (total_size s) (inmsg_chunks s) (inmsg_hdr s) (inmsg_control s) (fail_msg s) (outstate s) (outhdr s)
    (outmsg s) (rx s) (tx s) (calls s).
Definition set_ext_hdr_len (v : Z) (s : nn_sws) : nn_sws :=
  NnSws (fsm s) (stopped_ev s) (state s) (mode s) (msg_type s) (usock s) (instate s) (inhdr s) (opcode s)
    (payload_ctl s) (masked s) (mask s) v (is_final_frame s) (is_control_frame s) (continuing s)
    (utf8_frag s) (utf8_len s) (pings_received s) (pongs_received s) (inmsg_array s) (cur_buf s) (cur_len s)
    (total_size s) (inmsg_chunks s) (inmsg_hdr s) (inmsg_control s) (fail_msg s) (outstate s) (outhdr s)
    (outmsg s) (rx s) (tx s) (calls s).
Definition set_is_final_frame (v : bool) (s : nn_sws) : nn_sws :=
  NnSws (fsm s) (stopped_ev s) (state s) (mode s) (msg_type s) (usock s) (instate s) (inhdr s) (opcode s)
    (payload_ctl s) (masked s) (mask s) (ext_hdr_len s) v (is_control_frame s) (continuing s) (utf8_frag s)
    (utf8_len s) (pings_received s) (pongs_received s) (inmsg_array s) (cur_buf s) (cur_len s)
    (total_size s) (inmsg_chunks s) (inmsg_hdr s) (inmsg_control s) (fail_msg s) (outstate s) (outhdr s)
    (outmsg s) (rx s) (tx s) (calls s).
Definition set_is_control_frame (v : bool) (s : nn_sws) : nn_sws :=
  NnSws (fsm s) (stopped_ev s) (state s) (mode s) (msg_type s) (usock s) (instate s) (inhdr s) (opcode s)
    (payload_ctl s) (masked s) (mask s) (ext_hdr_len s) (is_final_frame s) v (continuing s) (utf8_frag s)
    (utf8_len s) (pings_received s) (pongs_received s) (inmsg_array s) (cur_buf s) (cur_len s)
    (total_size s) (inmsg_chunks s) (inmsg_hdr s) (inmsg_control s) (fail_msg s) (outstate s) (outhdr s)
    (outmsg s) (rx s) (tx s) (calls s).
Definition set_continuing (v : bool) (s : nn_sws) : nn_sws :=
  NnSws (fsm s) (stopped_ev s) (state s) (mode s) (msg_type s) (usock s) (instate s) (inhdr s) (opcode s)
    (payload_ctl s) (masked s) (mask s) (ext_hdr_len s) (is_final_frame s) (is_control_frame s) v
    (utf8_frag s) (utf8_len s) (pings_received s) (pongs_received s) (inmsg_array s) (cur_buf s) (cur_len s)
    (total_size s) (inmsg_chunks s) (inmsg_hdr s) (inmsg_control s) (fail_msg s) (outstate s) (outhdr s)
    (outmsg s) (rx s) (tx s) (calls s).
Definition set_utf8_frag (v : list Z) (s : nn_sws) : nn_sws :=
  NnSws (fsm s) (stopped_ev s) (state s) (mode s) (msg_type s) (usock s) (instate s) (inhdr s) (opcode s)
    (payload_ctl s) (masked s) (mask s) (ext_hdr_len s) (is_final_frame s) (is_control_frame s)
    (continuing s) v (utf8_len s) (pings_received s) (pongs_received s) (inmsg_array s) (cur_buf s)
    (cur_len s) (total_size s) (inmsg_chunks s) (inmsg_hdr s) (inmsg_control s) (fail_msg s) (outstate s)
    (outhdr s) (outmsg s) (rx s) (tx s) (calls s).
Definition set_utf8_len (v : Z) (s : nn_sws) : nn_sws :=
  NnSws (fsm s) (stopped_ev s) (state s) (mode s) (msg_type s) (usock s) (instate s) (inhdr s) (opcode s)
    (payload_ctl s) (masked s) (mask s) (ext_hdr_len s) (is_final_frame s) (is_control_frame s)
    (continuing s) (utf8_frag s) v (pings_received s) (pongs_received s) (inmsg_array s) (cur_buf s)
    (cur_len s) (total_size s) (inmsg_chunks s) (inmsg_hdr s) (inmsg_control s) (fail_msg s) (outstate s)
    (outhdr s) (outmsg s) (rx s) (tx s) (calls s).
Definition set_pings_received (v : Z) (s : nn_sws) : nn_sws :=
  NnSws (fsm s) (stopped_ev s) (state s) (mode s) (msg_type s) (usock s) (instate s) (inhdr s) (opcode s)
    (payload_ctl s) (masked s) (mask s) (ext_hdr_len s) (is_final_frame s) (is_control_frame s)
    (continuing s) (utf8_frag s) (utf8_len s) v (pongs_received s) (inmsg_array s) (cur_buf s) (cur_len s)
    (total_size s) (inmsg_chunks s) (inmsg_hdr s) (inmsg_control s) (fail_msg s) (outstate s) (outhdr s)
    (outmsg s) (rx s) (tx s) (calls s).
Definition set_pongs_received (v : Z) (s : nn_sws) : nn_sws :=
  NnSws (fsm s) (stopped_ev s) (state s) (mode s) (msg_type s) (usock s) (instate s) (inhdr s) (opcode s)
    (payload_ctl s) (masked s) (mask s) (ext_hdr_len s) (is_final_frame s) (is_control_frame s)
    (continuing s) (utf8_frag s) (utf8_len s) (pings_received s) v (inmsg_array s) (cur_buf s) (cur_len s)
    (total_size s) (inmsg_chunks s) (inmsg_hdr s) (inmsg_control s) (fail_msg s) (outstate s) (outhdr s)
    (outmsg s) (rx s) (tx s) (calls s).
Definition set_inmsg_array (v : list (list Z)) (s : nn_sws) : nn_sws :=
  NnSws (fsm s) (stopped_ev s) (state s) (mode s) (msg_type s) (usock s) (instate s) (inhdr s) (opcode s)
    (payload_ctl s) (masked s) (mask s) (ext_hdr_len s) (is_final_frame s) (is_control_frame s)
    (continuing s) (utf8_frag s) (utf8_len s) (pings_received s) (pongs_received s) v (cur_buf s)
    (cur_len s) (total_size s) (inmsg_chunks s) (inmsg_hdr s) (inmsg_control s) (fail_msg s) (outstate s)
    (outhdr s) (outmsg s) (rx s) (tx s) (calls s).
Definition set_cur_buf (v : cur_ptr) (s : nn_sws) : nn_sws :=
  NnSws (fsm s) (stopped_ev s) (state s) (mode s) (msg_type s) (usock s) (instate s) (inhdr s) (opcode s)
    (payload_ctl s) (masked s) (mask s) (ext_hdr_len s) (is_final_frame s) (is_control_frame s)
    (continuing s) (utf8_frag s) (utf8_len s) (pings_received s) (pongs_received s) (inmsg_array s) v
    (cur_len s) (total_size s) (inmsg_chunks s) (inmsg_hdr s) (inmsg_control s) (fail_msg s) (outstate s)
    (outhdr s) (outmsg s) (rx s) (tx s) (calls s).
Definition set_cur_len (v : Z) (s : nn_sws) : nn_sws :=
  NnSws (fsm s) (stopped_ev s) (state s) (mode s) (msg_type s) (usock s) (instate s) (inhdr s) (opcode s)
    (payload_ctl s) (masked s) (mask s) (ext_hdr_len s) (is_final_frame s) (is_control_frame s)
    (continuing s) (utf8_frag s) (utf8_len s) (pings_received s) (pongs_received s) (inmsg_array s)
    (cur_buf s) v (total_size s) (inmsg_chunks s) (inmsg_hdr s) (inmsg_control s) (fail_msg s) (outstate s)
    (outhdr s) (outmsg s) (rx s) (tx s) (calls s).
Definition set_total_size (v : Z) (s : nn_sws) : nn_sws :=
  NnSws (fsm s) (stopped_ev s) (state s) (mode s) (msg_type s) (usock s) (instate s) (inhdr s) (opcode s)
    (payload_ctl s) (masked s) (mask s) (ext_hdr_len s) (is_final_frame s) (is_control_frame s)
    (continuing s) (utf8_frag s) (utf8_len s) (pings_received s) (pongs_received s) (inmsg_array s)
    (cur_buf s) (cur_len s) v (inmsg_chunks s) (inmsg_hdr s) (inmsg_control s) (fail_msg s) (outstate s)
    (outhdr s) (outmsg s) (rx s) (tx s) (calls s).
Definition set_inmsg_chunks (v : Z) (s : nn_sws) : nn_sws :=
  NnSws (fsm s) (stopped_ev s) (state s) (mode s) (msg_type s) (usock s) (instate s) (inhdr s) (opcode s)
    (payload_ctl s) (masked s) (mask s) (ext_hdr_len s) (is_final_frame s) (is_control_frame s)
    (continuing s) (utf8_frag s) (utf8_len s) (pings_received s) (pongs_received s) (inmsg_array s)
    (cur_buf s) (cur_len s) (total_size s) v (inmsg_hdr s) (inmsg_control s) (fail_msg s) (outstate s)
    (outhdr s) (outmsg s) (rx s) (tx s) (calls s).
Definition set_inmsg_hdr (v : Z) (s : nn_sws) : nn_sws :=
  NnSws (fsm s) (stopped_ev s) (state s) (mode s) (msg_type s) (usock s) (instate s) (inhdr s) (opcode s)
    (payload_ctl s) (masked s) (mask s) (ext_hdr_len s) (is_final_frame s) (is_control_frame s)
    (continuing s) (utf8_frag s) (utf8_len s) (pings_received s) (pongs_received s) (inmsg_array s)
    (cur_buf s) (cur_len s) (total_size s) (inmsg_chunks s) v (inmsg_control s) (fail_msg s) (outstate s)
    (outhdr s) (outmsg s) (rx s) (tx s) (calls s).
Definition set_inmsg_control (v : list Z) (s : nn_sws) : nn_sws :=
  NnSws (fsm s) (stopped_ev s) (state s) (mode s) (msg_type s) (usock s) (instate s) (inhdr s) (opcode s)
    (payload_ctl s) (masked s) (mask s) (ext_hdr_len s) (is_final_frame s) (is_control_frame s)
    (continuing s) (utf8_frag s) (utf8_len s) (pings_received s) (pongs_received s) (inmsg_array s)
    (cur_buf s) (cur_len s) (total_size s) (inmsg_chunks s) (inmsg_hdr s) v (fail_msg s) (outstate s)
    (outhdr s) (outmsg s) (rx s) (tx s) (calls s).
Definition set_fail_msg (v : list Z) (s : nn_sws) : nn_sws :=
  NnSws (fsm s) (stopped_ev s) (state s) (mode s) (msg_type s) (usock s) (instate s) (inhdr s) (opcode s)
    (payload_ctl s) (masked s) (mask s) (ext_hdr_len s) (is_final_frame s) (is_control_frame s)
    (continuing s) (utf8_frag s) (utf8_len s) (pings_received s) (pongs_received s) (inmsg_array s)
    (cur_buf s) (cur_len s) (total_size s) (inmsg_chunks s) (inmsg_hdr s) (inmsg_control s) v (outstate s)
    (outhdr s) (outmsg s) (rx s) (tx s) (calls s).
Definition set_outstate (v : Z) (s : nn_sws) : nn_sws :=
  NnSws (fsm s) (stopped_ev s) (state s) (mode s) (msg_type s) (usock s) (instate s) (inhdr s) (opcode s)
    (payload_ctl s) (masked s) (mask s) (ext_hdr_len s) (is_final_frame s) (is_control_frame s)
    (continuing s) (utf8_frag s) (utf8_len s) (pings_received s) (pongs_received s) (inmsg_array s)
    (cur_buf s) (cur_len s) (total_size s) (inmsg_chunks s) (inmsg_hdr s) (inmsg_control s) (fail_msg s) v
    (outhdr s) (outmsg s) (rx s) (tx s) (calls s).
Definition set_outhdr (v : list Z) (s : nn_sws) : nn_sws :=
  NnSws (fsm s) (stopped_ev s) (state s) (mode s) (msg_type s) (usock s) (instate s) (inhdr s) (opcode s)
    (payload_ctl s) (masked s) (mask s) (ext_hdr_len s) (is_final_frame s) (is_control_frame s)
    (continuing s) (utf8_frag s) (utf8_len s) (pings_received s) (pongs_received s) (inmsg_array s)
    (cur_buf s) (cur_len s) (total_size s) (inmsg_chunks s) (inmsg_hdr s) (inmsg_control s) (fail_msg s)
    (outstate s) v (outmsg s) (rx s) (tx s) (calls s).
Definition set_outmsg (v : vmsg) (s : nn_sws) : nn_sws :=
  NnSws (fsm s) (stopped_ev s) (state s) (mode s) (msg_type s) (usock s) (instate s) (inhdr s) (opcode s)
    (payload_ctl s) (masked s) (mask s) (ext_hdr_len s) (is_final_frame s) (is_control_frame s)
    (continuing s) (utf8_frag s) (utf8_len s) (pings_received s) (pongs_received s) (inmsg_array s)
    (cur_buf s) (cur_len s) (total_size s) (inmsg_chunks s) (inmsg_hdr s) (inmsg_control s) (fail_msg s)
    (outstate s) (outhdr s) v (rx s) (tx s) (calls s).
Definition set_rx (v : option (rx_ptr * Z)) (s : nn_sws) : nn_sws :=
  NnSws (fsm s) (stopped_ev s) (state s) (mode s) (msg_type s) (usock s) (instate s) (inhdr s) (opcode s)
    (payload_ctl s) (masked s) (mask s) (ext_hdr_len s) (is_final_frame s) (is_control_frame s)
    (continuing s) (utf8_frag s) (utf8_len s) (pings_received s) (pongs_received s) (inmsg_array s)
    (cur_buf s) (cur_len s) (total_size s) (inmsg_chunks s) (inmsg_hdr s) (inmsg_control s) (fail_msg s)
    (outstate s) (outhdr s) (outmsg s) v (tx s) (calls s).
Definition set_tx (v : option (list Z)) (s : nn_sws) : nn_sws :=
  NnSws (fsm s) (stopped_ev s) (state s) (mode s) (msg_type s) (usock s) (instate s) (inhdr s) (opcode s)
    (payload_ctl s) (masked s) (mask s) (ext_hdr_len s) (is_final_frame s) (is_control_frame s)
    (continuing s) (utf8_frag s) (utf8_len s) (pings_received s) (pongs_received s) (inmsg_array s)
    (cur_buf s) (cur_len s) (total_size s) (inmsg_chunks s) (inmsg_hdr s) (inmsg_control s) (fail_msg s)
    (outstate s) (outhdr s) (outmsg s) (rx s) v (calls s).
Definition set_calls (v : list sws_call) (s : nn_sws) : nn_sws :=
  NnSws (fsm s) (stopped_ev s) (state s) (mode s) (msg_type s) (usock s) (instate s) (inhdr s) (opcode s)
    (payload_ctl s) (masked s) (mask s) (ext_hdr_len s) (is_final_frame s) (is_control_frame s)
    (continuing s) (utf8_frag s) (utf8_len s) (pings_received s) (pongs_received s) (inmsg_array s)
    (cur_buf s) (cur_len s) (total_size s) (inmsg_chunks s) (inmsg_hdr s) (inmsg_control s) (fail_msg s)
    (outstate s) (outhdr s) (outmsg s) (rx s) (tx s) v.

#[export] Instance nn_sws_eq_dec : EqDecision nn_sws.
Proof. solve_decision. Defined.

(** What the object asks of its surroundings: the allocator and the contents of
    fresh memory, the answer of [nn_pipebase_start], the option NN_RCVMAXSIZE, the
    random numbers of [nn_random_generate], and whether the handshake is idle. *)
Record ws_env := WsEnv {
  e_alloc : Z → bool;
  e_junk : nat → Z;
  e_start_rc : Z;
  e_rcvmaxsize : Z;
  e_rand : list Z;
  e_hs_idle : bool;
}.

(** The bytes of a string literal. *)
Definition str (s : string) : list Z := (λ a, Z.of_N (N_of_ascii a)) <$> list_ascii_of_string s.

(** Computes the fields of an object that setters made. *)
Ltac sws_simpl :=
  cbn [
    fsm stopped_ev state mode msg_type usock instate inhdr opcode payload_ctl masked mask
    ext_hdr_len is_final_frame is_control_frame continuing utf8_frag utf8_len pings_received
    pongs_received inmsg_array cur_buf cur_len total_size inmsg_chunks inmsg_hdr inmsg_control
    fail_msg outstate outhdr outmsg rx tx calls set_fsm set_stopped_ev set_state set_mode
    set_msg_type set_usock set_instate set_inhdr set_opcode set_payload_ctl set_masked set_mask
    set_ext_hdr_len set_is_final_frame set_is_control_frame set_continuing set_utf8_frag
    set_utf8_len set_pings_received set_pongs_received set_inmsg_array set_cur_buf set_cur_len
    set_total_size set_inmsg_chunks set_inmsg_hdr set_inmsg_control set_fail_msg set_outstate
    set_outhdr set_outmsg set_rx set_tx set_calls ] in *.
