(* ===== verification/Sws.v ===== *)
(** * transports/ws/sws.c: WebSocket connections

    The object between the handshake and the end of a connection: it cuts the
    stream of bytes into frames, reassembles the messages, checks texts, answers
    the closing handshake, and frames the messages of the user.

    An event of the underlying socket or of the handshake is a call of
    [nn_sws_handler]; the user's thread calls [nn_sws_send] and [nn_sws_recv]. *)
From Stdlib Require Import String.
From S2P Require Import Prelude Wire Chunk Msg Fsm Utf8 Cmsg WsState.

(** ** Constants *)

Definition NN_SWS_STATE_IDLE : Z := 1.
Definition NN_SWS_STATE_HANDSHAKE : Z := 2.
Definition NN_SWS_STATE_STOPPING_HANDSHAKE : Z := 3.
Definition NN_SWS_STATE_ACTIVE : Z := 4.
Definition NN_SWS_STATE_CLOSING_CONNECTION : Z := 5.
Definition NN_SWS_STATE_BROKEN_CONNECTION : Z := 6.
Definition NN_SWS_STATE_DONE : Z := 7.
Definition NN_SWS_STATE_STOPPING : Z := 8.

Definition NN_SWS_INSTATE_RECV_HDR : Z := 1.
Definition NN_SWS_INSTATE_RECV_HDREXT : Z := 2.
Definition NN_SWS_INSTATE_RECV_PAYLOAD : Z := 3.
Definition NN_SWS_INSTATE_RECVD_CHUNKED : Z := 4.
Definition NN_SWS_INSTATE_RECVD_CONTROL : Z := 5.
Definition NN_SWS_INSTATE_CLOSED : Z := 7.

Definition NN_SWS_OUTSTATE_IDLE : Z := 1.
Definition NN_SWS_OUTSTATE_SENDING : Z := 2.

Definition NN_SWS_SRC_USOCK : Z := 1.
Definition NN_SWS_SRC_HANDSHAKE : Z := 2.

Definition NN_SWS_RETURN_ERROR : Z := 1.
Definition NN_SWS_RETURN_CLOSE_HANDSHAKE : Z := 2.
Definition NN_SWS_RETURN_STOPPED : Z := 3.

Definition NN_WS_HANDSHAKE_OK : Z := 1.
Definition NN_WS_HANDSHAKE_ERROR : Z := 2.
Definition NN_WS_HANDSHAKE_STOPPED : Z := 3.
Definition NN_WS_CLIENT : Z := 1.
Definition NN_WS_SERVER : Z := 2.

Definition NN_USOCK_SENT : Z := 3.
Definition NN_USOCK_RECEIVED : Z := 4.
Definition NN_USOCK_ERROR : Z := 5.
Definition NN_USOCK_SHUTDOWN : Z := 8.

Definition NN_WS : Z := -4.
Definition NN_WS_MSG_TYPE : Z := 1.

Definition NN_WS_OPCODE_FRAGMENT : Z := 0x00.
Definition NN_WS_OPCODE_TEXT : Z := 0x01.
Definition NN_WS_OPCODE_BINARY : Z := 0x02.
Definition NN_WS_OPCODE_CLOSE : Z := 0x08.
Definition NN_WS_OPCODE_PING : Z := 0x09.
Definition NN_WS_OPCODE_PONG : Z := 0x0A.

Definition NN_SWS_CLOSE_NORMAL : Z := 1000.
Definition NN_SWS_CLOSE_GOING_AWAY : Z := 1001.
Definition NN_SWS_CLOSE_ERR_PROTO : Z := 1002.
Definition NN_SWS_CLOSE_ERR_WUT : Z := 1003.
Definition NN_SWS_CLOSE_ERR_INVALID_FRAME : Z := 1007.
Definition NN_SWS_CLOSE_ERR_POLICY : Z := 1008.
Definition NN_SWS_CLOSE_ERR_TOOBIG : Z := 1009.
Definition NN_SWS_CLOSE_ERR_EXTENSION : Z := 1010.
Definition NN_SWS_CLOSE_ERR_SERVER : Z := 1011.

Definition NN_SWS_FRAME_SIZE_INITIAL : Z := 2.
Definition NN_SWS_FRAME_SIZE_PAYLOAD_0 : Z := 0.
Definition NN_SWS_FRAME_SIZE_PAYLOAD_16 : Z := 2.
Definition NN_SWS_FRAME_SIZE_PAYLOAD_63 : Z := 8.
Definition NN_SWS_FRAME_SIZE_MASK : Z := 4.
Definition NN_SWS_FRAME_MAX_HDR_LEN : nat := 14.
Definition NN_SWS_PAYLOAD_MAX_LENGTH : Z := 125.
Definition NN_SWS_PAYLOAD_MAX_LENGTH_16 : Z := 65535.
Definition NN_SWS_PAYLOAD_FRAME_16 : Z := 0x7E.
Definition NN_SWS_PAYLOAD_FRAME_63 : Z := 0x7F.
Definition NN_SWS_CLOSE_CODE_LEN : Z := 2.

Definition NN_SWS_FRAME_BITMASK_FIN : Z := 0x80.
Definition NN_SWS_FRAME_BITMASK_RSV1 : Z := 0x40.
Definition NN_SWS_FRAME_BITMASK_RSV2 : Z := 0x20.
Definition NN_SWS_FRAME_BITMASK_RSV3 : Z := 0x10.
Definition NN_SWS_FRAME_BITMASK_OPCODE : Z := 0x0F.
Definition NN_SWS_FRAME_BITMASK_MASKED : Z := 0x80.
Definition NN_SWS_FRAME_BITMASK_NOT_MASKED : Z := 0x00.
Definition NN_SWS_FRAME_BITMASK_LENGTH : Z := 0x7F.

(** [x & m] as a condition. *)
Definition has_bit (x m : Z) : bool := negb (Z.land x m =? 0).

(** ** The socket, the pipe and memory *)

Definition call (c : sws_call) (self : nn_sws) : nn_sws := set_calls (calls self ++ [c]) self.

(** The socket executes one receive and one send at a time. *)
Definition nn_usock_recv (dst : rx_ptr) (len : Z) (self : nn_sws) : outcome nn_sws :=
  nn_assert (bool_decide (rx self = None));; Ret (set_rx (Some (dst, len)) self).
Definition nn_usock_send (iov : list (list Z)) (self : nn_sws) : outcome nn_sws :=
  nn_assert (bool_decide (tx self = None));; Ret (set_tx (Some (concat iov)) self).

Definition get_cur (self : nn_sws) : outcome (list Z) :=
  match cur_buf self with
  | CP_null => Fail Crash
  | CP_control => Ret (inmsg_control self)
  | CP_array => deref (last (inmsg_array self))
  end.

Definition put_cur (bs : list Z) (self : nn_sws) : outcome nn_sws :=
  match cur_buf self with
  | CP_null => Fail Crash
  | CP_control => Ret (set_inmsg_control bs self)
  | CP_array =>
      _ ← deref (last (inmsg_array self));
      Ret (set_inmsg_array (<[pred (length (inmsg_array self)) := bs]> (inmsg_array self)) self)
  end.

(** The socket has received all the bytes it was asked for. *)
Definition usock_fill (bs : list Z) (self : nn_sws) : outcome nn_sws :=
  '(dst, len) ← deref (rx self);
  if len =? Z.of_nat (length bs) then
    let self := set_rx None self in
    match dst with
    | RX_hdr off => h ← write_at (inhdr self) off bs; Ret (set_inhdr h self)
    | RX_cur => buf ← get_cur self; buf ← write_at buf 0 bs; put_cur buf self
    end
  else Fail Crash.

Section code.
Context (e : ws_env).

(** The data of a fresh chunkref; it has one owner and is kept by value. *)
Definition chunk_data (size : Z) : outcome (list Z) := msg_data (e_alloc e) (e_junk e) size.

Definition nn_msg_chunk_new (size : Z) (self : nn_sws) : outcome nn_sws :=
  data ← chunk_data size;
  Ret (set_cur_buf CP_array (set_inmsg_array (inmsg_array self ++ [data]) self)).

(** Frees the first chunk. *)
Definition nn_msg_chunk_term (self : nn_sws) : nn_sws := set_inmsg_array (tail (inmsg_array self)) self.

(** [while (!nn_list_empty (msg_array)) nn_msg_chunk_term (the first one)] *)
Definition array_term_body (self : nn_sws) : outcome (nn_sws * option unit) :=
  match inmsg_array self with [] => Ret (self, Some tt) | _ => Ret (nn_msg_chunk_term self, None) end.
Definition nn_msg_array_term (self : nn_sws) : outcome nn_sws :=
  '(self, _) ← while (S (length (inmsg_array self))) array_term_body self; Ret self.

(** ** Life cycle *)

Definition nn_sws_init (msgtype0 mode0 : Z) : nn_sws :=
  NnSws NN_FSM_STATE_IDLE false NN_SWS_STATE_IDLE mode0 msgtype0 false (-1)
    (replicate NN_SWS_FRAME_MAX_HDR_LEN 0) 0 0 false None 0 false false false (replicate 4 0) 0 0 0
    [] CP_null 0 0 0 0 (replicate 125 0) (replicate 125 0) (-1) (replicate NN_SWS_FRAME_MAX_HDR_LEN 0)
    (VMsg [] [] []) None None [].

Definition nn_sws_isidle (self : nn_sws) : bool := nn_fsm_isidle fsm stopped_ev self.

Definition nn_sws_term (self : nn_sws) : outcome unit :=
  nn_assert (state self =? NN_SWS_STATE_IDLE);;
  _ ← nn_msg_array_term self;
  nn_fsm_term fsm stopped_ev self.

(** ** Masking

    [mask_start_pos] is NULL or the start position; the result is the buffer and
    the position after it.  The index is an [unsigned int], so that the loop does
    not end for a payload of 2^32 bytes. *)
Fixpoint mask_loop (mask : list Z) (mask_len start : Z) (i : Z) (payload : list Z) : outcome (list Z) :=
  match payload with
  | [] => Ret []
  | b :: payload =>
      m ← rd mask (Z.to_nat (u32 (i + start) mod mask_len));
      payload ← mask_loop mask mask_len start (i + 1) payload;
      Ret (Z.lxor b m :: payload)
  end.

Definition nn_sws_mask_payload (buf : list Z) (payload_len : Z) (mask : list Z) (mask_len : Z)
    (mask_start_pos : option Z) : outcome (list Z * Z) :=
  if 2 ^ 32 <=? payload_len then Fail Diverge
  else
    let start := default 0 mask_start_pos in
    payload ← read_at buf 0 (Z.to_nat payload_len);
    payload ← mask_loop mask mask_len start 0 payload;
    buf ← write_at buf 0 payload;
    Ret (buf, u32 (payload_len + start) mod mask_len).

(** ** Receiving and failing *)

Definition nn_sws_recv_hdr (self : nn_sws) : outcome nn_sws :=
  self ← (if negb (continuing self) then
            nn_assert (bool_decide (inmsg_array self = []));;
            Ret (set_total_size 0 (set_cur_len 0 (set_inmsg_chunks 0 (set_cur_buf CP_null self))))
          else Ret self);
  let self := set_inmsg_control (replicate 125 0) self in
  let self := set_inhdr (replicate NN_SWS_FRAME_MAX_HDR_LEN 0) self in
  let self := set_instate NN_SWS_INSTATE_RECV_HDR self in
  nn_usock_recv (RX_hdr 0) NN_SWS_FRAME_SIZE_INITIAL self.

(** The closing frame in [fail_msg], and its length. *)
Definition close_frame (self : nn_sws) (code : Z) (reason : list Z) : outcome (list Z * Z) :=
  let reason_len := Z.of_nat (length reason) in
  let payload_len := reason_len + NN_SWS_CLOSE_CODE_LEN in
  nn_assert (payload_len <=? NN_SWS_PAYLOAD_MAX_LENGTH);;
  m ← wr (fail_msg self) 0 (Z.lor NN_SWS_FRAME_BITMASK_FIN NN_WS_OPCODE_CLOSE);
  m ← wr m 1 (u8 payload_len);
  let fail_msg_len := NN_SWS_FRAME_SIZE_INITIAL in
  '(m, fail_msg_len) ← (
    b1 ← rd m 1;
    if mode self =? NN_WS_SERVER then
      m ← wr m 1 (Z.lor b1 NN_SWS_FRAME_BITMASK_NOT_MASKED); Ret (m, fail_msg_len)
    else if mode self =? NN_WS_CLIENT then
      m ← wr m 1 (Z.lor b1 NN_SWS_FRAME_BITMASK_MASKED);
      m ← write_at m (Z.to_nat NN_SWS_FRAME_SIZE_INITIAL) (e_rand e);
      Ret (m, fail_msg_len + NN_SWS_FRAME_SIZE_MASK)
    else Fail Abort);
  let payload_pos := Z.to_nat fail_msg_len in
  m ← puts_at m payload_pos (u16 code);
  m ← write_at m (payload_pos + Z.to_nat NN_SWS_CLOSE_CODE_LEN) reason;
  let fail_msg_len := fail_msg_len + NN_SWS_CLOSE_CODE_LEN + reason_len in
  if mode self =? NN_WS_CLIENT then
    '(p, _) ← nn_sws_mask_payload (drop payload_pos m) payload_len (e_rand e) NN_SWS_FRAME_SIZE_MASK None;
    Ret (take payload_pos m ++ p, fail_msg_len)
  else Ret (m, fail_msg_len).

Definition nn_sws_fail_conn (self : nn_sws) (code : Z) (reason : string) : outcome nn_sws :=
  nn_assert (state self =? NN_SWS_STATE_ACTIVE);;
  let self := set_instate NN_SWS_INSTATE_CLOSED self in
  let self := call C_stop self in
  self ← nn_msg_array_term self;
  '(m, len) ← close_frame self code (str reason);
  let self := set_fail_msg m self in
  if outstate self =? NN_SWS_OUTSTATE_IDLE then
    self ← nn_usock_send [take (Z.to_nat len) m] self;
    let self := set_outstate NN_SWS_OUTSTATE_SENDING self in
    Ret (set_state NN_SWS_STATE_CLOSING_CONNECTION self)
  else
    let self := set_state NN_SWS_STATE_DONE self in
    Ret (call (C_done NN_SWS_RETURN_CLOSE_HANDSHAKE) self).

(** ** UTF-8 *)

(** One turn of the loop that completes a code point cut by a previous frame:
    the state is the object, the position and the number of bytes left, the
    result whether the function has returned. *)
Definition frag_body (s : nn_sws * nat * Z) : outcome ((nn_sws * nat * Z) * option bool) :=
  let '(self, pos, len) := s in
  if 0 <? len then
    buf ← get_cur self;
    b ← rd buf pos;
    frag ← wr (utf8_frag self) (Z.to_nat (utf8_len self)) b;
    let self := set_utf8_len (utf8_len self + 1) (set_utf8_frag frag self) in
    let pos := S pos in
    let len := len - 1 in
    r ← nn_utf8_code_point (utf8_frag self) (utf8_len self);
    if 0 <? r then Ret ((self, pos, len), Some false)
    else if r =? NN_SWS_UTF8_INVALID then
      self ← nn_sws_fail_conn self NN_SWS_CLOSE_ERR_INVALID_FRAME
               "Invalid UTF-8 code point split on previous frame.";
      Ret ((self, pos, len), Some true)
    else if r =? NN_SWS_UTF8_FRAGMENT then
      self ← (if is_final_frame self then
                nn_sws_fail_conn self NN_SWS_CLOSE_ERR_INVALID_FRAME
                  "Truncated UTF-8 payload with invalid code point."
              else nn_sws_recv_hdr self);
      Ret ((self, pos, len), Some true)
    else Ret ((self, pos, len), None)
  else Ret (s, Some false).

(** One turn of the loop over whole code points; the result is what stopped it:
    0 at the end of the buffer, or the last answer of [nn_utf8_code_point]. *)
Definition scan_body (buf : list Z) (s : nat * Z) : outcome ((nat * Z) * option Z) :=
  let '(pos, len) := s in
  if 0 <? len then
    r ← nn_utf8_code_point (drop pos buf) len;
    if 0 <? r then
      nn_assert (r <=? len);; Ret (((pos + Z.to_nat r)%nat, len - r), None)
    else if (r =? NN_SWS_UTF8_INVALID) || (r =? NN_SWS_UTF8_FRAGMENT) then Ret (s, Some r)
    else Ret (s, None)
  else Ret (s, Some 0).

(** The second loop, over [len] bytes from [pos] on, and what follows it. *)
Definition validate_rest (self : nn_sws) (buf : list Z) (pos : nat) (len : Z) : outcome nn_sws :=
  '((pos, len), r) ← while (S (Z.to_nat len)) (scan_body buf) (pos, len);
  if r =? NN_SWS_UTF8_INVALID then
    let self := set_utf8_frag (replicate 4 0) (set_utf8_len 0 self) in
    nn_sws_fail_conn self NN_SWS_CLOSE_ERR_INVALID_FRAME "Invalid UTF-8 code point in payload."
  else if r =? NN_SWS_UTF8_FRAGMENT then
    nn_assert (len <? NN_SWS_UTF8_MAX_CODEPOINT_LEN);;
    rest ← read_at buf pos (Z.to_nat len);
    frag ← write_at (utf8_frag self) 0 rest;
    let self := set_utf8_frag frag (set_utf8_len len self) in
    if is_final_frame self then
      nn_sws_fail_conn self NN_SWS_CLOSE_ERR_INVALID_FRAME
        "Truncated UTF-8 payload with invalid code point."
    else nn_sws_recv_hdr self
  else
    nn_assert (len =? 0);;
    let self := set_utf8_frag (replicate 4 0) (set_utf8_len 0 self) in
    if is_final_frame self then
      Ret (call C_received (set_instate NN_SWS_INSTATE_RECVD_CHUNKED self))
    else nn_sws_recv_hdr self.

Definition nn_sws_validate_utf8_chunk (self : nn_sws) : outcome nn_sws :=
  let len := cur_len self in
  '((self, pos, len), returned) ← (
    if negb (utf8_len self =? 0) then
      nn_assert (utf8_len self <? NN_SWS_UTF8_MAX_CODEPOINT_LEN);;
      while (S (Z.to_nat len)) frag_body (self, 0%nat, len)
    else Ret ((self, 0%nat, len), false));
  if returned : bool then Ret self
  else
    nn_assert (utf8_len self <? NN_SWS_UTF8_MAX_CODEPOINT_LEN);;
    buf ← get_cur self;
    validate_rest self buf pos len.

(** ** The closing handshake *)

(** One turn of the loop over the reason; the result: is it well formed? *)
Definition close_scan_body (buf : list Z) (s : nat * Z) : outcome ((nat * Z) * option bool) :=
  let '(pos, len) := s in
  if 0 <? len then
    r ← nn_utf8_code_point (drop pos buf) len;
    if 0 <? r then
      nn_assert (r <=? len);; Ret (((pos + Z.to_nat r)%nat, len - r), None)
    else Ret (s, Some false)
  else Ret (s, Some true).

(** The codes the peer may close with. *)
Definition close_code_known (c : Z) : bool :=
  (c =? NN_SWS_CLOSE_NORMAL) || (c =? NN_SWS_CLOSE_GOING_AWAY) || (c =? NN_SWS_CLOSE_ERR_PROTO) ||
  (c =? NN_SWS_CLOSE_ERR_WUT) || (c =? NN_SWS_CLOSE_ERR_INVALID_FRAME) ||
  (c =? NN_SWS_CLOSE_ERR_POLICY) || (c =? NN_SWS_CLOSE_ERR_TOOBIG) ||
  (c =? NN_SWS_CLOSE_ERR_EXTENSION) || (c =? NN_SWS_CLOSE_ERR_SERVER) ||
  ((3000 <=? c) && (c <=? 3999)) || ((4000 <=? c) && (c <=? 4999)).

Definition nn_sws_acknowledge_close_handshake (self : nn_sws) : outcome nn_sws :=
  let len := cur_len self in
  if len =? 0 then nn_sws_fail_conn self NN_SWS_CLOSE_NORMAL ""
  else
    nn_assert (NN_SWS_CLOSE_CODE_LEN <=? len);;
    let len := len - NN_SWS_CLOSE_CODE_LEN in
    buf ← get_cur self;
    '((_, len), ok) ← while (S (Z.to_nat len)) (close_scan_body buf) (Z.to_nat NN_SWS_CLOSE_CODE_LEN, len);
    if negb ok then nn_sws_fail_conn self NN_SWS_CLOSE_ERR_PROTO "Invalid UTF-8 sent as Close Reason."
    else
      nn_assert (len =? 0);;
      close_code ← nn_gets buf;
      if close_code_known close_code then nn_sws_fail_conn self close_code ""
      else nn_sws_fail_conn self NN_SWS_CLOSE_ERR_PROTO "Unrecognized close code.".

(** ** The user's side: sending *)

(** The length of the payload in the header; the header and its length so far. *)
Definition frame_length (outhdr : list Z) (hdr_len nn_msg_size : Z) : outcome (list Z * Z) :=
  b1 ← rd outhdr 1;
  if nn_msg_size <=? NN_SWS_PAYLOAD_MAX_LENGTH then
    h ← wr outhdr 1 (Z.lor b1 (u8 nn_msg_size)); Ret (h, hdr_len + NN_SWS_FRAME_SIZE_PAYLOAD_0)
  else if nn_msg_size <=? NN_SWS_PAYLOAD_MAX_LENGTH_16 then
    h ← wr outhdr 1 (Z.lor b1 NN_SWS_PAYLOAD_FRAME_16);
    h ← puts_at h (Z.to_nat hdr_len) (u16 nn_msg_size);
    Ret (h, hdr_len + NN_SWS_FRAME_SIZE_PAYLOAD_16)
  else
    h ← wr outhdr 1 (Z.lor b1 NN_SWS_PAYLOAD_FRAME_63);
    h ← putll_at h (Z.to_nat hdr_len) nn_msg_size;
    Ret (h, hdr_len + NN_SWS_FRAME_SIZE_PAYLOAD_63).

(** A client masks its frames: the header, its length, and the message. *)
Definition frame_mask (mode : Z) (outhdr : list Z) (hdr_len : Z) (msg : vmsg) :
    outcome (list Z * Z * vmsg) :=
  b1 ← rd outhdr 1;
  if mode =? NN_WS_CLIENT then
    h ← wr outhdr 1 (Z.lor b1 NN_SWS_FRAME_BITMASK_MASKED);
    h ← write_at h (Z.to_nat hdr_len) (e_rand e);
    '(sp, mask_pos) ← nn_sws_mask_payload (sphdr msg) (Z.of_nat (length (sphdr msg)))
                        (e_rand e) NN_SWS_FRAME_SIZE_MASK (Some 0);
    '(bd, _) ← nn_sws_mask_payload (body msg) (Z.of_nat (length (body msg)))
                 (e_rand e) NN_SWS_FRAME_SIZE_MASK (Some mask_pos);
    Ret (h, hdr_len + NN_SWS_FRAME_SIZE_MASK, VMsg sp (hdrs msg) bd)
  else if mode =? NN_WS_SERVER then
    h ← wr outhdr 1 (Z.lor b1 NN_SWS_FRAME_BITMASK_NOT_MASKED); Ret (h, hdr_len, msg)
  else Fail Abort.

(** The search for the property in the ancillary data. *)
Definition msg_type_cmsg (hdrs : list Z) : outcome (option Z) :=
  if 0 <? Z.of_nat (length hdrs) then
    cmsg_find (S (length hdrs)) (Msghdr hdrs (Z.of_nat (length hdrs))) NN_WS NN_WS_MSG_TYPE
  else Ret None.

(** The chunk of the body belongs to this connection alone: a client masks it in
    place, which other pipes that share it would see. *)
Definition nn_sws_send (self : nn_sws) (msg : vmsg) : outcome (nn_sws * Z) :=
  nn_assert (state self =? NN_SWS_STATE_ACTIVE);;
  nn_assert (outstate self =? NN_SWS_OUTSTATE_IDLE);;
  let outhdr := replicate NN_SWS_FRAME_MAX_HDR_LEN 0 in
  cmsg ← msg_type_cmsg (hdrs msg);
  b0 ← (match cmsg with Some c => cmsg_data (hdrs msg) c | None => Ret (msg_type self) end);
  outhdr ← wr outhdr 0 (Z.lor b0 NN_SWS_FRAME_BITMASK_FIN);
  let nn_msg_size := u64 (Z.of_nat (length (sphdr msg)) + Z.of_nat (length (body msg))) in
  '(outhdr, hdr_len) ← frame_length outhdr NN_SWS_FRAME_SIZE_INITIAL nn_msg_size;
  '(outhdr, hdr_len, msg) ← frame_mask (mode self) outhdr hdr_len msg;
  let self := set_outmsg msg (set_outhdr outhdr self) in
  self ← nn_usock_send [take (Z.to_nat hdr_len) outhdr; sphdr msg; body msg] self;
  Ret (set_outstate NN_SWS_OUTSTATE_SENDING self, 0).

(** ** The user's side: receiving *)

(** One turn of the loop that copies the chunks into the message. *)
Definition reassemble_body (s : nn_sws * list Z * Z) : outcome ((nn_sws * list Z * Z) * option unit) :=
  let '(self, body, pos) := s in
  match inmsg_array self with
  | [] => Ret (s, Some tt)
  | ch :: _ =>
      body ← write_at body (Z.to_nat pos) ch;
      Ret ((nn_msg_chunk_term self, body, u64 (pos + Z.of_nat (length ch))), None)
  end.

(** The checks of the first byte of a header; the byte without FIN. *)
Definition opcode_hdr_of (self : nn_sws) (h : Z) (op1 op2 : Z) : outcome Z :=
  nn_assert (is_final_frame self);;
  nn_assert (has_bit h NN_SWS_FRAME_BITMASK_FIN);;
  let opcode_hdr := Z.land h (u8 (Z.lnot NN_SWS_FRAME_BITMASK_FIN)) in
  let opcode := Z.land opcode_hdr NN_SWS_FRAME_BITMASK_OPCODE in
  nn_assert ((opcode =? op1) || (opcode =? op2));;
  Ret opcode_hdr.

(** The ancillary data of a received message: its opcode. *)
Definition ws_cmsg (opcode_hdr : Z) : outcome (list Z) :=
  let cmsgsz := NN_CMSG_SPACE 1 in
  h ← chunk_data cmsgsz;
  h ← write_at h 8 (le 4 (u32 NN_WS));
  h ← write_at h 12 (le 4 (u32 NN_WS_MSG_TYPE));
  h ← write_at h 0 (le 8 cmsgsz);
  write_at h 16 [opcode_hdr].

Definition nn_sws_recv (self : nn_sws) : outcome (nn_sws * Z * vmsg) :=
  nn_assert (state self =? NN_SWS_STATE_ACTIVE);;
  '(self, opcode_hdr, body) ← (
    if instate self =? NN_SWS_INSTATE_RECVD_CHUNKED then
      opcode_hdr ← opcode_hdr_of self (inmsg_hdr self) NN_WS_OPCODE_BINARY NN_WS_OPCODE_TEXT;
      body ← chunk_data (total_size self);
      '((self, body, pos), _) ← while (S (length (inmsg_array self))) reassemble_body (self, body, 0);
      nn_assert (pos =? total_size self);;
      nn_assert (bool_decide (inmsg_array self = []));;
      self ← nn_sws_recv_hdr (set_continuing false self);
      Ret (self, opcode_hdr, body)
    else if instate self =? NN_SWS_INSTATE_RECVD_CONTROL then
      h0 ← rd (inhdr self) 0;
      opcode_hdr ← opcode_hdr_of self h0 NN_WS_OPCODE_PING NN_WS_OPCODE_PONG;
      body ← chunk_data (cur_len self);
      data ← read_at (inmsg_control self) 0 (Z.to_nat (cur_len self));
      body ← write_at body 0 data;
      self ← nn_sws_recv_hdr self;
      Ret (self, opcode_hdr, body)
    else Fail Abort);
  h ← ws_cmsg opcode_hdr;
  Ret (self, 0, VMsg [] h body).

(** ** The handler

    The part of the handler for a received header is a sequence of blocks, each
    of which may return from the handler ([false]) or go on ([true]). *)
Definition return_ (m : outcome nn_sws) : outcome (nn_sws * bool) := self ← m; Ret (self, false).
Definition go_on (self : nn_sws) : outcome (nn_sws * bool) := Ret (self, true).
Definition and_then (m : outcome (nn_sws * bool)) (k : nn_sws → outcome (nn_sws * bool)) :
    outcome (nn_sws * bool) :=
  '(self, b) ← m; if b : bool then k self else Ret (self, false).

Definition received (self : nn_sws) (instate : Z) : outcome nn_sws :=
  Ret (call C_received (set_instate instate self)).

(** *** A header: the first two bytes *)

Definition hdr_rsv (self : nn_sws) : outcome (nn_sws * bool) :=
  h0 ← rd (inhdr self) 0;
  if has_bit h0 NN_SWS_FRAME_BITMASK_RSV1 || has_bit h0 NN_SWS_FRAME_BITMASK_RSV2 ||
     has_bit h0 NN_SWS_FRAME_BITMASK_RSV3
  then return_ (nn_sws_fail_conn self NN_SWS_CLOSE_ERR_PROTO "RSV1, RSV2, and RSV3 must be unset.")
  else go_on self.

Definition hdr_mask (self : nn_sws) : outcome (nn_sws * bool) :=
  h0 ← rd (inhdr self) 0; h1 ← rd (inhdr self) 1;
  let self := set_is_final_frame (has_bit h0 NN_SWS_FRAME_BITMASK_FIN) self in
  let self := set_masked (has_bit h1 NN_SWS_FRAME_BITMASK_MASKED) self in
  if mode self =? NN_WS_SERVER then
    if masked self then go_on (set_ext_hdr_len NN_SWS_FRAME_SIZE_MASK self)
    else return_ (nn_sws_fail_conn self NN_SWS_CLOSE_ERR_PROTO "Server expects MASK bit to be set.")
  else if mode self =? NN_WS_CLIENT then
    if masked self
    then return_ (nn_sws_fail_conn self NN_SWS_CLOSE_ERR_PROTO "Client expects MASK bit to be unset.")
    else go_on (set_ext_hdr_len 0 self)
  else Fail Abort.

Definition hdr_opcode (self : nn_sws) : outcome (nn_sws * bool) :=
  h0 ← rd (inhdr self) 0; h1 ← rd (inhdr self) 1;
  let self := set_opcode (Z.land h0 NN_SWS_FRAME_BITMASK_OPCODE) self in
  let self := set_payload_ctl (Z.land h1 NN_SWS_FRAME_BITMASK_LENGTH) self in
  if negb (continuing self) && (opcode self =? NN_WS_OPCODE_FRAGMENT)
  then return_ (nn_sws_fail_conn self NN_SWS_CLOSE_ERR_PROTO "No message to continue.")
  else
    let self := if negb (continuing self) then set_inmsg_hdr (Z.lor h0 NN_SWS_FRAME_BITMASK_FIN) self
                else self in
    if payload_ctl self <=? NN_SWS_PAYLOAD_MAX_LENGTH then
      go_on (set_ext_hdr_len (ext_hdr_len self + NN_SWS_FRAME_SIZE_PAYLOAD_0) self)
    else if payload_ctl self =? NN_SWS_PAYLOAD_FRAME_16 then
      go_on (set_ext_hdr_len (ext_hdr_len self + NN_SWS_FRAME_SIZE_PAYLOAD_16) self)
    else if payload_ctl self =? NN_SWS_PAYLOAD_FRAME_63 then
      go_on (set_ext_hdr_len (ext_hdr_len self + NN_SWS_FRAME_SIZE_PAYLOAD_63) self)
    else Fail Abort.

(** An empty frame of a message without mask: the message is complete, or the
    next frame follows. *)
Definition hdr_empty_data (self : nn_sws) : outcome (nn_sws * bool) :=
  if (ext_hdr_len self =? 0) && (payload_ctl self =? 0) then
    nn_assert (mode self =? NN_WS_CLIENT);;
    let self := set_cur_len 0 self in
    if continuing self then return_ (nn_sws_recv_hdr self)
    else return_ (received self NN_SWS_INSTATE_RECVD_CHUNKED)
  else go_on self.

Definition hdr_data (self : nn_sws) : outcome (nn_sws * bool) :=
  let self := set_is_control_frame false self in
  if continuing self
  then return_ (nn_sws_fail_conn self NN_SWS_CLOSE_ERR_PROTO "Expected continuation frame opcode.")
  else hdr_empty_data (if negb (is_final_frame self) then set_continuing true self else self).

Definition hdr_fragment (self : nn_sws) : outcome (nn_sws * bool) :=
  let self := set_is_control_frame false self in
  hdr_empty_data (set_continuing (negb (is_final_frame self)) self).

(** The cases PING and PONG, after the frame is counted. *)
Definition hdr_ping_pong (self : nn_sws) : outcome (nn_sws * bool) :=
  if NN_SWS_PAYLOAD_MAX_LENGTH <? payload_ctl self
  then return_ (nn_sws_fail_conn self NN_SWS_CLOSE_ERR_PROTO
                  "Control frame payload exceeds allowable length.")
  else if negb (is_final_frame self)
  then return_ (nn_sws_fail_conn self NN_SWS_CLOSE_ERR_PROTO "Cannot fragment control message (FIN=0).")
  else if (ext_hdr_len self =? 0) && (payload_ctl self =? 0)
  then return_ (received (set_cur_len 0 self) NN_SWS_INSTATE_RECVD_CONTROL)
  else go_on self.

Definition hdr_close (self : nn_sws) : outcome (nn_sws * bool) :=
  let self := set_is_control_frame true self in
  if negb (is_final_frame self)
  then return_ (nn_sws_fail_conn self NN_SWS_CLOSE_ERR_PROTO "Cannot fragment control message (FIN=0).")
  else if NN_SWS_PAYLOAD_MAX_LENGTH <? payload_ctl self
  then return_ (nn_sws_fail_conn self NN_SWS_CLOSE_ERR_PROTO
                  "Control frame payload exceeds allowable length.")
  else if payload_ctl self =? 1
  then return_ (nn_sws_fail_conn self NN_SWS_CLOSE_ERR_PROTO "Expected 2byte close code.")
  else if (ext_hdr_len self =? 0) && (payload_ctl self =? 0)
  then return_ (nn_sws_acknowledge_close_handshake (set_cur_len 0 self))
  else go_on self.

Definition hdr_switch (self : nn_sws) : outcome (nn_sws * bool) :=
  if (opcode self =? NN_WS_OPCODE_TEXT) || (opcode self =? NN_WS_OPCODE_BINARY) then hdr_data self
  else if opcode self =? NN_WS_OPCODE_FRAGMENT then hdr_fragment self
  else if opcode self =? NN_WS_OPCODE_PING then
    hdr_ping_pong (set_pings_received (s32 (pings_received self + 1)) (set_is_control_frame true self))
  else if opcode self =? NN_WS_OPCODE_PONG then
    hdr_ping_pong (set_pongs_received (s32 (pongs_received self + 1)) (set_is_control_frame true self))
  else if opcode self =? NN_WS_OPCODE_CLOSE then hdr_close self
  else return_ (nn_sws_fail_conn self NN_SWS_CLOSE_ERR_PROTO "Invalid opcode.").

(** The buffer for a payload of [cur_len] bytes, and the request to receive it. *)
Definition start_payload (self : nn_sws) (toobig : string) : outcome nn_sws :=
  '(self, b) ← (
    if is_control_frame self then go_on (set_cur_buf CP_control self)
    else
      let self := set_total_size (u64 (total_size self + cur_len self)) self in
      let opt := e_rcvmaxsize e in
      if (0 <=? opt) && (u64 opt <? total_size self)
      then return_ (nn_sws_fail_conn self NN_SWS_CLOSE_ERR_TOOBIG toobig)
      else
        let self := set_inmsg_chunks (s32 (inmsg_chunks self + 1)) self in
        self ← nn_msg_chunk_new (cur_len self) self;
        go_on self);
  if b : bool then
    nn_usock_recv RX_cur (cur_len self) (set_instate NN_SWS_INSTATE_RECV_PAYLOAD self)
  else Ret self.

Definition hdr_rest (self : nn_sws) : outcome (nn_sws * bool) :=
  return_ (
    if ext_hdr_len self =? 0 then
      nn_assert (mode self =? NN_WS_CLIENT);;
      nn_assert ((0 <? payload_ctl self) && (payload_ctl self <=? NN_SWS_PAYLOAD_MAX_LENGTH));;
      start_payload (set_cur_len (payload_ctl self) self) "Message larger than application allows."
    else
      nn_usock_recv (RX_hdr (Z.to_nat NN_SWS_FRAME_SIZE_INITIAL)) (ext_hdr_len self)
        (set_instate NN_SWS_INSTATE_RECV_HDREXT self)).

Definition handle_hdr (self : nn_sws) : outcome nn_sws :=
  '(self, _) ←
    and_then (hdr_rsv self) (λ self,
    and_then (hdr_mask self) (λ self,
    and_then (hdr_opcode self) (λ self,
    and_then (hdr_switch self) hdr_rest)));
  Ret self.

(** *** A header: the extended length and the mask *)

(** The length of the payload and the place of the mask in [inhdr]; [None]: the
    length is invalid. *)
Definition hdrext_length (self : nn_sws) : outcome (option nn_sws) :=
  let ext := Z.to_nat NN_SWS_FRAME_SIZE_INITIAL in
  let set_len (len : Z) (size : Z) :=
    set_mask (if masked self then Some (ext + Z.to_nat size)%nat else None) (set_cur_len len self) in
  if payload_ctl self <=? NN_SWS_PAYLOAD_MAX_LENGTH then
    Ret (Some (set_len (payload_ctl self) NN_SWS_FRAME_SIZE_PAYLOAD_0))
  else if payload_ctl self =? NN_SWS_PAYLOAD_FRAME_16 then
    len ← nn_gets (drop ext (inhdr self)); Ret (Some (set_len len NN_SWS_FRAME_SIZE_PAYLOAD_16))
  else if payload_ctl self =? NN_SWS_PAYLOAD_FRAME_63 then
    len ← nn_getll (drop ext (inhdr self)); Ret (Some (set_len len NN_SWS_FRAME_SIZE_PAYLOAD_63))
  else Ret None.

(** A frame without payload. *)
Definition hdrext_empty (self : nn_sws) : outcome nn_sws :=
  if is_final_frame self then
    if opcode self =? NN_WS_OPCODE_CLOSE then nn_sws_acknowledge_close_handshake self
    else
      received self (if is_control_frame self then NN_SWS_INSTATE_RECVD_CONTROL
                     else NN_SWS_INSTATE_RECVD_CHUNKED)
  else nn_sws_recv_hdr self.

Definition handle_hdrext (self : nn_sws) : outcome nn_sws :=
  nn_assert (0 <? ext_hdr_len self);;
  r ← hdrext_length self;
  match r with
  | None => nn_sws_fail_conn self NN_SWS_CLOSE_ERR_PROTO "Invalid payload length."
  | Some self =>
      if cur_len self =? 0 then hdrext_empty self
      else
        nn_assert (0 <? cur_len self);;
        start_payload self "Message size exceeds limit."
  end.

(** *** A payload *)

Definition unmask (self : nn_sws) : outcome nn_sws :=
  if masked self then
    buf ← get_cur self;
    off ← deref (mask self);
    m ← read_at (inhdr self) off (Z.to_nat NN_SWS_FRAME_SIZE_MASK);
    '(buf, _) ← nn_sws_mask_payload buf (cur_len self) m NN_SWS_FRAME_SIZE_MASK None;
    put_cur buf self
  else Ret self.

(** A frame that is not text: the message is complete or goes on. *)
Definition binary_done (self : nn_sws) : outcome nn_sws :=
  if is_final_frame self then received self NN_SWS_INSTATE_RECVD_CHUNKED else nn_sws_recv_hdr self.

Definition handle_payload (self : nn_sws) : outcome nn_sws :=
  self ← unmask self;
  if opcode self =? NN_WS_OPCODE_TEXT then nn_sws_validate_utf8_chunk self
  else if opcode self =? NN_WS_OPCODE_BINARY then binary_done self
  else if opcode self =? NN_WS_OPCODE_FRAGMENT then
    if Z.land (inmsg_hdr self) NN_SWS_FRAME_BITMASK_OPCODE =? NN_WS_OPCODE_TEXT
    then nn_sws_validate_utf8_chunk self
    else binary_done self
  else if (opcode self =? NN_WS_OPCODE_PING) || (opcode self =? NN_WS_OPCODE_PONG) then
    received self NN_SWS_INSTATE_RECVD_CONTROL
  else if opcode self =? NN_WS_OPCODE_CLOSE then nn_sws_acknowledge_close_handshake self
  else Fail Abort.

(** *** The states *)

(** [nn_fsm_raise (&sws->fsm, &sws->done, type)] in the state DONE. *)
Definition raise_done (type : Z) (self : nn_sws) : outcome nn_sws :=
  Ret (call (C_done type) (set_state NN_SWS_STATE_DONE self)).

Definition handle_idle (self : nn_sws) (src type : Z) : outcome nn_sws :=
  if (src =? NN_FSM_ACTION) && (type =? NN_FSM_START) then
    Ret (set_state NN_SWS_STATE_HANDSHAKE (call C_handshake_start self))
  else nn_fsm_bad (state self) src type.

Definition handle_handshake (self : nn_sws) (src type : Z) : outcome nn_sws :=
  if src =? NN_SWS_SRC_HANDSHAKE then
    if type =? NN_WS_HANDSHAKE_OK then
      Ret (set_state NN_SWS_STATE_STOPPING_HANDSHAKE (call C_handshake_stop self))
    else if type =? NN_WS_HANDSHAKE_ERROR then raise_done NN_SWS_RETURN_CLOSE_HANDSHAKE self
    else nn_fsm_bad (state self) src type
  else nn_fsm_bad (state self) src type.

Definition handle_stopping_handshake (self : nn_sws) (src type : Z) : outcome nn_sws :=
  if (src =? NN_SWS_SRC_HANDSHAKE) && (type =? NN_WS_HANDSHAKE_STOPPED) then
    if e_start_rc e <? 0 then raise_done NN_SWS_RETURN_ERROR self
    else
      self ← nn_sws_recv_hdr self;
      Ret (set_state NN_SWS_STATE_ACTIVE (set_outstate NN_SWS_OUTSTATE_IDLE self))
  else nn_fsm_bad (state self) src type.

Definition handle_active (self : nn_sws) (src type : Z) : outcome nn_sws :=
  if src =? NN_SWS_SRC_USOCK then
    if type =? NN_USOCK_SENT then
      nn_assert (outstate self =? NN_SWS_OUTSTATE_SENDING);;
      let self := set_outmsg (VMsg [] [] []) (set_outstate NN_SWS_OUTSTATE_IDLE self) in
      Ret (call C_sent self)
    else if type =? NN_USOCK_RECEIVED then
      if instate self =? NN_SWS_INSTATE_RECV_HDR then handle_hdr self
      else if instate self =? NN_SWS_INSTATE_RECV_HDREXT then handle_hdrext self
      else if instate self =? NN_SWS_INSTATE_RECV_PAYLOAD then handle_payload self
      else nn_fsm_bad (state self) src type
    else if type =? NN_USOCK_SHUTDOWN then
      Ret (set_state NN_SWS_STATE_BROKEN_CONNECTION (call C_stop self))
    else if type =? NN_USOCK_ERROR then raise_done NN_SWS_RETURN_ERROR (call C_stop self)
    else nn_fsm_bad (state self) src type
  else nn_fsm_bad (state self) src type.

Definition handle_closing (self : nn_sws) (src type : Z) : outcome nn_sws :=
  if src =? NN_SWS_SRC_USOCK then
    if type =? NN_USOCK_SENT then
      nn_assert (outstate self =? NN_SWS_OUTSTATE_SENDING);;
      raise_done NN_SWS_RETURN_CLOSE_HANDSHAKE (set_outstate NN_SWS_OUTSTATE_IDLE self)
    else if type =? NN_USOCK_SHUTDOWN then Ret self
    else if type =? NN_USOCK_ERROR then raise_done NN_SWS_RETURN_ERROR self
    else nn_fsm_bad (state self) src type
  else nn_fsm_bad (state self) src type.

Definition handle_broken (self : nn_sws) (src type : Z) : outcome nn_sws :=
  if (src =? NN_SWS_SRC_USOCK) && (type =? NN_USOCK_ERROR) then raise_done NN_SWS_RETURN_ERROR self
  else nn_fsm_bad (state self) src type.

Definition nn_sws_handler (self : nn_sws) (src type : Z) (ptr : srcptr) : outcome nn_sws :=
  if state self =? NN_SWS_STATE_IDLE then handle_idle self src type
  else if state self =? NN_SWS_STATE_HANDSHAKE then handle_handshake self src type
  else if state self =? NN_SWS_STATE_STOPPING_HANDSHAKE then handle_stopping_handshake self src type
  else if state self =? NN_SWS_STATE_ACTIVE then handle_active self src type
  else if state self =? NN_SWS_STATE_CLOSING_CONNECTION then handle_closing self src type
  else if state self =? NN_SWS_STATE_BROKEN_CONNECTION then handle_broken self src type
  else nn_fsm_bad (state self) src type.

Definition nn_sws_shutdown (self : nn_sws) (src type : Z) (ptr : srcptr) : outcome nn_sws :=
  let self :=
    if (src =? NN_FSM_ACTION) && (type =? NN_FSM_STOP)
    then set_state NN_SWS_STATE_STOPPING (call C_handshake_stop (call C_stop self)) else self in
  if state self =? NN_SWS_STATE_STOPPING then
    if e_hs_idle e then
      let self := set_state NN_SWS_STATE_IDLE (set_usock false (call C_swap_owner self)) in
      nn_fsm_stopped fsm (λ s v, set_fsm v s)
        (λ s type, nn_assert (negb (stopped_ev s));; Ret (set_stopped_ev true s)) self NN_SWS_RETURN_STOPPED
    else Ret self
  else nn_fsm_bad (state self) src type.

Definition nn_sws_start (self : nn_sws) (mode0 msgtype0 : Z) : outcome nn_sws :=
  nn_assert (negb (usock self));;
  let self := set_usock true (call C_swap_owner self) in
  let self := set_msg_type msgtype0 (set_mode mode0 self) in
  nn_fsm_start fsm (λ s v, set_fsm v s) stopped_ev nn_sws_handler self.

Definition nn_sws_stop (self : nn_sws) : outcome nn_sws :=
  nn_fsm_stop fsm (λ s v, set_fsm v s) nn_sws_shutdown self.

(** An event of a subordinate object. *)
Definition nn_sws_feed (self : nn_sws) (src type : Z) : outcome nn_sws :=
  nn_fsm_feed fsm nn_sws_handler nn_sws_shutdown self src type P_null.

(** The socket has received [bs] and reports it; the same for sending. *)
Definition usock_received (self : nn_sws) (bs : list Z) : outcome nn_sws :=
  self ← usock_fill bs self; nn_sws_feed self NN_SWS_SRC_USOCK NN_USOCK_RECEIVED.
Definition usock_sent (self : nn_sws) : outcome nn_sws :=
  _ ← deref (tx self); nn_sws_feed (set_tx None self) NN_SWS_SRC_USOCK NN_USOCK_SENT.

End code.
