(* ===== verification/SwsSafe.v ===== *)
(** * WebSocket connections: what a peer can do

    A connection in the state ACTIVE is well formed at every event: the request
    to the socket fits the buffer it is for, the chunks add up to the size of the
    message, and the stored opcodes are the ones the user's calls expect.  So no
    sequence of bytes makes the object access memory out of bounds.  It can abort
    in two places only: for want of memory, and on a code point whose fourth
    byte is in another frame than the first three. *)
From Stdlib Require Import String.
From S2P Require Import Prelude Wire Chunk Msg Fsm Utf8 Cmsg WsState Sws.

Ltac ssimpl := unfold call in *; sws_simpl.

(** ** Surroundings *)

Record env_ok (e : ws_env) : Prop := {
  env_alloc n : e_alloc e n = true → n < 2 ^ 63;
  env_junk i : is_byte (e_junk e i);
  env_max : 0 ≤ e_rcvmaxsize e < 2 ^ 31;
  env_rand : length (e_rand e) = 4%nat;
  env_rand_bytes : bytes (e_rand e);
}.

(** A request for memory that fails. *)
Definition oom (e : ws_env) (size : Z) : Prop := no_memory (e_alloc e) size.

Section buffers.
Context (e : ws_env) (He : env_ok e).

Lemma bytes_junk n m : bytes (e_junk e <$> seq n m).
Proof. apply Forall_fmap, Forall_forall. intros i _. apply (env_junk _ He). Qed.

Lemma chunk_data_ok size : 0 ≤ size < 2 ^ 64 →
  (∃ l, chunk_data e size = Ret l ∧ Z.of_nat (length l) = size ∧ bytes l ∧ size < 2 ^ 63) ∨
  (chunk_data e size = Fail Abort ∧ oom e size).
Proof. intros Hs. apply msg_data_ok; [apply (env_alloc _ He)|apply (env_junk _ He)|done]. Qed.

(** ** Buffers *)

Lemma write_at_len m o bs : (o + length bs ≤ length m)%nat →
  ∃ m', write_at m o bs = Ret m' ∧ length m' = length m ∧ (bytes m → bytes bs → bytes m').
Proof.
  intros Hl. unfold write_at. rewrite decide_True by done. eexists. split; [done|]. split.
  - rewrite !length_app, length_take, length_drop. lia.
  - intros. auto with nano.
Qed.

Lemma read_at_len m o n : (o + n ≤ length m)%nat →
  ∃ l, read_at m o n = Ret l ∧ length l = n ∧ (bytes m → bytes l).
Proof.
  intros Hl. unfold read_at. rewrite decide_True by done. eexists. split; [done|]. split.
  - rewrite length_take, length_drop. lia.
  - intros. auto with nano.
Qed.

Lemma wr_len m i v : (i < length m)%nat →
  ∃ m', wr m i v = Ret m' ∧ length m' = length m ∧ (bytes m → is_byte v → bytes m').
Proof.
  intros Hl. unfold wr. rewrite decide_True by done. eexists. split; [done|].
  rewrite length_insert. split; [done|]. intros. by apply Forall_insert.
Qed.

Lemma rd_lt m i : (i < length m)%nat → ∃ b, rd m i = Ret b ∧ m !! i = Some b ∧ (bytes m → is_byte b).
Proof.
  intros [b Hb]%lookup_lt_is_Some. exists b. unfold rd. rewrite Hb. split_and!; [done|done|].
  intros Hm. by eapply Forall_lookup_1.
Qed.

Lemma puts_at_len m o v : (o + 2 ≤ length m)%nat →
  ∃ m', puts_at m o v = Ret m' ∧ length m' = length m ∧ (bytes m → bytes m').
Proof.
  intros Hl. unfold puts_at, nn_puts.
  destruct (wr_len (drop o m) 0 (u8 (Z.land (Z.shiftr v 8) 255))) as (m1 & -> & H1 & B1); [rewrite length_drop; lia|].
  step. rewrite length_drop in H1.
  destruct (wr_len m1 1 (u8 (Z.land v 255))) as (m2 & -> & H2 & B2); [lia|].
  step. eexists. split; [done|]. rewrite length_app, length_take. split; [lia|].
  auto 10 with nano.
Qed.

Lemma lxor_byte a b : is_byte a → is_byte b → is_byte (Z.lxor a b).
Proof.
  unfold is_byte. intros Ha Hb.
  assert (0 ≤ Z.lxor a b) by (apply Z.lxor_nonneg; lia). split; [done|].
  destruct (decide (Z.lxor a b = 0)); [lia|]. change 256 with (2 ^ 8). apply Z.log2_lt_pow2; [lia|].
  apply Z.le_lt_trans with (Z.max (Z.log2 a) (Z.log2 b)); [apply Z.log2_lxor; lia|].
  apply Z.max_lub_lt; (destruct (decide (a = 0)) as [->|], (decide (b = 0)) as [->|]; cbn; try lia);
    apply Z.log2_lt_pow2; lia.
Qed.

Lemma lor_byte a b : is_byte a → is_byte b → is_byte (Z.lor a b).
Proof.
  assert (∀ x, is_byte x ↔ Z.land x 255 = x) as Hx.
  { intros x. rewrite land_ff. unfold is_byte. pose proof (Z.mod_pos_bound x 256). split; [|lia].
    intros. apply Z.mod_small. lia. }
  rewrite !Hx. intros <- <-. rewrite Z.land_lor_distr_l, <- !Z.land_assoc. done.
Qed.

Lemma mask_loop_ok m start i payload :
  length m = 4%nat → bytes m → bytes payload →
  ∃ l, mask_loop m 4 start i payload = Ret l ∧ length l = length payload ∧ bytes l.
Proof.
  intros Hm Bm. revert i. induction payload as [|b payload IH]; intros i Hp; cbn [mask_loop].
  - by exists [].
  - apply Forall_cons in Hp as [Hb Hp].
    destruct (rd_lt m (Z.to_nat (u32 (i + start) mod 4))) as (x & -> & _ & Bx).
    { rewrite Hm. pose proof (Z.mod_pos_bound (u32 (i + start)) 4). lia. }
    step. destruct (IH (i + 1) Hp) as (l & -> & Hl & Bl). step. eexists. split; [done|].
    cbn. split; [by rewrite Hl|]. constructor; [by apply lxor_byte; [|apply Bx]|done].
Qed.

Lemma mask_payload_ok buf len m start :
  length m = 4%nat → bytes m → bytes buf → 0 ≤ len ≤ Z.of_nat (length buf) → len < 2 ^ 32 →
  ∃ buf' pos, nn_sws_mask_payload buf len m 4 start = Ret (buf', pos) ∧
    length buf' = length buf ∧ bytes buf'.
Proof.
  intros Hm Bm Bb Hl Hlt. unfold nn_sws_mask_payload.
  rewrite (proj2 (Z.leb_gt _ _)) by lia.
  destruct (read_at_len buf 0 (Z.to_nat len)) as (p & -> & Hp & Bp); [lia|]. step.
  destruct (mask_loop_ok m (default 0 start) 0 p) as (p' & -> & Hp' & Bp'); [done|done|by apply Bp|]. step.
  destruct (write_at_len buf 0 p') as (b & -> & Hb & Bb'); [lia|]. step.
  eexists _, _. split; [done|]. split; [done|by apply Bb'].
Qed.

End buffers.

(** ** Calls that return with [Q], or abort for the reason [X] *)

Definition wpx (X : Prop) {A} (m : outcome A) (Q : A → Prop) : Prop :=
  match m with Ret a => Q a | Fail Abort => X | Fail _ => False end.

Lemma wpx_bind X {A B} (m : outcome A) (k : A → outcome B) Q :
  wpx X m (λ a, wpx X (k a) Q) → wpx X (m ≫= k) Q.
Proof. by destruct m. Qed.

Lemma wpx_mono X Y {A} (m : outcome A) (P Q : A → Prop) :
  wpx X m P → (X → Y) → (∀ a, P a → Q a) → wpx Y m Q.
Proof. destruct m as [a|[]]; cbn; auto. Qed.

Lemma wpx_Ret X {A} (m : outcome A) a Q : m = Ret a → Q a → wpx X m Q.
Proof. by intros ->. Qed.

(** ** Well-formed connections *)

(** The first byte of a message of text or of binary data, with FIN. *)
Definition data_hdr (s : nn_sws) : Prop := inmsg_hdr s = 0x81 ∨ inmsg_hdr s = 0x82.

Record conn (s : nn_sws) : Prop := {
  c_state : state s = NN_SWS_STATE_ACTIVE;
  c_fsm : fsm s = NN_FSM_STATE_ACTIVE;
  c_mode : mode s = NN_WS_CLIENT ∨ mode s = NN_WS_SERVER;
  c_fail : length (fail_msg s) = 125%nat ∧ bytes (fail_msg s);
  c_out : (outstate s = NN_SWS_OUTSTATE_IDLE ∧ tx s = None) ∨
          (outstate s = NN_SWS_OUTSTATE_SENDING ∧ tx s ≠ None);
}.

Record memory (s : nn_sws) : Prop := {
  m_inhdr : length (inhdr s) = 14%nat ∧ bytes (inhdr s);
  m_control : length (inmsg_control s) = 125%nat ∧ bytes (inmsg_control s);
  m_frag : length (utf8_frag s) = 4%nat ∧ bytes (utf8_frag s);
  m_array : Forall bytes (inmsg_array s);
  m_total : total_size s = Z.of_nat (length (concat (inmsg_array s)));
  m_max : total_size s < 2 ^ 31;
}.

(** Between two frames. *)
Definition between (s : nn_sws) : Prop :=
  (continuing s = false → inmsg_array s = []) ∧ (continuing s = true → data_hdr s).

(** The parsed header of a frame. *)
Definition frame_ok (s : nn_sws) : Prop :=
  masked s = (mode s =? NN_WS_SERVER) ∧ 0 ≤ payload_ctl s < 128 ∧
  if is_control_frame s then
    is_final_frame s = true ∧ payload_ctl s ≤ 125 ∧ between s ∧
    (opcode s = 8 ∧ payload_ctl s ≠ 1 ∨
     (opcode s = 9 ∨ opcode s = 10) ∧ inhdr s !! 0%nat = Some (0x80 + opcode s))
  else
    (opcode s = 0 ∨ opcode s = 1 ∨ opcode s = 2) ∧ data_hdr s ∧ continuing s = negb (is_final_frame s).

Definition ext_size (ctl : Z) : Z := if ctl <=? 125 then 0 else if ctl =? 126 then 2 else 8.
Definition mask_size (masked : bool) : Z := if masked then 4 else 0.

(** What the object waits for. *)
Definition in_hdr (s : nn_sws) : Prop :=
  instate s = NN_SWS_INSTATE_RECV_HDR ∧ rx s = Some (RX_hdr 0, 2) ∧ between s.
Definition in_hdrext (s : nn_sws) : Prop :=
  instate s = NN_SWS_INSTATE_RECV_HDREXT ∧ rx s = Some (RX_hdr 2, ext_hdr_len s) ∧ frame_ok s ∧
  0 < ext_hdr_len s ∧ ext_hdr_len s = mask_size (masked s) + ext_size (payload_ctl s).
Definition in_payload (s : nn_sws) : Prop :=
  instate s = NN_SWS_INSTATE_RECV_PAYLOAD ∧ rx s = Some (RX_cur, cur_len s) ∧ frame_ok s ∧ 0 < cur_len s ∧
  (masked s = true → ∃ off, mask s = Some off ∧ (off + 4 ≤ 14)%nat) ∧
  if is_control_frame s then cur_buf s = CP_control ∧ cur_len s ≤ 125 ∧ (opcode s = 8 → 2 ≤ cur_len s)
  else cur_buf s = CP_array ∧ ∃ d, last (inmsg_array s) = Some d ∧ Z.of_nat (length d) = cur_len s.
Definition in_message (s : nn_sws) : Prop :=
  instate s = NN_SWS_INSTATE_RECVD_CHUNKED ∧ rx s = None ∧ is_final_frame s = true ∧ data_hdr s.
Definition in_control (s : nn_sws) : Prop :=
  instate s = NN_SWS_INSTATE_RECVD_CONTROL ∧ rx s = None ∧ is_final_frame s = true ∧ between s ∧
  0 ≤ cur_len s ≤ 125 ∧ (inhdr s !! 0%nat = Some 0x89 ∨ inhdr s !! 0%nat = Some 0x8A).

Definition inbound (s : nn_sws) : Prop :=
  in_hdr s ∨ in_hdrext s ∨ in_payload s ∨ in_message s ∨ in_control s.

Definition active_ok (s : nn_sws) : Prop := conn s ∧ memory s ∧ 0 ≤ utf8_len s ≤ 3 ∧ inbound s.

(** The connection is being closed: the closing frame is on its way, the peer has
    gone, or the owner has been told to stop the object. *)
Definition closed (s : nn_sws) : Prop :=
  fsm s = NN_FSM_STATE_ACTIVE ∧
  (state s = NN_SWS_STATE_CLOSING_CONNECTION ∧ outstate s = NN_SWS_OUTSTATE_SENDING ∧ tx s ≠ None ∨
   state s = NN_SWS_STATE_BROKEN_CONNECTION ∨ state s = NN_SWS_STATE_DONE).

Definition sws_ok (s : nn_sws) : Prop := active_ok s ∨ closed s.

(** ** Failing and receiving the next header *)

Section ops.
Context (e : ws_env) (He : env_ok e).

Lemma array_term_ok s : ∃ s', nn_msg_array_term s = Ret s' ∧ s' = set_inmsg_array [] s.
Proof.
  unfold nn_msg_array_term.
  destruct (while_ok (λ s', set_inmsg_array [] s' = set_inmsg_array [] s)
    (λ s', length (inmsg_array s')) (λ s' _, s' = set_inmsg_array [] s) array_term_body) with
    (S (length (inmsg_array s))) s as (s' & r & -> & Hs'); [|done|lia|step; eauto].
  intros s' Hs'. unfold array_term_body, nn_msg_chunk_term.
  destruct (inmsg_array s') as [|c l] eqn:El.
  - eexists _, _. split; [done|]. rewrite <- Hs'. destruct s'. cbn in El. by subst.
  - eexists _, _. split; [done|]. split; [|cbn; lia]. rewrite <- Hs'. by destruct s'.
Qed.

Lemma close_frame_ok s code reason :
  conn s → (length reason ≤ 110)%nat → bytes reason →
  ∃ m len, close_frame e s code reason = Ret (m, len) ∧ length m = 125%nat ∧ bytes m.
Proof.
  intros [_ _ Hmode [Hf Bf] _] Hr Br. unfold close_frame, NN_SWS_PAYLOAD_MAX_LENGTH, NN_SWS_CLOSE_CODE_LEN,
    NN_SWS_FRAME_SIZE_INITIAL, NN_SWS_FRAME_SIZE_MASK.
  rewrite (proj2 (Z.leb_le _ _)) by lia. step.
  destruct (wr_len (fail_msg s) 0 (Z.lor NN_SWS_FRAME_BITMASK_FIN NN_WS_OPCODE_CLOSE)) as (m1 & -> & L1 & B1); [lia|].
  step. destruct (wr_len m1 1 (u8 (Z.of_nat (length reason) + 2))) as (m2 & -> & L2 & B2); [lia|].
  assert (bytes m2) as Bm2 by (apply B2, is_byte_u8; apply B1; [done|cbv; split; congruence]).
  step. destruct (rd_lt m2 1) as (b1 & -> & Hb1 & Bb1); [lia|]. specialize (Bb1 Bm2). step.
  destruct Hmode as [-> | ->].
  - change (NN_WS_CLIENT =? NN_WS_SERVER) with false. change (NN_WS_CLIENT =? NN_WS_CLIENT) with true. cbv iota.
    destruct (wr_len m2 1 (Z.lor b1 NN_SWS_FRAME_BITMASK_MASKED)) as (m3 & -> & L3 & B3); [lia|]. step.
    destruct (write_at_len m3 (Z.to_nat 2) (e_rand e)) as (m4 & -> & L4 & B4); [rewrite (env_rand _ He); lia|].
    step. change (Z.to_nat (2 + 4)) with 6%nat.
    destruct (puts_at_len m4 6 (u16 code)) as (m5 & -> & L5 & B5); [lia|]. step.
    destruct (write_at_len m5 (6 + Z.to_nat 2) reason) as (m6 & -> & L6 & B6); [lia|]. step.
    assert (bytes m6) as Bm6.
    { apply B6; [|done]. apply B5, B4; [|apply (env_rand_bytes _ He)].
      apply B3; [done|]. apply lor_byte; [done|cbv; split; congruence]. }
    destruct (mask_payload_ok (drop 6 m6) (Z.of_nat (length reason) + 2) (e_rand e) None) as (p & pos & -> & Lp & Bp);
      [apply (env_rand _ He)|apply (env_rand_bytes _ He)|by apply Forall_drop|rewrite length_drop; lia|lia|].
    step. eexists _, _. split; [done|]. rewrite length_app, Lp, length_take, length_drop. split; [lia|].
    apply bytes_app; [by apply Forall_take|done].
  - change (NN_WS_SERVER =? NN_WS_SERVER) with true. change (NN_WS_SERVER =? NN_WS_CLIENT) with false. cbv iota.
    destruct (wr_len m2 1 (Z.lor b1 NN_SWS_FRAME_BITMASK_NOT_MASKED)) as (m3 & -> & L3 & B3); [lia|]. step.
    change (Z.to_nat 2) with 2%nat.
    destruct (puts_at_len m3 2 (u16 code)) as (m5 & -> & L5 & B5); [lia|]. step.
    destruct (write_at_len m5 (2 + 2) reason) as (m6 & -> & L6 & B6); [lia|]. step.
    eexists _, _. split; [done|]. split; [lia|]. apply B6; [|done]. apply B5, B3; [done|].
    apply lor_byte; [done|cbv; split; congruence].
Qed.

Lemma str_bytes s : bytes (str s).
Proof.
  apply Forall_fmap, Forall_forall. intros a _. cbn. unfold is_byte.
  pose proof (Ascii.N_ascii_bounded a). lia.
Qed.

Lemma fail_conn_ok s code reason :
  conn s → (length (str reason) ≤ 110)%nat →
  ∃ s', nn_sws_fail_conn e s code reason = Ret s' ∧ closed s'.
Proof.
  intros Hc Hr. pose proof Hc as [Hst Hfsm _ _ Hout]. unfold nn_sws_fail_conn. rewrite Hst. step.
  change (NN_SWS_STATE_ACTIVE =? NN_SWS_STATE_ACTIVE) with true. step.
  destruct (array_term_ok (call C_stop (set_instate NN_SWS_INSTATE_CLOSED s))) as (s1 & -> & ->). step.
  edestruct (close_frame_ok (set_inmsg_array [] (call C_stop (set_instate NN_SWS_INSTATE_CLOSED s))) code (str reason))
    as (m & len & -> & _); [|done|apply str_bytes|].
  { destruct Hc. by constructor. }
  step. ssimpl. destruct Hout as [[-> Htx]|[-> Htx]]; cbn [Z.eqb].
  - unfold nn_usock_send. ssimpl. rewrite bool_decide_eq_true_2 by done. step.
    eexists. split; [done|]. split; [done|]. left. done.
  - eexists. split; [done|]. split; [done|]. right. by right.
Qed.

Lemma recv_hdr_ok s :
  conn s → memory s → 0 ≤ utf8_len s ≤ 3 → between s → rx s = None →
  ∃ s', nn_sws_recv_hdr s = Ret s' ∧ active_ok s'.
Proof.
  intros Hc Hm Hu [Hb1 Hb2] Hrx. unfold nn_sws_recv_hdr.
  assert (∀ s1, conn s1 → rx s1 = None → utf8_len s1 = utf8_len s → utf8_frag s1 = utf8_frag s →
    inmsg_array s1 = inmsg_array s → total_size s1 = Z.of_nat (length (concat (inmsg_array s))) →
    inmsg_hdr s1 = inmsg_hdr s → continuing s1 = continuing s → ∃ s', nn_usock_recv (RX_hdr 0) NN_SWS_FRAME_SIZE_INITIAL
      (set_instate NN_SWS_INSTATE_RECV_HDR (set_inhdr (replicate NN_SWS_FRAME_MAX_HDR_LEN 0)
        (set_inmsg_control (replicate 125 0) s1))) = Ret s' ∧ active_ok s') as Hs1.
  { intros s1 Hc1 Hrx1 E1 E2 E3 E4 E5 E6. unfold nn_usock_recv. ssimpl. rewrite Hrx1, bool_decide_eq_true_2 by done.
    step. eexists. split; [done|]. destruct Hm. split_and!.
    - destruct Hc1. by constructor.
    - constructor; ssimpl; rewrite ?E2, ?E3, ?E4; try done.
      + split; [done|]. apply Forall_replicate. cbv. split; congruence.
      + split; [done|]. apply Forall_replicate. cbv. split; congruence.
      + by rewrite <- m_total0.
    - ssimpl. lia.
    - ssimpl. lia.
    - left. split_and!; [done|done|]. unfold between, data_hdr. ssimpl. by rewrite E3, E5, E6. }
  destruct (continuing s) eqn:Econt; cbn [negb].
  - apply Hs1; try done. apply (m_total _ Hm).
  - rewrite Hb1, bool_decide_eq_true_2 by done. step. apply Hs1; ssimpl; try done.
    + destruct Hc. by constructor.
    + by rewrite Hb1.
Qed.

(** What does not change when the next header is asked for. *)
Definition next_hdr (s s' : nn_sws) : Prop :=
  instate s' = NN_SWS_INSTATE_RECV_HDR ∧ rx s' = Some (RX_hdr 0, 2) ∧
  mode s' = mode s ∧ utf8_len s' = utf8_len s ∧ continuing s' = continuing s ∧
  inmsg_array s' = inmsg_array s ∧ inmsg_hdr s' = inmsg_hdr s.

Lemma recv_hdr_next s s' : nn_sws_recv_hdr s = Ret s' → next_hdr s s'.
Proof.
  unfold nn_sws_recv_hdr, nn_usock_recv. destruct (continuing s) eqn:Ec; cbn [negb]; intros H; inv_ret;
    split_and!; ssimpl; done.
Qed.

(** *** Blocks of the handler *)

Definition goes_on (P : nn_sws → Prop) (r : nn_sws * bool) : Prop := if r.2 then P r.1 else sws_ok r.1.

Lemma and_then_ok X m k P Q :
  wpx X m (goes_on P) → (∀ s, P s → wpx X (k s) (goes_on Q)) → wpx X (and_then m k) (goes_on Q).
Proof. unfold and_then. destruct m as [[s []]|[]]; cbn; auto. Qed.

Lemma return_fail s code reason P :
  conn s → (length (str reason) ≤ 110)%nat →
  wpx False (return_ (nn_sws_fail_conn e s code reason)) (goes_on P).
Proof.
  intros Hc Hr. destruct (fail_conn_ok s code reason Hc Hr) as (s' & -> & Hs'). cbn. by right.
Qed.

Lemma return_hdr s P :
  conn s → memory s → 0 ≤ utf8_len s ≤ 3 → between s → rx s = None →
  wpx False (return_ (nn_sws_recv_hdr s)) (goes_on P).
Proof.
  intros Hc Hm Hu Hb Hr. destruct (recv_hdr_ok s Hc Hm Hu Hb Hr) as (s' & -> & Hs'). cbn. by left.
Qed.

(** A header [h0 h1] is being parsed; [t] is the size of the message so far. *)
Record parsing (h0 h1 t : Z) (s : nn_sws) : Prop := {
  p_conn : conn s;
  p_mem : memory s;
  p_len : 0 ≤ utf8_len s ≤ 3;
  p_rx : rx s = None;
  p_h0 : inhdr s !! 0%nat = Some h0;
  p_h1 : inhdr s !! 1%nat = Some h1;
  p_total : total_size s = t;
}.

Lemma parsing_rd h0 h1 t s : parsing h0 h1 t s → rd (inhdr s) 0 = Ret h0 ∧ rd (inhdr s) 1 = Ret h1.
Proof. intros [_ _ _ _ H0 H1 _]. unfold rd. by rewrite H0, H1. Qed.

Lemma parsing_byte h0 h1 t s : parsing h0 h1 t s → is_byte h0 ∧ is_byte h1.
Proof. intros [? [[_ Hb]] _ _ H0 H1 _]. split; by eapply Forall_lookup_1. Qed.

(** What these predicates look at; setters of other fields leave it alone. *)
Definition view (s : nn_sws) :=
  (state s, fsm s, mode s, fail_msg s, outstate s, tx s,
   (inhdr s, inmsg_control s, utf8_frag s, inmsg_array s, total_size s), (utf8_len s, rx s)).

Lemma conn_same s s' : view s' = view s → conn s → conn s'.
Proof. intros [= E1 E2 E3 E4 E5 E6 _ _ _ _ _ _ _] []. constructor; congruence. Qed.

Lemma memory_same s s' : view s' = view s → memory s → memory s'.
Proof. intros [= _ _ _ _ _ _ E1 E2 E3 E4 E5 _ _] []. constructor; congruence. Qed.

Lemma parsing_same h0 h1 t s s' : view s' = view s → parsing h0 h1 t s → parsing h0 h1 t s'.
Proof.
  intros Hv [Hc Hm ?????]. pose proof (conn_same _ _ Hv Hc). pose proof (memory_same _ _ Hv Hm).
  injection Hv as _ _ _ _ _ _ E1 _ _ _ E4 E2 E3. constructor; congruence.
Qed.

Definition rsv0 (h0 : Z) : Prop := has_bit h0 0x40 = false ∧ has_bit h0 0x20 = false ∧ has_bit h0 0x10 = false.

Definition stage1 (h0 h1 t : Z) (s : nn_sws) : Prop := parsing h0 h1 t s ∧ between s ∧ rsv0 h0.

Definition stage2 (h0 h1 t : Z) (s : nn_sws) : Prop :=
  stage1 h0 h1 t s ∧ masked s = (mode s =? NN_WS_SERVER) ∧ is_final_frame s = has_bit h0 0x80 ∧
  ext_hdr_len s = mask_size (masked s).

Definition stage3 (h0 h1 t : Z) (s : nn_sws) : Prop :=
  parsing h0 h1 t s ∧ rsv0 h0 ∧ masked s = (mode s =? NN_WS_SERVER) ∧ is_final_frame s = has_bit h0 0x80 ∧
  opcode s = Z.land h0 15 ∧ payload_ctl s = Z.land h1 127 ∧
  ext_hdr_len s = mask_size (masked s) + ext_size (payload_ctl s) ∧
  (continuing s = false → inmsg_array s = [] ∧ inmsg_hdr s = Z.lor h0 0x80 ∧ opcode s ≠ 0) ∧
  (continuing s = true → data_hdr s).

Definition stage4 (h0 h1 t : Z) (s : nn_sws) : Prop :=
  parsing h0 h1 t s ∧ frame_ok s ∧ ext_hdr_len s = mask_size (masked s) + ext_size (payload_ctl s) ∧
  (ext_hdr_len s = 0 → payload_ctl s ≠ 0).

Lemma hdr_rsv_ok h0 h1 t s :
  parsing h0 h1 t s → between s → wpx False (hdr_rsv e s) (goes_on (stage1 h0 h1 t)).
Proof.
  intros Hp Hb. unfold hdr_rsv. rewrite (proj1 (parsing_rd _ _ _ _ Hp)). step.
  destruct (_ || _ || _) eqn:E.
  - apply return_fail; [by destruct Hp|vm_compute; lia].
  - apply orb_false_iff in E as [[??]%orb_false_iff ?]. by split.
Qed.

Lemma hdr_mask_ok h0 h1 t s :
  stage1 h0 h1 t s → wpx False (hdr_mask e s) (goes_on (stage2 h0 h1 t)).
Proof.
  intros (Hp & Hb & H0). unfold hdr_mask. destruct (parsing_rd _ _ _ _ Hp) as [-> ->]. step. ssimpl.
  pose proof (c_mode _ (p_conn _ _ _ _ Hp)) as Hm.
  destruct (mode s =? NN_WS_SERVER) eqn:Es; [|destruct (mode s =? NN_WS_CLIENT) eqn:Ec].
  - destruct (has_bit h1 _) eqn:Eb.
    + cbn. split; [split; [|by split]|].
      * by apply (parsing_same _ _ _ s).
      * ssimpl. by rewrite Es.
    + apply return_fail; [|vm_compute; lia]. apply (conn_same s); [done|by destruct Hp].
  - destruct (has_bit h1 _) eqn:Eb.
    + apply return_fail; [|vm_compute; lia]. apply (conn_same s); [done|by destruct Hp].
    + cbn. split; [split; [|by split]|].
      * by apply (parsing_same _ _ _ s).
      * ssimpl. by rewrite Es.
  - exfalso. destruct Hm as [Hm|Hm]; rewrite Hm in *; done.
Qed.

Lemma land_127 h : 0 ≤ Z.land h 127 < 128.
Proof. change 127 with (Z.ones 7). rewrite Z.land_ones by lia. apply Z.mod_pos_bound. lia. Qed.

Lemma hdr_opcode_ok h0 h1 t s :
  stage2 h0 h1 t s → wpx False (hdr_opcode e s) (goes_on (stage3 h0 h1 t)).
Proof.
  intros ((Hp & Hb & H0) & Hmask & Hfin & Hext). unfold hdr_opcode.
  destruct (parsing_rd _ _ _ _ Hp) as [-> ->]. step. ssimpl.
  destruct (negb (continuing s) && (Z.land h0 NN_SWS_FRAME_BITMASK_OPCODE =? NN_WS_OPCODE_FRAGMENT)) eqn:E.
  { apply return_fail; [|vm_compute; lia]. apply (conn_same s); [done|by destruct Hp]. }
  set (s1 := if negb (continuing s) then _ else _).
  assert (stage3 h0 h1 t (set_ext_hdr_len (mask_size (masked s) + ext_size (Z.land h1 127)) s1)) as H3.
  { subst s1. destruct Hb as [Hb1 Hb2].
    destruct (continuing s) eqn:Ec; cbn [negb andb] in *; split_and!; ssimpl; try done;
      try (by apply (parsing_same _ _ _ s)); unfold data_hdr in *; ssimpl; rewrite Ec; try done.
    intros _. split_and!; [by apply Hb1|done|]. by apply Z.eqb_neq in E. }
  assert (ext_hdr_len s1 = mask_size (masked s) ∧ payload_ctl s1 = Z.land h1 127) as [-> ->]
    by (subst s1; destruct (continuing s); done).
  pose proof (land_127 h1). unfold ext_size in H3.
  unfold NN_SWS_PAYLOAD_MAX_LENGTH, NN_SWS_PAYLOAD_FRAME_16, NN_SWS_PAYLOAD_FRAME_63,
    NN_SWS_FRAME_SIZE_PAYLOAD_0, NN_SWS_FRAME_SIZE_PAYLOAD_16, NN_SWS_FRAME_SIZE_PAYLOAD_63.
  destruct (Z.leb_spec (Z.land h1 127) 125); [done|].
  destruct (Z.eqb_spec (Z.land h1 127) 0x7E); [done|].
  destruct (Z.eqb_spec (Z.land h1 127) 0x7F); [done|lia].
Qed.

Lemma first_byte h0 : is_byte h0 → rsv0 h0 →
  h0 = (if has_bit h0 0x80 then 0x80 else 0) + Z.land h0 15 ∧ Z.lor h0 0x80 = 0x80 + Z.land h0 15.
Proof.
  intros Hb [H1 [H2 H3]]. unfold is_byte in Hb.
  assert (forallb (λ n, let h := Z.of_nat n in
    has_bit h 0x40 || has_bit h 0x20 || has_bit h 0x10 ||
    ((h =? (if has_bit h 0x80 then 0x80 else 0) + Z.land h 15) && (Z.lor h 0x80 =? 0x80 + Z.land h 15)))
    (seq 0 256) = true) as Hall by (vm_compute; reflexivity).
  rewrite forallb_forall in Hall. specialize (Hall (Z.to_nat h0)). cbn zeta in Hall.
  rewrite Z2Nat.id in Hall by lia. rewrite H1, H2, H3 in Hall. cbn [orb] in Hall.
  assert (In (Z.to_nat h0) (seq 0 256)) as Hin by (apply in_seq; lia).
  apply Hall in Hin. apply andb_true_iff in Hin as [?%Z.eqb_eq ?%Z.eqb_eq]. done.
Qed.

Lemma mode_client s : conn s → mask_size (mode s =? NN_WS_SERVER) = 0 → mode s = NN_WS_CLIENT.
Proof. intros [_ _ [Hm|Hm] _ _]; rewrite Hm; done. Qed.

Lemma ext_size_pos c : 0 ≤ ext_size c.
Proof. unfold ext_size. repeat case_match; lia. Qed.

Lemma mask_size_pos m : 0 ≤ mask_size m.
Proof. by destruct m. Qed.

Lemma hdr_empty_data_ok h0 h1 t s :
  parsing h0 h1 t s → frame_ok s → is_control_frame s = false →
  ext_hdr_len s = mask_size (masked s) + ext_size (payload_ctl s) →
  wpx False (hdr_empty_data s) (goes_on (stage4 h0 h1 t)).
Proof.
  intros Hp Hf Hctl Hext. unfold hdr_empty_data.
  destruct ((ext_hdr_len s =? 0) && (payload_ctl s =? 0)) eqn:E.
  - apply andb_true_iff in E as [E0%Z.eqb_eq E1%Z.eqb_eq]. pose proof Hf as (Hm & _ & Hf'). rewrite Hctl in Hf'.
    destruct Hf' as (Hop & Hd & Hc). pose proof (ext_size_pos (payload_ctl s)). pose proof (mask_size_pos (masked s)).
    rewrite (mode_client s); [|by destruct Hp|rewrite <- Hm; lia].
    change (NN_WS_CLIENT =? NN_WS_CLIENT) with true. step. ssimpl.
    destruct (continuing s) eqn:Ec.
    + destruct Hp. apply return_hdr; ssimpl; try done.
      * by apply (conn_same s).
      * by apply (memory_same s).
      * split; unfold data_hdr in *; ssimpl; [congruence|done].
    + cbn. left. destruct Hp. split_and!; ssimpl; [by apply (conn_same s)|by apply (memory_same s)|lia|lia|].
      right. right. right. left. unfold in_message, data_hdr. ssimpl.
      split_and!; try done. by destruct (is_final_frame s).
  - cbn. split_and!; try done. intros E0 E1. by rewrite E0, E1 in E.
Qed.

Lemma hdr_data_ok h0 h1 t s :
  stage3 h0 h1 t s → opcode s = 1 ∨ opcode s = 2 → wpx False (hdr_data e s) (goes_on (stage4 h0 h1 t)).
Proof.
  intros (Hp & H0 & Hm & Hfin & Hop & Hctl & Hext & Hc1 & Hc2) Hops. unfold hdr_data. ssimpl.
  destruct (continuing s) eqn:Ec.
  { apply return_fail; [|vm_compute; lia]. apply (conn_same s); [done|by destruct Hp]. }
  destruct (Hc1 eq_refl) as (Harr & Hh & Hne).
  destruct (first_byte h0) as [_ Hlor]; [by destruct (parsing_byte _ _ _ _ Hp)|done|].
  assert (inmsg_hdr s = 0x81 ∨ inmsg_hdr s = 0x82) as Hd by (rewrite Hh, Hlor, <- Hop; lia).
  pose proof (land_127 h1).
  destruct (is_final_frame s) eqn:Ef; cbn [negb]; apply hdr_empty_data_ok; ssimpl; try done;
    try (by apply (parsing_same _ _ _ s));
    unfold frame_ok, data_hdr; ssimpl; rewrite Ef; (split_and!; [done|lia|lia|lia|done|done]).
Qed.

Lemma hdr_fragment_ok h0 h1 t s :
  stage3 h0 h1 t s → opcode s = 0 → wpx False (hdr_fragment s) (goes_on (stage4 h0 h1 t)).
Proof.
  intros (Hp & H0 & Hm & Hfin & Hop & Hctl & Hext & Hc1 & Hc2) Hops. unfold hdr_fragment.
  destruct (continuing s) eqn:Ec; [|by destruct (Hc1 eq_refl) as (_ & _ & ?)].
  pose proof (land_127 h1). specialize (Hc2 eq_refl).
  apply hdr_empty_data_ok; ssimpl; try done; [by apply (parsing_same _ _ _ s)|].
  unfold frame_ok. ssimpl. split_and!; [done|lia|lia|by left|done|done].
Qed.

Lemma acknowledge_ok s :
  conn s → memory s → cur_len s = 0 ∨ (cur_buf s = CP_control ∧ 2 ≤ cur_len s ≤ 125) →
  ∃ s', nn_sws_acknowledge_close_handshake e s = Ret s' ∧ closed s'.
Proof.
  intros Hc Hm Hl. unfold nn_sws_acknowledge_close_handshake, NN_SWS_CLOSE_CODE_LEN.
  destruct (Z.eqb_spec (cur_len s) 0) as [|Hne]; [apply fail_conn_ok; [done|vm_compute; lia]|].
  destruct Hl as [?|[Hb Hl]]; [done|]. rewrite (proj2 (Z.leb_le _ _)) by lia. step.
  unfold get_cur. rewrite Hb. step. destruct (m_control _ Hm) as [Lc Bc].
  destruct (while_ok (λ x : nat * Z, 0 ≤ x.2 ∧ Z.of_nat x.1 + x.2 ≤ 125) (λ x, Z.to_nat x.2)
    (λ x b, 0 ≤ x.2 ∧ (b = true → x.2 = 0)) (close_scan_body (inmsg_control s))) with
    (S (Z.to_nat (cur_len s - 2))) (Z.to_nat 2, cur_len s - 2) as ([pos len] & b & -> & [Hp Hb']);
    [|cbn; lia|cbn; lia|].
  { intros [pos len] [Hp0 Hp1]. cbn [fst snd] in *. unfold close_scan_body.
    destruct (Z.ltb_spec 0 len) as [Hlt|Hge]; [|eexists _, _; split; [done|]; cbn; lia].
    destruct (code_point_bounds (drop pos (inmsg_control s)) len) as (r & -> & Hr);
      [by apply Forall_drop|rewrite length_drop; lia|]. step.
    destruct (Z.ltb_spec 0 r).
    - assert (r ≤ len) by (unfold NN_SWS_UTF8_FRAGMENT, NN_SWS_UTF8_INVALID in Hr; lia).
      rewrite (proj2 (Z.leb_le _ _)) by done. step. eexists _, _. split; [done|]. cbn. lia.
    - eexists _, _. split; [done|]. cbn. done. }
  step. destruct b; cbn [negb]; [|apply fail_conn_ok; [done|vm_compute; lia]].
  specialize (Hb' eq_refl). cbn in Hb'. subst len. change (0 =? 0) with true. step.
  unfold nn_gets. destruct (rd_lt (inmsg_control s) 0) as (b0 & -> & _); [lia|].
  destruct (rd_lt (inmsg_control s) 1) as (b1 & -> & _); [lia|]. step.
  destruct (close_code_known _); (apply fail_conn_ok; [done|vm_compute; lia]).
Qed.

Lemma return_ack s P :
  conn s → memory s → cur_len s = 0 ∨ (cur_buf s = CP_control ∧ 2 ≤ cur_len s ≤ 125) →
  wpx False (return_ (nn_sws_acknowledge_close_handshake e s)) (goes_on P).
Proof. intros Hc Hm Hl. destruct (acknowledge_ok s Hc Hm Hl) as (s' & -> & Hs'). cbn. by right. Qed.

Lemma control_frame_ok h0 h1 t s :
  stage3 h0 h1 t s → is_final_frame s = true → payload_ctl s ≤ 125 → is_control_frame s = true →
  opcode s = 8 ∧ payload_ctl s ≠ 1 ∨ opcode s = 9 ∨ opcode s = 10 →
  frame_ok s.
Proof.
  intros (Hp & H0 & Hm & Hfin & Hop & Hctl & Hext & Hc1 & Hc2) Hf Hl Hctlf Hops.
  unfold frame_ok. rewrite Hctlf. pose proof (land_127 h1).
  split_and!; [done|lia|lia|done|done| |].
  - split; [|done]. intros Hc. by destruct (Hc1 Hc).
  - destruct Hops as [?|Hops]; [by left|right]. split; [done|]. rewrite (p_h0 _ _ _ _ Hp). f_equal.
    destruct (first_byte h0) as [Hh _]; [by destruct (parsing_byte _ _ _ _ Hp)|done|].
    rewrite Hfin in Hf. rewrite Hf in Hh. lia.
Qed.

Lemma stage3_between h0 h1 t s : stage3 h0 h1 t s → between s.
Proof. intros (_ & _ & _ & _ & _ & _ & _ & Hc1 & Hc2). split; [|done]. intros Hc. by destruct (Hc1 Hc). Qed.

Lemma hdr_ping_pong_ok h0 h1 t s :
  stage3 h0 h1 t s → is_control_frame s = true → opcode s = 9 ∨ opcode s = 10 →
  wpx False (hdr_ping_pong e s) (goes_on (stage4 h0 h1 t)).
Proof.
  intros H3 Hctlf Hops. pose proof H3 as (Hp & _ & _ & _ & _ & _ & Hext & _). unfold hdr_ping_pong, NN_SWS_PAYLOAD_MAX_LENGTH.
  destruct (Z.ltb_spec 125 (payload_ctl s)); [apply return_fail; [by destruct Hp|vm_compute; lia]|].
  destruct (is_final_frame s) eqn:Ef; cbn [negb]; [|apply return_fail; [by destruct Hp|vm_compute; lia]].
  assert (frame_ok s) as Hf by (eapply control_frame_ok; eauto).
  destruct ((ext_hdr_len s =? 0) && (payload_ctl s =? 0)) eqn:E.
  - cbn. left. destruct Hp as [Hc Hm ? Hrx H0 _ _].
    split_and!; ssimpl; [by apply (conn_same s)|by apply (memory_same s)|lia|lia|].
    right. right. right. right. unfold in_control. ssimpl.
    pose proof (stage3_between _ _ _ _ H3) as [B1 B2]. split_and!; try done; try lia.
    destruct Hf as (_ & _ & Hf). rewrite Hctlf in Hf. destruct Hf as (_ & _ & _ & [[? ?]|[[Ho|Ho] Hh]]);
      [lia| |]; rewrite Hh, Ho; auto.
  - cbn. split_and!; try done. intros E0 E1. by rewrite E0, E1 in E.
Qed.

Lemma hdr_close_ok h0 h1 t s :
  stage3 h0 h1 t s → opcode s = 8 → wpx False (hdr_close e s) (goes_on (stage4 h0 h1 t)).
Proof.
  intros H3 Hop. assert (stage3 h0 h1 t (set_is_control_frame true s)) as H3'.
  { destruct H3 as (Hp & ?). split; [by apply (parsing_same _ _ _ s)|done]. }
  pose proof H3' as (Hp & _ & _ & _ & _ & _ & Hext & _).
  unfold hdr_close, NN_SWS_PAYLOAD_MAX_LENGTH. revert H3' Hp Hext.
  assert (opcode (set_is_control_frame true s) = 8) as Hop' by done.
  assert (is_control_frame (set_is_control_frame true s) = true) as Hctlf by done. revert Hop' Hctlf.
  generalize (set_is_control_frame true s). clear s H3 Hop. intros s Hop Hctlf H3 Hp Hext.
  destruct (is_final_frame s) eqn:Ef; cbn [negb]; [|apply return_fail; [by destruct Hp|vm_compute; lia]].
  destruct (Z.ltb_spec 125 (payload_ctl s)); [apply return_fail; [by destruct Hp|vm_compute; lia]|].
  destruct (Z.eqb_spec (payload_ctl s) 1); [apply return_fail; [by destruct Hp|vm_compute; lia]|].
  destruct ((ext_hdr_len s =? 0) && (payload_ctl s =? 0)) eqn:E.
  - destruct Hp. apply return_ack; [by apply (conn_same s)|by apply (memory_same s)|by left].
  - cbn. split_and!; try done; [eapply control_frame_ok; eauto|]. intros E0 E1. by rewrite E0, E1 in E.
Qed.

Lemma hdr_switch_ok h0 h1 t s :
  stage3 h0 h1 t s → wpx False (hdr_switch e s) (goes_on (stage4 h0 h1 t)).
Proof.
  intros H3. unfold hdr_switch.
  destruct ((opcode s =? NN_WS_OPCODE_TEXT) || (opcode s =? NN_WS_OPCODE_BINARY)) eqn:E.
  { apply hdr_data_ok; [done|]. apply orb_true_iff in E as [?%Z.eqb_eq|?%Z.eqb_eq]; auto. }
  destruct (Z.eqb_spec (opcode s) NN_WS_OPCODE_FRAGMENT); [by apply hdr_fragment_ok|].
  assert (∀ s', view s' = view s → (mode s', masked s', is_final_frame s', opcode s') = (mode s, masked s, is_final_frame s, opcode s) →
    (payload_ctl s', ext_hdr_len s', continuing s', inmsg_hdr s') = (payload_ctl s, ext_hdr_len s, continuing s, inmsg_hdr s) →
    stage3 h0 h1 t s') as Hsame.
  { intros s' Hv Hx Hy. destruct H3 as (Hp & ? & Hr). split; [by apply (parsing_same _ _ _ s)|]. split; [done|].
    injection Hv as _ _ _ _ _ _ _ _ _ Ha _ _ _. injection Hx as E1 E2 E3 E4. injection Hy as F1 F2 F3 F4.
    unfold data_hdr in *. by rewrite E1, E2, E3, E4, F1, F2, F3, F4, Ha. }
  destruct (Z.eqb_spec (opcode s) NN_WS_OPCODE_PING); [apply hdr_ping_pong_ok; [by apply Hsame|done|by left]|].
  destruct (Z.eqb_spec (opcode s) NN_WS_OPCODE_PONG); [apply hdr_ping_pong_ok; [by apply Hsame|done|by right]|].
  destruct (Z.eqb_spec (opcode s) NN_WS_OPCODE_CLOSE); [by apply hdr_close_ok|].
  apply return_fail; [by destruct H3 as ([] & _)|vm_compute; lia].
Qed.

(** *** The payload and the rest of the header *)

(** A request of [n] bytes fails, and [n] is at most 2^31, or it is so large that
    adding it to the size [t] of the message so far wraps around. *)
Definition no_memory (t : Z) : Prop := ∃ n, oom e n ∧ (n < 2 ^ 31 ∨ 2 ^ 64 - t ≤ n < 2 ^ 64).

Definition payload_room (s : nn_sws) : Prop :=
  0 < cur_len s < 2 ^ 64 ∧ (masked s = true → ∃ off, mask s = Some off ∧ (off + 4 ≤ 14)%nat) ∧
  (is_control_frame s = true → cur_len s ≤ 125 ∧ (opcode s = 8 → 2 ≤ cur_len s)).

Lemma start_payload_ok s toobig :
  conn s → memory s → 0 ≤ utf8_len s ≤ 3 → rx s = None → frame_ok s → payload_room s →
  (length (str toobig) ≤ 110)%nat →
  wpx (no_memory (total_size s)) (start_payload e s toobig) sws_ok.
Proof.
  intros Hc Hm Hu Hrx Hf (Hl & Hmask & Hctl) Htb. unfold start_payload.
  destruct (is_control_frame s) eqn:Ectl; unfold go_on, nn_usock_recv; step; ssimpl.
  { rewrite Hrx, bool_decide_eq_true_2 by done. step. cbn [wpx]. left. destruct (Hctl eq_refl) as [? ?].
    split_and!; ssimpl; [destruct Hc; by constructor|destruct Hm; by constructor|lia|lia|].
    right. right. left. unfold in_payload. ssimpl. rewrite Ectl.
    split_and!; [done|done|exact Hf|lia|done|done|done|done]. }
  destruct (env_max _ He) as [Hmax0 Hmax1]. pose proof (m_max _ Hm).
  assert (0 ≤ total_size s) by (rewrite (m_total _ Hm); lia).
  rewrite (proj2 (Z.leb_le 0 _)) by done. cbn [andb].
  assert (u64 (e_rcvmaxsize e) = e_rcvmaxsize e) as -> by (apply Z.mod_small; lia).
  destruct (Z.ltb_spec (e_rcvmaxsize e) (u64 (total_size s + cur_len s))) as [Hbig|Hfit].
  { edestruct (fail_conn_ok (set_total_size (u64 (total_size s + cur_len s)) s) NN_SWS_CLOSE_ERR_TOOBIG toobig)
      as (s' & -> & Hs'); [destruct Hc; by constructor|done|]. cbn. by right. }
  unfold nn_msg_chunk_new. ssimpl.
  destruct (chunk_data_ok e He (cur_len s)) as [(l & -> & Hlen & Bl & Hlt)|[-> Ho]]; [lia| |].
  2:{ cbn. exists (cur_len s). split; [done|]. unfold u64 in Hfit.
    destruct (decide (total_size s + cur_len s < 2 ^ 64)) as [Hs|Hs]; [left; rewrite Z.mod_small in Hfit by lia; lia|right; lia]. }
  step. ssimpl. rewrite Hrx, bool_decide_eq_true_2 by done. step. cbn [wpx]. left.
  assert (u64 (total_size s + cur_len s) = total_size s + cur_len s) as E by (apply Z.mod_small; lia).
  rewrite E in *.
  split_and!; ssimpl; [destruct Hc; by constructor| |lia|lia|].
  - destruct Hm. constructor; ssimpl; try done; [apply Forall_app; split; [done|by constructor]| |lia].
    rewrite concat_app, length_app. cbn. rewrite app_nil_r. lia.
  - right. right. left. unfold in_payload. ssimpl. rewrite Ectl.
    split_and!; [done|done| |lia|done|done|exists l; by rewrite last_snoc].
    unfold frame_ok in *. ssimpl. rewrite Ectl in *. exact Hf.
Qed.

Lemma hdr_rest_ok h0 h1 t s : stage4 h0 h1 t s →
  wpx (no_memory t) (hdr_rest e s) (goes_on (λ _, False)).
Proof.
  intros ([Hc Hm Hu Hrx H0 H1 Htot] & Hf & Hext & Hz). unfold hdr_rest, return_. apply wpx_bind.
  pose proof Hf as (Hmk & Hctl & Hf').
  pose proof (ext_size_pos (payload_ctl s)). pose proof (mask_size_pos (masked s)).
  destruct (Z.eqb_spec (ext_hdr_len s) 0) as [E|E].
  - rewrite (mode_client s), Z.eqb_refl; [|done|rewrite <- Hmk; lia]. step. subst t.
    assert (payload_ctl s ≤ 125) by (unfold ext_size in *; repeat case_match; lia).
    rewrite (proj2 (Z.ltb_lt 0 _)), (proj2 (Z.leb_le _ _)) by (unfold NN_SWS_PAYLOAD_MAX_LENGTH; lia). step.
    eapply wpx_mono; [apply start_payload_ok|done|by intros]; ssimpl;
      [destruct Hc; by constructor|destruct Hm; by constructor|done|done| | |vm_compute; lia].
    + exact Hf.
    + unfold payload_room. ssimpl. split_and!; [lia|lia| |].
      * intros Hmt. exfalso. rewrite Hmt in *. cbn in *. lia.
      * intros Ht. rewrite Ht in Hf'. split; [done|]. intros. destruct Hf' as (_ & _ & _ & [[??]|[[?|?] _]]); lia.
  - unfold nn_usock_recv. ssimpl. rewrite Hrx, bool_decide_eq_true_2 by done. step. cbn. left.
    split_and!; ssimpl; [destruct Hc; by constructor|destruct Hm; by constructor|lia|lia|].
    right. left. split_and!; [done|done|exact Hf|ssimpl; lia|done].
Qed.

Lemma handle_hdr_ok h0 h1 t s :
  parsing h0 h1 t s → between s → wpx (no_memory t) (handle_hdr e s) sws_ok.
Proof.
  intros Hp Hb. unfold handle_hdr. apply wpx_bind.
  eapply (wpx_mono (no_memory t) (no_memory t) _ (goes_on (λ _, False))); [|done|].
  - eapply and_then_ok; [eapply wpx_mono; [by apply hdr_rsv_ok|done|done]|]. intros s1 Hs1.
    eapply and_then_ok; [eapply wpx_mono; [by apply hdr_mask_ok|done|done]|]. intros s2 Hs2.
    eapply and_then_ok; [eapply wpx_mono; [by apply hdr_opcode_ok|done|done]|]. intros s3 Hs3.
    eapply and_then_ok; [eapply wpx_mono; [by apply hdr_switch_ok|done|done]|]. intros s4 Hs4.
    by eapply hdr_rest_ok.
  - intros [s' []]; cbn; done.
Qed.

Lemma getll_range l : bytes l → (8 ≤ length l)%nat → ∃ v, nn_getll l = Ret v ∧ 0 ≤ v < 2 ^ 64.
Proof.
  intros Hb Hl. destruct l as [|a [|b [|c [|d [|f [|g [|h [|i l]]]]]]]]; cbn in Hl; try lia.
  pose proof (bytes_take 8 _ Hb) as Hb'. eexists. rewrite nn_getll_be by done.
  split; [done|]. by apply (be_combine_range [a; b; c; d; f; g; h; i]).
Qed.

Lemma gets_range l : bytes l → (2 ≤ length l)%nat → ∃ v, nn_gets l = Ret v ∧ 0 ≤ v < 2 ^ 16.
Proof.
  intros Hb Hl. destruct l as [|a [|b l]]; cbn in Hl; try lia.
  pose proof (bytes_take 2 _ Hb) as Hb'. eexists. rewrite nn_gets_be by done.
  split; [done|]. by apply (be_combine_range [a; b]).
Qed.

Lemma hdrext_length_ok s : memory s → frame_ok s →
  ∃ len off, hdrext_length s = Ret (Some (set_mask (if masked s then Some off else None) (set_cur_len len s))) ∧
    0 ≤ len < 2 ^ 64 ∧ (off + 4 ≤ 14)%nat ∧ (payload_ctl s ≤ 125 → len = payload_ctl s).
Proof.
  intros Hm (_ & Hctl & _). destruct (m_inhdr _ Hm) as [Lh Bh]. unfold hdrext_length.
  change (Z.to_nat NN_SWS_FRAME_SIZE_INITIAL) with 2%nat.
  unfold NN_SWS_PAYLOAD_MAX_LENGTH, NN_SWS_PAYLOAD_FRAME_16, NN_SWS_PAYLOAD_FRAME_63.
  destruct (Z.leb_spec (payload_ctl s) 125).
  { exists (payload_ctl s), 2%nat. split; [done|]. lia. }
  destruct (Z.eqb_spec (payload_ctl s) 0x7E).
  { destruct (gets_range (drop 2 (inhdr s))) as (v & -> & Hv); [by apply Forall_drop|rewrite length_drop; lia|].
    step. exists v, 4%nat. split; [done|]. lia. }
  destruct (Z.eqb_spec (payload_ctl s) 0x7F); [|lia].
  destruct (getll_range (drop 2 (inhdr s))) as (v & -> & Hv); [by apply Forall_drop|rewrite length_drop; lia|].
  step. exists v, 10%nat. split; [done|]. lia.
Qed.

Lemma handle_hdrext_ok s :
  conn s → memory s → 0 ≤ utf8_len s ≤ 3 → rx s = None → frame_ok s → 0 < ext_hdr_len s →
  wpx (no_memory (total_size s)) (handle_hdrext e s) sws_ok.
Proof.
  intros Hc Hm Hu Hrx Hf Hext. unfold handle_hdrext. rewrite (proj2 (Z.ltb_lt _ _)) by done. step.
  destruct (hdrext_length_ok s Hm Hf) as (len & off & -> & Hlen & Hoff & Hsmall). step.
  set (s1 := set_mask _ _). assert (conn s1) as Hc1 by by apply (conn_same s).
  assert (memory s1) as Hm1 by by apply (memory_same s).
  assert (frame_ok s1) as Hf1 by by apply Hf.
  change (cur_len s1) with len. pose proof Hf as (_ & Hctl & Hf').
  destruct (Z.eqb_spec len 0) as [->|Hne].
  - unfold hdrext_empty. change (is_final_frame s1) with (is_final_frame s). change (opcode s1) with (opcode s).
    destruct (is_final_frame s) eqn:Efin.
    + destruct (Z.eqb_spec (opcode s) NN_WS_OPCODE_CLOSE).
      * destruct (acknowledge_ok s1) as (s' & -> & Hs'); [done|done|by left|]. cbn. by right.
      * cbn. left. split_and!; ssimpl; [by apply (conn_same s1)|by apply (memory_same s1)|exact (proj1 Hu)|exact (proj2 Hu)|].
        change (is_control_frame s1) with (is_control_frame s).
        destruct (is_control_frame s).
        -- right. right. right. right. unfold in_control, between, data_hdr in *. ssimpl.
           destruct Hf' as (_ & _ & Hb & [[? ?]|[[Ho|Ho] Hh]]); [done| |]; rewrite Ho in Hh;
             (split_and!; try done; try lia; try apply Hb; auto).
        -- right. right. right. left. unfold in_message, data_hdr in *. ssimpl. tauto.
    + destruct (recv_hdr_ok s1) as (s' & -> & Hs'); try done; [|cbn; by left].
      change (is_control_frame s1) with (is_control_frame s) in *. destruct (is_control_frame s); [by destruct Hf'|].
      destruct Hf' as (_ & Hd & Hcn). split; [|done]. change (continuing s1) with (continuing s). by rewrite Hcn.
  - rewrite (proj2 (Z.ltb_lt _ _)) by lia. step. apply (start_payload_ok s1); try done; [|vm_compute; lia].
    unfold payload_room. subst s1. ssimpl. split_and!; [lia|lia| |].
    + intros ->. by exists off.
    + intros Ht. rewrite Ht in Hf'. destruct Hf' as (_ & Hle & _ & Hop). rewrite Hsmall by done. split; [done|].
      intros. destruct Hop as [[??]|[[?|?] _]]; [|lia..]. rewrite Hsmall in Hne by done. lia.
Qed.

(** *** A payload *)

(** The buffer of the payload that has been asked for. *)
Definition payload_buf (s : nn_sws) : Prop :=
  frame_ok s ∧ 0 < cur_len s ∧ (masked s = true → ∃ off, mask s = Some off ∧ (off + 4 ≤ 14)%nat) ∧
  if is_control_frame s then cur_buf s = CP_control ∧ cur_len s ≤ 125 ∧ (opcode s = 8 → 2 ≤ cur_len s)
  else cur_buf s = CP_array ∧ ∃ d, last (inmsg_array s) = Some d ∧ Z.of_nat (length d) = cur_len s.

Record payload (s : nn_sws) : Prop := {
  y_conn : conn s;
  y_mem : memory s;
  y_len : 0 ≤ utf8_len s ≤ 3;
  y_rx : rx s = None;
  y_buf : payload_buf s;
}.

Lemma concat_length_insert_last (pre : list (list Z)) d d' :
  length d' = length d →
  length (concat (<[pred (length (pre ++ [d])) := d']> (pre ++ [d]))) = length (concat (pre ++ [d])).
Proof.
  intros Hl. rewrite length_app, Nat.add_comm. cbn [length Nat.add pred].
  rewrite <- (Nat.add_0_r (length pre)), insert_app_r. cbn. by rewrite !concat_app, !length_app; cbn; rewrite !length_app, Hl.
Qed.

Lemma last_insert_last (pre : list (list Z)) d d' :
  <[pred (length (pre ++ [d])) := d']> (pre ++ [d]) = pre ++ [d'].
Proof.
  rewrite length_app, Nat.add_comm. cbn [length Nat.add pred].
  by rewrite <- (Nat.add_0_r (length pre)), insert_app_r.
Qed.

(** The current buffer can be read, and replaced by another one of its size. *)
Lemma cur_buf_ok s : payload s →
  ∃ buf, get_cur s = Ret buf ∧ bytes buf ∧ cur_len s ≤ Z.of_nat (length buf) < 2 ^ 32 ∧
    ∀ buf', length buf' = length buf → bytes buf' →
      ∃ s', put_cur buf' s = Ret s' ∧ payload s' ∧ get_cur s' = Ret buf' ∧
        (s' = set_inmsg_control buf' s ∨ ∃ arr, s' = set_inmsg_array arr s).
Proof.
  intros [Hc Hm Hu Hrx (Hf & Hl & Hmask & Hb)]. unfold get_cur, put_cur.
  destruct (is_control_frame s) eqn:Ectl.
  - destruct Hb as (Hcb & Hle & Hcl). rewrite Hcb. destruct (m_control _ Hm) as [Lc Bc].
    exists (inmsg_control s). split_and!; [done|done|lia|lia|]. intros buf' Hl' Hb'. eexists. split; [done|].
    split; [|split; [|by left]]; [|ssimpl; by rewrite Hcb].
    constructor; ssimpl; [destruct Hc; by constructor| |done|done|].
    + destruct Hm. constructor; ssimpl; try done. split; [lia|done].
    + unfold payload_buf. ssimpl. by rewrite Ectl.
  - destruct Hb as (Hcb & d & Hlast & Hd). rewrite Hcb, Hlast. apply last_Some in Hlast as [pre Harr].
    pose proof (m_array _ Hm) as Ba. rewrite Harr in Ba. apply Forall_app in Ba as [Bpre [Bd _]%Forall_cons].
    pose proof (m_max _ Hm). pose proof (m_total _ Hm) as Ht. rewrite Harr, concat_app, length_app in Ht.
    cbn [concat] in Ht. rewrite app_nil_r in Ht.
    exists d. split_and!; [done|done|lia|lia|]. intros buf' Hl' Hb'. step. eexists. split; [done|].
    rewrite Harr, last_insert_last. split; [|split; [|right; by eexists]]; [|ssimpl; by rewrite Hcb, last_snoc].
    constructor; ssimpl; [destruct Hc; by constructor| |done|done|].
    + destruct Hm. constructor; ssimpl; try done.
      * apply Forall_app. split; [done|by constructor].
      * rewrite concat_app, length_app. cbn [concat]. rewrite app_nil_r. lia.
    + unfold payload_buf. ssimpl. rewrite Ectl. split_and!; try done.
      * unfold frame_ok in *. ssimpl. rewrite Ectl in *. exact Hf.
      * exists buf'. rewrite last_snoc. split; [done|lia].
Qed.

(** A code point whose first three bytes came in earlier frames is completed. *)
Definition split_code_point (s : nn_sws) : Prop :=
  utf8_len s = 3 ∧ ∃ b r, nn_utf8_code_point (take 3 (utf8_frag s) ++ [b]) 4 = Ret r ∧ 0 < r.

(** The loop over whole code points stops: at the end, at an invalid byte, or at
    less than four bytes that may begin a code point. *)
Lemma scan_ok buf pos len :
  bytes buf → 0 ≤ len → Z.of_nat pos + len ≤ Z.of_nat (length buf) →
  ∃ pos' len' r, while (S (Z.to_nat len)) (scan_body buf) (pos, len) = Ret ((pos', len'), r) ∧
    0 ≤ len' ∧ Z.of_nat pos' + len' ≤ Z.of_nat (length buf) ∧
    ((r = 0 ∧ len' = 0) ∨ r = NN_SWS_UTF8_INVALID ∨ (r = NN_SWS_UTF8_FRAGMENT ∧ len' < 4)).
Proof.
  intros Bb Hlen Hpos.
  set (I := λ x : nat * Z, 0 ≤ x.2 ∧ Z.of_nat x.1 + x.2 ≤ Z.of_nat (length buf)).
  destruct (while_ok I (λ x, Z.to_nat x.2)
    (λ x r, I x ∧ ((r = 0 ∧ x.2 = 0) ∨ r = NN_SWS_UTF8_INVALID ∨ (r = NN_SWS_UTF8_FRAGMENT ∧ x.2 < 4)))
    (scan_body buf)) with (S (Z.to_nat len)) (pos, len) as ([pos' len'] & r & Hw & [? ?] & Hr);
    [|by split|cbn; lia|by exists pos', len', r].
  clear pos len Hlen Hpos. intros [pos len] [H0 H1]. cbn [fst snd] in *. unfold scan_body.
  destruct (Z.ltb_spec 0 len) as [Hlt|Hge].
  2:{ eexists _, _. split; [done|]. cbn. split; [by split|]. left. lia. }
  destruct (code_point_bounds (drop pos buf) len) as (r & -> & Hr); [by apply Forall_drop|rewrite length_drop; lia|].
  step. destruct Hr as [[-> Hr]|[->|[Hr1 Hr2]]].
  - eexists _, _. split; [done|]. split; [by split|]. auto.
  - eexists _, _. split; [done|]. split; [by split|]. auto.
  - rewrite (proj2 (Z.ltb_lt _ _)), (proj2 (Z.leb_le _ _)) by lia. step.
    eexists _, _. split; [done|]. unfold I. cbn. lia.
Qed.

Lemma validate_rest_ok s buf pos len :
  conn s → memory s → rx s = None → data_hdr s → continuing s = negb (is_final_frame s) →
  bytes buf → 0 ≤ len → Z.of_nat pos + len ≤ Z.of_nat (length buf) →
  wpx False (validate_rest e s buf pos len) sws_ok.
Proof.
  intros Hc Hm Hrx Hd Hcn Bb Hlen Hpos. unfold validate_rest.
  destruct (scan_ok buf pos len Bb Hlen Hpos) as (pos' & len' & r & -> & H0 & H1 & Hr). step.
  assert (∀ frag n, length frag = 4%nat → bytes frag → 0 ≤ n ≤ 3 →
    let s' := set_utf8_frag frag (set_utf8_len n s) in
    conn s' ∧ memory s' ∧ 0 ≤ utf8_len s' ≤ 3 ∧ rx s' = None) as Hset.
  { intros frag n Lf Bf Hn. cbn zeta. split_and!; ssimpl; try done; try lia.
    - destruct Hc. by constructor.
    - destruct Hm. by constructor. }
  assert (bytes (replicate 4 0)) as B0 by (apply Forall_replicate; unfold is_byte; lia).
  assert (∀ s', conn s' ∧ memory s' ∧ 0 ≤ utf8_len s' ≤ 3 ∧ rx s' = None → is_final_frame s = false →
    continuing s' = continuing s → inmsg_hdr s' = inmsg_hdr s → wpx False (nn_sws_recv_hdr s') sws_ok) as Hnext.
  { intros s' (Hc' & Hm' & Hu' & Hr') Hfin E1 E2. destruct (recv_hdr_ok s') as (s2 & -> & Hs2); try done; [|by left].
    split; rewrite E1, Hcn, Hfin; [done|]. intros _. unfold data_hdr. by rewrite E2. }
  destruct Hr as [[-> ->]|[->|[-> Hlt]]]; cbn [Z.eqb NN_SWS_UTF8_INVALID NN_SWS_UTF8_FRAGMENT Pos.eqb].
  - step. destruct (Hset (replicate 4 0) 0) as (Hc' & Hm' & Hu' & Hr'); [done|done|lia|].
    change (is_final_frame (set_utf8_frag _ _)) with (is_final_frame s). destruct (is_final_frame s) eqn:Ef; [|by apply Hnext].
    cbn [wpx]. left. split_and!; ssimpl; [destruct Hc'; by constructor|destruct Hm'; by constructor|lia|lia|].
    right. right. right. by left.
  - destruct (Hset (replicate 4 0) 0) as (Hc' & _); [done|done|lia|].
    destruct (fail_conn_ok _ NN_SWS_CLOSE_ERR_INVALID_FRAME "Invalid UTF-8 code point in payload." Hc') as (s' & -> & Hs');
      [vm_compute; lia|by right].
  - rewrite (proj2 (Z.ltb_lt _ _)) by (unfold NN_SWS_UTF8_MAX_CODEPOINT_LEN; lia). step.
    destruct (read_at_len buf pos' (Z.to_nat len')) as (rest & -> & Lr & Br); [lia|]. step.
    destruct (m_frag _ Hm) as [Lf Bf].
    destruct (write_at_len (utf8_frag s) 0 rest) as (frag & -> & Lf' & Bf'); [lia|]. step.
    destruct (Hset frag len') as (Hc' & Hm' & Hu' & Hr'); [lia|by apply Bf', Br|lia|].
    change (is_final_frame (set_utf8_frag _ _)) with (is_final_frame s). destruct (is_final_frame s) eqn:Ef; [|by apply Hnext].
    destruct (fail_conn_ok _ NN_SWS_CLOSE_ERR_INVALID_FRAME "Truncated UTF-8 payload with invalid code point." Hc')
      as (s' & -> & Hs'); [vm_compute; lia|by right].
Qed.

Lemma validate_ok s buf :
  conn s → memory s → 0 ≤ utf8_len s ≤ 3 → rx s = None → data_hdr s → continuing s = negb (is_final_frame s) →
  get_cur s = Ret buf → bytes buf → 0 < cur_len s ≤ Z.of_nat (length buf) →
  wpx (split_code_point s) (nn_sws_validate_utf8_chunk e s) sws_ok.
Proof.
  intros Hc Hm Hu Hrx Hd Hcn Hcur Bb Hlen. unfold nn_sws_validate_utf8_chunk, NN_SWS_UTF8_MAX_CODEPOINT_LEN.
  destruct (Z.eqb_spec (utf8_len s) 0) as [E0|E0]; cbn [negb].
  { step. rewrite (proj2 (Z.ltb_lt _ _)) by lia. step. rewrite Hcur. step.
    eapply wpx_mono; [apply validate_rest_ok|done|done]; try done; lia. }
  rewrite (proj2 (Z.ltb_lt _ _)) by lia. step. cbn [while]. unfold frag_body at 2.
  rewrite (proj2 (Z.ltb_lt 0 _)) by lia. rewrite Hcur. step.
  destruct (rd_lt buf 0) as (b & -> & _ & Bb0); [lia|]. specialize (Bb0 Bb). step.
  destruct (m_frag _ Hm) as [Lf Bf].
  unfold wr. rewrite decide_True by lia. step. ssimpl.
  set (frag := <[Z.to_nat (utf8_len s):=b]> (utf8_frag s)).
  assert (length frag = 4%nat) as Lf' by (subst frag; by rewrite length_insert).
  assert (bytes frag) as Bf' by by apply Forall_insert.
  set (s1 := set_utf8_len (utf8_len s + 1) (set_utf8_frag frag s)).
  assert (conn s1) as Hc1 by (destruct Hc; by constructor).
  assert (memory s1) as Hm1 by (destruct Hm; by constructor).
  destruct (code_point_bounds frag (utf8_len s + 1)) as (r & Hr & Hcases); [done|lia|]. rewrite Hr. step.
  destruct Hcases as [[-> Hlt]|[->|[Hr1 Hr2]]].
  - change (0 <? NN_SWS_UTF8_FRAGMENT) with false. cbn [Z.eqb NN_SWS_UTF8_INVALID NN_SWS_UTF8_FRAGMENT Pos.eqb].
    destruct (is_final_frame s) eqn:Efin.
    + destruct (fail_conn_ok s1 NN_SWS_CLOSE_ERR_INVALID_FRAME "Truncated UTF-8 payload with invalid code point." Hc1)
        as (s' & -> & Hs'); [vm_compute; lia|by right].
    + destruct (recv_hdr_ok s1) as (s' & -> & Hs'); try done; [subst s1; ssimpl; lia| |by left].
      split; [|done]. change (continuing s1) with (continuing s). by rewrite Hcn.
  - change (0 <? NN_SWS_UTF8_INVALID) with false. cbn [Z.eqb NN_SWS_UTF8_INVALID Pos.eqb].
    destruct (fail_conn_ok s1 NN_SWS_CLOSE_ERR_INVALID_FRAME "Invalid UTF-8 code point split on previous frame." Hc1)
      as (s' & -> & Hs'); [vm_compute; lia|by right].
  - rewrite (proj2 (Z.ltb_lt 0 r)) by lia. step. change (utf8_len s1) with (utf8_len s + 1).
    destruct (decide (utf8_len s = 3)) as [E3|E3].
    + rewrite E3. cbn. split; [done|]. exists b, r. split; [|lia]. rewrite <- Hr. subst frag. rewrite E3.
      destruct (utf8_frag s) as [|x0 [|x1 [|x2 [|x3 []]]]]; try done; cbn in Lf; lia.
    + rewrite (proj2 (Z.ltb_lt _ _)) by lia. step.
      assert (get_cur s1 = Ret buf) as -> by exact Hcur. step.
      eapply wpx_mono; [apply validate_rest_ok|done|done]; try done; lia.
Qed.

Lemma unmask_ok s : payload s →
  ∃ s' buf, unmask s = Ret s' ∧ payload s' ∧ get_cur s' = Ret buf ∧ bytes buf ∧
    cur_len s' ≤ Z.of_nat (length buf) ∧
    (s' = s ∨ (∃ b, s' = set_inmsg_control b s) ∨ ∃ arr, s' = set_inmsg_array arr s).
Proof.
  intros Hp. destruct (cur_buf_ok s Hp) as (buf & Hcur & Bb & Hl & Hput). unfold unmask.
  destruct (masked s) eqn:Em; [|exists s, buf; split_and!; try done; [lia|by left]].
  rewrite Hcur. step. destruct Hp as [Hc Hm _ _ (_ & Hpos & Hmask & _)].
  destruct (Hmask Em) as (off & -> & Hoff). step. destruct (m_inhdr _ Hm) as [Lh Bh].
  destruct (read_at_len (inhdr s) off (Z.to_nat NN_SWS_FRAME_SIZE_MASK)) as (m & -> & Lm & Bm);
    [change (Z.to_nat NN_SWS_FRAME_SIZE_MASK) with 4%nat; lia|]. step. unfold NN_SWS_FRAME_SIZE_MASK.
  destruct (mask_payload_ok buf (cur_len s) m None) as (buf' & pos & -> & Lb & Bb'); [done|by apply Bm|done|lia|lia|].
  step. destruct (Hput buf' Lb Bb') as (s' & -> & Hp' & Hcur' & Hs'). exists s', buf'.
  assert (cur_len s' = cur_len s) as -> by (by destruct Hs' as [-> | [? ->]]).
  split_and!; try done; [lia|]. right. destruct Hs' as [-> | [arr ->]]; [left|right]; by eexists.
Qed.

Lemma handle_payload_ok s : payload s →
  wpx (split_code_point s) (handle_payload e s) sws_ok.
Proof.
  intros Hp. unfold handle_payload.
  destruct (unmask_ok s Hp) as (s' & buf & -> & Hp' & Hcur & Bb & Hl & Hs'). step.
  assert (split_code_point s' → split_code_point s) as Hsplit.
  { by destruct Hs' as [-> | [[? ->] | [? ->]]]. }
  clear Hp Hs'. destruct Hp' as [Hc Hm Hu Hrx (Hf & Hpos & Hmask & Hb)]. pose proof Hf as (_ & _ & Hf').
  destruct (is_control_frame s') eqn:Ectl.
  - destruct Hf' as (Hfin & _ & Hbt & Hop). destruct Hb as (Hcb & Hle & Hcl).
    assert (opcode s' ≠ 1 ∧ opcode s' ≠ 2 ∧ opcode s' ≠ 0) as (N1 & N2 & N0) by lia.
    rewrite (proj2 (Z.eqb_neq _ NN_WS_OPCODE_TEXT)), (proj2 (Z.eqb_neq _ NN_WS_OPCODE_BINARY)),
      (proj2 (Z.eqb_neq _ NN_WS_OPCODE_FRAGMENT)) by done.
    destruct Hop as [[Ho _]|[Ho Hh]].
    + rewrite Ho. cbn [Z.eqb NN_WS_OPCODE_PING NN_WS_OPCODE_PONG NN_WS_OPCODE_CLOSE orb Pos.eqb].
      destruct (acknowledge_ok s') as (s2 & -> & Hs2); try done; [right; split; [done|]; specialize (Hcl Ho); lia|by right].
    + assert (((opcode s' =? NN_WS_OPCODE_PING) || (opcode s' =? NN_WS_OPCODE_PONG)) = true) as ->
        by (destruct Ho as [-> | ->]; done).
      cbn [received wpx]. left.
      split_and!; ssimpl; [destruct Hc; by constructor|destruct Hm; by constructor|lia|lia|].
      right. right. right. right. unfold in_control. ssimpl. split_and!; try done; try lia; try apply Hbt.
      destruct Ho as [Ho|Ho]; rewrite Ho in Hh; [by left|by right].
  - destruct Hf' as (Hop & Hd & Hcn).
    assert (wpx (split_code_point s) (nn_sws_validate_utf8_chunk e s') sws_ok) as Hval.
    { eapply wpx_mono; [eapply validate_ok|exact Hsplit|done]; eauto. }
    assert (wpx (split_code_point s) (binary_done s') sws_ok) as Hbin.
    { unfold binary_done. destruct (is_final_frame s') eqn:Efin.
      - cbn. left. split_and!; ssimpl; [destruct Hc; by constructor|destruct Hm; by constructor|lia|lia|].
        right. right. right. by left.
      - destruct (recv_hdr_ok s') as (s2 & -> & Hs2); try done; [|by left]. split; [|done]. by rewrite Hcn. }
    destruct Hop as [-> | [-> | ->]]; cbn [Z.eqb NN_WS_OPCODE_TEXT NN_WS_OPCODE_BINARY NN_WS_OPCODE_FRAGMENT Pos.eqb];
      [by case_match|done|done].
Qed.

(** *** The user's calls *)

Lemma assert_true {A} (b : bool) (k : unit → outcome A) : b = true → nn_assert b ≫= k = k tt.
Proof. by intros ->. Qed.


Lemma reassemble_ok arr : ∀ fuel s pre rest,
  inmsg_array s = arr → length rest = length (concat arr) → (length arr < fuel)%nat →
  Z.of_nat (length pre + length rest) < 2 ^ 63 →
  while fuel reassemble_body (s, pre ++ rest, Z.of_nat (length pre)) =
    Ret ((set_inmsg_array [] s, pre ++ concat arr, Z.of_nat (length pre + length (concat arr))), tt).
Proof.
  induction arr as [|c arr IH]; intros [|fuel] s pre rest Harr Hr Hf Hlt; cbn in Hf; try lia; cbn [while];
    unfold reassemble_body at 2; rewrite Harr; step.
  - destruct rest; [|done]. cbn. rewrite Nat.add_0_r. by destruct s; cbn in Harr; subst.
  - cbn [concat] in *. rewrite length_app in Hr. rewrite Nat2Z.id.
    rewrite <- (take_drop (length c) rest).
    rewrite write_at_ok by (rewrite ?length_take; lia). step.
    assert (u64 (Z.of_nat (length pre) + Z.of_nat (length c)) = Z.of_nat (length (pre ++ c))) as ->
      by (unfold u64; rewrite length_app, Z.mod_small; lia).
    rewrite app_assoc.
    rewrite (IH fuel (nn_msg_chunk_term s)); [|by unfold nn_msg_chunk_term; ssimpl; rewrite Harr|rewrite length_drop; lia|lia|
      rewrite length_app, length_drop; lia].
    rewrite !length_app, <- app_assoc, Nat.add_assoc. by destruct s.
Qed.

Lemma reassemble_all s body total : length body = length (concat (inmsg_array s)) →
  total = Z.of_nat (length (concat (inmsg_array s))) → total < 2 ^ 63 →
  while (S (length (inmsg_array s))) reassemble_body (s, body, 0) =
    Ret ((set_inmsg_array [] s, concat (inmsg_array s), total), tt).
Proof.
  intros Hb -> Ht.
  assert (0 = Z.of_nat (length (@nil Z))) as -> by done. rewrite <- (app_nil_l body).
  rewrite (reassemble_ok (inmsg_array s) _ s [] body); [|done|done|lia|cbn [length Nat.add]; lia].
  cbn [length Nat.add]. by rewrite app_nil_l.
Qed.

Lemma opcode_hdr_ok s h op1 op2 :
  is_final_frame s = true → h = 0x80 + op1 ∨ h = 0x80 + op2 →
  (op1 = 2 ∧ op2 = 1) ∨ (op1 = 9 ∧ op2 = 10) → opcode_hdr_of s h op1 op2 = Ret (h - 0x80).
Proof.
  intros Hf Hh Hops. unfold opcode_hdr_of. rewrite Hf. step.
  by destruct Hops as [[-> ->]|[-> ->]], Hh as [-> | ->].
Qed.

Lemma ws_cmsg_ok op : ∃ h, ws_cmsg e op = Ret h ∧
  h = le 8 24 ++ le 4 (u32 NN_WS) ++ le 4 (u32 NN_WS_MSG_TYPE) ++ op :: (e_junk e <$> seq 17 7).
Proof. eexists. split; reflexivity. Qed.

(** What a received message is: the bytes of the chunks, or of the control frame. *)
Definition recv_opcode (s : nn_sws) : Z :=
  (if instate s =? NN_SWS_INSTATE_RECVD_CHUNKED then inmsg_hdr s else default 0 (inhdr s !! 0%nat)) - 0x80.
Definition recv_body (s : nn_sws) : list Z :=
  if instate s =? NN_SWS_INSTATE_RECVD_CHUNKED then concat (inmsg_array s)
  else take (Z.to_nat (cur_len s)) (inmsg_control s).

Definition recv_msg (s : nn_sws) : vmsg :=
  VMsg [] (le 8 24 ++ le 4 (u32 NN_WS) ++ le 4 (u32 NN_WS_MSG_TYPE) ++
           recv_opcode s :: (e_junk e <$> seq 17 7)) (recv_body s).

(** The size of the message is reset with it. *)
Lemma recv_hdr_total s : continuing s = false →
  nn_sws_recv_hdr (set_total_size 0 s) = nn_sws_recv_hdr s.
Proof. intros Hc. unfold nn_sws_recv_hdr. ssimpl. rewrite Hc. cbn [negb]. by destruct (bool_decide _). Qed.

Lemma recv_message_ok s :
  conn s → memory s → 0 ≤ utf8_len s ≤ 3 → in_message s →
  wpx (no_memory 0) (nn_sws_recv e s) (λ '(s', rc, m), active_ok s' ∧ rc = 0 ∧ m = recv_msg s ∧
    next_hdr (set_continuing false (set_inmsg_array [] s)) s').
Proof.
  intros Hc Hm Hu (Hi & Hrx & Hfin & Hd). unfold nn_sws_recv. rewrite (c_state _ Hc), Hi, !Z.eqb_refl. step.
  rewrite (opcode_hdr_ok s (inmsg_hdr s)); [|done|destruct Hd as [-> | ->]; [by right|by left]|by left]. step.
  pose proof (m_total _ Hm) as Ht. pose proof (m_max _ Hm).
  destruct (chunk_data_ok e He (total_size s)) as [(b & -> & Lb & _ & _)|[-> Ho]]; [lia| |step; exists (total_size s); split; [done|lia]].
  step. rewrite (reassemble_all s b (total_size s)) by (done || lia). step. ssimpl.
  rewrite assert_true by apply Z.eqb_refl. rewrite assert_true by (by apply bool_decide_eq_true_2).
  rewrite <- (recv_hdr_total (set_continuing false (set_inmsg_array [] s))) by done.
  destruct (recv_hdr_ok (set_total_size 0 (set_continuing false (set_inmsg_array [] s)))) as (s' & E & Ha);
    [destruct Hc; by constructor|destruct Hm; by constructor|done|done|done|].
  rewrite E. apply recv_hdr_next in E. step. destruct (ws_cmsg_ok (inmsg_hdr s - 0x80)) as (h & -> & ->). step. cbn [wpx].
  split; [exact Ha|]. split; [reflexivity|]. split; [|exact E].
  unfold recv_msg, recv_opcode, recv_body. by rewrite Hi, Z.eqb_refl.
Qed.

Lemma recv_control_ok s :
  conn s → memory s → 0 ≤ utf8_len s ≤ 3 → in_control s →
  wpx (no_memory 0) (nn_sws_recv e s) (λ '(s', rc, m), active_ok s' ∧ rc = 0 ∧ m = recv_msg s ∧ next_hdr s s').
Proof.
  intros Hc Hm Hu (Hi & Hrx & Hfin & Hbt & Hl & Hh0). unfold nn_sws_recv.
  rewrite assert_true by (rewrite (c_state _ Hc); done). rewrite Hi.
  change (NN_SWS_INSTATE_RECVD_CONTROL =? NN_SWS_INSTATE_RECVD_CHUNKED) with false. rewrite Z.eqb_refl. cbv iota.
  destruct (m_inhdr _ Hm) as [Lh _]. destruct (m_control _ Hm) as [Lc _].
  assert (∃ h0, inhdr s !! 0%nat = Some h0 ∧ (h0 = 0x80 + 9 ∨ h0 = 0x80 + 10)) as (h0 & Eh0 & Hh0')
    by (destruct Hh0 as [-> | ->]; eauto).
  unfold rd. rewrite Eh0. step. rewrite (opcode_hdr_ok s h0) by auto. step.
  destruct (chunk_data_ok e He (cur_len s)) as [(b & -> & Lb & _ & _)|[-> Ho]]; [lia| |step; exists (cur_len s); split; [done|lia]].
  step. unfold read_at. rewrite decide_True by lia. step. rewrite drop_0.
  pose proof (write_at_ok [] b [] (take (Z.to_nat (cur_len s)) (inmsg_control s)) 0) as Hw.
  rewrite !app_nil_l, !app_nil_r in Hw. rewrite Hw by (rewrite ?length_take; cbn; lia). step.
  destruct (recv_hdr_ok s Hc Hm Hu Hbt Hrx) as (s' & E & Ha). rewrite E. apply recv_hdr_next in E. step.
  destruct (ws_cmsg_ok (h0 - 0x80)) as (h & -> & ->). step. cbn [wpx].
  split; [exact Ha|]. split; [reflexivity|]. split; [|exact E].
  unfold recv_msg, recv_opcode, recv_body. rewrite Hi, Eh0. reflexivity.
Qed.
End ops.
