(* ===== verification/SwsFrames.v ===== *)
(** * WebSocket connections: frames on the wire

    The frames of RFC 6455 as a reference, what [nn_sws_send] puts on the wire,
    and what a receiver makes of the frames of another implementation. *)
From Stdlib Require Import String.
From S2P Require Import Prelude Wire Chunk Msg Fsm Utf8 Cmsg WsState Sws SwsSafe.

(** ** Frames *)

(** The payload from position [s] of a masked sequence on. *)
Definition mask_from (m : list Z) (s : nat) (l : list Z) : list Z :=
  imap (λ k b, Z.lxor b (m !!! Nat.modulo (s + k) 4)) l.

Definition frame_ctl (n : Z) : Z := if n <=? 125 then n else if n <=? 65535 then 126 else 127.
Definition frame_ext (n : Z) : list Z :=
  if n <=? 125 then [] else if n <=? 65535 then be_split 2 n else be_split 8 n.

(** A frame with first byte [b0]; a client masks with the four bytes [m]. *)
Definition enc_frame (m : option (list Z)) (b0 : Z) (p : list Z) : list Z :=
  let n := Z.of_nat (length p) in
  b0 :: (frame_ctl n + (if m then 0x80 else 0)) :: frame_ext n ++
  match m with Some m => m ++ mask_from m 0 p | None => p end.

(** ** Masking *)

Lemma mask_from_app m s l1 l2 :
  mask_from m s (l1 ++ l2) = mask_from m s l1 ++ mask_from m (s + length l1) l2.
Proof.
  unfold mask_from. rewrite imap_app. f_equal. apply imap_ext. intros i x _. cbn -[Nat.modulo].
  by rewrite Nat.add_assoc.
Qed.

Lemma mask_from_mod m s l : mask_from m (s mod 4) l = mask_from m s l.
Proof. apply imap_ext. intros i x _. cbn beta. by rewrite Nat.Div0.add_mod_idemp_l. Qed.

Lemma length_mask_from m s l : length (mask_from m s l) = length l.
Proof. apply length_imap. Qed.

Lemma mask_from_cons m s b l :
  mask_from m s (b :: l) = Z.lxor b (m !!! Nat.modulo s 4) :: mask_from m (S s) l.
Proof.
  unfold mask_from. cbn -[Nat.modulo]. rewrite Nat.add_0_r. f_equal. apply imap_ext. intros i x _. cbn -[Nat.modulo].
  by rewrite Nat.add_succ_r.
Qed.

Lemma mask_from_twice m s l : mask_from m s (mask_from m s l) = l.
Proof.
  revert s. induction l as [|b l IH]; intros s; [done|]. rewrite !mask_from_cons, IH.
  by rewrite Z.lxor_assoc, Z.lxor_nilpotent, Z.lxor_0_r.
Qed.

Lemma mask_loop_from m start i l :
  length m = 4%nat → 0 ≤ i → 0 ≤ start →
  mask_loop m 4 start i l = Ret (mask_from m (Z.to_nat (i + start)) l).
Proof.
  intros Hm. revert i. induction l as [|b l IH]; intros i Hi Hs; cbn [mask_loop]; [done|].
  assert (Z.to_nat (u32 (i + start) mod 4) = Nat.modulo (Z.to_nat (i + start)) 4) as ->.
  { unfold u32. rewrite <- (Z2Nat.id (i + start)) at 1 by lia. generalize (Z.to_nat (i + start)). intros n.
    change (2 ^ 32) with (4 * 2 ^ 30). apply Nat2Z.inj.
    rewrite Nat2Z.inj_mod, Z2Nat.id by (apply Z.mod_pos_bound; lia).
    Z.to_euclidean_division_equations; lia. }
  destruct (lookup_lt_is_Some_2 m (Nat.modulo (Z.to_nat (i + start)) 4)) as [x Hx];
    [rewrite Hm; apply Nat.mod_upper_bound; lia|].
  unfold rd. rewrite Hx. step. rewrite IH by lia. step. rewrite mask_from_cons. do 3 f_equal.
  - by rewrite (list_lookup_total_correct _ _ _ Hx).
  - lia.
Qed.

Lemma mask_payload_from m start p rest :
  length m = 4%nat → 0 ≤ default 0 start → Z.of_nat (length p) < 2 ^ 32 →
  nn_sws_mask_payload (p ++ rest) (Z.of_nat (length p)) m 4 start =
    Ret (mask_from m (Z.to_nat (default 0 start)) p ++ rest,
         (Z.of_nat (length p) + default 0 start) mod 4).
Proof.
  intros Hm Hs Hl. unfold nn_sws_mask_payload. rewrite (proj2 (Z.leb_gt _ _)) by lia.
  unfold read_at. rewrite Nat2Z.id, decide_True by (rewrite length_app; lia). step.
  rewrite drop_0, take_app_length, mask_loop_from by done. step.
  rewrite Z.add_0_l. pose proof (write_at_ok [] p rest (mask_from m (Z.to_nat (default 0 start)) p) 0) as Hw.
  rewrite !app_nil_l in Hw. rewrite Hw by (rewrite ?length_mask_from; done). step.
  f_equal. f_equal. unfold u32. change (2 ^ 32) with (4 * 2 ^ 30).
  generalize (Z.of_nat (length p) + default 0 start). intros z. Z.to_euclidean_division_equations; lia.
Qed.

(** ** Sending *)

Lemma frame_ctl_range n : 0 ≤ n → 0 ≤ frame_ctl n < 128.
Proof. unfold frame_ctl. repeat case_match; lia. Qed.

Lemma length_frame_ext n : length (frame_ext n) = Z.to_nat (ext_size (frame_ctl n)).
Proof. unfold frame_ext, ext_size, frame_ctl. repeat case_match; try lia; done. Qed.

Lemma length_frame_ext_le n : (length (frame_ext n) ≤ 8)%nat.
Proof. rewrite length_frame_ext. unfold ext_size. repeat case_match; lia. Qed.

Lemma frame_length_ok b0 n : 0 ≤ n < 2 ^ 64 →
  frame_length (b0 :: replicate 13 0) 2 n =
    Ret (b0 :: frame_ctl n :: frame_ext n ++ replicate (12 - length (frame_ext n)) 0,
         2 + Z.of_nat (length (frame_ext n))).
Proof.
  intros Hn. unfold frame_length, frame_ctl, frame_ext, NN_SWS_PAYLOAD_MAX_LENGTH, NN_SWS_PAYLOAD_MAX_LENGTH_16.
  change (rd (b0 :: replicate 13 0) 1) with (@Ret Z 0). step.
  assert (∀ v, wr (b0 :: replicate 13 0) 1 v = Ret (b0 :: v :: replicate 12 0)) as Hwr by done.
  destruct (Z.leb_spec n 125); [|destruct (Z.leb_spec n 65535)].
  - rewrite Hwr. step. cbn [length Nat.sub app]. rewrite Z.lor_0_l. unfold u8. by rewrite Z.mod_small by lia.
  - rewrite Hwr. step. unfold puts_at. change (Z.to_nat 2) with 2%nat. cbn [drop replicate].
    rewrite nn_puts_be. step. rewrite length_be_split. unfold u16. by rewrite Z.mod_small by lia.
  - rewrite Hwr. step. unfold putll_at. change (Z.to_nat 2) with 2%nat. cbn [drop replicate].
    rewrite nn_putll_be. step. by rewrite length_be_split.
Qed.

Lemma lor_128 c : 0 ≤ c < 128 → Z.lor c 0x80 = c + 0x80.
Proof.
  intros Hc. rewrite Z.lor_comm. change 0x80 with (Z.shiftl 1 7) at 1. rewrite shiftl_lor_add by lia. lia.
Qed.

Section send.
Context (e : ws_env) (He : env_ok e).

(** The property that carries the type of a message, and the type it gives. *)
Definition is_ws (c : cmsg) : Prop := c_level c = NN_WS ∧ c_type c = NN_WS_MSG_TYPE.

Definition send_opcode (s : nn_sws) (cs : list cmsg) : Z :=
  match list_find is_ws cs with Some (_, c) => hd 0 (c_data c) | None => msg_type s end.

(** A message with well-formed ancillary data. *)
Record sendable (s : nn_sws) (m : vmsg) (cs : list cmsg) : Prop := {
  sd_hdrs : hdrs m = concat (enc_cmsg <$> cs);
  sd_cs : Forall cmsg_ok cs;
  sd_data : Forall (λ c, is_ws c → c_data c ≠ []) cs;
  sd_len : Z.of_nat (length (hdrs m)) < 2 ^ 63;
  sd_size : Z.of_nat (length (sphdr m ++ body m)) < 2 ^ 63;
  sd_client : mode s = NN_WS_CLIENT → Z.of_nat (length (sphdr m ++ body m)) < 2 ^ 32;
}.

Lemma send_type_ok s m cs : sendable s m cs →
  (cmsg ← msg_type_cmsg (hdrs m);
   match cmsg with Some c => cmsg_data (hdrs m) c | None => Ret (msg_type s) end) =
  Ret (send_opcode s cs).
Proof.
  intros [Hh Hok Hd Hl _ _]. unfold msg_type_cmsg, send_opcode.
  destruct (Z.ltb_spec 0 (Z.of_nat (length (hdrs m)))) as [Hpos|Hz].
  - assert (length cs < S (length (hdrs m)))%nat as Hf.
    { rewrite Hh. clear. induction cs as [|c cs IH]; cbn; [lia|]. rewrite length_app.
      pose proof (enc_cmsg_len c). lia. }
    rewrite Hh in *. destruct (cmsg_find_ok _ cs NN_WS NN_WS_MSG_TYPE Hl Hok Hf) as (r & -> & Hr). step.
    change (list_find _ cs) with (list_find is_ws cs) in Hr.
    destruct (list_find is_ws cs) as [[i c]|] eqn:El; [|by rewrite Hr].
    destruct Hr as (o & -> & Hr). apply list_find_Some in El as (Hi & Hws & _).
    rewrite Forall_lookup in Hd. specialize (Hd i c Hi Hws). destruct (c_data c) as [|b t] eqn:Ed; [done|].
    by apply (Hr b t).
  - step. destruct cs as [|c cs]; [done|]. exfalso. rewrite Hh in Hz. cbn in Hz. rewrite length_app in Hz.
    pose proof (enc_cmsg_len c). lia.
Qed.

Definition send_mask (s : nn_sws) : option (list Z) :=
  if mode s =? NN_WS_CLIENT then Some (e_rand e) else None.

Lemma mask_all m start l : length m = 4%nat → Z.of_nat (length l) < 2 ^ 32 →
  nn_sws_mask_payload l (Z.of_nat (length l)) m 4 (Some (Z.of_nat start mod 4)) =
    Ret (mask_from m start l, Z.of_nat (start + length l) mod 4).
Proof.
  intros Hm Hl. pose proof (mask_payload_from m (Some (Z.of_nat start mod 4)) l [] Hm) as E.
  rewrite !app_nil_r in E. cbn [default id] in E. pose proof (Z.mod_pos_bound (Z.of_nat start) 4).
  rewrite E by (cbn; lia). f_equal. f_equal.
  - rewrite <- (mask_from_mod m start). f_equal. rewrite <- (Nat2Z.id (start mod 4)), Nat2Z.inj_mod. done.
  - rewrite Z.add_mod_idemp_r by lia. f_equal. lia.
Qed.

Lemma take_hdr b0 c (a rep : list Z) k :
  k = 2 + Z.of_nat (length a) → take (Z.to_nat k) (b0 :: c :: a ++ rep) = b0 :: c :: a.
Proof.
  intros ->. replace (Z.to_nat (2 + Z.of_nat (length a))) with (S (S (length a))) by lia.
  cbn [take]. by rewrite take_app_length.
Qed.

Lemma frame_mask_client b0 c ext msg :
  (length ext ≤ 8)%nat → 0 ≤ c < 128 → Z.of_nat (length (sphdr msg ++ body msg)) < 2 ^ 32 →
  frame_mask e NN_WS_CLIENT (b0 :: c :: ext ++ replicate (12 - length ext) 0) (2 + Z.of_nat (length ext)) msg =
    Ret (b0 :: c + 0x80 :: ext ++ e_rand e ++ replicate (8 - length ext) 0, 2 + Z.of_nat (length ext) + 4,
         VMsg (mask_from (e_rand e) 0 (sphdr msg)) (hdrs msg)
              (mask_from (e_rand e) (length (sphdr msg)) (body msg))).
Proof.
  intros Hext Hc Hl. rewrite length_app in Hl. pose proof (env_rand _ He) as Hr.
  unfold frame_mask, NN_SWS_FRAME_SIZE_MASK, NN_SWS_FRAME_BITMASK_MASKED. rewrite Z.eqb_refl.
  assert (∀ v (l : list Z), rd (b0 :: v :: l) 1 = Ret v ∧ ∀ w, wr (b0 :: v :: l) 1 w = Ret (b0 :: w :: l)) as Hrw.
  { intros v l. split; [done|]. intros w. unfold wr. by rewrite decide_True by (cbn; lia). }
  rewrite (proj1 (Hrw _ _)). step. rewrite (proj2 (Hrw _ _)). step. rewrite lor_128 by done.
  replace (12 - length ext)%nat with (4 + (8 - length ext))%nat by lia. rewrite replicate_add.
  rewrite (app_comm_cons _ _ (c + 0x80)), (app_comm_cons _ _ b0).
  rewrite write_at_ok by (cbn; rewrite ?Hr; lia). step.
  pose proof (mask_all (e_rand e) 0 (sphdr msg) Hr) as E1. cbn [Nat.add] in E1.
  change (Z.of_nat 0 mod 4) with 0 in E1. rewrite E1 by lia. step.
  rewrite (mask_all (e_rand e) (length (sphdr msg)) (body msg) Hr) by lia. step.
  by rewrite <- !app_comm_cons.
Qed.

Lemma frame_mask_server b0 c ext k msg : 0 ≤ c →
  frame_mask e NN_WS_SERVER (b0 :: c :: ext) k msg = Ret (b0 :: c :: ext, k, msg).
Proof.
  intros Hc. unfold frame_mask, NN_SWS_FRAME_BITMASK_NOT_MASKED.
  change (rd (b0 :: c :: ext) 1) with (@Ret Z c). step. rewrite Z.lor_0_r.
  change (NN_WS_SERVER =? NN_WS_CLIENT) with false. rewrite Z.eqb_refl. cbv iota.
  unfold wr. by rewrite decide_True by (cbn; lia).
Qed.

Lemma send_ok s m cs :
  conn s → outstate s = NN_SWS_OUTSTATE_IDLE → sendable s m cs →
  ∃ h m', nn_sws_send e s m =
    Ret (set_outstate NN_SWS_OUTSTATE_SENDING
           (set_tx (Some (enc_frame (send_mask s) (Z.lor (send_opcode s cs) 0x80) (sphdr m ++ body m)))
              (set_outmsg m' (set_outhdr h s))), 0).
Proof.
  intros Hc Ho Hs. pose proof Hs as [_ _ _ _ Hsz Hcl]. pose proof (send_type_ok s m cs Hs) as Hty.
  unfold nn_sws_send.
  rewrite assert_true by (by rewrite (c_state _ Hc)). rewrite assert_true by (by rewrite Ho).
  apply bind_Ret in Hty as (cm & -> & Hty). step. rewrite Hty. step. clear Hty.
  set (b0 := Z.lor _ 0x80). set (b0' := Z.lor _ NN_SWS_FRAME_BITMASK_FIN). change b0' with b0. clear b0'. clearbody b0.
  change (wr (replicate NN_SWS_FRAME_MAX_HDR_LEN 0) 0 b0) with (@Ret (list Z) (b0 :: replicate 13 0)). step.
  set (n := Z.of_nat (length (sphdr m ++ body m))) in *.
  assert (u64 (Z.of_nat (length (sphdr m)) + Z.of_nat (length (body m))) = n) as ->.
  { unfold u64, n. rewrite length_app, Z.mod_small; [lia|]. unfold n in Hsz. rewrite length_app in Hsz. lia. }
  unfold NN_SWS_FRAME_SIZE_INITIAL. rewrite frame_length_ok by lia. step.
  pose proof (frame_ctl_range n ltac:(lia)) as Hctl. pose proof (length_frame_ext_le n) as Hext.
  assert (tx s = None) as Htx by (destruct (c_out _ Hc) as [[_ ?]|[E _]]; [done|rewrite Ho in E; done]).
  unfold send_mask, enc_frame, nn_usock_send. fold n.
  destruct (c_mode _ Hc) as [Hm|Hm]; rewrite Hm.
  - rewrite frame_mask_client by (try done; by apply Hcl). step. ssimpl. rewrite Htx.
    rewrite assert_true by done. rewrite Z.eqb_refl. cbn [sphdr body concat]. step.
    rewrite (app_assoc (frame_ext n)), take_hdr by (rewrite length_app, (env_rand _ He); lia).
    rewrite mask_from_app, app_nil_r. cbn [Nat.add app]. rewrite <- !app_assoc. eexists _, _. reflexivity.
  - rewrite frame_mask_server by lia. step. ssimpl. rewrite Htx. rewrite assert_true by done.
    change (NN_WS_SERVER =? NN_WS_CLIENT) with false. cbn [concat]. step.
    rewrite take_hdr by lia. rewrite app_nil_r, Z.add_0_r. cbn [app]. eexists _, _. reflexivity.
Qed.

End send.

(** ** Events

    What can happen to a connection once it is established: the socket reports
    that it has received what it was asked for, that it has sent the frame, an
    error or the end of the stream; the user sends or receives a message. *)
Inductive ws_event :=
| EvReceived (bs : list Z) | EvSent | EvError | EvShutdown | EvSend (m : vmsg) | EvRecv.

Definition ws_step (e : ws_env) (s : nn_sws) (ev : ws_event) : outcome nn_sws :=
  match ev with
  | EvReceived bs => usock_received e s bs
  | EvSent => usock_sent e s
  | EvError => nn_sws_feed e s NN_SWS_SRC_USOCK NN_USOCK_ERROR
  | EvShutdown => nn_sws_feed e s NN_SWS_SRC_USOCK NN_USOCK_SHUTDOWN
  | EvSend m => '(s, _) ← nn_sws_send e s m; Ret s
  | EvRecv => '(s, _, _) ← nn_sws_recv e s; Ret s
  end.

(** The socket reports what it was asked for; the pipe lets the user send while
    nothing is being sent, and receive after a message was announced. *)
Definition ws_legal (s : nn_sws) (ev : ws_event) : Prop :=
  match ev with
  | EvReceived bs =>
      state s = NN_SWS_STATE_ACTIVE ∧ bytes bs ∧ ∃ dst, rx s = Some (dst, Z.of_nat (length bs))
  | EvSent => (state s = NN_SWS_STATE_ACTIVE ∨ state s = NN_SWS_STATE_CLOSING_CONNECTION) ∧ tx s ≠ None
  | EvShutdown => state s = NN_SWS_STATE_ACTIVE ∨ state s = NN_SWS_STATE_CLOSING_CONNECTION
  | EvError =>
      state s = NN_SWS_STATE_ACTIVE ∨ state s = NN_SWS_STATE_CLOSING_CONNECTION ∨
      state s = NN_SWS_STATE_BROKEN_CONNECTION
  | EvSend m => state s = NN_SWS_STATE_ACTIVE ∧ outstate s = NN_SWS_OUTSTATE_IDLE ∧ ∃ cs, sendable s m cs
  | EvRecv => state s = NN_SWS_STATE_ACTIVE ∧
      (instate s = NN_SWS_INSTATE_RECVD_CHUNKED ∨ instate s = NN_SWS_INSTATE_RECVD_CONTROL)
  end.

Section events.
Context (e : ws_env) (He : env_ok e).

Lemma feed_active s src type :
  conn s → nn_sws_feed e s src type = handle_active e s src type.
Proof.
  intros Hc. unfold nn_sws_feed, nn_fsm_feed, nn_sws_handler. rewrite (c_fsm _ Hc), (c_state _ Hc). done.
Qed.

Lemma feed_received s : conn s →
  nn_sws_feed e s NN_SWS_SRC_USOCK NN_USOCK_RECEIVED =
    if instate s =? NN_SWS_INSTATE_RECV_HDR then handle_hdr e s
    else if instate s =? NN_SWS_INSTATE_RECV_HDREXT then handle_hdrext e s
    else if instate s =? NN_SWS_INSTATE_RECV_PAYLOAD then handle_payload e s
    else Fail Abort.
Proof. intros Hc. by rewrite feed_active. Qed.

Lemma write_inhdr s off bs : memory s → (off + length bs ≤ 14)%nat → bytes bs →
  ∃ h, write_at (inhdr s) off bs = Ret h ∧ h = take off (inhdr s) ++ bs ++ drop (off + length bs) (inhdr s) ∧
    memory (set_inhdr h (set_rx None s)).
Proof.
  intros Hm Hl Hb. destruct (m_inhdr _ Hm) as [Lh Bh].
  destruct (write_at_len (inhdr s) off bs) as (h & Hw & Lw & Bw); [lia|]. exists h. split; [done|]. split.
  - unfold write_at in Hw. rewrite decide_True in Hw by lia. by injection Hw.
  - destruct Hm. constructor; ssimpl; try done. split; [lia|by apply Bw].
Qed.

Lemma received_hdr_ok s bs :
  conn s → memory s → 0 ≤ utf8_len s ≤ 3 → in_hdr s → bytes bs → length bs = 2%nat →
  wpx (no_memory e (total_size s)) (usock_received e s bs) sws_ok.
Proof.
  intros Hc Hm Hu (Hi & Hrx & Hbt) Bb Lb. unfold usock_received, usock_fill. rewrite Hrx. step. rewrite Lb.
  change (2 =? Z.of_nat 2) with true. cbv iota. ssimpl.
  destruct (write_inhdr s 0 bs Hm) as (h & -> & Eh & Hm'); [lia|done|]. step.
  rewrite feed_received by (destruct Hc; by constructor). ssimpl. rewrite Hi, Z.eqb_refl.
  destruct bs as [|h0 [|h1 []]]; try done. apply (handle_hdr_ok e He h0 h1 (total_size s)); [|done].
  constructor; ssimpl; try done; [destruct Hc; by constructor|by subst h|by subst h].
Qed.

Lemma received_hdrext_ok s bs :
  conn s → memory s → 0 ≤ utf8_len s ≤ 3 → in_hdrext s → bytes bs → Z.of_nat (length bs) = ext_hdr_len s →
  wpx (no_memory e (total_size s)) (usock_received e s bs) sws_ok.
Proof.
  intros Hc Hm Hu (Hi & Hrx & Hf & Hpos & Hext) Bb Lb. unfold usock_received, usock_fill. rewrite Hrx. step.
  rewrite Lb, Z.eqb_refl. ssimpl.
  assert (ext_size (payload_ctl s) ≤ 8) by (unfold ext_size; repeat case_match; lia).
  assert (mask_size (masked s) ≤ 4) by (by destruct (masked s)).
  destruct (write_inhdr s 2 bs Hm) as (h & -> & Eh & Hm'); [lia|done|]. step.
  rewrite feed_received by (destruct Hc; by constructor). ssimpl. rewrite Hi.
  change (NN_SWS_INSTATE_RECV_HDREXT =? NN_SWS_INSTATE_RECV_HDR) with false. rewrite Z.eqb_refl.
  apply (handle_hdrext_ok e He (set_inhdr h (set_rx None s))); ssimpl; try done; [destruct Hc; by constructor|].
  destruct (m_inhdr _ Hm) as [Lh _].
  assert (h !! 0%nat = inhdr s !! 0%nat) as E0 by (subst h; destruct (inhdr s) as [|a [|b l]]; done).
  unfold frame_ok, between, data_hdr in *. ssimpl. rewrite E0. exact Hf.
Qed.

Lemma received_payload_ok s bs :
  payload (set_rx None s) → instate s = NN_SWS_INSTATE_RECV_PAYLOAD → rx s = Some (RX_cur, cur_len s) →
  bytes bs → Z.of_nat (length bs) = cur_len s →
  wpx (split_code_point s) (usock_received e s bs) sws_ok.
Proof.
  intros Hp Hi Hrx Bb Lb. unfold usock_received, usock_fill. rewrite Hrx. step. rewrite Lb, Z.eqb_refl.
  destruct (cur_buf_ok _ Hp) as (buf & -> & Bbuf & Hl & Hput). step. ssimpl.
  destruct (write_at_len buf 0 bs) as (buf' & -> & Lw & Bw); [lia|]. step.
  destruct (Hput buf' Lw (Bw Bbuf Bb)) as (s' & -> & Hp' & _ & Hs'). step.
  rewrite feed_received by (by destruct Hp').
  assert (instate s' = NN_SWS_INSTATE_RECV_PAYLOAD) as -> by (by destruct Hs' as [-> | [? ->]]).
  change (NN_SWS_INSTATE_RECV_PAYLOAD =? NN_SWS_INSTATE_RECV_HDR) with false.
  change (NN_SWS_INSTATE_RECV_PAYLOAD =? NN_SWS_INSTATE_RECV_HDREXT) with false. rewrite Z.eqb_refl.
  assert (split_code_point s' → split_code_point s) as Hsp by (by destruct Hs' as [-> | [? ->]]).
  eapply wpx_mono; [by apply handle_payload_ok|done|done].
Qed.

Lemma in_payload_payload s :
  conn s → memory s → 0 ≤ utf8_len s ≤ 3 → in_payload s → payload (set_rx None s).
Proof.
  intros Hc Hm Hu (Hi & Hrx & Hf & Hpos & Hmask & Hb).
  constructor; ssimpl; try done; [destruct Hc; by constructor|destruct Hm; by constructor].
Qed.

Lemma received_ok s bs :
  active_ok s → ws_legal s (EvReceived bs) →
  wpx (no_memory e (total_size s) ∨ split_code_point s) (usock_received e s bs) sws_ok.
Proof.
  intros (Hc & Hm & Hu & Hin) (_ & Bb & dst & Hrx).
  destruct Hin as [Hin|[Hin|[Hin|[(_ & Hrx' & _)|(_ & Hrx' & _)]]]]; [| | |congruence..].
  - pose proof Hin as (_ & Hrx' & _). rewrite Hrx in Hrx'. injection Hrx' as -> Hl.
    eapply wpx_mono; [apply received_hdr_ok|by left|done]; try done. lia.
  - pose proof Hin as (_ & Hrx' & _). rewrite Hrx in Hrx'. injection Hrx' as -> Hl.
    eapply wpx_mono; [apply received_hdrext_ok|by left|done]; done.
  - pose proof Hin as (Hi & Hrx' & _). pose proof Hrx' as Hrx2. rewrite Hrx in Hrx2. injection Hrx2 as -> Hl.
    eapply wpx_mono; [apply received_payload_ok|by right|done]; try done. by apply in_payload_payload.
Qed.

Lemma raise_done_ok type s : fsm s = NN_FSM_STATE_ACTIVE → ∃ s', raise_done type s = Ret s' ∧ sws_ok s'.
Proof. intros Hf. eexists. split; [done|]. right. split; [done|]. right. by right. Qed.

Lemma active_keeps s s' :
  active_ok s → conn s' → memory s' → utf8_len s' = utf8_len s →
  (inbound s → inbound s') → active_ok s'.
Proof. intros (_ & _ & Hu & Hin) Hc' Hm' E Hi. split_and!; try done; [rewrite E; lia..|by apply Hi]. Qed.

Lemma sent_eq s b : conn s → tx s = Some b →
  usock_sent e s =
    Ret (call C_sent (set_outmsg (VMsg [] [] []) (set_outstate NN_SWS_OUTSTATE_IDLE (set_tx None s)))).
Proof.
  intros Hc Etx. unfold usock_sent. rewrite Etx. step.
  assert (outstate s = NN_SWS_OUTSTATE_SENDING) as Eo
    by (destruct (c_out _ Hc) as [[_ ?]|[? _]]; [congruence|done]).
  unfold nn_sws_feed, nn_fsm_feed, nn_sws_handler. ssimpl. rewrite (c_fsm _ Hc), (c_state _ Hc).
  cbn [Z.eqb NN_FSM_STATE_ACTIVE NN_FSM_STATE_STOPPING NN_SWS_STATE_IDLE NN_SWS_STATE_ACTIVE
    NN_SWS_STATE_HANDSHAKE NN_SWS_STATE_STOPPING_HANDSHAKE Pos.eqb negb].
  unfold handle_active. rewrite !Z.eqb_refl. ssimpl. by rewrite assert_true by (by rewrite Eo).
Qed.

Lemma active_step_ok s ev :
  active_ok s → ws_legal s ev →
  wpx (no_memory e (total_size s) ∨ split_code_point s) (ws_step e s ev) sws_ok.
Proof.
  intros Ha Hl. pose proof Ha as (Hc & Hm & Hu & Hin). destruct ev as [bs| | | |m|]; cbn [ws_step].
  - by apply received_ok.
  - destruct Hl as [_ Htx]. destruct (tx s) as [b|] eqn:Etx; [|done].
    rewrite (sent_eq s b) by done. cbn [wpx].
    left. eapply active_keeps; [exact Ha| | |done|]; [|destruct Hm; by constructor|intros Hi; exact Hi].
    destruct Hc. constructor; ssimpl; try done. by left.
  - rewrite feed_active by done. unfold handle_active. rewrite Z.eqb_refl.
    cbn [Z.eqb NN_USOCK_ERROR NN_USOCK_SENT NN_USOCK_RECEIVED NN_USOCK_SHUTDOWN Pos.eqb].
    destruct (raise_done_ok NN_SWS_RETURN_ERROR (call C_stop s)) as (s' & -> & Hs'); [apply (c_fsm _ Hc)|done].
  - rewrite feed_active by done. unfold handle_active. rewrite Z.eqb_refl.
    cbn [Z.eqb NN_USOCK_ERROR NN_USOCK_SENT NN_USOCK_RECEIVED NN_USOCK_SHUTDOWN Pos.eqb wpx].
    right. split; [apply (c_fsm _ Hc)|]. right. by left.
  - destruct Hl as (_ & Ho & cs & Hs). destruct (send_ok e He s m cs Hc Ho Hs) as (h & m' & ->). step. cbn [wpx].
    left. eapply active_keeps; [exact Ha| | |done|]; [|destruct Hm; by constructor|intros Hi; exact Hi].
    destruct Hc. constructor; ssimpl; try done. by right.
  - destruct Hl as (_ & Hi). assert (in_message s ∨ in_control s) as Hmc.
    { destruct Hin as [(E & _)|[(E & _)|[(E & _)|[?|?]]]]; [..|by left|by right];
        rewrite E in Hi; destruct Hi as [Hi|Hi]; discriminate Hi. }
    apply wpx_bind. eapply wpx_mono with (P := λ '(s', rc, m), active_ok s' ∧ rc = 0 ∧ m = recv_msg e s).
    + destruct Hmc as [Hmc|Hmc].
      * eapply wpx_mono; [by apply (recv_message_ok e He s)|done|]. intros [[s' rc] m]; tauto.
      * eapply wpx_mono; [by apply (recv_control_ok e He s)|done|]. intros [[s' rc] m]; tauto.
    + intros (n & Ho & Hn). left. exists n. split; [done|]. lia.
    + intros [[s' rc] m] (Ha' & _). by left.
Qed.

Lemma feed_closing s src type :
  fsm s = NN_FSM_STATE_ACTIVE → state s = NN_SWS_STATE_CLOSING_CONNECTION →
  nn_sws_feed e s src type = handle_closing s src type.
Proof. intros Hf Hs. unfold nn_sws_feed, nn_fsm_feed, nn_sws_handler. by rewrite Hf, Hs. Qed.

Lemma feed_broken s src type :
  fsm s = NN_FSM_STATE_ACTIVE → state s = NN_SWS_STATE_BROKEN_CONNECTION →
  nn_sws_feed e s src type = handle_broken s src type.
Proof. intros Hf Hs. unfold nn_sws_feed, nn_fsm_feed, nn_sws_handler. by rewrite Hf, Hs. Qed.

Lemma closed_step_ok s ev :
  closed s → ws_legal s ev → wpx False (ws_step e s ev) sws_ok.
Proof.
  intros (Hf & Hst) Hl.
  assert (state s ≠ NN_SWS_STATE_ACTIVE) as Hna
    by (intros E; rewrite E in Hst; destruct Hst as [[? _]|[?|?]]; discriminate).
  assert (∀ type s', fsm s' = NN_FSM_STATE_ACTIVE → wpx False (raise_done type s') sws_ok) as Hdone.
  { intros type s' Hf'. destruct (raise_done_ok type s' Hf') as (s2 & -> & Hs2). done. }
  destruct ev as [bs| | | |m|]; cbn [ws_step ws_legal] in *; try (by destruct Hl as [? _]).
  - destruct Hl as [[?|Hs] Htx]; [done|]. destruct Hst as [(_ & Ho & _)|[E|E]]; [|rewrite E in Hs; discriminate..].
    unfold usock_sent. destruct (tx s); [|done]. step. rewrite feed_closing by done.
    unfold handle_closing. rewrite !Z.eqb_refl. ssimpl. rewrite assert_true by (by rewrite Ho). by apply Hdone.
  - destruct Hl as [?|[Hs|Hs]]; [done| |].
    + rewrite feed_closing by done. unfold handle_closing. rewrite Z.eqb_refl.
      cbn [Z.eqb NN_USOCK_ERROR NN_USOCK_SENT NN_USOCK_SHUTDOWN Pos.eqb]. by apply Hdone.
    + rewrite feed_broken by done. unfold handle_broken. rewrite !Z.eqb_refl. by apply Hdone.
  - destruct Hl as [?|Hs]; [done|]. rewrite feed_closing by done. unfold handle_closing. rewrite Z.eqb_refl.
    cbn [Z.eqb NN_USOCK_SENT NN_USOCK_SHUTDOWN Pos.eqb wpx]. by right.
Qed.

End events.

(** The connection is opened by its owner and the handshake, and then driven by
    legal events, in whatever surroundings. *)
Definition ws_open (e : ws_env) (mode0 msgtype0 : Z) : outcome nn_sws :=
  s ← nn_sws_start e (nn_sws_init 0 0) mode0 msgtype0;
  s ← nn_sws_feed e s NN_SWS_SRC_HANDSHAKE NN_WS_HANDSHAKE_OK;
  nn_sws_feed e s NN_SWS_SRC_HANDSHAKE NN_WS_HANDSHAKE_STOPPED.

Inductive ws_reach : nn_sws → Prop :=
| WsOpen e mode0 msgtype0 s :
    env_ok e → mode0 = NN_WS_CLIENT ∨ mode0 = NN_WS_SERVER → ws_open e mode0 msgtype0 = Ret s → ws_reach s
| WsStep e s ev s' :
    ws_reach s → env_ok e → ws_legal s ev → ws_step e s ev = Ret s' → ws_reach s'.

(** The object before the handshake, after it, and when the first header is
    awaited. *)
Definition started (mode0 msgtype0 : Z) : nn_sws :=
  let s := set_msg_type msgtype0 (set_mode mode0 (set_usock true (call C_swap_owner (nn_sws_init 0 0)))) in
  call C_handshake_stop (set_fsm NN_FSM_STATE_ACTIVE (call C_handshake_start s)).

Definition opened (mode0 msgtype0 : Z) : nn_sws :=
  set_state NN_SWS_STATE_ACTIVE (set_outstate NN_SWS_OUTSTATE_IDLE
    (set_rx (Some (RX_hdr 0, 2)) (set_instate NN_SWS_INSTATE_RECV_HDR (started mode0 msgtype0)))).

Lemma ws_open_eq e mode0 msgtype0 :
  ws_open e mode0 msgtype0 =
    if e_start_rc e <? 0 then raise_done NN_SWS_RETURN_ERROR
      (set_state NN_SWS_STATE_STOPPING_HANDSHAKE (started mode0 msgtype0))
    else Ret (opened mode0 msgtype0).
Proof.
  unfold ws_open.
  assert ((s ← nn_sws_start e (nn_sws_init 0 0) mode0 msgtype0;
           nn_sws_feed e s NN_SWS_SRC_HANDSHAKE NN_WS_HANDSHAKE_OK) =
          Ret (set_state NN_SWS_STATE_STOPPING_HANDSHAKE (started mode0 msgtype0))) as E.
  { vm_compute. reflexivity. }
  rewrite <- bind_assoc, E. step. unfold nn_sws_feed, nn_fsm_feed.
  change (fsm (set_state NN_SWS_STATE_STOPPING_HANDSHAKE (started mode0 msgtype0))) with NN_FSM_STATE_ACTIVE.
  change (nn_sws_handler e (set_state NN_SWS_STATE_STOPPING_HANDSHAKE (started mode0 msgtype0))
    NN_SWS_SRC_HANDSHAKE NN_WS_HANDSHAKE_STOPPED P_null) with
    (handle_stopping_handshake e (set_state NN_SWS_STATE_STOPPING_HANDSHAKE (started mode0 msgtype0))
       NN_SWS_SRC_HANDSHAKE NN_WS_HANDSHAKE_STOPPED).
  unfold handle_stopping_handshake. rewrite !Z.eqb_refl. cbn [andb].
  change (negb (NN_FSM_STATE_ACTIVE =? NN_FSM_STATE_STOPPING)) with true. cbv iota.
  destruct (e_start_rc e <? 0); vm_compute; reflexivity.
Qed.

Lemma opened_ok mode0 msgtype0 :
  mode0 = NN_WS_CLIENT ∨ mode0 = NN_WS_SERVER →
  active_ok (opened mode0 msgtype0) ∧ in_hdr (opened mode0 msgtype0).
Proof.
  intros Hmode.
  assert (bytes (replicate 14 0) ∧ bytes (replicate 125 0) ∧ bytes (replicate 4 0)) as (B14 & B125 & B4)
    by (split_and!; apply Forall_replicate; unfold is_byte; lia).
  assert (in_hdr (opened mode0 msgtype0)) as Hin by done.
  split; [|done]. split_and!; [constructor|constructor| | |by left]; cbn; try done; try lia. by left.
Qed.

Lemma ws_reach_ok s : ws_reach s → sws_ok s.
Proof.
  induction 1 as [e mode0 msgtype0 s He Hm Ho|e s ev s' _ IH He Hl Hs].
  - rewrite ws_open_eq in Ho. case_match; injection Ho as <-; [|left; by apply opened_ok].
    right. split; [done|]. right. by right.
  - destruct IH as [Ha|Hc].
    + pose proof (active_step_ok e He s ev Ha Hl) as H. by rewrite Hs in H.
    + pose proof (closed_step_ok e s ev Hc Hl) as H. by rewrite Hs in H.
Qed.

(** ** The property *)

(** C29: whatever bytes the peer sends, in whatever pieces, an established WebSocket
    connection stays well formed, and its next event is handled without access out
    of bounds, violated assertion or endless loop, but for two causes of abort:
    a request for memory that fails (for at most 2^31 bytes, or because the sum
    of the announced lengths exceeds 64 bits), and the first byte of a frame that
    completes a code point whose first three bytes ended the frames before (a code
    point of four bytes cut 3+1).  NN_RCVMAXSIZE is a limit, from 0 to 2^31-1:
    without one (-1) a payload of 2^32 bytes keeps the loop that unmasks it going
    for ever.  What the user sends is a message with well-formed properties whose
    length fits; its chunks are the connection's own. *)
Theorem sws_safe e s ev :
  ws_reach s → env_ok e → ws_legal s ev →
  sws_ok s ∧
  ((∃ s', ws_step e s ev = Ret s' ∧ sws_ok s') ∨
   (ws_step e s ev = Fail Abort ∧ (no_memory e (total_size s) ∨ split_code_point s))).
Proof.
  intros Hr He Hl. pose proof (ws_reach_ok s Hr) as Hok. split; [done|].
  assert (wpx (no_memory e (total_size s) ∨ split_code_point s) (ws_step e s ev) sws_ok) as Hw.
  { destruct Hok as [Ha|Hc]; [by apply active_step_ok|]. eapply wpx_mono; [by apply closed_step_ok|done|done]. }
  destruct (ws_step e s ev) as [s'|[]]; cbn in Hw; [left; eauto|by right|done|done].
Qed.

(** A client that is opened and receives the header of a short binary frame. *)
Definition sample_env : ws_env :=
  WsEnv (λ n, n <? 2 ^ 40) (λ _, 0) 0 1048576 [0x11; 0x22; 0x33; 0x44] true.

Lemma sample_env_ok : env_ok sample_env.
Proof.
  constructor; cbn; try done.
  - intros n Hn%Z.ltb_lt. lia.
  - repeat constructor; unfold is_byte; lia.
Qed.

Lemma sws_safe_witness :
  let s := opened NN_WS_CLIENT NN_WS_OPCODE_BINARY in
  sws_ok s ∧
  ((∃ s', ws_step sample_env s (EvReceived [0x82; 3]) = Ret s' ∧ sws_ok s') ∨
   (ws_step sample_env s (EvReceived [0x82; 3]) = Fail Abort ∧
      (no_memory sample_env (total_size s) ∨ split_code_point s))).
Proof.
  cbn zeta. apply sws_safe.
  - apply (WsOpen sample_env NN_WS_CLIENT NN_WS_OPCODE_BINARY); [apply sample_env_ok|by left|].
    vm_compute. reflexivity.
  - apply sample_env_ok.
  - split; [done|]. split; [repeat constructor; unfold is_byte; lia|]. by eexists.
Defined.
