(* ===== verification/SwsSession.v ===== *)
(** * WebSocket connections: messages across the wire

    A receiver turns the frames of a peer into messages: fragments are put
    together, control frames may come between them.  With [send_ok] this gives the
    round trip of the user's messages between a client and a server. *)
From Stdlib Require Import String.
From S2P Require Import Prelude Wire Chunk Msg Fsm Utf8 Cmsg WsState Sws SwsSafe SwsFrames.

(** ** Reference: sequences of frames *)

Record frame := Frame { f_fin : bool; f_op : Z; f_mask : list Z; f_data : list Z }.

Definition f_ctl (f : frame) : bool := (f_op f =? 9) || (f_op f =? 10).
Definition f_byte0 (f : frame) : Z := (if f_fin f then 0x80 else 0) + f_op f.
Definition f_len (f : frame) : Z := Z.of_nat (length (f_data f)).

(** The bytes of a frame for a receiver: a server expects masks. *)
Definition f_enc (mode : Z) (f : frame) : list Z :=
  enc_frame (if mode =? NN_WS_SERVER then Some (f_mask f) else None) (f_byte0 f) (f_data f).

(** A message that is being received: its opcode and its bytes so far. *)
Definition partial : Type := option (Z * list Z).

Definition acc_op (acc : partial) (f : frame) : Z := match acc with None => f_op f | Some (o, _) => o end.
Definition acc_data (acc : partial) : list Z := match acc with None => [] | Some (_, d) => d end.

Definition f_next (acc : partial) (f : frame) : partial :=
  if f_ctl f then acc
  else if f_fin f then None else Some (acc_op acc f, acc_data acc ++ f_data f).

(** The message a frame completes. *)
Definition f_msg (acc : partial) (f : frame) : list (Z * list Z) :=
  if f_ctl f then [(f_op f, f_data f)]
  else if f_fin f then [(acc_op acc f, acc_data acc ++ f_data f)] else [].

(** What RFC 6455 and the limit [max] allow after [acc], with texts cut between
    code points. *)
Definition f_valid (max : Z) (acc : partial) (f : frame) : Prop :=
  bytes (f_data f) ∧ length (f_mask f) = 4%nat ∧ bytes (f_mask f) ∧
  if f_ctl f then f_fin f = true ∧ f_len f ≤ 125
  else
    match acc with None => f_op f = 1 ∨ f_op f = 2 | Some (o, _) => f_op f = 0 ∧ (o = 1 ∨ o = 2) end ∧
    Z.of_nat (length (acc_data acc)) + f_len f ≤ max ∧
    (acc_op acc f = 1 → utf8_text (f_data f)).

Fixpoint fs_valid (max : Z) (acc : partial) (fs : list frame) : Prop :=
  match fs with [] => True | f :: fs => f_valid max acc f ∧ fs_valid max (f_next acc f) fs end.

Fixpoint fs_msgs (acc : partial) (fs : list frame) : list (Z * list Z) :=
  match fs with [] => [] | f :: fs => f_msg acc f ++ fs_msgs (f_next acc f) fs end.

(** ** The receiver's loop

    The socket serves what the object asks for from the stream, and the user
    receives every message as soon as it is announced; the loop ends when the
    stream does not hold what is asked for. *)
Definition receive_body (e : ws_env) (x : nn_sws * list Z * list vmsg) :
    outcome ((nn_sws * list Z * list vmsg) * option unit) :=
  let '(s, stream, msgs) := x in
  match rx s with
  | Some (_, len) =>
      if Z.of_nat (length stream) <? len then Ret (x, Some tt)
      else
        s ← usock_received e s (take (Z.to_nat len) stream);
        Ret ((s, drop (Z.to_nat len) stream, msgs), None)
  | None => '(s, _, m) ← nn_sws_recv e s; Ret ((s, stream, msgs ++ [m]), None)
  end.

Definition ws_receive (fuel : nat) (e : ws_env) (s : nn_sws) (stream : list Z) :
    outcome (nn_sws * list Z * list vmsg) :=
  '(x, _) ← while fuel (receive_body e) (s, stream, []); Ret x.

(** The message the user gets: the opcode in the ancillary data, and the body. *)
Definition user_msg (e : ws_env) (m : Z * list Z) : vmsg :=
  VMsg [] (le 8 24 ++ le 4 (u32 NN_WS) ++ le 4 (u32 NN_WS_MSG_TYPE) ++ m.1 :: (e_junk e <$> seq 17 7)) m.2.

(** ** States of the receiver *)

Definition acc_ok (acc : partial) (s : nn_sws) : Prop :=
  match acc with
  | None => continuing s = false ∧ inmsg_array s = []
  | Some (o, d) => continuing s = true ∧ inmsg_hdr s = 0x80 + o ∧ concat (inmsg_array s) = d ∧ (o = 1 ∨ o = 2)
  end.

(** The next frame is awaited. *)
Record ready (acc : partial) (s : nn_sws) : Prop := {
  r_conn : conn s;
  r_mem : memory s;
  r_len : utf8_len s = 0;
  r_in : instate s = NN_SWS_INSTATE_RECV_HDR;
  r_rx : rx s = Some (RX_hdr 0, 2);
  r_acc : acc_ok acc s;
}.

(** The header of [f] has been parsed; [parsed_acc] is what is known of the message. *)
Definition parsed_acc (acc : partial) (f : frame) (s : nn_sws) : Prop :=
  if f_ctl f then acc_ok acc s
  else
    continuing s = negb (f_fin f) ∧ inmsg_hdr s = 0x80 + acc_op acc f ∧
    concat (inmsg_array s) = acc_data acc ∧ (acc_op acc f = 1 ∨ acc_op acc f = 2) ∧
    (f_op f = 1 ∨ f_op f = 2 ∨ f_op f = 0).

Record parsed (acc : partial) (f : frame) (s : nn_sws) : Prop := {
  d_conn : conn s;
  d_mem : memory s;
  d_len : utf8_len s = 0;
  d_rx : rx s = None;
  d_masked : masked s = (mode s =? NN_WS_SERVER);
  d_ctl : payload_ctl s = frame_ctl (f_len f);
  d_fin : is_final_frame s = f_fin f;
  d_op : opcode s = f_op f;
  d_isctl : is_control_frame s = f_ctl f;
  d_h0 : inhdr s !! 0%nat = Some (f_byte0 f);
  d_acc : parsed_acc acc f s;
}.

(** The frame is complete: its message waits for the user, or the next frame is
    awaited. *)
Definition complete (acc : partial) (f : frame) (s : nn_sws) : Prop :=
  if f_ctl f || f_fin f then
    conn s ∧ memory s ∧ utf8_len s = 0 ∧ (in_message s ∨ in_control s) ∧
    (recv_opcode s, recv_body s) :: nil = f_msg acc f ∧
    (f_ctl f = true → instate s = NN_SWS_INSTATE_RECVD_CONTROL ∧ acc_ok acc s) ∧
    (f_ctl f = false → instate s = NN_SWS_INSTATE_RECVD_CHUNKED)
  else ready (f_next acc f) s.

(** ** The first two bytes *)

Definition known_op (op : Z) : Prop := op = 0 ∨ op = 1 ∨ op = 2 ∨ op = 9 ∨ op = 10.

Lemma valid_op max acc f : f_valid max acc f → known_op (f_op f).
Proof.
  intros (_ & _ & _ & Hf). unfold f_ctl, known_op in *.
  destruct (Z.eqb_spec (f_op f) 9); [by auto 10|]. destruct (Z.eqb_spec (f_op f) 10); [by auto 10|].
  cbn [orb] in Hf. destruct Hf as (Hop & _). destruct acc as [[o d]|]; lia.
Qed.

Lemma byte0_facts f : known_op (f_op f) →
  has_bit (f_byte0 f) 0x40 = false ∧ has_bit (f_byte0 f) 0x20 = false ∧ has_bit (f_byte0 f) 0x10 = false ∧
  has_bit (f_byte0 f) 0x80 = f_fin f ∧ Z.land (f_byte0 f) 15 = f_op f ∧ Z.lor (f_byte0 f) 0x80 = 0x80 + f_op f.
Proof. unfold f_byte0. intros [-> | [-> | [-> | [-> | ->]]]]; by destruct (f_fin f). Qed.

Lemma byte1_facts c (mk : bool) : 0 ≤ c < 128 →
  has_bit (c + (if mk then 0x80 else 0)) 0x80 = mk ∧ Z.land (c + (if mk then 0x80 else 0)) 127 = c.
Proof.
  intros Hc.
  assert (forallb (λ n, let c := Z.of_nat n in
    eqb (has_bit (c + 0x80) 0x80) true && (Z.land (c + 0x80) 127 =? c) &&
    eqb (has_bit (c + 0) 0x80) false && (Z.land (c + 0) 127 =? c)) (seq 0 128) = true) as Hall
    by (vm_compute; reflexivity).
  rewrite forallb_forall in Hall. specialize (Hall (Z.to_nat c)). cbn zeta in Hall.
  rewrite Z2Nat.id in Hall by lia.
  assert (In (Z.to_nat c) (seq 0 128)) as Hin by (apply in_seq; lia). apply Hall in Hin.
  rewrite !andb_true_iff in Hin. destruct Hin as [[[?%eqb_prop ?%Z.eqb_eq] ?%eqb_prop] ?%Z.eqb_eq].
  by destruct mk.
Qed.

Section session.
Context (e : ws_env) (He : env_ok e) (Hroom : ∀ n, n < 2 ^ 32 → e_alloc e n = true).

Definition hdr_flags (fin mk : bool) (s : nn_sws) : nn_sws :=
  set_ext_hdr_len (mask_size mk) (set_masked mk (set_is_final_frame fin s)).
Definition hdr_codes (op c : Z) (mk : bool) (s : nn_sws) : nn_sws :=
  let s := set_payload_ctl c (set_opcode op s) in
  let s := if negb (continuing s) then set_inmsg_hdr (0x80 + op) s else s in
  set_ext_hdr_len (mask_size mk + ext_size c) s.
Definition hdr_kind (f : frame) (s : nn_sws) : nn_sws :=
  if f_op f =? 0 then set_continuing (negb (f_fin f)) (set_is_control_frame false s)
  else if f_op f =? 9 then set_pings_received (s32 (pings_received s + 1)) (set_is_control_frame true s)
  else if f_op f =? 10 then set_pongs_received (s32 (pongs_received s + 1)) (set_is_control_frame true s)
  else
    let s := set_is_control_frame false s in
    if negb (f_fin f) then set_continuing true s else s.

(** The object after the header of [f] in the mode [m]. *)
Definition hdr_state (f : frame) (s : nn_sws) : nn_sws :=
  let mk := mode s =? NN_WS_SERVER in
  hdr_kind f (hdr_codes (f_op f) (frame_ctl (f_len f)) mk (hdr_flags (f_fin f) mk s)).

(** What an unmasked frame without payload leads to. *)
Definition hdr_short (f : frame) (s : nn_sws) : outcome nn_sws :=
  let s := set_cur_len 0 s in
  if f_ctl f then received s NN_SWS_INSTATE_RECVD_CONTROL
  else if f_fin f then received s NN_SWS_INSTATE_RECVD_CHUNKED else nn_sws_recv_hdr s.

Definition empty_short (s : nn_sws) : bool := (ext_hdr_len s =? 0) && (payload_ctl s =? 0).

Lemma opcode_parse max acc f s (mk := mode s =? NN_WS_SERVER) :
  acc_ok acc s → f_valid max acc f →
  rd (inhdr s) 0 = Ret (f_byte0 f) →
  rd (inhdr s) 1 = Ret (frame_ctl (f_len f) + (if mk then 0x80 else 0)) →
  hdr_opcode e (hdr_flags (f_fin f) mk s) =
    go_on (hdr_codes (f_op f) (frame_ctl (f_len f)) mk (hdr_flags (f_fin f) mk s)).
Proof.
  intros Hacc Hv H0 H1. pose proof (valid_op _ _ _ Hv) as Hop.
  destruct (byte0_facts f Hop) as (_ & _ & _ & _ & B5 & B6).
  pose proof (frame_ctl_range (f_len f) ltac:(unfold f_len; lia)) as Hr.
  destruct (byte1_facts (frame_ctl (f_len f)) mk Hr) as [_ C2].
  unfold hdr_opcode. change (inhdr (hdr_flags (f_fin f) mk s)) with (inhdr s). rewrite H0, H1. step.
  unfold NN_SWS_FRAME_BITMASK_OPCODE, NN_SWS_FRAME_BITMASK_LENGTH, NN_SWS_FRAME_BITMASK_FIN. rewrite B5, C2, B6.
  set (s2 := set_payload_ctl _ _).
  assert (negb (continuing s2) && (opcode s2 =? NN_WS_OPCODE_FRAGMENT) = false) as ->.
  { subst s2. unfold hdr_flags. ssimpl. apply andb_false_iff. destruct acc as [[o d]|].
    - left. by destruct Hacc as [-> _].
    - right. apply Z.eqb_neq. unfold NN_WS_OPCODE_FRAGMENT.
      destruct Hv as (_ & _ & _ & Hv). unfold f_ctl in Hv. intros E. rewrite E in Hv. cbn in Hv. lia. }
  unfold hdr_codes. fold s2. set (s3 := if negb (continuing s2) then _ else _).
  assert (payload_ctl s3 = frame_ctl (f_len f) ∧ ext_hdr_len s3 = mask_size mk) as [-> ->]
    by (subst s3; by destruct (continuing s2)).
  unfold NN_SWS_PAYLOAD_MAX_LENGTH, NN_SWS_PAYLOAD_FRAME_16, NN_SWS_PAYLOAD_FRAME_63, ext_size.
  destruct (Z.leb_spec (frame_ctl (f_len f)) 125); [done|].
  change 0x7E with 126. destruct (Z.eqb_spec (frame_ctl (f_len f)) 126); [done|].
  assert (frame_ctl (f_len f) = 127) as -> by (unfold frame_ctl in *; repeat case_match; try lia; done). done.
Qed.

Lemma switch_parse max acc f s :
  conn s → f_valid max acc f → opcode s = f_op f → is_final_frame s = f_fin f →
  payload_ctl s = frame_ctl (f_len f) → ext_hdr_len s = mask_size (mode s =? NN_WS_SERVER) + ext_size (payload_ctl s) →
  continuing s = (if acc then true else false) →
  hdr_switch e s =
    if empty_short (hdr_kind f s) then return_ (hdr_short f (hdr_kind f s)) else go_on (hdr_kind f s).
Proof.
  intros Hc Hv Hop Hfin Hctl Hext Hcn. pose proof (valid_op _ _ _ Hv) as Hk.
  destruct Hv as (_ & _ & _ & Hv).
  assert (empty_short s = true → mode s = NN_WS_CLIENT) as Hm.
  { intros [E%Z.eqb_eq _]%andb_true_iff. apply (mode_client s Hc).
    pose proof (ext_size_pos (payload_ctl s)). pose proof (mask_size_pos (mode s =? NN_WS_SERVER)). lia. }
  unfold hdr_switch, hdr_kind, hdr_short, f_ctl in *.
  destruct Hk as [E|[E|[E|[E|E]]]]; rewrite E in *; rewrite Hop;
    cbn [Z.eqb Pos.eqb orb NN_WS_OPCODE_TEXT NN_WS_OPCODE_BINARY NN_WS_OPCODE_FRAGMENT NN_WS_OPCODE_PING NN_WS_OPCODE_PONG] in *.
  - unfold hdr_fragment, hdr_empty_data, empty_short in *. ssimpl. rewrite Hfin.
    destruct ((ext_hdr_len s =? 0) && (payload_ctl s =? 0)); [|done].
    rewrite assert_true by (by rewrite Hm). by destruct (f_fin f).
  - destruct acc as [[o d]|]; [destruct Hv as [[? _] _]; lia|]. unfold hdr_data, hdr_empty_data, empty_short in *.
    ssimpl. rewrite Hfin, Hcn. destruct (f_fin f); cbn [negb]; ssimpl;
      (destruct ((ext_hdr_len s =? 0) && (payload_ctl s =? 0)); [|done]; rewrite assert_true by (by rewrite Hm); by rewrite ?Hcn).
  - destruct acc as [[o d]|]; [destruct Hv as [[? _] _]; lia|]. unfold hdr_data, hdr_empty_data, empty_short in *.
    ssimpl. rewrite Hfin, Hcn. destruct (f_fin f); cbn [negb]; ssimpl;
      (destruct ((ext_hdr_len s =? 0) && (payload_ctl s =? 0)); [|done]; rewrite assert_true by (by rewrite Hm); by rewrite ?Hcn).
  - destruct Hv as [Hf Hl]. unfold hdr_ping_pong, empty_short in *. ssimpl. rewrite Hfin, Hf.
    rewrite (proj2 (Z.ltb_ge _ _)); [done|]. rewrite Hctl. unfold frame_ctl, NN_SWS_PAYLOAD_MAX_LENGTH.
    destruct (Z.leb_spec (f_len f) 125); lia.
  - destruct Hv as [Hf Hl]. unfold hdr_ping_pong, empty_short in *. ssimpl. rewrite Hfin, Hf.
    rewrite (proj2 (Z.ltb_ge _ _)); [done|]. rewrite Hctl. unfold frame_ctl, NN_SWS_PAYLOAD_MAX_LENGTH.
    destruct (Z.leb_spec (f_len f) 125); lia.
Qed.

Lemma hdr_parse max acc f s :
  conn s → acc_ok acc s → f_valid max acc f →
  rd (inhdr s) 0 = Ret (f_byte0 f) →
  rd (inhdr s) 1 = Ret (frame_ctl (f_len f) + (if mode s =? NN_WS_SERVER then 0x80 else 0)) →
  handle_hdr e s =
    let s4 := hdr_state f s in
    if empty_short s4 then hdr_short f s4 else '(self, _) ← hdr_rest e s4; Ret self.
Proof.
  intros Hc Hacc Hv H0 H1. pose proof (valid_op _ _ _ Hv) as Hop.
  destruct (byte0_facts f Hop) as (B1 & B2 & B3 & B4 & B5 & B6).
  pose proof (frame_ctl_range (f_len f) ltac:(unfold f_len; lia)) as Hr.
  destruct (byte1_facts (frame_ctl (f_len f)) (mode s =? NN_WS_SERVER) Hr) as [C1 C2].
  unfold handle_hdr, hdr_rsv. rewrite H0. step.
  unfold NN_SWS_FRAME_BITMASK_RSV1, NN_SWS_FRAME_BITMASK_RSV2, NN_SWS_FRAME_BITMASK_RSV3.
  rewrite B1, B2, B3. cbn [orb]. unfold and_then at 1, go_on at 1. step.
  assert (hdr_mask e s = go_on (hdr_flags (f_fin f) (mode s =? NN_WS_SERVER) s)) as ->.
  { unfold hdr_mask. rewrite H0, H1. step. unfold NN_SWS_FRAME_BITMASK_FIN, NN_SWS_FRAME_BITMASK_MASKED.
    rewrite B4, C1. ssimpl. destruct (mode s =? NN_WS_SERVER) eqn:Em; [done|].
    destruct (c_mode _ Hc) as [-> | E]; [done|]. rewrite E in Em. done. }
  unfold and_then at 1, go_on at 1. step. rewrite (opcode_parse max acc) by done.
  unfold and_then at 1, go_on at 1. step.
  set (s3 := hdr_codes _ _ _ _).
  assert (conn s3 ∧ opcode s3 = f_op f ∧ is_final_frame s3 = f_fin f ∧ payload_ctl s3 = frame_ctl (f_len f) ∧
    ext_hdr_len s3 = mask_size (mode s3 =? NN_WS_SERVER) + ext_size (payload_ctl s3) ∧
    continuing s3 = continuing s) as (Hc3 & ? & ? & ? & ? & Hcn).
  { subst s3. unfold hdr_codes, hdr_flags. ssimpl. destruct Hc.
    destruct (continuing s) eqn:Ec; cbn [negb]; ssimpl; (split_and!; [by constructor|done..]). }
  assert (continuing s = if acc then true else false) as Hca by (by destruct acc as [[o d]|], Hacc).
  rewrite (switch_parse max acc f s3) by (done || congruence).
  unfold hdr_state. cbn zeta. unfold and_then. destruct (empty_short _); [|done]. unfold return_.
  by destruct (hdr_short _ _).
Qed.
Lemma hdr_state_parsed max acc f s :
  conn s → memory s → utf8_len s = 0 → rx s = None → acc_ok acc s → f_valid max acc f →
  inhdr s !! 0%nat = Some (f_byte0 f) →
  parsed acc f (hdr_state f s) ∧ mode (hdr_state f s) = mode s ∧
  ext_hdr_len (hdr_state f s) = mask_size (mode s =? NN_WS_SERVER) + ext_size (frame_ctl (f_len f)).
Proof.
  intros Hc Hm Hu Hrx Hacc Hv H0. pose proof (valid_op _ _ _ Hv) as Hk. destruct Hv as (_ & _ & _ & Hv).
  assert (view (hdr_state f s) = view s ∧ mode (hdr_state f s) = mode s ∧
    ext_hdr_len (hdr_state f s) = mask_size (mode s =? NN_WS_SERVER) + ext_size (frame_ctl (f_len f)) ∧
    masked (hdr_state f s) = (mode s =? NN_WS_SERVER) ∧ payload_ctl (hdr_state f s) = frame_ctl (f_len f) ∧
    is_final_frame (hdr_state f s) = f_fin f ∧ opcode (hdr_state f s) = f_op f ∧
    is_control_frame (hdr_state f s) = f_ctl f ∧ parsed_acc acc f (hdr_state f s))
    as (Hview & Hmode & Hext & Hmk & Hctl & Hfin & Hop & Hic & Hpa).
  { unfold hdr_state, hdr_kind, hdr_codes, hdr_flags, parsed_acc, f_ctl, acc_op, acc_data in *. ssimpl.
    destruct Hk as [E|[E|[E|[E|E]]]]; rewrite E in *; cbn [Z.eqb Pos.eqb orb] in *;
      destruct acc as [[o d]|]; destruct Hacc as [Hcn Hrest]; rewrite Hcn; cbn [negb] in *;
      destruct (f_fin f); cbn [negb]; unfold view, acc_ok; ssimpl; rewrite ?Hcn, ?Hrest;
      split_and!; try done; try lia; try (destruct Hrest as (? & ? & ?); done). }
  injection Hview as E1 E2 E3 E4 E5 E6 E7 E8 E9 E10 E11 E12 E13.
  split; [|by split]. constructor; try done; try congruence.
  - destruct Hc. constructor; congruence.
  - destruct Hm. constructor; congruence.
Qed.

(** ** The end of a frame *)

Record filled (acc : partial) (f : frame) (s : nn_sws) : Prop := {
  i_conn : conn s;
  i_mem : memory s;
  i_len : utf8_len s = 0;
  i_rx : rx s = None;
  i_fin : is_final_frame s = f_fin f;
  i_h0 : inhdr s !! 0%nat = Some (f_byte0 f);
  i_acc :
    if f_ctl f then
      acc_ok acc s ∧ cur_len s = f_len f ∧ take (length (f_data f)) (inmsg_control s) = f_data f
    else
      continuing s = negb (f_fin f) ∧ inmsg_hdr s = 0x80 + acc_op acc f ∧
      concat (inmsg_array s) = acc_data acc ++ f_data f ∧ (acc_op acc f = 1 ∨ acc_op acc f = 2);
}.

Definition finish (f : frame) (s : nn_sws) : outcome nn_sws :=
  if f_ctl f then received s NN_SWS_INSTATE_RECVD_CONTROL
  else if f_fin f then received s NN_SWS_INSTATE_RECVD_CHUNKED else nn_sws_recv_hdr s.

Lemma next_ready s s' acc :
  active_ok s' → next_hdr s s' → utf8_len s = 0 → acc_ok acc s → ready acc s'.
Proof.
  intros (Hc & Hm & _) (E1 & E2 & E3 & E4 & E5 & E6 & E7) Hu Ha. constructor; try done; [congruence|].
  destruct acc as [[o d]|]; unfold acc_ok in *; by rewrite E5, E6, ?E7.
Qed.

Lemma acc_between acc s : acc_ok acc s → between s.
Proof.
  destruct acc as [[o d]|]; intros Ha; (split; [intros Hc|intros Hc]); unfold data_hdr; cbn in Ha;
    destruct Ha as (E & Ha); rewrite E in Hc; try done. destruct Ha as (-> & _ & [-> | ->]); auto.
Qed.

Lemma finish_ok max acc f s :
  f_valid max acc f → filled acc f s →
  ∃ s', finish f s = Ret s' ∧ complete acc f s' ∧ mode s' = mode s.
Proof.
  intros Hv [Hc Hm Hu Hrx Hfin H0 Hacc]. pose proof (valid_op _ _ _ Hv) as Hk. destruct Hv as (_ & _ & _ & Hv).
  unfold finish, complete, f_msg, f_next.
  destruct (f_ctl f) eqn:Ectl; [|destruct (f_fin f) eqn:Ef]; cbn [orb].
  - destruct Hv as [Hff Hlen]. destruct Hacc as (Ha & Hcl & Htk). eexists. split; [done|]. split; [|done].
    unfold recv_opcode, recv_body. ssimpl. rewrite Hcl. unfold f_len. rewrite Nat2Z.id, Htk, H0.
    split_and!; [destruct Hc; by constructor|destruct Hm; by constructor|done| | |done|done].
    + right. unfold in_control. ssimpl. pose proof (acc_between acc s Ha).
      split_and!; try done; [by rewrite Hfin|rewrite Hcl; unfold f_len; lia|by rewrite Hcl|].
      rewrite H0. unfold f_byte0. rewrite Hff. unfold f_ctl in Ectl.
      apply orb_true_iff in Ectl as [->%Z.eqb_eq | ->%Z.eqb_eq]; auto.
    + cbn [default]. unfold f_byte0. rewrite Hff. do 2 f_equal.
      change (NN_SWS_INSTATE_RECVD_CONTROL =? NN_SWS_INSTATE_RECVD_CHUNKED) with false. cbv iota. unfold id. lia.
  - destruct Hacc as (Hcn & Hh & Hcc & Hops). eexists. split; [done|]. split; [|done].
    unfold recv_opcode, recv_body. ssimpl. rewrite Z.eqb_refl, Hh, Hcc.
    split_and!; [destruct Hc; by constructor|destruct Hm; by constructor|done| |do 2 f_equal; lia|done|done].
    left. unfold in_message, data_hdr. ssimpl. rewrite Hfin, Hh. split_and!; try done.
    destruct Hops as [-> | ->]; auto.
  - destruct Hacc as (Hcn & Hh & Hcc & Hops). cbn [negb] in Hcn.
    assert (acc_ok (Some (acc_op acc f, acc_data acc ++ f_data f)) s) as Ha by done.
    destruct (recv_hdr_ok s Hc Hm) as (s' & E & Has); [lia|by eapply acc_between|done|].
    exists s'. split; [done|]. apply recv_hdr_next in E. split; [by eapply next_ready|]. by destruct E as (_ & _ & ? & _).
Qed.

(** ** The payload *)

(** The payload of [f] is awaited or has just been stored. *)
Record paying (acc : partial) (f : frame) (s : nn_sws) : Prop := {
  g_conn : conn s;
  g_mem : memory s;
  g_len : utf8_len s = 0;
  g_in : instate s = NN_SWS_INSTATE_RECV_PAYLOAD;
  g_cur : cur_len s = f_len f;
  g_masked : masked s = (mode s =? NN_WS_SERVER);
  g_fin : is_final_frame s = f_fin f;
  g_op : opcode s = f_op f;
  g_h0 : inhdr s !! 0%nat = Some (f_byte0 f);
  g_mask : mode s = NN_WS_SERVER → ∃ off, mask s = Some off ∧ read_at (inhdr s) off 4 = Ret (f_mask f);
  g_acc :
    if f_ctl f then cur_buf s = CP_control ∧ acc_ok acc s
    else
      cur_buf s = CP_array ∧
      (∃ pre d, inmsg_array s = pre ++ [d] ∧ length d = length (f_data f) ∧ concat pre = acc_data acc) ∧
      continuing s = negb (f_fin f) ∧ inmsg_hdr s = 0x80 + acc_op acc f ∧ (acc_op acc f = 1 ∨ acc_op acc f = 2);
}.

(** The current buffer: the bytes of the payload, then the rest of the buffer for
    control frames. *)
Lemma paying_buf max acc f s : f_valid max acc f → paying acc f s →
  ∃ d tail, get_cur s = Ret (d ++ tail) ∧ length d = length (f_data f) ∧
    ∀ d', length d' = length (f_data f) → bytes d' →
      ∃ s', put_cur (d' ++ tail) s = Ret s' ∧ paying acc f s' ∧ get_cur s' = Ret (d' ++ tail) ∧
        mode s' = mode s ∧ rx s' = rx s.
Proof.
  intros (_ & _ & _ & Hv) [Hc Hm Hu Hi Hcur Hmk Hfin Hop H0 Hmask Hacc]. unfold get_cur, put_cur.
  destruct (f_ctl f) eqn:Ectl.
  - destruct Hacc as (Hcb & Ha). destruct Hv as [_ Hl]. rewrite Hcb. destruct (m_control _ Hm) as [Lc Bc].
    unfold f_len in Hl.
    exists (take (length (f_data f)) (inmsg_control s)), (drop (length (f_data f)) (inmsg_control s)).
    rewrite take_drop, length_take. split_and!; [done|lia|]. intros d' Hl' Bd'. eexists. split; [done|].
    split; [|split; [ssimpl; by rewrite Hcb|done]].
    constructor; ssimpl; try done; [destruct Hc; by constructor| |by rewrite Ectl].
    destruct Hm. constructor; ssimpl; try done. rewrite length_app, length_drop. split; [lia|].
    auto with nano.
  - destruct Hacc as (Hcb & (pre & d & Harr & Hd & Hpre) & Hrest). rewrite Hcb, Harr, last_snoc.
    exists d, []. rewrite app_nil_r. split_and!; [done|done|]. intros d' Hl' Bd'. rewrite app_nil_r. step.
    rewrite last_insert_last. eexists. split; [done|].
    split; [|split; [ssimpl; by rewrite Hcb, last_snoc|done]].
    constructor; ssimpl; try done; [destruct Hc; by constructor| |].
    + pose proof (m_array _ Hm) as Ma. pose proof (m_total _ Hm) as Mt.
      destruct Hm. constructor; ssimpl; try done.
      * rewrite Harr in Ma. apply Forall_app in Ma as [? _]. apply Forall_app. split; [done|by constructor].
      * rewrite Mt, Harr, !concat_app, !length_app. cbn. rewrite !length_app. cbn. lia.
    + rewrite Ectl. split; [done|]. split; [|done]. exists pre, d'. by rewrite Hl'.
Qed.

Lemma paying_filled acc f s tail :
  paying acc f s → rx s = None → get_cur s = Ret (f_data f ++ tail) → filled acc f s.
Proof.
  intros [Hc Hm Hu Hi Hcur Hmk Hfin Hop H0 Hmask Hacc] Hrx Hg. constructor; try done. unfold get_cur in Hg.
  destruct (f_ctl f).
  - destruct Hacc as (Hcb & Ha). rewrite Hcb in Hg. injection Hg as Hg. split_and!; [done|done|].
    by rewrite Hg, take_app_length.
  - destruct Hacc as (Hcb & (pre & d & Harr & Hd & Hpre) & Hcn & Hh & Hops). rewrite Hcb, Harr, last_snoc in Hg.
    injection Hg as ->. rewrite length_app in Hd. assert (tail = []) as -> by (destruct tail; [done|cbn in Hd; lia]).
    split_and!; try done. by rewrite Harr, concat_app, Hpre, app_nil_r; cbn; rewrite app_nil_r.
Qed.

(** A text that is made of whole code points passes the check. *)
Lemma scan_text l tail pos buf fuel :
  utf8_text l → bytes l → drop pos buf = l ++ tail → (length l < fuel)%nat →
  while fuel (scan_body buf) (pos, Z.of_nat (length l)) = Ret ((pos + length l)%nat, 0, 0).
Proof.
  revert l pos. induction fuel as [|fuel IH]; intros l pos Ht Hb Hdrop Hf; [lia|]. cbn [while].
  unfold scan_body at 2.
  apply utf8_text_inv in Ht as [->|(s & rest & Hs & -> & Ht)].
  - cbn. by rewrite Nat.add_0_r.
  - pose proof (shape_len s Hs) as Hl. rewrite length_app in *.
    rewrite (proj2 (Z.ltb_lt _ _)) by lia. rewrite Hdrop, <- length_app.
    rewrite code_point_app, code_point_shape by done. step.
    rewrite (proj2 (Z.ltb_lt _ _)), (proj2 (Z.leb_le _ _)) by (rewrite ?length_app; lia). step. rewrite Nat2Z.id.
    replace (Z.of_nat (length (s ++ rest)) - Z.of_nat (length s)) with (Z.of_nat (length rest)) by (rewrite length_app; lia).
    apply Forall_app in Hb as [_ Hb].
    rewrite IH; [|done|done| |lia].
    + by rewrite length_app, Nat.add_assoc.
    + rewrite <- drop_drop, Hdrop, <- app_assoc. by rewrite drop_app_length.
Qed.

Lemma validate_text acc f s tail :
  paying acc f s → f_ctl f = false → get_cur s = Ret (f_data f ++ tail) → bytes (f_data f) → utf8_text (f_data f) →
  nn_sws_validate_utf8_chunk e s = finish f (set_utf8_frag (replicate 4 0) (set_utf8_len 0 s)).
Proof.
  intros [Hc Hm Hu Hi Hcur Hmk Hfin Hop H0 Hmask Hacc] Hctl Hg Hb Ht. unfold nn_sws_validate_utf8_chunk.
  rewrite Hu. cbn [Z.eqb negb]. step. rewrite assert_true by (by rewrite Hu). rewrite Hg. step.
  unfold validate_rest. rewrite Hcur. unfold f_len. rewrite Nat2Z.id.
  rewrite (scan_text (f_data f) tail) by (try done; lia). step.
  cbn [Z.eqb NN_SWS_UTF8_INVALID NN_SWS_UTF8_FRAGMENT]. step.
  change (is_final_frame (set_utf8_frag _ _)) with (is_final_frame s). unfold finish. by rewrite Hctl, Hfin.
Qed.

Lemma filled_utf8 acc f s :
  filled acc f s → filled acc f (set_utf8_frag (replicate 4 0) (set_utf8_len 0 s)).
Proof.
  intros [Hc Hm Hu Hrx Hfin H0 Hacc]. constructor; ssimpl; try done; [destruct Hc; by constructor|].
  destruct Hm. constructor; ssimpl; try done. split; [done|]. apply Forall_replicate. unfold is_byte. lia.
Qed.

(** The payload as it is on the wire. *)
Definition f_wire (mode : Z) (f : frame) : list Z :=
  if mode =? NN_WS_SERVER then mask_from (f_mask f) 0 (f_data f) else f_data f.

Lemma length_f_wire mode f : length (f_wire mode f) = length (f_data f).
Proof. unfold f_wire. case_match; [apply length_mask_from|done]. Qed.

Lemma mask_from_bytes m s l : bytes m → bytes l → bytes (mask_from m s l).
Proof.
  intros Bm. revert s. induction l as [|b l IH]; intros s Bl; [constructor|].
  apply Forall_cons in Bl as [Bb Bl]. rewrite mask_from_cons. constructor; [|by apply IH].
  apply lxor_byte; [done|]. destruct (m !! (s mod 4)%nat) as [x|] eqn:Ex.
  - rewrite (list_lookup_total_correct _ _ _ Ex). exact (Forall_lookup_1 _ _ _ _ Bm Ex).
  - rewrite list_lookup_total_alt, Ex. unfold is_byte. cbn. lia.
Qed.

Lemma f_wire_bytes max acc mode f : f_valid max acc f → bytes (f_wire mode f).
Proof. intros (Bd & _ & Bm & _). unfold f_wire. case_match; [by apply mask_from_bytes|done]. Qed.

Lemma unmask_text max acc f s tail :
  f_valid max acc f → max < 2 ^ 31 → paying acc f s → rx s = None →
  get_cur s = Ret (f_wire (mode s) f ++ tail) →
  (∀ d', length d' = length (f_data f) → bytes d' →
      ∃ s', put_cur (d' ++ tail) s = Ret s' ∧ paying acc f s' ∧ get_cur s' = Ret (d' ++ tail) ∧
        mode s' = mode s ∧ rx s' = rx s) →
  ∃ s', unmask s = Ret s' ∧ paying acc f s' ∧ get_cur s' = Ret (f_data f ++ tail) ∧
    mode s' = mode s ∧ rx s' = None.
Proof.
  intros Hv Hmax Hp Hrx Hg Hput. unfold unmask. rewrite (g_masked _ _ _ Hp).
  pose proof (g_mask _ _ _ Hp) as Hmask. unfold f_wire in Hg. destruct (mode s =? NN_WS_SERVER) eqn:Em; [|by exists s].
  rewrite Hg. step. destruct Hmask as (off & -> & Hrd); [by apply Z.eqb_eq|]. step.
  change (Z.to_nat NN_SWS_FRAME_SIZE_MASK) with 4%nat. rewrite Hrd. step.
  rewrite (g_cur _ _ _ Hp). unfold f_len, NN_SWS_FRAME_SIZE_MASK.
  pose proof Hv as (Bd & Lm & Bm & Hv').
  assert (f_len f < 2 ^ 32) as Hlt.
  { destruct (f_ctl f); [lia|]. destruct Hv' as (_ & Hl & _). lia. }
  rewrite <- (length_mask_from (f_mask f) 0 (f_data f)).
  rewrite mask_payload_from by (try done; rewrite length_mask_from; exact Hlt). step.
  cbn [default Z.to_nat]. rewrite mask_from_twice.
  destruct (Hput (f_data f)) as (s' & -> & ? & ? & ? & ?); [done|done|]. exists s'. split_and!; congruence || done.
Qed.

Lemma payload_done max acc f s tail :
  f_valid max acc f → paying acc f s → rx s = None → get_cur s = Ret (f_data f ++ tail) →
  ∃ s', (if opcode s =? NN_WS_OPCODE_TEXT then nn_sws_validate_utf8_chunk e s
         else if opcode s =? NN_WS_OPCODE_BINARY then binary_done s
         else if opcode s =? NN_WS_OPCODE_FRAGMENT then
           if Z.land (inmsg_hdr s) NN_SWS_FRAME_BITMASK_OPCODE =? NN_WS_OPCODE_TEXT
           then nn_sws_validate_utf8_chunk e s
           else binary_done s
         else if (opcode s =? NN_WS_OPCODE_PING) || (opcode s =? NN_WS_OPCODE_PONG) then
           received s NN_SWS_INSTATE_RECVD_CONTROL
         else if opcode s =? NN_WS_OPCODE_CLOSE then nn_sws_acknowledge_close_handshake e s
         else Fail Abort) = Ret s' ∧ complete acc f s' ∧ mode s' = mode s.
Proof.
  intros Hv Hp Hrx Hg. pose proof (paying_filled _ _ _ _ Hp Hrx Hg) as Hfill.
  destruct (finish_ok max acc f s Hv Hfill) as (s1 & E1 & H1).
  destruct (finish_ok max acc f _ Hv (filled_utf8 _ _ _ Hfill)) as (s2 & E2 & H2).
  pose proof (valid_op _ _ _ Hv) as Hk. pose proof Hv as (Bd & _ & _ & Hv').
  assert (f_ctl f = false → acc_op acc f = 1 →
    nn_sws_validate_utf8_chunk e s = Ret s2) as Htext.
  { intros Hctl Hop. rewrite Hctl in Hv'. destruct Hv' as (_ & _ & Ht).
    by rewrite (validate_text acc f s tail Hp Hctl Hg Bd (Ht Hop)). }
  assert (f_ctl f = false → binary_done s = Ret s1) as Hbin.
  { intros Hctl. unfold finish in E1. rewrite Hctl in E1. unfold binary_done. by rewrite (g_fin _ _ _ Hp). }
  pose proof (g_acc _ _ _ Hp) as Hacc. rewrite (g_op _ _ _ Hp). unfold finish, f_ctl, acc_op in *.
  destruct Hk as [E|[E|[E|[E|E]]]]; rewrite E in *;
    cbn [Z.eqb Pos.eqb orb NN_WS_OPCODE_TEXT NN_WS_OPCODE_BINARY NN_WS_OPCODE_FRAGMENT NN_WS_OPCODE_PING NN_WS_OPCODE_PONG] in *.
  - destruct Hacc as (_ & _ & _ & Hh & Hops). rewrite Hh.
    destruct Hops as [Eo|Eo]; rewrite Eo; cbn [Z.eqb Pos.eqb Z.add Pos.add Z.land Pos.land NN_SWS_FRAME_BITMASK_OPCODE].
    + exists s2. by rewrite Htext.
    + exists s1. by rewrite Hbin.
  - exists s2. destruct acc as [[o d]|]; [lia|]. by rewrite Htext.
  - exists s1. by rewrite Hbin.
  - exists s1. split; [exact E1|exact H1].
  - exists s1. split; [exact E1|exact H1].
Qed.

Lemma payload_received max acc f s :
  f_valid max acc f → max < 2 ^ 31 → paying acc f (set_rx None s) → rx s = Some (RX_cur, f_len f) →
  ∃ s', usock_received e s (f_wire (mode s) f) = Ret s' ∧ complete acc f s' ∧ mode s' = mode s.
Proof.
  intros Hv Hmax Hp Hrx. unfold usock_received, usock_fill. rewrite Hrx. step.
  rewrite length_f_wire, Z.eqb_refl.
  destruct (paying_buf max acc f _ Hv Hp) as (d & tail & -> & Ld & Hput). step.
  pose proof (write_at_ok [] d tail (f_wire (mode s) f) 0) as Hw. rewrite !app_nil_l in Hw.
  rewrite Hw by (rewrite ?length_f_wire; done). step.
  destruct (Hput (f_wire (mode s) f)) as (s1 & -> & Hp1 & Hg1 & Hm1 & Hrx1);
    [apply length_f_wire|by eapply f_wire_bytes|]. step.
  rewrite feed_received by (by destruct Hp1). rewrite (g_in _ _ _ Hp1).
  change (NN_SWS_INSTATE_RECV_PAYLOAD =? NN_SWS_INSTATE_RECV_HDR) with false.
  change (NN_SWS_INSTATE_RECV_PAYLOAD =? NN_SWS_INSTATE_RECV_HDREXT) with false. rewrite Z.eqb_refl. cbv iota.
  change (mode (set_rx None s)) with (mode s) in Hm1. unfold handle_payload.
  destruct (unmask_text max acc f s1 tail) as (s2 & -> & Hp2 & Hg2 & Hm2 & Hrx2); try done.
  { by rewrite Hm1. }
  { intros d' Ld' Bd'. destruct (paying_buf max acc f s1 Hv Hp1) as (d2 & tail2 & Hg & Ld2 & Hput2).
    rewrite Hg1 in Hg. injection Hg as Hg. apply app_inj_1 in Hg as [_ ->]; [|by rewrite length_f_wire].
    by apply Hput2. }
  step. destruct (payload_done max acc f s2 tail Hv Hp2 Hrx2 Hg2) as (s' & -> & Hcomp & Hm'). exists s'.
  split; [done|]. split; [done|congruence].
Qed.

(** ** The request for the payload *)

Lemma chunk_room size : 0 ≤ size < 2 ^ 31 → ∃ l, chunk_data e size = Ret l ∧ Z.of_nat (length l) = size ∧ bytes l.
Proof.
  intros Hs. destruct (chunk_data_ok e He size) as [(l & ? & ? & ? & _)|[_ (_ & [?|Ha])]]; [lia|by exists l|lia|].
  by rewrite Hroom in Ha by lia.
Qed.

Lemma start_payload_good acc f s toobig :
  f_valid (e_rcvmaxsize e) acc f → parsed acc f s → cur_len s = f_len f → 0 < f_len f →
  (mode s = NN_WS_SERVER → ∃ off, mask s = Some off ∧ read_at (inhdr s) off 4 = Ret (f_mask f)) →
  ∃ s', start_payload e s toobig = Ret s' ∧ paying acc f (set_rx None s') ∧
    rx s' = Some (RX_cur, f_len f) ∧ mode s' = mode s.
Proof.
  intros (_ & _ & _ & Hv) [Hc Hm Hu Hrx Hmk Hctl Hfin Hop Hic H0 Hacc] Hcl Hpos Hmask.
  unfold start_payload. rewrite Hic. unfold parsed_acc in Hacc. destruct (f_ctl f) eqn:Ectl.
  - unfold go_on, nn_usock_recv. step. ssimpl. rewrite Hrx. rewrite assert_true by done. eexists. split; [done|].
    ssimpl. rewrite Hcl. split; [|done].
    constructor; ssimpl; try done; [destruct Hc; by constructor|destruct Hm; by constructor|by rewrite Ectl].
  - destruct Hv as (Hops & Hl & _). destruct Hacc as (Hcn & Hh & Hcc & Hao & Hfo). ssimpl.
    destruct (env_max _ He) as [Hx0 Hx1]. pose proof (m_total _ Hm) as Mt. rewrite Hcc in Mt.
    assert (u64 (total_size s + cur_len s) = total_size s + f_len f) as ->
      by (rewrite Hcl; apply Z.mod_small; lia).
    assert (u64 (e_rcvmaxsize e) = e_rcvmaxsize e) as -> by (apply Z.mod_small; lia).
    rewrite (proj2 (Z.leb_le _ _)), (proj2 (Z.ltb_ge _ _)) by lia. cbn [andb].
    unfold nn_msg_chunk_new. ssimpl. rewrite Hcl.
    destruct (chunk_room (f_len f)) as (l & -> & Ll & Bl); [lia|]. unfold go_on, nn_usock_recv. step. ssimpl. rewrite Hrx.
    rewrite assert_true by done. eexists. split; [done|]. ssimpl. rewrite Hcl. split; [|done].
    constructor; ssimpl; try done; [destruct Hc; by constructor| |].
    + pose proof (m_array _ Hm). destruct Hm. constructor; ssimpl; try done; [|
        rewrite concat_app, length_app, Hcc; cbn; rewrite app_nil_r; lia|lia].
      apply Forall_app. split; [done|by constructor].
    + rewrite Ectl. split; [done|]. split; [|done]. exists (inmsg_array s), l.
      split_and!; [done| |done]. unfold f_len in Ll. lia.
Qed.

(** ** The whole frame *)

Definition f_mode_mask (mode : Z) (f : frame) : list Z := if mode =? NN_WS_SERVER then f_mask f else [].

Lemma f_enc_eq mode f :
  f_enc mode f =
    [f_byte0 f; frame_ctl (f_len f) + (if mode =? NN_WS_SERVER then 0x80 else 0)] ++
    (frame_ext (f_len f) ++ f_mode_mask mode f) ++ f_wire mode f.
Proof.
  unfold f_enc, enc_frame, f_mode_mask, f_wire, f_len. destruct (mode =? NN_WS_SERVER); cbn [app].
  - by rewrite <- app_assoc.
  - by rewrite app_nil_r.
Qed.

Lemma parsed_filled acc f s : parsed acc f s → f_len f = 0 → cur_len s = 0 → filled acc f s.
Proof.
  intros [Hc Hm Hu Hrx Hmk Hctl Hfin Hop Hic H0 Hacc] Hl Hcl. assert (f_data f = []) as Hd.
  { unfold f_len in Hl. destruct (f_data f); [done|cbn in Hl; lia]. }
  constructor; try done. unfold parsed_acc in Hacc. rewrite Hl, Hd.
  destruct (f_ctl f); [by split_and!|]. rewrite app_nil_r. tauto.
Qed.

Lemma valid_len acc f : f_valid (e_rcvmaxsize e) acc f → 0 ≤ f_len f < 2 ^ 31.
Proof.
  intros (_ & _ & _ & Hv). destruct (env_max _ He). unfold f_len in *.
  destruct (f_ctl f); [lia|]. destruct Hv as (_ & Hl & _). lia.
Qed.

Lemma getll_split v rest : 0 ≤ v < 2 ^ 64 → nn_getll (be_split 8 v ++ rest) = Ret v.
Proof.
  intros Hv. rewrite <- (be_combine_split 8 v) at 2 by done. apply nn_getll_be, (be_split_bytes 8 v).
Qed.

(** Setting the length and the mask keeps what is known of the frame. *)
Lemma parsed_set acc f s l k : parsed acc f s → parsed acc f (set_mask k (set_cur_len l s)).
Proof.
  intros [Hc Hm Hu Hrx Hmk Hctl Hfin Hop Hic H0 Hacc].
  constructor; ssimpl; try done; [destruct Hc; by constructor|destruct Hm; by constructor].
Qed.

Lemma hdrext_length_good f acc s rest :
  f_valid (e_rcvmaxsize e) acc f → parsed acc f s →
  drop 2 (inhdr s) = frame_ext (f_len f) ++ rest →
  hdrext_length s = Ret (Some (set_mask (if mode s =? NN_WS_SERVER
     then Some (2 + Z.to_nat (ext_size (frame_ctl (f_len f))))%nat else None) (set_cur_len (f_len f) s))).
Proof.
  intros Hv Hp Hd. pose proof (valid_len _ _ Hv) as Hl. unfold hdrext_length.
  change (Z.to_nat NN_SWS_FRAME_SIZE_INITIAL) with 2%nat.
  rewrite (d_ctl _ _ _ Hp), (d_masked _ _ _ Hp), Hd.
  unfold NN_SWS_PAYLOAD_MAX_LENGTH, NN_SWS_PAYLOAD_FRAME_16, NN_SWS_PAYLOAD_FRAME_63, frame_ctl, frame_ext, ext_size.
  destruct (Z.leb_spec (f_len f) 125); [|destruct (Z.leb_spec (f_len f) 65535)].
  - rewrite (proj2 (Z.leb_le _ _)) by done. done.
  - cbn [Z.leb Z.compare Pos.compare Pos.compare_cont Z.eqb Pos.eqb]. rewrite nn_gets_split by lia. done.
  - cbn [Z.leb Z.compare Pos.compare Pos.compare_cont Z.eqb Pos.eqb]. rewrite getll_split by lia. done.
Qed.

Lemma hdrext_empty_finish f acc s :
  f_valid (e_rcvmaxsize e) acc f → parsed acc f s → hdrext_empty e s = finish f s.
Proof.
  intros Hv Hp. unfold hdrext_empty, finish. rewrite (d_fin _ _ _ Hp), (d_op _ _ _ Hp), (d_isctl _ _ _ Hp).
  pose proof (valid_op _ _ _ Hv) as Hk. destruct Hv as (_ & _ & _ & Hv).
  assert (f_op f =? NN_WS_OPCODE_CLOSE = false) as -> by (destruct Hk as [-> | [-> | [-> | [-> | ->]]]]; done).
  destruct (f_ctl f); [by destruct Hv as [-> _]|done].
Qed.

(** What follows the header. *)
Definition after_hdr (acc : partial) (f : frame) (s : nn_sws) : Prop :=
  (f_len f = 0 ∧ complete acc f s) ∨
  (0 < f_len f ∧ paying acc f (set_rx None s) ∧ rx s = Some (RX_cur, f_len f)).

Lemma hdrext_received acc f s (x := frame_ext (f_len f) ++ f_mode_mask (mode s) f) :
  f_valid (e_rcvmaxsize e) acc f → parsed acc f (set_rx None s) →
  instate s = NN_SWS_INSTATE_RECV_HDREXT → rx s = Some (RX_hdr 2, ext_hdr_len s) →
  0 < ext_hdr_len s → ext_hdr_len s = Z.of_nat (length x) →
  ∃ s', usock_received e s x = Ret s' ∧ after_hdr acc f s' ∧ mode s' = mode s.
Proof.
  intros Hv Hp Hi Hrx Hpos Hx. pose proof (valid_len _ _ Hv) as Hl. pose proof Hv as (_ & Lm & Bm & _).
  unfold usock_received, usock_fill. rewrite Hrx. step. rewrite Hx, Z.eqb_refl. ssimpl.
  assert (memory s) as Hm by (destruct Hp as [_ [] _ _ _ _ _ _ _ _ _]; constructor; done).
  destruct (m_inhdr _ Hm) as [Lh _].
  assert (bytes x) as Bx.
  { apply bytes_app; [unfold frame_ext; repeat case_match; [constructor|apply be_split_bytes..]|].
    unfold f_mode_mask. case_match; [done|constructor]. }
  assert (length x ≤ 12)%nat as Lx.
  { unfold x. rewrite length_app. pose proof (length_frame_ext_le (f_len f)).
    unfold f_mode_mask. case_match; cbn; lia. }
  destruct (write_inhdr s 2 x Hm) as (h & -> & Eh & Hm'); [lia|done|]. step.
  set (s0 := set_inhdr h (set_rx None s)).
  assert (parsed acc f s0) as Hp0.
  { destruct Hp as [Hc _ Hu _ Hmk Hctl Hfin Hop Hic H0 Hacc]. constructor; ssimpl; try done; [destruct Hc; by constructor|].
    subst h. destruct (inhdr s) as [|a [|b l]]; done. }
  rewrite feed_received by apply (d_conn _ _ _ Hp0). change (instate s0) with (instate s). rewrite Hi.
  change (NN_SWS_INSTATE_RECV_HDREXT =? NN_SWS_INSTATE_RECV_HDR) with false. rewrite Z.eqb_refl. cbv iota.
  unfold handle_hdrext. rewrite assert_true by (change (ext_hdr_len s0) with (ext_hdr_len s); by apply Z.ltb_lt).
  assert (drop 2 h = frame_ext (f_len f) ++ f_mode_mask (mode s) f ++ drop (2 + length x) (inhdr s)) as Hd.
  { rewrite Eh. unfold x. rewrite drop_app_len by (rewrite length_take; lia). by rewrite <- app_assoc. }
  rewrite (hdrext_length_good f acc s0 _ Hv Hp0 Hd). step.
  change (mode s0) with (mode s).
  set (s1 := set_mask _ _). assert (parsed acc f s1) as Hp1 by by apply parsed_set.
  change (cur_len s1) with (f_len f). destruct (Z.eqb_spec (f_len f) 0) as [Ez|Ez].
  - rewrite (hdrext_empty_finish f acc s1 Hv Hp1).
    destruct (finish_ok _ acc f s1 Hv (parsed_filled acc f s1 Hp1 Ez Ez)) as (s' & -> & Hcomp & Hm2). exists s'.
    split; [done|]. split; [by left|done].
  - rewrite assert_true by (apply Z.ltb_lt; lia).
    destruct (start_payload_good acc f s1 "Message size exceeds limit." Hv Hp1) as (s' & -> & Hpay & Hrx' & Hm2);
      [done|lia| |].
    { change (mode s1) with (mode s). intros Em.
      exists (2 + Z.to_nat (ext_size (frame_ctl (f_len f))))%nat. split; [unfold s1; ssimpl; by rewrite Em|].
      change (inhdr s1) with h. rewrite Eh. unfold x, f_mode_mask. rewrite Em, Z.eqb_refl, <- app_assoc.
      rewrite (app_assoc (take 2 (inhdr s))), (app_assoc _ (f_mask f)), <- app_assoc.
      rewrite read_at_ok; [done| |by rewrite Lm].
      rewrite length_app, length_take, length_frame_ext. lia. }
    exists s'. split; [done|]. split; [right; split; [lia|done]|done].
Qed.

(** The first two bytes. *)
Lemma hdr_received acc f s (c := frame_ctl (f_len f) + (if mode s =? NN_WS_SERVER then 0x80 else 0))
    (x := frame_ext (f_len f) ++ f_mode_mask (mode s) f) :
  f_valid (e_rcvmaxsize e) acc f → ready acc s →
  ∃ s', usock_received e s [f_byte0 f; c] = Ret s' ∧ mode s' = mode s ∧
    if decide (x = []) then after_hdr acc f s'
    else parsed acc f (set_rx None s') ∧ instate s' = NN_SWS_INSTATE_RECV_HDREXT ∧
      rx s' = Some (RX_hdr 2, ext_hdr_len s') ∧ 0 < ext_hdr_len s' ∧ ext_hdr_len s' = Z.of_nat (length x).
Proof.
  intros Hv [Hc Hm Hu Hi Hrx Hacc]. pose proof (valid_len _ _ Hv) as Hl. pose proof Hv as (_ & Lm & _).
  unfold usock_received, usock_fill. rewrite Hrx. step. change (2 =? Z.of_nat (length [f_byte0 f; c])) with true. cbv iota. ssimpl.
  destruct (m_inhdr _ Hm) as [Lh _].
  assert (bytes [f_byte0 f; c]) as Bx.
  { pose proof (frame_ctl_range (f_len f) ltac:(lia)). apply Forall_cons. split; [|apply Forall_cons; split; [|constructor]].
    - unfold f_byte0, is_byte. destruct (valid_op _ _ _ Hv) as [-> | [-> | [-> | [-> | ->]]]]; destruct (f_fin f); lia.
    - unfold is_byte, c. case_match; lia. }
  destruct (write_inhdr s 0 [f_byte0 f; c] Hm) as (h & -> & Eh & Hm'); [cbn; lia|done|]. step.
  set (s0 := set_inhdr h (set_rx None s)).
  assert (conn s0) as Hc0 by (destruct Hc; by constructor).
  rewrite feed_received by done. change (instate s0) with (instate s). rewrite Hi, Z.eqb_refl.
  rewrite (hdr_parse (e_rcvmaxsize e) acc f s0) by (try done; by subst h).
  destruct (hdr_state_parsed (e_rcvmaxsize e) acc f s0) as (Hp & Hmo & Hext); try done; [by subst h|].
  change (mode s0) with (mode s) in *. cbn zeta.
  assert (Z.of_nat (length x) = ext_hdr_len (hdr_state f s0)) as Lx.
  { rewrite Hext. unfold x, mask_size, f_mode_mask. rewrite length_app, length_frame_ext.
    pose proof (ext_size_pos (frame_ctl (f_len f))). destruct (mode s =? NN_WS_SERVER); cbn; lia. }
  assert (payload_ctl (hdr_state f s0) = frame_ctl (f_len f)) as Hctl by apply (d_ctl _ _ _ Hp).
  unfold empty_short. rewrite Hctl. destruct (decide (x = [])) as [Ex|Ex].
  - rewrite Ex in Lx. cbn in Lx. rewrite <- Lx. cbn [Z.eqb andb].
    assert (f_len f ≤ 125) as Hs.
    { unfold x in Ex. apply app_eq_nil in Ex as [Ex _]. unfold frame_ext in Ex.
      destruct (Z.leb_spec (f_len f) 125); [done|]. case_match; discriminate Ex. }
    assert (frame_ctl (f_len f) = f_len f) as -> by (unfold frame_ctl; by rewrite (proj2 (Z.leb_le _ _))).
    destruct (Z.eqb_spec (f_len f) 0) as [Ez|Ez].
    + change (hdr_short f (hdr_state f s0)) with (finish f (set_cur_len 0 (hdr_state f s0))).
      assert (parsed acc f (set_cur_len 0 (hdr_state f s0))) as Hp0.
      { destruct Hp as [Hc1 Hm1 ?????????]. constructor; ssimpl; try done; [destruct Hc1; by constructor|destruct Hm1; by constructor]. }
      destruct (finish_ok _ acc f _ Hv (parsed_filled acc f _ Hp0 Ez eq_refl)) as (s' & -> & Hcomp & Hm2).
      exists s'. split; [done|]. split; [by rewrite Hm2|by left].
    + unfold hdr_rest, return_. rewrite <- Lx. cbn [Z.eqb].
      assert (mode s = NN_WS_CLIENT) as Em.
      { destruct (c_mode _ Hc) as [E|E]; [done|]. unfold x, f_mode_mask in Ex. rewrite E, Z.eqb_refl in Ex.
        apply app_eq_nil in Ex as [_ Ex]. rewrite Ex in Lm. done. }
      rewrite assert_true by (by rewrite Hmo, Em). rewrite Hctl.
      assert (frame_ctl (f_len f) = f_len f) as -> by (unfold frame_ctl; by rewrite (proj2 (Z.leb_le _ _))).
      rewrite assert_true by (apply andb_true_iff; unfold NN_SWS_PAYLOAD_MAX_LENGTH; rewrite Z.ltb_lt, Z.leb_le; lia).
      assert (parsed acc f (set_cur_len (f_len f) (hdr_state f s0))) as Hp0.
      { destruct Hp as [Hc1 Hm1 ?????????]. constructor; ssimpl; try done; [destruct Hc1; by constructor|destruct Hm1; by constructor]. }
      destruct (start_payload_good acc f _ "Message larger than application allows." Hv Hp0) as (s' & -> & Hpay & Hrx' & Hm2);
        [done|lia| |].
      { change (mode (set_cur_len _ _)) with (mode (hdr_state f s0)). rewrite Hmo, Em. discriminate. }
      step. exists s'. split; [done|]. split; [by rewrite Hm2|]. right. split; [lia|done].
  - rewrite (proj2 (Z.eqb_neq (ext_hdr_len _) 0)) by (rewrite <- Lx; destruct x; [done|cbn; lia]). cbn [andb].
    unfold hdr_rest, return_, nn_usock_recv. rewrite (proj2 (Z.eqb_neq (ext_hdr_len _) 0)) by (rewrite <- Lx; destruct x; [done|cbn; lia]).
    ssimpl. rewrite (d_rx _ _ _ Hp). rewrite assert_true by done. step. eexists. split; [done|]. ssimpl.
    split; [done|]. split_and!; try done; [|rewrite <- Lx; destruct x; [done|cbn; lia]].
    destruct Hp as [Hc1 Hm1 ?????????]. constructor; ssimpl; try done; [destruct Hc1; by constructor|destruct Hm1; by constructor].
Qed.

(** ** Sequences of frames *)

Lemma recv_ready max acc f s :
  f_valid max acc f → complete acc f s → f_ctl f || f_fin f = true →
  ∃ s', nn_sws_recv e s = Ret (s', 0, default inhabitant (head (user_msg e <$> f_msg acc f))) ∧
    ready (f_next acc f) s' ∧ mode s' = mode s ∧ length (f_msg acc f) = 1%nat.
Proof.
  intros Hv Hcomp Hcf. unfold complete in Hcomp. rewrite Hcf in Hcomp.
  destruct Hcomp as (Hc & Hm & Hu & Hin & Hmsg & Hctl & Hdata).
  assert (∀ s' rc m s0, active_ok s' → rc = 0 → m = recv_msg e s → next_hdr s0 s' → mode s0 = mode s →
    utf8_len s0 = 0 → acc_ok (f_next acc f) s0 →
    ∃ s'', Ret (s', rc, m) = Ret (s'', 0, default inhabitant (head (user_msg e <$> f_msg acc f))) ∧
      ready (f_next acc f) s'' ∧ mode s'' = mode s ∧ length (f_msg acc f) = 1%nat) as Hend.
  { intros s' rc m s0 Ha -> -> Hn Hmo Hu0 Hacc. exists s'. rewrite <- Hmsg. split; [done|].
    split; [by eapply next_ready|]. split; [|done]. destruct Hn as (_ & _ & E & _). congruence. }
  assert (∀ n, oom e n → ¬ (n < 2 ^ 31 ∨ 2 ^ 64 - 0 ≤ n < 2 ^ 64)) as Hno.
  { intros n (Hn & [Hn2|Hn2]) Hor; [lia|]. rewrite Hroom in Hn2 by lia. done. }
  destruct (f_ctl f) eqn:Ectl.
  - destruct (Hctl eq_refl) as [Hi Ha]. destruct Hin as [(E & _)|Hin]; [rewrite Hi in E; discriminate E|].
    pose proof (recv_control_ok e He s Hc Hm ltac:(lia) Hin) as Hw.
    destruct (nn_sws_recv e s) as [[[s' rc] m]|[]]; cbn in Hw; [|by destruct Hw as (n & Ho & Hn); destruct (Hno n Ho)|done..].
    destruct Hw as (? & ? & ? & Hn). eapply (Hend s' rc m s); try done. unfold f_next. by rewrite Ectl.
  - cbn in Hcf. specialize (Hdata eq_refl). destruct Hin as [Hin|(E & _)]; [|rewrite Hdata in E; discriminate E].
    pose proof (recv_message_ok e He s Hc Hm ltac:(lia) Hin) as Hw.
    destruct (nn_sws_recv e s) as [[[s' rc] m]|[]]; cbn in Hw; [|by destruct Hw as (n & Ho & Hn); destruct (Hno n Ho)|done..].
    destruct Hw as (? & ? & ? & Hn). eapply (Hend s' rc m (set_continuing false (set_inmsg_array [] s))); try done.
    unfold f_next. by rewrite Ectl, Hcf.
Qed.

(** [n] turns of the receiver's loop lead from [x] to [y]. *)
Definition runs (n : nat) (x y : nn_sws * list Z * list vmsg) : Prop :=
  ∀ fuel, while (n + fuel) (receive_body e) x = while fuel (receive_body e) y.

Lemma runs_refl x : runs 0 x x.
Proof. done. Qed.

Lemma runs_trans n k x y z : runs n x y → runs k y z → runs (n + k) x z.
Proof. intros H1 H2 fuel. by rewrite <- Nat.add_assoc, H1, H2. Qed.

Lemma runs_receive s s' x rest msgs dst :
  rx s = Some (dst, Z.of_nat (length x)) → usock_received e s x = Ret s' →
  runs 1 (s, x ++ rest, msgs) (s', rest, msgs).
Proof.
  intros Hrx Hr fuel. cbn [while Nat.add]. unfold receive_body at 2. rewrite Hrx.
  rewrite (proj2 (Z.ltb_ge _ _)) by (rewrite length_app; lia).
  rewrite Nat2Z.id, take_app_length, drop_app_length, Hr. by step.
Qed.

Lemma runs_user s s' m rest msgs :
  rx s = None → nn_sws_recv e s = Ret (s', 0, m) → runs 1 (s, rest, msgs) (s', rest, msgs ++ [m]).
Proof. intros Hrx Hr fuel. cbn [while Nat.add]. unfold receive_body at 2. rewrite Hrx, Hr. by step. Qed.

Lemma runs_complete acc f s rest msgs :
  f_valid (e_rcvmaxsize e) acc f → complete acc f s →
  ∃ n s', (n ≤ 1)%nat ∧ runs n (s, rest, msgs) (s', rest, msgs ++ (user_msg e <$> f_msg acc f)) ∧
    ready (f_next acc f) s' ∧ mode s' = mode s.
Proof.
  intros Hv Hcomp. destruct (f_ctl f || f_fin f) eqn:Ecf.
  - destruct (recv_ready _ acc f s Hv Hcomp Ecf) as (s' & Hr & Hready & Hmo & Hlen).
    exists 1%nat, s'. split; [done|]. split; [|done].
    destruct (f_msg acc f) as [|m [|]]; try done. apply runs_user; [|done].
    unfold complete in Hcomp. rewrite Ecf in Hcomp. destruct Hcomp as (_ & _ & _ & [(_ & ? & _)|(_ & ? & _)] & _); done.
  - exists 0%nat, s. split; [lia|]. unfold complete in Hcomp. rewrite Ecf in Hcomp.
    apply orb_false_iff in Ecf as [E1 E2]. unfold f_msg. rewrite E1, E2. cbn [fmap list_fmap]. rewrite app_nil_r.
    by split.
Qed.

Lemma runs_after_hdr acc f s rest msgs :
  f_valid (e_rcvmaxsize e) acc f → after_hdr acc f s →
  ∃ n s', (n ≤ 2)%nat ∧ runs n (s, f_wire (mode s) f ++ rest, msgs) (s', rest, msgs ++ (user_msg e <$> f_msg acc f)) ∧
    ready (f_next acc f) s' ∧ mode s' = mode s.
Proof.
  intros Hv [[Hz Hcomp]|(Hpos & Hp & Hrx)].
  - assert (f_wire (mode s) f = []) as ->.
    { apply length_zero_iff_nil. rewrite length_f_wire. unfold f_len in Hz. lia. }
    destruct (runs_complete acc f s rest msgs Hv Hcomp) as (n & s' & ? & ? & ? & ?). exists n, s'. split; [lia|done].
  - destruct (env_max _ He).
    destruct (payload_received _ acc f s Hv ltac:(lia) Hp Hrx) as (s1 & Hr & Hcomp & Hm1).
    destruct (runs_complete acc f s1 rest msgs Hv Hcomp) as (n & s' & ? & Hruns & ? & ?).
    exists (1 + n)%nat, s'. split; [lia|]. split; [|split; [done|congruence]].
    eapply runs_trans; [|exact Hruns]. eapply runs_receive; [|done]. by rewrite length_f_wire.
Qed.

Lemma runs_frame acc f s rest msgs :
  f_valid (e_rcvmaxsize e) acc f → ready acc s →
  ∃ n s', (n ≤ 4)%nat ∧ runs n (s, f_enc (mode s) f ++ rest, msgs) (s', rest, msgs ++ (user_msg e <$> f_msg acc f)) ∧
    ready (f_next acc f) s' ∧ mode s' = mode s.
Proof.
  intros Hv Hr. destruct (hdr_received acc f s Hv Hr) as (s1 & E1 & Hm1 & H1).
  rewrite f_enc_eq. set (x := frame_ext (f_len f) ++ f_mode_mask (mode s) f) in *.
  rewrite <- app_assoc. set (hd := [f_byte0 f; _]) in *.
  assert (rx s = Some (RX_hdr 0, Z.of_nat (length hd))) as Hrx0 by exact (r_rx _ _ Hr).
  pose proof (runs_receive s s1 hd ((x ++ f_wire (mode s) f) ++ rest) msgs _ Hrx0 E1) as Hruns1.
  destruct (decide (x = [])) as [Ex|Ex].
  - destruct (runs_after_hdr acc f s1 rest msgs Hv H1) as (n & s' & ? & Hruns & ? & ?).
    exists (1 + n)%nat, s'. split; [lia|]. split; [|split; [done|congruence]].
    eapply runs_trans; [exact Hruns1|]. rewrite Ex. cbn [app]. rewrite <- Hm1. exact Hruns.
  - destruct H1 as (Hp & Hi & Hrx & Hpos & Hext).
    destruct (hdrext_received acc f s1 Hv Hp Hi Hrx Hpos) as (s2 & E2 & H2 & Hm2); [by rewrite Hm1|].
    destruct (runs_after_hdr acc f s2 rest msgs Hv H2) as (n & s' & ? & Hruns & ? & ?).
    exists (1 + (1 + n))%nat, s'. split; [lia|]. split; [|split; [done|congruence]].
    eapply runs_trans; [exact Hruns1|]. rewrite <- app_assoc. rewrite Hm1 in E2. fold x in E2.
    eapply runs_trans; [eapply runs_receive; [by rewrite Hrx, Hext|exact E2]|].
    rewrite Hm2, Hm1 in Hruns. exact Hruns.
Qed.

Lemma runs_frames fs : ∀ acc s msgs,
  fs_valid (e_rcvmaxsize e) acc fs → ready acc s →
  ∃ n s' acc', (n ≤ 4 * length fs)%nat ∧
    runs n (s, concat (f_enc (mode s) <$> fs), msgs) (s', [], msgs ++ (user_msg e <$> fs_msgs acc fs)) ∧
    ready acc' s' ∧ mode s' = mode s.
Proof.
  induction fs as [|f fs IH]; intros acc s msgs Hv Hr; cbn [fs_valid fs_msgs] in *.
  - exists 0%nat, s, acc. split; [lia|]. cbn. rewrite app_nil_r. done.
  - destruct Hv as [Hv Hvs]. cbn [fmap list_fmap concat length].
    destruct (runs_frame acc f s (concat (f_enc (mode s) <$> fs)) msgs Hv Hr) as (n & s1 & Hn & Hruns1 & Hr1 & Hm1).
    destruct (IH (f_next acc f) s1 (msgs ++ (user_msg e <$> f_msg acc f)) Hvs Hr1) as (k & s' & acc' & Hk & Hruns2 & Hr2 & Hm2).
    exists (n + k)%nat, s', acc'. split; [lia|]. split; [|split; [done|congruence]].
    eapply runs_trans; [exact Hruns1|]. rewrite fmap_app, app_assoc. rewrite Hm1 in Hruns2. exact Hruns2.
Qed.

Lemma ws_receive_frames fs acc s fuel :
  fs_valid (e_rcvmaxsize e) acc fs → ready acc s → (4 * length fs < fuel)%nat →
  ∃ s' acc', ws_receive fuel e s (concat (f_enc (mode s) <$> fs)) = Ret (s', [], user_msg e <$> fs_msgs acc fs) ∧
    ready acc' s' ∧ mode s' = mode s.
Proof.
  intros Hv Hr Hf. destruct (runs_frames fs acc s [] Hv Hr) as (n & s' & acc' & Hn & Hruns & Hr' & Hm).
  exists s', acc'. split; [|done]. unfold ws_receive.
  replace fuel with (n + S (fuel - n - 1))%nat by lia. rewrite Hruns. cbn [while]. unfold receive_body at 2.
  rewrite (r_rx _ _ Hr'). cbn [length]. by step.
Qed.

End session.

Lemma opened_ready mode0 msgtype0 :
  mode0 = NN_WS_CLIENT ∨ mode0 = NN_WS_SERVER → ready None (opened mode0 msgtype0).
Proof. intros Hm. destruct (opened_ok mode0 msgtype0 Hm) as [(Hc & Hmem & _) _]. by constructor. Qed.

(** ** The properties *)

(** C30: a connection that a peer sends a sequence of well-formed frames to (text and
    binary messages in one or more fragments, with pings and pongs anywhere between
    them) delivers to its user exactly the messages of the sequence, pings and pongs
    included, in order, each with its opcode in the ancillary data and its fragments
    joined, and consumes every byte.  Every fragment of a text must consist of whole
    code points: a valid text that is cut inside a code point, which RFC 6455 allows,
    makes the code fail the connection or abort.  Memory is there for every request
    below 2^32 bytes, and each message respects the limit NN_RCVMAXSIZE, which is
    from 0 to 2^31-1. *)
Theorem sws_session e mode0 msgtype0 fs fuel :
  env_ok e → (∀ n, n < 2 ^ 32 → e_alloc e n = true) → 0 ≤ e_start_rc e →
  mode0 = NN_WS_CLIENT ∨ mode0 = NN_WS_SERVER →
  fs_valid (e_rcvmaxsize e) None fs → (4 * length fs < fuel)%nat →
  ∃ s', (s ← ws_open e mode0 msgtype0; ws_receive fuel e s (concat (f_enc mode0 <$> fs))) =
    Ret (s', [], user_msg e <$> fs_msgs None fs).
Proof.
  intros He Hroom Hrc Hm Hv Hf. rewrite ws_open_eq, (proj2 (Z.ltb_ge _ _)) by done. step.
  destruct (ws_receive_frames e He Hroom fs None (opened mode0 msgtype0) fuel Hv) as (s' & acc' & Hr & _);
    [by apply opened_ready|done|]. by exists s'.
Qed.

(** ** Sending messages *)

(** The user sends the messages one after the other; the bytes on the wire. *)
Fixpoint ws_send_all (e : ws_env) (s : nn_sws) (ms : list vmsg) : outcome (nn_sws * list Z) :=
  match ms with
  | [] => Ret (s, [])
  | m :: ms =>
      '(s, _) ← nn_sws_send e s m;
      bs ← deref (tx s);
      s ← usock_sent e s;
      '(s, rest) ← ws_send_all e s ms;
      Ret (s, bs ++ rest)
  end.

(** The opcode of a message with the properties [cs]. *)
Definition msg_op (msgtype : Z) (cs : list cmsg) : Z :=
  match list_find is_ws cs with Some (_, c) => hd 0 (c_data c) | None => msgtype end.

Definition msg_data (m : vmsg) : list Z := sphdr m ++ body m.

(** The frame of a message. *)
Definition msg_frame (mask : list Z) (msgtype : Z) (mc : vmsg * list cmsg) : frame :=
  Frame true (msg_op msgtype mc.2) mask (msg_data mc.1).

(** A message both ends can handle: of type text or binary, within the limit. *)
Record msg_fits (max msgtype : Z) (mc : vmsg * list cmsg) : Prop := {
  mf_hdrs : hdrs mc.1 = concat (enc_cmsg <$> mc.2);
  mf_cs : Forall cmsg_ok mc.2;
  mf_data : Forall (λ c, is_ws c → c_data c ≠ []) mc.2;
  mf_len : Z.of_nat (length (hdrs mc.1)) < 2 ^ 63;
  mf_bytes : bytes (msg_data mc.1);
  mf_size : Z.of_nat (length (msg_data mc.1)) ≤ max;
  mf_op : msg_op msgtype mc.2 = NN_WS_OPCODE_TEXT ∨ msg_op msgtype mc.2 = NN_WS_OPCODE_BINARY;
  mf_text : msg_op msgtype mc.2 = NN_WS_OPCODE_TEXT → utf8_text (msg_data mc.1);
}.

Lemma msg_frames_valid max mask msgtype mcs :
  length mask = 4%nat → bytes mask → Forall (msg_fits max msgtype) mcs →
  fs_valid max None (msg_frame mask msgtype <$> mcs) ∧
  fs_msgs None (msg_frame mask msgtype <$> mcs) = (λ mc, (msg_op msgtype mc.2, msg_data mc.1)) <$> mcs.
Proof.
  intros Lm Bm. induction 1 as [|mc mcs [] _ [IH1 IH2]]; [done|]. cbn [fmap list_fmap fs_valid fs_msgs].
  assert (f_ctl (msg_frame mask msgtype mc) = false) as Hc.
  { unfold f_ctl. cbn. destruct mf_op0 as [-> | ->]; done. }
  assert (f_next None (msg_frame mask msgtype mc) = None) as -> by (unfold f_next; by rewrite Hc).
  assert (f_msg None (msg_frame mask msgtype mc) = [(msg_op msgtype mc.2, msg_data mc.1)]) as ->
    by (unfold f_msg; by rewrite Hc).
  rewrite IH2. split; [|done]. split; [|done]. unfold f_valid. rewrite Hc. split_and!; try done.
Qed.

Lemma send_all_ok es mcs max : ∀ s,
  env_ok es → max < 2 ^ 31 → conn s → outstate s = NN_SWS_OUTSTATE_IDLE → Forall (msg_fits max (msg_type s)) mcs →
  ∃ s', ws_send_all es s mcs.*1 =
    Ret (s', concat (f_enc (if mode s =? NN_WS_CLIENT then NN_WS_SERVER else NN_WS_CLIENT) <$>
                     (msg_frame (e_rand es) (msg_type s) <$> mcs))).
Proof.
  induction mcs as [|mc mcs IH]; intros s He Hmax Hc Ho Hf; cbn [fmap list_fmap ws_send_all concat]; [by eexists|].
  apply Forall_cons in Hf as [Hmc Hf]. pose proof Hmc as [Hh Hcs Hd Hl Hb Hs Hop Ht].
  assert (sendable s mc.1 mc.2) as Hsend.
  { unfold msg_data in Hs. constructor; try done; [|intros _]; lia. }
  destruct (send_ok es He s mc.1 mc.2 Hc Ho Hsend) as (h & m' & ->). step. ssimpl. step.
  set (s1 := set_outstate _ _).
  assert (conn s1) as Hc1 by (destruct Hc; constructor; ssimpl; try done; by right).
  rewrite (sent_eq es s1 _ Hc1 eq_refl). step.
  set (s2 := call C_sent _).
  assert (conn s2) as Hc2 by (destruct Hc1; constructor; ssimpl; try done; by left).
  destruct (IH s2) as (s' & ->); try done. step. exists s'. f_equal. f_equal. f_equal.
  change (mode s2) with (mode s). change (msg_type s2) with (msg_type s).
  unfold f_enc, msg_frame, f_byte0, send_mask, send_opcode, msg_op. cbn [f_fin f_op f_mask f_data].
  f_equal.
  - destruct (c_mode _ Hc) as [-> | ->]; done.
  - fold (msg_op (msg_type s) mc.2). destruct Hop as [-> | ->]; done.
Qed.

(** C31: between a client and a server, in either direction, the user of the
    receiving end gets exactly the messages the user of the sending end sent, in
    order: the body is the header of the protocol followed by the body, the type
    is the one the sender chose, in the ancillary data or as the default of its
    socket.  The receiving end must have room for every message, and a message
    of type text must be UTF-8. *)
Theorem sws_roundtrip es er mode1 mode2 msgtype1 msgtype2 mcs fuel :
  env_ok es → env_ok er → (∀ n, n < 2 ^ 32 → e_alloc er n = true) → 0 ≤ e_start_rc es → 0 ≤ e_start_rc er →
  (mode1 = NN_WS_CLIENT ∧ mode2 = NN_WS_SERVER ∨ mode1 = NN_WS_SERVER ∧ mode2 = NN_WS_CLIENT) →
  Forall (msg_fits (e_rcvmaxsize er) msgtype1) mcs → (4 * length mcs < fuel)%nat →
  ∃ s' r', (s ← ws_open es mode1 msgtype1;
            '(s, wire) ← ws_send_all es s mcs.*1;
            r ← ws_open er mode2 msgtype2;
            '(r, rest, msgs) ← ws_receive fuel er r wire;
            Ret (s, r, rest, msgs)) =
    Ret (s', r', [], (λ mc, user_msg er (msg_op msgtype1 mc.2, msg_data mc.1)) <$> mcs).
Proof.
  intros Hes Her Hroom Hrc1 Hrc2 Hmodes Hf Hfuel.
  rewrite !ws_open_eq, !(proj2 (Z.ltb_ge _ _)) by done. step.
  assert (mode1 = NN_WS_CLIENT ∨ mode1 = NN_WS_SERVER) as Hm1 by naive_solver.
  assert (mode2 = NN_WS_CLIENT ∨ mode2 = NN_WS_SERVER) as Hm2 by naive_solver.
  destruct (opened_ok mode1 msgtype1 Hm1) as [(Hc & _) _]. destruct (env_max _ Her).
  destruct (send_all_ok es mcs (e_rcvmaxsize er) (opened mode1 msgtype1)) as (s' & ->); try done. step.
  assert ((if mode (opened mode1 msgtype1) =? NN_WS_CLIENT then NN_WS_SERVER else NN_WS_CLIENT) = mode2) as ->
    by (destruct Hmodes as [[-> ->]|[-> ->]]; done).
  destruct (msg_frames_valid (e_rcvmaxsize er) (e_rand es) msgtype1 mcs) as [Hv Hmsgs];
    [apply (env_rand _ Hes)|apply (env_rand_bytes _ Hes)|done|].
  destruct (ws_receive_frames er Her Hroom _ None (opened mode2 msgtype2) fuel Hv) as (r' & acc' & Hr & _);
    [by apply opened_ready|by rewrite length_fmap|].
  change (mode (opened mode2 msgtype2)) with mode2 in Hr.
  change (msg_type (opened mode1 msgtype1)) with msgtype1. rewrite Hr. step. rewrite Hmsgs, <- list_fmap_compose.
  by eexists _, _.
Qed.

(** A server receives a fragmented binary message with a ping between its fragments. *)
Lemma sws_session_witness :
  let fs := [Frame false 2 [1; 2; 3; 4] [10; 20]; Frame true 9 [5; 6; 7; 8] [7]; Frame true 0 [0; 0; 0; 0] [30]] in
  fs_msgs None fs = [(9, [7]); (2, [10; 20; 30])] ∧
  ∃ s', (s ← ws_open sample_env NN_WS_SERVER NN_WS_OPCODE_BINARY;
         ws_receive 13 sample_env s (concat (f_enc NN_WS_SERVER <$> fs))) =
    Ret (s', [], user_msg sample_env <$> fs_msgs None fs).
Proof.
  cbn zeta. split; [done|]. apply sws_session; [apply sample_env_ok| |done|by right| |cbn; lia].
  - intros n Hn. apply Z.ltb_lt. lia.
  - cbn [fs_valid f_next f_ctl f_op f_fin acc_op acc_data f_data Z.eqb Pos.eqb orb].
    repeat split; try (repeat constructor; unfold is_byte; lia); cbn; try lia; try (left + right; lia); done.
Defined.

(** A client sends the text "hi" and then an empty binary message. *)
Lemma sws_roundtrip_witness :
  let mcs := [(VMsg [] [] [0x68; 0x69], []); (VMsg [] (enc_cmsg (Cmsg NN_WS NN_WS_MSG_TYPE [2])) [], [Cmsg NN_WS NN_WS_MSG_TYPE [2]])] in
  ∃ s' r', (s ← ws_open sample_env NN_WS_CLIENT NN_WS_OPCODE_TEXT;
            '(s, wire) ← ws_send_all sample_env s mcs.*1;
            r ← ws_open sample_env NN_WS_SERVER NN_WS_OPCODE_TEXT;
            '(r, rest, msgs) ← ws_receive 9 sample_env r wire;
            Ret (s, r, rest, msgs)) =
    Ret (s', r', [], user_msg sample_env <$> [(1, [0x68; 0x69]); (2, [])]).
Proof.
  intros mcs.
  destruct (sws_roundtrip sample_env sample_env NN_WS_CLIENT NN_WS_SERVER NN_WS_OPCODE_TEXT NN_WS_OPCODE_TEXT mcs 9)
    as (s' & r' & E); [apply sample_env_ok..| |done|done|by left| |cbn; lia|by exists s', r'].
  - intros n Hn. apply Z.ltb_lt. lia.
  - apply Forall_cons. split; [|apply Forall_singleton].
    + constructor; cbn; try done; [repeat constructor; unfold is_byte; lia|by left|].
      intros _. exists [0x68; 0x69]. split; [|done]. repeat constructor; unfold scalar; lia.
    + constructor; cbn; try done; [|by repeat constructor|repeat constructor|by right].
      apply Forall_singleton. by vm_compute.
Defined.
