(* ===== verification/Sinproc.v ===== *)
(** * transports/inproc/sinproc.c, binproc.c and cinproc.c: in-process connections

    Two sockets of one process are connected by two sessions, one in each, that
    call each other's state machines.  Each socket is a context with a lock and
    two queues of events: its own, processed before the lock is released
    ([nn_fsm_raise]), and the events for the other context ([nn_fsm_raiseto]),
    which the thread that leaves the context takes with it and delivers
    afterwards, entering the other context once per event (aio/ctx.c).

    The code of a session is written from its own point of view: [me] is the side
    it runs on and [you] the other one.  A session is reached through the list of
    its endpoint, which has no other one; [i_peer] is "the pointer to the peer is
    not NULL". *)
From S2P Require Import Prelude Msg Fsm Pipe Msgqueue.

(** ** Constants *)

Definition NN_SINPROC_CONNECT : Z := 1.
Definition NN_SINPROC_READY : Z := 2.
Definition NN_SINPROC_ACCEPTED : Z := 3.
Definition NN_SINPROC_SENT : Z := 4.
Definition NN_SINPROC_RECEIVED : Z := 5.
Definition NN_SINPROC_DISCONNECT : Z := 6.
Definition NN_SINPROC_STOPPED : Z := 7.

Definition NN_SINPROC_SRC_PEER : Z := 27713.

Definition NN_SINPROC_STATE_IDLE : Z := 1.
Definition NN_SINPROC_STATE_CONNECTING : Z := 2.
Definition NN_SINPROC_STATE_READY : Z := 3.
Definition NN_SINPROC_STATE_ACTIVE : Z := 4.
Definition NN_SINPROC_STATE_DISCONNECTED : Z := 5.
Definition NN_SINPROC_STATE_STOPPING_PEER : Z := 6.
Definition NN_SINPROC_STATE_STOPPING : Z := 7.

Definition NN_SINPROC_ACTION_READY : Z := 1.
Definition NN_SINPROC_ACTION_ACCEPTED : Z := 2.

Definition NN_SINPROC_FLAG_SENDING : Z := 1.
Definition NN_SINPROC_FLAG_RECEIVING : Z := 2.

Definition NN_BINPROC_STATE_IDLE : Z := 1.
Definition NN_BINPROC_STATE_ACTIVE : Z := 2.
Definition NN_BINPROC_STATE_STOPPING : Z := 3.
Definition NN_BINPROC_SRC_SINPROC : Z := 1.

Definition NN_CINPROC_STATE_IDLE : Z := 1.
Definition NN_CINPROC_STATE_ACTIVE : Z := 2.
Definition NN_CINPROC_STATE_STOPPING : Z := 3.
Definition NN_CINPROC_SRC_SINPROC : Z := 1.

(** ** The state *)

(** The message queue of a session has its own heap. *)
Record nn_sinproc := Sinproc {
  i_fsm : Z;
  i_state : Z;
  i_flags : Z;
  i_peer : bool;
  i_pipe : nn_pipebase;
  i_queue : mheap * nn_msgqueue;
  i_msg : vmsg;
}.

(** The events of a context: those of the pipe go to the socket, those of the
    session to its endpoint, that of the endpoint to the socket. *)
Inductive iev : Set := IE_pipe (type : Z) | IE_disconnect | IE_stopped | IE_ep_stopped.

#[export] Instance iev_eq_dec : EqDecision iev.
Proof. solve_decision. Defined.

(** What does not change: whether the endpoint is bound (binproc.c) or connected
    (cinproc.c), NN_RCVBUF, the options of the endpoint, and the answer of
    [nn_sock_add] to the pipe. *)
Record iconf := IConf { n_bind : bool; n_rcvbuf : Z; n_options : nn_ep_options; n_add_rc : Z }.

(** A context with its endpoint.  [p_q] and [p_to] are its queues; [p_net] are the
    events for this context on their way, one batch for each thread that carries
    some: the flag says that the thread has taken the first one out of its queue.
    [p_out] and [p_in]: the protocol was told that the pipe is writable or
    readable, and has not used it since.  [p_sent] and [p_rcvd]: the messages the
    protocol sent and received. *)
Record nproc := Proc {
  p_conf : iconf;
  p_fsm : Z;
  p_state : Z;
  p_sess : option nn_sinproc;
  p_q : list iev;
  p_to : list Z;
  p_net : list (bool * list Z);
  p_out : bool;
  p_in : bool;
  p_sent : list vmsg;
  p_rcvd : list vmsg;
}.

Record duo := Duo { me : nproc; you : nproc }.

Definition set_i_fsm (v : Z) (x : nn_sinproc) : nn_sinproc :=
  Sinproc v (i_state x) (i_flags x) (i_peer x) (i_pipe x) (i_queue x) (i_msg x).
Definition set_i_state (v : Z) (x : nn_sinproc) : nn_sinproc :=
  Sinproc (i_fsm x) v (i_flags x) (i_peer x) (i_pipe x) (i_queue x) (i_msg x).
Definition set_i_flags (v : Z) (x : nn_sinproc) : nn_sinproc :=
  Sinproc (i_fsm x) (i_state x) v (i_peer x) (i_pipe x) (i_queue x) (i_msg x).
Definition set_i_peer (v : bool) (x : nn_sinproc) : nn_sinproc :=
  Sinproc (i_fsm x) (i_state x) (i_flags x) v (i_pipe x) (i_queue x) (i_msg x).
Definition set_i_pipe (v : nn_pipebase) (x : nn_sinproc) : nn_sinproc :=
  Sinproc (i_fsm x) (i_state x) (i_flags x) (i_peer x) v (i_queue x) (i_msg x).
Definition set_i_queue (v : mheap * nn_msgqueue) (x : nn_sinproc) : nn_sinproc :=
  Sinproc (i_fsm x) (i_state x) (i_flags x) (i_peer x) (i_pipe x) v (i_msg x).
Definition set_i_msg (v : vmsg) (x : nn_sinproc) : nn_sinproc :=
  Sinproc (i_fsm x) (i_state x) (i_flags x) (i_peer x) (i_pipe x) (i_queue x) v.

Definition set_p_fsm (v : Z) (p : nproc) : nproc :=
  Proc (p_conf p) v (p_state p) (p_sess p) (p_q p) (p_to p) (p_net p) (p_out p) (p_in p) (p_sent p) (p_rcvd p).
Definition set_p_state (v : Z) (p : nproc) : nproc :=
  Proc (p_conf p) (p_fsm p) v (p_sess p) (p_q p) (p_to p) (p_net p) (p_out p) (p_in p) (p_sent p) (p_rcvd p).
Definition set_p_sess (v : option nn_sinproc) (p : nproc) : nproc :=
  Proc (p_conf p) (p_fsm p) (p_state p) v (p_q p) (p_to p) (p_net p) (p_out p) (p_in p) (p_sent p) (p_rcvd p).
Definition set_p_q (v : list iev) (p : nproc) : nproc :=
  Proc (p_conf p) (p_fsm p) (p_state p) (p_sess p) v (p_to p) (p_net p) (p_out p) (p_in p) (p_sent p) (p_rcvd p).
Definition set_p_to (v : list Z) (p : nproc) : nproc :=
  Proc (p_conf p) (p_fsm p) (p_state p) (p_sess p) (p_q p) v (p_net p) (p_out p) (p_in p) (p_sent p) (p_rcvd p).
Definition set_p_net (v : list (bool * list Z)) (p : nproc) : nproc :=
  Proc (p_conf p) (p_fsm p) (p_state p) (p_sess p) (p_q p) (p_to p) v (p_out p) (p_in p) (p_sent p) (p_rcvd p).
Definition set_p_told (o i : bool) (p : nproc) : nproc :=
  Proc (p_conf p) (p_fsm p) (p_state p) (p_sess p) (p_q p) (p_to p) (p_net p) o i (p_sent p) (p_rcvd p).
Definition set_p_msgs (sent rcvd : list vmsg) (p : nproc) : nproc :=
  Proc (p_conf p) (p_fsm p) (p_state p) (p_sess p) (p_q p) (p_to p) (p_net p) (p_out p) (p_in p) sent rcvd.

Definition on_me (f : nproc → nproc) (d : duo) : duo := Duo (f (me d)) (you d).
Definition on_you (f : nproc → nproc) (d : duo) : duo := Duo (me d) (f (you d)).
Definition swap (d : duo) : duo := Duo (you d) (me d).

(** ** Events *)

Definition iraise (x : iev) (d : duo) : outcome duo :=
  nn_assert (bool_decide (x ∉ p_q (me d)));; Ret (on_me (set_p_q (p_q (me d) ++ [x])) d).

(** The events on their way to [p], whose other side is [from]. *)
Definition flying (p from : nproc) : list Z := concat (snd <$> p_net p) ++ p_to from.

(** The object of an event: [event_connect] serves for three. *)
Definition event_obj (type : Z) : Z :=
  if (type =? NN_SINPROC_READY) || (type =? NN_SINPROC_ACCEPTED) then NN_SINPROC_CONNECT else type.

(** [nn_fsm_raiseto] to the other side: [nn_queue_push] asserts that the object
    is in no queue.  An object that a thread has taken and not yet delivered would
    be overwritten; this is taken for a failure too. *)
Definition raiseto (type : Z) (d : duo) : outcome duo :=
  nn_assert (forallb (λ t, negb (event_obj t =? event_obj type)) (flying (you d) (me d)));;
  nn_assert (negb ((type =? NN_SINPROC_DISCONNECT) && bool_decide (IE_disconnect ∈ p_q (you d))));;
  Ret (on_me (set_p_to (p_to (me d) ++ [type])) d).

(** [nn_fsm_event_active] for an event of this session that the peer raises. *)
Definition event_active (type : Z) (d : duo) : bool :=
  existsb (λ b : bool * list Z, existsb (Z.eqb type) (if fst b then drop 1 (snd b) else snd b)) (p_net (me d)) ||
  existsb (Z.eqb type) (p_to (you d)) ||
  ((type =? NN_SINPROC_DISCONNECT) && bool_decide (IE_disconnect ∈ p_q (me d))).

(** [event_connect] is raised to the peer. *)
Definition connect_active (d : duo) : bool :=
  existsb (λ b : bool * list Z, existsb (λ t, event_obj t =? NN_SINPROC_CONNECT) (if fst b then drop 1 (snd b) else snd b))
    (p_net (you d)) ||
  existsb (λ t, event_obj t =? NN_SINPROC_CONNECT) (p_to (me d)).

(** ** sinproc.c *)

Definition self (d : duo) : outcome nn_sinproc := deref (p_sess (me d)).

(** [self->peer], dereferenced. *)
Definition peer (d : duo) : outcome nn_sinproc :=
  x ← self d; if i_peer x then deref (p_sess (you d)) else Fail Crash.

Definition on_self (f : nn_sinproc → nn_sinproc) (d : duo) : duo := on_me (λ p, set_p_sess (option_map f (p_sess p)) p) d.
Definition on_peer (f : nn_sinproc → nn_sinproc) (d : duo) : duo := on_you (λ p, set_p_sess (option_map f (p_sess p)) p) d.

Definition sess_fsm (d : duo) : Z := match p_sess (me d) with Some x => i_fsm x | None => 0 end.
Definition set_sess_fsm (d : duo) (v : Z) : duo := on_self (set_i_fsm v) d.
Definition stopped_active (d : duo) : bool := bool_decide (IE_stopped ∈ p_q (me d)).

(** An event for the peer, through the object of the peer. *)
Definition raise_peer (type : Z) (d : duo) : outcome duo := _ ← peer d; raiseto type d.

(** *** The pipe (core/pipe.c on the session's own pipe) *)

Definition on_pipe (f : nn_pipebase → nn_pipebase) (d : duo) : duo := on_self (λ x, set_i_pipe (f (i_pipe x)) x) d.

Definition sess_pipe_start (d : duo) : outcome (duo * Z) :=
  x ← self d;
  nn_assert (pstate (i_pipe x) =? NN_PIPEBASE_STATE_IDLE);;
  let d := on_pipe (λ b, Pipebase NN_PIPEBASE_STATE_ACTIVE IN_ASYNC OUT_IDLE (pipedata b) (poptions b)) d in
  let rc := n_add_rc (p_conf (me d)) in
  if rc <? 0 then Ret (on_pipe (λ b, set_pstate b NN_PIPEBASE_STATE_FAILED) d, rc)
  else d ← iraise (IE_pipe NN_PIPE_OUT) d; Ret (d, 0).

(** [nn_sock_rm] makes the protocol forget the pipe. *)
Definition sess_pipe_stop (d : duo) : outcome duo :=
  x ← self d;
  let d := if pstate (i_pipe x) =? NN_PIPEBASE_STATE_ACTIVE then on_me (set_p_told false false) d else d in
  Ret (on_pipe (λ b, set_pstate b NN_PIPEBASE_STATE_IDLE) d).

Definition sess_pipe_received (d : duo) : outcome duo :=
  x ← self d;
  if decide (instate (i_pipe x) = IN_RECEIVING) then Ret (on_pipe (λ b, set_in b IN_RECEIVED) d)
  else
    nn_assert (bool_decide (instate (i_pipe x) = IN_ASYNC));;
    iraise (IE_pipe NN_PIPE_IN) (on_pipe (λ b, set_in b IN_IDLE) d).

Definition sess_pipe_sent (d : duo) : outcome duo :=
  x ← self d;
  if decide (outstate (i_pipe x) = OUT_SENDING) then Ret (on_pipe (λ b, set_out b OUT_SENT) d)
  else
    nn_assert (bool_decide (outstate (i_pipe x) = OUT_ASYNC));;
    iraise (IE_pipe NN_PIPE_OUT) (on_pipe (λ b, set_out b OUT_IDLE) d).

(** *** Life cycle *)

Definition nn_sinproc_init (c : iconf) : nn_sinproc :=
  Sinproc NN_FSM_STATE_IDLE NN_SINPROC_STATE_IDLE 0 false
    (Pipebase NN_PIPEBASE_STATE_IDLE IN_DEACTIVATED OUT_DEACTIVATED None (n_options c))
    (nn_msgqueue_init mheap_empty (n_rcvbuf c)) (VMsg [] [] []).

Definition nn_sinproc_isidle (d : duo) : bool := nn_fsm_isidle sess_fsm stopped_active d.

(** The queue holds fewer messages than the fuel. *)
Definition nn_sinproc_term (d : duo) : outcome unit :=
  x ← self d;
  let '(h, q) := i_queue x in
  _ ← nn_msgqueue_term (S (Z.to_nat (mq_count q))) h q;
  nn_assert (pstate (i_pipe x) =? NN_PIPEBASE_STATE_IDLE);;
  nn_fsm_term sess_fsm stopped_active d.

(** The flags of a session. *)
Definition flag (f : Z) (x : nn_sinproc) : bool := negb (Z.land (i_flags x) f =? 0).
Definition raise_flag (f : Z) (x : nn_sinproc) : nn_sinproc := set_i_flags (Z.lor (i_flags x) f) x.
Definition clear_flag (f : Z) (x : nn_sinproc) : nn_sinproc := set_i_flags (Z.land (i_flags x) (Z.lnot f)) x.

Definition nn_sinproc_send (d : duo) (msg : vmsg) : outcome (duo * Z) :=
  x ← self d;
  if i_state x =? NN_SINPROC_STATE_DISCONNECTED then Ret (d, - ECONNRESET)
  else
    nn_assert (i_state x =? NN_SINPROC_STATE_ACTIVE);;
    nn_assert (negb (flag NN_SINPROC_FLAG_SENDING x));;
    let nmsg := VMsg [] [] (sphdr msg ++ body msg) in
    let d := on_self (raise_flag NN_SINPROC_FLAG_SENDING) (on_self (set_i_msg nmsg) d) in
    d ← raise_peer NN_SINPROC_SENT d;
    Ret (d, 0).

(** A message that did not fit into the queue is waiting at the peer. *)
Definition recv_lingering (d : duo) : outcome duo :=
  x ← self d;
  if i_state x =? NN_SINPROC_STATE_DISCONNECTED then Ret d
  else if flag NN_SINPROC_FLAG_RECEIVING x then
    y ← peer d;
    '(h, q, rc) ← nn_msgqueue_send (i_queue x).1 (i_queue x).2 (i_msg y);
    let d := on_self (set_i_queue (h, q)) d in
    nn_assert ((rc =? 0) || (rc =? - EAGAIN));;
    if rc =? 0 then
      d ← raise_peer NN_SINPROC_RECEIVED (on_peer (set_i_msg (VMsg [] [] [])) d);
      Ret (on_self (clear_flag NN_SINPROC_FLAG_RECEIVING) d)
    else Ret d
  else Ret d.

Definition nn_sinproc_recv (d : duo) : outcome (duo * Z * vmsg) :=
  x ← self d;
  nn_assert ((i_state x =? NN_SINPROC_STATE_ACTIVE) || (i_state x =? NN_SINPROC_STATE_DISCONNECTED));;
  '(h, q, rc, m) ← nn_msgqueue_recv (i_queue x).1 (i_queue x).2;
  nn_assert (rc =? 0);;
  msg ← deref m;
  d ← recv_lingering (on_self (set_i_queue (h, q)) d);
  x ← self d;
  d ← (if negb (nn_msgqueue_empty (i_queue x).2) then sess_pipe_received d else Ret d);
  Ret (d, 0, msg).

Definition nn_sinproc_shutdown_events (d : duo) (src type : Z) (ptr : srcptr) : outcome duo :=
  x ← self d;
  let st := i_state x in
  if (src =? NN_FSM_ACTION) && (type =? NN_FSM_STOP) then
    if negb (st =? NN_SINPROC_STATE_IDLE) && negb (st =? NN_SINPROC_STATE_DISCONNECTED) then
      d ← sess_pipe_stop d;
      nn_assert ((i_fsm x =? 2) || (i_fsm x =? 3));;
      d ← raise_peer NN_SINPROC_DISCONNECT d;
      Ret (on_self (set_i_state NN_SINPROC_STATE_STOPPING_PEER) d)
    else Ret (on_self (set_i_state NN_SINPROC_STATE_STOPPING) d)
  else if ((src =? NN_FSM_ACTION) || (src =? NN_SINPROC_SRC_PEER)) && (type =? NN_SINPROC_RECEIVED) then Ret d
  else if st =? NN_SINPROC_STATE_STOPPING_PEER then
    if src =? NN_SINPROC_SRC_PEER then
      if type =? NN_SINPROC_DISCONNECT then Ret (on_self (set_i_state NN_SINPROC_STATE_STOPPING) d) else Ret d
    else nn_fsm_bad st src type
  else nn_fsm_bad st src type.

(** The session is stopped when the peer is and no event for it is on its way. *)
Definition sinproc_check_stopped (d : duo) : outcome duo :=
  x ← self d;
  if negb (i_state x =? NN_SINPROC_STATE_STOPPING) then Ret d
  else if event_active NN_SINPROC_RECEIVED d || event_active NN_SINPROC_DISCONNECT d then Ret d
  else
    nn_assert (negb (connect_active d));;
    nn_assert (negb (event_active NN_SINPROC_SENT d));;
    nn_fsm_stopped sess_fsm set_sess_fsm (λ d t, iraise IE_stopped d) d NN_SINPROC_STOPPED.

Definition nn_sinproc_shutdown (d : duo) (src type : Z) (ptr : srcptr) : outcome duo :=
  x ← self d;
  nn_assert (i_fsm x =? 3);;
  d ← nn_sinproc_shutdown_events d src type ptr;
  sinproc_check_stopped d.

(** *** The handler, by state *)

Definition sinproc_connecting (d : duo) (src type : Z) : outcome duo :=
  if src =? NN_FSM_ACTION then
    if type =? NN_SINPROC_ACTION_READY then Ret (on_self (set_i_state NN_SINPROC_STATE_READY) d)
    else nn_fsm_bad NN_SINPROC_STATE_CONNECTING src type
  else if src =? NN_SINPROC_SRC_PEER then
    if type =? NN_SINPROC_READY then
      '(d, rc) ← sess_pipe_start (on_self (set_i_peer true) d);
      nn_assert (rc =? 0);;
      raiseto NN_SINPROC_ACCEPTED (on_self (set_i_state NN_SINPROC_STATE_ACTIVE) d)
    else nn_fsm_bad NN_SINPROC_STATE_CONNECTING src type
  else nn_fsm_bad NN_SINPROC_STATE_CONNECTING src type.

Definition sinproc_ready (d : duo) (src type : Z) : outcome duo :=
  if src =? NN_SINPROC_SRC_PEER then
    if type =? NN_SINPROC_READY then
      '(d, rc) ← sess_pipe_start d;
      nn_assert (rc =? 0);;
      Ret (on_self (set_i_state NN_SINPROC_STATE_ACTIVE) d)
    else if type =? NN_SINPROC_ACCEPTED then
      '(d, rc) ← sess_pipe_start d;
      if negb (rc =? 0) then
        d ← sess_pipe_stop d;
        iraise IE_disconnect (on_self (set_i_peer false) (on_self (set_i_state NN_SINPROC_STATE_DISCONNECTED) d))
      else Ret (on_self (set_i_state NN_SINPROC_STATE_ACTIVE) d)
    else nn_fsm_bad NN_SINPROC_STATE_READY src type
  else nn_fsm_bad NN_SINPROC_STATE_READY src type.

(** NN_SINPROC_SENT: the peer has a message in its [msg]. *)
Definition sinproc_sent (d : duo) : outcome duo :=
  x ← self d;
  let empty := nn_msgqueue_empty (i_queue x).2 in
  y ← peer d;
  '(h, q, rc) ← nn_msgqueue_send (i_queue x).1 (i_queue x).2 (i_msg y);
  let d := on_self (set_i_queue (h, q)) d in
  if rc =? - EAGAIN then Ret (on_self (raise_flag NN_SINPROC_FLAG_RECEIVING) d)
  else
    nn_assert (rc =? 0);;
    let d := on_peer (set_i_msg (VMsg [] [] [])) d in
    d ← (if empty then sess_pipe_received d else Ret d);
    raise_peer NN_SINPROC_RECEIVED d.

Definition sinproc_received (d : duo) : outcome duo :=
  x ← self d;
  nn_assert (flag NN_SINPROC_FLAG_SENDING x);;
  d ← sess_pipe_sent d;
  Ret (on_self (clear_flag NN_SINPROC_FLAG_SENDING) d).

Definition sinproc_disconnect (d : duo) : outcome duo :=
  d ← sess_pipe_stop d;
  d ← raise_peer NN_SINPROC_DISCONNECT d;
  iraise IE_disconnect (on_self (set_i_peer false) (on_self (set_i_state NN_SINPROC_STATE_DISCONNECTED) d)).

Definition sinproc_active (d : duo) (src type : Z) : outcome duo :=
  if src =? NN_SINPROC_SRC_PEER then
    if type =? NN_SINPROC_SENT then sinproc_sent d
    else if type =? NN_SINPROC_RECEIVED then sinproc_received d
    else if type =? NN_SINPROC_DISCONNECT then sinproc_disconnect d
    else nn_fsm_bad NN_SINPROC_STATE_ACTIVE src type
  else nn_fsm_bad NN_SINPROC_STATE_ACTIVE src type.

Definition nn_sinproc_handler (d : duo) (src type : Z) (ptr : srcptr) : outcome duo :=
  x ← self d;
  let st := i_state x in
  if st =? NN_SINPROC_STATE_IDLE then
    if (src =? NN_FSM_ACTION) && (type =? NN_FSM_START) then
      Ret (on_self (set_i_state NN_SINPROC_STATE_CONNECTING) d)
    else nn_fsm_bad st src type
  else if st =? NN_SINPROC_STATE_CONNECTING then sinproc_connecting d src type
  else if st =? NN_SINPROC_STATE_READY then sinproc_ready d src type
  else if st =? NN_SINPROC_STATE_ACTIVE then sinproc_active d src type
  else if st =? NN_SINPROC_STATE_DISCONNECTED then
    if (src =? NN_SINPROC_SRC_PEER) && (type =? NN_SINPROC_RECEIVED) then Ret d else nn_fsm_bad st src type
  else nn_fsm_bad st src type.

Definition sess_start (d : duo) : outcome duo :=
  nn_fsm_start sess_fsm set_sess_fsm stopped_active nn_sinproc_handler d.

Definition nn_sinproc_connect (d : duo) : outcome duo := d ← sess_start d; raiseto NN_SINPROC_CONNECT d.

Definition nn_sinproc_accept (d : duo) : outcome duo :=
  x ← self d;
  nn_assert (negb (i_peer x));;
  let d := on_self (set_i_peer true) d in
  d ← raiseto NN_SINPROC_READY d;
  d ← sess_start d;
  nn_fsm_action sess_fsm nn_sinproc_handler nn_sinproc_shutdown d NN_SINPROC_ACTION_READY.

Definition nn_sinproc_stop (d : duo) : outcome duo := nn_fsm_stop sess_fsm set_sess_fsm nn_sinproc_shutdown d.

Definition sess_feed : duo → Z → Z → srcptr → outcome duo :=
  nn_fsm_feed sess_fsm nn_sinproc_handler nn_sinproc_shutdown.

(** ** binproc.c and cinproc.c: the endpoints *)

Definition ep_fsm (d : duo) : Z := p_fsm (me d).
Definition set_ep_fsm (d : duo) (v : Z) : duo := on_me (set_p_fsm v) d.

(** A new session, added to the list of the endpoint. *)
Definition new_sess (d : duo) : duo := on_me (λ p, set_p_sess (Some (nn_sinproc_init (p_conf p))) p) d.

(** Taking a session off the list, terminating it and freeing it. *)
Definition free_sess (d : duo) : outcome duo := nn_sinproc_term d;; Ret (on_me (set_p_sess None) d).

Definition stop_sess (d : duo) : outcome duo :=
  match p_sess (me d) with Some _ => nn_sinproc_stop d | None => Ret d end.

Definition nn_binproc_connect (d : duo) : outcome duo :=
  nn_assert (p_state (me d) =? NN_BINPROC_STATE_ACTIVE);; nn_sinproc_connect (new_sess d).
Definition nn_cinproc_connect (d : duo) : outcome duo :=
  nn_assert (p_state (me d) =? NN_CINPROC_STATE_ACTIVE);; nn_sinproc_connect (new_sess d).

(** The endpoint stops when its last session is gone; [nn_ep_stopped] tells the socket. *)
Definition binproc_finish (d : duo) : outcome duo :=
  match p_sess (me d) with
  | Some _ => Ret d
  | None =>
      d ← nn_fsm_stopped_noevent ep_fsm set_ep_fsm (on_me (set_p_state NN_BINPROC_STATE_IDLE) d);
      iraise IE_ep_stopped d
  end.
Definition cinproc_finish (d : duo) : outcome duo :=
  match p_sess (me d) with
  | Some _ => Ret d
  | None =>
      d ← nn_fsm_stopped_noevent ep_fsm set_ep_fsm (on_me (set_p_state NN_CINPROC_STATE_IDLE) d);
      iraise IE_ep_stopped d
  end.

Definition nn_binproc_shutdown (d : duo) (src type : Z) (ptr : srcptr) : outcome duo :=
  if (src =? NN_FSM_ACTION) && (type =? NN_FSM_STOP) then
    d ← stop_sess d; binproc_finish (on_me (set_p_state NN_BINPROC_STATE_STOPPING) d)
  else if p_state (me d) =? NN_BINPROC_STATE_STOPPING then
    nn_assert ((src =? NN_BINPROC_SRC_SINPROC) && (type =? NN_SINPROC_STOPPED));;
    d ← free_sess d; binproc_finish d
  else nn_fsm_bad (p_state (me d)) src type.

(** The object of any event is taken off the list; that of an event from the other
    side is not on it. *)
Definition nn_cinproc_shutdown (d : duo) (src type : Z) (ptr : srcptr) : outcome duo :=
  if (src =? NN_FSM_ACTION) && (type =? NN_FSM_STOP) then
    d ← stop_sess d; cinproc_finish (on_me (set_p_state NN_CINPROC_STATE_STOPPING) d)
  else if p_state (me d) =? NN_CINPROC_STATE_STOPPING then
    if src =? NN_CINPROC_SRC_SINPROC then d ← free_sess d; cinproc_finish d else Fail Crash
  else nn_fsm_bad (p_state (me d)) src type.

Definition nn_binproc_handler (d : duo) (src type : Z) (ptr : srcptr) : outcome duo :=
  let st := p_state (me d) in
  if st =? NN_BINPROC_STATE_IDLE then
    if (src =? NN_FSM_ACTION) && (type =? NN_FSM_START) then Ret (on_me (set_p_state NN_BINPROC_STATE_ACTIVE) d)
    else nn_fsm_bad st src type
  else if st =? NN_BINPROC_STATE_ACTIVE then
    if src =? NN_SINPROC_SRC_PEER then
      if type =? NN_SINPROC_CONNECT then nn_sinproc_accept (new_sess d) else nn_fsm_bad st src type
    else if src =? NN_BINPROC_SRC_SINPROC then
      if type =? NN_SINPROC_STOPPED then free_sess d
      else if type =? NN_SINPROC_DISCONNECT then nn_sinproc_stop d
      else Ret d
    else nn_fsm_bad st src type
  else nn_fsm_bad st src type.

(** A connected endpoint keeps a session whose peer is gone. *)
Definition nn_cinproc_handler (d : duo) (src type : Z) (ptr : srcptr) : outcome duo :=
  let st := p_state (me d) in
  if st =? NN_CINPROC_STATE_IDLE then
    if (src =? NN_FSM_ACTION) && (type =? NN_FSM_START) then Ret (on_me (set_p_state NN_CINPROC_STATE_ACTIVE) d)
    else nn_fsm_bad st src type
  else if st =? NN_CINPROC_STATE_ACTIVE then
    if src =? NN_SINPROC_SRC_PEER then
      if type =? NN_SINPROC_CONNECT then nn_sinproc_accept (new_sess d) else nn_fsm_bad st src type
    else if src =? NN_CINPROC_SRC_SINPROC then Ret d
    else nn_fsm_bad st src type
  else nn_fsm_bad st src type.

Definition ep_handler (d : duo) : Z → Z → srcptr → outcome duo :=
  if n_bind (p_conf (me d)) then nn_binproc_handler d else nn_cinproc_handler d.
Definition ep_shutdown (d : duo) : Z → Z → srcptr → outcome duo :=
  if n_bind (p_conf (me d)) then nn_binproc_shutdown d else nn_cinproc_shutdown d.
Definition ep_feed : duo → Z → Z → srcptr → outcome duo := nn_fsm_feed ep_fsm ep_handler ep_shutdown.

Definition nn_binproc_stop (d : duo) : outcome duo := nn_fsm_stop ep_fsm set_ep_fsm nn_binproc_shutdown d.
Definition nn_cinproc_stop (d : duo) : outcome duo := nn_fsm_stop ep_fsm set_ep_fsm nn_cinproc_shutdown d.
Definition ep_stop (d : duo) : outcome duo :=
  if n_bind (p_conf (me d)) then nn_binproc_stop d else nn_cinproc_stop d.

(** The part of [nn_binproc_create] and [nn_cinproc_create] that the state machine sees. *)
Definition ep_start (d : duo) : outcome duo := nn_fsm_start ep_fsm set_ep_fsm (λ _, false) ep_handler d.

(** ** The protocol and its pipe *)

Definition sess_send (d : duo) (msg : vmsg) : outcome (duo * Z) :=
  x ← self d;
  nn_assert (bool_decide (outstate (i_pipe x) = OUT_IDLE));;
  '(d, rc) ← nn_sinproc_send (on_pipe (λ b, set_out b OUT_SENDING) d) msg;
  nn_assert (0 <=? rc);;
  x ← self d;
  if decide (outstate (i_pipe x) = OUT_SENT) then Ret (on_pipe (λ b, set_out b OUT_IDLE) d, rc)
  else
    nn_assert (bool_decide (outstate (i_pipe x) = OUT_SENDING));;
    Ret (on_pipe (λ b, set_out b OUT_ASYNC) d, Z.lor rc NN_PIPE_RELEASE).

Definition sess_recv (d : duo) : outcome (duo * Z * vmsg) :=
  x ← self d;
  nn_assert (bool_decide (instate (i_pipe x) = IN_IDLE));;
  '(d, rc, msg) ← nn_sinproc_recv (on_pipe (λ b, set_in b IN_RECEIVING) d);
  nn_assert (0 <=? rc);;
  x ← self d;
  if decide (instate (i_pipe x) = IN_RECEIVED) then Ret (on_pipe (λ b, set_in b IN_IDLE) d, rc, msg)
  else
    nn_assert (bool_decide (instate (i_pipe x) = IN_RECEIVING));;
    Ret (on_pipe (λ b, set_in b IN_ASYNC) d, Z.lor rc NN_PIPE_RELEASE, msg).

(** A protocol sends when it was told that the pipe is writable, receives when it
    was told that it is readable, and forgets what it was told when the result
    says so. *)
Inductive iop : Type := I_send (m : vmsg) | I_recv.

Definition run_iop (o : iop) (d : duo) : outcome duo :=
  match o with
  | I_send m =>
      if p_out (me d) then
        '(d, rc) ← sess_send d m;
        Ret (on_me (λ p, set_p_told (negb (released rc)) (p_in p) (set_p_msgs (p_sent p ++ [m]) (p_rcvd p) p)) d)
      else Ret d
  | I_recv =>
      if p_in (me d) then
        '(d, rc, m) ← sess_recv d;
        Ret (on_me (λ p, set_p_told (p_out p) (negb (released rc)) (set_p_msgs (p_sent p) (p_rcvd p ++ [m]) p)) d)
      else Ret d
  end.

Fixpoint run_iops (os : list iop) (d : duo) : outcome duo :=
  match os with [] => Ret d | o :: os => d ← run_iop o d; run_iops os d end.

(** The socket passes an event of the pipe to the protocol. *)
Definition pipe_told (type : Z) (os : list iop) (d : duo) : outcome duo :=
  x ← self d;
  if pstate (i_pipe x) =? NN_PIPEBASE_STATE_ACTIVE then
    run_iops os
      (on_me (λ p, if type =? NN_PIPE_OUT then set_p_told true (p_in p) p else set_p_told (p_out p) true p) d)
  else Fail Crash.

(** ** Steps *)

(** The next event of the context. *)
Definition inproc_event (os : list iop) (d : duo) : outcome duo :=
  match p_q (me d) with
  | [] => Fail Crash
  | x :: q =>
      let d := on_me (set_p_q q) d in
      match x with
      | IE_pipe type => pipe_told type os d
      | IE_disconnect => ep_feed d NN_BINPROC_SRC_SINPROC NN_SINPROC_DISCONNECT P_null
      | IE_stopped => ep_feed d NN_BINPROC_SRC_SINPROC NN_SINPROC_STOPPED P_null
      | IE_ep_stopped => Ret d
      end
  end.

(** [nn_ctx_leave] takes the events for the other context along. *)
Definition inproc_leave (d : duo) : duo :=
  on_me (set_p_to []) (on_you (λ p, set_p_net (p_net p ++ [(false, p_to (me d))]) p) d).

(** A thread takes the next event out of its queue, before it enters the context. *)
Definition inproc_pop (i : nat) (d : duo) : outcome duo :=
  b ← deref (p_net (me d) !! i); Ret (on_me (λ p, set_p_net (<[i := (true, b.2)]> (p_net p)) p) d).

(** What is left on the way when the first event of batch [i] is delivered. *)
Definition net_rest (i : nat) (es : list Z) (net : list (bool * list Z)) : list (bool * list Z) :=
  match es with [] => delete i net | _ => <[i := (false, es)]> net end.

(** The thread is in the context and delivers the event. *)
Definition inproc_deliver (i : nat) (d : duo) : outcome duo :=
  b ← deref (p_net (me d) !! i);
  match b.2 with
  | [] => Fail Crash
  | e :: es =>
      let d := on_me (λ p, set_p_net (net_rest i es (p_net p)) p) d in
      if e =? NN_SINPROC_CONNECT then ep_feed d NN_SINPROC_SRC_PEER e P_null
      else _ ← self d; sess_feed d NN_SINPROC_SRC_PEER e P_null
  end.

Inductive istep : Type :=
| J_event (os : list iop)    (* the next event; a protocol that is told something may do [os] *)
| J_leave                    (* the thread leaves the context *)
| J_pop (i : nat)
| J_deliver (i : nat)
| J_ops (os : list iop)      (* the user calls the socket *)
| J_stop.                    (* the user closes the endpoint *)

Definition side_exec (x : istep) (d : duo) : outcome duo :=
  match x with
  | J_event os => inproc_event os d
  | J_leave => Ret (inproc_leave d)
  | J_pop i => inproc_pop i d
  | J_deliver i => inproc_deliver i d
  | J_ops os => run_iops os d
  | J_stop => ep_stop d
  end.

(** No thread is in the context. *)
Definition free (p : nproc) : bool := bool_decide (p_q p = []) && bool_decide (p_to p = []).

Definition side_enabled (x : istep) (d : duo) : bool :=
  match x with
  | J_event _ => negb (bool_decide (p_q (me d) = []))
  | J_leave => bool_decide (p_q (me d) = []) && negb (bool_decide (p_to (me d) = []))
  | J_pop i => match p_net (me d) !! i with Some (false, _ :: _) => true | _ => false end
  | J_deliver i => free (me d) && match p_net (me d) !! i with Some (true, _ :: _) => true | _ => false end
  | J_ops _ | J_stop => free (me d)
  end.

(** The two sides of the connection. *)
Inductive iside : Set := S_first | S_second.

Definition at_side (s : iside) (d : duo) : duo := match s with S_first => d | S_second => swap d end.

Definition inproc_exec (s : iside) (x : istep) (w : duo) : outcome duo :=
  d ← side_exec x (at_side s w); Ret (at_side s d).
Definition inproc_enabled (s : iside) (x : istep) (w : duo) : bool := side_enabled x (at_side s w).

Definition new_proc (c : iconf) : nproc :=
  Proc c NN_FSM_STATE_IDLE NN_BINPROC_STATE_IDLE None [] [] [] false false [] [].

(** The two endpoints are created; then the first side finds the other one
    ([nn_ins_bind] or [nn_ins_connect]) and connects. *)
Definition inproc_init (c1 c2 : iconf) : outcome duo :=
  d ← ep_start (Duo (new_proc c2) (new_proc c1));
  d ← ep_start (swap d);
  if n_bind c1 then nn_binproc_connect d else nn_cinproc_connect d.
