(* ===== verification/InprocLink.v ===== *)
(** * What is on the way between the two sides of an in-process connection

    [stat] says where a side of the connection is, [link] what the events on their
    way to it, the flags and the messages have to do with that.  The lemmas say how
    each step of sinproc.c changes the two directions; they do not mention the
    state of the code. *)
From Stdlib Require Import Sorting.Sorted.
From S2P Require Import Prelude Msg Sinproc.

(** ** Events on their way *)

(** The handshake comes first, then messages and their receipts, then the end. *)
Definition rank (t : Z) : Z :=
  if t =? NN_SINPROC_DISCONNECT then 2 else if (t =? NN_SINPROC_SENT) || (t =? NN_SINPROC_RECEIVED) then 1 else 0.

Record fly (F : list Z) : Prop := Fly {
  fly_nodup : NoDup F;
  fly_sorted : StronglySorted (λ x y, rank x ≤ rank y) F;
  fly_types : ∀ t, t ∈ F → 1 ≤ t ≤ 6;
}.

(** [t] is delivered: what was before it has the same rank. *)
Definition taken (t : Z) (F F' : list Z) : Prop :=
  fly F' ∧ t ∈ F ∧ (∀ x, x ∈ F → rank t ≤ rank x) ∧ ∀ x, x ∈ F' ↔ x ∈ F ∧ x ≠ t.

Lemma fly_nil : fly [].
Proof. split; [constructor|constructor|]. by intros t ?%not_elem_of_nil. Qed.

Lemma sorted_app {A} (R : A → A → Prop) l1 l2 :
  StronglySorted R (l1 ++ l2) ↔ StronglySorted R l1 ∧ StronglySorted R l2 ∧ ∀ x y, x ∈ l1 → y ∈ l2 → R x y.
Proof.
  induction l1 as [|x l1 IH]; cbn [app].
  - split; [|tauto]. intros ?. split_and!; [constructor|done|]. by intros ? ? ?%not_elem_of_nil.
  - split.
    + intros H. inversion_clear H as [|? ? H1 H2]. apply IH in H1 as (? & ? & Hr). rewrite Forall_app, !Forall_forall in H2.
      destruct H2. split_and!; [constructor; [done|by apply Forall_forall]|done|].
      intros a b [-> |?]%elem_of_cons ?; eauto.
    + intros (H & ? & Hr). inversion_clear H as [|? ? H1 H2]. constructor.
      * apply IH. split_and!; try done. intros. apply Hr; [by right|done].
      * apply Forall_app. split; [done|]. apply Forall_forall. intros y ?. apply Hr; [by left|done].
Qed.

Lemma fly_snoc F t : fly F → 1 ≤ t ≤ 6 → t ∉ F → (∀ x, x ∈ F → rank x ≤ rank t) → fly (F ++ [t]).
Proof.
  intros [Hn Hs Ht] H6 Hx Hr. split.
  - apply NoDup_app. split_and!; [done| |apply NoDup_singleton]. intros x ? ->%list_elem_of_singleton. done.
  - apply sorted_app. split_and!; [done|repeat constructor|]. intros x y ? ->%list_elem_of_singleton. by apply Hr.
  - intros x [?| ->%list_elem_of_singleton]%elem_of_app; [by apply Ht|done].
Qed.

Lemma fly_taken pre t post : fly (pre ++ t :: post) → (∀ x, x ∈ pre → rank x = rank t) →
  taken t (pre ++ t :: post) (pre ++ post).
Proof.
  intros [Hn Hs Ht] Hpre. apply sorted_app in Hs as (Hs1 & Hs2 & Hr). inversion_clear Hs2 as [|? ? Hs3 Hf].
  rewrite Forall_forall in Hf. apply NoDup_app in Hn as (Hn1 & Hd & Hn2). apply NoDup_cons in Hn2 as [Hn2 Hn3].
  split; [split|split; [|split]].
  - apply NoDup_app. split_and!; try done. intros x Hx Hy. apply (Hd x Hx). by right.
  - apply sorted_app. split_and!; try done. intros x y ? ?. apply Hr; [done|by right].
  - intros x [Hx|Hx]%elem_of_app; apply Ht; rewrite elem_of_app, elem_of_cons; tauto.
  - rewrite elem_of_app, elem_of_cons. tauto.
  - intros x [Hx|[-> |Hx]%elem_of_cons]%elem_of_app; [rewrite (Hpre x) by done; lia|lia|by apply Hf].
  - intros x. rewrite !elem_of_app, elem_of_cons. split; [|tauto]. intros [Hx|Hx]; (split; [tauto|]); intros ->;
      [apply (Hd t Hx); by left|done].
Qed.

(** ** The sides *)

(** Where a side is: it has not been asked to connect, or has its session waiting
    for NN_SINPROC_READY, waiting for NN_SINPROC_ACCEPTED, active, closed and waiting
    for the peer, or has heard that the peer closed: its endpoint will be told, its
    session is stopped, its session is freed. *)
Inductive stat : Set :=
| V_none | V_connecting | V_ready | V_active | V_stopping | V_cut | V_stopped | V_gone.

(** It has sent NN_SINPROC_DISCONNECT; it has received it. *)
Definition said (s : stat) : bool :=
  match s with V_none | V_connecting | V_ready | V_active => false | _ => true end.
Definition heard (s : stat) : bool := match s with V_cut | V_stopped | V_gone => true | _ => false end.

Definition compat (s t : stat) : bool :=
  match s, t with
  | V_none, V_connecting | V_connecting, V_none | V_connecting, V_ready | V_ready, V_connecting
  | V_ready, V_active | V_active, V_ready | V_ready, V_stopping | V_stopping, V_ready
  | V_active, V_active => true
  | V_active, V_stopping | V_stopping, V_active => true
  | _, _ => said s && said t
  end.

(** The message the peer gets. *)
Definition merge (m : vmsg) : vmsg := VMsg [] [] (sphdr m ++ body m).

(** The direction from [t] (whose sending flag is [su]) to [s] (whose receiving flag
    is [rv], queue [l]): [F] is on its way to [s] and [G] to [t]. *)
Record link (s t : stat) (F G : list Z) (su rv : bool) (msg : vmsg) (l rcvd sent : list vmsg) : Prop := Link {
  k_fly : fly F;
  k_connect : NN_SINPROC_CONNECT ∈ F ↔ s = V_none;
  k_ready : NN_SINPROC_READY ∈ F ↔ s = V_connecting ∧ t = V_ready;
  k_accepted : NN_SINPROC_ACCEPTED ∈ F ↔ s = V_ready ∧ (t = V_active ∨ t = V_stopping);
  k_disc : NN_SINPROC_DISCONNECT ∈ F ↔ said t = true ∧ heard s = false;
  k_heard : heard s = true → F = [];
  k_quiet : t = V_none ∨ t = V_connecting ∨ t = V_ready →
    NN_SINPROC_SENT ∉ F ∧ NN_SINPROC_RECEIVED ∉ G ∧ rv = false ∧ sent = [];
  k_new : s = V_ready → rv = false;
  k_excl : NN_SINPROC_SENT ∈ F → NN_SINPROC_RECEIVED ∉ G;
  k_rv : s = V_active → rv = true → NN_SINPROC_SENT ∉ F ∧ NN_SINPROC_RECEIVED ∉ G;
  k_su : t = V_active → NN_SINPROC_SENT ∈ F ∨ NN_SINPROC_RECEIVED ∈ G ∨ s = V_active ∧ rv = true → su = true;
  k_wait : t = V_active → su = true → s = V_ready ∨ s = V_active →
    NN_SINPROC_SENT ∈ F ∨ NN_SINPROC_RECEIVED ∈ G ∨ rv = true;
  k_msgs : if said s then rcvd `prefix_of` (merge <$> sent)
    else rcvd ++ l ++ (if bool_decide (NN_SINPROC_SENT ∈ F) || rv then [msg] else []) = merge <$> sent;
}.

(** *** How the steps change a direction *)

Lemma elem_snoc_ne (x e : Z) F : x ≠ e → x ∈ F ++ [e] ↔ x ∈ F.
Proof. intros Hx. rewrite elem_of_app, list_elem_of_singleton. naive_solver. Qed.

Lemma elem_snoc_eq (e : Z) F : e ∈ F ++ [e] ↔ True.
Proof. rewrite elem_of_app, list_elem_of_singleton. naive_solver. Qed.

Lemma taken_ne x t F F' : taken t F F' → x ≠ t → x ∈ F' ↔ x ∈ F.
Proof. intros (_ & _ & _ & Hx) ?. rewrite Hx. naive_solver. Qed.

Lemma taken_eq t F F' : taken t F F' → t ∈ F' ↔ False.
Proof. intros (_ & _ & _ & Hx). rewrite Hx. naive_solver. Qed.

Lemma taken_in t F F' : taken t F F' → t ∈ F ↔ True.
Proof. by intros (_ & ? & _). Qed.

(** Simplifies membership in lists that grew or shrank by one event. *)
Ltac mem :=
  repeat match goal with
  | |- context [?e ∈ _ ++ [?e]] => rewrite (elem_snoc_eq e)
  | |- context [?x ∈ _ ++ [?e]] => rewrite (elem_snoc_ne x e) by discriminate
  | H : taken ?t ?F ?F' |- context [?t ∈ ?F'] => rewrite (taken_eq t F F' H)
  | H : taken ?t ?F ?F' |- context [?t ∈ ?F] => rewrite (taken_in t F F' H)
  | H : taken ?t ?F ?F' |- context [?x ∈ ?F'] => rewrite (taken_ne x t F F' H) by discriminate
  end.

Lemma link_G s t F G G' su rv msg l rcvd sent :
  (NN_SINPROC_RECEIVED ∈ G' ↔ NN_SINPROC_RECEIVED ∈ G) →
  link s t F G su rv msg l rcvd sent → link s t F G' su rv msg l rcvd sent.
Proof. intros E []. split; rewrite ?E; done. Qed.

(** The order of what is on its way. *)
Lemma link_snoc s t F G su rv msg l rcvd sent e :
  link s t F G su rv msg l rcvd sent → said t = false → 1 ≤ e ≤ 6 → e ∉ F →
  (rank e = 0 → F = []) → fly (F ++ [e]).
Proof.
  intros [] Ht H6 Hx Hr. apply fly_snoc; try done. intros x Hin.
  assert (x ≠ NN_SINPROC_DISCONNECT) as Hd by (intros ->; apply k_disc0 in Hin as [? _]; congruence).
  destruct (decide (rank e = 0)) as [He|He]; [rewrite (Hr He) in Hin; by apply not_elem_of_nil in Hin|].
  unfold rank in *. rewrite (proj2 (Z.eqb_neq x _)) by done. repeat case_match; try done; lia.
Qed.

Ltac link_tac :=
  split; mem; try done; try solve [
    repeat match goal with H : link _ _ _ _ _ _ _ _ _ _ |- _ => clear H | H : fly _ |- _ => clear H
      | H : if said _ then _ else _ |- _ => clear H end;
    cbn [said heard] in *; intuition congruence].

(** [t] sends a message; [s] does. *)
Lemma link_send s F G rv msg m l rcvd sent :
  compat s V_active = true →
  link s V_active F G false rv msg l rcvd sent →
  link s V_active (F ++ [NN_SINPROC_SENT]) G true rv (merge m) l rcvd (sent ++ [m]) ∧ NN_SINPROC_SENT ∉ F.
Proof.
  intros Hc Hl. pose proof Hl as []. assert (NN_SINPROC_SENT ∉ F) as Hn by naive_solver.
  split; [|done]. link_tac.
  - by eapply link_snoc.
  - by destruct s.
  - rewrite fmap_app. destruct (said s) eqn:Hs; [by apply prefix_app_r|].
    rewrite <- k_msgs0. rewrite (bool_decide_eq_false_2 (_ ∈ F)) by done.
    rewrite bool_decide_eq_true_2 by (rewrite elem_of_app, list_elem_of_singleton; by right). cbn [orb].
    assert (rv = false) as -> by (destruct s, rv; naive_solver).
    cbn [fmap list_fmap]. by rewrite app_nil_r, app_assoc.
Qed.

Definition light (e : Z) : Prop := e = NN_SINPROC_SENT ∨ e = NN_SINPROC_RECEIVED.

(** A receipt is raised to [s]: nothing else changes in this direction. *)
Lemma link_receipt s t F G su rv msg l rcvd sent :
  link s t F G su rv msg l rcvd sent → said t = false → heard s = false → NN_SINPROC_RECEIVED ∉ F →
  link s t (F ++ [NN_SINPROC_RECEIVED]) G su rv msg l rcvd sent.
Proof.
  intros Hl Ht Hs Hn. pose proof Hl as []. link_tac.
  - by eapply link_snoc.
  - rewrite (bool_decide_ext _ (NN_SINPROC_SENT ∈ F)) by (by rewrite elem_snoc_ne). done.
Qed.

(** [s] takes a message off the way and into its queue; or leaves it at the peer. *)
Lemma link_take t F F' G su rv msg l rcvd sent :
  link V_active t F G su rv msg l rcvd sent → taken NN_SINPROC_SENT F F' →
  rv = false ∧ NN_SINPROC_RECEIVED ∉ G ∧
  rcvd ++ l ++ [msg] = merge <$> sent ∧
  link V_active t F' (G ++ [NN_SINPROC_RECEIVED]) su false (VMsg [] [] []) (l ++ [msg]) rcvd sent ∧
  link V_active t F' G su true msg l rcvd sent.
Proof.
  intros Hl Ht. pose proof Hl as []. pose proof Ht as (HF & Hin & _).
  assert (rv = false) as -> by (destruct rv; naive_solver).
  assert (NN_SINPROC_RECEIVED ∉ G) as HG by auto.
  cbn [said] in k_msgs0. rewrite bool_decide_eq_true_2 in k_msgs0 by done. cbn [orb] in k_msgs0.
  split_and!; [done|done|done| |]; link_tac.
  - cbn [said]. rewrite bool_decide_eq_false_2 by (by intros ?%(taken_eq _ _ _ Ht)). cbn [orb]. by rewrite app_nil_r.
  - cbn [said]. by rewrite orb_true_r.
Qed.

(** The user takes a message, and a message that was waiting at the peer may follow. *)
Lemma link_recv t F G su rv msg l x rcvd sent :
  link V_active t F G su rv msg (x :: l) rcvd sent → link V_active t F G su rv msg l (rcvd ++ [x]) sent.
Proof. intros []. split; try done. cbn [said] in *. by rewrite <- app_assoc. Qed.

Lemma link_linger t F G su msg l rcvd sent :
  link V_active t F G su true msg l rcvd sent → 
  NN_SINPROC_RECEIVED ∉ G ∧ rcvd ++ l ++ [msg] = merge <$> sent ∧
  link V_active t F (G ++ [NN_SINPROC_RECEIVED]) su false (VMsg [] [] []) (l ++ [msg]) rcvd sent.
Proof.
  intros Hl. pose proof Hl as [].
  assert (NN_SINPROC_SENT ∉ F ∧ NN_SINPROC_RECEIVED ∉ G) as [Hs HG] by auto.
  cbn [said] in k_msgs0. rewrite orb_true_r in k_msgs0. split_and!; [done|done|]. link_tac.
  cbn [said]. rewrite bool_decide_eq_false_2 by done. cbn [orb]. by rewrite app_nil_r.
Qed.

(** A receipt arrives at [s]; then it may send again. *)
Lemma link_receipt_taken s t F F' G su rv msg l rcvd sent :
  link s t F G su rv msg l rcvd sent → taken NN_SINPROC_RECEIVED F F' →
  link s t F' G su rv msg l rcvd sent.
Proof.
  intros Hl Ht. pose proof Hl as []. pose proof Ht as (HF & Hin & _). link_tac.
  - intros Hh. rewrite (k_heard0 Hh) in Hin. by apply not_elem_of_nil in Hin.
  - assert (bool_decide (NN_SINPROC_SENT ∈ F') = bool_decide (NN_SINPROC_SENT ∈ F)) as ->; [|done].
    apply bool_decide_ext, (taken_ne _ _ _ _ Ht). discriminate.
Qed.

Lemma link_receipt_back s F G G' su rv msg l rcvd sent :
  link s V_active F G su rv msg l rcvd sent → taken NN_SINPROC_RECEIVED G G' →
  link s V_active F G' false rv msg l rcvd sent ∧ su = true.
Proof.
  intros Hl Ht. pose proof Hl as []. pose proof Ht as (HF & Hin & _).
  assert (NN_SINPROC_SENT ∉ F) as Hs by (intros ?; by apply k_excl0).
  split; [|by auto]. link_tac.
Qed.

(** A side that is closing does not look at messages and receipts. *)
Lemma link_ignore t F F' G su rv msg l rcvd sent e :
  link V_stopping t F G su rv msg l rcvd sent → light e → taken e F F' →
  link V_stopping t F' G su rv msg l rcvd sent.
Proof.
  intros Hl He Ht. pose proof Hl as []. pose proof Ht as (HF & Hin & _).
  destruct He as [-> | ->]; link_tac.
Qed.

Lemma link_ignore_back s F G G' su rv msg l rcvd sent e :
  link s V_stopping F G su rv msg l rcvd sent → light e → taken e G G' →
  link s V_stopping F G' su rv msg l rcvd sent.
Proof.
  intros Hl He Ht. pose proof Hl as []. pose proof Ht as (HF & Hin & _).
  destruct He as [-> | ->]; link_tac.
Qed.

(** The handshake. *)
Lemma fly_empty F : fly F → NN_SINPROC_CONNECT ∉ F → NN_SINPROC_READY ∉ F → NN_SINPROC_ACCEPTED ∉ F →
  NN_SINPROC_SENT ∉ F → NN_SINPROC_RECEIVED ∉ F → NN_SINPROC_DISCONNECT ∉ F → F = [].
Proof.
  intros [_ _ Ht] H1 H2 H3 H4 H5 H6. destruct F as [|x F]; [done|].
  assert (x ∈ x :: F) as Hx by (by left). specialize (Ht x Hx).
  assert (x = 1 ∨ x = 2 ∨ x = 3 ∨ x = 4 ∨ x = 5 ∨ x = 6) as Hc by lia.
  by destruct Hc as [->|[->|[->|[->|[->| ->]]]]].
Qed.

Lemma pend_ext (F F' : list Z) rv (msg : vmsg) : (NN_SINPROC_SENT ∈ F' ↔ NN_SINPROC_SENT ∈ F) →
  (if bool_decide (NN_SINPROC_SENT ∈ F') || rv then [msg] else []) =
  (if bool_decide (NN_SINPROC_SENT ∈ F) || rv then [msg] else []).
Proof. intros E. by rewrite (bool_decide_ext _ _ E). Qed.

(** Moving the hypothesis about the messages to the new list of events. *)
Ltac msgs :=
  cbn [said] in *;
  try match goal with |- context [if said ?s then _ else _] => destruct (said s); [done|] end;
  first [done | erewrite pend_ext; [eassumption|mem; done]].

Lemma link_accept F F' G su rv msg l rcvd sent su' rv' msg' l' rcvd' sent' :
  link V_none V_connecting F G su rv msg l rcvd sent →
  link V_connecting V_none G F su' rv' msg' l' rcvd' sent' → taken NN_SINPROC_CONNECT F F' →
  G = [] ∧ link V_ready V_connecting F' (G ++ [NN_SINPROC_READY]) su rv msg l rcvd sent ∧
  link V_connecting V_ready (G ++ [NN_SINPROC_READY]) F' su' rv' msg' l' rcvd' sent'.
Proof.
  intros Hl Hl' Ht. pose proof Ht as (HF & Hin & _).
  assert (G = []) as HG.
  { pose proof Hl as []. pose proof Hl' as []. apply fly_empty; try done; cbn [said heard] in *; intuition congruence. }
  split; [done|]. split.
  - pose proof Hl as []. link_tac. msgs.
  - pose proof Hl' as []. link_tac.
    + eapply link_snoc; try done. by rewrite HG; apply not_elem_of_nil.
    + msgs.
Qed.

Lemma link_ready_taken F F' G rv msg l rcvd sent su' rv' msg' l' rcvd' sent' :
  link V_connecting V_ready F G false rv msg l rcvd sent →
  link V_ready V_connecting G F su' rv' msg' l' rcvd' sent' → taken NN_SINPROC_READY F F' →
  G = [] ∧ link V_active V_ready F' (G ++ [NN_SINPROC_ACCEPTED]) false rv msg l rcvd sent ∧
  link V_ready V_active (G ++ [NN_SINPROC_ACCEPTED]) F' false rv' msg' l' rcvd' sent'.
Proof.
  intros Hl Hl' Ht. pose proof Ht as (HF & Hin & _).
  assert (G = []) as HG.
  { pose proof Hl as []. pose proof Hl' as []. apply fly_empty; try done; cbn [said heard] in *; intuition congruence. }
  split; [done|]. split.
  - pose proof Hl as []. link_tac. msgs.
  - pose proof Hl' as []. link_tac.
    + apply fly_snoc; [done|done|by rewrite HG; apply not_elem_of_nil|].
      rewrite HG. by intros ? ?%not_elem_of_nil.
    + msgs.
Qed.

(** The peer that accepted hears that it may start. *)
Lemma link_accepted t F F' G su rv msg l rcvd sent rv' msg' l' rcvd' sent' :
  link V_ready t F G su rv msg l rcvd sent →
  link t V_ready G F false rv' msg' l' rcvd' sent' → taken NN_SINPROC_ACCEPTED F F' →
  link V_active t F' G su rv msg l rcvd sent ∧ link t V_active G F' false rv' msg' l' rcvd' sent'.
Proof.
  intros Hl Hl' Ht. pose proof Ht as (HF & Hin & _). split.
  - pose proof Hl as []. assert (t = V_active ∨ t = V_stopping) as Hc by naive_solver.
    link_tac. msgs.
  - pose proof Hl' as []. pose proof Hl as []. assert (t = V_active ∨ t = V_stopping) as Hc by naive_solver.
    link_tac.
Qed.

(** The end: a side closes; the other one hears it and answers. *)
Lemma link_close t F G su rv msg l rcvd sent su' rv' msg' l' rcvd' sent' :
  compat V_active t = true →
  link V_active t F G su rv msg l rcvd sent →
  link t V_active G F su' rv' msg' l' rcvd' sent' →
  NN_SINPROC_DISCONNECT ∉ G ∧ link V_stopping t F (G ++ [NN_SINPROC_DISCONNECT]) su rv msg l rcvd sent ∧
  link t V_stopping (G ++ [NN_SINPROC_DISCONNECT]) F su' rv' msg' l' rcvd' sent'.
Proof.
  intros Hc Hl Hl'. 
  assert (NN_SINPROC_DISCONNECT ∉ G) as HG by (destruct Hl'; intros [? _]%k_disc0; done).
  assert (heard t = false) as Ht by by destruct t.
  split; [done|]. split.
  - pose proof Hl as []. link_tac.
    cbn [said] in *. rewrite <- k_msgs0. by apply prefix_app_r.
  - pose proof Hl' as []. link_tac.
    + by eapply link_snoc.
    + msgs.
Qed.

(** After the end nothing else is on its way. *)
Lemma taken_disc F F' : fly F → taken NN_SINPROC_DISCONNECT F F' → F' = [].
Proof.
  intros [_ _ Hty] (_ & _ & Hr & Hx). destruct F' as [|x F']; [done|].
  destruct (proj1 (Hx x)) as [Hin Hne]; [by left|]. specialize (Hr x Hin). unfold rank in Hr.
  rewrite (proj2 (Z.eqb_neq x _)) in Hr by done. cbn in Hr. by destruct (_ || _).
Qed.

Lemma link_cut t F F' G su rv msg l rcvd sent su' rv' msg' l' rcvd' sent' :
  compat V_active t = true →
  link V_active t F G su rv msg l rcvd sent →
  link t V_active G F su' rv' msg' l' rcvd' sent' → taken NN_SINPROC_DISCONNECT F F' →
  t = V_stopping ∧ F' = [] ∧ NN_SINPROC_DISCONNECT ∉ G ∧
  link V_cut t F' (G ++ [NN_SINPROC_DISCONNECT]) su rv msg l rcvd sent ∧
  link t V_cut (G ++ [NN_SINPROC_DISCONNECT]) F' su' rv' msg' l' rcvd' sent'.
Proof.
  intros Hc Hl Hl' Ht.
  assert (F' = []) as HF' by (eapply taken_disc; [by destruct Hl|done]).
  assert (NN_SINPROC_DISCONNECT ∉ G) as HG by (destruct Hl'; intros [? _]%k_disc0; done).
  assert (t = V_stopping) as ->.
  { destruct Hl. destruct (proj1 k_disc0) as [Hs _]; [apply (proj1 (proj2 Ht))|]. by destruct t. }
  pose proof Ht as (HF & Hin & _). split_and!; [done|done|done| |].
  - pose proof Hl as []. link_tac. cbn [said] in *. rewrite <- k_msgs0. by apply prefix_app_r.
  - pose proof Hl' as []. link_tac. by eapply link_snoc.
Qed.

Lemma link_stopped t F F' G su rv msg l rcvd sent su' rv' msg' l' rcvd' sent' :
  compat V_stopping t = true →
  link V_stopping t F G su rv msg l rcvd sent →
  link t V_stopping G F su' rv' msg' l' rcvd' sent' → taken NN_SINPROC_DISCONNECT F F' →
  F' = [] ∧ said t = true ∧
  link V_stopped t F' G su rv msg l rcvd sent ∧ link t V_stopped G F' su' rv' msg' l' rcvd' sent'.
Proof.
  intros Hc Hl Hl' Ht.
  assert (F' = []) as HF' by (eapply taken_disc; [by destruct Hl|done]).
  assert (said t = true) as Hs by (destruct Hl; destruct (proj1 k_disc0) as [? _]; [apply (proj1 (proj2 Ht))|done]).
  pose proof Ht as (HF & Hin & _). split_and!; [done|done| |].
  - pose proof Hl as []. link_tac.
  - pose proof Hl' as []. link_tac; rewrite k_accepted0; destruct t; try done; intuition discriminate.
Qed.

(** What happens to a side afterwards does not concern the peer. *)
Lemma link_after s s' t F G su rv msg l l' rcvd sent :
  heard s = true → heard s' = true →
  link s t F G su rv msg l rcvd sent → link s' t F G su rv msg l' rcvd sent.
Proof. intros Hs Hs' []. destruct s, s'; try discriminate; link_tac. Qed.

Lemma link_after_back s t t' F G su su' rv msg msg' l rcvd sent :
  heard t = true → heard t' = true → said s = true → 
  link s t F G su rv msg l rcvd sent → link s t' F G su' rv msg' l rcvd sent.
Proof.
  intros Hs Hs' Hc []. destruct t, t'; try discriminate; link_tac; by rewrite Hc in *.
Qed.

(** One side has asked the other one to connect. *)
Lemma link_start_in : link V_connecting V_none [] [NN_SINPROC_CONNECT] false false (VMsg [] [] []) [] [] [].
Proof.
  split; try done; try (split; [by intros ?%not_elem_of_nil|naive_solver]).
  - apply fly_nil.
  - intros _. split_and!; try done; [by intros ?%not_elem_of_nil|by intros ?%list_elem_of_singleton].
  - by intros ?%not_elem_of_nil.
Qed.

Lemma link_start_out : link V_none V_connecting [NN_SINPROC_CONNECT] [] false false (VMsg [] [] []) [] [] [].
Proof.
  split; try done; try (split; [by intros ?%list_elem_of_singleton|naive_solver]).
  - apply (fly_snoc []); [apply fly_nil|done|apply not_elem_of_nil|by intros ? ?%not_elem_of_nil].
  - split; [done|]. intros _. by left.
  - intros _. split_and!; try done; [by intros ?%list_elem_of_singleton|by intros ?%not_elem_of_nil].
  - by intros ?%list_elem_of_singleton.
Qed.
