(* ===== verification/InprocSafe.v ===== *)
(** * What an in-process connection keeps

    [inv] classifies the two sides of a connection and lists the events that can be
    on their way between them.  Every step preserves it, provided that no event
    overtakes another one in a way that matters ([ordered]) and that no endpoint is
    closed in the middle of the handshake ([early]).  The consequences: no
    assertion fails and no freed memory is used, messages arrive complete and in
    order, closing ends; Inproc.v states them. *)
From S2P Require Import Prelude Msg Fsm Pipe Msgqueue Sinproc InprocLink.

(** *** What a side looks like *)

(** Its flags. *)
Definition fl_of (su rv : bool) : Z :=
  Z.lor (if su then NN_SINPROC_FLAG_SENDING else 0) (if rv then NN_SINPROC_FLAG_RECEIVING else 0).

Definition mq_ok (c : iconf) (q : mheap * nn_msgqueue) (l : list vmsg) : Prop :=
  ∃ cs, mqrep q.1 q.2 l (n_rcvbuf c) cs.

(** A message may be sent and the protocol knows or is about to be told; or one is
    being sent.  The same for the other direction. *)
Definition out_ok (su : bool) (b : nn_pipebase) (q : list iev) (told : bool) : Prop :=
  if su then outstate b = OUT_ASYNC ∧ told = false ∧ IE_pipe NN_PIPE_OUT ∉ q
  else outstate b = OUT_IDLE ∧ (told = true ∧ IE_pipe NN_PIPE_OUT ∉ q ∨ told = false ∧ IE_pipe NN_PIPE_OUT ∈ q).
Definition in_ok (l : list vmsg) (b : nn_pipebase) (q : list iev) (told : bool) : Prop :=
  match l with
  | [] => instate b = IN_ASYNC ∧ told = false ∧ IE_pipe NN_PIPE_IN ∉ q
  | _ => instate b = IN_IDLE ∧ (told = true ∧ IE_pipe NN_PIPE_IN ∉ q ∨ told = false ∧ IE_pipe NN_PIPE_IN ∈ q)
  end.

Definition pipe_ev (x : iev) : Prop := x = IE_pipe NN_PIPE_OUT ∨ x = IE_pipe NN_PIPE_IN.

(** Where a side is, its flags, the message it exposes and the messages in its queue. *)
Record view := View { v_st : stat; v_su : bool; v_rv : bool; v_msg : vmsg; v_l : list vmsg }.

Inductive side : view → nproc → Prop :=
| side_none c to net :
    side (View V_none false false (VMsg [] [] []) []) (Proc c 2 2 None [] to net false false [] [])
| side_connecting c b q m to net :
    pstate b = NN_PIPEBASE_STATE_IDLE → mq_ok c q [] →
    side (View V_connecting false false m [])
      (Proc c 2 2 (Some (Sinproc 2 NN_SINPROC_STATE_CONNECTING 0 false b q m)) [] to net false false [] [])
| side_ready c b q m to net :
    pstate b = NN_PIPEBASE_STATE_IDLE → mq_ok c q [] →
    side (View V_ready false false m [])
      (Proc c 2 2 (Some (Sinproc 2 NN_SINPROC_STATE_READY 0 true b q m)) [] to net false false [] [])
| side_active c su rv b q m l evs to net o i sent rcvd :
    pstate b = NN_PIPEBASE_STATE_ACTIVE → mq_ok c q l → NoDup evs → Forall pipe_ev evs →
    out_ok su b evs o → in_ok l b evs i → (rv = true → l ≠ []) →
    side (View V_active su rv m l)
      (Proc c 2 2 (Some (Sinproc 2 NN_SINPROC_STATE_ACTIVE (fl_of su rv) true b q m)) evs to net o i sent rcvd)
| side_stopping c su rv fl b q m l to net sent rcvd :
    pstate b = NN_PIPEBASE_STATE_IDLE → mq_ok c q l →
    side (View V_stopping su rv m l)
      (Proc c 3 3 (Some (Sinproc 3 NN_SINPROC_STATE_STOPPING_PEER fl true b q m)) [] to net false false sent rcvd)
| side_cut c su rv fl b q m l evs to net sent rcvd :
    pstate b = NN_PIPEBASE_STATE_IDLE → mq_ok c q l → evs = [IE_disconnect] ∨ evs = [] ∧ n_bind c = false →
    side (View V_cut su rv m l)
      (Proc c 2 2 (Some (Sinproc 2 NN_SINPROC_STATE_DISCONNECTED fl false b q m)) evs to net false false sent rcvd)
| side_stopped c pf su rv fl pr b q m l to net sent rcvd :
    pstate b = NN_PIPEBASE_STATE_IDLE → mq_ok c q l → pf = 2 ∧ n_bind c = true ∨ pf = 3 →
    side (View V_stopped su rv m l)
      (Proc c pf pf (Some (Sinproc 1 NN_SINPROC_STATE_STOPPING fl pr b q m)) [IE_stopped] to net false false sent rcvd)
| side_gone c pf su rv m l evs to net sent rcvd :
    pf = 2 ∧ evs = [] ∨ pf = 1 ∧ (evs = [] ∨ evs = [IE_ep_stopped]) →
    side (View V_gone su rv m l) (Proc c pf pf None evs to net false false sent rcvd).

(** A pipe that was just started. *)
Lemma side_fresh c b pd po q m to net sent rcvd :
  b = Pipebase NN_PIPEBASE_STATE_ACTIVE IN_ASYNC OUT_IDLE pd po → mq_ok c q [] →
  side (View V_active false false m [])
    (Proc c 2 2 (Some (Sinproc 2 NN_SINPROC_STATE_ACTIVE 0 true b q m)) [IE_pipe NN_PIPE_OUT] to net false false sent rcvd).
Proof.
  intros -> Hq. apply (side_active _ false false); try done.
  - apply NoDup_singleton.
  - apply Forall_singleton. by left.
  - split; [done|right]. split; [done|by left].
  - split_and!; try done. by intros [=]%list_elem_of_singleton.
Qed.

Definition linked (v u : view) (F G : list Z) (rcvd sent : list vmsg) : Prop :=
  link (v_st v) (v_st u) F G (v_su u) (v_rv v) (v_msg u) (v_l v) rcvd sent.

(** The number of messages and bytes that were sent. *)
Definition cost (ms : list vmsg) : Z := foldr (λ m n, 1 + Z.of_nat (length (sphdr m) + length (body m)) + n) 0 ms.

Record pair_ok (n : Z) (v u : view) (F G : list Z) (m y : nproc) : Prop := PairOk {
  po_me : side v m;
  po_you : side u y;
  po_compat : compat (v_st v) (v_st u) = true;
  po_in : linked v u F G (p_rcvd m) (p_sent y);
  po_out : linked u v G F (p_rcvd y) (p_sent m);
  po_cost : cost (p_sent m) + cost (p_sent y) ≤ n;
  po_rc : 0 ≤ n_add_rc (p_conf m) ∧ 0 ≤ n_add_rc (p_conf y);
}.

Definition inv (n : Z) (d : duo) : Prop :=
  ∃ v u, pair_ok n v u (flying (me d) (you d)) (flying (you d) (me d)) (me d) (you d).

Lemma compat_sym s t : compat s t = compat t s.
Proof. by destruct s, t. Qed.

Lemma inv_swap n d : inv n d → inv n (swap d).
Proof.
  destruct d as [m y]. intros (v & u & [? ? ? ? ? ? []]). exists u, v. unfold swap. cbn [me you] in *.
  split; try done; cbn [me you]; [by rewrite compat_sym|lia].
Qed.

(** ** Running the code *)

(** Computes the fields of the two sides in the goal. *)
Ltac nred :=
  cbv beta iota zeta delta [
    me you p_conf p_fsm p_state p_sess p_q p_to p_net p_out p_in p_sent p_rcvd n_bind n_rcvbuf n_options n_add_rc
    i_fsm i_state i_flags i_peer i_pipe i_queue i_msg
    set_i_fsm set_i_state set_i_flags set_i_peer set_i_pipe set_i_queue set_i_msg
    set_p_fsm set_p_state set_p_sess set_p_q set_p_to set_p_net set_p_told set_p_msgs
    raise_flag clear_flag on_me on_you on_self on_peer on_pipe option_map fst snd swap v_st v_su v_rv v_msg v_l
    pstate instate outstate pipedata poptions set_pstate set_in set_out].

(** Runs the next call that is known to return. *)
Ltac nstep := unfold peer, self; nred; repeat (progress (step; cbv beta iota)).

Lemma flag_sending su rv f p b q m s : flag NN_SINPROC_FLAG_SENDING (Sinproc f s (fl_of su rv) p b q m) = su.
Proof. by destruct su, rv. Qed.
Lemma flag_receiving su rv f p b q m s : flag NN_SINPROC_FLAG_RECEIVING (Sinproc f s (fl_of su rv) p b q m) = rv.
Proof. by destruct su, rv. Qed.
Lemma raise_sending rv : Z.lor (fl_of false rv) NN_SINPROC_FLAG_SENDING = fl_of true rv.
Proof. by destruct rv. Qed.
Lemma raise_receiving su : Z.lor (fl_of su false) NN_SINPROC_FLAG_RECEIVING = fl_of su true.
Proof. by destruct su. Qed.
Lemma clear_sending su rv : Z.land (fl_of su rv) (Z.lnot NN_SINPROC_FLAG_SENDING) = fl_of false rv.
Proof. by destruct su, rv. Qed.
Lemma clear_receiving su rv : Z.land (fl_of su rv) (Z.lnot NN_SINPROC_FLAG_RECEIVING) = fl_of su false.
Proof. by destruct su, rv. Qed.

Lemma iraise_ok x d : x ∉ p_q (me d) → iraise x d = Ret (on_me (set_p_q (p_q (me d) ++ [x])) d).
Proof. intros Hx. unfold iraise. by rewrite bool_decide_eq_true_2. Qed.

(** Raising to the peer an event whose object is not on its way. *)
Lemma raiseto_ok t d G :
  flying (you d) (me d) = G → (∀ x, x ∈ G → event_obj x ≠ event_obj t) →
  (t = NN_SINPROC_DISCONNECT → IE_disconnect ∉ p_q (you d)) →
  raiseto t d = Ret (on_me (set_p_to (p_to (me d) ++ [t])) d).
Proof.
  intros <- Hx Hd. unfold raiseto. rewrite (proj2 (forallb_forall _ _)).
  - step. destruct (Z.eqb_spec t NN_SINPROC_DISCONNECT) as [Ht|]; [|done].
    rewrite bool_decide_eq_false_2 by auto. done.
  - intros x Hin%list_elem_of_In. apply negb_true_iff, Z.eqb_neq. by apply Hx.
Qed.

Lemma event_obj_other x t : t = NN_SINPROC_SENT ∨ t = NN_SINPROC_RECEIVED ∨ t = NN_SINPROC_DISCONNECT →
  event_obj x = event_obj t → x = t.
Proof.
  unfold event_obj. intros [-> | [-> | ->]]; cbn; destruct (_ || _); intros E; done.
Qed.

(** The other side of what is flying. *)
Lemma flying_raised p from t : flying p (set_p_to (p_to from ++ [t]) from) = flying p from ++ [t].
Proof. unfold flying. nred. by rewrite app_assoc. Qed.

(** *** Events from the peer *)

(** The event has left [F], the rest is on its way to [m]. *)
Record delivered (n : Z) (v u : view) (e : Z) (F F' G : list Z) (m y : nproc) : Prop := Delivered {
  de_pair : pair_ok n v u F G m y;
  de_taken : taken e F F';
  de_F : flying m y = F';
  de_G : flying y m = G;
}.

(** All the events are on their way. *)
Record holds (n : Z) (v u : view) (F G : list Z) (m y : nproc) : Prop := Holds {
  hs_pair : pair_ok n v u F G m y;
  hs_F : flying m y = F;
  hs_G : flying y m = G;
}.

(** A call returns and all is well. *)
Definition steps (n : Z) (f : outcome duo) : Prop := ∃ d, f = Ret d ∧ inv n d.

(** How much there is left to do when nobody calls the sockets: the events on their
    way, weighted by what they bring about.  The end of a connection brings about
    more when the session has not been closed. *)
Definition live (p : nproc) : bool :=
  match p_sess p with Some x => negb (i_state x =? NN_SINPROC_STATE_STOPPING_PEER) | None => true end.

Definition wt (b : bool) (e : Z) : nat :=
  if e =? NN_SINPROC_CONNECT then 12
  else if (e =? NN_SINPROC_READY) || (e =? NN_SINPROC_SENT) then 8
  else if e =? NN_SINPROC_DISCONNECT then if b then 11 else 4
  else 3.
Definition iwt (x : iev) : nat :=
  match x with IE_pipe _ | IE_ep_stopped => 1 | IE_stopped => 2 | IE_disconnect => 3 end.

Definition wsum (b : bool) (F : list Z) : nat := sum_list_with (wt b) F.
Definition isum (q : list iev) : nat := sum_list_with iwt q.
Definition unpopped (net : list (bool * list Z)) : nat := length (filter (λ b, b.1 = false) net).

Definition mu (d : duo) : nat :=
  wsum (live (me d)) (flying (me d) (you d)) + wsum (live (you d)) (flying (you d) (me d)) +
  (2 * length (p_to (me d)) + 2 * length (p_to (you d))) +
  (unpopped (p_net (me d)) + unpopped (p_net (you d))) + (isum (p_q (me d)) + isum (p_q (you d))).

(** A call returns, all is well, and there is less to do. *)
Definition toward (n : Z) (k c : nat) (f : outcome duo) : Prop := ∃ d, f = Ret d ∧ inv n d ∧ (mu d + c < k)%nat.

(** A session is fed an event and all is well. *)
Definition feeds (n e : Z) (m y : nproc) : Prop :=
  toward n (mu (Duo m y) + wt (live m) e) 1 (sess_feed (Duo m y) NN_SINPROC_SRC_PEER e P_null).

Lemma wsum_snoc b F e : wsum b (F ++ [e]) = (wsum b F + wt b e)%nat.
Proof. unfold wsum. rewrite sum_list_with_app. cbn. lia. Qed.

Lemma isum_snoc q x : isum (q ++ [x]) = (isum q + iwt x)%nat.
Proof. unfold isum. rewrite sum_list_with_app. cbn. lia. Qed.

Lemma snoc_length {A} (l : list A) x : length (l ++ [x]) = S (length l).
Proof. rewrite length_app. cbn. lia. Qed.

Ltac open_side H :=
  inversion H; subst; clear H;
  repeat match goal with
  | b : nn_pipebase |- _ =>
      let ps := fresh "ps" in let ii := fresh "ii" in let oo := fresh "oo" in let pd := fresh "pd" in let po := fresh "po" in
      destruct b as [ps ii oo pd po]
  | q : mheap * nn_msgqueue |- _ => let h := fresh "h" in let mq := fresh "mq" in destruct q as [h mq]
  | c : iconf |- _ =>
      let bd := fresh "bd" in let rb := fresh "rb" in let op := fresh "op" in let rc := fresh "rc" in
      destruct c as [bd rb op rc]
  end.

(** Where an event of the peer goes. *)
Lemma feed_run d x type : p_sess (me d) = Some x → i_fsm x = 2 →
  sess_feed d NN_SINPROC_SRC_PEER type P_null =
  (if i_state x =? NN_SINPROC_STATE_CONNECTING then sinproc_connecting d NN_SINPROC_SRC_PEER type
   else if i_state x =? NN_SINPROC_STATE_READY then sinproc_ready d NN_SINPROC_SRC_PEER type
   else if i_state x =? NN_SINPROC_STATE_ACTIVE then sinproc_active d NN_SINPROC_SRC_PEER type
   else nn_sinproc_handler d NN_SINPROC_SRC_PEER type P_null).
Proof.
  intros Hx Hf. unfold sess_feed, nn_fsm_feed, sess_fsm. rewrite Hx, Hf.
  change (negb (2 =? NN_FSM_STATE_STOPPING)) with true. cbv iota.
  unfold nn_sinproc_handler, self. rewrite Hx. step.
  destruct (Z.eqb_spec (i_state x) NN_SINPROC_STATE_CONNECTING) as [->|]; [done|].
  destruct (Z.eqb_spec (i_state x) NN_SINPROC_STATE_READY) as [->|]; [done|].
  by destruct (Z.eqb_spec (i_state x) NN_SINPROC_STATE_ACTIVE) as [->|].
Qed.

Lemma sess_pipe_start_ok d x : p_sess (me d) = Some x → pstate (i_pipe x) = NN_PIPEBASE_STATE_IDLE →
  0 ≤ n_add_rc (p_conf (me d)) → IE_pipe NN_PIPE_OUT ∉ p_q (me d) →
  sess_pipe_start d =
    Ret (on_me (set_p_q (p_q (me d) ++ [IE_pipe NN_PIPE_OUT]))
           (on_pipe (λ b, Pipebase NN_PIPEBASE_STATE_ACTIVE IN_ASYNC OUT_IDLE (pipedata b) (poptions b)) d), 0).
Proof.
  intros Hx Hp Hrc Hq. unfold sess_pipe_start, self. rewrite Hx. step. rewrite Hp, Z.eqb_refl. step.
  cbn [on_pipe on_self on_me me p_conf set_p_sess]. rewrite (proj2 (Z.ltb_ge _ _)) by done.
  rewrite iraise_ok by done. done.
Qed.

(** The end of a run: the state is there, its sides have the given views, and these
    are the events on their way. *)
Ltac found v u F G :=
  nred; eexists; split; [reflexivity|]; exists v, u;
  match goal with |- pair_ok _ _ _ ?A ?B _ _ =>
    replace A with F by first [symmetry; assumption|subst; unfold flying; nred; rewrite ?app_assoc; reflexivity];
    replace B with G by first [symmetry; assumption|subst; unfold flying; nred; rewrite ?app_assoc; reflexivity]
  end; split.

(** The same, with less to do than in a state with the events [F0] and [G0]. *)
Ltac less F G F0 G0 :=
  match goal with |- (?a < ?k)%nat => match a with context [mu ?d] => match k with context [mu ?d0] =>
    unfold mu;
    replace (flying (me d) (you d)) with F by first [symmetry; assumption|subst; unfold flying; nred; rewrite ?app_assoc; reflexivity];
    replace (flying (you d) (me d)) with G by first [symmetry; assumption|subst; unfold flying; nred; rewrite ?app_assoc; reflexivity];
    replace (flying (me d0) (you d0)) with F0 by (symmetry; assumption);
    replace (flying (you d0) (me d0)) with G0 by (symmetry; assumption)
  end end end;
  unfold live; nred; rewrite ?wsum_snoc, ?isum_snoc, ?snoc_length; unfold wsum, isum; cbn; lia.
Ltac foundm v u F G F0 G0 :=
  nred; eexists; split; [reflexivity|]; split; [exists v, u;
  match goal with |- pair_ok _ _ _ ?A ?B _ _ =>
    replace A with F by first [symmetry; assumption|subst; unfold flying; nred; rewrite ?app_assoc; reflexivity];
    replace B with G by first [symmetry; assumption|subst; unfold flying; nred; rewrite ?app_assoc; reflexivity]
  end; split|less F G F0 G0].

Ltac views := unfold linked in *; cbn [v_st v_su v_rv v_msg v_l p_rcvd p_sent p_conf] in *.

(** Opens the hypotheses of the lemmas below; [open_me] the state of the side. *)
Ltac open_delivered v u :=
  intros Hd Hv; pose proof (de_taken _ _ _ _ _ _ _ _ _ Hd) as Ht;
  pose proof (de_pair _ _ _ _ _ _ _ _ _ Hd) as [Hm Hy Hc Hi Ho Hcost Hrc];
  destruct v as [s su rv msg l], u as [t su' rv' msg' l']; views; subst s.
Ltac open_holds v u :=
  intros Hd; pose proof (hs_pair _ _ _ _ _ _ _ Hd) as [Hm Hy Hc Hi Ho Hcost Hrc];
  destruct v as [s su rv msg l], u as [t su' rv' msg' l']; views.
Ltac open_me :=
  match goal with
  | H : side _ ?m, Hd : delivered _ _ _ _ _ _ _ ?m _, Hrc : _ ∧ _ ≤ n_add_rc _ |- _ =>
    open_side H; views; destruct Hrc as [Hrc1 Hrc2], Hd as [_ _ EF EG]
  | H : side _ ?m, Hd : holds _ _ _ _ _ ?m _, Hrc : _ ∧ _ ≤ n_add_rc _ |- _ =>
    open_side H; views; destruct Hrc as [Hrc1 Hrc2], Hd as [_ EF EG]
  end;
  try match goal with H : mq_ok _ _ _ |- _ => rename H into Hq end;
  try match goal with H : NoDup _ |- _ => rename H into Hnd end;
  try match goal with H : Forall pipe_ev _ |- _ => rename H into Hev end;
  try match goal with H : out_ok _ _ _ _ |- _ => rename H into Hout end;
  try match goal with H : in_ok _ _ _ _ |- _ => rename H into Hin end.
(** The handler of the state. *)
Ltac run_feed :=
  unfold feeds; erewrite feed_run by reflexivity; nred;
  repeat (match goal with |- context [if ?b then _ else _] =>
    first [change b with true | change b with false] end; cbv iota).

Lemma connecting_ready d : sinproc_connecting d NN_SINPROC_SRC_PEER NN_SINPROC_READY =
  ('(d, rc) ← sess_pipe_start (on_self (set_i_peer true) d); nn_assert (rc =? 0);;
   raiseto NN_SINPROC_ACCEPTED (on_self (set_i_state NN_SINPROC_STATE_ACTIVE) d)).
Proof. done. Qed.

Lemma feed_ready n v u F F' G m y : delivered n v u NN_SINPROC_READY F F' G m y → v_st v = V_connecting →
  feeds n NN_SINPROC_READY m y.
Proof.
  open_delivered v u.
  assert (t = V_ready) as ->.
  { destruct Hi as [_ _ [Hr _] _ _ _ _ _ _ _ _ _ _]. by apply Hr, (proj1 (proj2 Ht)). }
  open_side Hy. open_me.
  destruct (link_ready_taken _ _ _ _ _ _ _ _ _ _ _ _ _ _ Hi Ho Ht) as (HG & Hi' & Ho').
  run_feed.
  rewrite connecting_ready. nred.
  erewrite sess_pipe_start_ok; [|reflexivity|done|done|by apply not_elem_of_nil].
  nred. step. change (0 =? 0) with true. step. nred.
  erewrite raiseto_ok; [|exact EG|rewrite HG; by intros ? ?%not_elem_of_nil|done].
  foundm (View V_active false false msg []) (View V_ready false false msg' []) F' (G ++ [NN_SINPROC_ACCEPTED]) F' G;
    [|by constructor|done|exact Hi'|exact Ho'|done|done].
  by eapply side_fresh.
Qed.

Lemma ready_accepted d : sinproc_ready d NN_SINPROC_SRC_PEER NN_SINPROC_ACCEPTED =
  ('(d, rc) ← sess_pipe_start d;
   if negb (rc =? 0) then
     d ← sess_pipe_stop d;
     iraise IE_disconnect (on_self (set_i_peer false) (on_self (set_i_state NN_SINPROC_STATE_DISCONNECTED) d))
   else Ret (on_self (set_i_state NN_SINPROC_STATE_ACTIVE) d)).
Proof. done. Qed.

Lemma feed_accepted n v u F F' G m y : delivered n v u NN_SINPROC_ACCEPTED F F' G m y → v_st v = V_ready →
  feeds n NN_SINPROC_ACCEPTED m y.
Proof.
  open_delivered v u. open_me.
  destruct (link_accepted _ _ _ _ _ _ _ _ _ _ _ _ _ _ _ Hi Ho Ht) as (Hi' & Ho').
  run_feed.
  rewrite ready_accepted. nred.
  erewrite sess_pipe_start_ok; [|reflexivity|done|done|by apply not_elem_of_nil].
  nred. step. change (negb (0 =? 0)) with false. cbv iota.
  foundm (View V_active false false msg []) (View t su' rv' msg' l') F' G F' G; [|done| |exact Hi'|exact Ho'|done|done].
  - by eapply side_fresh.
  - destruct Hi as [_ _ _ [Ha _] _ _ _ _ _ _ _ _ _]. by destruct (Ha (proj1 (proj2 Ht))) as [_ [-> | ->]].
Qed.

(** *** Messages *)

Lemma cost_app l1 l2 : cost (l1 ++ l2) = cost l1 + cost l2.
Proof. induction l1 as [|m l1 IH]; [done|]. change (cost ((m :: l1) ++ l2)) with
  (1 + Z.of_nat (length (sphdr m) + length (body m)) + cost (l1 ++ l2)). rewrite IH. cbn [cost foldr]. unfold cost. lia. Qed.

Lemma cost_nonneg l : 0 ≤ cost l.
Proof. induction l as [|m l IH]; [done|]. unfold cost in *. cbn [foldr]. lia. Qed.

(** What fits into the budget fits into the counters of the queue. *)
Lemma merged_small sent : total (merge <$> sent) + Z.of_nat (length sent) ≤ cost sent.
Proof.
  induction sent as [|m sent IH]; [done|]. unfold total, cost in *. cbn [fmap list_fmap foldr length].
  assert (msgsz (merge m) ≤ Z.of_nat (length (sphdr m) + length (body m))).
  { unfold msgsz, merge, u64. cbn [sphdr body length]. rewrite length_app. apply Z.mod_le; lia. }
  lia.
Qed.

Lemma queue_small rcvd l m sent : rcvd ++ l ++ [m] = merge <$> sent → cost sent < 2 ^ 64 →
  Z.of_nat (length l) + 1 < 2 ^ 64 ∧ total l + msgsz m < 2 ^ 64.
Proof.
  intros E Hc. pose proof (merged_small sent) as Hs. rewrite <- E in Hs.
  pose proof (f_equal length E) as El. rewrite !length_app, length_fmap in El. cbn [length] in El.
  rewrite !total_app in Hs. pose proof (total_nonneg rcvd). pose proof (total_nonneg l).
  pose proof (msgsz_nonneg m). assert (total [m] = msgsz m) as Ht by (cbn -[msgsz]; lia).
  rewrite Ht in Hs. lia.
Qed.

Lemma mq_ok_empty c q l : mq_ok c q l → nn_msgqueue_empty q.2 = bool_decide (l = []).
Proof. intros [cs Hr]. unfold nn_msgqueue_empty. rewrite (mr_count _ _ _ _ _ Hr). by destruct l. Qed.

(** A full queue is not empty; another one takes the message. *)
Lemma mq_ok_send c q l m : mq_ok c q l → Z.of_nat (length l) + 1 < 2 ^ 64 → total l + msgsz m < 2 ^ 64 →
  (l ≠ [] ∧ nn_msgqueue_send q.1 q.2 m = Ret (q.1, q.2, - EAGAIN)) ∨
  ∃ h' q', nn_msgqueue_send q.1 q.2 m = Ret (h', q', 0) ∧ mq_ok c (h', q') (l ++ [m]).
Proof.
  intros [cs Hr] Hl Ht. pose proof (mq_send_ok _ _ _ _ _ m Hr Hl Ht) as Hs.
  destruct (_ && _) eqn:Hf.
  - left. split; [|done]. intros ->. done.
  - right. destruct Hs as (h' & q' & cs' & -> & Hr'). exists h', q'. split; [done|]. by exists cs'.
Qed.

Lemma mq_ok_recv c q m l : mq_ok c q (m :: l) →
  ∃ h' q', nn_msgqueue_recv q.1 q.2 = Ret (h', q', 0, Some m) ∧ mq_ok c (h', q') l.
Proof.
  intros [cs Hr]. destruct (mq_recv_ok _ _ _ _ _ Hr) as (h' & q' & cs' & -> & Hr'). exists h', q'. split; [done|]. by exists cs'.
Qed.

(** The side whose message is taken. *)
Lemma side_exposed u y : side u y → v_st u = V_active ∨ v_st u = V_stopping →
  ∃ x, p_sess y = Some x ∧ i_msg x = v_msg u ∧
    ∀ m, side (View (v_st u) (v_su u) (v_rv u) m (v_l u)) (set_p_sess (Some (set_i_msg m x)) y).
Proof.
  intros Hy Hs. destruct Hy; cbn [v_st] in Hs; destruct Hs; try done; eexists; (split; [reflexivity|]); (split; [done|]); intros m'; nred.
  - by apply side_active.
  - by apply side_stopping.
Qed.

Lemma raise_peer_ok t d x y G :
  p_sess (me d) = Some x → i_peer x = true → p_sess (you d) = Some y →
  t = NN_SINPROC_SENT ∨ t = NN_SINPROC_RECEIVED ∨ t = NN_SINPROC_DISCONNECT →
  flying (you d) (me d) = G → t ∉ G → (t = NN_SINPROC_DISCONNECT → IE_disconnect ∉ p_q (you d)) →
  raise_peer t d = Ret (on_me (set_p_to (p_to (me d) ++ [t])) d).
Proof.
  intros Hx Hp Hy Ht HG Hn Hq. unfold raise_peer, peer, self. rewrite Hx. step. rewrite Hp, Hy. step.
  eapply raiseto_ok; [done| |done]. intros z Hz E. by apply (event_obj_other z t) in E as ->.
Qed.

Lemma sess_pipe_received_ok d x : p_sess (me d) = Some x → instate (i_pipe x) = IN_ASYNC →
  IE_pipe NN_PIPE_IN ∉ p_q (me d) →
  sess_pipe_received d =
    Ret (on_me (set_p_q (p_q (me d) ++ [IE_pipe NN_PIPE_IN])) (on_pipe (λ b, set_in b IN_IDLE) d)).
Proof.
  intros Hx Hi Hq. unfold sess_pipe_received, self. rewrite Hx. step. rewrite Hi. cbn [decide].
  rewrite decide_False by done. rewrite bool_decide_eq_true_2 by done. step. by rewrite iraise_ok.
Qed.

Lemma sess_pipe_sent_ok d x : p_sess (me d) = Some x → outstate (i_pipe x) = OUT_ASYNC →
  IE_pipe NN_PIPE_OUT ∉ p_q (me d) →
  sess_pipe_sent d =
    Ret (on_me (set_p_q (p_q (me d) ++ [IE_pipe NN_PIPE_OUT])) (on_pipe (λ b, set_out b OUT_IDLE) d)).
Proof.
  intros Hx Hi Hq. unfold sess_pipe_sent, self. rewrite Hx. step. rewrite Hi.
  rewrite decide_False by done. rewrite bool_decide_eq_true_2 by done. step. by rewrite iraise_ok.
Qed.

(** *** The events of the pipe *)

Lemma evs_snoc evs x : NoDup evs → Forall pipe_ev evs → x ∉ evs → pipe_ev x →
  NoDup (evs ++ [x]) ∧ Forall pipe_ev (evs ++ [x]).
Proof.
  intros Hn Hf Hx Hp. split.
  - apply NoDup_app. split_and!; [done| |apply NoDup_singleton]. intros z ? ->%list_elem_of_singleton. done.
  - apply Forall_app. split; [done|]. by apply Forall_singleton.
Qed.

Lemma elem_ev_ne (x y : iev) evs : x ≠ y → x ∈ evs ++ [y] ↔ x ∈ evs.
Proof. intros Hx. rewrite elem_of_app, list_elem_of_singleton. naive_solver. Qed.

Lemma elem_ev_eq (x : iev) evs : x ∈ evs ++ [x].
Proof. rewrite elem_of_app, list_elem_of_singleton. by right. Qed.

(** What an event of one direction leaves alone in the other one. *)
Lemma out_ok_ext su b b' evs evs' o : outstate b' = outstate b →
  (IE_pipe NN_PIPE_OUT ∈ evs' ↔ IE_pipe NN_PIPE_OUT ∈ evs) → out_ok su b evs o → out_ok su b' evs' o.
Proof. unfold out_ok. intros -> E. destruct su; by rewrite E. Qed.

Lemma in_ok_ext l b b' evs evs' i : instate b' = instate b →
  (IE_pipe NN_PIPE_IN ∈ evs' ↔ IE_pipe NN_PIPE_IN ∈ evs) → in_ok l b evs i → in_ok l b' evs' i.
Proof. unfold in_ok. intros -> E. destruct l; by rewrite E. Qed.

(** Another message behind the first one changes nothing. *)
Lemma in_ok_snoc l m b evs i : l ≠ [] → in_ok l b evs i → in_ok (l ++ [m]) b evs i.
Proof. by destruct l. Qed.

Lemma quiet_peer s t F G su rv msg l rcvd sent : link s t F G su rv msg l rcvd sent → compat s t = true →
  s = V_active → NN_SINPROC_SENT ∈ F ∨ rv = true → t = V_active ∨ t = V_stopping.
Proof.
  intros [] Hc -> Hs. destruct t; try done; [|by left|by right].
  destruct k_quiet as (? & _ & -> & _); [by right; right|]. by destruct Hs.
Qed.

Lemma peer_sent d : sinproc_active d NN_SINPROC_SRC_PEER NN_SINPROC_SENT = sinproc_sent d.
Proof. done. Qed.

Lemma feed_sent n v u F F' G m y : n < 2 ^ 64 → delivered n v u NN_SINPROC_SENT F F' G m y → v_st v = V_active →
  feeds n NN_SINPROC_SENT m y.
Proof.
  intros Hn. open_delivered v u.
  assert (t = V_active ∨ t = V_stopping) as Ht' by (eapply quiet_peer; [exact Hi|done|done|left; apply (proj1 (proj2 Ht))]).
  destruct (link_take _ _ _ _ _ _ _ _ _ _ Hi Ht) as (-> & HG & Hmsg & Hacc & Hfull).
  assert (link t V_active (G ++ [NN_SINPROC_RECEIVED]) F' su rv' msg l' (p_rcvd y) (p_sent m)) as Ho'.
  { eapply link_G; [|apply link_receipt; [exact Ho|done|by destruct Ht' as [-> | ->]|done]]. by mem. }
  destruct (side_exposed _ _ Hy Ht') as (x & Hx & Hxm & Hy').
  assert (cost (p_sent y) < 2 ^ 64) as Hsm by (pose proof (cost_nonneg (p_sent m)); lia).
  destruct (queue_small _ _ _ _ Hmsg Hsm) as [Hl1 Hl2].
  destruct y as [yc yf ys yx yq yto ynet yo yi ysent yrcvd]. cbn [p_sess] in Hx. subst yx.
  destruct x as [xf xs xfl xp xb xq xm]. cbn [v_msg i_msg] in Hxm. subst xm.
  open_me. destruct (mq_ok_send _ _ _ _ Hq Hl1 Hl2) as [[Hne Hs]|(h' & q' & Hs & Hq')].

  - run_feed. rewrite peer_sent. unfold sinproc_sent. nstep. rewrite (mq_ok_empty _ _ _ Hq : nn_msgqueue_empty mq = _).
    rewrite (Hs : nn_msgqueue_send h mq _ = _). step. change (- EAGAIN =? - EAGAIN) with true. cbv iota.
    nred. rewrite raise_receiving.
    foundm (View V_active su true msg l) (View t su' rv' msg' l') F' G F' G; try done.
    + by apply side_active.
    + eapply link_G; [|exact Ho]. by mem.
  - run_feed. rewrite peer_sent. unfold sinproc_sent. nstep. rewrite (mq_ok_empty _ _ _ Hq : nn_msgqueue_empty mq = _).
    rewrite (Hs : nn_msgqueue_send h mq _ = _). step. change (0 =? - EAGAIN) with false. change (0 =? 0) with true. cbv iota.
    step. nred. 
    destruct l as [|l0 l].
    + rewrite bool_decide_eq_true_2 by done. destruct Hin as (Hii & -> & HIN). cbn [instate] in Hii. subst ii.
      erewrite sess_pipe_received_ok; [|reflexivity|done|done]. nstep.
      erewrite raise_peer_ok; [|reflexivity|done|reflexivity|by auto|exact EG|done|done].
      foundm (View V_active su false msg ([] ++ [msg'])) (View t su' rv' (VMsg [] [] []) l') F' (G ++ [NN_SINPROC_RECEIVED]) F' G; try done.
      destruct (evs_snoc evs (IE_pipe NN_PIPE_IN)) as [? ?]; [done|done|done|by right|].
      apply side_active; try done.
      * eapply out_ok_ext; [..|exact Hout]; [done|]. by apply elem_ev_ne.
      * split; [done|]. right. split; [done|apply elem_ev_eq].
    + rewrite bool_decide_eq_false_2 by done. step.
      erewrite raise_peer_ok; [|reflexivity|done|reflexivity|by auto|exact EG|done|done].
      foundm (View V_active su false msg ((l0 :: l) ++ [msg'])) (View t su' rv' (VMsg [] [] []) l') F' (G ++ [NN_SINPROC_RECEIVED]) F' G; try done.
      by apply side_active.
Qed.

Lemma active_received d : sinproc_active d NN_SINPROC_SRC_PEER NN_SINPROC_RECEIVED = sinproc_received d.
Proof. done. Qed.

Lemma feed_receipt n v u F F' G m y : delivered n v u NN_SINPROC_RECEIVED F F' G m y → v_st v = V_active →
  feeds n NN_SINPROC_RECEIVED m y.
Proof.
  open_delivered v u. destruct (link_receipt_back _ _ _ _ _ _ _ _ _ _ Ho Ht) as [Ho' ->].
  pose proof (link_receipt_taken _ _ _ _ _ _ _ _ _ _ _ Hi Ht) as Hi'.
  open_me. run_feed. rewrite active_received. unfold sinproc_received. nstep. rewrite flag_sending. step.
  destruct Hout as (Hoo & -> & HOUT). cbn [outstate] in Hoo. subst oo.
  erewrite sess_pipe_sent_ok; [|reflexivity|done|done]. nstep. rewrite clear_sending.
  foundm (View V_active false rv msg l) (View t su' rv' msg' l') F' G F' G; try done.
  destruct (evs_snoc evs (IE_pipe NN_PIPE_OUT)) as [? ?]; [done|done|done|by left|].
  apply side_active; try done.
  - split; [done|]. right. split; [done|apply elem_ev_eq].
  - eapply in_ok_ext; [..|exact Hin]; [done|]. by apply elem_ev_ne.
Qed.

Lemma sess_pipe_stop_ok d x : p_sess (me d) = Some x → pstate (i_pipe x) = NN_PIPEBASE_STATE_ACTIVE →
  sess_pipe_stop d = Ret (on_pipe (λ b, set_pstate b NN_PIPEBASE_STATE_IDLE) (on_me (set_p_told false false) d)).
Proof. intros Hx Hp. unfold sess_pipe_stop, self. rewrite Hx. step. rewrite Hp. done. Qed.

Lemma active_disconnect d : sinproc_active d NN_SINPROC_SRC_PEER NN_SINPROC_DISCONNECT = sinproc_disconnect d.
Proof. done. Qed.

(** A side that has not heard of the end has no event of it. *)
Lemma side_no_disconnect u y : side u y → heard (v_st u) = false → IE_disconnect ∉ p_q y.
Proof.
  intros Hy Hh. destruct Hy as [| | |? ? ? ? ? ? ? ? ? ? ? ? ? ? ? ? ? Hf| | | |]; try done; cbn [p_q]; try apply not_elem_of_nil.
  intros Hin. rewrite Forall_forall in Hf. by destruct (Hf _ Hin).
Qed.

Lemma side_has_sess u y : side u y → v_st u ≠ V_none → v_st u ≠ V_gone → ∃ x, p_sess y = Some x.
Proof. intros Hy. destruct Hy; cbn [v_st p_sess]; try done; by eexists. Qed.

Lemma feed_disconnect n v u F F' G m y : delivered n v u NN_SINPROC_DISCONNECT F F' G m y → v_st v = V_active →
  p_q m = [] → feeds n NN_SINPROC_DISCONNECT m y.
Proof.
  open_delivered v u. intros Hmq.
  destruct (link_cut _ _ _ _ _ _ _ _ _ _ _ _ _ _ _ _ Hc Hi Ho Ht) as (-> & HF' & HG & Hi' & Ho').
  open_side Hy.
  open_me. cbn [p_q] in Hmq. subst evs. run_feed. rewrite active_disconnect. unfold sinproc_disconnect.
  erewrite sess_pipe_stop_ok; [|reflexivity|done]. nstep.
  erewrite raise_peer_ok; [|reflexivity|done|reflexivity|by auto|exact EG|done|by intros _ ?%not_elem_of_nil]. nstep.
  rewrite iraise_ok by apply not_elem_of_nil.
  foundm (View V_cut su rv msg l) (View V_stopping su' rv' msg' l') (@nil Z) (G ++ [NN_SINPROC_DISCONNECT]) (@nil Z) G; try done.
  - apply side_cut; try done. by left.
  - by apply side_stopping.
Qed.

(** *** A side that is closing *)

Lemma shut_run d x type : p_sess (me d) = Some x → i_fsm x = 3 →
  sess_feed d NN_SINPROC_SRC_PEER type P_null =
    (d ← nn_sinproc_shutdown_events d NN_SINPROC_SRC_PEER type P_null; sinproc_check_stopped d).
Proof.
  intros Hx Hf. unfold sess_feed, nn_fsm_feed, sess_fsm. rewrite Hx, Hf.
  change (negb (3 =? NN_FSM_STATE_STOPPING)) with false. cbv iota.
  unfold nn_sinproc_shutdown, self. rewrite Hx. step. rewrite Hf. done.
Qed.

Lemma existsb_eqb t l : existsb (Z.eqb t) l = true → t ∈ l.
Proof. intros (x & Hx & <-%Z.eqb_eq)%existsb_exists. by apply list_elem_of_In. Qed.

Lemma unpopped_elem (b : bool * list Z) x : x ∈ (if b.1 then drop 1 b.2 else b.2) → x ∈ b.2.
Proof. destruct b as [[] es]; [|done]. cbn [fst snd]. intros Hx. destruct es; [done|by right]. Qed.

Lemma event_active_flying t d : event_active t d = true →
  t ∈ flying (me d) (you d) ∨ t = NN_SINPROC_DISCONNECT ∧ IE_disconnect ∈ p_q (me d).
Proof.
  unfold event_active, flying. rewrite !orb_true_iff, andb_true_iff, bool_decide_eq_true.
  intros [[(b & Hb & Ht)%existsb_exists|Ht%existsb_eqb]|[Ht%Z.eqb_eq ?]]; [left|left|by right].
  - apply elem_of_app. left. apply list_elem_of_In in Hb. apply existsb_eqb, unpopped_elem in Ht.
    apply list_elem_of_In, in_concat. exists b.2. split; [|by apply list_elem_of_In].
    apply list_elem_of_In, list_elem_of_fmap. by exists b.
  - apply elem_of_app. by right.
Qed.

Lemma connect_active_flying d : connect_active d = true →
  ∃ x, x ∈ flying (you d) (me d) ∧ event_obj x = NN_SINPROC_CONNECT.
Proof.
  unfold connect_active, flying. rewrite orb_true_iff.
  intros [(b & Hb & (x & Hx & ?%Z.eqb_eq)%existsb_exists)%existsb_exists|(x & Hx & ?%Z.eqb_eq)%existsb_exists];
    exists x; (split; [|done]); apply elem_of_app; apply list_elem_of_In in Hx; [left|by right].
  apply unpopped_elem in Hx. apply list_elem_of_In, in_concat. exists b.2. split; [|by apply list_elem_of_In].
  apply list_elem_of_In, list_elem_of_fmap. exists b. split; [done|]. by apply list_elem_of_In.
Qed.

(** Nothing is on its way to a side that has heard of the end: it stops at once. *)
Lemma check_stopped_ok d x G : p_sess (me d) = Some x → i_state x = NN_SINPROC_STATE_STOPPING → i_fsm x = 3 →
  flying (me d) (you d) = [] → IE_disconnect ∉ p_q (me d) → IE_stopped ∉ p_q (me d) →
  flying (you d) (me d) = G → (∀ z, z ∈ G → event_obj z ≠ NN_SINPROC_CONNECT) →
  sinproc_check_stopped d = Ret (set_sess_fsm (on_me (set_p_q (p_q (me d) ++ [IE_stopped])) d) NN_FSM_STATE_IDLE).
Proof.
  intros Hx Hs Hf HF Hd Hst <- HG. unfold sinproc_check_stopped, self. rewrite Hx. step. rewrite Hs. cbn [Z.eqb negb].
  assert (∀ t, event_active t d = false) as Hact.
  { intros t. apply not_true_iff_false. intros [Ht|[_ Ht]]%event_active_flying; [|done].
    rewrite HF in Ht. by apply not_elem_of_nil in Ht. }
  assert (connect_active d = false) as Hcon.
  { apply not_true_iff_false. intros (z & Hz & E)%connect_active_flying. by apply (HG z). }
  change (negb (NN_SINPROC_STATE_STOPPING =? NN_SINPROC_STATE_STOPPING)) with false. cbv iota.
  rewrite !Hact, Hcon. step. unfold nn_fsm_stopped, sess_fsm. rewrite Hx, Hf.
  change (3 =? NN_FSM_STATE_STOPPING) with true. step. by rewrite iraise_ok.
Qed.

Lemma shutdown_light d x e : p_sess (me d) = Some x → i_state x = NN_SINPROC_STATE_STOPPING_PEER → light e →
  nn_sinproc_shutdown_events d NN_SINPROC_SRC_PEER e P_null = Ret d.
Proof.
  intros Hx Hs He. unfold nn_sinproc_shutdown_events, self. rewrite Hx. step. rewrite Hs. by destruct He as [-> | ->].
Qed.

Lemma feed_ignored n v u e F F' G m y : light e → delivered n v u e F F' G m y → v_st v = V_stopping → feeds n e m y.
Proof.
  intros He. open_delivered v u.
  pose proof (link_ignore _ _ _ _ _ _ _ _ _ _ _ Hi He Ht) as Hi'.
  pose proof (link_ignore_back _ _ _ _ _ _ _ _ _ _ _ Ho He Ht) as Ho'.
  open_me. unfold feeds. erewrite shut_run by reflexivity.
  erewrite shutdown_light by done.
  step. change (sinproc_check_stopped ?d) with (Ret d).
  destruct He as [-> | ->]; (foundm (View V_stopping su rv msg l) (View t su' rv' msg' l') F' G F' G; try done; by apply side_stopping).
Qed.

(** After the handshake its events are gone. *)
Lemma no_handshake s t F G su rv msg l rcvd sent : link s t F G su rv msg l rcvd sent → said s = true →
  ∀ z, z ∈ F → event_obj z ≠ NN_SINPROC_CONNECT.
Proof.
  intros [] Hs z Hz E. unfold event_obj in E.
  destruct (Z.eqb_spec z NN_SINPROC_READY) as [->|]; [by apply k_ready in Hz as [-> _]|].
  destruct (Z.eqb_spec z NN_SINPROC_ACCEPTED) as [->|]; [by apply k_accepted in Hz as [-> _]|].
  cbn [orb] in E. subst z. by apply k_connect in Hz as ->.
Qed.

Lemma feed_stopped n v u F F' G m y : delivered n v u NN_SINPROC_DISCONNECT F F' G m y → v_st v = V_stopping →
  feeds n NN_SINPROC_DISCONNECT m y.
Proof.
  open_delivered v u. destruct (link_stopped _ _ _ _ _ _ _ _ _ _ _ _ _ _ _ _ Hc Hi Ho Ht) as (HF' & Hs & Hi' & Ho').
  open_me. unfold feeds. erewrite shut_run by reflexivity.
  change (nn_sinproc_shutdown_events ?d NN_SINPROC_SRC_PEER NN_SINPROC_DISCONNECT P_null)
    with (Ret (on_self (set_i_state NN_SINPROC_STATE_STOPPING) d)). nstep.
  erewrite check_stopped_ok;
    [|reflexivity|done|done|exact EF|by apply not_elem_of_nil|by apply not_elem_of_nil|exact EG|by eapply no_handshake].
  unfold set_sess_fsm. foundm (View V_stopped su rv msg l) (View t su' rv' msg' l') (@nil Z) G (@nil Z) G; try done.
  apply side_stopped; try done. by right.
Qed.

(** *** The endpoint *)

Lemma mq_ok_init c : mq_ok c (nn_msgqueue_init mheap_empty (n_rcvbuf c)) [].
Proof. destruct (mqrep_init (n_rcvbuf c)) as (h & q & cs & E & Hr). rewrite E. by exists cs. Qed.

Lemma ep_feed_connect d : p_fsm (me d) = 2 → p_state (me d) = 2 →
  ep_feed d NN_SINPROC_SRC_PEER NN_SINPROC_CONNECT P_null = nn_sinproc_accept (new_sess d).
Proof.
  intros Hf Hs. unfold ep_feed, nn_fsm_feed, ep_fsm, ep_handler. rewrite Hf.
  change (negb (2 =? NN_FSM_STATE_STOPPING)) with true. cbv iota.
  unfold nn_binproc_handler, nn_cinproc_handler. rewrite Hs. by destruct (n_bind _).
Qed.

Lemma feed_connect n v u F F' G m y : delivered n v u NN_SINPROC_CONNECT F F' G m y → v_st v = V_none →
  toward n (mu (Duo m y) + wt true NN_SINPROC_CONNECT) 1 (ep_feed (Duo m y) NN_SINPROC_SRC_PEER NN_SINPROC_CONNECT P_null).
Proof.
  open_delivered v u. assert (t = V_connecting) as -> by by destruct t.
  destruct (side_has_sess _ _ Hy) as [x Hx]; [done|done|].
  open_me. destruct (link_accept _ _ _ _ _ _ _ _ _ _ _ _ _ _ _ Hi Ho Ht) as (HG & Hi' & Ho').
  rewrite ep_feed_connect by done. unfold nn_sinproc_accept, new_sess, nn_sinproc_init. nstep.
  erewrite raiseto_ok; [|exact EG|rewrite HG; by intros ? ?%not_elem_of_nil|done]. nstep.
  step. cbn [negb]. step.
  match goal with |- context [sess_start ?d] => assert (∃ d', d' = d) as [d' Ed'] by by eexists end.
  rewrite <- Ed'.
  assert (sess_start d' ≫= (λ d0 : duo, nn_fsm_action sess_fsm nn_sinproc_handler nn_sinproc_shutdown d0 NN_SINPROC_ACTION_READY)
    = Ret (on_self (set_i_state NN_SINPROC_STATE_READY) (set_sess_fsm d' NN_FSM_STATE_ACTIVE))) as E by (by subst d').
  rewrite E. subst d'. unfold set_sess_fsm.
  foundm (View V_ready false false (VMsg [] [] []) []) (View V_connecting su' rv' msg' l') F' (G ++ [NN_SINPROC_READY]) F' G; try done.
  apply side_ready; [done|]. apply mq_ok_init.
Qed.

(** A session whose peer is gone stops at once. *)
Lemma stop_cut_ok d x G : p_sess (me d) = Some x → i_fsm x = 2 → i_state x = NN_SINPROC_STATE_DISCONNECTED →
  p_q (me d) = [] → flying (me d) (you d) = [] → flying (you d) (me d) = G →
  (∀ z, z ∈ G → event_obj z ≠ NN_SINPROC_CONNECT) →
  nn_sinproc_stop d =
    Ret (on_me (set_p_q [IE_stopped]) (on_me (set_p_sess (Some (set_i_fsm 1 (set_i_state NN_SINPROC_STATE_STOPPING x)))) d)).
Proof.
  destruct d as [[c pf ps xo q to net o i sent rcvd] y], x as [xf xs xfl pr b xq msg]. cbn [me you p_sess p_q i_fsm i_state].
  intros -> -> -> -> HF HG Hz. unfold nn_sinproc_stop, nn_fsm_stop, sess_fsm. nred.
  change (negb (2 =? NN_FSM_STATE_ACTIVE)) with false. cbv iota. unfold set_sess_fsm, nn_sinproc_shutdown. nstep.
  change (NN_FSM_STATE_STOPPING =? 3) with true. step.
  match goal with |- context [nn_sinproc_shutdown_events ?d _ _ _] =>
    change (nn_sinproc_shutdown_events d NN_FSM_ACTION NN_FSM_STOP P_null)
      with (Ret (on_self (set_i_state NN_SINPROC_STATE_STOPPING) d)) end. nstep.
  erewrite check_stopped_ok; [|reflexivity|done|done|exact HF|by apply not_elem_of_nil|by apply not_elem_of_nil|exact HG|exact Hz].
  done.
Qed.

Lemma ep_feed_open d type : p_fsm (me d) = 2 → p_state (me d) = 2 →
  ep_feed d NN_BINPROC_SRC_SINPROC type P_null =
  if n_bind (p_conf (me d)) then
    if type =? NN_SINPROC_STOPPED then free_sess d
    else if type =? NN_SINPROC_DISCONNECT then nn_sinproc_stop d
    else Ret d
  else Ret d.
Proof.
  intros Hf Hs. unfold ep_feed, nn_fsm_feed, ep_fsm, ep_handler. rewrite Hf.
  change (negb (2 =? NN_FSM_STATE_STOPPING)) with true. cbv iota.
  unfold nn_binproc_handler, nn_cinproc_handler. rewrite Hs. by destruct (n_bind _).
Qed.

Lemma event_disconnect n v u F G m y os : v_st v = V_cut → p_q m = [IE_disconnect] → holds n v u F G m y →
  toward n (mu (Duo m y)) 0 (inproc_event os (Duo m y)).
Proof.
  intros Hv Hpq. open_holds v u. subst s. assert (F = []) as HF by (by destruct Hi; apply k_heard).
  pose proof (no_handshake _ _ _ _ _ _ _ _ _ _ Ho) as Hz.
  assert (said t = true) as Hs by by destruct t. specialize (Hz Hs).
  open_me. cbn [p_q] in Hpq. subst evs. unfold inproc_event. nred. cbv iota.
  rewrite ep_feed_open by done. nred. change (NN_SINPROC_DISCONNECT =? NN_SINPROC_STOPPED) with false. cbv iota.
  change (NN_SINPROC_DISCONNECT =? NN_SINPROC_DISCONNECT) with true. cbv iota. destruct bd.
  - erewrite stop_cut_ok; [|reflexivity|done|done|done|exact EF|exact EG|done].
    foundm (View V_stopped su rv msg l) (View t su' rv' msg' l') (@nil Z) G (@nil Z) G; try done.
    + apply side_stopped; try done. by left.
    + by eapply (link_after V_cut).
    + by eapply (link_after_back _ V_cut V_stopped).
  - foundm (View V_cut su rv msg l) (View t su' rv' msg' l') (@nil Z) G (@nil Z) G; try done.
    apply side_cut; try done. by right.
Qed.


Lemma free_sess_ok d x c l : p_sess (me d) = Some x → i_fsm x = NN_FSM_STATE_IDLE →
  pstate (i_pipe x) = NN_PIPEBASE_STATE_IDLE → mq_ok c (i_queue x) l → IE_stopped ∉ p_q (me d) →
  free_sess d = Ret (on_me (set_p_sess None) d).
Proof.
  intros Hx Hf Hp [cs Hq] Hs. unfold free_sess, nn_sinproc_term, self. rewrite Hx. step.
  destruct (i_queue x) as [h q]. cbn [fst snd] in Hq.
  destruct (mq_term_ok (S (Z.to_nat (mq_count q))) _ _ _ _ _ Hq) as (h' & -> & _).
  { rewrite (mr_count _ _ _ _ _ Hq). lia. }
  step. rewrite Hp. change (NN_PIPEBASE_STATE_IDLE =? NN_PIPEBASE_STATE_IDLE) with true. step.
  unfold nn_fsm_term, nn_fsm_isidle, sess_fsm, stopped_active. rewrite Hx, Hf, bool_decide_eq_false_2 by done. done.
Qed.

Lemma ep_feed_closing d : p_fsm (me d) = 3 → p_state (me d) = 3 →
  ep_feed d NN_BINPROC_SRC_SINPROC NN_SINPROC_STOPPED P_null = (d ← free_sess d; binproc_finish d).
Proof.
  intros Hf Hs. unfold ep_feed, nn_fsm_feed, ep_fsm, ep_shutdown. rewrite Hf.
  change (negb (3 =? NN_FSM_STATE_STOPPING)) with false. cbv iota.
  unfold nn_binproc_shutdown, nn_cinproc_shutdown. rewrite Hs. by destruct (n_bind _).
Qed.

Lemma ep_finish_ok d : p_sess (me d) = None → p_fsm (me d) = 3 → IE_ep_stopped ∉ p_q (me d) →
  binproc_finish d = Ret (on_me (λ p, set_p_q (p_q p ++ [IE_ep_stopped]) (set_p_fsm 1 (set_p_state 1 p))) d).
Proof.
  intros Hx Hf Hq. unfold binproc_finish. rewrite Hx. unfold nn_fsm_stopped_noevent, ep_fsm.
  change (p_fsm (me (on_me (set_p_state NN_BINPROC_STATE_IDLE) d))) with (p_fsm (me d)). rewrite Hf.
  change (3 =? NN_FSM_STATE_STOPPING) with true. step. by rewrite iraise_ok.
Qed.

Lemma event_stopped n v u F G m y os : v_st v = V_stopped → p_q m = [IE_stopped] → holds n v u F G m y →
  toward n (mu (Duo m y)) 0 (inproc_event os (Duo m y)).
Proof.
  intros Hv Hpq. open_holds v u. subst s.
  assert (said t = true) as Hs by by destruct t.
  assert (link V_gone t F G su' rv msg' l (p_rcvd m) (p_sent y)) as Hi' by by eapply (link_after V_stopped).
  assert (link t V_gone G F su rv' msg l' (p_rcvd y) (p_sent m)) as Ho' by by eapply (link_after_back _ V_stopped).
  open_me. unfold inproc_event. nred. cbv iota. 
  match goal with H : _ ∧ _ ∨ _ = 3 |- _ => destruct H as [[-> Hb] | ->]; [cbn [n_bind] in Hb; subst bd|] end.
  - rewrite ep_feed_open by done. nred. change (NN_SINPROC_STOPPED =? NN_SINPROC_STOPPED) with true. cbv iota.
    erewrite free_sess_ok; [|reflexivity|done|done|exact Hq|by apply not_elem_of_nil].
    foundm (View V_gone su rv msg l) (View t su' rv' msg' l') F G F G; try done.
    apply side_gone. by left.
  - rewrite ep_feed_closing by done.
    erewrite free_sess_ok; [|reflexivity|done|done|exact Hq|by apply not_elem_of_nil]. nstep.
    rewrite ep_finish_ok by (try done; by apply not_elem_of_nil).
    foundm (View V_gone su rv msg l) (View t su' rv' msg' l') F G F G; try done.
    apply side_gone. right. split; [done|by right].
Qed.

(** *** The protocol *)

Definition iop_cost (o : iop) : Z := match o with I_send m => cost [m] | I_recv => 0 end.

Lemma send_step_ok n v u F G m y x : v_st v = V_active → p_out m = true → holds n v u F G m y →
  steps (n + cost [x]) (run_iop (I_send x) (Duo m y)).
Proof.
  intros Hv Hpo. open_holds v u. subst s.
  destruct (side_has_sess _ _ Hy) as [yx Hyx]; [by destruct t|by destruct t|].
  assert (su = false) as ->.
  { clear Hd. inversion Hm; subst. cbn [p_out] in Hpo. subst. destruct su; [|done].
    match goal with H : out_ok _ _ _ _ |- _ => by destruct H as (_ & ? & _) end. }
  destruct (link_send _ _ _ _ _ x _ _ _ (eq_trans (compat_sym _ _) Hc) Ho) as [Ho' HG].
  destruct y as [yc yf ys yx' yq yto ynet yo yi ysent yrcvd]. cbn [p_sess] in Hyx. subst yx'.
  open_me. cbn [p_out] in Hpo. subst o. destruct Hout as (Hoo & [[_ HOUT]|[? _]]); [|done]. cbn [outstate] in Hoo. subst oo.
  unfold run_iop. nred. cbv iota. unfold sess_send. nstep.
  change (bool_decide (OUT_IDLE = OUT_IDLE)) with true. step. unfold nn_sinproc_send. nstep.
  change (NN_SINPROC_STATE_ACTIVE =? NN_SINPROC_STATE_DISCONNECTED) with false. cbv iota.
  change (NN_SINPROC_STATE_ACTIVE =? NN_SINPROC_STATE_ACTIVE) with true. step. rewrite flag_sending. step. cbn [negb]. step.
  nred. rewrite raise_sending.
  erewrite raise_peer_ok; [|reflexivity|done|reflexivity|by auto|exact EG|done|done]. nstep.
  change (0 <=? 0) with true. step. rewrite decide_False by done.
  change (bool_decide (OUT_SENDING = OUT_SENDING)) with true. nstep.
  change (negb (released (Z.lor 0 NN_PIPE_RELEASE))) with false.
  found (View V_active true rv (merge x) l) (View t su' rv' msg' l') F (G ++ [NN_SINPROC_SENT]); try done.
  - by apply side_active.
  - eapply link_G; [|exact Hi]. apply elem_snoc_ne. done.
  - nred. rewrite cost_app. views. lia.
Qed.

(** Receiving, given what becomes of a message that was waiting at the peer: the
    pipe stays readable when there is another message. *)
Lemma sess_recv_run d x m0 h q d1 x1 c l :
  p_sess (me d) = Some x → instate (i_pipe x) = IN_IDLE → i_state x = NN_SINPROC_STATE_ACTIVE →
  nn_msgqueue_recv (i_queue x).1 (i_queue x).2 = Ret (h, q, 0, Some m0) →
  recv_lingering (on_self (set_i_queue (h, q)) (on_pipe (λ b, set_in b IN_RECEIVING) d)) = Ret d1 →
  p_sess (me d1) = Some x1 → instate (i_pipe x1) = IN_RECEIVING → mq_ok c (i_queue x1) l →
  sess_recv d = Ret (on_pipe (λ b, set_in b (if bool_decide (l = []) then IN_ASYNC else IN_IDLE)) d1,
    (if bool_decide (l = []) then NN_PIPE_RELEASE else 0), m0).
Proof.
  intros Hx Hi Hs Hr Hl Hx1 Hi1 Hq. unfold sess_recv, self. rewrite Hx. step. rewrite Hi, bool_decide_eq_true_2 by done. step.
  unfold nn_sinproc_recv, self. cbn [on_pipe on_self on_me me p_sess set_p_sess option_map]. rewrite Hx. cbn [option_map]. step.
  cbn [i_state set_i_pipe i_queue]. rewrite Hs, Hr. change (NN_SINPROC_STATE_ACTIVE =? NN_SINPROC_STATE_ACTIVE) with true. step.
  cbn [orb]. step. change (0 =? 0) with true. step.
  unfold on_pipe, on_self, on_me in Hl |- *. cbn [me you p_sess set_p_sess option_map] in Hl |- *. rewrite Hx in *. cbn [option_map] in Hl |- *.
  rewrite Hl. step. rewrite Hx1. step. rewrite (mq_ok_empty _ _ _ Hq). destruct l as [|z l].
  - rewrite bool_decide_eq_true_2 by done. cbn [negb]. step. change (0 <=? 0) with true. step. rewrite Hx1. step.
    rewrite Hi1, decide_False, bool_decide_eq_true_2 by done. done.
  - rewrite bool_decide_eq_false_2 by done. cbn [negb]. unfold sess_pipe_received, self. rewrite Hx1. step.
    rewrite Hi1, decide_True by done. step. change (0 <=? 0) with true. step.
    unfold on_pipe, on_self, on_me. cbn [me you p_sess set_p_sess option_map]. rewrite Hx1. cbn [option_map]. step.
    cbn [i_pipe set_i_pipe instate set_in]. rewrite decide_True by done. done.
Qed.

Lemma run_recv d d1 (l : list vmsg) x0 : p_in (me d) = true →
  sess_recv d = Ret (on_pipe (λ b, set_in b (if bool_decide (l = []) then IN_ASYNC else IN_IDLE)) d1,
    (if bool_decide (l = []) then NN_PIPE_RELEASE else 0), x0) →
  run_iop I_recv d = Ret (on_me (λ p, set_p_told (p_out p) (negb (bool_decide (l = []))) (set_p_msgs (p_sent p) (p_rcvd p ++ [x0]) p))
    (on_pipe (λ b, set_in b (if bool_decide (l = []) then IN_ASYNC else IN_IDLE)) d1)).
Proof. intros Hp E. unfold run_iop. rewrite Hp, E. step. by destruct (bool_decide _). Qed.

(** The message that is waiting: none, it still has to wait, or it follows. *)
Lemma lingering_none d x : p_sess (me d) = Some x → i_state x = NN_SINPROC_STATE_ACTIVE →
  flag NN_SINPROC_FLAG_RECEIVING x = false → recv_lingering d = Ret d.
Proof. intros Hx Hs Hf. unfold recv_lingering, self. rewrite Hx. step. by rewrite Hs, Hf. Qed.

Lemma lingering_full d x y h q : p_sess (me d) = Some x → i_state x = NN_SINPROC_STATE_ACTIVE →
  flag NN_SINPROC_FLAG_RECEIVING x = true → i_peer x = true → p_sess (you d) = Some y →
  nn_msgqueue_send (i_queue x).1 (i_queue x).2 (i_msg y) = Ret (h, q, - EAGAIN) →
  recv_lingering d = Ret (on_self (set_i_queue (h, q)) d).
Proof.
  intros Hx Hs Hf Hp Hy E. unfold recv_lingering, peer, self. rewrite Hx. step. rewrite Hs, Hf, Hp, Hy. step. by rewrite E.
Qed.

Lemma lingering_ok d x y h q G : p_sess (me d) = Some x → i_state x = NN_SINPROC_STATE_ACTIVE →
  flag NN_SINPROC_FLAG_RECEIVING x = true → i_peer x = true → p_sess (you d) = Some y →
  nn_msgqueue_send (i_queue x).1 (i_queue x).2 (i_msg y) = Ret (h, q, 0) →
  flying (you d) (me d) = G → NN_SINPROC_RECEIVED ∉ G →
  recv_lingering d =
    Ret (Duo (set_p_to (p_to (me d) ++ [NN_SINPROC_RECEIVED])
                (set_p_sess (Some (clear_flag NN_SINPROC_FLAG_RECEIVING (set_i_queue (h, q) x))) (me d)))
             (set_p_sess (Some (set_i_msg (VMsg [] [] []) y)) (you d))).
Proof.
  destruct d as [[c pf ps xo pq to net o i sent rcvd] [yc yf ys yx yq yto ynet yo yi ysent yrcvd]].
  destruct x as [xf xs xfl pr b [h0 q0] msg], y as [zf zs zfl zp zb zq ymsg]. cbn [me you p_sess i_state i_peer i_queue i_msg fst snd].
  intros -> -> Hf -> -> E HG Hn. unfold recv_lingering. nstep. rewrite Hf. cbv iota.
  change (NN_SINPROC_STATE_ACTIVE =? NN_SINPROC_STATE_DISCONNECTED) with false. cbv iota. nstep.
  rewrite E. step. change (0 =? 0) with true. cbn [orb]. step.
  nred. erewrite raise_peer_ok; [|reflexivity|done|reflexivity|by auto|exact HG|done|done]. done.
Qed.

Lemma recv_ok n v u F G m y : n < 2 ^ 64 → v_st v = V_active → p_in m = true → holds n v u F G m y →
  steps n (run_iop I_recv (Duo m y)).
Proof.
  intros Hn Hv Hpi. open_holds v u. subst s.
  assert (∃ x0 l0, l = x0 :: l0) as (x0 & l0 & ->).
  { clear Hd. inversion Hm; subst. cbn [p_in] in Hpi. subst.
    match goal with H : in_ok _ _ _ _ |- _ => destruct l; [by destruct H as (_ & ? & _)|by eexists _, _] end. }
  pose proof (link_recv _ _ _ _ _ _ _ _ _ _ Hi) as Hi1.
  destruct rv.
  - assert (t = V_active ∨ t = V_stopping) as Ht' by (eapply quiet_peer; [exact Hi|done|done|by right]).
    destruct (link_linger _ _ _ _ _ _ _ _ Hi1) as (HG & Hmsg & Hi2).
    destruct (side_exposed _ _ Hy Ht') as (yx & Hyx & Hxm & Hy').
    assert (cost (p_sent y) < 2 ^ 64) as Hsm by (pose proof (cost_nonneg (p_sent m)); lia).
    destruct (queue_small _ _ _ _ Hmsg Hsm) as [Hl1 Hl2].
    assert (link t V_active (G ++ [NN_SINPROC_RECEIVED]) F su rv' msg l' (p_rcvd y) (p_sent m)) as Ho'.
    { apply link_receipt; [exact Ho|done|by destruct Ht' as [-> | ->]|done]. }
    destruct y as [yc yf ys yx' yq yto ynet yo yi ysent yrcvd]. cbn [p_sess] in Hyx. subst yx'.
    destruct yx as [xf xs xfl xp xb xq xm]. cbn [v_msg i_msg] in Hxm. subst xm.
    open_me. cbn [p_in] in Hpi. subst i. destruct Hin as (Hii & [[_ HIN]|[? _]]); [|done]. cbn [instate] in Hii. match type of Hii with ?z = _ => subst z end.
    destruct (mq_ok_recv _ _ _ _ Hq) as (h1 & q1 & Hr & Hq1).
    destruct (mq_ok_send _ _ _ _ Hq1 Hl1 Hl2) as [[Hne Hs]|(h' & q' & Hs & Hq')].
    + erewrite run_recv; [|done|eapply sess_recv_run; [reflexivity|done|done|exact Hr|
        eapply lingering_full; [reflexivity|done|apply flag_receiving|done|reflexivity|exact Hs]|reflexivity|done|exact Hq1]].
      rewrite !bool_decide_eq_false_2 by done.
      found (View V_active su true msg l0) (View t su' rv' msg' l') F G; try done.
      apply side_active; try done. by destruct l0; [|split; [|left]].
    + erewrite run_recv; [|done|eapply sess_recv_run; [reflexivity|done|done|exact Hr|
        eapply lingering_ok; [reflexivity|done|apply flag_receiving|done|reflexivity|exact Hs|exact EG|exact HG]|reflexivity|done|exact Hq']].
      rewrite !bool_decide_eq_false_2 by (by destruct l0). nred. rewrite clear_receiving.
      found (View V_active su false msg (l0 ++ [msg'])) (View t su' rv' (VMsg [] [] []) l') F (G ++ [NN_SINPROC_RECEIVED]); try done.
      apply side_active; try done. by destruct l0; (split; [|left]).
  - open_me. cbn [p_in] in Hpi. subst i. destruct Hin as (Hii & [[_ HIN]|[? _]]); [|done]. cbn [instate] in Hii. match type of Hii with ?z = _ => subst z end.
    destruct (mq_ok_recv _ _ _ _ Hq) as (h1 & q1 & Hr & Hq1).
    erewrite run_recv; [|done|eapply sess_recv_run; [reflexivity|done|done|exact Hr|
      eapply lingering_none; [reflexivity|done|apply flag_receiving]|reflexivity|done|exact Hq1]].
    found (View V_active su false msg l0) (View t su' rv' msg' l') F G; try done.
    apply side_active; try done. by destruct l0; [|split; [|left]].
Qed.

Lemma inv_mono n n' d : n ≤ n' → inv n d → inv n' d.
Proof. intros Hn (v & u & []). exists v, u. split; try done. lia. Qed.

Lemma inv_holds n d : inv n d ↔ ∃ v u F G, holds n v u F G (me d) (you d).
Proof.
  split; [intros (v & u & H); exists v, u, (flying (me d) (you d)), (flying (you d) (me d)); by split|]. intros (v & u & F & G & [H <- <-]). by exists v, u.
Qed.

(** A protocol knows a pipe only while the session is active. *)
Lemma told_active v m : side v m → p_out m = true ∨ p_in m = true → v_st v = V_active.
Proof. intros Hm Hp. destruct Hm; try done; cbn [p_out p_in] in Hp; by destruct Hp. Qed.

Lemma iop_cost_nonneg o : 0 ≤ iop_cost o.
Proof. destruct o; [apply cost_nonneg|done]. Qed.

Lemma iop_ok n o d : inv n d → n + iop_cost o < 2 ^ 64 → steps (n + iop_cost o) (run_iop o d).
Proof.
  intros Hi Hn. pose proof (iop_cost_nonneg o) as Ho. destruct d as [m y].
  assert (steps (n + iop_cost o) (Ret (Duo m y))) as Hsame.
  { eexists. split; [done|]. eapply inv_mono; [|done]. lia. }
  apply inv_holds in Hi as (v & u & F & G & Hd). cbn [me you] in Hd.
  pose proof (po_me _ _ _ _ _ _ _ (hs_pair _ _ _ _ _ _ _ Hd)) as Hm. destruct o as [x|].
  - destruct (p_out m) eqn:Hp; [|unfold run_iop; cbn [me]; by rewrite Hp].
    eapply send_step_ok; [eapply told_active; [done|by left]|done|done].
  - destruct (p_in m) eqn:Hp; [|unfold run_iop; cbn [me]; by rewrite Hp].
    cbn [iop_cost] in *. rewrite Z.add_0_r in *.
    eapply recv_ok; [done|eapply told_active; [done|by right]|done|done].
Qed.

Definition iops_cost (os : list iop) : Z := foldr (λ o n, iop_cost o + n) 0 os.

Lemma iops_cost_nonneg os : 0 ≤ iops_cost os.
Proof. induction os as [|o os IH]; [done|]. pose proof (iop_cost_nonneg o). cbn. unfold iops_cost in IH. lia. Qed.

Lemma iops_ok n os d : inv n d → n + iops_cost os < 2 ^ 64 → steps (n + iops_cost os) (run_iops os d).
Proof.
  revert n d. induction os as [|o os IH]; intros n d Hi Hn.
  - eexists. split; [done|]. eapply inv_mono; [|done]. cbn. lia.
  - change (iops_cost (o :: os)) with (iop_cost o + iops_cost os) in *. pose proof (iops_cost_nonneg os) as Hos.
    destruct (iop_ok n o d Hi) as (d1 & E & Hi1); [lia|]. cbn [run_iops]. rewrite E. step.
    replace (n + (iop_cost o + iops_cost os)) with (n + iop_cost o + iops_cost os) in * by lia. by apply IH.
Qed.

(** The next event of a context. *)
Lemma event_pipe n v u F G m y type q os : v_st v = V_active → p_q m = IE_pipe type :: q → holds n v u F G m y →
  ∃ d, inproc_event os (Duo m y) = run_iops os d ∧ inv n d ∧ (mu d < mu (Duo m y))%nat.
Proof.
  intros Hv Hpq. open_holds v u. subst s. open_me. cbn [p_q] in Hpq. subst evs.
  match goal with H : pstate _ = NN_PIPEBASE_STATE_ACTIVE |- _ => rename H into Hps end. cbn [pstate] in Hps. subst ps.
  apply NoDup_cons in Hnd as [Hnq Hnd]. apply Forall_cons in Hev as [[[= ->]|[= ->]] Hev];
    (eexists; split; [unfold inproc_event, pipe_told; nstep; reflexivity|]); nred.
  - change (NN_PIPE_OUT =? NN_PIPE_OUT) with true. cbv iota. split; [|less F G F G].
    exists (View V_active su rv msg l), (View t su' rv' msg' l'). subst F G. split; try done. apply side_active; try done.
    + destruct su; [destruct Hout as (_ & _ & []); by left|]. destruct Hout as [? [[_ []]|_]]; [by left|].
      split; [done|]. by left.
    + eapply in_ok_ext; [..|exact Hin]; [done|]. rewrite elem_of_cons. naive_solver.
  - change (NN_PIPE_IN =? NN_PIPE_OUT) with false. cbv iota. split; [|less F G F G].
    exists (View V_active su rv msg l), (View t su' rv' msg' l'). subst F G. split; try done. apply side_active; try done.
    + eapply out_ok_ext; [..|exact Hout]; [done|]. rewrite elem_of_cons. naive_solver.
    + destruct l; [destruct Hin as (_ & _ & []); by left|]. destruct Hin as [? [[_ []]|_]]; [by left|].
      split; [done|]. by left.
Qed.

Lemma event_split n os d : inv n d → p_q (me d) ≠ [] →
  ∃ d', (inproc_event os d = run_iops os d' ∨ inproc_event os d = Ret d') ∧ inv n d' ∧ (mu d' < mu d)%nat.
Proof.
  intros Hi Hq. destruct d as [m y].
  assert (∀ f, toward n (mu (Duo m y)) 0 f → ∃ d', (f = run_iops os d' ∨ f = Ret d') ∧ inv n d' ∧ (mu d' < mu (Duo m y))%nat)
    as Hto by (intros f (d' & -> & ? & ?); exists d'; split_and!; [by right|done|lia]).
  apply inv_holds in Hi as (v & u & F & G & Hd). cbn [me you] in *.
  pose proof (po_me _ _ _ _ _ _ _ (hs_pair _ _ _ _ _ _ _ Hd)) as Hm.
  destruct Hm as [| | |? ? ? ? ? ? ? evs ? ? ? ? ? ? ? ? ? Hev|
    |? ? ? ? ? ? ? ? evs ? ? ? ? ? ? Hevs| |c pf su rv msg l evs ? ? ? ? Hevs]; cbn [p_q] in Hq; try done.
  - destruct evs as [|[ty| | |] evs]; [done| |by apply Forall_cons in Hev as [[] _]..].
    eapply event_pipe in Hd as (d & E & Hi & Hmu); [|done|done]. exists d. split_and!; [left; exact E|done|done].
  - destruct Hevs as [->|[-> _]]; [|done]. eapply Hto, event_disconnect; [..|exact Hd]; done.
  - eapply Hto, event_stopped; [..|exact Hd]; done.
  - apply Hto. assert (pf = 1 ∧ evs = [IE_ep_stopped]) as [-> ->] by (destruct Hevs as [[_ ->]|[-> [-> | ->]]]; done).
    destruct Hd as [[Hm Hy Hc Hi Ho Hcost Hrc] EF EG].
    foundm (View V_gone su rv msg l) u F G F G; try done. apply side_gone. right. split; [done|by left].
Qed.

Lemma ctx_event_ok n os d : inv n d → p_q (me d) ≠ [] → n + iops_cost os < 2 ^ 64 →
  steps (n + iops_cost os) (inproc_event os d).
Proof.
  intros Hi Hq Hn. destruct (event_split n os d Hi Hq) as (d' & [-> | ->] & Hi' & _); [by apply iops_ok|].
  exists d'. split; [done|]. eapply inv_mono; [|done]. pose proof (iops_cost_nonneg os). lia.
Qed.

(** *** Closing an endpoint *)

(** The handshake of this side is not over: its session waits for the peer, or the
    request to connect is on its way. *)
Definition early (d : duo) : bool :=
  match p_sess (me d) with
  | Some x => (i_state x =? NN_SINPROC_STATE_CONNECTING) || (i_state x =? NN_SINPROC_STATE_READY)
  | None => bool_decide (NN_SINPROC_CONNECT ∈ flying (me d) (you d))
  end.

Lemma ep_stop_open d : p_fsm (me d) = 2 →
  ep_stop d = (d ← stop_sess (set_ep_fsm d 3); binproc_finish (on_me (set_p_state 3) d)).
Proof.
  intros Hf. unfold ep_stop, nn_binproc_stop, nn_cinproc_stop, nn_fsm_stop, ep_fsm. rewrite Hf. by destruct (n_bind _).
Qed.

Lemma ep_stop_again d : p_fsm (me d) ≠ 2 → ep_stop d = Ret d.
Proof.
  intros Hf. unfold ep_stop, nn_binproc_stop, nn_cinproc_stop, nn_fsm_stop, ep_fsm.
  rewrite (proj2 (Z.eqb_neq _ _)) by done. by destruct (n_bind _).
Qed.

Lemma stop_active n v u F G m y : v_st v = V_active → p_q m = [] → holds n v u F G m y → steps n (ep_stop (Duo m y)).
Proof.
  intros Hv Hpq. open_holds v u. subst s.
  destruct (link_close _ _ _ _ _ _ _ _ _ _ _ _ _ _ _ Hc Hi Ho) as (HG & Hi' & Ho').
  pose proof (side_no_disconnect _ _ Hy) as Hnd'. cbn [v_st] in Hnd'. specialize (Hnd' ltac:(by destruct t)).
  destruct (side_has_sess _ _ Hy) as [yx Hyx]; [by destruct t|by destruct t|].
  destruct y as [yc yf ys yx' yq yto ynet yo yi ysent yrcvd]. cbn [p_sess p_q] in Hyx, Hnd'. subst yx'.
  open_me. cbn [p_q] in Hpq. subst evs.
  rewrite ep_stop_open by done. unfold stop_sess, set_ep_fsm. nred. unfold nn_sinproc_stop, nn_fsm_stop, sess_fsm. nred.
  change (negb (2 =? NN_FSM_STATE_ACTIVE)) with false. cbv iota. unfold set_sess_fsm, nn_sinproc_shutdown. nstep.
  change (NN_FSM_STATE_STOPPING =? 3) with true. step. unfold nn_sinproc_shutdown_events. nstep.
  change ((NN_FSM_ACTION =? NN_FSM_ACTION) && (NN_FSM_STOP =? NN_FSM_STOP)) with true. cbv iota.
  change (negb (NN_SINPROC_STATE_ACTIVE =? NN_SINPROC_STATE_IDLE) && negb (NN_SINPROC_STATE_ACTIVE =? NN_SINPROC_STATE_DISCONNECTED)) with true.
  cbv iota. erewrite sess_pipe_stop_ok; [|reflexivity|done]. nstep.
  change ((NN_FSM_STATE_STOPPING =? 2) || (NN_FSM_STATE_STOPPING =? 3)) with true. step.
  erewrite raise_peer_ok; [|reflexivity|done|reflexivity|by auto|exact EG|done|by intros _]. nstep.
  change (sinproc_check_stopped ?d) with (Ret d). nstep. unfold binproc_finish. nred.
  found (View V_stopping su rv msg l) (View t su' rv' msg' l') F (G ++ [NN_SINPROC_DISCONNECT]); try done.
  - by apply side_stopping.
  - by destruct t.
Qed.

Lemma stop_cut n v u F G m y : v_st v = V_cut → p_q m = [] → holds n v u F G m y → steps n (ep_stop (Duo m y)).
Proof.
  intros Hv Hpq. open_holds v u. subst s. assert (F = []) as HF by (by destruct Hi; apply k_heard).
  assert (said t = true) as Hs by by destruct t. pose proof (no_handshake _ _ _ _ _ _ _ _ _ _ Ho Hs) as Hz.
  assert (link V_stopped t F G su' rv msg' l (p_rcvd m) (p_sent y)) as Hi' by by eapply (link_after V_cut).
  assert (link t V_stopped G F su rv' msg l' (p_rcvd y) (p_sent m)) as Ho' by by eapply (link_after_back _ V_cut).
  open_me. cbn [p_q] in Hpq. subst evs.
  rewrite ep_stop_open by done. unfold stop_sess, set_ep_fsm. nred.
  erewrite stop_cut_ok; [|reflexivity|done|done|done|exact EF|exact EG|done]. nstep. unfold binproc_finish. nred.
  found (View V_stopped su rv msg l) (View t su' rv' msg' l') (@nil Z) G; try done.
  apply side_stopped; try done. by right.
Qed.

Lemma stop_gone n v u F G m y : v_st v = V_gone → p_q m = [] → holds n v u F G m y → steps n (ep_stop (Duo m y)).
Proof.
  intros Hv Hpq. open_holds v u. subst s. open_me. cbn [p_q] in Hpq. subst evs.
  match goal with H : _ ∨ _ |- _ => rename H into Hpf end. destruct Hpf as [[-> _]|[-> _]].
  - rewrite ep_stop_open by done. unfold stop_sess, set_ep_fsm. nstep.
    rewrite ep_finish_ok by (try done; by apply not_elem_of_nil).
    found (View V_gone su rv msg l) (View t su' rv' msg' l') F G; try done. apply side_gone. right. split; [done|by right].
  - rewrite ep_stop_again by done.
    found (View V_gone su rv msg l) (View t su' rv' msg' l') F G; try done. apply side_gone. right. split; [done|by left].
Qed.

Lemma endpoint_stop_ok n d : inv n d → p_q (me d) = [] → early d = false → steps n (ep_stop d).
Proof.
  intros Hi Hq He. destruct d as [m y]. apply inv_holds in Hi as (v & u & F & G & Hd). cbn [me you] in *.
  pose proof (po_me _ _ _ _ _ _ _ (hs_pair _ _ _ _ _ _ _ Hd)) as Hm. unfold early in He. cbn [me you] in He.
  pose proof Hd as [[_ _ _ Hl _ _ _] EF _]. destruct Hm; cbn [p_sess p_q] in *; try done.
  - rewrite EF in He. apply bool_decide_eq_false in He. destruct Hl as [_ [_ Hc] _ _ _ _ _ _ _ _ _ _ _]. destruct He. by apply Hc.
  - by eapply stop_active; [| |exact Hd].
  - rewrite ep_stop_again by done. eexists. split; [done|]. apply inv_holds. by eexists _, _, _, _.
  - by eapply stop_cut; [| |exact Hd].
  - by eapply stop_gone; [| |exact Hd].
Qed.

(** ** Every step *)

Lemma side_net v p b : side v p → side v (set_p_net b p).
Proof. intros []; by constructor. Qed.

Lemma side_to v p b : side v p → side v (set_p_to b p).
Proof. intros []; by constructor. Qed.

(** A batch is taken along; an event is taken out of its batch. *)
Lemma unpopped_app l1 l2 : unpopped (l1 ++ l2) = (unpopped l1 + unpopped l2)%nat.
Proof. unfold unpopped. by rewrite filter_app, length_app. Qed.

Lemma unpopped_cons b es l : unpopped ((b, es) :: l) = ((if b then 0 else 1) + unpopped l)%nat.
Proof. unfold unpopped. by destruct b. Qed.

Lemma leave_ok n d : inv n d → inv n (inproc_leave d) ∧ (p_to (me d) ≠ [] → mu (inproc_leave d) < mu d)%nat.
Proof.
  destruct d as [m y]. intros (v & u & [Hm Hy Hc Hi Ho Hcost Hrc]). change (inproc_leave (Duo m y))
    with (Duo (set_p_to [] m) (set_p_net (p_net y ++ [(false, p_to m)]) y)).
  assert (flying (set_p_to [] m) (set_p_net (p_net y ++ [(false, p_to m)]) y) = flying m y) as E1 by done.
  assert (flying (set_p_net (p_net y ++ [(false, p_to m)]) y) (set_p_to [] m) = flying y m) as E2.
  { unfold flying. cbn [p_net p_to set_p_net set_p_to]. rewrite fmap_app, concat_app. cbn. by rewrite !app_nil_r. }
  split.
  - exists v, u. cbn [me you]. split; [by apply side_to|by apply side_net|done|by rewrite E1, E2..|done|done].
  - intros Hto. unfold mu. cbn [me you]. rewrite E1, E2.
    cbn [p_to p_q p_net set_p_to set_p_net]. change (live (set_p_to [] m)) with (live m).
    change (live (set_p_net _ y)) with (live y). rewrite unpopped_app, unpopped_cons.
    destruct (p_to m) as [|e es] eqn:E; [by destruct (Hto E)|]. cbn. lia.
Qed.

Lemma pop_ok n i d es : inv n d → p_net (me d) !! i = Some (false, es) → toward n (mu d) 0 (inproc_pop i d).
Proof.
  destruct d as [m y]. intros (v & u & [Hm Hy Hc Hi Ho Hcost Hrc]) Hb. cbn [me] in Hb.
  unfold inproc_pop. cbn [me]. rewrite Hb. step. eexists. split; [done|].
  change (on_me _ (Duo m y)) with (Duo (set_p_net (<[i:=(true, es)]> (p_net m)) m) y).
  assert (flying (set_p_net (<[i:=(true, es)]> (p_net m)) m) y = flying m y) as E1.
  { unfold flying. cbn [p_net set_p_net]. rewrite list_fmap_insert. cbn [snd]. rewrite list_insert_id; [done|].
    by rewrite list_lookup_fmap, Hb. }
  split.
  - exists v, u. cbn [me you]. split; [by apply side_net|done|done|by rewrite E1|by rewrite E1|done|done].
  - unfold mu. cbn [me you]. rewrite E1. change (flying y (set_p_net _ m)) with (flying y m).
    change (live (set_p_net _ m)) with (live m). cbn [p_to p_q p_net set_p_net].
    pose proof (lookup_lt_Some _ _ _ Hb) as Hl. rewrite insert_take_drop by done.
    assert (unpopped (p_net m) = unpopped (take i (p_net m) ++ (false, es) :: drop (S i) (p_net m))) as ->
      by by rewrite (take_drop_middle _ _ _ Hb).
    rewrite !unpopped_app, !unpopped_cons. lia.
Qed.

(** An event may overtake others only when they all are messages or receipts. *)
Definition lightb (e : Z) : bool := (e =? NN_SINPROC_SENT) || (e =? NN_SINPROC_RECEIVED).
Definition ordered (i : nat) (d : duo) : bool :=
  match p_net (me d) !! i with
  | Some (_, e :: _) =>
      let pre := concat (snd <$> take i (p_net (me d))) in
      bool_decide (pre = []) || (lightb e && forallb lightb pre)
  | _ => true
  end.

Lemma lightb_rank e : lightb e = true → rank e = 1.
Proof.
  unfold lightb, rank. rewrite orb_true_iff, !Z.eqb_eq. intros [-> | ->]; done.
Qed.

Lemma deliver_split i b e es m y : p_net m !! i = Some (b, e :: es) →
  let pre := concat (snd <$> take i (p_net m)) in
  ∃ post, flying m y = pre ++ e :: post ∧ flying (set_p_net (net_rest i es (p_net m)) m) y = pre ++ post.
Proof.
  intros Hb pre. set (post := concat (snd <$> drop (S i) (p_net m)) ++ p_to y). exists (es ++ post). split.
  - unfold flying. rewrite <- (take_drop_middle _ _ _ Hb) at 1. rewrite fmap_app, concat_app, fmap_cons.
    cbn [concat snd]. unfold pre, post. rewrite <- !app_assoc. cbn [app]. by rewrite <- ?app_assoc.
  - unfold flying, net_rest. cbn [p_net set_p_net p_to]. pose proof (lookup_lt_Some _ _ _ Hb). destruct es as [|e' es].
    + rewrite delete_take_drop, fmap_app, concat_app. unfold pre, post. by rewrite <- !app_assoc.
    + rewrite insert_take_drop by done. rewrite fmap_app, concat_app, fmap_cons. cbn [concat snd]. unfold pre, post.
      rewrite <- !app_assoc. cbn [app]. by rewrite <- ?app_assoc.
Qed.

Lemma deliver_taken i b e es m y : p_net m !! i = Some (b, e :: es) → ordered i (Duo m y) = true →
  fly (flying m y) → taken e (flying m y) (flying (set_p_net (net_rest i es (p_net m)) m) y).
Proof.
  intros Hb Ho Hf. unfold ordered in Ho. cbn [me] in Ho. rewrite Hb in Ho.
  destruct (deliver_split i b e es m y Hb) as (post & E & ->). rewrite E in *. apply fly_taken; [done|].
  intros x Hx. apply orb_prop in Ho as [Hp%bool_decide_eq_true|[He Hp]%andb_prop].
  - rewrite Hp in Hx. by apply not_elem_of_nil in Hx.
  - rewrite forallb_forall in Hp. rewrite !lightb_rank; [done|done|]. apply Hp. by apply list_elem_of_In.
Qed.

Lemma deliver_mu i e es m y : p_net m !! i = Some (true, e :: es) →
  (mu (Duo (set_p_net (net_rest i es (p_net m)) m) y) + wt (live m) e ≤ mu (Duo m y) + 1)%nat.
Proof.
  intros Hb. destruct (deliver_split i true e es m y Hb) as (post & E & E'). unfold mu. cbn [me you]. rewrite E, E'.
  change (flying y (set_p_net _ m)) with (flying y m). change (live (set_p_net _ m)) with (live m).
  cbn [p_to p_q p_net set_p_net]. unfold wsum. rewrite !sum_list_with_app. cbn [sum_list_with].
  assert (unpopped (net_rest i es (p_net m)) ≤ unpopped (p_net m) + 1)%nat; [|lia].
  assert (unpopped (p_net m) = unpopped (take i (p_net m) ++ (true, e :: es) :: drop (S i) (p_net m))) as ->
    by by rewrite (take_drop_middle _ _ _ Hb).
  pose proof (lookup_lt_Some _ _ _ Hb). unfold net_rest. destruct es as [|e' es].
  - rewrite delete_take_drop, !unpopped_app, unpopped_cons. lia.
  - rewrite insert_take_drop by done. rewrite !unpopped_app, !unpopped_cons. lia.
Qed.

(** Where an event can be delivered. *)
Lemma taken_where v u F F' G e rcvd sent rcvd' sent' : compat (v_st v) (v_st u) = true →
  linked v u F G rcvd sent → linked u v G F rcvd' sent' → taken e F F' →
  (e = NN_SINPROC_CONNECT ∧ v_st v = V_none) ∨ (e = NN_SINPROC_READY ∧ v_st v = V_connecting) ∨
  (e = NN_SINPROC_ACCEPTED ∧ v_st v = V_ready) ∨
  ((light e ∨ e = NN_SINPROC_DISCONNECT) ∧ (v_st v = V_active ∨ v_st v = V_stopping)).
Proof.
  intros Hc Hi Ho (HF & Hin & Hr & _). pose proof (fly_types _ (k_fly _ _ _ _ _ _ _ _ _ _ Hi) e Hin) as H6.
  assert (∀ x, x ∈ F → rank x = 0 → rank e = 0) as H0.
  { intros x Hx E. specialize (Hr x Hx). unfold rank in *. repeat case_match; lia. }
  assert (e = 1 ∨ e = 2 ∨ e = 3 ∨ e = 4 ∨ e = 5 ∨ e = 6) as He by lia.
  destruct Hi as [_ [Hk _] [Hk' _] [Hk'' Ka] [Kd _] Kh Kq _ _ _ _ _ _], Ho as [_ _ _ _ _ _ Kq' _ _ _ _ _ _].
  destruct He as [->|[->|[->|[->|[->| ->]]]]].
  - left. split; [done|]. by apply Hk.
  - right; left. split; [done|]. by apply Hk'.
  - right; right; left. split; [done|]. by apply Hk''.
  - right; right; right. split; [by left; left|].
    destruct (v_st v) eqn:Ev, (v_st u) eqn:Eu; try done; try (by left); try (by right);
      try (destruct Kq as [Kq _]; [tauto|]; by destruct Kq);
      try (specialize (Kh eq_refl); rewrite Kh in Hin; by apply not_elem_of_nil in Hin);
      try (assert (NN_SINPROC_ACCEPTED ∈ F) as Ha by (apply Ka; tauto); by specialize (H0 _ Ha eq_refl)).
  - right; right; right. split; [by left; right|].
    destruct (v_st v) eqn:Ev, (v_st u) eqn:Eu; try done; try (by left); try (by right);
      try (destruct Kq' as (_ & Kq' & _); [tauto|]; by destruct Kq');
      try (specialize (Kh eq_refl); rewrite Kh in Hin; by apply not_elem_of_nil in Hin).
  - right; right; right. split; [by right|]. destruct (Kd Hin) as [Hs Hh].
    destruct (v_st v) eqn:Ev, (v_st u) eqn:Eu; try done; try (by left); try (by right);
      try (assert (NN_SINPROC_ACCEPTED ∈ F) as Ha by (apply Ka; tauto); by specialize (H0 _ Ha eq_refl)).
Qed.

Lemma deliver_ok n i d : inv n d → n < 2 ^ 64 → side_enabled (J_deliver i) d = true → ordered i d = true →
  toward n (mu d) 0 (inproc_deliver i d).
Proof.
  destruct d as [m y]. intros (v & u & Hp) Hn He Hord. cbn [side_enabled me] in He. apply andb_prop in He as [Hfree He].
  destruct (p_net m !! i) as [[[] [|e es]]|] eqn:Hb; try done. apply andb_prop in Hfree as [Hq%bool_decide_eq_true _].
  unfold inproc_deliver. cbn [me]. rewrite Hb. step. cbn [snd].
  set (m' := set_p_net (net_rest i es (p_net m)) m). change (on_me _ (Duo m y)) with (Duo m' y).
  pose proof Hp as [Hm Hy Hc Hi Ho Hcost Hrc]. cbn [me you] in *.
  pose proof (deliver_taken i true e es m y Hb Hord (k_fly _ _ _ _ _ _ _ _ _ _ Hi)) as Ht. fold m' in Ht.
  assert (delivered n v u e (flying m y) (flying m' y) (flying y m) m' y) as Hd.
  { split; try done. split; try done. by apply side_net. }
  assert (p_q m' = []) as Hq' by done.
  assert (∀ f, toward n (mu (Duo m' y) + wt (live m') e) 1 f → toward n (mu (Duo m y)) 0 f) as Hmu.
  { pose proof (deliver_mu i e es m y Hb) as Hmu. fold m' in Hmu. change (live m) with (live m') in Hmu.
    intros f (d & -> & Hd' & Hlt). exists d. split_and!; [done|done|lia]. }
  clearbody m'. apply Hmu. destruct (taken_where _ _ _ _ _ _ _ _ _ _ Hc Hi Ho Ht) as [[-> Hv]|[[-> Hv]|[[-> Hv]|[He' Hv]]]].
  - change (NN_SINPROC_CONNECT =? NN_SINPROC_CONNECT) with true. cbv iota. eapply feed_connect; [exact Hd|exact Hv].
  - destruct (side_has_sess v m') as [x Hx]; [apply Hd|by rewrite Hv..|]. unfold self. cbn [me]. rewrite Hx. step.
    by eapply feed_ready.
  - destruct (side_has_sess v m') as [x Hx]; [apply Hd|by rewrite Hv..|]. unfold self. cbn [me]. rewrite Hx. step.
    by eapply feed_accepted.
  - assert (e =? NN_SINPROC_CONNECT = false) as -> by (apply Z.eqb_neq; by destruct He' as [[-> | ->]| ->]).
    destruct (side_has_sess v m') as [x Hx]; [apply Hd|by destruct Hv as [-> | ->]..|].
    unfold self. cbn [me]. rewrite Hx. step. destruct Hv as [Hv|Hv].
    + destruct He' as [[-> | ->]| ->]; [by eapply feed_sent|by eapply feed_receipt|by eapply feed_disconnect].
    + destruct He' as [He'| ->]; [by eapply feed_ignored|by eapply feed_stopped].
Qed.
