(* ===== verification/Inproc.v ===== *)
(** * In-process connections: the theorems

    What two sockets that are connected within the process can rely on, over every
    interleaving of the threads that use them, and what happens when events overtake
    each other or an endpoint is closed too early. *)
From S2P Require Import Prelude Msg Fsm Pipe Msgqueue Sinproc InprocLink InprocSafe.

(** ** Runs of the two sides *)

(** The steps the theorems are about: no event is overtaken by one that matters, and
    nobody closes an endpoint whose handshake is not over. *)
Definition side_careful (x : istep) (d : duo) : bool :=
  match x with J_deliver i => ordered i d | J_stop => negb (early d) | _ => true end.
Definition careful (s : iside) (x : istep) (w : duo) : bool := side_careful x (at_side s w).
Definition anyhow (s : iside) (x : istep) (w : duo) : bool := true.

(** What a step may send. *)
Definition step_cost (x : istep) : Z := match x with J_event os | J_ops os => iops_cost os | _ => 0 end.

(** [inproc_reach allowed c1 c2 n w]: [w] is reached by allowed steps in which the
    users send at most [n] messages and bytes. *)
Inductive inproc_reach (allowed : iside → istep → duo → bool) (c1 c2 : iconf) : Z → duo → Prop :=
| ir_init w : inproc_init c1 c2 = Ret w → inproc_reach allowed c1 c2 0 w
| ir_step n s x w w' : inproc_reach allowed c1 c2 n w → inproc_enabled s x w = true → allowed s x w = true →
    inproc_exec s x w = Ret w' → inproc_reach allowed c1 c2 (n + step_cost x) w'.

(** Steps nobody asks for: the threads go on. *)
Definition silent (x : istep) : bool :=
  match x with J_event [] | J_leave | J_pop _ | J_deliver _ => true | _ => false end.
Definition silent_step (w w' : duo) : Prop :=
  ∃ s x, silent x = true ∧ inproc_enabled s x w = true ∧ careful s x w = true ∧ inproc_exec s x w = Ret w'.

(** Nothing is under way. *)
Definition settled (w : duo) : Prop :=
  p_q (me w) = [] ∧ p_q (you w) = [] ∧ flying (me w) (you w) = [] ∧ flying (you w) (me w) = [].

Lemma step_cost_nonneg x : 0 ≤ step_cost x.
Proof. destruct x; try done; apply iops_cost_nonneg. Qed.

Lemma free_true p : free p = true → p_q p = [].
Proof. intros [Hq%bool_decide_eq_true _]%andb_prop. done. Qed.

(** Every careful step. *)
Lemma side_step_ok n x d : inv n d → side_enabled x d = true → side_careful x d = true → n + step_cost x < 2 ^ 64 →
  steps (n + step_cost x) (side_exec x d).
Proof.
  intros Hi He Hc Hn.
  assert (∀ k c f, toward n k c f → steps (n + 0) f) as Hto.
  { intros k c f (d' & -> & Hd & _). exists d'. rewrite Z.add_0_r. by split. }
  destruct x as [os| |i|i|os|]; cbn [side_exec side_enabled side_careful step_cost] in *.
  - apply negb_true_iff, bool_decide_eq_false in He. by apply ctx_event_ok.
  - eexists. split; [done|]. rewrite Z.add_0_r. by apply leave_ok.
  - destruct (p_net (me d) !! i) as [[[] es]|] eqn:Hb; try done. by eapply Hto, pop_ok.
  - eapply Hto, deliver_ok; try done. lia.
  - by apply iops_ok.
  - destruct (endpoint_stop_ok n d Hi (free_true _ He)) as (d' & E & Hd); [by apply negb_true_iff|].
    exists d'. rewrite Z.add_0_r. by split.
Qed.

Lemma inv_at_side n s w : inv n w ↔ inv n (at_side s w).
Proof.
  destruct s; [done|]. split; [apply inv_swap|]. intros H%inv_swap. by destruct w.
Qed.

Lemma inproc_step_ok n s x w : inv n w → inproc_enabled s x w = true → careful s x w = true → n + step_cost x < 2 ^ 64 →
  steps (n + step_cost x) (inproc_exec s x w).
Proof.
  intros Hi%(inv_at_side n s) He Hc Hn. destruct (side_step_ok n x _ Hi He Hc Hn) as (d & E & Hd).
  unfold inproc_exec. rewrite E. step. exists (at_side s d). split; [done|]. apply (inv_at_side _ s). by destruct s, d.
Qed.

(** The connection is set up. *)
Lemma inproc_init_ok c1 c2 : 0 ≤ n_add_rc c1 → 0 ≤ n_add_rc c2 → steps 0 (inproc_init c1 c2).
Proof.
  intros H1 H2. eexists. split.
  - unfold inproc_init. destruct c1 as [[] ? ? ?], c2 as [[] ? ? ?]; reflexivity.
  - match goal with |- inv 0 ?d => change d with
      (Duo (Proc c1 2 2 (Some (Sinproc 2 NN_SINPROC_STATE_CONNECTING 0 false
              (Pipebase NN_PIPEBASE_STATE_IDLE IN_DEACTIVATED OUT_DEACTIVATED None (n_options c1))
              (nn_msgqueue_init mheap_empty (n_rcvbuf c1)) (VMsg [] [] []))) [] [NN_SINPROC_CONNECT] [] false false [] [])
           (Proc c2 2 2 None [] [] [] false false [] [])) end.
    exists (View V_connecting false false (VMsg [] [] []) []), (View V_none false false (VMsg [] [] []) []).
    cbn [me you]. change (flying (Proc c1 _ _ _ _ _ _ _ _ _ _) _) with (@nil Z).
    change (flying (Proc c2 _ _ _ _ _ _ _ _ _ _) _) with [NN_SINPROC_CONNECT].
    split; try done; [apply side_connecting; [done|apply mq_ok_init]|apply side_none|apply link_start_in|apply link_start_out].
Qed.

Lemma inproc_reach_inv c1 c2 n w : 0 ≤ n_add_rc c1 → 0 ≤ n_add_rc c2 → inproc_reach careful c1 c2 n w → n < 2 ^ 64 → inv n w.
Proof.
  intros H1 H2. induction 1 as [w E|n s x w w' Hr IH He Hc E]; intros Hn.
  - destruct (inproc_init_ok c1 c2 H1 H2) as (d & E' & Hd). rewrite E in E'. by injection E' as <-.
  - pose proof (step_cost_nonneg x). destruct (inproc_step_ok n s x w) as (d & E' & Hd); [apply IH; lia|done..|].
    rewrite E in E'. by injection E' as <-.
Qed.

(** ** Messages *)





(** ** The threads come to an end *)

Lemma mu_swap d : mu (swap d) = mu d.
Proof. unfold mu. cbn [me you swap]. lia. Qed.

Lemma mu_at_side s d : mu (at_side s d) = mu d.
Proof. destruct s; [done|apply mu_swap]. Qed.

Lemma silent_ok n x d : inv n d → n < 2 ^ 64 → silent x = true → side_enabled x d = true → side_careful x d = true →
  toward n (mu d) 0 (side_exec x d).
Proof.
  intros Hi Hn Hs He Hc. destruct x as [[|]| |i|i| |]; try done; cbn [side_exec side_enabled side_careful] in *.
  - apply negb_true_iff, bool_decide_eq_false in He.
    destruct (event_split n [] d Hi He) as (d' & [-> | ->] & Hd & Hmu); exists d'; split_and!; try done; lia.
  - apply andb_prop in He as [_ Ht%negb_true_iff%bool_decide_eq_false]. destruct (leave_ok n d Hi) as [Hd Hmu].
    eexists. split; [done|]. split; [done|]. specialize (Hmu Ht). lia.
  - destruct (p_net (me d) !! i) as [[[] es]|] eqn:Hb; try done. by eapply pop_ok.
  - by apply deliver_ok.
Qed.

Lemma silent_less n w w' : inv n w → n < 2 ^ 64 → silent_step w w' → inv n w' ∧ (mu w' < mu w)%nat.
Proof.
  intros Hi Hn (s & x & Hs & He & Hc & E). apply (inv_at_side _ s) in Hi.
  destruct (silent_ok n x _ Hi Hn Hs He Hc) as (d & Ed & Hd & Hmu). unfold inproc_exec in E. rewrite Ed in E.
  injection E as <-. rewrite mu_at_side in *. split; [|lia]. apply (inv_at_side _ s). by destruct s, d.
Qed.

Lemma silent_run n k w w' : inv n w → n < 2 ^ 64 → nsteps silent_step k w w' → inv n w' ∧ (k + mu w' ≤ mu w)%nat.
Proof.
  intros Hi Hn Hk. revert Hi. induction Hk as [w|k w w1 w2 Hs _ IH]; intros Hi; [split; [done|lia]|].
  destruct (silent_less n _ _ Hi Hn Hs) as [Hi1 Hlt]. destruct (IH Hi1). split; [done|lia].
Qed.

(** The first event on the way, if there is one. *)
Lemma first_batch (net : list (bool * list Z)) : concat (snd <$> net) ≠ [] →
  ∃ i b e es, net !! i = Some (b, e :: es) ∧ concat (snd <$> take i net) = [].
Proof.
  induction net as [|[b [|e es]] net IH]; intros Hne; [done| |by exists 0%nat, b, e, es].
  destruct (IH Hne) as (i & b' & e & es & Hi & Hp). by exists (S i), b', e, es.
Qed.

(** A side with something to do can do it. *)
Lemma side_progress d : p_q (me d) ≠ [] ∨ p_to (me d) ≠ [] ∨ free (me d) = true ∧ concat (snd <$> p_net (me d)) ≠ [] →
  ∃ x, silent x = true ∧ side_enabled x d = true ∧ side_careful x d = true.
Proof.
  intros H. destruct (decide (p_q (me d) = [])) as [Hq|Hq].
  2:{ exists (J_event []). split_and!; [done| |done]. cbn. by rewrite bool_decide_eq_false_2. }
  destruct (decide (p_to (me d) = [])) as [Ht|Ht].
  2:{ exists J_leave. split_and!; [done| |done]. cbn. by rewrite bool_decide_eq_true_2, bool_decide_eq_false_2. }
  destruct H as [?|[?|[Hf Hn]]]; [done|done|]. destruct (first_batch _ Hn) as (i & b & e & es & Hi & Hp). destruct b.
  - exists (J_deliver i). split_and!; [done|cbn; by rewrite Hf, Hi|]. cbn. unfold ordered. rewrite Hi, Hp. done.
  - exists (J_pop i). split_and!; [done|cbn; by rewrite Hi|done].
Qed.

Lemma progress n w : inv n w → n < 2 ^ 64 → ¬ settled w → ∃ w', silent_step w w'.
Proof.
  intros Hi Hn Hs.
  assert (∀ s, (∃ x, silent x = true ∧ side_enabled x (at_side s w) = true ∧ side_careful x (at_side s w) = true) →
    ∃ w', silent_step w w') as Hgo.
  { intros s (x & Hx & He & Hc). pose proof (proj1 (inv_at_side n s w) Hi) as Hi'.
    destruct (silent_ok n x _ Hi' Hn Hx He Hc) as (d & E & _). exists (at_side s d), s, x.
    split_and!; try done. unfold inproc_exec. by rewrite E. }
  destruct (decide (p_q (me w) = [])) as [H1|]; [|apply (Hgo S_first), side_progress; by left].
  destruct (decide (p_to (me w) = [])) as [H2|]; [|apply (Hgo S_first), side_progress; right; by left].
  destruct (decide (p_q (you w) = [])) as [H3|]; [|apply (Hgo S_second), side_progress; by left].
  destruct (decide (p_to (you w) = [])) as [H4|]; [|apply (Hgo S_second), side_progress; right; by left].
  assert (free (me w) = true ∧ free (you w) = true) as [Hf1 Hf2].
  { unfold free. by rewrite !bool_decide_eq_true_2. }
  destruct (decide (concat (snd <$> p_net (me w)) = [])) as [H5|]; [|apply (Hgo S_first), side_progress; right; by right].
  destruct (decide (concat (snd <$> p_net (you w)) = [])) as [H6|]; [|apply (Hgo S_second), side_progress; right; by right].
  destruct Hs. unfold settled, flying. by rewrite H2, H4, H5, H6.
Qed.

(** What is left of an endpoint that was closed. *)
Lemma settled_closed n s w : inv n w → settled w → p_fsm (me (at_side s w)) ≠ NN_FSM_STATE_ACTIVE →
  p_sess (me (at_side s w)) = None ∧ p_fsm (me (at_side s w)) = NN_FSM_STATE_IDLE ∧
  p_state (me (at_side s w)) = NN_BINPROC_STATE_IDLE ∧
  p_out (you (at_side s w)) = false ∧ p_in (you (at_side s w)) = false.
Proof.
  intros Hi Hset. apply (inv_at_side _ s) in Hi. destruct (at_side s w) as [p q] eqn:Es. cbn [me you].
  assert (p_q p = [] ∧ p_q q = [] ∧ flying p q = [] ∧ flying q p = []) as (Hq1 & Hq2 & HF & HG).
  { destruct Hset as (? & ? & ? & ?). destruct s; cbn [at_side swap] in Es; [by rewrite Es in *|by injection Es as <- <-]. }
  destruct Hi as (v & u & [Hm Hy Hc Hl Ho _ _]). cbn [me you] in *. intros Hf.
  pose proof (k_disc _ _ _ _ _ _ _ _ _ _ Hl) as Hd1. pose proof (k_disc _ _ _ _ _ _ _ _ _ _ Ho) as Hd2.
  rewrite HF in Hd1. rewrite HG in Hd2.
  assert (said (v_st v) = true ∧ said (v_st u) = true → heard (v_st v) = true ∧ heard (v_st u) = true) as Hh.
  { intros [H1 H2]. split; apply not_false_iff_true; intros Hh; eapply not_elem_of_nil; [apply Hd1|apply Hd2]; done. }
  destruct Hm as [| | | | | |? pf| c pf ? ? ? ? evs ? ? ? ? Hpf]; cbn [p_fsm p_q v_st said heard] in *; try done.
  - destruct (said (v_st u)) eqn:Hs; [by destruct Hh|]. exfalso. eapply not_elem_of_nil, Hd2. split; [done|].
    by destruct (v_st u).
  - destruct Hpf as [[-> _]|[-> Hevs]]; [done|]. split_and!; [done|done|done|..].
    all: destruct Hy; cbn [v_st said heard compat p_out p_in andb] in *; try done; by destruct Hh.
Qed.

(** C18: an in-process connection does not fail, and its threads come to an end.
    Provided that [nn_sock_add] accepts the pipe on both sides, that a thread delivers
    an event only after those the other side raised before it (messages and receipts
    may overtake each other), that no endpoint is closed while its own handshake is
    not over, and that fewer than 2^64 messages and bytes are sent ([inproc_faults]
    shows what happens otherwise): the connection can be set up, and every step of
    every reachable state returns, so that no assertion of sinproc.c, binproc.c,
    cinproc.c, msgqueue.c or the pipe fails, no event is queued twice and no freed
    session is used, however the threads interleave.  From every reachable state at
    most [mu w] more steps are made before the next call of a user, they do not stop
    before everything is delivered and processed, and then the session of every
    endpoint that was closed is freed, the endpoint is idle, and the protocol at the
    other end has forgotten the pipe. *)
Theorem inproc_safe c1 c2 : 0 ≤ n_add_rc c1 → 0 ≤ n_add_rc c2 →
  (∃ w, inproc_init c1 c2 = Ret w ∧ inproc_reach careful c1 c2 0 w) ∧
  ∀ n w, inproc_reach careful c1 c2 n w → n < 2 ^ 64 →
    (∀ s x, inproc_enabled s x w = true → careful s x w = true → n + step_cost x < 2 ^ 64 →
       ∃ w', inproc_exec s x w = Ret w' ∧ inproc_reach careful c1 c2 (n + step_cost x) w') ∧
    ∀ k w', nsteps silent_step k w w' →
      (k ≤ mu w)%nat ∧
      ((∀ w'', ¬ silent_step w' w'') → settled w' ∧
        ∀ s, p_fsm (me (at_side s w')) ≠ NN_FSM_STATE_ACTIVE →
          p_sess (me (at_side s w')) = None ∧ p_fsm (me (at_side s w')) = NN_FSM_STATE_IDLE ∧
          p_state (me (at_side s w')) = NN_BINPROC_STATE_IDLE ∧
          p_out (you (at_side s w')) = false ∧ p_in (you (at_side s w')) = false).
Proof.
  intros H1 H2. split.
  { destruct (inproc_init_ok c1 c2 H1 H2) as (w & E & _). exists w. split; [done|]. by constructor. }
  intros n w Hr Hn. pose proof (inproc_reach_inv _ _ _ _ H1 H2 Hr Hn) as Hi. split.
  - intros s x He Hc Hx. destruct (inproc_step_ok n s x w Hi He Hc Hx) as (w' & E & _).
    exists w'. split; [done|]. by eapply ir_step.
  - intros k w' Hk. destruct (silent_run n k w w' Hi Hn Hk) as [Hi' Hmu]. split; [lia|]. intros Hend.
    assert (settled w') as Hset.
    { destruct (decide (settled w')) as [|Hns]; [done|].
      destruct (progress n w' Hi' Hn Hns) as [w'' ?]. by destruct (Hend w''). }
    split; [done|]. intros s. by eapply settled_closed.
Qed.

(** ** Examples *)

Module InprocSample.

Definition opts : nn_ep_options := EpOptions 8 8 1.
Definition conf (bind : bool) (rc : Z) : iconf := IConf bind 100 opts rc.

Section sched.
Context (allowed : iside → istep → duo → bool) (c1 c2 : iconf).

(** A sequence of steps, each of them enabled and allowed. *)
Fixpoint isched (l : list (iside * istep)) (w : duo) : option duo :=
  match l with
  | [] => Some w
  | (s, x) :: l =>
      if inproc_enabled s x w && allowed s x w then
        match inproc_exec s x w with Ret w => isched l w | Fail _ => None end
      else None
  end.

Fixpoint sched_cost (l : list (iside * istep)) : Z :=
  match l with [] => 0 | (_, x) :: l => step_cost x + sched_cost l end.

Definition ischeds (l : list (iside * istep)) (f : duo → bool) : bool :=
  match inproc_init c1 c2 with
  | Ret w => match isched l w with Some w => f w | None => false end
  | Fail _ => false
  end.

Lemma isched_reach l n w w' : inproc_reach allowed c1 c2 n w → isched l w = Some w' →
  inproc_reach allowed c1 c2 (n + sched_cost l) w'.
Proof.
  revert n w. induction l as [|[s x] l IH]; intros n w Hr; cbn [isched sched_cost].
  - intros [= <-]. by rewrite Z.add_0_r.
  - destruct (_ && _) eqn:He; [|done]. apply andb_prop in He as [He Ha].
    destruct (inproc_exec s x w) as [w1|] eqn:E; [|done]. intros Hl. rewrite Z.add_assoc. eapply IH; [|done]. by eapply ir_step.
Qed.

Lemma ischeds_reach l f : ischeds l f = true → ∃ w, inproc_reach allowed c1 c2 (sched_cost l) w ∧ f w = true.
Proof.
  unfold ischeds. destruct (inproc_init c1 c2) as [w|] eqn:E; [|done].
  destruct (isched l w) as [w'|] eqn:El; [|done]. intros Hf. exists w'. split; [|done].
  apply (isched_reach l 0 w); [by constructor|done].
Qed.

End sched.

Definition A : iside := S_first.
Definition B : iside := S_second.

(** A thread delivers all it carries to a side. *)
Definition take1 (s : iside) : list (iside * istep) := [(s, J_pop 0); (s, J_deliver 0)].
Definition ev (s : iside) : iside * istep := (s, J_event []).
Definition leave (s : iside) : iside * istep := (s, J_leave).

(** The handshake: CONNECT, READY, ACCEPTED, and both protocols hear of their pipes. *)
Definition shake : list (iside * istep) :=
  [leave A] ++ take1 B ++ [leave B] ++ take1 A ++ [ev A; leave A] ++ take1 B ++ [ev B].

Definition m1 : vmsg := VMsg [7] [] [1; 2; 3].
Definition m2 : vmsg := VMsg [] [] (replicate 99 5).
Definition m3 : vmsg := VMsg [8] [] [9].

(** Three messages; the second one does not fit until the first one is received. *)
Definition talk : list (iside * istep) :=
  shake ++ [(A, J_ops [I_send m1]); leave A] ++ take1 B ++ [ev B; leave B] ++ take1 A ++
  [(A, J_event [I_send m2]); leave A] ++ take1 B ++ [(B, J_ops [I_recv]); leave B] ++ take1 A ++
  [(A, J_event [I_send m3]); leave A] ++ take1 B ++ [(B, J_ops [I_recv]); leave B] ++ take1 A ++
  [(B, J_ops [I_recv]); ev A].

(** Both sides are closed, the second one first. *)
Definition goodbye : list (iside * istep) :=
  talk ++ [(B, J_stop); leave B] ++ take1 A ++ [ev A; ev A; leave A] ++ take1 B ++ [ev B; ev B; (A, J_stop); ev A].

Definition idle (w : duo) : bool :=
  bool_decide (p_q (me w) = []) && bool_decide (p_q (you w) = []) &&
  bool_decide (flying (me w) (you w) = []) && bool_decide (flying (you w) (me w) = []).

Lemma idle_settled w : idle w = true → settled w.
Proof. unfold idle. rewrite !andb_true_iff, !bool_decide_eq_true. by intros [[[? ?] ?] ?]. Qed.

Lemma idle_still w : idle w = true → ∀ w', ¬ silent_step w w'.
Proof.
  intros (Hq1 & Hq2 & HF & HG)%idle_settled w' (s & x & Hx & He & _ & _).
  assert (p_q (me (at_side s w)) = [] ∧ flying (me (at_side s w)) (you (at_side s w)) = [] ∧
    flying (you (at_side s w)) (me (at_side s w)) = []) as (Hq & Hin & Hout) by (by destruct s).
  apply app_eq_nil in Hin as [Hnet _]. apply app_eq_nil in Hout as [_ Hto].
  assert (∀ i b e es, p_net (me (at_side s w)) !! i ≠ Some (b, e :: es)) as Hb.
  { intros i b e es Hi. apply (elem_of_nil e). rewrite <- Hnet. apply list_elem_of_In, in_concat.
    exists (e :: es). split; [|by left]. apply list_elem_of_In, list_elem_of_fmap. exists (b, e :: es).
    split; [done|]. by eapply list_elem_of_lookup_2. }
  unfold inproc_enabled in He. destruct x as [[|]| |i|i| |]; try done; cbn in He.
  - by rewrite Hq in He.
  - rewrite Hto in He. by rewrite andb_false_r in He.
  - specialize (Hb i). destruct (p_net _ !! i) as [[[] [|]]|]; try done. by eapply Hb.
  - specialize (Hb i). rewrite andb_comm in He. destruct (p_net _ !! i) as [[[] [|]]|]; try done. by eapply Hb.
Qed.



End InprocSample.
Import InprocSample.

(** The handshake goes on from the first state; both endpoints can be closed, and then
    nothing is left. *)
Lemma inproc_safe_witness :
  (∃ w w', inproc_init (conf true 0) (conf false 0) = Ret w ∧ inproc_exec S_first J_leave w = Ret w') ∧
  ∃ w, inproc_reach careful (conf true 0) (conf false 0) (sched_cost goodbye) w ∧ settled w ∧
    p_sess (me w) = None ∧ p_sess (you w) = None.
Proof.
  destruct (inproc_safe (conf true 0) (conf false 0)) as [(w0 & E & H0) Hs]; [done|done|]. split.
  { exists w0. destruct (Hs 0 w0 H0) as [Hx _]; [done|]. destruct (Hx S_first J_leave) as (w' & E' & _).
    - vm_compute in E. injection E as <-. vm_compute. reflexivity.
    - reflexivity.
    - reflexivity.
    - exists w'. done. }
  destruct (ischeds_reach careful (conf true 0) (conf false 0) goodbye
    (λ w, idle w && bool_decide (p_fsm (me w) ≠ NN_FSM_STATE_ACTIVE) && bool_decide (p_fsm (you w) ≠ NN_FSM_STATE_ACTIVE)))
    as (w & Hw & Hf); [vm_compute; reflexivity|].
  apply andb_prop in Hf as [Hf H2%bool_decide_eq_true]. apply andb_prop in Hf as [Hi H1%bool_decide_eq_true].
  exists w. split; [done|]. destruct (Hs _ w Hw) as [_ Hk]; [done|].
  destruct (Hk 0%nat w) as [_ Hend]; [constructor|].
  destruct Hend as [Hset Hc]; [by apply idle_still|]. split; [done|].
  split; [apply (Hc S_first); done|apply (Hc S_second); done].
Defined.


(** ** What the theorems leave out *)

(** How a step fails after a schedule. *)
Definition ifault (c1 c2 : iconf) (l : list (iside * istep)) (s : iside) (x : istep) : option fault :=
  match inproc_init c1 c2 with
  | Ret w =>
      match isched anyhow l w with
      | Some w => if inproc_enabled s x w then match inproc_exec s x w with Ret _ => None | Fail e => Some e end else None
      | None => None
      end
  | Fail _ => None
  end.

(** An endpoint that is closed before the handshake is over uses a session that it
    does not have, or is left with an ACCEPTED that the other side overtakes; a
    DISCONNECT that overtakes a message makes the session stop, or be freed, while the
    message is on its way; and a socket that refuses the pipe makes the side that
    connects abort and the side that accepts forget to tell its peer. *)
Lemma inproc_faults :
  let ok b := conf b 0 in let no b := conf b (- EISCONN) in
  let to_b := [leave A] ++ take1 B ++ [leave B] in
  let up := to_b ++ take1 A ++ [ev A; leave A] in
  let sent := shake ++ [(A, J_ops [I_send m1]); leave A; (A, J_stop); leave A] in
  ifault (ok false) (ok true) [leave A] A J_stop = Some Crash ∧
  ifault (ok true) (ok false) (up ++ [(B, J_stop); leave B] ++ take1 A) A (J_event []) = Some Abort ∧
  ifault (ok false) (ok true) (sent ++ [(B, J_pop 1); (B, J_deliver 1)]) B (J_event []) = Some Abort ∧
  ifault (ok false) (ok true) (sent ++ [(B, J_pop 0); (B, J_pop 1); (B, J_deliver 1); ev B; ev B; leave B]) B (J_deliver 0) = Some Crash ∧
  ifault (no false) (ok true) (to_b ++ [(A, J_pop 0)]) A (J_deliver 0) = Some Abort ∧
  ifault (ok false) (no true) (up ++ take1 B ++ [ev B; ev B]) A (J_ops [I_send m1]) = Some Crash.
Proof. repeat split; vm_compute; reflexivity. Qed.
